(* ===== verification/_CoqProject ===== *)
-Q . S2P
Prelude.v
Text.v
Identity.v
Signals.v
Events.v
Scheduler.v
Errors.v
Logger.v
Roster.v
Policy.v
Targeting.v
Translations.v
Services.v
CommandSyntax.v
Args.v
Commands.v
Workshop.v
HostCallbacks.v
PluginHost.v
Dependencies.v
PluginLoader.v
Loader.v
Signatures.v
Vtables.v
Images.v
Rtti.v
Elf.v
GameData.v
Migrations.v
Jobs.v
MenuCursor.v
MenuStack.v
MenuFreeze.v
MenuRender.v
ChatInput.v
CenterHtmlMenu.v
Screens.v
Layouts.v
PanoramaMenu.v
MenuBuilder.v
Flow.v
MenuRouter.v
Cooldown.v
ButtonPresses.v
ConVarQueries.v
Vote.v
Visibility.v
GlowVision.v
HttpClient.v
ConVars.v
PluginModule.v
SchemaCheck.v
Damage.v
GameEvents.v
Durations.v
Messages.v
PlayerCommands.v
EngineHooks.v
Settings.v
Connections.v
Entities.v
Pawns.v
VoltCommand.v
HostLifetime.v
ServerServices.v
Hooking.v
Platform.v
PluginRoster.v
MapStart.v
