(* ===== verification/Prelude.v ===== *)
(** * VoltMod: a verification library

    VoltMod is a host for plugins of a game server. The host is loaded by the engine, loads plugin libraries, and hands each
    a view of itself; a plugin links the framework, which turns the engine's callbacks into events, commands, menus, screens
    and votes. Nearly everything runs on the game thread, and nearly every operation calls code it does not know - handlers,
    row callbacks, plugins - which may call back into the operation that is running. The development therefore models, again
    and again, the same three things: a component's state and its operations as the code writes them, the foreign code that
    runs inside them as a program, an oracle or a sequence of steps free to call back, and the invariant that survives it.

    ** The parts, and where each is modelled

    Paths are under [src/] of the repository's [src/], or [include/VoltMod/] for headers; an operation keeps its name,
    prefixed by its class where two classes share it, and a class is the record of its members.

    - What all share. [Prelude.v]: texts, [std::expected] ([expected], [let!]), runs that may go wrong ([outcome], [run!],
      [holds]), machine integers, [std::from_chars]. [Text.v]: [Core/Text/Strings.cpp], [CharBuf.hpp]. [Identity.v]:
      [Core/Slots/]. [Errors.v]: [Core/Result.hpp], [LoadReport.cpp]. [Cooldown.v], [Durations.v]: [Core/Time/].
      [Logger.v]: [Core/Logger.cpp], lines of every thread. [Settings.v]: JSON documents, [App/Config/], paths.
      [Platform.v]: shared libraries, files, [App/LoadConfig.hpp], traces and what else asks the system or the engine once.
    - Events and time. [Signals.v]: [Core/Signals/CallbackRegistry.hpp], under every event. [Events.v]: [Event.hpp],
      [LazyHook.cpp], [Subscription.hpp]. [Scheduler.v]: [Core/Time/Scheduler.cpp] over the registry, and
      [Core/GameThreadQueue.hpp], the one bridge from other threads.
    - Players and commands. [Roster.v]: [Players/PlayerManager.cpp]. [Policy.v]: [Players/Policy.cpp]. [Targeting.v],
      [CommandSyntax.v], [Args.v], [Commands.v]: [Commands/], from a chat line to a handler. [Translations.v]:
      [Core/Text/Translations.cpp] and the host's [LanguageTable].
    - The host. [HostCallbacks.v], [PluginHost.v]: [Host/Plugins/CallbackList.hpp], [PluginContext.cpp],
      [PluginRegistry.cpp], what a plugin takes and leaves behind. [Services.v]: names and interfaces shared between plugins.
      [Dependencies.v], [PluginLoader.v]: which plugins load, unload and reload. [Workshop.v]: [Host/Workshop/].
      [ButtonPresses.v], [PlayerCommands.v]: [Host/Input/]. [VoltCommand.v]: the console command. [EngineHooks.v]:
      [Host/EngineHooks.cpp], what the host makes of each engine call. [HostLifetime.v]: [Host/Host.cpp], its start and
      stop. [Loader.v]: [Loader/], the library in front of the game's.
    - A plugin. [PluginModule.v]: [App/Plugin.cpp], attaching, detaching, console commands. [PluginRoster.v] composes
      [EngineHooks.v], [PluginHost.v]'s registry and [Roster.v]: from the engine's calls to what a plugin sees of its players.
      [MapStart.v]: a map's start across a plugin's services, and the presses its screens listen for.
      [ServerServices.v]: precaching, maps, assets, the status document, text-message and drop filters.
    - Menus. [MenuCursor.v], [MenuStack.v], [MenuFreeze.v], [ChatInput.v]: what every surface shares. [MenuRender.v],
      [CenterHtmlMenu.v]: the center-HTML surface. [Screens.v], [Layouts.v], [PanoramaMenu.v]: Panorama screens and the
      surface on them. [MenuRouter.v]: which surface a player gets. [MenuBuilder.v], [Flow.v]: menus and wizards a plugin
      builds. Both surfaces are instances of one interface, [MenuStack.Surface] with its laws, against which the
      stack's theorems are proved.
    - Into the engine. [Hooking.v]: [Unsafe/Hook.hpp], how a hook is set and removed, and the teleport hook. [ConVarQueries.v],
      [Vote.v], [Visibility.v], [GlowVision.v], [Damage.v]: [Hooks/]. [GameEvents.v]: [Events/]. [ConVars.v]:
      [Engine/ConVars/]. [Messages.v]: [Messaging/]. [Entities.v], [Pawns.v]: [Entities/]. [Signatures.v], [Images.v],
      [Vtables.v], [Rtti.v] (Windows), [Elf.v] (Linux): [Engine/Memory/], finding code in a module; [GameData.v]:
      [Host/GameData/] over them, behind the interface [GameData.ModuleLookup]. [SchemaCheck.v]: [Host/Schema/].
    - Other threads. [Connections.v], [Jobs.v], [Migrations.v]: [Database/], a connection, the worker that owns it, the
      migrations. [HttpClient.v]: [Http/], up to four workers.

    ** What the theorems show

    - Refinements: a registry or a list edited while it is walked behaves as one in which edits take effect at once
      ([DispatchIf_refines], [Walk_refines]); what was written reaches the screen unless the engine refused it
      ([writes_reach_screen]); a drawn page tells the session's page ([drawn_page_is_told]); a death names the hit that dealt it
      ([deaths_name_their_hit]); a plugin's roster is the engine's ([plugin_roster_follows]).
    - Invariants under re-entrant code: the roster's indexes, the host's registry, the loader and the host, the router's
      names, the stacks and their held commits, a running vote, queries that wait, clones kept private, listeners attached once.
    - Nothing left behind and nothing lost: a removed plugin leaves nothing, a job is answered once, completions run once,
      a press is raised once, a callback is called at most once, nobody stays frozen; keyvalues, messages, hooks and libraries
      each end once, after what uses them; log lines and database jobs of other threads are lost by no interleaving.
    - Decisions: authorisation, targets, dispatch, dependencies and the transmit filter do exactly what their specification
      says, which is stated without the code's loops.
    - Bytes and text: parsers of untrusted bytes end and stay within them, printers and parsers invert each other, markup
      stays escaped, truncation cuts between characters.

    ** Fuel, bounds and undefined behaviour

    A loop that is not structural takes fuel, and a theorem shows that the fuel given is enough: [Text.SubstituteTokens] has
    one turn per character, [ButtonPresses.Parse] one field per byte, the menu stack's [depth] allows one commit per slot
    and one more, since a commit runs at most once, and a vote's run performs each event once. [outcome] tells a run that
    returned from one that read what is not there ([Undefined]) and one that ran out ([OutOfFuel]); theorems exclude both or
    say when they happen. Integers are [Z] with the wrap-around written where the code's type is unsigned, and [Undefined]
    where a signed difference overflows; a [double] is its binary64 value, or a tick count where only its order matters.

    ** What is not modelled

    The engine: what it answers is an argument (a record of answers, a function, or an event that changes a record), with
    what the code relies on as a hypothesis where there is one. Parsing JSON, listing directories, opening libraries,
    connections and sockets are inputs for the same reason. Log lines are left out unless a rule limits them. The generated
    schema accessors and event types, interfaces without an implementation, data headers and the code that only forwards to
    the engine, the SDK, protobuf or KHook hold no decision of their own; the manifest lists each of them with its reason.
    Of a part marked partly modelled, what is left out - reads of the engine's memory, clocks, file system walks - is named there.
*)

From Stdlib Require Export ZArith Lia Ascii String Sorted.
From stdpp Require Export base tactics list sorting strings gmap sets.

#[global] Open Scope Z_scope.
#[global] Open Scope list_scope.

(** ** Text

    A [std::string] or [std::string_view] is its sequence of bytes. *)

Abbreviation text := (list ascii).

(** The bytes of a string literal. *)
Definition lit (s : string) : text := list_ascii_of_string s.
Arguments lit s%_string.

Declare Scope volt_scope.
Delimit Scope volt_scope with volt.
Notation "$ s" := (lit s%string) (at level 1, s at level 0, format "$ s") : volt_scope.
#[global] Open Scope volt_scope.

(** [static_cast<unsigned char>(c)] as a number. *)
Definition code (c : ascii) : Z := Z.of_N (N_of_ascii c).

(** The char whose unsigned code is [z] modulo 256. *)
Definition chr (z : Z) : ascii := ascii_of_N (Z.to_N (z mod 256)).

Definition text_eqb (a b : text) : bool := bool_decide (a = b).

(** ** [std::expected] *)

Inductive expected (E A : Type) : Type :=
| Ok (a : A)
| Err (e : E).
Arguments Ok {E A} a.
Arguments Err {E A} e.

Definition expected_bind {E A B} (m : expected E A) (k : A -> expected E B) : expected E B :=
  match m with Ok a => k a | Err e => Err e end.

Notation "'let!' x ':=' m 'in' k" := (expected_bind m (fun x => k))
  (at level 10, x pattern, m at level 100, k at level 200) : volt_scope.

Definition has_value {E A} (m : expected E A) : bool :=
  match m with Ok _ => true | Err _ => false end.

(** ** Runs that may go wrong

    [Undefined] is a read of freed memory or past the end of an array; [OutOfFuel] is a bound of the model
    that was too small. *)

Inductive outcome (A : Type) : Type :=
| Returns (a : A)
| Undefined
| OutOfFuel.
Arguments Returns {A} a.
Arguments Undefined {A}.
Arguments OutOfFuel {A}.

Definition outcome_bind {A B} (m : outcome A) (k : A -> outcome B) : outcome B :=
  match m with Returns a => k a | Undefined => Undefined | OutOfFuel => OutOfFuel end.

Notation "'run!' x ':=' m 'in' k" := (outcome_bind m (fun x => k))
  (at level 10, x pattern, m at level 100, k at level 200) : volt_scope.

Fixpoint outcome_fold {A S} (f : S -> A -> outcome S) (l : list A) (s : S) : outcome S :=
  match l with
  | [] => Returns s
  | a :: rest => run! s' := f s a in outcome_fold f rest s'
  end.

(** ** Machine integers

    A [w]-bit integer is the [Z] it denotes; these are the wrap-arounds of a conversion. *)

Definition int32_min : Z := -2147483648.
Definition int32_max : Z := 2147483647.
Definition int64_min : Z := -9223372036854775808.
Definition int64_max : Z := 9223372036854775807.
Definition uint32_max : Z := 4294967295.
Definition uint64_max : Z := 18446744073709551615.

Definition wrap_u32 (z : Z) : Z := z mod 4294967296.
Definition wrap_u64 (z : Z) : Z := z mod 18446744073709551616.

Definition in_i32 (z : Z) : bool := (int32_min <=? z) && (z <=? int32_max).
Definition in_i64 (z : Z) : bool := (int64_min <=? z) && (z <=? int64_max).

(** ** [std::from_chars] and [std::to_string]

    The C++ library's number parser and printer. [from_chars] reads the longest digit prefix (after a
    minus sign when the type is signed), returns the unread rest, and reports a value that does not fit
    [lo, hi]. *)

Inductive parsed :=
| Parsed (v : Z)
| NoDigits
| OutOfRange.

Definition digit_of (base : Z) (c : ascii) : option Z :=
  let n := code c in
  let d := if (48 <=? n) && (n <=? 57) then n - 48
           else if (97 <=? n) && (n <=? 122) then n - 87
           else if (65 <=? n) && (n <=? 90) then n - 55
           else base in
  if d <? base then Some d else None.

Fixpoint span_digits (base : Z) (s : text) : list Z * text :=
  match s with
  | [] => ([], [])
  | c :: rest =>
      match digit_of base c with
      | Some d => let '(ds, unread) := span_digits base rest in (d :: ds, unread)
      | None => ([], s)
      end
  end.

Definition number_of (base : Z) (ds : list Z) : Z :=
  fold_left (fun acc d => acc * base + d) ds 0.

Definition from_chars (base lo hi : Z) (s : text) : parsed * text :=
  let '(negative, body) :=
    match s with
    | c :: rest => if (lo <? 0) && (code c =? 45) then (true, rest) else (false, s)
    | [] => (false, s)
    end in
  match span_digits base body with
  | ([], _) => (NoDigits, s)
  | (ds, rest) =>
      let v := if negative then - number_of base ds else number_of base ds in
      (if (lo <=? v) && (v <=? hi) then Parsed v else OutOfRange, rest)
  end.

(** The common use: the whole of [s] is one number in range. *)
Definition parse_whole (base lo hi : Z) (s : text) : option Z :=
  match from_chars base lo hi s with
  | (Parsed v, []) => Some v
  | _ => None
  end.

Definition digit_char (d : Z) : ascii := chr (48 + d).

Fixpoint dec_digits (fuel : nat) (n : Z) (acc : text) : text :=
  match fuel with
  | O => acc
  | S f =>
      let acc' := digit_char (n mod 10) :: acc in
      if n <? 10 then acc' else dec_digits f (n / 10) acc'
  end.

(** [std::to_string], and [std::format]'s [{}] on an integer. One digit per binary digit is fuel enough. *)
Definition dec (z : Z) : text :=
  let digits n := dec_digits (S (Z.to_nat (Z.log2 n))) n [] in
  if z <? 0 then "-"%char :: digits (- z) else digits z.

(** ** Sequences *)

(** How many leading elements satisfy [p]: [std::find_if_not], or [std::lower_bound] on a sorted range. *)
Fixpoint count_while {A} (p : A -> bool) (s : list A) : nat :=
  match s with
  | [] => O
  | c :: rest => if p c then S (count_while p rest) else O
  end.

Arguments dec z : simpl never.
Arguments lit s : simpl never.
Arguments code c : simpl never.
Arguments chr z : simpl never.

(** ** Tactics *)

(** Case analysis on every [match] and [if] of the goal, closing what computes or is arithmetic. *)
Ltac cases := repeat (case_match; simplify_eq/=; try lia; try done).

(** Turn the boolean tests of the context into propositions. *)
Ltac bools :=
  repeat match goal with
  | H : _ && _ = true |- _ => apply andb_prop in H; destruct H
  | H : _ || _ = false |- _ => apply orb_false_iff in H; destruct H
  | H : negb _ = true |- _ => apply negb_true_iff in H
  | H : negb _ = false |- _ => apply negb_false_iff in H
  | H : bool_decide _ = true |- _ => apply bool_decide_eq_true in H
  | H : bool_decide _ = false |- _ => apply bool_decide_eq_false in H
  end.

(** Split an [expected] computation that is known to have succeeded. *)
Ltac ok_inv :=
  repeat match goal with
  | H : expected_bind ?m _ = Ok _ |- _ => destruct m eqn:?; simplify_eq/=
  | H : expected_bind ?m _ = Err _ |- _ => destruct m eqn:?; simplify_eq/=
  end.

(** Split an [outcome] computation that is known to have returned. *)
Ltac returns_inv :=
  repeat match goal with
  | H : outcome_bind ?m _ = Returns _ |- _ => destruct m eqn:?; simplify_eq/=
  end.

Create HintDb volt.
Create Rewrite HintDb volt_rw.

(** ** Facts about numbers and their text *)

Lemma text_eqb_true a b : text_eqb a b = true <-> a = b.
Proof. apply bool_decide_eq_true. Qed.

Lemma text_eqb_false a b : text_eqb a b = false <-> a <> b.
Proof. apply bool_decide_eq_false. Qed.

Lemma text_eqb_refl a : text_eqb a a = true.
Proof. by apply text_eqb_true. Qed.

#[export] Hint Rewrite text_eqb_refl : volt_rw.
#[export] Hint Resolve text_eqb_refl : volt.

Lemma negb_eqb_true a b : negb (a =? b) = true <-> a <> b.
Proof. rewrite negb_true_iff. apply Z.eqb_neq. Qed.

Lemma code_range c : 0 <= code c < 256.
Proof. unfold code. pose proof (N_ascii_bounded c). lia. Qed.

Lemma code_chr z : 0 <= z < 256 -> code (chr z) = z.
Proof.
  intros Hz. unfold code, chr. rewrite Z.mod_small by lia.
  rewrite N_ascii_embedding by lia. lia.
Qed.

Lemma chr_code c : chr (code c) = c.
Proof.
  unfold code, chr. pose proof (N_ascii_bounded c).
  rewrite Z.mod_small by lia. rewrite N2Z.id. apply ascii_N_embedding.
Qed.

Lemma code_inj a b : code a = code b -> a = b.
Proof. intros H. by rewrite <- (chr_code a), <- (chr_code b), H. Qed.

(** A property of every char is decided by computing it on the 256 of them. *)
Lemma all_chars (P : ascii -> bool) :
  forallb (fun n => P (chr (Z.of_nat n))) (seq 0 256) = true -> forall c, P c = true.
Proof.
  intros H c. rewrite forallb_forall in H. pose proof (code_range c).
  specialize (H (Z.to_nat (code c))). rewrite Z2Nat.id, chr_code in H by lia.
  apply H, in_seq. lia.
Qed.

Definition is_dec_digit (c : ascii) : bool := (48 <=? code c) && (code c <=? 57).

Lemma digit_of_dec c : is_dec_digit c = true -> digit_of 10 c = Some (code c - 48).
Proof.
  unfold is_dec_digit, digit_of. intros H. rewrite H. bools.
  destruct (Z.ltb_spec (code c - 48) 10); [done | lia].
Qed.

Lemma digit_char_code d : 0 <= d < 10 -> code (digit_char d) = 48 + d.
Proof. intros. unfold digit_char. apply code_chr. lia. Qed.

Lemma digit_char_is_digit d : 0 <= d < 10 -> is_dec_digit (digit_char d) = true.
Proof. intros. unfold is_dec_digit. rewrite digit_char_code by done. lia. Qed.

Lemma digit_of_digit_char d : 0 <= d < 10 -> digit_of 10 (digit_char d) = Some d.
Proof.
  intros. rewrite digit_of_dec by by apply digit_char_is_digit.
  rewrite digit_char_code by done. f_equal; lia.
Qed.

#[export] Hint Resolve digit_char_is_digit : volt.

(** The digits of a number, as the digit values [span_digits] finds. *)
Lemma dec_digits_parse fuel n acc ds rest :
  0 <= n < 2 ^ Z.of_nat fuel -> span_digits 10 acc = (ds, rest) ->
  exists front, span_digits 10 (dec_digits fuel n acc) = (front ++ ds, rest) /\
    forall v, fold_left (fun a d => a * 10 + d) (front ++ ds) v
            = fold_left (fun a d => a * 10 + d) ds (v * 10 ^ Z.of_nat (length front) + n).
Proof.
  revert n acc ds. induction fuel as [|f IH]; intros n acc ds Hn Hacc; cbn [dec_digits].
  - exists []. split; [done|]. intros v. cbn. f_equal. cbn in Hn. lia.
  - assert (Hd : 0 <= n mod 10 < 10) by (apply Z.mod_pos_bound; lia).
    assert (Hs : span_digits 10 (digit_char (n mod 10) :: acc) = (n mod 10 :: ds, rest)).
    { cbn. by rewrite digit_of_digit_char, Hacc. }
    case_match.
    + exists [n mod 10]. split; [done|]. intros v. cbn. f_equal.
      rewrite Z.mod_small by lia. lia.
    + assert (0 <= n / 10 < 2 ^ Z.of_nat f) as Hq.
      { rewrite Nat2Z.inj_succ, Z.pow_succ_r in Hn by lia.
        split; [apply Z.div_pos; lia|]. apply Z.div_lt_upper_bound; lia. }
      destruct (IH _ _ _ Hq Hs) as (front & Hf & Hv).
      exists (front ++ [n mod 10]). rewrite <- app_assoc. split; [done|].
      intros v. rewrite Hv. cbn. f_equal.
      rewrite length_app. cbn. rewrite Nat2Z.inj_add, Z.pow_add_r by lia. cbn.
      pose proof (Z.div_mod n 10). lia.
Qed.

Lemma dec_digits_acc fuel n acc : exists front, dec_digits fuel n acc = front ++ acc.
Proof.
  revert n acc. induction fuel as [|f IH]; intros n acc; cbn; [by exists []|].
  case_match; [by exists [digit_char (n mod 10)]|].
  destruct (IH (n / 10) (digit_char (n mod 10) :: acc)) as [front ->].
  exists (front ++ [digit_char (n mod 10)]). by rewrite <- app_assoc.
Qed.

Lemma dec_digits_all fuel n acc :
  0 <= n -> forallb is_dec_digit acc = true -> forallb is_dec_digit (dec_digits fuel n acc) = true.
Proof.
  revert n acc. induction fuel as [|f IH]; intros n acc Hn Hacc; cbn; [done|].
  assert (forallb is_dec_digit (digit_char (n mod 10) :: acc) = true) as Hd.
  { cbn. rewrite Hacc, digit_char_is_digit; [done|]. apply Z.mod_pos_bound; lia. }
  case_match; [done|]. apply IH; [|done]. apply Z.div_pos; lia.
Qed.

Lemma dec_digits_front fuel n :
  0 <= n -> (0 < fuel)%nat -> exists c r, dec_digits fuel n [] = c :: r /\ is_dec_digit c = true.
Proof.
  intros Hn Hf. pose proof (dec_digits_all fuel n [] Hn eq_refl) as Hall.
  assert (dec_digits fuel n [] <> []) as Hne.
  { destruct fuel as [|f]; [lia|]. cbn. case_match; [done|].
    destruct (dec_digits_acc f (n / 10) [digit_char (n mod 10)]) as [front ->]. by destruct front. }
  destruct (dec_digits fuel n []) as [|c r]; [done|]. cbn in Hall. bools. eauto.
Qed.

Lemma dec_fuel n : 0 <= n -> 0 <= n < 2 ^ Z.of_nat (S (Z.to_nat (Z.log2 n))).
Proof.
  intros Hn. split; [done|]. rewrite Nat2Z.inj_succ, Z2Nat.id by apply Z.log2_nonneg.
  destruct (Z.eq_dec n 0) as [->|]; [done|]. apply Z.log2_spec. lia.
Qed.

Lemma span_dec n :
  0 <= n -> exists ds, span_digits 10 (dec n) = (ds, []) /\ ds <> [] /\ number_of 10 ds = n.
Proof.
  intros Hn. unfold dec. destruct (Z.ltb_spec n 0); [lia|].
  pose proof (dec_fuel n Hn) as Hfuel. set (fuel := S _) in *.
  destruct (dec_digits_parse fuel n [] [] [] Hfuel eq_refl) as (front & Hs & Hv).
  rewrite app_nil_r in *. exists front. split_and!; [done| |].
  - intros ->. destruct (dec_digits_front fuel n Hn ltac:(lia)) as (c & r & E & Hc).
    rewrite E in Hs. cbn in Hs. rewrite digit_of_dec in Hs by done. by destruct (span_digits 10 r).
  - specialize (Hv 0). rewrite Z.mul_0_l, Z.add_0_l in Hv. exact Hv.
Qed.

(** [std::to_string] followed by [std::from_chars] gives the number back. *)
Lemma parse_whole_dec lo hi z :
  lo <= z <= hi -> (lo < 0 \/ 0 <= z) -> parse_whole 10 lo hi (dec z) = Some z.
Proof.
  intros Hz Hlo. unfold parse_whole, from_chars. destruct (Z.ltb_spec z 0) as [Hneg|Hpos].
  - assert (dec z = "-"%char :: dec (- z)) as E.
    { unfold dec. destruct (Z.ltb_spec z 0); [|lia]. destruct (Z.ltb_spec (- z) 0); [lia|done]. }
    rewrite E. destruct (span_dec (- z)) as (ds & Hs & Hne & Hv); [lia|].
    destruct (Z.ltb_spec lo 0); [|lia]. cbn.
    change (code "-" =? 45) with true. cbn. rewrite Hs. destruct ds; [done|].
    rewrite Hv, Z.opp_involutive.
    destruct (Z.leb_spec lo z), (Z.leb_spec z hi); [done|lia..].
  - destruct (span_dec z) as (ds & Hs & Hne & Hv); [lia|].
    assert (exists c r, dec z = c :: r /\ is_dec_digit c = true) as (c & r & E & Hc).
    { unfold dec. destruct (Z.ltb_spec z 0); [lia|]. apply dec_digits_front; [done|lia]. }
    assert ((lo <? 0) && (code c =? 45) = false) as Hminus.
    { unfold is_dec_digit in Hc. bools. apply andb_false_iff. lia. }
    rewrite E in *. rewrite Hminus, Hs. destruct ds; [done|]. rewrite Hv.
    destruct (Z.leb_spec lo z), (Z.leb_spec z hi); [done|lia..].
Qed.

Lemma dec_all_digits n : 0 <= n -> forallb is_dec_digit (dec n) = true.
Proof. intros Hn. unfold dec. destruct (Z.ltb_spec n 0); [lia|]. by apply dec_digits_all. Qed.

Lemma dec_chars z c : In c (dec z) -> c = "-"%char \/ is_dec_digit c = true.
Proof.
  intros Hc. destruct (Z.ltb_spec z 0) as [Hz|Hz].
  - assert (dec z = "-"%char :: dec (- z)) as E.
    { unfold dec. destruct (Z.ltb_spec z 0); [|lia]. destruct (Z.ltb_spec (- z) 0); [lia|done]. }
    rewrite E in Hc. destruct Hc as [<-|Hc]; [by left|]. right.
    pose proof (dec_all_digits (- z) ltac:(lia)) as H'. rewrite forallb_forall in H'. auto.
  - right. pose proof (dec_all_digits z Hz) as H. rewrite forallb_forall in H. auto.
Qed.

Lemma dec_nonempty z : dec z <> [].
Proof.
  unfold dec. case_match; [done|].
  destruct (dec_digits_front (S (Z.to_nat (Z.log2 z))) z) as (c & r & -> & _); lia || done.
Qed.

Lemma dec_inj a b : dec a = dec b -> a = b.
Proof.
  intros E. set (m := Z.max (Z.abs a) (Z.abs b)).
  assert (parse_whole 10 (- m - 1) m (dec a) = Some a) as Ha by (apply parse_whole_dec; lia).
  assert (parse_whole 10 (- m - 1) m (dec b) = Some b) as Hb by (apply parse_whole_dec; lia).
  congruence.
Qed.

#[export] Hint Resolve dec_nonempty : volt.

(** ** Facts about sequences *)

Lemma count_while_app {A} (p : A -> bool) w c s :
  forallb p w = true -> p c = false -> count_while p (w ++ c :: s) = length w.
Proof.
  intros Hw Hc. induction w as [|x w IH]; cbn; [by rewrite Hc|].
  cbn in Hw. bools. rewrite H, IH; done.
Qed.

Lemma forallb_rev {A} (p : A -> bool) l : forallb p l = true -> forallb p (rev l) = true.
Proof.
  rewrite !forallb_forall. intros H x Hx. apply H. by apply in_rev.
Qed.

Lemma ssorted_app {A} (R : A -> A -> Prop) l1 l2 :
  StronglySorted R (l1 ++ l2) <->
  StronglySorted R l1 /\ StronglySorted R l2 /\ forall x y, In x l1 -> In y l2 -> R x y.
Proof.
  induction l1 as [|a l1 IH]; cbn.
  - split; [intros H; split_and!; [constructor|done|done] | by intros (_ & H & _)].
  - split.
    + intros H. inversion_clear H as [|? ? H1 H2]. apply IH in H1 as (S1 & S2 & S12).
      rewrite List.Forall_forall in H2. split_and!; [|done|].
      * constructor; [done|]. apply List.Forall_forall. intros x Hx. apply H2, in_or_app. by left.
      * intros x y [<-|Hx] Hy; [apply H2, in_or_app; by right | auto].
    + intros (H1 & S2 & S12). inversion_clear H1 as [|? ? H1' H2]. constructor; [apply IH; auto|].
      rewrite List.Forall_forall in *. intros x Hx. apply in_app_or in Hx as [Hx|Hx]; auto.
Qed.

Lemma ssorted_filter {A B} (R : B -> B -> Prop) (f : A -> B) p l :
  StronglySorted R (map f l) -> StronglySorted R (map f (List.filter p l)).
Proof.
  induction l as [|a l IH]; cbn; intros H; [done|]. inversion_clear H as [|? ? H1 H2].
  destruct (p a); cbn; [|auto]. constructor; [auto|]. rewrite List.Forall_forall in *.
  intros x Hx. apply in_map_iff in Hx as (y & <- & Hy). apply filter_In in Hy as [Hy _].
  apply H2, in_map, Hy.
Qed.

Lemma filter_all {A} (p : A -> bool) (l : list A) : Forall (fun x => p x = true) l -> List.filter p l = l.
Proof. induction 1 as [|x l Hx _ IH]; cbn; [done|]. by rewrite Hx, IH. Qed.

Lemma filter_none {A} (p : A -> bool) l : (forall x, In x l -> p x = false) -> List.filter p l = [].
Proof.
  induction l as [|x l IH]; cbn; intros Hp; [done|]. rewrite (Hp x) by by left. apply IH. intros y Hy. apply Hp. by right.
Qed.

Lemma filter_filter {B} (f g : B -> bool) (l : list B) :
  List.filter g (List.filter f l) = List.filter (fun x => f x && g x) l.
Proof. induction l as [|x l IH]; cbn; [done|]. destruct (f x); cbn; [|done]. destruct (g x); by rewrite IH. Qed.

(** An invariant every step of a fold keeps holds at its end. *)
(** [holds F P o]: the run is not short of fuel unless [F], and when it returns, it returns something in [P]. *)
Definition holds {A} (F : Prop) (P : A -> Prop) (o : outcome A) : Prop :=
  match o with Returns a => P a | Undefined => True | OutOfFuel => F end.

Lemma holds_bind {A B} F (P : A -> Prop) (Q : B -> Prop) o (k : A -> outcome B) :
  holds F P o -> (forall a, P a -> holds F Q (k a)) -> holds F Q (outcome_bind o k).
Proof. destruct o; cbn; auto. Qed.

Lemma holds_impl {A} (F F' : Prop) (P Q : A -> Prop) o : (F -> F') -> (forall a, P a -> Q a) -> holds F P o -> holds F' Q o.
Proof. destruct o; cbn; auto. Qed.

Lemma holds_fold {A S} F (P : S -> Prop) (f : S -> A -> outcome S) l s :
  P s -> (forall s a, P s -> holds F P (f s a)) -> holds F P (outcome_fold f l s).
Proof.
  revert s. induction l as [|a l IH]; intros s Hs Hf; cbn [outcome_fold]; [done|].
  eapply holds_bind; [by apply Hf|]. intros s' Hs'. by apply IH.
Qed.

(** The same over indices, the property moving with them. *)
Lemma holds_fold_seq {S} F (P : nat -> S -> Prop) (f : S -> nat -> outcome S) k n s :
  P k s -> (forall i s, (k <= i < k + n)%nat -> P i s -> holds F (P (Datatypes.S i)) (f s i)) -> holds F (P (k + n)%nat) (outcome_fold f (seq k n) s).
Proof.
  revert k s. induction n as [|n IH]; intros k s Hs Hf; cbn [seq outcome_fold].
  - by rewrite Nat.add_0_r.
  - eapply holds_bind; [apply Hf; [lia|done]|]. intros s' Hs'. replace (k + Datatypes.S n)%nat with (Datatypes.S k + n)%nat by lia.
    apply IH; [done|]. intros i s'' Hi. apply Hf. lia.
Qed.

(** [yields P o]: the run goes right, and gives something in [P]. *)
Definition yields {A} (P : A -> Prop) (o : outcome A) : Prop := match o with Returns a => P a | _ => False end.

Lemma yields_bind {A B} (P : A -> Prop) (Q : B -> Prop) o (k : A -> outcome B) :
  yields P o -> (forall a, o = Returns a -> P a -> yields Q (k a)) -> yields Q (outcome_bind o k).
Proof. destruct o; cbn; [|done|done]. auto. Qed.

Lemma yields_impl {A} (P Q : A -> Prop) o : yields P o -> (forall a, P a -> Q a) -> yields Q o.
Proof. destruct o; cbn; auto. Qed.

Lemma yields_exists {A} (P : A -> Prop) o : yields P o <-> exists a, o = Returns a /\ P a.
Proof. destruct o; cbn; naive_solver. Qed.

Lemma yields_fold {A S} (P : S -> Prop) (f : S -> A -> outcome S) l s :
  P s -> (forall s a, In a l -> P s -> yields P (f s a)) -> yields P (outcome_fold f l s).
Proof.
  revert s. induction l as [|a l IH]; intros s Hs Hf; cbn [outcome_fold]; [done|].
  eapply yields_bind; [apply Hf; [by left|done]|]. intros s' _ Hs'. apply IH; [done|]. intros s'' a' Ha. apply Hf. by right.
Qed.

Lemma outcome_fold_inv {A S} (P : S -> Prop) (f : S -> A -> outcome S) l s s' :
  (forall s a s', P s -> f s a = Returns s' -> P s') -> P s -> outcome_fold f l s = Returns s' -> P s'.
Proof.
  intros Hf. revert s. induction l as [|a l IH]; cbn; intros s Hs H; [by simplify_eq|].
  returns_inv. eauto.
Qed.
