(* ===== verification/Text.v ===== *)
(** * Text: [src/Core/Text/Strings.cpp] and [include/VoltMod/Core/Text/CharBuf.hpp]

    The string utilities everything above them prints and parses with. The character classes are those
    of the C locale; a buffer is the list of its chars. *)

From S2P Require Import Prelude.

(** ** Character classes of the C locale *)

Definition is_space (c : ascii) : bool := (code c =? 32) || ((9 <=? code c) && (code c <=? 13)).

Definition to_lower_char (c : ascii) : ascii :=
  if (65 <=? code c) && (code c <=? 90) then chr (code c + 32) else c.

Definition quote_char : ascii := chr 34.
Definition backslash : ascii := chr 92.

(** ** Sequence helpers of the C++ library *)

Fixpoint is_prefix (p s : text) : bool :=
  match p, s with
  | [], _ => true
  | a :: p', b :: s' => Ascii.eqb a b && is_prefix p' s'
  | _, _ => false
  end.

(** [str.find(sub)], the index of the first occurrence. *)
Fixpoint find (sub str : text) : option nat :=
  if is_prefix sub str then Some O
  else match str with
       | [] => None
       | _ :: rest => option_map S (find sub rest)
       end.

(** [str.find(sub, pos)]. *)
Definition find_from (sub str : text) (pos : nat) : option nat :=
  if (length str <? pos)%nat then None else option_map (Nat.add pos) (find sub (drop pos str)).

(** ** Numbers *)

Definition ParseInt64 (s : text) : option Z := parse_whole 10 int64_min int64_max s.
Definition ParseUInt64 (s : text) : option Z := parse_whole 10 0 uint64_max s.

(** ** [Strings] *)

Definition ToLower (str : text) : text := map to_lower_char str.

Definition Trim (str : text) : text :=
  let first := count_while is_space str in
  let last := (length str - count_while is_space (rev str))%nat in
  if (first <? last)%nat then take (last - first) (drop first str) else [].

Fixpoint join_rest (delimiter : text) (result : text) (parts : list text) : text :=
  match parts with
  | [] => result
  | part :: rest => join_rest delimiter (result ++ delimiter ++ part) rest
  end.

Definition Join (parts : list text) (delimiter : text) : text :=
  match parts with
  | [] => []
  | first :: rest => join_rest delimiter first rest
  end.

Definition join_non_empty_step (delimiter result part : text) : text :=
  match part with
  | [] => result
  | _ => match result with [] => part | _ => result ++ delimiter ++ part end
  end.

Definition JoinNonEmpty (parts : list text) (delimiter : text) : text :=
  fold_left (join_non_empty_step delimiter) parts [].

Definition StartsWith (str prefix : text) : bool := is_prefix prefix str.

Definition ContainsIgnoreCase (str substr : text) : bool :=
  match find (ToLower substr) (ToLower str) with Some _ => true | None => false end.

(** The [while] loop of [ReplaceAll]; [fuel] bounds its iterations. *)
Fixpoint replace_loop (fuel : nat) (from to result : text) (pos : nat) : option text :=
  match fuel with
  | O => None
  | S f =>
      match find_from from result pos with
      | None => Some result
      | Some p =>
          replace_loop f from to (take p result ++ to ++ drop (p + length from) result) (p + length to)
      end
  end.

(** Each iteration uses up a byte of [str], so the fuel is enough ([ReplaceAll_spec]). *)
Definition ReplaceAll (str from to : text) : text :=
  match from with
  | [] => str
  | _ => default str (replace_loop (S (length str)) from to str 0)
  end.

Fixpoint SubstituteTokens (str : text) (tokens : list (text * text)) : text :=
  match tokens with
  | [] => str
  | (key, value) :: rest => SubstituteTokens (ReplaceAll str ($"{" ++ key ++ $"}") value) rest
  end.

Definition escape_char (c : ascii) : text :=
  if Ascii.eqb c "&" then $"&amp;"
  else if Ascii.eqb c "<" then $"&lt;"
  else if Ascii.eqb c ">" then $"&gt;"
  else if Ascii.eqb c quote_char then $"&quot;"
  else if Ascii.eqb c "'" then $"&#39;"
  else [c].

Definition EscapeHtml (s : text) : text := flat_map escape_char s.

Definition quote_arg_char (c : ascii) : text :=
  if Ascii.eqb c quote_char || Ascii.eqb c backslash then [backslash; c] else [c].

Definition QuoteConsoleArg (value : text) : text :=
  quote_char :: flat_map quote_arg_char value ++ [quote_char].

Definition is_continuation (c : ascii) : bool := Z.land (code c) 192 =? 128.

(** [while (end > 0 && continuation(text[end])) --end;] *)
Fixpoint utf8_cut (s : text) (finish : nat) : nat :=
  match finish with
  | O => O
  | S e => match s !! finish with
           | Some c => if is_continuation c then utf8_cut s e else finish
           | None => finish
           end
  end.

Definition TruncateUtf8 (s : text) (maxBytes : nat) (ellipsis : text) : text :=
  if (length s <=? maxBytes)%nat then s else take (utf8_cut s maxBytes) s ++ ellipsis.

Definition IsNumeric (str : text) : bool :=
  match str with [] => false | _ => forallb is_dec_digit str end.

(** [buffer] is [None] for a null pointer; the bytes past the copy keep what they held. *)
Definition CopyToBuffer (buffer : option text) (size : nat) (s : text) : option text :=
  match buffer with
  | None => None
  | Some b =>
      if (size =? 0)%nat then Some b
      else let n := Nat.min (size - 1) (length s) in
           Some (take n s ++ [chr 0] ++ drop (S n) b)
  end.

Definition DisplayNameOr (id : Z) (name : text) (maxBytes : nat) : text :=
  match name with [] => dec id | _ => EscapeHtml (TruncateUtf8 name maxBytes $"...") end.

Definition trim_view (s : text) : text :=
  let s := drop (count_while is_space s) s in
  take (length s - count_while is_space (rev s)) s.

Definition duration_unit (suffix : ascii) : option Z :=
  if Ascii.eqb suffix "s" then Some 1
  else if Ascii.eqb suffix "m" then Some 60
  else if Ascii.eqb suffix "h" then Some 3600
  else if Ascii.eqb suffix "d" then Some 86400
  else if Ascii.eqb suffix "w" then Some 604800
  else None.

Definition duration_total (digits : text) (multiplier : Z) : Z :=
  match parse_whole 10 int32_min int32_max digits with
  | None => -1
  | Some value =>
      if value <? 0 then -1
      else let total := value * multiplier in
           if int32_max <? total then -1 else total
  end.

Definition ParseDuration (s : text) : Z :=
  match trim_view s with
  | [] => -1
  | s' =>
      let lower := ToLower s' in
      if text_eqb lower $"0" || text_eqb lower $"perm" || text_eqb lower $"permanent" then 0
      else
        let suffix := List.last lower (chr 0) in
        if is_dec_digit suffix then duration_total lower 1
        else match duration_unit suffix with
             | None => -1
             | Some multiplier => duration_total (removelast lower) multiplier
             end
  end.

(** ** [CharBuf<N>] *)

Definition CharBuf_Assign (N : nat) (s : text) : text :=
  let n := Nat.min (length s) (N - 1) in
  take n s ++ replicate (N - n) (chr 0).

Definition CharBuf_View (value : text) : text :=
  take (count_while (fun c => negb (Ascii.eqb c (chr 0))) value) value.

Definition CharBuf_Empty (value : text) : bool :=
  match value with c :: _ => Ascii.eqb c (chr 0) | [] => true end.

(** [c_str]: what the engine sees of a string. *)
Fixpoint c_str (s : text) : text :=
  match s with [] => [] | c :: s => if bool_decide (c = chr 0) then [] else c :: c_str s end.

(** A text's lines; what follows the last line feed is one when it is not empty. *)
Definition line_feed : ascii := chr 10.
Fixpoint split_lines (current rest : text) : list text :=
  match rest with
  | [] => match current with [] => [] | _ => [rev current] end
  | c :: rest => if bool_decide (c = line_feed) then rev current :: split_lines [] rest else split_lines (c :: current) rest
  end.

(** ** Searching and replacing *)

Lemma join_rest_acc delimiter result parts :
  join_rest delimiter result parts = result ++ flat_map (fun p => delimiter ++ p) parts.
Proof.
  revert result. induction parts as [|p parts IH]; intros result; cbn; [by rewrite app_nil_r|].
  by rewrite IH, <- !app_assoc.
Qed.

Lemma Join_cons delimiter a b parts : Join (a :: b :: parts) delimiter = a ++ delimiter ++ Join (b :: parts) delimiter.
Proof. cbn [Join]. rewrite !join_rest_acc. cbn [flat_map]. by rewrite <- !app_assoc. Qed.

Lemma is_prefix_spec p s : is_prefix p s = true <-> exists rest, s = p ++ rest.
Proof.
  revert s. induction p as [|a p IH]; intros [|b s]; cbn; split; try done; eauto.
  - intros [rest H]. done.
  - intros H. bools. apply Ascii.eqb_eq in H as ->. apply IH in H0 as [rest ->]. eauto.
  - intros [rest [= -> ->]]. rewrite Ascii.eqb_refl. apply IH. eauto.
Qed.

Lemma is_prefix_app p s : is_prefix p (p ++ s) = true.
Proof. apply is_prefix_spec. eauto. Qed.

Lemma find_prefix sub s : is_prefix sub s = true -> find sub s = Some O.
Proof. intros H. destruct s; cbn; cbn in H; by rewrite H. Qed.

Lemma find_some sub s p :
  find sub s = Some p -> s = take p s ++ sub ++ drop (p + length sub) s.
Proof.
  revert p. induction s as [|c s IH]; intros p; cbn.
  - destruct sub; cbn; [intros [= <-]|]; done.
  - destruct (is_prefix sub (c :: s)) eqn:E.
    + intros [= <-]. apply is_prefix_spec in E as [rest ->]. cbn. by rewrite drop_app_length.
    + destruct (find sub s) as [q|] eqn:F; [|done]. intros [= <-]. cbn. f_equal. by apply IH.
Qed.

(** The occurrence found is the leftmost one. *)
Lemma find_leftmost sub s a b :
  s = a ++ sub ++ b -> exists p, find sub s = Some p /\ (p <= length a)%nat.
Proof.
  intros ->. induction a as [|c a IH]; cbn.
  - exists 0%nat. split; [|done]. apply find_prefix, is_prefix_app.
  - case_match; [eexists; split; [done|lia]|].
    destruct IH as (p & -> & Hp). exists (S p). split; [done|cbn; lia].
Qed.

Lemma find_none sub s : find sub s = None <-> forall a b, s <> a ++ sub ++ b.
Proof.
  split.
  - intros H a b E. destruct (find_leftmost sub s a b E) as (p & H' & _). congruence.
  - intros H. destruct (find sub s) as [p|] eqn:E; [|done]. apply find_some in E. by eapply H in E.
Qed.

Lemma find_from_app sub done rest :
  find_from sub (done ++ rest) (length done) = option_map (Nat.add (length done)) (find sub rest).
Proof.
  unfold find_from. rewrite length_app. destruct (Nat.ltb_spec (length done + length rest) (length done)); [lia|].
  by rewrite drop_app_length.
Qed.

(** What replacing the leftmost, non-overlapping occurrences of [from] by [to] means. *)
Inductive replaced (from to : text) : text -> text -> Prop :=
| replaced_none s : (forall a b, s <> a ++ from ++ b) -> replaced from to s s
| replaced_some a b r :
    find from (a ++ from ++ b) = Some (length a) ->
    replaced from to b r -> replaced from to (a ++ from ++ b) (a ++ to ++ r).

Lemma replace_loop_spec fuel from to done s :
  from <> [] -> (length s < fuel)%nat ->
  exists r, replace_loop fuel from to (done ++ s) (length done) = Some (done ++ r) /\ replaced from to s r.
Proof.
  intros Hfrom. revert done s. induction fuel as [|f IH]; intros done s Hlen; [lia|]. cbn.
  rewrite find_from_app. destruct (find from s) as [p|] eqn:E; cbn.
  2:{ exists s. split; [done|]. apply replaced_none. by apply find_none. }
  pose proof (find_some _ _ _ E) as Es. set (b := drop (p + length from) s) in *.
  assert (0 < length from)%nat as Hpos by (destruct from; [done|cbn; lia]).
  assert (p + length from <= length s)%nat as Hp.
  { pose proof (f_equal length Es) as HL. rewrite !length_app, length_take in HL.
    unfold b in HL. rewrite length_drop in HL. lia. }
  assert (length (take p s) = p) as Htp by (rewrite length_take; lia).
  replace (take (length done + p) (done ++ s)) with (done ++ take p s) by (by rewrite take_app_add).
  replace (drop (length done + p + length from) (done ++ s)) with b
    by (rewrite <- Nat.add_assoc, drop_app_add; done).
  destruct (IH (done ++ take p s ++ to) b) as (r & Hr & Hrep).
  { unfold b. rewrite length_drop. lia. }
  rewrite !length_app, Htp in Hr. rewrite Nat.add_assoc in Hr. rewrite <- !app_assoc in *.
  rewrite Hr. exists (take p s ++ to ++ r). split; [done|].
  rewrite Es at 1. apply replaced_some; [|done]. by rewrite <- Es, E, Htp.
Qed.

Lemma ReplaceAll_spec str from to : from <> [] -> replaced from to str (ReplaceAll str from to).
Proof.
  intros Hf. destruct from as [|c from]; [done|]. cbn [ReplaceAll].
  destruct (replace_loop_spec (S (length str)) (c :: from) to [] str) as (r & Hr & H); [done|lia|].
  change ([] ++ str) with str in Hr. change ([] ++ r) with r in Hr. change (length (@nil ascii)) with 0%nat in Hr.
  by rewrite Hr.
Qed.

Inductive tokens_replaced : text -> list (text * text) -> text -> Prop :=
| tokens_replaced_nil s : tokens_replaced s [] s
| tokens_replaced_cons s key value rest s' r :
    replaced ($"{" ++ key ++ $"}") value s s' -> tokens_replaced s' rest r ->
    tokens_replaced s ((key, value) :: rest) r.

(** C26. [SubstituteTokens] terminates on every text, and replaces the tokens in their order, each time
    every leftmost non-overlapping [{key}], never looking again at a value it has put in. *)
Theorem SubstituteTokens_replaces str tokens : tokens_replaced str tokens (SubstituteTokens str tokens).
Proof.
  revert str. induction tokens as [|[k v] rest IH]; intros str; cbn; [constructor|].
  econstructor; [by apply ReplaceAll_spec|apply IH].
Qed.

(** ** Escaping *)

(** The five characters with a meaning in row markup, [&] excepted: an entity starts with it. *)
Definition markup_char (c : ascii) : bool :=
  Ascii.eqb c "<" || Ascii.eqb c ">" || Ascii.eqb c quote_char || Ascii.eqb c "'".

(** What a reader of the markup sees: the entities of [EscapeHtml] decoded. *)
Fixpoint unescape_html (fuel : nat) (s : text) : text :=
  match fuel, s with
  | S f, c :: rest =>
      if is_prefix $"&amp;" s then "&"%char :: unescape_html f (drop 5 s)
      else if is_prefix $"&lt;" s then "<"%char :: unescape_html f (drop 4 s)
      else if is_prefix $"&gt;" s then ">"%char :: unescape_html f (drop 4 s)
      else if is_prefix $"&quot;" s then quote_char :: unescape_html f (drop 6 s)
      else if is_prefix $"&#39;" s then "'"%char :: unescape_html f (drop 5 s)
      else c :: unescape_html f rest
  | _, _ => []
  end.

Lemma escape_char_no_markup c x : In x (escape_char c) -> markup_char x = false.
Proof.
  intros Hx. pose proof (all_chars (fun c => forallb (fun x => negb (markup_char x)) (escape_char c))) as H.
  specialize (H ltac:(vm_compute; reflexivity) c). rewrite forallb_forall in H.
  by apply negb_true_iff, H.
Qed.

Lemma EscapeHtml_no_markup s x : In x (EscapeHtml s) -> markup_char x = false.
Proof. intros H. apply in_flat_map in H as (c & _ & H). by eapply escape_char_no_markup. Qed.

Lemma unescape_char f c s :
  unescape_html (S f) (escape_char c ++ s) = c :: unescape_html f s.
Proof.
  unfold escape_char.
  destruct (Ascii.eqb_spec c "&") as [->|Hamp]; [reflexivity|].
  destruct (Ascii.eqb_spec c "<") as [->|_]; [reflexivity|].
  destruct (Ascii.eqb_spec c ">") as [->|_]; [reflexivity|].
  destruct (Ascii.eqb_spec c quote_char) as [->|_]; [reflexivity|].
  destruct (Ascii.eqb_spec c "'") as [->|_]; [reflexivity|].
  assert (forall r, is_prefix ("&"%char :: r) (c :: s) = false) as E.
  { intros r. cbn [is_prefix]. destruct (Ascii.eqb_spec "&" c); [congruence|done]. }
  cbn [app unescape_html]. unfold lit. cbn [list_ascii_of_string]. by rewrite !E.
Qed.

Lemma unescape_escape s f :
  (length s <= f)%nat -> unescape_html f (EscapeHtml s) = s.
Proof.
  revert f. induction s as [|c s IH]; intros f Hf; [by destruct f|].
  destruct f as [|f]; cbn in Hf; [lia|]. unfold EscapeHtml. cbn [flat_map].
  rewrite unescape_char. f_equal. apply IH. lia.
Qed.

Lemma length_EscapeHtml s : (length s <= length (EscapeHtml s))%nat.
Proof.
  induction s as [|c s IH]; [done|]. unfold EscapeHtml in *. cbn [flat_map]. rewrite length_app.
  assert (1 <= length (escape_char c))%nat; [|cbn; lia].
  unfold escape_char. repeat case_match; apply Nat.leb_le; reflexivity.
Qed.

(** ** Truncation *)

Lemma utf8_cut_le s n : (utf8_cut s n <= n)%nat.
Proof. induction n as [|n IH]; cbn; [lia|]. repeat case_match; lia. Qed.

Lemma utf8_cut_boundary s n :
  (n < length s)%nat ->
  utf8_cut s n = O \/ exists c, s !! utf8_cut s n = Some c /\ is_continuation c = false.
Proof.
  induction n as [|n IH]; cbn; intros Hn; [by left|].
  destruct (s !! S n) as [c|] eqn:E; [|apply lookup_ge_None in E; lia].
  destruct (is_continuation c) eqn:Hc; [apply IH; lia|]. eauto.
Qed.

Lemma utf8_cut_maximal s n i :
  (utf8_cut s n < i <= n)%nat -> exists c, s !! i = Some c /\ is_continuation c = true.
Proof.
  induction n as [|n IH]; cbn; [lia|]. repeat case_match; intros Hi; try lia.
  destruct (decide (i = S n)) as [->|]; [eauto|]. apply IH. lia.
Qed.

(** Text escaped for row markup carries no markup character, and a reader of the markup sees the
    original text: escaping loses nothing and cannot be broken out of. *)
Theorem EscapeHtml_safe s :
  (forall c, In c (EscapeHtml s) -> markup_char c = false) /\
  unescape_html (length (EscapeHtml s)) (EscapeHtml s) = s.
Proof.
  split; [apply EscapeHtml_no_markup|]. apply unescape_escape, length_EscapeHtml.
Qed.

Lemma digit_no_markup c : is_dec_digit c = true -> markup_char c = false.
Proof.
  pose proof (all_chars (fun d => negb (is_dec_digit d) || negb (markup_char d)) ltac:(vm_compute; reflexivity) c) as H.
  cbn in H. intros Hc. rewrite Hc in H. by destruct (markup_char c).
Qed.

Lemma dec_no_markup z c : In c (dec z) -> markup_char c = false.
Proof. intros Hc. apply dec_chars in Hc as [->|Hc]; [done | by apply digit_no_markup]. Qed.

(** A row's display text carries no markup whatever name a player chose. *)
Lemma DisplayNameOr_no_markup id name maxBytes c :
  In c (DisplayNameOr id name maxBytes) -> markup_char c = false.
Proof. destruct name; [apply dec_no_markup | apply EscapeHtml_no_markup]. Qed.

(** A truncated text is a prefix of the original of at most [maxBytes] bytes before the ellipsis; the
    cut never precedes a continuation byte (unless it is at 0), and it is the last such place: every byte
    skipped back over is a continuation byte. *)
Theorem TruncateUtf8_boundary s maxBytes ellipsis :
  (maxBytes < length s)%nat ->
  exists k, TruncateUtf8 s maxBytes ellipsis = take k s ++ ellipsis /\ (k <= maxBytes)%nat /\
    (k = O \/ exists c, s !! k = Some c /\ is_continuation c = false) /\
    (forall i, (k < i <= maxBytes)%nat -> exists c, s !! i = Some c /\ is_continuation c = true).
Proof.
  intros Hlen. exists (utf8_cut s maxBytes). unfold TruncateUtf8.
  destruct (Nat.leb_spec (length s) maxBytes); [lia|].
  split_and!; [done | apply utf8_cut_le | by apply utf8_cut_boundary | intros i; apply utf8_cut_maximal].
Qed.

Lemma TruncateUtf8_boundary_witness :
  exists k, TruncateUtf8 [chr 97; chr 208; chr 190; chr 98] 2 $"..." = take k [chr 97; chr 208; chr 190; chr 98] ++ $"..." /\ k = 1%nat.
Proof.
  destruct (TruncateUtf8_boundary [chr 97; chr 208; chr 190; chr 98] 2 $"...") as (k & E & Hk & Hb & Hm).
  { cbn. lia. }
  exists k. split; [exact E|]. destruct k as [|[|[|k]]]; [|reflexivity| |lia].
  - destruct (Hm 1%nat ltac:(lia)) as (c & [= <-] & Hc). discriminate Hc.
  - destruct Hb as [|(c & [= <-] & Hc)]; [lia|]. discriminate Hc.
Defined.

(** ** Durations *)

(** Surrounding space is dropped, and nothing else. *)
Lemma trim_view_core w1 w2 a m z :
  forallb is_space w1 = true -> forallb is_space w2 = true -> is_space a = false -> is_space z = false ->
  forall s, s = a :: m -> last s = Some z -> trim_view (w1 ++ s ++ w2) = s.
Proof.
  intros Hw1 Hw2 Ha Hz s Hs Hlast. unfold trim_view.
  assert (exists f, s = f ++ [z]) as [f Hf].
  { apply last_Some in Hlast as [f ->]. by exists f. }
  assert (count_while is_space (w1 ++ s ++ w2) = length w1) as ->.
  { rewrite Hs. cbn [app]. by apply count_while_app. }
  rewrite drop_app_length. assert (count_while is_space (rev (s ++ w2)) = length w2) as ->.
  { rewrite Hf, !rev_app_distr. cbn [rev app]. rewrite count_while_app; [|by apply forallb_rev|done].
    apply length_rev. }
  rewrite length_app. replace (length s + length w2 - length w2)%nat with (length s) by lia.
  by rewrite take_app_length.
Qed.

Lemma dec_ends n : 0 <= n ->
  exists a m z, dec n = a :: m /\ last (dec n) = Some z /\ is_dec_digit a = true /\ is_dec_digit z = true.
Proof.
  intros Hn. pose proof (dec_all_digits n Hn) as Hall. rewrite forallb_forall in Hall.
  destruct (dec n) as [|a m] eqn:E; [by apply dec_nonempty in E|].
  destruct (last (a :: m)) as [z|] eqn:L; [|by apply last_None in L].
  exists a, m, z. split_and!; [done|done| |]; apply Hall; [by left|].
  apply list_elem_of_In. apply last_Some in L as [f ->]. set_solver.
Qed.

Lemma digit_not_space c : is_dec_digit c = true -> is_space c = false.
Proof. unfold is_dec_digit, is_space. lia. Qed.

Lemma digit_lower c : is_dec_digit c = true -> to_lower_char c = c.
Proof.
  unfold is_dec_digit, to_lower_char. intros H.
  destruct (Z.leb_spec 65 (code c)); [|done]. cbn. destruct (Z.leb_spec (code c) 90); lia || done.
Qed.

Lemma ToLower_dec n : 0 <= n -> ToLower (dec n) = dec n.
Proof.
  intros Hn. unfold ToLower. rewrite <- (List.map_id (dec n)) at 2. apply map_ext_in. intros c Hc.
  apply digit_lower. pose proof (dec_all_digits n Hn) as H. rewrite forallb_forall in H. auto.
Qed.

Lemma parse_whole_dec_large lo hi n :
  lo <= 0 -> 0 <= n -> hi < n -> parse_whole 10 lo hi (dec n) = None.
Proof.
  intros Hlo Hn Hhi. unfold parse_whole, from_chars.
  destruct (span_dec n Hn) as (ds & Hs & Hne & Hv).
  destruct (dec_ends n Hn) as (a & m & z & E & _ & Ha & _). rewrite E in *.
  assert ((lo <? 0) && (code a =? 45) = false) as ->.
  { unfold is_dec_digit in Ha. bools. apply andb_false_iff. lia. }
  rewrite Hs. destruct ds; [done|]. rewrite Hv.
  destruct (Z.leb_spec n hi); [lia|]. by rewrite andb_false_r.
Qed.

(** The number of seconds [n] units of [m] seconds make, or the -1 of an overflow. *)
Definition duration_or_overflow (n m : Z) : Z := if n * m <=? int32_max then n * m else -1.

Lemma duration_total_dec n m : 0 <= n -> 1 <= m -> duration_total (dec n) m = duration_or_overflow n m.
Proof.
  intros Hn Hm. unfold duration_total, duration_or_overflow.
  destruct (Z.le_gt_cases n int32_max) as [Hle|Hgt].
  - rewrite parse_whole_dec by (unfold int32_min; lia).
    destruct (Z.ltb_spec n 0); [lia|].
    destruct (Z.ltb_spec int32_max (n * m)), (Z.leb_spec (n * m) int32_max); lia.
  - rewrite parse_whole_dec_large by (unfold int32_min, int32_max in *; lia).
    destruct (Z.leb_spec (n * m) int32_max); [nia|done].
Qed.

Lemma duration_unit_facts u m : duration_unit u = Some m -> 1 <= m /\ is_dec_digit u = false.
Proof.
  unfold duration_unit. intros H.
  repeat (match type of H with context [Ascii.eqb u ?c] => destruct (Ascii.eqb_spec u c) as [->|?] end;
          [simplify_eq; split; [lia|done]|]). done.
Qed.

Lemma ParseDuration_trimmed s a m : trim_view s = a :: m -> ParseDuration s =
  let lower := ToLower (a :: m) in
  if text_eqb lower $"0" || text_eqb lower $"perm" || text_eqb lower $"permanent" then 0
  else let suffix := List.last lower (chr 0) in
       if is_dec_digit suffix then duration_total lower 1
       else match duration_unit suffix with
            | None => -1
            | Some multiplier => duration_total (removelast lower) multiplier
            end.
Proof. intros H. unfold ParseDuration. by rewrite H. Qed.

Lemma starts_digit_not_perm a m rest :
  is_dec_digit a = true -> text_eqb (a :: m) ("p"%char :: rest) = false.
Proof. intros Ha. apply text_eqb_false. intros [= -> _]. discriminate Ha. Qed.

Lemma last_list_last {A} (l : list A) z d : last l = Some z -> List.last l d = z.
Proof. intros H. apply last_Some in H as [f ->]. apply last_last. Qed.

Lemma ParseDuration_bare w1 w2 n :
  forallb is_space w1 = true -> forallb is_space w2 = true -> 0 <= n ->
  ParseDuration (w1 ++ dec n ++ w2) = duration_or_overflow n 1.
Proof.
  intros Hw1 Hw2 Hn. destruct (dec_ends n Hn) as (a & m & z & E & L & Ha & Hz).
  rewrite (ParseDuration_trimmed _ a m).
  2:{ rewrite <- E. apply (trim_view_core w1 w2 a m z); eauto using digit_not_space. }
  rewrite <- E, ToLower_dec by done. cbv zeta. rewrite E at 2 3. unfold lit. cbn [list_ascii_of_string].
  rewrite !starts_digit_not_perm by done. rewrite !orb_false_r.
  destruct (text_eqb (dec n) ["0"%char]) eqn:E0.
  - apply text_eqb_true in E0. assert (n = 0) as -> by by apply dec_inj. done.
  - rewrite (last_list_last (dec n) z) by done. rewrite Hz. by apply duration_total_dec.
Qed.

Lemma lower_unit_not_space u m : duration_unit (to_lower_char u) = Some m -> is_space u = false.
Proof.
  pose proof (all_chars (fun u => match duration_unit (to_lower_char u) with Some _ => negb (is_space u) | None => true end)
    ltac:(vm_compute; reflexivity) u) as H.
  cbn beta in H. intros E. rewrite E in H. by apply negb_true_iff.
Qed.

Lemma ParseDuration_unit w1 w2 n u m :
  forallb is_space w1 = true -> forallb is_space w2 = true -> 0 <= n ->
  duration_unit (to_lower_char u) = Some m ->
  ParseDuration (w1 ++ (dec n ++ [u]) ++ w2) = duration_or_overflow n m.
Proof.
  intros Hw1 Hw2 Hn Hu. destruct (dec_ends n Hn) as (a & t & z & E & L & Ha & Hz).
  destruct (duration_unit_facts _ _ Hu) as [Hm Hdig].
  rewrite (ParseDuration_trimmed _ a (t ++ [u])).
  2:{ change (a :: t ++ [u]) with ((a :: t) ++ [u]). rewrite <- E.
      apply (trim_view_core w1 w2 a (t ++ [u]) u); eauto using digit_not_space, lower_unit_not_space, last_snoc.
      by rewrite E. }
  assert (ToLower (a :: t ++ [u]) = dec n ++ [to_lower_char u]) as ->.
  { change (a :: t ++ [u]) with ((a :: t) ++ [u]). rewrite <- E. unfold ToLower.
    rewrite map_app. fold (ToLower (dec n)). by rewrite ToLower_dec. }
  cbv zeta. rewrite last_last, Hdig, removelast_last, Hu.
  assert (text_eqb (dec n ++ [to_lower_char u]) $"0" = false) as ->.
  { apply text_eqb_false. intros E'. rewrite E in E'. destruct t; done. }
  rewrite E. cbn [app]. unfold lit. cbn [list_ascii_of_string]. rewrite !starts_digit_not_perm by done.
  rewrite <- E. by apply duration_total_dec.
Qed.

Lemma duration_total_bounds s m : 1 <= m -> -1 <= duration_total s m <= int32_max.
Proof.
  intros Hm. unfold duration_total. destruct (parse_whole _ _ _ s) as [v|]; [|unfold int32_max; lia].
  destruct (Z.ltb_spec v 0); [unfold int32_max; lia|].
  destruct (Z.ltb_spec int32_max (v * m)); [unfold int32_max; lia|nia].
Qed.

Lemma ParseDuration_bounds s : -1 <= ParseDuration s <= int32_max.
Proof.
  unfold ParseDuration. repeat case_match; try (unfold int32_max; lia); apply duration_total_bounds; [lia|]. by eapply duration_unit_facts.
Qed.

(** [ParseDuration] fits its [int] on every input, and is the documented grammar: surrounding space, a
    number, and an optional unit in either case give that many seconds, or -1 when they do not fit. *)
Theorem ParseDuration_grammar :
  (forall s, -1 <= ParseDuration s <= int32_max) /\
  (forall w1 w2 n, forallb is_space w1 = true -> forallb is_space w2 = true -> 0 <= n ->
     ParseDuration (w1 ++ dec n ++ w2) = duration_or_overflow n 1 /\
     forall u m, duration_unit (to_lower_char u) = Some m ->
       ParseDuration (w1 ++ (dec n ++ [u]) ++ w2) = duration_or_overflow n m).
Proof.
  split.
  - exact ParseDuration_bounds.
  - intros w1 w2 n Hw1 Hw2 Hn. split; [by apply ParseDuration_bare|].
    intros u m Hu. by apply ParseDuration_unit.
Qed.

Lemma ParseDuration_grammar_witness : ParseDuration $" 15M " = 900.
Proof.
  destruct ParseDuration_grammar as [_ H].
  destruct (H [" "%char] [" "%char] 15) as [_ Hu]; [reflexivity|reflexivity|lia|].
  apply (Hu "M"%char 60). reflexivity.
Defined.

(** ** Lines *)

Lemma c_str_id s : chr 0 ∉ s -> c_str s = s.
Proof.
  induction s as [|c s IH]; [done|]. intros [Hc Hs]%not_elem_of_cons. cbn [c_str]. rewrite bool_decide_false by done. by rewrite IH.
Qed.

Lemma split_lines_line current line rest :
  line_feed ∉ line -> split_lines current (line ++ line_feed :: rest) = (rev current ++ line) :: split_lines [] rest.
Proof.
  revert current; induction line as [|c line IH]; intros current Hn; cbn [split_lines app].
  - by rewrite bool_decide_true, app_nil_r.
  - apply not_elem_of_cons in Hn as [Hc Hn]. rewrite bool_decide_false by done. rewrite IH by done. cbn [rev]. by rewrite <- app_assoc.
Qed.
