(* ===== verification/Identity.v ===== *)
(** * Identity: slots and SteamIDs

    [include/VoltMod/Core/Slots/Slot.hpp], [PerSlot.hpp] and [src/Core/Slots/SteamId.cpp]. *)

From S2P Require Import Prelude Text.

(** ** Slots *)

Definition MaxPlayers : Z := 64.
Definition EveryoneSlot : Z := -1.

Definition IsValidSlot (slot : Z) : bool := (0 <=? slot) && (slot <? MaxPlayers).

(** [for (int slot = 0; slot < MaxPlayers; ++slot)]. *)
Definition all_slots : list Z := map Z.of_nat (seq 0 (Z.to_nat MaxPlayers)).

(** [PerSlot<T>]: the array, every entry value-initialised. *)
Definition PerSlot (T : Type) : Type := list T.

Section PerSlot.
Context {T : Type} (zero : T).

Definition PerSlot_new : PerSlot T := replicate (Z.to_nat MaxPlayers) zero.

(** [operator[]]; an index the source asserts against has no value. *)
Definition PerSlot_get (items : PerSlot T) (slot : Z) : option T :=
  if IsValidSlot slot then items !! Z.to_nat slot else None.

Definition PerSlot_set (items : PerSlot T) (slot : Z) (v : T) : PerSlot T :=
  if IsValidSlot slot then <[Z.to_nat slot := v]> items else items.

Definition PerSlot_Reset (items : PerSlot T) (slot : Z) : PerSlot T :=
  if IsValidSlot slot then <[Z.to_nat slot := zero]> items else items.

Definition PerSlot_ResetAll (items : PerSlot T) : PerSlot T := map (fun _ => zero) items.

Definition PerSlot_wf (items : PerSlot T) : Prop := length items = Z.to_nat MaxPlayers.

Lemma PerSlot_new_wf : PerSlot_wf PerSlot_new.
Proof. apply length_replicate. Qed.

Lemma PerSlot_Reset_wf items slot : PerSlot_wf items -> PerSlot_wf (PerSlot_Reset items slot).
Proof. unfold PerSlot_Reset, PerSlot_wf. case_match; rewrite ?length_insert; auto. Qed.

Lemma PerSlot_set_wf items slot v : PerSlot_wf items -> PerSlot_wf (PerSlot_set items slot v).
Proof. unfold PerSlot_set, PerSlot_wf. case_match; rewrite ?length_insert; auto. Qed.

(** A reset slot holds the initial value, and no other slot is touched. *)
Lemma PerSlot_get_Reset items slot slot' :
  PerSlot_wf items -> IsValidSlot slot' = true ->
  PerSlot_get (PerSlot_Reset items slot) slot' =
    if slot =? slot' then Some zero else PerSlot_get items slot'.
Proof.
  unfold PerSlot_get, PerSlot_Reset, PerSlot_wf, IsValidSlot, MaxPlayers. intros Hlen Hs'. rewrite Hs'.
  destruct (Z.eqb_spec slot slot') as [->|Hne].
  - rewrite Hs'. apply list_lookup_insert_eq. lia.
  - case_match; [|done]. apply list_lookup_insert_ne. lia.
Qed.

Lemma default_replicate (n i : nat) : default zero (replicate n zero !! i) = zero.
Proof. destruct (replicate n zero !! i) eqn:E; [by apply lookup_replicate in E as [-> _]|done]. Qed.

Lemma PerSlot_get_new slot : default zero (PerSlot_get PerSlot_new slot) = zero.
Proof. unfold PerSlot_get, PerSlot_new. destruct (IsValidSlot slot); [apply default_replicate|done]. Qed.

(** A slot holds what was last put in it. *)
Lemma PerSlot_get_set items slot slot' v :
  PerSlot_wf items -> IsValidSlot slot' = true ->
  PerSlot_get (PerSlot_set items slot v) slot' = if slot =? slot' then Some v else PerSlot_get items slot'.
Proof.
  unfold PerSlot_get, PerSlot_set, PerSlot_wf, IsValidSlot, MaxPlayers. intros Hlen Hs'. rewrite Hs'.
  destruct (Z.eqb_spec slot slot') as [->|Hne].
  - rewrite Hs'. apply list_lookup_insert_eq. lia.
  - case_match; [|done]. apply list_lookup_insert_ne. lia.
Qed.
End PerSlot.

(** ** SteamIDs

    [int64_t] and [uint32_t] conversions are written out; the subtraction of [GetAccountId] is on
    [int64_t] and does not overflow for ids above [int64_min + SteamId64Base]. *)

Definition SteamId64Base : Z := 76561197960265728.

Definition GetAccountId (steamId64 : Z) : Z := wrap_u32 (steamId64 - SteamId64Base).

Definition IsValid (steamId64 : Z) : bool :=
  (SteamId64Base <=? steamId64) && (steamId64 <? SteamId64Base + 4294967296).

Definition ToSteamId3 (steamId64 : Z) : text := $"[U:1:" ++ dec (GetAccountId steamId64) ++ $"]".

Definition ToSteamId (steamId64 : Z) : text :=
  let accountId := GetAccountId steamId64 in
  $"STEAM_0:" ++ dec (accountId mod 2) ++ $":" ++ dec (accountId / 2).

Definition FromSteamId3 (steamId3 : text) : option Z :=
  let prefix := $"[U:1:" in
  if negb (StartsWith steamId3 prefix) || (length steamId3 <=? length prefix + 1)%nat
     || negb (Ascii.eqb (List.last steamId3 (chr 0)) "]")
  then None
  else match parse_whole 10 0 uint32_max (removelast (drop (length prefix) steamId3)) with
       | None => None
       | Some accountId => Some (SteamId64Base + accountId)
       end.

Definition FromSteamId (steamId : text) : option Z :=
  let prefix := $"STEAM_" in
  if negb (StartsWith steamId prefix) || (length steamId <? length prefix + 4)%nat then None
  else
    let at_ i := nth (length prefix + i) steamId (chr 0) in
    let universe := at_ 0%nat in
    let auth := at_ 2%nat in
    if (code universe <? 48) || (53 <? code universe) || (code auth <? 48) || (49 <? code auth)
       || negb (Ascii.eqb (at_ 1%nat) ":") || negb (Ascii.eqb (at_ 3%nat) ":")
    then None
    else match parse_whole 10 0 uint32_max (drop (length prefix + 4) steamId) with
         | None => None
         | Some accountNum =>
             Some (SteamId64Base + wrap_u32 (accountNum * 2 + (code auth - 48)))
         end.

Lemma parse_whole_unsigned hi s v : parse_whole 10 0 hi s = Some v -> 0 <= v <= hi.
Proof.
  unfold parse_whole, from_chars. intros H. destruct s as [|c s]; cbn in H; [done|].
  repeat case_match; simplify_eq; bools; lia.
Qed.

Lemma GetAccountId_valid id : IsValid id = true -> 0 <= GetAccountId id <= uint32_max /\ SteamId64Base + GetAccountId id = id.
Proof.
  unfold IsValid, GetAccountId, wrap_u32, uint32_max. intros H. bools.
  rewrite Z.mod_small by lia. lia.
Qed.

Lemma FromSteamId3_ToSteamId3 id : IsValid id = true -> FromSteamId3 (ToSteamId3 id) = Some id.
Proof.
  intros H. apply GetAccountId_valid in H as [Hr E]. unfold FromSteamId3, ToSteamId3.
  set (d := dec (GetAccountId id)) in *.
  assert (1 <= length d)%nat as Hd.
  { destruct d eqn:Ed; [by apply dec_nonempty in Ed|cbn; lia]. }
  unfold StartsWith. rewrite is_prefix_app. rewrite !length_app.
  change (length $"[U:1:") with 5%nat. change (length $"]") with 1%nat.
  rewrite (proj2 (Nat.leb_gt _ _)) by lia.
  rewrite app_assoc. change $"]" with ["]"%char]. rewrite last_last.
  rewrite <- app_assoc. change 5%nat with (length $"[U:1:"). rewrite drop_app_length.
  rewrite removelast_last. cbn [negb orb Ascii.eqb]. unfold d. rewrite parse_whole_dec by lia.
  cbn. by f_equal.
Qed.

Lemma dec_bit b : 0 <= b < 2 -> dec b = [chr (48 + b)].
Proof. intros Hb. assert (b = 0 \/ b = 1) as [->| ->] by lia; reflexivity. Qed.

Lemma FromSteamId_shape b t :
  b = 0 \/ b = 1 ->
  FromSteamId ($"STEAM_0:" ++ dec b ++ $":" ++ t) =
    match parse_whole 10 0 uint32_max t with
    | None => None
    | Some accountNum => Some (SteamId64Base + wrap_u32 (accountNum * 2 + b))
    end.
Proof. intros [-> | ->]; reflexivity. Qed.

Lemma FromSteamId_ToSteamId id : IsValid id = true -> FromSteamId (ToSteamId id) = Some id.
Proof.
  intros H. apply GetAccountId_valid in H as [Hr E]. unfold ToSteamId.
  set (a := GetAccountId id) in *. pose proof (Z.mod_pos_bound a 2). pose proof (Z.div_mod a 2).
  rewrite FromSteamId_shape by lia. unfold uint32_max in *. rewrite parse_whole_dec by lia.
  f_equal. unfold wrap_u32. rewrite Z.mod_small by lia. lia.
Qed.

(** Every valid SteamID survives both textual forms, and whatever either parser accepts is a valid
    SteamID. *)
Theorem SteamId_roundtrip :
  (forall id, IsValid id = true ->
     FromSteamId3 (ToSteamId3 id) = Some id /\ FromSteamId (ToSteamId id) = Some id) /\
  (forall s id, FromSteamId3 s = Some id \/ FromSteamId s = Some id -> IsValid id = true).
Proof.
  split; [intros id H; split; auto using FromSteamId3_ToSteamId3, FromSteamId_ToSteamId|].
  intros s id [H|H]; unfold FromSteamId3, FromSteamId in H; repeat case_match; simplify_eq;
    match goal with P : parse_whole _ _ _ _ = Some _ |- _ => apply parse_whole_unsigned in P end;
    unfold IsValid, wrap_u32, uint32_max in *.
  - lia.
  - match goal with |- context [?x mod ?y] => pose proof (Z.mod_pos_bound x y) end. lia.
Qed.

Lemma SteamId_roundtrip_witness :
  FromSteamId3 (ToSteamId3 76561198000000001) = Some 76561198000000001 /\
  FromSteamId $"STEAM_1:0:5" = Some 76561197960265738 /\ IsValid 76561197960265738 = true.
Proof.
  destruct SteamId_roundtrip as [H1 H2]. split_and!.
  - apply (H1 76561198000000001). reflexivity.
  - reflexivity.
  - apply (H2 $"STEAM_1:0:5"). right. reflexivity.
Defined.

(** An account number past 2^31 wraps: [accountNum * 2] is computed on [uint32_t]. *)
Lemma FromSteamId_wraps : FromSteamId $"STEAM_0:0:2147483648" = FromSteamId $"STEAM_0:0:0".
Proof. reflexivity. Qed.
