(* ===== verification/Signals.v ===== *)
(** * Signals: the callback registry behind every event

    [include/VoltMod/Core/Signals/CallbackRegistry.hpp] and [Event.hpp]. A callback may add or remove items,
    its own included, or dispatch again while a dispatch runs. Callbacks are modelled as programs over the
    registry's own operations and a state [W] of their own; [run] interprets them against the registry as
    written (flags while dispatching, erasure when the outermost dispatch ends), [arun] against the
    abstract registry, where a removal takes effect at once. The refinement theorem says no callback can
    tell the two apart. *)

From S2P Require Import Prelude.

(** ** The registry as written *)

Record Entry (T : Type) := mkEntry { Id : Z; Item : T; Removed : bool }.
Arguments mkEntry {T}.
Arguments Id {T}.
Arguments Item {T}.
Arguments Removed {T}.

(** Handles are [uint64_t] and count from 1; a server does not hand out 2^64 of them, so [nextId] is kept
    as the number it stands for. *)
Record Registry (T : Type) :=
  mkRegistry { entries : list (Entry T); live : Z; dispatchDepth : Z; nextId : Z }.
Arguments mkRegistry {T}.
Arguments entries {T}.
Arguments live {T}.
Arguments dispatchDepth {T}.
Arguments nextId {T}.

Definition Registry_new {T} : Registry T := mkRegistry [] 0 0 1.

Section CallbackRegistry.
Context {T : Type}.
Implicit Types r : Registry T.

Definition with_entries r (es : list (Entry T)) : Registry T :=
  mkRegistry es (live r) (dispatchDepth r) (nextId r).

Definition Registry_Add r (item : T) : Z * Registry T :=
  let id := nextId r in
  (id, mkRegistry (entries r ++ [mkEntry id item false]) (live r + 1) (dispatchDepth r) (id + 1)).

(** [lower_bound] on the ids, then the check that it is the id. *)
Definition Locate r (id : Z) : option (nat * Entry T) :=
  let i := count_while (fun e => Id e <? id) (entries r) in
  match entries r !! i with
  | Some e => if Id e =? id then Some (i, e) else None
  | None => None
  end.

Definition mark_removed (e : Entry T) : Entry T := mkEntry (Id e) (Item e) true.

Definition Registry_Remove r (id : Z) : bool * Registry T :=
  match Locate r id with
  | None => (false, r)
  | Some (i, e) =>
      if Removed e then (false, r)
      else
        let es := if 0 <? dispatchDepth r then <[i := mark_removed e]> (entries r)
                  else delete i (entries r) in
        (true, mkRegistry es (live r - 1) (dispatchDepth r) (nextId r))
  end.

Definition Registry_Clear r : Registry T :=
  mkRegistry (if dispatchDepth r =? 0 then [] else map mark_removed (entries r))
             0 (dispatchDepth r) (nextId r).

Definition Registry_Empty r : bool := live r =? 0.
Definition Registry_Size r : Z := live r.

Definition Registry_Find r (id : Z) : option T :=
  match Locate r id with
  | Some (_, e) => if Removed e then None else Some (Item e)
  | None => None
  end.

(** A write through the reference a callback was given to its item. *)
Definition Registry_Update r (id : Z) (item : T) : Registry T :=
  match Locate r id with
  | Some (i, e) => with_entries r (<[i := mkEntry (Id e) item (Removed e)]> (entries r))
  | None => r
  end.

Definition DispatchScope_enter r : Registry T :=
  mkRegistry (entries r) (live r) (dispatchDepth r + 1) (nextId r).

Definition DispatchScope_leave r : Registry T :=
  let depth := dispatchDepth r - 1 in
  let es := if (depth =? 0) && negb (Z.of_nat (length (entries r)) =? live r)
            then List.filter (fun e => negb (Removed e)) (entries r) else entries r in
  mkRegistry es (live r) depth (nextId r).
End CallbackRegistry.

(** ** Callbacks

    What a callback does, one operation at a time. [DoDispatch] is a nested dispatch with an argument of
    its own; [DoWorld] is whatever the callback does to its own state. *)

Inductive program (T W A : Type) : Type :=
| Done
| DoAdd (item : T) (k : Z -> program T W A)
| DoRemove (id : Z) (k : bool -> program T W A)
| DoClear (k : program T W A)
| DoSize (k : Z -> program T W A)
| DoFind (id : Z) (k : option T -> program T W A)
| DoUpdate (id : Z) (item : T) (k : program T W A)
| DoWorld (f : W -> W) (k : W -> program T W A)
| DoDispatch (arg : A) (k : program T W A).
Arguments Done {T W A}.
Arguments DoAdd {T W A}.
Arguments DoRemove {T W A}.
Arguments DoClear {T W A}.
Arguments DoSize {T W A}.
Arguments DoFind {T W A}.
Arguments DoUpdate {T W A}.
Arguments DoWorld {T W A}.
Arguments DoDispatch {T W A}.

Section Dispatch.
Context {T W A : Type}.
(** [DispatchIf(pred, fn)] with the argument of the dispatch; [fn] is given the item and its handle. *)
Context (pred : A -> T -> bool) (fn : A -> Z -> T -> program T W A).
Implicit Types r : Registry T.

(** The loop [for (i = 0; i < count; ++i)], given how to run a callback. An index past the end is
    undefined behaviour: [None]. *)
Fixpoint dispatch_loop (exec : program T W A -> Registry T * W -> option (Registry T * W))
    (arg : A) (i count : nat) (st : Registry T * W) : option (Registry T * W) :=
  match count with
  | O => Some st
  | S n =>
      match entries st.1 !! i with
      | None => None
      | Some e =>
          let st' := if negb (Removed e) && pred arg (Item e) then exec (fn arg (Id e) (Item e)) st
                     else Some st in
          match st' with
          | Some st'' => dispatch_loop exec arg (S i) n st''
          | None => None
          end
      end
  end.

Definition DispatchIf_with exec (arg : A) (st : Registry T * W) : option (Registry T * W) :=
  let count := length (entries st.1) in
  if (count =? 0)%nat then Some st
  else match dispatch_loop exec arg 0 count (DispatchScope_enter st.1, st.2) with
       | Some (r, w) => Some (DispatchScope_leave r, w)
       | None => None
       end.

(** One callback, given what a nested dispatch does. *)
Fixpoint run_program (nested : A -> Registry T * W -> option (Registry T * W))
    (p : program T W A) (st : Registry T * W) : option (Registry T * W) :=
  match p with
  | Done => Some st
  | DoAdd item k => let '(id, r) := Registry_Add st.1 item in run_program nested (k id) (r, st.2)
  | DoRemove id k => let '(b, r) := Registry_Remove st.1 id in run_program nested (k b) (r, st.2)
  | DoClear k => run_program nested k (Registry_Clear st.1, st.2)
  | DoSize k => run_program nested (k (Registry_Size st.1)) st
  | DoFind id k => run_program nested (k (Registry_Find st.1 id)) st
  | DoUpdate id item k => run_program nested k (Registry_Update st.1 id item, st.2)
  | DoWorld g k => let w := g st.2 in run_program nested (k w) (st.1, w)
  | DoDispatch arg k =>
      match nested arg st with
      | Some st' => run_program nested k st'
      | None => None
      end
  end.

(** [fuel] bounds how deep dispatches nest. *)
Fixpoint run (fuel : nat) (p : program T W A) (st : Registry T * W) : option (Registry T * W) :=
  match fuel with
  | O => None
  | S f => run_program (DispatchIf_with (run f)) p st
  end.

Definition DispatchIf (fuel : nat) (arg : A) (st : Registry T * W) : option (Registry T * W) :=
  DispatchIf_with (run fuel) arg st.
End Dispatch.

(** ** The abstract registry: a list of live items, where everything takes effect at once *)

Record ARegistry (T : Type) := mkARegistry { alive : list (Z * T); anext : Z }.
Arguments mkARegistry {T}.
Arguments alive {T}.
Arguments anext {T}.

Fixpoint assoc_find {T} (id : Z) (l : list (Z * T)) : option T :=
  match l with
  | [] => None
  | (k, v) :: rest => if k =? id then Some v else assoc_find id rest
  end.

Section Abstract.
Context {T W A : Type}.
Context (pred : A -> T -> bool) (fn : A -> Z -> T -> program T W A).
Implicit Types a : ARegistry T.

Definition a_add a (item : T) : Z * ARegistry T :=
  (anext a, mkARegistry (alive a ++ [(anext a, item)]) (anext a + 1)).

Definition a_remove a (id : Z) : bool * ARegistry T :=
  match assoc_find id (alive a) with
  | None => (false, a)
  | Some _ => (true, mkARegistry (List.filter (fun p => negb (p.1 =? id)) (alive a)) (anext a))
  end.

Definition a_update a (id : Z) (item : T) : ARegistry T :=
  mkARegistry (map (fun p => if p.1 =? id then (p.1, item) else p) (alive a)) (anext a).

Fixpoint a_loop (exec : program T W A -> ARegistry T * W -> option (ARegistry T * W))
    (arg : A) (ids : list Z) (st : ARegistry T * W) : option (ARegistry T * W) :=
  match ids with
  | [] => Some st
  | id :: rest =>
      let st' := match assoc_find id (alive st.1) with
                 | Some item => if pred arg item then exec (fn arg id item) st else Some st
                 | None => Some st
                 end in
      match st' with
      | Some st'' => a_loop exec arg rest st''
      | None => None
      end
  end.

(** Run, in the order they were added, the items that were there at the start and still are when their
    turn comes. *)
Definition a_dispatch exec (arg : A) (st : ARegistry T * W) : option (ARegistry T * W) :=
  a_loop exec arg (map fst (alive st.1)) st.

Fixpoint arun_program (nested : A -> ARegistry T * W -> option (ARegistry T * W))
    (p : program T W A) (st : ARegistry T * W) : option (ARegistry T * W) :=
  match p with
  | Done => Some st
  | DoAdd item k => let '(id, a) := a_add st.1 item in arun_program nested (k id) (a, st.2)
  | DoRemove id k => let '(b, a) := a_remove st.1 id in arun_program nested (k b) (a, st.2)
  | DoClear k => arun_program nested k (mkARegistry [] (anext st.1), st.2)
  | DoSize k => arun_program nested (k (Z.of_nat (length (alive st.1)))) st
  | DoFind id k => arun_program nested (k (assoc_find id (alive st.1))) st
  | DoUpdate id item k => arun_program nested k (a_update st.1 id item, st.2)
  | DoWorld g k => let w := g st.2 in arun_program nested (k w) (st.1, w)
  | DoDispatch arg k =>
      match nested arg st with
      | Some st' => arun_program nested k st'
      | None => None
      end
  end.

Fixpoint arun (fuel : nat) (p : program T W A) (st : ARegistry T * W) : option (ARegistry T * W) :=
  match fuel with
  | O => None
  | S f => arun_program (a_dispatch (arun f)) p st
  end.
End Abstract.

(** ** Well-formed registries and what they stand for *)

Section Wf.
Context {T : Type}.
Implicit Types (r : Registry T) (es : list (Entry T)).

Definition alive_of es : list (Z * T) :=
  map (fun e => (Id e, Item e)) (List.filter (fun e => negb (Removed e)) es).

Definition abs r : ARegistry T := mkARegistry (alive_of (entries r)) (nextId r).

Record wf r : Prop := {
  wf_sorted : StronglySorted Z.lt (map Id (entries r));
  wf_next : Forall (fun e => Id e < nextId r) (entries r);
  wf_live : live r = Z.of_nat (length (alive_of (entries r)));
  wf_depth : 0 <= dispatchDepth r;
  wf_clean : dispatchDepth r = 0 -> Forall (fun e => Removed e = false) (entries r) }.

(** While a dispatch is under way entries stay where they are, and a removed one stays removed. *)
Definition grows r r' : Prop :=
  forall i e, entries r !! i = Some e ->
    exists e', entries r' !! i = Some e' /\ Id e' = Id e /\ (Removed e = true -> Removed e' = true).

Definition evolves r r' : Prop :=
  wf r' /\ dispatchDepth r' = dispatchDepth r /\ (0 < dispatchDepth r -> grows r r').

Lemma grows_refl r : grows r r.
Proof. intros i e H. eauto. Qed.

Lemma grows_trans r1 r2 r3 : grows r1 r2 -> grows r2 r3 -> grows r1 r3.
Proof.
  intros H1 H2 i e H. destruct (H1 _ _ H) as (e1 & L1 & I1 & R1).
  destruct (H2 _ _ L1) as (e2 & L2 & I2 & R2). exists e2. split_and!; [done|congruence|auto].
Qed.

Lemma evolves_refl r : wf r -> evolves r r.
Proof. intros H. split_and!; auto using grows_refl. Qed.

Lemma evolves_trans r1 r2 r3 : evolves r1 r2 -> evolves r2 r3 -> evolves r1 r3.
Proof.
  intros (_ & D1 & G1) (W2 & D2 & G2). split_and!; [done|congruence|].
  intros H. eapply grows_trans; [by apply G1 | apply G2; congruence].
Qed.

Lemma alive_of_app es1 es2 : alive_of (es1 ++ es2) = alive_of es1 ++ alive_of es2.
Proof. unfold alive_of. by rewrite List.filter_app, map_app. Qed.

Lemma alive_of_cons e es :
  alive_of (e :: es) = if Removed e then alive_of es else (Id e, Item e) :: alive_of es.
Proof. unfold alive_of. cbn. by destruct (Removed e). Qed.

Lemma alive_of_in id v es : In (id, v) (alive_of es) -> exists e, In e es /\ Id e = id.
Proof.
  unfold alive_of. rewrite in_map_iff. intros (e & [= <- <-] & H). apply filter_In in H as [H _]. eauto.
Qed.

Lemma sorted_split es1 (e : Entry T) es2 :
  StronglySorted Z.lt (map Id (es1 ++ e :: es2)) ->
  (forall x, In x es1 -> Id x < Id e) /\ (forall x, In x es2 -> Id e < Id x).
Proof.
  induction es1 as [|p es1 IH]; cbn; intros H; inversion_clear H as [|? ? H1 H2].
  - split; [done|]. intros x Hx. rewrite Forall_forall in H2. apply H2, list_elem_of_In.
    by apply in_map.
  - destruct (IH H1) as [IH1 IH2]. split; [|done]. intros x [<-|Hx]; [|auto].
    rewrite Forall_forall in H2. apply H2, list_elem_of_In, in_map, in_or_app. right. by left.
Qed.

Lemma assoc_find_skip id (l1 l2 : list (Z * T)) :
  (forall v, ~ In (id, v) l1) -> assoc_find id (l1 ++ l2) = assoc_find id l2.
Proof.
  induction l1 as [|[k v] l1 IH]; cbn; intros H; [done|].
  destruct (Z.eqb_spec k id) as [->|]; [exfalso; apply (H v); by left|].
  apply IH. intros v' Hv'. apply (H v'). by right.
Qed.

Lemma not_alive_of id es : (forall x, In x es -> Id x <> id) -> forall v, ~ In (id, v) (alive_of es).
Proof. intros H v Hv. apply alive_of_in in Hv as (e & He & E). by apply (H e). Qed.
End Wf.

Arguments alive_of {T} es : simpl never.

Section Operations.
Context {T : Type}.
Implicit Types (r : Registry T) (es : list (Entry T)).

Lemma wf_split r pre e post :
  wf r -> entries r = pre ++ e :: post ->
  (forall x, In x pre -> Id x < Id e) /\ (forall x, In x post -> Id e < Id x).
Proof. intros H E. apply sorted_split. rewrite <- E. apply wf_sorted, H. Qed.

Lemma wf_find r pre e post :
  wf r -> entries r = pre ++ e :: post ->
  assoc_find (Id e) (alive_of (entries r)) = if Removed e then None else Some (Item e).
Proof.
  intros Hw E. destruct (wf_split _ _ _ _ Hw E) as [Hpre Hpost].
  rewrite E, alive_of_app, assoc_find_skip.
  2:{ apply not_alive_of. intros x Hx. apply Hpre in Hx. lia. }
  rewrite alive_of_cons. destruct (Removed e).
  - rewrite <- (app_nil_r (alive_of post)), assoc_find_skip; [done|].
    apply not_alive_of. intros x Hx. apply Hpost in Hx. lia.
  - cbn. by rewrite Z.eqb_refl.
Qed.

Lemma Locate_spec r id :
  wf r ->
  match Locate r id with
  | Some (i, e) => exists pre post, entries r = pre ++ e :: post /\ length pre = i /\ Id e = id
  | None => forall e, In e (entries r) -> Id e <> id
  end.
Proof.
  intros Hw. unfold Locate. set (p := fun e : Entry T => Id e <? id).
  assert (exists pre post : list (Entry T), entries r = pre ++ post /\ length pre = count_while p (entries r) /\
            (forall x : Entry T, In x pre -> Id x < id) /\
            match post with [] => True | e :: _ => id <= Id e end) as (pre & post & E & L & Hpre & Hpost).
  { generalize (entries r). intros es. induction es as [|e es (pre & post & -> & L & Hpre & Hpost)]; cbn.
    - by exists [], [].
    - unfold p at 1. destruct (Z.ltb_spec (Id e) id).
      + exists (e :: pre), post. split_and!; [done|cbn; by rewrite L| |done].
        intros x [<-|Hx]; auto.
      + exists [], (e :: pre ++ post). done. }
  rewrite <- L, E.
  destruct post as [|e post].
  - rewrite app_nil_r, lookup_ge_None_2 by done. intros x Hx E'. rewrite app_nil_r in E.
    apply Hpre in Hx. lia.
  - rewrite list_lookup_middle by done. destruct (Z.eqb_spec (Id e) id) as [<-|Hne]; [by exists pre, post|].
    intros x Hx E'. apply in_app_or in Hx as [Hx|[<-|Hx]]; [apply Hpre in Hx; lia|done|].
    rewrite E in *. pose proof (wf_sorted r Hw) as Hs. rewrite E in Hs.
    apply sorted_split in Hs as [_ Hs]. apply Hs in Hx. lia.
Qed.

Lemma Find_abs r id : wf r -> Registry_Find r id = assoc_find id (alive_of (entries r)).
Proof.
  intros Hw. unfold Registry_Find. pose proof (Locate_spec r id Hw) as H.
  destruct (Locate r id) as [[i e]|].
  - destruct H as (pre & post & E & _ & <-). by rewrite (wf_find r pre e post).
  - rewrite <- (app_nil_r (alive_of _)), assoc_find_skip; [done|]. by apply not_alive_of.
Qed.

Lemma Size_abs r : wf r -> Registry_Size r = Z.of_nat (length (alive (abs r))).
Proof. apply wf_live. Qed.

Lemma Add_abs r item id r' :
  wf r -> Registry_Add r item = (id, r') -> a_add (abs r) item = (id, abs r') /\ evolves r r'.
Proof.
  intros Hw [= <- <-]. unfold a_add, abs. cbn. rewrite alive_of_app. split; [done|].
  split_and!; [|done|].
  - destruct Hw as [Hs Hn Hl Hd Hc]. split; cbn; [| | |done|].
    + rewrite map_app. apply ssorted_app. split_and!; [done|by repeat constructor|].
      intros x y Hx [<-|[]]. apply in_map_iff in Hx as (e & <- & He).
      rewrite List.Forall_forall in Hn. by apply Hn.
    + apply Forall_app. split; [|repeat constructor; cbn; lia].
      eapply Forall_impl; [exact Hn|]. cbn. intros; lia.
    + rewrite alive_of_app, length_app. change (length (alive_of [_])) with 1%nat. lia.
    + intros H0. apply Forall_app. split; [by apply Hc|by repeat constructor].
  - intros _ i e He. exists e. split; [|done]. cbn. by apply lookup_app_l_Some.
Qed.

Lemma alive_filter_skip id es :
  (forall x, In x es -> Id x <> id) ->
  List.filter (fun p => negb (p.1 =? id)) (alive_of es) = alive_of es.
Proof.
  intros H. apply forallb_filter_id, forallb_forall. intros [k v] Hin. apply alive_of_in in Hin as (e & He & <-).
  apply H in He. cbn. lia.
Qed.

(** Replacing an entry by one with the same id keeps the registry in order. *)
Lemma replace_entry_wf r pre e e' post l :
  wf r -> entries r = pre ++ e :: post -> Id e' = Id e -> 
  l = Z.of_nat (length (alive_of (pre ++ e' :: post))) ->
  (dispatchDepth r = 0 -> Removed e' = false) ->
  wf (mkRegistry (pre ++ e' :: post) l (dispatchDepth r) (nextId r)).
Proof.
  intros [Hs Hn Hl Hd Hc] E Hid -> Hrem. rewrite E in *. split; cbn; [| |done|done|].
  - rewrite map_app in *. cbn in *. by rewrite Hid.
  - apply Forall_app in Hn as [Hn1 Hn2]. inversion_clear Hn2. apply Forall_app. split; [done|].
    constructor; [by rewrite Hid|done].
  - intros H0. specialize (Hc H0). apply Forall_app in Hc as [Hc1 Hc2]. inversion_clear Hc2.
    apply Forall_app. split; [done|]. constructor; auto.
Qed.

Lemma replace_entry_grows pre (e e' : Entry T) post r r' :
  entries r = pre ++ e :: post -> entries r' = pre ++ e' :: post -> Id e' = Id e ->
  (Removed e = true -> Removed e' = true) -> grows r r'.
Proof.
  intros E E' Hid Hrem i x Hx. rewrite E in Hx. rewrite E'.
  destruct (decide (i = length pre)) as [->|Hne].
  - rewrite list_lookup_middle in Hx by done. simplify_eq. rewrite list_lookup_middle by done. eauto.
  - exists x. split; [|done]. destruct (decide (i < length pre)%nat).
    + rewrite lookup_app_l in * by done. done.
    + rewrite lookup_app_r in * by lia. destruct (i - length pre)%nat eqn:Ei; [lia|done].
Qed.

Lemma insert_middle {B} (pre post : list B) x y : <[length pre := y]> (pre ++ x :: post) = pre ++ y :: post.
Proof. rewrite insert_app_r_alt by lia. by rewrite Nat.sub_diag. Qed.

Lemma Remove_abs r id b r' :
  wf r -> Registry_Remove r id = (b, r') -> a_remove (abs r) id = (b, abs r') /\ evolves r r'.
Proof.
  intros Hw. unfold Registry_Remove, a_remove. cbn. rewrite <- Find_abs by done. unfold Registry_Find.
  pose proof (Locate_spec r id Hw) as HL. destruct (Locate r id) as [[i e]|].
  2:{ intros [= <- <-]. auto using evolves_refl. }
  destruct HL as (pre & post & E & <- & <-).
  destruct (Removed e) eqn:Hrem; intros [= <- <-]; [auto using evolves_refl|].
  destruct (wf_split _ _ _ _ Hw E) as [Hpre Hpost].
  assert (alive_of (entries r) = alive_of pre ++ (Id e, Item e) :: alive_of post) as Ea.
  { by rewrite E, alive_of_app, alive_of_cons, Hrem. }
  assert (List.filter (fun p => negb (p.1 =? Id e)) (alive_of (entries r)) = alive_of pre ++ alive_of post) as Ef.
  { rewrite Ea, List.filter_app. cbn. rewrite Z.eqb_refl. cbn. f_equal; apply alive_filter_skip;
      intros x Hx; [apply Hpre in Hx | apply Hpost in Hx]; lia. }
  assert (live r - 1 = Z.of_nat (length (alive_of pre ++ alive_of post))) as El.
  { rewrite (wf_live r Hw), Ea, !length_app. cbn. lia. }
  cbn. rewrite Ef. pose proof (wf_depth r Hw) as Hd. destruct (Z.ltb_spec 0 (dispatchDepth r)) as [Hpos|Hz].
  - rewrite E, insert_middle. assert (alive_of (pre ++ mark_removed e :: post) = alive_of pre ++ alive_of post) as Em.
    { by rewrite alive_of_app, alive_of_cons. }
    unfold abs. cbn. rewrite Em. split; [done|]. split_and!; [|done|].
    + apply (replace_entry_wf r pre e); [done|done|done|by rewrite Em|lia].
    + intros _. by eapply (replace_entry_grows pre e (mark_removed e)).
  - rewrite E, delete_middle. unfold abs. cbn. rewrite alive_of_app. split; [done|]. split_and!; [|done|cbn; lia].
    destruct Hw as [Hs Hn _ _ Hc]. specialize (Hc ltac:(lia)). rewrite E in *. split; cbn.
    + rewrite map_app in *. cbn in Hs. apply ssorted_app in Hs as (H1 & H2 & H12). inversion_clear H2.
      apply ssorted_app. split_and!; auto. intros x y Hx Hy. apply H12; [done|by right].
    + apply Forall_app in Hn as [? Hn]. inversion_clear Hn. apply Forall_app; auto.
    + by rewrite alive_of_app.
    + lia.
    + intros _. apply Forall_app in Hc as [? Hc]. inversion_clear Hc. apply Forall_app; auto.
Qed.

Lemma alive_of_map_removed es : alive_of (map mark_removed es) = [].
Proof. induction es as [|e es IH]; [done|]. cbn [map]. by rewrite alive_of_cons. Qed.

Lemma Clear_abs r : wf r -> abs (Registry_Clear r) = mkARegistry [] (nextId r) /\ evolves r (Registry_Clear r).
Proof.
  intros [Hs Hn Hl Hd Hc]. unfold Registry_Clear, abs. destruct (Z.eqb_spec (dispatchDepth r) 0) as [Hz|Hz]; cbn.
  - split; [done|]. split_and!; [|done|cbn; lia]. by split; cbn; repeat constructor.
  - rewrite alive_of_map_removed. split; [done|]. split_and!; [split; cbn|done|].
    + by rewrite map_map.
    + apply Forall_map. done.
    + by rewrite alive_of_map_removed.
    + done.
    + done.
    + intros _ i e He. exists (mark_removed e). cbn. by rewrite list_lookup_fmap, He.
Qed.

Lemma update_skip id item (l : list (Z * T)) :
  (forall v, ~ In (id, v) l) -> map (fun p => if p.1 =? id then (p.1, item) else p) l = l.
Proof.
  intros H. rewrite <- (List.map_id l) at 2. apply map_ext_in. intros [k v] Hin. cbn.
  destruct (Z.eqb_spec k id) as [->|]; [by apply H in Hin|done].
Qed.

Lemma Update_abs r id item :
  wf r -> abs (Registry_Update r id item) = a_update (abs r) id item /\ evolves r (Registry_Update r id item).
Proof.
  intros Hw. unfold Registry_Update, a_update, abs. pose proof (Locate_spec r id Hw) as HL.
  destruct (Locate r id) as [[i e]|]; cbn.
  2:{ rewrite update_skip by by apply not_alive_of. auto using evolves_refl. }
  destruct HL as (pre & post & E & <- & <-). destruct (wf_split _ _ _ _ Hw E) as [Hpre Hpost].
  rewrite E, insert_middle.
  assert (alive_of (pre ++ mkEntry (Id e) item (Removed e) :: post)
          = map (fun p => if p.1 =? Id e then (p.1, item) else p) (alive_of (pre ++ e :: post))) as Ea.
  { rewrite !alive_of_app, !alive_of_cons, map_app. cbn.
    assert (map (fun p => if p.1 =? Id e then (p.1, item) else p) (alive_of pre) = alive_of pre) as ->.
    { apply update_skip, not_alive_of. intros x Hx. apply Hpre in Hx. lia. }
    assert (map (fun p => if p.1 =? Id e then (p.1, item) else p) (alive_of post) = alive_of post) as Ep.
    { apply update_skip, not_alive_of. intros x Hx. apply Hpost in Hx. lia. }
    destruct (Removed e); cbn; rewrite ?Z.eqb_refl, Ep; done. }
  rewrite Ea. split; [done|]. split_and!; [|done|].
  - apply (replace_entry_wf r pre e); [done|done|done| |].
    + by rewrite Ea, length_map, (wf_live r Hw), E.
    + cbn. intros H0. pose proof (wf_clean r Hw H0) as Hc. rewrite E in Hc.
      apply Forall_app in Hc as [_ Hc]. by inversion_clear Hc.
  - intros _. by eapply (replace_entry_grows pre e (mkEntry (Id e) item (Removed e))).
Qed.

Lemma enter_wf r : wf r -> wf (DispatchScope_enter r).
Proof. intros [Hs Hn Hl Hd Hc]. split; cbn; try done; lia. Qed.

Lemma alive_of_filter es : alive_of (List.filter (fun e => negb (Removed e)) es) = alive_of es.
Proof.
  induction es as [|e es IH]; [done|]. cbn. rewrite alive_of_cons. destruct (Removed e) eqn:E; cbn; [done|].
  by rewrite alive_of_cons, E, IH.
Qed.

Lemma length_alive_of es : (length (alive_of es) <= length es)%nat.
Proof.
  induction es as [|e es IH]; [done|]. rewrite alive_of_cons. destruct (Removed e); cbn; lia.
Qed.

Lemma alive_of_full es : length (alive_of es) = length es -> Forall (fun e => Removed e = false) es.
Proof.
  induction es as [|e es IH]; [by constructor|]. rewrite alive_of_cons. pose proof (length_alive_of es).
  destruct (Removed e) eqn:E; cbn; [lia|]. intros [= H']. constructor; auto.
Qed.

(** The end of a dispatch keeps what is alive, and drops the flagged entries when it is the outermost. *)
Lemma leave_abs r :
  wf r -> 0 < dispatchDepth r ->
  abs (DispatchScope_leave r) = abs r /\ wf (DispatchScope_leave r) /\
  (1 < dispatchDepth r -> entries (DispatchScope_leave r) = entries r).
Proof.
  intros [Hs Hn Hl Hd Hc] Hpos. unfold DispatchScope_leave, abs. cbn.
  destruct (Z.eqb_spec (dispatchDepth r - 1) 0) as [Hz|Hz]; cbn.
  - destruct (Z.eqb_spec (Z.of_nat (length (entries r))) (live r)) as [He|He]; cbn.
    + split_and!; [done| |done]. split; cbn; try done; try lia. intros _. apply alive_of_full. lia.
    + rewrite alive_of_filter. split_and!; [done| |lia]. split; cbn; rewrite ?alive_of_filter; try done; try lia.
      * by apply ssorted_filter.
      * apply List.Forall_forall. intros x Hx. apply filter_In in Hx as [Hx _].
        rewrite List.Forall_forall in Hn. by apply Hn.
      * intros _. apply List.Forall_forall. intros x Hx. apply filter_In in Hx as [_ Hx].
        by apply negb_true_iff.
  - split_and!; [done| |done]. by split; cbn; try done; try lia.
Qed.
End Operations.

(** ** Refinement *)

Section Refinement.
Context {T W A : Type}.
Context (pred : A -> T -> bool) (fn : A -> Z -> T -> program T W A).
Implicit Types (r : Registry T) (w : W) (es : list (Entry T)).

(** The concrete outcome stands for the abstract one. *)
Definition matches r (c : option (Registry T * W)) (a : option (ARegistry T * W)) : Prop :=
  match a with
  | None => c = None
  | Some (a', w') => exists r', c = Some (r', w') /\ abs r' = a' /\ evolves r r'
  end.

Lemma matches_step r r1 c a : evolves r r1 -> matches r1 c a -> matches r c a.
Proof.
  unfold matches. destruct a as [[a' w']|]; [|done]. intros H (r' & -> & E & H').
  exists r'. split_and!; [done|done|by eapply evolves_trans].
Qed.

Definition exec_ok (exec : program T W A -> Registry T * W -> option (Registry T * W))
    (aexec : program T W A -> ARegistry T * W -> option (ARegistry T * W)) : Prop :=
  forall p r w, wf r -> matches r (exec p (r, w)) (aexec p (abs r, w)).

Lemma loop_matches exec aexec arg es i r w :
  exec_ok exec aexec -> wf r -> 0 < dispatchDepth r ->
  (forall j (e : Entry T), es !! j = Some e -> exists e' : Entry T, entries r !! (i + j)%nat = Some e' /\ Id e' = Id e /\
                                       (Removed e = true -> Removed e' = true)) ->
  matches r (dispatch_loop pred fn exec arg i (length es) (r, w))
            (a_loop pred fn aexec arg (map fst (alive_of es)) (abs r, w)).
Proof.
  intros Hexec. revert i r w. induction es as [|e es IH]; intros i r w Hw Hd Hes.
  { cbn. exists r. auto using evolves_refl. }
  destruct (Hes 0%nat e eq_refl) as (e' & L & Hid & Hrem). rewrite Nat.add_0_r in L.
  assert (forall r', evolves r r' -> forall j (x : Entry T), es !! j = Some x ->
            exists x' : Entry T, entries r' !! (S i + j)%nat = Some x' /\ Id x' = Id x /\
                       (Removed x = true -> Removed x' = true)) as Hnext.
  { intros r' (_ & _ & Hg) j x Hx. destruct (Hes (S j) x Hx) as (x1 & L1 & I1 & R1).
    destruct (Hg Hd _ _ L1) as (x2 & L2 & I2 & R2). exists x2.
    replace (S i + j)%nat with (i + S j)%nat by lia. split_and!; [done|congruence|auto]. }
  cbn [length dispatch_loop]. cbn [fst]. rewrite L, alive_of_cons.
  destruct (Removed e) eqn:Ere.
  { rewrite Hrem by done. cbn. apply IH; auto using evolves_refl. }
  apply list_elem_of_split_length in L as (pre & post & E & _).
  pose proof (wf_find r pre e' post Hw E) as Hf. rewrite Hid in Hf.
  cbn [map a_loop fst]. cbn [abs alive fst]. rewrite Hf, Hid.
  destruct (Removed e'); cbn [negb andb]; [by apply IH; auto using evolves_refl|].
  destruct (pred arg (Item e')); [|by apply IH; auto using evolves_refl].
  pose proof (Hexec (fn arg (Id e) (Item e')) r w Hw) as Hm. unfold matches in Hm.
  destruct (aexec _ _) as [[a' w']|]; [|by rewrite Hm].
  destruct Hm as (r' & -> & <- & Hev). pose proof Hev as (Hw' & Hd' & _).
  eapply matches_step; [exact Hev|]. apply IH; [done|lia|auto].
Qed.

Lemma dispatch_matches exec aexec arg r w :
  exec_ok exec aexec -> wf r ->
  matches r (DispatchIf_with pred fn exec arg (r, w)) (a_dispatch pred fn aexec arg (abs r, w)).
Proof.
  intros Hexec Hw. unfold DispatchIf_with, a_dispatch. cbn [fst snd].
  destruct (Nat.eqb_spec (length (entries r)) 0) as [H0|H0].
  { apply nil_length_inv in H0. unfold abs. cbn. rewrite H0. cbn. exists r.
    split_and!; [done|unfold abs; by rewrite H0|by apply evolves_refl]. }
  pose proof (wf_depth r Hw).
  pose proof (loop_matches exec aexec arg (entries r) 0 (DispatchScope_enter r) w Hexec (enter_wf r Hw)
                ltac:(cbn; lia) ltac:(cbn; eauto)) as Hm.
  change (abs (DispatchScope_enter r)) with (abs r) in Hm. cbn [alive abs] in *. unfold matches in *.
  destruct (a_loop _ _ _ _ _ _) as [[a' w']|]; [|by rewrite Hm].
  destruct Hm as (r' & -> & <- & Hw' & Hd' & Hg). cbn in Hd'.
  destruct (leave_abs r' Hw' ltac:(lia)) as (Ha & Hwl & He). eexists. split_and!; [done|done|].
  split_and!; [done|cbn; lia|]. intros Hpos i x Hx. rewrite He by lia. apply Hg; [cbn; lia|done].
Qed.

Lemma program_matches nested anested (p : program T W A) r w :
  (forall (arg : A) r w, wf r -> matches r (nested arg (r, w)) (anested arg (abs r, w))) ->
  wf r -> matches r (run_program nested p (r, w)) (arun_program anested p (abs r, w)).
Proof.
  intros Hnested. revert r w.
  induction p as [|item k IH|id k IH|k IH|k IH|id k IH|id item k IH|g k IH|arg k IH]; intros r w Hw;
    cbn [run_program arun_program fst snd].
  - exists r. auto using evolves_refl.
  - destruct (Registry_Add r item) as [id r'] eqn:E. destruct (Add_abs r item id r' Hw E) as [-> Hev].
    eapply matches_step; [exact Hev|]. apply IH, Hev.
  - destruct (Registry_Remove r id) as [b r'] eqn:E. destruct (Remove_abs r id b r' Hw E) as [-> Hev].
    eapply matches_step; [exact Hev|]. apply IH, Hev.
  - destruct (Clear_abs r Hw) as [E Hev]. cbn [abs anext]. rewrite <- E.
    eapply matches_step; [exact Hev|]. apply IH, Hev.
  - rewrite <- Size_abs by done. by apply IH.
  - cbn [abs alive]. rewrite <- Find_abs by done. by apply IH.
  - destruct (Update_abs r id item Hw) as [E Hev]. rewrite <- E.
    eapply matches_step; [exact Hev|]. apply IH, Hev.
  - by apply IH.
  - pose proof (Hnested arg r w Hw) as Hm. unfold matches in Hm.
    destruct (anested _ _) as [[a' w']|]; [|by rewrite Hm].
    destruct Hm as (r' & -> & <- & Hev). eapply matches_step; [exact Hev|]. apply IH, Hev.
Qed.

Lemma run_matches fuel : exec_ok (run pred fn fuel) (arun pred fn fuel).
Proof.
  induction fuel as [|f IHf]; [done|]. intros p r w Hw. cbn [run arun].
  apply program_matches; [|done]. intros arg r' w' Hw'. by apply dispatch_matches.
Qed.
End Refinement.

(** C1. A dispatch is memory-safe and indistinguishable, for every callback and through any nesting, from
    the abstract dispatch where a removal takes effect at once: items run in the order they were added, one
    removed before its turn never runs, one added meanwhile waits for the next dispatch, and when the
    outermost dispatch ends the registry holds exactly the live items. *)
Theorem DispatchIf_refines {T W A} (pred : A -> T -> bool) (fn : A -> Z -> T -> program T W A)
    (fuel : nat) (arg : A) (r : Registry T) (w : W) (Hw : wf r) :
  match a_dispatch pred fn (arun pred fn fuel) arg (abs r, w) with
  | None => DispatchIf pred fn fuel arg (r, w) = None
  | Some (a', w') => exists r', DispatchIf pred fn fuel arg (r, w) = Some (r', w') /\
      abs r' = a' /\ wf r' /\ dispatchDepth r' = dispatchDepth r
  end.
Proof.
  pose proof (dispatch_matches pred fn _ _ arg r w (run_matches pred fn fuel) Hw) as H. unfold matches in H.
  destruct (a_dispatch _ _ _ _ _) as [[a' w']|]; [|done].
  destruct H as (r' & Hr & Ha & Hwf & Hd & _). by exists r'.
Qed.

(** *** Fuel

    Every dispatch a callback starts has a smaller rank than the dispatch that runs it. *)

Section Termination.
Context {T W A : Type} (rank : A -> nat).

Inductive bounded (n : nat) : program T W A -> Prop :=
| bounded_done : bounded n Done
| bounded_add item k : (forall id, bounded n (k id)) -> bounded n (DoAdd item k)
| bounded_remove id k : (forall b, bounded n (k b)) -> bounded n (DoRemove id k)
| bounded_clear k : bounded n k -> bounded n (DoClear k)
| bounded_size k : (forall z, bounded n (k z)) -> bounded n (DoSize k)
| bounded_find id k : (forall o, bounded n (k o)) -> bounded n (DoFind id k)
| bounded_update id item k : bounded n k -> bounded n (DoUpdate id item k)
| bounded_world g k : (forall w, bounded n (k w)) -> bounded n (DoWorld g k)
| bounded_dispatch arg k : (rank arg < n)%nat -> bounded n k -> bounded n (DoDispatch arg k).

Context (pred : A -> T -> bool) (fn : A -> Z -> T -> program T W A).
Hypothesis ranked : forall arg id item, bounded (rank arg) (fn arg id item).

Lemma arun_program_total nested n p :
  bounded n p -> (forall arg st, (rank arg < n)%nat -> exists st', nested arg st = Some st') ->
  forall st, exists st', arun_program (W:=W) nested p st = Some st'.
Proof.
  intros Hp Hn. induction Hp; intros st; cbn; eauto.
  - destruct (a_remove st.1 id). eauto.
  - destruct (Hn arg st H) as [st' ->]. eauto.
Qed.

Lemma a_loop_total exec arg ids st :
  (forall id item st, exists st', exec (fn arg id item) st = Some st') ->
  exists st', a_loop pred fn exec arg ids st = Some st'.
Proof.
  intros He. revert st. induction ids as [|id ids IH]; intros st; cbn; [eauto|].
  destruct (assoc_find _ _) as [item|]; [|eauto]. destruct (pred _ _); [|eauto].
  destruct (He id item st) as [st' ->]. eauto.
Qed.

Lemma a_dispatch_total fuel arg st :
  (rank arg < fuel)%nat -> exists st', a_dispatch pred fn (arun pred fn fuel) arg st = Some st'.
Proof.
  revert arg st. induction fuel as [|f IH]; intros arg st Hr; [lia|].
  apply a_loop_total. intros id item st'. cbn. eapply arun_program_total; [apply ranked|].
  intros arg' st'' Hr'. apply IH. lia.
Qed.
End Termination.

(** A dispatch terminates when every dispatch its callbacks start has a smaller rank: fuel above the
    rank gives its result. *)
Theorem DispatchIf_terminates {T W A} (rank : A -> nat) (pred : A -> T -> bool)
    (fn : A -> Z -> T -> program T W A) (fuel : nat) (arg : A) (r : Registry T) (w : W) :
  (forall arg id item, bounded rank (rank arg) (fn arg id item)) -> wf r -> (rank arg < fuel)%nat ->
  exists r' w', DispatchIf pred fn fuel arg (r, w) = Some (r', w') /\ wf r'.
Proof.
  intros Hrank Hw Hf.
  pose proof (dispatch_matches pred fn _ _ arg r w (run_matches pred fn fuel) Hw) as H. unfold matches in H.
  destruct (a_dispatch_total rank pred fn Hrank fuel arg (abs r, w) Hf) as [[a' w'] E]. rewrite E in H.
  destruct H as (r' & Hr & _ & Hwf & _). by exists r', w'.
Qed.

Lemma Registry_new_wf {T} : wf (@Registry_new T).
Proof. by split; cbn; repeat constructor. Qed.

Lemma Registry_Add_wf {T} (r : Registry T) item : wf r -> wf (Registry_Add r item).2.
Proof.
  intros Hw. destruct (Registry_Add r item) as [id r'] eqn:E. by apply (Add_abs r item id r' Hw E).
Qed.

(** Three handlers; the first removes the second and adds a fourth while the dispatch runs. *)
Definition sample_registry : Registry nat :=
  (Registry_Add (Registry_Add (Registry_Add Registry_new 1%nat).2 2%nat).2 3%nat).2.
Definition sample_callback (_ : unit) (id : Z) (item : nat) : program nat (list nat) unit :=
  DoWorld (fun log => log ++ [item]) (fun _ =>
    if (item =? 1)%nat then DoRemove 2 (fun _ => DoAdd 4%nat (fun _ => Done)) else Done).

Lemma sample_registry_wf : wf sample_registry.
Proof. repeat apply Registry_Add_wf. apply Registry_new_wf. Qed.

Lemma DispatchIf_refines_witness :
  exists r', DispatchIf (fun _ _ => true) sample_callback 1 tt (sample_registry, []) = Some (r', [1%nat; 3%nat]) /\
    alive (abs r') = [(1, 1%nat); (3, 3%nat); (4, 4%nat)] /\ wf r'.
Proof.
  pose proof (DispatchIf_refines (fun _ _ => true) sample_callback 1 tt sample_registry [] sample_registry_wf) as H.
  vm_compute (a_dispatch _ _ _ _ _) in H. destruct H as (r' & E & Ha & Hw & _).
  exists r'. rewrite Ha. done.
Defined.

Lemma DispatchIf_terminates_witness :
  exists r' w', DispatchIf (fun _ _ => true) sample_callback 1 tt (sample_registry, []) = Some (r', w') /\ wf r'.
Proof.
  apply (DispatchIf_terminates (fun _ => 0%nat)); [|apply sample_registry_wf|lia].
  intros [] id item. constructor. intros _. case_match; repeat constructor.
Defined.
