(* ===== verification/Events.v ===== *)
(** * Events, lazy hooks and subscriptions

    [include/VoltMod/Core/Signals/Event.hpp], [LazyHook.hpp], [src/Core/Signals/LazyHook.cpp],
    [Subscription.hpp] and [Subscriptions.hpp]. A cleanup callable is the state change it makes. *)

From S2P Require Import Prelude Signals.

(** ** Subscriptions *)

Section Subscriptions.
Context {S : Type}.

(** The cleanup held, if any. *)
Definition Subscription : Type := option (S -> S).

(** [Reset]: the callable is detached before it runs. *)
Definition Subscription_Reset (sub : Subscription) (s : S) : Subscription * S :=
  match sub with
  | Some cleanup => (None, cleanup s)
  | None => (None, s)
  end.

Definition Subscriptions_Add (items : list Subscription) (sub : Subscription) : list Subscription :=
  items ++ [sub].

(** [while (!empty) pop_back();] - newest first. *)
Definition Subscriptions_Clear (items : list Subscription) (s : S) : list Subscription * S :=
  ([], fold_left (fun s sub => (Subscription_Reset sub s).2) (rev items) s).

Definition Subscriptions_Empty (items : list Subscription) : bool :=
  match items with [] => true | _ => false end.
End Subscriptions.
Arguments Subscription S : clear implicits.

(** ** [Event] over the registry, and its lifecycle *)

(** [EventLifecycle]: what starts and stops the source, on the state [S] it lives in. *)
Record EventLifecycle (S : Type) := mkLifecycle { OnFirst : option (S -> bool * S); OnLast : option (S -> S) }.
Arguments mkLifecycle {S}.
Arguments OnFirst {S}.
Arguments OnLast {S}.

Section Event.
Context {H S : Type} (lifecycle : EventLifecycle S).

(** [operator+=]. [None] for the handler is an empty function; the handle is [None] for an empty
    subscription. *)
Definition Event_subscribe (ev : Registry H) (s : S) (handler : option H) : option Z * Registry H * S :=
  match handler with
  | None => (None, ev, s)
  | Some h =>
      let add s := let '(id, ev') := Registry_Add ev h in (Some id, ev', s) in
      match OnFirst lifecycle with
      | Some first =>
          if Registry_Empty ev
          then let '(ok, s') := first s in if ok then add s' else (None, ev, s')
          else add s
      | None => add s
      end
  end.

(** The cleanup of the subscription [operator+=] returns. *)
Definition Event_unsubscribe (ev : Registry H) (s : S) (id : Z) : Registry H * S :=
  let '(removed, ev') := Registry_Remove ev id in
  if removed && Registry_Empty ev'
  then match OnLast lifecycle with Some last => (ev', last s) | None => (ev', s) end
  else (ev', s).

Definition Event_Empty (ev : Registry H) : bool := Registry_Empty ev.
Definition Event_Count (ev : Registry H) : Z := Registry_Size ev.
End Event.

(** [Raise]: every handler is invoked with the arguments. *)
Definition Event_Raise {H W A} (invoke : A -> Z -> H -> program H W A) (fuel : nat) (args : A)
    (st : Registry H * W) : option (Registry H * W) :=
  DispatchIf (fun _ _ => true) invoke fuel args st.

(** ** [LazyHook] *)

(** [_install] is the owner's: it tries to hook the engine, on the state [E] of the engine. *)
Record LazyHook (E : Type) := mkLazyHook { hook : bool; listening : Z; engine : E }.
Arguments mkLazyHook {E}.
Arguments hook {E}.
Arguments listening {E}.
Arguments engine {E}.

Section LazyHook.
Context {G H : Type} (install : G -> bool * G) (remove : G -> G).
Implicit Types h : LazyHook G.

Definition AddListener h : bool * LazyHook G :=
  if listening h =? 0 then
    let '(ok, e) := install (engine h) in
    if ok then (true, mkLazyHook true (listening h + 1) e)
    else (false, mkLazyHook (hook h) (listening h) e)
  else (true, mkLazyHook (hook h) (listening h + 1) (engine h)).

(** [if (_listening > 0 && --_listening == 0) _hook.Reset();] *)
Definition RemoveListener h : LazyHook G :=
  if 0 <? listening h then
    let n := listening h - 1 in
    if n =? 0 then mkLazyHook false n (if hook h then remove (engine h) else engine h)
    else mkLazyHook (hook h) n (engine h)
  else h.

Definition ForEvent : EventLifecycle (LazyHook G) := mkLifecycle (Some AddListener) (Some RemoveListener).

Definition Installed h : bool := hook h.

(** Several events feeding from one hook: what their owners and subscribers do. *)
Record Hooked := mkHooked { events : list (Registry H); lazy : LazyHook G }.

Inductive hooked_step : Hooked -> Hooked -> Prop :=
| hooked_subscribe evs h i ev handler id ev' h' :
    evs !! i = Some ev -> Event_subscribe ForEvent ev h handler = (id, ev', h') ->
    hooked_step (mkHooked evs h) (mkHooked (<[i := ev']> evs) h')
| hooked_unsubscribe evs h i ev id ev' h' :
    evs !! i = Some ev -> Event_unsubscribe ForEvent ev h id = (ev', h') ->
    hooked_step (mkHooked evs h) (mkHooked (<[i := ev']> evs) h')
| hooked_raise_begin evs h i ev :
    evs !! i = Some ev ->
    hooked_step (mkHooked evs h) (mkHooked (<[i := DispatchScope_enter ev]> evs) h)
| hooked_raise_end evs h i ev :
    evs !! i = Some ev -> 0 < dispatchDepth ev ->
    hooked_step (mkHooked evs h) (mkHooked (<[i := DispatchScope_leave ev]> evs) h).

Definition hooked_new (n : nat) (e : G) : Hooked :=
  mkHooked (replicate n Registry_new) (mkLazyHook false 0 e).

(** The events with at least one live handler. *)
Definition listeners (evs : list (Registry H)) : Z :=
  Z.of_nat (length (List.filter (fun ev => negb (Registry_Empty ev)) evs)).

Record hooked_ok (s : Hooked) : Prop := {
  hooked_wf : Forall wf (events s);
  hooked_count : listening (lazy s) = listeners (events s);
  hooked_hook : hook (lazy s) = (0 <? listening (lazy s)) }.

Lemma Empty_abs (ev : Registry H) : wf ev -> Registry_Empty ev = match alive (abs ev) with [] => true | _ => false end.
Proof.
  intros Hw. unfold Registry_Empty. rewrite (wf_live ev Hw). cbn.
  destruct (alive_of (entries ev)); cbn [length]; [done|]. apply Z.eqb_neq. lia.
Qed.

Lemma listeners_insert evs i ev ev' :
  evs !! i = Some ev ->
  listeners (<[i := ev']> evs) =
    listeners evs - (if Registry_Empty ev then 0 else 1) + (if Registry_Empty ev' then 0 else 1).
Proof.
  intros Hi. apply list_elem_of_split_length in Hi as (pre & post & -> & ->).
  rewrite insert_middle. unfold listeners. rewrite !List.filter_app, !length_app. cbn [List.filter].
  destruct (Registry_Empty ev), (Registry_Empty ev'); cbn; lia.
Qed.

Lemma listeners_nonneg evs : 0 <= listeners evs.
Proof. unfold listeners. lia. Qed.

Lemma hooked_update evs h i ev ev' h' :
  hooked_ok (mkHooked evs h) -> evs !! i = Some ev -> wf ev' ->
  listening h' = listening h - (if Registry_Empty ev then 0 else 1) + (if Registry_Empty ev' then 0 else 1) ->
  hook h' = (0 <? listening h') ->
  hooked_ok (mkHooked (<[i := ev']> evs) h').
Proof.
  intros [Hw Hc Hh] Hi Hw' Hl Hk. split; cbn in *; [by apply Forall_insert| |done].
  rewrite (listeners_insert _ _ _ _ Hi). lia.
Qed.

Lemma Add_nonempty (ev ev' : Registry H) item id :
  wf ev -> Registry_Add ev item = (id, ev') -> wf ev' /\ Registry_Empty ev' = false.
Proof.
  intros Hw E. destruct (Add_abs ev item id ev' Hw E) as [_ [Hw' _]]. split; [done|].
  injection E as <- <-. unfold Registry_Empty. cbn. pose proof (wf_live ev Hw). lia.
Qed.

Lemma Remove_nonempty (ev ev' : Registry H) id b :
  wf ev -> Registry_Remove ev id = (b, ev') ->
  wf ev' /\ if b then Registry_Empty ev = false else ev' = ev.
Proof.
  intros Hw E. destruct (Remove_abs ev id b ev' Hw E) as [Ha [Hw' _]]. split; [done|].
  destruct b.
  - rewrite Empty_abs by done. unfold a_remove in Ha. cbn [abs alive] in *.
    destruct (alive_of (entries ev)); [done|done].
  - unfold Registry_Remove in E. repeat case_match; simplify_eq; done.
Qed.

Lemma step_subscribe evs h i ev handler id ev' h' :
  hooked_ok (mkHooked evs h) -> evs !! i = Some ev ->
  Event_subscribe ForEvent ev h handler = (id, ev', h') ->
  hooked_ok (mkHooked (<[i := ev']> evs) h').
Proof.
  intros Hok Hi E. pose proof Hok as [Hw Hc Hh]. cbn in *.
  assert (wf ev) as Hev by (eapply Forall_lookup_1; eauto).
  pose proof (listeners_nonneg evs) as Hpos.
  unfold Event_subscribe in E. destruct handler as [f|]; [|simplify_eq; by rewrite list_insert_id].
  destruct (Registry_Add ev f) as [nid nev] eqn:EA. destruct (Add_nonempty _ _ _ _ Hev EA) as [Hwn Hne].
  cbn in E. destruct (Registry_Empty ev) eqn:Eemp.
  - unfold AddListener in E. destruct (Z.eqb_spec (listening h) 0) as [Hz|Hz].
    + destruct (install (engine h)) as [[] e]; simplify_eq;
        (eapply hooked_update; [exact Hok|exact Hi|done| |]); cbn; rewrite ?Eemp, ?Hne; lia || done.
    + simplify_eq. eapply hooked_update; [exact Hok|exact Hi|done| |]; cbn; rewrite ?Eemp, ?Hne; [lia|].
      rewrite Hh. lia.
  - simplify_eq. eapply hooked_update; [exact Hok|exact Hi|done| |done]. rewrite Eemp, Hne. lia.
Qed.

Lemma step_unsubscribe evs h i ev id ev' h' :
  hooked_ok (mkHooked evs h) -> evs !! i = Some ev ->
  Event_unsubscribe ForEvent ev h id = (ev', h') ->
  hooked_ok (mkHooked (<[i := ev']> evs) h').
Proof.
  intros Hok Hi E. pose proof Hok as [Hw Hc Hh]. cbn in *.
  assert (wf ev) as Hev by (eapply Forall_lookup_1; eauto).
  unfold Event_unsubscribe in E. destruct (Registry_Remove ev id) as [b nev] eqn:ER.
  destruct (Remove_nonempty _ _ _ _ Hev ER) as [Hwn Hb]. cbn in E. destruct b; cbn in E.
  2:{ simplify_eq. by rewrite list_insert_id. }
  assert (0 < listening h) as Hpos.
  { rewrite Hc. pose proof (listeners_insert evs i ev ev Hi) as Hl. rewrite list_insert_id, Hb in Hl by done.
    unfold listeners. apply list_elem_of_lookup_2 in Hi. apply list_elem_of_In in Hi.
    assert (In ev (List.filter (fun ev => negb (Registry_Empty ev)) evs)) as Hin.
    { apply filter_In. by rewrite Hb. }
    destruct (List.filter _ evs); [done|cbn; lia]. }
  destruct (Registry_Empty nev) eqn:En; simplify_eq.
  - eapply hooked_update; [exact Hok|exact Hi|done| |]; rewrite ?Hb, ?En; unfold RemoveListener;
      (destruct (Z.ltb_spec 0 (listening h)); [|lia]); destruct (Z.eqb_spec (listening h - 1) 0); cbn; rewrite ?Hh; lia.
  - eapply hooked_update; [exact Hok|exact Hi|done| |done]; rewrite ?Hb, ?En. lia.
Qed.

Lemma hooked_step_ok s s' : hooked_ok s -> hooked_step s s' -> hooked_ok s'.
Proof.
  intros Hok Hs. destruct Hs as [evs h i ev handler id ev' h' Hi E | evs h i ev id ev' h' Hi E | evs h i ev Hi | evs h i ev Hi Hd].
  - by eapply step_subscribe.
  - by eapply step_unsubscribe.
  - assert (wf ev) as Hev by (eapply Forall_lookup_1; [apply Hok|done]).
    eapply hooked_update; [done|done|by apply enter_wf| |apply Hok].
    change (Registry_Empty (DispatchScope_enter ev)) with (Registry_Empty ev). lia.
  - assert (wf ev) as Hev by (eapply Forall_lookup_1; [apply Hok|done]).
    destruct (leave_abs ev Hev Hd) as (Ha & Hwl & _).
    eapply hooked_update; [done|done|done| |apply Hok].
    change (Registry_Empty (DispatchScope_leave ev)) with (Registry_Empty ev). lia.
Qed.

Lemma hooked_new_ok n e : hooked_ok (hooked_new n e).
Proof.
  split; cbn.
  - apply Forall_replicate, Registry_new_wf.
  - unfold listeners. induction n; done.
  - done.
Qed.
End LazyHook.

(** However handlers come and go, installs fail and raises nest, the hook is installed exactly while some
    event it feeds has a live handler, and the listener count is the number of such events. *)
Theorem LazyHook_installed_iff_listening {E H} (install : E -> bool * E) (remove : E -> E) n e s :
  rtc (hooked_step (H:=H) install remove) (hooked_new n e) s ->
  listening (lazy s) = listeners (events s) /\
  (Installed (lazy s) = true <-> exists ev, In ev (events s) /\ alive (abs ev) <> []).
Proof.
  intros Hr. assert (hooked_ok s) as [Hw Hc Hh].
  { remember (hooked_new n e) as s0 eqn:E0. assert (hooked_ok s0) as H0 by (subst; apply hooked_new_ok).
    clear E0. induction Hr; eauto using hooked_step_ok. }
  split; [done|]. unfold Installed. rewrite Hh, Z.ltb_lt, Hc. unfold listeners. split.
  - destruct (List.filter _ _) as [|ev l] eqn:Ef; cbn; [lia|]. intros _. exists ev.
    assert (In ev (events s) /\ negb (Registry_Empty ev) = true) as [Hin Hne].
    { apply (filter_In (fun ev => negb (Registry_Empty ev))). rewrite Ef. by left. }
    split; [done|]. rewrite Empty_abs in Hne; [cbn in *; by destruct (alive_of (entries ev))|].
    rewrite List.Forall_forall in Hw. auto.
  - intros (ev & Hin & Hne). assert (In ev (List.filter (fun ev => negb (Registry_Empty ev)) (events s))) as Hf.
    { apply filter_In. split; [done|]. rewrite Empty_abs; [cbn in *; by destruct (alive_of (entries ev))|].
      rewrite List.Forall_forall in Hw. auto. }
    destruct (List.filter _ _); [done|cbn; lia].
Qed.

Lemma LazyHook_installed_iff_listening_witness :
  let install (e : nat) := ((e =? 0)%nat, S e) in
  exists s, rtc (hooked_step (H:=nat) install (fun e => e)) (hooked_new 2 0%nat) s /\ Installed (lazy s) = true /\
    listening (lazy s) = listeners (events s).
Proof.
  set (ins := fun e : nat => ((e =? 0)%nat, S e)).
  set (r1 := (Event_subscribe (ForEvent ins (fun e => e)) (@Registry_new nat) (mkLazyHook false 0 0%nat) (Some 7%nat))).
  exists (mkHooked [r1.1.2; Registry_new] r1.2).
  assert (rtc (hooked_step (H:=nat) ins (fun e => e)) (hooked_new 2 0%nat) (mkHooked [r1.1.2; Registry_new] r1.2)) as Hr.
  { apply rtc_once. apply (hooked_subscribe ins (fun e => e) [Registry_new; Registry_new] _ 0 Registry_new (Some 7%nat) r1.1.1); reflexivity. }
  split; [exact Hr|].
  destruct (LazyHook_installed_iff_listening ins (fun e => e) 2 0%nat _ Hr) as [Hl Hi].
  split; [|exact Hl]. apply Hi. eexists. split; [left; reflexivity|]. vm_compute. discriminate.
Defined.
