(* ===== verification/Scheduler.v ===== *)
(** * Timers and the game-thread queue

    [src/Core/Time/Scheduler.cpp] on the callback registry, and
    [include/VoltMod/Core/GameThreadQueue.hpp]. Times are milliseconds of the monotonic clock, passed in by
    the frame; [now + delay] is taken not to overflow [int64_t]. *)

From S2P Require Import Prelude Signals.

(** ** [Scheduler] *)

Record Timer (C : Type) :=
  mkTimer { NextFireTime : Z; Interval : Z; Callback : option C; TimerId : Z }.
Arguments mkTimer {C}.
Arguments NextFireTime {C}.
Arguments Interval {C}.
Arguments Callback {C}.
Arguments TimerId {C}.

Section Scheduler.
Context {C W : Type}.
Implicit Types timers : Registry (Timer C).

Definition AddTimer timers (nextFireTime interval : Z) (callback : option C) : Z * Registry (Timer C) :=
  let '(id, r) := Registry_Add timers (mkTimer nextFireTime interval callback 0) in
  (id, match Registry_Find r id with
       | Some t => Registry_Update r id (mkTimer (NextFireTime t) (Interval t) (Callback t) id)
       | None => r
       end).

Definition Delay timers (now delayMs : Z) callback := AddTimer timers (now + delayMs) 0 callback.
Definition Repeat timers (now intervalMs : Z) callback := AddTimer timers (now + intervalMs) intervalMs callback.
Definition NextTick timers (now : Z) callback := Delay timers now 0 callback.
Definition EveryFrame timers callback := AddTimer timers 0 (-1) callback.

(** What dropping the subscription of a timer does. *)
Definition CancelTimer timers (id : Z) : Registry (Timer C) := (Registry_Remove timers id).2.

Fixpoint seq_program {T A} (p q : program T W A) : program T W A :=
  match p with
  | Done => q
  | DoAdd item k => DoAdd item (fun id => seq_program (k id) q)
  | DoRemove id k => DoRemove id (fun b => seq_program (k b) q)
  | DoClear k => DoClear (seq_program k q)
  | DoSize k => DoSize (fun n => seq_program (k n) q)
  | DoFind id k => DoFind id (fun o => seq_program (k o) q)
  | DoUpdate id item k => DoUpdate id item (seq_program k q)
  | DoWorld f k => DoWorld f (fun w => seq_program (k w) q)
  | DoDispatch arg k => DoDispatch arg (seq_program k q)
  end.

(** What a timer's callback does to the timers and to its own state. *)
Context (body : C -> program (Timer C) W Z).

Definition timer_due (now : Z) (t : Timer C) : bool := NextFireTime t <=? now.

Definition with_fire_time (t : Timer C) (next : Z) : Timer C :=
  mkTimer next (Interval t) (Callback t) (TimerId t).

(** The lambda of [OnGameFrame]. [id] is where the reference [timer] points. *)
Definition fire_timer (now id : Z) (t : Timer C) : program (Timer C) W Z :=
  seq_program (match Callback t with Some c => body c | None => Done end)
    (DoFind (TimerId t) (fun found =>
       match found with
       | None => Done
       | Some t' =>
           if 0 <? Interval t' then DoUpdate id (with_fire_time t' (now + Interval t')) Done
           else if Interval t' <? 0 then DoUpdate id (with_fire_time t' now) Done
           else DoRemove (TimerId t') (fun _ => Done)
       end)).

Definition OnGameFrame (fuel : nat) (now : Z) (st : Registry (Timer C) * W) : option (Registry (Timer C) * W) :=
  DispatchIf timer_due fire_timer fuel now st.
End Scheduler.

(** Every registered timer knows its handle. *)
Definition timers_ok {C} (timers : Registry (Timer C)) : Prop :=
  wf timers /\ Forall (fun p => TimerId p.2 = p.1) (alive (abs timers)).

(** A timer after a frame at [now] whose callback leaves the timers alone. *)
Definition advance {C} (now : Z) (p : Z * Timer C) : option (Z * Timer C) :=
  let t := p.2 in
  if timer_due now t then
    if 0 <? Interval t then Some (p.1, with_fire_time t (now + Interval t))
    else if Interval t <? 0 then Some (p.1, with_fire_time t now)
    else None
  else Some p.

Definition fire_due {C W} (act : C -> W -> W) (now : Z) (w : W) (p : Z * Timer C) : W :=
  if timer_due now p.2 then match Callback p.2 with Some c => act c w | None => w end else w.

Section AssocMiddle.
Context {T : Type}.
Implicit Types l : list (Z * T).

Lemma nodup_middle l1 l2 id v :
  List.NoDup (map fst (l1 ++ (id, v) :: l2)) ->
  (forall x, ~ In (id, x) l1) /\ (forall x, ~ In (id, x) l2).
Proof.
  rewrite map_app. cbn. intros H. apply NoDup_remove_2 in H.
  split; intros x Hx; apply H, in_or_app; [left|right]; by apply (in_map fst) in Hx.
Qed.

Lemma assoc_find_middle l1 l2 id v :
  List.NoDup (map fst (l1 ++ (id, v) :: l2)) -> assoc_find id (l1 ++ (id, v) :: l2) = Some v.
Proof.
  intros H. apply nodup_middle in H as [H1 _]. rewrite assoc_find_skip by done. cbn. by rewrite Z.eqb_refl.
Qed.

Lemma update_middle l1 l2 id v v' :
  List.NoDup (map fst (l1 ++ (id, v) :: l2)) ->
  map (fun p => if p.1 =? id then (p.1, v') else p) (l1 ++ (id, v) :: l2) = l1 ++ (id, v') :: l2.
Proof.
  intros H. apply nodup_middle in H as [H1 H2]. rewrite map_app. cbn.
  by rewrite !update_skip, Z.eqb_refl by done.
Qed.

Lemma filter_middle l1 l2 id v :
  List.NoDup (map fst (l1 ++ (id, v) :: l2)) ->
  List.filter (fun p => negb (p.1 =? id)) (l1 ++ (id, v) :: l2) = l1 ++ l2.
Proof.
  intros H. apply nodup_middle in H as [H1 H2]. rewrite List.filter_app. cbn. rewrite Z.eqb_refl. cbn.
  f_equal; apply forallb_filter_id, forallb_forall; intros [k x] Hin; cbn;
    destruct (Z.eqb_spec k id) as [->|]; (by apply H1 in Hin) || (by apply H2 in Hin) || done.
Qed.
End AssocMiddle.

Section Frame.
Context {C W : Type} (act : C -> W -> W).

(** A callback that leaves the timers alone. *)
Definition quiet (c : C) : program (Timer C) W Z := DoWorld (act c) (fun _ => Done).

Lemma quiet_frame_loop now pre post nx w nested :
  List.NoDup (map fst (pre ++ post)) -> Forall (fun p => TimerId p.2 = p.1) (pre ++ post) ->
  a_loop timer_due (fire_timer quiet) (arun_program nested) now (map fst post) (mkARegistry (pre ++ post) nx, w)
  = Some (mkARegistry (pre ++ omap (advance now) post) nx, fold_left (fire_due act now) post w).
Proof.
  revert pre w. induction post as [|[id t] post IH]; intros pre w Hnd Hid; [done|].
  cbn [map a_loop fst alive]. rewrite assoc_find_middle by done.
  assert (TimerId t = id) as Ht.
  { apply Forall_app in Hid as [_ Hid]. by inversion_clear Hid. }
  assert (forall t', TimerId t' = id ->
            List.NoDup (map fst ((pre ++ [(id, t')]) ++ post)) /\
            Forall (fun p => TimerId p.2 = p.1) ((pre ++ [(id, t')]) ++ post)) as Hkeep.
  { intros t' Ht'. rewrite <- app_assoc. cbn. rewrite map_app in *. cbn in *. split; [done|].
    apply Forall_app in Hid as [H1 H2]. inversion_clear H2. apply Forall_app. split; [done|]. by constructor. }
  assert (List.NoDup (map fst (pre ++ post)) /\ Forall (fun p => TimerId p.2 = p.1) (pre ++ post)) as [Hdrop1 Hdrop2].
  { rewrite map_app in *. cbn in Hnd. apply NoDup_remove_1 in Hnd. split; [done|].
    apply Forall_app in Hid as [H1 H2]. inversion_clear H2. by apply Forall_app. }
  cbn [fold_left omap list_omap]. unfold advance at 1, fire_due at 2. cbn [fst snd].
  destruct (timer_due now t) eqn:Hdue.
  2:{ destruct (Hkeep t Ht) as [K1 K2]. specialize (IH _ w K1 K2). by rewrite <- !app_assoc in IH. }
  set (w1 := match Callback t with Some c => act c w | None => w end).
  assert (forall q, arun_program nested (seq_program (match Callback t with Some c => quiet c | None => Done end) q)
            (mkARegistry (pre ++ (id, t) :: post) nx, w)
            = arun_program nested q (mkARegistry (pre ++ (id, t) :: post) nx, w1)) as Hseq.
  { intros q. unfold w1. by destruct (Callback t). }
  unfold fire_timer. rewrite Hseq. cbn [arun_program fst snd alive]. rewrite Ht, assoc_find_middle by done.
  destruct (0 <? Interval t); [|destruct (Interval t <? 0)]; cbn [arun_program fst snd].
  - unfold a_update. cbn [alive anext]. rewrite update_middle by done.
    destruct (Hkeep (with_fire_time t (now + Interval t)) Ht) as [K1 K2].
    specialize (IH _ w1 K1 K2). by rewrite <- !app_assoc in IH.
  - unfold a_update. cbn [alive anext]. rewrite update_middle by done.
    destruct (Hkeep (with_fire_time t now) Ht) as [K1 K2].
    specialize (IH _ w1 K1 K2). by rewrite <- !app_assoc in IH.
  - unfold a_remove. cbn [alive anext]. rewrite Ht, assoc_find_middle, filter_middle by done. by apply IH.
Qed.

Lemma wf_nodup (r : Registry (Timer C)) : wf r -> List.NoDup (map fst (alive (abs r))).
Proof.
  intros Hw. pose proof (wf_sorted r Hw) as Hs. cbn. unfold alive_of. rewrite map_map.
  change (List.NoDup (map Id (List.filter (fun e => negb (Removed e)) (entries r)))).
  apply (ssorted_filter _ _ (fun e => negb (Removed e))) in Hs. revert Hs.
  generalize (map Id (List.filter (fun e => negb (Removed e)) (entries r))). intros l Hs.
  induction Hs as [|a l Hs IH Hf]; constructor; [|done]. intros Hin.
  rewrite List.Forall_forall in Hf. apply Hf in Hin. lia.
Qed.
End Frame.


Lemma AddTimer_ok {C} (r : Registry (Timer C)) next interval cb id r' :
  timers_ok r -> AddTimer r next interval cb = (id, r') ->
  timers_ok r' /\ alive (abs r') = alive (abs r) ++ [(id, mkTimer next interval cb id)] /\ id = nextId r.
Proof.
  intros [Hw Hid] E. unfold AddTimer in E.
  destruct (Registry_Add r (mkTimer next interval cb 0)) as [nid r1] eqn:EA.
  assert (nid = nextId r) as -> by by injection EA.
  destruct (Add_abs _ _ _ _ Hw EA) as [Ha [Hw1 _]].
  assert (alive (abs r1) = alive (abs r) ++ [(nextId r, mkTimer next interval cb 0)]) as Ea1.
  { apply (f_equal (fun p => alive p.2)) in Ha. symmetry. exact Ha. }
  pose proof (wf_nodup r1 Hw1) as Hnd. rewrite Ea1 in Hnd.
  assert (Registry_Find r1 (nextId r) = Some (mkTimer next interval cb 0)) as Ef.
  { rewrite Find_abs by done. change (alive_of (entries r1)) with (alive (abs r1)). rewrite Ea1.
    by apply assoc_find_middle. }
  rewrite Ef in E. simplify_eq. cbn.
  destruct (Update_abs r1 (nextId r) (mkTimer next interval cb (nextId r)) Hw1) as [Eu [Hw2 _]].
  assert (alive (abs (Registry_Update r1 (nextId r) (mkTimer next interval cb (nextId r))))
          = alive (abs r) ++ [(nextId r, mkTimer next interval cb (nextId r))]) as Ea2.
  { rewrite Eu. unfold a_update. cbn [alive]. rewrite Ea1. by apply update_middle. }
  split_and!; [split; [done|]|exact Ea2|done]. rewrite Ea2. apply Forall_app. split; [done|by repeat constructor].
Qed.

Lemma Scheduler_new_ok {C} : timers_ok (@Registry_new (Timer C)).
Proof. split; [apply Registry_new_wf|by constructor]. Qed.

Definition sample_timers : Registry (Timer nat) :=
  (EveryFrame (Repeat (Delay Registry_new 0 50 (Some 1%nat)).2 0 40 (Some 2%nat)).2 (Some 3%nat)).2.

Lemma sample_timers_ok : timers_ok sample_timers.
Proof.
  unfold sample_timers, EveryFrame, Repeat, Delay.
  repeat match goal with |- timers_ok (AddTimer ?r ?n ?i ?c).2 =>
    let E := fresh in destruct (AddTimer r n i c) eqn:E; eapply AddTimer_ok in E; [apply E|] end.
  apply Scheduler_new_ok.
Qed.


(** ** [GameThreadQueue]

    Worker threads push under the mutex; the game thread reads the flag without it. The steps are the
    places where another thread can come in between. *)

Record GameThreadQueue (C : Type) := mkQueue {
  waiting : list C;        (** [_waiting] *)
  any : bool;              (** [_any] *)
  pushing : bool;          (** a worker is inside [Push], between [push_back] and [store] *)
  checked : bool;          (** [RunAll] has read [_any] as true and not yet taken the lock *)
  ready : list C;          (** what [RunAll] has swapped out and still has to run *)
  pushed : list C;         (** everything pushed so far *)
  ran : list C;            (** everything run so far *)
  cleared : list C }.      (** everything dropped by [Clear] *)
Arguments mkQueue {C}.
Arguments waiting {C}.
Arguments any {C}.
Arguments pushing {C}.
Arguments checked {C}.
Arguments ready {C}.
Arguments pushed {C}.
Arguments ran {C}.
Arguments cleared {C}.

Section GameThreadQueue.
Context {C : Type}.
Implicit Types q : GameThreadQueue C.

Definition queue_new : GameThreadQueue C := mkQueue [] false false false [] [] [] [].

Definition Push_lock q (c : C) : GameThreadQueue C :=
  mkQueue (waiting q ++ [c]) (any q) true (checked q) (ready q) (pushed q ++ [c]) (ran q) (cleared q).
Definition Push_store q : GameThreadQueue C :=
  mkQueue (waiting q) true false (checked q) (ready q) (pushed q) (ran q) (cleared q).
(** [if (!_any.load()) return;], with no lock held. *)
Definition RunAll_check q : GameThreadQueue C :=
  mkQueue (waiting q) (any q) (pushing q) (any q) (ready q) (pushed q) (ran q) (cleared q).
(** [RunAll] past the unlocked check, under the lock: [ready.swap(_waiting)]. *)
Definition RunAll_swap q : GameThreadQueue C :=
  mkQueue [] false false false (waiting q) (pushed q) (ran q) (cleared q).
Definition RunAll_next q : GameThreadQueue C :=
  match ready q with
  | [] => q
  | c :: rest => mkQueue (waiting q) (any q) (pushing q) (checked q) rest (pushed q) (ran q ++ [c]) (cleared q)
  end.
Definition Queue_Clear q : GameThreadQueue C :=
  mkQueue [] false false (checked q) (ready q) (pushed q) (ran q) (cleared q ++ waiting q).

Inductive queue_step : GameThreadQueue C -> GameThreadQueue C -> Prop :=
| step_push_lock q c : pushing q = false -> queue_step q (Push_lock q c)
| step_push_store q : pushing q = true -> queue_step q (Push_store q)
| step_check q : ready q = [] -> checked q = false -> queue_step q (RunAll_check q)
| step_swap q : checked q = true -> pushing q = false -> ready q = [] -> queue_step q (RunAll_swap q)
| step_run q : ready q <> [] -> queue_step q (RunAll_next q)
| step_clear q : pushing q = false -> queue_step q (Queue_Clear q).

Record queue_ok q : Prop := {
  queue_complete : pushed q ≡ₚ ran q ++ ready q ++ waiting q ++ cleared q;
  queue_order : cleared q = [] -> pushed q = ran q ++ ready q ++ waiting q;
  queue_flag : pushing q = false -> any q = true <-> waiting q <> [];
  queue_push : pushing q = true -> waiting q <> [] }.

Lemma queue_step_ok q q' : queue_ok q -> queue_step q q' -> queue_ok q'.
Proof.
  intros [Hc Ho Hf Hp] Hs. destruct Hs as [q c Hn|q Hn|q Hr Hk|q Ha Hn Hr|q Hr|q Hn].
  - split; cbn; [| |done|by destruct (waiting q)].
    + rewrite Hc. solve_Permutation.
    + intros H. rewrite Ho by done. by rewrite <- !app_assoc.
  - split; cbn; [done|done| |done]. intros _. split; [intros _; by apply Hp|done].
  - by split.
  - rewrite Hr in *. split; cbn; [by rewrite Hc|intros H; by rewrite Ho, app_nil_r|done|done].
  - unfold RunAll_next. destruct (ready q) as [|c rest]; [done|]. split; cbn; [| |done|done].
    + by rewrite Hc, <- !app_assoc.
    + intros H. by rewrite Ho, <- !app_assoc.
  - split; cbn; [| |done|done].
    + rewrite Hc. solve_Permutation.
    + intros H. apply app_nil in H as [H1 H2]. rewrite Ho, H2 by done. done.
Qed.
End GameThreadQueue.

(** However pushes interleave with the game thread, every completion pushed is at each moment in exactly
    one place - run, about to run, waiting, or dropped by [Clear] - those run are run in the order they were
    pushed, and once no worker is inside [Push] the unlocked flag says whether something waits. *)
Theorem GameThreadQueue_exactly_once {C} (q : GameThreadQueue C) :
  rtc queue_step queue_new q ->
  pushed q ≡ₚ ran q ++ ready q ++ waiting q ++ cleared q /\
  (cleared q = [] -> pushed q = ran q ++ ready q ++ waiting q) /\
  (pushing q = false -> any q = true <-> waiting q <> []).
Proof.
  intros Hr. assert (queue_ok q) as [Hc Ho Hf _]; [|done].
  assert (queue_ok (@queue_new C)) as H0 by (split; done).
  clear - Hr H0. induction Hr; eauto using queue_step_ok.
Qed.

Lemma GameThreadQueue_exactly_once_witness :
  exists q, rtc queue_step (@queue_new nat) q /\ pushed q = [7%nat; 8%nat] /\ ran q ++ ready q ++ waiting q = [7%nat; 8%nat].
Proof.
  exists (Push_lock (RunAll_next (RunAll_swap (RunAll_check (Push_store (Push_lock queue_new 7%nat))))) 8%nat).
  assert (rtc queue_step (@queue_new nat) (Push_lock (RunAll_next (RunAll_swap (RunAll_check (Push_store (Push_lock queue_new 7%nat))))) 8%nat)) as Hr.
  { eapply rtc_l; [apply step_push_lock; reflexivity|]. eapply rtc_l; [apply step_push_store; reflexivity|].
    eapply rtc_l; [apply step_check; reflexivity|]. eapply rtc_l; [apply step_swap; reflexivity|].
    eapply rtc_l; [apply step_run; discriminate|].
    apply rtc_once. apply step_push_lock. reflexivity. }
  split; [exact Hr|]. destruct (GameThreadQueue_exactly_once _ Hr) as (_ & Ho & _).
  split; [reflexivity|]. rewrite <- Ho; reflexivity.
Defined.
