(* ===== verification/Errors.v ===== *)
(** * Errors: [include/VoltMod/Core/Result.hpp] and [src/Core/LoadReport.cpp] *)

From S2P Require Import Prelude.

Module ErrorCode.
Inductive t : Type :=
| NotFound | NotReady | Invalid | Denied | Immune | Unsupported | Engine | Failed.
#[export] Instance t_eq_dec : EqDecision t.
Proof. solve_decision. Defined.
End ErrorCode.

Record Error := mkError { Code : ErrorCode.t; Detail : text; Key : text; Text : text }.

Definition Error_NotFound (detail : text) : Error := mkError ErrorCode.NotFound detail [] [].
Definition Error_NotReady (detail : text) : Error := mkError ErrorCode.NotReady detail [] [].
Definition Error_Invalid (detail : text) : Error := mkError ErrorCode.Invalid detail [] [].
Definition Error_Denied (key : text) : Error := mkError ErrorCode.Denied $"permission denied" key [].
Definition Error_Immune (key : text) : Error := mkError ErrorCode.Immune $"target is immune" key [].
Definition Error_Unsupported (detail : text) : Error := mkError ErrorCode.Unsupported detail [] [].
Definition Error_Engine (detail : text) : Error := mkError ErrorCode.Engine detail [] [].
Definition Error_Failed (detail : text) : Error := mkError ErrorCode.Failed detail [] [].

Definition Result (T : Type) : Type := expected Error T.
Definition Status : Type := Result unit.

(** ** [LoadReport] *)

Record FailedCheck := mkFailedCheck { Name : text; Reason : text; IsRequired : bool }.

Definition LoadReport : Type := list FailedCheck.

Definition LoadReport_Record (report : LoadReport) (name : text) (result : Status) (required : bool) : bool * LoadReport :=
  match result with
  | Ok _ => (true, report)
  | Err e => (false, report ++ [mkFailedCheck name (Detail e) required])
  end.

Definition LoadReport_Optional report name result := LoadReport_Record report name result false.
Definition LoadReport_Required report name result := LoadReport_Record report name result true.

Definition LoadReport_line (failed : FailedCheck) : text :=
  [chr 10] ++ $"  " ++ (if IsRequired failed then $"required" else $"optional") ++ $" " ++ Name failed ++ $": " ++ Reason failed.

(** [elapsed] is the number of milliseconds since the report was made. *)
Definition LoadReport_Summary (report : LoadReport) (elapsed : Z) : text :=
  let out := $"Load took " ++ dec elapsed ++ $" ms" in
  match report with
  | [] => out
  | _ => out ++ $"; " ++ dec (Z.of_nat (length report)) ++ $" failed:" ++ flat_map LoadReport_line report
  end.

Definition LoadReport_AbortReason (report : LoadReport) : text :=
  match List.find IsRequired report with
  | None => []
  | Some failed => match Reason failed with
                   | [] => Name failed
                   | reason => Name failed ++ $": " ++ reason
                   end
  end.

(** The report refuses the load exactly when a required check failed under a non-empty name. *)
Lemma AbortReason_spec report :
  Forall (fun f => Name f <> []) report ->
  LoadReport_AbortReason report <> [] <-> exists f, In f report /\ IsRequired f = true.
Proof.
  intros Hn. unfold LoadReport_AbortReason. destruct (List.find IsRequired report) as [f|] eqn:E.
  - apply List.find_some in E as [Hin Hr]. rewrite List.Forall_forall in Hn. specialize (Hn f Hin).
    split; [eauto|]. intros _. destruct (Reason f); [done|]. by destruct (Name f).
  - split; [done|]. intros (f & Hin & Hr). pose proof (List.find_none _ _ E f Hin). congruence.
Qed.
