(* ===== verification/Logger.v ===== *)
(** * Log lines: [src/Core/Logger.cpp], [include/VoltMod/Core/Log.hpp]

    The game thread hands its lines to the handler at once; any other thread's wait in a queue of at most 256, which a frame of the
    game thread delivers. A state holds where the game thread is, so that any interleaving of the threads is a sequence of steps. *)

From S2P Require Import Prelude Text.

Inductive LogLevel := Info | Warn | Error_.

Definition level_number (level : LogLevel) : Z := match level with Info => 0 | Warn => 1 | Error_ => 2 end.

(** A line: who wrote it, its level, its text. *)
Record line := mkLine { writer : nat; level : LogLevel; message : text }.

Definition MaxDeferred : nat := 256.

(** What a delivery is about to do: nothing, or hand over what it took. *)
Inductive delivery := Idle | Delivering (ready : list line).

(** [has_handler] is [g_handler]; [g_hasDeferred] is read without the lock. [out] is what the handler was given; [queued] and [lost]
    are history: what the other threads queued, and what made room for it. *)
Record Log := mkLog {
  has_handler : bool; g_minimumLevel : LogLevel; g_deferred : list line; g_hasDeferred : bool; at_game : delivery;
  out : list line; queued : list line; lost : list line }.

Definition Log_new : Log := mkLog false Info [] false Idle [] [] [].

Definition SetHandler (handler : bool) (l : Log) : Log :=
  mkLog handler (g_minimumLevel l) (g_deferred l) (g_hasDeferred l) (at_game l) (out l) (queued l) (lost l).

Definition SetMinimumLevel (m : LogLevel) (l : Log) : Log :=
  mkLog (has_handler l) m (g_deferred l) (g_hasDeferred l) (at_game l) (out l) (queued l) (lost l).

(** Whether a line is written at all; its text is only put together when it is. *)
Definition Wanted (v : LogLevel) (l : Log) : bool := has_handler l && (level_number (g_minimumLevel l) <=? level_number v).

(** [Emit] on the game thread. *)
Definition Emit_here (x : line) (l : Log) : Log :=
  if negb (has_handler l) then l
  else mkLog true (g_minimumLevel l) (g_deferred l) (g_hasDeferred l) (at_game l) (out l ++ [x]) (queued l) (lost l).

(** [Emit] on another thread, under the mutex. *)
Definition Emit_there (x : line) (l : Log) : Log :=
  if negb (has_handler l) then l
  else
    let full := bool_decide (MaxDeferred <= length (g_deferred l))%nat in
    mkLog true (g_minimumLevel l) ((if full then tail (g_deferred l) else g_deferred l) ++ [x]) true (at_game l) (out l) (queued l ++ [x])
      (lost l ++ (if full then take 1 (g_deferred l) else [])).

(** [DeliverPending] takes the queue under the mutex, when the flag says there is one. *)
Definition Deliver_take (l : Log) : Log :=
  if g_hasDeferred l then mkLog (has_handler l) (g_minimumLevel l) [] false (Delivering (g_deferred l)) (out l) (queued l) (lost l) else l.

(** Then the handler is given one line after another; it may itself write, on this thread. Without a handler they are dropped. *)
Definition Deliver_next (l : Log) : Log :=
  match at_game l with
  | Idle => l
  | Delivering [] => mkLog (has_handler l) (g_minimumLevel l) (g_deferred l) (g_hasDeferred l) Idle (out l) (queued l) (lost l)
  | Delivering (x :: ready) =>
      if has_handler l then mkLog true (g_minimumLevel l) (g_deferred l) (g_hasDeferred l) (Delivering ready) (out l ++ [x]) (queued l) (lost l)
      else mkLog false (g_minimumLevel l) (g_deferred l) (g_hasDeferred l) Idle (out l) (queued l) (lost l ++ x :: ready)
  end.

(** Writer 0 is the game thread. The handler is installed once; a line below the level is not written. *)
Inductive step : Log -> Log -> Prop :=
| step_handler l : has_handler l = false -> at_game l = Idle -> step l (SetHandler true l)
| step_level l m : step l (SetMinimumLevel m l)
| step_here l x : writer x = O -> Wanted (level x) l = true -> step l (Emit_here x l)
| step_there l x : writer x <> O -> Wanted (level x) l = true -> step l (Emit_there x l)
| step_take l : at_game l = Idle -> step l (Deliver_take l)
| step_next l : at_game l <> Idle -> step l (Deliver_next l).

Definition reachable (l : Log) : Prop := rtc step Log_new l.

(** * Theorems *)

Definition being_delivered (l : Log) : list line := match at_game l with Idle => [] | Delivering ready => ready end.

(** The lines the handler was given that came from other threads. *)
Definition from_others (ls : list line) : list line := List.filter (fun x => negb (writer x =? 0)%nat) ls.

(** [interleaved a b c]: [c] is [a] and [b] together, each in its own order. *)
Inductive interleaved {A} : list A -> list A -> list A -> Prop :=
| il_nil : interleaved [] [] []
| il_left x a b c : interleaved a b c -> interleaved (x :: a) b (x :: c)
| il_right x a b c : interleaved a b c -> interleaved a (x :: b) (x :: c).

Lemma il_lefts {A} (a : list A) : interleaved a [] a.
Proof. induction a; by constructor. Qed.

Lemma il_app {A} (a b c a' b' c' : list A) : interleaved a b c -> interleaved a' b' c' -> interleaved (a ++ a') (b ++ b') (c ++ c').
Proof. intros H H'. induction H; cbn; [done| |]; by constructor. Qed.

Lemma il_swap {A} (a b c : list A) : interleaved a b c -> interleaved b a c.
Proof. intros H. induction H; by constructor. Qed.

Record log_ok (l : Log) : Prop := {
  lo_flag : g_hasDeferred l = negb (bool_decide (g_deferred l = []));
  lo_bound : (length (g_deferred l) <= MaxDeferred)%nat;
  lo_handler : has_handler l = false -> g_deferred l = [] /\ queued l = [] /\ at_game l = Idle;
  lo_mine : Forall (fun x => writer x <> O) (queued l);
  lo_split : exists prefix, queued l = prefix ++ g_deferred l /\ interleaved (from_others (out l) ++ being_delivered l) (lost l) prefix;
  lo_lost : lost l <> [] -> (length (lost l) + MaxDeferred <= length (queued l))%nat }.

Lemma il_length {A} (a b c : list A) : interleaved a b c -> (length a + length b = length c)%nat.
Proof. intros H. induction H; cbn; lia. Qed.

Lemma from_others_app a b : from_others (a ++ b) = from_others a ++ from_others b.
Proof. apply List.filter_app. Qed.

Lemma from_others_mine ls : Forall (fun x => writer x <> O) ls -> from_others ls = ls.
Proof. intros H. apply filter_all. eapply Forall_impl; [done|]. intros x Hx. by apply negb_true_iff, Nat.eqb_neq. Qed.

Lemma there_ok x l : log_ok l -> writer x <> O -> has_handler l = true -> log_ok (Emit_there x l).
Proof.
  intros [H1 H2 H3 H4 (prefix & Hq & Hil) H6] Hx Hh. unfold Emit_there. rewrite Hh; cbn [negb].
  assert (Forall (fun x => writer x <> O) (queued l ++ [x])) as Hm by (apply Forall_app; split; [done|by apply Forall_singleton]).
  destruct (bool_decide (MaxDeferred <= length (g_deferred l))%nat) eqn:Hfull; [apply bool_decide_eq_true in Hfull|apply bool_decide_eq_false in Hfull].
  - destruct (g_deferred l) as [|d ds] eqn:Hd; [cbn in Hfull; unfold MaxDeferred in Hfull; lia|]. cbn [tail take app].
    constructor; cbn; [by destruct ds|rewrite length_app; cbn in *; lia|done|done| |].
    + exists (prefix ++ [d]). split; [rewrite Hq; by rewrite <- !app_assoc|]. rewrite <- (app_nil_r (from_others (out l) ++ _)). apply il_app; [done|repeat constructor].
    + intros _. pose proof (il_length _ _ _ Hil). rewrite !length_app, Hq, length_app in *. change (take 0 ds) with (@nil line). cbn in *. lia.
  - constructor; cbn; [by destruct (g_deferred l)|rewrite length_app; cbn; lia|done|done| |].
    + rewrite app_nil_r. exists prefix. split; [by rewrite Hq, app_assoc|done].
    + rewrite app_nil_r. intros Hl. specialize (H6 Hl). rewrite length_app. lia.
Qed.

Lemma step_log_ok l l' : step l l' -> log_ok l -> log_ok l'.
Proof.
  intros Hs Hok. pose proof Hok as [H1 H2 H3 H4 H5 H6]. destruct Hs as [l Hh Hi|l m|l x Hx Hw|l x Hx Hw|l Hi|l Hn].
  - by constructor.
  - by constructor.
  - apply andb_true_iff in Hw as [Hh _]. unfold Emit_here. rewrite Hh. constructor; cbn; try done.
    rewrite from_others_app. cbn. rewrite Hx. cbn. by rewrite app_nil_r.
  - apply andb_true_iff in Hw as [Hh _]. by apply there_ok.
  - unfold Deliver_take. destruct (g_hasDeferred l) eqn:Hf; [|done].
    constructor; cbn; [done|lia| |done| |done].
    + intros Hh. destruct (H3 Hh) as (Hd & _). rewrite Hd in H1. by rewrite bool_decide_true in H1.
    + destruct H5 as (prefix & Hq & Hil). unfold being_delivered in Hil. rewrite Hi, app_nil_r in Hil.
      exists (queued l). split; [by rewrite app_nil_r|]. rewrite Hq, <- (app_nil_r (lost l)). apply il_app; [done|apply il_lefts].
  - unfold Deliver_next. destruct (at_game l) as [|[|x ready]] eqn:Ha; [done| |].
    + constructor; cbn; try done; [intros Hh; by destruct (H3 Hh) as (? & ? & _)|]. unfold being_delivered in H5. by rewrite Ha in H5.
    + destruct (has_handler l) eqn:Hh; [|by destruct (H3 eq_refl) as (_ & _ & ?); congruence].
      constructor; cbn; try done. destruct H5 as (prefix & Hq & Hil). exists prefix. split; [done|].
      unfold being_delivered in Hil. rewrite Ha in Hil. rewrite from_others_app, <- app_assoc.
      assert (from_others [x] = [x]) as ->; [|done]. apply from_others_mine, Forall_singleton.
      rewrite Forall_forall in H4. apply H4. rewrite Hq. apply elem_of_app. left.
      assert (forall (a b c : list line), interleaved a b c -> forall y, y ∈ a -> y ∈ c) as Hin.
      { intros a b c H. induction H; intros y; rewrite ?elem_of_cons; naive_solver. }
      apply (Hin _ _ _ Hil). set_solver.
Qed.

Lemma reachable_log_ok l : reachable l -> log_ok l.
Proof.
  intros H. unfold reachable in H. assert (log_ok Log_new) as H0.
  { constructor; cbn; [done|unfold MaxDeferred; lia|done|by constructor|exists []; split; [done|constructor]|done]. }
  induction H as [|a b c Hs _ IH]; [done|]. apply IH. by eapply step_log_ok.
Qed.

(** What is being delivered is, one line after another. *)
Lemma deliver_rest l ready : has_handler l = true -> at_game l = Delivering ready ->
  exists l', rtc step l l' /\ at_game l' = Idle /\ g_deferred l' = g_deferred l /\ out l' = out l ++ ready /\ queued l' = queued l /\ lost l' = lost l /\
             has_handler l' = true /\ g_hasDeferred l' = g_hasDeferred l.
Proof.
  revert l; induction ready as [|x ready IH]; intros l Hh Ha.
  - exists (Deliver_next l). split; [apply rtc_once, step_next; by rewrite Ha|]. unfold Deliver_next. rewrite Ha. cbn. by rewrite app_nil_r, Hh.
  - destruct (IH (Deliver_next l)) as (l' & Hr & H1 & H2 & H3 & H4 & H5 & H6 & H7); [unfold Deliver_next; by rewrite Ha, Hh..|].
    exists l'. split; [eapply rtc_l; [apply step_next; by rewrite Ha|done]|]. unfold Deliver_next in *. rewrite Ha, Hh in *. cbn in *.
    by rewrite H3, <- app_assoc.
Qed.

(** C35. No line of another thread is lost track of. In every interleaving, the lines the other threads wrote are, in the order they
    were queued, those the handler was given, those it is being given and those that wait - except the oldest that waited when 256
    newer ones came, and then that many did; no more than 256 wait; and the game thread can always go on to hand over everything that
    waits, without waiting for anyone. *)
Theorem log_lines_kept l : reachable l ->
  (exists prefix, queued l = prefix ++ g_deferred l /\ interleaved (from_others (out l) ++ being_delivered l) (lost l) prefix) /\
  (length (g_deferred l) <= MaxDeferred)%nat /\ (lost l <> [] -> (length (lost l) + MaxDeferred <= length (queued l))%nat) /\
  exists l', rtc step l l' /\ lost l' = lost l /\ queued l' = queued l /\ interleaved (from_others (out l')) (lost l) (queued l).
Proof.
  intros H. pose proof (reachable_log_ok l H) as Hok. pose proof Hok as [H1 H2 H3 H4 H5 H6]. split; [done|]. split; [done|]. split; [done|].
  destruct (has_handler l) eqn:Hh.
  2: { exists l. split; [done|]. split; [done|]. split; [done|]. destruct (H3 eq_refl) as (Hd & Hq & Ha). destruct H5 as (prefix & Hp & Hil).
       unfold being_delivered in Hil. rewrite Ha, app_nil_r in Hil. rewrite Hp, Hd, app_nil_r. done. }
  assert (exists l1, rtc step l l1 /\ at_game l1 = Idle /\ has_handler l1 = true /\ queued l1 = queued l /\ lost l1 = lost l) as (l1 & R1 & I1 & Hh1 & Q1 & L1).
  { destruct (at_game l) as [|ready] eqn:Ha; [by exists l|]. destruct (deliver_rest l ready Hh Ha) as (l' & Hr & ? & ? & ? & ? & ? & ? & ?). by exists l'. }
  assert (log_ok l1) as [F1 _ _ _ (p1 & P1 & Il1) _] by (apply reachable_log_ok; unfold reachable in *; by etransitivity).
  unfold being_delivered in Il1. rewrite I1, app_nil_r in Il1. destruct (g_hasDeferred l1) eqn:Hf.
  - assert (step l1 (Deliver_take l1)) as Hs by by constructor.
    destruct (deliver_rest (Deliver_take l1) (g_deferred l1)) as (l2 & R2 & I2 & D2 & O2 & Q2 & L2 & _ & _);
      [unfold Deliver_take; by rewrite Hf, ?Hh1..|].
    exists l2. unfold Deliver_take in *. rewrite Hf in *. cbn in *. split; [etransitivity; [done|by eapply rtc_l]|]. split; [congruence|]. split; [congruence|].
    assert (log_ok l2) as [_ _ _ M2 (p2 & P2 & Il2) _] by (apply reachable_log_ok; unfold reachable in *; etransitivity; [done|]; etransitivity; [done|]; by eapply rtc_l).
    unfold being_delivered in Il2. rewrite I2, app_nil_r in Il2. rewrite D2, app_nil_r in P2. congruence.
  - exists l1. split; [done|]. split; [done|]. split; [done|]. symmetry in F1. apply negb_false_iff, bool_decide_eq_true in F1. rewrite F1, app_nil_r in P1. congruence.
Qed.

Definition a_line (w : nat) (s : string) : line := mkLine w Warn $s.

Lemma log_lines_kept_witness :
  let l := Emit_there (a_line 2 "b") (Emit_here (a_line 0 "mine") (Emit_there (a_line 1 "a") (SetHandler true Log_new))) in
  reachable l /\ exists l', rtc step l l' /\ interleaved (from_others (out l')) [] [a_line 1 "a"; a_line 2 "b"].
Proof.
  set (l := Emit_there _ _). assert (reachable l) as Hr.
  { do 3 (eapply rtc_r; [|by constructor]). apply rtc_once. by constructor. }
  split; [exact Hr|]. destruct (log_lines_kept l Hr) as (_ & _ & _ & l' & H1 & _ & _ & H2). exists l'. split; [exact H1|exact H2].
Defined.
