(* ===== verification/Roster.v ===== *)
(** * The roster: [src/Players/PlayerManager.cpp] and [include/VoltMod/Players/Player.hpp]

    A [Player] is an object with an identity of its own: [heap] holds the objects that exist, the maps of
    the manager hold pointers to them, and reading a pointer whose object is gone is [Undefined]. Event
    handlers are programs over the roster's own operations, run inside the operation that raises the event
    as the source does. *)

From S2P Require Import Prelude.

(** ** Players *)

Record PlayerRef := mkRef { RefSlot : Z; RefSteamId : Z }.

#[export] Instance PlayerRef_eq_dec : EqDecision PlayerRef.
Proof. solve_decision. Defined.

Definition PlayerRef_unset : PlayerRef := mkRef (-1) 0.
Definition PlayerRef_bool (ref : PlayerRef) : bool := 0 <=? RefSlot ref.

Record Player := mkPlayer { Slot : Z; SteamId : Z; ConnectName : text; Ip : text }.

Definition IsBot (p : Player) : bool := SteamId p =? 0.
Definition Ref (p : Player) : PlayerRef := mkRef (Slot p) (SteamId p).

(** [Player::Name]; the live scoreboard name is the engine's, [None] without a controller. *)
Definition PlayerName (live : option text) (p : Player) : text :=
  match live with
  | Some (c :: name) => c :: name
  | _ => ConnectName p
  end.

(** ** The manager's state *)

(** A pointer to a [Player]. *)
Abbreviation ptr := Z.

Inductive RosterEvent :=
| Disconnected (p : ptr)
| Connected (p : ptr)
| FullyConnected (p : ptr)
| SettingsChanged (p : ptr)
| SlotChanged (slot : Z)
| SlotFullyConnected (slot : Z).

Record Roster := mkRoster {
  heap : gmap ptr Player;      (** the objects that exist *)
  nextPtr : ptr;               (** where the allocator goes on; objects never share an identity *)
  bySlot : gmap Z ptr;         (** [_playersBySlot], which owns them *)
  bySteamId : gmap Z ptr;      (** [_playersBySteamId] *)
  ordered : list ptr;          (** [_ordered] *)
  raised : list RosterEvent }. (** every event raised so far *)

Definition Roster_new : Roster := mkRoster ∅ 0 ∅ ∅ [] [].

Inductive RosterOp :=
| OpAdd (slot steamId : Z) (name ip : text)
| OpRemove (slot : Z)
| OpClear
| OpFullyConnected (slot : Z)
| OpSettingsChanged (slot : Z).

(** What handlers do: roster operations, deciding the next by what they see. *)
Inductive handler_program :=
| HDone
| HDo (op : RosterOp) (k : Roster -> handler_program).

Implicit Types st : Roster.

Definition Get st (slot : Z) : option ptr := bySlot st !! slot.

Definition BySteamId st (steamId : Z) : option ptr := bySteamId st !! steamId.

Definition GetRef st (ref : PlayerRef) : outcome (option ptr) :=
  match Get st (RefSlot ref) with
  | None => Returns None
  | Some p => match heap st !! p with
              | None => Undefined
              | Some player => Returns (if SteamId player =? RefSteamId ref then Some p else None)
              end
  end.

Definition RefFor st (slot : Z) : outcome PlayerRef :=
  match Get st slot with
  | None => Returns PlayerRef_unset
  | Some p => match heap st !! p with
              | None => Undefined
              | Some player => Returns (Ref player)
              end
  end.

(** ** Mutations *)

Definition with_index st (index : gmap Z ptr) : Roster :=
  mkRoster (heap st) (nextPtr st) (bySlot st) index (ordered st) (raised st).

Definition IndexBySteamId st (p : ptr) (player : Player) : Roster :=
  if IsBot player then st else with_index st (<[SteamId player := p]> (bySteamId st)).

Definition UnindexBySteamId st (p : ptr) : outcome Roster :=
  match heap st !! p with
  | None => Undefined
  | Some player =>
      Returns (if IsBot player then st
               else if bool_decide (bySteamId st !! SteamId player = Some p)
                    then with_index st (delete (SteamId player) (bySteamId st))
                    else st)
  end.

Definition slot_of (h : gmap ptr Player) (p : ptr) : Z :=
  match h !! p with Some player => Slot player | None => -1 end.

(** [std::sort] by slot; slots are distinct, so every sort gives the same vector. *)
Definition by_slot (h : gmap ptr Player) (a b : ptr) : Prop := slot_of h a <= slot_of h b.

#[export] Instance by_slot_dec h : RelDecision (by_slot h).
Proof. intros a b. unfold by_slot. apply _. Defined.

Definition Reindex st : outcome Roster :=
  let all := map snd (map_to_list (bySlot st)) in
  if forallb (fun p => bool_decide (is_Some (heap st !! p))) all
  then Returns (mkRoster (heap st) (nextPtr st) (bySlot st) (bySteamId st)
                         (merge_sort (by_slot (heap st)) all) (raised st))
  else Undefined.

(** [_playersBySlot.erase(it)]: the owner goes, and the object with it. *)
Definition EraseSlot st (slot : Z) (p : ptr) : Roster :=
  mkRoster (delete p (heap st)) (nextPtr st) (delete slot (bySlot st)) (bySteamId st) (ordered st) (raised st).

Section Operations.
(** How an event is raised: every handler runs to its end. *)
Context (raise : RosterEvent -> Roster -> outcome Roster).

Definition Drop slot st : outcome Roster :=
  match bySlot st !! slot with
  | None => Returns st
  | Some p =>
      run! st1 := raise (Disconnected p) st in
      match bySlot st1 !! slot with
      | None => Returns st1
      | Some q => run! st2 := UnindexBySteamId st1 q in Reindex (EraseSlot st2 slot q)
      end
  end.

(** [make_unique], the store into the slot and the two indexes. *)
Definition Insert slot steamId name ip st : outcome (ptr * Roster) :=
  let p := nextPtr st in
  let player := mkPlayer slot steamId name ip in
  let st1 := mkRoster (<[p := player]> (heap st)) (p + 1) (<[slot := p]> (bySlot st))
                      (bySteamId st) (ordered st) (raised st) in
  run! st2 := Reindex (IndexBySteamId st1 p player) in Returns (p, st2).

Definition Add slot steamId name ip st : outcome (ptr * Roster) :=
  run! st1 := Drop slot st in
  run! (p, st2) := Insert slot steamId name ip st1 in
  run! st3 := raise (SlotChanged slot) st2 in
  run! st4 := raise (Connected p) st3 in
  Returns (p, st4).

Definition Remove slot st : outcome Roster :=
  match bySlot st !! slot with
  | None => Returns st
  | Some _ => run! st1 := Drop slot st in raise (SlotChanged slot) st1
  end.

Definition slots_of st : list Z := merge_sort Z.le (map fst (map_to_list (bySlot st))).

(** [_playersBySlot.clear()] and the indexes: what the slots still own is freed. *)
Definition ClearMaps st : Roster :=
  mkRoster (foldr delete (heap st) (map snd (map_to_list (bySlot st)))) (nextPtr st) ∅ ∅ [] (raised st).

Definition Clear st : outcome Roster :=
  let slots := slots_of st in
  run! st1 := outcome_fold (fun st slot => Drop slot st) slots st in
  outcome_fold (fun st slot => raise (SlotChanged slot) st) slots (ClearMaps st1).

Definition OnClientFullyConnected slot st : outcome Roster :=
  match Get st slot with
  | None => Returns st
  | Some p =>
      run! st1 := raise (SlotFullyConnected slot) st in
      raise (FullyConnected p) st1
  end.

Definition OnClientSettingsChanged slot st : outcome Roster :=
  match Get st slot with
  | None => Returns st
  | Some p => raise (SettingsChanged p) st
  end.

Definition exec_op (op : RosterOp) st : outcome Roster :=
  match op with
  | OpAdd slot steamId name ip => run! (_, st') := Add slot steamId name ip st in Returns st'
  | OpRemove slot => Remove slot st
  | OpClear => Clear st
  | OpFullyConnected slot => OnClientFullyConnected slot st
  | OpSettingsChanged slot => OnClientSettingsChanged slot st
  end.
End Operations.

(** The player an event hands its handlers; it has to exist when they run. *)
Definition event_player (ev : RosterEvent) : option ptr :=
  match ev with
  | Disconnected p | Connected p | FullyConnected p | SettingsChanged p => Some p
  | SlotChanged _ | SlotFullyConnected _ => None
  end.

Fixpoint run_handler (exec : RosterOp -> Roster -> outcome Roster) (h : handler_program) st : outcome Roster :=
  match h with
  | HDone => Returns st
  | HDo op k => run! st' := exec op st in run_handler exec (k st') st'
  end.

Section Run.
(** What is subscribed to each event, given the roster when it is raised. *)
Context (handlers : RosterEvent -> Roster -> handler_program).

Definition raise_with (exec : RosterOp -> Roster -> outcome Roster) (ev : RosterEvent) st : outcome Roster :=
  let st1 := mkRoster (heap st) (nextPtr st) (bySlot st) (bySteamId st) (ordered st) (raised st ++ [ev]) in
  match event_player ev with
  | Some p => if bool_decide (is_Some (heap st !! p)) then run_handler exec (handlers ev st1) st1 else Undefined
  | None => run_handler exec (handlers ev st1) st1
  end.

(** [fuel] bounds how deep handlers' operations nest. *)
Fixpoint run_op (fuel : nat) (op : RosterOp) st : outcome Roster :=
  match fuel with
  | O => OutOfFuel
  | S f => exec_op (raise_with (run_op f)) op st
  end.
End Run.
Arguments raise_with : simpl never.

(** ** The invariant *)

(** The maps without the ordered view: every slot owns a live player that knows its slot, every live
    player is owned by its slot, and the SteamID index never dangles nor names a bot. *)
Record maps_ok st : Prop := {
  ok_slots : forall slot p, bySlot st !! slot = Some p -> exists pl, heap st !! p = Some pl /\ Slot pl = slot;
  ok_heap : forall p pl, heap st !! p = Some pl -> bySlot st !! Slot pl = Some p;
  ok_index : forall id p, bySteamId st !! id = Some p ->
      exists pl, heap st !! p = Some pl /\ SteamId pl = id /\ id <> 0;
  ok_fresh : forall p pl, heap st !! p = Some pl -> p < nextPtr st }.

(** [_ordered] is every connected player, in slot order. *)
Record view_ok st : Prop := {
  ok_sorted : StronglySorted Z.lt (map (slot_of (heap st)) (ordered st));
  ok_members : forall p, In p (ordered st) <-> is_Some (heap st !! p) }.

Definition roster_ok st : Prop := maps_ok st /\ view_ok st.

Lemma sorted_strict {A} (f : A -> Z) l :
  StronglySorted (fun a b => f a <= f b) l -> List.NoDup (map f l) -> StronglySorted Z.lt (map f l).
Proof.
  induction l as [|a l IH]; cbn; intros Hs Hn; [constructor|].
  inversion_clear Hs as [|? ? Hs' Hf]. inversion_clear Hn as [|? ? Hni Hn']. constructor; [auto|].
  apply List.Forall_forall. intros x Hx. apply in_map_iff in Hx as (b & <- & Hb).
  rewrite List.Forall_forall in Hf. specialize (Hf b Hb). cbn in Hf.
  assert (f a <> f b); [|lia]. intros E. apply Hni. rewrite E. by apply in_map.
Qed.

#[export] Instance by_slot_trans h : Transitive (by_slot h).
Proof. intros a b c. unfold by_slot. lia. Qed.

#[export] Instance by_slot_total h : Total (by_slot h).
Proof. intros a b. unfold by_slot. lia. Qed.

Lemma values_slots st :
  maps_ok st -> map (slot_of (heap st)) (map snd (map_to_list (bySlot st))) = map fst (map_to_list (bySlot st)).
Proof.
  intros Hok. rewrite map_map. apply map_ext_in. intros [slot p] Hin.
  apply list_elem_of_In, elem_of_map_to_list in Hin. destruct (ok_slots st Hok slot p Hin) as (pl & Hp & <-).
  unfold slot_of. cbn. by rewrite Hp.
Qed.

Lemma values_members st p :
  maps_ok st -> In p (map snd (map_to_list (bySlot st))) <-> is_Some (heap st !! p).
Proof.
  intros Hok. rewrite in_map_iff. split.
  - intros ([slot q] & <- & Hin). apply list_elem_of_In, elem_of_map_to_list in Hin.
    destruct (ok_slots st Hok slot q Hin) as (pl & Hp & _). cbn. eauto.
  - intros [pl Hp]. exists (Slot pl, p). split; [done|]. apply list_elem_of_In, elem_of_map_to_list.
    by apply ok_heap.
Qed.

Lemma Reindex_ok st : maps_ok st -> exists st', Reindex st = Returns st' /\ roster_ok st' /\
  heap st' = heap st /\ bySlot st' = bySlot st /\ bySteamId st' = bySteamId st /\ nextPtr st' = nextPtr st /\ raised st' = raised st.
Proof.
  intros Hok. unfold Reindex. set (all := map snd (map_to_list (bySlot st))).
  assert (forallb (fun p => bool_decide (is_Some (heap st !! p))) all = true) as ->.
  { apply forallb_forall. intros p Hp. apply bool_decide_eq_true. by apply values_members. }
  eexists. split_and!; [done| |done..]. split; [by destruct Hok|].
  assert (merge_sort (by_slot (heap st)) all ≡ₚ all) as Hperm by apply merge_sort_Permutation.
  split; cbn [ordered heap].
  - apply sorted_strict.
    + apply (StronglySorted_merge_sort (by_slot (heap st)) all).
    + apply NoDup_ListNoDup. rewrite Hperm. unfold all. rewrite values_slots by done. apply NoDup_fst_map_to_list.
  - intros p. rewrite <- (values_members st p Hok). rewrite <- !list_elem_of_In. by rewrite Hperm.
Qed.

Lemma Unindex_ok st p pl :
  maps_ok st -> heap st !! p = Some pl ->
  exists st', UnindexBySteamId st p = Returns st' /\ maps_ok st' /\ heap st' = heap st /\ bySlot st' = bySlot st /\
    nextPtr st' = nextPtr st /\ raised st' = raised st /\ (forall id q, bySteamId st' !! id = Some q -> q <> p).
Proof.
  intros Hok Hp. unfold UnindexBySteamId. rewrite Hp. eexists. split; [done|].
  assert (forall id, bySteamId st !! id = Some p -> id = SteamId pl /\ IsBot pl = false) as Hid.
  { intros id Hq. destruct (ok_index st Hok id p Hq) as (pl' & Hp' & <- & H0). simplify_eq.
    split; [done|]. unfold IsBot. lia. }
  destruct (IsBot pl) eqn:Hbot.
  - split_and!; auto. intros id q Hq ->. apply Hid in Hq as [_ ?]. done.
  - case_bool_decide as Hb.
    + split_and!; try done.
      * destruct Hok as [H1 H2 H3 H4]. split; cbn; [done|done| |done]. intros id q Hq.
        apply lookup_delete_Some in Hq as [_ Hq]. by apply H3.
      * cbn. intros id q Hq ->. apply lookup_delete_Some in Hq as [Hne Hq]. apply Hid in Hq as [-> _]. done.
    + split_and!; auto. intros id q Hq ->. pose proof Hq as Hq'. apply Hid in Hq as [-> _]. done.
Qed.

Lemma Erase_ok st slot p pl :
  maps_ok st -> heap st !! p = Some pl -> Slot pl = slot -> (forall id q, bySteamId st !! id = Some q -> q <> p) ->
  maps_ok (EraseSlot st slot p).
Proof.
  intros [H1 H2 H3 H4] Hp <- Hi. split; cbn.
  - intros slot q Hq. apply lookup_delete_Some in Hq as [Hne Hq]. destruct (H1 slot q Hq) as (pl' & Hq' & Hs).
    exists pl'. split; [|done]. rewrite lookup_delete_ne; [done|]. intros <-. simplify_eq.
  - intros q pl' Hq. apply lookup_delete_Some in Hq as [Hne Hq]. apply H2 in Hq as Hb.
    rewrite lookup_delete_ne; [done|]. intros E. apply H2 in Hp. congruence.
  - intros id q Hq. destruct (H3 id q Hq) as (pl' & Hq' & Hs). exists pl'. split; [|done].
    rewrite lookup_delete_ne; [done|]. intros <-. by apply (Hi id p).
  - intros q pl' Hq. apply lookup_delete_Some in Hq as [_ Hq]. by eapply H4.
Qed.

Lemma Insert_ok st slot steamId name ip :
  maps_ok st -> bySlot st !! slot = None ->
  exists st', Insert slot steamId name ip st = Returns (nextPtr st, st') /\ roster_ok st' /\
    heap st' = <[nextPtr st := mkPlayer slot steamId name ip]> (heap st) /\
    bySlot st' = <[slot := nextPtr st]> (bySlot st) /\ raised st' = raised st.
Proof.
  intros Hok Hs. unfold Insert. set (pl := mkPlayer slot steamId name ip).
  assert (heap st !! nextPtr st = None) as Hn.
  { destruct (heap st !! nextPtr st) as [x|] eqn:E; [|done]. pose proof (ok_fresh st Hok _ _ E). lia. }
  match goal with |- context [IndexBySteamId ?s _ _] => set (st1 := s) end.
  assert (maps_ok st1) as Hok1.
  { destruct Hok as [H1 H2 H3 H4]. split; cbn.
    - intros s p Hp. apply lookup_insert_Some in Hp as [[<- <-]|[Hne Hp]].
      + exists pl. by rewrite lookup_insert_eq.
      + destruct (H1 s p Hp) as (x & Hx & Hsx). exists x. split; [|done]. rewrite lookup_insert_ne; [done|congruence].
    - intros p x Hp. apply lookup_insert_Some in Hp as [[<- <-]|[Hne Hp]]; [by rewrite lookup_insert_eq|].
      rewrite lookup_insert_ne; [auto|]. intros E. apply H2 in Hp. congruence.
    - intros id p Hp. destruct (H3 id p Hp) as (x & Hx & Hsx). exists x. split; [|done].
      rewrite lookup_insert_ne; [done|congruence].
    - intros p x Hp. apply lookup_insert_Some in Hp as [[<- <-]|[Hne Hp]]; [lia|]. apply H4 in Hp. lia. }
  assert (maps_ok (IndexBySteamId st1 (nextPtr st) pl)) as Hok2.
  { unfold IndexBySteamId. destruct (IsBot pl) eqn:Hb; [done|]. destruct Hok1 as [H1 H2 H3 H4].
    split; [done|done| |done]. intros id p Hp. cbn in Hp. apply lookup_insert_Some in Hp as [[<- <-]|[Hne Hp]]; [|by apply H3].
    exists pl. cbn. rewrite lookup_insert_eq. split_and!; [done|done|]. unfold IsBot in Hb. cbn in Hb. lia. }
  destruct (Reindex_ok _ Hok2) as (st' & -> & Hok' & E1 & E2 & _ & _ & E3). exists st'. cbn.
  split_and!; [done|done|..]; rewrite ?E1, ?E2, ?E3; unfold IndexBySteamId; by case_match.
Qed.

Lemma foldr_delete_none (h : gmap ptr Player) l p :
  foldr delete h l !! p = if bool_decide (p ∈ l) then None else h !! p.
Proof.
  induction l as [|a l IH]; [done|]. cbn [foldr]. destruct (decide (a = p)) as [->|Hne].
  - rewrite lookup_delete_eq, bool_decide_true; [done|set_solver].
  - rewrite lookup_delete_ne, IH by done. assert (p ∈ a :: l <-> p ∈ l) as E 
      by (rewrite elem_of_cons; split; [intros [?|?]; [congruence|done]|by right]).
    by rewrite (bool_decide_ext _ _ E).
Qed.

Lemma ClearMaps_ok st : maps_ok st -> roster_ok (ClearMaps st) /\ heap (ClearMaps st) = ∅.
Proof.
  intros Hok. assert (heap (ClearMaps st) = ∅) as E.
  { cbn. apply map_empty. intros p. rewrite foldr_delete_none. case_bool_decide as H; [done|].
    destruct (heap st !! p) eqn:Hp; [|done]. exfalso. apply H. apply list_elem_of_In, values_members; [done|eauto]. }
  split; [|done]. split; [split|split]; rewrite ?E; cbn; try done.
  - constructor.
  - intros p. rewrite lookup_empty. split; [done|]. by intros [? ?].
Qed.

Section Preservation.
Context (raise : RosterEvent -> Roster -> outcome Roster).
Hypothesis raise_ok : forall ev st st', roster_ok st -> raise ev st = Returns st' -> roster_ok st'.

Lemma Drop_ok slot st st' :
  roster_ok st -> Drop raise slot st = Returns st' -> roster_ok st' /\ bySlot st' !! slot = None.
Proof.
  intros Hok H. unfold Drop in H. destruct (bySlot st !! slot) as [p|] eqn:Hp; [|by simplify_eq].
  returns_inv. match goal with E : raise _ _ = Returns ?s |- _ => pose proof (raise_ok _ _ _ Hok E) as [Hm1 Hv1]; rename s into st1 end.
  destruct (bySlot st1 !! slot) as [q|] eqn:Hq; [|by simplify_eq].
  destruct (ok_slots st1 Hm1 slot q Hq) as (pl & Hpl & Hs).
  destruct (Unindex_ok st1 q pl Hm1 Hpl) as (st2 & E2 & Hm2 & Eh & Es & _ & _ & Hi).
  rewrite E2 in H. cbn in H.
  assert (maps_ok (EraseSlot st2 slot q)) as Hm3.
  { apply (Erase_ok st2 slot q pl); [done|by rewrite Eh|done|done]. }
  destruct (Reindex_ok _ Hm3) as (st3 & E3 & Hok3 & _ & Eb & _). rewrite E3 in H. simplify_eq.
  split; [done|]. rewrite Eb. cbn. apply lookup_delete_eq.
Qed.

Lemma Add_ok slot steamId name ip st p st' :
  roster_ok st -> Add raise slot steamId name ip st = Returns (p, st') -> roster_ok st'.
Proof.
  intros Hok H. unfold Add in H. destruct (Drop raise slot st) as [st1| |] eqn:E1; cbn in H; try done.
  destruct (Drop_ok _ _ _ Hok E1) as [[Hm1 _] Hn].
  destruct (Insert_ok st1 slot steamId name ip Hm1 Hn) as (st2 & E2 & Hok2 & _). rewrite E2 in H. cbn in H.
  destruct (raise (SlotChanged slot) st2) as [st3| |] eqn:E3; cbn in H; try done.
  destruct (raise (Connected (nextPtr st1)) st3) as [st4| |] eqn:E4; cbn in H; try done.
  simplify_eq. eauto.
Qed.

Lemma Clear_ok st st' : roster_ok st -> Clear raise st = Returns st' -> roster_ok st'.
Proof.
  intros Hok H. unfold Clear in H.
  destruct (outcome_fold _ _ st) as [st1| |] eqn:E1; cbn in H; try done.
  assert (roster_ok st1) as [Hm1 _].
  { revert E1. apply outcome_fold_inv; [|done]. intros s slot s' Hs E. by apply (Drop_ok slot s s'). }
  revert H. apply outcome_fold_inv; [eauto|]. by apply ClearMaps_ok.
Qed.

Lemma exec_op_ok op st st' : roster_ok st -> exec_op raise op st = Returns st' -> roster_ok st'.
Proof.
  intros Hok H. destruct op as [slot steamId name ip|slot| |slot|slot]; cbn in H.
  - destruct (Add _ _ _ _ _ st) as [[p s]| |] eqn:E; cbn in H; simplify_eq. by eapply Add_ok.
  - unfold Remove in H. destruct (bySlot st !! slot); [|by simplify_eq]. returns_inv.
    match goal with E : Drop _ _ _ = _ |- _ => apply Drop_ok in E as [? _]; eauto end.
  - by eapply Clear_ok.
  - unfold OnClientFullyConnected in H. destruct (Get st slot); [|by simplify_eq]. returns_inv. eauto.
  - unfold OnClientSettingsChanged in H. destruct (Get st slot); [|by simplify_eq]. eauto.
Qed.
End Preservation.

Lemma run_op_ok handlers fuel op st st' : roster_ok st -> run_op handlers fuel op st = Returns st' -> roster_ok st'.
Proof.
  revert op st st'. induction fuel as [|f IH]; intros op st st' Hok H; [done|]. cbn in H. revert Hok H.
  apply exec_op_ok. clear op st st'. intros ev st st' [[H1 H2 H3 H4] [H5 H6]] H. unfold raise_with in H.
  set (st1 := mkRoster _ _ _ _ _ _) in H.
  assert (roster_ok st1) as Hok1 by (by split; split).
  assert (forall h s s', roster_ok s -> run_handler (run_op handlers f) h s = Returns s' -> roster_ok s') as Hrun.
  { induction h as [|op k IHk]; intros s s' Hs Hr; cbn in Hr; [by simplify_eq|]. returns_inv. eauto. }
  destruct (event_player ev); [case_bool_decide; [|done]|]; by eapply Hrun.
Qed.

Lemma Roster_new_ok : roster_ok Roster_new.
Proof.
  split; split; cbn; try done.
  - constructor.
  - intros p. rewrite lookup_empty. split; [done|]. by intros [? ?].
Qed.


(** A handler that gives the leaver's slot to a bot, and one that empties the slot below a newcomer. *)
Definition sample_handlers (ev : RosterEvent) (st : Roster) : handler_program :=
  match ev with
  | Connected p => if p =? 2 then HDo (OpRemove 3) (fun _ => HDone) else HDone
  | SlotChanged 3 => if (length (raised st) <? 12)%nat then HDo (OpAdd 9 0 $"bot" []) (fun _ => HDone) else HDone
  | _ => HDone
  end.


(** ** What the operations do when handlers only look *)

Definition passive (ev : RosterEvent) (st : Roster) : handler_program := HDone.

Section Passive.
Context (exec : RosterOp -> Roster -> outcome Roster).

Lemma passive_raise ev st :
  (forall p, event_player ev = Some p -> is_Some (heap st !! p)) ->
  raise_with passive exec ev st
  = Returns (mkRoster (heap st) (nextPtr st) (bySlot st) (bySteamId st) (ordered st) (raised st ++ [ev])).
Proof.
  intros H. unfold raise_with. destruct (event_player ev) as [p|]; [|done].
  rewrite bool_decide_true; [done|by apply H].
Qed.

Lemma passive_Drop slot st p :
  roster_ok st -> Get st slot = Some p ->
  exists st', Drop (raise_with passive exec) slot st = Returns st' /\ roster_ok st' /\
    raised st' = raised st ++ [Disconnected p] /\ bySlot st' = delete slot (bySlot st) /\ nextPtr st' = nextPtr st /\
    heap st' = delete p (heap st).
Proof.
  intros [Hm Hv] Hp. unfold Get in Hp. destruct (ok_slots st Hm slot p Hp) as (pl & Hpl & Hs).
  unfold Drop. rewrite Hp. rewrite passive_raise by (intros q [= <-]; eauto). cbn [outcome_bind bySlot]. rewrite Hp.
  set (st1 := mkRoster _ _ _ _ _ _). assert (maps_ok st1) as Hm1 by (by destruct Hm; split).
  destruct (Unindex_ok st1 p pl Hm1 Hpl) as (st2 & E2 & Hm2 & Eh & Es & En & Er & Hi). rewrite E2. cbn [outcome_bind].
  assert (maps_ok (EraseSlot st2 slot p)) as Hm3.
  { apply (Erase_ok st2 slot p pl); [done|by rewrite Eh|done|done]. }
  destruct (Reindex_ok _ Hm3) as (st3 & E3 & Hok3 & Eh3 & Eb & _ & En3 & Er3). exists st3.
  split_and!; [done|done|by rewrite Er3; cbn; rewrite Er|by rewrite Eb; cbn; rewrite Es|by rewrite En3; cbn; rewrite En|by rewrite Eh3; cbn; rewrite Eh].
Qed.

Lemma passive_Drop_any slot st :
  roster_ok st ->
  exists st', Drop (raise_with passive exec) slot st = Returns st' /\ roster_ok st' /\
    raised st' = raised st ++ option_list (Disconnected <$> Get st slot) /\
    bySlot st' = delete slot (bySlot st) /\ nextPtr st' = nextPtr st /\
    heap st' = match Get st slot with Some p => delete p (heap st) | None => heap st end.
Proof.
  intros Hok. destruct (Get st slot) as [p|] eqn:Hp; [by apply passive_Drop|].
  exists st. unfold Drop. unfold Get in Hp. rewrite Hp. split_and!; [done|done|by rewrite app_nil_r| |done|done].
  by rewrite delete_id.
Qed.

Lemma passive_Drop_all slots st :
  roster_ok st -> NoDup slots ->
  exists st', outcome_fold (fun st slot => Drop (raise_with passive exec) slot st) slots st = Returns st' /\
    roster_ok st' /\ raised st' = raised st ++ omap (fun s => Disconnected <$> Get st s) slots.
Proof.
  revert st. induction slots as [|s slots IH]; intros st Hok Hnd.
  - exists st. cbn. by rewrite app_nil_r.
  - apply NoDup_cons in Hnd as [Hs Hnd].
    destruct (passive_Drop_any s st Hok) as (st1 & E1 & Hok1 & Er1 & Eb1 & _). cbn. rewrite E1. cbn.
    destruct (IH st1 Hok1 Hnd) as (st2 & E2 & Hok2 & Er2). exists st2. split_and!; [done|done|].
    rewrite Er2, Er1, <- app_assoc. f_equal.
    assert (omap (fun s => Disconnected <$> Get st1 s) slots = omap (fun s => Disconnected <$> Get st s) slots) as ->.
    { clear - Eb1 Hs. induction slots as [|x slots IH]; [done|]. cbn. apply not_elem_of_cons in Hs as [Hne Hs].
      rewrite IH by done. unfold Get. by rewrite Eb1, lookup_delete_ne. }
    by destruct (Get st s).
Qed.

Lemma passive_slots slots st :
  outcome_fold (fun st slot => raise_with passive exec (SlotChanged slot) st) slots st
  = Returns (mkRoster (heap st) (nextPtr st) (bySlot st) (bySteamId st) (ordered st) (raised st ++ map SlotChanged slots)).
Proof.
  revert st. induction slots as [|s slots IH]; intros st; cbn; [rewrite app_nil_r; by destruct st|].
  rewrite passive_raise by done. cbn. rewrite IH. cbn. by rewrite <- app_assoc.
Qed.
End Passive.

Lemma slots_of_spec st : NoDup (slots_of st) /\ StronglySorted Z.le (slots_of st) /\
  forall s, s ∈ slots_of st <-> is_Some (Get st s).
Proof.
  unfold slots_of. pose proof (merge_sort_Permutation Z.le (map fst (map_to_list (bySlot st)))) as Hp.
  split_and!.
  - rewrite Hp. apply NoDup_fst_map_to_list.
  - apply (StronglySorted_merge_sort Z.le).
  - intros s. rewrite Hp. unfold Get. rewrite list_elem_of_In, in_map_iff. split.
    + intros ([k p] & <- & Hin). apply list_elem_of_In, elem_of_map_to_list in Hin. eauto.
    + intros [p Hs]. exists (s, p). split; [done|]. by apply list_elem_of_In, elem_of_map_to_list.
Qed.

(** With handlers that only look, an operation never touches a player that is gone, and raises what its
    contract says: a join drops the slot's previous occupant first, then the slot change, then [Connected]
    with the new player in the roster; a leave raises [Disconnected] before the slot change; [Clear] raises
    [Disconnected] for every player by ascending slot, then every slot change. *)
Theorem Roster_events fuel st :
  roster_ok st ->
  (forall slot steamId name ip, exists st',
     run_op passive (S fuel) (OpAdd slot steamId name ip) st = Returns st' /\
     raised st' = raised st ++ option_list (Disconnected <$> Get st slot) ++ [SlotChanged slot; Connected (nextPtr st)] /\
     heap st' !! nextPtr st = Some (mkPlayer slot steamId name ip) /\
     (forall s, Get st' s = if s =? slot then Some (nextPtr st) else Get st s)) /\
  (forall slot p, Get st slot = Some p -> exists st',
     run_op passive (S fuel) (OpRemove slot) st = Returns st' /\
     raised st' = raised st ++ [Disconnected p; SlotChanged slot] /\
     (forall s, Get st' s = if s =? slot then None else Get st s)) /\
  (exists st', run_op passive (S fuel) OpClear st = Returns st' /\
     raised st' = raised st ++ omap (fun s => Disconnected <$> Get st s) (slots_of st) ++ map SlotChanged (slots_of st) /\
     (forall s, Get st' s = None)).
Proof.
  intros Hok. split_and!.
  - intros slot steamId name ip. cbn. unfold Add.
    destruct (passive_Drop_any (run_op passive fuel) slot st Hok) as (st1 & E1 & [Hm1 _] & Er1 & Eb1 & En1 & _).
    rewrite E1. cbn. destruct (Insert_ok st1 slot steamId name ip Hm1) as (st2 & E2 & _ & Eh2 & Eb2 & Er2).
    { rewrite Eb1. apply lookup_delete_eq. }
    rewrite E2. cbn. rewrite passive_raise by (cbn; congruence). cbn [outcome_bind].
    rewrite passive_raise by (intros q [= <-]; cbn; rewrite Eh2, lookup_insert_eq; eauto). cbn.
    eexists. split; [done|]. cbn. split_and!.
    + by rewrite Er2, Er1, En1, <- !app_assoc.
    + by rewrite Eh2, En1, lookup_insert_eq.
    + intros s. unfold Get. cbn. rewrite Eb2, Eb1, En1. destruct (Z.eqb_spec s slot) as [->|Hne].
      * apply lookup_insert_eq.
      * by rewrite lookup_insert_ne, lookup_delete_ne.
  - intros slot p Hp. cbn. unfold Remove. pose proof Hp as Hp'. unfold Get in Hp'. rewrite Hp'.
    destruct (passive_Drop (run_op passive fuel) slot st p Hok Hp) as (st1 & E1 & _ & Er1 & Eb1 & _).
    rewrite E1. cbn. eexists. split; [done|]. cbn. rewrite Er1, <- app_assoc. split; [done|].
    intros s. unfold Get. cbn. rewrite Eb1. destruct (Z.eqb_spec s slot) as [->|Hne].
    + apply lookup_delete_eq.
    + by apply lookup_delete_ne.
  - cbn. unfold Clear. destruct (slots_of_spec st) as (Hnd & _ & _).
    destruct (passive_Drop_all (run_op passive fuel) (slots_of st) st Hok Hnd) as (st1 & E1 & _ & Er1).
    rewrite E1. cbn [outcome_bind]. rewrite passive_slots. eexists. split; [done|]. cbn.
    rewrite Er1, <- app_assoc. split; [done|]. intros s. apply lookup_empty.
Qed.

Definition sample_roster : Roster :=
  match outcome_fold (fun st op => run_op passive 1 op st) [OpAdd 3 100 $"a" []; OpAdd 1 0 $"b" []] Roster_new with
  | Returns st => st
  | _ => Roster_new
  end.

Lemma sample_roster_ok : roster_ok sample_roster.
Proof.
  refine (outcome_fold_inv roster_ok (fun st op => run_op passive 1 op st)
            [OpAdd 3 100 $"a" []; OpAdd 1 0 $"b" []] Roster_new sample_roster _ Roster_new_ok _).
  - intros s a s'. apply run_op_ok.
  - vm_compute. reflexivity.
Qed.

Lemma Roster_events_witness :
  exists st', run_op passive 1 OpClear sample_roster = Returns st' /\
    raised st' = raised sample_roster ++ [Disconnected 1; Disconnected 0; SlotChanged 1; SlotChanged 3].
Proof.
  destruct (Roster_events 0 sample_roster sample_roster_ok) as (_ & _ & st' & E & Er & _).
  exists st'. split; [exact E|]. rewrite Er. f_equal.
Defined.
