(* ===== verification/Policy.v ===== *)
(** * The permission gate: [src/Players/Policy.cpp]

    [HasPermission] and [CanTarget] are the callbacks the plugin installs; they are arguments. The warning
    flag is state, because it decides what is logged. *)

From S2P Require Import Prelude Errors Roster.

Record PolicyRules := mkRules {
  HasPermission : option (Z -> text -> bool);
  CanTarget : option (Z -> Z -> bool) }.

(** [Authorized]: the caller, and the target when the action has one. *)
Record Authorized := mkAuthorized { Caller : ptr; Target : option ptr }.

Implicit Types (rules : PolicyRules) (st : Roster).

(** Returns the status and [_missingPermissionWarned]. *)
Definition CheckPermission rules (warned : bool) (caller : Player) (permission : text) : Status * bool :=
  match permission with
  | [] => (Ok tt, warned)
  | _ =>
      match HasPermission rules with
      | None => (Err (Error_Denied $"cmd.noPermission"), true)
      | Some has => if has (SteamId caller) permission then (Ok tt, warned)
                    else (Err (Error_Denied $"cmd.noPermission"), warned)
      end
  end.

Definition CheckImmunity rules (caller : Player) (targetSteamId : Z) : Status :=
  if targetSteamId =? SteamId caller then Ok tt
  else match CanTarget rules with
       | None => Ok tt
       | Some can => if can (SteamId caller) targetSteamId then Ok tt else Err (Error_Immune $"target.immune")
       end.

(** [_players.Get(ref)] with the player it points at. *)
Definition GetPlayer st (ref : PlayerRef) : outcome (option (ptr * Player)) :=
  run! found := GetRef st ref in
  match found with
  | None => Returns None
  | Some p => match heap st !! p with Some player => Returns (Some (p, player)) | None => Undefined end
  end.

Definition target_missing : Error := mkError ErrorCode.NotFound $"target is not connected" $"target.noMatch" [].

(** After the players are found. *)
Definition authorize_players rules (warned : bool) (caller : ptr * Player) (target : option (ptr * Player))
    (permission : text) : Result Authorized * bool :=
  let '(allowed, warned') := CheckPermission rules warned caller.2 permission in
  (let! _ := allowed in
   match target with
   | None => Ok (mkAuthorized caller.1 None)
   | Some t => let! _ := CheckImmunity rules caller.2 (SteamId t.2) in Ok (mkAuthorized caller.1 (Some t.1))
   end, warned').

Definition Authorize rules st (warned : bool) (caller : PlayerRef) (target : option PlayerRef) (permission : text)
    : outcome (Result Authorized * bool) :=
  run! callerPlayer := GetPlayer st caller in
  match callerPlayer with
  | None => Returns (Err (Error_NotFound $"caller is not connected"), warned)
  | Some c =>
      match target with
      | None => Returns (authorize_players rules warned c None permission)
      | Some ref =>
          run! targetPlayer := GetPlayer st ref in
          match targetPlayer with
          | None => Returns (Err target_missing, warned)
          | Some t => Returns (authorize_players rules warned c (Some t) permission)
          end
      end
  end.

Definition AuthorizeSteamId rules st (warned : bool) (caller : PlayerRef) (targetSteamId : Z) (permission : text)
    : outcome (Status * bool) :=
  run! callerPlayer := GetPlayer st caller in
  match callerPlayer with
  | None => Returns (Err (Error_NotFound $"caller is not connected"), warned)
  | Some c =>
      let '(allowed, warned') := CheckPermission rules warned c.2 permission in
      Returns (let! _ := allowed in CheckImmunity rules c.2 targetSteamId, warned')
  end.

(** ** What the gate decides *)

(** The player a reference names, by slot and SteamID. *)
Definition online st (ref : PlayerRef) (p : ptr) (player : Player) : Prop :=
  bySlot st !! RefSlot ref = Some p /\ heap st !! p = Some player /\ Ref player = ref.

Definition permits rules (steamId : Z) (permission : text) : Prop :=
  permission = [] \/ exists has, HasPermission rules = Some has /\ has steamId permission = true.

Definition may_target rules (caller target : Z) : Prop :=
  target = caller \/ CanTarget rules = None \/ exists can, CanTarget rules = Some can /\ can caller target = true.

Lemma GetPlayer_spec st ref :
  maps_ok st -> exists found, GetPlayer st ref = Returns found /\
    match found with
    | Some (p, player) => online st ref p player
    | None => forall p player, ~ online st ref p player
    end.
Proof.
  intros Hok. unfold GetPlayer, GetRef, Get. destruct (bySlot st !! RefSlot ref) as [p|] eqn:Hs.
  2:{ eexists. split; [done|]. intros p pl (H & _). congruence. }
  destruct (ok_slots st Hok _ _ Hs) as (pl & Hp & Hslot). rewrite Hp. cbn.
  destruct (Z.eqb_spec (SteamId pl) (RefSteamId ref)) as [E|E]; cbn; rewrite ?Hp; eexists; (split; [done|]).
  - split_and!; [done|done|]. destruct ref. unfold Ref. cbn in *. by subst.
  - intros q pl' (H1 & H2 & <-). cbn in *. congruence.
Qed.

Lemma CheckPermission_ok rules warned caller permission :
  has_value (CheckPermission rules warned caller permission).1 = true <-> permits rules (SteamId caller) permission.
Proof.
  unfold CheckPermission, permits. destruct permission as [|c l]; [split; [intros _; by left|done]|].
  destruct (HasPermission rules) as [has|].
  - destruct (has _ _) eqn:E; cbn; split; try done.
    + intros _. right. eauto.
    + intros [?|(h & [= <-] & ?)]; congruence.
  - split; [done|]. by intros [?|(h & ? & _)].
Qed.

Lemma CheckImmunity_ok rules caller target :
  has_value (CheckImmunity rules caller target) = true <-> may_target rules (SteamId caller) target.
Proof.
  unfold CheckImmunity, may_target. destruct (Z.eqb_spec target (SteamId caller)) as [->|Hne]; [split; [intros _; by left|done]|].
  destruct (CanTarget rules) as [can|]; [|split; [intros _; right; by left|done]].
  destruct (can _ _) eqn:E; cbn; split; try done.
  - intros _. right. right. eauto.
  - intros [?|[?|(h & [= <-] & ?)]]; congruence.
Qed.

(** The gate opens for a pair exactly when both are connected under their references, the caller holds
    the permission asked for (an empty one asks for nothing), and the caller is the target, or the plugin
    allows it; it never reads a player that is gone. *)
Theorem Authorize_allows rules st warned caller target permission :
  roster_ok st ->
  exists result warned', Authorize rules st warned caller (Some target) permission = Returns (result, warned') /\
    forall c t, result = Ok (mkAuthorized c (Some t)) <->
      exists pc pt, online st caller c pc /\ online st target t pt /\
        permits rules (SteamId pc) permission /\ may_target rules (SteamId pc) (SteamId pt).
Proof.
  intros [Hok _]. unfold Authorize.
  destruct (GetPlayer_spec st caller Hok) as (fc & -> & Hc). cbn.
  destruct fc as [[c pc]|]; cbn.
  2:{ do 2 eexists. split; [done|]. intros c t. split; [done|]. intros (pc & pt & H & _). by apply Hc in H. }
  destruct (GetPlayer_spec st target Hok) as (ft & -> & Ht). cbn.
  destruct ft as [[t pt]|]; cbn.
  2:{ do 2 eexists. split; [done|]. intros c' t. split; [done|]. intros (? & pt & _ & H & _). by apply Ht in H. }
  pose proof (CheckPermission_ok rules warned pc permission) as HP.
  pose proof (CheckImmunity_ok rules pc (SteamId pt)) as HI. unfold authorize_players. cbn [fst snd].
  destruct (CheckPermission rules warned pc permission) as [allowed w]. do 2 eexists. split; [done|].
  assert (forall c' t', (exists pc' pt', online st caller c' pc' /\ online st target t' pt' /\
            permits rules (SteamId pc') permission /\ may_target rules (SteamId pc') (SteamId pt'))
          <-> c' = c /\ t' = t /\ permits rules (SteamId pc) permission /\ may_target rules (SteamId pc) (SteamId pt)) as Hspec.
  { intros c' t'. split.
    - intros (pc' & pt' & (A1 & A2 & _) & (B1 & B2 & _) & H1 & H2).
      destruct Hc as (C1 & C2 & _), Ht as (D1 & D2 & _). simplify_eq. done.
    - intros (-> & -> & H1 & H2). by exists pc, pt. }
  intros c' t'. rewrite Hspec, <- HP, <- HI. cbn [fst].
  destruct allowed as [[]|e]; cbn; [|split; [done|by intros (_ & _ & ? & _)]].
  destruct (CheckImmunity _ _ _) as [[]|e]; cbn; [|split; [done|by intros (_ & _ & _ & ?)]].
  split; [by intros [= -> ->]|by intros (-> & -> & _)].
Qed.

(** The gate for a target that may be offline decides exactly as the gate for a connected one: for a
    target that is connected both succeed together and fail with the same error. *)
Theorem AuthorizeSteamId_agrees rules st warned caller target t pt permission :
  roster_ok st -> online st target t pt ->
  exists status result warned',
    AuthorizeSteamId rules st warned caller (SteamId pt) permission = Returns (status, warned') /\
    Authorize rules st warned caller (Some target) permission = Returns (result, warned') /\
    match status with Ok _ => has_value result = true | Err e => result = Err e end.
Proof.
  intros [Hok _] Ht. unfold AuthorizeSteamId, Authorize.
  destruct (GetPlayer_spec st caller Hok) as (fc & -> & Hc). cbn.
  destruct fc as [[c pc]|]; cbn; [|by do 3 eexists].
  destruct (GetPlayer_spec st target Hok) as (ft & -> & Hft). cbn.
  destruct ft as [[t' pt']|]; [|by apply Hft in Ht].
  assert (pt' = pt) as -> by (destruct Ht as (? & ? & _), Hft as (? & ? & _); congruence).
  unfold authorize_players. cbn [fst snd].
  destruct (CheckPermission rules warned pc permission) as [allowed w]. cbn.
  do 3 eexists. split_and!; [done|done|].
  destruct allowed as [[]|e]; cbn; [|done]. by destruct (CheckImmunity _ _ _) as [[]|e]; cbn.
Qed.

Definition sample_policy : PolicyRules :=
  mkRules (Some (fun id perm => (id =? 100) && text_eqb perm $"kick")) (Some (fun a b => b <? a)).

Lemma sample_online : online sample_roster (mkRef 3 100) 0 (mkPlayer 3 100 $"a" []) /\
  online sample_roster (mkRef 1 0) 1 (mkPlayer 1 0 $"b" []).
Proof. split; split_and!; reflexivity. Qed.

Lemma Authorize_allows_witness :
  Authorize sample_policy sample_roster false (mkRef 3 100) (Some (mkRef 1 0)) $"kick"
  = Returns (Ok (mkAuthorized 0 (Some 1)), false).
Proof.
  destruct (Authorize_allows sample_policy sample_roster false (mkRef 3 100) (mkRef 1 0) $"kick" sample_roster_ok)
    as (result & warned & E & H).
  rewrite (proj2 (H 0 1)) in E.
  - rewrite E. f_equal. f_equal. apply (f_equal (fun o => match o with Returns p => p.2 | _ => true end)) in E.
    symmetry. exact E.
  - destruct sample_online as [H1 H2]. do 2 eexists. split_and!; [exact H1|exact H2| |].
    + right. eexists. split; reflexivity.
    + right. right. eexists. split; reflexivity.
Defined.

Lemma AuthorizeSteamId_agrees_witness :
  exists e, AuthorizeSteamId sample_policy sample_roster false (mkRef 3 100) 0 $"ban" = Returns (Err e, false) /\
    Authorize sample_policy sample_roster false (mkRef 3 100) (Some (mkRef 1 0)) $"ban" = Returns (Err e, false).
Proof.
  destruct sample_online as [_ H2].
  destruct (AuthorizeSteamId_agrees sample_policy sample_roster false (mkRef 3 100) (mkRef 1 0) 1 _ $"ban" sample_roster_ok H2)
    as (status & result & w & E1 & E2 & H).
  cbn [SteamId] in E1. destruct status as [u|e].
  - vm_compute in E1. discriminate E1.
  - rewrite H in E2. exists e. assert (w = false) as ->.
    { vm_compute in E1. injection E1 as _ <-. reflexivity. }
    split; [exact E1|exact E2].
Defined.
