(* ===== verification/Targeting.v ===== *)
(** * Targets: [src/Commands/Targeting.cpp] and [TargetResolver.cpp]

    From a token a player typed to the slots a command acts on. *)

From S2P Require Import Prelude Text Errors Roster Policy.
From S2P Require Identity.

(** [enum class Team : uint8_t]: any byte the engine holds. *)
Definition Team_None : Z := 0.
Definition Team_Spectator : Z := 1.
Definition Team_T : Z := 2.
Definition Team_CT : Z := 3.

Record TargetRules := mkTargetRules { AllowMultiple : bool; AllowDead : bool; AllowBots : bool }.

Definition TargetRules_default : TargetRules := mkTargetRules false true true.

Module TargetError.
Inductive t : Type := NoMatch | Immune | Ambiguous | MultiNotAllowed | DeadNotAllowed | BotNotAllowed.
End TargetError.

Record TargetFailure := mkFailure { FailureError : TargetError.t; FailureCount : Z }.

Module TargetKind.
Inductive t : Type :=
| All | Me | NotMe | Team | Dead | Alive | Bots | Humans | Random | RandomTeam | Slot | SteamId | Name.
End TargetKind.

Record TargetQuery := mkQuery {
  QueryKind : TargetKind.t; QueryTeam : Z; QuerySlot : Z; QuerySteamId : Z; Needle : text }.

Definition query_of (kind : TargetKind.t) : TargetQuery := mkQuery kind Team_None (-1) 0 [].
Definition query_team (kind : TargetKind.t) (team : Z) : TargetQuery := mkQuery kind team (-1) 0 [].
Definition query_slot (slot : Z) : TargetQuery := mkQuery TargetKind.Slot Team_None slot 0 [].
Definition query_steam_id (id : Z) : TargetQuery := mkQuery TargetKind.SteamId Team_None (-1) id [].
Definition query_name (needle : text) : TargetQuery := mkQuery TargetKind.Name Team_None (-1) 0 needle.

(** The selectors: the [if] chain on the lowercased token. *)
Definition target_selector (lower : text) : option TargetQuery :=
  let eq s := text_eqb lower s in
  if eq $"@all" || eq $"@*" then Some (query_of TargetKind.All)
  else if eq $"@me" then Some (query_of TargetKind.Me)
  else if eq $"@!me" then Some (query_of TargetKind.NotMe)
  else if eq $"@t" then Some (query_team TargetKind.Team Team_T)
  else if eq $"@ct" then Some (query_team TargetKind.Team Team_CT)
  else if eq $"@spec" then Some (query_team TargetKind.Team Team_Spectator)
  else if eq $"@dead" then Some (query_of TargetKind.Dead)
  else if eq $"@alive" then Some (query_of TargetKind.Alive)
  else if eq $"@bot" || eq $"@bots" then Some (query_of TargetKind.Bots)
  else if eq $"@human" || eq $"@humans" then Some (query_of TargetKind.Humans)
  else if eq $"@random" then Some (query_of TargetKind.Random)
  else if eq $"@randomt" then Some (query_team TargetKind.RandomTeam Team_T)
  else if eq $"@randomct" then Some (query_team TargetKind.RandomTeam Team_CT)
  else None.

Definition target_slot (raw : text) : option Z :=
  match raw with
  | c :: _ :: _ =>
      if Ascii.eqb c "#" then
        match ParseInt64 (drop 1 raw) with
        | Some slot => if in_i32 slot && (0 <=? slot) then Some slot else None
        | None => None
        end
      else None
  | _ => None
  end.

Definition target_steam_id (raw : text) : option Z :=
  match (if (15 <=? length raw)%nat
         then match ParseInt64 raw with Some id => if Identity.IsValid id then Some id else None | None => None end
         else None) with
  | Some id => Some id
  | None =>
      match (if StartsWith raw $"[U:1:" then Identity.FromSteamId3 raw else None) with
      | Some id => Some id
      | None => if StartsWith raw $"STEAM_" then Identity.FromSteamId raw else None
      end
  end.

Definition ParseTargetToken (token : text) : TargetQuery :=
  let lower := ToLower token in
  match target_selector lower with
  | Some q => q
  | None =>
      match target_slot token with
      | Some slot => query_slot slot
      | None => match target_steam_id token with
                | Some id => query_steam_id id
                | None => query_name lower
                end
      end
  end.

Record PlayerView := mkView {
  ViewSlot : Z; ViewSteamId : Z; ViewName : text; ViewTeam : Z; Alive : bool; Bot : bool; Targetable : bool }.

Definition is_nil {A} (l : list A) : bool := match l with [] => true | _ => false end.

(** The three tiers a name is looked up in. *)
Definition name_exact (needle : text) (p : PlayerView) : bool := text_eqb (ToLower (ViewName p)) needle.
Definition name_prefix (needle : text) (p : PlayerView) : bool := StartsWith (ToLower (ViewName p)) needle.
Definition name_contains (needle : text) (p : PlayerView) : bool :=
  match find needle (ToLower (ViewName p)) with Some _ => true | None => false end.

(** The [switch] on the kind. *)
Definition candidates_of (players : list PlayerView) (query : TargetQuery) (callerSlot : Z) : list PlayerView :=
  let collect pred := List.filter pred players in
  match QueryKind query with
  | TargetKind.All | TargetKind.Random => collect (fun _ => true)
  | TargetKind.Me => collect (fun p => ViewSlot p =? callerSlot)
  | TargetKind.NotMe => collect (fun p => negb (ViewSlot p =? callerSlot))
  | TargetKind.Team | TargetKind.RandomTeam => collect (fun p => ViewTeam p =? QueryTeam query)
  | TargetKind.Dead => collect (fun p => negb (Alive p))
  | TargetKind.Alive => collect Alive
  | TargetKind.Bots => collect Bot
  | TargetKind.Humans => collect (fun p => negb (Bot p))
  | TargetKind.Slot => collect (fun p => ViewSlot p =? QuerySlot query)
  | TargetKind.SteamId => collect (fun p => ViewSteamId p =? QuerySteamId query)
  | TargetKind.Name =>
      let exact := collect (name_exact (Needle query)) in
      if negb (is_nil exact) then exact
      else let prefix := collect (name_prefix (Needle query)) in
           if negb (is_nil prefix) then prefix
           else collect (name_contains (Needle query))
  end.

Definition is_random (kind : TargetKind.t) : bool :=
  match kind with TargetKind.Random | TargetKind.RandomTeam => true | _ => false end.

Definition is_name (kind : TargetKind.t) : bool :=
  match kind with TargetKind.Name => true | _ => false end.

Definition fail {A} (error : TargetError.t) (count : Z) : expected TargetFailure A := Err (mkFailure error count).

(** Erase what [keep] refuses; an empty rest is the failure. *)
Definition erase_or_fail (active : bool) (keep : PlayerView -> bool) (error : TargetError.t) (candidates : list PlayerView)
    : expected TargetFailure (list PlayerView) :=
  if active then
    let rest := List.filter keep candidates in
    if is_nil rest then fail error 0 else Ok rest
  else Ok candidates.

(** The three [drop]s: bots and the dead where the command refuses them, then whom the policy protects. *)
Definition apply_rules (rules : TargetRules) (candidates : list PlayerView) : expected TargetFailure (list PlayerView) :=
  let! candidates := erase_or_fail (negb (AllowBots rules)) (fun p => negb (Bot p)) TargetError.BotNotAllowed candidates in
  let! candidates := erase_or_fail (negb (AllowDead rules)) Alive TargetError.DeadNotAllowed candidates in
  erase_or_fail true Targetable TargetError.Immune candidates.

Definition pick_random (query : TargetQuery) (randomIndex : option (nat -> nat)) (candidates : list PlayerView) : list PlayerView :=
  if is_random (QueryKind query) then
    let n := length candidates in
    let pick := match randomIndex with Some f => (f n mod n)%nat | None => O end in
    match candidates !! pick with Some p => [p] | None => [] end
  else candidates.

Definition FilterPlayers (players : list PlayerView) (query : TargetQuery) (rules : TargetRules) (callerSlot : Z)
    (randomIndex : option (nat -> nat)) : expected TargetFailure (list Z) :=
  let candidates := candidates_of players query callerSlot in
  if is_nil candidates then fail TargetError.NoMatch 0
  else
    let! candidates := apply_rules rules candidates in
    let candidates := pick_random query randomIndex candidates in
    if (1 <? length candidates)%nat && negb (AllowMultiple rules)
    then fail (if is_name (QueryKind query) then TargetError.Ambiguous else TargetError.MultiNotAllowed)
              (Z.of_nat (length candidates))
    else Ok (map ViewSlot candidates).

(** ** Resolving against the roster

    [team], [alive] and [live] are what the engine answers for a slot: the pawn's team and life and the
    controller's name. *)

Section Resolve.
Context (policy : PolicyRules) (team : Z -> Z) (alive : Z -> bool) (live : Z -> option text).
Context (randomIndex : nat -> nat).

Definition is_authorized (result : Result Authorized * bool) : bool := has_value result.1.

(** One [PlayerView]; asking with an empty permission logs nothing, so the flag is not threaded. *)
Definition view_of (st : Roster) (caller : option Player) (p : ptr) : outcome PlayerView :=
  match heap st !! p with
  | None => Undefined
  | Some player =>
      run! targetable :=
        match caller with
        | None => Returns true
        | Some c => run! r := Authorize policy st false (Ref c) (Some (Ref player)) [] in Returns (is_authorized r)
        end in
      Returns (mkView (Slot player) (SteamId player) (PlayerName (live (Slot player)) player)
                 (team (Slot player)) (alive (Slot player)) (IsBot player) targetable)
  end.

Fixpoint views_of (st : Roster) (caller : option Player) (ps : list ptr) : outcome (list PlayerView) :=
  match ps with
  | [] => Returns []
  | p :: rest =>
      run! v := view_of st caller p in
      run! vs := views_of st caller rest in
      Returns (v :: vs)
  end.

Definition Resolve (st : Roster) (token : text) (caller : option Player) (rules : TargetRules)
    : outcome (expected TargetFailure (list ptr)) :=
  match token with
  | [] => Returns (fail TargetError.NoMatch 0)
  | _ =>
      run! candidates := views_of st caller (ordered st) in
      let callerSlot := match caller with Some c => Slot c | None => -1 end in
      Returns (let! slots := FilterPlayers candidates (ParseTargetToken token) rules callerSlot (Some randomIndex) in
               Ok (omap (Get st) slots))
  end.
End Resolve.

(** ** What a query selects *)

(** How well a name fits: exactly, by its beginning, or somewhere. *)
Definition name_rank (needle : text) (p : PlayerView) : option nat :=
  if name_exact needle p then Some 0%nat
  else if name_prefix needle p then Some 1%nat
  else if name_contains needle p then Some 2%nat
  else None.

Definition selects (players : list PlayerView) (query : TargetQuery) (callerSlot : Z) (p : PlayerView) : Prop :=
  match QueryKind query with
  | TargetKind.All | TargetKind.Random => True
  | TargetKind.Me => ViewSlot p = callerSlot
  | TargetKind.NotMe => ViewSlot p <> callerSlot
  | TargetKind.Team | TargetKind.RandomTeam => ViewTeam p = QueryTeam query
  | TargetKind.Dead => Alive p = false
  | TargetKind.Alive => Alive p = true
  | TargetKind.Bots => Bot p = true
  | TargetKind.Humans => Bot p = false
  | TargetKind.Slot => ViewSlot p = QuerySlot query
  | TargetKind.SteamId => ViewSteamId p = QuerySteamId query
  | TargetKind.Name => exists k, name_rank (Needle query) p = Some k /\
      forall p' k', In p' players -> name_rank (Needle query) p' = Some k' -> (k <= k')%nat
  end.

Definition allowed (rules : TargetRules) (p : PlayerView) : bool :=
  (AllowBots rules || negb (Bot p)) && (AllowDead rules || Alive p) && Targetable p.

Definition eligible players query rules callerSlot : list PlayerView :=
  List.filter (allowed rules) (candidates_of players query callerSlot).

Lemma name_tiers needle p :
  (name_exact needle p = true -> name_prefix needle p = true) /\
  (name_prefix needle p = true -> name_contains needle p = true).
Proof.
  unfold name_exact, name_prefix, name_contains, StartsWith. split.
  - intros H. apply text_eqb_true in H as ->. rewrite <- (app_nil_r needle) at 2. apply is_prefix_app.
  - intros H. by rewrite (find_prefix _ _ H).
Qed.

Lemma is_nil_filter {A} (f : A -> bool) l : is_nil (List.filter f l) = true <-> forall x, In x l -> f x = false.
Proof.
  split.
  - intros H x Hx. destruct (f x) eqn:E; [|done]. assert (In x (List.filter f l)) as Hin by by apply filter_In.
    by destruct (List.filter f l).
  - intros H. destruct (List.filter f l) as [|x r] eqn:E; [done|].
    assert (In x (List.filter f l)) as Hin by (rewrite E; by left). apply filter_In in Hin as [Hin Hx].
    by rewrite H in Hx.
Qed.

Lemma candidates_name players query callerSlot p :
  QueryKind query = TargetKind.Name ->
  In p (candidates_of players query callerSlot) <-> In p players /\ selects players query callerSlot p.
Proof.
  intros Hk. unfold candidates_of, selects. rewrite Hk. set (n := Needle query).
  assert (forall q, In q players -> name_rank n q <> None <-> name_contains n q = true) as Hnone.
  { intros q _. unfold name_rank. destruct (name_tiers n q) as [H1 H2].
    destruct (name_exact n q); [by rewrite H2 by auto|]. destruct (name_prefix n q); [by rewrite H2|].
    by destruct (name_contains n q). }
  destruct (is_nil (List.filter (name_exact n) players)) eqn:E0; cbn [negb].
  2:{ rewrite filter_In. split; intros [Hin Hp]; (split; [done|]).
      - exists 0%nat. unfold name_rank. rewrite Hp. split; [done|lia].
      - destruct Hp as (k & Hk' & Hmin).
        destruct (List.filter (name_exact n) players) as [|x r] eqn:Ex; [done|].
        assert (In x players /\ name_exact n x = true) as [Hx Hx'] by (apply filter_In; rewrite Ex; by left).
        specialize (Hmin x 0%nat Hx). unfold name_rank in Hmin at 1. rewrite Hx' in Hmin.
        specialize (Hmin eq_refl). unfold name_rank in Hk'. destruct (name_exact n p); [done|].
        repeat case_match; simplify_eq; lia. }
  pose proof (proj1 (is_nil_filter _ _) E0) as Hno0. clear E0.
  destruct (is_nil (List.filter (name_prefix n) players)) eqn:E1; cbn [negb].
  2:{ rewrite filter_In. split; intros [Hin Hp]; (split; [done|]).
      - exists 1%nat. unfold name_rank at 1. rewrite Hno0, Hp by done. split; [done|].
        intros p' k' Hp' Hk'. unfold name_rank in Hk'. rewrite Hno0 in Hk' by done. repeat case_match; simplify_eq; lia.
      - destruct Hp as (k & Hk' & Hmin).
        destruct (List.filter (name_prefix n) players) as [|x r] eqn:Ex; [done|].
        assert (In x players /\ name_prefix n x = true) as [Hx Hx'] by (apply filter_In; rewrite Ex; by left).
        specialize (Hmin x 1%nat Hx). unfold name_rank in Hmin at 1. rewrite Hno0, Hx' in Hmin by done.
        specialize (Hmin eq_refl). unfold name_rank in Hk'. rewrite Hno0 in Hk' by done.
        repeat case_match; simplify_eq; done || lia. }
  pose proof (proj1 (is_nil_filter _ _) E1) as Hno1. clear E1.
  rewrite filter_In. split; intros [Hin Hp]; (split; [done|]).
  - exists 2%nat. unfold name_rank at 1. rewrite Hno0, Hno1, Hp by done. split; [done|].
    intros p' k' Hp' Hk'. unfold name_rank in Hk'. rewrite Hno0, Hno1 in Hk' by done. case_match; simplify_eq; lia.
  - destruct Hp as (k & Hk' & _). apply Hnone; [done|congruence].
Qed.

Lemma candidates_spec players query callerSlot p :
  In p (candidates_of players query callerSlot) <-> In p players /\ selects players query callerSlot p.
Proof.
  destruct (QueryKind query) eqn:Hk; try (by apply candidates_name);
    unfold candidates_of, selects; rewrite Hk, filter_In; (split; intros [Hin Hp]; split; try done); lia || by destruct (Alive p), (Bot p).
Qed.

Lemma eligible_spec players query rules callerSlot p :
  In p (eligible players query rules callerSlot) <->
  In p players /\ selects players query callerSlot p /\ allowed rules p = true.
Proof. unfold eligible. rewrite filter_In, candidates_spec. tauto. Qed.

Lemma erase_or_fail_spec active keep error candidates :
  match erase_or_fail active keep error candidates with
  | Ok rest => rest = List.filter (fun p => negb active || keep p) candidates /\ (candidates <> [] -> rest <> [])
  | Err f => f = mkFailure error 0 /\ active = true /\ forall p, In p candidates -> keep p = false
  end.
Proof.
  unfold erase_or_fail, fail. destruct active; cbn.
  - destruct (is_nil (List.filter keep candidates)) eqn:E.
    + split_and!; [done|done|]. by apply is_nil_filter.
    + split; [done|]. intros _ H. by rewrite H in E.
  - split; [|done]. symmetry. apply forallb_filter_id. by apply forallb_forall.
Qed.

(** Why a resolution failed, read off the players. *)
Definition failure_means players query rules callerSlot (f : TargetFailure) : Prop :=
  let selected p := In p players /\ selects players query callerSlot p in
  match FailureError f with
  | TargetError.NoMatch => forall p, ~ selected p
  | TargetError.BotNotAllowed => (exists p, selected p) /\ AllowBots rules = false /\ forall p, selected p -> Bot p = true
  | TargetError.DeadNotAllowed => AllowDead rules = false /\
      (exists p, selected p /\ AllowBots rules || negb (Bot p) = true) /\
      forall p, selected p -> AllowBots rules || negb (Bot p) = true -> Alive p = false
  | TargetError.Immune =>
      (exists p, selected p /\ (AllowBots rules || negb (Bot p)) && (AllowDead rules || Alive p) = true) /\
      forall p, selected p -> (AllowBots rules || negb (Bot p)) && (AllowDead rules || Alive p) = true -> Targetable p = false
  | TargetError.Ambiguous | TargetError.MultiNotAllowed =>
      AllowMultiple rules = false /\ is_random (QueryKind query) = false /\
      (FailureError f = TargetError.Ambiguous <-> QueryKind query = TargetKind.Name) /\
      FailureCount f = Z.of_nat (length (eligible players query rules callerSlot)) /\ 1 < FailureCount f
  end.

Definition success_means players query rules callerSlot (slots : list Z) : Prop :=
  (if is_random (QueryKind query)
   then exists p, In p (eligible players query rules callerSlot) /\ slots = [ViewSlot p]
   else slots = map ViewSlot (eligible players query rules callerSlot)) /\
  slots <> [] /\ (AllowMultiple rules = false -> length slots = 1%nat).

Lemma nonempty_in {A} (l : list A) : l <> [] -> exists x, In x l.
Proof. destruct l as [|x l]; [done|]. intros _. exists x. by left. Qed.

Lemma pick_random_spec query randomIndex l :
  l <> [] ->
  if is_random (QueryKind query) then exists p, In p l /\ pick_random query randomIndex l = [p]
  else pick_random query randomIndex l = l.
Proof.
  intros Hl. unfold pick_random. destruct (is_random _); [|done].
  set (k := match randomIndex with Some f => _ | None => _ end).
  assert (k < length l)%nat as Hk.
  { unfold k. destruct l as [|x l]; [done|]. destruct randomIndex; [apply Nat.mod_upper_bound; cbn; lia|cbn; lia]. }
  destruct (l !! k) as [p|] eqn:E; [|apply lookup_ge_None in E; lia].
  exists p. split; [|done]. by apply list_elem_of_In, (list_elem_of_lookup_2 l k).
Qed.

Lemma apply_rules_spec players query rules callerSlot :
  candidates_of players query callerSlot <> [] ->
  match apply_rules rules (candidates_of players query callerSlot) with
  | Ok rest => rest = eligible players query rules callerSlot /\ rest <> []
  | Err f => failure_means players query rules callerSlot f
  end.
Proof.
  set (c0 := candidates_of players query callerSlot). intros Hne0. unfold apply_rules.
  assert (forall p, In p c0 <-> In p players /\ selects players query callerSlot p) as Hc0 by apply candidates_spec.
  pose proof (erase_or_fail_spec (negb (AllowBots rules)) (fun p => negb (Bot p)) TargetError.BotNotAllowed c0) as H1.
  destruct (erase_or_fail (negb (AllowBots rules)) _ _ c0) as [c1|f1]; cbn [expected_bind].
  2:{ destruct H1 as (-> & Ha & Hb). cbn. apply negb_true_iff in Ha. split_and!; [|done|].
      - destruct (nonempty_in c0 Hne0) as [x Hx]. exists x. by apply Hc0.
      - intros p Hp. apply Hc0, Hb in Hp. by apply negb_false_iff. }
  rewrite negb_involutive in H1. destruct H1 as [E1 Hne1]. specialize (Hne1 Hne0).
  pose proof (erase_or_fail_spec (negb (AllowDead rules)) Alive TargetError.DeadNotAllowed c1) as H2.
  destruct (erase_or_fail (negb (AllowDead rules)) _ _ c1) as [c2|f2]; cbn [expected_bind].
  2:{ destruct H2 as (-> & Ha & Hb). cbn. apply negb_true_iff in Ha. split_and!; [done| |].
      - destruct (nonempty_in c1 Hne1) as [x Hx]. exists x. rewrite E1 in Hx. apply filter_In in Hx as [Hx Hx']. by rewrite Hc0 in Hx.
      - intros p Hp Hbot. apply Hb. rewrite E1. apply filter_In. by rewrite Hc0. }
  rewrite negb_involutive in H2. destruct H2 as [E2 Hne2]. specialize (Hne2 Hne1).
  rewrite E1, filter_filter in E2.
  pose proof (erase_or_fail_spec true Targetable TargetError.Immune c2) as H3.
  destruct (erase_or_fail true _ _ c2) as [c3|f3]; cbn [expected_bind].
  - destruct H3 as [E3 Hne3]. split; [|by apply Hne3]. by rewrite E3, E2, filter_filter.
  - destruct H3 as (-> & _ & Hb). cbn. split.
    + destruct (nonempty_in c2 Hne2) as [x Hx]. exists x. rewrite E2 in Hx. apply filter_In in Hx as [Hx Hx']. by rewrite Hc0 in Hx.
    + intros p Hp Hrest. apply Hb. rewrite E2. apply filter_In. by rewrite Hc0.
Qed.

Lemma pick_success players query rules callerSlot randomIndex :
  let rest := eligible players query rules callerSlot in
  let picked := pick_random query randomIndex rest in
  rest <> [] ->
  if (1 <? length picked)%nat && negb (AllowMultiple rules)
  then failure_means players query rules callerSlot
         (mkFailure (if is_name (QueryKind query) then TargetError.Ambiguous else TargetError.MultiNotAllowed)
                    (Z.of_nat (length picked)))
  else success_means players query rules callerSlot (map ViewSlot picked).
Proof.
  cbn zeta. set (rest := eligible players query rules callerSlot). intros Hne.
  pose proof (pick_random_spec query randomIndex rest Hne) as Hpick.
  set (picked := pick_random query randomIndex rest) in *. unfold success_means, failure_means. fold rest.
  destruct (is_random (QueryKind query)) eqn:Er.
  - destruct Hpick as (p & Hp & ->). cbn. split_and!; [by exists p|done|done].
  - rewrite Hpick. destruct (Nat.ltb_spec 1 (length rest)) as [H|H]; cbn [andb].
    + destruct (AllowMultiple rules) eqn:Em; cbn [negb].
      * split_and!; [done|by destruct rest|done].
      * destruct (QueryKind query); cbn in *; split_and!; try done; lia.
    + split_and!; [done|by destruct rest|]. intros _. rewrite length_map. destruct rest; [done|cbn in *; lia].
Qed.

(** A resolution returns the slots of exactly the players the query selects and the rules and the
    policy allow - one of them for a random query, at most one when the command takes a single target - and
    otherwise names the first rule that left nobody, with the number of matches when they were too many.
    A name selects the players it fits best: exactly, else as a prefix, else anywhere. *)
Theorem FilterPlayers_spec players query rules callerSlot randomIndex :
  (forall p, In p (eligible players query rules callerSlot) <->
     In p players /\ selects players query callerSlot p /\ allowed rules p = true) /\
  match FilterPlayers players query rules callerSlot randomIndex with
  | Ok slots => success_means players query rules callerSlot slots
  | Err f => failure_means players query rules callerSlot f
  end.
Proof.
  split; [intros p; apply eligible_spec|]. unfold FilterPlayers.
  destruct (is_nil (candidates_of players query callerSlot)) eqn:E0.
  { intros p Hp. apply candidates_spec in Hp. by destruct (candidates_of _ _ _). }
  pose proof (apply_rules_spec players query rules callerSlot ltac:(by destruct (candidates_of _ _ _))) as H.
  destruct (apply_rules _ _) as [rest|f]; [|done]. destruct H as [-> Hne]. cbn [expected_bind].
  pose proof (pick_success players query rules callerSlot randomIndex Hne) as Hp. by destruct (_ && _).
Qed.

(** ** Resolution against the roster *)

Section ResolveFacts.
Context (policy : PolicyRules) (team : Z -> Z) (alive : Z -> bool) (live : Z -> option text).
Context (randomIndex : nat -> nat).

(** The policy lets [caller] act on [target]; the server console has no caller. *)
Definition actable (st : Roster) (caller : option Player) (target : Player) : Prop :=
  forall c, caller = Some c -> exists a w, Authorize policy st false (Ref c) (Some (Ref target)) [] = Returns (Ok a, w).

Lemma Authorize_returns st warned caller target permission :
  roster_ok st -> exists r, Authorize policy st warned caller (Some target) permission = Returns r.
Proof.
  intros [Hm _]. unfold Authorize. destruct (GetPlayer_spec st caller Hm) as (fc & -> & _). cbn.
  destruct fc; [|eauto]. destruct (GetPlayer_spec st target Hm) as (ft & -> & _). cbn. destruct ft; eauto.
Qed.

Lemma view_of_spec st caller p pl :
  roster_ok st -> heap st !! p = Some pl ->
  exists v, view_of policy team alive live st caller p = Returns v /\ ViewSlot v = Slot pl /\
    (Targetable v = true -> actable st caller pl).
Proof.
  intros Hok Hp. unfold view_of. rewrite Hp. destruct caller as [c|].
  - destruct (Authorize_returns st false (Ref c) (Ref pl) [] Hok) as [[r w] E]. rewrite E. cbn.
    eexists. split_and!; [done|done|]. cbn. intros Hr c' [= <-]. destruct r as [a|e]; [|done].
    rewrite E. eauto.
  - eexists. split_and!; [done|done|]. intros _ c' ?. done.
Qed.

Lemma views_of_spec st caller ps :
  roster_ok st -> (forall p, In p ps -> is_Some (heap st !! p)) ->
  exists vs, views_of policy team alive live st caller ps = Returns vs /\
    forall v, In v vs -> exists p pl, heap st !! p = Some pl /\ ViewSlot v = Slot pl /\ (Targetable v = true -> actable st caller pl).
Proof.
  intros Hok. induction ps as [|p ps IH]; intros Hps; [by exists []|].
  destruct (Hps p) as [pl Hp]; [by left|]. destruct (view_of_spec st caller p pl Hok Hp) as (v & Ev & Hv).
  destruct IH as (vs & Evs & Hvs); [intros q Hq; apply Hps; by right|].
  exists (v :: vs). cbn. rewrite Ev. cbn. rewrite Evs. split; [done|].
  intros x [<-|Hx]; [by exists p, pl|auto].
Qed.
End ResolveFacts.

Lemma Resolve_ok policy team alive live randomIndex st token caller rules :
  roster_ok st ->
  exists result, Resolve policy team alive live randomIndex st token caller rules = Returns result /\
    forall ps, result = Ok ps ->
      ps <> [] /\ (AllowMultiple rules = false -> length ps = 1%nat) /\
      forall p, In p ps -> exists pl, heap st !! p = Some pl /\ actable policy st caller pl.
Proof.
  intros Hok. pose proof Hok as [Hm Hv]. unfold Resolve. destruct token as [|ch rest]; [by eexists|].
  destruct (views_of_spec policy team alive live st caller (ordered st) Hok) as (vs & -> & Hvs).
  { intros p. apply ok_members, Hv. }
  cbn [outcome_bind]. set (callerSlot := match caller with Some c => Slot c | None => -1 end).
  set (query := ParseTargetToken (ch :: rest)). eexists. split; [done|]. intros ps Hps.
  destruct (FilterPlayers_spec vs query rules callerSlot (Some randomIndex)) as [He Hf].
  destruct (FilterPlayers vs query rules callerSlot (Some randomIndex)) as [slots|f]; [|done].
  injection Hps as <-. destruct Hf as (Hpick & Hne & Hone).
  assert (forall s, In s slots -> exists p pl, bySlot st !! s = Some p /\ heap st !! p = Some pl /\ actable policy st caller pl) as Hin.
  { intros s Hs. assert (exists v, In v (eligible vs query rules callerSlot) /\ ViewSlot v = s) as (v & Hve & <-).
    { destruct (is_random (QueryKind query)).
      - destruct Hpick as (v & Hve & ->). destruct Hs as [<-|[]]. eauto.
      - rewrite Hpick in Hs. apply in_map_iff in Hs as (v & <- & Hve). eauto. }
    apply He in Hve as (Hv1 & _ & Hall). destruct (Hvs v Hv1) as (p & pl & Hp & -> & Ht).
    exists p, pl. split_and!; [by apply ok_heap|done|]. apply Ht. unfold allowed in Hall. by bools. }
  assert (length (omap (Get st) slots) = length slots /\
          forall p, In p (omap (Get st) slots) -> exists pl, heap st !! p = Some pl /\ actable policy st caller pl) as [Hlen Hall].
  { clear - Hin. induction slots as [|s slots IH]; [done|].
    destruct (Hin s) as (p & pl & Hs & Hp & Ha); [by left|].
    destruct IH as [IH1 IH2]; [intros x Hx; apply Hin; by right|].
    assert (Get st s = Some p) as Hg by exact Hs.
    cbn. rewrite Hg. cbn. rewrite IH1. split; [done|].
    intros q [<-|Hq]; [by exists pl|auto]. }
  split_and!; [|by rewrite Hlen|done].
  intros E. rewrite E in Hlen. by destruct slots.
Qed.

(** Resolving a token against the roster never reads a player that is gone; what it returns are connected
    players, at least one and exactly one for a single-target command, none of them lost on the way from
    slot to player, and the policy lets the caller act on each. *)
Theorem Resolve_sound policy team alive live randomIndex st token caller rules :
  roster_ok st ->
  exists result, Resolve policy team alive live randomIndex st token caller rules = Returns result /\
    forall ps, result = Ok ps ->
      ps <> [] /\ (AllowMultiple rules = false -> length ps = 1%nat) /\
      forall p, In p ps -> exists pl, heap st !! p = Some pl /\ actable policy st caller pl.
Proof. apply Resolve_ok. Qed.

Lemma Resolve_sound_witness :
  let resolve := Resolve sample_policy (fun _ => Team_T) (fun _ => true) (fun _ => None) (fun _ => O) sample_roster in
  resolve $"b" (Some (mkPlayer 3 100 $"a" [])) TargetRules_default = Returns (Ok [1]) /\
  actable sample_policy sample_roster (Some (mkPlayer 3 100 $"a" [])) (mkPlayer 1 0 $"b" []).
Proof.
  cbn zeta.
  destruct (Resolve_sound sample_policy (fun _ => Team_T) (fun _ => true) (fun _ => None) (fun _ => O) sample_roster
              $"b" (Some (mkPlayer 3 100 $"a" [])) TargetRules_default sample_roster_ok) as (r & E & H).
  assert (r = Ok [1]) as ->.
  { vm_compute in E. injection E as <-. reflexivity. }
  split; [exact E|]. destruct (H [1] eq_refl) as (_ & _ & Hall).
  destruct (Hall 1) as (pl & Hp & Ha); [left; reflexivity|]. vm_compute in Hp. injection Hp as <-. exact Ha.
Defined.
