(* ===== verification/Translations.v ===== *)
(** * Translations: [src/Core/Text/Translations.cpp] and [src/Host/Plugins/LanguageTable.hpp]

    The directory listing and the JSON parser are outside: [Load] is given, per file, its language code and
    what parsing its text gave. *)

From S2P Require Import Prelude Text.
From S2P Require Identity.

(** A parsed JSON document, objects in the iteration order of the parser's map. *)
Inductive json :=
| JNull
| JBool (b : bool)
| JNumber (z : Z)
| JString (s : text)
| JArray (items : list json)
| JObject (fields : list (text * json)).

Abbreviation Phrases := (gmap text text).

Fixpoint FlattenInto (node : json) (prefix : text) (out : Phrases) : Phrases :=
  match node with
  | JObject fields =>
      (fix each (fields : list (text * json)) (out : Phrases) : Phrases :=
        match fields with
        | [] => out
        | (key, value) :: rest =>
            let full := match prefix with [] => key | _ => prefix ++ $"." ++ key end in
            each rest (match value with
                       | JObject _ => FlattenInto value full out
                       | JString s => <[full := s]> out
                       | _ => out
                       end)
        end) fields out
  | _ => out
  end.

Definition KitDefaults : Phrases := list_to_map [
  ($"cmd.noPermission", $"You do not have permission to use this command.");
  ($"cmd.tooManyArgs", $"Too many arguments. Usage: {usage}");
  ($"cmd.usage", $"Usage: {usage}");
  ($"cmd.usage.target", $"target");
  ($"cmd.usage.targets", $"targets");
  ($"cmd.usage.duration", $"duration");
  ($"cmd.usage.steamId", $"steamId");
  ($"cmd.usage.playerOrSteamId", $"target|steamId");
  ($"cmd.usage.int", $"number");
  ($"cmd.usage.u64", $"id");
  ($"cmd.usage.word", $"value");
  ($"cmd.usage.rest", $"reason");
  ($"cmd.badDuration", $"Invalid duration. Use minutes (e.g. 30), 30s/5m/2h/7d, or 'perm'.");
  ($"cmd.badSteamId", $"'{token}' is not a valid SteamID64.");
  ($"cmd.badNumber", $"'{token}' is not a valid number.");
  ($"target.noMatch", $"No player matches '{token}'.");
  ($"target.immune", $"'{token}' is immune to that.");
  ($"target.ambiguous", $"'{token}' matches {count} players - be more specific.");
  ($"target.dead", $"'{token}' is not alive.");
  ($"target.bot", $"'{token}' is a bot.");
  ($"menu.stepFailed", $"That menu could not be opened.");
  ($"menu.on", $"ON");
  ($"menu.off", $"OFF");
  ($"menu.confirm", $"Confirm");
  ($"menu.cancel", $"Cancel");
  ($"language.en", $"English");
  ($"language.ru", $"Russian")].

(** ** [LanguageTable]: each slot's pick, shared by the plugins *)

Definition LanguageTable : Type := Identity.PerSlot text.

Definition LanguageTable_new : LanguageTable := Identity.PerSlot_new [].

Definition Language (languages : LanguageTable) (slot : Z) : text :=
  default [] (Identity.PerSlot_get languages slot).

Definition SetLanguage (languages : LanguageTable) (slot : Z) (lang : text) : LanguageTable :=
  if Identity.IsValidSlot slot then Identity.PerSlot_set languages slot lang else languages.

Definition ResetLanguage (languages : LanguageTable) (slot : Z) : LanguageTable :=
  Identity.PerSlot_Reset [] languages slot.

(** ** [Translations] *)

Record Translations := mkTranslations { phrases : gmap text Phrases; activeLang : text }.

Definition Translations_new : Translations := mkTranslations ∅ $"en".

(** The loop over the [.json] files: a file that cannot be read or parsed ([None]) is skipped. *)
Fixpoint load_files (files : list (text * option json)) (tables : gmap text Phrases) (loaded : nat)
    : gmap text Phrases * nat :=
  match files with
  | [] => (tables, loaded)
  | (code, doc) :: rest =>
      match doc with
      | None => load_files rest tables loaded
      | Some data => load_files rest (<[code := FlattenInto data [] (default ∅ (tables !! code))]> tables) (S loaded)
      end
  end.

(** [files] is [None] when the path is not a directory. *)
Definition Translations_Load (t : Translations) (files : option (list (text * option json))) : bool * Translations :=
  match files with
  | None => (false, mkTranslations ∅ (activeLang t))
  | Some fs =>
      let '(tables, loaded) := load_files fs ∅ O in
      ((0 <? loaded)%nat, mkTranslations tables (activeLang t))
  end.

Definition Translations_SetLanguage (t : Translations) (lang : text) : Translations := mkTranslations (phrases t) lang.

Definition GetAvailableLanguages (t : Translations) : list text := map fst (map_to_list (phrases t)).

Definition LookupIn (t : Translations) (lang key : text) : option text :=
  match phrases t !! lang with
  | Some table => table !! key
  | None => None
  end.

Definition first_some {A B} (f : A -> option B) : list A -> option B :=
  fix go l := match l with
              | [] => None
              | a :: rest => match f a with Some b => Some b | None => go rest end
              end.

Definition Translations_Resolve (languages : LanguageTable) (t : Translations) (key : text) (slot : Z) : option text :=
  let picked := Language languages slot in
  let lang := match picked with [] => activeLang t | _ => picked end in
  match first_some (fun candidate => LookupIn t candidate key) [lang; activeLang t; $"en"] with
  | Some v => Some v
  | None => KitDefaults !! key
  end.

Definition Translate (languages : LanguageTable) (t : Translations) (key : text) (slot : Z) : text :=
  default key (Translations_Resolve languages t key slot).

Definition TranslateOr (languages : LanguageTable) (t : Translations) (key : text) (slot : Z) (fallback : text) : text :=
  default fallback (Translations_Resolve languages t key slot).

Definition TranslateWith (languages : LanguageTable) (t : Translations) (key : text) (slot : Z) (tokens : list (text * text)) : text :=
  SubstituteTokens (Translate languages t key slot) tokens.

(** ** Facts *)

(** A key the framework has a default for is always translated: nobody sees the bare key. *)
Lemma default_translated languages t key slot :
  is_Some (KitDefaults !! key) -> is_Some (Translations_Resolve languages t key slot).
Proof.
  intros Hd. unfold Translations_Resolve. destruct (first_some _ _); [eauto|done].
Qed.

(** The plugin's own tables win over the defaults, the slot's language over the active one. *)
Lemma picked_language_wins languages t key slot v :
  Language languages slot <> [] -> LookupIn t (Language languages slot) key = Some v ->
  Translate languages t key slot = v.
Proof.
  intros Hp Hv. unfold Translate, Translations_Resolve. destruct (Language languages slot) as [|c l]; [done|].
  cbn [first_some]. by rewrite Hv.
Qed.

(** A slot reset by a change of occupant falls back to the active language. *)
Lemma Language_reset languages slot slot' :
  Identity.PerSlot_wf languages -> Identity.IsValidSlot slot' = true ->
  Language (ResetLanguage languages slot) slot' = if slot =? slot' then [] else Language languages slot'.
Proof.
  intros Hw Hs. unfold Language, ResetLanguage. rewrite Identity.PerSlot_get_Reset by done. by case_match.
Qed.
