(* ===== verification/Services.v ===== *)
(** * What plugins share by name: [src/Host/Plugins/CommandNames.cpp] and [PublishedInterfaces.cpp]

    [CommandHost] is what a plugin's command router is promised by the host that arbitrates the names;
    [CommandNames] keeps the promise. *)

From S2P Require Import Prelude.

(** The opaque pointer the host identifies a plugin by; 0 is the null pointer, the host itself. *)
Abbreviation OwnerId := Z.
Definition host_owner : OwnerId := 0.

(** ** [CommandNames] *)

Record NameEntry := mkNameEntry { EntryName : text; EntryOwner : OwnerId; EntryOwnerName : text }.

Definition CommandNames : Type := list NameEntry.

Definition find_name (names : CommandNames) (name : text) : option NameEntry :=
  List.find (fun e => text_eqb (EntryName e) name) names.

Definition CommandNames_Register (names : CommandNames) (owner : OwnerId) (ownerName name : text) : bool * CommandNames :=
  match name with
  | [] => (false, names)
  | _ => match find_name names name with
         | Some found => (EntryOwner found =? owner, names)
         | None => (true, names ++ [mkNameEntry name owner ownerName])
         end
  end.

Definition CommandNames_Reserve (names : CommandNames) (name : text) : CommandNames :=
  match name, find_name names name with
  | _ :: _, None => names ++ [mkNameEntry name host_owner $"the host"]
  | _, _ => names
  end.

Definition CommandNames_OwnerOf (names : CommandNames) (name : text) : text :=
  match find_name names name with Some e => EntryOwnerName e | None => [] end.

Definition CommandNames_RemoveAll (names : CommandNames) (owner : OwnerId) : CommandNames :=
  List.filter (fun e => negb (EntryOwner e =? owner)) names.

(** ** What a router is promised *)

(** [H] is the host's state as one plugin reaches it. *)
Class CommandHost (H : Type) := {
  host_register : H -> text -> bool * H;
  host_registered : H -> text -> bool;
  host_owns : H -> text -> Prop;
  host_register_owns h name h' : host_register h name = (true, h') -> host_owns h' name;
  host_register_keeps h name b h' other : host_register h name = (b, h') -> host_owns h other -> host_owns h' other }.

(** One plugin's view of the names: [PluginContext::RegisterCommand] and [IsCommandRegistered]. *)
Record NamesView := mkNamesView { view_names : CommandNames; view_owner : OwnerId; view_owner_name : text }.

Definition RegisterCommand (v : NamesView) (name : text) : bool * NamesView :=
  let '(ok, names) := CommandNames_Register (view_names v) (view_owner v) (view_owner_name v) name in
  (ok, mkNamesView names (view_owner v) (view_owner_name v)).

Definition IsCommandRegistered (v : NamesView) (name : text) : bool :=
  match CommandNames_OwnerOf (view_names v) name with [] => false | _ => true end.

Definition owner_of (names : CommandNames) (name : text) : option OwnerId := EntryOwner <$> find_name names name.

(** One owner per name. *)
Definition names_ok (names : CommandNames) : Prop := NoDup (map EntryName names).

Lemma find_name_app names e name :
  find_name (names ++ [e]) name =
    match find_name names name with Some f => Some f | None => if text_eqb (EntryName e) name then Some e else None end.
Proof.
  unfold find_name. induction names as [|x names IH]; cbn; [done|]. by destruct (text_eqb (EntryName x) name).
Qed.

Lemma find_name_none names name : find_name names name = None <-> name ∉ map EntryName names.
Proof.
  unfold find_name. induction names as [|x names IH]; cbn.
  - split; [intros _; apply not_elem_of_nil|done].
  - rewrite not_elem_of_cons. destruct (text_eqb (EntryName x) name) eqn:E.
    + apply text_eqb_true in E. split; [done|]. by intros [? _].
    + apply text_eqb_false in E. rewrite IH. split; [intros H; by split|by intros [_ H]].
Qed.

Lemma find_name_some names name e : find_name names name = Some e -> In e names /\ EntryName e = name.
Proof. intros H. apply List.find_some in H as [Hin Hn]. split; [done|]. by apply text_eqb_true. Qed.

Lemma Register_spec names owner ownerName name ok names' :
  CommandNames_Register names owner ownerName name = (ok, names') ->
  (ok = true <-> name <> [] /\ (owner_of names name = None \/ owner_of names name = Some owner)) /\
  (ok = true -> owner_of names' name = Some owner) /\
  (forall other, owner_of names other <> None -> owner_of names' other = owner_of names other) /\
  (forall other, other <> name \/ ok = false -> owner_of names' other = owner_of names other).
Proof.
  unfold CommandNames_Register, owner_of. intros H. destruct name as [|c name].
  { injection H as <- <-. split_and!; [split; [done|by intros [? _]]|done|done|done]. }
  destruct (find_name names (c :: name)) as [e|] eqn:E; injection H as <- <-.
  - cbn. destruct (Z.eqb_spec (EntryOwner e) owner) as [He|Hne].
    + split_and!; [|by intros _; rewrite E; cbn; rewrite He|done|done]. split; [|done].
      intros _. split; [done|]. right. by rewrite He.
    + split_and!; [|done|done|done]. split; [done|]. intros [_ [?|?]]; [done|congruence].
  - split_and!.
    + split; [|done]. intros _. split; [done|by left].
    + intros _. rewrite find_name_app, E. cbn. by rewrite text_eqb_refl.
    + intros other Ho. rewrite find_name_app. by destruct (find_name names other).
    + intros other [Ho|?]; [|done]. rewrite find_name_app. destruct (find_name names other); [done|].
      cbn. rewrite (proj2 (text_eqb_false (c :: name) other)); [done|congruence].
Qed.

Definition view_owns (v : NamesView) (name : text) : Prop :=
  name <> [] /\ owner_of (view_names v) name = Some (view_owner v).

Lemma RegisterCommand_owns v name v' : RegisterCommand v name = (true, v') -> view_owns v' name.
Proof.
  intros H. unfold RegisterCommand in H. destruct (CommandNames_Register _ _ _ _) as [ok names] eqn:E.
  injection H as -> <-. apply Register_spec in E as (Hok & Hown & _). split; [by apply Hok|by apply Hown].
Qed.

Lemma RegisterCommand_keeps v name b v' other :
  RegisterCommand v name = (b, v') -> view_owns v other -> view_owns v' other.
Proof.
  intros H [Hne Ho]. unfold RegisterCommand in H. destruct (CommandNames_Register _ _ _ _) as [ok names] eqn:E.
  injection H as -> <-. apply Register_spec in E as (_ & _ & Hkeep & _). split; [done|].
  cbn [view_names view_owner]. rewrite Hkeep; [done|congruence].
Qed.

#[export] Instance NamesView_host : CommandHost NamesView := {
  host_register := RegisterCommand;
  host_registered := IsCommandRegistered;
  host_owns := view_owns;
  host_register_owns := RegisterCommand_owns;
  host_register_keeps := RegisterCommand_keeps }.

(** ** [PublishedInterfaces] *)

(** [Implementation] is a pointer; 0 is null. *)
Record Service := mkService { ServiceName : text; Implementation : Z; ServiceOwner : OwnerId }.

Definition PublishedInterfaces : Type := list Service.

Definition find_service (services : PublishedInterfaces) (name : text) : option Service :=
  List.find (fun s => text_eqb (ServiceName s) name) services.

(** Change the first service under [name]. *)
Fixpoint set_implementation (services : PublishedInterfaces) (name : text) (implementation : Z) : PublishedInterfaces :=
  match services with
  | [] => []
  | s :: rest => if text_eqb (ServiceName s) name
                 then mkService (ServiceName s) implementation (ServiceOwner s) :: rest
                 else s :: set_implementation rest name implementation
  end.

Fixpoint erase_service (services : PublishedInterfaces) (name : text) : PublishedInterfaces :=
  match services with
  | [] => []
  | s :: rest => if text_eqb (ServiceName s) name then rest else s :: erase_service rest name
  end.

Definition Services_Publish (services : PublishedInterfaces) (owner : OwnerId) (name : text) (implementation : Z)
    : PublishedInterfaces :=
  if match name with [] => true | _ => false end || (implementation =? 0) then services
  else match find_service services name with
       | None => services ++ [mkService name implementation owner]
       | Some held => if ServiceOwner held =? owner then set_implementation services name implementation else services
       end.

Definition Services_Unpublish (services : PublishedInterfaces) (owner : OwnerId) (name : text) : PublishedInterfaces :=
  match find_service services name with
  | None => services
  | Some held => if ServiceOwner held =? owner then erase_service services name else services
  end.

Definition Services_Find (services : PublishedInterfaces) (name : text) : Z :=
  match find_service services name with Some held => Implementation held | None => 0 end.

Definition Services_RemoveAll (services : PublishedInterfaces) (owner : OwnerId) : list text * PublishedInterfaces :=
  (map ServiceName (List.filter (fun s => ServiceOwner s =? owner) services),
   List.filter (fun s => negb (ServiceOwner s =? owner)) services).

(** One implementation per name, never null. *)
Definition services_ok (services : PublishedInterfaces) : Prop :=
  NoDup (map ServiceName services) /\ Forall (fun s => Implementation s <> 0) services.

Lemma find_service_none services name : find_service services name = None <-> name ∉ map ServiceName services.
Proof.
  unfold find_service. induction services as [|x services IH]; cbn.
  - split; [intros _; apply not_elem_of_nil|done].
  - rewrite not_elem_of_cons. destruct (text_eqb (ServiceName x) name) eqn:E.
    + apply text_eqb_true in E. split; [done|]. by intros [? _].
    + apply text_eqb_false in E. rewrite IH. split; [intros H; by split|by intros [_ H]].
Qed.

Lemma set_implementation_names services name implementation :
  map ServiceName (set_implementation services name implementation) = map ServiceName services.
Proof. induction services as [|s services IH]; cbn; [done|]. case_match; cbn; [done|by rewrite IH]. Qed.

Lemma find_set_implementation services name implementation other :
  find_service (set_implementation services name implementation) other =
    if text_eqb name other
    then (fun s => mkService (ServiceName s) implementation (ServiceOwner s)) <$> find_service services other
    else find_service services other.
Proof.
  unfold find_service. induction services as [|s services IH]; cbn; [by case_match|].
  destruct (text_eqb (ServiceName s) name) eqn:E1; cbn.
  - apply text_eqb_true in E1. rewrite E1. destruct (text_eqb name other) eqn:E2; [cbn; by rewrite E1|done].
  - destruct (text_eqb (ServiceName s) other) eqn:E2.
    + apply text_eqb_true in E2. apply text_eqb_false in E1. rewrite (proj2 (text_eqb_false name other)); [done|congruence].
    + exact IH.
Qed.

Lemma Publish_ok services owner name implementation :
  services_ok services -> services_ok (Services_Publish services owner name implementation).
Proof.
  intros [Hnd Hi]. unfold Services_Publish. destruct (match name with [] => true | _ => false end || (implementation =? 0)) eqn:E; [done|].
  apply orb_false_iff in E as [_ Hz]. apply Z.eqb_neq in Hz.
  destruct (find_service services name) as [held|] eqn:F.
  - destruct (ServiceOwner held =? owner); [|done]. split; [by rewrite set_implementation_names|].
    clear F. induction services as [|s services IH]; cbn; [done|]. inversion_clear Hi. cbn in Hnd.
    apply NoDup_cons in Hnd as [_ Hnd]. case_match; constructor; auto.
  - apply find_service_none in F. split.
    + rewrite map_app. apply NoDup_app. split_and!; [done| |apply NoDup_singleton].
      intros x Hx Hx'. apply list_elem_of_singleton in Hx' as ->. done.
    + apply Forall_app. split; [done|by repeat constructor].
Qed.

(** A published pointer is never swapped or withdrawn under a peer: while a service's owner neither
    withdraws it nor is removed, publishing, withdrawing and removal by anybody else leave [Find] of its name
    as it was, and its own refresh is what [Find] then answers. *)
Theorem Services_owner_only services owner name implementation s :
  find_service services name = Some s ->
  (forall other n p, other <> ServiceOwner s ->
     Services_Find (Services_Publish services other n p) name = Implementation s /\
     Services_Find (Services_Unpublish services other n) name = Implementation s /\
     Services_Find (Services_RemoveAll services other).2 name = Implementation s) /\
  (owner = ServiceOwner s -> implementation <> 0 -> name <> [] ->
     Services_Find (Services_Publish services owner name implementation) name = implementation).
Proof.
  intros Hs. assert (ServiceName s = name) as Hname.
  { unfold find_service in Hs. apply List.find_some in Hs as [_ H]. by apply text_eqb_true. }
  assert (forall l, find_service (services ++ l) name = Some s) as Happ.
  { intros l. unfold find_service in *. clear -Hs. induction services as [|x services IH]; cbn in *; [done|].
    revert Hs. destruct (text_eqb (ServiceName x) name); [done|apply IH]. }
  split.
  - intros other n p Hne. split_and!.
    + unfold Services_Find, Services_Publish. destruct (_ || (p =? 0)); [by rewrite Hs|].
      destruct (find_service services n) as [held|] eqn:F; [|by rewrite Happ].
      destruct (Z.eqb_spec (ServiceOwner held) other) as [Ho|]; [|by rewrite Hs].
      rewrite find_set_implementation. destruct (text_eqb n name) eqn:En; [|by rewrite Hs].
      apply text_eqb_true in En. congruence.
    + unfold Services_Find, Services_Unpublish. destruct (find_service services n) as [held|] eqn:F; [|by rewrite Hs].
      destruct (Z.eqb_spec (ServiceOwner held) other) as [Ho|]; [|by rewrite Hs].
      assert (n <> name) as Hnn by congruence.
      assert (find_service (erase_service services n) name = find_service services name) as ->; [|by rewrite Hs].
      clear -Hnn. unfold find_service. induction services as [|x services IH]; cbn; [done|].
      destruct (text_eqb (ServiceName x) n) eqn:E1; cbn.
      * apply text_eqb_true in E1. rewrite (proj2 (text_eqb_false (ServiceName x) name)); [done|congruence].
      * destruct (text_eqb (ServiceName x) name); [done|exact IH].
    + unfold Services_Find, Services_RemoveAll. cbn [snd].
      assert (find_service (List.filter (fun s => negb (ServiceOwner s =? other)) services) name = Some s) as ->; [|done].
      clear - Hs Hne. unfold find_service in *. induction services as [|x services IH]; cbn in *; [done|].
      destruct (text_eqb (ServiceName x) name) eqn:E.
      * simplify_eq. destruct (Z.eqb_spec (ServiceOwner s) other); [done|]. cbn. by rewrite E.
      * case_match; cbn; [rewrite E|]; by apply IH.
  - intros -> Hi Hn. unfold Services_Find, Services_Publish. destruct name as [|c name]; [done|].
    cbn [orb]. destruct (Z.eqb_spec implementation 0); [done|]. rewrite Hs, Z.eqb_refl.
    by rewrite find_set_implementation, text_eqb_refl, Hs.
Qed.

Lemma Services_owner_only_witness :
  let services := Services_Publish [] 7 $"IPermissions" 100 in
  Services_Find (Services_Publish services 8 $"IPermissions" 200) $"IPermissions" = 100 /\
  Services_Find (Services_Publish services 7 $"IPermissions" 300) $"IPermissions" = 300.
Proof.
  cbn zeta. destruct (Services_owner_only (Services_Publish [] 7 $"IPermissions" 100) 7 $"IPermissions" 300
                        (mkService $"IPermissions" 100 7) eq_refl) as [H1 H2].
  split; [apply (H1 8 $"IPermissions" 200); discriminate|apply H2; [reflexivity|discriminate|discriminate]].
Defined.
