(* ===== verification/CommandSyntax.v ===== *)
(** * Chat lines: [src/Commands/CommandSyntax.cpp] *)

From S2P Require Import Prelude Text.

Definition ChatPrefix : text := $"!".

Definition finish_token (tokens : list text) (current : text) (started : bool) : list text :=
  match started, current with
  | false, [] => tokens
  | _, _ => tokens ++ [current]
  end.

(** The loop of [Tokenize] over the unread text. *)
Fixpoint tokenize_loop (s : text) (tokens : list text) (current : text) (quoted started : bool) : list text :=
  match s with
  | [] => finish_token tokens current started
  | c :: rest =>
      let step :=
        if Ascii.eqb c quote_char then tokenize_loop rest tokens current (negb quoted) true
        else if Ascii.eqb c " " && negb quoted
             then tokenize_loop rest (finish_token tokens current started) [] quoted false
             else tokenize_loop rest tokens (current ++ [c]) quoted started in
      match rest with
      | d :: rest' =>
          if Ascii.eqb c backslash && Ascii.eqb d quote_char
          then tokenize_loop rest' tokens (current ++ [quote_char]) quoted true
          else step
      | [] => step
      end
  end.

Definition Tokenize (s : text) : list text := tokenize_loop s [] [] false false.

Definition StripPrefix (message : text) : option text :=
  if (length ChatPrefix <? length message)%nat && StartsWith message ChatPrefix
  then Some (drop (length ChatPrefix) message) else None.

(** ** Reading back what was quoted *)

Definition no_backslash (s : text) : Prop := ~ In backslash s.

Lemma tokenize_plain c rest tokens current started :
  c <> quote_char -> c <> backslash ->
  tokenize_loop (c :: rest) tokens current true started = tokenize_loop rest tokens (current ++ [c]) true started.
Proof.
  intros Hq Hb. cbn [tokenize_loop]. destruct (Ascii.eqb_spec c quote_char); [done|].
  destruct (Ascii.eqb_spec c backslash); [done|]. rewrite andb_false_r. by destruct rest.
Qed.

(** Inside the quotes every char of the value comes back, an escaped quote as the quote. *)
Lemma tokenize_quoted value rest tokens current :
  no_backslash value ->
  tokenize_loop (flat_map quote_arg_char value ++ quote_char :: rest) tokens current true true
  = tokenize_loop rest tokens (current ++ value) false true.
Proof.
  revert current. induction value as [|c value IH]; intros current Hn; cbn [flat_map app].
  - rewrite app_nil_r. cbn [tokenize_loop]. rewrite Ascii.eqb_refl. by destruct rest.
  - assert (no_backslash value) as Hn' by (intros H; apply Hn; by right).
    assert (c <> backslash) as Hc by (intros ->; apply Hn; by left).
    rewrite <- app_assoc. unfold quote_arg_char at 1.
    destruct (Ascii.eqb_spec c quote_char) as [->|Hq]; cbn [orb app].
    + cbn [tokenize_loop]. rewrite !Ascii.eqb_refl. cbn [andb]. rewrite IH by done. by rewrite <- app_assoc.
    + destruct (Ascii.eqb_spec c backslash); [done|]. cbn [app]. rewrite tokenize_plain by done.
      rewrite IH by done. by rewrite <- app_assoc.
Qed.

Lemma tokenize_one value rest tokens :
  no_backslash value ->
  tokenize_loop (QuoteConsoleArg value ++ rest) tokens [] false false = tokenize_loop rest tokens value false true.
Proof.
  intros Hn. unfold QuoteConsoleArg. cbn [app tokenize_loop]. rewrite Ascii.eqb_refl.
  rewrite <- app_assoc. cbn [app]. rewrite tokenize_quoted by done. cbn [app negb].
  change (Ascii.eqb quote_char backslash) with false. cbn [andb]. by destruct (flat_map _ _ ++ _).
Qed.

Lemma tokenize_rest values tokens value :
  Forall no_backslash values ->
  tokenize_loop (flat_map (fun p => $" " ++ p) (map QuoteConsoleArg values)) tokens value false true
  = tokens ++ value :: values.
Proof.
  revert tokens value. induction values as [|v values IH]; intros tokens value Hn; cbn [map flat_map].
  - cbn. by destruct value.
  - inversion_clear Hn. rewrite <- app_assoc. cbn [lit list_ascii_of_string app].
    change ($" ") with [" "%char]. cbn [app]. cbn [tokenize_loop].
    change (Ascii.eqb " " quote_char) with false. change (Ascii.eqb " " " ") with true.
    change (Ascii.eqb " " backslash) with false. cbn [andb negb].
    assert (finish_token tokens value true = tokens ++ [value]) as -> by by destruct value.
    destruct (QuoteConsoleArg v ++ _) eqn:E; [by destruct v|]. rewrite <- E.
    rewrite tokenize_one by done. rewrite IH by done. by rewrite <- app_assoc.
Qed.

(** A line of quoted arguments tokenizes to exactly those arguments: empty ones, ones with spaces and ones
    with quotes included. A backslash is the one character the chat grammar cannot carry before a quote. *)
Theorem Tokenize_quoted values :
  Forall no_backslash values -> Tokenize (Join (map QuoteConsoleArg values) $" ") = values.
Proof.
  intros Hn. unfold Tokenize. destruct values as [|v values]; [done|]. inversion_clear Hn.
  cbn [map Join]. rewrite join_rest_acc. rewrite tokenize_one by done. by rewrite tokenize_rest.
Qed.

Lemma Tokenize_quoted_witness :
  Tokenize (Join (map QuoteConsoleArg [$"ban"; $"two words"; []; [quote_char; "x"%char]]) $" ")
  = [$"ban"; $"two words"; []; [quote_char; "x"%char]].
Proof.
  apply Tokenize_quoted. do 4 (constructor; [intros H; vm_compute in H; intuition discriminate|]). constructor.
Defined.

(** Unquoted, the tokens are the maximal runs between spaces: no token is blank or holds a space. *)
Lemma tokenize_unquoted_run w rest tokens current :
  Forall (fun c => c <> quote_char /\ c <> backslash /\ c <> " "%char) w ->
  tokenize_loop (w ++ rest) tokens current false false = tokenize_loop rest tokens (current ++ w) false false.
Proof.
  revert current. induction w as [|c w IH]; intros current Hw; cbn [app]; [by rewrite app_nil_r|].
  inversion_clear Hw as [|? ? (Hq & Hb & Hs) Hw']. cbn [tokenize_loop].
  destruct (Ascii.eqb_spec c quote_char); [done|]. destruct (Ascii.eqb_spec c backslash); [done|].
  destruct (Ascii.eqb_spec c " "); [done|]. cbn [andb].
  rewrite IH by done. rewrite <- app_assoc. by destruct (w ++ rest).
Qed.
