(* ===== verification/Args.v ===== *)
(** * Command arguments: [include/VoltMod/Commands/Args.hpp] and [src/Commands/ArgBinding.cpp]

    From tokens to the typed values a handler's parameter list names. *)

From S2P Require Import Prelude Text Errors Roster Policy Targeting.

Module ArgKind.
Inductive t : Type := Target | Targets | Duration | SteamId | PlayerOrSteamId | Int | U64 | Word | Rest.
#[global] Instance t_eq_dec : EqDecision t.
Proof. solve_decision. Defined.
End ArgKind.

Record ArgDesc := mkArg { Kind : ArgKind.t; Optional : bool }.

(** [std::variant<std::monostate, Args::...>]. *)
Inductive BoundArg :=
| Omitted
| ATarget (p : Player)
| ATargets (ps : list Player)
| ADuration (seconds : Z)
| ASteamId (id : Z)
| APlayerOrSteamId (online : option Player) (id : Z)
| AInt (n : Z)
| AU64 (n : Z)
| AWord (s : text)
| ARest (s : text).

(** The alternative a bound argument holds. *)
Definition kind_of (b : BoundArg) : option ArgKind.t :=
  match b with
  | Omitted => None
  | ATarget _ => Some ArgKind.Target
  | ATargets _ => Some ArgKind.Targets
  | ADuration _ => Some ArgKind.Duration
  | ASteamId _ => Some ArgKind.SteamId
  | APlayerOrSteamId _ _ => Some ArgKind.PlayerOrSteamId
  | AInt _ => Some ArgKind.Int
  | AU64 _ => Some ArgKind.U64
  | AWord _ => Some ArgKind.Word
  | ARest _ => Some ArgKind.Rest
  end.

(** ** The parameter lists the builder accepts *)

Fixpoint optionals_trail (seen : bool) (args : list ArgDesc) : bool :=
  match args with
  | [] => true
  | arg :: rest => if Optional arg then optionals_trail true rest
                   else if seen then false else optionals_trail seen rest
  end.

Definition OptionalsTrail (args : list ArgDesc) : bool := optionals_trail false args.

Fixpoint RestIsLast (args : list ArgDesc) : bool :=
  match args with
  | [] | [_] => true
  | arg :: rest => if bool_decide (Kind arg = ArgKind.Rest) then false else RestIsLast rest
  end.

Definition CommandSignature (args : list ArgDesc) : bool := OptionalsTrail args && RestIsLast args.

(** [ArgUnpack<T>::From] and [ArgUnpack<Opt<T>>::From]: [std::get] of another alternative throws, which
    nothing catches. *)
Definition ArgUnpack (arg : ArgDesc) (bound : BoundArg) : outcome (option BoundArg) :=
  match kind_of bound with
  | None => if Optional arg then Returns None else Undefined
  | Some k => if bool_decide (k = Kind arg) then Returns (Some bound) else Undefined
  end.

(** The trampoline: [bound[I]] for each declared argument. *)
Fixpoint Unpack (args : list ArgDesc) (bound : list BoundArg) : outcome (list (option BoundArg)) :=
  match args, bound with
  | [], _ => Returns []
  | _ :: _, [] => Undefined
  | arg :: args', b :: bound' =>
      run! v := ArgUnpack arg b in
      run! vs := Unpack args' bound' in
      Returns (v :: vs)
  end.

(** ** Binding *)

Record ArgError := mkArgError { ErrorKey : text; Vars : list (text * text) }.

(** The one thing binding needs a running server for. A resolution that succeeds names somebody. *)
Class ArgBinder (B : Type) := {
  binder_resolve : B -> text -> option Player -> TargetRules -> expected TargetFailure (list Player);
  binder_nonempty b token caller rules ps : binder_resolve b token caller rules = Ok ps -> ps <> [] }.

Definition TargetKey (failure : TargetFailure) (token : text) : ArgError :=
  let vars := [($"token", token)] in
  match FailureError failure with
  | TargetError.Immune => mkArgError $"target.immune" vars
  | TargetError.Ambiguous | TargetError.MultiNotAllowed =>
      mkArgError $"target.ambiguous" [($"token", token); ($"count", dec (FailureCount failure))]
  | TargetError.DeadNotAllowed => mkArgError $"target.dead" vars
  | TargetError.BotNotAllowed => mkArgError $"target.bot" vars
  | TargetError.NoMatch => mkArgError $"target.noMatch" vars
  end.

Definition is_no_match (failure : TargetFailure) : bool :=
  match FailureError failure with TargetError.NoMatch => true | _ => false end.

Section Binding.
Context {B : Type} `{ArgBinder B} (binder : B) (caller : option Player).

(** [resolved->front()]: reading the front of an empty vector is undefined. *)
Definition BindTarget (token : text) : outcome (expected ArgError BoundArg) :=
  match binder_resolve binder token caller TargetRules_default with
  | Err f => Returns (Err (TargetKey f token))
  | Ok [] => Undefined
  | Ok (p :: _) => Returns (Ok (ATarget p))
  end.

Definition BindTargets (token : text) : outcome (expected ArgError BoundArg) :=
  Returns match binder_resolve binder token caller (mkTargetRules true true true) with
          | Err f => Err (TargetKey f token)
          | Ok ps => Ok (ATargets ps)
          end.

Definition BindPlayerOrSteamId (token : text) : outcome (expected ArgError BoundArg) :=
  match binder_resolve binder token caller TargetRules_default with
  | Ok [] => Undefined
  | Ok (p :: _) => Returns (Ok (APlayerOrSteamId (Some p) (SteamId p)))
  | Err f =>
      Returns
        match (if is_no_match f && IsNumeric token then ParseInt64 token else None) with
        | Some id => Ok (APlayerOrSteamId None id)
        | None => Err (TargetKey f token)
        end
  end.

Definition BindDuration (token : text) : expected ArgError BoundArg :=
  let seconds := ParseDuration token in
  if seconds <? 0 then Err (mkArgError $"cmd.badDuration" [($"token", token)])
  else Ok (ADuration (if IsNumeric token then seconds * 60 else seconds)).

Definition BindSteamId (token : text) : expected ArgError BoundArg :=
  match ParseInt64 token with
  | Some id => if IsNumeric token then Ok (ASteamId id)
               else Err (mkArgError $"cmd.badSteamId" [($"token", token)])
  | None => Err (mkArgError $"cmd.badSteamId" [($"token", token)])
  end.

Definition BindInt (token : text) : expected ArgError BoundArg :=
  match ParseInt64 token with
  | Some n => if in_i32 n then Ok (AInt n) else Err (mkArgError $"cmd.badNumber" [($"token", token)])
  | None => Err (mkArgError $"cmd.badNumber" [($"token", token)])
  end.

Definition BindU64 (token : text) : expected ArgError BoundArg :=
  match ParseUInt64 token with
  | Some n => Ok (AU64 n)
  | None => Err (mkArgError $"cmd.badNumber" [($"token", token)])
  end.

(** The [switch] on one argument's kind; [Rest] is the loop's own case. *)
Definition bind_one (kind : ArgKind.t) (token : text) : outcome (expected ArgError BoundArg) :=
  match kind with
  | ArgKind.Target => BindTarget token
  | ArgKind.Targets => BindTargets token
  | ArgKind.PlayerOrSteamId => BindPlayerOrSteamId token
  | ArgKind.Duration => Returns (BindDuration token)
  | ArgKind.SteamId => Returns (BindSteamId token)
  | ArgKind.Int => Returns (BindInt token)
  | ArgKind.U64 => Returns (BindU64 token)
  | ArgKind.Word | ArgKind.Rest => Returns (Ok (AWord token))
  end.

Fixpoint bind_loop (args : list ArgDesc) (tokens : list text) (i : nat) (bound : list BoundArg)
    : outcome (expected ArgError (list BoundArg)) :=
  match args with
  | [] => Returns (Ok bound)
  | arg :: args' =>
      match tokens !! i with
      | None => bind_loop args' tokens i (bound ++ [Omitted])
      | Some token =>
          match Kind arg with
          | ArgKind.Rest => bind_loop args' tokens (length tokens) (bound ++ [ARest (Join (drop i tokens) $" ")])
          | kind =>
              run! parsed := bind_one kind token in
              match parsed with
              | Err e => Returns (Err e)
              | Ok b => bind_loop args' tokens (S i) (bound ++ [b])
              end
          end
      end
  end.

Definition BindArgs (args : list ArgDesc) (tokens : list text) : outcome (expected ArgError (list BoundArg)) :=
  bind_loop args tokens 0 [].
End Binding.

Definition RequiredArgs (args : list ArgDesc) : nat := length (List.filter (fun arg => negb (Optional arg)) args).

Definition HasRest (args : list ArgDesc) : bool := existsb (fun arg => bool_decide (Kind arg = ArgKind.Rest)) args.

(** ** Type soundness *)

(** The bound value fits its parameter. *)
Definition fits (arg : ArgDesc) (b : BoundArg) : Prop :=
  match kind_of b with
  | None => Optional arg = true
  | Some k => k = Kind arg
  end.

Lemma Unpack_fits args bound : Forall2 fits args bound -> exists vs, Unpack args bound = Returns vs /\ length vs = length args.
Proof.
  induction 1 as [|arg b args bound Hf _ (vs & E & L)]; [by exists []|].
  cbn [Unpack]. unfold fits in Hf. unfold ArgUnpack. rewrite E.
  destruct (kind_of b) as [k|].
  - rewrite bool_decide_true by done. exists (Some b :: vs). cbn. by rewrite L.
  - rewrite Hf. exists (None :: vs). cbn. by rewrite L.
Qed.

Section Soundness.
Context {B : Type} `{ArgBinder B} (binder : B) (caller : option Player).

Lemma bind_one_fits arg token :
  Kind arg <> ArgKind.Rest ->
  exists parsed, bind_one binder caller (Kind arg) token = Returns parsed /\
    forall b, parsed = Ok b -> fits arg b.
Proof.
  intros Hk. unfold bind_one, BindTarget, BindTargets, BindPlayerOrSteamId, BindDuration, BindSteamId, BindInt, BindU64, fits.
  destruct (Kind arg) eqn:E; try done;
    try match goal with |- context [binder_resolve ?x ?y ?z ?w] =>
          pose proof (binder_nonempty x y z w) as Hne; destruct (binder_resolve x y z w) as [[|p ps]|f];
          try (exfalso; by eapply Hne)
        end;
    eexists; (split; [done|]); intros b Hb; repeat case_match; simplify_eq; cbn in *; congruence.
Qed.

(** No argument after an optional one is required. *)
Lemma optionals_trail_true args : optionals_trail true args = true -> RequiredArgs args = 0%nat.
Proof.
  induction args as [|arg args IH]; cbn; [done|]. unfold RequiredArgs in *. cbn.
  destruct (Optional arg); [apply IH|done].
Qed.

Lemma RestIsLast_cons arg args :
  RestIsLast (arg :: args) = true -> RestIsLast args = true /\ (Kind arg = ArgKind.Rest -> args = []).
Proof.
  cbn. destruct args as [|a args]; [done|]. case_bool_decide; [done|]. done.
Qed.

(** From token [i] on the rest of the arguments bind, each to a value of its own kind: a required one still
    has its token. *)
Lemma bind_loop_fits args tokens i bound :
  optionals_trail false args = true -> RestIsLast args = true ->
  (RequiredArgs args = 0 \/ i + RequiredArgs args <= length tokens)%nat ->
  exists result, bind_loop binder caller args tokens i bound = Returns result /\
    forall b, result = Ok b -> exists new, b = bound ++ new /\ Forall2 fits args new.
Proof.
  revert i bound. induction args as [|arg args IH]; intros i bound Ht Hr Hlen.
  { eexists. split; [done|]. intros b [= <-]. exists []. by rewrite app_nil_r. }
  apply RestIsLast_cons in Hr as [Hr Hlast]. cbn [bind_loop].
  assert (optionals_trail false args = true /\ (Optional arg = true -> RequiredArgs args = 0%nat)) as [Ht' Hopt].
  { cbn in Ht. destruct (Optional arg); [|done]. pose proof (optionals_trail_true _ Ht) as H0.
    split; [|done]. clear -H0. induction args as [|a args IH]; [done|]. unfold RequiredArgs in *. cbn in *.
    destruct (Optional a); [|done]. clear IH. induction args as [|x args IH]; [done|]. cbn in *. destruct (Optional x); [auto|done]. }
  assert (RequiredArgs (arg :: args) = (if Optional arg then 0 else 1) + RequiredArgs args)%nat as HR.
  { unfold RequiredArgs. cbn. by destruct (Optional arg). }
  assert (forall b j, fits arg b -> (RequiredArgs args = 0 \/ j + RequiredArgs args <= length tokens)%nat ->
    exists result, bind_loop binder caller args tokens j (bound ++ [b]) = Returns result /\
      forall b', result = Ok b' -> exists new, b' = bound ++ new /\ Forall2 fits (arg :: args) new) as Hstep.
  { intros b j Hb Hj. destruct (IH j (bound ++ [b]) Ht' Hr Hj) as (result & E & Hres). exists result. split; [done|].
    intros b' Hb'. destruct (Hres b' Hb') as (new & -> & Hnew). exists (b :: new).
    rewrite <- app_assoc. split; [done|by constructor]. }
  destruct (tokens !! i) as [token|] eqn:Hi.
  - apply lookup_lt_Some in Hi. destruct (decide (Kind arg = ArgKind.Rest)) as [Hrest|Hrest].
    + rewrite Hrest. rewrite (Hlast Hrest) in *. apply Hstep; [by unfold fits; cbn|by left].
    + destruct (bind_one_fits arg token Hrest) as (parsed & E & Hp).
      assert (exists result, (run! parsed := bind_one binder caller (Kind arg) token in
                match parsed with Err e => Returns (Err e) | Ok b => bind_loop binder caller args tokens (S i) (bound ++ [b]) end)
                = Returns result /\ forall b', result = Ok b' -> exists new, b' = bound ++ new /\ Forall2 fits (arg :: args) new) as Hgoal.
      { rewrite E. cbn. destruct parsed as [b|e]; [|by eexists].
        apply Hstep; [by apply Hp|]. destruct (Optional arg); [left; by apply Hopt|]. lia. }
      by destruct (Kind arg).
  - apply lookup_ge_None in Hi. destruct (Optional arg) eqn:Eopt.
    + apply Hstep; [done|]. left. by apply Hopt.
    + lia.
Qed.
End Soundness.

(** C27. A handler never sees an argument of the wrong type: for every parameter list the builder accepts and
    every token list that meets its arity, binding reads no empty resolution and, when it succeeds, the
    trampoline unpacks one value per declared parameter without a bad [std::get]. *)
Theorem BindArgs_typed {B} `{ArgBinder B} (binder : B) caller args tokens :
  CommandSignature args = true -> (RequiredArgs args <= length tokens)%nat ->
  exists result, BindArgs binder caller args tokens = Returns result /\
    forall bound, result = Ok bound ->
      Forall2 fits args bound /\ exists vs, Unpack args bound = Returns vs /\ length vs = length args.
Proof.
  unfold CommandSignature. intros Hs Hlen. apply andb_prop in Hs as [Ht Hr].
  destruct (bind_loop_fits binder caller args tokens 0 [] Ht Hr) as (result & E & Hres); [by right|].
  exists result. split; [done|]. intros bound Hb. destruct (Hres bound Hb) as (new & -> & Hnew).
  split; [done|]. by apply Unpack_fits.
Qed.

(** A binder over a fixed set of players: what a name finds is found, and nothing else. *)
Definition sample_binder_resolve (players : list Player) (token : text) (caller : option Player) (rules : TargetRules)
    : expected TargetFailure (list Player) :=
  match List.filter (fun p => text_eqb (ConnectName p) token) players with
  | [] => fail TargetError.NoMatch 0
  | ps => Ok ps
  end.

Lemma sample_binder_nonempty players token caller rules ps :
  sample_binder_resolve players token caller rules = Ok ps -> ps <> [].
Proof. unfold sample_binder_resolve. destruct (List.filter _ _); [done|]. by intros [= <-]. Qed.

Definition sample_binder : ArgBinder (list Player) :=
  {| binder_resolve := sample_binder_resolve; binder_nonempty := sample_binder_nonempty |}.

Lemma BindArgs_typed_witness :
  let args := [mkArg ArgKind.Target false; mkArg ArgKind.Duration false; mkArg ArgKind.Rest true] in
  exists vs, BindArgs (H:=sample_binder) [mkPlayer 2 9 $"bob" []] None args [$"bob"; $"5m"]
             = Returns (Ok [ATarget (mkPlayer 2 9 $"bob" []); ADuration 300; Omitted]) /\
    Unpack args [ATarget (mkPlayer 2 9 $"bob" []); ADuration 300; Omitted] = Returns vs /\ length vs = 3%nat.
Proof.
  cbn zeta.
  destruct (BindArgs_typed (H:=sample_binder) [mkPlayer 2 9 $"bob" []] None
              [mkArg ArgKind.Target false; mkArg ArgKind.Duration false; mkArg ArgKind.Rest true] [$"bob"; $"5m"])
    as (result & E & Hres); [reflexivity|cbn; lia|].
  assert (result = Ok [ATarget (mkPlayer 2 9 $"bob" []); ADuration 300; Omitted]) as ->.
  { vm_compute in E. injection E as <-. reflexivity. }
  destruct (Hres _ eq_refl) as (_ & vs & Hv & Hl). exists vs. split; [exact E|]. split; [exact Hv|exact Hl].
Defined.

(** ** The binder of a running server: [EngineArgBinder] over the roster *)

Record EngineArgBinder := mkBinder {
  binder_roster : Roster;
  binder_roster_ok : roster_ok binder_roster;
  binder_policy : PolicyRules;
  binder_team : Z -> Z;
  binder_alive : Z -> bool;
  binder_live : Z -> option text;
  binder_random : nat -> nat }.

Definition engine_resolve (b : EngineArgBinder) (token : text) (caller : option Player) (rules : TargetRules)
    : expected TargetFailure (list Player) :=
  match Resolve (binder_policy b) (binder_team b) (binder_alive b) (binder_live b) (binder_random b)
                (binder_roster b) token caller rules with
  | Returns (Ok ps) => Ok (omap (fun p => heap (binder_roster b) !! p) ps)
  | Returns (Err f) => Err f
  | _ => fail TargetError.NoMatch 0
  end.

Lemma engine_resolve_nonempty b token caller rules ps : engine_resolve b token caller rules = Ok ps -> ps <> [].
Proof.
  unfold engine_resolve. intros H.
  destruct (Resolve_ok (binder_policy b) (binder_team b) (binder_alive b) (binder_live b) (binder_random b)
              (binder_roster b) token caller rules (binder_roster_ok b)) as (result & E & Hres).
  rewrite E in H. destruct result as [ptrs|f]; [|done]. injection H as <-.
  destruct (Hres ptrs eq_refl) as (Hne & _ & Hall). destruct ptrs as [|p ptrs]; [done|].
  destruct (Hall p) as (pl & Hp & _); [by left|]. cbn. by rewrite Hp.
Qed.

#[export] Instance EngineArgBinder_binder : ArgBinder EngineArgBinder := {
  binder_resolve := engine_resolve;
  binder_nonempty := engine_resolve_nonempty }.
