(* ===== verification/Commands.v ===== *)
(** * Commands: [src/Commands/CommandRouter.cpp], [CommandBuilder.cpp] and [CommandManager.cpp]

    Registration, lookup and dispatch. A handler is what it says and answers; the engine's console hands its
    arguments over as tokens. *)

From S2P Require Import Prelude Text Errors Roster Policy Targeting Translations Services CommandSyntax Args.

Module CommandAccess.
Inductive t : Type := Players | Anywhere | ServerOnly.
#[global] Instance t_eq_dec : EqDecision t.
Proof. solve_decision. Defined.
End CommandAccess.

Module Origin.
Inductive t : Type := Chat | Console.
End Origin.

(** Who invoked a command. Its slot is -1 for the console. *)
Record Invoker := mkInvoker { InvokerPlayer : option Player; InvokerSlot : Z }.

(** What a handler does: the lines it sends along the way, and its answer. *)
Definition Handler : Type := Invoker -> list (option BoundArg) -> list text * Result text.

Record CommandDefinition := mkCommand {
  CommandName : text;
  Aliases : list text;
  Description : text;
  PermissionName : text;
  UsageKey : text;
  Access : CommandAccess.t;
  ArgList : list ArgDesc;
  Invoke : option Handler }.

(** ** [CommandBuilder] *)

Definition Command_new (name : text) : CommandDefinition :=
  mkCommand name [] [] [] [] CommandAccess.Players [] None.

Definition Builder_Alias (d : CommandDefinition) (alias : text) : CommandDefinition :=
  mkCommand (CommandName d) (Aliases d ++ [alias]) (Description d) (PermissionName d) (UsageKey d) (Access d) (ArgList d) (Invoke d).
Definition Builder_Describe (d : CommandDefinition) (s : text) : CommandDefinition :=
  mkCommand (CommandName d) (Aliases d) s (PermissionName d) (UsageKey d) (Access d) (ArgList d) (Invoke d).
Definition Builder_Permission (d : CommandDefinition) (permission : text) : CommandDefinition :=
  mkCommand (CommandName d) (Aliases d) (Description d) permission (UsageKey d) (Access d) (ArgList d) (Invoke d).
Definition Builder_Access (d : CommandDefinition) (access : CommandAccess.t) : CommandDefinition :=
  mkCommand (CommandName d) (Aliases d) (Description d) (PermissionName d) (UsageKey d) access (ArgList d) (Invoke d).
Definition Builder_UsageKey (d : CommandDefinition) (key : text) : CommandDefinition :=
  mkCommand (CommandName d) (Aliases d) (Description d) (PermissionName d) key (Access d) (ArgList d) (Invoke d).

(** [Run]: the parameter list becomes the descriptor; the [static_assert]s refuse a list that is not a
    signature, so such a program does not exist. *)
Definition Builder_Run (d : CommandDefinition) (args : list ArgDesc) (handler : Handler) : option CommandDefinition :=
  if CommandSignature args
  then Some (mkCommand (CommandName d) (Aliases d) (Description d) (PermissionName d) (UsageKey d) (Access d) args (Some handler))
  else None.

(** ** [CommandRouter]: the registry *)

Record Router := mkRouter {
  commands : gmap text CommandDefinition;
  aliases : gmap text text }.

Definition Router_new : Router := mkRouter ∅ ∅.

Definition Router_Clear (r : Router) : Router := Router_new.

Definition Router_Count (r : Router) : nat := size (commands r).

Section Registration.
Context {H : Type} `{CommandHost H}.

(** [_host && !_host->RegisterCommand(name)]: whether the name is refused, and the host after asking. *)
Definition refused_by_host (host : option H) (name : text) : bool * option H :=
  match host with
  | None => (false, None)
  | Some h => let '(ok, h') := host_register h name in (negb ok, Some h')
  end.

(** One alias of the loop. *)
Definition add_alias (name : text) (st : Router * option H) (alias : text) : Router * option H :=
  let '(r, host) := st in
  let key := ToLower alias in
  if match key with [] => true | _ => false end || text_eqb key name then st
  else if bool_decide (is_Some (commands r !! key)) then st
  else if bool_decide (is_Some (aliases r !! key)) then st
  else let '(refused, host') := refused_by_host host key in
       if refused then (r, host')
       else (mkRouter (commands r) (<[key := name]> (aliases r)), host').

(** Returns whether the definition was stored. *)
Definition Router_Add (r : Router) (host : option H) (def : CommandDefinition) : bool * Router * option H :=
  let name := ToLower (CommandName def) in
  if match name with [] => true | _ => false end then (false, r, host)
  else if bool_decide (is_Some (commands r !! name)) || bool_decide (is_Some (aliases r !! name)) then (false, r, host)
  else
    let '(refused, host') := refused_by_host host name in
    if refused then (false, r, host')
    else
      let '(r', host'') := fold_left (add_alias name) (Aliases def) (r, host') in
      (true, mkRouter (<[name := def]> (commands r')) (aliases r'), host'').
End Registration.

Definition Router_Find (r : Router) (name : text) : option CommandDefinition :=
  let key := ToLower name in
  match commands r !! key with
  | Some def => Some def
  | None => match aliases r !! key with
            | Some target => commands r !! target
            | None => None
            end
  end.

Definition Router_IsForeign {H} `{CommandHost H} (r : Router) (host : option H) (name : text) : bool :=
  match host with
  | None => false
  | Some h => match Router_Find r name with
              | Some _ => false
              | None => host_registered h (ToLower name)
              end
  end.

(** ** [CommandRouter]: dispatch *)

(** [Name(kind)], the enumerator's identifier. *)
Definition kind_name (kind : ArgKind.t) : text :=
  match kind with
  | ArgKind.Target => $"Target"
  | ArgKind.Targets => $"Targets"
  | ArgKind.Duration => $"Duration"
  | ArgKind.SteamId => $"SteamId"
  | ArgKind.PlayerOrSteamId => $"PlayerOrSteamId"
  | ArgKind.Int => $"Int"
  | ArgKind.U64 => $"U64"
  | ArgKind.Word => $"Word"
  | ArgKind.Rest => $"Rest"
  end.

Definition UsagePlaceholderKey (kind : ArgKind.t) : text :=
  $"cmd.usage." ++ match kind_name kind with [] => [] | c :: name => to_lower_char c :: name end.

Section Dispatch.
Context {B : Type} `{ArgBinder B} (binder : B).
Context (policy : PolicyRules) (roster : Roster) (languages : LanguageTable) (translations : Translations).

Definition tr (key : text) (slot : Z) : text := Translate languages translations key slot.
Definition tr_with (key : text) (slot : Z) (tokens : list (text * text)) : text :=
  TranslateWith languages translations key slot tokens.

Definition FailureLine (error : Error) (slot : Z) : text :=
  match Text error with
  | _ :: _ => Text error
  | [] => match Key error with
          | _ :: _ => tr (Key error) slot
          | [] => Detail error
          end
  end.

Definition usage_arg (slot : Z) (args : text) (arg : ArgDesc) : text :=
  let spaced := match args with [] => [] | _ => args ++ $" " end in
  let placeholder := tr (UsagePlaceholderKey (Kind arg)) slot in
  spaced ++ (if Optional arg then $"[" else $"<") ++ placeholder ++ (if Optional arg then $"]" else $">").

Definition UsageTokens (def : CommandDefinition) (slot : Z) (origin : Origin.t) : list (text * text) :=
  let prefix := match origin with Origin.Chat => ChatPrefix | Origin.Console => [] end in
  let args := fold_left (usage_arg slot) (ArgList def) [] in
  let line := (prefix ++ CommandName def) ++ match args with [] => [] | _ => $" " ++ args end in
  [($"prefix", prefix); ($"command", CommandName def); ($"args", args); ($"usage", line)].

Definition Usage (def : CommandDefinition) (slot : Z) (origin : Origin.t) : text :=
  match UsageKey def with
  | _ :: _ => tr (UsageKey def) slot
  | [] => tr_with $"cmd.usage" slot (UsageTokens def slot origin)
  end.

(** What a dispatch did: the lines sent to [say] in order, what the handler was run with, and the policy's
    warning flag. *)
Record Dispatched := mkDispatched { said : list text; ran : option (list (option BoundArg)); warned : bool }.

(** [reply]: an empty line is not sent. *)
Definition reply (line : text) : list text := match line with [] => [] | _ => [line] end.

(** Past the gate: arity, binding, the handler. *)
Definition dispatch_bound (def : CommandDefinition) (caller : option Player) (tokens : list text) (origin : Origin.t)
    (w : bool) : outcome Dispatched :=
  let slot := match caller with Some c => Slot c | None => -1 end in
  if negb (HasRest (ArgList def)) && (length (ArgList def) <? length tokens)%nat
  then Returns (mkDispatched (reply (tr_with $"cmd.tooManyArgs" slot (UsageTokens def slot origin))) None w)
  else if (length tokens <? RequiredArgs (ArgList def))%nat
  then Returns (mkDispatched (reply (Usage def slot origin)) None w)
  else
    run! bound := BindArgs binder caller (ArgList def) tokens in
    match bound with
    | Err e => Returns (mkDispatched (reply (tr_with (ErrorKey e) slot (Vars e))) None w)
    | Ok bound =>
        match Invoke def with
        | None => Returns (mkDispatched [] None w)
        | Some handler =>
            run! values := Unpack (ArgList def) bound in
            let '(lines, result) := handler (mkInvoker caller slot) values in
            let line := match result with Ok s => s | Err e => FailureLine e slot end in
            Returns (mkDispatched (lines ++ reply line) (Some values) w)
        end
    end.

Definition Dispatch (def : CommandDefinition) (caller : option Player) (tokens : list text) (origin : Origin.t)
    (w : bool) : outcome Dispatched :=
  match caller, PermissionName def with
  | Some c, _ :: _ =>
      run! (authorized, w') := Authorize policy roster w (Ref c) None (PermissionName def) in
      match authorized with
      | Err e => Returns (mkDispatched (reply (tr (Key e) (Slot c))) None w')
      | Ok _ => dispatch_bound def caller tokens origin w'
      end
  | _, _ => dispatch_bound def caller tokens origin w
  end.

(** ** [CommandManager] *)

(** Chat: whether the line was a command, and what running it did. *)
Definition HandleChatMessage (r : Router) (caller : option Player) (message : text) (w : bool)
    : outcome (bool * option Dispatched) :=
  match caller with
  | None => Returns (false, None)
  | Some c =>
      match StripPrefix message with
      | None => Returns (false, None)
      | Some body =>
          match Tokenize body with
          | [] => Returns (false, None)
          | name :: tokens =>
              match Router_Find r name with
              | None => Returns (false, None)
              | Some def =>
                  if bool_decide (Access def = CommandAccess.ServerOnly) then Returns (false, None)
                  else run! d := Dispatch def (Some c) tokens Origin.Chat w in Returns (true, Some d)
              end
          end
      end
  end.

(** The console command's body; [slot] is -1 for the server. *)
Definition RunConsoleCommand (r : Router) (name : text) (tokens : list text) (slot : Z) (w : bool)
    : outcome (option Dispatched) :=
  match Router_Find r name with
  | None => Returns None
  | Some current =>
      if 0 <=? slot then
        match Get roster slot with
        | None => Returns None
        | Some p => match heap roster !! p with
                    | None => Undefined
                    | Some player => run! d := Dispatch current (Some player) tokens Origin.Console w in Returns (Some d)
                    end
        end
      else run! d := Dispatch current None tokens Origin.Console w in Returns (Some d)
  end.

(** An entry of [_consoleCommands]. *)
Record ConsoleCommand := mkConsole { Help : text; PlayersCanRun : bool }.

Record Manager := mkManager { router : Router; console : gmap text ConsoleCommand }.

Definition InstallConsoleCommand (m : Manager) (def : CommandDefinition) : Manager :=
  let name := ToLower (CommandName def) in
  let help := match Description def with [] => Usage def (-1) Origin.Console | d => d end in
  match console m !! name with
  | Some _ => m
  | None => mkManager (router m) (<[name := mkConsole help (bool_decide (Access def = CommandAccess.Anywhere))]> (console m))
  end.

Definition Manager_Add {H2} `{CommandHost H2} (m : Manager) (host : option H2) (def : CommandDefinition) : Manager * option H2 :=
  let '(added, r, host') := Router_Add (router m) host def in
  let m' := mkManager r (console m) in
  (if added && negb (bool_decide (Access def = CommandAccess.Players)) then InstallConsoleCommand m' def else m', host').

Definition Manager_RemoveAll (m : Manager) : Manager := mkManager Router_new ∅.

Definition Manager_IsForeign {H2} `{CommandHost H2} (m : Manager) (host : option H2) (message : text) : bool :=
  match StripPrefix message with
  | None => false
  | Some body => match Tokenize body with
                 | [] => false
                 | name :: _ => Router_IsForeign (router m) host name
                 end
  end.
End Dispatch.

(** ** [Caller]'s reply helpers: what a handler's answer is built from *)

Definition Caller_Text (languages : LanguageTable) (t : Translations) (c : Invoker) (key : text) (tokens : list (text * text)) : text :=
  match tokens with
  | [] => Translate languages t key (InvokerSlot c)
  | _ => TranslateWith languages t key (InvokerSlot c) tokens
  end.

Definition Caller_Ok languages t c key tokens : Result text := Ok (Caller_Text languages t c key tokens).

Definition Caller_Fail languages t c key tokens : Result text :=
  Err (mkError ErrorCode.Failed [] key (Caller_Text languages t c key tokens)).

Definition Caller_SayRaw (line : text) : list text := reply line.
Definition Caller_Say languages t c key tokens : list text := Caller_SayRaw (Caller_Text languages t c key tokens).

(** ** The registry's invariant *)

Lemma ToLower_idempotent s : ToLower (ToLower s) = ToLower s.
Proof.
  unfold ToLower. rewrite map_map. apply map_ext. intros c.
  pose proof (all_chars (fun c => Ascii.eqb (to_lower_char (to_lower_char c)) (to_lower_char c)) ltac:(vm_compute; reflexivity) c) as Hc.
  by apply Ascii.eqb_eq.
Qed.

Section RouterFacts.
Context {H : Type} `{CommandHost H}.
Implicit Types (r : Router) (host : option H).

(** The plugin holds the name with the host, when there is one. *)
Definition owned host (name : text) : Prop :=
  match host with None => True | Some h => host_owns h name end.

(** Every command is under its lowercased name; every alias is lowercase, is no command's name and leads to
    a command; the host knows this plugin holds them all. *)
Record router_ok r host : Prop := {
  ok_commands : forall k d, commands r !! k = Some d -> k = ToLower (CommandName d) /\ k <> [] /\ owned host k;
  ok_aliases : forall a k, aliases r !! a = Some k ->
      is_Some (commands r !! k) /\ commands r !! a = None /\ a = ToLower a /\ a <> [] /\ owned host a }.

Lemma refused_spec host name b host' :
  refused_by_host host name = (b, host') ->
  (b = false -> owned host' name) /\ (forall other, owned host other -> owned host' other) /\ (host = None -> b = false).
Proof.
  unfold refused_by_host. destruct host as [h|].
  - destruct (host_register h name) as [ok h'] eqn:E. intros [= <- <-]. split_and!; [|intros other; cbn|done].
    + intros Hok. apply negb_false_iff in Hok as ->. cbn. by eapply host_register_owns.
    + by eapply host_register_keeps.
  - intros [= <- <-]. done.
Qed.

(** The registry while the aliases of the command about to be stored as [name] go in. *)
Record adding (r0 : Router) (name : text) r host : Prop := {
  add_commands : commands r = commands r0;
  add_owned : forall k, is_Some (commands r !! k) -> owned host k;
  add_name : owned host name;
  add_aliases : forall a k, aliases r !! a = Some k ->
      (k = name \/ is_Some (commands r !! k)) /\ commands r !! a = None /\ a <> name /\ a = ToLower a /\ a <> [] /\ owned host a;
  add_kept : forall a k, aliases r0 !! a = Some k -> aliases r !! a = Some k;
  add_new : forall a k, aliases r !! a = Some k -> aliases r0 !! a = None -> k = name }.

Lemma add_alias_ok r0 name r host alias r' host' :
  adding r0 name r host -> add_alias name (r, host) alias = (r', host') ->
  adding r0 name r' host' /\
  (host = None -> host' = None) /\
  (host = None -> ToLower alias <> [] -> ToLower alias = name \/ is_Some (commands r' !! ToLower alias) \/ is_Some (aliases r' !! ToLower alias)).
Proof.
  intros Hadd. unfold add_alias. set (key := ToLower alias).
  destruct (match key with [] => true | _ => false end || text_eqb key name) eqn:E1.
  { intros [= <- <-]. split_and!; [done|done|]. intros _ Hne. left. destruct key; [done|]. by apply text_eqb_true. }
  apply orb_false_iff in E1 as [E0 E1]. apply text_eqb_false in E1. assert (key <> []) as Hkey by (by destruct key). clear E0.
  case_bool_decide as E2; [intros [= <- <-]; auto|].
  case_bool_decide as E3; [intros [= <- <-]; auto|].
  destruct (refused_by_host host key) as [b host1] eqn:Eh. destruct (refused_spec _ _ _ _ Eh) as (Hown & Hkeep & Hnone).
  destruct Hadd as [A1 A2 A3 A4 A5 A6]. destruct b; intros [= <- <-].
  - split_and!; [split; auto| |].
    + intros a k Ha. destruct (A4 a k Ha) as (? & ? & ? & ? & ? & ?). split_and!; auto.
    + intros ->. by specialize (Hnone eq_refl).
    + intros ->. by specialize (Hnone eq_refl).
  - split_and!; [split; cbn; auto| |].
    + intros a k Ha. apply lookup_insert_Some in Ha as [[<- <-]|[Hne Ha]].
      * split_and!; [by left|by apply eq_None_not_Some|done|by unfold key; rewrite ToLower_idempotent|done|by apply Hown].
      * destruct (A4 a k Ha) as (? & ? & ? & ? & ? & ?). split_and!; auto.
    + intros a k Ha. rewrite lookup_insert_ne; [auto|]. intros <-. apply A5 in Ha. apply E3. eauto.
    + intros a k Ha Hn. apply lookup_insert_Some in Ha as [[<- <-]|[Hne Ha]]; [done|eauto].
    + intros ->. cbn in Eh. by injection Eh as <-.
    + intros _ _. right. right. cbn. rewrite lookup_insert_eq. eauto.
Qed.

Lemma aliases_stay name als r host r' host' a :
  fold_left (add_alias name) als (r, host) = (r', host') -> is_Some (aliases r !! a) -> is_Some (aliases r' !! a).
Proof.
  revert r host. induction als as [|x als IH]; intros r host Hf Ha; cbn [fold_left] in Hf; [by injection Hf as <- _|].
  destruct (add_alias name (r, host) x) as [r2 host2] eqn:E. apply (IH _ _ Hf).
  cbn [add_alias] in E. revert E. destruct (_ || _); [by intros [= <- _]|].
  case_bool_decide; [by intros [= <- _]|]. case_bool_decide; [by intros [= <- _]|].
  destruct (refused_by_host host (ToLower x)) as [[] h']; intros [= <- _]; [done|]. cbn.
  destruct (decide (ToLower x = a)) as [->|]; [rewrite lookup_insert_eq; eauto|by rewrite lookup_insert_ne].
Qed.

Lemma add_aliases_ok r0 name als r host r' host' :
  adding r0 name r host -> fold_left (add_alias name) als (r, host) = (r', host') ->
  adding r0 name r' host' /\
  (host = None -> forall alias, In alias als -> ToLower alias <> [] ->
     ToLower alias = name \/ is_Some (commands r' !! ToLower alias) \/ is_Some (aliases r' !! ToLower alias)).
Proof.
  revert r host. induction als as [|alias als IH]; intros r host Hadd; cbn [fold_left].
  - intros [= <- <-]. split; [done|]. by intros _ alias [].
  - destruct (add_alias name (r, host) alias) as [r1 host1] eqn:E. intros Hf.
    destruct (add_alias_ok _ _ _ _ _ _ _ Hadd E) as (Hadd1 & Hnone & Hfound).
    destruct (IH r1 host1 Hadd1 Hf) as [Hadd2 Hrest]. split; [done|].
    intros Hh a [<-|Ha] Hne; [|by apply Hrest; auto].
    destruct (Hfound Hh Hne) as [?|[Hc|Ha]]; [by left|right; left|right; right].
    + rewrite (add_commands _ _ _ _ Hadd2), <- (add_commands _ _ _ _ Hadd1). done.
    + by eapply aliases_stay.
Qed.

Lemma Router_new_ok host : router_ok Router_new host.
Proof. split; cbn; intros ? ? Hx; by rewrite lookup_empty in Hx. Qed.

Lemma Router_Add_ok r host def ok r' host' :
  router_ok r host -> Router_Add r host def = (ok, r', host') ->
  router_ok r' host' /\ (ok = false -> r' = r) /\
  (ok = true -> commands r' = <[ToLower (CommandName def) := def]> (commands r) /\
     commands r !! ToLower (CommandName def) = None /\ aliases r !! ToLower (CommandName def) = None /\
     (forall a k, aliases r !! a = Some k -> aliases r' !! a = Some k) /\
     (forall a k, aliases r' !! a = Some k -> aliases r !! a = None -> k = ToLower (CommandName def)) /\
     (host = None -> forall alias, In alias (Aliases def) -> ToLower alias <> [] ->
        is_Some (commands r' !! ToLower alias) \/ is_Some (aliases r' !! ToLower alias))).
Proof.
  intros [Hc Ha]. unfold Router_Add. set (name := ToLower (CommandName def)).
  destruct (match name with [] => true | _ => false end) eqn:En; [intros [= <- <- <-]; by split_and!|].
  assert (name <> []) as Hne by (by destruct name).
  destruct (bool_decide (is_Some (commands r !! name)) || bool_decide (is_Some (aliases r !! name))) eqn:E;
    [intros [= <- <- <-]; by split_and!|].
  apply orb_false_iff in E as [E1 E2]. apply bool_decide_eq_false, eq_None_not_Some in E1, E2.
  destruct (refused_by_host host name) as [b host1] eqn:Eh. destruct (refused_spec _ _ _ _ Eh) as (Hown & Hkeep & Hnone).
  destruct b; [intros [= <- <- <-]; split_and!; [split|done|done]|].
  { intros k d Hd. destruct (Hc k d Hd) as (? & ? & ?). auto. }
  { intros a k Hk. destruct (Ha a k Hk) as (? & ? & ? & ? & ?). split_and!; auto. }
  destruct (fold_left (add_alias name) (Aliases def) (r, host1)) as [r2 host2] eqn:Ef. intros [= <- <- <-].
  assert (adding r name r host1) as Hadd.
  { split; [done| |by apply Hown| |done|intros a k H1 H2; congruence].
    - intros k [d Hd]. apply Hkeep. by apply (Hc k d).
    - intros a k Hk. destruct (Ha a k Hk) as (? & ? & ? & ? & ?). split_and!; auto. congruence. }
  destruct (add_aliases_ok _ _ _ _ _ _ _ Hadd Ef) as [[A1 A2 A3 A4 A5 A6] Hfound].
  split_and!; [split; cbn| done|intros _; split_and!; cbn].
  - intros k d Hd. apply lookup_insert_Some in Hd as [[<- <-]|[Hk Hd]]; [auto|].
    rewrite A1 in Hd. destruct (Hc k d Hd) as (? & ? & ?). split_and!; auto. apply A2. rewrite A1. eauto.
  - intros a k Hk. destruct (A4 a k Hk) as (H1 & H2 & H3 & H4 & H5 & H6). split_and!; auto.
    + destruct (decide (name = k)) as [->|]; [rewrite lookup_insert_eq; eauto|]. rewrite lookup_insert_ne by done.
      by destruct H1 as [->|].
    + by rewrite lookup_insert_ne.
  - by rewrite A1.
  - done.
  - done.
  - done.
  - done.
  - intros -> alias Hal Hal'. cbn in Eh. injection Eh as <-. destruct (Hfound eq_refl alias Hal Hal') as [->|[Hx|Hx]].
    + left. rewrite lookup_insert_eq. eauto.
    + left. destruct (decide (name = ToLower alias)) as [->|]; [rewrite lookup_insert_eq; eauto|by rewrite lookup_insert_ne].
    + by right.
Qed.
End RouterFacts.

(** Registration keeps the registry consistent with itself and with the host that arbitrates names, and
    never takes a name from a command that has it: whatever found a command before still finds it; a refused
    command changes nothing; an accepted one is found by its name in any case; and without a host every alias
    it asked for leads to some command afterwards. *)
Theorem Router_Add_spec {H} `{CommandHost H} (r : Router) (host : option H) def ok r' host' :
  router_ok r host -> Router_Add r host def = (ok, r', host') ->
  router_ok r' host' /\
  (forall n d, Router_Find r n = Some d -> Router_Find r' n = Some d) /\
  (ok = false -> r' = r) /\
  (ok = true -> (forall n, ToLower n = ToLower (CommandName def) -> Router_Find r' n = Some def) /\
     (host = None -> forall alias, In alias (Aliases def) -> ToLower alias <> [] -> is_Some (Router_Find r' alias))).
Proof.
  intros Hok E. destruct (Router_Add_ok r host def ok r' host' Hok E) as (Hok' & Hfalse & Htrue).
  split_and!; [done| |done|].
  - destruct ok; [|intros n d; by rewrite (Hfalse eq_refl)]. destruct (Htrue eq_refl) as (Hc & Hn1 & Hn2 & Hkept & _).
    intros n d. unfold Router_Find. rewrite Hc. destruct (commands r !! ToLower n) as [d'|] eqn:En.
    + intros [= ->]. rewrite lookup_insert_ne by congruence. by rewrite En.
    + destruct (aliases r !! ToLower n) as [k|] eqn:Ea; [|done]. intros Hd.
      rewrite lookup_insert_ne by congruence. rewrite En, (Hkept _ _ Ea). by rewrite lookup_insert_ne by congruence.
  - intros ->. destruct (Htrue eq_refl) as (Hc & _ & _ & _ & _ & Hal). split.
    + intros n Hn. unfold Router_Find. by rewrite Hn, Hc, lookup_insert_eq.
    + intros Hh alias Hin Hne. unfold Router_Find. destruct (Hal Hh alias Hin Hne) as [[d ->]|[k Hk]]; [eauto|].
      rewrite Hk. destruct (commands r' !! ToLower alias); [eauto|]. by apply (ok_aliases r' host' Hok' _ _ Hk).
Qed.

Definition sample_command : CommandDefinition := Builder_Alias (Builder_Alias (Command_new $"Ban") $"B") $"kick".

Lemma Router_Add_spec_witness :
  let host := Some (mkNamesView [] 7 $"admin") in
  exists r' host', Router_Add Router_new host sample_command = (true, r', host') /\
    Router_Find r' $"BAN" = Some sample_command /\ router_ok r' host'.
Proof.
  cbn zeta. destruct (Router_Add Router_new (Some (mkNamesView [] 7 $"admin")) sample_command) as [[ok r'] host'] eqn:E.
  destruct (Router_Add_spec Router_new (Some (mkNamesView [] 7 $"admin")) sample_command ok r' host' (Router_new_ok _) E)
    as (Hok & _ & _ & Htrue).
  assert (ok = true) as ->.
  { vm_compute in E. injection E as <- _ _. reflexivity. }
  exists r', host'. split; [reflexivity|]. split; [|exact Hok]. apply (Htrue eq_refl). reflexivity.
Defined.


(** ** Dispatch *)

Lemma Authorize_caller rules st w (caller : Player) permission :
  roster_ok st ->
  exists result w', Authorize rules st w (Ref caller) None permission = Returns (result, w') /\
    forall a, result = Ok a -> (exists p pl, online st (Ref caller) p pl) /\ permits rules (SteamId caller) permission.
Proof.
  intros [Hm _]. unfold Authorize. destruct (GetPlayer_spec st (Ref caller) Hm) as (fc & -> & Hc). cbn.
  destruct fc as [[c pc]|]; cbn; [|by do 2 eexists].
  pose proof (CheckPermission_ok rules w pc permission) as HP. unfold authorize_players. cbn [fst snd].
  destruct (CheckPermission rules w pc permission) as [allowed w']. do 2 eexists. split; [done|].
  intros a Ha. destruct allowed as [u|e]; [|done]. split; [eauto|].
  assert (SteamId pc = SteamId caller) as <- by (destruct Hc as (_ & _ & E); unfold Ref in E; congruence).
  by apply HP.
Qed.

Section DispatchFacts.
Context {B : Type} `{ArgBinder B} (binder : B).
Context (policy : PolicyRules) (roster : Roster) (languages : LanguageTable) (translations : Translations).

Lemma dispatch_bound_ok def caller tokens origin w :
  CommandSignature (ArgList def) = true ->
  exists d, dispatch_bound binder languages translations def caller tokens origin w = Returns d /\
    forall values, ran d = Some values ->
      length values = length (ArgList def) /\ (RequiredArgs (ArgList def) <= length tokens)%nat /\
      (HasRest (ArgList def) = false -> (length tokens <= length (ArgList def))%nat).
Proof.
  intros Hs. unfold dispatch_bound. set (slot := match caller with Some c => Slot c | None => -1 end).
  destruct (negb (HasRest (ArgList def)) && (length (ArgList def) <? length tokens)%nat) eqn:E1; [by eexists|].
  destruct (Nat.ltb_spec (length tokens) (RequiredArgs (ArgList def))) as [|Hreq]; [by eexists|].
  assert (HasRest (ArgList def) = false -> (length tokens <= length (ArgList def))%nat) as Hmax.
  { intros Hr. rewrite Hr in E1. by apply Nat.ltb_ge in E1. }
  unfold CommandSignature in Hs. apply andb_prop in Hs as [Ht Hr].
  destruct (bind_loop_fits binder caller (ArgList def) tokens 0 [] Ht Hr) as (result & E & Hres); [by right|].
  unfold BindArgs. rewrite E. cbn [outcome_bind]. destruct result as [bound|e]; [|by eexists].
  destruct (Invoke def) as [handler|]; [|by eexists].
  destruct (Hres bound eq_refl) as (new & -> & Hfits). destruct (Unpack_fits _ _ Hfits) as (vs & Ev & Hl).
  cbn [app]. rewrite Ev. cbn [outcome_bind]. destruct (handler _ vs) as [lines result].
  eexists. split; [done|]. intros values [= <-]. done.
Qed.
End DispatchFacts.


Definition sample_kick : CommandDefinition :=
  mkCommand $"kick" [] [] $"kick" [] CommandAccess.Players [mkArg ArgKind.Word false] (Some (fun c vs => ([], Ok $"done"))).


(** ** Keys *)

Lemma TargetKey_default failure token : is_Some (KitDefaults !! ErrorKey (TargetKey failure token)).
Proof. unfold TargetKey. destruct (FailureError failure); eexists; vm_compute; reflexivity. Qed.

Lemma bind_one_default {B} `{ArgBinder B} (binder : B) caller kind token e :
  bind_one binder caller kind token = Returns (Err e) -> is_Some (KitDefaults !! ErrorKey e).
Proof.
  unfold bind_one, BindTarget, BindTargets, BindPlayerOrSteamId, BindDuration, BindSteamId, BindInt, BindU64.
  intros Hb. destruct kind; repeat case_match; simplify_eq; try apply TargetKey_default;
    eexists; vm_compute; reflexivity.
Qed.

Lemma bind_loop_default {B} `{ArgBinder B} (binder : B) caller args tokens i bound e :
  bind_loop binder caller args tokens i bound = Returns (Err e) -> is_Some (KitDefaults !! ErrorKey e).
Proof.
  revert i bound. induction args as [|arg args IH]; intros i bound; cbn [bind_loop]; [done|].
  destruct (tokens !! i) as [token|]; [|apply IH].
  assert ((run! parsed := bind_one binder caller (Kind arg) token in
           match parsed with Err e => Returns (Err e) | Ok b => bind_loop binder caller args tokens (S i) (bound ++ [b]) end)
          = Returns (Err e) -> is_Some (KitDefaults !! ErrorKey e)) as Hone.
  { intros Hr. returns_inv. case_match; simplify_eq; [by eapply IH|]. by eapply bind_one_default. }
  destruct (Kind arg); try exact Hone. apply IH.
Qed.

Lemma CheckPermission_key rules w caller permission e :
  (CheckPermission rules w caller permission).1 = Err e -> Key e = $"cmd.noPermission".
Proof.
  unfold CheckPermission. destruct permission as [|c l]; [done|].
  destruct (HasPermission rules) as [has|]; [destruct (has _ _)|]; by intros [= <-].
Qed.

(** Nobody is ever shown a bare translation key by dispatch: the placeholder of every argument kind, the
    usage lines and every error binding or the permission gate can reply with have a text in the framework's
    own defaults, whatever languages are loaded. *)
Theorem framework_keys_translated {B} `{ArgBinder B} (binder : B) languages translations slot :
  let translated key := is_Some (Translations_Resolve languages translations key slot) in
  (forall kind, translated (UsagePlaceholderKey kind)) /\
  translated $"cmd.usage" /\ translated $"cmd.tooManyArgs" /\
  (forall caller args tokens e, BindArgs binder caller args tokens = Returns (Err e) -> translated (ErrorKey e)) /\
  (forall rules w caller permission e, (CheckPermission rules w caller permission).1 = Err e -> translated (Key e)).
Proof.
  cbn zeta. split_and!.
  - intros kind. apply default_translated. destruct kind; eexists; vm_compute; reflexivity.
  - apply default_translated. eexists. vm_compute. reflexivity.
  - apply default_translated. eexists. vm_compute. reflexivity.
  - intros caller args tokens e He. apply default_translated. by eapply bind_loop_default.
  - intros rules w caller permission e He. apply default_translated.
    rewrite (CheckPermission_key _ _ _ _ _ He). eexists. vm_compute. reflexivity.
Qed.
