(* ===== verification/Workshop.v ===== *)
(** * Workshop addons: [Host/Workshop/DownloadQueue.cpp] and [WorkshopDownloads.cpp]

    Which addons every client must have, what each still owes, the list rewritten in the server's
    connection reply, and the host service over them. A time is a reading of the monotonic clock in
    ticks: the code keeps seconds in a [double], whose rounding is not modelled. *)
From S2P Require Import Prelude Text Identity Errors.

(** ** What the plugin host relies on: [IPluginAddons] *)

Definition is_u64 (id : Z) : Prop := 0 <= id <= uint64_max.

Class AddonHost (A : Type) := {
  addon_add : A -> Z -> bool * A;
  addon_remove : A -> Z -> A;
  (** How many matching removals an addon is still held by. *)
  addon_held : A -> Z -> Z;
  addon_ok : A -> Prop;
  addon_add_ok a id : is_u64 id -> addon_ok a -> addon_ok (addon_add a id).2;
  addon_remove_ok a id : addon_ok a -> addon_ok (addon_remove a id);
  addon_held_nonneg a id : addon_ok a -> 0 <= addon_held a id;
  addon_add_held a id other :
    addon_held (addon_add a id).2 other
    = addon_held a other + (if (addon_add a id).1 && (other =? id) then 1 else 0);
  addon_remove_held a id other :
    addon_ok a ->
    addon_held (addon_remove a id) other
    = if other =? id then Z.max 0 (addon_held a id - 1) else addon_held a other;
}.

(** ** [DownloadQueue] *)

Module AddonAction.
Inductive t : Type := Unchanged | Send | TrimToFirst | Kick | KeepMounted.
End AddonAction.

Record AddonDecision := mkDecision { Action : AddonAction.t; DecisionId : Z; Remaining : nat }.

Definition AddonDecision_default : AddonDecision := mkDecision AddonAction.Unchanged 0 0.

Record Requirement := mkRequirement { Id : Z; Holders : Z }.

Record Client := mkClient {
  Downloaded : list Z; Sending : Z; SentAt : Z; Attempts : Z; LeftAt : Z }.

Definition Client_default : Client := mkClient [] 0 0 0 0.

Record DownloadQueue := mkQueue { required : list Requirement; clients : gmap Z Client }.

Definition DownloadQueue_new : DownloadQueue := mkQueue [] ∅.

(** [++found->Holders], or a new requirement at the end. *)
Fixpoint add_holder (id : Z) (reqs : list Requirement) : list Requirement :=
  match reqs with
  | [] => [mkRequirement id 1]
  | r :: rest => if Id r =? id then mkRequirement (Id r) (Holders r + 1) :: rest else r :: add_holder id rest
  end.

Definition Queue_Add (q : DownloadQueue) (id : Z) : bool * DownloadQueue :=
  if id =? 0 then (false, q) else (true, mkQueue (add_holder id (required q)) (clients q)).

(** [--found->Holders <= 0] erases. *)
Fixpoint drop_holder (id : Z) (reqs : list Requirement) : list Requirement :=
  match reqs with
  | [] => []
  | r :: rest =>
      if Id r =? id then
        if Holders r - 1 <=? 0 then rest else mkRequirement (Id r) (Holders r - 1) :: rest
      else r :: drop_holder id rest
  end.

Definition Queue_Remove (q : DownloadQueue) (id : Z) : DownloadQueue :=
  mkQueue (drop_holder id (required q)) (clients q).

Definition Queue_Empty (q : DownloadQueue) : bool := match required q with [] => true | _ => false end.

Definition Required (q : DownloadQueue) : list Z := map Id (required q).

Definition FindClient (q : DownloadQueue) (steamId : Z) : option Client := clients q !! steamId.

(** [std::ranges::contains]. *)
Definition contains (ids : list Z) (id : Z) : bool := existsb (Z.eqb id) ids.

Definition MissingFor (q : DownloadQueue) (steamId : Z) : list Z :=
  match FindClient q steamId with
  | Some client => List.filter (fun id => negb (contains (Downloaded client) id)) (Required q)
  | None => Required q
  end.

Definition ClientMountList (q : DownloadQueue) (steamId : Z) : list Z :=
  match FindClient q steamId with
  | None => []
  | Some client =>
      List.filter (fun id => negb (negb (id =? Sending client) && negb (contains (Downloaded client) id)))
        (Required q)
  end.

Definition HasMissing (q : DownloadQueue) (steamId : Z) : bool :=
  match FindClient q steamId with
  | None => negb (Queue_Empty q)
  | Some client => existsb (fun r => negb (contains (Downloaded client) (Id r))) (required q)
  end.

(** [_clients[steamId]], which inserts a default client. *)
Definition client_at (q : DownloadQueue) (steamId : Z) : Client := default Client_default (clients q !! steamId).

Definition set_client (q : DownloadQueue) (steamId : Z) (client : Client) : DownloadQueue :=
  mkQueue (required q) (<[steamId := client]> (clients q)).

Definition NextToSend (q : DownloadQueue) (steamId now maxAttempts : Z) : AddonDecision * DownloadQueue :=
  match MissingFor q steamId with
  | [] => (AddonDecision_default, q)
  | next :: rest =>
      let client := client_at q steamId in
      let attempts := if Sending client =? next then Attempts client + 1 else 1 in
      if maxAttempts <? attempts then
        (mkDecision AddonAction.Kick next 0,
         set_client q steamId (mkClient (Downloaded client) (Sending client) (SentAt client) attempts (LeftAt client)))
      else
        (mkDecision AddonAction.Send next (length rest),
         set_client q steamId (mkClient (Downloaded client) next now attempts (LeftAt client)))
  end.

Definition MarkSending (q : DownloadQueue) (steamId id now : Z) : DownloadQueue :=
  if id =? 0 then q
  else
    let client := client_at q steamId in
    set_client q steamId (mkClient (Downloaded client) id now 0 (LeftAt client)).

Definition ClientReconnected (q : DownloadQueue) (steamId now timeoutSec : Z) : DownloadQueue :=
  match clients q !! steamId with
  | None => q
  | Some c =>
      if Sending c =? 0 then set_client q steamId (mkClient (Downloaded c) (Sending c) (SentAt c) (Attempts c) 0)
      else if now - SentAt c <=? timeoutSec then
        let downloaded := if contains (Downloaded c) (Sending c) then Downloaded c else Downloaded c ++ [Sending c] in
        set_client q steamId (mkClient downloaded 0 (SentAt c) 0 0)
      else set_client q steamId (mkClient (Downloaded c) 0 (SentAt c) (Attempts c) 0)
  end.

Definition forgotten (now forgetAfterSec : Z) (c : Client) : bool :=
  (0 <? LeftAt c) && (forgetAfterSec <? now - LeftAt c).

Definition ClientLeft (q : DownloadQueue) (steamId now forgetAfterSec : Z) : DownloadQueue :=
  let left_at := alter (fun c => mkClient (Downloaded c) (Sending c) (SentAt c) (Attempts c) now) steamId (clients q) in
  mkQueue (required q) (filter (fun entry => forgotten now forgetAfterSec entry.2 = false) left_at).

Definition ClearProgress (q : DownloadQueue) : DownloadQueue := mkQueue (required q) ∅.

(** ** The comma-separated [addons] field *)

(** The entries from the one being read, whose bytes so far are [current]. *)
Fixpoint split_entries (current s : text) : list text :=
  match s with
  | [] => [current]
  | c :: rest =>
      if Ascii.eqb c ","%char then current :: split_entries [] rest else split_entries (current ++ [c]) rest
  end.

Definition SplitAddonList (field : text) : list text :=
  match field with [] => [] | _ => split_entries [] field end.

Definition addon_id (entry : text) : option Z :=
  match ParseUInt64 entry with
  | Some id => if id =? 0 then None else Some id
  | None => None
  end.

Definition ParseAddonList (field : text) : list Z := omap addon_id (SplitAddonList field).

Fixpoint append_ids (named : list Z) (field : text) (appended ids : list Z) : list Z * text :=
  match ids with
  | [] => (appended, field)
  | id :: rest =>
      if (id =? 0) || contains named id || contains appended id then append_ids named field appended rest
      else
        let field' := (match field with [] => [] | _ => field ++ $"," end) ++ dec id in
        append_ids named field' (appended ++ [id]) rest
  end.

Definition AppendToAddonList (field : text) (ids : list Z) : list Z * text :=
  append_ids (ParseAddonList field) field [] ids.

Fixpoint erase_entry (id : Z) (entries : list text) : list text :=
  match entries with
  | [] => []
  | entry :: rest => if bool_decide (ParseUInt64 entry = Some id) then rest else entry :: erase_entry id rest
  end.

(** The loop that rejoins the entries, each after a comma but the first. *)
Definition join_entries (entries : list text) : text := Join entries $",".

Definition RemoveFromAddonList (field : text) (ids : list Z) : text :=
  join_entries (fold_left (fun entries id => erase_entry id entries) ids (SplitAddonList field)).

Definition DecideJoinMessage (q : DownloadQueue) (steamId : Z) (reconnect : bool) (addons : text) (now maxAttempts : Z)
    : AddonDecision * DownloadQueue :=
  if negb reconnect then NextToSend q steamId now maxAttempts
  else
    match ParseAddonList addons with
    | [] =>
        match ClientMountList q steamId with
        | [] => (AddonDecision_default, q)
        | mounted :: _ => (mkDecision AddonAction.KeepMounted mounted 0, q)
        end
    | first :: rest =>
        let q' := MarkSending q steamId first now in
        match rest with
        | [] => (AddonDecision_default, q')
        | _ => (mkDecision AddonAction.TrimToFirst first (length rest), q')
        end
    end.

(** ** [WorkshopDownloads] *)

(** Times are ticks here; [ticks_per_second] is what a second is worth. *)
Definition ticks_per_second : Z := 1000.
Definition DownloadTimeout : Z := 30 * ticks_per_second.
Definition MaxDownloadAttempts : Z := 3.
Definition ForgetAfter : Z := 12 * 60 * 60 * ticks_per_second.

Record QueuedKick := mkKick { KickSlot : Z; KickSteamId : Z }.

(** [Hooked] is both hooks: they are installed and dropped together. *)
Record WorkshopDownloads := mkWorkshop {
  Queue : DownloadQueue; Kicks : list QueuedKick; AddedToReply : list Z; Hooked : bool }.

Definition Workshop_new : WorkshopDownloads := mkWorkshop DownloadQueue_new [] [] false.

(** The outgoing [CNETMsg_SignonState], the two fields the hook reads and rewrites. *)
Record JoinMessage := mkJoin { SignonState : Z; Addons : text }.

Definition with_queue (w : WorkshopDownloads) (q : DownloadQueue) : WorkshopDownloads :=
  mkWorkshop q (Kicks w) (AddedToReply w) (Hooked w).

(** What the service asks of the engine: whether there is an engine interface and a dedicated server, whether
    the two offsets bound, what installing each hook gives, and the SDK's "reconnect" signon state. *)
Record WorkshopEngine := mkEngine {
  HasEngine : bool; IsDedicatedServer : bool; OffsetsBound : bool;
  HookJoin : Status; HookReply : Status; ChangeLevelState : Z }.

Section Downloads.
Context (engine : WorkshopEngine).

Definition Install (w : WorkshopDownloads) : Status * WorkshopDownloads :=
  if Hooked w then (Ok tt, w)
  else if negb (HasEngine engine) || negb (IsDedicatedServer engine) then
    (Err (Error_Unsupported $"addon downloads need a dedicated server"), w)
  else if negb (OffsetsBound engine) then
    (Err (Error_Unsupported $"the client SteamID or server addons offset did not bind"), w)
  else
    match HookJoin engine with
    | Err e => (Err (Error_Unsupported (Detail e)), w)
    | Ok _ =>
        match HookReply engine with
        | Err e => (Err (Error_Unsupported (Detail e)), w)
        | Ok _ => (Ok tt, mkWorkshop (Queue w) (Kicks w) (AddedToReply w) true)
        end
    end.

Definition Workshop_Add (w : WorkshopDownloads) (addonId : Z) : bool * WorkshopDownloads :=
  if addonId =? 0 then (false, w)
  else
    match Install w with
    | (Err _, w') => (false, w')
    | (Ok _, w') => let '(added, q) := Queue_Add (Queue w') addonId in (added, with_queue w' q)
    end.

Definition RemoveHooksIfUnused (w : WorkshopDownloads) : WorkshopDownloads :=
  if negb (Queue_Empty (Queue w)) then w else mkWorkshop (ClearProgress (Queue w)) [] [] false.

Definition Workshop_Remove (w : WorkshopDownloads) (addonId : Z) : WorkshopDownloads :=
  RemoveHooksIfUnused (with_queue w (Queue_Remove (Queue w) addonId)).

(** [xuid] is [IVEngineServer2::GetClientXUID]. *)
Definition Workshop_IsReady (w : WorkshopDownloads) (xuid : Z -> Z) (slot : Z) : bool :=
  if Queue_Empty (Queue w) || negb (IsValidSlot slot) || negb (HasEngine engine) then true
  else negb (HasMissing (Queue w) (xuid slot)).

Definition Workshop_OnClientConnected (w : WorkshopDownloads) (steamId now : Z) : WorkshopDownloads :=
  if Queue_Empty (Queue w) then w else with_queue w (ClientReconnected (Queue w) steamId now DownloadTimeout).

Definition Workshop_OnClientDisconnected (w : WorkshopDownloads) (steamId now : Z) : WorkshopDownloads :=
  if Queue_Empty (Queue w) then w else with_queue w (ClientLeft (Queue w) steamId now ForgetAfter).

(** The slots dropped, in order, and the service with no kick queued. *)
Definition Workshop_OnFrame (w : WorkshopDownloads) (xuid : Z -> Z) : list Z * WorkshopDownloads :=
  (map KickSlot (List.filter (fun kick => xuid (KickSlot kick) =? KickSteamId kick) (Kicks w)),
   mkWorkshop (Queue w) [] (AddedToReply w) (Hooked w)).

(** [fresh] is what comparing the string at the offset with [GetAddonName] says; a stale offset gives no list. *)
Definition AddToReply (w : WorkshopDownloads) (fresh : bool) (steamId : Z) (server : text) : WorkshopDownloads * text :=
  if negb (IsValid steamId) then (w, server)
  else
    match ClientMountList (Queue w) steamId with
    | [] => (w, server)
    | mountList =>
        if negb fresh then (w, server)
        else
          let '(appended, field) := AppendToAddonList server mountList in
          (mkWorkshop (Queue w) (Kicks w) appended (Hooked w), match appended with [] => server | _ => field end)
    end.

Definition RestoreReply (w : WorkshopDownloads) (fresh : bool) (server : text) : WorkshopDownloads * text :=
  match AddedToReply w with
  | [] => (w, server)
  | added =>
      let w' := mkWorkshop (Queue w) (Kicks w) [] (Hooked w) in
      if negb fresh then (w', server) else (w', RemoveFromAddonList server added)
  end.

(** A sign-on message to a client whose SteamID and slot the bindings read as [steamId] and [slot]. *)
Definition OnJoinMessage (w : WorkshopDownloads) (steamId slot now : Z) (message : JoinMessage)
    : WorkshopDownloads * JoinMessage :=
  if negb (IsValid steamId) then (w, message)
  else
    let reconnect := SignonState message =? ChangeLevelState engine in
    let '(decision, q) := DecideJoinMessage (Queue w) steamId reconnect (Addons message) now MaxDownloadAttempts in
    let w' := with_queue w q in
    match Action decision with
    | AddonAction.Unchanged => (w', message)
    | AddonAction.TrimToFirst | AddonAction.KeepMounted =>
        (w', mkJoin (SignonState message) (dec (DecisionId decision)))
    | AddonAction.Kick =>
        ((if IsValidSlot slot then mkWorkshop q (Kicks w' ++ [mkKick slot steamId]) (AddedToReply w') (Hooked w') else w'),
         message)
    | AddonAction.Send => (w', mkJoin (ChangeLevelState engine) (dec (DecisionId decision)))
    end.

End Downloads.

(** ** Facts about the requirements *)

Definition queue_ok (q : DownloadQueue) : Prop :=
  NoDup (Required q) /\ Forall (fun r => 1 <= Holders r /\ 1 <= Id r <= uint64_max) (required q).

(** How many holders a requirement has; none when it is not required. *)
Fixpoint holders (id : Z) (reqs : list Requirement) : Z :=
  match reqs with
  | [] => 0
  | r :: rest => if Id r =? id then Holders r else holders id rest
  end.

Lemma holders_absent id reqs : ~ In id (map Id reqs) -> holders id reqs = 0.
Proof.
  induction reqs as [|r reqs IH]; cbn; [done|]. intros Hn.
  destruct (Z.eqb_spec (Id r) id) as [Heq|]; [tauto|]. apply IH. tauto.
Qed.

Lemma holders_add id reqs other :
  holders other (add_holder id reqs) = holders other reqs + (if other =? id then 1 else 0).
Proof.
  induction reqs as [|r reqs IH]; cbn [add_holder holders].
  - cbn. rewrite (Z.eqb_sym id other). destruct (Z.eqb_spec other id); lia.
  - destruct (Z.eqb_spec (Id r) id) as [Hid|Hid]; cbn [holders Id Holders].
    + rewrite Hid, (Z.eqb_sym id other). destruct (Z.eqb_spec other id); [done|lia].
    + destruct (Z.eqb_spec (Id r) other) as [<-|]; [|by rewrite IH].
      destruct (Z.eqb_spec (Id r) id); [done|lia].
Qed.

Lemma In_add_holder id reqs x : In x (map Id (add_holder id reqs)) <-> x = id \/ In x (map Id reqs).
Proof.
  induction reqs as [|r reqs IH]; cbn; [firstorder|].
  destruct (Z.eqb_spec (Id r) id) as [<-|]; cbn; [firstorder|]. rewrite IH. firstorder.
Qed.

Lemma In_drop_holder id reqs x : In x (map Id (drop_holder id reqs)) -> In x (map Id reqs).
Proof.
  induction reqs as [|r reqs IH]; cbn; [done|]. repeat case_match; cbn; firstorder.
Qed.

Lemma holders_drop id reqs other :
  NoDup (map Id reqs) -> Forall (fun r => 1 <= Holders r) reqs ->
  holders other (drop_holder id reqs) = if other =? id then Z.max 0 (holders id reqs - 1) else holders other reqs.
Proof.
  induction reqs as [|r reqs IH]; cbn [drop_holder holders map]; intros Hnd Hp; [by destruct (other =? id)|].
  apply NoDup_cons in Hnd as [Hnot Hnd]. rewrite list_elem_of_In in Hnot. apply Forall_cons in Hp as [Hr Hp].
  destruct (Z.eqb_spec (Id r) id) as [<-|Hid].
  - destruct (Z.leb_spec (Holders r - 1) 0).
    + rewrite (Z.eqb_sym (Id r) other). destruct (Z.eqb_spec other (Id r)) as [Ho|]; [rewrite Ho|done].
      rewrite holders_absent by done. lia.
    + cbn [holders Id Holders]. rewrite (Z.eqb_sym (Id r) other). destruct (Z.eqb_spec other (Id r)); [lia|done].
  - cbn [holders]. destruct (Z.eqb_spec (Id r) other) as [<-|].
    + destruct (Z.eqb_spec (Id r) id); [done|lia].
    + by apply IH.
Qed.

Lemma queue_ok_new : queue_ok DownloadQueue_new.
Proof. split; constructor. Qed.

Lemma queue_ok_add q id : 0 <= id <= uint64_max -> queue_ok q -> queue_ok (Queue_Add q id).2.
Proof.
  intros Hid [Hnd Hp]. unfold Queue_Add. destruct (Z.eqb_spec id 0) as [|Hz]; [done|].
  unfold queue_ok, Required in *. cbn [snd required] in *. revert Hnd Hp.
  induction (required q) as [|r reqs IH]; cbn [add_holder map]; intros Hnd Hp.
  - split; [repeat constructor; set_solver|]. constructor; [cbn; lia|done].
  - apply NoDup_cons in Hnd as [Hnot Hnd]. apply Forall_cons in Hp as [Hr Hp].
    destruct (Z.eqb_spec (Id r) id) as [Heq|Hne]; cbn [map Id].
    + split; [by constructor|]. constructor; [cbn; lia|done].
    + destruct (IH Hnd Hp) as [IH1 IH2]. split; [|by constructor]. constructor; [|done].
      rewrite list_elem_of_In in *. rewrite In_add_holder. intros [?|?]; tauto.
Qed.

Lemma queue_ok_remove q id : queue_ok q -> queue_ok (Queue_Remove q id).
Proof.
  intros [Hnd Hp]. unfold queue_ok, Required, Queue_Remove in *. cbn [required] in *. revert Hnd Hp.
  induction (required q) as [|r reqs IH]; cbn [drop_holder map]; intros Hnd Hp; [done|].
  apply NoDup_cons in Hnd as [Hnot Hnd]. apply Forall_cons in Hp as [Hr Hp].
  destruct (Z.eqb_spec (Id r) id) as [Heq|Hne].
  - destruct (Z.leb_spec (Holders r - 1) 0); [done|]. cbn [map Id].
    split; [by constructor|]. constructor; [cbn; lia|done].
  - destruct (IH Hnd Hp) as [IH1 IH2]. cbn [map]. split; [|by constructor]. constructor; [|done].
    rewrite list_elem_of_In in *. intros Hin. by apply In_drop_holder in Hin.
Qed.

(** ** The reply's list of addons *)

Definition comma : ascii := ","%char.

Lemma digit_not_comma c : is_dec_digit c = true -> Ascii.eqb c comma = false.
Proof.
  intros Hc. destruct (Ascii.eqb_spec c comma) as [->|]; [|done]. exfalso. revert Hc. by vm_compute.
Qed.

Lemma split_entries_nonempty current s : split_entries current s <> [].
Proof. revert current. induction s as [|c s IH]; intros current; cbn; [done|]. case_match; [done|apply IH]. Qed.

Lemma split_entries_word current s :
  forallb is_dec_digit s = true -> split_entries current s = [current ++ s].
Proof.
  revert current. induction s as [|c s IH]; intros current; cbn; [by rewrite app_nil_r|].
  intros Hs. apply andb_prop in Hs as [Hc Hs]. fold comma. rewrite digit_not_comma by done.
  rewrite IH by done. by rewrite <- app_assoc.
Qed.

Lemma split_entries_app current a b :
  split_entries current (a ++ comma :: b) = split_entries current a ++ split_entries [] b.
Proof.
  revert current. induction a as [|c a IH]; intros current; cbn [app split_entries].
  - by rewrite Ascii.eqb_refl.
  - case_match; cbn [app]; [|apply IH]. by rewrite IH.
Qed.

Lemma join_split_entries current s : join_entries (split_entries current s) = current ++ s.
Proof.
  revert current. induction s as [|c s IH]; intros current; cbn [split_entries]; [by rewrite app_nil_r|].
  destruct (Ascii.eqb_spec c ",") as [->|].
  - pose proof (split_entries_nonempty [] s). specialize (IH []). unfold join_entries in *.
    destruct (split_entries [] s) as [|e es]; [done|]. rewrite Join_cons, IH. done.
  - rewrite IH. by rewrite <- app_assoc.
Qed.

Lemma join_split field : join_entries (SplitAddonList field) = field.
Proof. destruct field as [|c s]; [done|]. unfold SplitAddonList. by rewrite join_split_entries. Qed.

Lemma split_append field id :
  0 <= id ->
  SplitAddonList (match field with [] => [] | _ => field ++ $"," end ++ dec id) = SplitAddonList field ++ [dec id].
Proof.
  intros Hid. pose proof (dec_all_digits id Hid) as Hd. destruct field as [|c field].
  - unfold SplitAddonList. pose proof (dec_nonempty id). cbn [app].
    destruct (dec id) as [|d ds] eqn:E; [done|]. by rewrite split_entries_word.
  - change ($",") with [comma]. rewrite <- app_assoc. unfold SplitAddonList. cbn [app].
    change (c :: field ++ comma :: dec id) with ((c :: field) ++ comma :: dec id).
    rewrite split_entries_app. by rewrite (split_entries_word [] (dec id)).
Qed.

Lemma contains_In ids id : contains ids id = true <-> In id ids.
Proof.
  unfold contains. rewrite existsb_exists. split; [intros (x & Hx & E); apply Z.eqb_eq in E; by subst|].
  intros Hin. exists id. by rewrite Z.eqb_refl.
Qed.

Lemma contains_false ids id : contains ids id = false <-> ~ In id ids.
Proof. rewrite <- contains_In. by destruct (contains ids id). Qed.

(** What was appended: fresh ids, each once, as entries of their own at the end. *)
Lemma append_ids_spec named field appended ids appended' field' :
  Forall (fun id => 0 <= id <= uint64_max) ids -> NoDup appended -> append_ids named field appended ids = (appended', field') ->
  exists more, appended' = appended ++ more /\ NoDup appended' /\
    SplitAddonList field' = SplitAddonList field ++ map dec more /\
    (forall id, In id more -> In id ids /\ 1 <= id <= uint64_max /\ ~ In id named) /\
    (forall id, In id ids -> id <> 0 -> In id named \/ In id appended').
Proof.
  revert field appended. induction ids as [|id ids IH]; cbn [append_ids]; intros field appended Hids Hnd Ha.
  - injection Ha as <- <-. exists []. rewrite !app_nil_r. split_and!; [done..| |]; by intros ? [].
  - apply Forall_cons in Hids as [Hid Hids].
    destruct ((id =? 0) || contains named id || contains appended id) eqn:Hskip.
    + destruct (IH _ _ Hids Hnd Ha) as (more & -> & Hnd' & Hs & Hm & Hc). exists more. split_and!; [done..| |].
      * intros x Hx. destruct (Hm x Hx) as (?&?&?). split; [by right|done].
      * intros x [<-|Hx] Hz; [|by apply Hc]. rewrite in_app_iff.
        apply orb_true_iff in Hskip as [Hskip|Hskip%contains_In]; [|tauto].
        apply orb_true_iff in Hskip as [Hskip%Z.eqb_eq|Hskip%contains_In]; tauto.
    + apply orb_false_iff in Hskip as [Hskip Hna]. apply orb_false_iff in Hskip as [Hz Hnn].
      rewrite contains_false in Hna, Hnn. apply Z.eqb_neq in Hz.
      assert (NoDup (appended ++ [id])) as Hnd1.
      { apply NoDup_app. split_and!; [done| |repeat constructor; set_solver].
        intros x Hx. rewrite !list_elem_of_In in *. intros [->|[]]; done. }
      destruct (IH _ _ Hids Hnd1 Ha) as (more & -> & Hnd' & Hs & Hm & Hc). exists (id :: more).
      rewrite <- app_assoc in *. cbn [app] in *. split_and!; [done|done| | |].
      * rewrite Hs, split_append by lia. by rewrite <- app_assoc.
      * intros x [<-|Hx]; [split_and!; [by left|lia..|done]|].
        destruct (Hm x Hx) as (?&?&?). split; [by right|done].
      * intros x [<-|Hx] Hxz; [right; rewrite in_app_iff; right; by left|by apply Hc].
Qed.

Lemma erase_appended entries more :
  Forall (fun id => 1 <= id <= uint64_max) more ->
  (forall id e, In id more -> In e entries -> ParseUInt64 e <> Some id) ->
  fold_left (fun es id => erase_entry id es) more (entries ++ map dec more) = entries.
Proof.
  induction more as [|id more IH]; cbn [fold_left map]; intros Hr Hfresh; [by rewrite app_nil_r|].
  apply Forall_cons in Hr as [Hid Hr].
  assert (erase_entry id (entries ++ dec id :: map dec more) = entries ++ map dec more) as ->.
  { assert (forall e, In e entries -> ParseUInt64 e <> Some id) as Hf by (intros; apply Hfresh; [by left|done]).
    clear -Hf Hid. induction entries as [|e entries IH]; cbn [app erase_entry].
    - rewrite bool_decide_eq_true_2; [done|]. unfold ParseUInt64. apply parse_whole_dec; lia.
    - rewrite bool_decide_eq_false_2 by (apply Hf; by left). f_equal. apply IH. intros; apply Hf; by right. }
  apply IH; [done|]. intros; apply Hfresh; [by right|done].
Qed.

Lemma In_ParseAddonList field id : In id (ParseAddonList field) <-> exists e, In e (SplitAddonList field) /\ addon_id e = Some id.
Proof. unfold ParseAddonList. rewrite <- list_elem_of_In, list_elem_of_omap. setoid_rewrite list_elem_of_In. done. Qed.

Lemma addon_id_dec id : 1 <= id <= uint64_max -> addon_id (dec id) = Some id.
Proof.
  intros Hid. unfold addon_id, ParseUInt64. rewrite parse_whole_dec by lia. by destruct (Z.eqb_spec id 0); [lia|].
Qed.

Lemma Append_spec field ids appended field' :
  Forall (fun id => 0 <= id <= uint64_max) ids -> AppendToAddonList field ids = (appended, field') ->
  RemoveFromAddonList field' appended = field /\
  (appended = [] -> field' = field) /\
  (forall id, In id ids -> id <> 0 -> In id (ParseAddonList field')).
Proof.
  intros Hids Ha. unfold AppendToAddonList in Ha.
  destruct (append_ids_spec _ _ _ _ _ _ Hids ltac:(constructor) Ha) as (more & -> & _ & Hs & Hm & Hc).
  cbn [app] in *. split_and!.
  - unfold RemoveFromAddonList. rewrite Hs, erase_appended, join_split; [done| |].
    + apply Forall_forall. intros id Hid. rewrite list_elem_of_In in Hid. by apply Hm.
    + intros id e Hid He Hp. destruct (Hm id Hid) as (_ & Hr & Hn). apply Hn, In_ParseAddonList. exists e.
      split; [done|]. unfold addon_id. rewrite Hp. by destruct (Z.eqb_spec id 0); [lia|].
  - intros ->. cbn in Hs. rewrite app_nil_r in Hs. rewrite <- (join_split field'), Hs. apply join_split.
  - intros id Hid Hz. apply In_ParseAddonList. destruct (Hc id Hid Hz) as [Hn|Hn].
    + apply In_ParseAddonList in Hn as (e & He & Hi). exists e. rewrite Hs, in_app_iff. eauto.
    + exists (dec id). rewrite Hs, in_app_iff. split; [right; by apply in_map|]. apply addon_id_dec. by apply Hm.
Qed.

(** ** The service as a plugin host uses it *)

Record WorkshopService := mkService { service_engine : WorkshopEngine; service_downloads : WorkshopDownloads }.

Lemma holders_nonneg id reqs : Forall (fun r => 1 <= Holders r) reqs -> 0 <= holders id reqs.
Proof. induction 1; cbn; [lia|]. case_match; lia. Qed.

Lemma queue_ok_holders q : queue_ok q -> Forall (fun r => 1 <= Holders r) (required q).
Proof. intros [_ Hp]. eapply Forall_impl; [exact Hp|]. cbn. lia. Qed.

Lemma Install_queue engine w : Queue (Install engine w).2 = Queue w.
Proof. unfold Install. repeat case_match; done. Qed.

Lemma Workshop_Add_queue engine w id :
  Queue (Workshop_Add engine w id).2
  = if (Workshop_Add engine w id).1 then (Queue_Add (Queue w) id).2 else Queue w.
Proof.
  unfold Workshop_Add, Queue_Add. destruct (id =? 0) eqn:Hz; [done|].
  pose proof (Install_queue engine w) as Hq. destruct (Install engine w) as [[[]|e] w']; cbn in *; [by rewrite Hq|done].
Qed.

Lemma Workshop_Remove_queue w id : required (Queue (Workshop_Remove w id)) = drop_holder id (required (Queue w)).
Proof. unfold Workshop_Remove, RemoveHooksIfUnused. by case_match. Qed.

#[export] Program Instance Workshop_addons : AddonHost WorkshopService := {
  addon_add s id :=
    let '(added, w) := Workshop_Add (service_engine s) (service_downloads s) id in (added, mkService (service_engine s) w);
  addon_remove s id := mkService (service_engine s) (Workshop_Remove (service_downloads s) id);
  addon_held s id := holders id (required (Queue (service_downloads s)));
  addon_ok s := queue_ok (Queue (service_downloads s));
}.
Next Obligation.
  intros [engine w] id Hid Hok. cbn in *. pose proof (Workshop_Add_queue engine w id) as Hq.
  destruct (Workshop_Add engine w id) as [added w']. cbn in *. rewrite Hq. destruct added; [by apply queue_ok_add|done].
Qed.
Next Obligation.
  intros [engine w] id Hok. cbn in *. pose proof (queue_ok_remove _ id Hok) as [H1 H2].
  unfold queue_ok, Required in *. rewrite Workshop_Remove_queue. done.
Qed.
Next Obligation. intros [engine w] id Hok. apply holders_nonneg. by apply queue_ok_holders. Qed.
Next Obligation.
  intros [engine w] id other. cbn. pose proof (Workshop_Add_queue engine w id) as Hq.
  assert ((Workshop_Add engine w id).1 = true -> id <> 0) as Hz.
  { unfold Workshop_Add. destruct (Z.eqb_spec id 0); [done|]. by intros _. }
  destruct (Workshop_Add engine w id) as [added w']. cbn in *. rewrite Hq. destruct added; cbn [andb]; [|lia].
  unfold Queue_Add. destruct (Z.eqb_spec id 0); [by apply Hz in e|]. cbn [snd required]. apply holders_add.
Qed.
Next Obligation.
  intros [engine w] id other Hok. cbn in *. rewrite Workshop_Remove_queue. apply holders_drop; [apply Hok|].
  by apply queue_ok_holders.
Qed.

(** ** A client's downloads *)

(** One offer, and the client back [later]. *)
Definition download_round (timeout maxAttempts steamId : Z) (q : DownloadQueue) (times : Z * Z)
    : AddonDecision * DownloadQueue :=
  let '(decision, q') := NextToSend q steamId times.1 maxAttempts in
  (decision, ClientReconnected q' steamId times.2 timeout).

Fixpoint download_rounds (timeout maxAttempts steamId : Z) (rounds : list (Z * Z)) (q : DownloadQueue)
    : list AddonDecision * DownloadQueue :=
  match rounds with
  | [] => ([], q)
  | times :: rest =>
      let '(decision, q') := download_round timeout maxAttempts steamId q times in
      let '(decisions, q'') := download_rounds timeout maxAttempts steamId rest q' in (decision :: decisions, q'')
  end.

(** The decisions that offer [missing] one after the other. *)
Fixpoint sends (missing : list Z) : list AddonDecision :=
  match missing with
  | [] => []
  | id :: rest => mkDecision AddonAction.Send id (length rest) :: sends rest
  end.

Lemma NoDup_filter_missing q steamId : queue_ok q -> NoDup (MissingFor q steamId).
Proof.
  intros [Hnd _]. unfold MissingFor. destruct (FindClient q steamId); [|done].
  apply NoDup_ListNoDup, List.NoDup_filter. by apply NoDup_ListNoDup.
Qed.

Lemma missing_facts q steamId id : queue_ok q -> In id (MissingFor q steamId) -> 1 <= id <= uint64_max.
Proof.
  intros [_ Hp] Hin. assert (In id (Required q)) as Hr.
  { unfold MissingFor in Hin. destruct (FindClient q steamId); [|done].
    apply filter_In in Hin as [Hin _]. exact Hin. }
  unfold Required in Hr. apply in_map_iff in Hr as (r & <- & Hr). rewrite Forall_forall in Hp.
  apply Hp. by rewrite list_elem_of_In.
Qed.

Lemma filter_downloaded downloaded required next rest :
  NoDup required -> List.filter (fun id => negb (contains downloaded id)) required = next :: rest ->
  List.filter (fun id => negb (contains (downloaded ++ [next]) id)) required = rest.
Proof.
  intros Hnd. assert (forall id, contains (downloaded ++ [next]) id = contains downloaded id || (id =? next)) as Hc.
  { intros id. unfold contains. rewrite existsb_app. cbn. by rewrite orb_false_r. }
  revert next rest Hc. induction required as [|r required IH]; cbn; intros next rest Hc; [done|].
  apply NoDup_cons in Hnd as [Hnot Hnd]. rewrite list_elem_of_In in Hnot. rewrite Hc.
  destruct (contains downloaded r); cbn [negb orb]; [by apply IH|]. intros [= -> Hr]. rewrite Z.eqb_refl. cbn [negb].
  rewrite <- Hr. apply List.filter_ext_in. intros x Hx. rewrite Hc. destruct (Z.eqb_spec x next); [congruence|].
  by rewrite orb_false_r.
Qed.

Lemma client_at_set q steamId c : client_at (set_client q steamId c) steamId = c.
Proof. unfold client_at, set_client. cbn. by rewrite lookup_insert_eq. Qed.

Lemma MissingFor_at q steamId :
  MissingFor q steamId = List.filter (fun id => negb (contains (Downloaded (client_at q steamId)) id)) (Required q).
Proof.
  unfold MissingFor, client_at, FindClient. destruct (clients q !! steamId); [done|]. cbn.
  induction (Required q) as [|r l IH]; cbn; congruence.
Qed.

Lemma Sending_set q steamId c d : MissingFor (set_client q steamId c) steamId = d ->
  List.filter (fun id => negb (contains (Downloaded c) id)) (Required q) = d.
Proof. rewrite MissingFor_at, client_at_set. done. Qed.

(** A client that is back in time after an offer has that addon, and owes the rest. *)
Lemma round_in_time timeout maxAttempts steamId q times next rest :
  queue_ok q -> 1 <= maxAttempts -> Sending (client_at q steamId) = 0 -> MissingFor q steamId = next :: rest ->
  times.2 - times.1 <= timeout ->
  let '(decision, q') := download_round timeout maxAttempts steamId q times in
  decision = mkDecision AddonAction.Send next (length rest) /\ queue_ok q' /\
  Sending (client_at q' steamId) = 0 /\ MissingFor q' steamId = rest.
Proof.
  intros Hok Hmax Hs Hm Ht. pose proof (missing_facts q steamId next Hok) as Hnext.
  rewrite Hm in Hnext. specialize (Hnext (or_introl eq_refl)).
  unfold download_round, NextToSend. rewrite Hm, Hs. destruct (Z.eqb_spec 0 next); [lia|].
  destruct (Z.ltb_spec maxAttempts 1); [lia|].
  unfold ClientReconnected, set_client. cbn [clients]. rewrite lookup_insert_eq. cbn [Sending SentAt Downloaded].
  destruct (Z.eqb_spec next 0); [lia|]. destruct (Z.leb_spec (times.2 - times.1) timeout); [|lia].
  rewrite MissingFor_at in Hm.
  assert (contains (Downloaded (client_at q steamId)) next = false) as ->.
  { assert (In next (List.filter (fun id => negb (contains (Downloaded (client_at q steamId)) id)) (Required q)))
      as Hin by (rewrite Hm; by left).
    apply filter_In in Hin as [_ Hin]. by apply negb_true_iff. }
  split_and!; [done|exact Hok| |].
  - unfold client_at. cbn [clients]. by rewrite lookup_insert_eq.
  - rewrite MissingFor_at. unfold client_at at 1. cbn [clients required]. rewrite lookup_insert_eq. cbn [default Downloaded].
    apply filter_downloaded; [apply Hok|exact Hm].
Qed.

Lemma MissingFor_nil q steamId : MissingFor q steamId = [] -> HasMissing q steamId = false.
Proof.
  unfold MissingFor, HasMissing, Queue_Empty, Required. destruct (FindClient q steamId) as [c|].
  - induction (required q) as [|r l IH]; cbn; [done|].
    destruct (contains (Downloaded c) (Id r)); cbn; [apply IH|done].
  - by destruct (required q).
Qed.

(** C17. Downloads make progress to the end: a client that reconnects in time after every offer is offered each
    addon it owes, once and in send order with the right count of those left, and then owes nothing, so the
    next join message is left alone and [IsReady] holds. *)
Theorem download_rounds_complete timeout maxAttempts steamId q rounds :
  queue_ok q -> 1 <= maxAttempts -> Sending (client_at q steamId) = 0 ->
  length rounds = length (MissingFor q steamId) ->
  Forall (fun times => times.2 - times.1 <= timeout) rounds ->
  let '(decisions, q') := download_rounds timeout maxAttempts steamId rounds q in
  decisions = sends (MissingFor q steamId) /\ MissingFor q' steamId = [] /\ HasMissing q' steamId = false /\
  forall now, NextToSend q' steamId now maxAttempts = (AddonDecision_default, q').
Proof.
  intros Hok Hmax Hs Hlen Ht. revert q Hok Hs Hlen. induction Ht as [|times rounds Ht _ IH]; intros q Hok Hs Hlen;
    cbn [download_rounds].
  - symmetry in Hlen. apply nil_length_inv in Hlen. rewrite Hlen. split_and!; [done..| |].
    + by apply MissingFor_nil.
    + intros now. unfold NextToSend. by rewrite Hlen.
  - destruct (MissingFor q steamId) as [|next rest] eqn:Hm; [done|].
    pose proof (round_in_time timeout maxAttempts steamId q times next rest Hok Hmax Hs Hm Ht) as Hr.
    destruct (download_round timeout maxAttempts steamId q times) as [decision q1].
    destruct Hr as (-> & Hok1 & Hs1 & Hm1). specialize (IH q1 Hok1 Hs1). rewrite Hm1 in IH.
    cbn [length] in Hlen. specialize (IH ltac:(lia)).
    destruct (download_rounds timeout maxAttempts steamId rounds q1) as [decisions q2].
    destruct IH as (-> & IH). done.
Qed.

Definition sample_queue : DownloadQueue :=
  mkQueue [mkRequirement 3 1; mkRequirement 5 2; mkRequirement 9 1] {[ 42 := mkClient [5] 0 0 0 0 ]}.

Lemma sample_queue_ok : queue_ok sample_queue.
Proof.
  split; [apply NoDup_ListNoDup; cbn; repeat constructor; cbn; lia|].
  repeat constructor; cbn; unfold uint64_max; lia.
Qed.

Lemma download_rounds_complete_witness :
  MissingFor sample_queue 42 = [3; 9] /\
  let '(decisions, q') := download_rounds 30 3 42 [(0, 10); (20, 50)] sample_queue in
  decisions = sends [3; 9] /\ MissingFor q' 42 = [] /\ HasMissing q' 42 = false /\
  forall now, NextToSend q' 42 now 3 = (AddonDecision_default, q').
Proof.
  split; [by vm_compute|].
  apply (download_rounds_complete 30 3 42 sample_queue [(0, 10); (20, 50)]).
  - apply sample_queue_ok.
  - lia.
  - by vm_compute.
  - by vm_compute.
  - repeat constructor; cbn; lia.
Defined.

(** One offer per time of [nows], with no reconnect in between. *)
Fixpoint offers (maxAttempts steamId : Z) (nows : list Z) (q : DownloadQueue) : list AddonDecision * DownloadQueue :=
  match nows with
  | [] => ([], q)
  | now :: rest =>
      let '(decision, q') := NextToSend q steamId now maxAttempts in
      let '(decisions, q'') := offers maxAttempts steamId rest q' in (decision :: decisions, q'')
  end.

(** What the [attempt]-th offer of [next] in a row comes to. *)
Definition offer_decision (maxAttempts next : Z) (rest : list Z) (attempt : Z) : AddonDecision :=
  if maxAttempts <? attempt then mkDecision AddonAction.Kick next 0 else mkDecision AddonAction.Send next (length rest).

Lemma NextToSend_offer maxAttempts steamId now q next rest :
  MissingFor q steamId = next :: rest ->
  let client := client_at q steamId in
  let attempt := if Sending client =? next then Attempts client + 1 else 1 in
  let '(decision, q') := NextToSend q steamId now maxAttempts in
  decision = offer_decision maxAttempts next rest attempt /\ MissingFor q' steamId = next :: rest /\
  required q' = required q /\ Attempts (client_at q' steamId) = attempt /\
  (attempt <= maxAttempts \/ Sending client = next -> Sending (client_at q' steamId) = next).
Proof.
  intros Hm client attempt. unfold NextToSend. rewrite Hm. fold client. fold attempt. unfold offer_decision.
  rewrite MissingFor_at in Hm.
  destruct (Z.ltb_spec maxAttempts attempt); split_and!; try done;
    try (rewrite MissingFor_at, client_at_set; exact Hm); rewrite client_at_set; cbn [Sending Attempts]; try done.
  intros [?|?]; [lia|done].
Qed.

Lemma offers_from maxAttempts steamId next rest nows q k :
  MissingFor q steamId = next :: rest -> Sending (client_at q steamId) = next -> Attempts (client_at q steamId) = k ->
  (offers maxAttempts steamId nows q).1
  = map (fun i => offer_decision maxAttempts next rest (k + 1 + Z.of_nat i)) (seq 0 (length nows)).
Proof.
  revert q k. induction nows as [|now nows IH]; intros q k Hm Hs Ha; [done|]. cbn [offers].
  pose proof (NextToSend_offer maxAttempts steamId now q next rest Hm) as Ho. cbn zeta in Ho.
  rewrite Hs, Ha, Z.eqb_refl in Ho.
  destruct (NextToSend q steamId now maxAttempts) as [decision q1]. destruct Ho as (-> & Hm1 & _ & Ha1 & Hs1).
  specialize (IH q1 (k + 1) Hm1 (Hs1 (or_intror eq_refl)) Ha1).
  destruct (offers maxAttempts steamId nows q1) as [decisions q2]. cbn [fst] in *.
  cbn [length seq map]. f_equal; [f_equal; lia|]. rewrite IH, <- seq_shift, map_map. apply map_ext.
  intros i. f_equal. lia.
Qed.

(** A client that never takes the addon is offered it exactly [maxAttempts] times and kicked on every offer
    after that; no client is kicked earlier. *)
Theorem declined_offers maxAttempts steamId next rest nows q :
  queue_ok q -> 1 <= maxAttempts -> Sending (client_at q steamId) = 0 -> MissingFor q steamId = next :: rest ->
  (offers maxAttempts steamId nows q).1
  = map (fun i => offer_decision maxAttempts next rest (1 + Z.of_nat i)) (seq 0 (length nows)).
Proof.
  intros Hok Hmax Hs Hm. destruct nows as [|now nows]; [done|]. cbn [offers].
  pose proof (missing_facts q steamId next Hok) as Hn. rewrite Hm in Hn. specialize (Hn (or_introl eq_refl)).
  pose proof (NextToSend_offer maxAttempts steamId now q next rest Hm) as Ho. cbn zeta in Ho. rewrite Hs in Ho.
  destruct (Z.eqb_spec 0 next); [lia|].
  destruct (NextToSend q steamId now maxAttempts) as [decision q1]. destruct Ho as (-> & Hm1 & _ & Ha1 & Hs1).
  pose proof (offers_from maxAttempts steamId next rest nows q1 1 Hm1 (Hs1 (or_introl Hmax)) Ha1) as Hr.
  destruct (offers maxAttempts steamId nows q1) as [decisions q2]. cbn [fst] in *.
  cbn [length seq map]. f_equal. rewrite Hr, <- seq_shift, map_map. apply map_ext.
  intros i. f_equal. lia.
Qed.

Lemma declined_offers_witness :
  map Action (offers MaxDownloadAttempts 42 [1; 2; 3; 4; 5] sample_queue).1
  = [AddonAction.Send; AddonAction.Send; AddonAction.Send; AddonAction.Kick; AddonAction.Kick].
Proof.
  rewrite (declined_offers MaxDownloadAttempts 42 3 [9] [1; 2; 3; 4; 5] sample_queue).
  - by vm_compute.
  - apply sample_queue_ok.
  - by vm_compute.
  - by vm_compute.
  - by vm_compute.
Defined.

(** The server's own addon list survives every connection reply: while the reply is built it names every
    addon the client must mount, and once it is sent the list is byte for byte what it was, malformed entries
    and all. *)
Theorem reply_restored w fresh steamId server :
  queue_ok (Queue w) -> AddedToReply w = [] ->
  let '(w1, during) := AddToReply w fresh steamId server in
  let '(w2, after) := RestoreReply w1 fresh during in
  after = server /\ w2 = w /\
  (fresh = true -> IsValid steamId = true ->
   forall id, In id (ClientMountList (Queue w) steamId) -> In id (ParseAddonList during)).
Proof.
  intros Hok Ha.
  assert (Forall (fun id => 1 <= id <= uint64_max) (ClientMountList (Queue w) steamId)) as Hids.
  { unfold ClientMountList. destruct (FindClient (Queue w) steamId); [|done]. apply Forall_forall. intros id Hid.
    rewrite list_elem_of_In in Hid. apply filter_In in Hid as [Hid _]. destruct Hok as [_ Hp].
    unfold Required in Hid. apply in_map_iff in Hid as (r & <- & Hr). rewrite Forall_forall in Hp.
    apply Hp. by rewrite list_elem_of_In. }
  assert (Forall (fun id => 0 <= id <= uint64_max) (ClientMountList (Queue w) steamId)) as Hids0.
  { eapply Forall_impl; [exact Hids|]. cbn. lia. }
  assert (forall server', RestoreReply w fresh server' = (w, server')) as Hidle by (intros; unfold RestoreReply; by rewrite Ha).
  unfold AddToReply. destruct (IsValid steamId) eqn:Hv; cbn [negb]; [|by rewrite Hidle].
  destruct (ClientMountList (Queue w) steamId) as [|id0 ids] eqn:Hl; [by rewrite Hidle|].
  destruct fresh; cbn [negb]; [|by rewrite Hidle].
  destruct (AppendToAddonList server (id0 :: ids)) as [appended field] eqn:Happ.
  destruct (Append_spec _ _ _ _ Hids0 Happ) as (Hrem & Hnil & Hall).
  assert (forall id, In id (id0 :: ids) -> In id (ParseAddonList field)) as Hnamed.
  { intros id Hid. apply Hall; [done|]. rewrite Forall_forall in Hids. specialize (Hids id).
    rewrite list_elem_of_In in Hids. specialize (Hids Hid). lia. }
  unfold RestoreReply. cbn [AddedToReply negb]. destruct appended as [|a appended]; cbn [Queue Kicks Hooked].
  - rewrite <- (Hnil eq_refl). split_and!; [done| |done]. destruct w; cbn in *. by subst.
  - split_and!; [exact Hrem| |done]. destruct w; cbn in *. by subst.
Qed.

Lemma reply_restored_witness :
  let w := mkWorkshop sample_queue [] [] true in
  let client := SteamId64Base + 7 in
  let w := with_queue w (set_client (Queue w) client (mkClient [9] 3 0 1 0)) in
  let '(w1, during) := AddToReply w true client $"77,oops," in
  during = $"77,oops,,3,9" /\ (RestoreReply w1 true during).2 = $"77,oops,".
Proof.
  cbn zeta. set (w := with_queue _ _).
  pose proof (reply_restored w true (SteamId64Base + 7) $"77,oops,") as H.
  destruct (AddToReply w true (SteamId64Base + 7) $"77,oops,") as [w1 during] eqn:E.
  split.
  - assert ((AddToReply w true (SteamId64Base + 7) $"77,oops,").2 = $"77,oops,,3,9") as E2 by by vm_compute.
    by rewrite E in E2.
  - destruct (RestoreReply w1 true during) as [w2 after]. destruct H as (-> & _); [|done|done].
    exact sample_queue_ok.
Defined.
