(* ===== verification/HostCallbacks.v ===== *)
(** * One host event's callbacks: [Host/Plugins/CallbackList.hpp]

    The list every plugin's callbacks for one event stand in, and its walk, whose callbacks may add and remove
    callbacks on the same list or start another walk of it. *)
From S2P Require Import Prelude.

Section CallbackList.

(** [Call] with [Context]: a function pointer and the pointer it is called with. *)
Context {Fn : Type}.

Record Entry := mkEntry { Token : Z; Order : Z; Call : Fn; Context : Z; Removed : bool }.

Record CallbackList := mkList { entries : list Entry; pending : list Entry; depth : Z }.

Definition CallbackList_new : CallbackList := mkList [] [] 0.

(** Before the first entry of a greater order: after every entry of a smaller or the same one. *)
Fixpoint insert_entry (entry : Entry) (held : list Entry) : list Entry :=
  match held with
  | [] => [entry]
  | e :: rest => if Order entry <? Order e then entry :: held else e :: insert_entry entry rest
  end.

Definition List_Insert (l : CallbackList) (entry : Entry) : CallbackList :=
  mkList (insert_entry entry (entries l)) (pending l) (depth l).

Definition ApplyPending (l : CallbackList) : CallbackList :=
  let kept := List.filter (fun e => negb (Removed e)) (entries l) in
  mkList (fold_left (fun held entry => insert_entry entry held) (pending l) kept) [] (depth l).

Definition List_Add (l : CallbackList) (token order : Z) (callback : Fn) (context : Z) : CallbackList :=
  let entry := mkEntry token order callback context false in
  if 0 <? depth l then mkList (entries l) (pending l ++ [entry]) (depth l) else List_Insert l entry.

Definition List_Empty (l : CallbackList) : bool :=
  match pending l with [] => forallb Removed (entries l) | _ => false end.

Definition set_removed (e : Entry) : Entry := mkEntry (Token e) (Order e) (Call e) (Context e) true.

(** The first live entry of [token] marked, when there is one. *)
Fixpoint mark_entry (token : Z) (held : list Entry) : option (list Entry) :=
  match held with
  | [] => None
  | e :: rest =>
      if negb (Token e =? token) || Removed e then (fun rest' => e :: rest') <$> mark_entry token rest
      else Some (set_removed e :: rest)
  end.

Fixpoint erase_token (token : Z) (waiting : list Entry) : option (list Entry) :=
  match waiting with
  | [] => None
  | e :: rest => if Token e =? token then Some rest else (fun rest' => e :: rest') <$> erase_token token rest
  end.

Definition List_Remove (l : CallbackList) (token : Z) : bool * CallbackList :=
  match mark_entry token (entries l) with
  | Some marked =>
      let l' := mkList marked (pending l) (depth l) in
      (true, if depth l =? 0 then ApplyPending l' else l')
  | None =>
      match erase_token token (pending l) with
      | None => (false, l)
      | Some waiting => (true, mkList (entries l) waiting (depth l))
      end
  end.

Definition Enter (l : CallbackList) : CallbackList := mkList (entries l) (pending l) (depth l + 1).

Definition Leave (l : CallbackList) : CallbackList :=
  let l' := mkList (entries l) (pending l) (depth l - 1) in
  if depth l' =? 0 then ApplyPending l' else l'.

(** *** The walk

    The list is one part of a larger state a callback changes: [get] reads it there and [put] writes it. *)
Context {S : Type} (get : S -> CallbackList) (put : CallbackList -> S -> S).

Fixpoint walk_loop (visit : Entry -> S -> outcome (bool * S)) (left i : nat) (st : S) : outcome (bool * S) :=
  match left with
  | O => Returns (false, st)
  | Datatypes.S left' =>
      match entries (get st) !! i with
      | None => Undefined
      | Some e =>
          if Removed e then walk_loop visit left' (Datatypes.S i) st
          else run! (stopped, st') := visit e st in
               if stopped : bool then Returns (true, st') else walk_loop visit left' (Datatypes.S i) st'
      end
  end.

Definition Walk (visit : Entry -> S -> outcome (bool * S)) (st : S) : outcome (bool * S) :=
  let st1 := put (Enter (get st)) st in
  run! (stopped, st2) := walk_loop visit (length (entries (get st1))) 0 st1 in
  Returns (stopped, put (Leave (get st2)) st2).

Definition List_Dispatch (visit : Fn -> Z -> S -> outcome (bool * S)) (st : S) : outcome (bool * S) :=
  Walk (fun e => visit (Call e) (Context e)) st.

Definition List_DispatchTo (order : Z) (visit : Fn -> Z -> S -> outcome S) (st : S) : outcome S :=
  run! (_, st') :=
    Walk (fun e st => if Order e =? order then run! st' := visit (Call e) (Context e) st in Returns (false, st')
                      else Returns (false, st)) st in
  Returns st'.

(** ** The order callbacks stand in

    Plugins by load position, one plugin's callbacks by subscription; tokens rise as they are taken. *)

Definition before (a b : Entry) : Prop := Order a < Order b \/ (Order a = Order b /\ Token a < Token b).

Definition live (l : CallbackList) : list Entry := List.filter (fun e => negb (Removed e)) (entries l).

(** The callbacks as they stand once no walk is on. *)
Definition settled (l : CallbackList) : list Entry :=
  fold_left (fun held entry => insert_entry entry held) (pending l) (live l).

(** [next] is the token the host gives out next. *)
Record list_ok (next : Z) (l : CallbackList) : Prop := {
  ok_depth : 0 <= depth l;
  ok_sorted : StronglySorted before (entries l);
  ok_pending_sorted : StronglySorted (fun a b => Token a < Token b) (pending l);
  ok_later : forall a b, In a (entries l) -> In b (pending l) -> Token a < Token b;
  ok_next : forall e, In e (entries l ++ pending l) -> Token e < next;
  ok_unique : NoDup (map Token (entries l));
  ok_waiting : Forall (fun e => Removed e = false) (pending l);
  ok_idle : depth l = 0 -> pending l = [] /\ Forall (fun e => Removed e = false) (entries l);
}.

(** What may happen to the list while a walk is on: entries stand where they are and are only ever marked. *)
Definition marked_from (a b : Entry) : Prop := b = a \/ b = set_removed a.

Definition during (l l' : CallbackList) : Prop := depth l' = depth l /\ Forall2 marked_from (entries l) (entries l').

End CallbackList.

Arguments Entry : clear implicits.
Arguments CallbackList : clear implicits.

(** ** Facts *)

Section Facts.
Context {Fn : Type}.
Implicit Types (e a b : Entry Fn) (l held : list (Entry Fn)) (c : CallbackList Fn).

Lemma In_insert e held x : In x (insert_entry e held) <-> x = e \/ In x held.
Proof.
  induction held as [|h held IH]; cbn; [firstorder|]. case_match; cbn; [firstorder|]. rewrite IH. firstorder.
Qed.

Lemma insert_perm e held : Permutation (insert_entry e held) (e :: held).
Proof.
  induction held as [|h held IH]; cbn; [done|]. case_match; [done|]. rewrite IH. constructor.
Qed.

Lemma before_trans a b e : before a b -> before b e -> before a e.
Proof. unfold before. lia. Qed.

Lemma insert_sorted e held :
  StronglySorted before held -> (forall h, In h held -> Token h < Token e) -> StronglySorted before (insert_entry e held).
Proof.
  induction held as [|h held IH]; cbn; intros Hs Ht; [by repeat constructor|].
  apply StronglySorted_inv in Hs as [Hs Hh]. rewrite Forall_forall in Hh.
  destruct (Z.ltb_spec (Order e) (Order h)) as [Ho|Ho].
  - constructor; [by constructor; [|apply Forall_forall]|]. apply Forall_forall. intros x Hx.
    apply list_elem_of_In in Hx as [<-|Hx]; [left; lia|].
    specialize (Hh x). rewrite list_elem_of_In in Hh. specialize (Hh Hx). unfold before in *. lia.
  - constructor; [apply IH; [done|]; intros; apply Ht; by right|]. apply Forall_forall. intros x Hx.
    apply list_elem_of_In, In_insert in Hx as [->|Hx].
    + specialize (Ht h (or_introl eq_refl)). unfold before. lia.
    + apply Hh. by apply list_elem_of_In.
Qed.

Lemma insert_front e held : Forall (fun h => Order e < Order h) held -> insert_entry e held = e :: held.
Proof. intros Hf. destruct Hf as [|h held Ho _]; cbn; [done|]. destruct (Z.ltb_spec (Order e) (Order h)); [done|lia]. Qed.

Lemma filter_sorted {A} (R : A -> A -> Prop) p (l : list A) :
  StronglySorted R l -> StronglySorted R (List.filter p l).
Proof.
  induction 1 as [|x l Hs IH Hf]; cbn; [constructor|]. case_match; [|done]. constructor; [done|].
  apply Forall_forall. intros y Hy. apply list_elem_of_In, filter_In in Hy as [Hy _].
  rewrite Forall_forall in Hf. apply Hf. by apply list_elem_of_In.
Qed.

Lemma filter_insert (p : Entry Fn -> bool) e held :
  StronglySorted before held ->
  List.filter p (insert_entry e held) = if p e then insert_entry e (List.filter p held) else List.filter p held.
Proof.
  induction 1 as [|h held Hs IH Hf]; cbn; [by destruct (p e)|].
  destruct (Z.ltb_spec (Order e) (Order h)) as [Ho|Ho]; cbn.
  - assert (Forall (fun x => Order e < Order x) (if p h then h :: List.filter p held else List.filter p held)) as Hall.
    { assert (Forall (fun x => Order e < Order x) (List.filter p held)).
      { apply Forall_forall. intros x Hx. apply list_elem_of_In, filter_In in Hx as [Hx _].
        rewrite Forall_forall in Hf. specialize (Hf x). rewrite list_elem_of_In in Hf. specialize (Hf Hx).
        unfold before in Hf. lia. }
      destruct (p h); [by constructor|done]. }
    destruct (p e); [|done]. by rewrite insert_front.
  - rewrite IH. destruct (p h), (p e); cbn; try done. destruct (Z.ltb_spec (Order e) (Order h)); [lia|done].
Qed.

Definition insert_all (waiting held : list (Entry Fn)) : list (Entry Fn) :=
  fold_left (fun held entry => insert_entry entry held) waiting held.

(** What lets the waiting entries go in one after the other. *)
Definition may_join (waiting held : list (Entry Fn)) : Prop :=
  StronglySorted (fun a b => Token a < Token b) waiting /\
  forall a b, In a held -> In b waiting -> Token a < Token b.

Lemma may_join_cons w waiting held : may_join (w :: waiting) held -> may_join waiting (insert_entry w held).
Proof.
  intros [Hs Hl]. apply StronglySorted_inv in Hs as [Hs Hw]. split; [done|]. intros x y Hx Hy.
  apply In_insert in Hx as [->|Hx]; [|apply Hl; [done|by right]].
  rewrite Forall_forall in Hw. apply Hw. by apply list_elem_of_In.
Qed.

Lemma insert_all_sorted waiting held :
  StronglySorted before held -> may_join waiting held -> StronglySorted before (insert_all waiting held).
Proof.
  revert held. induction waiting as [|w waiting IH]; intros held Hs Hj; [done|]. cbn.
  apply IH; [|by apply may_join_cons]. apply insert_sorted; [done|]. intros h Hh. apply Hj; [done|by left].
Qed.

Lemma In_insert_all waiting held x : In x (insert_all waiting held) <-> In x waiting \/ In x held.
Proof.
  revert held. induction waiting as [|w waiting IH]; intros held; cbn; [firstorder|].
  rewrite IH, In_insert. firstorder congruence.
Qed.

Lemma insert_all_perm waiting held : Permutation (insert_all waiting held) (held ++ waiting).
Proof.
  revert held. induction waiting as [|w waiting IH]; intros held; cbn; [by rewrite app_nil_r|].
  rewrite IH, insert_perm. by rewrite <- Permutation_middle.
Qed.

Lemma filter_insert_all p waiting held :
  StronglySorted before held -> may_join waiting held ->
  List.filter p (insert_all waiting held) = insert_all (List.filter p waiting) (List.filter p held).
Proof.
  revert held. induction waiting as [|w waiting IH]; intros held Hs Hj; [done|]. cbn [insert_all fold_left].
  fold (insert_all waiting (insert_entry w held)). rewrite IH; [|apply insert_sorted; [done|]|by apply may_join_cons].
  - cbn [List.filter]. rewrite filter_insert by done. by destruct (p w).
  - intros h Hh. apply Hj; [done|by left].
Qed.

Lemma before_NoDup l : StronglySorted (fun a b => Token a < Token b) l -> NoDup (map Token l).
Proof.
  induction 1 as [|x l Hs IH Hf]; cbn; constructor; [|done]. rewrite list_elem_of_In, in_map_iff.
  intros (y & Hy & Hin). rewrite Forall_forall in Hf. specialize (Hf y). rewrite list_elem_of_In in Hf.
  specialize (Hf Hin). lia.
Qed.

End Facts.

Section Operations.
Context {Fn : Type}.
Implicit Types (e a b : Entry Fn) (c : CallbackList Fn).

Lemma list_ok_new next : list_ok next (@CallbackList_new Fn).
Proof. split; cbn; try constructor; intros; done. Qed.

Lemma list_ok_mono next next' c : next <= next' -> list_ok next c -> list_ok next' c.
Proof. intros Hn []. split; try done. intros e He. specialize (ok_next0 e He). lia. Qed.

Lemma live_joins next c : list_ok next c -> may_join (pending c) (live c).
Proof.
  intros H. split; [by apply H|]. intros a b Ha Hb. apply (ok_later _ _ H); [|done].
  unfold live in Ha. by apply filter_In in Ha as [Ha _].
Qed.

Lemma settled_sorted next c : list_ok next c -> StronglySorted before (settled c).
Proof.
  intros H. apply insert_all_sorted; [|by eapply live_joins]. apply filter_sorted. apply H.
Qed.

Lemma settled_next next c e : list_ok next c -> In e (settled c) -> Token e < next.
Proof.
  intros H He. apply (ok_next _ _ H). apply (In_insert_all (pending c)) in He. rewrite in_app_iff.
  unfold live in He. rewrite filter_In in He. tauto.
Qed.

Lemma live_unmarked c : Forall (fun e => Removed e = false) (entries c) -> live c = entries c.
Proof. intros H. apply filter_all. eapply Forall_impl; [exact H|]. cbn. by intros e ->. Qed.

Lemma live_Forall c : Forall (fun e => Removed e = false) (live c).
Proof. apply Forall_forall. intros e He. apply list_elem_of_In, filter_In in He as [_ He]. by apply negb_true_iff. Qed.

Lemma settled_unique next c : list_ok next c -> NoDup (map Token (settled c)).
Proof.
  intros H. pose proof (live_joins _ _ H) as [Hp Hl]. pose proof (ok_unique _ _ H) as Hu. unfold settled.
  rewrite (insert_all_perm (pending c) (live c)). rewrite map_app. apply NoDup_app. split_and!.
  - apply NoDup_ListNoDup. apply NoDup_ListNoDup in Hu. unfold live. clear -Hu.
    induction (entries c) as [|x l IH]; cbn in *; [constructor|]. apply List.NoDup_cons_iff in Hu as [Hx Hu].
    destruct (negb (Removed x)); cbn; [|by apply IH]. constructor; [|by apply IH].
    rewrite in_map_iff in *. intros (y & Hy & Hin). apply filter_In in Hin as [Hin _]. eauto.
  - intros t Ht Ht'. rewrite !list_elem_of_In, !in_map_iff in *.
    destruct Ht as (x & <- & Hx), Ht' as (y & Hy & Hin). specialize (Hl x y Hx Hin). lia.
  - by apply before_NoDup.
Qed.

Lemma settled_same next c a b : list_ok next c -> In a (settled c) -> In b (settled c) -> Token a = Token b -> a = b.
Proof.
  intros H Ha Hb Ht. pose proof (settled_unique _ _ H) as Hu. revert Ha Hb Hu. clear -Ht.
  induction (settled c) as [|x l IH]; cbn; [done|]. intros Ha Hb Hu. apply NoDup_cons in Hu as [Hn Hu].
  rewrite list_elem_of_In, in_map_iff in Hn.
  destruct Ha as [->|Ha], Hb as [->|Hb]; [done| | |by apply IH]; exfalso; apply Hn; eauto.
Qed.

(** Applying what waits leaves the list settled and idle. *)
Lemma Apply_ok next c :
  depth c = 0 -> StronglySorted before (entries c) -> may_join (pending c) (entries c) ->
  (forall e, In e (entries c ++ pending c) -> Token e < next) -> NoDup (map Token (entries c)) ->
  Forall (fun e => Removed e = false) (pending c) ->
  list_ok next (ApplyPending c) /\ entries (ApplyPending c) = settled c /\ settled (ApplyPending c) = settled c.
Proof.
  intros Hd Hs [Hp Hl] Hn Hu Hw.
  assert (may_join (pending c) (live c)) as Hj.
  { split; [done|]. intros a b Ha. apply Hl. unfold live in Ha. by apply filter_In in Ha as [Ha _]. }
  assert (entries (ApplyPending c) = settled c) as He by done.
  assert (Forall (fun e => Removed e = false) (settled c)) as Hf.
  { apply Forall_forall. intros e Hin. apply list_elem_of_In, (In_insert_all (pending c)) in Hin.
    pose proof (live_Forall c) as Hlv. rewrite Forall_forall in Hw, Hlv. specialize (Hw e). specialize (Hlv e).
    rewrite list_elem_of_In in Hw, Hlv. tauto. }
  assert (NoDup (map Token (settled c))) as Hnd.
  { unfold settled. rewrite (insert_all_perm (pending c) (live c)). rewrite map_app. apply NoDup_app. split_and!.
    - apply NoDup_ListNoDup. apply NoDup_ListNoDup in Hu. unfold live. clear -Hu.
      induction (entries c) as [|x l IH]; cbn in *; [constructor|]. apply List.NoDup_cons_iff in Hu as [Hx Hu].
      destruct (negb (Removed x)); cbn; [|by apply IH]. constructor; [|by apply IH].
      rewrite in_map_iff in *. intros (y & Hy & Hin). apply filter_In in Hin as [Hin _]. eauto.
    - intros t Ht Ht'. rewrite !list_elem_of_In, !in_map_iff in *.
      destruct Ht as (x & <- & Hx), Ht' as (y & Hy & Hin). destruct Hj as [_ Hj].
      specialize (Hj x y Hx Hin). lia.
    - by apply before_NoDup. }
  split_and!; [|done|].
  - split; cbn [pending depth ApplyPending]; try done; try constructor; rewrite ?He; try done.
    + cbn. lia.
    + by apply insert_all_sorted; [apply filter_sorted|].
    + rewrite app_nil_r. intros e Hin. apply Hn. apply (In_insert_all (pending c)) in Hin. rewrite in_app_iff.
      unfold live in Hin. rewrite filter_In in Hin. tauto.
  - unfold settled at 1. cbn [pending ApplyPending fold_left]. rewrite live_unmarked; [done|]. by rewrite He.
Qed.

Lemma list_ok_apply next c : list_ok next c -> depth c = 0 ->
  list_ok next (ApplyPending c) /\ entries (ApplyPending c) = settled c /\ settled (ApplyPending c) = settled c.
Proof. intros H Hd. apply Apply_ok; try done; try apply H. split; apply H. Qed.

(** A new callback stands last among its plugin's, now or when the walk is over. *)
Lemma List_Add_spec next c order callback context :
  list_ok next c ->
  let c' := List_Add c next order callback context in
  list_ok (next + 1) c' /\ settled c' = insert_entry (mkEntry next order callback context false) (settled c) /\
  (0 < depth c -> during c c').
Proof.
  intros H c'. unfold c', List_Add. set (e := mkEntry _ _ _ _ _). destruct (Z.ltb_spec 0 (depth c)) as [Hd|Hd].
  - split_and!.
    + destruct H. split; cbn [entries pending depth]; try done.
      * clear -ok_pending_sorted0 ok_next0. assert (forall b, In b (pending c) -> Token b < next) as Hb.
        { intros b Hb. apply ok_next0. rewrite in_app_iff. tauto. }
        clear ok_next0. induction ok_pending_sorted0 as [|x l Hs IH Hf]; cbn; [by repeat constructor|].
        constructor; [apply IH; intros; apply Hb; by right|]. apply Forall_app. split; [done|].
        constructor; [|done]. apply Hb. by left.
      * intros a b Ha Hb. apply in_app_iff in Hb as [Hb|[<-|[]]]; [by apply ok_later0|].
        apply ok_next0. rewrite in_app_iff. tauto.
      * intros x Hx. rewrite app_assoc, in_app_iff in Hx. destruct Hx as [Hx|[<-|[]]]; [|cbn; lia].
        specialize (ok_next0 x Hx). lia.
      * apply Forall_app. split; [done|]. by constructor.
      * lia.
    + unfold settled, live. cbn [entries pending]. by rewrite fold_left_app.
    + intros _. split; [done|]. cbn. clear. induction (entries c); constructor; [by left|done].
  - assert (depth c = 0) as Hd0 by (destruct H; lia). destruct (ok_idle _ _ H Hd0) as [Hp Hu].
    assert (forall h, In h (entries c) -> Token h < Token e) as Hlt.
    { intros h Hh. cbn. apply (ok_next _ _ H). rewrite in_app_iff. tauto. }
    assert (Forall (fun x => Removed x = false) (insert_entry e (entries c))) as Hall.
    { apply Forall_forall. intros x Hx. apply list_elem_of_In, In_insert in Hx as [->|Hx]; [done|].
      rewrite Forall_forall in Hu. apply Hu. by apply list_elem_of_In. }
    split_and!.
    + unfold List_Insert. destruct H. split; cbn [entries pending depth]; rewrite ?Hp; try done; try constructor.
      * by apply insert_sorted.
      * rewrite app_nil_r. intros x Hx. apply In_insert in Hx as [->|Hx]; [cbn; lia|]. specialize (Hlt x Hx). cbn in Hlt. lia.
      * rewrite insert_perm. cbn. constructor; [|done]. rewrite list_elem_of_In, in_map_iff.
        intros (y & Hy & Hin). specialize (Hlt y Hin). cbn in *. lia.
    + unfold settled. rewrite Hp. cbn [fold_left List_Insert pending]. rewrite Hp. cbn [fold_left].
      rewrite live_unmarked by done. by rewrite live_unmarked.
    + lia.
Qed.

Lemma Enter_spec next c : list_ok next c ->
  list_ok next (Enter c) /\ settled (Enter c) = settled c /\ entries (Enter c) = entries c /\ 0 < depth (Enter c).
Proof. intros []. split_and!; try done; cbn; [|lia]. split; cbn; try done; lia. Qed.

Lemma Leave_spec next c : list_ok next c -> 0 < depth c ->
  list_ok next (Leave c) /\ settled (Leave c) = settled c /\ depth (Leave c) = depth c - 1 /\
  (depth c <> 1 -> entries (Leave c) = entries c /\ pending (Leave c) = pending c).
Proof.
  intros H Hd. unfold Leave. cbn [depth]. destruct (Z.eqb_spec (depth c - 1) 0) as [Hz|Hz].
  - assert (may_join (pending c) (entries c)) as Hj by (split; apply H).
    destruct (Apply_ok next (mkList (entries c) (pending c) (depth c - 1))) as (Hok & _ & Hs);
      try done; try apply H. split_and!; [done|done|done|lia].
  - split_and!; try done. destruct H. split; try done; cbn; lia.
Qed.

End Operations.

Section Removal.
Context {Fn : Type}.
Implicit Types (e a b : Entry Fn) (l held : list (Entry Fn)) (c : CallbackList Fn).

Definition other_token (token : Z) (e : Entry Fn) : bool := negb (Token e =? token).

Lemma other_token_all token l : (forall e, In e l -> Token e <> token) -> List.filter (other_token token) l = l.
Proof.
  intros H. apply filter_all, Forall_forall. intros e He. unfold other_token.
  apply list_elem_of_In, H in He. by destruct (Z.eqb_spec (Token e) token).
Qed.

Lemma marked_refl l : Forall2 marked_from l l.
Proof. induction l; constructor; [by left|done]. Qed.

Lemma mark_entry_none token l : mark_entry token l = None -> forall e, In e l -> Removed e = false -> Token e <> token.
Proof.
  induction l as [|x l IH]; cbn; [done|]. destruct (negb (Token x =? token) || Removed x) eqn:Hx; [|done].
  destruct (mark_entry token l); [done|]. intros _ e [<-|He] Hr; [|by apply IH].
  apply orb_true_iff in Hx as [Hx|Hx]; [|congruence]. apply negb_true_iff, Z.eqb_neq in Hx. done.
Qed.

Lemma mark_entry_some token l l' :
  NoDup (map Token l) -> mark_entry token l = Some l' ->
  Forall2 marked_from l l' /\
  List.filter (fun e => negb (Removed e)) l'
  = List.filter (other_token token) (List.filter (fun e => negb (Removed e)) l) /\
  exists e, In e l /\ Token e = token /\ Removed e = false.
Proof.
  revert l'. induction l as [|x l IH]; cbn; intros l' Hnd; [done|]. apply NoDup_cons in Hnd as [Hnot Hnd].
  destruct (negb (Token x =? token) || Removed x) eqn:Hx.
  - destruct (mark_entry token l) as [l1|] eqn:Hm; [|done]. intros [= <-].
    destruct (IH l1 Hnd eq_refl) as (Hf & Hl & e & He & Ht & Hr). split_and!.
    + constructor; [by left|done].
    + cbn. destruct (Removed x); cbn; [done|]. rewrite Hl. unfold other_token at 2.
      rewrite orb_false_r in Hx. by rewrite Hx.
    + exists e. split; [by right|done].
  - intros [= <-]. apply orb_false_iff in Hx as [Ht Hr]. apply negb_false_iff, Z.eqb_eq in Ht. split_and!.
    + constructor; [by right|apply marked_refl].
    + cbn. rewrite Hr. cbn. unfold other_token at 1. rewrite Ht, Z.eqb_refl. cbn. symmetry. apply other_token_all.
      intros e He He'. apply Hnot. rewrite list_elem_of_In, in_map_iff. apply filter_In in He as [He _].
      exists e. split; congruence.
    + exists x. split_and!; [by left|done..].
Qed.

Lemma erase_token_none token l : erase_token token l = None -> forall e, In e l -> Token e <> token.
Proof.
  induction l as [|x l IH]; cbn; [done|]. destruct (Z.eqb_spec (Token x) token); [done|].
  destruct (erase_token token l); [done|]. intros _ e [<-|He]; [done|by apply IH].
Qed.

Lemma erase_token_some token l l' :
  NoDup (map Token l) -> erase_token token l = Some l' ->
  l' = List.filter (other_token token) l /\ exists e, In e l /\ Token e = token.
Proof.
  revert l'. induction l as [|x l IH]; cbn; intros l' Hnd; [done|]. apply NoDup_cons in Hnd as [Hnot Hnd].
  unfold other_token at 1. destruct (Z.eqb_spec (Token x) token) as [Ht|Ht]; cbn.
  - intros [= <-]. split; [|exists x; split; [by left|done]]. symmetry. apply other_token_all.
    intros e He He'. apply Hnot. rewrite list_elem_of_In, in_map_iff. exists e. split; congruence.
  - destruct (erase_token token l) as [l1|]; [|done]. intros [= <-].
    destruct (IH l1 Hnd eq_refl) as [-> (e & He & He')]. split; [done|]. exists e. split; [by right|done].
Qed.

Lemma marked_tokens l l' : Forall2 marked_from l l' -> map Token l' = map Token l.
Proof. induction 1 as [|x y l l' Hm _ IH]; cbn; [done|]. rewrite IH. by destruct Hm as [->| ->]. Qed.

Lemma marked_In l l' y : Forall2 marked_from l l' -> In y l' -> exists x, In x l /\ Token y = Token x /\ Order y = Order x.
Proof.
  induction 1 as [|x y' l l' Hm _ IH]; cbn; [done|]. intros [<-|Hy].
  - exists x. split; [by left|]. by destruct Hm as [->| ->].
  - destruct (IH Hy) as (z & Hz & Ht). exists z. split; [by right|done].
Qed.

Lemma marked_sorted l l' : Forall2 marked_from l l' -> StronglySorted before l -> StronglySorted before l'.
Proof.
  induction 1 as [|x y l l' Hm Hf IH]; [done|]. intros Hs. apply StronglySorted_inv in Hs as [Hs Hx].
  constructor; [by apply IH|]. apply Forall_forall. intros z Hz. apply list_elem_of_In in Hz.
  destruct (marked_In _ _ _ Hf Hz) as (z' & Hz' & Ht & Ho). rewrite Forall_forall in Hx.
  specialize (Hx z'). rewrite list_elem_of_In in Hx. specialize (Hx Hz'). unfold before in *.
  rewrite Ht, Ho. destruct Hm as [->| ->]; cbn; lia.
Qed.

Lemma marked_trans l1 l2 l3 : Forall2 marked_from l1 l2 -> Forall2 marked_from l2 l3 -> Forall2 marked_from l1 l3.
Proof.
  intros H. revert l3. induction H as [|x y l1 l2 Hm _ IH]; intros l3 H3; inversion_clear H3; constructor; [|by apply IH].
  match goal with Hz : marked_from y _ |- _ => destruct Hz as [->| ->] end; destruct Hm as [->| ->];
    [by left|by right|by right|by right].
Qed.

Lemma filter_settled next c token : list_ok next c ->
  List.filter (other_token token) (settled c)
    = insert_all (List.filter (other_token token) (pending c)) (List.filter (other_token token) (live c)).
Proof. intros H. pose proof (live_joins _ _ H) as Hj. apply filter_insert_all; [|done]. apply filter_sorted. apply H. Qed.

Lemma settled_has c token e : In e (settled c) -> Token e = token -> true = existsb (fun e => Token e =? token) (settled c).
Proof. intros He Ht. symmetry. apply existsb_exists. exists e. by rewrite Ht, Z.eqb_refl. Qed.

(** What removing a token is to come to. *)
Definition removed_ok (next : Z) (c : CallbackList Fn) (token : Z) (r : bool * CallbackList Fn) : Prop :=
  list_ok next r.2 /\ settled r.2 = List.filter (other_token token) (settled c) /\
  r.1 = existsb (fun e => Token e =? token) (settled c) /\
  (0 < depth c -> during c r.2) /\ depth r.2 = depth c.

(** The entry is marked, and the list compacted when no walk is on. *)
Lemma Remove_marked next c token marked :
  list_ok next c -> mark_entry token (entries c) = Some marked -> removed_ok next c token (List_Remove c token).
Proof.
  intros H Hm. unfold removed_ok, List_Remove. rewrite Hm. destruct (mark_entry_some _ _ _ (ok_unique _ _ H) Hm) as (Hmk & Hlive & e & He & Het & Her).
  set (c1 := mkList marked (pending c) (depth c)).
  assert (settled c1 = List.filter (other_token token) (settled c)) as Hset.
  { rewrite (filter_settled next) by done. rewrite (other_token_all token (pending c)); [unfold settled, live; cbn; by rewrite Hlive|].
    intros b Hb Hbt. pose proof (ok_later _ _ H e b He Hb). lia. }
  assert (true = existsb (fun e => Token e =? token) (settled c)) as Hex.
  { apply (settled_has _ _ e); [|done]. apply (In_insert_all (pending c)). right. unfold live. rewrite filter_In. by rewrite Her. }
  assert (forall a b, In a marked -> In b (pending c) -> Token a < Token b) as Hlt.
  { intros a b Ha Hb. destruct (marked_In _ _ _ Hmk Ha) as (a' & Ha' & -> & _). by apply (ok_later _ _ H). }
  assert (forall x, In x (marked ++ pending c) -> Token x < next) as Hnx.
  { intros x Hx. apply in_app_iff in Hx as [Hx|Hx].
    - destruct (marked_In _ _ _ Hmk Hx) as (x' & Hx' & -> & _). apply (ok_next _ _ H). rewrite in_app_iff. tauto.
    - apply (ok_next _ _ H). rewrite in_app_iff. tauto. }
  assert (NoDup (map Token marked)) as Hnd by (rewrite (marked_tokens _ _ Hmk); apply H).
  assert (StronglySorted before marked) as Hso by (eapply marked_sorted; [exact Hmk|apply H]).
  destruct (Z.eqb_spec (depth c) 0) as [Hd|Hd].
  - destruct (Apply_ok next c1) as (Hok & _ & Hs); try done; try apply H.
    { split; [apply H|done]. }
    cbn [fst snd]. split_and!; [done|by rewrite Hs|done|lia|done].
  - cbn [fst snd]. split_and!; [|done|done|by split|done]. destruct H. split; try done.
Qed.

(** A callback that waits is taken out of those waiting. *)
Lemma Remove_waiting next c token :
  list_ok next c -> mark_entry token (entries c) = None -> removed_ok next c token (List_Remove c token).
Proof.
  intros H Hm. unfold removed_ok, List_Remove. rewrite Hm. pose proof (mark_entry_none _ _ Hm) as Hno.
  assert (forall e, In e (live c) -> Token e <> token) as Hlive.
  { intros e He. unfold live in He. apply filter_In in He as [He Hr]. apply Hno; [done|by apply negb_true_iff]. }
  destruct (erase_token token (pending c)) as [waiting|] eqn:He.
  - destruct (erase_token_some _ _ _ (before_NoDup _ (ok_pending_sorted _ _ H)) He) as [-> (e & Hin & Ht)].
    assert (forall x, In x (List.filter (other_token token) (pending c)) -> In x (pending c)) as Hsub.
    { intros x Hx. by apply filter_In in Hx as [Hx _]. }
    split_and!; cbn [fst snd].
    + destruct H. split; cbn [entries pending depth]; try done.
      * by apply filter_sorted.
      * intros a b Ha Hb. apply ok_later0; [done|by apply Hsub].
      * intros x Hx. apply ok_next0. rewrite in_app_iff in *. destruct Hx; [tauto|right; by apply Hsub].
      * apply Forall_forall. intros x Hx. rewrite Forall_forall in ok_waiting0. apply ok_waiting0.
        rewrite list_elem_of_In in *. by apply Hsub.
      * intros Hd. destruct (ok_idle0 Hd) as [Hp _]. by rewrite Hp in Hin.
    + by rewrite (filter_settled next), (other_token_all token (live c)).
    + apply (settled_has _ _ e); [|done]. apply (In_insert_all (pending c)). by left.
    + intros _. split; [done|apply marked_refl].
    + done.
  - pose proof (erase_token_none _ _ He) as Hnp. split_and!; cbn [fst snd]; [done| | |intros _; split; [done|apply marked_refl]|done].
    + by rewrite (filter_settled next), !other_token_all.
    + symmetry. apply not_true_is_false. rewrite existsb_exists. intros (x & Hx & Hxt). apply Z.eqb_eq in Hxt.
      apply (In_insert_all (pending c)) in Hx as [Hx|Hx]; [by apply (Hnp x)|by apply (Hlive x)].
Qed.

(** Removing a token takes that one callback away, from the list or from those waiting, and nothing else. *)
Lemma List_Remove_spec next c token :
  list_ok next c ->
  let '(removed, c') := List_Remove c token in
  list_ok next c' /\ settled c' = List.filter (other_token token) (settled c) /\
  removed = existsb (fun e => Token e =? token) (settled c) /\
  (0 < depth c -> during c c') /\ depth c' = depth c.
Proof.
  intros H. assert (removed_ok next c token (List_Remove c token)) as Hr.
  { destruct (mark_entry token (entries c)) as [marked|] eqn:Hm; [by eapply Remove_marked|by apply Remove_waiting]. }
  unfold removed_ok in Hr. by destruct (List_Remove c token).
Qed.

End Removal.

(** ** A walk is a pass over a snapshot *)

Section Pass.
Context {Fn S : Type} (get : S -> CallbackList Fn) (put : CallbackList Fn -> S -> S) (next : S -> Z).
Implicit Types (c : CallbackList Fn) (st : S).

(** Whether a callback of the snapshot is still subscribed. *)
Definition still_live c (e : Entry Fn) : bool :=
  existsb (fun x => (Token x =? Token e) && negb (Removed x)) (entries c).

(** The specification: each callback of the snapshot that is still subscribed at its turn, until one answers
    true. *)
Fixpoint pass (visit : Entry Fn -> S -> outcome (bool * S)) (snapshot : list (Entry Fn)) st : outcome (bool * S) :=
  match snapshot with
  | [] => Returns (false, st)
  | e :: rest =>
      if still_live (get st) e then
        run! (stopped, st') := visit e st in
        if stopped : bool then Returns (true, st') else pass visit rest st'
      else pass visit rest st
  end.

(** What a callback may do to the list it stands in. *)
Definition well_behaved (visit : Entry Fn -> S -> outcome (bool * S)) : Prop :=
  forall e st stopped st', list_ok (next st) (get st) -> 0 < depth (get st) -> visit e st = Returns (stopped, st') ->
    list_ok (next st') (get st') /\ during (get st) (get st').

Context (get_put : forall c st, get (put c st) = c) (next_put : forall c st, next (put c st) = next st).

Lemma during_refl c : during c c.
Proof. split; [done|apply marked_refl]. Qed.

Lemma during_trans c1 c2 c3 : during c1 c2 -> during c2 c3 -> during c1 c3.
Proof. intros [Hd1 H1] [Hd2 H2]. split; [congruence|by eapply marked_trans]. Qed.

Lemma still_live_removed n c e e0 :
  list_ok n c -> In e (entries c) -> Token e = Token e0 -> still_live c e0 = negb (Removed e).
Proof.
  intros H He Ht. pose proof (ok_unique _ _ H) as Hu. unfold still_live. rewrite <- Ht. clear -Hu He.
  induction (entries c) as [|x l IH]; [done|]. cbn in *. apply NoDup_cons in Hu as [Hnot Hu].
  rewrite list_elem_of_In, in_map_iff in Hnot. destruct He as [->|He].
  - rewrite Z.eqb_refl. cbn. destruct (Removed e); cbn; [|done].
    apply not_true_is_false. rewrite existsb_exists. intros (y & Hy & Hb). apply andb_prop in Hb as [Hb _].
    apply Z.eqb_eq in Hb. apply Hnot. by exists y.
  - destruct (Z.eqb_spec (Token x) (Token e)) as [Hx|Hx]; [exfalso; apply Hnot; by exists e|]. by apply IH.
Qed.

Lemma walk_loop_pass visit snapshot left i st :
  well_behaved visit -> list_ok (next st) (get st) -> 0 < depth (get st) ->
  Forall2 marked_from snapshot (entries (get st)) -> (i + left = length snapshot)%nat ->
  walk_loop get visit left i st = pass visit (List.filter (fun e => negb (Removed e)) (drop i snapshot)) st /\
  forall stopped st', walk_loop get visit left i st = Returns (stopped, st') ->
    list_ok (next st') (get st') /\ during (get st) (get st').
Proof.
  intros Hv. revert i st. induction left as [|left IH]; intros i st Hok Hd Hm Hlen; cbn [walk_loop].
  - rewrite drop_ge by lia. split; [done|]. intros stopped st' [= _ <-]. split; [done|apply during_refl].
  - destruct (lookup_lt_is_Some_2 snapshot i ltac:(lia)) as [e0 He0].
    destruct (Forall2_lookup_l _ _ _ _ _ Hm He0) as (e & He & Hme). rewrite He, (drop_S _ _ _ He0). cbn [List.filter].
    assert (In e (entries (get st))) as Hin by (rewrite <- list_elem_of_In; by eapply list_elem_of_lookup_2).
    assert (Token e = Token e0) as Ht by by destruct Hme as [->| ->].
    pose proof (still_live_removed _ _ _ _ Hok Hin Ht) as Hsl.
    destruct (Removed e) eqn:Hr.
    + destruct (IH (Datatypes.S i) st Hok Hd Hm ltac:(lia)) as [IH1 IH2]. rewrite IH1. split; [|by rewrite <- IH1].
      destruct (Removed e0) eqn:Hr0; cbn [negb]; [done|]. cbn [pass]. by rewrite Hsl.
    + assert (e0 = e) as -> by (destruct Hme as [->| ->]; [done|discriminate Hr]). rewrite Hr. cbn [negb pass].
      rewrite Hsl. cbn [negb]. destruct (visit e st) as [[stopped st1]| |] eqn:Hvis; cbn [outcome_bind]; [|done..].
      destruct (Hv _ _ _ _ Hok Hd Hvis) as [Hok1 Hdu]. destruct stopped.
      * split; [done|]. intros stopped st' [= _ <-]. done.
      * destruct (IH (Datatypes.S i) st1 Hok1) as [IH1 IH2].
        { destruct Hdu as [-> _]. done. }
        { eapply marked_trans; [exact Hm|apply Hdu]. }
        { lia. }
        rewrite IH1. split; [done|]. rewrite <- IH1. intros stopped st' Hst.
        destruct (IH2 _ _ Hst) as [Hok2 Hdu2]. split; [done|by eapply during_trans].
Qed.

(** The walk as the specification has it, and the list after it. *)
Lemma Walk_pass visit st :
  well_behaved visit -> list_ok (next st) (get st) ->
  Walk get put visit st
  = (run! (stopped, st') := pass visit (live (get st)) (put (Enter (get st)) st) in
     Returns (stopped, put (Leave (get st')) st')) /\
  forall stopped st', Walk get put visit st = Returns (stopped, st') ->
    list_ok (next st') (get st') /\ depth (get st') = depth (get st) /\
    (0 < depth (get st) -> during (get st) (get st')).
Proof.
  intros Hv Hok. destruct (Enter_spec _ _ Hok) as (Hoke & _ & Hent & Hde).
  unfold Walk. rewrite !get_put. pose (st1 := put (Enter (get st)) st). fold st1.
  assert (list_ok (next st1) (get st1)) as Hok1 by (unfold st1; by rewrite get_put, next_put).
  assert (0 < depth (get st1)) as Hd1 by (unfold st1; by rewrite get_put).
  assert (Forall2 marked_from (entries (Enter (get st))) (entries (get st1))) as Hm
    by (unfold st1; rewrite get_put; apply marked_refl).
  destruct (walk_loop_pass visit _ (length (entries (Enter (get st)))) 0 st1 Hv Hok1 Hd1 Hm eq_refl) as [Hw Hw2].
  rewrite drop_0 in Hw. rewrite Hw. split; [by rewrite Hent|].
  intros stopped st' Hst. rewrite <- Hw in Hst. destruct (walk_loop _ _ _ _ _) as [[b st2]| |] eqn:Hl; cbn in Hst; [|done..].
  injection Hst as <- <-. destruct (Hw2 _ _ eq_refl) as [Hok2 [Hdep Hmk]].
  unfold st1 in Hdep, Hmk. rewrite get_put in Hdep, Hmk. rewrite get_put, next_put.
  assert (0 < depth (get st2)) as Hd2 by (rewrite Hdep; cbn; pose proof (ok_depth _ _ Hok); lia).
  destruct (Leave_spec _ _ Hok2 Hd2) as (Hok3 & _ & Hd3 & Hkeep). split_and!; [done|rewrite Hd3, Hdep; cbn; lia|].
  intros Hin. rewrite Hdep in Hkeep. cbn in Hkeep. destruct (Hkeep ltac:(lia)) as [He _].
  split; [rewrite Hd3, Hdep; cbn; lia|]. rewrite He. exact Hmk.
Qed.

End Pass.

(** Editing an event's callbacks means the same during a walk as outside one: a new callback stands after
    those of plugins loaded before and of its own plugin, a removed token takes exactly its callback away, and
    the answer says whether there was one. What a walk leaves for later only shows in [settled], which is the
    list itself once no walk is on. *)
Theorem CallbackList_edits {Fn} next (c : CallbackList Fn) order callback context token :
  list_ok next c ->
  let added := List_Add c next order callback context in
  let '(answer, removed) := List_Remove c token in
  (list_ok (next + 1) added /\
   settled added = insert_entry (mkEntry next order callback context false) (settled c) /\
   StronglySorted before (settled added)) /\
  (list_ok next removed /\ settled removed = List.filter (other_token token) (settled c) /\
   answer = existsb (fun e => Token e =? token) (settled c)) /\
  (depth c = 0 -> settled c = entries c) /\
  List_Empty c = match settled c with [] => true | _ => false end.
Proof.
  intros H. cbn zeta. pose proof (List_Add_spec next c order callback context H) as (Ha1 & Ha2 & _).
  pose proof (List_Remove_spec next c token H) as Hr. destruct (List_Remove c token) as [answer removed].
  destruct Hr as (Hr1 & Hr2 & Hr3 & _). split_and!; try done.
  - by eapply settled_sorted.
  - intros Hd. destruct (ok_idle _ _ H Hd) as [Hp Hu]. unfold settled. rewrite Hp. by apply live_unmarked.
  - unfold List_Empty. destruct (pending c) as [|w ws] eqn:Hp.
    + unfold settled. rewrite Hp. cbn. unfold live. clear. induction (entries c) as [|x l IH]; [done|]. cbn.
      by destruct (Removed x).
    + unfold settled. destruct (fold_left _ _ _) eqn:Hf; [|done]. exfalso.
      assert (In w (insert_all (pending c) (live c))) as Hin by (apply In_insert_all; left; rewrite Hp; by left).
      unfold insert_all in Hin. by rewrite Hf in Hin.
Qed.

(** Callbacks of two plugins, the second walked already and its neighbour marked. *)
Definition sample_list : CallbackList nat :=
  mkList [mkEntry 1 1 10%nat 0 false; mkEntry 4 1 11%nat 0 true; mkEntry 2 2 12%nat 0 false]
         [mkEntry 5 1 13%nat 0 false] 1.

Lemma sample_list_ok : list_ok 6 sample_list.
Proof.
  split; cbn; try done.
  - repeat constructor; unfold before; cbn; lia.
  - repeat constructor.
  - intros a b Ha Hb. repeat destruct Ha as [<-|Ha]; repeat destruct Hb as [<-|Hb]; done.
  - intros e He. repeat destruct He as [<-|He]; done.
  - apply NoDup_ListNoDup. repeat constructor; cbn; lia.
  - by repeat constructor.
Qed.

Lemma CallbackList_edits_witness :
  map Token (settled (List_Add sample_list 6 1 14%nat 0)) = [1; 5; 6; 2] /\
  map Token (settled (List_Remove sample_list 5).2) = [1; 2] /\ (List_Remove sample_list 4).1 = false.
Proof.
  split_and!.
  - pose proof (CallbackList_edits 6 sample_list 1 14%nat 0 5 sample_list_ok) as H. cbn zeta in H.
    destruct (List_Remove sample_list 5) as [answer removed]. destruct H as [(_ & -> & _) _]. by vm_compute.
  - by vm_compute.
  - by vm_compute.
Defined.

(** C7. A walk is a pass over the callbacks that were live when it began, in their order: each that is still
    subscribed at its turn is called once, a removed one is skipped, one added meanwhile waits, and the first
    true answer ends it. The walk never reads past the list, leaves it as deep as it was, and an outermost
    walk leaves every edit applied. *)
Theorem Walk_refines {Fn S} (get : S -> CallbackList Fn) put (next : S -> Z) visit st :
  (forall c st, get (put c st) = c) -> (forall c st, next (put c st) = next st) ->
  well_behaved get next visit -> list_ok (next st) (get st) ->
  Walk get put visit st
  = (run! (stopped, st') := pass get visit (live (get st)) (put (Enter (get st)) st) in
     Returns (stopped, put (Leave (get st')) st')) /\
  StronglySorted before (live (get st)) /\
  forall stopped st', Walk get put visit st = Returns (stopped, st') ->
    list_ok (next st') (get st') /\ depth (get st') = depth (get st) /\
    (depth (get st) = 0 -> settled (get st') = entries (get st')).
Proof.
  intros Hgp Hnp Hv Hok. destruct (Walk_pass get put next Hgp Hnp visit st Hv Hok) as [Hw Hafter].
  split_and!; [done|apply filter_sorted; apply Hok|]. intros stopped st' Hst.
  destruct (Hafter _ _ Hst) as (Hok' & Hd & _). split_and!; [done|done|]. intros Hz. rewrite <- Hd in Hz.
  destruct (ok_idle _ _ Hok' Hz) as [Hp Hu]. unfold settled. rewrite Hp. by apply live_unmarked.
Qed.

(** A callback that takes the next one off the list and subscribes another, and records itself. *)
Definition sample_visit (e : Entry nat) (st : CallbackList nat * Z * list Z)
    : outcome (bool * (CallbackList nat * Z * list Z)) :=
  let '(c, next, called) := st in
  let c1 := (List_Remove c (Token e + 1)).2 in
  Returns (Token e =? 3, (List_Add c1 next 9 0%nat 0, next + 1, called ++ [Token e])).

Lemma sample_visit_ok : well_behaved (fun st => st.1.1) (fun st => st.1.2) sample_visit.
Proof.
  intros e [[c next] called] stopped st' Hok Hd. cbn in *. intros [= _ <-]. cbn.
  pose proof (List_Remove_spec next c (Token e + 1) Hok) as Hr.
  destruct (List_Remove c (Token e + 1)) as [b c1]. destruct Hr as (Hok1 & _ & _ & Hdu1 & Hd1).
  destruct (List_Add_spec next c1 9 0%nat 0 Hok1) as (Hok2 & _ & Hdu2). split; [done|].
  eapply during_trans; [by apply Hdu1|]. apply Hdu2. lia.
Qed.

Lemma Walk_refines_witness :
  let c := mkList (map (fun t => mkEntry t 1 0%nat 0 false) [1; 2; 3; 4]) [] 0 in
  exists st', Walk (fun st => st.1.1) (fun c st => (c, st.1.2, st.2)) sample_visit (c, 5, []) = Returns (true, st') /\
    st'.2 = [1; 3] /\ map Token (entries st'.1.1) = [1; 3; 5; 6].
Proof.
  cbn zeta. set (c := mkList _ _ _).
  assert (list_ok 5 c) as Hok.
  { split; cbn; try done.
    - repeat constructor; unfold before; cbn; lia.
    - constructor.
    - intros e He. repeat destruct He as [<-|He]; done.
    - apply NoDup_ListNoDup. repeat constructor; cbn; lia.
    - intros _. split; [done|]. by repeat constructor. }
  destruct (Walk_refines (fun st => st.1.1) (fun c st => (c, st.1.2, st.2)) (fun st => st.1.2) sample_visit (c, 5, []))
    as [-> _]; [done|done|apply sample_visit_ok|exact Hok|]. eexists. split; [by vm_compute|]. by vm_compute.
Defined.

(** A walk whose callbacks all return does, from any state its callbacks keep. *)
Section Total.
Context {Fn S : Type} (get : S -> CallbackList Fn) (put : CallbackList Fn -> S -> S).
Context (I : S -> Prop) (R : S -> S -> Prop) `{!PreOrder R}.

Lemma Walk_total (visit : Entry Fn -> S -> outcome (bool * S)) st :
  (forall e st, In e (entries (get st)) -> I st -> 0 < depth (get st) ->
     exists stopped st', visit e st = Returns (stopped, st') /\ I st' /\ R st st') ->
  (forall st st', R st st' -> 0 < depth (get st) -> during (get st) (get st')) ->
  let st1 := put (Enter (get st)) st in
  I st1 -> 0 < depth (get st1) ->
  exists stopped st2, Walk get put visit st = Returns (stopped, put (Leave (get st2)) st2) /\ I st2 /\ R st1 st2.
Proof.
  intros Hv HR st1 HI Hd. unfold Walk. fold st1.
  assert (forall left i st, (i + left = length (entries (get st)))%nat -> I st -> 0 < depth (get st) ->
    exists stopped st2, walk_loop get visit left i st = Returns (stopped, st2) /\ I st2 /\ R st st2) as Hloop.
  { intros left. induction left as [|left IH]; intros i s Hlen Hs Hds; cbn [walk_loop].
    { exists false, s. split_and!; [done|done|reflexivity]. }
    destruct (lookup_lt_is_Some_2 (entries (get s)) i ltac:(lia)) as [e He]. rewrite He.
    destruct (Removed e); [apply IH; [lia|done..]|].
    assert (In e (entries (get s))) as Hin by (rewrite <- list_elem_of_In; by eapply list_elem_of_lookup_2).
    destruct (Hv e s Hin Hs Hds) as (stopped & s1 & Hvis & HI1 & HR1). rewrite Hvis. cbn [outcome_bind].
    destruct stopped; [by eauto|]. destruct (HR _ _ HR1 Hds) as [Hd1 Hm].
    destruct (IH (Datatypes.S i) s1) as (stopped & s2 & Hl & HI2 & HR2).
    - rewrite <- (Forall2_length _ _ _ Hm). lia.
    - done.
    - by rewrite Hd1.
    - exists stopped, s2. split_and!; [done|done|by etrans]. }
  destruct (Hloop (length (entries (get st1))) 0%nat st1 eq_refl HI Hd) as (stopped & st2 & Hl & H2 & HR2).
  rewrite Hl. cbn. eauto.
Qed.

End Total.
