(* ===== verification/PluginHost.v ===== *)
(** * The plugins a host has loaded: [Host/Plugins/PluginContext.cpp] and [PluginRegistry.cpp]

    Every plugin's view of the host and the record of what it took, the events raised on them, and what a
    plugin leaves behind. A plugin's own code is a program over the calls its view offers. *)
From S2P Require Import Prelude Text Identity Translations Services Workshop HostCallbacks.

Module HostEvent.
Inductive t : Type :=
| Frame | ServerStartup | ClientConnecting | ClientConnected | ClientDisconnected | ClientFullyConnected
| ClientSettingsChanged | ConsoleCommand | CheckTransmit | BuildGameSessionManifest | PlayerCommand
| PlayerCommandDone | ButtonPress.
#[export] Instance t_eq_dec : EqDecision t.
Proof. solve_decision. Defined.
End HostEvent.
#[export] Existing Instance HostEvent.t_eq_dec.

(** What each event is raised with; pointers into the engine are numbers. *)
Inductive Raised : Type :=
| RaisedFrame
| RaisedServerStartup (mapName : text)
| RaisedClientConnecting (slot steamId : Z) (name : text)
| RaisedClientConnected (slot steamId : Z) (name address : text)
| RaisedClientDisconnected (slot : Z)
| RaisedClientFullyConnected (slot : Z)
| RaisedClientSettingsChanged (slot : Z)
| RaisedConsoleCommand (name arguments : text) (slot : Z)
| RaisedCheckTransmit (infoList infoCount : Z)
| RaisedBuildGameSessionManifest (manifest : Z)
| RaisedPlayerCommand (slot input : Z)
| RaisedPlayerCommandDone (slot input : Z)
| RaisedButtonPress (slot : Z) (buttonId : text).

Definition event_of (r : Raised) : HostEvent.t :=
  match r with
  | RaisedFrame => HostEvent.Frame
  | RaisedServerStartup _ => HostEvent.ServerStartup
  | RaisedClientConnecting _ _ _ => HostEvent.ClientConnecting
  | RaisedClientConnected _ _ _ _ => HostEvent.ClientConnected
  | RaisedClientDisconnected _ => HostEvent.ClientDisconnected
  | RaisedClientFullyConnected _ => HostEvent.ClientFullyConnected
  | RaisedClientSettingsChanged _ => HostEvent.ClientSettingsChanged
  | RaisedConsoleCommand _ _ _ => HostEvent.ConsoleCommand
  | RaisedCheckTransmit _ _ => HostEvent.CheckTransmit
  | RaisedBuildGameSessionManifest _ => HostEvent.BuildGameSessionManifest
  | RaisedPlayerCommand _ _ => HostEvent.PlayerCommand
  | RaisedPlayerCommandDone _ _ => HostEvent.PlayerCommandDone
  | RaisedButtonPress _ _ => HostEvent.ButtonPress
  end.

(** The events whose callbacks answer; a walk of another never stops early. *)
Definition answers (r : Raised) : bool :=
  match r with RaisedClientConnecting _ _ _ | RaisedConsoleCommand _ _ _ => true | _ => false end.

Record ConnectedClient := mkConnected {
  ClientSteamId : Z; ClientName : text; Address : text; FullyConnected : bool }.

Section Host.

(** The workshop service the host was given, if any. *)
Context {A : Type} `{AddonHost A}.

(** A callback's function pointer is a number, and so is what it is called with. *)
Abbreviation Fn := nat.

(** The state behind every view. [ReasonBuffer] is the 256-byte array of the [RaiseClientConnecting] in progress. *)
Record SharedState := mkShared {
  NextToken : Z; NextOrder : Z; CurrentMap : text; Clients : PerSlot (option ConnectedClient);
  Lists : HostEvent.t -> CallbackList Fn; Published : PublishedInterfaces; Names : CommandNames;
  Languages : LanguageTable; RequiredAddons : option A; ReasonBuffer : text }.

Record Subscribed := mkSubscribed { SubToken : Z; SubEvent : HostEvent.t }.

(** One plugin's view. [ContextOrder] is never reused, so it also stands for the view's address. *)
Record PluginContext := mkContext {
  ContextName : text; ContextOrder : Z; subscriptions : list Subscribed; addons : list Z }.

Record LeakReport := mkLeaks { LeakedSubscriptions : list HostEvent.t; LeakedServices : list text; LeakedAddons : list Z }.

Definition LeakReport_none : LeakReport := mkLeaks [] [] [].

(** [PluginRegistry]: the shared state, and the views in load order. *)
Record PluginRegistry := mkRegistry { shared : SharedState; plugins : list PluginContext }.

Definition PluginRegistry_new (addonHost : option A) : PluginRegistry :=
  mkRegistry (mkShared 1 1 [] (PerSlot_new None) (fun _ => CallbackList_new) [] [] LanguageTable_new addonHost []) [].

(** ** Updates *)

Definition set_list (ev : HostEvent.t) (c : CallbackList Fn) (st : SharedState) : SharedState :=
  mkShared (NextToken st) (NextOrder st) (CurrentMap st) (Clients st)
    (fun ev' => if decide (ev' = ev) then c else Lists st ev') (Published st) (Names st) (Languages st)
    (RequiredAddons st) (ReasonBuffer st).

Definition with_shared (f : SharedState -> SharedState) (reg : PluginRegistry) : PluginRegistry :=
  mkRegistry (f (shared reg)) (plugins reg).

Definition set_token (token : Z) st : SharedState :=
  mkShared token (NextOrder st) (CurrentMap st) (Clients st) (Lists st) (Published st) (Names st) (Languages st)
    (RequiredAddons st) (ReasonBuffer st).

Definition set_services services st : SharedState :=
  mkShared (NextToken st) (NextOrder st) (CurrentMap st) (Clients st) (Lists st) services (Names st) (Languages st)
    (RequiredAddons st) (ReasonBuffer st).

Definition set_names names st : SharedState :=
  mkShared (NextToken st) (NextOrder st) (CurrentMap st) (Clients st) (Lists st) (Published st) names (Languages st)
    (RequiredAddons st) (ReasonBuffer st).

Definition set_addons addonHost st : SharedState :=
  mkShared (NextToken st) (NextOrder st) (CurrentMap st) (Clients st) (Lists st) (Published st) (Names st)
    (Languages st) addonHost (ReasonBuffer st).

Definition set_players map clients languages st : SharedState :=
  mkShared (NextToken st) (NextOrder st) map clients (Lists st) (Published st) (Names st) languages
    (RequiredAddons st) (ReasonBuffer st).

Definition set_buffer buffer st : SharedState :=
  mkShared (NextToken st) (NextOrder st) (CurrentMap st) (Clients st) (Lists st) (Published st) (Names st)
    (Languages st) (RequiredAddons st) buffer.

(** The view with this load position; a call through a view that is gone is undefined. *)
Definition context_of (reg : PluginRegistry) (owner : Z) : outcome PluginContext :=
  match List.find (fun p => ContextOrder p =? owner) (plugins reg) with Some p => Returns p | None => Undefined end.

Definition set_context (owner : Z) (f : PluginContext -> PluginContext) (reg : PluginRegistry) : PluginRegistry :=
  mkRegistry (shared reg) (map (fun p => if ContextOrder p =? owner then f p else p) (plugins reg)).

Definition with_subscriptions (f : list Subscribed -> list Subscribed) (p : PluginContext) : PluginContext :=
  mkContext (ContextName p) (ContextOrder p) (f (subscriptions p)) (addons p).

Definition with_addons (f : list Z -> list Z) (p : PluginContext) : PluginContext :=
  mkContext (ContextName p) (ContextOrder p) (subscriptions p) (f (addons p)).

(** ** [PluginContext] *)

(** [callback] is null or a function. The token, zero for null. *)
Definition Subscribe (owner : Z) (ev : HostEvent.t) (callback : option Fn) (context : Z) (reg : PluginRegistry)
    : outcome (Z * PluginRegistry) :=
  run! _ := context_of reg owner in
  match callback with
  | None => Returns (0, reg)
  | Some fn =>
      let st := shared reg in
      let token := NextToken st in
      let st1 := set_token (token + 1) st in
      let st2 := set_list ev (List_Add (Lists st1 ev) token owner fn context) st1 in
      Returns (token, set_context owner (with_subscriptions (fun subs => subs ++ [mkSubscribed token ev]))
                        (mkRegistry st2 (plugins reg)))
  end.

(** [held.Remove()] of one record. *)
Definition drop_subscription (held : Subscribed) (st : SharedState) : SharedState :=
  set_list (SubEvent held) (List_Remove (Lists st (SubEvent held)) (SubToken held)).2 st.

Fixpoint erase_subscribed (token : Z) (subs : list Subscribed) : list Subscribed :=
  match subs with
  | [] => []
  | s :: rest => if SubToken s =? token then rest else s :: erase_subscribed token rest
  end.

Definition Unsubscribe (owner token : Z) (reg : PluginRegistry) : outcome PluginRegistry :=
  run! p := context_of reg owner in
  match List.find (fun s => SubToken s =? token) (subscriptions p) with
  | None => Returns reg
  | Some held =>
      Returns (set_context owner (with_subscriptions (erase_subscribed token))
                 (with_shared (drop_subscription held) reg))
  end.

Definition Publish (owner : Z) (name : text) (implementation : Z) (reg : PluginRegistry) : outcome PluginRegistry :=
  run! _ := context_of reg owner in
  Returns (with_shared (fun st => set_services (Services_Publish (Published st) owner name implementation) st) reg).

Definition Unpublish (owner : Z) (name : text) (reg : PluginRegistry) : outcome PluginRegistry :=
  run! _ := context_of reg owner in
  Returns (with_shared (fun st => set_services (Services_Unpublish (Published st) owner name) st) reg).

Definition Context_RegisterCommand (owner : Z) (name : text) (reg : PluginRegistry) : outcome (bool * PluginRegistry) :=
  run! p := context_of reg owner in
  let '(ok, view) := RegisterCommand (mkNamesView (Names (shared reg)) owner (ContextName p)) name in
  Returns (ok, with_shared (set_names (view_names view)) reg).

Definition Addons_Add (owner addonId : Z) (reg : PluginRegistry) : outcome (bool * PluginRegistry) :=
  run! _ := context_of reg owner in
  match RequiredAddons (shared reg) with
  | None => Returns (false, reg)
  | Some host =>
      let '(added, host') := addon_add host addonId in
      let reg' := with_shared (set_addons (Some host')) reg in
      if added then Returns (true, set_context owner (with_addons (fun ids => ids ++ [addonId])) reg')
      else Returns (false, reg')
  end.

Fixpoint erase_first (id : Z) (ids : list Z) : list Z :=
  match ids with [] => [] | x :: rest => if x =? id then rest else x :: erase_first id rest end.

(** [_state.Addons->Remove], through a pointer that is null when the host has no service. *)
Definition host_addon_remove (addonId : Z) (reg : PluginRegistry) : outcome PluginRegistry :=
  match RequiredAddons (shared reg) with
  | None => Undefined
  | Some host => Returns (with_shared (set_addons (Some (addon_remove host addonId))) reg)
  end.

Definition Addons_Remove (owner addonId : Z) (reg : PluginRegistry) : outcome PluginRegistry :=
  run! p := context_of reg owner in
  if existsb (Z.eqb addonId) (addons p)
  then host_addon_remove addonId (set_context owner (with_addons (erase_first addonId)) reg)
  else Returns reg.

Definition RemoveAll (owner : Z) (reg : PluginRegistry) : outcome (LeakReport * PluginRegistry) :=
  run! p := context_of reg owner in
  let reg1 := with_shared (fun st => fold_left (fun st held => drop_subscription held st) (subscriptions p) st) reg in
  let reg2 := set_context owner (with_subscriptions (fun _ => [])) reg1 in
  let '(services, published) := Services_RemoveAll (Published (shared reg2)) owner in
  let reg3 := set_context owner (with_addons (fun _ => [])) (with_shared (set_services published) reg2) in
  run! reg4 := outcome_fold (fun reg addonId => host_addon_remove addonId reg) (addons p) reg3 in
  Returns (mkLeaks (map SubEvent (subscriptions p)) services (addons p),
           with_shared (fun st => set_names (CommandNames_RemoveAll (Names st) owner) st) reg4).

(** ** [PluginRegistry] *)

Definition FindPlugin (name : text) (reg : PluginRegistry) : option PluginContext :=
  List.find (fun p => text_eqb (ContextName p) name) (plugins reg).

Definition set_order (order : Z) st : SharedState :=
  mkShared (NextToken st) order (CurrentMap st) (Clients st) (Lists st) (Published st) (Names st) (Languages st)
    (RequiredAddons st) (ReasonBuffer st).

(** The new view's load position, or none when the name is empty or taken. *)
Definition AddPlugin (name : text) (reg : PluginRegistry) : option Z * PluginRegistry :=
  match name, FindPlugin name reg with
  | [], _ | _, Some _ => (None, reg)
  | _, None =>
      let order := NextOrder (shared reg) in
      (Some order, mkRegistry (set_order (order + 1) (shared reg)) (plugins reg ++ [mkContext name order [] []]))
  end.

Definition RemovePlugin (name : text) (reg : PluginRegistry) : outcome (LeakReport * PluginRegistry) :=
  match FindPlugin name reg with
  | None => Returns (LeakReport_none, reg)
  | Some p =>
      run! (leaks, reg') := RemoveAll (ContextOrder p) reg in
      Returns (leaks, mkRegistry (shared reg')
                        (List.filter (fun q => negb (ContextOrder q =? ContextOrder p)) (plugins reg')))
  end.

Definition IsConnected (slot : Z) (reg : PluginRegistry) : bool :=
  match PerSlot_get (Clients (shared reg)) slot with Some (Some _) => true | _ => false end.

Definition HasCommandListeners (reg : PluginRegistry) : bool :=
  negb (List_Empty (Lists (shared reg) HostEvent.PlayerCommand))
  || negb (List_Empty (Lists (shared reg) HostEvent.PlayerCommandDone)).

Definition RegisterHostCommand (name : text) (reg : PluginRegistry) : PluginRegistry :=
  with_shared (fun st => set_names (CommandNames_Reserve (Names st) name) st) reg.

(** ** Raising an event

    What a plugin's callback does is a program over its view: the calls it makes, each continued with the
    answer, and at the end its own answer and what it wrote to the reason buffer it was handed. An engine call
    that raises another event before it returns, like a kick, is [ARaise]. *)

Inductive HostAct : Type :=
| ASubscribe (ev : HostEvent.t) (callback : option Fn) (context : Z)
| AUnsubscribe (token : Z)
| APublish (name : text) (implementation : Z)
| AUnpublish (name : text)
| ARegisterCommand (name : text)
| AAddAddon (addonId : Z)
| ARemoveAddon (addonId : Z)
| ASetLanguage (slot : Z) (lang : text)
| ARaise (r : Raised).

Inductive plugin_program : Type :=
| PDone (answer : bool) (written : text)
| PAct (owner : Z) (act : HostAct) (k : Z -> plugin_program).

Definition answer_of (b : bool) : Z := if b then 1 else 0.

Definition exec_act (raise : Raised -> PluginRegistry -> outcome PluginRegistry) (owner : Z) (act : HostAct)
    (reg : PluginRegistry) : outcome (Z * PluginRegistry) :=
  match act with
  | ASubscribe ev callback context => Subscribe owner ev callback context reg
  | AUnsubscribe token => run! reg' := Unsubscribe owner token reg in Returns (0, reg')
  | APublish name implementation => run! reg' := Publish owner name implementation reg in Returns (0, reg')
  | AUnpublish name => run! reg' := Unpublish owner name reg in Returns (0, reg')
  | ARegisterCommand name => run! (ok, reg') := Context_RegisterCommand owner name reg in Returns (answer_of ok, reg')
  | AAddAddon id => run! (ok, reg') := Addons_Add owner (wrap_u64 id) reg in Returns (answer_of ok, reg')
  | ARemoveAddon id => run! reg' := Addons_Remove owner (wrap_u64 id) reg in Returns (0, reg')
  | ASetLanguage slot lang =>
      run! _ := context_of reg owner in
      Returns (0, with_shared (fun st => set_players (CurrentMap st) (Clients st)
                                           (SetLanguage (Languages st) slot lang) st) reg)
  | ARaise r => run! reg' := raise r reg in Returns (0, reg')
  end.

Fixpoint run_program (raise : Raised -> PluginRegistry -> outcome PluginRegistry) (p : plugin_program)
    (reg : PluginRegistry) : outcome (bool * text * PluginRegistry) :=
  match p with
  | PDone answer written => Returns (answer, written, reg)
  | PAct owner act k => run! (answer, reg') := exec_act raise owner act reg in run_program raise (k answer) reg'
  end.

Section Raise.
Context (behaviour : Fn -> Z -> Raised -> PluginRegistry -> plugin_program).
Context (raise : Raised -> PluginRegistry -> outcome PluginRegistry).

Definition get_list (ev : HostEvent.t) (reg : PluginRegistry) : CallbackList Fn := Lists (shared reg) ev.

Definition put_list (ev : HostEvent.t) (c : CallbackList Fn) (reg : PluginRegistry) : PluginRegistry :=
  with_shared (set_list ev c) reg.

(** Bytes written from the start of the 256-byte array. *)
Definition write_reason (written buffer : text) : text := take 256 (written ++ drop (length written) buffer).

Definition call_plugin (r : Raised) (fn : Fn) (context : Z) (reg : PluginRegistry) : outcome (bool * PluginRegistry) :=
  run! (answer, written, reg') := run_program raise (behaviour fn context r reg) reg in
  match r with
  | RaisedClientConnecting _ _ _ =>
      Returns (answer, with_shared (fun st => set_buffer (write_reason written (ReasonBuffer st)) st) reg')
  | _ => Returns (answers r && answer, reg')
  end.

Definition dispatch (r : Raised) (reg : PluginRegistry) : outcome (bool * PluginRegistry) :=
  List_Dispatch (get_list (event_of r)) (put_list (event_of r)) (call_plugin r) reg.

Definition dispatch_all (r : Raised) (reg : PluginRegistry) : outcome PluginRegistry :=
  run! (_, reg') := dispatch r reg in Returns reg'.

Definition RaiseServerStartup (mapName : text) (reg : PluginRegistry) : outcome PluginRegistry :=
  dispatch_all (RaisedServerStartup mapName)
    (with_shared (fun st => set_players mapName (Clients st) (Languages st) st) reg).

(** The reason as a C string: [reason[255]] is zeroed first. *)
Fixpoint c_string (s : text) : text :=
  match s with
  | [] => []
  | c :: rest => if code c =? 0 then [] else c :: c_string rest
  end.

(** The array is this call's own: a nested raise has another. *)
Definition RaiseClientConnecting (slot steamId : Z) (name : text) (reg : PluginRegistry) : outcome (text * PluginRegistry) :=
  let outer := ReasonBuffer (shared reg) in
  run! (refused, reg') :=
    dispatch (RaisedClientConnecting slot steamId name) (with_shared (set_buffer (replicate 256 (chr 0))) reg) in
  let reason := c_string (take 255 (ReasonBuffer (shared reg'))) in
  Returns (if negb refused then [] else match reason with [] => $"Refused by the server." | _ => reason end,
           with_shared (set_buffer outer) reg').

Definition RaiseClientConnected (slot steamId : Z) (name address : text) (reg : PluginRegistry) : outcome PluginRegistry :=
  let entered st :=
    set_players (CurrentMap st)
      (PerSlot_set (Clients st) slot (Some (mkConnected steamId name address false)))
      (ResetLanguage (Languages st) slot) st in
  dispatch_all (RaisedClientConnected slot steamId name address) (with_shared entered reg).

Definition RaiseClientDisconnected (slot : Z) (reg : PluginRegistry) : outcome PluginRegistry :=
  run! reg' := dispatch_all (RaisedClientDisconnected slot) reg in
  Returns (with_shared (fun st => set_players (CurrentMap st) (PerSlot_Reset None (Clients st) slot)
                                    (ResetLanguage (Languages st) slot) st) reg').

Definition RaiseClientFullyConnected (slot : Z) (reg : PluginRegistry) : outcome PluginRegistry :=
  let marked st :=
    match PerSlot_get (Clients st) slot with
    | Some (Some c) =>
        set_players (CurrentMap st)
          (PerSlot_set (Clients st) slot (Some (mkConnected (ClientSteamId c) (ClientName c) (Address c) true)))
          (Languages st) st
    | _ => st
    end in
  dispatch_all (RaisedClientFullyConnected slot) (with_shared marked reg).

Definition RaiseConsoleCommand (name arguments : text) (slot : Z) (reg : PluginRegistry) : outcome (bool * PluginRegistry) :=
  dispatch (RaisedConsoleCommand name arguments slot) reg.

(** [RaiseFrame], [RaiseClientSettingsChanged], [RaiseCheckTransmit], [RaiseBuildGameSessionManifest],
    [RaisePlayerCommand], [RaisePlayerCommandDone] and [RaiseButtonPress] only dispatch. *)
Definition raise_with (r : Raised) (reg : PluginRegistry) : outcome PluginRegistry :=
  match r with
  | RaisedServerStartup mapName => RaiseServerStartup mapName reg
  | RaisedClientConnecting slot steamId name =>
      run! (_, reg') := RaiseClientConnecting slot steamId name reg in Returns reg'
  | RaisedClientConnected slot steamId name address => RaiseClientConnected slot steamId name address reg
  | RaisedClientDisconnected slot => RaiseClientDisconnected slot reg
  | RaisedClientFullyConnected slot => RaiseClientFullyConnected slot reg
  | RaisedConsoleCommand name arguments slot =>
      run! (_, reg') := RaiseConsoleCommand name arguments slot reg in Returns reg'
  | _ => dispatch_all r reg
  end.

(** *** What one plugin missed, and the other way round *)

Definition dispatch_to (owner : Z) (ev : HostEvent.t) (raised : PluginRegistry -> Raised) (reg : PluginRegistry)
    : outcome PluginRegistry :=
  List_DispatchTo (get_list ev) (put_list ev) owner
    (fun fn context reg => run! (_, reg') := call_plugin (raised reg) fn context reg in Returns reg') reg.

Definition replay_slot (owner : Z) (reg : PluginRegistry) (slot : Z) : outcome PluginRegistry :=
  match PerSlot_get (Clients (shared reg)) slot with
  | Some (Some client) =>
      run! reg1 :=
        dispatch_to owner HostEvent.ClientConnected
          (fun _ => RaisedClientConnected slot (ClientSteamId client) (ClientName client) (Address client)) reg in
      match PerSlot_get (Clients (shared reg1)) slot with
      | Some (Some now) =>
          if FullyConnected now
          then dispatch_to owner HostEvent.ClientFullyConnected (fun _ => RaisedClientFullyConnected slot) reg1
          else Returns reg1
      | _ => Returns reg1
      end
  | _ => Returns reg
  end.

Definition slots : list Z := map Z.of_nat (seq 0 (Z.to_nat MaxPlayers)).

Definition ReplayMissedEvents (owner : Z) (reg : PluginRegistry) : outcome PluginRegistry :=
  run! _ := context_of reg owner in
  match CurrentMap (shared reg) with
  | [] => Returns reg
  | _ =>
      run! reg1 :=
        dispatch_to owner HostEvent.ServerStartup (fun reg => RaisedServerStartup (CurrentMap (shared reg))) reg in
      outcome_fold (replay_slot owner) slots reg1
  end.

Definition DisconnectClients (owner : Z) (reg : PluginRegistry) : outcome PluginRegistry :=
  run! _ := context_of reg owner in
  outcome_fold (fun reg slot =>
    match PerSlot_get (Clients (shared reg)) slot with
    | Some (Some _) =>
        dispatch_to owner HostEvent.ClientDisconnected (fun _ => RaisedClientDisconnected slot) reg
    | _ => Returns reg
    end) slots reg.

End Raise.

(** Raising, with a nested raise one level down. *)
Fixpoint Raise (behaviour : Fn -> Z -> Raised -> PluginRegistry -> plugin_program) (fuel : nat) (r : Raised)
    (reg : PluginRegistry) : outcome PluginRegistry :=
  match fuel with
  | O => OutOfFuel
  | S f => raise_with behaviour (Raise behaviour f) r reg
  end.

(** ** What the host keeps true *)

Definition count_addon (id : Z) (ids : list Z) : Z := Z.of_nat (length (List.filter (Z.eqb id) ids)).

Definition loaded (reg : PluginRegistry) : list Z := map ContextOrder (plugins reg).

(** Every callback in a list is one a loaded plugin recorded, and the other way round. *)
Record subscriptions_ok (st : SharedState) (ps : list PluginContext) : Prop := {
  h_lists ev : list_ok (NextToken st) (Lists st ev);
  h_tokens p : In p ps -> NoDup (map SubToken (subscriptions p));
  h_owned ev e : In e (settled (Lists st ev)) ->
    exists p, In p ps /\ ContextOrder p = Order e /\ In (mkSubscribed (Token e) ev) (subscriptions p);
  h_taken p s : In p ps -> In s (subscriptions p) ->
    exists e, In e (settled (Lists st (SubEvent s))) /\ Token e = SubToken s /\ Order e = ContextOrder p;
}.

(** Every addon a plugin requires is held by the workshop service as often. *)
Definition addons_ok (st : SharedState) (ps : list PluginContext) : Prop :=
  (forall p id, In p ps -> In id (addons p) -> is_u64 id) /\
  match RequiredAddons st with
  | None => forall p, In p ps -> addons p = []
  | Some host => addon_ok host /\
      forall id, count_addon id (flat_map addons ps) <= addon_held host id
  end.

Record host_ok (reg : PluginRegistry) : Prop := {
  h_orders : NoDup (loaded reg);
  h_range o : In o (loaded reg) -> 0 < o < NextOrder (shared reg);
  h_next_order : 0 < NextOrder (shared reg);
  h_plugin_names : NoDup (map ContextName (plugins reg));
  h_subscriptions : subscriptions_ok (shared reg) (plugins reg);
  h_names n : In n (Names (shared reg)) -> EntryOwner n = host_owner \/ In (EntryOwner n) (loaded reg);
  h_services s : In s (Published (shared reg)) -> In (ServiceOwner s) (loaded reg);
  h_addons : addons_ok (shared reg) (plugins reg);
}.

(** What plugin code run by the host may change: no plugin comes or goes, and a list being walked is only
    marked. *)
Record evolves (reg reg' : PluginRegistry) : Prop := {
  e_loaded : loaded reg' = loaded reg;
  e_names : map ContextName (plugins reg') = map ContextName (plugins reg);
  e_depth ev : depth (get_list ev reg') = depth (get_list ev reg);
  e_during ev : 0 < depth (get_list ev reg) -> during (get_list ev reg) (get_list ev reg');
}.

#[export] Instance evolves_preorder : PreOrder evolves.
Proof.
  split.
  - intros reg. split; [done|done|done|]. intros. apply during_refl.
  - intros a b c [L1 N1 D1 U1] [L2 N2 D2 U2]. split; [congruence|congruence|congruence|].
    intros ev Hd. eapply during_trans; [by apply U1|]. apply U2. by rewrite D1.
Qed.

Lemma evolves_same_lists reg reg' :
  loaded reg' = loaded reg -> map ContextName (plugins reg') = map ContextName (plugins reg) ->
  Lists (shared reg') = Lists (shared reg) -> evolves reg reg'.
Proof. intros Hl Hn Hs. split; unfold get_list; rewrite ?Hs; [done|done|done|]. intros. apply during_refl. Qed.

Lemma context_of_spec reg owner p :
  context_of reg owner = Returns p -> In p (plugins reg) /\ ContextOrder p = owner.
Proof.
  unfold context_of. destruct (List.find _ _) eqn:Hf; [|done]. intros [= ->]. apply List.find_some in Hf as [Hin Ho].
  by apply Z.eqb_eq in Ho.
Qed.

Lemma context_of_loaded reg owner : In owner (loaded reg) -> exists p, context_of reg owner = Returns p.
Proof.
  intros Hin. unfold context_of. destruct (List.find _ _) eqn:Hf; [by eauto|]. exfalso.
  unfold loaded in Hin. apply in_map_iff in Hin as (p & Ho & Hp).
  apply (List.find_none _ _ Hf) in Hp. apply Z.eqb_neq in Hp. done.
Qed.

Lemma loaded_same reg p q : NoDup (loaded reg) -> In p (plugins reg) -> In q (plugins reg) ->
  ContextOrder p = ContextOrder q -> p = q.
Proof.
  intros Hu Hp Hq Ho. unfold loaded in Hu. revert Hu Hp Hq. clear -Ho.
  induction (plugins reg) as [|x l IH]; cbn; [done|]. intros Hu Ha Hb. apply NoDup_cons in Hu as [Hn Hu].
  rewrite list_elem_of_In, in_map_iff in Hn.
  destruct Ha as [->|Ha], Hb as [->|Hb]; [done| | |by apply IH]; exfalso; apply Hn; eauto.
Qed.

Lemma In_set_context owner f ps q :
  In q (map (fun p => if ContextOrder p =? owner then f p else p) ps) <->
  exists p, In p ps /\ q = if ContextOrder p =? owner then f p else p.
Proof. rewrite in_map_iff. firstorder. Qed.

Lemma map_set_context {B} (g : PluginContext -> B) owner f ps :
  (forall p, g (f p) = g p) -> map g (map (fun p => if ContextOrder p =? owner then f p else p) ps) = map g ps.
Proof. intros Hg. rewrite map_map. apply map_ext. intros p. by destruct (ContextOrder p =? owner). Qed.

(** Only the lists, the tokens and the records matter to the subscriptions, and only the service and the
    records to the addons. *)
Lemma subscriptions_ok_with_addons st ps owner f :
  subscriptions_ok st ps ->
  subscriptions_ok st (map (fun p => if ContextOrder p =? owner then with_addons f p else p) ps).
Proof.
  intros []. split; [done| | |].
  - intros q (p & Hp & ->)%In_set_context. destruct (ContextOrder p =? owner); by apply (h_tokens0 p).
  - intros ev e He. destruct (h_owned0 ev e He) as (p & Hp & Ho & Hs).
    exists (if ContextOrder p =? owner then with_addons f p else p).
    split; [apply In_set_context; eauto|]. by destruct (ContextOrder p =? owner).
  - intros q s (p & Hp & ->)%In_set_context Hs. destruct (h_taken0 p s Hp) as (e & He & Ht & Ho).
    + by destruct (ContextOrder p =? owner).
    + exists e. split_and!; [done|done|]. by destruct (ContextOrder p =? owner).
Qed.

Lemma subscriptions_ok_shared st st' ps :
  NextToken st' = NextToken st -> Lists st' = Lists st -> subscriptions_ok st ps -> subscriptions_ok st' ps.
Proof. intros Hn Hl []. split; rewrite ?Hn, ?Hl; done. Qed.

Lemma addons_ok_with_subscriptions st ps owner f :
  addons_ok st ps -> addons_ok st (map (fun p => if ContextOrder p =? owner then with_subscriptions f p else p) ps).
Proof.
  assert (forall p, addons (if ContextOrder p =? owner then with_subscriptions f p else p) = addons p) as Ha
    by (intros p; by destruct (ContextOrder p =? owner)).
  intros [Hr Hh]. split.
  - intros q id (p & Hp & ->)%In_set_context. rewrite Ha. by apply Hr.
  - destruct (RequiredAddons st) as [host|].
    + destruct Hh as [Hok Hh]. split; [done|]. intros id. rewrite flat_map_concat_map, map_map.
      rewrite (map_ext _ addons Ha), <- flat_map_concat_map. apply Hh.
    + intros q (p & Hp & ->)%In_set_context. rewrite Ha. by apply Hh.
Qed.

Lemma loaded_set_context owner f reg : (forall p, ContextOrder (f p) = ContextOrder p) ->
  loaded (set_context owner f reg) = loaded reg.
Proof. intros Hf. by apply map_set_context. Qed.

Lemma Lists_set_list ev c st ev' : Lists (set_list ev c st) ev' = if decide (ev' = ev) then c else Lists st ev'.
Proof. done. Qed.

Lemma subscribe_ok reg owner p ev fn context :
  NoDup (loaded reg) -> In p (plugins reg) -> ContextOrder p = owner -> subscriptions_ok (shared reg) (plugins reg) ->
  let st := shared reg in let token := NextToken st in
  subscriptions_ok
    (set_list ev (List_Add (Lists st ev) token owner fn context) (set_token (token + 1) st))
    (map (fun p => if ContextOrder p =? owner then with_subscriptions (fun subs => subs ++ [mkSubscribed token ev]) p else p)
       (plugins reg)).
Proof.
  intros Hnd Hp Ho Hok st token. destruct Hok as [Hl Ht How Hta].
  destruct (List_Add_spec token (Lists st ev) owner fn context (Hl ev)) as (Hok1 & Hset & _).
  split.
  - intros ev'. cbn [NextToken Lists set_list set_token]. case_decide; [by subst|]. apply (list_ok_mono token); [lia|apply Hl].
  - intros q (p' & Hp' & ->)%In_set_context. destruct (ContextOrder p' =? owner); [|by apply Ht].
    cbn. rewrite map_app. apply NoDup_app. split_and!; [by apply Ht| |repeat constructor; set_solver].
    intros t Hin Hin'. apply list_elem_of_In, in_map_iff in Hin as (s & <- & Hs).
    apply list_elem_of_In in Hin' as [Hin'|[]]. cbn in Hin'.
    destruct (Hta p' s Hp' Hs) as (e & He & Het & _). pose proof (settled_next _ _ _ (Hl _) He). subst token st. lia.
  - intros ev' e He. rewrite Lists_set_list in He. cbn [Lists set_token] in He.
    assert (In e (settled (Lists st ev')) \/ (ev' = ev /\ e = mkEntry token owner fn context false)) as [Hold|[-> ->]].
    { case_decide; [|by left]. subst ev'. rewrite Hset in He. apply In_insert in He as [->|He]; tauto. }
    + destruct (How ev' e Hold) as (p' & Hp' & Ho' & Hs). eexists. split; [apply In_set_context; eauto|].
      destruct (ContextOrder p' =? owner); [|done]. cbn. rewrite in_app_iff. tauto.
    + exists (with_subscriptions (fun subs => subs ++ [mkSubscribed token ev]) p). split_and!; [|done|].
      * apply In_set_context. exists p. split; [done|]. by rewrite Ho, Z.eqb_refl.
      * cbn. rewrite in_app_iff. right. by left.
  - intros q s (p' & Hp' & ->)%In_set_context Hs.
    assert (In s (subscriptions p') \/ (s = mkSubscribed token ev /\ ContextOrder p' = owner)) as [Hold|[-> Hpo]].
    { destruct (Z.eqb_spec (ContextOrder p') owner); [|by left]. cbn in Hs. apply in_app_iff in Hs as [Hs|[<-|[]]]; tauto. }
    + destruct (Hta p' s Hp' Hold) as (e & He & Het & Heo). exists e. split_and!; [|done|].
      * rewrite Lists_set_list. case_decide as Hev; [|done]. rewrite Hset, <- Hev, In_insert. tauto.
      * by destruct (ContextOrder p' =? owner).
    + exists (mkEntry token owner fn context false). split_and!; [|done|].
      * rewrite Lists_set_list. cbn [SubEvent]. rewrite decide_True by done. rewrite Hset, In_insert. by left.
      * cbn. rewrite Hpo, Z.eqb_refl. done.
Qed.

(** What stays of the list of one event when a record is dropped. *)
Definition keeps (held : Subscribed) (ev : HostEvent.t) (e : Entry Fn) : bool :=
  negb (bool_decide (SubEvent held = ev) && (Token e =? SubToken held)).

Lemma drop_subscription_spec held st :
  (forall ev, list_ok (NextToken st) (Lists st ev)) ->
  NextToken (drop_subscription held st) = NextToken st /\
  forall ev, list_ok (NextToken st) (Lists (drop_subscription held st) ev) /\
    settled (Lists (drop_subscription held st) ev) = List.filter (keeps held ev) (settled (Lists st ev)) /\
    depth (Lists (drop_subscription held st) ev) = depth (Lists st ev) /\
    (0 < depth (Lists st ev) -> during (Lists st ev) (Lists (drop_subscription held st) ev)).
Proof.
  intros Hl. split; [done|]. intros ev. unfold drop_subscription. rewrite Lists_set_list. case_decide as Hev.
  - subst ev. pose proof (List_Remove_spec _ _ (SubToken held) (Hl (SubEvent held))) as Hr.
    destruct (List_Remove _ _) as [b c]. destruct Hr as (Hok & Hs & _ & Hd & Hdep). cbn [snd].
    split_and!; [done| |done|done]. rewrite Hs. apply List.filter_ext. intros e. unfold keeps, other_token.
    by rewrite bool_decide_eq_true_2.
  - split_and!; [done| |done|intros; apply during_refl]. symmetry. apply filter_all, Forall_forall. intros e _.
    unfold keeps. by rewrite bool_decide_eq_false_2.
Qed.

Lemma erase_subscribed_In token subs s :
  NoDup (map SubToken subs) -> In s (erase_subscribed token subs) <-> In s subs /\ SubToken s <> token.
Proof.
  induction subs as [|x subs IH]; cbn; [firstorder|]. intros Hnd. apply NoDup_cons in Hnd as [Hn Hnd].
  rewrite list_elem_of_In, in_map_iff in Hn. destruct (Z.eqb_spec (SubToken x) token) as [Hx|Hx].
  - split; [|firstorder congruence]. intros Hs. split; [tauto|]. intros Ht. apply Hn. exists s. split; [congruence|done].
  - cbn. rewrite IH by done. split; [|tauto]. intros [<-|?]; tauto.
Qed.

Lemma erase_subscribed_NoDup token subs : NoDup (map SubToken subs) -> NoDup (map SubToken (erase_subscribed token subs)).
Proof.
  induction subs as [|x subs IH]; cbn; [done|]. intros Hnd. apply NoDup_cons in Hnd as [Hn Hnd].
  destruct (SubToken x =? token); [done|]. cbn. constructor; [|by apply IH].
  rewrite list_elem_of_In, in_map_iff in *. intros (s & Hs & Hin). apply erase_subscribed_In in Hin as [Hin _]; [|done]. eauto.
Qed.

Lemma same_subscription subs s t :
  NoDup (map SubToken subs) -> In s subs -> In t subs -> SubToken s = SubToken t -> s = t.
Proof.
  induction subs as [|x subs IH]; cbn; [done|]. intros Hu Ha Hb Ht. apply NoDup_cons in Hu as [Hn Hu].
  rewrite list_elem_of_In, in_map_iff in Hn.
  destruct Ha as [->|Ha], Hb as [->|Hb]; [done| | |by apply IH]; exfalso; apply Hn; eauto.
Qed.

(** Dropping several records, one after the other. *)
Definition drop_all (gone : list Subscribed) (st : SharedState) : SharedState :=
  fold_left (fun st held => drop_subscription held st) gone st.

Definition stays (gone : list Subscribed) (ev : HostEvent.t) (e : Entry Fn) : bool :=
  forallb (fun held => keeps held ev e) gone.

Lemma drop_all_spec gone st :
  (forall ev, list_ok (NextToken st) (Lists st ev)) ->
  NextToken (drop_all gone st) = NextToken st /\
  forall ev, list_ok (NextToken st) (Lists (drop_all gone st) ev) /\
    settled (Lists (drop_all gone st) ev) = List.filter (stays gone ev) (settled (Lists st ev)) /\
    depth (Lists (drop_all gone st) ev) = depth (Lists st ev) /\
    (0 < depth (Lists st ev) -> during (Lists st ev) (Lists (drop_all gone st) ev)).
Proof.
  revert st. induction gone as [|held gone IH]; intros st Hl.
  - split; [done|]. intros ev. split_and!; [done| |done|intros; apply during_refl].
    symmetry. by apply filter_all, Forall_forall.
  - destruct (drop_subscription_spec held st Hl) as [Hn1 H1]. cbn [drop_all fold_left].
    fold (drop_all gone (drop_subscription held st)).
    destruct (IH (drop_subscription held st)) as [Hn2 H2]; [intros ev; rewrite Hn1; apply H1|].
    rewrite Hn2, Hn1. split; [done|]. intros ev. destruct (H1 ev) as (L1 & S1 & D1 & U1), (H2 ev) as (L2 & S2 & D2 & U2).
    rewrite Hn1 in L2. split_and!; [done| |congruence|].
    + rewrite S2, S1, filter_filter. done.
    + intros Hd. eapply during_trans; [by apply U1|]. apply U2. by rewrite D1.
Qed.

Lemma keeps_false held ev e : keeps held ev e = false <-> SubEvent held = ev /\ Token e = SubToken held.
Proof.
  unfold keeps. rewrite negb_false_iff, andb_true_iff, bool_decide_eq_true, Z.eqb_eq. done.
Qed.

Lemma stays_true gone ev e : stays gone ev e = true <-> ~ In (mkSubscribed (Token e) ev) gone.
Proof.
  unfold stays. rewrite forallb_forall. split.
  - intros Hk Hin. specialize (Hk _ Hin). apply not_false_iff_true in Hk. apply Hk. by apply keeps_false.
  - intros Hn held Hin. apply not_false_iff_true. rewrite keeps_false. intros [<- Ht]. apply Hn. rewrite Ht. by destruct held.
Qed.

(** The records left are those of the plugin that are not gone. *)
Lemma drop_all_ok reg p gone f :
  NoDup (loaded reg) -> In p (plugins reg) -> subscriptions_ok (shared reg) (plugins reg) ->
  (forall s, In s gone -> In s (subscriptions p)) ->
  (forall s, In s (f (subscriptions p)) <-> In s (subscriptions p) /\ ~ In s gone) ->
  NoDup (map SubToken (f (subscriptions p))) ->
  subscriptions_ok (drop_all gone (shared reg))
    (map (fun q => if ContextOrder q =? ContextOrder p then with_subscriptions f q else q) (plugins reg)).
Proof.
  intros Hnd Hp [Hl Ht How Hta] Hsub Hf Hfn. destruct (drop_all_spec gone (shared reg) Hl) as [Hn Hd].
  assert (forall q, In q (plugins reg) -> (ContextOrder q =? ContextOrder p) = true -> q = p) as Hsame.
  { intros q Hq Ho. apply Z.eqb_eq in Ho. by eapply loaded_same. }
  split.
  - intros ev. rewrite Hn. apply Hd.
  - intros q (q' & Hq & ->)%In_set_context. destruct (ContextOrder q' =? ContextOrder p) eqn:Ho; [|by apply Ht].
    apply Hsame in Ho as ->; [|done]. done.
  - intros ev e He. destruct (Hd ev) as (_ & Hs & _). rewrite Hs in He. apply filter_In in He as [He Hstay].
    apply stays_true in Hstay. destruct (How ev e He) as (q & Hq & Ho & Hin).
    eexists. split; [apply In_set_context; eauto|]. destruct (ContextOrder q =? ContextOrder p) eqn:Hqp; [|done].
    apply Hsame in Hqp as ->; [|done]. split; [done|]. cbn. apply Hf. done.
  - intros q s (q' & Hq & ->)%In_set_context Hs.
    assert (In s (subscriptions q') /\ (ContextOrder q' = ContextOrder p -> ~ In s gone)) as [Hs' Hng].
    { destruct (ContextOrder q' =? ContextOrder p) eqn:Hqp.
      - apply Hsame in Hqp as ->; [|done]. cbn in Hs. apply Hf in Hs as [Hs Hs2]. done.
      - split; [done|]. apply Z.eqb_neq in Hqp. done. }
    destruct (Hta q' s Hq Hs') as (e & He & Het & Heo). exists e. split_and!; [|done|].
    + destruct (Hd (SubEvent s)) as (_ & -> & _). apply filter_In. split; [done|]. apply stays_true. intros Hgone.
      rewrite Het in Hgone. assert (s = mkSubscribed (SubToken s) (SubEvent s)) as Es by by destruct s.
      rewrite <- Es in Hgone. destruct (Hta p s Hp (Hsub s Hgone)) as (e' & He' & Het' & Heo').
      assert (e = e') as -> by (eapply settled_same; [apply Hl|done|done|congruence]).
      apply Hng; [congruence|done].
    + by destruct (ContextOrder q' =? ContextOrder p).
Qed.

(** ** Every call of a plugin keeps it *)

(** Calls that return, leave a host that is right, and change no more than plugin code may. *)
Definition good_step {B} (reg : PluginRegistry) (m : outcome (B * PluginRegistry)) : Prop :=
  exists b reg', m = Returns (b, reg') /\ host_ok reg' /\ evolves reg reg'.

Definition good_state (reg : PluginRegistry) (m : outcome PluginRegistry) : Prop :=
  exists reg', m = Returns reg' /\ host_ok reg' /\ evolves reg reg'.

Lemma good_answer {B} (b : B) reg m : good_state reg m -> good_step reg (run! reg' := m in Returns (b, reg')).
Proof. intros (reg' & -> & ?). by exists b, reg'. Qed.

Lemma good_refl {B} (b : B) reg : host_ok reg -> good_step reg (Returns (b, reg)).
Proof. intros Hok. exists b, reg. split_and!; [done|done|reflexivity]. Qed.

Lemma names_map_set_context owner f reg :
  (forall p, ContextName (f p) = ContextName p) ->
  map ContextName (plugins (set_context owner f reg)) = map ContextName (plugins reg).
Proof. intros Hf. by apply map_set_context. Qed.

Lemma Subscribe_good owner ev callback context reg :
  host_ok reg -> In owner (loaded reg) -> good_step reg (Subscribe owner ev callback context reg).
Proof.
  intros Hok Hin. destruct (context_of_loaded reg owner Hin) as [p Hc]. unfold Subscribe. rewrite Hc. cbn [outcome_bind].
  apply context_of_spec in Hc as [Hp Ho]. destruct callback as [fn|]; [|by apply good_refl].
  do 2 eexists. split; [done|]. destruct Hok. split.
  - split; cbn [shared plugins]; rewrite ?loaded_set_context, ?names_map_set_context by done; try done.
    + by eapply subscribe_ok.
    + by apply addons_ok_with_subscriptions.
  - destruct h_subscriptions0 as [Hl _ _ _]. destruct (List_Add_spec _ _ owner fn context (Hl ev)) as (_ & _ & Hdu).
    split; [by rewrite loaded_set_context|by apply map_set_context| |]; intros ev'; unfold get_list; cbn [shared set_context];
      rewrite Lists_set_list; cbn [Lists set_token]; case_decide as Hev; try subst ev'.
    + unfold List_Add. by destruct (0 <? _).
    + done.
    + intros Hd. by apply Hdu.
    + intros _. apply during_refl.
Qed.

Lemma Unsubscribe_good owner token reg :
  host_ok reg -> In owner (loaded reg) -> good_state reg (Unsubscribe owner token reg).
Proof.
  intros Hok Hin. destruct (context_of_loaded reg owner Hin) as [p Hc]. unfold Unsubscribe. rewrite Hc. cbn [outcome_bind].
  apply context_of_spec in Hc as [Hp Ho].
  destruct (List.find _ (subscriptions p)) as [held|] eqn:Hf; [|exists reg; split_and!; [done|done|reflexivity]].
  apply List.find_some in Hf as [Hheld Ht]. apply Z.eqb_eq in Ht. eexists. split; [done|]. destruct Hok.
  pose proof (h_tokens _ _ h_subscriptions0 p Hp) as Hnd. split.
  - split; cbn [shared plugins with_shared set_context]; try done.
    + unfold loaded. cbn. by rewrite map_set_context.
    + unfold loaded. cbn. by rewrite map_set_context.
    + by rewrite map_set_context.
    + rewrite <- Ho. apply (drop_all_ok reg p [held]); try done.
      * intros s [<-|[]]. done.
      * intros s. rewrite erase_subscribed_In by done. split; intros [Hs Hne]; (split; [done|]).
        -- intros [<-|[]]. done.
        -- intros Hst. apply Hne. left. eapply same_subscription; [exact Hnd|done|done|congruence].
      * by apply erase_subscribed_NoDup.
    + unfold loaded. cbn. by rewrite map_set_context.
    + unfold loaded. cbn. by rewrite map_set_context.
    + by apply addons_ok_with_subscriptions.
  - destruct (drop_subscription_spec held (shared reg) (h_lists _ _ h_subscriptions0)) as [_ Hd].
    split.
    + unfold loaded. cbn. by rewrite map_set_context.
    + by apply map_set_context.
    + intros ev. destruct (Hd ev) as (_ & _ & He & _). exact He.
    + intros ev. destruct (Hd ev) as (_ & _ & _ & He). exact He.
Qed.

(** A change of the services, the names, the players or the addons alone. *)
Lemma good_shared reg st' ps' :
  host_ok reg -> map ContextOrder ps' = loaded reg -> map ContextName ps' = map ContextName (plugins reg) ->
  NextToken st' = NextToken (shared reg) -> NextOrder st' = NextOrder (shared reg) -> Lists st' = Lists (shared reg) ->
  subscriptions_ok (shared reg) ps' ->
  (forall n, In n (Names st') -> EntryOwner n = host_owner \/ In (EntryOwner n) (loaded reg)) ->
  (forall s, In s (Published st') -> In (ServiceOwner s) (loaded reg)) -> addons_ok st' ps' ->
  host_ok (mkRegistry st' ps') /\ evolves reg (mkRegistry st' ps').
Proof.
  intros [] Ho Hname Ht Hor Hl Hs Hn Hsv Ha. split.
  - split; unfold loaded; cbn [shared plugins]; rewrite ?Ho, ?Hname, ?Hor; try done.
    by eapply subscriptions_ok_shared.
  - by apply evolves_same_lists.
Qed.

Lemma In_set_implementation services name implementation s :
  In s (set_implementation services name implementation) -> exists s', In s' services /\ ServiceOwner s = ServiceOwner s'.
Proof.
  induction services as [|x services IH]; cbn; [done|]. destruct (text_eqb _ _).
  - intros [<-|Hs]; [exists x; split; [by left|done]|]. exists s. split; [by right|done].
  - intros [<-|Hs]; [exists x; split; [by left|done]|]. destruct (IH Hs) as (y & Hy & Ho). exists y. split; [by right|done].
Qed.

Lemma In_erase_service services name s : In s (erase_service services name) -> In s services.
Proof. induction services as [|x services IH]; cbn; [done|]. destruct (text_eqb _ _); cbn; tauto. Qed.

Lemma Publish_good owner name implementation reg :
  host_ok reg -> In owner (loaded reg) -> good_state reg (Publish owner name implementation reg).
Proof.
  intros Hok Hin. destruct (context_of_loaded reg owner Hin) as [p Hc]. unfold Publish. rewrite Hc. cbn [outcome_bind].
  eexists. split; [done|]. apply good_shared; try done; try apply Hok.
  cbn. intros s Hs. unfold Services_Publish in Hs.
  destruct (_ || _); [by apply (h_services _ Hok)|]. destruct (find_service _ _) as [held|].
  - destruct (ServiceOwner held =? owner); [|by apply (h_services _ Hok)].
    apply In_set_implementation in Hs as (s' & Hs & ->). by apply (h_services _ Hok).
  - apply in_app_iff in Hs as [Hs|[<-|[]]]; [by apply (h_services _ Hok)|done].
Qed.

Lemma Unpublish_good owner name reg :
  host_ok reg -> In owner (loaded reg) -> good_state reg (Unpublish owner name reg).
Proof.
  intros Hok Hin. destruct (context_of_loaded reg owner Hin) as [p Hc]. unfold Unpublish. rewrite Hc. cbn [outcome_bind].
  eexists. split; [done|]. apply good_shared; try done; try apply Hok.
  cbn. intros s Hs. unfold Services_Unpublish in Hs. apply (h_services _ Hok).
  destruct (find_service _ _); [|done]. destruct (_ =? _); [by eapply In_erase_service|done].
Qed.

Lemma RegisterCommand_good owner name reg :
  host_ok reg -> In owner (loaded reg) -> good_step reg (Context_RegisterCommand owner name reg).
Proof.
  intros Hok Hin. destruct (context_of_loaded reg owner Hin) as [p Hc]. unfold Context_RegisterCommand. rewrite Hc.
  cbn [outcome_bind]. unfold RegisterCommand. cbn [view_names view_owner view_owner_name].
  destruct (CommandNames_Register _ _ _ _) as [ok names] eqn:Hr. do 2 eexists. split; [done|].
  apply good_shared; try done; try apply Hok. cbn. intros n Hn. unfold CommandNames_Register in Hr.
  destruct name as [|c name]; [injection Hr as <- <-; by apply (h_names _ Hok)|].
  destruct (find_name _ _); injection Hr as <- <-; [by apply (h_names _ Hok)|].
  apply in_app_iff in Hn as [Hn|[<-|[]]]; [by apply (h_names _ Hok)|by right].
Qed.

Lemma set_context_split (ps : list PluginContext) p f :
  NoDup (map ContextOrder ps) -> In p ps ->
  exists l1 l2, ps = l1 ++ p :: l2 /\ map (fun q => if ContextOrder q =? ContextOrder p then f q else q) ps = l1 ++ f p :: l2.
Proof.
  intros Hnd Hp. apply in_split in Hp as (l1 & l2 & ->). exists l1, l2. split; [done|].
  rewrite map_app in *. cbn [map] in *. rewrite Z.eqb_refl. apply NoDup_app in Hnd as (_ & H1 & Hnd).
  apply NoDup_cons in Hnd as [H2 _].
  assert (forall l, (forall q, In q l -> ContextOrder q <> ContextOrder p) ->
    map (fun q => if ContextOrder q =? ContextOrder p then f q else q) l = l) as Hid.
  { intros l Hl. induction l as [|x l IH]; cbn; [done|]. rewrite IH by (intros; apply Hl; by right).
    destruct (Z.eqb_spec (ContextOrder x) (ContextOrder p)) as [E|]; [|done]. by apply (Hl x (or_introl eq_refl)) in E. }
  rewrite !Hid; [done| |].
  - intros q Hq E. apply H2. rewrite list_elem_of_In, <- E. by apply in_map.
  - intros q Hq E. apply (H1 (ContextOrder q)); [rewrite list_elem_of_In; by apply in_map|]. rewrite E. set_solver.
Qed.

Lemma count_app id l1 l2 : count_addon id (l1 ++ l2) = count_addon id l1 + count_addon id l2.
Proof. unfold count_addon. rewrite List.filter_app, length_app. lia. Qed.

Lemma count_nonneg id l : 0 <= count_addon id l.
Proof. unfold count_addon. lia. Qed.

Lemma count_cons id x l : count_addon id (x :: l) = (if id =? x then 1 else 0) + count_addon id l.
Proof. unfold count_addon. cbn. destruct (id =? x); cbn [length]; lia. Qed.

Lemma count_erase id x l : In x l -> count_addon id (erase_first x l) = count_addon id l - (if id =? x then 1 else 0).
Proof.
  induction l as [|y l IH]; cbn [erase_first]; [done|]. intros Hx. rewrite count_cons.
  destruct (Z.eqb_spec y x) as [->|Hne]; [lia|]. rewrite count_cons, IH by (destruct Hx; [done|done]). lia.
Qed.

Lemma In_erase_first x y l : In y (erase_first x l) -> In y l.
Proof. induction l as [|z l IH]; cbn; [done|]. destruct (_ =? _); cbn; tauto. Qed.

Lemma wrap_u64_range z : is_u64 (wrap_u64 z).
Proof. unfold is_u64, wrap_u64, uint64_max. pose proof (Z.mod_pos_bound z 18446744073709551616). lia. Qed.

Lemma addon_records_good reg p f host host' :
  host_ok reg -> In p (plugins reg) -> RequiredAddons (shared reg) = Some host -> addon_ok host' ->
  (forall id, In id (f (addons p)) -> is_u64 id) ->
  (forall id, count_addon id (f (addons p)) - count_addon id (addons p) <= addon_held host' id - addon_held host id) ->
  let reg' := set_context (ContextOrder p) (with_addons f) (with_shared (set_addons (Some host')) reg) in
  host_ok reg' /\ evolves reg reg'.
Proof.
  intros Hok Hp Hh Hok' Hr Hc reg'. pose proof (h_orders _ Hok) as Hnd. destruct (h_addons _ Hok) as [Hrange Hheld].
  rewrite Hh in Hheld. destruct Hheld as [_ Hheld]. apply good_shared; try done; cbn [plugins with_shared].
  - by apply map_set_context.
  - by apply map_set_context.
  - apply subscriptions_ok_with_addons. apply Hok.
  - cbn. apply Hok.
  - cbn. apply Hok.
  - split.
    + intros q id (q' & Hq & ->)%In_set_context. destruct (Z.eqb_spec (ContextOrder q') (ContextOrder p)) as [E|]; [|by apply Hrange].
      apply (loaded_same reg) in E as ->; [|done..]. apply Hr.
    + cbn [RequiredAddons set_addons shared with_shared]. split; [done|]. intros id.
      destruct (set_context_split (plugins reg) p (with_addons f) Hnd Hp) as (l1 & l2 & E1 & ->).
      specialize (Hheld id). specialize (Hc id). rewrite E1 in Hheld. rewrite !flat_map_app in *. cbn [flat_map addons with_addons] in *.
      rewrite !count_app in *. lia.
Qed.

Lemma Addons_Add_good owner id reg :
  host_ok reg -> In owner (loaded reg) -> is_u64 id -> good_step reg (Addons_Add owner id reg).
Proof.
  intros Hok Hin Hid. destruct (context_of_loaded reg owner Hin) as [p Hc]. unfold Addons_Add. rewrite Hc. cbn [outcome_bind].
  apply context_of_spec in Hc as [Hp Ho]. destruct (RequiredAddons (shared reg)) as [host|] eqn:Hh; [|by apply good_refl].
  pose proof (h_addons _ Hok) as [Hrange Hheld]. rewrite Hh in Hheld. destruct Hheld as [Haok Hheld].
  pose proof (addon_add_ok host id Hid Haok) as Hok'. pose proof (addon_add_held host id) as Hadd.
  destruct (addon_add host id) as [added host']. cbn [fst snd] in *. destruct added; do 2 eexists; (split; [done|]).
  - rewrite <- Ho. eapply addon_records_good; [done|done|done|done| |].
    + intros x Hx. apply in_app_iff in Hx as [Hx|[<-|[]]]; [by eapply Hrange|done].
    + intros x. rewrite Hadd, count_app, count_cons. change (count_addon x []) with 0. cbn [andb]. lia.
  - apply good_shared; try done; try apply Hok. split; [done|]. cbn. split; [done|]. intros x. rewrite Hadd. cbn.
    specialize (Hheld x). lia.
Qed.

Lemma host_addon_remove_eq reg host id :
  RequiredAddons (shared reg) = Some host ->
  host_addon_remove id reg = Returns (with_shared (set_addons (Some (addon_remove host id))) reg).
Proof. intros Hh. unfold host_addon_remove. by rewrite Hh. Qed.

Lemma Addons_Remove_good owner id reg :
  host_ok reg -> In owner (loaded reg) -> good_state reg (Addons_Remove owner id reg).
Proof.
  intros Hok Hin. destruct (context_of_loaded reg owner Hin) as [p Hc]. unfold Addons_Remove. rewrite Hc. cbn [outcome_bind].
  apply context_of_spec in Hc as [Hp Ho]. fold (contains (addons p) id).
  destruct (contains (addons p) id) eqn:Hex; [|exists reg; split_and!; [done|done|reflexivity]].
  apply contains_In in Hex. pose proof (h_addons _ Hok) as [Hrange Hheld].
  destruct (RequiredAddons (shared reg)) as [host|] eqn:Hh; [|by rewrite (Hheld p Hp) in Hex].
  destruct Hheld as [Haok Hheld]. rewrite (host_addon_remove_eq _ host) by done. eexists. split; [done|].
  change (with_shared ?f (set_context ?o ?g reg)) with (set_context o g (with_shared f reg)). rewrite <- Ho.
  eapply addon_records_good; [done|done|done|by apply addon_remove_ok| |].
  - intros x Hx. apply In_erase_first in Hx. by eapply Hrange.
  - intros x. rewrite count_erase, addon_remove_held by done.
    destruct (Z.eqb_spec x id) as [->|]; [|lia]. specialize (Hheld id).
    apply in_split in Hp as (l1 & l2 & E). rewrite E in Hheld. rewrite flat_map_app in Hheld. cbn [flat_map] in Hheld.
    rewrite !count_app in Hheld. apply in_split in Hex as (a1 & a2 & E2). rewrite E2 in *. rewrite !count_app, count_cons, Z.eqb_refl in *.
    pose proof (count_nonneg id (flat_map addons l1)). pose proof (count_nonneg id (flat_map addons l2)).
    pose proof (count_nonneg id a1). pose proof (count_nonneg id a2). lia.
Qed.

Lemma players_good map clients languages reg :
  host_ok reg -> host_ok (with_shared (set_players map clients languages) reg) /\
  evolves reg (with_shared (set_players map clients languages) reg).
Proof. intros Hok. apply good_shared; try done; apply Hok. Qed.

Lemma buffer_good buffer reg :
  host_ok reg -> host_ok (with_shared (set_buffer buffer) reg) /\ evolves reg (with_shared (set_buffer buffer) reg).
Proof. intros Hok. apply good_shared; try done; apply Hok. Qed.

(** *** Programs *)

(** A program that only calls through the views of [owners] and only raises what [allowed] allows. *)
Inductive acts_within (owners : list Z) (allowed : Raised -> Prop) : plugin_program -> Prop :=
| within_done answer written : acts_within owners allowed (PDone answer written)
| within_act owner act k :
    In owner owners -> (forall r, act = ARaise r -> allowed r) -> (forall z, acts_within owners allowed (k z)) ->
    acts_within owners allowed (PAct owner act k).

Lemma exec_act_good raise (allowed : Raised -> Prop) owner act reg :
  (forall r reg', allowed r -> loaded reg' = loaded reg -> host_ok reg' -> good_state reg' (raise r reg')) ->
  (forall r, act = ARaise r -> allowed r) -> In owner (loaded reg) -> host_ok reg ->
  good_step reg (exec_act raise owner act reg).
Proof.
  intros Hraise Hact Hin Hok. destruct act; cbn [exec_act].
  - by apply Subscribe_good.
  - by apply good_answer, Unsubscribe_good.
  - by apply good_answer, Publish_good.
  - by apply good_answer, Unpublish_good.
  - destruct (RegisterCommand_good owner name reg Hok Hin) as (b & reg' & -> & ?). by do 2 eexists.
  - destruct (Addons_Add_good owner _ reg Hok Hin (wrap_u64_range addonId)) as (b & reg' & -> & ?). by do 2 eexists.
  - by apply good_answer, Addons_Remove_good.
  - destruct (context_of_loaded reg owner Hin) as [p ->]. cbn [outcome_bind]. do 2 eexists. split; [done|]. by apply players_good.
  - apply good_answer, Hraise; [by apply Hact|done|done].
Qed.

Lemma run_program_good raise (allowed : Raised -> Prop) owners p reg :
  acts_within owners allowed p -> loaded reg = owners ->
  (forall r reg', allowed r -> loaded reg' = owners -> host_ok reg' -> good_state reg' (raise r reg')) ->
  host_ok reg -> good_step reg (run_program raise p reg).
Proof.
  intros Hp Hl Hraise Hok. revert reg Hl Hok. induction Hp as [answer written|owner act k Hin Hact _ IH]; intros reg Hl Hok.
  - by apply good_refl.
  - cbn [run_program]. subst owners. destruct (exec_act_good raise allowed owner act reg Hraise Hact Hin Hok)
      as (z & reg1 & -> & Hok1 & Hev1). cbn [outcome_bind].
    destruct (IH z reg1) as (b & reg2 & -> & Hok2 & Hev2); [by apply e_loaded|done|].
    do 2 eexists. split_and!; [done|done|by etrans].
Qed.

(** Putting a list back whose callbacks are the same once it is settled. *)
Lemma put_list_ok ev c reg :
  host_ok reg -> list_ok (NextToken (shared reg)) c -> settled c = settled (get_list ev reg) -> host_ok (put_list ev c reg).
Proof.
  intros [] Hc Hs. split; try done. destruct h_subscriptions0 as [Hl Ht How Hta].
  assert (forall ev', settled (Lists (set_list ev c (shared reg)) ev') = settled (Lists (shared reg) ev')) as Hsame.
  { intros ev'. rewrite Lists_set_list. case_decide; [by subst|done]. }
  split; cbn [shared plugins put_list with_shared].
  - intros ev'. cbn [NextToken set_list]. rewrite Lists_set_list. by case_decide.
  - done.
  - intros ev' e. rewrite Hsame. apply How.
  - intros p s. rewrite Hsame. apply Hta.
Qed.

Lemma walk_good owners ev (visit : Entry Fn -> PluginRegistry -> outcome (bool * PluginRegistry)) reg :
  (forall e reg', loaded reg' = owners -> host_ok reg' -> good_step reg' (visit e reg')) ->
  loaded reg = owners -> host_ok reg -> good_step reg (Walk (get_list ev) (put_list ev) visit reg).
Proof.
  intros Hv Hl Hok. pose proof (h_lists _ _ (h_subscriptions _ Hok) ev : list_ok _ (get_list ev reg)) as Hlok.
  destruct (Enter_spec _ _ Hlok) as (Hoke & Hse & _ & Hde).
  destruct (Walk_total (get_list ev) (put_list ev) (fun reg' => host_ok reg' /\ loaded reg' = owners) evolves visit reg)
    as (stopped & st2 & -> & [Hok2 Hl2] & Hev).
  - intros e reg' _ [Hok' Hl'] _. destruct (Hv e reg' Hl' Hok') as (b & reg2 & -> & Hok2 & Hev). exists b, reg2.
    split_and!; [done|done| |done]. by rewrite (e_loaded _ _ Hev).
  - intros st st' He. apply (e_during _ _ He).
  - split; [by apply put_list_ok|done].
  - unfold get_list, put_list. cbn. by rewrite decide_True.
  - exists stopped. eexists. split; [done|]. pose proof (h_lists _ _ (h_subscriptions _ Hok2) ev : list_ok _ (get_list ev st2)) as Hlok2.
    assert (get_list ev (put_list ev (Enter (get_list ev reg)) reg) = Enter (get_list ev reg)) as Hent
      by (unfold get_list, put_list; cbn; by rewrite decide_True).
    assert (forall ev' c, ev' <> ev -> get_list ev' (put_list ev c reg) = get_list ev' reg) as Hother
      by (intros; unfold get_list, put_list; cbn; by rewrite decide_False).
    pose proof (e_depth _ _ Hev ev) as Hd2. rewrite Hent in Hd2.
    assert (0 < depth (get_list ev st2)) as Hp2 by by rewrite Hd2.
    destruct (Leave_spec _ _ Hlok2 Hp2) as (Hok3 & Hs3 & Hd3 & Hk3). split; [by apply put_list_ok|].
    split.
    + unfold loaded in *. cbn. congruence.
    + cbn. by rewrite (e_names _ _ Hev).
    + intros ev'. unfold get_list at 1, put_list. cbn [shared with_shared]. rewrite Lists_set_list. case_decide as Hcase.
      * subst ev'. rewrite Hd3, Hd2. cbn. lia.
      * pose proof (e_depth _ _ Hev ev') as Hd'. by rewrite Hother in Hd'.
    + intros ev' Hpos. unfold get_list at 2, put_list. cbn [shared with_shared]. rewrite Lists_set_list. case_decide as Hcase.
      * subst ev'. rewrite Hd2 in Hk3. cbn in Hk3. destruct (Hk3 ltac:(lia)) as [Hent3 _].
        split; [rewrite Hd3, Hd2; cbn; lia|]. rewrite Hent3. pose proof (e_during _ _ Hev ev) as Hdu. rewrite Hent in Hdu.
        apply Hdu. done.
      * pose proof (e_during _ _ Hev ev') as Hdu. rewrite Hother in Hdu by done. by apply Hdu.
Qed.

Section RaiseFacts.
Context (behaviour : Fn -> Z -> Raised -> PluginRegistry -> plugin_program).
Context (raise : Raised -> PluginRegistry -> outcome PluginRegistry).
Context (owners : list Z) (allowed : Raised -> Raised -> Prop).
Context (code_ok : forall r fn context reg, loaded reg = owners -> acts_within owners (allowed r) (behaviour fn context r reg)).

(** Whatever the callbacks of [r] may raise is raised well. *)
Definition raises_well (r : Raised) : Prop :=
  forall r' reg, allowed r r' -> loaded reg = owners -> host_ok reg -> good_state reg (raise r' reg).

Lemma call_plugin_good r fn context reg :
  raises_well r -> loaded reg = owners -> host_ok reg -> good_step reg (call_plugin behaviour raise r fn context reg).
Proof.
  intros Hr Hl Hok. unfold call_plugin.
  destruct (run_program_good raise (allowed r) owners _ reg (code_ok r fn context reg Hl) Hl Hr Hok)
    as ([answer written] & reg1 & -> & Hok1 & Hev1). cbn [outcome_bind].
  destruct r; do 2 eexists; (split; [done|]); try done.
  edestruct (buffer_good (write_reason written (ReasonBuffer (shared reg1))) reg1 Hok1) as [Hok2 Hev2].
  split; [exact Hok2|]. etrans; [exact Hev1|exact Hev2].
Qed.

Lemma dispatch_good r reg :
  raises_well r -> loaded reg = owners -> host_ok reg -> good_step reg (dispatch behaviour raise r reg).
Proof. intros Hr Hl Hok. apply (walk_good owners); [|done..]. intros e reg' Hl' Hok'. by apply call_plugin_good. Qed.

Lemma dispatch_all_good r reg :
  raises_well r -> loaded reg = owners -> host_ok reg -> good_state reg (dispatch_all behaviour raise r reg).
Proof.
  intros Hr Hl Hok. unfold dispatch_all. destruct (dispatch_good r reg Hr Hl Hok) as (b & reg' & -> & ?). by eexists.
Qed.

(** A change that keeps the host right before or after. *)
Lemma good_after reg reg1 m :
  host_ok reg1 /\ evolves reg reg1 -> (host_ok reg1 -> good_state reg1 m) -> good_state reg m.
Proof.
  intros [Hok1 Hev1] Hm. destruct (Hm Hok1) as (reg2 & -> & Hok2 & Hev2). eexists. split_and!; [done|done|by etrans].
Qed.

Lemma good_then reg m f :
  good_state reg m -> (forall reg', host_ok reg' -> evolves reg reg' -> good_state reg' (f reg')) ->
  good_state reg (run! reg' := m in f reg').
Proof.
  intros (reg1 & -> & Hok1 & Hev1) Hf. cbn [outcome_bind]. apply (good_after reg reg1); [done|]. intros _. by apply Hf.
Qed.

Lemma raise_with_good r reg :
  raises_well r -> loaded reg = owners -> host_ok reg -> good_state reg (raise_with behaviour raise r reg).
Proof.
  intros Hr Hl Hok.
  assert (forall reg1, host_ok reg1 /\ evolves reg reg1 -> good_state reg (dispatch_all behaviour raise r reg1)) as Hafter.
  { intros reg1 H1. apply (good_after reg reg1); [done|]. intros Hok1. apply dispatch_all_good; [done| |done].
    rewrite <- Hl. apply e_loaded. by destruct H1. }
  destruct r; cbn [raise_with]; try (by apply dispatch_all_good).
  - by apply Hafter, players_good.
  - unfold RaiseClientConnecting. edestruct (buffer_good (replicate 256 (chr 0)) reg Hok) as [Hok1 Hev1].
    edestruct (dispatch_good (RaisedClientConnecting slot steamId name)) as (b & reg2 & Hd & Hok2 & Hev2);
      [exact Hr| |exact Hok1|].
    { rewrite <- Hl. by apply e_loaded. }
    rewrite Hd. cbn [outcome_bind]. eexists. split; [done|].
    edestruct (buffer_good (ReasonBuffer (shared reg)) reg2 Hok2) as [Hok3 Hev3]. split; [exact Hok3|].
    etrans; [exact Hev1|]. by etrans.
  - by apply Hafter, players_good.
  - unfold RaiseClientDisconnected. apply good_then; [by apply dispatch_all_good|]. intros reg' Hok' _.
    eexists. split; [done|]. by apply players_good.
  - apply Hafter. unfold with_shared. destruct (PerSlot_get _ _) as [[c|]|] eqn:Hc; [by apply players_good| |];
      destruct reg; cbn; (split; [done|reflexivity]).
Qed.

Lemma dispatch_to_good owner ev raised reg :
  (forall reg', raises_well (raised reg')) -> loaded reg = owners -> host_ok reg ->
  good_state reg (dispatch_to behaviour raise owner ev raised reg).
Proof.
  intros Hr Hl Hok. unfold dispatch_to, List_DispatchTo.
  edestruct (walk_good owners ev) as (b & reg' & -> & Hok' & Hev'); [|exact Hl|exact Hok|].
  - intros e reg' Hl' Hok'. cbn beta. destruct (Order e =? owner); [|by apply good_refl].
    destruct (call_plugin_good (raised reg') (Call e) (Context e) reg' (Hr reg') Hl' Hok') as (b & reg2 & -> & ?).
    by do 2 eexists.
  - by eexists.
Qed.

Lemma fold_good {K} (f : PluginRegistry -> K -> outcome PluginRegistry) ks reg :
  (forall k reg', loaded reg' = owners -> host_ok reg' -> good_state reg' (f reg' k)) ->
  loaded reg = owners -> host_ok reg -> good_state reg (outcome_fold f ks reg).
Proof.
  intros Hf. revert reg. induction ks as [|k ks IH]; intros reg Hl Hok; cbn [outcome_fold].
  - exists reg. split_and!; [done|done|reflexivity].
  - apply good_then; [by apply Hf|]. intros reg' Hok' Hev. apply IH; [|done]. by rewrite (e_loaded _ _ Hev).
Qed.

Lemma Replay_good owner reg :
  (forall r, raises_well r) -> In owner owners -> loaded reg = owners -> host_ok reg ->
  good_state reg (ReplayMissedEvents behaviour raise owner reg).
Proof.
  intros Hr Hin Hl Hok. unfold ReplayMissedEvents. rewrite <- Hl in Hin.
  destruct (context_of_loaded reg owner Hin) as [p ->]. cbn [outcome_bind].
  destruct (CurrentMap (shared reg)); [exists reg; split_and!; [done|done|reflexivity]|].
  apply good_then; [by apply dispatch_to_good|]. intros reg1 Hok1 Hev1. apply fold_good; [|by rewrite (e_loaded _ _ Hev1)|done].
  intros slot reg' Hl' Hok'. unfold replay_slot.
  destruct (PerSlot_get _ slot) as [[client|]|]; [|exists reg'; split_and!; [done|done|reflexivity]..].
  apply good_then; [by apply dispatch_to_good|]. intros reg2 Hok2 Hev2.
  destruct (PerSlot_get _ slot) as [[now|]|]; [destruct (FullyConnected now)|..];
    try (exists reg2; split_and!; [done|done|reflexivity]).
  apply dispatch_to_good; [done| |done]. by rewrite (e_loaded _ _ Hev2).
Qed.

Lemma Disconnect_good owner reg :
  (forall r, raises_well r) -> In owner owners -> loaded reg = owners -> host_ok reg ->
  good_state reg (DisconnectClients behaviour raise owner reg).
Proof.
  intros Hr Hin Hl Hok. unfold DisconnectClients. pose proof Hin as Hin'. rewrite <- Hl in Hin'.
  destruct (context_of_loaded reg owner Hin') as [p ->]. cbn [outcome_bind]. apply fold_good; [|done|done].
  intros slot reg' Hl' Hok'.
  destruct (PerSlot_get _ slot) as [[client|]|]; [|exists reg'; split_and!; [done|done|reflexivity]..].
  by apply dispatch_to_good.
Qed.

End RaiseFacts.

(** Plugin code cannot break the host: whatever a loaded plugin's callbacks call, nested raises included,
    raising an event returns, replaying what a plugin missed and disconnecting its players return, and after
    each one every callback in a list is still one a loaded plugin recorded and the other way round, in load
    and subscription order, every name and service has a loaded owner, every addon is held as often as it is
    required, and a list being walked was only marked. [rank] bounds how deep the callbacks raise. *)
Theorem Raise_keeps_host behaviour (rank : Raised -> nat) fuel r owner reg :
  (forall r fn context reg', loaded reg' = loaded reg ->
     acts_within (loaded reg) (fun r' => (rank r' < rank r)%nat) (behaviour fn context r reg')) ->
  host_ok reg -> In owner (loaded reg) -> (forall r, (rank r < fuel)%nat) ->
  good_state reg (Raise behaviour fuel r reg) /\
  good_state reg (ReplayMissedEvents behaviour (Raise behaviour fuel) owner reg) /\
  good_state reg (DisconnectClients behaviour (Raise behaviour fuel) owner reg).
Proof.
  intros Hcode Hok Hin Hrank.
  assert (forall fuel r reg', (rank r < fuel)%nat -> loaded reg' = loaded reg -> host_ok reg' ->
            good_state reg' (Raise behaviour fuel r reg')) as Hraise.
  { clear fuel r Hrank Hin. intros fuel. induction fuel as [|fuel IH]; intros r reg' Hr Hl Hok'; [lia|].
    cbn [Raise]. eapply (raise_with_good behaviour _ (loaded reg) (fun r r' => (rank r' < rank r)%nat)); try done.
    intros r' reg2 Hr' Hl2 Hok2. apply IH; [lia|done..]. }
  split_and!.
  - by apply Hraise.
  - eapply (Replay_good behaviour _ (loaded reg) (fun r r' => (rank r' < rank r)%nat)); try done.
    intros r' r'' reg2 _ Hl2 Hok2. by apply Hraise.
  - eapply (Disconnect_good behaviour _ (loaded reg) (fun r r' => (rank r' < rank r)%nat)); try done.
    intros r' r'' reg2 _ Hl2 Hok2. by apply Hraise.
Qed.

(** ** A plugin comes and goes *)

Lemma host_ok_new addonHost :
  match addonHost with Some host => addon_ok host | None => True end -> host_ok (PluginRegistry_new addonHost).
Proof.
  intros Ha. split; cbn; try done; try constructor; try done.
  - intros ev. apply list_ok_new.
  - cbn. destruct addonHost as [host|]; [|done]. split; [done|]. intros id. by apply addon_held_nonneg.
Qed.

Lemma AddPlugin_ok name reg : host_ok reg -> host_ok (AddPlugin name reg).2.
Proof.
  intros Hok. unfold AddPlugin. destruct name as [|c name]; [done|].
  destruct (FindPlugin (c :: name) reg) eqn:Hf; [done|]. cbn [snd]. destruct Hok.
  assert (forall o, In o (loaded reg) -> o < NextOrder (shared reg)) as Hlt by (intros o Ho; by apply h_range0).
  split; unfold loaded in *; cbn [shared plugins]; rewrite ?map_app; cbn [map ContextOrder ContextName].
  - apply NoDup_app. split_and!; [done| |apply NoDup_singleton]. intros o Ho Ho'. apply list_elem_of_singleton in Ho'.
    rewrite list_elem_of_In in Ho. specialize (Hlt o Ho). lia.
  - intros o Ho. apply in_app_iff in Ho as [Ho|[<-|[]]]; cbn [NextOrder set_order]; [specialize (h_range0 o Ho); lia|].
    split; [|lia]. exact h_next_order0.
  - cbn. lia.
  - apply NoDup_app. split_and!; [done| |apply NoDup_singleton]. intros n Hn Hn'. apply list_elem_of_singleton in Hn' as ->.
    rewrite list_elem_of_In, in_map_iff in Hn. destruct Hn as (q & Hq & Hin). unfold FindPlugin in Hf.
    apply (List.find_none _ _ Hf) in Hin. apply text_eqb_false in Hin. done.
  - destruct h_subscriptions0 as [Hl Ht How Hta]. split; cbn [Lists NextToken set_order]; [done| | |].
    + intros q Hq. apply in_app_iff in Hq as [Hq|[<-|[]]]; [by apply Ht|constructor].
    + intros ev e He. destruct (How ev e He) as (q & Hq & ?). exists q. rewrite in_app_iff. tauto.
    + intros q s Hq Hs. apply in_app_iff in Hq as [Hq|[<-|[]]]; [by apply Hta|done].
  - intros n Hn. destruct (h_names0 n Hn); [by left|right]. rewrite in_app_iff. tauto.
  - intros v Hv. rewrite in_app_iff. left. by apply h_services0.
  - destruct h_addons0 as [Hr Hh]. split.
    + intros q id Hq Hid. apply in_app_iff in Hq as [Hq|[<-|[]]]; [by eapply Hr|done].
    + cbn [RequiredAddons set_order]. destruct (RequiredAddons (shared reg)) as [host|].
      * destruct Hh as [Ho Hh]. split; [done|]. intros id. rewrite flat_map_app. cbn. rewrite app_nil_r. apply Hh.
      * intros q Hq. apply in_app_iff in Hq as [Hq|[<-|[]]]; [by apply Hh|done].
Qed.

Lemma remove_addons_spec ids host :
  addon_ok host -> (forall id, count_addon id ids <= addon_held host id) ->
  let host' := fold_left addon_remove ids host in
  addon_ok host' /\ forall id, addon_held host' id = addon_held host id - count_addon id ids.
Proof.
  revert host. induction ids as [|x ids IH]; intros host Hok Hc; cbn [fold_left].
  - split; [done|]. intros id. change (count_addon id []) with 0. lia.
  - pose proof (addon_remove_ok host x Hok) as Hok1. pose proof (fun id => addon_remove_held host x id Hok) as Hr.
    destruct (IH (addon_remove host x) Hok1) as [Hok2 Hh].
    + intros id. rewrite Hr. specialize (Hc id). rewrite count_cons in Hc.
      destruct (Z.eqb_spec id x) as [E|]; [subst x|]; lia.
    + split; [done|]. intros id. rewrite Hh, Hr, count_cons. specialize (Hc id). rewrite count_cons in Hc.
      pose proof (count_nonneg id ids). destruct (Z.eqb_spec id x) as [E|]; [subst x|]; lia.
Qed.

Lemma remove_addons_run ids host reg :
  RequiredAddons (shared reg) = Some host ->
  outcome_fold (fun reg addonId => host_addon_remove addonId reg) ids reg
  = Returns (match ids with [] => reg | _ => with_shared (set_addons (Some (fold_left addon_remove ids host))) reg end).
Proof.
  revert host reg. induction ids as [|x ids IH]; intros host reg Hh; [done|]. cbn [outcome_fold fold_left].
  rewrite (host_addon_remove_eq _ host) by done. cbn [outcome_bind]. rewrite (IH (addon_remove host x)) by done.
  destruct ids; [done|]. done.
Qed.

Lemma filter_order_split reg p :
  NoDup (loaded reg) -> In p (plugins reg) ->
  exists l1 l2, plugins reg = l1 ++ p :: l2 /\
    List.filter (fun q => negb (ContextOrder q =? ContextOrder p)) (plugins reg) = l1 ++ l2.
Proof.
  intros Hnd Hp. pose proof Hp as Hin. apply in_split in Hp as (l1 & l2 & E). exists l1, l2. split; [done|].
  assert (forall q, In q (l1 ++ l2) -> ContextOrder q <> ContextOrder p) as Hne.
  { intros q Hq Ho. unfold loaded in Hnd. rewrite E, map_app in Hnd. cbn in Hnd.
    apply NoDup_ListNoDup, NoDup_remove_2 in Hnd. rewrite <- map_app, <- Ho in Hnd. apply Hnd. by apply in_map. }
  rewrite E, List.filter_app. cbn [List.filter]. rewrite Z.eqb_refl. cbn [negb].
  rewrite <- List.filter_app. apply filter_all, Forall_forall. intros q Hq. apply list_elem_of_In, Hne in Hq.
  by destruct (Z.eqb_spec (ContextOrder q) (ContextOrder p)).
Qed.

Lemma drop_all_rest gone st :
  NextOrder (drop_all gone st) = NextOrder st /\ Names (drop_all gone st) = Names st /\
  Published (drop_all gone st) = Published st /\ RequiredAddons (drop_all gone st) = RequiredAddons st.
Proof.
  revert st. induction gone as [|x gone IH]; intros st; [done|]. cbn [drop_all fold_left].
  fold (drop_all gone (drop_subscription x st)). destruct (IH (drop_subscription x st)) as (-> & -> & -> & ->). done.
Qed.

(** The registry once everything of [p] is gone. *)
Definition without (p : PluginContext) (reg : PluginRegistry) (addonHost : option A) : PluginRegistry :=
  let owner := ContextOrder p in
  let st := drop_all (subscriptions p) (shared reg) in
  mkRegistry
    (set_names (CommandNames_RemoveAll (Names st) owner)
       (set_addons addonHost (set_services (Services_RemoveAll (Published st) owner).2 st)))
    (List.filter (fun q => negb (ContextOrder q =? owner)) (plugins reg)).

Lemma RemovePlugin_run name p reg :
  host_ok reg -> FindPlugin name reg = Some p ->
  RemovePlugin name reg
  = Returns (mkLeaks (map SubEvent (subscriptions p)) (Services_RemoveAll (Published (shared reg)) (ContextOrder p)).1
               (addons p),
             without p reg ((fold_left addon_remove (addons p)) <$> RequiredAddons (shared reg))).
Proof.
  intros Hok Hf. unfold RemovePlugin. rewrite Hf. unfold FindPlugin in Hf. apply List.find_some in Hf as [Hp _].
  destruct (context_of_loaded reg (ContextOrder p)) as [p' Hc]; [by apply in_map|].
  pose proof (context_of_spec _ _ _ Hc) as [Hp' Ho]. apply (loaded_same reg) in Ho as ->; [|apply Hok|done..].
  destruct (drop_all_rest (subscriptions p) (shared reg)) as (Eo & En & Es & Ea).
  assert (forall f g (ps : list PluginContext),
    List.filter (fun q => negb (ContextOrder q =? ContextOrder p))
      (map (fun q => if ContextOrder q =? ContextOrder p then with_addons g q else q)
         (map (fun q => if ContextOrder q =? ContextOrder p then with_subscriptions f q else q) ps))
    = List.filter (fun q => negb (ContextOrder q =? ContextOrder p)) ps) as Hfilter.
  { intros f g ps. induction ps as [|q ps IH]; [done|]. cbn.
    destruct (ContextOrder q =? ContextOrder p) eqn:E; cbn [ContextOrder with_addons with_subscriptions];
      rewrite !E; cbn [ContextOrder with_addons with_subscriptions negb]; rewrite ?E; cbn [negb]; [exact IH|f_equal; exact IH]. }
  unfold RemoveAll. rewrite Hc. cbn [outcome_bind]. cbn [shared set_context with_shared].
  fold (drop_all (subscriptions p) (shared reg)).
  destruct (Services_RemoveAll _ (ContextOrder p)) as [services published] eqn:Esv.
  rewrite Es in Esv. rewrite Esv. cbn [fst].
  set (reg3 := set_context _ _ _).
  destruct (RequiredAddons (shared reg)) as [host|] eqn:Hh; cbn [fmap option_fmap option_map].
  - rewrite (remove_addons_run (addons p) host reg3) by exact Ea. cbn [outcome_bind].
    do 2 f_equal. unfold without. rewrite Es, Esv. cbn [snd]. destruct (addons p); cbn [shared plugins with_shared reg3 set_context];
      f_equal; try done; try apply Hfilter.
    unfold set_names, set_services, set_addons. cbn. rewrite <- Ea. reflexivity.
  - pose proof (h_addons _ Hok) as [_ Hnone]. rewrite Hh in Hnone. rewrite (Hnone p Hp). cbn [outcome_fold outcome_bind].
    do 2 f_equal. unfold without. rewrite Es, Esv. cbn [snd shared plugins with_shared reg3 set_context]. f_equal; [|apply Hfilter].
    unfold set_names, set_services, set_addons. cbn. rewrite <- Ea. reflexivity.
Qed.

(** A callback stays exactly when another plugin took it. *)
Lemma stays_order reg p ev e :
  host_ok reg -> In p (plugins reg) -> In e (settled (Lists (shared reg) ev)) ->
  stays (subscriptions p) ev e = negb (Order e =? ContextOrder p).
Proof.
  intros Hok Hp He. destruct (h_subscriptions _ Hok) as [Hl Ht How Hta].
  destruct (How ev e He) as (q & Hq & Hqo & Hqs).
  destruct (Z.eqb_spec (Order e) (ContextOrder p)) as [E|E]; cbn [negb].
  - apply not_true_is_false. rewrite stays_true. intros Hn. apply Hn.
    assert (q = p) as <- by (eapply loaded_same; [apply Hok|done|done|congruence]). done.
  - apply stays_true. intros Hs. destruct (Hta p _ Hp Hs) as (e' & He' & Het & Heo). cbn in *.
    assert (e' = e) as -> by (eapply settled_same; [apply (Hl ev)|done..]). done.
Qed.

Lemma without_settled reg p addonHost ev :
  host_ok reg -> In p (plugins reg) ->
  settled (Lists (shared (without p reg addonHost)) ev)
  = List.filter (fun e => negb (Order e =? ContextOrder p)) (settled (Lists (shared reg) ev)).
Proof.
  intros Hok Hp. destruct (drop_all_spec (subscriptions p) (shared reg) (h_lists _ _ (h_subscriptions _ Hok))) as [_ Hd].
  destruct (Hd ev) as (_ & Hs & _). cbn. rewrite Hs. apply List.filter_ext_in. intros e He. by apply (stays_order reg).
Qed.

(** The addons left are held as often as the plugins left ask for them. *)
Lemma without_addons reg p (addonHost := fold_left addon_remove (addons p) <$> RequiredAddons (shared reg)) :
  host_ok reg -> In p (plugins reg) -> addons_ok (shared (without p reg addonHost)) (plugins (without p reg addonHost)).
Proof.
  intros Hok Hp. destruct (filter_order_split reg p (h_orders _ Hok) Hp) as (l1 & l2 & E1 & E2). destruct (h_addons _ Hok) as [Hr Hh].
  assert (forall q, In q (plugins (without p reg addonHost)) -> In q (plugins reg)) as Hin by (intros q Hq; cbn in Hq; by apply filter_In in Hq as [Hq _]).
  split; [intros q id Hq; by apply Hr, Hin|]. cbn [RequiredAddons without shared set_names set_addons]. unfold addonHost.
  destruct (RequiredAddons (shared reg)) as [host|]; cbn [fmap option_fmap option_map]; [|intros q Hq; by apply Hh, (Hin q)].
  destruct Hh as [Haok Hh]. rewrite E1 in Hh.
  assert (forall id, count_addon id (addons p) <= addon_held host id) as Hle.
  { intros id. specialize (Hh id). rewrite flat_map_app in Hh. cbn in Hh. rewrite !count_app in Hh.
    pose proof (count_nonneg id (flat_map addons l1)). pose proof (count_nonneg id (flat_map addons l2)). lia. }
  destruct (remove_addons_spec (addons p) host Haok Hle) as [Haok' Hheld]. split; [done|]. intros id.
  rewrite Hheld. cbn [plugins without]. rewrite E2. specialize (Hh id). rewrite flat_map_app in *. cbn in Hh.
  rewrite !count_app in *. lia.
Qed.

Lemma without_ok reg p :
  host_ok reg -> In p (plugins reg) ->
  host_ok (without p reg ((fold_left addon_remove (addons p)) <$> RequiredAddons (shared reg))).
Proof.
  intros Hok Hp. set (addonHost := fold_left addon_remove (addons p) <$> RequiredAddons (shared reg)).
  destruct (drop_all_spec (subscriptions p) (shared reg) (h_lists _ _ (h_subscriptions _ Hok))) as [Hnt Hd].
  destruct (drop_all_rest (subscriptions p) (shared reg)) as (Eo & En & Es & Ea).
  assert (forall q, In q (plugins (without p reg addonHost)) <-> In q (plugins reg) /\ ContextOrder q <> ContextOrder p) as Hin.
  { intros q. cbn. by rewrite filter_In, negb_eqb_true. }
  assert (forall o, In o (loaded (without p reg addonHost)) <-> In o (loaded reg) /\ o <> ContextOrder p) as Hlo.
  { intros o. unfold loaded. rewrite !in_map_iff. setoid_rewrite Hin. split.
    - intros (q & <- & Hq & Hne). split; [by exists q|done].
    - intros [(q & <- & Hq) Hne]. by exists q. }
  destruct (filter_order_split reg p (h_orders _ Hok) Hp) as (l1 & l2 & E1 & E2).
  destruct (h_subscriptions _ Hok) as [Hl Ht How Hta]. split.
  - unfold loaded. cbn [plugins without]. rewrite E2. pose proof (h_orders _ Hok) as Hnd. unfold loaded in Hnd. rewrite E1 in Hnd.
    rewrite map_app in *. cbn in Hnd. apply NoDup_ListNoDup in Hnd. apply NoDup_ListNoDup. by apply NoDup_remove_1 in Hnd.
  - intros o Ho. apply Hlo in Ho as [Ho _]. cbn. rewrite Eo. by apply Hok.
  - cbn. rewrite Eo. apply (h_next_order _ Hok).
  - cbn [plugins without]. rewrite E2. pose proof (h_plugin_names _ Hok) as Hnd. rewrite E1 in Hnd.
    rewrite map_app in *. cbn in Hnd. apply NoDup_ListNoDup in Hnd. apply NoDup_ListNoDup. by apply NoDup_remove_1 in Hnd.
  - split.
    + intros ev. cbn. rewrite Hnt. apply Hd.
    + intros q Hq. apply Hin in Hq as [Hq _]. by apply Ht.
    + intros ev e He. rewrite (without_settled reg p addonHost ev Hok Hp) in He. apply filter_In in He as [He Hne].
      destruct (How ev e He) as (q & Hq & Hqo & Hqs). exists q. split; [|done]. apply Hin. split; [done|].
      rewrite Hqo. by apply negb_eqb_true.
    + intros q s Hq Hs. apply Hin in Hq as [Hq Hne]. destruct (Hta q s Hq Hs) as (e & He & Het & Heo). exists e.
      split; [|done]. rewrite (without_settled reg p addonHost _ Hok Hp). apply filter_In. split; [done|].
      rewrite Heo. by apply negb_eqb_true.
  - intros n Hn. cbn in Hn. rewrite En in Hn. unfold CommandNames_RemoveAll in Hn. apply filter_In in Hn as [Hn Hne].
    destruct (h_names _ Hok n Hn) as [|Ho]; [by left|right]. apply Hlo. split; [done|]. by apply negb_eqb_true.
  - intros v Hv. cbn in Hv. rewrite Es in Hv. apply filter_In in Hv as [Hv Hne]. apply Hlo.
    split; [by apply (h_services _ Hok)|]. by apply negb_eqb_true.
  - by apply without_addons.
Qed.

(** C4. Removing a plugin leaves nothing of it behind and nothing else touched: its view, its callbacks in every
    event, its services and its command names are gone and every other plugin's stand as they did, each addon
    it held is given back as often as it was held, and the report names exactly what it had not released. *)
Theorem RemovePlugin_clean name p reg :
  host_ok reg -> FindPlugin name reg = Some p ->
  exists leaks reg', RemovePlugin name reg = Returns (leaks, reg') /\ host_ok reg' /\
    plugins reg' = List.filter (fun q => negb (ContextOrder q =? ContextOrder p)) (plugins reg) /\
    (forall ev, settled (Lists (shared reg') ev)
       = List.filter (fun e => negb (Order e =? ContextOrder p)) (settled (Lists (shared reg) ev))) /\
    (forall v, In v (Published (shared reg')) <-> In v (Published (shared reg)) /\ ServiceOwner v <> ContextOrder p) /\
    (forall n, In n (Names (shared reg')) <-> In n (Names (shared reg)) /\ EntryOwner n <> ContextOrder p) /\
    (forall host, RequiredAddons (shared reg) = Some host -> exists host', RequiredAddons (shared reg') = Some host' /\
       forall id, addon_held host' id = addon_held host id - count_addon id (addons p)) /\
    leaks = mkLeaks (map SubEvent (subscriptions p))
              (map ServiceName (List.filter (fun v => ServiceOwner v =? ContextOrder p) (Published (shared reg)))) (addons p).
Proof.
  intros Hok Hf. rewrite (RemovePlugin_run name p reg Hok Hf). pose proof Hf as Hp.
  unfold FindPlugin in Hp. apply List.find_some in Hp as [Hp _]. do 2 eexists. split; [done|].
  destruct (drop_all_rest (subscriptions p) (shared reg)) as (Eo & En & Es & Ea).
  split_and!.
  - by apply without_ok.
  - done.
  - intros ev. by apply without_settled.
  - intros v. cbn. by rewrite Es, filter_In, negb_eqb_true.
  - intros n. cbn. rewrite En. unfold CommandNames_RemoveAll. by rewrite filter_In, negb_eqb_true.
  - intros host Hh. cbn. rewrite Hh. cbn. eexists. split; [done|].
    destruct (h_addons _ Hok) as [_ Hheld]. rewrite Hh in Hheld. destruct Hheld as [Haok Hheld].
    apply remove_addons_spec; [done|]. intros id. specialize (Hheld id).
    apply in_split in Hp as (l1 & l2 & E). rewrite E, flat_map_app in Hheld. cbn in Hheld. rewrite !count_app in Hheld.
    pose proof (count_nonneg id (flat_map addons l1)). pose proof (count_nonneg id (flat_map addons l2)). lia.
  - done.
Qed.

End Host.

(** ** A host with two plugins *)

Definition sample_engine : WorkshopEngine := mkEngine true true true (Ok tt) (Ok tt) 7.
Definition sample_service : WorkshopService := mkService sample_engine Workshop_new.

Definition sample_setup : outcome (PluginRegistry (A := WorkshopService)) :=
  let reg0 := PluginRegistry_new (Some sample_service) in
  let reg1 := (AddPlugin $"alpha" reg0).2 in
  let reg2 := (AddPlugin $"beta" reg1).2 in
  run! (_, reg3) := Subscribe 2 HostEvent.ClientConnected (Some 20%nat) 0 reg2 in
  run! (_, reg4) := Subscribe 1 HostEvent.ClientConnected (Some 10%nat) 0 reg3 in
  run! (_, reg5) := Addons_Add 2 77 reg4 in
  run! reg6 := Publish 2 $"IPermissions" 4096 reg5 in
  run! (_, reg7) := Context_RegisterCommand 2 $"ban" reg6 in
  Returns reg7.

Definition sample_host : PluginRegistry (A := WorkshopService) :=
  match sample_setup with Returns reg => reg | _ => PluginRegistry_new None end.

Lemma good_step_run {B A} `{AddonHost A} reg (m : outcome (B * PluginRegistry (A := A))) {C} (k : _ -> outcome C) (P : C -> Prop) :
  good_step reg m -> (forall b reg', host_ok reg' -> loaded reg' = loaded reg -> exists r, k (b, reg') = Returns r /\ P r) ->
  exists r, outcome_bind m k = Returns r /\ P r.
Proof. intros (b & reg' & -> & Hok & Hev) Hk. apply Hk; [done|by apply e_loaded]. Qed.

Lemma good_state_run {A} `{AddonHost A} reg (m : outcome (PluginRegistry (A := A))) {C} (k : _ -> outcome C) (P : C -> Prop) :
  good_state reg m -> (forall reg', host_ok reg' -> loaded reg' = loaded reg -> exists r, k reg' = Returns r /\ P r) ->
  exists r, outcome_bind m k = Returns r /\ P r.
Proof. intros (reg' & -> & Hok & Hev) Hk. apply Hk; [done|by apply e_loaded]. Qed.

Lemma sample_host_ok : host_ok sample_host.
Proof.
  assert (exists r, sample_setup = Returns r /\ host_ok r) as (r & E & Hok); [|unfold sample_host; by rewrite E].
  unfold sample_setup. cbn zeta. set (reg2 := (AddPlugin $"beta" _).2).
  assert (host_ok reg2) as Hok2 by (apply AddPlugin_ok, AddPlugin_ok, host_ok_new, queue_ok_new).
  assert (loaded reg2 = [1; 2]) as Hl by by vm_compute.
  eapply (good_step_run reg2); [apply Subscribe_good; [done|by rewrite Hl; right; left]|]. intros t3 reg3 Hok3 Hl3.
  rewrite Hl in Hl3. eapply (good_step_run reg3); [apply Subscribe_good; [done|by rewrite Hl3; left]|]. intros t4 reg4 Hok4 Hl4.
  rewrite Hl3 in Hl4. eapply (good_step_run reg4).
  { apply Addons_Add_good; [done|by rewrite Hl4; right; left|unfold is_u64, uint64_max; lia]. }
  intros t5 reg5 Hok5 Hl5. rewrite Hl4 in Hl5.
  eapply (good_state_run reg5); [apply Publish_good; [done|by rewrite Hl5; right; left]|]. intros reg6 Hok6 Hl6.
  rewrite Hl5 in Hl6. eapply (good_step_run reg6); [apply RegisterCommand_good; [done|by rewrite Hl6; right; left]|].
  intros t7 reg7 Hok7 _. by exists reg7.
Qed.

(** Callback 10 kicks whoever connects and drops itself. *)
Definition sample_behaviour (fn : nat) (context : Z) (r : Raised) (reg : PluginRegistry (A := WorkshopService)) : plugin_program :=
  match fn, r with
  | 10%nat, RaisedClientConnected slot _ _ _ =>
      PAct 1 (ARaise (RaisedClientDisconnected slot)) (fun _ => PAct 1 (AUnsubscribe 2) (fun _ => PDone false []))
  | _, _ => PDone false []
  end.

Definition sample_rank (r : Raised) : nat := match r with RaisedClientConnected _ _ _ _ => 1 | _ => 0 end.

Lemma Raise_keeps_host_witness :
  exists reg', Raise sample_behaviour 2 (RaisedClientConnected 3 76561197960265735 $"Ann" $"1.2.3.4") sample_host = Returns reg' /\
    host_ok reg' /\ map Token (settled (Lists (shared reg') HostEvent.ClientConnected)) = [1] /\ IsConnected 3 reg' = false.
Proof.
  destruct (Raise_keeps_host sample_behaviour sample_rank 2 (RaisedClientConnected 3 76561197960265735 $"Ann" $"1.2.3.4") 1 sample_host)
    as [(reg' & E & Hok & _) _].
  - intros r fn context reg' _. unfold sample_behaviour.
    assert (forall ow al, acts_within ow al (PDone false [])) as Hdone by constructor.
    assert (In 1 (loaded sample_host)) as Hin by (left; by vm_compute).
    do 11 (destruct fn as [|fn]; [try apply Hdone|]); [|apply Hdone]. destruct r; try apply Hdone.
    apply within_act; [done| |intros _; apply within_act; [done|done|intros _; apply Hdone]].
    intros r [= <-]. cbn. lia.
  - apply sample_host_ok.
  - by left.
  - intros r. destruct r; cbn; lia.
  - exists reg'. split; [exact E|]. split; [exact Hok|].
    assert (Raise sample_behaviour 2 (RaisedClientConnected 3 76561197960265735 $"Ann" $"1.2.3.4") sample_host = Returns reg') as E2 by exact E.
    revert E2. vm_compute. intros [= <-]. done.
Defined.

Lemma RemovePlugin_clean_witness :
  exists p leaks reg', FindPlugin $"beta" sample_host = Some p /\ RemovePlugin $"beta" sample_host = Returns (leaks, reg') /\
    leaks = mkLeaks [HostEvent.ClientConnected] [$"IPermissions"] [77] /\ map ContextName (plugins reg') = [$"alpha"] /\
    map Order (settled (Lists (shared reg') HostEvent.ClientConnected)) = [1].
Proof.
  destruct (FindPlugin $"beta" sample_host) as [p|] eqn:Hf; [|by exfalso; revert Hf; vm_compute].
  destruct (RemovePlugin_clean $"beta" p sample_host sample_host_ok Hf) as (leaks & reg' & E & _ & Hps & Hset & _ & _ & _ & ->).
  exists p. do 2 eexists. split; [done|]. split; [exact E|]. rewrite Hps, (Hset HostEvent.ClientConnected).
  clear -Hf. revert Hf. vm_compute. intros [= <-]. done.
Defined.
