(* ===== verification/Dependencies.v ===== *)
(** * Which plugins load: [Host/Plugins/PluginDependencies.cpp] and [InstalledPlugins.cpp]

    The manifests a plugins directory holds, the ones their dependencies allow, and who requires whom. *)
From S2P Require Import Prelude Text Errors.

(** ** [std::map<std::string, V>]

    Keys with their values, in the byte order of the keys. *)

Fixpoint text_ltb (a b : text) : bool :=
  match a, b with
  | [], [] => false
  | [], _ :: _ => true
  | _ :: _, [] => false
  | x :: a', y :: b' => (code x <? code y) || ((code x =? code y) && text_ltb a' b')
  end.

Definition OrderedMap (V : Type) : Type := list (text * V).

Definition has_key {V} (m : OrderedMap V) (k : text) : bool := existsb (fun e => text_eqb e.1 k) m.

Definition find_key {V} (m : OrderedMap V) (k : text) : option V := snd <$> List.find (fun e => text_eqb e.1 k) m.

(** [emplace]: whether the key was new. *)
Fixpoint emplace {V} (k : text) (v : V) (m : OrderedMap V) : bool * OrderedMap V :=
  match m with
  | [] => (true, [(k, v)])
  | (k', v') :: rest =>
      if text_eqb k k' then (false, m)
      else if text_ltb k k' then (true, (k, v) :: m)
      else let '(added, rest') := emplace k v rest in (added, (k', v') :: rest')
  end.

Definition keys {V} (m : OrderedMap V) : list text := map fst m.

(** ** Manifests *)

Module LogLevel.
Inductive t : Type := Info | Warn | Error.
End LogLevel.

Record PluginManifest := mkManifest {
  Name : text; Version : text; LogTag : text; Description : text; Author : text; Website : text; License : text;
  ManifestLogLevel : LogLevel.t; Dependencies : list text; OptionalDependencies : list text }.

Record RefusedPlugin := mkRefused { RefusedName : text; RefusedReason : Error }.

Record LoadList := mkLoadList { ToLoad : list text; Refused : list RefusedPlugin }.

Record InstalledScan := mkScan { Plugins : list PluginManifest; ScanRefused : list RefusedPlugin }.

(** [plugin.json] once it is parsed. *)
Record PluginDocument := mkDocument {
  doc_name : text; doc_version : text; doc_logTag : text; doc_description : text; doc_author : text;
  doc_website : text; doc_license : text; doc_logLevel : text; doc_dependencies : list text;
  doc_optionalDependencies : list text }.

(** [Parse<LogLevel>], which ignores case. *)
Definition parse_log_level (name : text) : option LogLevel.t :=
  let lower := ToLower name in
  if text_eqb lower $"info" then Some LogLevel.Info
  else if text_eqb lower $"warn" then Some LogLevel.Warn
  else if text_eqb lower $"error" then Some LogLevel.Error
  else None.

Definition ManifestName : text := $"plugin.json".

(** One directory that holds a manifest: its name and what reading the manifest gives. *)
Definition read_manifest (scan : InstalledScan) (entry : text * Result PluginDocument) : InstalledScan :=
  let '(directory, document) := entry in
  let refuse reason := mkScan (Plugins scan) (ScanRefused scan ++ [mkRefused directory reason]) in
  match document with
  | Err e => refuse e
  | Ok d =>
      if negb (text_eqb (doc_name d) directory) then
        refuse (Error_Invalid (ManifestName ++ $" names it '" ++ doc_name d
                  ++ $"', and a plugin lives in the directory it is named after."))
      else
        match parse_log_level (doc_logLevel d) with
        | None =>
            refuse (Error_Invalid (ManifestName ++ $": logLevel '" ++ doc_logLevel d ++ $"' is not info, warn or error"))
        | Some level =>
            mkScan (Plugins scan ++ [mkManifest (doc_name d) (doc_version d)
                                       (match doc_logTag d with [] => doc_name d | tag => tag end) (doc_description d)
                                       (doc_author d) (doc_website d) (doc_license d) level (doc_dependencies d)
                                       (doc_optionalDependencies d)])
              (ScanRefused scan)
        end
  end.

Definition Discover (entries : list (text * Result PluginDocument)) : InstalledScan :=
  fold_left read_manifest entries (mkScan [] []).

(** A descriptor, as far as it is checked: its version when it has one, and which of its four members are there. *)
Record PluginDescriptor := mkDescriptor {
  VoltModVersion : option text; HasBuildStamp : bool; HasLoad : bool; HasUnload : bool; HasStatus : bool }.

(** [PluginEntryName], the symbol the entry point is exported under. *)
Definition ValidateDescriptor (entryName hostVersion : text) (descriptor : option PluginDescriptor) : Status :=
  match descriptor with
  | None => Err (Error_Invalid (entryName ++ $" returned nothing"))
  | Some d =>
      let pluginVersion := default [] (VoltModVersion d) in
      if negb (text_eqb pluginVersion hostVersion) then
        Err (Error_Invalid ($"it was built for VoltMod " ++ pluginVersion ++ $" and the host is " ++ hostVersion
               ++ $"; rebuild it"))
      else if HasBuildStamp d && HasLoad d && HasUnload d && HasStatus d then Ok tt
      else Err (Error_Invalid $"its descriptor leaves out one of BuildStamp, Load, Unload and Status")
  end.

(** ** Spreading along dependencies

    The loop both [RefuseUnsatisfied] and [RequiredDependents] run: take a name off the back of the work list and
    add every node that is not [skip]ped, not there yet and depends on it. *)

Definition mem (names : list text) (name : text) : bool := existsb (text_eqb name) names.

Section Spread.
Context {V : Type} (nodes : list (text * list text)) (skip : text -> bool) (reason : text -> V).

Fixpoint visit (gone : text) (ns : list (text * list text)) (reached : OrderedMap V) (spreading : list text)
    : OrderedMap V * list text :=
  match ns with
  | [] => (reached, spreading)
  | (name, dependencies) :: rest =>
      if negb (skip name) && negb (has_key reached name) && mem dependencies gone
      then visit gone rest (emplace name (reason gone) reached).2 (spreading ++ [name])
      else visit gone rest reached spreading
  end.

Fixpoint spread (fuel : nat) (reached : OrderedMap V) (spreading : list text) : outcome (OrderedMap V) :=
  match fuel with
  | O => OutOfFuel
  | S f =>
      match spreading with
      | [] => Returns reached
      | _ =>
          let '(reached', spreading') := visit (List.last spreading []) nodes reached (removelast spreading) in
          spread f reached' spreading'
      end
  end.

(** Every node enters the work list once at most, so this many turns empty it. *)
Definition spread_fuel (spreading : list text) : nat := S (length spreading + length nodes).

End Spread.

(** ** [PluginDependencies] *)

Definition first_missing (plugins : OrderedMap PluginManifest) (manifest : PluginManifest) : option text :=
  List.find (fun dependency => negb (has_key plugins dependency)) (Dependencies manifest).

(** The first loop of [RefuseUnsatisfied]: [refuse] notes a new name. *)
Fixpoint refuse_missing (plugins : OrderedMap PluginManifest) (ps : list (text * PluginManifest))
    (refused : OrderedMap Error) (spreading : list text) : OrderedMap Error * list text :=
  match ps with
  | [] => (refused, spreading)
  | (name, manifest) :: rest =>
      match first_missing plugins manifest with
      | None => refuse_missing plugins rest refused spreading
      | Some dependency =>
          let '(added, refused') :=
            emplace name (Error_NotFound ($"requires '" ++ dependency ++ $"', which is not installed")) refused in
          refuse_missing plugins rest refused' (if added then spreading ++ [name] else spreading)
      end
  end.

Definition dependency_nodes (plugins : list (text * PluginManifest)) : list (text * list text) :=
  map (fun e => (e.1, Dependencies e.2)) plugins.

Definition RefuseUnsatisfied (plugins : OrderedMap PluginManifest) (refused : OrderedMap Error) : outcome (OrderedMap Error) :=
  let '(refused', spreading) := refuse_missing plugins plugins refused (keys refused) in
  let nodes := dependency_nodes plugins in
  spread nodes (fun _ => false) (fun gone => Error_NotReady ($"requires '" ++ gone ++ $"', which the host refused"))
    (spread_fuel nodes spreading) refused' spreading.

Definition duplicate_reason : Error :=
  Error_Invalid $"installed more than once; each plugin directory needs its own plugin name".

(** The first manifest of a name counts; a second refuses it. *)
Fixpoint by_name (installed : list PluginManifest) (plugins : OrderedMap PluginManifest) (refused : OrderedMap Error)
    : OrderedMap PluginManifest * OrderedMap Error :=
  match installed with
  | [] => (plugins, refused)
  | manifest :: rest =>
      let '(added, plugins') := emplace (Name manifest) manifest plugins in
      by_name rest plugins' (if added then refused else (emplace (Name manifest) duplicate_reason refused).2)
  end.

Definition Resolve (installed : list PluginManifest) : outcome LoadList :=
  let '(plugins, duplicates) := by_name installed [] [] in
  run! refused := RefuseUnsatisfied plugins duplicates in
  Returns (mkLoadList (List.filter (fun name => negb (has_key refused name)) (keys plugins))
             (map (fun e => mkRefused e.1 e.2) refused)).

Definition RequiredDependents (plugin : text) (loaded : list PluginManifest) : outcome (list text) :=
  let nodes := map (fun m => (Name m, Dependencies m)) loaded in
  run! dependents :=
    spread nodes (fun name => text_eqb name plugin) (fun _ => tt) (spread_fuel nodes [plugin]) [] [plugin] in
  Returns (keys dependents).

(** ** Facts about the maps *)

Lemma text_ltb_irrefl a : text_ltb a a = false.
Proof. induction a as [|x a IH]; cbn; [done|]. rewrite IH, Z.ltb_irrefl, andb_false_r. done. Qed.

Lemma text_ltb_trans a b c : text_ltb a b = true -> text_ltb b c = true -> text_ltb a c = true.
Proof.
  revert b c. induction a as [|x a IH]; intros [|y b] [|z c]; cbn; try done.
  rewrite !orb_true_iff, !andb_true_iff, !Z.ltb_lt, !Z.eqb_eq.
  intros [H1|[H1 H1']] [H2|[H2 H2']]; [left; lia..|]. right. split; [lia|]. by eapply IH.
Qed.

Lemma text_ltb_total a b : a <> b -> text_ltb a b = false -> text_ltb b a = true.
Proof.
  revert b. induction a as [|x a IH]; intros [|y b]; cbn; try done. intros Hne.
  rewrite orb_false_iff, andb_false_iff, orb_true_iff, andb_true_iff, !Z.ltb_lt, Z.ltb_ge, !Z.eqb_eq, Z.eqb_neq.
  intros [H1 H2]. destruct (Z.eq_dec (code y) (code x)) as [E|E]; [|left; lia]. right. split; [done|].
  apply code_inj in E. subst y. apply IH; [congruence|]. by destruct H2.
Qed.

Definition sorted_keys {V} (m : OrderedMap V) : Prop := StronglySorted (fun a b => text_ltb a b = true) (keys m).

Lemma has_key_In {V} (m : OrderedMap V) k : has_key m k = true <-> In k (keys m).
Proof.
  unfold has_key, keys. rewrite existsb_exists, in_map_iff. split.
  - intros (e & He & Hk). apply text_eqb_true in Hk. eauto.
  - intros (e & <- & He). exists e. by rewrite text_eqb_refl.
Qed.

Lemma has_key_false {V} (m : OrderedMap V) k : has_key m k = false <-> ~ In k (keys m).
Proof. rewrite <- has_key_In. by destruct (has_key m k). Qed.

Lemma mem_In names name : mem names name = true <-> In name names.
Proof.
  unfold mem. rewrite existsb_exists. split; [intros (x & Hx & E); apply text_eqb_true in E; by subst|].
  intros H. exists name. by rewrite text_eqb_refl.
Qed.

Lemma In_emplace {V} k (v : V) m x : In x (keys (emplace k v m).2) <-> x = k \/ In x (keys m).
Proof.
  induction m as [|[k' v'] m IH]; cbn; [firstorder|]. destruct (text_eqb k k') eqn:E.
  - apply text_eqb_true in E as ->. cbn. firstorder.
  - destruct (text_ltb k k'); [cbn; firstorder|]. destruct (emplace k v m) as [added rest]. cbn in *. rewrite IH. firstorder.
Qed.

Lemma emplace_sorted {V} k (v : V) m : sorted_keys m -> sorted_keys (emplace k v m).2.
Proof.
  unfold sorted_keys. induction m as [|[k' v'] m IH]; cbn; intros Hs; [by repeat constructor|].
  apply StronglySorted_inv in Hs as [Hs Hf].
  destruct (text_eqb k k') eqn:E; [by constructor|]. apply text_eqb_false in E. destruct (text_ltb k k') eqn:L.
  - constructor; [by constructor|]. constructor; [done|]. eapply Forall_impl; [exact Hf|]. cbn. intros x Hx.
    by eapply text_ltb_trans.
  - pose proof (IH Hs) as IH'. pose proof (In_emplace k v m) as Hin. destruct (emplace k v m) as [added rest].
    cbn in *. constructor; [done|]. apply Forall_forall. intros x Hx. apply list_elem_of_In, Hin in Hx as [->|Hx].
    + by apply text_ltb_total.
    + rewrite Forall_forall in Hf. apply Hf. by apply list_elem_of_In.
Qed.

Lemma emplace_added {V} k (v : V) m : sorted_keys m -> (emplace k v m).1 = negb (has_key m k).
Proof.
  unfold sorted_keys. induction m as [|[k' v'] m IH]; cbn; intros Hs; [done|]. apply StronglySorted_inv in Hs as [Hs Hf].
  destruct (text_eqb k k') eqn:E.
  - apply text_eqb_true in E as ->. by rewrite text_eqb_refl.
  - apply text_eqb_false in E. rewrite (proj2 (text_eqb_false k' k)) by done. cbn. destruct (text_ltb k k') eqn:L.
    + cbn. symmetry. apply negb_true_iff, has_key_false. intros Hin. rewrite Forall_forall in Hf.
      specialize (Hf k). rewrite list_elem_of_In in Hf. specialize (Hf Hin).
      pose proof (text_ltb_trans _ _ _ L Hf) as Hx. by rewrite text_ltb_irrefl in Hx.
    + specialize (IH Hs). destruct (emplace k v m) as [added rest]. exact IH.
Qed.

Lemma emplace_same {V} k (v : V) m : sorted_keys m -> has_key m k = true -> (emplace k v m).2 = m.
Proof.
  intros Hs Hk. pose proof (emplace_added k v m Hs) as Ha. rewrite Hk in Ha. revert Ha. clear.
  induction m as [|[k' v'] m IH]; cbn; [done|]. destruct (text_eqb k k'); [done|]. destruct (text_ltb k k'); [done|].
  destruct (emplace k v m) as [added rest]. cbn in *. intros E. by rewrite IH.
Qed.

(** ** What the spreading reaches *)

Section SpreadFacts.
Context {V : Type} (nodes : list (text * list text)) (skip : text -> bool) (reason : text -> V).

(** A node that depends on something of [from], directly or through other nodes. *)
Inductive dependent (from : list text) : text -> Prop :=
| depends_directly name dependencies gone :
    In (name, dependencies) nodes -> skip name = false -> In gone dependencies -> In gone from -> dependent from name
| depends_through name dependencies gone :
    In (name, dependencies) nodes -> skip name = false -> In gone dependencies -> dependent from gone -> dependent from name.

Lemma dependent_step from name dependencies gone :
  In (name, dependencies) nodes -> skip name = false -> In gone dependencies ->
  In gone from \/ dependent from gone -> dependent from name.
Proof. intros Hn Hs Hg [H|H]; [by eapply depends_directly|by eapply depends_through]. Qed.

(** How many nodes are still to come. *)
Definition waiting (reached : OrderedMap V) : nat :=
  length (List.filter (fun n => negb (has_key reached n.1)) nodes).

Lemma waiting_emplace name dependencies v reached :
  In (name, dependencies) nodes -> has_key reached name = false ->
  (waiting (emplace name v reached).2 + 1 <= waiting reached)%nat.
Proof.
  intros Hin Hk. unfold waiting.
  assert (forall x, has_key (emplace name v reached).2 x = text_eqb x name || has_key reached x) as Hh.
  { intros x. apply eq_true_iff_eq. rewrite orb_true_iff, !has_key_In, text_eqb_true. apply In_emplace. }
  revert Hin. induction nodes as [|[n ds] ns IH]; cbn [List.filter In]; [done|]. cbn [fst]. rewrite Hh.
  assert (length (List.filter (fun n0 => negb (has_key (emplace name v reached).2 n0.1)) ns)
          <= length (List.filter (fun n0 => negb (has_key reached n0.1)) ns))%nat as Hle.
  { clear -Hh. induction ns as [|[n ds] ns IH]; cbn; [lia|]. rewrite Hh.
    destruct (has_key reached n), (text_eqb n name); cbn; lia. }
  intros [[= -> ->]|Hin].
  - rewrite text_eqb_refl, Hk. cbn. lia.
  - specialize (IH Hin). destruct (has_key reached n), (text_eqb n name); cbn; lia.
Qed.

Lemma visit_spec gone ns reached spreading :
  (forall n, In n ns -> In n nodes) -> sorted_keys reached ->
  let '(reached', spreading') := visit skip reason gone ns reached spreading in
  sorted_keys reached' /\ (exists new, spreading' = spreading ++ new /\
    (length new + waiting reached' <= waiting reached)%nat /\
    (forall k, In k (keys reached') <-> In k (keys reached) \/ In k new) /\
    (forall k, In k new -> exists dependencies, In (k, dependencies) ns /\ skip k = false /\ In gone dependencies)) /\
  (forall k dependencies, In (k, dependencies) ns -> skip k = false -> In gone dependencies -> In k (keys reached')).
Proof.
  revert reached spreading. induction ns as [|[name dependencies] ns IH]; intros reached spreading Hsub Hs; cbn [visit].
  - split; [done|]. split; [|done]. exists []. rewrite app_nil_r. split_and!; [done|cbn; lia|cbn; tauto|done].
  - assert (forall n, In n ns -> In n nodes) as Hsub' by (intros; apply Hsub; by right).
    destruct (negb (skip name) && negb (has_key reached name) && mem dependencies gone) eqn:Hc.
    + bools. apply mem_In in H0. pose proof (emplace_sorted name (reason gone) reached Hs) as Hs1.
      pose proof (waiting_emplace name dependencies (reason gone) reached (Hsub _ (or_introl eq_refl)) H1) as Hw.
      specialize (IH _ (spreading ++ [name]) Hsub' Hs1). destruct (visit skip reason gone ns _ _) as [reached' spreading'].
      destruct IH as (Hs' & (new & -> & Hlen & Hk & Hn) & Hall). split; [done|]. split.
      * exists (name :: new). rewrite <- app_assoc. split_and!; [done|cbn; lia| |].
        -- intros k. rewrite Hk, In_emplace. cbn. clear. split; [intros [[->|?]|?]|intros [?|[<-|?]]]; tauto.
        -- intros k [<-|Hin]; [exists dependencies; split; [by left|done]|].
           destruct (Hn k Hin) as (ds & Hds & ?). exists ds. split; [by right|done].
      * intros k ds [[= -> ->]|Hin] Hsk Hg; [|by eapply Hall]. apply Hk. left. apply In_emplace. by left.
    + specialize (IH reached spreading Hsub' Hs). destruct (visit skip reason gone ns _ _) as [reached' spreading'].
      destruct IH as (Hs' & (new & -> & Hlen & Hk & Hn) & Hall). split; [done|]. split.
      * exists new. split_and!; [done|done|done|]. intros k Hin. destruct (Hn k Hin) as (ds & Hds & ?). exists ds. split; [by right|done].
      * intros k ds [[= -> ->]|Hin] Hsk Hg; [|by eapply Hall]. apply Hk. left. apply has_key_In.
        apply mem_In in Hg. rewrite Hsk, Hg in Hc. cbn in Hc. rewrite andb_true_r in Hc. by apply negb_false_iff.
Qed.

(** The loop ends, and what it reached is what it had and what depends on [from]. *)
Lemma spread_spec from fuel reached spreading :
  sorted_keys reached -> (length spreading + waiting reached < fuel)%nat ->
  (forall k, In k spreading -> In k from \/ dependent from k) ->
  (forall gone, In gone from \/ dependent from gone /\ In gone (keys reached) -> In gone spreading \/
     forall name dependencies, In (name, dependencies) nodes -> skip name = false -> In gone dependencies -> In name (keys reached)) ->
  exists reached', spread nodes skip reason fuel reached spreading = Returns reached' /\ sorted_keys reached' /\
    forall k, In k (keys reached') <-> In k (keys reached) \/ dependent from k.
Proof.
  revert reached spreading. induction fuel as [|fuel IH]; intros reached spreading Hs Hfuel Hsp Hinv; [lia|].
  cbn [spread]. destruct spreading as [|x l] eqn:Hl.
  - exists reached. split_and!; [done|done|]. intros k. split; [tauto|]. intros [Hk|Hk]; [done|].
    induction Hk as [name ds gone Hn Hsk Hg Hf|name ds gone Hn Hsk Hg Hd IHd].
    + destruct (Hinv gone (or_introl Hf)) as [[]|Hc]. by eapply Hc.
    + destruct (Hinv gone (or_intror (conj Hd IHd))) as [[]|Hc]. by eapply Hc.
  - rewrite <- Hl in *. assert (spreading <> []) as Hne by by rewrite Hl.
    pose proof (app_removelast_last [] Hne) as E. set (gone := List.last spreading []) in *.
    set (rest := removelast spreading) in *.
    pose proof (visit_spec gone nodes reached rest (fun n H => H) Hs) as Hv.
    destruct (visit skip reason gone nodes reached rest) as [reached1 spreading1].
    destruct Hv as (Hs1 & (new & -> & Hlen & Hk & Hn) & Hall).
    assert (In gone from \/ dependent from gone) as Hgone by (apply Hsp; rewrite E, in_app_iff; right; by left).
    assert (forall k, In k new -> dependent from k) as Hnew.
    { intros k Hin. destruct (Hn k Hin) as (ds & Hds & Hsk & Hg). by eapply dependent_step. }
    destruct (IH reached1 (rest ++ new) Hs1) as (reached' & Hr & Hs' & Hk').
    + rewrite length_app. rewrite E, length_app in Hfuel. cbn in Hfuel. lia.
    + intros k Hin. apply in_app_iff in Hin as [Hin|Hin]; [apply Hsp; rewrite E, in_app_iff; tauto|right; by apply Hnew].
    + intros g Hg. destruct (decide (g = gone)) as [->|Hne']; [right; intros; by eapply Hall|].
      assert (In g new \/ (In g from \/ dependent from g /\ In g (keys reached))) as [Hg'|Hg'].
      { destruct Hg as [Hg|[Hg Hgk]]; [tauto|]. apply Hk in Hgk as [Hgk|Hgk]; tauto. }
      * left. rewrite in_app_iff. tauto.
      * destruct (Hinv g Hg') as [Hin|Hc].
        -- left. rewrite E, in_app_iff in Hin. destruct Hin as [Hin|[Hin|[]]]; [|congruence]. rewrite in_app_iff. tauto.
        -- right. intros name ds H1 H2 H3. apply Hk. left. by eapply Hc.
    + exists reached'. split_and!; [done|done|]. intros k. rewrite Hk', Hk. split; [|tauto].
      intros [[?|Hin]|?]; [tauto| |tauto]. right. by apply Hnew.
Qed.

End SpreadFacts.

(** ** What [Resolve] decides *)

Definition named (name : text) (m : PluginManifest) : bool := text_eqb (Name m) name.

(** The manifest that counts for a name: the first. *)
Definition manifest_of (installed : list PluginManifest) (name : text) : option PluginManifest :=
  List.find (named name) installed.

(** The plugins the host turns away: installed twice, missing a dependency, or depending on one turned away. *)
Inductive turned_away (installed : list PluginManifest) : text -> Prop :=
| away_twice name : (2 <= length (List.filter (named name) installed))%nat -> turned_away installed name
| away_missing name m dependency :
    manifest_of installed name = Some m -> In dependency (Dependencies m) -> manifest_of installed dependency = None ->
    turned_away installed name
| away_chain name m dependency :
    manifest_of installed name = Some m -> In dependency (Dependencies m) -> turned_away installed dependency ->
    turned_away installed name.

Lemma In_emplace_entry {V} k (v : V) m e :
  sorted_keys m -> In e (emplace k v m).2 <-> In e m \/ (has_key m k = false /\ e = (k, v)).
Proof.
  intros Hs. destruct (has_key m k) eqn:Hk.
  - rewrite (emplace_same k v m Hs Hk). split; [tauto|]. intros [?|[? _]]; done.
  - clear Hs. revert Hk. induction m as [|[k' v'] m IH]; intros Hk; [cbn; split; [intros [<-|[]]; by right|intros [[]|[_ ->]]; by left]|].
    unfold has_key in Hk. cbn in Hk. apply orb_false_iff in Hk as [Hk1 Hk]. cbn [emplace].
    apply text_eqb_false in Hk1. rewrite (proj2 (text_eqb_false k k')) by congruence.
    destruct (text_ltb k k').
    + cbn. split; [intros [<-|?]; [by right|by left]|intros [?|[_ ->]]; [by right|by left]].
    + specialize (IH Hk). destruct (emplace k v m) as [added rest]. cbn in *. rewrite IH. tauto.
Qed.

Lemma manifest_of_cons m installed name :
  manifest_of (m :: installed) name = if named name m then Some m else manifest_of installed name.
Proof. done. Qed.

Lemma manifest_of_some installed name m : manifest_of installed name = Some m -> In m installed /\ Name m = name.
Proof. intros H. apply List.find_some in H as [H1 H2]. split; [done|]. by apply text_eqb_true. Qed.

Lemma by_name_spec installed plugins refused :
  sorted_keys plugins -> sorted_keys refused ->
  let '(plugins', refused') := by_name installed plugins refused in
  sorted_keys plugins' /\ sorted_keys refused' /\
  (forall k m, In (k, m) plugins' <-> In (k, m) plugins \/ (has_key plugins k = false /\ manifest_of installed k = Some m)) /\
  (forall k, In k (keys refused') <-> In k (keys refused) \/
     (has_key plugins k = true /\ manifest_of installed k <> None) \/ (2 <= length (List.filter (named k) installed))%nat).
Proof.
  revert plugins refused. induction installed as [|m installed IH]; intros plugins refused Hp Hr; cbn [by_name].
  - split_and!; [done|done| |].
    + intros k v. cbn. split; [tauto|]. intros [?|[_ ?]]; done.
    + intros k. cbn. split; [tauto|]. intros [?|[[_ ?]|?]]; [done|done|lia].
  - pose proof (emplace_sorted (Name m) m plugins Hp) as Hp'. pose proof (emplace_added (Name m) m plugins Hp) as Ha.
    pose proof (In_emplace_entry (Name m) m plugins) as He. pose proof (In_emplace (Name m) m plugins) as Hke.
    pose proof (emplace_same (Name m) m plugins Hp) as Hsame.
    destruct (emplace (Name m) m plugins) as [added plugins1]. cbn [fst snd] in *.
    set (refused1 := if added then refused else (emplace (Name m) duplicate_reason refused).2).
    assert (sorted_keys refused1) as Hr1 by (unfold refused1; destruct added; [done|by apply emplace_sorted]).
    specialize (IH plugins1 refused1 Hp' Hr1). destruct (by_name installed plugins1 refused1) as [plugins' refused'].
    destruct IH as (Hs1 & Hs2 & Hpl & Hre). split_and!; [done|done| |].
    + intros k v. rewrite Hpl, He by done. rewrite manifest_of_cons. unfold named at 1.
      rewrite !has_key_false, Hke. destruct (text_eqb (Name m) k) eqn:E.
      * apply text_eqb_true in E. subst k. split.
        -- intros [[?|[Hn Hv]]|[Hn _]]; [tauto|right; split; [done|congruence]|exfalso; apply Hn; by left].
        -- intros [?|[Hn Hv]]; [tauto|left; right]. split; [done|congruence].
      * apply text_eqb_false in E. split.
        -- intros [[?|[_ Hv]]|[Hn Hm]]; [tauto|congruence|right; split; [tauto|done]].
        -- intros [?|[Hn Hm]]; [tauto|right]. split; [|done]. intros [Hv|?]; [congruence|done].
    + intros k. rewrite Hre. rewrite manifest_of_cons. cbn [List.filter]. unfold named at 2 3.
      assert (In k (keys refused1) <-> In k (keys refused) \/ (has_key plugins (Name m) = true /\ k = Name m)) as Hk1.
      { unfold refused1. rewrite Ha. destruct (has_key plugins (Name m)); cbn [negb]; [rewrite In_emplace|].
        - split; [intros [?|?]; tauto|intros [?|[_ ?]]; tauto].
        - split; [tauto|]. intros [?|[? _]]; done. }
      assert (has_key plugins1 k = true <-> k = Name m \/ has_key plugins k = true) as Hk2 by (rewrite !has_key_In; apply Hke).
      assert (manifest_of installed k <> None <-> (1 <= length (List.filter (named k) installed))%nat) as Hk3.
      { unfold manifest_of. clear. induction installed as [|x l IH]; cbn; [split; [done|lia]|].
        destruct (named k x); cbn; [split; [lia|done]|done]. }
      rewrite Hk1, Hk2. destruct (text_eqb (Name m) k) eqn:E; cbn [length].
      * apply text_eqb_true in E. subst k. rewrite Hk3. destruct (has_key plugins (Name m)).
        -- split; [intros _; right; left; done|]. intros _. left. by right.
        -- split.
           ++ intros [[?|[? _]]|[[_ ?]|?]]; [by left|done|right; right; lia|right; right; lia].
           ++ intros [?|[[? _]|?]]; [by left; left|done|]. right. left. split; [by left|lia].
      * apply text_eqb_false in E. split.
        -- intros [[?|[_ ?]]|[[[?|?] ?]|?]]; try congruence; tauto.
        -- tauto.
Qed.

Lemma refuse_missing_spec plugins ps refused spreading :
  sorted_keys refused -> (forall k, In k (keys refused) <-> In k spreading) ->
  let '(refused', spreading') := refuse_missing plugins ps refused spreading in
  sorted_keys refused' /\ (forall k, In k (keys refused') <-> In k spreading') /\
  (forall k, In k (keys refused') <-> In k (keys refused) \/
     exists m dependency, In (k, m) ps /\ In dependency (Dependencies m) /\ has_key plugins dependency = false).
Proof.
  revert refused spreading. induction ps as [|[name manifest] ps IH]; intros refused spreading Hs Hk; cbn [refuse_missing].
  - split_and!; [done|done|]. intros k. split; [tauto|]. intros [?|(?&?&[]&_)]; done.
  - destruct (first_missing plugins manifest) as [dependency|] eqn:Hm.
    + unfold first_missing in Hm. apply List.find_some in Hm as [Hd Hn]. apply negb_true_iff in Hn.
      set (reason := Error_NotFound _).
      pose proof (emplace_sorted name reason refused Hs) as Hs1. pose proof (emplace_added name reason refused Hs) as Ha.
      pose proof (In_emplace name reason refused) as Hin.
      destruct (emplace name reason refused) as [added refused1]. cbn [fst snd] in *.
      specialize (IH refused1 (if added then spreading ++ [name] else spreading) Hs1).
      destruct (refuse_missing plugins ps refused1 _) as [refused' spreading'].
      destruct IH as (H1 & H2 & H3).
      { intros k. rewrite Hin, Ha. destruct (has_key refused name) eqn:Hh; cbn [negb].
        - apply has_key_In in Hh. rewrite <- Hk. split; [intros [->|?]; done|tauto].
        - rewrite in_app_iff, Hk. cbn. split; [intros [->|?]; tauto|intros [?|[<-|[]]]; tauto]. }
      split_and!; [done|done|]. intros k. rewrite H3, Hin. split.
      * intros [[->|?]|(m & d & Hi & ?)]; [right; exists manifest, dependency; split; [by left|done]|tauto|].
        right. exists m, d. split; [by right|done].
      * intros [?|(m & d & [[= <- <-]|Hi] & ?)]; [tauto|tauto|]. right. by exists m, d.
    + specialize (IH refused spreading Hs Hk). destruct (refuse_missing plugins ps refused spreading) as [refused' spreading'].
      destruct IH as (H1 & H2 & H3). split_and!; [done|done|]. intros k. rewrite H3. split.
      * intros [?|(m & d & Hi & ?)]; [tauto|]. right. exists m, d. split; [by right|done].
      * intros [?|(m & d & [[= <- <-]|Hi] & Hd & Hn)]; [tauto| |right; by exists m, d].
        unfold first_missing in Hm. apply (List.find_none _ _ Hm) in Hd. by rewrite Hn in Hd.
Qed.

Lemma waiting_le {V} nodes (reached : OrderedMap V) : (waiting nodes reached <= length nodes)%nat.
Proof. unfold waiting. induction nodes as [|n ns IH]; cbn; [lia|]. case_match; cbn; lia. Qed.

Lemma Refuse_spec installed :
  exists plugins refused duplicates,
    by_name installed [] [] = (plugins, duplicates) /\ RefuseUnsatisfied plugins duplicates = Returns refused /\
    sorted_keys plugins /\ sorted_keys refused /\
    (forall k, In k (keys plugins) <-> manifest_of installed k <> None) /\
    (forall k, In k (keys refused) <-> turned_away installed k).
Proof.
  pose proof (by_name_spec installed [] [] ltac:(constructor) ltac:(constructor)) as Hb.
  destruct (by_name installed [] []) as [plugins duplicates]. destruct Hb as (Hsp & Hsd & Hpl & Hdu).
  assert (forall k m, In (k, m) plugins <-> manifest_of installed k = Some m) as Hent.
  { intros k m. rewrite Hpl. cbn. tauto. }
  assert (forall k, In k (keys plugins) <-> manifest_of installed k <> None) as Hkeys.
  { intros k. unfold keys. rewrite in_map_iff. split.
    - intros ([k' m] & <- & Hin). apply Hent in Hin. cbn. by rewrite Hin.
    - intros Hn. destruct (manifest_of installed k) as [m|] eqn:Hm; [|done]. exists (k, m). split; [done|]. by apply Hent. }
  pose proof (refuse_missing_spec plugins plugins duplicates (keys duplicates) Hsd (fun k => iff_refl _)) as Hm.
  destruct (refuse_missing plugins plugins duplicates (keys duplicates)) as [refused1 spreading] eqn:Hrm.
  destruct Hm as (Hs1 & Hsp1 & Hk1).
  destruct (spread_spec (dependency_nodes plugins) (fun _ => false)
    (fun gone => Error_NotReady ($"requires '" ++ gone ++ $"', which the host refused")) spreading
    (spread_fuel (dependency_nodes plugins) spreading) refused1 spreading) as (refused & Hr & Hsr & Hkr); [done| |tauto| |].
  { unfold spread_fuel. pose proof (waiting_le (dependency_nodes plugins) refused1). lia. }
  { intros gone [Hg|[Hd Hg]]; [by left|]. left. by apply Hsp1. }
  assert (forall name dependencies, In (name, dependencies) (dependency_nodes plugins) <->
            exists m, manifest_of installed name = Some m /\ dependencies = Dependencies m) as Hnodes.
  { intros name ds. unfold dependency_nodes. rewrite in_map_iff. split.
    - intros ([k m] & [= <- <-] & Hin). exists m. by rewrite <- Hent.
    - intros (m & Hm & ->). exists (name, m). split; [done|]. by apply Hent. }
  assert (forall k, In k (keys refused1) -> turned_away installed k) as Haway.
  { intros k Hk. apply Hk1 in Hk as [Hk|(m & d & Hin & Hd & Hn)].
    - apply Hdu in Hk as [[]|[[Hk _]|Hk]]; [done|]. by apply away_twice.
    - apply Hent in Hin. eapply away_missing; [done|done|]. apply has_key_false in Hn. rewrite Hkeys in Hn.
      destruct (manifest_of installed d) eqn:?; [exfalso; apply Hn; congruence|done]. }
  exists plugins, refused, duplicates.
  split_and!; [done|unfold RefuseUnsatisfied; rewrite Hrm; exact Hr|done|done|done|].
  intros k. rewrite Hkr. split.
  - intros [Hk|Hk]; [by apply Haway|].
    induction Hk as [name ds gone Hn _ Hg Hf|name ds gone Hn _ Hg _ IH]; apply Hnodes in Hn as (m & Hm & ->);
      (eapply away_chain; [done|done|]); [|done]. by apply Haway, Hsp1.
  - induction 1 as [name Ht|name m d Hm Hd Hn|name m d Hm Hd _ IH].
    + left. apply Hk1. left. apply Hdu. tauto.
    + left. apply Hk1. right. exists m, d. split; [by apply Hent|]. split; [done|]. apply has_key_false.
      rewrite Hkeys, Hn. tauto.
    + right. eapply dependent_step; [apply Hnodes; by exists m|done|done|]. destruct IH as [IH|IH]; [left; by apply Hsp1|by right].
Qed.

Lemma Resolve_decides installed :
  exists list, Resolve installed = Returns list /\
    (forall name, In name (ToLoad list) <-> manifest_of installed name <> None /\ ~ turned_away installed name) /\
    (forall name, In name (map RefusedName (Refused list)) <-> turned_away installed name) /\
    (forall name m dependency, In name (ToLoad list) -> manifest_of installed name = Some m ->
       In dependency (Dependencies m) -> In dependency (ToLoad list)) /\
    StronglySorted (fun a b => text_ltb a b = true) (ToLoad list) /\
    StronglySorted (fun a b => text_ltb a b = true) (map RefusedName (Refused list)).
Proof.
  destruct (Refuse_spec installed) as (plugins & refused & duplicates & Hb & Hr & Hsp & Hsr & Hkp & Hkr).
  unfold Resolve. rewrite Hb, Hr. cbn [outcome_bind]. eexists. split; [done|]. cbn [ToLoad Refused].
  assert (map RefusedName (map (fun e => mkRefused e.1 e.2) refused) = keys refused) as Hm by (rewrite map_map; done).
  assert (forall name, In name (List.filter (fun name => negb (has_key refused name)) (keys plugins)) <->
            manifest_of installed name <> None /\ ~ turned_away installed name) as Hload.
  { intros name. rewrite filter_In, negb_true_iff, has_key_false, Hkp, Hkr. done. }
  rewrite Hm. split_and!; [done|done| | |done].
  - intros name m d Hn Hman Hd. rewrite Hload in *. destruct Hn as [_ Hn]. split.
    + intros Hnone. apply Hn. by eapply away_missing.
    + intros Haway. apply Hn. by eapply away_chain.
  - rewrite <- (map_id (List.filter _ _)). apply ssorted_filter. by rewrite map_id.
Qed.

(** C6. [Resolve] returns for any set of manifests, cycles included, and decides exactly: it turns away a plugin
    installed twice, one missing a required dependency, and everything that depends on one of those, directly
    or not; it loads all the others, so whatever it loads finds each of its required dependencies in the same
    list. Both lists are alphabetical. *)
Theorem Resolve_spec installed :
  exists list, Resolve installed = Returns list /\
    (forall name, In name (ToLoad list) <-> manifest_of installed name <> None /\ ~ turned_away installed name) /\
    (forall name, In name (map RefusedName (Refused list)) <-> turned_away installed name) /\
    (forall name m dependency, In name (ToLoad list) -> manifest_of installed name = Some m ->
       In dependency (Dependencies m) -> In dependency (ToLoad list)) /\
    StronglySorted (fun a b => text_ltb a b = true) (ToLoad list) /\
    StronglySorted (fun a b => text_ltb a b = true) (map RefusedName (Refused list)).
Proof. apply Resolve_decides. Qed.

(** A loaded plugin, other than [plugin], that requires it directly or through others. *)
Inductive requires (plugin : text) (loaded : list PluginManifest) : text -> Prop :=
| requires_directly m :
    In m loaded -> Name m <> plugin -> In plugin (Dependencies m) -> requires plugin loaded (Name m)
| requires_through m other :
    In m loaded -> Name m <> plugin -> In other (Dependencies m) -> requires plugin loaded other ->
    requires plugin loaded (Name m).

Lemma RequiredDependents_spec plugin loaded :
  exists dependents, RequiredDependents plugin loaded = Returns dependents /\
    StronglySorted (fun a b => text_ltb a b = true) dependents /\
    forall name, In name dependents <-> requires plugin loaded name.
Proof.
  unfold RequiredDependents. set (nodes := map _ loaded).
  destruct (spread_spec nodes (fun name => text_eqb name plugin) (fun _ => tt) [plugin]
    (spread_fuel nodes [plugin]) [] [plugin]) as (reached & Hr & Hs & Hk); [constructor| |by left; done| |].
  { unfold spread_fuel. pose proof (waiting_le nodes (@nil (text * unit))). cbn [length] in *. lia. }
  { intros gone [Hg|[_ []]]. by left. }
  rewrite Hr. cbn [outcome_bind]. exists (keys reached). split_and!; [done|done|]. intros name. rewrite Hk.
  assert (forall n ds, In (n, ds) nodes <-> exists m, In m loaded /\ n = Name m /\ ds = Dependencies m) as Hn.
  { intros n ds. unfold nodes. rewrite in_map_iff. split.
    - intros (m & [= <- <-] & Hin). by exists m.
    - intros (m & Hin & -> & ->). by exists m. }
  split.
  - intros [[]|Hd]. induction Hd as [n ds gone Hin Hsk Hg [<-|[]]|n ds gone Hin Hsk Hg _ IH];
      apply Hn in Hin as (m & Hm & -> & ->); apply text_eqb_false in Hsk; [by apply requires_directly|by eapply requires_through].
  - intros Hd. right. induction Hd as [m Hm Hne Hg|m other Hm Hne Hg _ IH]; apply text_eqb_false in Hne.
    + eapply depends_directly; [apply Hn; by exists m|done|done|by left].
    + eapply depends_through; [apply Hn; by exists m|done|done|done].
Qed.

(** [RequiredDependents] returns for any loaded plugins, cycles included, with exactly the plugins that
    require the given one directly or through others, alphabetically and never the plugin itself: so unloading
    a plugin with no dependents leaves nobody requiring it, and a plugin's reload group is closed. *)
Theorem RequiredDependents_closure plugin loaded :
  exists dependents, RequiredDependents plugin loaded = Returns dependents /\
    StronglySorted (fun a b => text_ltb a b = true) dependents /\
    (forall name, In name dependents <-> requires plugin loaded name) /\ ~ In plugin dependents /\
    (forall m, In m loaded -> ~ In (Name m) (plugin :: dependents) ->
       forall gone, In gone (plugin :: dependents) -> ~ In gone (Dependencies m)).
Proof.
  destruct (RequiredDependents_spec plugin loaded) as (dependents & Hr & Hs & Hk). exists dependents.
  split_and!; [done|done|done| |].
  - rewrite Hk. intros Hp. assert (forall n, requires plugin loaded n -> n <> plugin) as Hne by (by destruct 1).
    by apply Hne in Hp.
  - intros m Hm Hnot gone Hgone Hd. apply Hnot. destruct (decide (Name m = plugin)) as [->|Hne]; [by left|right].
    apply Hk. destruct Hgone as [<-|Hg]; [by apply requires_directly|]. eapply requires_through; [done..|]. by apply Hk.
Qed.
