(* ===== verification/PluginLoader.v ===== *)
(** * Loading, unloading and reloading: [Host/Plugins/PluginLoader.cpp]

    The loaded plugins and the requests that wait for the next frame, over the registry of PluginHost.v and the
    plans of Dependencies.v. *)
From S2P Require Import Prelude Text Errors Services Workshop HostCallbacks PluginHost Dependencies.

Module ActionKind.
Inductive t : Type := Load | Unload | Reload.
End ActionKind.

Module UnloadTime.
Inductive t : Type := MidMap | Shutdown.
#[export] Instance t_eq_dec : EqDecision t.
Proof. solve_decision. Defined.
End UnloadTime.
#[export] Existing Instance UnloadTime.t_eq_dec.

Record PendingAction := mkPending { PendingKind : ActionKind.t; PendingName : text }.

Section Loader.
Context {A : Type} `{AddonHost A}.

(** [PluginLoader]. Of a [LoadedPlugin] the manifest is kept; its library and descriptor are [library] below. *)
Record PluginLoader := mkLoader {
  registry : PluginRegistry (A := A); loaded_plugins : list PluginManifest; pending_actions : list PendingAction;
  refused_plugins : OrderedMap text }.

Definition PluginLoader_new (reg : PluginRegistry (A := A)) : PluginLoader := mkLoader reg [] [] [].

(** What a plugin's library is: whether it opens and exports its entry point, what the entry point returns, and
    the code of [Load] and [Unload] for the view it is given. *)
Record PluginLibrary := mkLibrary {
  Open : Status; EntryPoint : Status; Descriptor : option PluginDescriptor;
  LoadCode : Z -> plugin_program; UnloadCode : Z -> plugin_program }.

Context (behaviour : nat -> Z -> Raised -> PluginRegistry (A := A) -> plugin_program) (fuel : nat).
Context (library : text -> PluginLibrary) (entryName hostVersion : text).

Definition raise_event : Raised -> PluginRegistry (A := A) -> outcome PluginRegistry := Raise behaviour fuel.

Definition set_registry (reg : PluginRegistry) (l : PluginLoader) : PluginLoader :=
  mkLoader reg (loaded_plugins l) (pending_actions l) (refused_plugins l).

(** [_refused.insert_or_assign]. *)
Fixpoint insert_or_assign (k : text) (v : text) (m : OrderedMap text) : OrderedMap text :=
  match m with
  | [] => [(k, v)]
  | (k', v') :: rest =>
      if text_eqb k k' then (k, v) :: rest
      else if text_ltb k k' then (k, v) :: m else (k', v') :: insert_or_assign k v rest
  end.

Definition Refuse (name reason : text) (l : PluginLoader) : PluginLoader :=
  mkLoader (registry l) (loaded_plugins l) (pending_actions l) (insert_or_assign name reason (refused_plugins l)).

Definition FindLoaded (name : text) (l : PluginLoader) : option PluginManifest := manifest_of (loaded_plugins l) name.

Definition Defer (kind : ActionKind.t) (name : text) (l : PluginLoader) : PluginLoader :=
  mkLoader (registry l) (loaded_plugins l) (pending_actions l ++ [mkPending kind name]) (refused_plugins l).

(** [std::unexpected] with the loader as it was. *)
Definition load_fails (e : Error) (l : PluginLoader) : outcome (Status * PluginLoader) := Returns (Err e, l).

(** The plugin's [Load] in its new view, and what follows it. The 512-byte failure array starts zeroed. *)
Definition load_into (manifest : PluginManifest) (owner : Z) (reg : PluginRegistry) (l : PluginLoader)
    : outcome (Status * PluginLoader) :=
  let name := Name manifest in
  run! (ok, failure, reg1) := run_program raise_event (LoadCode (library name) owner) reg in
  if negb ok then
    run! (_, reg2) := RemovePlugin name reg1 in
    load_fails (Error_Failed (match c_string (take 511 failure) with [] => $"its Load returned false" | s => s end))
      (set_registry reg2 l)
  else
    run! reg2 := ReplayMissedEvents behaviour raise_event owner reg1 in
    Returns (Ok tt, mkLoader reg2 (loaded_plugins l ++ [manifest]) (pending_actions l)
                      (List.filter (fun e => negb (text_eqb e.1 name)) (refused_plugins l))).

Definition LoadOne (manifest : PluginManifest) (l : PluginLoader) : outcome (Status * PluginLoader) :=
  let code := library (Name manifest) in
  match Open code with
  | Err e => load_fails e l
  | Ok _ =>
      match EntryPoint code with
      | Err e => load_fails e l
      | Ok _ =>
          match ValidateDescriptor entryName hostVersion (Descriptor code) with
          | Err e => load_fails e l
          | Ok _ =>
              match AddPlugin (Name manifest) (registry l) with
              | (None, _) => load_fails (Error_Failed $"the host already holds a view under that name") l
              | (Some owner, reg) => load_into manifest owner reg l
              end
          end
      end
  end.

Definition UnloadOne (name : text) (time : UnloadTime.t) (l : PluginLoader) : outcome PluginLoader :=
  match FindLoaded name l with
  | None => Returns l
  | Some _ =>
      run! view := match FindPlugin name (registry l) with Some p => Returns p | None => Undefined end in
      let owner := ContextOrder view in
      run! reg1 := if decide (time = UnloadTime.MidMap)
                   then DisconnectClients behaviour raise_event owner (registry l) else Returns (registry l) in
      run! (_, _, reg2) := run_program raise_event (UnloadCode (library name) owner) reg1 in
      run! (_, reg3) := RemovePlugin name reg2 in
      Returns (mkLoader reg3 (List.filter (fun m => negb (named name m)) (loaded_plugins l)) (pending_actions l)
                 (refused_plugins l))
  end.

(** What [LoadOne] refuses is noted. *)
Definition load_or_refuse (manifest : PluginManifest) (l : PluginLoader) : outcome PluginLoader :=
  run! (status, l1) := LoadOne manifest l in
  Returns (match status with Ok _ => l1 | Err e => Refuse (Name manifest) (Detail e) l1 end).

(** One turn of the loading loop. *)
Definition load_wanted (disk : InstalledScan) (wanted : text -> bool) (l : PluginLoader) (name : text) : outcome PluginLoader :=
  if negb (wanted name) || (match FindLoaded name l with Some _ => true | None => false end) then Returns l
  else match manifest_of (Plugins disk) name with
       | None => Undefined
       | Some manifest => load_or_refuse manifest l
       end.

(** Each refusal that is [wanted] is noted. *)
Definition refuse_all (refusals : list RefusedPlugin) (l : PluginLoader) : PluginLoader :=
  fold_left (fun l r => Refuse (RefusedName r) (Detail (RefusedReason r)) l) refusals l.

(** [disk] is what [InstalledPlugins::Discover] finds when the call runs. *)
Definition LoadGroup (disk : InstalledScan) (wanted : text -> bool) (l : PluginLoader) : outcome PluginLoader :=
  run! list := Resolve (Plugins disk) in
  let refusals := List.filter (fun r => wanted (RefusedName r)) (ScanRefused disk ++ Refused list) in
  outcome_fold (load_wanted disk wanted) (ToLoad list) (refuse_all refusals l).

Definition LoadAll (disk : InstalledScan) (l : PluginLoader) : outcome PluginLoader := LoadGroup disk (fun _ => true) l.

(** Newest first, until none is left: one turn per plugin. *)
Fixpoint unload_newest (turns : nat) (l : PluginLoader) : outcome PluginLoader :=
  match last (loaded_plugins l) with
  | None => Returns l
  | Some newest =>
      match turns with
      | O => OutOfFuel
      | S turns' => run! l1 := UnloadOne (Name newest) UnloadTime.Shutdown l in unload_newest turns' l1
      end
  end.

Definition UnloadAll (l : PluginLoader) : outcome PluginLoader :=
  let l1 := mkLoader (registry l) (loaded_plugins l) [] (refused_plugins l) in
  unload_newest (length (loaded_plugins l)) l1.

Definition RunLoad (disk : InstalledScan) (name : text) (l : PluginLoader) : outcome PluginLoader :=
  match FindLoaded name l with
  | Some _ => Returns l
  | None =>
      match List.find (fun r => text_eqb (RefusedName r) name) (ScanRefused disk) with
      | Some broken => Returns (Refuse name (Detail (RefusedReason broken)) l)
      | None =>
          match manifest_of (Plugins disk) name with
          | None => Returns l
          | Some found =>
              match List.find (fun dependency => match FindLoaded dependency l with Some _ => false | None => true end)
                      (Dependencies found) with
              | Some dependency => Returns (Refuse name ($"it requires '" ++ dependency ++ $"', which is not loaded.") l)
              | None => load_or_refuse found l
              end
          end
      end
  end.

Definition RunUnload (name : text) (l : PluginLoader) : outcome PluginLoader :=
  match FindLoaded name l with
  | None => Returns l
  | Some _ =>
      run! dependents := RequiredDependents name (loaded_plugins l) in
      match dependents with
      | [] => UnloadOne name UnloadTime.MidMap l
      | _ => Returns l
      end
  end.

Definition reload_group (name : text) (l : PluginLoader) : outcome (list text) :=
  run! dependents := RequiredDependents name (loaded_plugins l) in Returns (dependents ++ [name]).

(** The loaded plugins of the group, newest first. *)
Definition going (group : list text) (l : PluginLoader) : list text :=
  List.filter (mem group) (rev (map Name (loaded_plugins l))).

Definition RunReload (disk : InstalledScan) (name : text) (l : PluginLoader) : outcome PluginLoader :=
  match FindLoaded name l with
  | None => Returns l
  | Some _ =>
      run! group := reload_group name l in
      run! l1 := outcome_fold (fun l plugin => UnloadOne plugin UnloadTime.MidMap l) (going group l) l in
      LoadGroup disk (mem group) l1
  end.

Definition run_action (disk : InstalledScan) (action : PendingAction) (l : PluginLoader) : outcome PluginLoader :=
  match PendingKind action with
  | ActionKind.Load => RunLoad disk (PendingName action) l
  | ActionKind.Unload => RunUnload (PendingName action) l
  | ActionKind.Reload => RunReload disk (PendingName action) l
  end.

(** The actions in their order, each with what the disk holds at its turn. An action cannot add to the list taken
    aside. *)
Fixpoint run_actions (disks : nat -> InstalledScan) (turn : nat) (actions : list PendingAction) (l : PluginLoader)
    : outcome PluginLoader :=
  match actions with
  | [] => Returns l
  | action :: rest => run! l1 := run_action (disks turn) action l in run_actions disks (S turn) rest l1
  end.

Definition RunPending (disks : nat -> InstalledScan) (l : PluginLoader) : outcome PluginLoader :=
  run_actions disks 0 (pending_actions l) (mkLoader (registry l) (loaded_plugins l) [] (refused_plugins l)).

(** ** What the loader keeps true *)

(** Every loaded plugin has its view, in load order, and nobody else has one. *)
Definition loader_ok (l : PluginLoader) : Prop :=
  host_ok (registry l) /\ map Name (loaded_plugins l) = map ContextName (plugins (registry l)).

(** Every loaded plugin's required dependencies are loaded. *)
Definition closed (l : PluginLoader) : Prop :=
  forall m dependency, In m (loaded_plugins l) -> In dependency (Dependencies m) -> FindLoaded dependency l <> None.

(** Plugin code as the host assumes it: it calls through the views of loaded plugins, and raises only so deep. *)
Context (rank : Raised -> nat).
Context (callbacks_ok : forall r fn context reg,
  acts_within (loaded reg) (fun r' => (rank r' < rank r)%nat) (behaviour fn context r reg)).
Context (rank_ok : forall r, (rank r < fuel)%nat).
Context (libraries_ok : forall name owner owners, In owner owners ->
  acts_within owners (fun _ => True) (LoadCode (library name) owner) /\
  acts_within owners (fun _ => True) (UnloadCode (library name) owner)).

Lemma raise_good r reg : host_ok reg -> good_state reg (raise_event r reg).
Proof.
  intros Hok. unfold raise_event.
  assert (forall n r reg', (rank r < n)%nat -> loaded reg' = loaded reg -> host_ok reg' ->
            good_state reg' (Raise behaviour n r reg')) as Hraise; [|by apply Hraise].
  intros n. induction n as [|n IH]; intros r' reg' Hr Hl Hok'; [lia|]. cbn [Raise].
  eapply (raise_with_good behaviour _ (loaded reg) (fun r r' => (rank r' < rank r)%nat)); try done.
  - intros r1 fn context reg1 <-. apply callbacks_ok.
  - intros r2 reg2 Hr2 Hl2 Hok2. apply IH; [lia|done..].
Qed.

Lemma program_good p reg :
  acts_within (loaded reg) (fun _ => True) p -> host_ok reg -> good_step reg (run_program raise_event p reg).
Proof. intros Hp Hok. eapply run_program_good; [done|done| |done]. intros r reg' _ _ Hok'. by apply raise_good. Qed.

Lemma disconnect_good owner reg :
  host_ok reg -> In owner (loaded reg) -> good_state reg (DisconnectClients behaviour raise_event owner reg).
Proof.
  intros Hok Hin. eapply (Disconnect_good behaviour _ (loaded reg) (fun r r' => (rank r' < rank r)%nat)); try done.
  - intros r fn context reg1 <-. apply callbacks_ok.
  - intros r r' reg' _ _ Hok'. by apply raise_good.
Qed.

Lemma replay_good owner reg :
  host_ok reg -> In owner (loaded reg) -> good_state reg (ReplayMissedEvents behaviour raise_event owner reg).
Proof.
  intros Hok Hin. eapply (Replay_good behaviour _ (loaded reg) (fun r r' => (rank r' < rank r)%nat)); try done.
  - intros r fn context reg1 <-. apply callbacks_ok.
  - intros r r' reg' _ _ Hok'. by apply raise_good.
Qed.

Lemma Name_filter name (ms : list PluginManifest) :
  map Name (List.filter (fun m => negb (named name m)) ms) = List.filter (fun n => negb (text_eqb n name)) (map Name ms).
Proof. induction ms as [|m ms IH]; cbn; [done|]. unfold named at 1. destruct (text_eqb (Name m) name); cbn; by rewrite IH. Qed.

Lemma find_plugin_named name (reg : PluginRegistry (A := A)) p : FindPlugin name reg = Some p -> In p (plugins reg) /\ ContextName p = name.
Proof. intros Hf. apply List.find_some in Hf as [Hp Hn]. split; [done|]. by apply text_eqb_true. Qed.

Lemma find_plugin_In name (reg : PluginRegistry (A := A)) : In name (map ContextName (plugins reg)) -> exists p, FindPlugin name reg = Some p.
Proof.
  intros Hin. unfold FindPlugin. destruct (List.find _ _) eqn:Hf; [by eauto|]. exfalso.
  apply in_map_iff in Hin as (p & Hn & Hp). apply (List.find_none _ _ Hf) in Hp. apply text_eqb_false in Hp. done.
Qed.

Lemma FindLoaded_In name l : FindLoaded name l <> None <-> In name (map Name (loaded_plugins l)).
Proof.
  unfold FindLoaded. split.
  - intros Hf. destruct (manifest_of _ _) as [m|] eqn:Hm; [|done]. apply manifest_of_some in Hm as [Hm <-]. by apply in_map.
  - intros Hin Hf. apply in_map_iff in Hin as (m & Hn & Hm). apply (List.find_none _ _ Hf) in Hm.
    apply text_eqb_false in Hm. done.
Qed.

Lemma same_name_plugin (reg : PluginRegistry (A := A)) p q :
  host_ok reg -> In p (plugins reg) -> In q (plugins reg) -> ContextName p = ContextName q -> p = q.
Proof.
  intros Hok Hp Hq Hn. pose proof (h_plugin_names _ Hok) as Hu. revert Hu Hp Hq. clear -Hn.
  induction (plugins reg) as [|x l IH]; cbn; [done|]. intros Hu Ha Hb. apply NoDup_cons in Hu as [Hno Hu].
  rewrite list_elem_of_In, in_map_iff in Hno.
  destruct Ha as [->|Ha], Hb as [->|Hb]; [done| | |by apply IH]; exfalso; apply Hno; eauto.
Qed.

(** Removing a plugin the registry holds returns, and takes its name away. *)
Lemma remove_good name p (reg : PluginRegistry (A := A)) :
  host_ok reg -> FindPlugin name reg = Some p ->
  exists leaks reg', RemovePlugin name reg = Returns (leaks, reg') /\ host_ok reg' /\
    map ContextName (plugins reg') = List.filter (fun n => negb (text_eqb n name)) (map ContextName (plugins reg)).
Proof.
  intros Hok Hf. rewrite (RemovePlugin_run name p reg Hok Hf). apply find_plugin_named in Hf as [Hp Hn].
  do 2 eexists. split; [done|]. split; [by apply without_ok|]. cbn [plugins without].
  assert (forall q, In q (plugins reg) -> (ContextOrder q =? ContextOrder p) = text_eqb (ContextName q) name) as Hsame.
  { intros q Hq. apply eq_true_iff_eq. rewrite Z.eqb_eq, text_eqb_true. split; intros E.
    - assert (q = p) as -> by (eapply loaded_same; [apply Hok|done..]). done.
    - assert (q = p) as -> by (eapply same_name_plugin; [done|done|done|congruence]). done. }
  revert Hsame. clear. induction (plugins reg) as [|q ps IH]; intros Hsame; [done|]. cbn.
  rewrite (Hsame q) by by left. rewrite <- IH by (intros; apply Hsame; by right). by destruct (text_eqb (ContextName q) name).
Qed.

Lemma UnloadOne_good name time l :
  loader_ok l -> exists l', UnloadOne name time l = Returns l' /\ loader_ok l' /\
    loaded_plugins l' = List.filter (fun m => negb (named name m)) (loaded_plugins l).
Proof.
  intros [Hok Hnames]. unfold UnloadOne. destruct (FindLoaded name l) as [m|] eqn:Hf.
  - assert (In name (map ContextName (plugins (registry l)))) as Hin by (rewrite <- Hnames; apply FindLoaded_In; by rewrite Hf).
    destruct (find_plugin_In name (registry l) Hin) as [p Hp]. rewrite Hp. cbn [outcome_bind].
    pose proof (find_plugin_named _ _ _ Hp) as [Hpin Hpn].
    assert (In (ContextOrder p) (loaded (registry l))) as Hown by by apply in_map.
    assert (good_state (registry l) (if decide (time = UnloadTime.MidMap)
              then DisconnectClients behaviour raise_event (ContextOrder p) (registry l) else Returns (registry l)))
      as (reg1 & -> & Hok1 & Hev1).
    { case_decide; [by apply disconnect_good|]. eexists. split_and!; [done|done|reflexivity]. }
    cbn [outcome_bind]. rewrite <- (e_loaded _ _ Hev1) in Hown.
    destruct (program_good (UnloadCode (library name) (ContextOrder p)) reg1) as ([answer written] & reg2 & -> & Hok2 & Hev2);
      [by apply libraries_ok|done|]. cbn [outcome_bind].
    assert (map ContextName (plugins reg2) = map ContextName (plugins (registry l))) as Hn2.
    { by rewrite (e_names _ _ Hev2), (e_names _ _ Hev1). }
    destruct (find_plugin_In name reg2) as [p2 Hp2]; [by rewrite Hn2|].
    destruct (remove_good name p2 reg2 Hok2 Hp2) as (leaks & reg3 & -> & Hok3 & Hn3). cbn [outcome_bind].
    eexists. split; [done|]. split; [|done]. split; [done|]. cbn. by rewrite Hn3, Hn2, <- Hnames, Name_filter.
  - exists l. split_and!; [done|done|]. symmetry. apply filter_all, Forall_forall. intros m Hm.
    apply negb_true_iff. unfold FindLoaded in Hf. apply (List.find_none _ _ Hf). by apply list_elem_of_In.
Qed.

Lemma LoadOne_good manifest l :
  loader_ok l -> exists status l', LoadOne manifest l = Returns (status, l') /\ loader_ok l' /\
    loaded_plugins l' = if has_value status then loaded_plugins l ++ [manifest] else loaded_plugins l.
Proof.
  intros Hl. pose proof Hl as [Hok Hnames]. unfold LoadOne, load_fails.
  destruct (Open _); [|by do 2 eexists]. destruct (EntryPoint _); [|by do 2 eexists].
  destruct (ValidateDescriptor _ _ _); [|by do 2 eexists].
  pose proof (AddPlugin_ok (Name manifest) (registry l) Hok) as Hok0.
  destruct (AddPlugin (Name manifest) (registry l)) as [[owner|] reg0] eqn:Hadd; [|by do 2 eexists].
  cbn [snd] in Hok0. unfold AddPlugin in Hadd. set (name := Name manifest) in *.
  assert (FindPlugin name (registry l) = None /\
          reg0 = mkRegistry (set_order (NextOrder (shared (registry l)) + 1) (shared (registry l)))
                   (plugins (registry l) ++ [mkContext name owner [] []])) as [Hnone Hreg0].
  { destruct name; [done|]. destruct (FindPlugin _ _); [done|]. by injection Hadd as <- <-. }
  assert (map ContextName (plugins reg0) = map ContextName (plugins (registry l)) ++ [name]) as Hn0
    by (rewrite Hreg0; cbn; by rewrite map_app).
  assert (In owner (loaded reg0)) as Hown by (rewrite Hreg0; unfold loaded; cbn; rewrite map_app, in_app_iff; right; by left).
  clear Hadd Hreg0. unfold load_into.
  destruct (program_good (LoadCode (library name) owner) reg0) as ([answer written] & reg1 & E & Hok1 & Hev1);
    [by apply libraries_ok|done|]. fold name. rewrite E. cbn [outcome_bind]. clear E.
  destruct answer; cbn [negb].
  - rewrite <- (e_loaded _ _ Hev1) in Hown. destruct (replay_good owner reg1 Hok1 Hown) as (reg2 & -> & Hok2 & Hev2).
    cbn [outcome_bind]. do 2 eexists. split; [done|]. split; [|done]. split; [done|]. cbn.
    rewrite (e_names _ _ Hev2), (e_names _ _ Hev1), Hn0, map_app, Hnames. done.
  - assert (exists p, FindPlugin name reg1 = Some p) as [p Hp].
    { apply find_plugin_In. rewrite (e_names _ _ Hev1), Hn0, in_app_iff. right. by left. }
    destruct (remove_good name p reg1 Hok1 Hp) as (leaks & reg2 & -> & Hok2 & Hn2). cbn [outcome_bind]. unfold load_fails.
    do 2 eexists. split; [done|]. split; [|done]. split; [done|]. cbn [registry set_registry loaded_plugins].
    rewrite Hn2, (e_names _ _ Hev1), Hn0, List.filter_app. cbn. rewrite text_eqb_refl. cbn. rewrite app_nil_r, <- Hnames.
    symmetry. apply filter_all, Forall_forall. intros n Hn. apply list_elem_of_In in Hn. apply negb_true_iff, text_eqb_false.
    intros ->. rewrite Hnames in Hn. destruct (find_plugin_In _ _ Hn) as [q Hq]. congruence.
Qed.

Lemma Refuse_ok name reason l : loader_ok l -> loader_ok (Refuse name reason l).
Proof. done. Qed.

Lemma load_or_refuse_good manifest l :
  loader_ok l -> exists l', load_or_refuse manifest l = Returns l' /\ loader_ok l' /\
    (loaded_plugins l' = loaded_plugins l \/ loaded_plugins l' = loaded_plugins l ++ [manifest]).
Proof.
  intros Hl. unfold load_or_refuse. destruct (LoadOne_good manifest l Hl) as (status & l1 & -> & Hl1 & E). cbn [outcome_bind].
  eexists. split; [done|]. destruct status; cbn in E; (split; [done|]); [by right|by left].
Qed.

(** *** Every plugin is accounted for *)

(** Loaded, or refused with a reason. *)
Definition accounted (name : text) (l : PluginLoader) : Prop :=
  FindLoaded name l <> None \/ In name (keys (refused_plugins l)).

Lemma keys_insert k v m n : In n (keys (insert_or_assign k v m)) <-> n = k \/ In n (keys m).
Proof.
  induction m as [|[k' v'] m IH]; cbn; [intuition congruence|]. destruct (text_eqb k k') eqn:E; cbn.
  - apply text_eqb_true in E as ->. intuition congruence.
  - destruct (text_ltb k k'); cbn; [intuition congruence|]. fold (keys (insert_or_assign k v m)). rewrite IH. unfold keys. tauto.
Qed.

Lemma accounted_Refuse name reason n l : accounted n (Refuse name reason l) <-> n = name \/ accounted n l.
Proof. unfold accounted, FindLoaded. cbn [Refuse refused_plugins loaded_plugins]. rewrite keys_insert. tauto. Qed.

(** A refusal leaves the noted reasons alone; a load drops its own. *)
Lemma LoadOne_refused manifest l status l' :
  LoadOne manifest l = Returns (status, l') ->
  refused_plugins l' = if has_value status
                       then List.filter (fun e => negb (text_eqb e.1 (Name manifest))) (refused_plugins l)
                       else refused_plugins l.
Proof.
  unfold LoadOne, load_fails, load_into. destruct (Open _); [|by intros [= <- <-]].
  destruct (EntryPoint _); [|by intros [= <- <-]]. destruct (ValidateDescriptor _ _ _); [|by intros [= <- <-]].
  destruct (AddPlugin _ _) as [[owner|] reg]; [|by intros [= <- <-]].
  destruct (run_program _ _ _) as [[[ok failure] reg1]| |]; cbn [outcome_bind]; [|done..]. destruct ok; cbn [negb].
  - destruct (ReplayMissedEvents _ _ _ _) as [reg2| |]; cbn [outcome_bind]; [|done..]. by intros [= <- <-].
  - destruct (RemovePlugin _ _) as [[leaks reg2]| |]; cbn [outcome_bind]; [|done..]. by intros [= <- <-].
Qed.

Lemma load_or_refuse_accounts manifest l :
  loader_ok l -> exists l', load_or_refuse manifest l = Returns l' /\ loader_ok l' /\
    accounted (Name manifest) l' /\ forall n, accounted n l -> accounted n l'.
Proof.
  intros Hl. unfold load_or_refuse. destruct (LoadOne_good manifest l Hl) as (status & l1 & E & Hl1 & El). rewrite E.
  cbn [outcome_bind]. apply LoadOne_refused in E. eexists. split; [done|].
  destruct status as [[]|e]; cbn [has_value] in *.
  - assert (accounted (Name manifest) l1) as Hnew.
    { left. apply FindLoaded_In. rewrite El, map_app, in_app_iff. right. by left. }
    split_and!; [done|done|]. intros n [Hn|Hn].
    + left. apply FindLoaded_In. apply FindLoaded_In in Hn. rewrite El, map_app, in_app_iff. by left.
    + destruct (text_eqb n (Name manifest)) eqn:En; [by apply text_eqb_true in En as ->|]. right. rewrite E.
      apply in_map_iff in Hn as ([k v] & Hk & Hin). cbn in Hk. subst k. apply in_map_iff. exists (n, v). split; [done|].
      apply filter_In. split; [done|]. cbn. by rewrite En.
  - split_and!; [done| |].
    + apply accounted_Refuse. by left.
    + intros n Hn. apply accounted_Refuse. right. unfold accounted, FindLoaded in *. by rewrite E, El.
Qed.

Lemma refuse_all_accounts rs l :
  loader_ok l -> loader_ok (refuse_all rs l) /\
  forall n, In n (map RefusedName rs) \/ accounted n l -> accounted n (refuse_all rs l).
Proof.
  revert l. induction rs as [|r rs IH]; cbn; intros l0 Hl0; [tauto|].
  destruct (IH (Refuse (RefusedName r) (Detail (RefusedReason r)) l0) Hl0) as [Ho Ha]. split; [done|].
  intros n Hn. apply Ha. rewrite accounted_Refuse. destruct Hn as [[->|Hn]|Hn]; tauto.
Qed.

Lemma load_wanted_accounts disk wanted name l :
  loader_ok l -> manifest_of (Plugins disk) name <> None ->
  exists l', load_wanted disk wanted l name = Returns l' /\ loader_ok l' /\
    forall n, (n = name /\ wanted n = true) \/ accounted n l -> accounted n l'.
Proof.
  intros Hl Hm. unfold load_wanted. destruct (wanted name) eqn:Hw; cbn [negb orb].
  - destruct (FindLoaded name l) eqn:Hf.
    + exists l. split_and!; [done|done|]. intros n [[-> _]|Hn]; [|done]. left. by rewrite Hf.
    + destruct (manifest_of (Plugins disk) name) as [manifest|] eqn:Hmf; [|done].
      destruct (load_or_refuse_accounts manifest l Hl) as (l2 & -> & Hl2 & Hself & Hkeep). exists l2.
      split_and!; [done|done|]. intros n [[-> _]|Hn]; [|by apply Hkeep].
      apply manifest_of_some in Hmf as [_ Hmn]. by rewrite <- Hmn.
  - exists l. split_and!; [done|done|]. intros n [[-> Hn]|Hn]; [congruence|done].
Qed.

Lemma load_loop_accounts disk wanted names l :
  loader_ok l -> (forall n, In n names -> manifest_of (Plugins disk) n <> None) ->
  exists l', outcome_fold (load_wanted disk wanted) names l = Returns l' /\ loader_ok l' /\
    forall n, (In n names /\ wanted n = true) \/ accounted n l -> accounted n l'.
Proof.
  revert l. induction names as [|name names IH]; intros l Hl Hm; cbn [outcome_fold].
  - exists l. split_and!; [done|done|]. intros n [[[] _]|Hn]; done.
  - destruct (load_wanted_accounts disk wanted name l Hl (Hm name (or_introl eq_refl))) as (l2 & -> & Hl2 & H2).
    cbn [outcome_bind]. destruct (IH l2 Hl2) as (l' & -> & Hl' & H'); [intros n Hn; apply Hm; by right|].
    exists l'. split_and!; [done|done|]. intros n Hn. apply H'. destruct Hn as [[[->|Hn] Hw]|Hn]; [|by left|].
    + right. apply H2. by left.
    + right. apply H2. by right.
Qed.

(** Loading the group [wanted] accounts for each plugin of it on the disk. *)
Lemma LoadGroup_accounts disk wanted l :
  loader_ok l -> exists l', LoadGroup disk wanted l = Returns l' /\ loader_ok l' /\
    forall m, In m (Plugins disk) -> wanted (Name m) = true -> accounted (Name m) l'.
Proof.
  intros Hl. unfold LoadGroup. destruct (Resolve_decides (Plugins disk)) as (list & -> & Hload & Haway & _). cbn [outcome_bind].
  set (refusals := List.filter _ _). destruct (refuse_all_accounts refusals l Hl) as [Hl1 Ha1].
  destruct (load_loop_accounts disk wanted (ToLoad list) _ Hl1) as (l' & E & Hl' & Ha').
  { intros n Hn. by apply Hload in Hn as [? _]. }
  exists l'. split_and!; [done|done|]. intros m Hm Hw. apply Ha'.
  destruct (existsb (text_eqb (Name m)) (map RefusedName (Refused list))) eqn:Hr.
  - right. apply Ha1. left. apply existsb_exists in Hr as (x & Hx & Ex). apply text_eqb_true in Ex as <-.
    apply in_map_iff in Hx as (r & Hn & Hr). apply in_map_iff. exists r. split; [done|]. apply filter_In. rewrite Hn.
    split; [|done]. apply in_app_iff. by right.
  - left. split; [|done]. apply Hload. split.
    + intros Hno. apply (List.find_none _ _ Hno) in Hm. by apply text_eqb_false in Hm.
    + rewrite <- Haway. intros Hin. apply not_true_iff_false in Hr. apply Hr. apply existsb_exists. exists (Name m).
      split; [done|]. apply text_eqb_refl.
Qed.

(** *** Unloading *)

(** Taking down [gone] one after the other. *)
Lemma unload_all_good gone l :
  loader_ok l -> exists l', outcome_fold (fun l plugin => UnloadOne plugin UnloadTime.MidMap l) gone l = Returns l' /\
    loader_ok l' /\ loaded_plugins l' = List.filter (fun m => negb (mem gone (Name m))) (loaded_plugins l).
Proof.
  revert l. induction gone as [|name gone IH]; intros l Hl; cbn [outcome_fold].
  - exists l. split_and!; [done|done|]. symmetry. by apply filter_all, Forall_forall.
  - destruct (UnloadOne_good name UnloadTime.MidMap l Hl) as (l1 & -> & Hl1 & E1). cbn [outcome_bind].
    destruct (IH l1 Hl1) as (l2 & -> & Hl2 & E2). exists l2. split_and!; [done|done|]. rewrite E2, E1, filter_filter.
    apply List.filter_ext. intros m. unfold named. cbn. symmetry. apply negb_orb.
Qed.

Lemma requires_loaded plugin ms name : requires plugin ms name -> In name (map Name ms).
Proof. destruct 1; by apply in_map. Qed.

Lemma mem_false gone n : mem gone n = false <-> ~ In n gone.
Proof. rewrite <- mem_In. by destruct (mem gone n). Qed.

Lemma going_In group l n : In n (going group l) <-> In n (map Name (loaded_plugins l)) /\ In n group.
Proof. unfold going. by rewrite filter_In, <- in_rev, mem_In. Qed.

(** What is left when everything that requires [name] goes with it. *)
Lemma closed_without name gone l l' :
  closed l -> loaded_plugins l' = List.filter (fun m => negb (mem gone (Name m))) (loaded_plugins l) ->
  (forall n, In n gone <-> n = name \/ requires name (loaded_plugins l) n) -> closed l'.
Proof.
  intros Hc E Hg m d Hm Hd. rewrite E in Hm. apply filter_In in Hm as [Hm Hnot].
  apply negb_true_iff in Hnot.
  rewrite mem_false, Hg in Hnot. specialize (Hc m d Hm Hd). rewrite FindLoaded_In in *. rewrite E.
  apply in_map_iff in Hc as (m' & <- & Hm'). apply in_map. apply filter_In. split; [done|]. apply negb_true_iff, mem_false.
  rewrite Hg. intros [Hd'|Hd'].
  - apply Hnot. right. apply requires_directly; [done|tauto|congruence].
  - apply Hnot. right. eapply requires_through; [done|tauto|done|done].
Qed.

Lemma reload_leaves_closed name ds l l' :
  closed l -> (forall n, In n ds <-> requires name (loaded_plugins l) n) ->
  loaded_plugins l' = List.filter (fun m => negb (mem (going (ds ++ [name]) l) (Name m))) (loaded_plugins l) -> closed l'.
Proof.
  intros Hc Hd E. eapply (closed_without name (ds ++ [name])); [done| |].
  - rewrite E. apply List.filter_ext_in. intros m Hm. f_equal. apply eq_true_iff_eq. rewrite !mem_In, going_In.
    pose proof (in_map Name _ _ Hm). tauto.
  - intros n. rewrite in_app_iff, Hd. cbn. intuition congruence.
Qed.

Lemma RunUnload_good name l :
  loader_ok l -> exists l', RunUnload name l = Returns l' /\ loader_ok l' /\ (closed l -> closed l').
Proof.
  intros Hl. unfold RunUnload. destruct (FindLoaded name l); [|by exists l].
  destruct (RequiredDependents_spec name (loaded_plugins l)) as (dependents & -> & _ & Hd). cbn [outcome_bind].
  destruct dependents as [|d ds]; [|by exists l].
  destruct (UnloadOne_good name UnloadTime.MidMap l Hl) as (l' & -> & Hl' & E). exists l'. split_and!; [done|done|].
  intros Hc. eapply (closed_without name [name]); [done| |].
  - rewrite E. apply List.filter_ext. intros m. unfold named. cbn. by rewrite orb_false_r.
  - intros n. cbn. rewrite <- Hd. cbn. split; [intros [<-|[]]; by left|intros [->|[]]; by left].
Qed.

Lemma RunLoad_good disk name l :
  loader_ok l -> exists l', RunLoad disk name l = Returns l' /\ loader_ok l' /\ (closed l -> closed l').
Proof.
  intros Hl. unfold RunLoad. destruct (FindLoaded name l); [by exists l|]. destruct (List.find _ (ScanRefused disk)); [by eexists|].
  destruct (manifest_of (Plugins disk) name) as [found|]; [|by exists l].
  destruct (List.find _ (Dependencies found)) as [missing|] eqn:Hf; [by eexists|].
  destruct (load_or_refuse_good found l Hl) as (l' & -> & Hl' & E). exists l'. split_and!; [done|done|].
  intros Hc m d Hm Hd. rewrite FindLoaded_In.
  assert (forall n, In n (map Name (loaded_plugins l)) -> In n (map Name (loaded_plugins l'))) as Hmono.
  { intros n Hn. destruct E as [->| ->]; [done|]. rewrite map_app, in_app_iff. by left. }
  apply Hmono, FindLoaded_In. destruct E as [E|E]; rewrite E in Hm; [by eapply Hc|].
  apply in_app_iff in Hm as [Hm|[<-|[]]]; [by eapply Hc|].
  apply (List.find_none _ _ Hf) in Hd. by destruct (FindLoaded d l).
Qed.

Lemma RunReload_good disk name l :
  loader_ok l -> exists l', RunReload disk name l = Returns l' /\ loader_ok l'.
Proof.
  intros Hl. unfold RunReload. destruct (FindLoaded name l); [|by exists l]. unfold reload_group.
  destruct (RequiredDependents_spec name (loaded_plugins l)) as (dependents & -> & _ & _). cbn [outcome_bind].
  destruct (unload_all_good (going (dependents ++ [name]) l) l Hl) as (l1 & -> & Hl1 & _). cbn [outcome_bind].
  destruct (LoadGroup_accounts disk (mem (dependents ++ [name])) l1 Hl1) as (l' & -> & Hl' & _). by exists l'.
Qed.

Lemma unload_newest_good turns l :
  loader_ok l -> (length (loaded_plugins l) <= turns)%nat ->
  exists l', unload_newest turns l = Returns l' /\ loader_ok l' /\ loaded_plugins l' = [].
Proof.
  revert l. induction turns as [|turns IH]; intros l Hl Hlen; cbn [unload_newest].
  - destruct (loaded_plugins l) eqn:E; [|cbn in Hlen; lia]. by exists l.
  - destruct (last (loaded_plugins l)) as [newest|] eqn:E.
    + destruct (UnloadOne_good (Name newest) UnloadTime.Shutdown l Hl) as (l1 & -> & Hl1 & E1). cbn [outcome_bind].
      apply IH; [done|]. rewrite E1.
      assert (In newest (loaded_plugins l)) as Hin by (rewrite <- list_elem_of_In; by apply last_Some_elem_of).
      assert (named (Name newest) newest = true) as Hn by (unfold named; apply text_eqb_refl).
      apply in_split in Hin as (l1' & l2' & Es). rewrite Es, List.filter_app, length_app. cbn. rewrite Hn. cbn.
      rewrite Es, length_app in Hlen. cbn in Hlen.
      pose proof (List.filter_length_le (fun m => negb (named (Name newest) m)) l1').
      pose proof (List.filter_length_le (fun m => negb (named (Name newest) m)) l2'). lia.
    + apply last_None in E. by exists l.
Qed.

Lemma run_action_good disk action l :
  loader_ok l -> exists l', run_action disk action l = Returns l' /\ loader_ok l'.
Proof.
  intros Hl. unfold run_action. destruct (PendingKind action).
  - destruct (RunLoad_good disk (PendingName action) l Hl) as (l' & E & Hl' & _). by exists l'.
  - destruct (RunUnload_good (PendingName action) l Hl) as (l' & E & Hl' & _). by exists l'.
  - by apply RunReload_good.
Qed.

Lemma run_actions_good disks turn actions l :
  loader_ok l -> exists l', run_actions disks turn actions l = Returns l' /\ loader_ok l'.
Proof.
  revert turn l. induction actions as [|action actions IH]; intros turn l Hl; cbn [run_actions]; [by exists l|].
  destruct (run_action_good (disks turn) action l Hl) as (l1 & -> & Hl1). by apply IH.
Qed.

(** ** The properties *)

(** C5. Whatever plugins do in their [Load], their [Unload] and their callbacks, loading and unloading return with
    the loader and the host agreeing: each loaded plugin has its view and nobody else has one, in one order. After
    the plugins are loaded, every installed plugin is loaded or refused with a reason; after they are unloaded, none
    is loaded and the host holds no view. The requests a frame takes return with the two agreeing too. *)
Theorem Loader_agrees disk disks l :
  loader_ok l ->
  (exists l', LoadAll disk l = Returns l' /\ loader_ok l' /\ forall m, In m (Plugins disk) -> accounted (Name m) l') /\
  (exists l', UnloadAll l = Returns l' /\ loader_ok l' /\ loaded_plugins l' = [] /\ plugins (registry l') = []) /\
  (exists l', RunPending disks l = Returns l' /\ loader_ok l').
Proof.
  intros Hl. split_and!.
  - destruct (LoadGroup_accounts disk (fun _ => true) l Hl) as (l' & E & Hl' & Ha). exists l'. split_and!; [done|done|].
    intros m Hm. by apply Ha.
  - unfold UnloadAll. destruct (unload_newest_good (length (loaded_plugins l))
      (mkLoader (registry l) (loaded_plugins l) [] (refused_plugins l)) Hl) as (l' & -> & Hl' & E); [done|].
    exists l'. split_and!; [done|done|done|]. destruct Hl' as [_ Hn]. rewrite E in Hn. by destruct (plugins (registry l')).
  - by apply run_actions_good.
Qed.

(** Requests to load and to unload never leave a plugin without a dependency it requires: a load is refused
    while one is missing, an unload while anyone requires the plugin, directly or through others, is loaded. What a
    reload takes down, it takes down with everyone who requires it, so that the plugins left standing still have
    theirs. *)
Theorem requests_keep_dependencies disk l name :
  loader_ok l -> closed l ->
  (exists l', RunLoad disk name l = Returns l' /\ closed l') /\
  (exists l', RunUnload name l = Returns l' /\ closed l' /\
    (forall other, requires name (loaded_plugins l) other -> loaded_plugins l' = loaded_plugins l)) /\
  (exists group l', reload_group name l = Returns group /\
    outcome_fold (fun l plugin => UnloadOne plugin UnloadTime.MidMap l) (going group l) l = Returns l' /\ closed l' /\
    forall m, In m (loaded_plugins l') <->
      In m (loaded_plugins l) /\ Name m <> name /\ ~ requires name (loaded_plugins l) (Name m)).
Proof.
  intros Hl Hc. split_and!.
  - destruct (RunLoad_good disk name l Hl) as (l' & E & _ & Hc'). exists l'. tauto.
  - destruct (RunUnload_good name l Hl) as (l' & E & _ & Hc'). exists l'. split_and!; [done|by apply Hc'|].
    intros other Ho. revert E. unfold RunUnload. destruct (FindLoaded name l); [|by intros [= <-]].
    destruct (RequiredDependents_spec name (loaded_plugins l)) as (dependents & -> & _ & Hd). cbn [outcome_bind].
    apply Hd in Ho. destruct dependents; [done|]. by intros [= <-].
  - unfold reload_group. destruct (RequiredDependents_spec name (loaded_plugins l)) as (ds & -> & _ & Hd). cbn [outcome_bind].
    destruct (unload_all_good (going (ds ++ [name]) l) l Hl) as (l' & E & _ & El).
    exists (ds ++ [name]), l'. split_and!; [done|done|by eapply reload_leaves_closed|].
    intros m. rewrite El, filter_In, negb_true_iff, mem_false, going_In, in_app_iff, Hd. cbn.
    split; [intros [Hm Hno]|intros (Hm & Hne & Hnr)]; (split; [done|]).
    + split; [intros Heq|intros Hr]; apply Hno; (split; [by apply in_map|]); [by right; left|by left].
    + intros [_ [Hr|[Heq|[]]]]; [done|]. by apply Hne.
Qed.

End Loader.

(** ** A sample: [alpha] requires [zeta] *)

Definition plain_manifest (name : text) (dependencies : list text) : PluginManifest :=
  mkManifest name $"1.0" name [] [] [] [] LogLevel.Info dependencies [].

Definition sample_disk : InstalledScan :=
  mkScan [plain_manifest $"zeta" []; plain_manifest $"alpha" [$"zeta"]]
    [mkRefused $"broken" (Error_Invalid $"its manifest is not JSON")].

(** A plugin whose [Load] publishes a service and answers [loads name]. *)
Definition sample_library (loads : text -> bool) (name : text) : PluginLibrary :=
  mkLibrary (Ok tt) (Ok tt) (Some (mkDescriptor (Some $"0.1") true true true true))
    (fun owner => PAct owner (APublish name 7) (fun _ => PDone (loads name) $"no database")) (fun _ => PDone true []).

Definition quiet_behaviour (fn : nat) (context : Z) (r : Raised) (reg : PluginRegistry (A := WorkshopService))
    : plugin_program := PDone false [].

Definition sample_loader : PluginLoader (A := WorkshopService) := PluginLoader_new (PluginRegistry_new None).

Definition sample_load_all (loads : text -> bool) : outcome (PluginLoader (A := WorkshopService)) :=
  LoadAll quiet_behaviour 1 (sample_library loads) $"VoltModPlugin" $"0.1" sample_disk sample_loader.

Definition sample_loaded : PluginLoader (A := WorkshopService) :=
  match sample_load_all (fun _ => true) with Returns l => l | _ => sample_loader end.

Lemma quiet_ok r fn context (reg : PluginRegistry (A := WorkshopService)) :
  acts_within (loaded reg) (fun r' => (0 < 0)%nat) (quiet_behaviour fn context r reg).
Proof. constructor. Qed.

Lemma sample_libraries_ok loads name owner owners : In owner owners ->
  acts_within owners (fun _ => True) (LoadCode (sample_library loads name) owner) /\
  acts_within owners (fun _ => True) (UnloadCode (sample_library loads name) owner).
Proof. intros Hin. split; [apply within_act; [done|done|intros _; constructor]|constructor]. Qed.

Lemma sample_loader_ok : loader_ok sample_loader.
Proof. split; [by apply host_ok_new|done]. Qed.

Lemma sample_loaded_ok : loader_ok sample_loaded.
Proof.
  destruct (LoadGroup_accounts quiet_behaviour 1 (sample_library (fun _ => true)) $"VoltModPlugin" $"0.1"
    (fun _ => 0%nat) quiet_ok (fun _ => le_n 1) (sample_libraries_ok _) sample_disk (fun _ => true) sample_loader sample_loader_ok)
    as (l' & E & Hl' & _).
  unfold sample_loaded, sample_load_all, LoadAll. by rewrite E.
Qed.

Lemma Loader_agrees_witness :
  exists l', sample_load_all (fun name => negb (text_eqb name $"zeta")) = Returns l' /\ loader_ok l' /\
    map Name (loaded_plugins l') = [$"alpha"] /\ refused_plugins l' = [($"broken", $"its manifest is not JSON"); ($"zeta", $"no database")].
Proof.
  destruct (Loader_agrees quiet_behaviour 1 (sample_library (fun name => negb (text_eqb name $"zeta")))
    $"VoltModPlugin" $"0.1" (fun _ => 0%nat) quiet_ok (fun _ => le_n 1) (sample_libraries_ok _) sample_disk
    (fun _ => sample_disk) sample_loader sample_loader_ok)
    as [(l' & E & Hl' & _) _].
  exists l'. split; [exact E|]. split; [exact Hl'|].
  assert (sample_load_all (fun name => negb (text_eqb name $"zeta")) = Returns l') as E2 by exact E.
  revert E2. vm_compute. intros [= <-]. done.
Defined.

Lemma requests_keep_dependencies_witness :
  closed sample_loaded /\ requires $"zeta" (loaded_plugins sample_loaded) $"alpha" /\
  exists l', RunUnload quiet_behaviour 1 (sample_library (fun _ => true)) $"zeta" sample_loaded = Returns l' /\
    loaded_plugins l' = loaded_plugins sample_loaded.
Proof.
  assert (closed sample_loaded) as Hc.
  { intros m d. replace (loaded_plugins sample_loaded) with (rev (Plugins sample_disk)) by (by vm_compute).
    intros [<-|[<-|[]]]; cbn; [|done]. intros [<-|[]]. by vm_compute. }
  assert (requires $"zeta" (loaded_plugins sample_loaded) $"alpha") as Hr.
  { apply (requires_directly _ _ (plain_manifest $"alpha" [$"zeta"])); [|done|by left]. left. by vm_compute. }
  split; [exact Hc|]. split; [exact Hr|].
  destruct (requests_keep_dependencies quiet_behaviour 1 (sample_library (fun _ => true)) $"VoltModPlugin" $"0.1"
    (fun _ => 0%nat) quiet_ok (fun _ => le_n 1) (sample_libraries_ok _) sample_disk sample_loaded $"zeta" sample_loaded_ok Hc)
    as (_ & (l' & E & _ & Hkeep) & _).
  exists l'. split; [exact E|]. exact (Hkeep _ Hr).
Defined.

(** A dependency whose own [Load] refuses does not keep its dependents from loading. *)
Example LoadAll_past_a_failed_dependency :
  exists l', sample_load_all (fun name => negb (text_eqb name $"zeta")) = Returns l' /\ ~ closed l'.
Proof.
  destruct (sample_load_all _) as [l'| |] eqn:E; revert E; vm_compute; [|done..]. intros [= <-]. eexists. split; [done|].
  intros Hc. refine (Hc _ _ (or_introl eq_refl) (or_introl eq_refl) _). by vm_compute.
Qed.

(** A reload takes [alpha]'s dependency down first: [alpha] was loaded before it. *)
Example reload_takes_the_dependency_down_first :
  reload_group $"zeta" sample_loaded = Returns [$"alpha"; $"zeta"] /\
  going [$"alpha"; $"zeta"] sample_loaded = [$"zeta"; $"alpha"].
Proof. by vm_compute. Qed.
