(* ===== verification/Loader.v ===== *)
(** * The loader in front of the game server: [src/Loader/Loader.cpp], [GameSearchPaths.cpp]

    The engine loads this module as its server library. It reads from [gameinfo.gi] where the next server library is, forwards every
    interface to it, and swaps four slots of the game's vtables to start and stop the host around the server's own calls. *)

From S2P Require Import Prelude Text.

(** ** [GameSearchPaths] *)

Definition is_blank_char (c : ascii) : bool := bool_decide (c = " "%char) || bool_decide (c = chr 9) || bool_decide (c = chr 13).
Definition quote_mark : ascii := chr 34.

Definition SameKey (left right : text) : bool := bool_decide (ToLower left = ToLower right).

(** The next word, and what is left of the line. *)
Definition NextWord (line : text) : text * text :=
  let line := drop (count_while is_blank_char line) line in
  match line with
  | [] => ([], [])
  | c :: rest =>
      if bool_decide (c = quote_mark) then
        let n := count_while (fun c => negb (bool_decide (c = quote_mark))) rest in (take n rest, drop (S n) rest)
      else let n := count_while (fun c => negb (is_blank_char c)) line in (take n line, drop n line)
  end.

Record Scanner := mkScanner { paths : list text; inSearchPaths : bool; depth : Z; stopped : bool }.
Definition Scanner_new : Scanner := mkScanner [] false 0 false.

Definition strip_comment (line : text) : text := match find $"//" line with Some at_ => take at_ line | None => line end.

(** One turn of the loop; [depth] is an [int]. *)
Definition scan_line (s : Scanner) (line : text) : Scanner :=
  if stopped s then s
  else
    let (key, line) := NextWord (strip_comment line) in
    match key with
    | [] => s
    | _ =>
        if negb (inSearchPaths s) then mkScanner (paths s) (SameKey key $"SearchPaths") (depth s) false
        else if bool_decide (key = $"{") then mkScanner (paths s) true (depth s + 1) false
        else if bool_decide (key = $"}") then mkScanner (paths s) true (depth s - 1) (depth s - 1 =? 0)
        else if (depth s =? 1) && SameKey key $"Game" then mkScanner (paths s ++ [(NextWord line).1]) true (depth s) false
        else s
    end.

Definition GameSearchPaths (gameinfo : text) : list text := paths (fold_left scan_line (split_lines [] gameinfo) Scanner_new).

(** ** [LoadNextServer] *)

(** What opening a server library under a search path gives: no such file, one that cannot be used, or its factory. *)
Inductive server_file (F : Type) := Missing | Unusable | Usable (factory : F).
Arguments Missing {F}.
Arguments Unusable {F}.
Arguments Usable {F}.

(** The first library that can be used, and the search paths warned about on the way. *)
Fixpoint first_server {F} (open : text -> server_file F) (searchPaths : list text) : option F * list text :=
  match searchPaths with
  | [] => (None, [])
  | path :: searchPaths =>
      match open path with
      | Missing => first_server open searchPaths
      | Unusable => let (found, warned) := first_server open searchPaths in (found, path :: warned)
      | Usable factory => (Some factory, [])
      end
  end.

Definition LoadNextServer {F} (dedicated : bool) (gameinfo : text) (open : text -> server_file F) : option F :=
  if negb dedicated then None else match gameinfo with [] => None | _ => (first_server open (GameSearchPaths gameinfo)).1 end.

(** ** The slots *)

Inductive slot := SConnect | SDisconnect | SInit | SShutdown.

(** A function in a slot: one of the loader's own, or another. *)
Inductive fn := Ours (s : slot) | Theirs (id : Z).

#[export] Instance slot_eq_dec : EqDecision slot.
Proof. solve_decision. Defined.

(** A slot of one vtable, and what is done. *)
Inductive happened := Called (id : Z) | HostStarted | HostStopped | HooksShutdown.

(** [next] is [CreateInterface]'s static; [vtables] is the memory the slots are in; [g_stopHost] is whether there is something to stop. *)
Record Loader := mkLoader {
  next : option (option Z);
  g_connect : option fn; g_disconnect : option fn; g_init : option fn; g_shutdown : option fn;
  EngineFactory : option Z; ServerFactory : option Z;
  g_stopHost : bool;
  vtables : Z -> slot -> fn;
  log : list happened }.

Definition Loader_new (vtables : Z -> slot -> fn) : Loader := mkLoader None None None None None None None false vtables [].

Definition happens (x : happened) (l : Loader) : Loader :=
  mkLoader (next l) (g_connect l) (g_disconnect l) (g_init l) (g_shutdown l) (EngineFactory l) (ServerFactory l) (g_stopHost l) (vtables l) (log l ++ [x]).
Definition set_next (n : option Z) (l : Loader) : Loader :=
  mkLoader (Some n) (g_connect l) (g_disconnect l) (g_init l) (g_shutdown l) (EngineFactory l) (ServerFactory l) (g_stopHost l) (vtables l) (log l).
Definition set_stop (b : bool) (l : Loader) : Loader :=
  mkLoader (next l) (g_connect l) (g_disconnect l) (g_init l) (g_shutdown l) (EngineFactory l) (ServerFactory l) b (vtables l) (log l).
Definition set_engine_factory (f : option Z) (l : Loader) : Loader :=
  mkLoader (next l) (g_connect l) (g_disconnect l) (g_init l) (g_shutdown l) f (ServerFactory l) (g_stopHost l) (vtables l) (log l).
Definition set_server_factory (f : option Z) (l : Loader) : Loader :=
  mkLoader (next l) (g_connect l) (g_disconnect l) (g_init l) (g_shutdown l) (EngineFactory l) f (g_stopHost l) (vtables l) (log l).

Definition slot_eqb (a b : slot) : bool := bool_decide (a = b).

(** [SwapSlot] of a vtable's slot: what it held is kept in the slot's global. *)
Definition SwapSlot (vtable : Z) (s : slot) (l : Loader) : Loader :=
  let original := Some (vtables l vtable s) in
  let vtables' := fun v t => if (v =? vtable) && slot_eqb t s then Ours s else vtables l v t in
  mkLoader (next l) (match s with SConnect => original | _ => g_connect l end) (match s with SDisconnect => original | _ => g_disconnect l end)
    (match s with SInit => original | _ => g_init l end) (match s with SShutdown => original | _ => g_shutdown l end)
    (EngineFactory l) (ServerFactory l) (g_stopHost l) vtables' (log l).

(** What the host's library is when it is opened: not there, without its two exports, or one whose start says yes or no. *)
Inductive host_library := NoHost | NoExports | HostLibrary (starts : bool).

Section Loader.
  (** The engine's names of the two interfaces; [LoadNextServer]'s answer; the next factory's objects by interface name, as their vtables; the factory of the module a vtable is
      in; and the host's library as each start finds it. *)
  Context (INTERFACEVERSION_SERVERCONFIG INTERFACEVERSION_SERVERGAMEDLL : text)
    (server : option Z) (interface : text -> option Z) (FactoryAt : Z -> option Z) (host : host_library).

Definition Patch (name : text) (vtable : Z) (l : Loader) : Loader :=
  if bool_decide (name = INTERFACEVERSION_SERVERCONFIG) && bool_decide (g_connect l = None) then
    SwapSlot vtable SDisconnect (SwapSlot vtable SConnect l)
  else if bool_decide (name = INTERFACEVERSION_SERVERGAMEDLL) && bool_decide (g_init l = None) then
    SwapSlot vtable SShutdown (SwapSlot vtable SInit (set_server_factory (FactoryAt vtable) l))
  else l.

(** [FindNextFactory]: without a server the hooks' threads are joined, since the engine may unload this module now. *)
Definition FindNextFactory (l : Loader) : Loader :=
  match next l with
  | Some _ => l
  | None => set_next server (match server with None => happens HooksShutdown l | Some _ => l end)
  end.

Definition CreateInterface (name : text) (l : Loader) : option Z * Loader :=
  let l := FindNextFactory l in
  match next l with
  | Some (Some _) => match interface name with Some vtable => (Some vtable, Patch name vtable l) | None => (None, l) end
  | _ => (None, l)
  end.

Definition StartHost (l : Loader) : Loader :=
  match EngineFactory l, ServerFactory l with
  | Some _, Some _ => match host with HostLibrary true => set_stop true (happens HostStarted l) | _ => l end
  | _, _ => l
  end.

Definition StopHost (l : Loader) : Loader := if g_stopHost l then happens HostStopped (set_stop false l) else l.

(** A call through a function pointer. A null one is undefined; one of the loader's own calls itself again, without end. *)
Definition call_original (f : option fn) (l : Loader) : outcome Loader :=
  match f with Some (Theirs id) => Returns (happens (Called id) l) | Some (Ours _) => OutOfFuel | None => Undefined end.

(** What the engine calls through a slot: [factory] is what it hands [Connect]. *)
Definition call_slot (vtable : Z) (s : slot) (factory : option Z) (l : Loader) : outcome Loader :=
  match vtables l vtable s with
  | Theirs id => Returns (happens (Called id) l)
  | Ours SConnect => let l := set_engine_factory factory l in call_original (g_connect l) l
  | Ours SInit => let l := StartHost l in call_original (g_init l) l
  | Ours SShutdown => let l := StopHost l in call_original (g_shutdown l) l
  | Ours SDisconnect => let l := happens HooksShutdown (StopHost l) in call_original (g_disconnect l) l
  end.

(** What the engine does. *)
Inductive engine_op := Ask (name : text) | Call (vtable : Z) (s : slot) (factory : option Z).

Definition exec_engine (l : Loader) (op : engine_op) : outcome Loader :=
  match op with
  | Ask name => Returns (CreateInterface name l).2
  | Call vtable s factory => call_slot vtable s factory l
  end.

End Loader.

(** * Theorems *)

(** ** Files and their paths *)

(** A line of the file: a key and a value, each quoted or not, and what may stand around them. A lone word, such as a brace, is a key
    with no value. *)
Record setting := mkSetting {
  indent : text; key_quoted : bool; key : text; gap : text; value_quoted : bool; value : text; tail : text; comment : option text }.

Definition print_word (quoted : bool) (word : text) : text := if quoted then quote_mark :: word ++ [quote_mark] else word.

Definition print_body (s : setting) : text := indent s ++ print_word (key_quoted s) (key s) ++ gap s ++ print_word (value_quoted s) (value s) ++ tail s.

Definition print_setting (s : setting) : text := print_body s ++ match comment s with Some c => $"//" ++ c | None => [] end.

Definition blank (s : text) : bool := forallb is_blank_char s.
Definition bare (s : text) : bool := forallb (fun c => negb (is_blank_char c) && negb (bool_decide (c = quote_mark))) s.
Definition quotable (s : text) : bool := forallb (fun c => negb (bool_decide (c = quote_mark))) s.

(** What may follow a word: nothing, or a blank first; after a quoted one anything. *)
Definition follows (quoted : bool) (rest : text) : bool := quoted || match rest with [] => true | c :: _ => is_blank_char c end.

Definition setting_ok (s : setting) : bool :=
  blank (indent s) && blank (gap s) && negb (bool_decide (key s = [])) &&
  (if key_quoted s then quotable (key s) else bare (key s)) && (if value_quoted s then quotable (value s) else bare (value s)) &&
  follows (key_quoted s) (gap s ++ print_word (value_quoted s) (value s) ++ tail s) && follows (value_quoted s) (tail s) &&
  (value_quoted s || negb (bool_decide (value s = [])) || blank (tail s)) &&
  bool_decide (line_feed ∉ print_setting s) && bool_decide (find $"//" (print_body s) = None) &&
  match comment s with Some _ => negb (bool_decide (last (print_body s) = Some "/"%char)) | None => true end.

Lemma find_comment body c : find $"//" body = None -> last body <> Some "/"%char -> find $"//" (body ++ $"//" ++ c) = Some (length body).
Proof.
  induction body as [|a body IH]; intros Hf Hl; [done|]. cbn [app length].
  change (find $"//" (a :: ?s)) with (if is_prefix $"//" (a :: s) then Some O else option_map S (find $"//" s)).
  change (find $"//" (a :: body)) with (if is_prefix $"//" (a :: body) then Some O else option_map S (find $"//" body)) in Hf.
  destruct (is_prefix $"//" (a :: body)) eqn:Hp; [done|]. destruct (find $"//" body) eqn:Hb; [done|].
  destruct body as [|b body].
  - assert (a <> "/"%char) as Ha by (intros ->; by apply Hl). assert (is_prefix $"//" (a :: [] ++ $"//" ++ c) = false) as ->.
    { unfold is_prefix. change ($"//") with ["/"%char; "/"%char]. cbn [app]. destruct (Ascii.eqb_spec "/"%char a); [by subst|done]. }
    rewrite IH; [done|done|]. by cbn.
  - assert (is_prefix $"//" (a :: (b :: body) ++ $"//" ++ c) = false) as ->.
    { revert Hp. change ($"//") with ["/"%char; "/"%char]. cbn [is_prefix app]. done. }
    rewrite IH; [done|done|]. exact Hl.
Qed.

Lemma count_while_none {A} (p : A -> bool) s : match s with [] => true | c :: _ => negb (p c) end = true -> count_while p s = O.
Proof. destruct s as [|c s]; [done|]. cbn. by destruct (p c). Qed.

Lemma count_while_run {A} (p : A -> bool) w s : forallb p w = true -> count_while p s = O -> count_while p (w ++ s) = length w.
Proof. intros Hw Hs. induction w as [|x w IH]; cbn in *; [done|]. bools. rewrite H, IH; done. Qed.

Lemma blank_char_quote : is_blank_char quote_mark = false.
Proof. by vm_compute. Qed.

(** Taking a printed word off a line. *)
Lemma NextWord_printed (before : text) (quoted : bool) (word rest : text) :
  blank before = true -> (if quoted then quotable word else bare word) = true -> follows quoted rest = true -> (quoted = false -> word <> []) ->
  NextWord (before ++ print_word quoted word ++ rest) = (word, rest).
Proof.
  intros Hb Hw Hf Hne. unfold NextWord.
  assert (match print_word quoted word ++ rest with [] => true | c :: _ => negb (is_blank_char c) end = true) as Hhead.
  { destruct quoted; [by rewrite <- (negb_involutive true)|]. destruct word as [|c word]; [by destruct Hne|]. cbn in *.
    by apply andb_true_iff in Hw as [[Hw _]%andb_true_iff _]. }
  rewrite (count_while_run _ before) by (done || by apply count_while_none). rewrite drop_app_length. destruct quoted; cbn [print_word app].
  - rewrite bool_decide_true by done. rewrite <- app_assoc. cbn [app].
    rewrite (count_while_app _ word quote_mark rest) by (done || by rewrite bool_decide_true). by rewrite take_app_length, <- (Nat.add_1_r (length word)), <- drop_drop, drop_app_length.
  - destruct word as [|c word]; [by destruct Hne|]. cbn [app]. 
    assert (bool_decide (c = quote_mark) = false) as -> by by apply andb_true_iff in Hw as [[_ Hw%negb_true_iff]%andb_true_iff _].
    change (c :: word ++ rest) with ((c :: word) ++ rest). rewrite count_while_run; [by rewrite take_app_length, drop_app_length| |].
    + revert Hw. generalize (c :: word). intros l. induction l as [|x l IH]; [done|]. cbn. intros [[H _]%andb_true_iff Hl]%andb_true_iff. by rewrite H, IH.
    + apply count_while_none. destruct rest as [|d rest]; [done|]. cbn in Hf. by rewrite Hf.
Qed.

(** A line of the file. *)
Inductive file_line := Words (s : setting) | Nothing (before : text) (c : option text).

Definition print_line (l : file_line) : text :=
  match l with
  | Words s => print_setting s
  | Nothing before c => before ++ match c with Some c => $"//" ++ c | None => [] end
  end.

Definition line_ok (l : file_line) : bool :=
  match l with Words s => setting_ok s | Nothing before c => blank before && bool_decide (line_feed ∉ print_line l) end.

(** What the line's key is, if it has one. *)
Definition line_key (l : file_line) : option text := match l with Words s => Some (key s) | Nothing _ _ => None end.

Definition game_of (l : file_line) : list text := match l with Words s => if SameKey (key s) $"Game" then [value s] else [] | Nothing _ _ => [] end.

(** A [gameinfo.gi]: what comes before, the key of the block, its brace, its lines, its closing brace, and anything after. *)
Record gameinfo := mkGameinfo {
  prologue : list file_line; header : setting; between : list file_line; opening : setting; entries : list file_line; closing : setting; rest : text }.

Definition print_lines (ls : list file_line) : text := flat_map (fun l => print_line l ++ [line_feed]) ls.

Definition gameinfo_lines (g : gameinfo) : list file_line :=
  prologue g ++ [Words (header g)] ++ between g ++ [Words (opening g)] ++ entries g ++ [Words (closing g)].

Definition print_gameinfo (g : gameinfo) : text := print_lines (gameinfo_lines g) ++ rest g.

Definition key_is (p : text -> bool) (l : file_line) : bool := match line_key l with Some k => p k | None => false end.

Definition gameinfo_ok (g : gameinfo) : bool :=
  forallb line_ok (gameinfo_lines g) &&
  negb (existsb (key_is (fun k => SameKey k $"SearchPaths")) (prologue g)) && SameKey (key (header g)) $"SearchPaths" &&
  negb (existsb (key_is (fun _ => true)) (between g)) && bool_decide (key (opening g) = $"{") &&
  negb (existsb (key_is (fun k => bool_decide (k = $"{") || bool_decide (k = $"}"))) (entries g)) && bool_decide (key (closing g) = $"}").

Lemma strip_setting s : setting_ok s = true -> strip_comment (print_setting s) = print_body s.
Proof.
  unfold setting_ok. rewrite !andb_true_iff, !bool_decide_eq_true. intros [[[_ _] Hf] Hc]. unfold strip_comment, print_setting.
  destruct (comment s) as [c|]; [|by rewrite app_nil_r, Hf]. apply negb_true_iff, bool_decide_eq_false in Hc.
  by rewrite find_comment, take_app_length.
Qed.

Lemma blank_no_word s : blank s = true -> NextWord s = ([], []).
Proof.
  intros Hs. unfold NextWord. replace (drop (count_while is_blank_char s) s) with ([] : text); [done|].
  pose proof (count_while_run is_blank_char s [] Hs eq_refl) as H. rewrite app_nil_r in H. by rewrite H, drop_all.
Qed.

Lemma scan_words s st : setting_ok s = true -> stopped st = false ->
  scan_line st (print_setting s) =
  if negb (inSearchPaths st) then mkScanner (paths st) (SameKey (key s) $"SearchPaths") (depth st) false
  else if bool_decide (key s = $"{") then mkScanner (paths st) true (depth st + 1) false
  else if bool_decide (key s = $"}") then mkScanner (paths st) true (depth st - 1) (depth st - 1 =? 0)
  else if (depth st =? 1) && SameKey (key s) $"Game" then mkScanner (paths st ++ [value s]) true (depth st) false
  else st.
Proof.
  intros Hok Hs. unfold scan_line. rewrite Hs, strip_setting by done. revert Hok. unfold setting_ok, print_body. rewrite !andb_true_iff.
  intros [[[[[[[[[[Hi Hg] Hne] Hk] Hv] Hf1] Hf2] Ht] _] _] _]. apply negb_true_iff, bool_decide_eq_false in Hne.
  rewrite (NextWord_printed (indent s)) by (done || by intros).
  assert ((NextWord (gap s ++ print_word (value_quoted s) (value s) ++ tail s)).1 = value s) as ->; [|by destruct (key s)].
  destruct (value_quoted s || negb (bool_decide (value s = []))) eqn:Hvne.
  - rewrite NextWord_printed; [done..|]. intros Hq Hnil. by rewrite Hq, Hnil in Hvne.
  - apply orb_false_iff in Hvne as [Hq Hnil%negb_false_iff%bool_decide_eq_true]. rewrite Hq, Hnil in *. cbn [print_word app].
    rewrite blank_no_word; [done|]. unfold blank in *. rewrite forallb_app, Hg. by cbn in Ht.
Qed.

Lemma scan_nothing before c st : line_ok (Nothing before c) = true -> scan_line st (print_line (Nothing before c)) = st.
Proof.
  cbn [line_ok print_line]. intros [Hb _]%andb_true_iff. unfold scan_line. destruct (stopped st); [done|].
  assert (strip_comment (before ++ match c with Some c => $"//" ++ c | None => [] end) = before) as ->; [|by rewrite blank_no_word].
  assert (find $"//" before = None) as Hf.
  { apply find_none. intros a b ->. unfold blank in Hb. rewrite !forallb_app in Hb. apply andb_true_iff in Hb as [_ [Hb _]%andb_true_iff]. by vm_compute in Hb. }
  unfold strip_comment. destruct c as [c|]; [|by rewrite app_nil_r, Hf]. rewrite find_comment; [by rewrite take_app_length|done|].
  intros Hl. apply last_Some in Hl as [l ->]. unfold blank in Hb. rewrite forallb_app in Hb. by apply andb_true_iff in Hb as [_ Hb].
Qed.

Definition scan_lines (ls : list file_line) (st : Scanner) : Scanner := fold_left (fun st l => scan_line st (print_line l)) ls st.

Lemma line_ok_line_feed l : line_ok l = true -> line_feed ∉ print_line l.
Proof.
  destruct l as [s|before c]; cbn [line_ok].
  - unfold setting_ok. rewrite !andb_true_iff, !bool_decide_eq_true. by intros [[[_ H] _] _].
  - rewrite andb_true_iff, bool_decide_eq_true. by intros [_ H].
Qed.

Lemma print_lines_split ls rest : forallb line_ok ls = true ->
  split_lines [] (print_lines ls ++ rest) = map print_line ls ++ split_lines [] rest.
Proof.
  induction ls as [|l ls IH]; [done|]. cbn [forallb print_lines flat_map map]. intros [Hl Hls]%andb_true_iff.
  rewrite <- !app_assoc. cbn [app]. rewrite split_lines_line by by apply line_ok_line_feed. fold (print_lines ls). by rewrite IH.
Qed.

(** Outside the block only its key matters. *)
Lemma scan_prologue ls st : forallb line_ok ls = true -> existsb (key_is (fun k => SameKey k $"SearchPaths")) ls = false ->
  stopped st = false -> inSearchPaths st = false -> scan_lines ls st = st.
Proof.
  destruct st as [ps i d b]; cbn. intros Hok Hk -> ->. induction ls as [|l ls IH]; [done|]. cbn [forallb existsb scan_lines fold_left] in *.
  apply andb_true_iff in Hok as [Hl Hok]. apply orb_false_iff in Hk as [Hk Hks].
  assert (scan_line (mkScanner ps false d false) (print_line l) = mkScanner ps false d false) as ->; [|by apply IH].
  destruct l as [s|before c]; [|by apply scan_nothing]. cbn [print_line]. rewrite scan_words by done. by cbn in *; rewrite Hk.
Qed.

Lemma scan_between ls st : forallb line_ok ls = true -> existsb (key_is (fun _ => true)) ls = false -> scan_lines ls st = st.
Proof.
  intros Hok Hk. revert st; induction ls as [|l ls IH]; intros st; [done|]. cbn [forallb existsb scan_lines fold_left] in *.
  apply andb_true_iff in Hok as [Hl Hok]. apply orb_false_iff in Hk as [Hk Hks].
  destruct l as [s|before c]; [done|]. rewrite scan_nothing by done. by apply IH.
Qed.

Lemma scan_entries ls ps : forallb line_ok ls = true ->
  existsb (key_is (fun k => bool_decide (k = $"{") || bool_decide (k = $"}"))) ls = false ->
  scan_lines ls (mkScanner ps true 1 false) = mkScanner (ps ++ flat_map game_of ls) true 1 false.
Proof.
  intros Hok Hk. revert ps; induction ls as [|l ls IH]; intros ps; [by rewrite app_nil_r|]. cbn [scan_lines fold_left forallb existsb flat_map] in *.
  apply andb_true_iff in Hok as [Hl Hok]. apply orb_false_iff in Hk as [Hk Hks].
  assert (scan_line (mkScanner ps true 1 false) (print_line l) = mkScanner (ps ++ game_of l) true 1 false) as ->;
    [|rewrite app_assoc; by apply IH].
  destruct l as [s|before c]; [|rewrite scan_nothing by done; by rewrite app_nil_r]. cbn [print_line]. rewrite scan_words by done.
  unfold key_is in Hk. cbn [line_key] in Hk. apply orb_false_iff in Hk as [-> ->]. cbn [inSearchPaths negb depth paths game_of].
  destruct (SameKey (key s) $"Game"); [done|by rewrite app_nil_r].
Qed.

Lemma scan_stopped ls st : stopped st = true -> fold_left scan_line ls st = st.
Proof. intros Hs. induction ls as [|l ls IH]; [done|]. cbn. unfold scan_line at 2. by rewrite Hs. Qed.

(** The game's search paths are read back. Whatever stands before the [SearchPaths] block and after it, whatever other keys,
    comments, blank lines, indentation, quotes and trailing conditions are in it, and whatever the case of the keys: the paths are the
    values of the block's [Game] keys, in order. *)
Theorem GameSearchPaths_roundtrip g : gameinfo_ok g = true -> GameSearchPaths (print_gameinfo g) = flat_map game_of (entries g).
Proof.
  unfold gameinfo_ok. rewrite !andb_true_iff, !negb_true_iff, !bool_decide_eq_true. intros [[[[[[Hok Hp] Hh] Hb] Ho] He] Hc].
  unfold GameSearchPaths, print_gameinfo. rewrite print_lines_split by done. rewrite fold_left_app.
  assert (forall ls st, fold_left scan_line (map print_line ls) st = scan_lines ls st) as Hmap.
  { intros ls. unfold scan_lines. induction ls as [|l ls IH]; intros st; [done|]. apply IH. }
  rewrite Hmap. unfold gameinfo_lines in *. rewrite !forallb_app in Hok. cbn [forallb] in Hok. rewrite !andb_true_iff in Hok.
  destruct Hok as (Okp & [Okh _] & Okb & [Oko _] & Oke & [Okc _]).
  assert (forall a b st, scan_lines (a ++ b) st = scan_lines b (scan_lines a st)) as Happ by (intros; apply fold_left_app).
  assert (forall s st, scan_lines [Words s] st = scan_line st (print_setting s)) as Hone by done.
  rewrite !Happ. rewrite (scan_prologue (prologue g)); [|done..]. rewrite !Hone.
  rewrite (scan_words (header g)) by done. cbn [inSearchPaths Scanner_new negb depth paths]. rewrite Hh.
  rewrite (scan_between (between g)) by done. rewrite (scan_words (opening g)) by done. rewrite Ho. cbn [inSearchPaths negb depth paths].
  rewrite bool_decide_true by done. rewrite (scan_entries (entries g)) by done. rewrite (scan_words (closing g)) by done.
  rewrite Hc. rewrite bool_decide_false by done. rewrite (bool_decide_true ($"}" = $"}")) by done. cbn [inSearchPaths negb depth paths].
  by rewrite scan_stopped.
Qed.

Definition plain (k v : string) : file_line := Words (mkSetting [chr 9] false $k [chr 9; chr 9] false $v [] None).
Definition word (k : string) : setting := mkSetting [] false $k [] false [] [] None.

(** Quotes, other cases, a condition behind a value, Windows line ends, a comment, and what follows the block. *)
Definition sample_gameinfo : gameinfo :=
  mkGameinfo [Words (word "GameInfo"); Words (word "{"); plain "game" "cs2"]
    (mkSetting [] true $"searchpaths" [] false [] [chr 13] None) [Nothing [] (Some $" the order matters")] (word "{")
    [plain "Game_LowViolence" "csgo_lv"; plain "Game" "csgo/addons/metamod"; Nothing [chr 9] (Some $"Game old");
     Words (mkSetting [chr 9] true $"GAME" [" "%char] true $"my mods" $" [$WIN64]" (Some $" kept")); plain "Mod" "csgo"; plain "Game" "csgo"]
    (word "}") ($"Game" ++ [chr 9] ++ $"after" ++ [line_feed]).

Lemma GameSearchPaths_roundtrip_witness :
  GameSearchPaths (print_gameinfo sample_gameinfo) = [$"csgo/addons/metamod"; $"my mods"; $"csgo"].
Proof. rewrite (GameSearchPaths_roundtrip sample_gameinfo); [by vm_compute|by vm_compute]. Defined.

(** A brace on the key's own line is not seen, and then no path is. *)
Lemma brace_beside_key : GameSearchPaths ($"SearchPaths {" ++ [line_feed] ++ $"Game csgo" ++ [line_feed] ++ $"}" ++ [line_feed]) = [].
Proof. by vm_compute. Qed.

Lemma first_server_spec {F} (open : text -> server_file F) ps : forall found warned,
  first_server open ps = (found, warned) ->
  match found with
  | Some factory => exists before path after, ps = before ++ path :: after /\ open path = Usable factory /\
                    (forall p, p ∈ before -> forall f, open p <> Usable f) /\ (forall p, p ∈ warned -> p ∈ before /\ open p = Unusable)
  | None => (forall p, p ∈ ps -> forall f, open p <> Usable f) /\ (forall p, p ∈ warned -> p ∈ ps /\ open p = Unusable)
  end.
Proof.
  induction ps as [|path ps IH]; intros found warned; cbn [first_server].
  - intros [= <- <-]. split; intros p Hp; by apply elem_of_nil in Hp.
  - destruct (open path) as [| |factory] eqn:Ho.
    + intros H. specialize (IH _ _ H). destruct found as [f|].
      * destruct IH as (b & p & a & -> & Hp & Hb & Hw). exists (path :: b), p, a. split; [done|]. split; [done|].
        split; [intros q [->|Hq]%elem_of_cons g; [congruence|by apply Hb]|]. intros q Hq. destruct (Hw q Hq). split; [by right|done].
      * destruct IH as [Hb Hw]. split; [intros q [->|Hq]%elem_of_cons g; [congruence|by apply Hb]|]. intros q Hq. destruct (Hw q Hq). split; [by right|done].
    + destruct (first_server open ps) as [f w]. intros [= <- <-]. specialize (IH _ _ eq_refl). destruct f as [f|].
      * destruct IH as (b & p & a & -> & Hp & Hb & Hw). exists (path :: b), p, a. split; [done|]. split; [done|].
        split; [intros q [->|Hq]%elem_of_cons g; [congruence|by apply Hb]|]. intros q [->|Hq]%elem_of_cons; [split; [by left|done]|].
        destruct (Hw q Hq). split; [by right|done].
      * destruct IH as [Hb Hw]. split; [intros q [->|Hq]%elem_of_cons g; [congruence|by apply Hb]|]. intros q [->|Hq]%elem_of_cons; [split; [by left|done]|].
        destruct (Hw q Hq). split; [by right|done].
    + intros [= <- <-]. exists [], path, ps. split; [done|]. split; [done|]. split; intros p Hp; by apply elem_of_nil in Hp.
Qed.

(** ** The engine's calls *)

(** A slot's global. *)
Definition kept_original (s : slot) (l : Loader) : option fn :=
  match s with SConnect => g_connect l | SDisconnect => g_disconnect l | SInit => g_init l | SShutdown => g_shutdown l end.

Section Transparent.
  Context (INTERFACEVERSION_SERVERCONFIG INTERFACEVERSION_SERVERGAMEDLL : text).
  Context (server : option Z) (interface : text -> option Z) (FactoryAt : Z -> option Z) (host : host_library).
  (** What the slots held before the loader came, and none of it is the loader's. *)
  Context (original : Z -> slot -> Z).

Abbreviation exec := (exec_engine INTERFACEVERSION_SERVERCONFIG INTERFACEVERSION_SERVERGAMEDLL server interface FactoryAt host).

(** A slot is as it was, or one vtable's was swapped and what it held kept. *)
Definition slot_ok (l : Loader) (s : slot) : Prop :=
  match kept_original s l with
  | None => forall v, vtables l v s = Theirs (original v s)
  | Some f => exists v0, f = Theirs (original v0 s) /\ forall v, vtables l v s = if v =? v0 then Ours s else Theirs (original v s)
  end.

Record slots_ok (l : Loader) : Prop := {
  sl_slot : forall s, slot_ok l s;
  sl_config : g_connect l = None <-> g_disconnect l = None;
  sl_game : g_init l = None <-> g_shutdown l = None }.

(** Whether the host runs, after some of what happened; [None] when it was started twice, stopped while it did not run, or the hooks'
    threads were joined under it. *)
Fixpoint host_runs (running : bool) (h : list happened) : option bool :=
  match h with
  | [] => Some running
  | HostStarted :: h => if running then None else host_runs true h
  | HostStopped :: h => if running then host_runs false h else None
  | HooksShutdown :: h => if running then None else host_runs running h
  | Called _ :: h => host_runs running h
  end.

Definition calls_of (h : list happened) : list Z := flat_map (fun x => match x with Called id => [id] | _ => [] end) h.

(** The engine starts its server once before it shuts it down or disconnects it, and asks for interfaces before that. *)
Definition op_in_order (l : Loader) (op : engine_op) : Prop :=
  match op with Call v SInit _ => vtables l v SInit = Ours SInit -> g_stopHost l = false | Ask _ => next l = None -> g_stopHost l = false | _ => True end.

Fixpoint in_order (l : Loader) (ops : list engine_op) : Prop :=
  match ops with
  | [] => True
  | op :: ops => op_in_order l op /\ match exec l op with Returns l => in_order l ops | _ => True end
  end.

Definition called_by (op : engine_op) : list Z := match op with Call v s _ => [original v s] | Ask _ => [] end.

Lemma host_runs_app a b x : host_runs a (b ++ x) = match host_runs a b with Some r => host_runs r x | None => None end.
Proof. revert a; induction b as [|[] b IH]; intros []; cbn; try done; apply IH. Qed.

Lemma SwapSlot_ok v s l : (forall t, slot_ok l t) -> kept_original s l = None -> forall t, slot_ok (SwapSlot v s l) t.
Proof.
  unfold slot_ok. intros H Hs t. destruct (decide (t = s)) as [->|Hne].
  - pose proof (H s) as Hold. rewrite Hs in Hold. assert (kept_original s (SwapSlot v s l) = Some (vtables l v s)) as -> by by destruct s.
    exists v. split; [by rewrite Hold|]. intros w. cbn. unfold slot_eqb. rewrite bool_decide_true by done. rewrite andb_true_r. by destruct (w =? v).
  - assert (kept_original t (SwapSlot v s l) = kept_original t l) as -> by by destruct s, t.
    assert (forall w, vtables (SwapSlot v s l) w t = vtables l w t) as Hv.
    { intros w. cbn. unfold slot_eqb. rewrite bool_decide_false by done. by rewrite andb_false_r. }
    specialize (H t). destruct (kept_original t l); setoid_rewrite Hv; done.
Qed.

Lemma Patch_ok name vtable l : slots_ok l ->
  let l' := Patch INTERFACEVERSION_SERVERCONFIG INTERFACEVERSION_SERVERGAMEDLL FactoryAt name vtable l in
  slots_ok l' /\ log l' = log l /\ g_stopHost l' = g_stopHost l /\ next l' = next l.
Proof.
  intros [H Hc Hg]. unfold Patch. destruct (_ && bool_decide (g_connect l = None)) eqn:E1.
  - apply andb_true_iff in E1 as [_ E1%bool_decide_eq_true]. split; [|done]. constructor; [|done|done].
    apply SwapSlot_ok; [by apply SwapSlot_ok|]. cbn. by apply Hc.
  - destruct (_ && bool_decide (g_init l = None)) eqn:E2; [|done].
    apply andb_true_iff in E2 as [_ E2%bool_decide_eq_true]. split; [|done]. constructor; [|done|done].
    apply SwapSlot_ok; [by apply SwapSlot_ok|]. cbn. by apply Hg.
Qed.

(** What [l] holds, apart from its slots: the host as its history says. *)
Definition loader_ok (l : Loader) : Prop := slots_ok l /\ host_runs false (log l) = Some (g_stopHost l).

Lemma CreateInterface_ok name l : loader_ok l -> (next l = None -> g_stopHost l = false) ->
  let l' := (CreateInterface INTERFACEVERSION_SERVERCONFIG INTERFACEVERSION_SERVERGAMEDLL server interface FactoryAt name l).2 in
  loader_ok l' /\ calls_of (log l') = calls_of (log l).
Proof.
  intros [Hs Hr] Hn. unfold CreateInterface.
  assert (loader_ok (FindNextFactory server l) /\ calls_of (log (FindNextFactory server l)) = calls_of (log l)) as [[Hs1 Hr1] Hc].
  { unfold FindNextFactory. destruct (next l) as [n|]; [done|]. specialize (Hn eq_refl). destruct server as [f|]; cbn; [by repeat split; try apply Hs|].
    split; [split; [by split; try apply Hs|]|].
    - cbn. by rewrite host_runs_app, Hr, Hn.
    - unfold calls_of. rewrite flat_map_app. by rewrite app_nil_r. }
  destruct (next (FindNextFactory server l)) as [[f|]|]; [|done|done]. destruct (interface name) as [vtable|]; [|done]. cbn [snd].
  destruct (Patch_ok name vtable _ Hs1) as (P1 & P2 & P3 & _). unfold loader_ok. by rewrite P2, P3.
Qed.

Lemma calls_of_app a b : calls_of (a ++ b) = calls_of a ++ calls_of b.
Proof. apply flat_map_app. Qed.

Lemma StopHost_ok l : loader_ok l -> loader_ok (StopHost l) /\ g_stopHost (StopHost l) = false /\ calls_of (log (StopHost l)) = calls_of (log l) /\
  forall s, kept_original s (StopHost l) = kept_original s l.
Proof.
  intros [Hs Hr]. unfold StopHost. destruct (g_stopHost l) eqn:Hg; [|split; [by split; rewrite ?Hg|done]].
  split; [split; [by split; try apply Hs|cbn; by rewrite host_runs_app, Hr]|]. split; [done|]. split; [|by intros []].
  cbn. by rewrite calls_of_app, app_nil_r.
Qed.

Lemma StartHost_ok l : loader_ok l -> g_stopHost l = false -> loader_ok (StartHost host l) /\ calls_of (log (StartHost host l)) = calls_of (log l) /\
  forall s, kept_original s (StartHost host l) = kept_original s l.
Proof.
  intros [Hs Hr] Hg. unfold StartHost. destruct (EngineFactory l), (ServerFactory l), host as [| |[]]; try done.
  split; [split; [by split; try apply Hs|cbn; by rewrite host_runs_app, Hr, Hg]|]. split; [|by intros []].
  cbn. by rewrite calls_of_app, app_nil_r.
Qed.

Lemma called_ok l id : loader_ok l -> loader_ok (happens (Called id) l) /\ calls_of (log (happens (Called id) l)) = calls_of (log l) ++ [id].
Proof.
  intros [Hs Hr]. split; [split; [by split; try apply Hs|cbn; by rewrite host_runs_app, Hr]|]. cbn. by rewrite calls_of_app.
Qed.

(** A swapped slot leads to what it held. *)
Lemma original_called l s v : slots_ok l -> vtables l v s = Ours s -> kept_original s l = Some (Theirs (original v s)).
Proof.
  intros [H _ _] Hv. specialize (H s). unfold slot_ok in H. destruct (kept_original s l) as [f|]; [|by rewrite H in Hv].
  destruct H as (v0 & -> & H). rewrite H in Hv. destruct (Z.eqb_spec v v0); [by subst|done].
Qed.

Lemma own_slot l s v t : slots_ok l -> vtables l v s = Ours t -> t = s.
Proof.
  intros [H _ _] Hv. specialize (H s). unfold slot_ok in H. destruct (kept_original s l) as [f|]; [|by rewrite H in Hv].
  destruct H as (v0 & _ & H). rewrite H in Hv. destruct (v =? v0); congruence.
Qed.

Lemma exec_ok l op : loader_ok l -> op_in_order l op ->
  exists l', exec l op = Returns l' /\ loader_ok l' /\ calls_of (log l') = calls_of (log l) ++ called_by op.
Proof.
  intros Hok Ho. pose proof Hok as [Hs Hr]. destruct op as [name|v s factory].
  { destruct (CreateInterface_ok name l Hok Ho) as [H1 H2]. eexists. split; [done|]. by rewrite app_nil_r. }
  cbn [exec_engine called_by]. unfold call_slot. destruct (vtables l v s) as [t|id] eqn:Hv.
  2: { assert (id = original v s) as ->.
       { pose proof (sl_slot l Hs s) as H. unfold slot_ok in H. destruct (kept_original s l); [destruct H as (v0 & _ & H)|]; rewrite H in Hv; [|congruence].
         destruct (v =? v0); congruence. }
       destruct (called_ok l (original v s) Hok) as [H1 H2]. by eexists. }
  pose proof (own_slot _ _ _ _ Hs Hv) as ->. pose proof (original_called _ _ _ Hs Hv) as Horig.
  destruct s; cbn [kept_original] in Horig.
  - cbn [g_connect set_engine_factory]. rewrite Horig. cbn [call_original].
    destruct (called_ok (set_engine_factory factory l) (original v SConnect)) as [H1 H2]; [by split; [by split; try apply Hs|]|]. by eexists.
  - destruct (StopHost_ok l Hok) as ([Hs1 Hr1] & Hg & Hc & Hk). cbn [g_disconnect happens]. pose proof (Hk SDisconnect) as Hd. cbn in Hd. rewrite Hd, Horig. cbn [call_original].
    destruct (called_ok (happens HooksShutdown (StopHost l)) (original v SDisconnect)) as [H1 H2].
    { split; [by split; try apply Hs1|]. cbn. rewrite host_runs_app, Hr1, Hg. done. }
    eexists. split; [done|]. split; [done|]. rewrite H2. cbn. by rewrite calls_of_app, app_nil_r, Hc.
  - destruct (StartHost_ok l Hok) as (Hok1 & Hc & Hk); [by apply Ho|]. pose proof (Hk SInit) as Hd. cbn in Hd. rewrite Hd, Horig. cbn [call_original].
    destruct (called_ok (StartHost host l) (original v SInit) Hok1) as [H1 H2]. eexists. split; [done|]. split; [done|]. by rewrite H2, Hc.
  - destruct (StopHost_ok l Hok) as (Hok1 & Hg & Hc & Hk). pose proof (Hk SShutdown) as Hd. cbn in Hd. rewrite Hd, Horig. cbn [call_original].
    destruct (called_ok (StopHost l) (original v SShutdown) Hok1) as [H1 H2]. eexists. split; [done|]. split; [done|]. by rewrite H2, Hc.
Qed.

(** C34. The loader cannot be told from the server behind it. Whatever interfaces the engine asks for and whatever it calls through the
    slots, in any order in which it starts a server once before shutting it down: every call returns, and what is called behind the
    loader is exactly what the slots held, once per call and in the engine's order - never the loader's own function again; and the
    host is started and stopped in turn, and never runs when the hooks' threads are joined. *)
Theorem loader_transparent ops : in_order (Loader_new (fun v s => Theirs (original v s))) ops ->
  exists l, outcome_fold exec ops (Loader_new (fun v s => Theirs (original v s))) = Returns l /\
    calls_of (log l) = flat_map called_by ops /\ host_runs false (log l) = Some (g_stopHost l).
Proof.
  set (l0 := Loader_new _). intros Hin. assert (loader_ok l0) as Hok by (split; [split; [by intros []|done|done]|done]).
  assert (exists l, outcome_fold exec ops l0 = Returns l /\ calls_of (log l) = calls_of (log l0) ++ flat_map called_by ops /\ loader_ok l) as (l & H1 & H2 & _ & H3);
    [|by exists l].
  revert Hin Hok. generalize l0. clear. induction ops as [|op ops IH]; intros l Hin Hok; [exists l; by rewrite app_nil_r|].
  destruct Hin as [Ho Hin]. destruct (exec_ok l op Hok Ho) as (l1 & He & Hok1 & Hc). cbn [outcome_fold flat_map]. rewrite He in Hin |- *. cbn [outcome_bind].
  destruct (IH l1 Hin Hok1) as (l' & H1 & H2 & H3). exists l'. split; [done|]. split; [|done]. by rewrite H2, Hc, app_assoc.
Qed.

End Transparent.

(** A server's life: two interfaces, two of them again, a start, a shutdown and a disconnect. *)
Definition sample_ops : list engine_op :=
  [Ask $"config"; Ask $"other"; Call 1 SConnect (Some 9); Ask $"server"; Ask $"config"; Call 2 SInit None; Call 1 SInit None; Ask $"server";
   Call 2 SShutdown None; Call 1 SDisconnect None].
Definition sample_interface (name : text) : option Z :=
  if bool_decide (name = $"config") then Some 1 else if bool_decide (name = $"server") then Some 2 else None.
Definition sample_original (v : Z) (s : slot) : Z := 10 * v + match s with SConnect => 1 | SDisconnect => 2 | SInit => 3 | SShutdown => 4 end.

Lemma loader_transparent_witness :
  exists l, outcome_fold (exec_engine $"config" $"server" (Some 5) sample_interface (fun v => Some (v + 100)) (HostLibrary true)) sample_ops
              (Loader_new (fun v s => Theirs (sample_original v s))) = Returns l /\
    calls_of (log l) = [11; 23; 13; 24; 12] /\
    log l = [Called 11; HostStarted; Called 23; Called 13; HostStopped; Called 24; HooksShutdown; Called 12].
Proof.
  destruct (loader_transparent $"config" $"server" (Some 5) sample_interface (fun v => Some (v + 100)) (HostLibrary true) sample_original sample_ops)
    as (l & H1 & H2 & _); [by vm_compute|].
  exists l. split; [exact H1|]. split; [exact H2|]. revert H1. vm_compute. by intros [= <-].
Defined.
