(* ===== verification/Signatures.v ===== *)
(** * Signature scanning: [Engine/Memory/BytePattern.cpp], [SigScanner.cpp], [RelativeAddress.hpp]

    Patterns, the search for them over mapped memory, and the relative address a match leads to. *)
From S2P Require Import Prelude Text.

(** ** [BytePattern] *)

Record PatternByte := mkByte { ByteValue : Z; Wildcard : bool }.

(** [ByteHistogram]: 256 counters of [size_t]. *)
Abbreviation ByteHistogram := (list Z) (only parsing).

Definition empty_histogram : ByteHistogram := replicate 256 0.

(** [while (stream >> token)]: the words of a stream. *)
Fixpoint stream_words (word : text) (s : text) : list text :=
  match s with
  | [] => match word with [] => [] | _ => [word] end
  | c :: rest =>
      if is_space c then match word with [] => stream_words [] rest | _ => word :: stream_words [] rest end
      else stream_words (word ++ [c]) rest
  end.

(** One token: a byte, a wildcard, or neither. *)
Definition parse_token (token : text) : option PatternByte :=
  if text_eqb token $"?" || text_eqb token $"??" then Some (mkByte 0 true)
  else match parse_whole 16 0 uint32_max token with
       | None => None
       | Some value => if 255 <? value then None else Some (mkByte value false)
       end.

Definition ParsePattern (pattern : text) : list PatternByte :=
  default [] (mapM parse_token (stream_words [] pattern)).

Definition CountBytes (bytes : list Z) (counts : ByteHistogram) : ByteHistogram :=
  fold_left (fun counts b => alter (fun n => wrap_u64 (n + 1)) (Z.to_nat b) counts) bytes counts.

Fixpoint anchor_loop (frequencies : ByteHistogram) (i : nat) (pattern : list PatternByte) (rarest : Z) (anchor : nat) : nat :=
  match pattern with
  | [] => anchor
  | p :: rest =>
      if Wildcard p then anchor_loop frequencies (S i) rest rarest anchor
      else let count := default 0 (frequencies !! Z.to_nat (ByteValue p)) in
           if count <? rarest then anchor_loop frequencies (S i) rest count i
           else anchor_loop frequencies (S i) rest rarest anchor
  end.

Definition AnchorOf (pattern : list PatternByte) (frequencies : ByteHistogram) : nat :=
  anchor_loop frequencies 0 pattern uint64_max (length pattern).

(** The bytes from [at] on; a read past them is undefined. *)
Fixpoint Matches (bytes : list Z) (pattern : list PatternByte) : outcome bool :=
  match pattern with
  | [] => Returns true
  | p :: rest =>
      if Wildcard p then Matches (tail bytes) rest
      else match bytes with
           | [] => Undefined
           | b :: bytes' => if b =? ByteValue p then Matches bytes' rest else Returns false
           end
  end.

Fixpoint index_of (wanted : Z) (bytes : list Z) : option nat :=
  match bytes with
  | [] => None
  | b :: rest => if b =? wanted then Some O else S <$> index_of wanted rest
  end.

(** [std::memchr] over [count] bytes from [from]; all of them must be there. *)
Definition memchr (memory : list Z) (from count : nat) (wanted : Z) : outcome (option nat) :=
  if (from + count <=? length memory)%nat
  then Returns (Nat.add from <$> index_of wanted (take count (drop from memory)))
  else Undefined.

(** The loop of [FindFirst]; every turn moves [at] on, so there are at most [lastStart + 1] of them. *)
Fixpoint find_loop (memory : list Z) (pattern : list PatternByte) (anchor lastStart : nat) (wanted : Z) (fuel at_ : nat)
    : outcome (option nat) :=
  if (lastStart <? at_)%nat then Returns None
  else match fuel with
       | O => OutOfFuel
       | S f =>
           run! found := memchr memory (at_ + anchor) (lastStart - at_ + 1) wanted in
           match found with
           | None => Returns None
           | Some p =>
               let at_ := (p - anchor)%nat in
               run! matched := Matches (drop at_ memory) pattern in
               if matched : bool then Returns (Some at_) else find_loop memory pattern anchor lastStart wanted f (S at_)
           end
       end.

(** [base] is [None] for a null pointer; a match is its offset. *)
Definition FindFirst (base : option (list Z)) (pattern : list PatternByte) (anchor : nat) : outcome (option nat) :=
  match base with
  | None => Returns None
  | Some memory =>
      match pattern with
      | [] => Returns None
      | _ =>
          if (length memory <? length pattern)%nat then Returns None
          else
            let lastStart := (length memory - length pattern)%nat in
            match pattern !! anchor with
            | None => Returns (Some O)
            | Some p => find_loop memory pattern anchor lastStart (ByteValue p) (S lastStart) 0
            end
      end
  end.

(** ** [SigScanner] *)

(** A mapped module, and the path of the file behind it. *)
Record Image := mkImage { ImageBase : Z; ImageSize : Z; Path : text }.

(** A readable range: where it starts, and its bytes. *)
Record ScanRange := mkRange { RangeBase : Z; RangeBytes : list Z }.

Record ScanResult := mkScanResult { Address : option Z; Unique : bool; ScannedModule : option Image }.

(** The function's static cache, by base address. *)
Definition FrequenciesOf (cache : gmap Z ByteHistogram) (module : Image) (ranges : list ScanRange)
    : ByteHistogram * gmap Z ByteHistogram :=
  match cache !! ImageBase module with
  | Some counts => (counts, cache)
  | None =>
      let counts := fold_left (fun counts range => CountBytes (RangeBytes range) counts) ranges empty_histogram in
      (counts, <[ImageBase module := counts]> cache)
  end.

(** The loop over one range: the first match so far, and whether a second one ended the scan. *)
Fixpoint scan_range (range : ScanRange) (pattern : list PatternByte) (anchor : nat) (fuel at_ : nat) (first : option Z)
    : outcome (option Z * bool) :=
  if (length (RangeBytes range) <=? at_)%nat then Returns (first, false)
  else match fuel with
       | O => OutOfFuel
       | S f =>
           run! hit := FindFirst (Some (drop at_ (RangeBytes range))) pattern anchor in
           match hit with
           | None => Returns (first, false)
           | Some offset =>
               match first with
               | Some _ => Returns (first, true)
               | None =>
                   scan_range range pattern anchor f (at_ + offset + 1)
                     (Some (RangeBase range + Z.of_nat (at_ + offset)))
               end
           end
       end.

Fixpoint scan_ranges (ranges : list ScanRange) (pattern : list PatternByte) (anchor : nat) (first : option Z)
    : outcome (option Z * bool) :=
  match ranges with
  | [] => Returns (first, false)
  | range :: rest =>
      run! (first', ambiguous) := scan_range range pattern anchor (length (RangeBytes range)) 0 first in
      if ambiguous : bool then Returns (first', true) else scan_ranges rest pattern anchor first'
  end.

(** [found] is what [FindModuleAndRanges] gives for the platform's file name. *)
Definition FindPatternEx (cache : gmap Z ByteHistogram) (found : option (Image * list ScanRange)) (pattern : text)
    : outcome (ScanResult * gmap Z ByteHistogram) :=
  match found with
  | None => Returns (mkScanResult None true None, cache)
  | Some (module, ranges) =>
      let bytes := ParsePattern pattern in
      let '(frequencies, cache') := FrequenciesOf cache module ranges in
      let anchor := AnchorOf bytes frequencies in
      run! (first, ambiguous) := scan_ranges ranges bytes anchor None in
      Returns (mkScanResult first (negb ambiguous) (Some module), cache')
  end.

(** ** [RelativeAddress]: [uintptr_t] arithmetic modulo 2^64 *)

Definition Rel32Size : Z := 4.

Definition Rel32Site (matchAddress ripOffset : Z) : Z := wrap_u64 (matchAddress + wrap_u64 ripOffset).

Definition Rel32Target (site displacement ripSize : Z) : Z :=
  wrap_u64 (wrap_u64 (site + wrap_u64 ripSize) + wrap_u64 displacement).

Definition Rel32ReadInBounds (moduleBase moduleSize matchAddress ripOffset : Z) : bool :=
  if (ripOffset <? 0) || (matchAddress <? moduleBase) then false
  else
    let moduleEnd := wrap_u64 (moduleBase + moduleSize) in
    let site := Rel32Site matchAddress ripOffset in
    if (site <? matchAddress) || (moduleEnd <=? site) then false
    else Rel32Size <=? wrap_u64 (moduleEnd - site).

(** Four bytes, the low one first, as an [int32_t]. *)
Definition read_int32 (memory : Z -> option Z) (site : Z) : outcome Z :=
  match memory site, memory (site + 1), memory (site + 2), memory (site + 3) with
  | Some b0, Some b1, Some b2, Some b3 =>
      let v := b0 + Z.shiftl b1 8 + Z.shiftl b2 16 + Z.shiftl b3 24 in
      Returns (if v <=? int32_max then v else v - 4294967296)
  | _, _, _, _ => Undefined
  end.

(** [memory] is what can be read; [ImageBase] is 0 for a null base. *)
Definition ResolveRelativeAddress (memory : Z -> option Z) (module : Image) (matchAddress ripOffset ripSize : Z) : outcome Z :=
  if (matchAddress =? 0) || (ImageBase module =? 0) then Returns 0
  else if negb (Rel32ReadInBounds (ImageBase module) (ImageSize module) matchAddress ripOffset) then Returns 0
  else
    let site := Rel32Site matchAddress ripOffset in
    run! displacement := read_int32 memory site in
    Returns (Rel32Target site displacement ripSize).

(** ** The reference: try every offset *)

(** Whether [pattern] matches at the start of [bytes]. *)
Fixpoint prefix_matches (pattern : list PatternByte) (bytes : list Z) : bool :=
  match pattern, bytes with
  | [], _ => true
  | p :: ps, b :: bs => (Wildcard p || (b =? ByteValue p)) && prefix_matches ps bs
  | _ :: _, [] => false
  end.

Definition matches_at (pattern : list PatternByte) (bytes : list Z) (i : nat) : bool := prefix_matches pattern (drop i bytes).

(** The offsets of all matches from [at_] on; the empty pattern matches nowhere. *)
Definition hits_from (pattern : list PatternByte) (bytes : list Z) (at_ : nat) : list nat :=
  match pattern with
  | [] => []
  | _ => List.filter (matches_at pattern bytes) (seq at_ (length bytes - at_))
  end.

Definition hits (pattern : list PatternByte) (ranges : list ScanRange) : list Z :=
  flat_map (fun r => map (fun i => RangeBase r + Z.of_nat i) (hits_from pattern (RangeBytes r) 0)) ranges.

(** ** Searching one stretch of memory *)

Lemma prefix_matches_length pattern bytes : prefix_matches pattern bytes = true -> (length pattern <= length bytes)%nat.
Proof.
  revert bytes. induction pattern as [|p ps IH]; intros [|b bs]; cbn; try (lia || done).
  rewrite andb_true_iff. intros [_ H]. apply IH in H. lia.
Qed.

Lemma Matches_spec bytes pattern :
  (length pattern <= length bytes)%nat -> Matches bytes pattern = Returns (prefix_matches pattern bytes).
Proof.
  revert bytes. induction pattern as [|p ps IH]; intros [|b bs] Hl; cbn in *; try (lia || done).
  destruct (Wildcard p); cbn; [apply IH; lia|]. destruct (b =? ByteValue p); cbn; [apply IH; lia|done].
Qed.

Lemma prefix_matches_lookup pattern bytes j p :
  prefix_matches pattern bytes = true -> pattern !! j = Some p -> Wildcard p = false -> bytes !! j = Some (ByteValue p).
Proof.
  revert bytes j. induction pattern as [|q ps IH]; intros [|b bs] [|j]; cbn; try done; rewrite andb_true_iff; intros [H1 H2].
  - intros [= ->] Hw. rewrite Hw in H1. cbn in H1. apply Z.eqb_eq in H1 as ->. done.
  - intros Hp Hw. by apply IH.
Qed.

Lemma prefix_matches_wild pattern bytes :
  (forall j p, pattern !! j = Some p -> Wildcard p = true) -> (length pattern <= length bytes)%nat ->
  prefix_matches pattern bytes = true.
Proof.
  revert bytes. induction pattern as [|p ps IH]; intros [|b bs] Hw Hl; cbn in *; try (lia || done).
  rewrite (Hw O p eq_refl). cbn. apply IH; [|lia]. intros j. apply (Hw (S j)).
Qed.

Lemma index_of_some wanted bytes i :
  index_of wanted bytes = Some i -> bytes !! i = Some wanted /\ forall j, (j < i)%nat -> bytes !! j <> Some wanted.
Proof.
  revert i. induction bytes as [|b bytes IH]; intros i; cbn; [done|]. destruct (Z.eqb_spec b wanted) as [->|Hb].
  - intros [= <-]. split; [done|lia].
  - destruct (index_of wanted bytes) as [i'|]; [|done]. intros [= <-]. destruct (IH i' eq_refl) as [Hi Hj].
    split; [done|]. intros [|j] Hlt; cbn; [congruence|]. apply Hj. lia.
Qed.

Lemma index_of_none wanted bytes j : index_of wanted bytes = None -> bytes !! j <> Some wanted.
Proof.
  revert j. induction bytes as [|b bytes IH]; intros j; cbn; [done|]. destruct (Z.eqb_spec b wanted) as [->|Hb]; [done|].
  destruct (index_of wanted bytes); [done|]. intros _. destruct j; cbn; [congruence|by apply IH].
Qed.

(** The first offset at [at_] or after it, below [n], that satisfies [P]. *)
Definition is_first (P : nat -> bool) (at_ n : nat) (r : option nat) : Prop :=
  match r with
  | Some k => (at_ <= k < n)%nat /\ P k = true /\ forall i, (at_ <= i < k)%nat -> P i = false
  | None => forall i, (at_ <= i < n)%nat -> P i = false
  end.

Lemma is_first_from P at_ at' n r :
  (at_ <= at')%nat -> (forall i, (at_ <= i < at')%nat -> P i = false) -> is_first P at' n r -> is_first P at_ n r.
Proof.
  intros Hle Hno. destruct r as [k|]; cbn.
  - intros (Hk & HP & Hi). split_and!; [lia|lia|done|]. intros i Hi'. destruct (le_lt_dec at' i); [apply Hi; lia|apply Hno; lia].
  - intros Hi i Hi'. destruct (le_lt_dec at' i); [apply Hi; lia|apply Hno; lia].
Qed.

(** Whatever [memchr] skips cannot match. *)
Lemma find_loop_spec memory pattern anchor p fuel at_ :
  pattern !! anchor = Some p -> Wildcard p = false -> (length pattern <= length memory)%nat ->
  let lastStart := (length memory - length pattern)%nat in
  (S lastStart - at_ <= fuel)%nat ->
  exists r, find_loop memory pattern anchor lastStart (ByteValue p) fuel at_ = Returns r /\
    is_first (matches_at pattern memory) at_ (S lastStart) r.
Proof.
  intros Hp Hw Hlen lastStart. pose proof (lookup_lt_Some _ _ _ Hp) as Ha.
  revert at_. induction fuel as [|f IH]; intros at_ Hf; cbn [find_loop]; destruct (Nat.ltb_spec lastStart at_) as [Hlt|Hge];
    try (exists None; split; [done|]; cbn; lia); [lia|].
  unfold memchr. destruct (Nat.leb_spec (at_ + anchor + (lastStart - at_ + 1)) (length memory)) as [_|Hbad]; [|unfold lastStart in *; lia].
  cbn [outcome_bind].
  assert (forall i, (at_ <= i <= lastStart)%nat -> matches_at pattern memory i = true ->
            take (lastStart - at_ + 1) (drop (at_ + anchor) memory) !! (i - at_)%nat = Some (ByteValue p)) as Hanchor.
  { intros i Hi HP. rewrite lookup_take_lt, lookup_drop by lia.
    apply (prefix_matches_lookup _ _ _ _ HP Hp) in Hw. rewrite lookup_drop in Hw. rewrite <- Hw. f_equal. lia. }
  destruct (index_of _ _) as [k|] eqn:Hk; cbn.
  - apply index_of_some in Hk as [Hat Hbefore].
    assert (k < lastStart - at_ + 1)%nat as Hkl.
    { apply lookup_lt_Some in Hat. rewrite length_take in Hat. lia. }
    replace (at_ + anchor + k - anchor)%nat with (at_ + k)%nat by lia.
    assert (forall i, (at_ <= i < at_ + k)%nat -> matches_at pattern memory i = false) as Hskip.
    { intros i Hi. apply not_true_iff_false. intros HP. apply (Hbefore (i - at_)%nat); [lia|]. apply Hanchor; [lia|done]. }
    rewrite Matches_spec by (rewrite length_drop; unfold lastStart in *; lia). cbn [outcome_bind].
    fold (matches_at pattern memory (at_ + k)). destruct (matches_at pattern memory (at_ + k)) eqn:HP.
    + exists (Some (at_ + k)%nat). split; [done|]. cbn. split_and!; [lia|lia|done|done].
    + destruct (IH (S (at_ + k))) as (r & -> & Hr); [lia|]. exists r. split; [done|].
      eapply is_first_from; [|  |exact Hr]; [lia|]. intros i Hi. destruct (decide (i = at_ + k)%nat) as [->|]; [done|].
      apply Hskip. lia.
  - exists None. split; [done|]. cbn. intros i Hi. apply not_true_iff_false. intros HP.
    apply (index_of_none _ _ (i - at_) Hk). apply Hanchor; [lia|done].
Qed.

(** An anchor [AnchorOf] may choose. *)
Definition anchor_ok (pattern : list PatternByte) (anchor : nat) : Prop :=
  match pattern !! anchor with
  | Some p => Wildcard p = false
  | None => forall j p, pattern !! j = Some p -> Wildcard p = true
  end.

Lemma matches_at_bound pattern memory i :
  pattern <> [] -> matches_at pattern memory i = true -> (i < S (length memory - length pattern) /\ length pattern <= length memory)%nat.
Proof.
  intros Hne HP. apply prefix_matches_length in HP. rewrite length_drop in HP. destruct pattern; [done|]. cbn in *. lia.
Qed.

Lemma FindFirst_spec memory pattern anchor :
  pattern <> [] -> anchor_ok pattern anchor ->
  exists r, FindFirst (Some memory) pattern anchor = Returns r /\ is_first (matches_at pattern memory) 0 (length memory) r.
Proof.
  intros Hne Ha. unfold FindFirst. destruct pattern as [|p0 ps]; [done|]. set (pattern := p0 :: ps) in *.
  destruct (Nat.ltb_spec (length memory) (length pattern)) as [Hs|Hs].
  - exists None. split; [done|]. intros i _. apply not_true_iff_false. intros HP. pose proof (matches_at_bound _ _ _ Hne HP); lia.
  - unfold anchor_ok in Ha. destruct (pattern !! anchor) as [p|] eqn:Hp.
    + destruct (find_loop_spec memory pattern anchor p (S (length memory - length pattern)) 0 Hp Ha Hs) as (r & -> & Hr); [lia|].
      exists r. split; [done|]. destruct r as [k|]; cbn [is_first] in *.
      * destruct Hr as (Hk & HP & Hi). split_and!; [lia| |done|done]. assert (0 < length pattern)%nat by (unfold pattern; cbn; lia). lia.
      * intros i Hi. destruct (le_lt_dec (S (length memory - length pattern)) i); [|apply Hr; lia].
        apply not_true_iff_false. intros HP. pose proof (matches_at_bound _ _ _ Hne HP). lia.
    + exists (Some O). split; [done|]. cbn [is_first]. split_and!; [lia|unfold pattern in *; cbn in *; lia| |lia].
      by apply prefix_matches_wild.
Qed.

(** ** The scan *)

Lemma AnchorOf_loop frequencies i pattern rarest anchor whole :
  (forall b : Z, default 0 (frequencies !! Z.to_nat b) < uint64_max) ->
  drop i whole = pattern -> (i <= length whole)%nat ->
  match whole !! anchor with
  | Some p => Wildcard p = false
  | None => rarest = uint64_max /\ forall j p, (j < i)%nat -> whole !! j = Some p -> Wildcard p = true
  end ->
  anchor_ok whole (anchor_loop frequencies i pattern rarest anchor).
Proof.
  intros Hf. revert i rarest anchor. induction pattern as [|p ps IH]; intros i rarest anchor Hd Hi Ha; cbn [anchor_loop].
  - unfold anchor_ok. destruct (whole !! anchor); [done|]. destruct Ha as [_ Ha]. intros j p Hj. apply (Ha j p); [|done].
    apply lookup_lt_Some in Hj. apply (f_equal length) in Hd. rewrite length_drop in Hd. cbn in Hd. lia.
  - assert (whole !! i = Some p) as Hp.
    { assert (drop i whole !! O = Some p) as H by by rewrite Hd. rewrite lookup_drop in H. by rewrite Nat.add_0_r in H. }
    assert (drop (S i) whole = ps) as Hd'.
    { replace (S i) with (i + 1)%nat by lia. rewrite <- drop_drop. by rewrite Hd. }
    pose proof (lookup_lt_Some _ _ _ Hp) as Hlt.
    destruct (Wildcard p) eqn:Hw; [|destruct (Z.ltb_spec (default 0 (frequencies !! Z.to_nat (ByteValue p))) rarest)];
      apply IH; try done; try lia.
    + destruct (whole !! anchor); [done|]. destruct Ha as [-> Ha]. split; [done|]. intros j q Hj Hq.
      destruct (decide (j = i)) as [->|]; [congruence|]. apply (Ha j q); [lia|done].
    + by rewrite Hp.
    + destruct (whole !! anchor); [done|]. destruct Ha as [-> Ha]. specialize (Hf (ByteValue p)). lia.
Qed.

Lemma AnchorOf_ok pattern frequencies :
  (forall b : Z, default 0 (frequencies !! Z.to_nat b) < uint64_max) -> anchor_ok pattern (AnchorOf pattern frequencies).
Proof.
  intros Hf. unfold AnchorOf. apply AnchorOf_loop; [done|done|lia|]. rewrite lookup_ge_None_2 by lia.
  split; [done|]. lia.
Qed.

(** Counting [n] more bytes raises no counter by more than [n]. *)
Lemma CountBytes_bound bytes counts (k : Z) :
  0 <= k -> k + Z.of_nat (length bytes) < uint64_max -> Forall (fun n => 0 <= n <= k) counts ->
  Forall (fun n => 0 <= n <= k + Z.of_nat (length bytes)) (CountBytes bytes counts).
Proof.
  unfold CountBytes. revert counts k. induction bytes as [|b bytes IH]; intros counts k Hk Hl Hc; cbn [fold_left].
  - eapply Forall_impl; [exact Hc|]. cbn. lia.
  - cbn [length] in *. replace (k + Z.of_nat (S (length bytes))) with ((k + 1) + Z.of_nat (length bytes)) in * by lia.
    apply IH; [lia|lia|]. apply Forall_alter; [eapply Forall_impl; [exact Hc|]; cbn; lia|].
    intros n Hn _. rewrite Forall_lookup in Hc. specialize (Hc _ _ Hn). cbn in Hc.
    unfold wrap_u64, uint64_max in *. rewrite Z.mod_small; lia.
Qed.

Definition bytes_scanned (ranges : list ScanRange) : Z := Z.of_nat (length (flat_map RangeBytes ranges)).

Definition cache_ok (cache : gmap Z (list Z)) : Prop :=
  forall base counts, cache !! base = Some counts -> Forall (fun n => 0 <= n < uint64_max) counts.

Lemma FrequenciesOf_ok cache module ranges :
  cache_ok cache -> bytes_scanned ranges < uint64_max ->
  cache_ok (FrequenciesOf cache module ranges).2 /\
  forall b : Z, default 0 ((FrequenciesOf cache module ranges).1 !! Z.to_nat b) < uint64_max.
Proof.
  intros Hc Hb.
  assert (Forall (fun n => 0 <= n < uint64_max) (FrequenciesOf cache module ranges).1) as Hall.
  { unfold FrequenciesOf. destruct (cache !! ImageBase module) as [counts|] eqn:E; cbn [fst]; [by eapply Hc|].
    assert (forall k counts, 0 <= k -> k + bytes_scanned ranges < uint64_max -> Forall (fun n => 0 <= n <= k) counts ->
      Forall (fun n => 0 <= n < uint64_max) (fold_left (fun counts range => CountBytes (RangeBytes range) counts) ranges counts)) as Hgo.
    { clear. unfold bytes_scanned. induction ranges as [|r ranges IH]; intros k counts Hk Hl Hc; cbn in *.
      - eapply Forall_impl; [exact Hc|]. cbn. lia.
      - rewrite length_app in Hl. apply (IH (k + Z.of_nat (length (RangeBytes r)))); [lia|lia|].
        apply CountBytes_bound; [done|lia|done]. }
    apply (Hgo 0); [lia|lia|]. apply Forall_replicate. lia. }
  split.
  - unfold FrequenciesOf in *. destruct (cache !! ImageBase module) eqn:E; cbn [fst snd] in *; [done|]. intros base counts.
    destruct (decide (base = ImageBase module)) as [->|Hne].
    + rewrite lookup_insert_eq. by intros [= <-].
    + rewrite lookup_insert_ne by done. apply Hc.
  - intros b. rewrite Forall_lookup in Hall. destruct (_ !! _) as [n|] eqn:E; cbn; [|done]. apply (Hall _ _ E).
Qed.

(** The first of [seq] that passes a filter, and the rest. *)
Lemma filter_seq_first P at_ n k :
  (at_ <= k < at_ + n)%nat -> P k = true -> (forall i, (at_ <= i < k)%nat -> P i = false) ->
  List.filter P (seq at_ n) = k :: List.filter P (seq (k + 1) (at_ + n - (k + 1))).
Proof.
  revert at_. induction n as [|n IH]; intros at_ Hk HP Hno; [lia|]. cbn [seq List.filter].
  destruct (decide (k = at_)) as [->|Hne].
  - rewrite HP. do 2 f_equal. f_equal; lia.
  - rewrite (Hno at_) by lia. rewrite IH by (try lia; try done; intros; apply Hno; lia). do 3 f_equal. lia.
Qed.

Lemma filter_seq_none P at_ n : (forall i, (at_ <= i < at_ + n)%nat -> P i = false) -> List.filter P (seq at_ n) = [].
Proof.
  revert at_. induction n as [|n IH]; intros at_ Hno; cbn; [done|]. rewrite (Hno at_) by lia. apply IH. intros. apply Hno. lia.
Qed.

Lemma hits_from_step pattern bytes anchor at_ :
  pattern <> [] -> anchor_ok pattern anchor -> (at_ < length bytes)%nat ->
  exists r, FindFirst (Some (drop at_ bytes)) pattern anchor = Returns r /\
    hits_from pattern bytes at_ = match r with
                                  | None => []
                                  | Some offset => (at_ + offset)%nat :: hits_from pattern bytes (at_ + offset + 1)
                                  end.
Proof.
  intros Hne Ha Hat. destruct (FindFirst_spec (drop at_ bytes) pattern anchor Hne Ha) as (r & -> & Hr). exists r. split; [done|].
  assert (forall i, matches_at pattern (drop at_ bytes) i = matches_at pattern bytes (at_ + i)) as Hshift.
  { intros i. unfold matches_at. by rewrite drop_drop. }
  unfold hits_from. destruct pattern as [|p ps]; [done|]. set (pattern := p :: ps) in *.
  destruct r as [k|]; cbn [is_first] in Hr; rewrite length_drop in Hr.
  - destruct Hr as (Hk & HP & Hno). rewrite Hshift in HP. rewrite (filter_seq_first _ at_ _ (at_ + k)%nat); [|lia|done|].
    + do 3 f_equal. lia.
    + intros i Hi. specialize (Hno (i - at_)%nat). rewrite Hshift in Hno. replace (at_ + (i - at_))%nat with i in Hno by lia. apply Hno. lia.
  - apply filter_seq_none. intros i Hi. specialize (Hr (i - at_)%nat). rewrite Hshift in Hr.
    replace (at_ + (i - at_))%nat with i in Hr by lia. apply Hr. lia.
Qed.

(** What a scan keeps of the matches: the first, and whether there is a second. *)
Definition settle (first : option Z) (found : list Z) : option Z * bool :=
  match option_list first ++ found with
  | [] => (None, false)
  | [a] => (Some a, false)
  | a :: _ => (Some a, true)
  end.

Lemma settle_app first found rest :
  settle first (found ++ rest) =
  let '(first', ambiguous) := settle first found in if ambiguous then (first', true) else settle first' rest.
Proof. unfold settle. by destruct first, found as [|a [|b found]], rest. Qed.

Lemma scan_range_spec range pattern anchor fuel at_ first :
  pattern <> [] -> anchor_ok pattern anchor -> (length (RangeBytes range) - at_ <= fuel)%nat ->
  scan_range range pattern anchor fuel at_ first =
  Returns (settle first (map (fun i => RangeBase range + Z.of_nat i) (hits_from pattern (RangeBytes range) at_))).
Proof.
  intros Hne Ha. revert at_ first. induction fuel as [|f IH]; intros at_ first Hf; cbn [scan_range];
    destruct (Nat.leb_spec (length (RangeBytes range)) at_) as [Hge|Hlt]; try lia;
    try (replace (hits_from pattern (RangeBytes range) at_) with (@nil nat)
           by (unfold hits_from; destruct pattern; [done|]; by replace (length (RangeBytes range) - at_)%nat with O by lia);
         by destruct first).
  destruct (hits_from_step pattern (RangeBytes range) anchor at_ Hne Ha Hlt) as (r & -> & ->). cbn [outcome_bind].
  destruct r as [offset|]; [|by destruct first]. cbn [map]. destruct first as [x|].
  - done.
  - rewrite IH by lia. unfold settle. done.
Qed.

Lemma scan_ranges_spec ranges pattern anchor first :
  pattern <> [] -> anchor_ok pattern anchor ->
  scan_ranges ranges pattern anchor first = Returns (settle first (hits pattern ranges)).
Proof.
  intros Hne Ha. unfold hits. revert first. induction ranges as [|r ranges IH]; intros first; cbn [scan_ranges flat_map].
  - by destruct first.
  - rewrite scan_range_spec by (done || lia). cbn [outcome_bind]. rewrite settle_app.
    destruct (settle first _) as [first' [|]]; [done|]. apply IH.
Qed.

(** The empty pattern, which an unreadable one parses to, is found nowhere. *)
Lemma scan_ranges_empty ranges anchor first : scan_ranges ranges [] anchor first = Returns (first, false).
Proof.
  revert first. induction ranges as [|r ranges IH]; intros first; cbn [scan_ranges]; [done|].
  assert (scan_range r [] anchor (length (RangeBytes r)) 0 first = Returns (first, false)) as ->; [|apply IH].
  destruct (RangeBytes r) as [|b bytes] eqn:E; cbn; rewrite E; done.
Qed.

Lemma hits_empty ranges : hits [] ranges = [].
Proof. unfold hits. by induction ranges. Qed.

(** ** Patterns as they are written *)

Definition hex_digit (d : Z) : ascii := chr (if d <? 10 then 48 + d else 55 + d).

Definition write_byte (p : PatternByte) : text :=
  if Wildcard p then $"?" else [hex_digit (ByteValue p / 16); hex_digit (ByteValue p mod 16)].

Definition write_pattern (pattern : list PatternByte) : text := Join (map write_byte pattern) $" ".

Definition byte_ok (p : PatternByte) : Prop := if Wildcard p then ByteValue p = 0 else 0 <= ByteValue p < 256.

Lemma stream_words_word word w s :
  forallb (fun c => negb (is_space c)) w = true -> stream_words word (w ++ s) = stream_words (word ++ w) s.
Proof.
  revert word. induction w as [|c w IH]; intros word; cbn; [by rewrite app_nil_r|]. rewrite andb_true_iff, negb_true_iff.
  intros [-> Hw]. rewrite IH by done. by rewrite <- app_assoc.
Qed.

Lemma stream_words_Join ws :
  Forall (fun w => w <> [] /\ forallb (fun c => negb (is_space c)) w = true) ws -> stream_words [] (Join ws $" ") = ws.
Proof.
  destruct ws as [|w ws]; intros H; [done|]. inversion_clear H as [|? ? [Hne Hw] Hws]. cbn [Join].
  assert (forall word, word <> [] -> forallb (fun c => negb (is_space c)) word = true ->
            stream_words [] (join_rest $" " word ws) = word :: ws) as Hgo; [|by apply Hgo].
  clear w Hne Hw. intros word Hne Hnb. rewrite join_rest_acc, stream_words_word by done. cbn [app].
  revert word Hne Hnb. induction Hws as [|w ws [Hw1 Hw2] _ IH]; intros word Hne _; cbn [flat_map].
  - by destruct word.
  - rewrite <- app_assoc. change ($" " ++ (w ++ flat_map (fun p => $" " ++ p) ws)) with (" "%char :: (w ++ flat_map (fun p => $" " ++ p) ws)).
    cbn [stream_words]. replace (is_space " ") with true by done. destruct word; [done|]. f_equal.
    rewrite stream_words_word by done. by apply IH.
Qed.

Lemma write_byte_ok p :
  byte_ok p -> write_byte p <> [] /\ forallb (fun c => negb (is_space c)) (write_byte p) = true /\ parse_token (write_byte p) = Some p.
Proof.
  unfold byte_ok. destruct p as [v [|]]; cbn [Wildcard ByteValue]; [intros ->; by vm_compute|]. intros Hv. split; [done|].
  assert (forallb (fun n => let w := write_byte (mkByte (Z.of_nat n) false) in
    forallb (fun c => negb (is_space c)) w &&
    match parse_token w with Some q => (ByteValue q =? Z.of_nat n) && negb (Wildcard q) | None => false end) (seq 0 256) = true) as H
    by (by vm_compute).
  rewrite forallb_forall in H. specialize (H (Z.to_nat v)). rewrite Z2Nat.id in H by lia. cbv zeta in H.
  apply andb_prop in H as [H1 H2]; [|apply in_seq; lia]. split; [done|].
  destruct (parse_token _) as [[v' w']|]; [|done]. cbn in H2. apply andb_prop in H2 as [H2 H3].
  apply Z.eqb_eq in H2. apply negb_true_iff in H3. by subst.
Qed.

Lemma ParsePattern_write pattern : Forall byte_ok pattern -> ParsePattern (write_pattern pattern) = pattern.
Proof.
  intros H. unfold ParsePattern, write_pattern. rewrite stream_words_Join.
  - assert (mapM parse_token (map write_byte pattern) = Some pattern) as ->; [|done].
    induction H as [|p ps Hp _ IH]; [done|]. cbn. destruct (write_byte_ok p Hp) as (_ & _ & ->). cbn.
    change (mapM parse_token (map write_byte ps)) with (mapM (M := option) parse_token (map write_byte ps)) in IH. by rewrite IH.
  - apply List.Forall_map. eapply Forall_impl; [exact H|]. intros p Hp. destruct (write_byte_ok p Hp) as (? & ? & _). done.
Qed.

(** ** The properties *)

Lemma FindPatternEx_scan cache module ranges pattern :
  cache_ok cache -> bytes_scanned ranges < uint64_max ->
  exists cache', cache_ok cache' /\ FindPatternEx cache (Some (module, ranges)) pattern =
    Returns (match hits (ParsePattern pattern) ranges with
             | [] => mkScanResult None true (Some module)
             | [a] => mkScanResult (Some a) true (Some module)
             | a :: _ => mkScanResult (Some a) false (Some module)
             end, cache').
Proof.
  intros Hc Hb. unfold FindPatternEx. destruct (FrequenciesOf_ok cache module ranges Hc Hb) as [Hc' Hf].
  destruct (FrequenciesOf cache module ranges) as [frequencies cache']. cbn [fst snd] in *. exists cache'. split; [done|].
  destruct (ParsePattern pattern) as [|p ps] eqn:E.
  - by rewrite scan_ranges_empty, hits_empty.
  - rewrite scan_ranges_spec; [|done|by apply AnchorOf_ok]. unfold settle. cbn [option_list app]. by destruct (hits (p :: ps) ranges) as [|a [|b l]].
Qed.

(** C28. A scan agrees with trying every offset of every range: it gives the first match, and says the pattern is
    unique exactly when there is no second; whichever byte it anchors on, it reads only the ranges. A pattern that
    does not parse is found nowhere, and one that is written out parses to the bytes that were written. *)
Theorem FindPatternEx_finds cache module ranges pattern :
  cache_ok cache -> bytes_scanned ranges < uint64_max ->
  (exists result cache', FindPatternEx cache (Some (module, ranges)) pattern = Returns (result, cache') /\ cache_ok cache' /\
    result = match hits (ParsePattern pattern) ranges with
             | [] => mkScanResult None true (Some module)
             | [a] => mkScanResult (Some a) true (Some module)
             | a :: _ => mkScanResult (Some a) false (Some module)
             end) /\
  (forall bytes, Forall byte_ok bytes -> ParsePattern (write_pattern bytes) = bytes).
Proof.
  intros Hc Hb. split; [|apply ParsePattern_write]. destruct (FindPatternEx_scan cache module ranges pattern Hc Hb) as (cache' & Hc' & ->). eauto.
Qed.

Lemma FindPatternEx_finds_witness :
  let ranges := [mkRange 4096 [72; 139; 5; 1; 2]; mkRange 8192 [1; 72; 139; 7; 1]] in
  exists cache',
    FindPatternEx ∅ (Some (mkImage 4096 8192 [], ranges)) $"48 8B ? 01" =
      Returns (mkScanResult (Some 4096) false (Some (mkImage 4096 8192 [])), cache') /\
    ParsePattern (write_pattern [mkByte 72 false; mkByte 0 true]) = [mkByte 72 false; mkByte 0 true].
Proof.
  intros ranges. assert (cache_ok ∅) as Hc by (intros base counts; by rewrite lookup_empty).
  destruct (FindPatternEx_finds ∅ (mkImage 4096 8192 []) ranges $"48 8B ? 01" Hc ltac:(by vm_compute)) as [(result & cache' & E & _ & Hr) Hw].
  exists cache'. split; [|exact (Hw [mkByte 72 false; mkByte 0 true] ltac:(repeat constructor; cbn; lia))]. rewrite E. f_equal.
  f_equal. rewrite Hr. vm_compute. reflexivity.
Defined.

Lemma read_int32_spec memory site :
  (forall a, site <= a < site + 4 -> exists b, memory a = Some b /\ 0 <= b < 256) ->
  exists v, read_int32 memory site = Returns v /\ int32_min <= v <= int32_max.
Proof.
  intros Hm. unfold read_int32, int32_min, int32_max.
  destruct (Hm site) as (b0 & -> & H0); [lia|]. destruct (Hm (site + 1)) as (b1 & -> & H1); [lia|].
  destruct (Hm (site + 2)) as (b2 & -> & H2); [lia|]. destruct (Hm (site + 3)) as (b3 & -> & H3); [lia|].
  rewrite !Z.shiftl_mul_pow2 by lia. eexists. split; [done|]. destruct (Z.leb_spec (b0 + b1 * 2 ^ 8 + b2 * 2 ^ 16 + b3 * 2 ^ 24) 2147483647); lia.
Qed.

Lemma Rel32ReadInBounds_spec moduleBase moduleSize matchAddress ripOffset :
  0 <= moduleBase -> 0 <= moduleSize -> moduleBase + moduleSize < 2 ^ 64 ->
  0 <= matchAddress < 2 ^ 64 -> int32_min <= ripOffset <= int32_max ->
  Rel32ReadInBounds moduleBase moduleSize matchAddress ripOffset =
  (moduleBase <=? matchAddress) && (0 <=? ripOffset) && (matchAddress + ripOffset + 4 <=? moduleBase + moduleSize).
Proof.
  unfold Rel32ReadInBounds, Rel32Site, Rel32Size, wrap_u64, int32_min, int32_max. intros Hb Hs He Hm Hr.
  destruct (Z.ltb_spec ripOffset 0), (Z.ltb_spec matchAddress moduleBase); cbn [orb]; try lia.
  rewrite (Z.mod_small ripOffset), (Z.mod_small (moduleBase + moduleSize)) by lia.
  destruct (Z.ltb_spec (matchAddress + ripOffset) 18446744073709551616).
  - rewrite (Z.mod_small (matchAddress + ripOffset)) by lia.
    destruct (Z.ltb_spec (matchAddress + ripOffset) matchAddress), (Z.leb_spec (moduleBase + moduleSize) (matchAddress + ripOffset));
      cbn [orb]; try lia.
    rewrite Z.mod_small by lia. lia.
  - assert ((matchAddress + ripOffset) mod 18446744073709551616 = matchAddress + ripOffset - 18446744073709551616) as ->.
    { symmetry. apply (Z.mod_unique_pos _ _ 1); lia. }
    destruct (Z.ltb_spec (matchAddress + ripOffset - 18446744073709551616) matchAddress); cbn [orb]; lia.
Qed.

(** A relative address is read only inside the module: the four bytes that decide it lie between the module's
    base and its end, whatever the match and the offset, and an address that would read anything else is 0. *)
Theorem ResolveRelativeAddress_in_module memory module matchAddress ripOffset ripSize :
  0 <= ImageBase module -> 0 <= ImageSize module -> ImageBase module + ImageSize module < 2 ^ 64 ->
  0 <= matchAddress < 2 ^ 64 -> int32_min <= ripOffset <= int32_max ->
  (forall a, ImageBase module <= a < ImageBase module + ImageSize module -> exists b, memory a = Some b /\ 0 <= b < 256) ->
  let site := matchAddress + ripOffset in
  let inside := (negb (matchAddress =? 0)) && negb (ImageBase module =? 0) && (ImageBase module <=? matchAddress) &&
                (0 <=? ripOffset) && (site + 4 <=? ImageBase module + ImageSize module) in
  exists displacement, int32_min <= displacement <= int32_max /\
    ResolveRelativeAddress memory module matchAddress ripOffset ripSize =
      Returns (if inside then (site + ripSize + displacement) mod 2 ^ 64 else 0) /\
    (inside = true -> read_int32 memory site = Returns displacement).
Proof.
  intros Hb Hs He Hm Hr Hmem site inside. unfold ResolveRelativeAddress. rewrite Rel32ReadInBounds_spec by done. fold site.
  destruct (Z.eqb_spec matchAddress 0); [exists 0; by split_and!|].
  destruct (Z.eqb_spec (ImageBase module) 0); [exists 0; subst inside; rewrite andb_false_r; by split_and!|].
  unfold inside. cbn [negb andb orb]. destruct (_ && _) eqn:E; cbn [negb]; [|exists 0; by split_and!].
  rewrite !andb_true_iff, !Z.leb_le in E. destruct E as [[E1 E2] E3].
  destruct (read_int32_spec memory site) as (v & Hv & Hrange); [intros a Ha; apply Hmem; lia|].
  exists v. split; [done|]. split; [|done].
  assert (Rel32Site matchAddress ripOffset = site) as ->.
  { unfold Rel32Site, wrap_u64. unfold int32_max in *. rewrite (Z.mod_small ripOffset), Z.mod_small by lia. done. }
  rewrite Hv. cbn [outcome_bind]. f_equal. unfold Rel32Target, wrap_u64.
  change 18446744073709551616 with (2 ^ 64). rewrite Zplus_mod_idemp_r, Zplus_mod_idemp_l.
  rewrite (Z.add_comm (site + ripSize mod 2 ^ 64)), Z.add_assoc, Zplus_mod_idemp_r. f_equal. lia.
Qed.

Lemma ResolveRelativeAddress_in_module_witness :
  let memory a := if (4096 <=? a) && (a <? 4112) then Some (if a =? 4099 then 252 else 255) else None in
  ResolveRelativeAddress memory (mkImage 4096 16 []) 4096 3 4 = Returns 4099 /\
  ResolveRelativeAddress memory (mkImage 4096 16 []) 4096 13 4 = Returns 0.
Proof.
  intros memory.
  assert (forall a, ImageBase (mkImage 4096 16 []) <= a < ImageBase (mkImage 4096 16 []) + ImageSize (mkImage 4096 16 []) ->
            exists b, memory a = Some b /\ 0 <= b < 256) as Hmem.
  { cbn. intros a Ha. unfold memory. destruct (Z.leb_spec 4096 a), (Z.ltb_spec a 4112); cbn; try lia.
    destruct (a =? 4099); eexists; (split; [done|lia]). }
  split.
  - destruct (ResolveRelativeAddress_in_module memory (mkImage 4096 16 []) 4096 3 4 ltac:(done) ltac:(done) ltac:(done) ltac:(done) ltac:(done) Hmem)
      as (v & _ & -> & Hv). specialize (Hv eq_refl).
    assert (read_int32 memory (4096 + 3) = Returns (-4)) as E by (by vm_compute). rewrite E in Hv. injection Hv as <-. by vm_compute.
  - destruct (ResolveRelativeAddress_in_module memory (mkImage 4096 16 []) 4096 13 4 ltac:(done) ltac:(done) ltac:(done) ltac:(done) ltac:(done) Hmem)
      as (v & _ & -> & _). done.
Defined.
