(* ===== verification/Vtables.v ===== *)
(** * Vtables and base classes: [src/Engine/Memory/VtableLookup.cpp], [VtableLookup.windows.cpp]

    Both compilers leave the names of classes and what they derive from in the module, as records that point to each other.
    They are read out of memory nobody vouches for: what a word points to is only read once it is known to be mapped. *)

From S2P Require Import Prelude Text Errors Signatures.

(** ** Reading memory *)

Definition byte_at (memory : Z -> option Z) (a : Z) : outcome Z := match memory a with Some b => Returns b | None => Undefined end.

(** [memcpy] of [n] bytes as a number, the low byte first. *)
Fixpoint read_le (memory : Z -> option Z) (n : nat) (a : Z) : outcome Z :=
  match n with
  | O => Returns 0
  | S n => run! b := byte_at memory a in run! rest := read_le memory n (a + 1) in Returns (b + 256 * rest)
  end.

Definition ReadWord (memory : Z -> option Z) (a : Z) : outcome Z := read_le memory 8 a.
Definition ReadU32 (memory : Z -> option Z) (a : Z) : outcome Z := read_le memory 4 a.

(** The conversions to [intptr_t] and [int]. *)
Definition to_i64 (z : Z) : Z := if z <=? int64_max then z else z - 18446744073709551616.
Definition to_i32 (z : Z) : Z := let z := wrap_u32 z in if z <=? int32_max then z else z - 4294967296.

Definition WordSize : Z := 8.

Definition plus_i64 (a b : Z) : outcome Z := if in_i64 (a + b) then Returns (a + b) else Undefined.

Definition LengthPrefixedName (className : text) : text := dec (Z.of_nat (length className)) ++ className.

Section Memory.
(** [memory] is what is mapped, by address; the system says of a span whether it is readable, and of an address whether it is
    code. *)
Context (memory : Z -> option Z) (readable : Z -> Z -> bool) (executable : Z -> bool).

(** ** The Itanium records *)

(** The loop of [FindWords] over one range. *)
Fixpoint words_from (fuel : nat) (range_end value at_ : Z) : outcome (list Z) :=
  if wrap_u64 (at_ + 2 * WordSize) <=? range_end then
    match fuel with
    | O => OutOfFuel
    | S fuel =>
        run! word := ReadWord memory at_ in
        run! rest := words_from fuel range_end value (wrap_u64 (at_ + WordSize)) in
        Returns (if word =? value then at_ :: rest else rest)
    end
  else Returns [].

Definition range_size (range : ScanRange) : Z := Z.of_nat (length (RangeBytes range)).

(** The first word after the one the range starts in, or at. *)
Definition first_word (begin : Z) : Z := wrap_u64 (Z.land (wrap_u64 (begin + WordSize - 1)) (uint64_max - (WordSize - 1)) + WordSize).

Definition FindWords_in (value : Z) (range : ScanRange) : outcome (list Z) :=
  words_from (length (RangeBytes range)) (wrap_u64 (RangeBase range + range_size range)) value (first_word (RangeBase range)).

Fixpoint FindWords (ranges : list ScanRange) (value : Z) : outcome (list Z) :=
  match ranges with
  | [] => Returns []
  | range :: rest => run! found := FindWords_in value range in run! more := FindWords rest value in Returns (found ++ more)
  end.

Fixpoint outcome_find {A B} (f : A -> outcome (option B)) (l : list A) : outcome (option B) :=
  match l with
  | [] => Returns None
  | a :: rest => run! r := f a in match r with Some _ => Returns r | None => outcome_find f rest end
  end.

(** The vtable a typeinfo's word belongs to, when it is a primary one. *)
Definition table_of (typeInfo : Z) : outcome (option Z) :=
  run! top := ReadWord memory (typeInfo - WordSize) in
  if negb (top =? 0) then Returns None
  else
    run! first := ReadWord memory (typeInfo + WordSize) in
    Returns (if executable first then Some (typeInfo + WordSize) else None).

Definition bytes_of (s : text) : list Z := map code s.

Fixpoint starts_with (needle memory : list Z) : bool :=
  match needle, memory with
  | [], _ => true
  | a :: needle, b :: memory => (a =? b) && starts_with needle memory
  | _ :: _, [] => false
  end.

(** [memory.find(needle, from)]: every place, in order. *)
Definition occurrences (needle bytes : list Z) : list nat :=
  List.filter (fun at_ => starts_with needle (drop at_ bytes)) (seq 0 (length bytes)).

(** [std::isalnum] of the C locale, or an underscore. *)
Definition name_char (b : Z) : bool :=
  ((48 <=? b) && (b <=? 57)) || ((65 <=? b) && (b <=? 90)) || ((97 <=? b) && (b <=? 122)) || (b =? 95).

(** One turn of the search for a name within a range. *)
Definition table_named_at (ranges : list ScanRange) (range : ScanRange) (at_ : nat) : outcome (option Z) :=
  if match at_ with O => false | S before => match RangeBytes range !! before with Some b => name_char b | None => false end end then Returns None
  else
    run! names := FindWords ranges (wrap_u64 (RangeBase range + Z.of_nat at_)) in
    outcome_find (fun name => run! typeInfos := FindWords ranges (wrap_u64 (name - WordSize)) in outcome_find table_of typeInfos) names.

Definition FindVirtualTableByTypeName (ranges : list ScanRange) (className : text) : outcome (option Z) :=
  let needle := bytes_of (LengthPrefixedName className) ++ [0] in
  outcome_find (fun range => outcome_find (table_named_at ranges range) (occurrences needle (RangeBytes range))) ranges.

(** A null [table] or [object] is 0. *)
Definition IsInstanceOf (object table : Z) : outcome bool :=
  if (table =? 0) || negb (readable object WordSize) then Returns false
  else run! word := ReadWord memory object in Returns (word =? table).

(** *** Bases *)

Definition TypeInfoBase : Z := 16.
Definition TypeInfoFlags : Z := 16.
Definition TypeInfoCount : Z := 20.
Definition TypeInfoBaseList : Z := 24.
Definition BaseEntrySize : Z := 16.
Definition MaxBases : Z := 64.
Definition MaxDepth : nat := 32.

Record TypeInfoKinds := mkKinds { SingleBase : Z; MultipleBases : Z }.

Definition LooksLikeTypeInfo (address : Z) : outcome bool :=
  if (address =? 0) || negb (address mod WordSize =? 0) || negb (readable address (2 * WordSize)) then Returns false
  else
    run! name := ReadWord memory (address + WordSize) in
    if negb (readable name 1) then Returns false
    else run! c := byte_at memory name in Returns (((48 <=? c) && (c <=? 57)) || (c =? 78) || (c =? 42)).

(** The [string_view] of the wanted length, compared. *)
Fixpoint same_bytes (a : Z) (wanted : list Z) : outcome bool :=
  match wanted with
  | [] => Returns true
  | w :: wanted => run! b := byte_at memory a in if b =? w then same_bytes (a + 1) wanted else Returns false
  end.

Definition NameIs (address : Z) (wanted : text) : outcome bool :=
  run! name := ReadWord memory (address + WordSize) in
  if negb (readable name (Z.of_nat (length wanted) + 1)) then Returns false
  else
    run! same := same_bytes name (bytes_of wanted) in
    if negb same then Returns false
    else run! last := byte_at memory (name + Z.of_nat (length wanted)) in Returns (last =? 0).

Definition HasSingleBase (kinds : TypeInfoKinds) (typeInfo : Z) : outcome bool :=
  if negb (SingleBase kinds =? 0) then run! kind := ReadWord memory typeInfo in Returns (kind =? SingleBase kinds)
  else if negb (readable typeInfo (TypeInfoBase + WordSize)) then Returns false
  else run! base := ReadWord memory (typeInfo + TypeInfoBase) in LooksLikeTypeInfo base.

(** How many bases are listed: the rest of [BaseCount] once the kind is known. *)
Definition counted_bases (kinds : TypeInfoKinds) (typeInfo : Z) : outcome Z :=
  if negb (readable typeInfo TypeInfoBaseList) then Returns 0
  else
    run! count := ReadU32 memory (typeInfo + TypeInfoCount) in
    if (count =? 0) || (MaxBases <? count) || negb (readable (typeInfo + TypeInfoBaseList) (count * BaseEntrySize)) then Returns 0
    else if MultipleBases kinds =? 0 then
      run! flags := ReadU32 memory (typeInfo + TypeInfoFlags) in
      if 3 <? flags then Returns 0
      else
        run! first := ReadWord memory (typeInfo + TypeInfoBaseList) in
        run! shaped := LooksLikeTypeInfo first in
        Returns (if shaped then count else 0)
    else Returns count.

Definition BaseCount (kinds : TypeInfoKinds) (typeInfo : Z) : outcome Z :=
  if negb (MultipleBases kinds =? 0) then
    run! kind := ReadWord memory typeInfo in
    if negb (kind =? MultipleBases kinds) then Returns 0 else counted_bases kinds typeInfo
  else counted_bases kinds typeInfo.

Record FoundBase := mkFound { Offset : Z; Virtual : bool }.

(** A base as it is listed: its typeinfo, its offset, and whether it is virtual. *)
Record BaseEntry := mkEntry { EntryBase : Z; EntryOffset : Z; EntryVirtual : bool }.

Definition entry_at (typeInfo : Z) (i : nat) : outcome BaseEntry :=
  let entry := typeInfo + TypeInfoBaseList + Z.of_nat i * BaseEntrySize in
  run! flagged := ReadWord memory (entry + WordSize) in
  run! base := ReadWord memory entry in
  Returns (mkEntry base (Z.shiftr (to_i64 flagged) 8) (Z.odd flagged)).

(** The lambda [visit]; [collect] searches further. *)
Definition visit_base (wanted : text) (collect : Z -> FoundBase -> outcome (list FoundBase)) (at_ : FoundBase) (e : BaseEntry) : outcome (list FoundBase) :=
  run! shaped := LooksLikeTypeInfo (EntryBase e) in
  if negb shaped then Returns []
  else
    run! offset := plus_i64 (Offset at_) (EntryOffset e) in
    let here := mkFound offset (Virtual at_ || EntryVirtual e) in
    run! named := NameIs (EntryBase e) wanted in
    if named : bool then Returns [here] else collect (EntryBase e) here.

(** [fuel] is one more than the depth left, so running out is the guard. *)
Fixpoint CollectBases (wanted : text) (kinds : TypeInfoKinds) (fuel : nat) (typeInfo : Z) (at_ : FoundBase) : outcome (list FoundBase) :=
  match fuel with
  | O => Returns []
  | S fuel =>
      let visit := visit_base wanted (CollectBases wanted kinds fuel) at_ in
      run! single := HasSingleBase kinds typeInfo in
      if single : bool then run! base := ReadWord memory (typeInfo + TypeInfoBase) in visit (mkEntry base 0 false)
      else
        run! count := BaseCount kinds typeInfo in
        outcome_fold (fun found i => run! e := entry_at typeInfo i in run! more := visit e in Returns (found ++ more)) (seq 0 (Z.to_nat count)) []
  end.

Definition FindBaseOffsetByTypeInfo (typeInfo : Z) (baseName : text) (kinds : TypeInfoKinds) : outcome (Result Z) :=
  run! shaped := LooksLikeTypeInfo typeInfo in
  if negb shaped then Returns (Err (Error_Invalid $"the class has no readable typeinfo"))
  else
    run! found := CollectBases (LengthPrefixedName baseName) kinds (S MaxDepth) typeInfo (mkFound 0 false) in
    Returns match found with
    | [] => Err (Error_NotFound ($"'" ++ baseName ++ $"' is not a base"))
    | [base] =>
        if Virtual base then Err (Error_Unsupported ($"'" ++ baseName ++ $"' is a virtual base")) else Ok (to_i32 (Offset base))
    | _ => Err (Error_Invalid ($"'" ++ baseName ++ $"' is a base " ++ dec (Z.of_nat (length found)) ++ $" times"))
    end.

(** Whether the word at [at_] starts a vtable of that offset-to-top. *)
Definition starts_table (offsetToTop at_ : Z) : outcome bool :=
  run! top := ReadWord memory (at_ - WordSize) in
  if negb (to_i64 top =? offsetToTop) then Returns false
  else run! first := ReadWord memory (at_ + WordSize) in Returns (executable first).

(** The loop: [found] so far; a second one gives none. *)
Fixpoint only_table (offsetToTop : Z) (words : list Z) (found : option Z) : outcome (option Z) :=
  match words with
  | [] => Returns found
  | at_ :: rest =>
      run! starts := starts_table offsetToTop at_ in
      if negb starts then only_table offsetToTop rest found
      else match found with Some _ => Returns None | None => only_table offsetToTop rest (Some (at_ + WordSize)) end
  end.

Definition FindVirtualTableByTypeInfo (ranges : list ScanRange) (typeInfo offsetToTop : Z) : outcome (option Z) :=
  run! words := FindWords ranges typeInfo in only_table offsetToTop words None.
End Memory.

(** ** Reading within what is mapped *)

Section Safety.
Context (memory : Z -> option Z) (readable : Z -> Z -> bool) (executable : Z -> bool).

(** [n] bytes from [a] are mapped. *)
Definition mapped (a n : Z) : Prop := forall i, 0 <= i < n -> exists b, memory (a + i) = Some b /\ 0 <= b < 256.

(** What the system calls readable is mapped. *)
Context (Hreadable : forall a n, readable a n = true -> mapped a n).

Lemma mapped_part a n b m : mapped a n -> a <= b -> b + m <= a + n -> mapped b m.
Proof using. intros H Hab Hbm i Hi. destruct (H (b - a + i)) as (x & E & Hx); [lia|]. exists x. split; [|done]. by replace (b + i) with (a + (b - a + i)) by lia. Qed.

Lemma read_le_mapped n a : mapped a (Z.of_nat n) -> exists v, read_le memory n a = Returns v /\ 0 <= v < 256 ^ Z.of_nat n.
Proof using.
  revert a. induction n as [|n IH]; intros a H; cbn [read_le]; [by exists 0|].
  destruct (H 0) as (b & E & Hb); [lia|]. rewrite Z.add_0_r in E. unfold byte_at. rewrite E. cbn [outcome_bind].
  destruct (IH (a + 1)) as (v & -> & Hv); [eapply mapped_part; [exact H|lia|lia]|]. cbn [outcome_bind].
  eexists. split; [done|]. rewrite Nat2Z.inj_succ, Z.pow_succ_r by lia. lia.
Qed.

Lemma ReadWord_mapped a : mapped a 8 -> exists v, ReadWord memory a = Returns v /\ 0 <= v <= uint64_max.
Proof using. intros H. destruct (read_le_mapped 8 a H) as (v & E & Hv). exists v. split; [done|]. change (256 ^ Z.of_nat 8) with 18446744073709551616 in Hv. unfold uint64_max. lia. Qed.

Lemma ReadU32_mapped a : mapped a 4 -> exists v, ReadU32 memory a = Returns v /\ 0 <= v <= uint32_max.
Proof using. intros H. destruct (read_le_mapped 4 a H) as (v & E & Hv). exists v. split; [done|]. change (256 ^ Z.of_nat 4) with 4294967296 in Hv. unfold uint32_max. lia. Qed.

Lemma byte_mapped a n : mapped a n -> 0 < n -> exists b, byte_at memory a = Returns b.
Proof using. intros H Hn. destruct (H 0) as (b & E & _); [lia|]. rewrite Z.add_0_r in E. exists b. unfold byte_at. by rewrite E. Qed.

(** A typeinfo that looks like one has its first two words. *)
Lemma LooksLike_returns a : exists b, LooksLikeTypeInfo memory readable a = Returns b /\ (b = true -> mapped a 16).
Proof using Hreadable.
  unfold LooksLikeTypeInfo. destruct (_ || _ || _) eqn:E; [by exists false|]. bools. apply Hreadable in H0. change (2 * WordSize) with 16 in H0.
  destruct (ReadWord_mapped (a + WordSize)) as (name & -> & _); [eapply mapped_part; [exact H0|unfold WordSize; lia..]|]. cbn [outcome_bind].
  destruct (readable name 1) eqn:Er; [|by exists false]. cbn [negb]. apply Hreadable in Er. destruct (byte_mapped _ _ Er) as (c & ->); [lia|]. cbn [outcome_bind]. eauto.
Qed.

Lemma same_bytes_mapped a wanted : mapped a (Z.of_nat (length wanted)) -> exists b, same_bytes memory a wanted = Returns b.
Proof using.
  revert a. induction wanted as [|x wanted IH]; intros a H; cbn [same_bytes]; [eauto|]. cbn [length] in H.
  destruct (byte_mapped _ _ H) as (b & ->); [lia|]. cbn [outcome_bind]. case_match; [|eauto]. apply IH. eapply mapped_part; [exact H|lia..].
Qed.

Lemma NameIs_returns a wanted : mapped a 16 -> exists b, NameIs memory readable a wanted = Returns b.
Proof using Hreadable.
  intros H. unfold NameIs. destruct (ReadWord_mapped (a + WordSize)) as (name & -> & _); [eapply mapped_part; [exact H|unfold WordSize; lia..]|]. cbn [outcome_bind].
  destruct (readable name _) eqn:Er; [|by exists false]. cbn [negb]. apply Hreadable in Er.
  destruct (same_bytes_mapped name (bytes_of wanted)) as (same & ->); [unfold bytes_of; rewrite length_map; eapply mapped_part; [exact Er|lia..]|]. cbn [outcome_bind].
  destruct same; cbn [negb]; [|eauto]. destruct (byte_mapped (name + Z.of_nat (length wanted)) 1) as (b & ->); [eapply mapped_part; [exact Er|lia..]|lia|]. cbn [outcome_bind]. eauto.
Qed.

(** A record whose kind is known by its vptr has the word that kind has: what the ABI says of single-base typeinfos. *)
Definition kinds_ok (kinds : TypeInfoKinds) : Prop :=
  SingleBase kinds <> 0 -> forall a, mapped a 16 -> ReadWord memory a = Returns (SingleBase kinds) -> mapped a 24.

Context (kinds : TypeInfoKinds) (Hkinds : kinds_ok kinds).

Lemma HasSingleBase_returns a :
  mapped a 16 -> exists b, HasSingleBase memory readable kinds a = Returns b /\ (b = true -> mapped a 24).
Proof using Hreadable Hkinds.
  intros H. unfold HasSingleBase. destruct (Z.eqb_spec (SingleBase kinds) 0) as [E0|E0]; cbn [negb].
  - destruct (readable a _) eqn:Er; [|by exists false]. cbn [negb]. apply Hreadable in Er. change (TypeInfoBase + WordSize) with 24 in Er.
    destruct (ReadWord_mapped (a + TypeInfoBase)) as (base & -> & _); [eapply mapped_part; [exact Er|unfold TypeInfoBase; lia..]|]. cbn [outcome_bind].
    destruct (LooksLike_returns base) as (b & -> & _). eauto.
  - destruct (ReadWord_mapped a) as (kind & E & _); [eapply mapped_part; [exact H|lia..]|]. rewrite E. cbn [outcome_bind]. eexists. split; [done|].
    intros ->%Z.eqb_eq. by apply (Hkinds E0).
Qed.

Lemma counted_bases_returns a :
  exists count, counted_bases memory readable kinds a = Returns count /\ 0 <= count <= MaxBases /\ (0 < count -> mapped (a + TypeInfoBaseList) (count * BaseEntrySize)).
Proof using Hreadable.
  unfold counted_bases.
  assert (exists count, Returns 0 = Returns count /\ 0 <= count <= MaxBases /\ (0 < count -> mapped (a + TypeInfoBaseList) (count * BaseEntrySize))) as none_
    by (exists 0; unfold MaxBases; split_and!; [done|lia..]).
  destruct (readable a _) eqn:Er; [|done]. cbn [negb]. apply Hreadable in Er. unfold TypeInfoBaseList in Er.
  destruct (ReadU32_mapped (a + TypeInfoCount)) as (count & -> & Hc); [eapply mapped_part; [exact Er|unfold TypeInfoCount; lia..]|]. cbn [outcome_bind].
  destruct (_ || _ || _) eqn:E; [done|]. bools. apply Hreadable in H0.
  assert (exists count', Returns count = Returns count' /\ 0 <= count' <= MaxBases /\ (0 < count' -> mapped (a + TypeInfoBaseList) (count' * BaseEntrySize))) as all_
    by (exists count; split_and!; [done|lia..|done]).
  destruct (MultipleBases kinds =? 0); [|done].
  destruct (ReadU32_mapped (a + TypeInfoFlags)) as (flags & -> & _); [eapply mapped_part; [exact Er|unfold TypeInfoFlags; lia..]|]. cbn [outcome_bind].
  destruct (3 <? flags); [done|]. assert (0 < count) by lia.
  destruct (ReadWord_mapped (a + TypeInfoBaseList)) as (first & -> & _); [eapply mapped_part; [exact H0|unfold BaseEntrySize; lia..]|]. cbn [outcome_bind].
  destruct (LooksLike_returns first) as (b & -> & _). cbn [outcome_bind]. by destruct b.
Qed.

Lemma BaseCount_returns a :
  mapped a 16 -> exists count, BaseCount memory readable kinds a = Returns count /\ 0 <= count <= MaxBases /\ (0 < count -> mapped (a + TypeInfoBaseList) (count * BaseEntrySize)).
Proof using Hreadable.
  intros H. unfold BaseCount. destruct (negb _); [|apply counted_bases_returns].
  destruct (ReadWord_mapped a) as (kind & -> & _); [eapply mapped_part; [exact H|lia..]|]. cbn [outcome_bind].
  destruct (negb _); [|apply counted_bases_returns]. exists 0. unfold MaxBases. split_and!; [done|lia..].
Qed.

Lemma to_i64_range z : 0 <= z <= uint64_max -> int64_min <= to_i64 z <= int64_max.
Proof using. unfold to_i64, uint64_max, int64_max, int64_min. intros. case_match; lia. Qed.

Definition offset_ok (z : Z) : Prop := - 2 ^ 55 <= z <= 2 ^ 55.

Lemma entry_returns a count i :
  mapped (a + TypeInfoBaseList) (count * BaseEntrySize) -> (i < Z.to_nat count)%nat ->
  exists e, entry_at memory a i = Returns e /\ offset_ok (EntryOffset e).
Proof using.
  intros H Hi. unfold entry_at. assert (Z.of_nat i + 1 <= count) by lia. unfold TypeInfoBaseList, BaseEntrySize, WordSize in *.
  destruct (ReadWord_mapped (a + 24 + Z.of_nat i * 16 + 8)) as (flagged & -> & Hf); [eapply mapped_part; [exact H|nia..]|]. cbn [outcome_bind].
  destruct (ReadWord_mapped (a + 24 + Z.of_nat i * 16)) as (base & -> & _); [eapply mapped_part; [exact H|nia..]|]. cbn [outcome_bind].
  eexists. split; [done|]. cbn [EntryOffset]. pose proof (to_i64_range _ Hf). unfold offset_ok, int64_min, int64_max in *. rewrite Z.shiftr_div_pow2 by lia.
  change (2 ^ 8) with 256. change (2 ^ 55) with 36028797018963968. split; [apply Z.div_le_lower_bound; lia|].
  assert (to_i64 flagged / 256 < 36028797018963968 + 1); [|lia]. apply Z.div_lt_upper_bound; lia.
Qed.

(** *** What derives from what, apart from how it is searched *)

Inductive direct_base (typeInfo : Z) : BaseEntry -> Prop :=
| direct_single base :
    HasSingleBase memory readable kinds typeInfo = Returns true -> ReadWord memory (typeInfo + TypeInfoBase) = Returns base ->
    direct_base typeInfo (mkEntry base 0 false)
| direct_listed count i e :
    HasSingleBase memory readable kinds typeInfo = Returns false -> BaseCount memory readable kinds typeInfo = Returns count ->
    (i < Z.to_nat count)%nat -> entry_at memory typeInfo i = Returns e -> direct_base typeInfo e.

(** [base_path n t f]: in [n] steps over records that look like typeinfos, [t] derives from a class of the wanted name, at [f]
    within it, with no class of that name before it. *)
Inductive base_path (wanted : text) : nat -> Z -> FoundBase -> Prop :=
| path_here t e :
    direct_base t e -> LooksLikeTypeInfo memory readable (EntryBase e) = Returns true -> NameIs memory readable (EntryBase e) wanted = Returns true ->
    base_path wanted 1 t (mkFound (EntryOffset e) (EntryVirtual e))
| path_on n t e o v :
    direct_base t e -> LooksLikeTypeInfo memory readable (EntryBase e) = Returns true -> NameIs memory readable (EntryBase e) wanted = Returns false ->
    base_path wanted n (EntryBase e) (mkFound o v) -> base_path wanted (S n) t (mkFound (EntryOffset e + o) (EntryVirtual e || v)).

Lemma base_path_pos wanted n t f : base_path wanted n t f -> (0 < n)%nat.
Proof using. destruct 1; lia. Qed.

(** What a visit of the entry [e] finds, relative to the class it is listed in. *)
Definition through (wanted : text) (fuel : nat) (e : BaseEntry) (f : FoundBase) : Prop :=
  LooksLikeTypeInfo memory readable (EntryBase e) = Returns true /\
  ((NameIs memory readable (EntryBase e) wanted = Returns true /\ f = mkFound (EntryOffset e) (EntryVirtual e)) \/
   (NameIs memory readable (EntryBase e) wanted = Returns false /\
    exists n o v, (n <= fuel)%nat /\ base_path wanted n (EntryBase e) (mkFound o v) /\ f = mkFound (EntryOffset e + o) (EntryVirtual e || v))).

Definition moved (at_ f : FoundBase) : FoundBase := mkFound (Offset at_ + Offset f) (Virtual at_ || Virtual f).

Lemma paths_through wanted fuel t f :
  (exists n, (n <= S fuel)%nat /\ base_path wanted n t f) <-> exists e, direct_base t e /\ through wanted fuel e f.
Proof using.
  split.
  - intros (n & Hn & Hp). destruct Hp as [t e Hd Hl Hnm|n t e o v Hd Hl Hnm Hp]; exists e; (split; [done|]); (split; [done|]); [by left|right].
    split; [done|]. exists n, o, v. split; [lia|done].
  - intros (e & Hd & Hl & [[Hnm ->]|(Hnm & n & o & v & Hn & Hp & ->)]).
    + exists 1%nat. split; [lia|]. by apply path_here.
    + exists (S n). split; [lia|]. by apply path_on.
Qed.

(** The offsets met are too small for their sum to overflow. *)
Definition deep_ok (fuel : nat) (at_ : FoundBase) : Prop :=
  (fuel <= S MaxDepth)%nat /\ - (Z.of_nat (S MaxDepth - fuel) * 2 ^ 55) <= Offset at_ <= Z.of_nat (S MaxDepth - fuel) * 2 ^ 55.

Lemma deep_step fuel at_ e :
  deep_ok (S fuel) at_ -> offset_ok (EntryOffset e) ->
  plus_i64 (Offset at_) (EntryOffset e) = Returns (Offset at_ + EntryOffset e) /\ forall v, deep_ok fuel (mkFound (Offset at_ + EntryOffset e) v).
Proof using.
  unfold deep_ok, offset_ok, MaxDepth. intros [Hf Ho] He. change (2 ^ 55) with 36028797018963968 in *. split.
  - unfold plus_i64, in_i64, int64_min, int64_max. rewrite (proj2 (Z.leb_le _ _)), (proj2 (Z.leb_le _ _)) by lia. done.
  - intros v. cbn [Offset]. replace (33 - fuel)%nat with (S (33 - S fuel)) by lia. lia.
Qed.

Lemma CollectBases_spec wanted fuel t at_ :
  mapped t 16 -> deep_ok fuel at_ ->
  exists found, CollectBases memory readable wanted kinds fuel t at_ = Returns found /\
    forall f, In f found <-> exists r, (exists n, (n <= fuel)%nat /\ base_path wanted n t r) /\ f = moved at_ r.
Proof using Hreadable Hkinds.
  revert t at_. induction fuel as [|fuel IH]; intros t at_ Ht Hd; cbn [CollectBases].
  { exists []. split; [done|]. intros f. split; [done|]. intros (r & (n & Hn & Hp%base_path_pos) & _). lia. }
  set (visit := visit_base memory readable wanted (CollectBases memory readable wanted kinds fuel) at_).
  assert (forall e, offset_ok (EntryOffset e) -> exists found, visit e = Returns found /\ forall f, In f found <-> exists r, through wanted fuel e r /\ f = moved at_ r) as Hvisit.
  { intros e He. unfold visit, visit_base, through. destruct (LooksLike_returns (EntryBase e)) as (shaped & -> & Hs). cbn [outcome_bind].
    destruct shaped; cbn [negb]; [|exists []; split; [done|]; intros f; split; [done|by intros (r & [[=] _] & _)]].
    destruct (deep_step _ _ _ Hd He) as [-> Hd']. cbn [outcome_bind]. destruct (NameIs_returns (EntryBase e) wanted (Hs eq_refl)) as (named & E). rewrite E. cbn [outcome_bind].
    destruct named.
    - eexists. split; [done|]. intros f. cbn [In]. split.
      + intros [<-|[]]. eexists. split; [split; [done|left; done]|done].
      + intros (r & [_ [[_ ->]|[[=] _]]] & ->). by left.
    - destruct (IH (EntryBase e) _ (Hs eq_refl) (Hd' (Virtual at_ || EntryVirtual e))) as (found & -> & Hf). exists found. split; [done|]. intros f. rewrite Hf. split.
      + intros ([o v] & (n & Hn & Hp) & ->). eexists. split; [split; [done|right; split; [done|]; exists n, o, v; done]|].
        unfold moved. cbn. f_equal; [lia|by rewrite orb_assoc].
      + intros (r & [_ [[[=] _]|(_ & n & o & v & Hn & Hp & ->)]] & ->). exists (mkFound o v). split; [eauto|]. unfold moved. cbn. f_equal; [lia|by rewrite orb_assoc]. }
  clearbody visit. destruct (HasSingleBase_returns t Ht) as (single & Es & H24). rewrite Es. cbn [outcome_bind]. destruct single.
  - destruct (ReadWord_mapped (t + TypeInfoBase)) as (base & Eb & _); [eapply mapped_part; [by apply H24|unfold TypeInfoBase; lia..]|]. rewrite Eb. cbn [outcome_bind].
    destruct (Hvisit (mkEntry base 0 false)) as (found & -> & Hf); [unfold offset_ok; cbn; lia|]. exists found. split; [done|]. intros f. rewrite Hf. split.
    + intros (r & Hr & ->). exists r. split; [|done]. apply paths_through. eexists. split; [by apply direct_single|done].
    + intros (r & (e & Hde & Hr)%paths_through & ->). exists r. split; [|done]. destruct Hde; congruence.
  - destruct (BaseCount_returns t Ht) as (count & Ec & Hc & Hm). rewrite Ec. cbn [outcome_bind].
    assert (forall k l, (k + length l = Z.to_nat count)%nat -> l = seq k (length l) ->
      forall found0, exists found, outcome_fold (fun found i => run! e := entry_at memory t i in run! more := visit e in Returns (found ++ more)) l found0 = Returns found /\
        forall f, In f found <-> In f found0 \/ exists e r i, (k <= i < Z.to_nat count)%nat /\ entry_at memory t i = Returns e /\ through wanted fuel e r /\ f = moved at_ r) as Hloop.
    { intros k l. revert k. induction l as [|i l IHl]; intros k Hl El found0; cbn [outcome_fold].
      - exists found0. split; [done|]. intros f. split; [by left|]. intros [?|(e & r & i & Hi & _)]; [done|]. cbn in Hl. lia.
      - cbn [length seq] in El. injection El as -> El. cbn [length] in Hl.
        destruct (entry_returns t count k) as (e & Ee & He); [apply Hm; lia|lia|]. rewrite Ee. cbn [outcome_bind].
        destruct (Hvisit e He) as (more & -> & Hmore). cbn [outcome_bind]. destruct (IHl (S k) ltac:(lia) El (found0 ++ more)) as (found & -> & Hf).
        exists found. split; [done|]. intros f. rewrite Hf, in_app_iff, Hmore. split.
        + intros [[?|(r & Hr & ->)]|(e' & r & i & Hi & ? & ? & ?)]; [by left|right; exists e, r, k; split_and!; [lia..|done|done|done]|right; exists e', r, i; split_and!; [lia..|done|done|done]].
        + intros [?|(e' & r & i & Hi & Ei & ? & ?)]; [by left; left|]. destruct (decide (i = k)) as [->|]; [left; right|right].
          * rewrite Ee in Ei. injection Ei as <-. eauto.
          * exists e', r, i. split_and!; [lia..|done|done|done]. }
    destruct (Hloop O (seq 0 (Z.to_nat count))) with (found0 := @nil FoundBase) as (found & -> & Hf); [by rewrite length_seq|by rewrite length_seq|].
    exists found. split; [done|]. intros f. rewrite Hf. split.
    + intros [[]|(e & r & i & Hi & Ee & Hr & ->)]. exists r. split; [|done]. apply paths_through. exists e. split; [|done]. apply (direct_listed t count i); [done..|lia|done].
    + intros (r & (e & Hde & Hr)%paths_through & ->). right. destruct Hde as [|count' i e]; [congruence|]. assert (count' = count) as -> by congruence.
      exists e, r, i. split_and!; [lia..|done|done|done].
Qed.
End Safety.

(** Reading a class's bases out of untrusted records never reads what is not mapped and always ends, whatever they hold,
    cycles included. An offset it gives is that of the base's only path, which is not virtual; and it says there is no such
    base exactly when no chain of at most 33 records leads to one. *)
Theorem FindBaseOffset_spec memory readable kinds typeInfo baseName :
  (forall a n, readable a n = true -> mapped memory a n) -> kinds_ok memory kinds ->
  let path f := exists n, (n <= S MaxDepth)%nat /\ base_path memory readable kinds (LengthPrefixedName baseName) n typeInfo f in
  exists r, FindBaseOffsetByTypeInfo memory readable typeInfo baseName kinds = Returns r /\
    (forall o, r = Ok o -> exists f, path f /\ Virtual f = false /\ o = to_i32 (Offset f) /\ forall f', path f' -> f' = f) /\
    (LooksLikeTypeInfo memory readable typeInfo = Returns true -> r = Err (Error_NotFound ($"'" ++ baseName ++ $"' is not a base")) <-> forall f, ~ path f).
Proof.
  intros Hr Hk path. unfold FindBaseOffsetByTypeInfo. destruct (LooksLike_returns memory readable Hr typeInfo) as (shaped & E & Hs). rewrite E. cbn [outcome_bind].
  destruct shaped; cbn [negb]; [|eexists; split; [done|]; by split]. specialize (Hs eq_refl).
  destruct (CollectBases_spec memory readable Hr kinds Hk (LengthPrefixedName baseName) (S MaxDepth) typeInfo (mkFound 0 false) Hs) as (found & -> & Hf).
  { unfold deep_ok, MaxDepth. cbn. lia. }
  cbn [outcome_bind]. eexists. split; [done|].
  assert (forall f, In f found <-> path f) as Hin.
  { intros f. rewrite Hf. unfold path, moved. cbn. split; [intros ([o v] & Hp & ->); by cbn|]. intros Hp. exists f. split; [done|]. by destruct f. }
  split.
  - intros o. destruct found as [|f [|? ?]]; [done| |done]. destruct (Virtual f) eqn:Ev; [done|]. intros [= <-].
    exists f. split; [apply Hin; by left|]. split; [done|]. split; [done|]. intros f' Hp%Hin. by destruct Hp as [<-|[]].
  - intros _. destruct found as [|f [|g rest]]; split; try done.
    + intros _ f Hp%Hin. done.
    + by destruct (Virtual f).
    + intros Hno. exfalso. apply (Hno f), Hin. by left.
    + intros Hno. exfalso. apply (Hno f), Hin. by left.
Qed.

(** ** Words and tables *)

Section Tables.
Context (memory : Z -> option Z).

(** A range the system lists: its bytes are the memory's, and it ends short of the address space's. *)
Definition range_ok (range : ScanRange) : Prop :=
  0 <= RangeBase range /\ RangeBase range + range_size range + 4 * WordSize < 18446744073709551616 /\
  forall i b, RangeBytes range !! i = Some b -> memory (RangeBase range + Z.of_nat i) = Some b /\ 0 <= b < 256.

Context (ranges : list ScanRange) (Hranges : Forall range_ok ranges).

(** Words with a whole word of the range before them and after them. *)
Definition align_up (a : Z) : Z := (a + 7) / 8 * 8.

Definition interior (range : ScanRange) (at_ : Z) : Prop :=
  at_ mod 8 = 0 /\ align_up (RangeBase range) + 8 <= at_ /\ at_ + 16 <= RangeBase range + range_size range.

Lemma land_align a : 0 <= a <= uint64_max -> Z.land a (uint64_max - (WordSize - 1)) = a / 8 * 8.
Proof using.
  intros Ha. change (uint64_max - (WordSize - 1)) with (Z.shiftl (Z.ones 61) 3). change 8 with (2 ^ 3). rewrite <- Z.shiftr_div_pow2, <- Z.shiftl_mul_pow2 by lia.
  apply Z.bits_inj'. intros i Hi. rewrite Z.land_spec, !Z.shiftl_spec by done. destruct (Z.ltb_spec i 3).
  - rewrite !(Z.testbit_neg_r _ (i - 3)) by lia. apply andb_false_r.
  - rewrite Z.shiftr_spec by lia. replace (i - 3 + 3) with i by lia. destruct (Z.ltb_spec i 64).
    + rewrite Z.ones_spec_low by lia. apply andb_true_r.
    + destruct (decide (a = 0)) as [->|]; [by rewrite Z.testbit_0_l|]. rewrite Z.bits_above_log2; [done|lia|].
      eapply Z.lt_le_trans; [apply (Z.log2_lt_pow2 a 64); [lia|]|exact H0]. unfold uint64_max in Ha. change (2 ^ 64) with 18446744073709551616. lia.
Qed.

Lemma first_word_eq range : range_ok range -> first_word (RangeBase range) = align_up (RangeBase range) + 8.
Proof using.
  intros (H0 & H1 & _). assert (0 <= range_size range) by (unfold range_size; lia). unfold first_word, WordSize in *. change (8 - 1) with 7.
  unfold wrap_u64. change (2 ^ 64) with 18446744073709551616. rewrite (Z.mod_small (RangeBase range + 8 - 1)) by lia. rewrite land_align by (unfold uint64_max; lia). unfold align_up.
  replace (RangeBase range + 8 - 1) with (RangeBase range + 7) by lia. apply Z.mod_small. pose proof (Z.mod_pos_bound (RangeBase range + 7) 8). pose proof (Z.div_mod (RangeBase range + 7) 8). lia.
Qed.

Lemma range_read range at_ : range_ok range -> RangeBase range <= at_ -> at_ + 8 <= RangeBase range + range_size range -> mapped memory at_ 8.
Proof using.
  intros (H0 & _ & Hb) Hlo Hhi i Hi. destruct (lookup_lt_is_Some_2 (RangeBytes range) (Z.to_nat (at_ + i - RangeBase range))) as [b E]; [unfold range_size in Hhi; lia|].
  exists b. destruct (Hb _ _ E) as [Em Hr]. rewrite Z2Nat.id in Em by lia. replace (RangeBase range + (at_ + i - RangeBase range)) with (at_ + i) in Em by lia. done.
Qed.

Lemma words_from_spec range value fuel at_ :
  range_ok range -> at_ mod 8 = 0 -> align_up (RangeBase range) + 8 <= at_ < 18446744073709551616 - 16 -> RangeBase range + range_size range <= at_ + 8 * Z.of_nat fuel ->
  exists found, words_from memory fuel (RangeBase range + range_size range) value at_ = Returns found /\
    forall a, In a found <-> at_ <= a /\ interior range a /\ ReadWord memory a = Returns value.
Proof using.
  intros Hok. pose proof Hok as (H0 & H1 & _).
  assert (RangeBase range <= align_up (RangeBase range)) by (unfold align_up; pose proof (Z.mod_pos_bound (RangeBase range + 7) 8); pose proof (Z.div_mod (RangeBase range + 7) 8); lia).
  revert at_. induction fuel as [|fuel IH]; intros at_ Hmod Hat Hfuel; cbn [words_from]; unfold WordSize in *;
    replace (wrap_u64 (at_ + 2 * 8)) with (at_ + 2 * 8) by (unfold wrap_u64; change (2 ^ 64) with 18446744073709551616; rewrite Z.mod_small; lia).
  - destruct (Z.leb_spec (at_ + 2 * 8) (RangeBase range + range_size range)); [lia|]. eexists. split; [done|]. intros a. unfold interior. split; [done|]. intros (? & (_ & _ & ?) & _). lia.
  - destruct (Z.leb_spec (at_ + 2 * 8) (RangeBase range + range_size range)).
    + destruct (ReadWord_mapped memory at_) as (w & Ew & _); [eapply range_read; [done|lia..]|]. rewrite Ew. cbn [outcome_bind].
      replace (wrap_u64 (at_ + 8)) with (at_ + 8) by (unfold wrap_u64; change (2 ^ 64) with 18446744073709551616; rewrite Z.mod_small; lia).
      destruct (IH (at_ + 8)) as (rest & -> & Hrest); [rewrite Z.add_mod, Hmod by lia; done|lia..|]. cbn [outcome_bind]. eexists. split; [done|]. intros a.
      assert (In a (if w =? value then at_ :: rest else rest) <-> (a = at_ /\ w = value) \/ In a rest) as ->.
      { destruct (Z.eqb_spec w value); cbn [In]; naive_solver. }
      rewrite Hrest. split.
      * intros [[-> ->]|(? & ?)]; [split_and!; [lia|split_and!; [done|lia..]|done]|split; [lia|done]].
      * intros (Hge & Hin & Er). destruct (decide (a = at_)) as [->|]; [left; split; [done|congruence]|right]. split; [|done].
        destruct Hin as (Hm & _). pose proof (Z.div_mod a 8 ltac:(lia)). pose proof (Z.div_mod at_ 8 ltac:(lia)). lia.
    + eexists. split; [done|]. intros a. unfold interior. split; [done|]. intros (? & (_ & _ & ?) & _). lia.
Qed.

Lemma FindWords_spec value :
  exists found, FindWords memory ranges value = Returns found /\
    forall a, In a found <-> (exists range, In range ranges /\ interior range a) /\ ReadWord memory a = Returns value.
Proof using Hranges.
  revert Hranges. induction ranges as [|range rest IH]; intros Hall; cbn [FindWords].
  { eexists. split; [done|]. intros a. split; [done|]. by intros [(? & [] & _) _]. }
  apply Forall_cons in Hall as [Hok Hrest]. specialize (IH Hrest). unfold FindWords_in. rewrite first_word_eq by done. pose proof Hok as (H0 & H1 & Hb).
  assert (0 <= range_size range) by (unfold range_size; lia).
  replace (wrap_u64 (RangeBase range + range_size range)) with (RangeBase range + range_size range)
    by (unfold wrap_u64; change (2 ^ 64) with 18446744073709551616; unfold WordSize in *; rewrite Z.mod_small; lia).
  pose proof (Z.mod_pos_bound (RangeBase range + 7) 8). pose proof (Z.div_mod (RangeBase range + 7) 8 ltac:(lia)).
  destruct (words_from_spec range value (length (RangeBytes range)) (align_up (RangeBase range) + 8)) as (found & -> & Hf);
    [done|unfold align_up; rewrite Z.add_mod, Z.mod_mul by lia; done|unfold align_up, WordSize in *; lia|unfold align_up, range_size; lia|].
  cbn [outcome_bind]. destruct IH as (more & -> & Hm). cbn [outcome_bind]. eexists. split; [done|]. intros a. rewrite in_app_iff, Hf, Hm. cbn [In]. unfold interior. split.
  - intros [(? & ? & ?)|((r & ? & ?) & ?)]; (split; [|done]); eauto.
  - intros [(r & [<-|?] & Hi) ?]; [left|right]; [split_and!; [apply Hi|apply Hi..|done]|]; eauto.
Qed.

(** *** What a search stands for *)

(** [r] is some value with [P], or none when there is none. *)
Definition finds {B} (P : B -> Prop) (r : option B) : Prop := match r with Some b => P b | None => forall b, ~ P b end.

Lemma finds_iff {B} (P Q : B -> Prop) r : (forall b, P b <-> Q b) -> finds P r -> finds Q r.
Proof using. destruct r; cbn; naive_solver. Qed.

Lemma outcome_find_spec {A B} (f : A -> outcome (option B)) (P : A -> B -> Prop) l :
  (forall a, In a l -> exists r, f a = Returns r /\ finds (P a) r) ->
  exists r, outcome_find f l = Returns r /\ finds (fun b => exists a, In a l /\ P a b) r.
Proof using.
  induction l as [|a l IH]; intros H; cbn [outcome_find]; [exists None; split; [done|]; by intros b (? & [] & _)|].
  destruct (H a) as (r & -> & Hr); [by left|]. cbn [outcome_bind]. destruct r as [b|].
  - exists (Some b). split; [done|]. cbn in *. eauto.
  - destruct IH as (r & -> & Hrest); [intros; apply H; by right|]. exists r. split; [done|]. eapply finds_iff; [|exact Hrest]. cbn in *. naive_solver.
Qed.

(** The word at [at_], within a range, holds [value]. *)
Definition word_holds (at_ value : Z) : Prop := (exists range, In range ranges /\ interior range at_) /\ ReadWord memory at_ = Returns value.

Lemma word_holds_around at_ value : word_holds at_ value -> mapped memory (at_ - 8) 24.
Proof using Hranges.
  intros [(range & Hin & Hm & Hlo & Hhi) _] i Hi. assert (range_ok range) as Hok by (rewrite Forall_forall in Hranges; by apply Hranges, list_elem_of_In).
  assert (RangeBase range <= align_up (RangeBase range)) by (unfold align_up; pose proof (Z.mod_pos_bound (RangeBase range + 7) 8); pose proof (Z.div_mod (RangeBase range + 7) 8); lia).
  destruct (range_read range (at_ - 8 + i - i mod 8) Hok) with (i := i mod 8) as (b & E & Hb);
    [pose proof (Z.mod_pos_bound i 8); pose proof (Z.div_mod i 8); lia..|apply Z.mod_pos_bound; lia|].
  exists b. split; [|done]. by replace (at_ - 8 + i) with (at_ - 8 + i - i mod 8 + i mod 8) by lia.
Qed.

(** A whole mangled name of the class starts at [s] within a range. *)
Definition class_name_at (className : text) (s : Z) : Prop :=
  exists range at_, In range ranges /\ s = wrap_u64 (RangeBase range + Z.of_nat at_) /\
    starts_with (bytes_of (LengthPrefixedName className) ++ [0]) (drop at_ (RangeBytes range)) = true /\
    forall before b, at_ = S before -> RangeBytes range !! before = Some b -> name_char b = false.

(** [t] is a table of the class: a typeinfo that holds such a name, a zero above the typeinfo's word, and code under it. *)
Definition primary_table (executable : Z -> bool) (className : text) (t : Z) : Prop :=
  exists s name typeInfo first, class_name_at className s /\ word_holds name s /\ word_holds typeInfo (wrap_u64 (name - 8)) /\
    ReadWord memory (typeInfo - 8) = Returns 0 /\ ReadWord memory (typeInfo + 8) = Returns first /\ executable first = true /\ t = typeInfo + 8.

Lemma table_of_spec executable typeInfo value :
  word_holds typeInfo value ->
  exists r, table_of memory executable typeInfo = Returns r /\
    finds (fun t => exists first, ReadWord memory (typeInfo - 8) = Returns 0 /\ ReadWord memory (typeInfo + 8) = Returns first /\ executable first = true /\ t = typeInfo + 8) r.
Proof using Hranges.
  intros Hm%word_holds_around. unfold table_of, WordSize. destruct (ReadWord_mapped memory (typeInfo - 8)) as (top & Et & _); [eapply mapped_part; [exact Hm|lia..]|].
  destruct (ReadWord_mapped memory (typeInfo + 8)) as (first & Ef & _); [eapply mapped_part; [exact Hm|lia..]|]. rewrite Et. cbn [outcome_bind].
  destruct (Z.eqb_spec top 0); cbn [negb]; [rewrite Ef; cbn [outcome_bind]; destruct (executable first) eqn:Ee|]; eexists; (split; [done|]); cbn; naive_solver congruence.
Qed.

Lemma starts_with_length needle bytes : starts_with needle bytes = true -> (length needle <= length bytes)%nat.
Proof using. revert bytes. induction needle as [|n needle IH]; intros [|b bytes]; cbn; intros H; bools; try lia. apply IH in H0. lia. Qed.

Lemma find_by_name executable className :
  exists r, FindVirtualTableByTypeName memory executable ranges className = Returns r /\ finds (primary_table executable className) r.
Proof using Hranges.
  unfold FindVirtualTableByTypeName. set (needle := bytes_of (LengthPrefixedName className) ++ [0]).
  set (start range at_ := starts_with needle (drop at_ (RangeBytes range)) = true /\ forall before b, at_ = S before -> RangeBytes range !! before = Some b -> name_char b = false).
  set (tables s t := exists name typeInfo first, word_holds name s /\ word_holds typeInfo (wrap_u64 (name - 8)) /\
    ReadWord memory (typeInfo - 8) = Returns 0 /\ ReadWord memory (typeInfo + 8) = Returns first /\ executable first = true /\ t = typeInfo + 8).
  assert (forall range at_, starts_with needle (drop at_ (RangeBytes range)) = true ->
    exists r, table_named_at memory executable ranges range at_ = Returns r /\ finds (fun t => start range at_ /\ tables (wrap_u64 (RangeBase range + Z.of_nat at_)) t) r) as Hat.
  { intros range at_ Hs. unfold table_named_at. destruct (match at_ with O => _ | _ => _ end) eqn:Ename.
    - exists None. split; [done|]. intros t [[_ Hb] _]. destruct at_ as [|before]; [done|]. destruct (RangeBytes range !! before) as [b|] eqn:E; [|done]. by rewrite (Hb _ _ eq_refl E) in Ename.
    - assert (start range at_) as Hst.
      { split; [done|]. intros before b -> E. by rewrite E in Ename. }
      set (s := wrap_u64 _). destruct (FindWords_spec s) as (names & -> & Hn). cbn [outcome_bind].
      destruct (outcome_find_spec (fun name => run! typeInfos := FindWords memory ranges (wrap_u64 (name - WordSize)) in outcome_find (table_of memory executable) typeInfos)
        (fun name t => exists typeInfo first, word_holds typeInfo (wrap_u64 (name - 8)) /\ ReadWord memory (typeInfo - 8) = Returns 0 /\
          ReadWord memory (typeInfo + 8) = Returns first /\ executable first = true /\ t = typeInfo + 8) names) as (r & -> & Hr).
      + intros name _. destruct (FindWords_spec (wrap_u64 (name - WordSize))) as (infos & -> & Hi). cbn [outcome_bind].
        destruct (outcome_find_spec (table_of memory executable)
          (fun typeInfo t => exists first, ReadWord memory (typeInfo - 8) = Returns 0 /\ ReadWord memory (typeInfo + 8) = Returns first /\ executable first = true /\ t = typeInfo + 8) infos) as (r & -> & Hr).
        { intros typeInfo Hin. eapply table_of_spec, Hi, Hin. }
        exists r. split; [done|]. eapply finds_iff; [|exact Hr]. intros t. cbn. split.
        * intros (ti & Hin & first & ?). exists ti, first. split; [by apply Hi|done].
        * intros (ti & first & Hh & ?). exists ti. split; [by apply Hi|eauto].
      + exists r. split; [done|]. eapply finds_iff; [|exact Hr]. intros t. cbn. unfold tables. split.
        * intros (name & Hin & ti & first & ?). split; [done|]. exists name, ti, first. split; [by apply Hn|done].
        * intros (_ & name & ti & first & Hh & ?). exists name. split; [by apply Hn|eauto]. }
  destruct (outcome_find_spec (fun range => outcome_find (table_named_at memory executable ranges range) (occurrences needle (RangeBytes range)))
    (fun range t => exists at_, start range at_ /\ tables (wrap_u64 (RangeBase range + Z.of_nat at_)) t) ranges) as (r & -> & Hr).
  - intros range _. destruct (outcome_find_spec (table_named_at memory executable ranges range)
      (fun at_ t => start range at_ /\ tables (wrap_u64 (RangeBase range + Z.of_nat at_)) t) (occurrences needle (RangeBytes range))) as (r & -> & Hr).
    { intros at_ Hin. apply Hat. unfold occurrences in Hin. apply List.filter_In in Hin. apply Hin. }
    exists r. split; [done|]. eapply finds_iff; [|exact Hr]. intros t. cbn. split; [intros (at_ & _ & ?); eauto|]. intros (at_ & [Hs Hb] & ?).
    exists at_. split; [|done]. unfold occurrences. apply List.filter_In. split; [|done]. apply in_seq. split; [lia|]. pose proof (starts_with_length _ _ Hs) as Hl.
    rewrite length_drop in Hl. unfold needle in Hl. rewrite length_app in Hl. cbn in Hl. lia.
  - exists r. split; [done|]. eapply finds_iff; [|exact Hr]. intros t. unfold primary_table, class_name_at, start, tables. cbn. split.
    + intros (range & Hin & at_ & [Hs Hb] & name & ti & first & ?). exists (wrap_u64 (RangeBase range + Z.of_nat at_)), name, ti, first. split; [eauto 10|done].
    + intros (s & name & ti & first & (range & at_ & Hin & -> & Hs & Hb) & ?). exists range. split; [done|]. exists at_. split; [done|]. by exists name, ti, first.
Qed.

(** *** The one table of a typeinfo *)

Definition table_at (executable : Z -> bool) (typeInfo offsetToTop t : Z) : Prop :=
  word_holds (t - 8) typeInfo /\ starts_table memory executable offsetToTop (t - 8) = Returns true.

Lemma starts_table_returns executable offsetToTop at_ value : word_holds at_ value -> exists b, starts_table memory executable offsetToTop at_ = Returns b.
Proof using Hranges.
  intros Hm%word_holds_around. unfold starts_table, WordSize. destruct (ReadWord_mapped memory (at_ - 8)) as (top & -> & _); [eapply mapped_part; [exact Hm|lia..]|]. cbn [outcome_bind].
  destruct (negb _); [eauto|]. destruct (ReadWord_mapped memory (at_ + 8)) as (first & -> & _); [eapply mapped_part; [exact Hm|lia..]|]. cbn [outcome_bind]. eauto.
Qed.

Lemma only_table_spec executable offsetToTop words found :
  (forall a, In a words -> exists b, starts_table memory executable offsetToTop a = Returns b) ->
  exists r, only_table memory executable offsetToTop words found = Returns r /\
    let starting := List.filter (fun a => match starts_table memory executable offsetToTop a with Returns b => b | _ => false end) words in
    r = match found, starting with Some t, [] => Some t | None, [a] => Some (a + 8) | _, _ => None end.
Proof using.
  revert found. induction words as [|a words IH]; intros found H; cbn [only_table List.filter].
  - eexists. split; [done|]. by destruct found.
  - destruct (H a) as [b E]; [by left|]. rewrite E. cbn [outcome_bind]. destruct b; cbn [negb].
    + destruct found as [t|]; [by exists None|]. destruct (IH (Some (a + WordSize))) as (r & -> & ->); [intros; apply H; by right|].
      eexists. split; [done|]. cbn. by destruct (List.filter _ words).
    + apply IH. intros. apply H. by right.
Qed.

(** No word belongs to two ranges. *)
Definition apart : Prop :=
  forall i j r r' a, ranges !! i = Some r -> ranges !! j = Some r' -> interior r a -> interior r' a -> i = j.

Lemma words_from_NoDup fuel range_end value at_ found :
  words_from memory fuel range_end value at_ = Returns found -> 0 <= at_ -> range_end < 18446744073709551616 - 16 -> at_ < 18446744073709551616 - 16 ->
  NoDup found /\ forall a, In a found -> at_ <= a.
Proof using.
  revert at_ found. induction fuel as [|fuel IH]; intros at_ found; cbn [words_from]; unfold WordSize; intros H H0 He Ha;
    replace (wrap_u64 (at_ + 2 * 8)) with (at_ + 2 * 8) in H by (unfold wrap_u64; change (2 ^ 64) with 18446744073709551616; rewrite Z.mod_small; lia);
    destruct (Z.leb_spec (at_ + 2 * 8) range_end); try done; [injection H as <-; split; [constructor|done]| |injection H as <-; split; [constructor|done]].
  destruct (ReadWord memory at_) as [word| |]; try done. cbn [outcome_bind] in H.
  replace (wrap_u64 (at_ + 8)) with (at_ + 8) in H by (unfold wrap_u64; change (2 ^ 64) with 18446744073709551616; rewrite Z.mod_small; lia).
  destruct (words_from memory fuel range_end value (at_ + 8)) as [rest| |] eqn:E; try done. cbn [outcome_bind] in H. injection H as <-.
  destruct (IH _ _ E) as [Hn Hlo]; [lia..|]. destruct (word =? value).
  - split; [constructor; [|done]; rewrite list_elem_of_In; intros ?%Hlo; lia|]. intros a [<-|?%Hlo]; lia.
  - split; [done|]. intros a ?%Hlo. lia.
Qed.
End Tables.

Lemma FindWords_NoDup memory ranges value found :
  Forall (range_ok memory) ranges -> apart ranges -> FindWords memory ranges value = Returns found -> NoDup found.
Proof.
  revert found. induction ranges as [|range rest IH]; intros found Hall Hap; cbn [FindWords]; [intros [= <-]; constructor|].
  apply Forall_cons in Hall as [Hok Hrest]. destruct (FindWords_in memory value range) as [here| |] eqn:Eh; try done. cbn [outcome_bind].
  destruct (FindWords memory rest value) as [more| |] eqn:Em; try done. cbn [outcome_bind]. intros [= <-].
  assert (FindWords memory [range] value = Returns here) as E1 by (cbn [FindWords]; rewrite Eh; cbn [outcome_bind]; by rewrite app_nil_r).
  destruct (FindWords_spec memory [range] (ltac:(by constructor)) value) as (here' & Eh' & Hh). rewrite E1 in Eh'. injection Eh' as <-.
  destruct (FindWords_spec memory rest Hrest value) as (more' & Em' & Hm). rewrite Em in Em'. injection Em' as <-.
  apply NoDup_app. split_and!.
  - unfold FindWords_in in Eh. destruct Hok as (H0 & H1 & Hb) eqn:Eok. rewrite (first_word_eq memory) in Eh by (split_and!; done).
    assert (0 <= range_size range) by (unfold range_size; lia). unfold WordSize in *.
    replace (wrap_u64 (RangeBase range + range_size range)) with (RangeBase range + range_size range) in Eh
      by (unfold wrap_u64; change (2 ^ 64) with 18446744073709551616; rewrite Z.mod_small; lia).
    pose proof (Z.mod_pos_bound (RangeBase range + 7) 8). pose proof (Z.div_mod (RangeBase range + 7) 8 ltac:(lia)).
    eapply words_from_NoDup; [exact Eh|unfold align_up; lia..].
  - intros a Ha Hb. apply list_elem_of_In, Hh in Ha as [(r & [<-|[]] & Hi) _]. apply list_elem_of_In, Hm in Hb as [(r & Hr & Hi') _].
    apply list_elem_of_In, list_elem_of_lookup in Hr as [j Hj]. by specialize (Hap O (S j) range r a eq_refl Hj Hi Hi').
  - apply (IH more); [done| |done]. intros i j r r' a Hi Hj Hr Hr'. specialize (Hap (S i) (S j) r r' a Hi Hj Hr Hr'). lia.
Qed.

(** Searching a module for a class's vtable by its name ends and reads only what the ranges hold. What it gives is a table
    of that class: a typeinfo whose name is that whole name, a zero offset to top above it and code in its first slot; and it
    gives none exactly when the ranges hold no such table. *)
Theorem FindVirtualTableByTypeName_spec memory ranges executable className :
  Forall (range_ok memory) ranges ->
  exists r, FindVirtualTableByTypeName memory executable ranges className = Returns r /\
    (forall t, r = Some t -> primary_table memory ranges executable className t) /\
    (r = None <-> forall t, ~ primary_table memory ranges executable className t).
Proof.
  intros H. destruct (find_by_name memory ranges H executable className) as (r & E & Hr). exists r. split; [done|]. destruct r as [t|]; cbn in Hr.
  - split; [by intros t' [= <-]|]. split; [done|]. intros Hno. by destruct (Hno t).
  - split; [done|]. by split.
Qed.

(** Searching a module for the table of a typeinfo at an offset to top gives the one there is: it reads only what the
    ranges hold, and gives a table exactly when that is the only word of the typeinfo with the offset above it and code under
    it. *)
Theorem FindVirtualTableByTypeInfo_spec memory ranges executable typeInfo offsetToTop :
  Forall (range_ok memory) ranges -> apart ranges ->
  exists r, FindVirtualTableByTypeInfo memory executable ranges typeInfo offsetToTop = Returns r /\
    forall t, r = Some t <-> table_at memory ranges executable typeInfo offsetToTop t /\
                             forall t', table_at memory ranges executable typeInfo offsetToTop t' -> t' = t.
Proof.
  intros H Hap. unfold FindVirtualTableByTypeInfo. destruct (FindWords_spec memory ranges H typeInfo) as (words & Ew & Hw). rewrite Ew. cbn [outcome_bind].
  pose proof (FindWords_NoDup _ _ _ _ H Hap Ew) as Hnd.
  destruct (only_table_spec memory executable offsetToTop words None) as (r & -> & ->).
  { intros a Ha%Hw. eapply starts_table_returns; [exact H|exact Ha]. }
  eexists. split; [done|]. cbn zeta. set (starts := fun a => match starts_table memory executable offsetToTop a with Returns b => b | _ => false end).
  assert (forall t, In (t - 8) (List.filter starts words) <-> table_at memory ranges executable typeInfo offsetToTop t) as Hin.
  { intros t. rewrite List.filter_In, Hw. unfold table_at, word_holds, starts. destruct (starts_table memory executable offsetToTop (t - 8)) as [[]| |]; naive_solver. }
  assert (NoDup (List.filter starts words)) as Hn.
  { clear -Hnd. induction Hnd as [|a l Ha Hn IH]; cbn; [constructor|]. destruct (starts a); [|done]. constructor; [|done]. intros Hi%list_elem_of_In. apply List.filter_In in Hi as [Hi _]. by apply Ha, list_elem_of_In. }
  intros t. split.
  - destruct (List.filter starts words) as [|a [|? ?]]; try done. intros [= <-]. split; [apply Hin; left; lia|]. intros t' Ht%Hin. destruct Ht as [|[]]. lia.
  - intros [Ht Honly]. apply Hin in Ht. destruct (List.filter starts words) as [|a [|b rest]]; [done| |].
    + destruct Ht as [->|[]]. f_equal. lia.
    + exfalso. assert (a + 8 = t) by (apply Honly, Hin; left; lia). assert (b + 8 = t) by (apply Honly, Hin; right; left; lia).
      apply NoDup_cons in Hn as [Hn _]. apply Hn. replace b with a by lia. left.
Qed.

(** ** A small module *)

Module Sample.
Definition base : Z := 4096.

Definition word (z : Z) : list Z := [z mod 256; z / 256 mod 256; 0; 0; 0; 0; 0; 0].

(** A class [A], its typeinfo at 4112 and its table at 4144, and a class [B] that derives from it, its typeinfo at 4168 and its
    table at 4208. *)
Definition bytes : list Z :=
  word 0 ++ [49; 65; 0; 0; 0; 0; 0; 0] ++ word 0 ++ word 4104 ++ word 0 ++ word 4112 ++ word 9999 ++ word 0 ++
  [49; 66; 0; 0; 0; 0; 0; 0] ++ word 0 ++ word 4160 ++ word 4112 ++ word 0 ++ word 4168 ++ word 9999 ++ word 0.

Definition memory (a : Z) : option Z := if a <? base then None else bytes !! Z.to_nat (a - base).
Definition readable (a n : Z) : bool := (base <=? a) && (a + n <=? base + 128).
Definition executable (a : Z) : bool := a =? 9999.
Definition ranges : list ScanRange := [mkRange base bytes].

Lemma bytes_byte i b : bytes !! i = Some b -> 0 <= b < 256.
Proof. intros H. assert (Forall (fun b => 0 <= b < 256) bytes) as Hall by (vm_compute; repeat constructor; done). rewrite Forall_lookup in Hall. by apply (Hall i). Qed.

Lemma readable_mapped a n : readable a n = true -> mapped memory a n.
Proof.
  unfold readable, mapped, memory, base. intros H i Hi. bools. destruct (Z.ltb_spec (a + i) 4096); [lia|].
  destruct (lookup_lt_is_Some_2 bytes (Z.to_nat (a + i - 4096))) as [b E]; [change (length bytes) with 128%nat; lia|]. exists b. split; [done|]. by eapply bytes_byte.
Qed.

Lemma ranges_ok : Forall (range_ok memory) ranges.
Proof.
  constructor; [|constructor]. split_and!; [done|done|]. intros i b E. cbn [RangeBytes RangeBase] in *. split; [|by eapply bytes_byte].
  unfold memory, base. destruct (Z.ltb_spec (4096 + Z.of_nat i) 4096); [lia|]. by replace (Z.to_nat (4096 + Z.of_nat i - 4096)) with i by lia.
Qed.

Lemma ranges_apart : apart ranges.
Proof. intros i j r r' a Hi Hj _ _. apply lookup_lt_Some in Hi, Hj. cbn in *. lia. Qed.
End Sample.

Lemma FindBaseOffset_spec_witness :
  FindBaseOffsetByTypeInfo Sample.memory Sample.readable 4168 $"A" (mkKinds 0 0) = Returns (Ok 0) /\
  exists f, (exists n, (n <= S MaxDepth)%nat /\ base_path Sample.memory Sample.readable (mkKinds 0 0) (LengthPrefixedName $"A") n 4168 f) /\ Virtual f = false.
Proof.
  assert (kinds_ok Sample.memory (mkKinds 0 0)) as Hk by (intros Hne; by destruct (Hne eq_refl)).
  destruct (FindBaseOffset_spec Sample.memory Sample.readable (mkKinds 0 0) 4168 $"A" Sample.readable_mapped Hk) as (r & E & Hok & _).
  assert (FindBaseOffsetByTypeInfo Sample.memory Sample.readable 4168 $"A" (mkKinds 0 0) = Returns (Ok 0)) as Ev by (vm_compute; reflexivity).
  split; [exact Ev|]. rewrite Ev in E. injection E as <-. destruct (Hok 0 eq_refl) as (f & Hp & Hv & _). exists f. split; [exact Hp|exact Hv].
Defined.

Lemma FindVirtualTableByTypeName_spec_witness :
  FindVirtualTableByTypeName Sample.memory Sample.executable Sample.ranges $"A" = Returns (Some 4144) /\
  primary_table Sample.memory Sample.ranges Sample.executable $"A" 4144.
Proof.
  destruct (FindVirtualTableByTypeName_spec Sample.memory Sample.ranges Sample.executable $"A" Sample.ranges_ok) as (r & E & Hok & _).
  assert (FindVirtualTableByTypeName Sample.memory Sample.executable Sample.ranges $"A" = Returns (Some 4144)) as Ev by (vm_compute; reflexivity).
  split; [exact Ev|]. rewrite Ev in E. injection E as <-. exact (Hok 4144 eq_refl).
Defined.

Lemma FindVirtualTableByTypeInfo_spec_witness :
  FindVirtualTableByTypeInfo Sample.memory Sample.executable Sample.ranges 4112 0 = Returns (Some 4144) /\
  table_at Sample.memory Sample.ranges Sample.executable 4112 0 4144.
Proof.
  destruct (FindVirtualTableByTypeInfo_spec Sample.memory Sample.ranges Sample.executable 4112 0 Sample.ranges_ok Sample.ranges_apart) as (r & E & Hok).
  assert (FindVirtualTableByTypeInfo Sample.memory Sample.executable Sample.ranges 4112 0 = Returns (Some 4144)) as Ev by (vm_compute; reflexivity).
  split; [exact Ev|]. rewrite Ev in E. injection E as <-. exact (proj1 (proj1 (Hok 4144) eq_refl)).
Defined.
