(* ===== verification/Images.v ===== *)
(** * Loaded modules and memory regions: [src/Engine/Memory/Image.linux.cpp], [Image.windows.cpp], the rest of [SigScanner.cpp]

    What the system says of the process (its loaded objects, its mappings) is an argument. A module is found by its file's
    name; two may share one, a loader's stub among them, and the largest is meant. *)

From S2P Require Import Prelude Text Errors Signatures Vtables.

(** ** [Image] *)

(** A null base is 0; the sum of base and size is a pointer's. *)
Definition Contains (image : Image) (address : Z) : bool :=
  negb (ImageBase image =? 0) && (ImageBase image <=? address) && (address <? ImageBase image + ImageSize image).

Fixpoint rfind (p : ascii -> bool) (s : text) : option nat :=
  match s with
  | [] => None
  | c :: s => match rfind p s with Some i => Some (S i) | None => if p c then Some O else None end
  end.

Definition base_name (separator : ascii -> bool) (path : text) : text :=
  match rfind separator path with Some slash => drop (S slash) path | None => path end.

Module Linux.
Definition BaseName : text -> text := base_name (fun c => code c =? 47).

(** A program header; [Bytes] are the [p_memsz] bytes it is mapped as. *)
Record Phdr := mkPhdr { p_type : Z; p_vaddr : Z; Bytes : list Z }.

Definition PT_LOAD : Z := 1.

(** [dl_phdr_info]: what the dynamic loader says of one object. *)
Record Loaded := mkLoaded { dlpi_name : option text; dlpi_addr : Z; dlpi_phdr : list Phdr }.

Record ModuleScan := mkScan { Name : text; BestSpan : Z; Ranges : list ScanRange; Module_ : Image }.

Definition loads (phdr : Phdr) : bool := (p_type phdr =? PT_LOAD) && negb (length (Bytes phdr) =? 0)%nat.

(** One turn of the loop over the headers. *)
Definition add_segment (addr : Z) (acc : Z * list ScanRange) (phdr : Phdr) : Z * list ScanRange :=
  if loads phdr then
    (Z.max acc.1 (wrap_u64 (p_vaddr phdr + Z.of_nat (length (Bytes phdr)))), acc.2 ++ [mkRange (wrap_u64 (addr + p_vaddr phdr)) (Bytes phdr)])
  else acc.

Definition span_and_segments (info : Loaded) : Z * list ScanRange := fold_left (add_segment (dlpi_addr info)) (dlpi_phdr info) (0, []).

Definition DlIterateCallback (scan : ModuleScan) (info : Loaded) : ModuleScan :=
  match dlpi_name info with
  | None => scan
  | Some name =>
      if negb (text_eqb (BaseName name) (Name scan)) then scan
      else
        let '(span, segments) := span_and_segments info in
        if BestSpan scan <? span then mkScan (Name scan) span segments (mkImage (dlpi_addr info) span name) else scan
  end.

(** [loaded] is what [dl_iterate_phdr] gives, in order. *)
Definition FindModuleAndRanges (loaded : list Loaded) (fileName : text) : option (Image * list ScanRange) :=
  let scan := fold_left DlIterateCallback loaded (mkScan fileName 0 [] (mkImage 0 0 [])) in
  match Ranges scan with [] => None | _ => Some (Module_ scan, Ranges scan) end.

Definition PlatformModuleName (moduleName : text) : text := $"lib" ++ moduleName ++ $".so".

(** *** Mappings *)

Record MemoryRegion := mkRegion { RegionEnd : Z; Readable : bool; Executable : bool }.

(** [maps] holds the lines of [/proc/self/maps]: start, end and permissions, or nothing for a line of another shape. *)
Fixpoint QueryRegion (maps : list (option (Z * Z * text))) (target : Z) : option MemoryRegion :=
  match maps with
  | [] => None
  | None :: maps => QueryRegion maps target
  | Some (start, end_, perms) :: maps =>
      if (start <=? target) && (target <? end_) then
        Some (mkRegion end_ (bool_decide (perms !! O = Some "r"%char)) (bool_decide (perms !! 2%nat = Some "x"%char)))
      else QueryRegion maps target
  end.
End Linux.

Module Windows.
Definition BaseName : text -> text := base_name (fun c => (code c =? 92) || (code c =? 47)).

Definition SameFileName (left right : text) : bool := (length left =? length right)%nat && text_eqb (ToLower left) (ToLower right).

(** A module handle: its file's path, none when it is not told, and its base and bytes, none when they are not told. *)
Record Handle := mkHandle { FileName : option text; Information : option (Z * list Z) }.

Definition MaxModules : nat := 1024.

(** The loop over the handles. The array holds the first 1024 of those there are. *)
Definition consider (handles : list Handle) (fileName : text) (best : Image * list Z) (i : nat) : outcome (Image * list Z) :=
  match take MaxModules handles !! i with
  | None => Undefined
  | Some handle =>
      Returns match FileName handle with
              | None => best
              | Some path =>
                  if negb (SameFileName (BaseName path) fileName) then best
                  else
                    match Information handle with
                    | Some (base, bytes) =>
                        if ImageSize best.1 <? Z.of_nat (length bytes) then (mkImage base (Z.of_nat (length bytes)) path, bytes) else best
                    | None => best
                    end
              end
  end.

(** [enumerated] is what [EnumProcessModules] finds; it tells the count of all of them, also when there was not room. *)
Definition FindModuleAndRanges (enumerated : option (list Handle)) (fileName : text) : outcome (option (Image * list ScanRange)) :=
  match enumerated with
  | None => Returns None
  | Some handles =>
      run! best := outcome_fold (consider handles fileName) (seq 0 (length handles)) (mkImage 0 0 [], []) in
      Returns (if ImageBase best.1 =? 0 then None else Some (best.1, [mkRange (ImageBase best.1) best.2]))
  end.

Definition PlatformModuleName (moduleName : text) : text := moduleName ++ $".dll".

(** [MEMORY_BASIC_INFORMATION]. *)
Record MemoryInfo := mkInfo { BaseAddress : Z; RegionSize : Z; State : Z; Protect : Z }.

Definition MEM_COMMIT : Z := 4096.
Definition PAGE_GUARD : Z := 256.
Definition readable_protect : Z := 2 + 4 + 8 + 32 + 64 + 128.
Definition executable_protect : Z := 16 + 32 + 64 + 128.

Definition QueryRegion (info : option MemoryInfo) : option Linux.MemoryRegion :=
  match info with
  | None => None
  | Some info =>
      if negb (State info =? MEM_COMMIT) || negb (Z.land (Protect info) PAGE_GUARD =? 0) then None
      else Some (Linux.mkRegion (BaseAddress info + RegionSize info) (negb (Z.land (Protect info) readable_protect =? 0))
                   (negb (Z.land (Protect info) executable_protect =? 0)))
  end.
End Windows.

(** [query] is the platform's [QueryRegion]. *)
Definition IsExecutableAddress (query : Z -> option Linux.MemoryRegion) (address : Z) : bool :=
  if address =? 0 then false else match query address with Some region => Linux.Executable region | None => false end.

Definition IsReadableAddress (query : Z -> option Linux.MemoryRegion) (address bytes : Z) : bool :=
  if (address =? 0) || (bytes =? 0) then false
  else match query address with Some region => Linux.Readable region && (bytes <=? wrap_u64 (Linux.RegionEnd region - address)) | None => false end.

(** ** What is readable is mapped *)

(** Each line of the maps says what is mapped: the hypothesis of [Vtables.Safety]. *)
Lemma IsReadableAddress_mapped memory maps address bytes :
  (forall start end_ perms, In (Some (start, end_, perms)) maps -> perms !! O = Some "r"%char -> mapped memory start (end_ - start)) ->
  (forall start end_ perms, In (Some (start, end_, perms)) maps -> 0 <= start /\ end_ <= uint64_max) ->
  IsReadableAddress (Linux.QueryRegion maps) address bytes = true -> mapped memory address bytes.
Proof.
  intros Hmaps Hrange. unfold IsReadableAddress. destruct (_ || _); [done|].
  assert (forall region, Linux.QueryRegion maps address = Some region -> Linux.Readable region = true ->
    exists start, start <= address < Linux.RegionEnd region /\ 0 <= start /\ Linux.RegionEnd region <= uint64_max /\ mapped memory start (Linux.RegionEnd region - start)) as Hq.
  { clear bytes. induction maps as [|[[[start end_] perms]|] maps' IH]; cbn [Linux.QueryRegion]; intros region; [done| |].
    - destruct (_ && _) eqn:E; [|apply IH; [intros s e p Hi; apply (Hmaps s e p); by right|intros s e p Hi; apply (Hrange s e p); by right]]. bools. intros [= <-] Hr. cbn in *. bools.
      destruct (Hrange start end_ perms (or_introl eq_refl)). exists start. split_and!; [lia..|]. by eapply Hmaps; [left|].
    - apply IH; [intros s e p Hi; apply (Hmaps s e p); by right|intros s e p Hi; apply (Hrange s e p); by right]. }
  destruct (Linux.QueryRegion maps address) as [region|]; [|done]. intros H. apply andb_true_iff in H as [Hr Hb]. destruct (Hq region eq_refl Hr) as (start & Ha & H0 & He & Hm).
  unfold wrap_u64, uint64_max in *. rewrite Z.mod_small in Hb by lia. apply Z.leb_le in Hb. eapply mapped_part; [exact Hm|lia..].
Qed.

(** ** The largest module of a name *)

Module LinuxFacts.
Import Linux.

Definition named (fileName : text) (info : Loaded) : Prop := exists name, dlpi_name info = Some name /\ BaseName name = fileName.

Definition span (info : Loaded) : Z := (span_and_segments info).1.
Definition segments (info : Loaded) : list ScanRange := (span_and_segments info).2.

(** [best] of [infos] has the name and the largest span, none before it as large. *)
Definition largest (fileName : text) (infos : list Loaded) (best : Loaded) : Prop :=
  exists before after, infos = before ++ best :: after /\ named fileName best /\ 0 < span best /\
    (forall i, In i before -> named fileName i -> span i < span best) /\ (forall i, In i after -> named fileName i -> span i <= span best).

Definition scanned (fileName : text) (infos : list Loaded) (scan : ModuleScan) : Prop :=
  Name scan = fileName /\
  ((BestSpan scan = 0 /\ Ranges scan = [] /\ forall i, In i infos -> named fileName i -> span i <= 0) \/
   exists best name, largest fileName infos best /\ dlpi_name best = Some name /\ BestSpan scan = span best /\ Ranges scan = segments best /\
                     Module_ scan = mkImage (dlpi_addr best) (span best) name).

Lemma callback_scanned fileName infos scan info :
  scanned fileName infos scan -> scanned fileName (infos ++ [info]) (DlIterateCallback scan info).
Proof.
  intros [Hn Hs]. unfold DlIterateCallback.
  assert ((dlpi_name info = None \/ exists name, dlpi_name info = Some name /\ BaseName name <> fileName) -> scanned fileName (infos ++ [info]) scan) as Hkeep.
  { intros Hno. assert (~ named fileName info) as Hnot by (unfold named; intros (m & E & Em); destruct Hno as [?|(m' & E' & ?)]; congruence).
    split; [done|]. destruct Hs as [(H0 & Hr & Hi)|(best & name & (before & after & -> & ? & ? & Hb & Ha) & ? & ? & ? & ?)]; [left|right].
    - split_and!; [done|done|]. intros i [Hin|[<-|[]]]%in_app_iff Hni; [by apply Hi|done].
    - exists best, name. split_and!; [|done..]. exists before, (after ++ [info]). split_and!; [by rewrite <- app_assoc|done|done|done|].
      intros i [Hin|[<-|[]]]%in_app_iff Hni; [by apply Ha|done]. }
  destruct (dlpi_name info) as [name|] eqn:En; [|by apply Hkeep; left]. destruct (text_eqb (BaseName name) (Name scan)) eqn:Eq; cbn [negb].
  2: { apply text_eqb_false in Eq. apply Hkeep. right. exists name. split; [done|congruence]. }
  apply text_eqb_true in Eq. assert (named fileName info) as Hni by (exists name; split; [done|congruence]).
  rewrite (surjective_pairing (span_and_segments info)). fold (span info) (segments info). split; [by case_match|].
  destruct (Z.ltb_spec (BestSpan scan) (span info)).
  - right. exists info, name. split_and!; [|done..]. exists infos, []. split_and!; [done|done| |intros i Hi Hni'|done].
    + destruct Hs as [(E & _)|(best & ? & (? & ? & _ & _ & ? & _) & _ & E & _)]; lia.
    + destruct Hs as [(E & _ & Hall)|(best & ? & (before & after & -> & _ & _ & Hb & Ha) & _ & E & _)]; [specialize (Hall i Hi Hni'); lia|].
      apply in_app_iff in Hi as [Hi|[<-|Hi]]; [specialize (Hb i Hi Hni'); lia|lia|specialize (Ha i Hi Hni'); lia].
  - destruct Hs as [(E & Hr & Hall)|(best & n & (before & after & -> & ? & ? & Hb & Ha) & ? & E & ? & ?)]; [left|right].
    + split_and!; [done|done|]. intros i [Hi|[<-|[]]]%in_app_iff Hi'; [by apply Hall|lia].
    + exists best, n. split_and!; [|done..]. exists before, (after ++ [info]). split_and!; [by rewrite <- app_assoc|done|done|done|].
      intros i [Hi|[<-|[]]]%in_app_iff Hi'; [by apply Ha|lia].
Qed.

Lemma scan_all fileName loaded : scanned fileName loaded (fold_left DlIterateCallback loaded (mkScan fileName 0 [] (mkImage 0 0 []))).
Proof.
  assert (forall infos scan, scanned fileName infos scan -> scanned fileName (infos ++ loaded) (fold_left DlIterateCallback loaded scan)) as H.
  { induction loaded as [|info loaded IH]; intros infos scan Hs; cbn [fold_left]; [by rewrite app_nil_r|].
    replace (infos ++ info :: loaded) with ((infos ++ [info]) ++ loaded) by by rewrite <- app_assoc. apply IH. by apply callback_scanned. }
  apply (H []). split; [done|]. by left.
Qed.

(** The segments of a module are where it is mapped and lie within its span. *)
Lemma add_segments addr phdrs acc :
  0 <= acc.1 -> let r := fold_left (add_segment addr) phdrs acc in
  acc.1 <= r.1 /\
  r.2 = acc.2 ++ map (fun p => mkRange (wrap_u64 (addr + p_vaddr p)) (Bytes p)) (List.filter loads phdrs) /\
  (forall p, In p (List.filter loads phdrs) -> wrap_u64 (p_vaddr p + Z.of_nat (length (Bytes p))) <= r.1).
Proof.
  revert acc. induction phdrs as [|p phdrs IH]; intros acc Hacc; cbn [fold_left List.filter]; [split; [lia|]; split; [by rewrite app_nil_r|done]|].
  destruct (loads p) eqn:El.
  - assert (add_segment addr acc p = (Z.max acc.1 (wrap_u64 (p_vaddr p + Z.of_nat (length (Bytes p)))), acc.2 ++ [mkRange (wrap_u64 (addr + p_vaddr p)) (Bytes p)])) as ->
      by (unfold add_segment; by rewrite El).
    match goal with |- context [fold_left _ phdrs ?a] => destruct (IH a) as (H1 & H2 & H3); [cbn; lia|] end.
    cbn [fst snd] in *. split; [lia|]. split; [rewrite H2; cbn; by rewrite <- app_assoc|]. intros q [<-|Hq]; [lia|by apply H3].
  - assert (add_segment addr acc p = acc) as -> by (unfold add_segment; by rewrite El). by apply IH.
Qed.

Lemma segments_eq info : segments info = map (fun p => mkRange (wrap_u64 (dlpi_addr info + p_vaddr p)) (Bytes p)) (List.filter loads (dlpi_phdr info)).
Proof. unfold segments, span_and_segments. by destruct (add_segments (dlpi_addr info) (dlpi_phdr info) (0, []) ltac:(done)) as (_ & -> & _). Qed.

Lemma segment_in_span info p : In p (List.filter loads (dlpi_phdr info)) -> wrap_u64 (p_vaddr p + Z.of_nat (length (Bytes p))) <= span info.
Proof. unfold span, span_and_segments. destruct (add_segments (dlpi_addr info) (dlpi_phdr info) (0, []) ltac:(done)) as (_ & _ & H). apply H. Qed.
End LinuxFacts.

(** What the search gives: the largest of a name, or that there is none. *)
Definition find_spec (loaded : list Linux.Loaded) (fileName : text) (found : option (Image * list ScanRange)) : Prop :=
  match found with
  | Some (image, ranges) =>
      exists best name, LinuxFacts.largest fileName loaded best /\ Linux.dlpi_name best = Some name /\
        image = mkImage (Linux.dlpi_addr best) (LinuxFacts.span best) name /\
        ranges = map (fun p => mkRange (wrap_u64 (Linux.dlpi_addr best + Linux.p_vaddr p)) (Linux.Bytes p)) (List.filter Linux.loads (Linux.dlpi_phdr best))
  | None => forall i, In i loaded -> LinuxFacts.named fileName i -> LinuxFacts.span i <= 0
  end.

Lemma find_largest loaded fileName : find_spec loaded fileName (Linux.FindModuleAndRanges loaded fileName).
Proof.
  unfold Linux.FindModuleAndRanges. destruct (LinuxFacts.scan_all fileName loaded) as [_ H].
  destruct H as [(_ & -> & H)|(best & name & Hl & En & _ & -> & ->)]; [done|].
  destruct (LinuxFacts.segments best) as [|r rest] eqn:Es.
  - exfalso. destruct Hl as (_ & _ & _ & _ & Hpos & _). rewrite LinuxFacts.segments_eq in Es. unfold LinuxFacts.span, Linux.span_and_segments in Hpos.
    assert (forall acc, List.filter Linux.loads (Linux.dlpi_phdr best) = [] -> fold_left (Linux.add_segment (Linux.dlpi_addr best)) (Linux.dlpi_phdr best) acc = acc) as Hnone.
    { clear. induction (Linux.dlpi_phdr best) as [|p l IH]; intros acc; cbn; [done|]. destruct (Linux.loads p) eqn:El; [done|]. intros Hl.
      assert (Linux.add_segment (Linux.dlpi_addr best) acc p = acc) as -> by (unfold Linux.add_segment; by rewrite El). by apply IH. }
    rewrite Hnone in Hpos; [cbn in Hpos; lia|]. by apply map_eq_nil in Es.
  - exists best, name. by rewrite <- LinuxFacts.segments_eq, Es.
Qed.

(** On Linux a module is found by its file's exact name, and is the largest of those that have it, the first among equals:
    its base, its path and its loaded segments are that one's. None is found exactly when no loaded object of the name has
    memory. *)
Theorem FindModuleAndRanges_largest loaded fileName : find_spec loaded fileName (Linux.FindModuleAndRanges loaded fileName).
Proof. exact (find_largest loaded fileName). Qed.

(** What a module's ranges hold is in the module. *)
Lemma ranges_contained loaded fileName image ranges range address :
  Linux.FindModuleAndRanges loaded fileName = Some (image, ranges) ->
  (forall i p, In i loaded -> In p (Linux.dlpi_phdr i) ->
     0 < Linux.dlpi_addr i /\ 0 <= Linux.p_vaddr p /\ Linux.dlpi_addr i + Linux.p_vaddr p + Z.of_nat (length (Linux.Bytes p)) <= uint64_max) ->
  In range ranges -> RangeBase range <= address < RangeBase range + range_size range -> Contains image address = true.
Proof.
  intros E Hsane Hin Ha. pose proof (find_largest loaded fileName) as H. rewrite E in H. destruct H as (best & name & Hl & _ & -> & ->).
  apply in_map_iff in Hin as (p & <- & Hp). pose proof (LinuxFacts.segment_in_span best p Hp) as Hspan. apply List.filter_In in Hp as [Hp _].
  destruct Hl as (before & after & -> & _ & Hpos & _). destruct (Hsane best p) as (H0 & Hv & Hend); [apply in_app_iff; right; by left|done|].
  unfold range_size in Ha. cbn [RangeBase RangeBytes] in Ha. unfold wrap_u64, uint64_max in *. rewrite Z.mod_small in Ha, Hspan by lia.
  unfold Contains. cbn [ImageBase ImageSize]. destruct (Z.eqb_spec (Linux.dlpi_addr best) 0); [lia|]. cbn [negb andb]. apply andb_true_iff. split; lia.
Qed.

(** ** On Windows *)

Module WindowsFacts.
Import Windows.

Definition named (fileName : text) (h : Handle) (base : Z) (bytes : list Z) (path : text) : Prop :=
  FileName h = Some path /\ SameFileName (BaseName path) fileName = true /\ Information h = Some (base, bytes).

(** [best] is of one of the handles before [n] and as large as any of them. *)
Definition best_of (handles : list Handle) (fileName : text) (n : nat) (best : Image * list Z) : Prop :=
  (best = (mkImage 0 0 [], []) \/
   exists i h base path, (i < n)%nat /\ handles !! i = Some h /\ named fileName h base best.2 path /\ best.1 = mkImage base (Z.of_nat (length best.2)) path) /\
  forall i h base bytes path, (i < n)%nat -> handles !! i = Some h -> named fileName h base bytes path -> Z.of_nat (length bytes) <= ImageSize best.1.

Lemma consider_best handles fileName best i :
  (i < length handles)%nat -> (length handles <= MaxModules)%nat -> best_of handles fileName i best ->
  yields (best_of handles fileName (S i)) (consider handles fileName best i).
Proof.
  intros Hi Hmax [Hbest Hlarge]. unfold consider. rewrite take_ge by done. destruct (lookup_lt_is_Some_2 handles i Hi) as [h Eh]. rewrite Eh. cbn [yields].
  assert (forall best', ((best' = (mkImage 0 0 [], []) \/
    exists i' h base path, (i' < S i)%nat /\ handles !! i' = Some h /\ named fileName h base best'.2 path /\ best'.1 = mkImage base (Z.of_nat (length best'.2)) path)) ->
    ImageSize best.1 <= ImageSize best'.1 ->
    (forall base bytes path, named fileName h base bytes path -> Z.of_nat (length bytes) <= ImageSize best'.1) -> best_of handles fileName (S i) best') as Hnew.
  { intros best' Hb Hle Hh. split; [done|]. intros i' h' base bytes path Hi' Eh' Hn. destruct (decide (i' = i)) as [->|].
    - assert (h' = h) as -> by congruence. by eapply Hh.
    - etrans; [|exact Hle]. eapply (Hlarge i'); [lia|done|done]. }
  assert ((forall base bytes path, named fileName h base bytes path -> Z.of_nat (length bytes) <= ImageSize best.1) -> best_of handles fileName (S i) best) as Hkeep.
  { intros Hh. apply Hnew; [|lia|done]. destruct Hbest as [->|(i' & h' & base & path & ? & ? & ? & ?)]; [by left|right]. exists i', h', base, path. split_and!; [lia|done..]. }
  destruct (FileName h) as [path|] eqn:Ef; [|apply Hkeep; intros ? ? ? (? & _); congruence].
  destruct (SameFileName (BaseName path) fileName) eqn:Es; cbn [negb]; [|apply Hkeep; intros ? ? ? (? & ? & _); congruence].
  destruct (Information h) as [[base bytes]|] eqn:Ei; [|apply Hkeep; intros ? ? ? (_ & _ & ?); congruence].
  destruct (Z.ltb_spec (ImageSize best.1) (Z.of_nat (length bytes))).
  - apply Hnew; cbn [fst snd ImageSize]; [right; exists i, h, base, path; split_and!; [lia|done|done|done]|lia|]. intros b l p (_ & _ & E). assert (l = bytes) as -> by congruence. lia.
  - apply Hkeep. intros b l p (_ & _ & E). assert (l = bytes) as -> by congruence. lia.
Qed.

(** With no more modules than the array has room for, the one found has the name and is as large as any of that name. *)
Lemma FindModuleAndRanges_best handles fileName :
  (length handles <= MaxModules)%nat ->
  exists best, best_of handles fileName (length handles) best /\
    FindModuleAndRanges (Some handles) fileName = Returns (if ImageBase best.1 =? 0 then None else Some (best.1, [mkRange (ImageBase best.1) best.2])).
Proof.
  intros Hmax. unfold FindModuleAndRanges.
  assert (forall n i best, (i + n = length handles)%nat -> best_of handles fileName i best ->
    yields (best_of handles fileName (length handles)) (outcome_fold (consider handles fileName) (seq i n) best)) as H.
  { induction n as [|n IH]; intros i best Hn Hb; cbn [seq outcome_fold]; [replace (length handles) with i by lia; done|].
    eapply yields_bind; [apply consider_best; [lia|done|done]|]. intros best' _ Hb'. apply IH; [lia|done]. }
  assert (best_of handles fileName O (mkImage 0 0 [], [])) as H0 by (split; [by left|intros; lia]).
  destruct (proj1 (yields_exists _ _) (H (length handles) O _ ltac:(lia) H0)) as (best & E & Hb).
  rewrite E. cbn [outcome_bind]. eauto.
Qed.

(** With more, the loop goes on past the end of the array. *)
Lemma too_many_modules handles fileName : (MaxModules < length handles)%nat -> FindModuleAndRanges (Some handles) fileName = Undefined.
Proof.
  intros Hmax. unfold FindModuleAndRanges.
  assert (forall n i best, (i <= MaxModules < i + n)%nat -> outcome_fold (consider handles fileName) (seq i n) best = Undefined) as ->; [|done|lia].
  induction n as [|n IH]; intros i best Hn; cbn [seq outcome_fold]; [lia|]. unfold consider at 1.
  destruct (take MaxModules handles !! i) as [h|] eqn:E; [|done]. cbn [outcome_bind]. apply lookup_lt_Some in E. rewrite length_take in E. apply IH. lia.
Qed.
End WindowsFacts.
