(* ===== verification/Rtti.v ===== *)
(** * Vtables and base classes of a Windows module: [src/Engine/Memory/VtableLookup.windows.cpp]

    MSVC leaves records that refer to each other by their distance from the module's start. A distance read out of the module
    is only followed when what it leads to lies within the module. *)

From S2P Require Import Prelude Text Errors Signatures Vtables.

(** A [ScanRange] whose bytes are the memory's; [From] is 0 for a null base. *)
Record MemRange := mkMem { From : Z; Extent : Z }.

Record PeRtti := mkPe { PeBase : Z; PeSize : Z; Data : MemRange; ReadOnlyData : MemRange }.

Record BaseSubobject := mkSub { SubOffset : Z; Table : option Z }.

Definition TypeDescriptorName : Z := 16.
Definition LocatorOffset : Z := 4.
Definition LocatorTypeDescriptor : Z := 12.
Definition LocatorHierarchy : Z := 16.
Definition LocatorSelf : Z := 20.
Definition LocatorSize : Z := 24.
Definition HierarchyBaseCount : Z := 8.
Definition HierarchyBaseList : Z := 12.
Definition HierarchySize : Z := 16.
Definition BaseMemberOffset : Z := 8.
Definition BaseVirtualOffset : Z := 12.
Definition BaseSize : Z := 24.
Definition MaxBases : Z := 1024.

(** The bytes of a number, the low one first. *)
Fixpoint to_le (n : nat) (v : Z) : list Z := match n with O => [] | S n => v mod 256 :: to_le n (v / 256) end.

Definition ClassAndStructNames (name : text) : list text := [$".?AV" ++ name ++ $"@@"; $".?AU" ++ name ++ $"@@"].

(** A name with its terminator. *)
Definition c_string (s : text) : list Z := bytes_of s ++ [0].

Definition End_ (range : MemRange) : Z := if From range =? 0 then 0 else From range + Extent range.

Definition AtRva (rtti : PeRtti) (rva bytes : Z) : option Z :=
  if (rva <? 0) || (PeSize rtti <? rva) || (PeSize rtti - rva <? bytes) then None else Some (PeBase rtti + rva).

Section Memory.
Context (memory : Z -> option Z).

(** [memcmp(a, needle) == 0]: both are read whole. *)
Fixpoint memcmp_eq (a : Z) (needle : list Z) : outcome bool :=
  match needle with
  | [] => Returns true
  | n :: needle => run! b := byte_at memory a in run! same := memcmp_eq (a + 1) needle in Returns ((b =? n) && same)
  end.

Fixpoint find_value (fuel : nat) (end_ : Z) (needle : list Z) (stride at_ : Z) : outcome (option Z) :=
  if at_ + Z.of_nat (length needle) <=? end_ then
    match fuel with
    | O => OutOfFuel
    | S fuel => run! same := memcmp_eq at_ needle in if same : bool then Returns (Some at_) else find_value fuel end_ needle stride (at_ + stride)
    end
  else Returns None.

Definition FindValue (begin end_ : Z) (needle : list Z) (stride : Z) : outcome (option Z) :=
  if (begin =? 0) || (end_ =? 0) || (length needle =? 0)%nat || (wrap_u64 (end_ - begin) <? Z.of_nat (length needle)) then Returns None
  else find_value (S (Z.to_nat (end_ - begin))) end_ needle stride begin.

Definition ReadI32 (a : Z) : outcome Z := run! v := ReadU32 memory a in Returns (to_i32 v).

Definition FindTypeDescriptor (rtti : PeRtti) (className : text) : outcome Z :=
  run! found := outcome_find (fun mangled =>
    run! name := FindValue (From (Data rtti)) (End_ (Data rtti)) (c_string mangled) 1 in
    Returns match name with
            | Some name =>
                if TypeDescriptorName <=? wrap_u64 (name - PeBase rtti) then Some (wrap_u32 (name - PeBase rtti - TypeDescriptorName)) else None
            | None => None
            end) (ClassAndStructNames className) in
  Returns (default 0 found).

Fixpoint TypeDescriptorMatches (rtti : PeRtti) (rva : Z) (names : list text) : outcome bool :=
  match names with
  | [] => Returns false
  | mangled :: names =>
      match AtRva rtti (rva + TypeDescriptorName) (Z.of_nat (length mangled) + 1) with
      | Some name => run! same := memcmp_eq name (c_string mangled) in if same : bool then Returns true else TypeDescriptorMatches rtti rva names
      | None => TypeDescriptorMatches rtti rva names
      end
  end.

(** Whether the record at [locator] is a locator of that offset; the reads stop at the first that differs. *)
Definition is_locator (rtti : PeRtti) (offset locator : Z) : outcome bool :=
  run! signature := ReadU32 memory locator in
  if negb (signature =? 1) then Returns false
  else
    run! at_ := ReadU32 memory (locator + LocatorOffset) in
    if negb (at_ =? offset) then Returns false
    else run! self := ReadU32 memory (locator + LocatorSelf) in Returns (self =? wrap_u32 (locator - PeBase rtti)).

Fixpoint find_locator (fuel : nat) (rtti : PeRtti) (typeDescriptor offset from : Z) : outcome (option Z) :=
  let begin := From (ReadOnlyData rtti) in
  let end_ := End_ (ReadOnlyData rtti) in
  match fuel with
  | O => OutOfFuel
  | S fuel =>
      run! ref := FindValue from end_ (to_le 4 typeDescriptor) 4 in
      match ref with
      | None => Returns None
      | Some ref =>
          let further := find_locator fuel rtti typeDescriptor offset (ref + 4) in
          if (wrap_u64 (ref - begin) <? LocatorTypeDescriptor) || (wrap_u64 (end_ - ref) <? LocatorSize - LocatorTypeDescriptor) then further
          else
            let locator := ref - LocatorTypeDescriptor in
            run! found := is_locator rtti offset locator in if found : bool then Returns (Some locator) else further
      end
  end.

Definition FindLocator (rtti : PeRtti) (typeDescriptor offset : Z) : outcome (option Z) :=
  find_locator (S (Z.to_nat (Extent (ReadOnlyData rtti)))) rtti typeDescriptor offset (From (ReadOnlyData rtti)).

Definition TableAfter (rtti : PeRtti) (locator : Z) : outcome (option Z) :=
  run! word := FindValue (From (ReadOnlyData rtti)) (End_ (ReadOnlyData rtti)) (to_le 8 locator) WordSize in
  Returns (option_map (fun word => word + WordSize) word).

Definition PrimaryLocator (rtti : PeRtti) (className : text) : outcome (Z * option Z) :=
  run! typeDescriptor := FindTypeDescriptor rtti className in
  if typeDescriptor =? 0 then Returns (0, None)
  else run! locator := FindLocator rtti typeDescriptor 0 in Returns (typeDescriptor, locator).

Definition FindVirtualTableInRtti (rtti : PeRtti) (className : text) : outcome (option Z) :=
  run! (_, locator) := PrimaryLocator rtti className in
  match locator with Some locator => TableAfter rtti locator | None => Returns None end.

(** The list of bases a locator leads to: where it is, and how many. *)
Definition base_list (rtti : PeRtti) (locator : Z) : outcome (option (Z * Z)) :=
  run! rva := ReadI32 (locator + LocatorHierarchy) in
  match AtRva rtti rva HierarchySize with
  | None => Returns None
  | Some hierarchy =>
      run! count := ReadU32 memory (hierarchy + HierarchyBaseCount) in
      if count <=? MaxBases then
        run! rva := ReadI32 (hierarchy + HierarchyBaseList) in Returns (option_map (fun bases => (bases, count)) (AtRva rtti rva (count * 4)))
      else Returns None
  end.

(** The entry [i] of the list when it is of a wanted class: its offset, none for a virtual base. *)
Definition wanted_base (rtti : PeRtti) (bases : Z) (wanted : list text) (i : nat) : outcome (option (option Z)) :=
  run! rva := ReadI32 (bases + Z.of_nat i * 4) in
  match AtRva rtti rva BaseSize with
  | None => Returns None
  | Some base =>
      run! descriptor := ReadI32 base in
      run! same := TypeDescriptorMatches rtti descriptor wanted in
      if negb same then Returns None
      else
        run! virtual := ReadI32 (base + BaseVirtualOffset) in
        if negb (virtual =? -1) then Returns (Some None)
        else run! offset := ReadI32 (base + BaseMemberOffset) in Returns (Some (Some offset))
  end.

(** What the loop gathers, in order. *)
Definition wanted_bases (rtti : PeRtti) (bases count : Z) (wanted : list text) : outcome (list (option Z)) :=
  outcome_fold (fun found i => run! base := wanted_base rtti bases wanted i in Returns (found ++ match base with Some b => [b] | None => [] end))
    (seq 1 (Z.to_nat count - 1)) [].

Definition FindBaseInRtti (rtti : PeRtti) (className baseName : text) : outcome (Result BaseSubobject) :=
  run! (typeDescriptor, locator) := PrimaryLocator rtti className in
  match locator with
  | None => Returns (Err (Error_NotFound ($"no RTTI for '" ++ className ++ $"'")))
  | Some locator =>
      run! listed := base_list rtti locator in
      match listed with
      | None => Returns (Err (Error_Invalid ($"the RTTI base list of '" ++ className ++ $"' is unreadable")))
      | Some (bases, count) =>
          run! found := wanted_bases rtti bases count (ClassAndStructNames baseName) in
          match found with
          | _ :: _ :: _ => Returns (Err (Error_Invalid ($"'" ++ baseName ++ $"' is a base " ++ dec (Z.of_nat (length found)) ++ $" times")))
          | [None] => Returns (Err (Error_Unsupported ($"'" ++ baseName ++ $"' is a virtual base")))
          | [] => Returns (Err (Error_NotFound ($"'" ++ baseName ++ $"' is not a base")))
          | [Some offset] =>
              run! baseLocator := (if offset =? 0 then Returns (Some locator) else FindLocator rtti typeDescriptor (wrap_u32 offset)) in
              run! table := match baseLocator with Some l => TableAfter rtti l | None => Returns None end in
              Returns (Ok (mkSub offset table))
          end
      end
  end.

(** ** The headers of a module *)

Definition ReadU16 (a : Z) : outcome Z := read_le memory 2 a.

(** [winnt.h]'s layouts and signatures. *)
Definition DosHeaderSize : Z := 64.
Definition NtHeadersSize : Z := 264.
Definition SectionHeaderSize : Z := 40.
Definition DosSignature : Z := 23117.
Definition NtSignature : Z := 17744.
Definition e_lfanew (module : Image) : outcome Z := ReadI32 (ImageBase module + 60).

Fixpoint read_bytes (n : nat) (a : Z) : outcome (list Z) :=
  match n with O => Returns [] | S n => run! b := byte_at memory a in run! rest := read_bytes n (a + 1) in Returns (b :: rest) end.

Fixpoint until_nul (bytes : list Z) : list Z := match bytes with [] => [] | b :: bytes => if b =? 0 then [] else b :: until_nul bytes end.

(** The loop over the section headers. *)
Fixpoint find_section (module : Image) (name : text) (n : nat) (header : Z) : outcome MemRange :=
  match n with
  | O => Returns (mkMem 0 0)
  | S n =>
      run! actual := read_bytes 8 header in
      if negb (bool_decide (until_nul actual = bytes_of name)) then find_section module name n (header + SectionHeaderSize)
      else
        run! virtualSize := ReadU32 memory (header + 8) in
        run! size := (if negb (virtualSize =? 0) then Returns virtualSize else ReadU32 memory (header + 16)) in
        run! virtualAddress := ReadU32 memory (header + 12) in
        Returns (if ImageSize module <? virtualAddress + size then mkMem 0 0 else mkMem (ImageBase module + virtualAddress) size)
  end.

Definition FindSection (module : Image) (name : text) : outcome MemRange :=
  if ImageSize module <? DosHeaderSize then Returns (mkMem 0 0)
  else
    run! magic := ReadU16 (ImageBase module) in
    if negb (magic =? DosSignature) then Returns (mkMem 0 0)
    else
      run! lfanew := e_lfanew module in
      let nt := ImageBase module + lfanew in
      if ImageSize module <? wrap_u64 (wrap_u64 lfanew + NtHeadersSize) then Returns (mkMem 0 0)
      else
        run! signature := ReadU32 memory nt in
        if negb (signature =? NtSignature) then Returns (mkMem 0 0)
        else
          run! sections := ReadU16 (nt + 6) in
          run! optional := ReadU16 (nt + 20) in
          find_section module name (Z.to_nat sections) (nt + 24 + optional).

Definition RttiOf (module : Image) : outcome PeRtti :=
  run! data := FindSection module $".data" in
  run! readOnly := FindSection module $".rdata" in
  Returns (mkPe (ImageBase module) (ImageSize module) data readOnly).

Definition FindVirtualTableIn (module : Image) (className : text) : outcome (option Z) :=
  run! rtti := RttiOf module in
  if (From (Data rtti) =? 0) || (From (ReadOnlyData rtti) =? 0) then Returns None else FindVirtualTableInRtti rtti className.

Definition FindBaseIn (module : Image) (className baseName : text) : outcome (Result BaseSubobject) :=
  run! rtti := RttiOf module in
  if (From (Data rtti) =? 0) || (From (ReadOnlyData rtti) =? 0) then Returns (Err (Error_NotFound $"the module has no RTTI sections"))
  else FindBaseInRtti rtti className baseName.
End Memory.

(** ** What is read is mapped *)

Section Safety.
Context (memory : Z -> option Z).

Definition needle_at (a : Z) (needle : list Z) : Prop := forall i x, needle !! i = Some x -> memory (a + Z.of_nat i) = Some x.

Lemma needle_at_cons a x needle : needle_at a (x :: needle) <-> memory a = Some x /\ needle_at (a + 1) needle.
Proof using.
  unfold needle_at. split.
  - intros H. split; [rewrite <- (H O x eq_refl); f_equal; lia|]. intros i y Hy. rewrite <- (H (S i) y Hy). f_equal. lia.
  - intros [Hx H] [|i] y Hy; cbn in Hy; [injection Hy as <-; rewrite <- Hx; f_equal; lia|]. rewrite <- (H i y Hy). f_equal. lia.
Qed.

Lemma memcmp_spec a needle :
  mapped memory a (Z.of_nat (length needle)) -> yields (fun same => same = true <-> needle_at a needle) (memcmp_eq memory a needle).
Proof using.
  revert a. induction needle as [|x needle IH]; intros a Hm; cbn [memcmp_eq].
  { cbn. split; [|done]. intros _ i y Hy. by rewrite lookup_nil in Hy. }
  cbn [length] in Hm. destruct (Hm 0) as (b & Eb & _); [lia|]. rewrite Z.add_0_r in Eb. unfold byte_at. rewrite Eb. cbn [outcome_bind].
  eapply yields_bind; [apply IH; eapply mapped_part; [exact Hm|lia..]|]. intros same _ Hs. cbn [yields]. rewrite andb_true_iff, Hs, needle_at_cons, Eb, Z.eqb_eq. naive_solver.
Qed.

Lemma read_le_needle n a v : mapped memory a (Z.of_nat n) -> 0 <= v < 256 ^ Z.of_nat n -> read_le memory n a = Returns v <-> needle_at a (to_le n v).
Proof using.
  revert a v. induction n as [|n IH]; intros a v Hm Hv; cbn [read_le to_le].
  { change (256 ^ Z.of_nat 0) with 1 in Hv. split; [intros _ i y Hy; by rewrite lookup_nil in Hy|intros _; f_equal; lia]. }
  rewrite Nat2Z.inj_succ, Z.pow_succ_r in Hv by lia.
  assert (mapped memory (a + 1) (Z.of_nat n)) as Hm' by (eapply mapped_part; [exact Hm|lia..]).
  destruct (Hm 0) as (b & Eb & Hb); [lia|]. rewrite Z.add_0_r in Eb. rewrite needle_at_cons. unfold byte_at. rewrite Eb. cbn [outcome_bind].
  assert (0 <= v / 256 < 256 ^ Z.of_nat n) as Hq by (split; [apply Z.div_pos; lia|apply Z.div_lt_upper_bound; lia]).
  rewrite <- (IH _ _ Hm' Hq). destruct (read_le_mapped memory n (a + 1) Hm') as (rest & -> & Hrest). cbn [outcome_bind].
  pose proof (Z.div_mod v 256 ltac:(lia)). pose proof (Z.mod_pos_bound v 256 ltac:(lia)). split.
  - intros [= E]. split; f_equal; lia.
  - intros [[= ->] [= ->]]. f_equal. lia.
Qed.

Definition strides (at_ end_ : Z) (needle : list Z) (stride : Z) (k : nat) : Prop :=
  at_ + Z.of_nat k * stride + Z.of_nat (length needle) <= end_ /\ needle_at (at_ + Z.of_nat k * stride) needle.

(** The first place of the needle, from [at_] on and [stride] apart. *)
Definition first_value (at_ end_ : Z) (needle : list Z) (stride : Z) (r : option Z) : Prop :=
  match r with
  | Some a => exists k, a = at_ + Z.of_nat k * stride /\ strides at_ end_ needle stride k /\ forall j, (j < k)%nat -> ~ strides at_ end_ needle stride j
  | None => forall k, ~ strides at_ end_ needle stride k
  end.

Lemma strides_S at_ end_ needle stride k : strides at_ end_ needle stride (S k) <-> strides (at_ + stride) end_ needle stride k.
Proof using. unfold strides. by replace (at_ + Z.of_nat (S k) * stride) with (at_ + stride + Z.of_nat k * stride) by lia. Qed.

Lemma find_value_spec fuel end_ needle stride at_ :
  mapped memory at_ (end_ - at_) -> 0 < stride -> end_ - at_ < Z.of_nat fuel -> (0 < length needle)%nat ->
  yields (first_value at_ end_ needle stride) (find_value memory fuel end_ needle stride at_).
Proof using.
  intros Hm Hs. revert at_ Hm. induction fuel as [|fuel IH]; intros at_ Hm Hf Hn; cbn [find_value];
    (destruct (Z.leb_spec (at_ + Z.of_nat (length needle)) end_); [|cbn; intros k [? _]; nia]); [lia|].
  eapply yields_bind; [apply memcmp_spec; eapply mapped_part; [exact Hm|lia..]|]. intros same _ Hsame. destruct same.
  - exists O. split; [lia|]. unfold strides. rewrite Z.mul_0_l, Z.add_0_r. split; [split; [done|by apply Hsame]|lia].
  - assert (~ strides at_ end_ needle stride 0) as Hno by (unfold strides; rewrite Z.mul_0_l, Z.add_0_r; intros [_ H1]; apply Hsame in H1; done).
    eapply yields_impl; [apply IH; [eapply mapped_part; [exact Hm|lia..]|lia|done]|]. intros [a|]; cbn.
    + intros (k & -> & Hk & Hfirst). exists (S k). split; [lia|]. split; [by apply strides_S|]. intros [|j] Hj; [done|]. rewrite strides_S. apply Hfirst. lia.
    + intros Hnone [|k]; [done|]. rewrite strides_S. apply Hnone.
Qed.

Lemma FindValue_spec begin end_ needle stride :
  0 < begin <= end_ -> end_ < 18446744073709551616 -> mapped memory begin (end_ - begin) -> 0 < stride -> (0 < length needle)%nat ->
  yields (first_value begin end_ needle stride) (FindValue memory begin end_ needle stride).
Proof using.
  intros Hb He Hm Hs Hn. unfold FindValue. destruct (_ || _ || _ || _) eqn:E.
  - cbn. intros k [Hk _]. unfold wrap_u64 in E. rewrite Z.mod_small in E by lia. rewrite !orb_true_iff in E. destruct E as [[[E|E]|E]|E]; bools; try apply Nat.eqb_eq in E; nia.
  - apply find_value_spec; [done..|lia|done].
Qed.

(** *** A whole module *)

Definition range_in (rtti : PeRtti) (range : MemRange) : Prop :=
  0 < From range /\ 0 <= Extent range /\ PeBase rtti <= From range /\ From range + Extent range <= PeBase rtti + PeSize rtti.

(** The module is mapped whole, short of the end of the address space, and the sections lie in it. *)
Definition rtti_ok (rtti : PeRtti) : Prop :=
  0 < PeBase rtti /\ PeBase rtti + PeSize rtti < 18446744073709551616 /\ mapped memory (PeBase rtti) (PeSize rtti) /\
  range_in rtti (Data rtti) /\ range_in rtti (ReadOnlyData rtti).

Context (rtti : PeRtti) (Hok : rtti_ok rtti).

Lemma End_eq range : range_in rtti range -> End_ range = From range + Extent range.
Proof using. intros (H & _). unfold End_. destruct (Z.eqb_spec (From range) 0); lia. Qed.

Lemma range_mapped range : range_in rtti range -> mapped memory (From range) (Extent range).
Proof using Hok. intros (_ & _ & Hlo & Hhi). destruct Hok as (_ & _ & Hm & _). eapply mapped_part; [exact Hm|lia..]. Qed.

Lemma FindValue_in range from needle stride :
  range_in rtti range -> From range <= from <= From range + Extent range -> 0 < stride -> (0 < length needle)%nat ->
  yields (first_value from (From range + Extent range) needle stride) (FindValue memory from (End_ range) needle stride).
Proof using Hok.
  intros Hr Hf Hs Hn. rewrite End_eq by done. pose proof (range_mapped _ Hr). destruct Hr as (? & ? & ? & ?), Hok as (? & ? & _).
  apply FindValue_spec; [lia|lia| |done|done]. eapply mapped_part; [done|lia..].
Qed.

Lemma AtRva_mapped rva bytes a : AtRva rtti rva bytes = Some a -> 0 <= bytes -> a = PeBase rtti + rva /\ mapped memory a bytes.
Proof using Hok.
  unfold AtRva. destruct (_ || _ || _) eqn:E; [done|]. bools. intros [= <-] Hb. split; [done|]. destruct Hok as (_ & _ & Hm & _). eapply mapped_part; [exact Hm|lia..].
Qed.

Lemma ReadI32_yields a : mapped memory a 4 -> yields (fun _ => True) (ReadI32 memory a).
Proof using. intros H. unfold ReadI32. destruct (ReadU32_mapped memory a H) as (v & -> & _). done. Qed.

Lemma ReadU32_yields a : mapped memory a 4 -> yields (fun v => 0 <= v <= uint32_max) (ReadU32 memory a).
Proof using. intros H. by apply yields_exists, ReadU32_mapped. Qed.

Lemma c_string_pos s : (0 < length (c_string s))%nat.
Proof using. unfold c_string. rewrite length_app. cbn. lia. Qed.

Lemma TypeDescriptorMatches_yields rva names : yields (fun _ => True) (TypeDescriptorMatches memory rtti rva names).
Proof using Hok.
  induction names as [|mangled names IH]; cbn [TypeDescriptorMatches]; [done|]. destruct (AtRva rtti _ _) as [name|] eqn:E; [|done].
  apply AtRva_mapped in E as [_ Hm]; [|lia]. eapply yields_bind; [apply memcmp_spec; unfold c_string, bytes_of; rewrite length_app, length_map; cbn [length]; eapply mapped_part; [exact Hm|lia..]|].
  intros [] _ _; done.
Qed.

(** *** The records *)

(** A locator of the type descriptor, of the table at [offset] in its objects: it says where it is itself. *)
Definition locator_record (typeDescriptor offset l : Z) : Prop :=
  (exists k, l + 12 = From (ReadOnlyData rtti) + Z.of_nat k * 4) /\ From (ReadOnlyData rtti) <= l /\ l + 24 <= From (ReadOnlyData rtti) + Extent (ReadOnlyData rtti) /\
  needle_at (l + 12) (to_le 4 typeDescriptor) /\ ReadU32 memory l = Returns 1 /\ ReadU32 memory (l + 4) = Returns offset /\
  ReadU32 memory (l + 20) = Returns (wrap_u32 (l - PeBase rtti)).

Lemma is_locator_spec offset l :
  mapped memory l 24 ->
  yields (fun b => b = true <-> ReadU32 memory l = Returns 1 /\ ReadU32 memory (l + 4) = Returns offset /\ ReadU32 memory (l + 20) = Returns (wrap_u32 (l - PeBase rtti)))
    (is_locator memory rtti offset l).
Proof using.
  intros Hm. unfold is_locator, LocatorOffset, LocatorSelf. destruct (ReadU32_mapped memory l) as (a & -> & _); [eapply mapped_part; [exact Hm|lia..]|]. cbn [outcome_bind].
  destruct (Z.eqb_spec a 1); cbn [negb]; [|cbn; naive_solver]. destruct (ReadU32_mapped memory (l + 4)) as (b & -> & _); [eapply mapped_part; [exact Hm|lia..]|]. cbn [outcome_bind].
  destruct (Z.eqb_spec b offset); cbn [negb]; [|cbn; naive_solver]. destruct (ReadU32_mapped memory (l + 20)) as (c & -> & _); [eapply mapped_part; [exact Hm|lia..]|]. cbn.
  rewrite Z.eqb_eq. naive_solver.
Qed.

Lemma length_to_le n v : length (to_le n v) = n.
Proof using. revert v. induction n as [|n IH]; intros v; cbn; [done|]. by rewrite IH. Qed.

Lemma find_locator_spec fuel typeDescriptor offset from m :
  let ro := ReadOnlyData rtti in
  from = From ro + Z.of_nat m * 4 -> from <= From ro + Extent ro -> From ro + Extent ro - from < Z.of_nat fuel ->
  yields (fun r => match r with Some l => locator_record typeDescriptor offset l | None => forall l, from <= l + 12 -> ~ locator_record typeDescriptor offset l end)
    (find_locator memory fuel rtti typeDescriptor offset from).
Proof using Hok.
  intros ro. revert from m. induction fuel as [|fuel IH]; intros from m Hfrom Hend Hf; [lia|]. cbn [find_locator].
  pose proof Hok as (H0 & H1 & Hm & _ & Hro). pose proof Hro as (R1 & R2 & R3 & R4). fold ro in Hro, R1, R2, R3, R4. fold ro.
  eapply yields_bind; [apply FindValue_in; [done|lia|lia|rewrite length_to_le; lia]|]. intros [ref|] _.
  2: { intros Hnone l Hl ((k & Hk) & Hlo & Hhi & Hn & _). fold ro in Hk, Hlo, Hhi. apply (Hnone (k - m)%nat). unfold strides.
       rewrite length_to_le. replace (from + Z.of_nat (k - m) * 4) with (l + 12) by lia. split; [lia|done]. }
  intros (k & Href & [Hlen Hn] & Hfirst). rewrite length_to_le in Hlen. rewrite <- Href in Hlen, Hn.
  assert (yields (fun r => match r with Some l => locator_record typeDescriptor offset l | None => forall l, ref + 4 <= l + 12 -> ~ locator_record typeDescriptor offset l end)
    (find_locator memory fuel rtti typeDescriptor offset (ref + 4))) as Hfurther by (apply (IH (ref + 4) (m + k + 1)%nat); lia).
  assert (forall l, locator_record typeDescriptor offset l -> from <= l + 12 -> l + 12 = ref \/ ref + 4 <= l + 12) as Hnext.
  { intros l ((j & Hj) & Hlo & Hhi & Hnl & _) Hl. fold ro in Hj, Hhi. destruct (Z.lt_trichotomy (l + 12) ref) as [Hlt|[?|?]]; [|by left|right; lia].
    exfalso. apply (Hfirst (j - m)%nat); [lia|]. unfold strides. rewrite length_to_le. replace (from + Z.of_nat (j - m) * 4) with (l + 12) by lia. split; [lia|done]. }
  rewrite End_eq by done. unfold wrap_u64. rewrite !Z.mod_small by lia. unfold LocatorTypeDescriptor, LocatorSize.
  destruct (Z.ltb_spec (ref - From ro) 12); [|destruct (Z.ltb_spec (From ro + Extent ro - ref) (24 - 12))]; cbn [orb].
  1, 2: eapply yields_impl; [exact Hfurther|]; intros [l|] Hr; [done|]; intros l Hl Hrec; destruct (Hnext l Hrec Hl); [|by apply (Hr l)];
    destruct Hrec as (_ & Hlo & Hhi & _); fold ro in Hlo, Hhi; lia.
  eapply yields_bind; [apply (is_locator_spec offset (ref - 12)); eapply mapped_part; [exact Hm|lia..]|]. intros found _ Hfound. destruct found.
  - destruct (proj1 Hfound eq_refl) as (? & ? & ?). unfold locator_record. fold ro.
    split_and!; [exists (m + k)%nat; lia|lia|lia|by replace (ref - 12 + 12) with ref by lia|done|done|done].
  - eapply yields_impl; [exact Hfurther|]. intros [l|] Hr; [done|]. intros l Hl Hrec. destruct (Hnext l Hrec Hl) as [El|]; [|by apply (Hr l)].
    destruct Hrec as (_ & _ & _ & _ & ?). replace l with (ref - 12) in * by lia. by apply Hfound in H3.
Qed.

(** A name of the class in [.data], and where its type descriptor is from the module's start. *)
Definition descriptor_named (className : text) (typeDescriptor : Z) : Prop :=
  exists mangled name, In mangled (ClassAndStructNames className) /\ From (Data rtti) <= name /\
    name + Z.of_nat (length (c_string mangled)) <= From (Data rtti) + Extent (Data rtti) /\ needle_at name (c_string mangled) /\
    16 <= name - PeBase rtti /\ typeDescriptor = wrap_u32 (name - PeBase rtti - 16).

Definition primary_record (className : text) (typeDescriptor l : Z) : Prop := descriptor_named className typeDescriptor /\ locator_record typeDescriptor 0 l.

(** The word after one that points to the locator. *)
Definition table_after (l t : Z) : Prop :=
  exists k, t = From (ReadOnlyData rtti) + Z.of_nat k * 8 + 8 /\ t <= From (ReadOnlyData rtti) + Extent (ReadOnlyData rtti) /\ needle_at (t - 8) (to_le 8 l).

Lemma FindTypeDescriptor_yields className :
  yields (fun typeDescriptor => typeDescriptor <> 0 -> descriptor_named className typeDescriptor) (FindTypeDescriptor memory rtti className).
Proof using Hok.
  unfold FindTypeDescriptor. pose proof Hok as (H0 & H1 & _ & Hd & _). pose proof Hd as (D1 & D2 & D3 & D4).
  eapply (yields_bind (fun r => forall td, r = Some td -> descriptor_named className td)).
  2: { intros [td|] _ Htd; cbn; [intros _; by apply Htd|done]. }
  assert (forall l, incl l (ClassAndStructNames className) -> forall f,
    (forall mangled, In mangled l -> yields (fun r => forall td, r = Some td -> descriptor_named className td) (f mangled)) ->
    yields (fun r => forall td, r = Some td -> descriptor_named className td) (outcome_find f l)) as Hfind.
  { intros l Hl f Hf. induction l as [|mangled l IH]; cbn [outcome_find]; [done|]. eapply yields_bind; [apply Hf; by left|].
    intros [td|] _ Htd; [done|]. apply IH; [intros x Hx; apply Hl; by right|intros; apply Hf; by right]. }
  apply Hfind; [apply incl_refl|]. intros mangled Hin. eapply yields_bind; [apply FindValue_in; [done|lia|lia|apply c_string_pos]|].
  intros [name|] _ Hname; [|done]. destruct Hname as (k & Hk & [Hlen Hn] & _). rewrite <- Hk in Hlen, Hn. cbn [yields]. unfold TypeDescriptorName.
  unfold wrap_u64. rewrite Z.mod_small by lia. destruct (Z.leb_spec 16 (name - PeBase rtti)); [|done]. intros td [= <-]. exists mangled, name. split_and!; [done|lia|lia|done|lia|done].
Qed.

Lemma FindLocator_yields typeDescriptor offset :
  yields (finds (locator_record typeDescriptor offset)) (FindLocator memory rtti typeDescriptor offset).
Proof using Hok.
  pose proof Hok as (H0 & H1 & _ & _ & Hro). pose proof Hro as (R1 & R2 & R3 & R4). unfold FindLocator.
  eapply yields_impl; [apply (find_locator_spec _ typeDescriptor offset (From (ReadOnlyData rtti)) 0); lia|]. intros [l|] H; cbn; [done|].
  intros l Hl. apply (H l); [|done]. destruct Hl as (_ & ? & _). lia.
Qed.

Lemma PrimaryLocator_yields className :
  yields (fun '(typeDescriptor, l) => forall l', l = Some l' -> primary_record className typeDescriptor l') (PrimaryLocator memory rtti className).
Proof using Hok.
  unfold PrimaryLocator. eapply yields_bind; [apply FindTypeDescriptor_yields|]. intros td _ Htd. destruct (Z.eqb_spec td 0); [done|].
  eapply yields_bind; [apply FindLocator_yields|]. intros [l|] _ Hl; cbn; [|done]. intros l' [= <-]. split; [by apply Htd|done].
Qed.

Lemma TableAfter_yields l : yields (finds (table_after l)) (TableAfter memory rtti l).
Proof using Hok.
  unfold TableAfter, WordSize. pose proof Hok as (_ & _ & _ & _ & Hro). pose proof Hro as (R1 & R2 & R3 & R4).
  eapply yields_bind; [apply FindValue_in; [done|lia|lia|rewrite length_to_le; lia]|]. intros [w|] _ Hw; cbn [option_map yields finds].
  - destruct Hw as (k & Hk & [Hlen Hn] & _). rewrite length_to_le in Hlen. rewrite <- Hk in Hlen, Hn. exists k. split_and!; [lia|lia|by replace (w + 8 - 8) with w by lia].
  - intros t (k & Ht & He & Hn). apply (Hw k). unfold strides. rewrite length_to_le. replace (From (ReadOnlyData rtti) + Z.of_nat k * 8) with (t - 8) by lia. split; [lia|done].
Qed.

(** *** The list of bases *)

Lemma base_list_yields l :
  mapped memory l 24 -> yields (fun r => forall bases count, r = Some (bases, count) -> mapped memory bases (count * 4)) (base_list memory rtti l).
Proof using Hok.
  intros Hm. unfold base_list, LocatorHierarchy, HierarchySize, HierarchyBaseCount, HierarchyBaseList. eapply yields_bind; [apply ReadI32_yields; eapply mapped_part; [exact Hm|lia..]|].
  intros rva _ _. destruct (AtRva rtti rva 16) as [h|] eqn:E; [|done]. apply AtRva_mapped in E as [_ Hh]; [|lia].
  eapply yields_bind; [apply ReadU32_yields; eapply mapped_part; [exact Hh|lia..]|]. intros count _ Hc. cbn beta in Hc. destruct (count <=? MaxBases); [|done].
  eapply yields_bind; [apply ReadI32_yields; eapply mapped_part; [exact Hh|lia..]|]. intros rva' _ _. cbn [yields].
  destruct (AtRva rtti rva' (count * 4)) as [b|] eqn:E; [|done]. apply AtRva_mapped in E as [_ Hb]; [|lia]. by intros bases c [= <- <-].
Qed.

Lemma wanted_base_yields bases count wanted i :
  mapped memory bases (count * 4) -> (i < Z.to_nat count)%nat -> yields (fun _ => True) (wanted_base memory rtti bases wanted i).
Proof using Hok.
  intros Hm Hi. unfold wanted_base, BaseSize, BaseVirtualOffset, BaseMemberOffset. eapply yields_bind; [apply ReadI32_yields; eapply mapped_part; [exact Hm|lia..]|].
  intros rva _ _. destruct (AtRva rtti rva 24) as [base|] eqn:E; [|done]. apply AtRva_mapped in E as [_ Hb]; [|lia].
  eapply yields_bind; [apply ReadI32_yields; eapply mapped_part; [exact Hb|lia..]|]. intros d _ _. eapply yields_bind; [apply TypeDescriptorMatches_yields|].
  intros [] _ _; cbn [negb]; [|done]. eapply yields_bind; [apply ReadI32_yields; eapply mapped_part; [exact Hb|lia..]|]. intros v _ _. destruct (negb _); [done|].
  eapply yields_bind; [apply ReadI32_yields; eapply mapped_part; [exact Hb|lia..]|]. done.
Qed.

(** What [wanted_bases] gathers, without the runs. *)
Definition base_of (bases : Z) (wanted : list text) (i : nat) : option (option Z) :=
  match wanted_base memory rtti bases wanted i with Returns r => r | _ => None end.

Lemma wanted_bases_yields bases count wanted :
  mapped memory bases (count * 4) -> wanted_bases memory rtti bases count wanted = Returns (omap (base_of bases wanted) (seq 1 (Z.to_nat count - 1))).
Proof using Hok.
  intros Hm. unfold wanted_bases. assert (forall l found, (forall i, In i l -> (i < Z.to_nat count)%nat) ->
    outcome_fold (fun found i => run! base := wanted_base memory rtti bases wanted i in Returns (found ++ match base with Some b => [b] | None => [] end)) l found =
    Returns (found ++ omap (base_of bases wanted) l)) as H.
  { induction l as [|i l IH]; intros found Hl; cbn [outcome_fold]; [by rewrite app_nil_r|].
    pose proof (wanted_base_yields bases count wanted i Hm (Hl i (or_introl eq_refl))) as [r [E _]]%yields_exists. rewrite E. cbn [outcome_bind].
    rewrite IH by (intros; apply Hl; by right). f_equal. rewrite <- app_assoc. f_equal. cbn. unfold base_of at 2. rewrite E. by destruct r. }
  rewrite H; [done|]. intros i Hi%in_seq. lia.
Qed.
End Safety.

(** ** Sections *)

Section Headers.
Context (memory : Z -> option Z) (module : Image).

(** The module is mapped whole, short of the end of the address space. *)
Definition module_ok : Prop :=
  0 < ImageBase module /\ ImageBase module + ImageSize module < 18446744073709551616 /\ mapped memory (ImageBase module) (ImageSize module).

(** The distance to its headers is not negative, and its section headers lie within it: a loader maps no other module. *)
Definition headers_ok : Prop :=
  forall lfanew sections optional, e_lfanew memory module = Returns lfanew ->
    0 <= lfanew /\
    (ReadU16 memory (ImageBase module + lfanew + 6) = Returns sections -> ReadU16 memory (ImageBase module + lfanew + 20) = Returns optional ->
     lfanew + 24 + optional + sections * SectionHeaderSize <= ImageSize module).

Context (Hok : module_ok) (Hheaders : headers_ok).

Lemma ReadU16_yields a : mapped memory a 2 -> yields (fun v => 0 <= v <= 65535) (ReadU16 memory a).
Proof using. intros H. destruct (read_le_mapped memory 2 a H) as (v & E & Hv). unfold ReadU16. rewrite E. change (256 ^ Z.of_nat 2) with 65536 in Hv. cbn. lia. Qed.

Lemma read_bytes_yields n a : mapped memory a (Z.of_nat n) -> yields (fun _ => True) (read_bytes memory n a).
Proof using.
  revert a. induction n as [|n IH]; intros a H; cbn [read_bytes]; [done|]. destruct (byte_mapped memory a (Z.of_nat (S n)) H) as (b & ->); [lia|]. cbn [outcome_bind].
  eapply yields_bind; [apply IH; eapply mapped_part; [exact H|lia..]|]. done.
Qed.

(** A section found lies in the module. *)
Definition section_in (range : MemRange) : Prop :=
  From range <> 0 -> ImageBase module <= From range /\ 0 <= Extent range /\ From range + Extent range <= ImageBase module + ImageSize module.

Lemma find_section_yields name n header :
  mapped memory header (Z.of_nat n * SectionHeaderSize) -> yields section_in (find_section memory module name n header).
Proof using.
  unfold SectionHeaderSize. revert header. induction n as [|n IH]; intros header Hm; cbn [find_section]; [by intros []|].
  eapply yields_bind; [apply read_bytes_yields; eapply mapped_part; [exact Hm|lia..]|]. intros actual _ _.
  destruct (negb _); [apply IH; unfold SectionHeaderSize; eapply mapped_part; [exact Hm|lia..]|].
  eapply yields_bind; [apply ReadU32_yields; eapply mapped_part; [exact Hm|lia..]|]. intros virtualSize _ Hvs. cbn beta in Hvs.
  eapply (yields_bind (fun size => 0 <= size)).
  { destruct (negb _); [cbn; lia|]. eapply yields_impl; [apply ReadU32_yields; eapply mapped_part; [exact Hm|lia..]|]. cbn. lia. }
  intros size _ Hsize. eapply yields_bind; [apply ReadU32_yields; eapply mapped_part; [exact Hm|lia..]|]. intros va _ Hva. cbn beta in Hva. cbn [yields].
  destruct (Z.ltb_spec (ImageSize module) (va + size)); [by intros []|]. intros _. cbn [From Extent]. lia.
Qed.

Lemma e_lfanew_yields : DosHeaderSize <= ImageSize module -> yields (fun v => int32_min <= v <= int32_max) (e_lfanew memory module).
Proof using Hok.
  unfold DosHeaderSize. intros Hs. destruct Hok as (_ & _ & Hm). unfold e_lfanew, ReadI32. eapply yields_bind; [apply ReadU32_yields; eapply mapped_part; [exact Hm|lia..]|].
  intros v _ Hv. cbn beta in Hv. cbn [yields]. unfold to_i32, wrap_u32, uint32_max, int32_min, int32_max in *. rewrite Z.mod_small by lia. case_match; lia.
Qed.

Lemma FindSection_yields name : yields section_in (FindSection memory module name).
Proof using Hok Hheaders.
  unfold FindSection. pose proof Hok as (H0 & H1 & Hm). destruct (Z.ltb_spec (ImageSize module) DosHeaderSize) as [|Hs]; [by intros []|].
  assert (yields (fun v => int32_min <= v <= int32_max) (e_lfanew memory module)) as Hlf by by apply e_lfanew_yields.
  unfold DosHeaderSize in Hs. eapply yields_bind; [apply ReadU16_yields; eapply mapped_part; [exact Hm|lia..]|]. intros magic _ _.
  destruct (negb _); [by intros []|]. eapply yields_bind; [exact Hlf|]. intros lfanew Elf Hl. unfold int32_min, int32_max in Hl.
  destruct (Hheaders lfanew 0 0 Elf) as [Hpos _]. unfold wrap_u64, NtHeadersSize. rewrite (Z.mod_small lfanew), Z.mod_small by lia.
  destruct (Z.ltb_spec (ImageSize module) (lfanew + 264)) as [|Hn]; [by intros []|].
  eapply yields_bind; [apply ReadU32_yields; eapply mapped_part; [exact Hm|lia..]|]. intros signature _ _. destruct (negb _); [by intros []|].
  eapply yields_bind; [apply ReadU16_yields; eapply mapped_part; [exact Hm|lia..]|]. intros sections Es Hsec.
  eapply yields_bind; [apply ReadU16_yields; eapply mapped_part; [exact Hm|lia..]|]. intros optional Eo Hopt. cbn beta in Hsec, Hopt.
  destruct (Hheaders lfanew sections optional Elf) as [_ Hin]. specialize (Hin Es Eo). apply find_section_yields. rewrite Z2Nat.id by lia.
  eapply mapped_part; [exact Hm|lia..].
Qed.

Lemma RttiOf_yields :
  yields (fun rtti => PeBase rtti = ImageBase module /\ PeSize rtti = ImageSize module /\
                      (From (Data rtti) <> 0 -> From (ReadOnlyData rtti) <> 0 -> rtti_ok memory rtti)) (RttiOf memory module).
Proof using Hok Hheaders.
  unfold RttiOf. eapply yields_bind; [apply FindSection_yields|]. intros data _ Hd. eapply yields_bind; [apply FindSection_yields|]. intros ro _ Hr. cbn.
  split; [done|]. split; [done|]. intros Hd0 Hr0. specialize (Hd Hd0). specialize (Hr Hr0). destruct Hok as (H0 & H1 & Hm). unfold rtti_ok, range_in. cbn. split_and!; (done || lia).
Qed.
End Headers.

(** What a base of a class in a module is: the class's descriptor and locator, the list of bases that locator leads to, and in
    it the one entry of the base's name, which is not virtual, at [offset]; the table is after the locator for that offset. *)
Definition module_base (memory : Z -> option Z) (rtti : PeRtti) (className baseName : text) (b : BaseSubobject) : Prop :=
  exists typeDescriptor l bases count i,
    primary_record memory rtti className typeDescriptor l /\ base_list memory rtti l = Returns (Some (bases, count)) /\ (1 <= i < Z.to_nat count)%nat /\
    wanted_base memory rtti bases (ClassAndStructNames baseName) i = Returns (Some (Some (SubOffset b))) /\
    (forall j, (1 <= j < Z.to_nat count)%nat -> j <> i -> wanted_base memory rtti bases (ClassAndStructNames baseName) j = Returns None) /\
    forall t, Table b = Some t -> exists l', locator_record memory rtti typeDescriptor (wrap_u32 (SubOffset b)) l' /\ table_after memory rtti l' t.

Lemma omap_one {A B} (f : A -> option B) l b :
  NoDup l -> omap f l = [b] -> exists i, In i l /\ f i = Some b /\ forall j, In j l -> j <> i -> f j = None.
Proof.
  induction 1 as [|a l Ha Hn IH]; cbn; [done|]. destruct (f a) as [c|] eqn:E.
  - intros [= -> H]. exists a. split; [by left|]. split; [done|]. intros j [->|Hj] Hne; [done|]. destruct (f j) as [d|] eqn:Ej; [|done].
    assert (d ∈ omap f l) as Hd by (apply list_elem_of_omap; exists j; split; [by apply list_elem_of_In|done]). rewrite H in Hd. by apply not_elem_of_nil in Hd.
  - intros H. destruct (IH H) as (i & Hi & Ei & Hj). exists i. split; [by right|]. split; [done|]. intros j [<-|Hj']; [done|by apply Hj].
Qed.

Lemma FindBaseInRtti_yields memory rtti className baseName :
  rtti_ok memory rtti -> yields (fun r => forall b, r = Ok b -> module_base memory rtti className baseName b) (FindBaseInRtti memory rtti className baseName).
Proof.
  intros Hok. unfold FindBaseInRtti. eapply yields_bind; [apply PrimaryLocator_yields, Hok|]. intros [td [l|]] _ Hl; [|done]. specialize (Hl l eq_refl).
  pose proof Hl as [_ (_ & Hlo & Hhi & _)]. pose proof Hok as (H0 & H1 & Hm & _ & (R1 & R2 & R3 & R4)).
  eapply yields_bind; [apply base_list_yields; [done|]; eapply mapped_part; [exact Hm|lia..]|]. intros [[bases count]|] Elist Hb; [|done]. specialize (Hb bases count eq_refl).
  rewrite (wanted_bases_yields memory rtti Hok bases count _ Hb). cbn [outcome_bind].
  destruct (omap _ _) as [|[offset|] [|? ?]] eqn:Efound; try done.
  apply omap_one in Efound as (i & Hi%in_seq & Ei & Hj); [|apply NoDup_seq].
  assert (forall j, (1 <= j < Z.to_nat count)%nat -> wanted_base memory rtti bases (ClassAndStructNames baseName) j = Returns (base_of memory rtti bases (ClassAndStructNames baseName) j)) as Hbase.
  { intros j Hj'.
    pose proof (wanted_base_yields memory rtti Hok bases count (ClassAndStructNames baseName) j Hb ltac:(lia)) as [r [E _]]%yields_exists. unfold base_of. by rewrite E. }
  eapply (yields_bind (fun bl => forall l', bl = Some l' -> locator_record memory rtti td (wrap_u32 offset) l')).
  { destruct (Z.eqb_spec offset 0) as [->|]; [intros l' [= <-]; apply Hl|]. eapply yields_impl; [by apply FindLocator_yields|]. by intros [l'|] H l'' [= <-]. }
  intros bl _ Hbl. eapply (yields_bind (fun t => forall t', t = Some t' -> exists l', bl = Some l' /\ table_after memory rtti l' t')).
  { destruct bl as [l'|]; [|done]. eapply yields_impl; [by apply TableAfter_yields|]. intros [t|] H t' [= <-]. eauto. }
  intros table _ Ht b [= <-]. exists td, l, bases, count, i. cbn [SubOffset Table]. split_and!; [done|done|lia|lia| | |].
  - by rewrite Hbase, Ei by lia.
  - intros j Hj' Hne. rewrite Hbase, (Hj j) by (done || (apply in_seq; lia)). done.
  - intros t Et. destruct (Ht t Et) as (l' & -> & ?). eauto.
Qed.

(** Looking up a base of a class in a Windows module whose headers are within it reads only the module, whatever its
    records hold. What it gives is the offset of the one entry of that name, which is not virtual, in the list of bases that
    the class's own locator leads to, and the table it gives is after the locator of that class for that offset. *)
Theorem FindBaseIn_spec memory module className baseName :
  module_ok memory module -> headers_ok memory module ->
  exists r, FindBaseIn memory module className baseName = Returns r /\
    forall b, r = Ok b -> exists rtti, RttiOf memory module = Returns rtti /\ module_base memory rtti className baseName b.
Proof.
  intros Hm Hh. apply yields_exists. unfold FindBaseIn. eapply yields_bind; [by apply RttiOf_yields|]. intros rtti E (_ & _ & Hok).
  destruct (Z.eqb_spec (From (Data rtti)) 0); [done|]. destruct (Z.eqb_spec (From (ReadOnlyData rtti)) 0); [done|].
  eapply yields_impl; [apply FindBaseInRtti_yields; auto|]. cbn. intros r Hr b Hb. exists rtti. eauto.
Qed.

(** The vtable it gives is after the class's own locator. *)
Lemma FindVirtualTableIn_table memory module className :
  module_ok memory module -> headers_ok memory module ->
  exists r, FindVirtualTableIn memory module className = Returns r /\
    forall t, r = Some t -> exists rtti td l, RttiOf memory module = Returns rtti /\ primary_record memory rtti className td l /\ table_after memory rtti l t.
Proof.
  intros Hm Hh. apply yields_exists. unfold FindVirtualTableIn. eapply yields_bind; [by apply RttiOf_yields|]. intros rtti E (_ & _ & Hok).
  destruct (Z.eqb_spec (From (Data rtti)) 0); [done|]. destruct (Z.eqb_spec (From (ReadOnlyData rtti)) 0); [done|].
  unfold FindVirtualTableInRtti. eapply yields_bind; [apply PrimaryLocator_yields; auto|]. intros [td [l|]] _ Hl; [|done].
  eapply yields_impl; [apply TableAfter_yields; auto|]. cbn. intros [t|] Ht; [|done]. intros t' [= <-]. exists rtti, td, l. auto.
Qed.

(** ** Small modules *)

Module Sample.
Definition base : Z := 65536.

Definition memory_of (bytes : list Z) (a : Z) : option Z := if a <? base then None else bytes !! Z.to_nat (a - base).

Definition words (l : list Z) : list Z := flat_map (fun v => to_le 4 (wrap_u32 v)) l.

Definition dos_header (lfanew : Z) : list Z := to_le 2 DosSignature ++ replicate 58 0 ++ to_le 4 (wrap_u32 lfanew).

Definition section (name : text) (address size : Z) : list Z :=
  bytes_of name ++ replicate (8 - length name) 0 ++ words [size; address; size] ++ replicate 20 0.

(** A class [A] that derives from [C]. *)
Definition bytes : list Z :=
  dos_header 64 ++ to_le 4 NtSignature ++ to_le 2 0 ++ to_le 2 2 ++ replicate 12 0 ++ to_le 2 240 ++ to_le 2 0 ++ replicate 240 0 ++
  section $".data" 408 48 ++ section $".rdata" 456 112 ++
  replicate 16 0 ++ c_string $".?AVA@@" ++ replicate 16 0 ++ c_string $".?AVC@@" ++
  words [1; 0; 0; 408; 496; 456] ++ to_le 8 (base + 456) ++ replicate 8 0 ++ words [0; 0; 2; 512] ++ words [520; 544] ++
  words [408; 0; 0; -1; 0; 0] ++ words [432; 0; 0; -1; 0; 0].

Definition module : Image := mkImage base 568 [].

Lemma memory_mapped l n : Forall (fun b => 0 <= b < 256) l -> n = Z.of_nat (length l) -> mapped (memory_of l) base n.
Proof.
  intros Hall -> i Hi. unfold memory_of. destruct (Z.ltb_spec (base + i) base); [lia|]. replace (Z.to_nat (base + i - base)) with (Z.to_nat i) by lia.
  destruct (lookup_lt_is_Some_2 l (Z.to_nat i)) as [b E]; [lia|]. exists b. split; [done|]. rewrite Forall_lookup in Hall. by eapply Hall.
Qed.

Lemma module_holds : module_ok (memory_of bytes) module.
Proof.
  split; [done|]. split; [done|]. apply memory_mapped; [|vm_compute; reflexivity].
  assert (forallb (fun b => (0 <=? b) && (b <? 256)) bytes = true) as H by (vm_compute; reflexivity).
  apply Forall_forall. intros b Hb%list_elem_of_In. rewrite forallb_forall in H. specialize (H b Hb). bools. lia.
Qed.

Lemma headers : headers_ok (memory_of bytes) module.
Proof.
  intros lfanew sections optional H.
  assert (e_lfanew (memory_of bytes) module = Returns 64) as E by (vm_compute; reflexivity). rewrite E in H. injection H as <-. split; [done|].
  assert (ReadU16 (memory_of bytes) (ImageBase module + 64 + 6) = Returns 2) as -> by (vm_compute; reflexivity).
  assert (ReadU16 (memory_of bytes) (ImageBase module + 64 + 20) = Returns 240) as -> by (vm_compute; reflexivity). intros [= <-] [= <-]. vm_compute. discriminate.
Qed.

(** Its headers are before the module: the sum that is compared wraps around to 64. *)
Definition early : list Z := dos_header (-200) ++ replicate 300 0.
Definition early_module : Image := mkImage base 364 [].
End Sample.

Lemma FindBaseIn_spec_witness :
  FindBaseIn (Sample.memory_of Sample.bytes) Sample.module $"A" $"C" = Returns (Ok (mkSub 0 (Some (Sample.base + 488)))) /\
  exists rtti, module_base (Sample.memory_of Sample.bytes) rtti $"A" $"C" (mkSub 0 (Some (Sample.base + 488))).
Proof.
  destruct (FindBaseIn_spec (Sample.memory_of Sample.bytes) Sample.module $"A" $"C" Sample.module_holds Sample.headers) as (r & E & H).
  assert (FindBaseIn (Sample.memory_of Sample.bytes) Sample.module $"A" $"C" = Returns (Ok (mkSub 0 (Some (Sample.base + 488))))) as Ev by (vm_compute; reflexivity).
  split; [exact Ev|]. rewrite Ev in E. injection E as <-. destruct (H _ eq_refl) as (rtti & _ & Hb). exists rtti. exact Hb.
Defined.

(** A negative distance to the headers passes the check that they are within the module, and what is before it is read. *)
Lemma negative_lfanew_reads_before :
  module_ok (Sample.memory_of Sample.early) Sample.early_module /\
  FindSection (Sample.memory_of Sample.early) Sample.early_module $".data" = Undefined.
Proof.
  split; [|vm_compute; reflexivity]. split; [done|]. split; [done|]. apply Sample.memory_mapped; [|vm_compute; reflexivity].
  assert (forallb (fun b => (0 <=? b) && (b <? 256)) Sample.early = true) as H by (vm_compute; reflexivity).
  apply Forall_forall. intros b Hb%list_elem_of_In. rewrite forallb_forall in H. specialize (H b Hb). bools. lia.
Qed.
