(* ===== verification/Elf.v ===== *)
(** * Vtables and base classes of a Linux module: [src/Engine/Memory/VtableLookup.linux.cpp]

    The symbol table of the module's file is read first; when the module hides the symbol, its mapped segments are searched. The
    file may hold anything: what it says is where is only followed within it. *)

From S2P Require Import Prelude Text Errors Signatures Vtables Images Rtti.

(** ** [MappedFile] *)

(** None when the file could not be mapped, or is empty. *)
Definition MappedFile : Type := option (list Z).

(** [At<T>(offset, count)] with [size] of [sizeof(T)]: the offset, when [count] of them lie in the file. *)
Definition At (file : MappedFile) (size offset count : Z) : option Z :=
  match file with
  | None => None
  | Some bytes =>
      let total := Z.of_nat (length bytes) in
      if (count =? 0) || (total <? offset) || ((total - offset) / size <? count) then None else Some offset
  end.

Definition file_byte (bytes : list Z) (a : Z) : option Z := if a <? 0 then None else bytes !! Z.to_nat a.

(** [elf.h]'s layouts. *)
Definition EhdrSize : Z := 64.
Definition ShdrSize : Z := 64.
Definition SymSize : Z := 24.
Definition SHT_SYMTAB : Z := 2.
Definition SHT_DYNSYM : Z := 11.

Record Shdr := mkShdr { sh_type : Z; sh_offset : Z; sh_size : Z; sh_link : Z; sh_entsize : Z }.

Section File.
Context (bytes : list Z).

Definition U16 (a : Z) : outcome Z := read_le (file_byte bytes) 2 a.
Definition U32 (a : Z) : outcome Z := read_le (file_byte bytes) 4 a.
Definition U64 (a : Z) : outcome Z := read_le (file_byte bytes) 8 a.

Definition section_at (sections : Z) (i : Z) : outcome Shdr :=
  let a := sections + i * ShdrSize in
  run! type_ := U32 (a + 4) in run! offset := U64 (a + 24) in run! size := U64 (a + 32) in run! link := U32 (a + 40) in
  run! entsize := U64 (a + 56) in Returns (mkShdr type_ offset size link entsize).

(** The C string at [a]: the file's bytes up to a NUL. *)
Fixpoint c_string_at (fuel : nat) (a : Z) : outcome (list Z) :=
  match fuel with
  | O => OutOfFuel
  | S fuel =>
      run! b := byte_at (file_byte bytes) a in
      if b =? 0 then Returns [] else run! rest := c_string_at fuel (a + 1) in Returns (b :: rest)
  end.

(** One turn of the loop over the symbols: the value, when it is the wanted one. *)
Definition symbol_value (symbol : text) (names namesSize symbols : Z) (s : nat) : outcome (option Z) :=
  let a := symbols + Z.of_nat s * SymSize in
  run! st_name := U32 a in
  run! st_value := U64 (a + 8) in
  if (namesSize <=? st_name) || (st_value =? 0) then Returns None
  else
    run! name := c_string_at (S (length bytes)) (names + st_name) in
    Returns (if bool_decide (bytes_of symbol = name) then Some st_value else None).

(** One turn of the loop over the sections. *)
Definition section_value (symbol : text) (sections shnum wanted : Z) (i : nat) : outcome (option Z) :=
  run! section := section_at sections (Z.of_nat i) in
  if negb (sh_type section =? wanted) || negb (sh_entsize section =? SymSize) || (shnum <=? sh_link section) then Returns None
  else
    run! strings := section_at sections (sh_link section) in
    match At (Some bytes) 1 (sh_offset strings) (sh_size strings), At (Some bytes) SymSize (sh_offset section) (sh_size section / SymSize) with
    | Some names, Some symbols =>
        outcome_find (symbol_value symbol names (sh_size strings) symbols) (seq 0 (Z.to_nat (sh_size section / SymSize)))
    | _, _ => Returns None
    end.

(** The magic number and the class in [e_ident]. *)
Definition is_elf64 : bool := bool_decide (take 5 bytes = [127; 69; 76; 70; 2]).

Definition find_symbol (symbol : text) : outcome (option Z) :=
  match At (Some bytes) EhdrSize 0 1 with
  | None => Returns None
  | Some header =>
      if negb is_elf64 then Returns None
      else
        run! shoff := U64 (header + 40) in
        run! shentsize := U16 (header + 58) in
        run! shnum := U16 (header + 60) in
        match At (Some bytes) ShdrSize shoff shnum with
        | None => Returns None
        | Some sections =>
            if negb (shentsize =? ShdrSize) then Returns None
            else outcome_find (fun wanted => outcome_find (section_value symbol sections shnum wanted) (seq 0 (Z.to_nat shnum))) [SHT_SYMTAB; SHT_DYNSYM]
        end
  end.
End File.

(** 0 when there is none. *)
Definition FindSymbolValue (elf : MappedFile) (symbol : text) : outcome Z :=
  match elf with None => Returns 0 | Some bytes => run! found := find_symbol bytes symbol in Returns (default 0 found) end.

(** ** The module *)

Section Process.
(** The process's memory, what the system says of addresses and loaded objects, the files by path, and the symbols the process
    exports. *)
Context (memory : Z -> option Z) (readable : Z -> Z -> bool) (executable : Z -> bool) (loaded : list Linux.Loaded) (file : text -> MappedFile)
  (dlsym : text -> option Z).

(** [path.filename()] of a path with [/] separators. *)
Definition RangesOf (module : Image) : option (list ScanRange) := option_map snd (Linux.FindModuleAndRanges loaded (Linux.BaseName (Path module))).

Definition FindVirtualTableIn (module : Image) (className : text) : outcome (option Z) :=
  match Path module with
  | [] => Returns None
  | _ =>
      run! value := match file (Path module) with
                    | Some bytes => FindSymbolValue (Some bytes) ($"_ZTV" ++ LengthPrefixedName className)
                    | None => Returns 0
                    end in
      if negb (value =? 0) then Returns (Some (wrap_u64 (ImageBase module + value + 2 * WordSize)))
      else
        match RangesOf module with
        | None => Returns None
        | Some ranges => FindVirtualTableByTypeName memory executable ranges className
        end
  end.

(** [SigScanner]'s [FindImage]. *)
Definition FindImage (moduleName : text) : option Image := option_map fst (Linux.FindModuleAndRanges loaded (Linux.PlatformModuleName moduleName)).

(** [VtableLookup.cpp]: a class's vtable in a module by its name. *)
Definition FindVirtualTable (moduleName className : text) : outcome (option Z) :=
  match moduleName, className with
  | _ :: _, _ :: _ => match FindImage moduleName with Some module => FindVirtualTableIn module className | None => Returns None end
  | _, _ => Returns None
  end.

(** Both or neither. *)
Definition ExportedTypeInfoKinds : TypeInfoKinds :=
  match dlsym $"_ZTVN10__cxxabiv120__si_class_type_infoE", dlsym $"_ZTVN10__cxxabiv121__vmi_class_type_infoE" with
  | Some single, Some multiple => mkKinds (single + 2 * WordSize) (multiple + 2 * WordSize)
  | _, _ => mkKinds 0 0
  end.

(** [-*offset] of an [int]. *)
Definition neg_i32 (z : Z) : outcome Z := if z =? int32_min then Undefined else Returns (- z).

(** What is given once the offset is known. *)
Definition subobject_at (module : Image) (primary typeInfo offset : Z) : outcome BaseSubobject :=
  if offset =? 0 then Returns (mkSub 0 (Some primary))
  else
    match RangesOf module with
    | None => Returns (mkSub offset None)
    | Some ranges =>
        run! offsetToTop := neg_i32 offset in
        run! table := FindVirtualTableByTypeInfo memory executable ranges typeInfo offsetToTop in Returns (mkSub offset table)
    end.

Definition FindBaseIn (module : Image) (className baseName : text) : outcome (Result BaseSubobject) :=
  run! primary := FindVirtualTableIn module className in
  match primary with
  | None => Returns (Err (Error_NotFound ($"no vtable for '" ++ className ++ $"'")))
  | Some primary =>
      run! typeInfo := ReadWord memory (primary - WordSize) in
      run! offset := FindBaseOffsetByTypeInfo memory readable typeInfo baseName ExportedTypeInfoKinds in
      run! offset := match offset with
                     | Err e => match Errors.Code e with
                                | ErrorCode.NotFound => FindBaseOffsetByTypeInfo memory readable typeInfo baseName (mkKinds 0 0)
                                | _ => Returns offset
                                end
                     | Ok _ => Returns offset
                     end in
      match offset with
      | Err e => Returns (Err e)
      | Ok offset => run! base := subobject_at module primary typeInfo offset in Returns (Ok base)
      end
  end.
End Process.

(** ** The symbol table *)

Section Symbols.
Context (bytes : list Z) (Hbytes : forall i b, bytes !! i = Some b -> 0 <= b < 256).

Let size : Z := Z.of_nat (length bytes).

Lemma file_mapped a n : 0 <= a -> a + n <= size -> mapped (file_byte bytes) a n.
Proof using Hbytes.
  intros Ha Hn i Hi. unfold file_byte. destruct (Z.ltb_spec (a + i) 0); [lia|]. destruct (lookup_lt_is_Some_2 bytes (Z.to_nat (a + i))) as [b E]; [unfold size in Hn; lia|].
  exists b. split; [done|by eapply Hbytes].
Qed.

Lemma U16_yields a : 0 <= a -> a + 2 <= size -> yields (fun v => 0 <= v) (U16 bytes a).
Proof using Hbytes. intros Ha Hn. destruct (read_le_mapped _ 2 a (file_mapped a 2 Ha Hn)) as (v & E & Hv). unfold U16. rewrite E. cbn. lia. Qed.

Lemma U32_yields a : 0 <= a -> a + 4 <= size -> yields (fun v => 0 <= v) (U32 bytes a).
Proof using Hbytes. intros Ha Hn. destruct (read_le_mapped _ 4 a (file_mapped a 4 Ha Hn)) as (v & E & Hv). unfold U32. rewrite E. cbn. lia. Qed.

Lemma U64_yields a : 0 <= a -> a + 8 <= size -> yields (fun v => 0 <= v) (U64 bytes a).
Proof using Hbytes. intros Ha Hn. destruct (read_le_mapped _ 8 a (file_mapped a 8 Ha Hn)) as (v & E & Hv). unfold U64. rewrite E. cbn. lia. Qed.

Lemma At_within n offset count a : At (Some bytes) n offset count = Some a -> 0 < n -> a = offset /\ count <> 0 /\ offset + n * count <= size.
Proof using.
  unfold At. intros H Hn. destruct (_ || _ || _) eqn:E; [done|]. injection H as <-. rewrite !orb_false_iff, Z.eqb_neq, !Z.ltb_ge in E. destruct E as [[? ?] Hc].
  split_and!; [done|done|]. unfold size. pose proof (Z.mul_div_le (Z.of_nat (length bytes) - offset) n Hn). nia.
Qed.

Lemma section_at_yields sections i :
  0 <= sections -> 0 <= i -> sections + (i + 1) * ShdrSize <= size -> yields (fun s => 0 <= sh_offset s /\ 0 <= sh_size s /\ 0 <= sh_link s) (section_at bytes sections i).
Proof using Hbytes.
  unfold ShdrSize. intros Hs Hi Hn. unfold section_at, ShdrSize. eapply yields_bind; [apply U32_yields; lia|]. intros t _ _. eapply yields_bind; [apply U64_yields; lia|].
  intros o _ Ho. eapply yields_bind; [apply U64_yields; lia|]. intros z _ Hz. eapply yields_bind; [apply U32_yields; lia|]. intros l _ Hl.
  eapply yields_bind; [apply U64_yields; lia|]. intros e _ _. done.
Qed.

Lemma c_string_at_yields fuel a last :
  0 <= a <= last -> last < size -> file_byte bytes last = Some 0 -> last - a < Z.of_nat fuel -> yields (fun _ => True) (c_string_at bytes fuel a).
Proof using Hbytes.
  revert a. induction fuel as [|fuel IH]; intros a Ha Hl H0 Hf; cbn [c_string_at]; [lia|].
  destruct (byte_mapped (file_byte bytes) a 1 (file_mapped a 1 ltac:(lia) ltac:(lia)) ltac:(lia)) as (b & E). rewrite E. cbn [outcome_bind].
  destruct (Z.eqb_spec b 0); [done|]. destruct (decide (a = last)) as [->|].
  { unfold byte_at in E. rewrite H0 in E. congruence. }
  eapply yields_bind; [apply IH; [lia|done|done|lia]|]. done.
Qed.

(** A string table that a symbol table names ends in a NUL. *)
Definition strings_terminated : Prop :=
  forall sections i section strings, U64 bytes 40 = Returns sections -> section_at bytes sections i = Returns section ->
    sh_type section = SHT_SYMTAB \/ sh_type section = SHT_DYNSYM -> section_at bytes sections (sh_link section) = Returns strings ->
    0 < sh_size strings -> file_byte bytes (sh_offset strings + sh_size strings - 1) = Some 0.

(** The symbol record [s] of a symbol table of [section]'s gives the name the value. *)
Definition symbol_record (symbol : text) (section strings : Shdr) (s : nat) (value : Z) : Prop :=
  let a := sh_offset section + Z.of_nat s * SymSize in
  exists st_name, U32 bytes a = Returns st_name /\ U64 bytes (a + 8) = Returns value /\ st_name < sh_size strings /\ value <> 0 /\
    c_string_at bytes (S (length bytes)) (sh_offset strings + st_name) = Returns (bytes_of symbol).

(** The file has a symbol table, in sections that lie in it, with such a record. *)
Definition symbol_in (symbol : text) (value : Z) : Prop :=
  exists sections shnum i section strings s,
    is_elf64 bytes = true /\ EhdrSize <= size /\ U64 bytes 40 = Returns sections /\ U16 bytes 58 = Returns ShdrSize /\ U16 bytes 60 = Returns shnum /\
    At (Some bytes) ShdrSize sections shnum = Some sections /\ (i < Z.to_nat shnum)%nat /\ section_at bytes sections (Z.of_nat i) = Returns section /\
    (sh_type section = SHT_SYMTAB \/ sh_type section = SHT_DYNSYM) /\ sh_entsize section = SymSize /\ sh_link section < shnum /\
    section_at bytes sections (sh_link section) = Returns strings /\ At (Some bytes) 1 (sh_offset strings) (sh_size strings) <> None /\
    At (Some bytes) SymSize (sh_offset section) (sh_size section / SymSize) <> None /\
    (s < Z.to_nat (sh_size section / SymSize))%nat /\ symbol_record symbol section strings s value.

Lemma symbol_value_yields symbol section strings s :
  0 <= sh_offset section -> sh_offset section + (Z.of_nat s + 1) * SymSize <= size -> 0 <= sh_offset strings -> sh_offset strings + sh_size strings <= size ->
  (0 < sh_size strings -> file_byte bytes (sh_offset strings + sh_size strings - 1) = Some 0) ->
  yields (finds (symbol_record symbol section strings s)) (symbol_value bytes symbol (sh_offset strings) (sh_size strings) (sh_offset section) s).
Proof using Hbytes.
  unfold SymSize. intros Ho Hs Hn Hns Hterm. unfold symbol_value, symbol_record, SymSize. set (a := sh_offset section + Z.of_nat s * 24).
  eapply yields_bind; [apply U32_yields; lia|]. intros st_name En Hst. eapply yields_bind; [apply U64_yields; lia|]. intros value Ev _.
  destruct ((sh_size strings <=? st_name) || (value =? 0)) eqn:E.
  - cbn [yields finds]. intros v (n & En' & Ev' & ? & ? & _). rewrite orb_true_iff, Z.leb_le, Z.eqb_eq in E. destruct E; congruence || (assert (n = st_name) by congruence; lia).
  - rewrite orb_false_iff, Z.leb_gt, Z.eqb_neq in E. destruct E as [Hlt Hne]. cbn beta in Hst.
    eapply yields_bind; [apply (c_string_at_yields _ _ (sh_offset strings + sh_size strings - 1)); [lia|lia|apply Hterm; lia|unfold size in Hns; lia]|].
    intros name Ec _. cbn [yields]. case_bool_decide as Hname; cbn [finds].
    + exists st_name. rewrite Hname. done.
    + intros v (n & En' & Ev' & _ & _ & Ec'). assert (n = st_name) as -> by congruence. congruence.
Qed.

Lemma sections_within shoff shnum sections i :
  At (Some bytes) ShdrSize shoff shnum = Some sections -> 0 <= i < shnum -> sections = shoff /\ sections + (i + 1) * ShdrSize <= size.
Proof using. intros H Hi. apply At_within in H as (-> & Hc & Hn); [|done]. unfold ShdrSize in *. split; [done|]. nia. Qed.

Lemma section_value_yields symbol sections shnum wanted i :
  At (Some bytes) ShdrSize sections shnum = Some sections -> 0 <= sections -> (i < Z.to_nat shnum)%nat ->
  (forall section strings, section_at bytes sections (Z.of_nat i) = Returns section -> sh_type section = wanted ->
     section_at bytes sections (sh_link section) = Returns strings -> 0 < sh_size strings -> file_byte bytes (sh_offset strings + sh_size strings - 1) = Some 0) ->
  yields (finds (fun value => exists section strings s, section_at bytes sections (Z.of_nat i) = Returns section /\ sh_type section = wanted /\
    sh_entsize section = SymSize /\ sh_link section < shnum /\ section_at bytes sections (sh_link section) = Returns strings /\
    At (Some bytes) 1 (sh_offset strings) (sh_size strings) <> None /\ At (Some bytes) SymSize (sh_offset section) (sh_size section / SymSize) <> None /\
    (s < Z.to_nat (sh_size section / SymSize))%nat /\ symbol_record symbol section strings s value)) (section_value bytes symbol sections shnum wanted i).
Proof using Hbytes.
  intros Hat H0 Hi Hterm. unfold section_value. destruct (sections_within _ _ _ (Z.of_nat i) Hat) as [_ Hsec]; [lia|].
  eapply yields_bind; [by apply section_at_yields; [..|exact Hsec]; lia|]. intros section Es (So & Ss & Sl).
  destruct (_ || _ || _) eqn:E.
  { cbn [yields finds]. intros v (section' & strings & s & E' & ? & ? & ? & _). assert (section' = section) as -> by congruence.
    rewrite !orb_true_iff, !negb_true_iff, !Z.eqb_neq, Z.leb_le in E. destruct E as [[?|?]|?]; congruence || lia. }
  rewrite !orb_false_iff, !negb_false_iff, !Z.eqb_eq, Z.leb_gt in E. destruct E as [[Et Ee] El].
  destruct (sections_within _ _ _ (sh_link section) Hat) as [_ Hlink]; [lia|].
  eapply yields_bind; [by apply section_at_yields; [..|exact Hlink]; lia|]. intros strings Estr (To & Ts & _).
  destruct (At (Some bytes) 1 _ _) as [names|] eqn:En.
  2: { cbn [yields finds]. intros v (section' & strings' & s & E1 & _ & _ & _ & E2 & Hn & _). assert (section' = section) as -> by congruence. assert (strings' = strings) as -> by congruence. done. }
  destruct (At (Some bytes) SymSize _ _) as [symbols|] eqn:Esym.
  2: { cbn [yields finds]. intros v (section' & strings' & s & E1 & _ & _ & _ & _ & _ & Hn & _). assert (section' = section) as -> by congruence. done. }
  pose proof En as (-> & _ & Hnames)%At_within; [|lia]. pose proof Esym as (-> & _ & Hsyms)%At_within; [|done].
  destruct (outcome_find_spec (symbol_value bytes symbol (sh_offset strings) (sh_size strings) (sh_offset section)) (fun s => symbol_record symbol section strings s)
    (seq 0 (Z.to_nat (sh_size section / SymSize)))) as (r & Er & Hr).
  { intros s Hs%in_seq. apply yields_exists, symbol_value_yields; [lia|unfold SymSize in *; nia|lia|lia|]. by apply (Hterm section). }
  rewrite Er. cbn [yields]. eapply finds_iff; [|exact Hr]. intros v. cbn beta. split.
  - intros (s & Hs%in_seq & Hrec). exists section, strings, s. rewrite En, Esym. split_and!; (done || lia).
  - intros (section' & strings' & s & E1 & _ & _ & _ & E2 & _ & _ & Hs & Hrec). assert (section' = section) as -> by congruence. assert (strings' = strings) as -> by congruence.
    exists s. split; [apply in_seq; lia|done].
Qed.

Lemma find_symbol_yields symbol : strings_terminated -> yields (finds (symbol_in symbol)) (find_symbol bytes symbol).
Proof using Hbytes.
  intros Hterm. unfold find_symbol. destruct (At (Some bytes) EhdrSize 0 1) as [header|] eqn:Eh.
  2: { cbn [yields finds]. intros v (sections & shnum & i & section & strings & s & _ & Hsize & _). unfold At in Eh. fold size in Eh.
       destruct (_ || _ || _) eqn:E; [|done]. rewrite !orb_true_iff, Z.eqb_eq, !Z.ltb_lt in E. unfold EhdrSize in *. destruct E as [[?|?]|E]; [done|lia|].
       rewrite Z.sub_0_r in E. assert (1 <= size / 64) by (apply Z.div_le_lower_bound; lia). unfold size in *. lia. }
  apply At_within in Eh as (-> & _ & Hsize); [|done]. unfold EhdrSize in Hsize.
  destruct (is_elf64 bytes) eqn:Emagic; cbn [negb]; [|cbn [yields finds]; intros v (? & ? & ? & ? & ? & ? & ? & _); congruence].
  eapply yields_bind; [apply U64_yields; lia|]. intros shoff Eo Ho. eapply yields_bind; [apply U16_yields; lia|]. intros shentsize Ez _.
  eapply yields_bind; [apply U16_yields; lia|]. intros shnum En _. cbn beta in Ho. change (0 + 40) with 40 in Eo. change (0 + 58) with 58 in Ez. change (0 + 60) with 60 in En.
  destruct (At (Some bytes) ShdrSize shoff shnum) as [sections|] eqn:Eat.
  2: { cbn [yields finds]. intros v (sections & n & ? & ? & ? & ? & _ & _ & E1 & _ & E2 & E3 & _). assert (sections = shoff) as -> by congruence. assert (n = shnum) as -> by congruence. congruence. }
  assert (sections = shoff) as -> by (by apply At_within in Eat as (-> & _)).
  destruct (Z.eqb_spec shentsize ShdrSize) as [->|]; cbn [negb]; [|cbn [yields finds]; intros v (? & ? & ? & ? & ? & ? & _ & _ & _ & E & _); congruence].
  destruct (outcome_find_spec (fun wanted => outcome_find (section_value bytes symbol shoff shnum wanted) (seq 0 (Z.to_nat shnum)))
    (fun wanted value => exists i, (i < Z.to_nat shnum)%nat /\ exists section strings s, section_at bytes shoff (Z.of_nat i) = Returns section /\ sh_type section = wanted /\
    sh_entsize section = SymSize /\ sh_link section < shnum /\ section_at bytes shoff (sh_link section) = Returns strings /\
    At (Some bytes) 1 (sh_offset strings) (sh_size strings) <> None /\ At (Some bytes) SymSize (sh_offset section) (sh_size section / SymSize) <> None /\
    (s < Z.to_nat (sh_size section / SymSize))%nat /\ symbol_record symbol section strings s value) [SHT_SYMTAB; SHT_DYNSYM]) as (r & Er & Hr).
  { intros wanted Hw. destruct (outcome_find_spec (section_value bytes symbol shoff shnum wanted) _ (seq 0 (Z.to_nat shnum)) (fun i (Hi : In i (seq 0 (Z.to_nat shnum))) =>
      proj1 (yields_exists _ _) (section_value_yields symbol shoff shnum wanted i Eat Ho (proj2 (proj1 (in_seq _ _ _) Hi))
        (fun section strings E1 E2 E3 => Hterm shoff (Z.of_nat i) section strings Eo E1 (ltac:(cbn in Hw; naive_solver)) E3)))) as (r & Er & Hr).
    exists r. split; [done|]. eapply finds_iff; [|exact Hr]. intros v. cbn beta. split.
    - intros (i & Hi%in_seq & H). exists i. split; [lia|done].
    - intros (i & Hi & H). exists i. split; [apply in_seq; lia|done]. }
  rewrite Er. cbn [yields]. eapply finds_iff; [|exact Hr]. intros v. cbn beta. unfold symbol_in. split.
  - intros (wanted & Hw & i & Hi & section & strings & s & ? & Et & ? & ? & ? & ? & ? & ? & ?). exists shoff, shnum, i, section, strings, s. cbn in Hw. unfold EhdrSize.
    split_and!; try done. rewrite Et. naive_solver.
  - intros (sections & n & i & section & strings & s & _ & _ & E1 & _ & E2 & _ & Hi & ? & Ht & ? & ? & ? & ? & ? & ? & ?). assert (sections = shoff) as -> by congruence.
    assert (n = shnum) as -> by congruence. exists (sh_type section). split; [cbn; naive_solver|]. exists i. split; [done|]. exists section, strings, s. done.
Qed.
End Symbols.

(** Looking up a symbol in a module's file ends and reads only the file, whatever it holds, when the string tables in it
    that its symbol tables name end in a NUL. The value it gives is that of a record of that name in one of the tables, and it
    gives none exactly when there is no such record that lies in the file. *)
Theorem FindSymbolValue_spec bytes symbol :
  (forall i b, bytes !! i = Some b -> 0 <= b < 256) -> strings_terminated bytes ->
  exists value, FindSymbolValue (Some bytes) symbol = Returns value /\
    (value <> 0 -> symbol_in bytes symbol value) /\ (value = 0 -> forall v, ~ symbol_in bytes symbol v).
Proof.
  intros Hb Ht. apply yields_exists. unfold FindSymbolValue. eapply yields_bind; [by apply find_symbol_yields|]. intros [v|] _ Hv; cbn [yields] in *.
  - change (default 0 (Some v)) with v. split; [done|]. intros ->. destruct Hv as (? & ? & ? & ? & ? & ? & _ & _ & _ & _ & _ & _ & _ & _ & _ & _ & _ & _ & _ & _ & _ & (? & _ & _ & _ & Hne & _)). done.
  - done.
Qed.

(** ** A base of a class *)

Section Bases.
Context (memory : Z -> option Z) (readable : Z -> Z -> bool) (executable : Z -> bool) (loaded : list Linux.Loaded) (file : text -> MappedFile)
  (dlsym : text -> option Z) (module : Image).

(** The system's word holds, and the module's file is the one it was loaded from. *)
Record process_ok : Prop := {
  readable_mapped : forall a n, readable a n = true -> mapped memory a n;
  exported_kinds : kinds_ok memory (ExportedTypeInfoKinds dlsym);
  ranges_mapped : forall ranges, RangesOf loaded module = Some ranges -> Forall (range_ok memory) ranges /\ apart ranges;
  file_read : forall bytes, file (Path module) = Some bytes ->
    (forall i b, bytes !! i = Some b -> 0 <= b < 256) /\ strings_terminated bytes /\
    forall symbol value, symbol_in bytes symbol value -> mapped memory (wrap_u64 (ImageBase module + value + 16) - 8) 8 }.

Context (Hok : process_ok).

(** A class's vtable: what its symbol gives, or a table found by the class's name where no symbol is. *)
Definition class_table (className : text) (t : Z) : Prop :=
  (exists bytes value, file (Path module) = Some bytes /\ symbol_in bytes ($"_ZTV" ++ LengthPrefixedName className) value /\ t = wrap_u64 (ImageBase module + value + 16)) \/
  (exists ranges, RangesOf loaded module = Some ranges /\ primary_table memory ranges executable className t).

Lemma FindVirtualTableIn_yields className :
  yields (fun r => forall t, r = Some t -> class_table className t /\ mapped memory (t - 8) 8) (FindVirtualTableIn memory executable loaded file module className).
Proof using Hok.
  unfold FindVirtualTableIn. destruct (Path module) as [|c path] eqn:Ep; [done|]. rewrite <- Ep.
  eapply (yields_bind (fun value => value <> 0 -> exists bytes, file (Path module) = Some bytes /\ symbol_in bytes ($"_ZTV" ++ LengthPrefixedName className) value)).
  { destruct (file (Path module)) as [bytes|] eqn:Ef; [|by intros []]. destruct (file_read Hok bytes Ef) as (Hb & Ht & _).
    destruct (FindSymbolValue_spec bytes ($"_ZTV" ++ LengthPrefixedName className) Hb Ht) as (value & -> & Hv & _). cbn [yields]. intros Hne. exists bytes. auto. }
  intros value _ Hv. destruct (Z.eqb_spec value 0) as [|Hne]; cbn [negb].
  - destruct (RangesOf loaded module) as [ranges|] eqn:Er; [|done]. destruct (ranges_mapped Hok ranges Er) as [Hr _].
    destruct (FindVirtualTableByTypeName_spec memory ranges executable className Hr) as (r & -> & Ht & _). cbn [yields]. intros t ->. specialize (Ht t eq_refl).
    split; [right; eauto|]. destruct Ht as (s & name & typeInfo & first & _ & _ & Hh & _ & _ & _ & ->). eapply mapped_part; [eapply word_holds_around; [exact Hr|exact Hh]|lia..].
  - cbn [yields]. destruct (Hv Hne) as (bytes & Ef & Hs). intros t [= <-]. change (2 * WordSize) with 16. split; [left; eauto 10|].
    destruct (file_read Hok bytes Ef) as (_ & _ & Hm). by eapply Hm.
Qed.

(** What a base of a class in the module is: [typeInfo] is the word above the class's table, and the base is on the only chain
    of its records, none of it virtual; by the exported kinds of record, or by their shape alone. *)
Definition base_at (className baseName : text) (typeInfo offset : Z) : Prop :=
  exists primary kinds f, class_table className primary /\ ReadWord memory (primary - 8) = Returns typeInfo /\
    (kinds = ExportedTypeInfoKinds dlsym \/ kinds = mkKinds 0 0) /\
    let path f := exists n, (n <= S MaxDepth)%nat /\ base_path memory readable kinds (LengthPrefixedName baseName) n typeInfo f in
    path f /\ Virtual f = false /\ offset = to_i32 (Offset f) /\ forall f', path f' -> f' = f.

Definition base_found (className baseName : text) (b : BaseSubobject) : Prop :=
  exists typeInfo, base_at className baseName typeInfo (SubOffset b) /\
    (SubOffset b <> 0 -> forall t, Table b = Some t -> exists ranges, RangesOf loaded module = Some ranges /\
       table_at memory ranges executable typeInfo (- SubOffset b) t /\ forall t', table_at memory ranges executable typeInfo (- SubOffset b) t' -> t' = t).

Lemma subobject_at_yields className baseName primary typeInfo offset :
  base_at className baseName typeInfo offset ->
  (exists b, subobject_at memory executable loaded module primary typeInfo offset = Returns b /\ base_found className baseName b) \/
  (subobject_at memory executable loaded module primary typeInfo offset = Undefined /\ offset = int32_min).
Proof using Hok.
  intros Hb. unfold subobject_at. destruct (Z.eqb_spec offset 0) as [->|Hne].
  { left. eexists. split; [done|]. exists typeInfo. split; [done|]. by intros []. }
  destruct (RangesOf loaded module) as [ranges|] eqn:Er.
  2: { left. eexists. split; [done|]. exists typeInfo. by split. }
  unfold neg_i32. destruct (Z.eqb_spec offset int32_min); [by right|]. left. cbn [outcome_bind].
  destruct (ranges_mapped Hok ranges Er) as [Hall Hap]. destruct (FindVirtualTableByTypeInfo_spec memory ranges executable typeInfo (- offset) Hall Hap) as (t & -> & Ht).
  cbn [outcome_bind]. eexists. split; [done|]. exists typeInfo. split; [done|]. cbn [SubOffset Table]. intros _ t' ->. exists ranges. split; [done|]. by apply Ht.
Qed.

Lemma FindBaseOffset_base className baseName primary typeInfo kinds :
  class_table className primary -> ReadWord memory (primary - 8) = Returns typeInfo -> kinds = ExportedTypeInfoKinds dlsym \/ kinds = mkKinds 0 0 ->
  yields (fun r => forall offset, r = Ok offset -> base_at className baseName typeInfo offset) (FindBaseOffsetByTypeInfo memory readable typeInfo baseName kinds).
Proof using Hok.
  intros Hc Et Hkinds. assert (kinds_ok memory kinds) as Hk.
  { destruct Hkinds as [->| ->]; [apply (exported_kinds Hok)|]. intros Hne. by destruct (Hne eq_refl). }
  destruct (FindBaseOffset_spec memory readable kinds typeInfo baseName (readable_mapped Hok) Hk) as (r & -> & Hr & _). intros offset Eo.
  destruct (Hr offset Eo) as (f & ? & ? & ? & ?). exists primary, kinds, f. done.
Qed.
End Bases.

Lemma FindBaseIn_run memory readable executable loaded file dlsym module className baseName :
  process_ok memory readable loaded file dlsym module ->
  (exists r, FindBaseIn memory readable executable loaded file dlsym module className baseName = Returns r /\
     forall b, r = Ok b -> base_found memory readable executable loaded file dlsym module className baseName b) \/
  (FindBaseIn memory readable executable loaded file dlsym module className baseName = Undefined /\
   exists typeInfo, base_at memory readable executable loaded file dlsym module className baseName typeInfo int32_min).
Proof.
  intros Hok. unfold FindBaseIn.
  destruct (proj1 (yields_exists _ _) (FindVirtualTableIn_yields memory readable executable loaded file dlsym module Hok className)) as (primary & -> & Hp). cbn [outcome_bind].
  destruct primary as [primary|]; [|left; eexists; by split]. destruct (Hp primary eq_refl) as [Hc Hm].
  destruct (ReadWord_mapped memory (primary - 8) Hm) as (typeInfo & Et & _). change (primary - WordSize) with (primary - 8). rewrite Et. cbn [outcome_bind].
  pose proof (FindBaseOffset_base memory readable executable loaded file dlsym module Hok className baseName primary typeInfo) as Hfind.
  destruct (proj1 (yields_exists _ _) (Hfind _ Hc Et (or_introl eq_refl))) as (r1 & -> & Hr1). cbn [outcome_bind].
  destruct (proj1 (yields_exists _ _) (Hfind _ Hc Et (or_intror eq_refl))) as (r2 & -> & Hr2).
  match goal with |- context [outcome_bind ?m _] => set (second := m) end.
  assert (exists r, second = Returns r /\
    forall offset, r = Ok offset -> base_at memory readable executable loaded file dlsym module className baseName typeInfo offset) as (r & Es & Hr).
  { unfold second. destruct r1 as [o1|e1]; [eauto|]. destruct (Errors.Code e1); eauto. }
  rewrite Es. clear second Es.
  cbn [outcome_bind]. destruct r as [offset|e]; [|left; eexists; by split].
  destruct (subobject_at_yields memory readable executable loaded file dlsym module Hok className baseName primary typeInfo offset (Hr offset eq_refl)) as [(b & -> & Hb)|[-> ->]]; cbn [outcome_bind].
  - left. eexists. split; [done|]. by intros b' [= <-].
  - right. split; [done|]. exists typeInfo. by apply Hr.
Qed.

(** An error says why. *)
Lemma FindBaseOffset_says_why memory readable typeInfo baseName kinds e :
  FindBaseOffsetByTypeInfo memory readable typeInfo baseName kinds = Returns (Err e) -> Detail e <> [].
Proof.
  unfold FindBaseOffsetByTypeInfo. destruct (LooksLikeTypeInfo memory readable typeInfo) as [[]| |]; cbn [outcome_bind negb]; try done; [|by intros [= <-]].
  destruct (CollectBases _ _ _ _ _ _ _) as [[|f [|? ?]]| |]; cbn [outcome_bind]; try done; try by intros [= <-]. destruct (Virtual f); by intros [= <-].
Qed.

Lemma FindBaseIn_says_why memory readable executable loaded file dlsym module className baseName e :
  FindBaseIn memory readable executable loaded file dlsym module className baseName = Returns (Err e) -> Detail e <> [].
Proof.
  unfold FindBaseIn. destruct (FindVirtualTableIn _ _ _ _ _ _) as [[primary|]| |]; cbn [outcome_bind]; try done; [|by intros [= <-]].
  destruct (ReadWord _ _) as [typeInfo| |]; cbn [outcome_bind]; try done.
  destruct (FindBaseOffsetByTypeInfo memory readable typeInfo baseName (ExportedTypeInfoKinds dlsym)) as [[o1|e1]| |] eqn:E1; cbn [outcome_bind]; try done.
  { by destruct (subobject_at _ _ _ _ _ _ _). }
  destruct (Errors.Code e1); cbn [outcome_bind]; try (intros [= <-]; by eapply FindBaseOffset_says_why).
  destruct (FindBaseOffsetByTypeInfo memory readable typeInfo baseName (mkKinds 0 0)) as [[o2|e2]| |] eqn:E2; cbn [outcome_bind]; try done.
  - by destruct (subobject_at _ _ _ _ _ _ _).
  - intros [= <-]. by eapply FindBaseOffset_says_why.
Qed.

(** Looking up a base of a class in a Linux module reads only what is mapped, and ends. What it gives is the offset of the
    base's only chain of records from the class's own typeinfo, none of it virtual, and the one table of that typeinfo at that
    offset. Only an offset of [INT_MIN], which such a chain may hold, is one it cannot negate. *)
Theorem FindBaseIn_linux_spec memory readable executable loaded file dlsym module className baseName :
  process_ok memory readable loaded file dlsym module ->
  (exists r, FindBaseIn memory readable executable loaded file dlsym module className baseName = Returns r /\
     forall b, r = Ok b -> base_found memory readable executable loaded file dlsym module className baseName b) \/
  (FindBaseIn memory readable executable loaded file dlsym module className baseName = Undefined /\
   exists typeInfo, base_at memory readable executable loaded file dlsym module className baseName typeInfo int32_min).
Proof. apply FindBaseIn_run. Qed.

Module Sample.
Definition loaded : list Linux.Loaded := [Linux.mkLoaded (Some $"/game/libserver.so") Vtables.Sample.base [Linux.mkPhdr 1 0 Vtables.Sample.bytes]].
Definition module : Image := mkImage Vtables.Sample.base 128 $"/game/libserver.so".

Lemma process_holds : process_ok Vtables.Sample.memory Vtables.Sample.readable loaded (fun _ => None) (fun _ => None) module.
Proof.
  split; [apply Vtables.Sample.readable_mapped|intros Hne; by destruct (Hne eq_refl)| |done].
  assert (RangesOf loaded module = Some Vtables.Sample.ranges) as -> by (vm_compute; reflexivity). intros ranges [= <-]. split; [apply Vtables.Sample.ranges_ok|apply Vtables.Sample.ranges_apart].
Qed.

(** A file with a symbol table of one symbol, whose strings are the one byte [f]. *)
Definition unterminated : list Z :=
  [127; 69; 76; 70; 2] ++ replicate 35 0 ++ to_le 8 64 ++ replicate 10 0 ++ to_le 2 64 ++ to_le 2 2 ++ to_le 2 0 ++
  (to_le 4 0 ++ to_le 4 2 ++ replicate 16 0 ++ to_le 8 192 ++ to_le 8 24 ++ to_le 4 1 ++ replicate 12 0 ++ to_le 8 24) ++
  (to_le 4 0 ++ to_le 4 3 ++ replicate 16 0 ++ to_le 8 216 ++ to_le 8 1 ++ replicate 24 0) ++
  (to_le 4 0 ++ replicate 4 0 ++ to_le 8 4096 ++ to_le 8 0) ++ [102].
End Sample.

Lemma FindBaseIn_linux_spec_witness :
  let find := FindBaseIn Vtables.Sample.memory Vtables.Sample.readable Vtables.Sample.executable Sample.loaded (fun _ => None) (fun _ => None) Sample.module in
  find $"B" $"A" = Returns (Ok (mkSub 0 (Some 4208))) /\
  base_found Vtables.Sample.memory Vtables.Sample.readable Vtables.Sample.executable Sample.loaded (fun _ => None) (fun _ => None) Sample.module $"B" $"A" (mkSub 0 (Some 4208)).
Proof.
  intros find. assert (find $"B" $"A" = Returns (Ok (mkSub 0 (Some 4208)))) as Ev by (vm_compute; reflexivity). split; [exact Ev|].
  destruct (FindBaseIn_linux_spec _ _ Vtables.Sample.executable _ _ _ _ $"B" $"A" Sample.process_holds) as [(r & E & H)|(E & _)].
  - unfold find in Ev. rewrite Ev in E. injection E as <-. exact (H _ eq_refl).
  - unfold find in Ev. rewrite Ev in E. discriminate.
Defined.

(** A name at the end of a string table without a NUL is read past the end of the file. *)
Lemma unterminated_read_past : FindSymbolValue (Some Sample.unterminated) $"f" = Undefined.
Proof. vm_compute. reflexivity. Qed.
