(* ===== verification/GameData.v ===== *)
(** * Gamedata: [src/Host/GameData], [src/Engine/Memory/ScriptBindings.cpp], [src/Engine/GameData/Bindings.cpp]

    The file names functions, globals, vtable slots and offsets of the game's modules by a pattern, by a class or by a script's
    name. The host looks each up once; a plugin asks for what was found, or why nothing was. *)

From S2P Require Import Prelude Text Errors Dependencies Signatures Vtables Images Rtti Elf.

(** ** The document *)

Record FunctionEntry := mkFunction { FnModule : text; FnWindows : option text; FnLinux : option text; FnClass : text; FnScript : text }.
Record GlobalColumn := mkColumn { pattern : text; rel32At : Z }.
Record GlobalEntry := mkGlobal { GlModule : text; GlWindows : option GlobalColumn; GlLinux : option GlobalColumn }.
Record VTableEntry := mkVTable { VtClass : text; VtBase : text; VtModule : text; VtWindows : option Z; VtLinux : option Z; VtScript : text }.
Record OffsetEntry := mkOffset { OfWindows : option Z; OfLinux : option Z; OfClass : text; OfBase : text; OfModule : text }.

Record GameDataDocument := mkDocument {
  build_server : text; functions : OrderedMap FunctionEntry; globals : OrderedMap GlobalEntry; vtables : OrderedMap VTableEntry;
  offsets : OrderedMap OffsetEntry }.

(** ** [IPluginGameData] *)

Inductive Section_ : Type := Function_ | Global_ | VTable_ | Offset_.

#[export] Instance Section_eq_dec : EqDecision Section_.
Proof. solve_decision. Defined.

Definition flag (s : Section_) : Z := match s with Function_ => 1 | Global_ => 2 | VTable_ => 4 | Offset_ => 8 end.

(** [Address] is 0 when it is null. *)
Record GameDataLocation := mkLocation { Found : bool; LocAddress : Z; LocValue : Z; LocReason : text }.

(** ** The record of a load *)

Record Location := mkLoc { LocModule : text; Rva : Z }.
Record Slot := mkSlot { SlotModule : text; SlotTable : Z; SlotIndex : Z; SlotCode : Z }.
Record GameDataRecord := mkRecord {
  Build : text; RecFunctions : OrderedMap Location; RecGlobals : OrderedMap Location; RecVTables : OrderedMap Slot; RecOffsets : OrderedMap Z }.

(** ** What is asked of the platform *)

(** Modules by the name gamedata gives them, and the classes in a module: [Images] with [Elf] on Linux, with [Rtti] on Windows. *)
Class ModuleLookup : Type := {
  on_windows : bool;
  FindModule : text -> outcome (option (Image * list ScanRange));
  TableIn : Image -> text -> outcome (option Z);
  BaseIn : Image -> text -> text -> outcome (Result BaseSubobject) }.

Record ScriptTarget := mkTarget { TargetAddress : Z; TargetIndex : Z }.

Record VirtualSlot := mkVirtualSlot { Index : Z; Table_ : Z }.

Definition Unbound {A} (reason : text) : Result A := Err (Error_NotFound reason).

Definition PlatformName `{ModuleLookup} : text := if on_windows then $"windows" else $"linux".

Definition column `{ModuleLookup} {A} (windows linux : A) : A := if on_windows then windows else linux.

(** ** [ModuleSymbols] *)

Module ModuleSymbols.
Record t := mk { _modules : gmap text Image; _tables : gmap (text * text) (option Z); _bases : gmap (text * text * text) (Result BaseSubobject) }.

Definition empty : t := mk ∅ ∅ ∅.

Section Symbols.
Context `{ModuleLookup}.

(** An image that was not found has a null base. *)
Definition find_image (moduleName : text) : outcome Image :=
  run! found := FindModule moduleName in Returns match found with Some (image, _) => image | None => mkImage 0 0 [] end.

Definition Module_ (st : t) (moduleName : text) : outcome (Result Image * t) :=
  run! (image, st) := match _modules st !! moduleName with
                      | Some image => Returns (image, st)
                      | None => run! image := find_image moduleName in Returns (image, mk (<[moduleName := image]> (_modules st)) (_tables st) (_bases st))
                      end in
  Returns (if ImageBase image =? 0 then Unbound ($"module '" ++ moduleName ++ $"' is not loaded") else Ok image, st).

Definition Base (st : t) (moduleName className baseName : text) : outcome (Result BaseSubobject * t) :=
  run! (module, st) := Module_ st moduleName in
  match module with
  | Err e => Returns (Err e, st)
  | Ok module =>
      match _bases st !! (moduleName, className, baseName) with
      | Some base => Returns (base, st)
      | None =>
          run! base := BaseIn module className baseName in
          Returns (base, mk (_modules st) (_tables st) (<[(moduleName, className, baseName) := base]> (_bases st)))
      end
  end.

Definition Table (st : t) (moduleName className baseName : text) : outcome (Result Z * t) :=
  match baseName with
  | _ :: _ =>
      run! (base, st) := Base st moduleName className baseName in
      Returns (match base with
               | Err e => Err e
               | Ok base => match Rtti.Table base with
                            | None => Unbound ($"'" ++ baseName ++ $"' has no vtable of its own in '" ++ className ++ $"'")
                            | Some table => Ok table
                            end
               end, st)
  | [] =>
      run! (module, st) := Module_ st moduleName in
      match module with
      | Err e => Returns (Err e, st)
      | Ok module =>
          run! (table, st) := match _tables st !! (moduleName, className) with
                              | Some table => Returns (table, st)
                              | None => run! table := TableIn module className in
                                        Returns (table, mk (_modules st) (<[(moduleName, className) := table]> (_tables st)) (_bases st))
                              end in
          Returns (match table with None => Unbound ($"no vtable for '" ++ className ++ $"' in '" ++ moduleName ++ $"'") | Some table => Ok table end, st)
      end
  end.
End Symbols.
End ModuleSymbols.

(** ** [GameDataScanner] *)

(** What a lookup changes: the caches and the record. *)
Record Lookups := mkLookups { symbols : ModuleSymbols.t; frequencies : gmap Z ByteHistogram; record : GameDataRecord }.

Definition empty_record : GameDataRecord := mkRecord [] [] [] [] [].
Definition no_lookups : Lookups := mkLookups ModuleSymbols.empty ∅ empty_record.

(** [Kind] is none for no kind. *)
Record GameDataEntry := mkEntry { Sections : list text; Kind : option Section_; EntryAddress : Z; EntryValue : Z; Reason : text }.

(** An address, a value, or both. *)
Record Bound := mkBound { BoundAddress : Z; BoundValue : Z }.

Definition with_symbols (st : Lookups) (s : ModuleSymbols.t) : Lookups := mkLookups s (frequencies st) (record st).

Definition rva (module : Image) (address : Z) : Z := wrap_u64 (address - ImageBase module).

Definition map_result {A B} (f : A -> B) (r : Result A) : Result B := match r with Ok a => Ok (f a) | Err e => Err e end.

Section Scanner.
Context `{ModuleLookup} (memory : Z -> option Z) (readable : Z -> Z -> bool) (executable : Z -> bool).
(** The injected lookups; none when they are empty. *)
Context (originalOf : option (Z -> Z -> option Z)) (scriptOf : option (Z -> text -> Result ScriptTarget)).

(** *** Patterns *)

Definition Scan (st : Lookups) (moduleName pattern : text) : outcome (Result (Image * Z) * Lookups) :=
  match pattern with
  | [] => Returns (Unbound $"empty pattern", st)
  | _ =>
      run! found := FindModule moduleName in
      run! (result, cache) := FindPatternEx (frequencies st) found pattern in
      Returns (match ScannedModule result with
               | None => Unbound ($"module '" ++ moduleName ++ $"' is not loaded")
               | Some module =>
                   if ImageBase module =? 0 then Unbound ($"module '" ++ moduleName ++ $"' is not loaded")
                   else match Address result with
                        | None => Unbound $"pattern not found"
                        | Some address => if Unique result then Ok (module, address) else Unbound $"pattern matched more than once"
                        end
               end, mkLookups (symbols st) cache (record st))
  end.

Definition ColumnValue (value : option Z) (what : text) : Result Z :=
  match value with
  | None => Unbound ($"no " ++ PlatformName ++ $" " ++ what)
  | Some v => if v <? 0 then Unbound (what ++ $" " ++ dec v ++ $" is negative") else Ok v
  end.

(** The slot [index] of a table: what it held before a hook, or what it holds. *)
Definition OriginalSlot (table index : Z) : outcome Z :=
  match match originalOf with Some f => f table index | None => None end with
  | Some original => Returns original
  | None => ReadWord memory (table + index * WordSize)
  end.

Definition FindScript (table : Z) (name : text) : Result ScriptTarget :=
  match scriptOf with None => Unbound $"no VScript lookup" | Some f => f table name end.

Definition ScriptSlot (table : Z) (name : text) : Result Z :=
  match FindScript table name with
  | Err e => Err e
  | Ok target => if TargetIndex target <? 0 then Unbound ($"VScript '" ++ name ++ $"' is not virtual") else Ok (TargetIndex target)
  end.

(** *** One lookup each: the entry of the section is given *)

Definition record_function (st : Lookups) (key : text) (l : Location) : Lookups :=
  mkLookups (symbols st) (frequencies st) (mkRecord (Build (record st)) (emplace key l (RecFunctions (record st))).2 (RecGlobals (record st)) (RecVTables (record st)) (RecOffsets (record st))).
Definition record_global (st : Lookups) (key : text) (l : Location) : Lookups :=
  mkLookups (symbols st) (frequencies st) (mkRecord (Build (record st)) (RecFunctions (record st)) (emplace key l (RecGlobals (record st))).2 (RecVTables (record st)) (RecOffsets (record st))).
Definition record_slot (st : Lookups) (key : text) (s : Slot) : Lookups :=
  mkLookups (symbols st) (frequencies st) (mkRecord (Build (record st)) (RecFunctions (record st)) (RecGlobals (record st)) (emplace key s (RecVTables (record st))).2 (RecOffsets (record st))).
Definition record_offset (st : Lookups) (key : text) (o : Z) : Lookups :=
  mkLookups (symbols st) (frequencies st) (mkRecord (Build (record st)) (RecFunctions (record st)) (RecGlobals (record st)) (RecVTables (record st)) (emplace key o (RecOffsets (record st))).2).

Definition FindScriptFunction (st : Lookups) (key : text) (entry : FunctionEntry) : outcome (Result Z * Lookups) :=
  run! (module, s) := ModuleSymbols.Module_ (symbols st) (FnModule entry) in
  match module with
  | Err e => Returns (Err e, with_symbols st s)
  | Ok module =>
      run! (table, s) := ModuleSymbols.Table s (FnModule entry) (FnClass entry) [] in
      let st := with_symbols st s in
      match table with
      | Err e => Returns (Err e, st)
      | Ok table =>
          match FindScript table (FnScript entry) with
          | Err e => Returns (Err e, st)
          | Ok target =>
              if negb (Contains module (TargetAddress target)) then
                Returns (Unbound ($"VScript '" ++ FnScript entry ++ $"' is virtual or outside '" ++ FnModule entry ++ $"'"), st)
              else Returns (Ok (TargetAddress target), record_function st key (mkLoc (FnModule entry) (rva module (TargetAddress target))))
          end
      end
  end.

Definition FindFunction (st : Lookups) (key : text) (entry : FunctionEntry) : outcome (Result Z * Lookups) :=
  match FnScript entry with
  | _ :: _ => FindScriptFunction st key entry
  | [] =>
      match column (FnWindows entry) (FnLinux entry) with
      | None => Returns (Unbound ($"no " ++ PlatformName ++ $" pattern"), st)
      | Some pattern =>
          run! (match_, st) := Scan st (FnModule entry) pattern in
          match match_ with
          | Err e => Returns (Err e, st)
          | Ok (module, address) => Returns (Ok address, record_function st key (mkLoc (FnModule entry) (rva module address)))
          end
      end
  end.

Definition FindGlobal (st : Lookups) (key : text) (entry : GlobalEntry) : outcome (Result Z * Lookups) :=
  match column (GlWindows entry) (GlLinux entry) with
  | None => Returns (Unbound ($"no " ++ PlatformName ++ $" pattern"), st)
  | Some col =>
      run! (match_, st) := Scan st (GlModule entry) (pattern col) in
      match match_ with
      | Err e => Returns (Err e, st)
      | Ok (module, address) =>
          run! target := ResolveRelativeAddress memory module address (rel32At col) Rel32Size in
          if (target =? 0) || negb (Contains module target) || negb (readable target WordSize) then
            Returns (Unbound ($"the rel32 at +" ++ dec (rel32At col) ++ $" does not point at readable memory in '" ++ GlModule entry ++ $"'"), st)
          else Returns (Ok target, record_global st key (mkLoc (GlModule entry) (rva module target)))
      end
  end.

Definition FindSlot (st : Lookups) (key : text) (entry : VTableEntry) : outcome (Result VirtualSlot * Lookups) :=
  match match VtScript entry with [] => ColumnValue (column (VtWindows entry) (VtLinux entry)) $"index" | _ => Ok (-1) end with
  | Err e => Returns (Err e, st)
  | Ok index =>
      run! (module, s) := ModuleSymbols.Module_ (symbols st) (VtModule entry) in
      match module with
      | Err e => Returns (Err e, with_symbols st s)
      | Ok module =>
          run! (table, s) := ModuleSymbols.Table s (VtModule entry) (VtClass entry) (VtBase entry) in
          let st := with_symbols st s in
          match table with
          | Err e => Returns (Err e, st)
          | Ok table =>
              match match VtScript entry with [] => Ok index | _ => ScriptSlot table (VtScript entry) end with
              | Err e => Returns (Err e, st)
              | Ok index =>
                  run! code := (if readable (table + index * WordSize) WordSize then OriginalSlot table index else Returns 0) in
                  if negb (executable code) then
                    let owner := match VtBase entry with [] => VtClass entry | _ => VtBase entry end in
                    Returns (Unbound (owner ++ $"::[" ++ dec index ++ $"] does not hold code"), st)
                  else
                    let codeRva := if Contains module code then rva module code else 0 in
                    Returns (Ok (mkVirtualSlot index table), record_slot st key (mkSlot (VtModule entry) (rva module table) index codeRva))
              end
          end
      end
  end.

Definition FindBaseOffset (st : Lookups) (entry : OffsetEntry) : outcome (Result Z * Lookups) :=
  match OfClass entry with
  | [] => Returns (Unbound ($"base '" ++ OfBase entry ++ $"' names no class"), st)
  | _ =>
      run! (base, s) := ModuleSymbols.Base (symbols st) (OfModule entry) (OfClass entry) (OfBase entry) in
      Returns (map_result SubOffset base, with_symbols st s)
  end.

Definition FindOffset (st : Lookups) (key : text) (entry : OffsetEntry) : outcome (Result Z * Lookups) :=
  run! (offset, st) := match OfBase entry with
                       | [] => Returns (ColumnValue (column (OfWindows entry) (OfLinux entry)) $"offset", st)
                       | _ => FindBaseOffset st entry
                       end in
  Returns (offset, match offset with Ok o => record_offset st key o | Err _ => st end).

(** The entry of a key the section has; [at] throws for one it has not. *)
Definition with_entry {E A} (m : OrderedMap E) (key : text) (f : E -> outcome A) : outcome A :=
  match find_key m key with Some entry => f entry | None => Undefined end.

Definition Locate (file : GameDataDocument) (st : Lookups) (kind : option Section_) (key : text) : outcome (Result Bound * Lookups) :=
  match kind with
  | Some Function_ => with_entry (functions file) key (fun e => run! (r, st) := FindFunction st key e in Returns (map_result (fun a => mkBound a (-1)) r, st))
  | Some Global_ => with_entry (globals file) key (fun e => run! (r, st) := FindGlobal st key e in Returns (map_result (fun a => mkBound a (-1)) r, st))
  | Some VTable_ => with_entry (vtables file) key (fun e => run! (r, st) := FindSlot st key e in Returns (map_result (fun s => mkBound (Table_ s) (Index s)) r, st))
  | Some Offset_ => with_entry (offsets file) key (fun e => run! (r, st) := FindOffset st key e in Returns (map_result (fun v => mkBound 0 v) r, st))
  | None => Returns (Unbound $"in no section", st)
  end.

(** *** Indexing *)

Definition new_entry : GameDataEntry := mkEntry [] None 0 (-1) [].

(** [entries[key]], changed by [f]. *)
Fixpoint update_entry (key : text) (f : GameDataEntry -> GameDataEntry) (m : OrderedMap GameDataEntry) : OrderedMap GameDataEntry :=
  match m with
  | [] => [(key, f new_entry)]
  | (k, e) :: rest =>
      if text_eqb key k then (k, f e) :: rest
      else if text_ltb key k then (key, f new_entry) :: m
      else (k, e) :: update_entry key f rest
  end.

Definition add_section (kind : Section_) (name : text) (e : GameDataEntry) : GameDataEntry :=
  let sections := Sections e ++ [name] in
  mkEntry sections (if (length sections =? 1)%nat then Some kind else None) (EntryAddress e) (EntryValue e) (Reason e).

Definition index_section (kind : Section_) (name : text) (ks : list text) (m : OrderedMap GameDataEntry) : OrderedMap GameDataEntry :=
  fold_left (fun m key => update_entry key (add_section kind name) m) ks m.

Definition index_all (file : GameDataDocument) : OrderedMap GameDataEntry :=
  index_section Offset_ $"offsets" (keys (offsets file))
    (index_section VTable_ $"vtables" (keys (vtables file))
       (index_section Global_ $"globals" (keys (globals file)) (index_section Function_ $"functions" (keys (functions file)) []))).

(** [Fail]: the entry with its reason, and the line of the failure. *)
Definition failed (key : text) (e : GameDataEntry) (error : Error) : GameDataEntry * text :=
  (mkEntry (Sections e) (Kind e) (EntryAddress e) (EntryValue e) (Detail error), key ++ $": " ++ Detail error).

Definition fail_doubles (m : OrderedMap GameDataEntry) : OrderedMap GameDataEntry * list text :=
  fold_right (fun '(key, e) '(rest, failures) =>
    match Sections e with
    | a :: b :: _ =>
        let '(e', line) := failed key e (Error_NotFound ($"in both '" ++ a ++ $"' and '" ++ b ++ $"'")) in ((key, e') :: rest, line :: failures)
    | _ => ((key, e) :: rest, failures)
    end) ([], []) m.

(** [ResolveAll] over the entries: they, the lines of those that failed, and what the lookups left. *)
Fixpoint ResolveAll (file : GameDataDocument) (m : OrderedMap GameDataEntry) (st : Lookups) : outcome (OrderedMap GameDataEntry * list text * Lookups) :=
  match m with
  | [] => Returns ([], [], st)
  | (key, e) :: rest =>
      match Reason e with
      | _ :: _ => run! (m', failures, st) := ResolveAll file rest st in Returns ((key, e) :: m', failures, st)
      | [] =>
          run! (bound, st) := Locate file st (Kind e) key in
          match bound with
          | Ok b => run! (m', failures, st) := ResolveAll file rest st in
                    Returns ((key, mkEntry (Sections e) (Kind e) (BoundAddress b) (BoundValue b) (Reason e)) :: m', failures, st)
          | Err error => let '(e', line) := failed key e error in
                         run! (m', failures, st) := ResolveAll file rest st in Returns ((key, e') :: m', line :: failures, st)
          end
      end
  end.

Record GameDataScanner := mkScanner { _entries : OrderedMap GameDataEntry; _failures : list text; Record_ : GameDataRecord }.

(** The constructor, then [ResolveAll]. *)
Definition resolved (file : GameDataDocument) : outcome GameDataScanner :=
  let '(m, doubles) := fail_doubles (index_all file) in
  run! (m, failures, st) := ResolveAll file m no_lookups in Returns (mkScanner m (doubles ++ failures) (record st)).

Definition Find (scanner : GameDataScanner) (key : text) : option GameDataEntry := find_key (_entries scanner) key.

(** The unchecked numbers a summary warns of on another build: indices and offsets. *)
Definition unchecked (file : GameDataDocument) (build : text) : option (nat * nat) :=
  if text_eqb (build_server file) build then None
  else Some (length (List.filter (fun e => match VtScript e.2 with [] => true | _ => false end) (vtables file)),
             length (List.filter (fun e => match OfBase e.2 with [] => true | _ => false end) (offsets file))).
End Scanner.

(** ** [GameDataTable] *)

(** [file] is what reading the document gave. *)
Definition WriteGameDataRecord (existing : option GameDataRecord) (build : text) (resolved : GameDataRecord) : option GameDataRecord :=
  match existing with
  | Some e => if text_eqb (Build e) build then None
              else Some (mkRecord build (RecFunctions resolved) (RecGlobals resolved) (RecVTables resolved) (RecOffsets resolved))
  | None => Some (mkRecord build (RecFunctions resolved) (RecGlobals resolved) (RecVTables resolved) (RecOffsets resolved))
  end.

(** What is written, if anything: nothing when an entry did not bind. *)
Definition record_written (scanner : GameDataScanner) (existing : option GameDataRecord) (build : text) : option GameDataRecord :=
  match _failures scanner with [] => WriteGameDataRecord existing build (Record_ scanner) | _ => None end.

Definition NotBound (reason : text) : GameDataLocation := mkLocation false 0 (-1) reason.

(** [scanner] is none when the file could not be read. *)
Definition Lookup (scanner : option GameDataScanner) (sections : Z) (key : text) : GameDataLocation :=
  match match scanner with Some s => Find s key | None => None end with
  | None => NotBound $"not in gamedata"
  | Some e =>
      match Reason e with
      | _ :: _ => NotBound (Reason e)
      | [] =>
          if Z.land sections (match Kind e with Some k => flag k | None => 0 end) =? 0 then
            NotBound ($"in '" ++ default [] (Sections e !! O) ++ $"', which this member does not bind from")
          else mkLocation true (EntryAddress e) (EntryValue e) []
      end
  end.

(** ** The platforms *)

Definition linux_lookup (memory : Z -> option Z) (readable : Z -> Z -> bool) (executable : Z -> bool) (loaded : list Linux.Loaded) (file : text -> MappedFile)
    (dlsym : text -> option Z) : ModuleLookup := {|
  on_windows := false;
  FindModule name := Returns (Linux.FindModuleAndRanges loaded (Linux.PlatformModuleName name));
  TableIn module className := Elf.FindVirtualTableIn memory executable loaded file module className;
  BaseIn module className baseName := Elf.FindBaseIn memory readable executable loaded file dlsym module className baseName |}.

Definition windows_lookup (memory : Z -> option Z) (enumerated : option (list Windows.Handle)) : ModuleLookup := {|
  on_windows := true;
  FindModule name := Windows.FindModuleAndRanges enumerated (Windows.PlatformModuleName name);
  TableIn module className := Rtti.FindVirtualTableIn memory module className;
  BaseIn module className baseName := Rtti.FindBaseIn memory module className baseName |}.

(** ** [ScriptBindings] *)

Module ScriptBindings.
(** A binding of a class: the name scripts know it by, none for a null one, and the function, 0 for a null one. *)
Record ScriptFunctionBinding := mkBinding { ScriptName : option text; Function : Z }.

(** The bindings of a class's description, then those of its base, and so on. *)
Fixpoint FindBinding (descriptions : list (list ScriptFunctionBinding)) (name : text) : option ScriptFunctionBinding :=
  match descriptions with
  | [] => None
  | bindings :: bases =>
      match List.find (fun b => match ScriptName b with Some n => text_eqb name n | None => false end) bindings with
      | Some b => Some b
      | None => FindBinding bases name
      end
  end.

Section Platform.
Context (memory : Z -> option Z) (readable : Z -> Z -> bool).

(** The thunk [mov rax, \[rcx\]; jmp \[rax + disp\]]; division is C's. *)
Definition VirtualIndex_windows (code : Z) : outcome Z :=
  if negb (readable code 9) then Returns (-1)
  else
    run! b0 := byte_at memory code in run! b1 := byte_at memory (code + 1) in run! b2 := byte_at memory (code + 2) in run! b3 := byte_at memory (code + 3) in
    if negb ((b0 =? 72) && (b1 =? 139) && (b2 =? 1) && (b3 =? 255)) then Returns (-1)
    else
      run! b4 := byte_at memory (code + 4) in
      if b4 =? 32 then Returns 0
      else if b4 =? 96 then run! d := byte_at memory (code + 5) in Returns (Z.quot (if d <=? 127 then d else d - 256) WordSize)
      else if b4 =? 160 then run! d := ReadU32 memory (code + 5) in Returns (Z.quot (to_i32 d) WordSize)
      else Returns (-1).

(** One plus the byte offset, for a virtual member. *)
Definition VirtualIndex_linux (value : Z) : Z := if Z.odd value then to_i32 ((value - 1) / WordSize) else -1.

Definition VirtualIndex (windows : bool) (function : Z) : outcome Z := if windows then VirtualIndex_windows function else Returns (VirtualIndex_linux function).

(** [slot] is [GetScriptDesc]'s, negative for none; [describe] is the call of the code in it. *)
Definition FindScriptBinding (windows : bool) (slot : Z) (describe : Z -> option (list (list ScriptFunctionBinding))) (classTable : Z) (name : text) : outcome (Result ScriptTarget) :=
  if slot <? 0 then Returns (Unbound $"no vtable slot for GetScriptDesc")
  else
    run! code := ReadWord memory (classTable + slot * WordSize) in
    match describe code with
    | None => Returns (Unbound $"the class has no VScript description")
    | Some descriptions =>
        match FindBinding descriptions name with
        | Some b =>
            if Function b =? 0 then Returns (Unbound ($"no VScript binding '" ++ name ++ $"'"))
            else run! index := VirtualIndex windows (Function b) in Returns (Ok (if 0 <=? index then mkTarget 0 index else mkTarget (Function b) (-1)))
        | None => Returns (Unbound ($"no VScript binding '" ++ name ++ $"'"))
        end
    end.
End Platform.
End ScriptBindings.

(** ** [Bindings] *)

Module Bindings.
(** What a member is bound from. *)
Inductive Member : Type := Fn | Address | VirtualFn | Offset.

Definition sections (m : Member) : Z := match m with Fn => 1 | Address => Z.lor 1 2 | VirtualFn => 4 | Offset => 8 end.

(** The members, in the order they are bound. *)
Definition members : list (Member * text) :=
  [(Fn, $"CreateEntityByName"); (Fn, $"DispatchSpawn"); (Fn, $"CEntityInstance::AcceptInput"); (Fn, $"CEntitySystem::AddEntityIOEvent");
   (Fn, $"CBaseModelEntity::SetModel"); (Fn, $"CBaseEntity::EmitSoundParams"); (Fn, $"CBaseEntity::StopSound"); (Fn, $"CBaseEntity::EmitSoundFilter");
   (Fn, $"GetLegacyGameEventListener"); (Fn, $"CBaseEntity::TakeDamageOld"); (Fn, $"CTakeDamageInfo::CTakeDamageInfo"); (Fn, $"CCSGameRules::TerminateRound");
   (Fn, $"CCSPlayer_WeaponServices::DropWeapon"); (Fn, $"CCSCustomHudLayout::SetHasClass"); (Fn, $"CCSCustomHudLayout::SetHasClassForPlayer");
   (Fn, $"CCSCustomHudLayout::SetDialogVariableString"); (Fn, $"CCSCustomHudLayout::SetDialogVariableStringForPlayer");
   (Fn, $"CCSCustomHudLayout::SetInputCaptureEnabled"); (Fn, $"INetworkMessageProcessingPreFilter::FilterMessage"); (Fn, $"CNetworkGameServer::ReplyConnection");
   (Address, $"CSource2Server::g_GameEventManager");
   (VirtualFn, $"CBasePlayerPawn::CommitSuicide"); (VirtualFn, $"CCSPlayerController::ChangeTeam"); (VirtualFn, $"CCSPlayerController::Respawn");
   (VirtualFn, $"CBaseEntity::Teleport"); (VirtualFn, $"CNavPhysicsInterface::Nav_TraceLine"); (VirtualFn, $"CNavPhysicsInterface::Nav_TraceShape");
   (VirtualFn, $"CCSPlayer_ItemServices::GiveNamedItem"); (VirtualFn, $"CCSPlayer_ItemServices::RemoveAllItems"); (VirtualFn, $"CCSPlayer_WeaponServices::SelectItem");
   (VirtualFn, $"CPlayer_MovementServices::RunCommand"); (VirtualFn, $"CServerSideClient::ProcessRespondCvarValue"); (VirtualFn, $"CServerSideClient::SendNetMessage");
   (Offset, $"GameEntitySystem"); (Offset, $"CheckTransmitPlayerSlot"); (Offset, $"CServerSideClientBase::m_nClientSlot");
   (Offset, $"CServerSideClient::INetworkMessageProcessingPreFilter"); (Offset, $"CServerSideClientBase::m_SteamID"); (Offset, $"CNetworkGameServer::m_szAddons");
   (Offset, $"CUserCmd::CSGOUserCmdPB"); (Offset, $"CUserCmdBase::cmdNum")].

(** A bound member: what it keeps of the location. *)
Definition value_of (m : Member) (l : GameDataLocation) : Z * Z :=
  match m with Fn | Address => (LocAddress l, -1) | VirtualFn => (LocAddress l, LocValue l) | Offset => (0, LocValue l) end.

(** The members by key, and what did not bind, in order. *)
Definition Bind (lookup : Z -> text -> GameDataLocation) : list (text * (Z * Z)) * list text * Status :=
  let bound := map (fun '(m, key) => (key, value_of m (lookup (sections m) key))) members in
  let failures := flat_map (fun '(m, key) => let l := lookup (sections m) key in if Found l then [] else [key ++ $": " ++ LocReason l]) members in
  (bound, failures,
   match failures with
   | [] => Ok tt
   | _ => Err (Error_Engine (dec (Z.of_nat (length failures)) ++ $" did not bind: " ++ Join failures $"; "))
   end).
End Bindings.

(** ** A lookup does not depend on the others *)

(** What the platform's lookups promise. *)
Class LookupLaws `{ModuleLookup} (memory : Z -> option Z) : Prop := {
  module_yields : forall name, exists found, FindModule name = Returns found;
  module_sane : forall name image ranges, FindModule name = Returns (Some (image, ranges)) ->
    bytes_scanned ranges < uint64_max /\ 0 <= ImageBase image /\ 0 <= ImageSize image /\ ImageBase image + ImageSize image < 2 ^ 64 /\
    (forall a, ImageBase image <= a < ImageBase image + ImageSize image -> exists b, memory a = Some b /\ 0 <= b < 256) /\
    forall range, In range ranges -> 0 <= RangeBase range /\ RangeBase range + range_size range < 2 ^ 64;
  table_yields : forall name image ranges className, FindModule name = Returns (Some (image, ranges)) -> exists t, TableIn image className = Returns t;
  base_yields : forall name image ranges className baseName, FindModule name = Returns (Some (image, ranges)) ->
    exists b, BaseIn image className baseName = Returns b /\ forall e, b = Err e -> Detail e <> [] }.

Section Agreement.
Context `{ModuleLookup} (memory : Z -> option Z) {laws : LookupLaws memory}.

(** The caches hold what the lookups give. *)
Record symbols_ok (s : ModuleSymbols.t) : Prop := {
  modules_ok : forall name image, ModuleSymbols._modules s !! name = Some image -> ModuleSymbols.find_image name = Returns image;
  tables_ok : forall name className t, ModuleSymbols._tables s !! (name, className) = Some t ->
    exists image, ModuleSymbols.find_image name = Returns image /\ TableIn image className = Returns t;
  bases_ok : forall name className baseName b, ModuleSymbols._bases s !! (name, className, baseName) = Some b ->
    exists image, ModuleSymbols.find_image name = Returns image /\ BaseIn image className baseName = Returns b }.

Definition lookups_ok (st : Lookups) : Prop := symbols_ok (symbols st) /\ cache_ok (frequencies st).

(** Two runs that give the same result, in [P], from states in [ok] to states in [ok]. *)
Definition agree {A S} (ok : S -> Prop) (P : A -> Prop) (o1 o2 : outcome (A * S)) : Prop :=
  exists a s1 s2, o1 = Returns (a, s1) /\ o2 = Returns (a, s2) /\ ok s1 /\ ok s2 /\ P a.

Lemma agree_returns {A S} (ok : S -> Prop) (P : A -> Prop) a s1 s2 : ok s1 -> ok s2 -> P a -> agree ok P (Returns (a, s1)) (Returns (a, s2)).
Proof using. intros. exists a, s1, s2. done. Qed.

Lemma agree_bind {A B S T} (ok : S -> Prop) (ok' : T -> Prop) (P : A -> Prop) (Q : B -> Prop) o1 o2 (k1 k2 : A * S -> outcome (B * T)) :
  agree ok P o1 o2 -> (forall a s1 s2, ok s1 -> ok s2 -> P a -> agree ok' Q (k1 (a, s1)) (k2 (a, s2))) -> agree ok' Q (outcome_bind o1 k1) (outcome_bind o2 k2).
Proof using. intros (a & s1 & s2 & -> & -> & H1 & H2 & HP) Hk. cbn [outcome_bind]. by apply Hk. Qed.

Lemma agree_impl {A S} (ok : S -> Prop) (P Q : A -> Prop) o1 o2 : agree ok P o1 o2 -> (forall a, P a -> Q a) -> agree ok Q o1 o2.
Proof using. intros (a & s1 & s2 & ? & ? & ? & ? & ?) HPQ. exists a, s1, s2. split_and!; auto. Qed.

(** An error says why. *)
Definition says_why {A} (r : Result A) : Prop := forall e, r = Err e -> Detail e <> [].

Lemma Unbound_says_why {A} reason : reason <> [] -> says_why (@Unbound A reason).
Proof using. by intros Hr e [= <-]. Qed.

(** [image] is what a module's name stands for; none has a null base. *)
Definition is_module (name : text) (image : Image) : Prop :=
  ImageBase image <> 0 /\ exists ranges, FindModule name = Returns (Some (image, ranges)).

Lemma find_image_returns name : exists image, ModuleSymbols.find_image name = Returns image /\ (ImageBase image <> 0 -> is_module name image).
Proof using laws.
  unfold ModuleSymbols.find_image. destruct (module_yields name) as [found E]. rewrite E. cbn [outcome_bind].
  destruct found as [[image ranges]|]; eexists; (split; [done|]); [|done]. intros Hne. split; [done|]. eauto.
Qed.

Lemma Module_agree s1 s2 name :
  symbols_ok s1 -> symbols_ok s2 ->
  agree symbols_ok (fun r => says_why r /\ forall image, r = Ok image -> is_module name image /\ ModuleSymbols.find_image name = Returns image)
    (ModuleSymbols.Module_ s1 name) (ModuleSymbols.Module_ s2 name).
Proof using laws.
  intros H1 H2. destruct (find_image_returns name) as (image & E & Him). unfold ModuleSymbols.Module_.
  apply (agree_bind symbols_ok _ (fun i => i = image)).
  - assert (forall s, symbols_ok s -> exists s', symbols_ok s' /\ match ModuleSymbols._modules s !! name with
      | Some image => Returns (image, s)
      | None => run! image := ModuleSymbols.find_image name in
                Returns (image, ModuleSymbols.mk (<[name := image]> (ModuleSymbols._modules s)) (ModuleSymbols._tables s) (ModuleSymbols._bases s))
      end = Returns (image, s')) as Hs.
    { intros s Hs. destruct (ModuleSymbols._modules s !! name) as [i|] eqn:Ei.
      - apply (modules_ok _ Hs) in Ei. assert (i = image) as -> by congruence. eauto.
      - rewrite E. cbn [outcome_bind]. eexists. split; [|done]. split; cbn; [|apply Hs|apply Hs]. intros n i. destruct (decide (name = n)) as [->|].
        + rewrite lookup_insert_eq. by intros [= <-].
        + rewrite lookup_insert_ne by done. apply Hs. }
    destruct (Hs s1 H1) as (s1' & ? & ->), (Hs s2 H2) as (s2' & ? & ->). by apply agree_returns.
  - intros i t1 t2 Ht1 Ht2 ->. apply agree_returns; [done|done|]. destruct (Z.eqb_spec (ImageBase image) 0); (split; [|]); try done.
    + by apply Unbound_says_why.
    + intros i [= <-]. auto.
Qed.

Lemma Base_agree s1 s2 name className baseName :
  symbols_ok s1 -> symbols_ok s2 -> agree symbols_ok says_why (ModuleSymbols.Base s1 name className baseName) (ModuleSymbols.Base s2 name className baseName).
Proof using laws.
  intros H1 H2. unfold ModuleSymbols.Base. eapply agree_bind; [by apply Module_agree|]. intros [image|e] t1 t2 Ht1 Ht2 [Hw Him]; [|by apply agree_returns; [..|intros ? [= <-]; by apply Hw]].
  destruct (Him image eq_refl) as [(Hb & ranges & Ef) Ei]. destruct (base_yields name image ranges className baseName Ef) as (b & Eb & Hbw).
  assert (forall s, symbols_ok s -> exists s', symbols_ok s' /\ match ModuleSymbols._bases s !! (name, className, baseName) with
    | Some base => Returns (base, s)
    | None => run! base := BaseIn image className baseName in
              Returns (base, ModuleSymbols.mk (ModuleSymbols._modules s) (ModuleSymbols._tables s) (<[(name, className, baseName) := base]> (ModuleSymbols._bases s)))
    end = Returns (b, s')) as Hs.
  { intros s Hs. destruct (ModuleSymbols._bases s !! (name, className, baseName)) as [b'|] eqn:E.
    - apply (bases_ok _ Hs) in E as (i & Ei' & Eb'). assert (i = image) as -> by congruence. assert (b' = b) as -> by congruence. eauto.
    - rewrite Eb. cbn [outcome_bind]. eexists. split; [|done]. split; cbn; [apply Hs|apply Hs|]. intros n c bn b'. destruct (decide ((name, className, baseName) = (n, c, bn))) as [[= -> -> ->]|].
      + rewrite lookup_insert_eq. intros [= <-]. eauto.
      + rewrite lookup_insert_ne by done. apply Hs. }
  destruct (Hs t1 Ht1) as (s1' & ? & ->), (Hs t2 Ht2) as (s2' & ? & ->). by apply agree_returns.
Qed.

Lemma Table_agree s1 s2 name className baseName :
  symbols_ok s1 -> symbols_ok s2 -> agree symbols_ok says_why (ModuleSymbols.Table s1 name className baseName) (ModuleSymbols.Table s2 name className baseName).
Proof using laws.
  intros H1 H2. unfold ModuleSymbols.Table. destruct baseName as [|c baseName].
  - eapply agree_bind; [by apply Module_agree|]. intros [image|e] t1 t2 Ht1 Ht2 [Hw Him]; [|by apply agree_returns; [..|intros ? [= <-]; by apply Hw]].
    destruct (Him image eq_refl) as [(Hb & ranges & Ef) Ei]. destruct (table_yields name image ranges className Ef) as (t & Et).
    assert (forall s, symbols_ok s -> exists s', symbols_ok s' /\ match ModuleSymbols._tables s !! (name, className) with
      | Some table => Returns (table, s)
      | None => run! table := TableIn image className in
                Returns (table, ModuleSymbols.mk (ModuleSymbols._modules s) (<[(name, className) := table]> (ModuleSymbols._tables s)) (ModuleSymbols._bases s))
      end = Returns (t, s')) as Hs.
    { intros s Hs. destruct (ModuleSymbols._tables s !! (name, className)) as [t'|] eqn:E.
      - apply (tables_ok _ Hs) in E as (i & Ei' & Et'). assert (i = image) as -> by congruence. assert (t' = t) as -> by congruence. eauto.
      - rewrite Et. cbn [outcome_bind]. eexists. split; [|done]. split; cbn; [apply Hs| |apply Hs]. intros n c t'. destruct (decide ((name, className) = (n, c))) as [[= -> ->]|].
        + rewrite lookup_insert_eq. intros [= <-]. eauto.
        + rewrite lookup_insert_ne by done. apply Hs. }
    destruct (Hs t1 Ht1) as (s1' & ? & ->), (Hs t2 Ht2) as (s2' & ? & ->). cbn [outcome_bind]. apply agree_returns; [done|done|]. destruct t; [done|]. by apply Unbound_says_why.
  - eapply agree_bind; [by apply Base_agree|]. intros b t1 t2 Ht1 Ht2 Hw. apply agree_returns; [done|done|]. destruct b as [b|e]; [|intros ? [= <-]; by apply Hw].
    destruct (Rtti.Table b); [done|]. by apply Unbound_says_why.
Qed.

(** *** Each kind of entry *)

Context (readable : Z -> Z -> bool) (executable : Z -> bool) (originalOf : option (Z -> Z -> option Z)) (scriptOf : option (Z -> text -> Result ScriptTarget)).
Context (Hreadable : forall a n, readable a n = true -> mapped memory a n) (Hscript : forall f table name, scriptOf = Some f -> says_why (f table name)).

Lemma hits_in_range pat ranges a : In a (hits pat ranges) -> exists range, In range ranges /\ RangeBase range <= a < RangeBase range + range_size range.
Proof using.
  unfold hits. rewrite in_flat_map. intros (range & Hr & Ha). apply in_map_iff in Ha as (i & <- & Hi). exists range. split; [done|].
  unfold hits_from in Hi. destruct pat; [done|]. apply List.filter_In in Hi as [Hi%in_seq _]. unfold range_size. lia.
Qed.

(** Found by a pattern: the pattern's only match in the module's ranges. *)
Definition only_match (name pat : text) (image : Image) (a : Z) : Prop :=
  exists ranges, FindModule name = Returns (Some (image, ranges)) /\ ImageBase image <> 0 /\ hits (ParsePattern pat) ranges = [a].

Lemma Scan_agree st1 st2 name pat :
  lookups_ok st1 -> lookups_ok st2 ->
  agree lookups_ok (fun r => says_why r /\ forall image a, r = Ok (image, a) -> only_match name pat image a) (Scan st1 name pat) (Scan st2 name pat).
Proof using laws.
  intros [Hs1 Hc1] [Hs2 Hc2]. unfold Scan. destruct pat as [|c pat]; [by apply agree_returns; [..|split; [by apply Unbound_says_why|]]|]. set (p := c :: pat).
  destruct (module_yields name) as [found E]. rewrite E. cbn [outcome_bind]. destruct found as [[image ranges]|].
  - destruct (module_sane name image ranges E) as (Hb & _).
    destruct (FindPatternEx_scan (frequencies st1) image ranges p Hc1 Hb) as (c1 & Hc1' & ->), (FindPatternEx_scan (frequencies st2) image ranges p Hc2 Hb) as (c2 & Hc2' & ->).
    cbn [outcome_bind]. apply agree_returns; [by split|by split|].
    destruct (hits (ParsePattern p) ranges) as [|a [|b l]] eqn:Eh; cbn [ScannedModule Address Unique];
      (destruct (Z.eqb_spec (ImageBase image) 0); (split; [by first [apply Unbound_says_why|intros ? [=]]|]; try done)).
    intros i a' [= <- <-]. exists ranges. done.
  - cbn [outcome_bind FindPatternEx ScannedModule]. apply agree_returns; [by split|by split|]. split; [by apply Unbound_says_why|done].
Qed.

Lemma symbols_lookups st s : lookups_ok st -> symbols_ok s -> lookups_ok (with_symbols st s).
Proof using. intros [_ Hc] Hs. by split. Qed.

Lemma FindScript_says_why table name : says_why (FindScript scriptOf table name).
Proof using Hscript. unfold FindScript. destruct scriptOf as [f|]; [by apply Hscript|by apply Unbound_says_why]. Qed.

(** A function: a pattern's only match, or an address in the module that a script's binding calls. *)
Definition function_ok (e : FunctionEntry) (a : Z) : Prop :=
  match FnScript e with
  | [] => exists pat image, column (FnWindows e) (FnLinux e) = Some pat /\ only_match (FnModule e) pat image a
  | _ => exists image, is_module (FnModule e) image /\ Contains image a = true
  end.

(** The lookup ends with an error it got, or with one of its own. *)
Ltac fails_with Hw := apply agree_returns; [by first [done|apply symbols_lookups]..|split; [intros ? [= <-]; by apply Hw|done]].
Ltac unbound := apply agree_returns; [done|done|split; [by apply Unbound_says_why|done]].

Lemma FindFunction_agree st1 st2 key e :
  lookups_ok st1 -> lookups_ok st2 ->
  agree lookups_ok (fun r => says_why r /\ forall a, r = Ok a -> function_ok e a) (FindFunction scriptOf st1 key e) (FindFunction scriptOf st2 key e).
Proof using laws Hscript.
  intros H1 H2. unfold FindFunction, function_ok. destruct (FnScript e) as [|c script] eqn:Es.
  - destruct (column _ _) as [pat|]; [|unbound]. eapply agree_bind; [by apply Scan_agree|].
    intros [[image a]|err] s1 s2 Hs1 Hs2 [Hw Ha]; [|fails_with Hw].
    apply agree_returns; [done|done|]. split; [done|]. intros a' [= <-]. exists pat, image. split; [done|]. by apply Ha.
  - unfold FindScriptFunction. eapply agree_bind; [apply Module_agree; [apply H1|apply H2]|].
    intros [image|err] s1 s2 Hs1 Hs2 [Hw Him]; [|fails_with Hw].
    eapply agree_bind; [by apply Table_agree|]. intros [table|err] t1 t2 Ht1 Ht2 Hwt; [|fails_with Hwt].
    cbn zeta. pose proof (FindScript_says_why table (FnScript e)) as Hws. destruct (FindScript _ _ _) as [target|err]; [|fails_with Hws].
    destruct (Contains image (TargetAddress target)) eqn:Ec; cbn [negb]; apply agree_returns; try by apply symbols_lookups.
    + split; [done|]. intros a [= <-]. exists image. split; [by apply (Him image)|done].
    + split; [by apply Unbound_says_why|done].
Qed.

(** A global: readable memory of the module. *)
Definition global_ok (e : GlobalEntry) (a : Z) : Prop :=
  a <> 0 /\ readable a 8 = true /\ exists image, is_module (GlModule e) image /\ Contains image a = true.

Lemma FindGlobal_agree st1 st2 key e :
  (forall col, column (GlWindows e) (GlLinux e) = Some col -> int32_min <= rel32At col <= int32_max) -> lookups_ok st1 -> lookups_ok st2 ->
  agree lookups_ok (fun r => says_why r /\ forall a, r = Ok a -> global_ok e a) (FindGlobal memory readable st1 key e) (FindGlobal memory readable st2 key e).
Proof using laws.
  intros Hcol H1 H2. unfold FindGlobal. destruct (column _ _) as [col|] eqn:Ecol; [|unbound]. eapply agree_bind; [by apply Scan_agree|].
  intros [[image a]|err] s1 s2 Hs1 Hs2 [Hw Ha]; [|fails_with Hw].
  destruct (Ha image a eq_refl) as (ranges & Ef & Hb & Eh). destruct (module_sane _ _ _ Ef) as (_ & I0 & I1 & I2 & Im & Ir).
  destruct (hits_in_range (ParsePattern (pattern col)) ranges a) as (range & Hr & Hin); [rewrite Eh; by left|]. destruct (Ir range Hr) as [R0 R1].
  destruct (ResolveRelativeAddress_in_module memory image a (rel32At col) Rel32Size I0 I1 I2 ltac:(lia) (Hcol col eq_refl) Im) as (d & _ & -> & _). cbn [outcome_bind].
  match goal with |- context [(?t =? 0) || _ || _] => set (target := t) end. destruct (_ || _ || _) eqn:E; [unbound|]. rewrite !orb_false_iff, !negb_false_iff, Z.eqb_neq in E. destruct E as [[Hne Hc] Hrd].
  apply agree_returns; [done|done|]. split; [done|]. intros a' [= <-]. split; [done|]. split; [done|]. exists image. split; [split; [done|eauto]|done].
Qed.

Lemma ColumnValue_ok value what : what <> [] -> says_why (ColumnValue value what) /\ forall v, ColumnValue value what = Ok v -> 0 <= v.
Proof using.
  intros Hwhat. unfold ColumnValue. destruct value as [v|].
  - destruct (Z.ltb_spec v 0); (split; [|]); try done; [|by intros ? [= <-]]. apply Unbound_says_why. by destruct what.
  - split; [|done]. by apply Unbound_says_why.
Qed.

(** A slot: not negative, and it holds code, or held it before a hook. *)
Definition slot_ok (s : VirtualSlot) : Prop :=
  0 <= Index s /\ readable (Table_ s + Index s * 8) 8 = true /\
  exists code, executable code = true /\
    ((exists f, originalOf = Some f /\ f (Table_ s) (Index s) = Some code) \/ ReadWord memory (Table_ s + Index s * 8) = Returns code).

Lemma OriginalSlot_returns table index :
  readable (table + index * 8) 8 = true ->
  exists code, OriginalSlot memory originalOf table index = Returns code /\
    ((exists f, originalOf = Some f /\ f table index = Some code) \/ ReadWord memory (table + index * 8) = Returns code).
Proof using Hreadable.
  intros Hr%Hreadable. unfold OriginalSlot, WordSize. destruct (ReadWord_mapped memory _ Hr) as (code & -> & _).
  destruct originalOf as [f|]; [|eauto]. destruct (f table index) as [original|] eqn:E; eauto 10.
Qed.

(** The rest of [FindSlot] once the table and the index are known. *)
Lemma slot_code_agree st1 st2 key e image table index :
  (executable 0 = false) -> 0 <= index -> lookups_ok st1 -> lookups_ok st2 ->
  let finish st := run! code := (if readable (table + index * WordSize) WordSize then OriginalSlot memory originalOf table index else Returns 0) in
    if negb (executable code) then
      let owner := match VtBase e with [] => VtClass e | _ => VtBase e end in Returns (Unbound (owner ++ $"::[" ++ dec index ++ $"] does not hold code"), st)
    else
      let codeRva := if Contains image code then rva image code else 0 in
      Returns (Ok (mkVirtualSlot index table), record_slot st key (mkSlot (VtModule e) (rva image table) index codeRva)) in
  agree lookups_ok (fun r => says_why r /\ forall s, r = Ok s -> slot_ok s) (finish st1) (finish st2).
Proof using Hreadable.
  intros H0 Hi H1 H2 finish. unfold finish, WordSize. destruct (readable (table + index * 8) 8) eqn:Er.
  - destruct (OriginalSlot_returns table index Er) as (code & -> & Hcode). cbn [outcome_bind]. destruct (executable code) eqn:Ee; cbn [negb]; cbn zeta.
    + apply agree_returns; [done|done|]. split; [done|]. intros s [= <-]. split; [done|]. split; [done|]. exists code. done.
    + apply agree_returns; [done|done|]. split; [|done]. apply Unbound_says_why. by destruct (match VtBase e with [] => _ | _ => _ end).
  - cbn [outcome_bind]. rewrite H0. cbn [negb]. cbn zeta. apply agree_returns; [done|done|]. split; [|done]. apply Unbound_says_why. by destruct (match VtBase e with [] => _ | _ => _ end).
Qed.

Lemma FindSlot_agree st1 st2 key e :
  executable 0 = false -> lookups_ok st1 -> lookups_ok st2 ->
  agree lookups_ok (fun r => says_why r /\ forall s, r = Ok s -> slot_ok s)
    (FindSlot memory readable executable originalOf scriptOf st1 key e) (FindSlot memory readable executable originalOf scriptOf st2 key e).
Proof using laws Hreadable Hscript.
  intros H0 H1 H2. unfold FindSlot. set (given := match VtScript e with [] => _ | _ => _ end).
  assert (says_why given /\ (VtScript e = [] -> forall v, given = Ok v -> 0 <= v)) as [Hwg Hg].
  { unfold given. destruct (VtScript e); [|by split]. destruct (ColumnValue_ok (column (VtWindows e) (VtLinux e)) $"index") as [? ?]; [done|]. split; [done|]. auto. }
  destruct given as [index|err]; [|fails_with Hwg].
  eapply agree_bind; [apply Module_agree; [apply H1|apply H2]|].
  intros [image|err] s1 s2 Hs1 Hs2 [Hw Him]; [|fails_with Hw].
  eapply agree_bind; [by apply Table_agree|]. intros [table|err] t1 t2 Ht1 Ht2 Hwt; [|fails_with Hwt].
  cbn zeta. destruct (VtScript e) as [|c script] eqn:Es; [apply slot_code_agree; [done|by apply Hg|by apply symbols_lookups..]|].
  assert (says_why (ScriptSlot scriptOf table (c :: script)) /\ forall v, ScriptSlot scriptOf table (c :: script) = Ok v -> 0 <= v) as [Hws Hv].
  { unfold ScriptSlot. pose proof (FindScript_says_why table (c :: script)) as Hf. destruct (FindScript _ _ _) as [target|err]; [|split; [intros ? [= <-]; by apply Hf|done]].
    destruct (Z.ltb_spec (TargetIndex target) 0); (split; [|]); try done; [by apply Unbound_says_why|by intros ? [= <-]]. }
  destruct (ScriptSlot scriptOf table (c :: script)) as [i|err]; [apply slot_code_agree; [done|by apply Hv|by apply symbols_lookups..]|].
  apply agree_returns; [by apply symbols_lookups..|]. split; [intros ? [= <-]; by apply Hws|done].
Qed.

Lemma FindOffset_agree st1 st2 key e :
  lookups_ok st1 -> lookups_ok st2 ->
  agree lookups_ok (fun r => says_why r /\ forall v, r = Ok v -> OfBase e = [] -> 0 <= v) (FindOffset st1 key e) (FindOffset st2 key e).
Proof using laws.
  intros H1 H2. unfold FindOffset. apply (agree_bind lookups_ok _ (fun r => says_why r /\ forall v, r = Ok v -> OfBase e = [] -> 0 <= v)).
  - destruct (OfBase e) as [|c base] eqn:Eb.
    + destruct (ColumnValue_ok (column (OfWindows e) (OfLinux e)) $"offset") as [? Hv]; [done|]. apply agree_returns; [done|done|]. split; [done|]. intros v Ev _. by apply Hv.
    + unfold FindBaseOffset. destruct (OfClass e) as [|c' class] eqn:Ec; [unbound|].
      eapply agree_bind; [apply Base_agree; [apply H1|apply H2]|]. intros b t1 t2 Ht1 Ht2 Hw. apply agree_returns; [by apply symbols_lookups..|].
      split; [|done]. destruct b as [b|err]; [done|]. intros ? [= <-]. by apply Hw.
  - intros r s1 s2 Hs1 Hs2 HP. destruct r; by apply agree_returns.
Qed.

(** *** A key *)

Context (file : GameDataDocument).

(** What a key of a section is bound to. *)
Definition bound_ok (kind : Section_) (key : text) (b : Bound) : Prop :=
  match kind with
  | Function_ => exists e, find_key (functions file) key = Some e /\ function_ok e (BoundAddress b)
  | Global_ => exists e, find_key (globals file) key = Some e /\ global_ok e (BoundAddress b)
  | VTable_ => slot_ok (mkVirtualSlot (BoundValue b) (BoundAddress b))
  | Offset_ => exists e, find_key (offsets file) key = Some e /\ (OfBase e = [] -> 0 <= BoundValue b)
  end.

Definition section_keys (kind : Section_) : list text :=
  match kind with Function_ => keys (functions file) | Global_ => keys (globals file) | VTable_ => keys (vtables file) | Offset_ => keys (offsets file) end.

Lemma find_key_In {V} (m : OrderedMap V) key : In key (keys m) -> exists v, find_key m key = Some v.
Proof using.
  unfold keys, find_key. intros Hin. induction m as [|[k v] m IH]; [done|]. cbn in *. destruct (text_eqb k key) eqn:E; [by exists v|].
  destruct Hin as [->|Hin]; [by rewrite text_eqb_refl in E|]. by apply IH.
Qed.

(** Offsets within what [int] holds, as the document's reader gives them. *)
Definition columns_ok : Prop :=
  forall key e col, find_key (globals file) key = Some e -> column (GlWindows e) (GlLinux e) = Some col -> int32_min <= rel32At col <= int32_max.

Lemma map_result_agree {A B} (f : A -> B) (P : A -> Prop) (Q : B -> Prop) (o1 o2 : outcome (Result A * Lookups)) :
  agree lookups_ok (fun r => says_why r /\ forall a, r = Ok a -> P a) o1 o2 -> (forall a, P a -> Q (f a)) ->
  agree lookups_ok (fun r => says_why r /\ forall b, r = Ok b -> Q b)
    (run! (r, st) := o1 in Returns (map_result f r, st)) (run! (r, st) := o2 in Returns (map_result f r, st)).
Proof using.
  intros Ho HPQ. eapply agree_bind; [exact Ho|]. intros r s1 s2 Hs1 Hs2 [Hw HP]. apply agree_returns; [done|done|].
  destruct r as [a|e]; cbn; (split; [|]); try done; [|intros ? [= <-]; by apply Hw]. intros b [= <-]. apply HPQ. by apply HP.
Qed.

Lemma Locate_agree st1 st2 kind key :
  executable 0 = false -> columns_ok -> In key (section_keys kind) -> lookups_ok st1 -> lookups_ok st2 ->
  agree lookups_ok (fun r => says_why r /\ forall b, r = Ok b -> bound_ok kind key b)
    (Locate memory readable executable originalOf scriptOf file st1 (Some kind) key) (Locate memory readable executable originalOf scriptOf file st2 (Some kind) key).
Proof using laws Hreadable Hscript.
  intros H0 Hcol Hin H1 H2. unfold Locate, with_entry.
  destruct kind; cbn [section_keys] in Hin; apply find_key_In in Hin as [e Ee]; rewrite Ee.
  - eapply map_result_agree; [by apply FindFunction_agree|]. intros a Ha. by exists e.
  - eapply map_result_agree; [apply FindGlobal_agree; [|done|done]; intros col; by apply (Hcol key)|]. intros a Ha. by exists e.
  - eapply map_result_agree; [by apply FindSlot_agree|]. by intros [].
  - eapply map_result_agree; [by apply FindOffset_agree|]. intros v Hv. by exists e.
Qed.

(** What a key of a section gives, looked up alone. *)
Definition alone (kind : Section_) (key : text) : Result Bound :=
  match Locate memory readable executable originalOf scriptOf file no_lookups (Some kind) key with Returns (r, _) => r | _ => Unbound [] end.

Lemma no_lookups_ok : lookups_ok no_lookups.
Proof using. split; [split; intros *; cbn; by rewrite lookup_empty|intros base counts; cbn; by rewrite lookup_empty]. Qed.

Lemma Locate_alone st kind key :
  executable 0 = false -> columns_ok -> In key (section_keys kind) -> lookups_ok st ->
  exists st', Locate memory readable executable originalOf scriptOf file st (Some kind) key = Returns (alone kind key, st') /\ lookups_ok st' /\
    says_why (alone kind key) /\ forall b, alone kind key = Ok b -> bound_ok kind key b.
Proof using laws Hreadable Hscript.
  intros H0 Hcol Hin Hst. destruct (Locate_agree st no_lookups kind key H0 Hcol Hin Hst no_lookups_ok) as (r & s1 & s2 & E1 & E2 & Hs1 & _ & HP).
  unfold alone. rewrite E2. exists s1. destruct HP. by split_and!.
Qed.

(** *** All the keys *)

(** Whether an entry is as indexing and [fail_doubles] leave it: of one section, and not failed, or failed. *)
Definition waits (e : GameDataEntry) (key : text) : Prop :=
  EntryAddress e = 0 /\ EntryValue e = -1 /\ (Reason e = [] -> exists kind, Kind e = Some kind /\ In key (section_keys kind)).

(** The entry once it is resolved. *)
Definition settled (key : text) (e e' : GameDataEntry) : Prop :=
  match Reason e, Kind e with
  | [], Some kind =>
      match alone kind key with
      | Ok b => e' = mkEntry (Sections e) (Kind e) (BoundAddress b) (BoundValue b) []
      | Err error => e' = mkEntry (Sections e) (Kind e) (EntryAddress e) (EntryValue e) (Detail error)
      end
  | _, _ => e' = e
  end.

(** The lines of the entries that failed. *)
Definition failure_lines (m : OrderedMap GameDataEntry) : list text :=
  flat_map (fun '(key, e) => match Reason e with [] => [] | _ => [key ++ $": " ++ Reason e] end) m.

Lemma ResolveAll_settles m st :
  executable 0 = false -> columns_ok -> Forall (fun '(key, e) => waits e key) m -> lookups_ok st ->
  exists m' failures st', ResolveAll memory readable executable originalOf scriptOf file m st = Returns (m', failures, st') /\
    Forall2 (fun a b => a.1 = b.1 /\ settled a.1 a.2 b.2) m m' /\ failure_lines m' ≡ₚ failure_lines m ++ failures.
Proof using laws Hreadable Hscript.
  intros H0 Hcol Hm. revert st. induction Hm as [|[key e] m (Ha & Hv & Hk) Hm IH]; intros st Hst; cbn [ResolveAll].
  { exists [], [], st. split_and!; [done|by constructor|done]. }
  cbn [failure_lines flat_map]. fold (failure_lines m). destruct (Reason e) as [|c reason] eqn:Er.
  - destruct (Hk eq_refl) as (kind & Ek & Hin). rewrite Ek. destruct (Locate_alone st kind key H0 Hcol Hin Hst) as (st' & -> & Hst' & Hw & _). cbn [outcome_bind].
    destruct (IH st' Hst') as (m' & failures & st'' & -> & Hs & Hp). destruct (alone kind key) as [b|error] eqn:Eal; unfold failed; cbn [outcome_bind].
    + do 3 eexists. split; [done|]. split; [constructor; [|exact Hs]; cbn; split; [done|]; unfold settled; by rewrite Er, Ek, Eal|]. exact Hp.
    + do 3 eexists. split; [done|]. split; [constructor; [|exact Hs]; cbn; split; [done|]; unfold settled; by rewrite Er, Ek, Eal|].
      specialize (Hw error eq_refl). cbn [failure_lines flat_map Reason]. fold (failure_lines m'). destruct (Detail error); [done|]. cbn [app]. by apply Permutation_cons_app.
  - destruct (IH st Hst) as (m' & failures & st'' & -> & Hs & Hp). cbn [outcome_bind]. do 3 eexists. split; [done|].
    split; [constructor; [|exact Hs]; cbn; split; [done|]; unfold settled; by rewrite Er|]. cbn [failure_lines flat_map]. fold (failure_lines m'). rewrite Er. cbn [app]. by rewrite Hp.
Qed.
End Agreement.

(** ** Indexing *)

Lemma find_key_cons {V} k (v : V) m key : find_key ((k, v) :: m) key = if text_eqb k key then Some v else find_key m key.
Proof. unfold find_key. cbn. by destruct (text_eqb k key). Qed.

Lemma find_key_absent {V} (m : OrderedMap V) key : ~ In key (keys m) -> find_key m key = None.
Proof.
  unfold keys. induction m as [|[k v] m IH]; [done|]. intros Hn. cbn in Hn. rewrite find_key_cons, (proj2 (text_eqb_false k key)) by (intros ->; apply Hn; by left).
  apply IH. intros ?. apply Hn. by right.
Qed.

Lemma find_update f key m k :
  sorted_keys m -> find_key (update_entry key f m) k = if text_eqb key k then Some (f (default new_entry (find_key m key))) else find_key m k.
Proof.
  unfold sorted_keys. induction m as [|[k' e] m IH]; cbn [update_entry keys map fst]; intros Hs.
  - rewrite find_key_cons. by destruct (text_eqb key k).
  - apply StronglySorted_inv in Hs as [Hs Hf]. destruct (text_eqb key k') eqn:E1.
    + apply text_eqb_true in E1 as ->. rewrite !find_key_cons, text_eqb_refl. cbn. by destruct (text_eqb k' k).
    + assert (text_eqb k' key = false) as E1' by (apply text_eqb_false in E1; apply text_eqb_false; congruence). destruct (text_ltb key k') eqn:E2.
      * rewrite find_key_cons. destruct (text_eqb key k) eqn:E3; [|done]. apply text_eqb_true in E3 as <-. rewrite find_key_cons, E1'. rewrite find_key_absent; [done|].
        intros Hin. rewrite Forall_forall in Hf. specialize (Hf key). rewrite list_elem_of_In in Hf. specialize (Hf Hin).
        pose proof (text_ltb_trans _ _ _ E2 Hf) as Hx. by rewrite text_ltb_irrefl in Hx.
      * rewrite !find_key_cons, E1', IH by done. destruct (text_eqb k' k) eqn:E3; [|done]. apply text_eqb_true in E3 as <-. by rewrite E1.
Qed.

Lemma In_update f key m k : In k (keys (update_entry key f m)) <-> k = key \/ In k (keys m).
Proof.
  induction m as [|[k' e] m IH]; cbn [update_entry keys map fst]; [cbn; firstorder|]. destruct (text_eqb key k') eqn:E1.
  - apply text_eqb_true in E1 as ->. cbn. firstorder.
  - destruct (text_ltb key k'); cbn; [firstorder|]. unfold keys in *. rewrite IH. firstorder.
Qed.

Lemma update_sorted f key m : sorted_keys m -> sorted_keys (update_entry key f m).
Proof.
  unfold sorted_keys. induction m as [|[k' e] m IH]; cbn [update_entry keys map fst]; intros Hs; [by repeat constructor|].
  apply StronglySorted_inv in Hs as [Hs Hf]. destruct (text_eqb key k') eqn:E1; [by constructor|]. apply text_eqb_false in E1. destruct (text_ltb key k') eqn:E2.
  - constructor; [by constructor|]. constructor; [done|]. eapply Forall_impl; [exact Hf|]. intros x Hx. by eapply text_ltb_trans.
  - constructor; [by apply IH|]. apply Forall_forall. intros x Hx. apply list_elem_of_In, In_update in Hx as [->|Hx]; [by apply text_ltb_total|].
    rewrite Forall_forall in Hf. apply Hf. by apply list_elem_of_In.
Qed.

Lemma find_index kind name ks m k :
  NoDup ks -> sorted_keys m ->
  sorted_keys (index_section kind name ks m) /\
  find_key (index_section kind name ks m) k = if mem ks k then Some (add_section kind name (default new_entry (find_key m k))) else find_key m k.
Proof.
  unfold index_section. revert m. induction ks as [|key ks IH]; intros m Hnd Hs; [done|]. apply NoDup_cons in Hnd as [Hni Hnd]. cbn [fold_left].
  destruct (IH (update_entry key (add_section kind name) m) Hnd (update_sorted _ _ _ Hs)) as [H1 H2]. split; [done|]. rewrite H2, !find_update by done. unfold mem. cbn [existsb].
  fold (mem ks k). destruct (text_eqb key k) eqn:E.
  - apply text_eqb_true in E as ->. rewrite text_eqb_refl. assert (mem ks k = false) as ->; [|done]. apply not_true_is_false. rewrite mem_In, <- list_elem_of_In. done.
  - assert (text_eqb k key = false) as -> by (apply text_eqb_false in E; apply text_eqb_false; congruence). done.
Qed.

Definition section_name (kind : Section_) : text :=
  match kind with Function_ => $"functions" | Global_ => $"globals" | VTable_ => $"vtables" | Offset_ => $"offsets" end.

(** The sections of the file that hold the key. *)
Definition sections_of (file : GameDataDocument) (key : text) : list Section_ :=
  List.filter (fun kind => mem (section_keys file kind) key) [Function_; Global_; VTable_; Offset_].

(** The sections are maps. *)
Definition document_ok (file : GameDataDocument) : Prop :=
  sorted_keys (functions file) /\ sorted_keys (globals file) /\ sorted_keys (vtables file) /\ sorted_keys (offsets file).

Lemma sorted_NoDup {V} (m : OrderedMap V) : sorted_keys m -> NoDup (keys m).
Proof.
  unfold sorted_keys. induction (keys m) as [|k ks IH]; intros Hs; [constructor|]. apply StronglySorted_inv in Hs as [Hs Hf]. constructor; [|by apply IH].
  intros Hin. rewrite Forall_forall in Hf. specialize (Hf k Hin). by rewrite text_ltb_irrefl in Hf.
Qed.

Definition indexed (kinds : list Section_) : option GameDataEntry :=
  match kinds with
  | [] => None
  | [kind] => Some (mkEntry [section_name kind] (Some kind) 0 (-1) [])
  | _ => Some (mkEntry (map section_name kinds) None 0 (-1) [])
  end.

Lemma find_index_all file key : document_ok file -> sorted_keys (index_all file) /\ find_key (index_all file) key = indexed (sections_of file key).
Proof.
  intros (Hf & Hg & Hv & Ho). unfold index_all.
  destruct (find_index Function_ $"functions" (keys (functions file)) [] key (sorted_NoDup _ Hf) ltac:(constructor)) as [S1 E1].
  destruct (find_index Global_ $"globals" (keys (globals file)) _ key (sorted_NoDup _ Hg) S1) as [S2 E2].
  destruct (find_index VTable_ $"vtables" (keys (vtables file)) _ key (sorted_NoDup _ Hv) S2) as [S3 E3].
  destruct (find_index Offset_ $"offsets" (keys (offsets file)) _ key (sorted_NoDup _ Ho) S3) as [S4 E4].
  split; [exact S4|]. rewrite E4, E3, E2, E1. unfold sections_of. cbn [List.filter section_keys].
  by destruct (mem (keys (functions file)) key), (mem (keys (globals file)) key), (mem (keys (vtables file)) key), (mem (keys (offsets file)) key).
Qed.

Definition fail_double (e : GameDataEntry) : GameDataEntry :=
  match Sections e with
  | a :: b :: _ => mkEntry (Sections e) (Kind e) (EntryAddress e) (EntryValue e) ($"in both '" ++ a ++ $"' and '" ++ b ++ $"'")
  | _ => e
  end.

Lemma failure_lines_cons key e m :
  failure_lines ((key, e) :: m) = match Reason e with [] => [] | _ => [key ++ $": " ++ Reason e] end ++ failure_lines m.
Proof. done. Qed.

Lemma fail_doubles_entries m : Forall (fun x => Reason x.2 = []) m -> fail_doubles m = (map (fun x => (x.1, fail_double x.2)) m, failure_lines (map (fun x => (x.1, fail_double x.2)) m)).
Proof.
  unfold fail_doubles. induction 1 as [|[key e] m He _ IH]; cbn [fold_right map fst snd]; [done|]. rewrite IH, failure_lines_cons. cbn [snd] in He.
  set (m' := map _ m). clearbody m'. unfold fail_double, failed. destruct (Sections e) as [|a [|b rest]]; by rewrite ?He.
Qed.

Lemma find_key_map {V W} (f : V -> W) (m : OrderedMap V) key : find_key (map (fun x => (x.1, f x.2)) m : OrderedMap W) key = option_map f (find_key m key).
Proof. induction m as [|[k v] m IH]; [done|]. cbn [map fst snd]. rewrite !find_key_cons, IH. by destruct (text_eqb k key). Qed.

Lemma find_key_Forall2 {V W} (R : text -> V -> W -> Prop) (m : OrderedMap V) (m' : OrderedMap W) key :
  Forall2 (fun a b => a.1 = b.1 /\ R a.1 a.2 b.2) m m' ->
  match find_key m key, find_key m' key with Some v, Some w => R key v w | None, None => True | _, _ => False end.
Proof.
  induction 1 as [|[k v] [k' w] m m' [E HR] _ IH]; [done|]. cbn [fst snd] in *. subst k'. rewrite !find_key_cons. destruct (text_eqb k key) eqn:Ek; [|done].
  by apply text_eqb_true in Ek as ->.
Qed.

Lemma find_key_of_In {V} (m : OrderedMap V) key v : sorted_keys m -> In (key, v) m -> find_key m key = Some v.
Proof.
  intros Hs Hin. apply sorted_NoDup in Hs. unfold keys in Hs. induction m as [|[k w] m IH]; [done|]. cbn in Hs. apply NoDup_cons in Hs as [Hk Hs]. rewrite find_key_cons.
  destruct Hin as [[= -> ->]|Hin]; [by rewrite text_eqb_refl|]. rewrite (proj2 (text_eqb_false k key)); [by apply IH|]. intros ->. apply Hk, list_elem_of_In, in_map_iff. by exists (key, v).
Qed.

Section Resolved.
Context `{ModuleLookup} (memory : Z -> option Z) {laws : LookupLaws memory} (readable : Z -> Z -> bool) (executable : Z -> bool)
  (originalOf : option (Z -> Z -> option Z)) (scriptOf : option (Z -> text -> Result ScriptTarget)) (file : GameDataDocument).

(** What the system and the injected lookups promise, and the document's reader. *)
Record scanner_ok : Prop := {
  sc_readable : forall a n, readable a n = true -> mapped memory a n;
  sc_executable : executable 0 = false;
  sc_script : forall f table name, scriptOf = Some f -> says_why (f table name);
  sc_document : document_ok file;
  sc_columns : columns_ok file }.

Context (Hok : scanner_ok).

Let found_alone := alone memory readable executable originalOf scriptOf file.

(** What a key's entry should be: of each key apart from the others. *)
Definition entry_of (key : text) : option GameDataEntry :=
  match sections_of file key with
  | [] => None
  | [kind] => Some match found_alone kind key with
                   | Ok b => mkEntry [section_name kind] (Some kind) (BoundAddress b) (BoundValue b) []
                   | Err e => mkEntry [section_name kind] (Some kind) 0 (-1) (Detail e)
                   end
  | a :: b :: rest => Some (mkEntry (map section_name (a :: b :: rest)) None 0 (-1) ($"in both '" ++ section_name a ++ $"' and '" ++ section_name b ++ $"'"))
  end.

Lemma resolved_entry_of :
  exists s, resolved memory readable executable originalOf scriptOf file = Returns s /\ (forall key, Find s key = entry_of key) /\
    _failures s ≡ₚ failure_lines (_entries s).
Proof using Hok laws.
  destruct (find_index_all file [] (sc_document Hok)) as [Hsorted _]. pose proof (fun key => proj2 (find_index_all file key (sc_document Hok))) as Hfind.
  set (m := index_all file) in *.
  assert (forall key e, In (key, e) m -> indexed (sections_of file key) = Some e) as Hentry by (intros key e Hin; rewrite <- Hfind; by apply find_key_of_In).
  unfold resolved. fold m. rewrite fail_doubles_entries.
  2: { apply Forall_forall. intros [key e] Hin%list_elem_of_In%Hentry. unfold indexed in Hin. cbn. destruct (sections_of file key) as [|a [|b rest]]; by simplify_eq. }
  set (m1 := map (fun x => (x.1, fail_double x.2)) m).
  destruct (ResolveAll_settles memory readable executable originalOf scriptOf (sc_readable Hok) (sc_script Hok) file m1 no_lookups (sc_executable Hok) (sc_columns Hok)) as (m' & failures & st' & -> & Hs & Hp).
  { apply Forall_forall. intros [key e1] Hin%list_elem_of_In. unfold m1 in Hin. apply in_map_iff in Hin as ([key' e] & [= <- <-] & Hin). apply Hentry in Hin. unfold indexed in Hin. cbn [fst snd].
    destruct (sections_of file key') as [|a [|b rest]] eqn:Es; [done| |]; injection Hin as <-; (split; [done|]; split; [done|]); cbn; [|done]. intros _. exists a. split; [done|].
    assert (In a (sections_of file key')) as Ha by (rewrite Es; by left). unfold sections_of in Ha. apply List.filter_In in Ha as [_ Ha]. by apply mem_In. }
  { apply no_lookups_ok. }
  cbn [outcome_bind]. eexists. split; [done|]. cbn [_entries _failures]. split; [|by rewrite Hp].
  intros key. unfold Find, entry_of. cbn [_entries]. pose proof (find_key_Forall2 (settled memory readable executable originalOf scriptOf file) m1 m' key Hs) as Hk.
  unfold m1 in Hk. rewrite find_key_map in Hk. rewrite Hfind in Hk. unfold indexed in Hk.
  destruct (sections_of file key) as [|a [|b rest]] eqn:Es; cbn [option_map] in Hk; [by destruct (find_key m' key)| |]; (destruct (find_key m' key) as [e'|]; [|done]); f_equal.
  - unfold settled in Hk. cbn in Hk. unfold found_alone. by destruct (alone _ _ _ _ _ _ a key).
  - exact Hk.
Qed.

Lemma bound_alone_ok key kind b : sections_of file key = [kind] -> found_alone kind key = Ok b -> bound_ok memory readable executable originalOf file kind key b.
Proof using Hok laws.
  intros Es. assert (In kind (sections_of file key)) as Hin by (rewrite Es; by left). unfold sections_of in Hin. apply List.filter_In in Hin as [_ Hin%mem_In].
  destruct (Locate_alone memory readable executable originalOf scriptOf (sc_readable Hok) (sc_script Hok) file no_lookups kind key (sc_executable Hok) (sc_columns Hok) Hin no_lookups_ok)
    as (_ & _ & _ & _ & Hb). apply Hb.
Qed.

Lemma alone_says_why key kind e : sections_of file key = [kind] -> found_alone kind key = Err e -> Detail e <> [].
Proof using Hok laws.
  intros Es. assert (In kind (sections_of file key)) as Hin by (rewrite Es; by left). unfold sections_of in Hin. apply List.filter_In in Hin as [_ Hin%mem_In].
  destruct (Locate_alone memory readable executable originalOf scriptOf (sc_readable Hok) (sc_script Hok) file no_lookups kind key (sc_executable Hok) (sc_columns Hok) Hin no_lookups_ok)
    as (_ & _ & _ & Hw & _). apply Hw.
Qed.
End Resolved.

(** Resolving a gamedata file ends, and gives each key what looking it up alone gives: the caches the lookups share and the
    order they are made in change nothing. A key in two sections binds from neither; an entry that did not bind says why, and
    the failures listed are one line for each of them. *)
Theorem resolved_each_alone `{ModuleLookup} memory {laws : LookupLaws memory} readable executable originalOf scriptOf file :
  scanner_ok memory readable executable scriptOf file ->
  exists s, resolved memory readable executable originalOf scriptOf file = Returns s /\
    (forall key, Find s key = entry_of memory readable executable originalOf scriptOf file key) /\
    _failures s ≡ₚ failure_lines (_entries s).
Proof. intros Hok. by apply resolved_entry_of. Qed.

Lemma land_flag sections kind : Z.land sections (flag kind) =? 0 = negb (Z.testbit sections (Z.log2 (flag kind))).
Proof.
  assert (flag kind = 2 ^ Z.log2 (flag kind)) as E by by destruct kind. assert (0 <= Z.log2 (flag kind)) as H0 by by destruct kind. revert E H0.
  generalize (Z.log2 (flag kind)) as n. intros n -> H0. destruct (Z.testbit sections n) eqn:Et; cbn [negb].
  - apply Z.eqb_neq. intros E. apply (f_equal (fun z => Z.testbit z n)) in E. rewrite Z.land_spec, Et, Z.pow2_bits_true, Z.testbit_0_l in E by done. done.
  - apply Z.eqb_eq, Z.bits_inj'. intros i Hi. rewrite Z.land_spec, Z.testbit_0_l. destruct (decide (i = n)) as [->|]; [by rewrite Et|]. rewrite Z.pow2_bits_false by congruence. apply andb_false_r.
Qed.


(** Every member binds exactly when [Bind] succeeds: each is then what gamedata found for it. *)
Lemma Bind_all lookup :
  let '(bound, failures, status) := Bindings.Bind lookup in
  (status = Ok tt <-> forall m key, In (m, key) Bindings.members -> Found (lookup (Bindings.sections m) key) = true) /\
  (forall m key, In (m, key) Bindings.members -> In (key, Bindings.value_of m (lookup (Bindings.sections m) key)) bound) /\
  (forall line, In line failures <-> exists m key, In (m, key) Bindings.members /\ Found (lookup (Bindings.sections m) key) = false /\
                                                   line = key ++ $": " ++ LocReason (lookup (Bindings.sections m) key)).
Proof.
  unfold Bindings.Bind. set (failing := fun '(m, key) => _).
  assert (forall line, In line (flat_map failing Bindings.members) <-> exists m key, In (m, key) Bindings.members /\ Found (lookup (Bindings.sections m) key) = false /\
    line = key ++ $": " ++ LocReason (lookup (Bindings.sections m) key)) as Hin.
  { intros line. rewrite in_flat_map. split.
    - intros ([m key] & Hm & Hl). unfold failing in Hl. destruct (Found _) eqn:Ef; [done|]. destruct Hl as [<-|[]]. eauto.
    - intros (m & key & Hm & Hf & ->). exists (m, key). split; [done|]. unfold failing. rewrite Hf. by left. }
  split_and!; [|intros m key Hm; apply in_map_iff; by exists (m, key)|exact Hin].
  destruct (flat_map failing Bindings.members) as [|line rest].
  - split; [|done]. intros _ m key Hm. destruct (Found _) eqn:Ef; [done|]. destruct (proj2 (Hin _) (ex_intro _ m (ex_intro _ key (conj Hm (conj Ef eq_refl))))).
  - split; [done|]. intros Hall. destruct (proj1 (Hin line) (or_introl eq_refl)) as (m & key & Hm & Hf & _). by rewrite Hall in Hf.
Qed.

(** A script's target is an index or an address, never both. *)
Lemma FindScriptBinding_target memory readable windows slot describe classTable name :
  (forall a n, readable a n = true -> mapped memory a n) -> (slot < 0 \/ mapped memory (classTable + slot * 8) 8) ->
  exists r, ScriptBindings.FindScriptBinding memory readable windows slot describe classTable name = Returns r /\
    says_why r /\ forall t, r = Ok t -> (TargetAddress t = 0 /\ 0 <= TargetIndex t) \/ (TargetAddress t <> 0 /\ TargetIndex t = -1).
Proof.
  intros Hr Hslot. apply yields_exists. unfold ScriptBindings.FindScriptBinding. destruct (Z.ltb_spec slot 0); [split; [by apply Unbound_says_why|done]|].
  destruct Hslot as [?|Hm]; [lia|]. destruct (ReadWord_mapped memory _ Hm) as (code & E & _). change WordSize with 8. rewrite E. cbn [outcome_bind].
  destruct (describe code) as [ds|]; [|split; [by apply Unbound_says_why|done]]. destruct (ScriptBindings.FindBinding ds name) as [b|]; [|split; [by apply Unbound_says_why|done]].
  destruct (Z.eqb_spec (ScriptBindings.Function b) 0); [split; [by apply Unbound_says_why|done]|].
  assert (yields (fun _ => True) (ScriptBindings.VirtualIndex memory readable windows (ScriptBindings.Function b))) as Hi.
  { unfold ScriptBindings.VirtualIndex. destruct windows; [|done]. unfold ScriptBindings.VirtualIndex_windows. destruct (readable _ 9) eqn:Er; cbn [negb]; [|done]. apply Hr in Er.
    assert (forall i, 0 <= i < 9 -> yields (fun _ => True) (byte_at memory (ScriptBindings.Function b + i))) as Hb
      by (intros i Hi; unfold byte_at; destruct (Er i Hi) as (x & -> & _); done).
    eapply yields_bind; [rewrite <- (Z.add_0_r (ScriptBindings.Function b)); apply Hb; lia|]. intros b0 _ _. do 3 (eapply yields_bind; [apply Hb; lia|]; intros ? _ _).
    destruct (negb _); [done|]. eapply yields_bind; [apply Hb; lia|]. intros b4 _ _. destruct (b4 =? 32); [done|].
    destruct (b4 =? 96); [eapply yields_bind; [apply Hb; lia|]; done|]. destruct (b4 =? 160); [|done].
    destruct (ReadU32_mapped memory (ScriptBindings.Function b + 5)) as (d & -> & _); [eapply mapped_part; [exact Er|lia..]|done]. }
  eapply yields_bind; [exact Hi|]. intros index _ _. destruct (Z.leb_spec 0 index); (split; [done|]); intros t [= <-]; [by left|by right].
Qed.

(** ** On Linux *)

(** What the process and its modules' files hold, for the lookups to keep their promises: no chain of bases adds up to
    [INT_MIN], and a module's span is mapped. *)
Lemma linux_laws memory readable executable loaded file dlsym :
  (forall name image ranges, Linux.FindModuleAndRanges loaded (Linux.PlatformModuleName name) = Some (image, ranges) ->
     process_ok memory readable loaded file dlsym image /\
     (forall className baseName typeInfo, ~ base_at memory readable executable loaded file dlsym image className baseName typeInfo int32_min) /\
     bytes_scanned ranges < uint64_max /\ 0 <= ImageBase image /\ 0 <= ImageSize image /\ ImageBase image + ImageSize image < 2 ^ 64 /\
     (forall a, ImageBase image <= a < ImageBase image + ImageSize image -> exists b, memory a = Some b /\ 0 <= b < 256) /\
     forall range, In range ranges -> 0 <= RangeBase range /\ RangeBase range + range_size range < 2 ^ 64) ->
  @LookupLaws (linux_lookup memory readable executable loaded file dlsym) memory.
Proof.
  intros Hsys. split; cbn.
  - eauto.
  - intros name image ranges [= E]. by destruct (Hsys name image ranges E) as (_ & _ & ?).
  - intros name image ranges className [= E]. destruct (Hsys name image ranges E) as (Hok & _).
    destruct (proj1 (yields_exists _ _) (FindVirtualTableIn_yields memory readable executable loaded file dlsym image Hok className)) as (t & -> & _). eauto.
  - intros name image ranges className baseName [= E]. destruct (Hsys name image ranges E) as (Hok & Hmin & _).
    destruct (FindBaseIn_run memory readable executable loaded file dlsym image className baseName Hok) as [(r & Er & _)|(_ & typeInfo & Hb)]; [|by destruct (Hmin className baseName typeInfo)].
    exists r. split; [done|]. intros e ->. by eapply FindBaseIn_says_why.
Qed.

Module Sample.
#[local] Instance lookup : ModuleLookup :=
  linux_lookup Vtables.Sample.memory Vtables.Sample.readable Vtables.Sample.executable Elf.Sample.loaded (fun _ => None) (fun _ => None).

Definition document : GameDataDocument :=
  mkDocument $"1" [($"Name", mkFunction $"server" None (Some $"31 41 00") [] [])] [] [($"A::First", mkVTable $"A" [] $"server" None (Some 0) []); ($"B::Missing", mkVTable $"B" [] $"server" None (Some 90) [])] [].

Lemma name_found name image ranges :
  Linux.FindModuleAndRanges Elf.Sample.loaded (Linux.PlatformModuleName name) = Some (image, ranges) -> image = Elf.Sample.module /\ ranges = Vtables.Sample.ranges.
Proof.
  unfold Linux.FindModuleAndRanges, Elf.Sample.loaded. cbn [fold_left]. unfold Linux.DlIterateCallback. cbn [Linux.dlpi_name Linux.Name].
  match goal with |- context [text_eqb ?a ?b] => destruct (text_eqb a b) end; cbn [negb]; [|done]. intros H. vm_compute in H. injection H as <- <-. by vm_compute.
Qed.

(** No class of the module lists several bases. *)
Lemma no_lists t : BaseCount Vtables.Sample.memory Vtables.Sample.readable (mkKinds 0 0) t = Returns 0.
Proof.
  unfold BaseCount. change (negb (MultipleBases (mkKinds 0 0) =? 0)) with false. cbv iota. destruct (Vtables.Sample.readable t 24) eqn:Er.
  - assert (forallb (fun i => match counted_bases Vtables.Sample.memory Vtables.Sample.readable (mkKinds 0 0) (4096 + Z.of_nat i) with Returns c => c =? 0 | _ => false end) (seq 0 105) = true) as H
      by (vm_compute; reflexivity).
    rewrite forallb_forall in H. unfold Vtables.Sample.readable, Vtables.Sample.base in Er. bools. specialize (H (Z.to_nat (t - 4096)) ltac:(apply in_seq; lia)).
    replace (4096 + Z.of_nat (Z.to_nat (t - 4096))) with t in H by lia. destruct (counted_bases _ _ _ t); [|done|done]. by apply Z.eqb_eq in H as ->.
  - unfold counted_bases. unfold TypeInfoBaseList. by rewrite Er.
Qed.

Lemma no_int_min className baseName typeInfo :
  ~ base_at Vtables.Sample.memory Vtables.Sample.readable Vtables.Sample.executable Elf.Sample.loaded (fun _ => None) (fun _ => None) Elf.Sample.module className baseName typeInfo int32_min.
Proof.
  intros (primary & kinds & f & _ & _ & Hk & (n & _ & Hp) & _ & E & _).
  assert (kinds = mkKinds 0 0) as -> by by destruct Hk.
  assert (forall t e, direct_base Vtables.Sample.memory Vtables.Sample.readable (mkKinds 0 0) t e -> EntryOffset e = 0) as Hd.
  { intros t e He. destruct He as [|count i e _ Ec Hi]; [done|]. rewrite no_lists in Ec. injection Ec as <-. cbn in Hi. lia. }
  assert (Offset f = 0) as E0 by (clear E; induction Hp as [t e He|m t e o v He _ _ _ IH]; cbn in *; rewrite (Hd _ _ He); lia).
  rewrite E0 in E. by vm_compute in E.
Qed.

#[local] Instance laws : LookupLaws Vtables.Sample.memory.
Proof.
  apply linux_laws. intros name image ranges E. destruct (name_found name image ranges E) as [-> ->]. split; [apply Elf.Sample.process_holds|]. split; [apply no_int_min|].
  split_and!; try done.
  - cbn. intros a Ha. destruct (Vtables.Sample.readable_mapped a 1) with (i := 0) as (b & Eb & Hb); [unfold Vtables.Sample.readable, Vtables.Sample.base in *; lia|lia|].
    rewrite Z.add_0_r in Eb. eauto.
  - intros range [<-|[]]. by vm_compute.
Qed.

Lemma scanner_holds : scanner_ok Vtables.Sample.memory Vtables.Sample.readable Vtables.Sample.executable None document.
Proof.
  split; [apply Vtables.Sample.readable_mapped|done|done| |done]. split_and!; unfold sorted_keys; cbn; repeat constructor.
Qed.
End Sample.

#[local] Existing Instance Sample.lookup.

Lemma resolved_each_alone_witness :
  exists s, @resolved Sample.lookup Vtables.Sample.memory Vtables.Sample.readable Vtables.Sample.executable None None Sample.document = Returns s /\
    Find s $"Name" = Some (mkEntry [$"functions"] (Some Function_) 4104 (-1) []) /\ _failures s = [$"B::Missing: B::[90] does not hold code"].
Proof.
  destruct (@resolved_each_alone Sample.lookup Vtables.Sample.memory Sample.laws Vtables.Sample.readable Vtables.Sample.executable None None Sample.document Sample.scanner_holds) as (s & E & Hf & _).
  exists s. split; [exact E|]. split; [rewrite Hf; vm_compute; reflexivity|].
  assert (match @resolved Sample.lookup Vtables.Sample.memory Vtables.Sample.readable Vtables.Sample.executable None None Sample.document with
          | Returns s => bool_decide (_failures s = [$"B::Missing: B::[90] does not hold code"]) | _ => false end = true) as H by (vm_compute; reflexivity).
  rewrite E in H. apply bool_decide_eq_true in H. exact H.
Defined.

