(* ===== verification/Migrations.v ===== *)
(** * Database migrations: [Database/Migrator.hpp], [Database/Migrator.cpp]

    The text of a migration file - its placeholders and its statements - and the run that brings a database up to
    the newest file, over any connection. *)
From S2P Require Import Prelude Text Errors.

Module Driver.
Inductive t : Type := Postgres | MariaDb | Sqlite.
End Driver.

(** ** The text of a migration *)

(** [ParseMigrationVersion]: what follows the number does not matter. *)
Definition ParseMigrationVersion (filename : text) : option Z :=
  match (from_chars 10 int32_min int32_max filename).1 with Parsed version => Some version | _ => None end.

Record Dialect := mkDialect {
  AutoIncrementKey : text; EpochNow : text; DialectTrue : text; DialectFalse : text; InsertIfAbsent : text;
  NeedsConflictClause : bool }.

Definition DialectFor (driver : Driver.t) : Dialect :=
  match driver with
  | Driver.Postgres =>
      mkDialect $"BIGSERIAL PRIMARY KEY" $"EXTRACT(EPOCH FROM NOW())::BIGINT" $"TRUE" $"FALSE" $"INSERT INTO" true
  | Driver.MariaDb =>
      mkDialect $"BIGINT AUTO_INCREMENT PRIMARY KEY" $"(UNIX_TIMESTAMP())" $"TRUE" $"FALSE" $"INSERT IGNORE INTO" false
  | Driver.Sqlite =>
      mkDialect $"INTEGER PRIMARY KEY AUTOINCREMENT" $"(strftime('%s','now'))" $"1" $"0" $"INSERT OR IGNORE INTO" false
  end.

Definition is_name_char (c : ascii) : bool := ((65 <=? code c) && (code c <=? 90)) || Ascii.eqb c "_".

Definition ConflictToken : text := $"ON_CONFLICT(".

(** What one placeholder renders as. *)
Definition render_token (dialect : Dialect) (token : text) : Result text :=
  if text_eqb token $"ID" then Ok (AutoIncrementKey dialect)
  else if text_eqb token $"NOW" then Ok (EpochNow dialect)
  else if text_eqb token $"TRUE" then Ok (DialectTrue dialect)
  else if text_eqb token $"FALSE" then Ok (DialectFalse dialect)
  else if text_eqb token $"INSERT_IF_ABSENT" then Ok (InsertIfAbsent dialect)
  else if StartsWith token ConflictToken then
    Ok (if NeedsConflictClause dialect
        then $"ON CONFLICT (" ++ drop (length ConflictToken) token ++ $" DO NOTHING" else [])
  else Err (Error_Invalid ($"unknown migration placeholder @" ++ token ++ $"@")).

(** [sql.find_first_of(")@", close)], counted from the start of [after]. *)
Definition find_close (after : text) (from : nat) : option nat :=
  let i := (from + count_while (fun c => negb (Ascii.eqb c ")" || Ascii.eqb c "@")) (drop from after))%nat in
  if (i <? length after)%nat then Some i else None.

(** Where a placeholder that opens before [after] may close: past its name, and past its arguments when they are
    closed before the next ['@']. *)
Definition close_of (after : text) : nat :=
  let n := count_while is_name_char after in
  match after !! n with
  | Some c =>
      if (0 <? n)%nat && Ascii.eqb c "(" then
        match find_close after n with
        | Some args => if bool_decide (after !! args = Some ")"%char) then S args else n
        | None => n
        end
      else n
  | None => n
  end.

(** The loop over what is not copied yet; every turn copies at least one byte. *)
Fixpoint resolve_loop (fuel : nat) (dialect : Dialect) (sql out : text) : outcome (Result text) :=
  let open := count_while (fun c => negb (Ascii.eqb c "@")) sql in
  if (length sql <=? open)%nat then Returns (Ok (out ++ sql))
  else match fuel with
       | O => OutOfFuel
       | S f =>
           let after := drop (S open) sql in
           let close := close_of after in
           if (0 <? count_while is_name_char after)%nat && bool_decide (after !! close = Some "@"%char) then
             match render_token dialect (take close after) with
             | Err e => Returns (Err e)
             | Ok rendered => resolve_loop f dialect (drop (S close) after) (out ++ take open sql ++ rendered)
             end
           else resolve_loop f dialect after (out ++ take (S open) sql)
       end.

Definition ResolveDialect (sql : text) (driver : Driver.t) : outcome (Result text) :=
  resolve_loop (length sql) (DialectFor driver) sql [].

(** [Blanks] of [SplitStatements]. *)
Definition is_blank (c : ascii) : bool :=
  (code c =? 32) || (code c =? 9) || (code c =? 13) || (code c =? 10).

(** [flush]: [current] without its outer blanks, unless nothing is left. *)
Definition flush (current : text) : list text :=
  match drop (count_while is_blank current) current with
  | [] => []
  | s => [take (length s - count_while is_blank (rev s)) s]
  end.

Definition newline : ascii := chr 10.

Definition starts_comment (c : ascii) (rest : text) : bool :=
  Ascii.eqb c "-" && match rest with d :: _ => Ascii.eqb d "-" | [] => false end.

(** Where the loop stands: between literals, inside one, or skipping a comment to the end of its line. *)
Module Scan.
Inductive t : Type := Plain | Literal | Comment.
End Scan.

Fixpoint split_loop (mode : Scan.t) (sql current : text) (statements : list text) : list text :=
  match sql with
  | [] => statements ++ flush current
  | c :: rest =>
      match mode with
      | Scan.Literal =>
          split_loop (if Ascii.eqb c "'" then Scan.Plain else Scan.Literal) rest (current ++ [c]) statements
      | Scan.Comment => split_loop (if Ascii.eqb c newline then Scan.Plain else Scan.Comment) rest current statements
      | Scan.Plain =>
          if starts_comment c rest then split_loop Scan.Comment rest (current ++ [newline]) statements
          else if Ascii.eqb c ";" then split_loop Scan.Plain rest [] (statements ++ flush current)
          else split_loop (if Ascii.eqb c "'" then Scan.Literal else Scan.Plain) rest (current ++ [c]) statements
      end
  end.

Definition SplitStatements (sql : text) : list text := split_loop Scan.Plain sql [] [].

Example split_comment : SplitStatements $"SELECT 'a;--b' -- c;d
; ;SELECT 2" = [$"SELECT 'a;--b'"; $"SELECT 2"].
Proof. reflexivity. Qed.

Example resolve_conflict :
  ResolveDialect $"a@b.c @INSERT_IF_ABSENT@ t @ON_CONFLICT(a, b)@" Driver.Postgres =
  Returns (Ok $"a@b.c INSERT INTO t ON CONFLICT (a, b) DO NOTHING").
Proof. reflexivity. Qed.

(** ** What a statement is *)

(** Whether a literal is open after [s]. *)
Fixpoint literal_after (lit : bool) (s : text) : bool :=
  match s with
  | [] => lit
  | c :: rest => literal_after (xorb lit (Ascii.eqb c "'")) rest
  end.

(** Outside literals, no comment begins and no [';'] stands. *)
Fixpoint quiet (lit : bool) (s : text) : bool :=
  match s with
  | [] => true
  | c :: rest =>
      (lit || (negb (starts_comment c rest) && negb (Ascii.eqb c ";"))) && quiet (xorb lit (Ascii.eqb c "'")) rest
  end.

(** Not blank, and no blank at either end. *)
Definition trimmed (s : text) : Prop :=
  exists c r d l, s = c :: r /\ s = l ++ [d] /\ is_blank c = false /\ is_blank d = false.

Definition statement (s : text) : Prop := trimmed s /\ quiet false s = true.

Definition mode_of (lit : bool) : Scan.t := if lit then Scan.Literal else Scan.Plain.

(** [a] and then [b] do not meet in a comment. *)
Definition apart (a b : text) : Prop := ~ (exists l r, a = l ++ ["-"%char] /\ b = "-"%char :: r).

Lemma starts_comment_true c rest : starts_comment c rest = true <-> c = "-"%char /\ exists r, rest = "-"%char :: r.
Proof.
  unfold starts_comment. rewrite andb_true_iff, Ascii.eqb_eq. destruct rest as [|d r]; [split; [by intros []|by intros [_ [? ?]]]|].
  rewrite Ascii.eqb_eq. split; [intros [-> ->]; eauto|intros [-> [r' [= -> _]]]; done].
Qed.

Lemma apart_tail c s rest : apart (c :: s) rest -> apart s rest.
Proof. intros H (l & r & -> & ->). apply H. by exists (c :: l), r. Qed.

Lemma starts_comment_app c s rest :
  starts_comment c s = false -> apart (c :: s) rest -> starts_comment c (s ++ rest) = false.
Proof.
  intros Hs Ha. apply not_true_iff_false. intros Ht. apply starts_comment_true in Ht as [-> [r E]]. destruct s as [|d s].
  - apply Ha. by exists [], r.
  - injection E as -> _. by cbn in Hs.
Qed.

(** A statement's text passes through the loop unchanged. *)
Lemma split_loop_quiet lit s rest current statements :
  quiet lit s = true -> apart s rest ->
  split_loop (mode_of lit) (s ++ rest) current statements = split_loop (mode_of (literal_after lit s)) rest (current ++ s) statements.
Proof.
  revert lit current. induction s as [|c s IH]; intros lit current; cbn [quiet literal_after app]; [by rewrite app_nil_r|].
  rewrite andb_true_iff, orb_true_iff, andb_true_iff, !negb_true_iff. intros [Hc Hs] Ha.
  replace (current ++ c :: s) with ((current ++ [c]) ++ s) by by rewrite <- app_assoc.
  rewrite <- (IH _ (current ++ [c]) Hs (apart_tail _ _ _ Ha)). destruct lit; cbn [mode_of split_loop xorb].
  - by destruct (Ascii.eqb c "'").
  - destruct Hc as [|[Hc1 Hc2]]; [done|]. rewrite (starts_comment_app _ _ _ Hc1 Ha), Hc2. by destruct (Ascii.eqb c "'").
Qed.

Lemma quiet_app_l lit a b : quiet lit (a ++ b) = true -> quiet lit a = true.
Proof.
  revert lit. induction a as [|c a IH]; intros lit; cbn; [done|]. rewrite !andb_true_iff, !orb_true_iff, !andb_true_iff, !negb_true_iff.
  intros [Hc Ha]. split; [|by apply IH]. destruct Hc as [|[Hc Hs]]; [by left|]. right. split; [|done].
  apply not_true_iff_false. intros Ht. apply starts_comment_true in Ht as [-> [r ->]]. by cbn in Hc.
Qed.

Lemma quiet_snoc lit s c :
  quiet lit s = true -> (literal_after lit s = true \/ (c <> ";"%char /\ apart s [c])) -> quiet lit (s ++ [c]) = true.
Proof.
  revert lit. induction s as [|d s IH]; intros lit; cbn [quiet literal_after app].
  - intros _ [->|[Hc _]]; [done|]. rewrite andb_true_r, orb_true_iff, andb_true_iff, !negb_true_iff, Ascii.eqb_neq. right. split; [|done].
    unfold starts_comment. apply andb_false_r.
  - rewrite !andb_true_iff, !orb_true_iff, !andb_true_iff, !negb_true_iff. intros [Hd Hs] H. split.
    + destruct Hd as [Hd|[Hd Hn]]; [by left|]. destruct lit; [by left|]. right. split; [|done]. destruct s as [|e s]; [|done].
      apply not_true_iff_false. intros Ht. apply starts_comment_true in Ht as [-> [r [= -> _]]].
      destruct H as [H|[_ H]]; [done|]. apply H. by exists [], [].
    + apply IH; [done|]. destruct H as [H|[Hc H]]; [by left|right]. split; [done|]. by eapply apart_tail.
Qed.

Lemma literal_after_app lit a b : literal_after lit (a ++ b) = literal_after (literal_after lit a) b.
Proof. revert lit. induction a as [|c a IH]; intros lit; cbn; [done|apply IH]. Qed.

(** ** Trimming *)

Lemma blank_not_quote c : is_blank c = true -> Ascii.eqb c "'" = false.
Proof. intros H. apply Ascii.eqb_neq. by intros ->. Qed.

Lemma literal_after_blanks lit s : forallb is_blank s = true -> literal_after lit s = lit.
Proof.
  revert lit. induction s as [|c s IH]; intros lit; cbn; [done|]. rewrite andb_true_iff. intros [Hc Hs].
  rewrite (blank_not_quote _ Hc), xorb_false_r. by apply IH.
Qed.

Lemma quiet_blanks_l a b : forallb is_blank a = true -> quiet false (a ++ b) = true -> quiet false b = true.
Proof.
  induction a as [|c a IH]; cbn; [done|]. rewrite !andb_true_iff. intros [Hc Ha] [_ Hq].
  rewrite (blank_not_quote _ Hc) in Hq. by apply IH.
Qed.

Lemma count_while_split {A} (p : A -> bool) s :
  forallb p (take (count_while p s) s) = true /\
  match drop (count_while p s) s with [] => True | c :: _ => p c = false end.
Proof. induction s as [|c s IH]; cbn; [done|]. destruct (p c) eqn:E; cbn; [by rewrite E|done]. Qed.

Lemma flush_spec current :
  (flush current = [] /\ forallb is_blank current = true) \/
  (exists pre s post, flush current = [s] /\ current = pre ++ s ++ post /\ forallb is_blank pre = true /\
     forallb is_blank post = true /\ trimmed s).
Proof.
  unfold flush. destruct (count_while_split is_blank current) as [Hpre Hhead].
  pose proof (take_drop (count_while is_blank current) current) as E0.
  destruct (drop (count_while is_blank current) current) as [|c r] eqn:E.
  { left. split; [done|]. rewrite app_nil_r in E0. by rewrite E0 in Hpre. }
  right. destruct (count_while_split is_blank (rev (c :: r))) as [Hpost Hlast].
  set (n := count_while is_blank (rev (c :: r))) in *.
  set (whole := c :: r) in *.
  set (k := (length whole - n)%nat). change (n) with n in Hpost.
  assert (rev (take n (rev whole)) = drop k whole) as Et by by rewrite List.firstn_rev, rev_involutive.
  assert (rev (take k whole) = drop n (rev whole)) as Es by by rewrite List.skipn_rev.
  assert (forallb is_blank (drop k whole) = true) as Hblank by (rewrite <- Et; by apply forallb_rev).
  assert (exists r', take k whole = c :: r') as [r' Er].
  { unfold whole in *. destruct k as [|k']; [cbn in Hblank; by rewrite Hhead in Hblank|]. cbn. eauto. }
  exists (take (count_while is_blank current) current), (take k whole), (drop k whole).
  split_and!; [done|by rewrite take_drop|done|done|].
  destruct (drop n (rev whole)) as [|d l] eqn:Ed; [by apply (f_equal (@rev ascii)) in Es; rewrite rev_involutive, Er in Es|].
  apply (f_equal (@rev ascii)) in Es. rewrite rev_involutive in Es. exists c, r', d, (rev l). by split_and!.
Qed.

Lemma flush_trimmed s : trimmed s -> flush s = [s].
Proof.
  intros (c & r & d & l & E1 & E2 & Hc & Hd). unfold flush.
  assert (count_while is_blank s = O) as -> by (rewrite E1; cbn; by rewrite Hc). rewrite E1. cbn [drop]. rewrite <- E1.
  assert (count_while is_blank (rev s) = O) as -> by (rewrite E2, rev_app_distr; cbn; by rewrite Hd).
  by rewrite Nat.sub_0_r, take_ge.
Qed.

Lemma flush_statement current :
  quiet false current = true -> Forall (fun s => statement s /\ literal_after false s = literal_after false current) (flush current).
Proof.
  intros Hq. destruct (flush_spec current) as [[-> _]|(pre & s & post & -> & -> & Hpre & Hpost & Ht)]; constructor; [|done].
  apply quiet_blanks_l in Hq; [|done]. rewrite !literal_after_app, (literal_after_blanks _ post), (literal_after_blanks _ pre) by done.
  split; [|done]. split; [done|]. by eapply quiet_app_l.
Qed.

(** ** The loop *)

(** What the loop keeps true of [current]: it is quiet, the literal it leaves open is the one the loop is in, and a
    dash at its end does not meet another. *)
Definition current_ok (mode : Scan.t) (sql current : text) : Prop :=
  quiet false current = true /\
  match mode with
  | Scan.Plain => literal_after false current = false /\ apart current sql
  | Scan.Literal => literal_after false current = true
  | Scan.Comment => literal_after false current = false /\ apart current ["-"%char]
  end.

Definition statements_ok (statements : list text) : Prop :=
  Forall statement statements /\ Forall (fun s => literal_after false s = false) (removelast statements).

Lemma apart_snoc a c b : c <> "-"%char -> apart (a ++ [c]) b.
Proof. intros Hc (l & r & E & _). apply app_inj_tail in E as [_ ->]. done. Qed.

Lemma current_ok_push mode c rest current :
  current_ok mode (c :: rest) current -> mode <> Scan.Comment ->
  (mode = Scan.Plain -> starts_comment c rest = false /\ c <> ";"%char) ->
  current_ok (mode_of (xorb (literal_after false current) (Ascii.eqb c "'"))) rest (current ++ [c]).
Proof.
  intros [Hq Hm] Hnc Hpl. assert (quiet false (current ++ [c]) = true) as Hq'.
  { apply quiet_snoc; [done|]. destruct mode; [right|by left|done]. destruct Hpl as [_ Hc]; [done|]. split; [done|].
    destruct Hm as [_ Ha]. intros (l & r & -> & [= ->]). apply Ha. by exists l, rest. }
  split; [done|]. rewrite literal_after_app. cbn [literal_after].
  destruct (xorb _ _) eqn:E; cbn [mode_of]; [done|]. split; [done|]. intros (l & r & El & ->).
  apply app_inj_tail in El as [-> ->]. destruct mode; [|by rewrite Hm in E|done]. destruct Hpl as [Hs _]; [done|]. done.
Qed.

Lemma split_loop_ok mode sql current statements :
  current_ok mode sql current -> Forall (fun s => statement s /\ literal_after false s = false) statements ->
  statements_ok (split_loop mode sql current statements).
Proof.
  revert mode current statements. induction sql as [|c sql IH]; intros mode current statements Hcur Hst; cbn [split_loop].
  - destruct Hcur as [Hq _]. pose proof (flush_statement current Hq) as Hf.
    destruct (flush_spec current) as [[E _]|(pre & s & post & E & _)]; rewrite E in *.
    + rewrite app_nil_r. split; [eapply Forall_impl; [exact Hst|]; by intros ? []|].
      clear -Hst. induction Hst as [|s sts [_ Hs] _ IH]; [constructor|]. cbn. destruct sts; by constructor.
    + unfold statements_ok. rewrite removelast_last. inversion_clear Hf as [|? ? [Hs _] _].
      split; [apply Forall_app; split; [|by constructor]|]; (eapply Forall_impl; [exact Hst|]; by intros ? []).
  - destruct mode.
    + destruct (starts_comment c sql) eqn:Hc; [|destruct (Ascii.eqb_spec c ";") as [->|Hsemi]].
      * apply IH; [|done]. destruct Hcur as [Hq [Hl Ha]]. split; [apply quiet_snoc; [done|right; split; [done|]]|].
        { by intros (l & r & _ & ?). }
        rewrite literal_after_app, Hl. split; [done|]. by apply apart_snoc.
      * destruct Hcur as [Hq [Hl Ha]]. apply IH; [split; [done|split; [done|]]; by intros ([|] & r & ? & _)|].
        apply Forall_app. split; [done|]. eapply Forall_impl; [by apply flush_statement|]. cbn. rewrite Hl. done.
      * pose proof (current_ok_push _ _ _ _ Hcur ltac:(done) ltac:(done)) as H. destruct Hcur as [_ [Hl _]]. rewrite Hl in H.
        apply IH; [|done]. cbn [xorb] in H. by destruct (Ascii.eqb c "'").
    + pose proof (current_ok_push _ _ _ _ Hcur ltac:(done) ltac:(done)) as H. destruct Hcur as [_ Hl]. rewrite Hl in H.
      apply IH; [|done]. cbn [xorb] in H. by destruct (Ascii.eqb c "'").
    + apply IH; [|done]. destruct Hcur as [Hq [Hl Ha]]. destruct (Ascii.eqb c newline); (split; [done|]); (split; [done|]); [|done].
      intros (l & r & -> & _). apply Ha. by exists l, [].
Qed.

Lemma split_loop_joined s sts acc :
  Forall statement (s :: sts) -> Forall (fun s => literal_after false s = false) (removelast (s :: sts)) ->
  split_loop Scan.Plain (s ++ flat_map (fun p => $";" ++ p) sts) [] acc = acc ++ s :: sts.
Proof.
  revert s acc. induction sts as [|s2 sts IH]; intros s acc Hst Hlit; inversion_clear Hst as [|? ? [Ht Hq] Hst'].
  - cbn [flat_map]. change Scan.Plain with (mode_of false). rewrite split_loop_quiet; [|done|by intros (l & r & _ & ?)].
    destruct (literal_after false s); cbn; by rewrite flush_trimmed.
  - cbn [flat_map]. change Scan.Plain with (mode_of false).
    rewrite split_loop_quiet; [|done|by intros (l & r & _ & ?)]. cbn [removelast] in Hlit.
    inversion_clear Hlit as [|? ? Hl Hlit']. rewrite Hl. cbn [mode_of].
    change (($";" ++ s2) ++ flat_map (fun p => $";" ++ p) sts) with (";"%char :: (s2 ++ flat_map (fun p => $";" ++ p) sts)).
    cbn [split_loop]. replace (starts_comment ";" _) with false by done. cbn [Ascii.eqb]. rewrite app_nil_l, flush_trimmed by done.
    replace (Ascii.eqb ";" ";") with true by done. rewrite IH; [|done|]; [by rewrite <- app_assoc|]. by destruct sts.
Qed.

Lemma split_comment_line line rest current statements :
  forallb (fun c => negb (Ascii.eqb c newline)) line = true ->
  split_loop Scan.Comment (line ++ newline :: rest) current statements = split_loop Scan.Plain rest current statements.
Proof.
  induction line as [|c line IH]; cbn; [done|]. rewrite andb_true_iff, negb_true_iff. intros [-> Hl]. by apply IH.
Qed.

(** Splitting a migration finds its statements. Any statements joined by [;] come back as they are, whatever
    stands in their literals; every piece found is a statement - trimmed, not empty, with no [;] and no comment
    outside its literals - and only the last can leave a literal open; and a comment reads as the end of its line. *)
Theorem SplitStatements_finds :
  (forall statements, statements_ok statements -> SplitStatements (Join statements $";") = statements) /\
  (forall sql, statements_ok (SplitStatements sql)) /\
  (forall before line after, quiet false before = true -> literal_after false before = false ->
     apart before $"-" -> forallb (fun c => negb (Ascii.eqb c newline)) line = true ->
     SplitStatements (before ++ $"--" ++ line ++ newline :: after) = SplitStatements (before ++ newline :: after)).
Proof.
  split_and!.
  - intros [|s sts] [Hst Hlit]; [done|]. unfold SplitStatements. cbn [Join]. rewrite join_rest_acc. by apply split_loop_joined.
  - intros sql. apply split_loop_ok; [|constructor]. split; [done|]. split; [done|]. by intros ([|] & r & ? & _).
  - intros before line after Hq Hl Ha Hline. unfold SplitStatements. change Scan.Plain with (mode_of false).
    assert (apart before ($"--" ++ line ++ newline :: after)) as Ha' by (intros (l & r & El & _); apply Ha; by exists l, []).
    assert (apart before (newline :: after)) as Ha2 by (by intros (l & r & _ & ?)).
    rewrite (split_loop_quiet false before _ [] [] Hq Ha'), (split_loop_quiet false before _ [] [] Hq Ha2).
    rewrite Hl. cbn [mode_of]. change ($"--" ++ line ++ newline :: after) with ("-"%char :: "-"%char :: (line ++ newline :: after)).
    cbn [split_loop]. replace (starts_comment "-" ("-"%char :: _)) with true by done.
    replace (starts_comment newline after) with false by done. cbn [split_loop].
    replace (Ascii.eqb "-" newline) with false by done. replace (Ascii.eqb newline ";") with false by done.
    replace (Ascii.eqb newline "'") with false by done.
    by apply split_comment_line.
Qed.

Lemma SplitStatements_finds_witness :
  SplitStatements $"INSERT INTO t VALUES ('a;--b');SELECT 2" = [$"INSERT INTO t VALUES ('a;--b')"; $"SELECT 2"].
Proof.
  destruct SplitStatements_finds as [H _]. apply (H [$"INSERT INTO t VALUES ('a;--b')"; $"SELECT 2"]).
  split; (repeat constructor); try done.
  - exists "I"%char, $"NSERT INTO t VALUES ('a;--b')", ")"%char, $"INSERT INTO t VALUES ('a;--b'". by split_and!.
  - exists "S"%char, $"ELECT 2", "2"%char, $"SELECT ". by split_and!.
Defined.

(** ** [RunMigrations] *)

Record MigrationOptions := mkOptions { HistoryTable : text; LockKey : Z }.

Record MigrationResult := mkMigrated { Success : bool; Applied : Z; CurrentVersion : Z }.

Definition MigrationResult_failed : MigrationResult := mkMigrated false 0 0.

(** A migration file, with what reading it gives. *)
Record Migration := mkMigration { MigrationVersion : Z; MigrationName : text; MigrationText : Result text }.

(** An entry of the directory. *)
Record DirEntry := mkEntry { IsRegularFile : bool; FileName : text; FileText : Result text }.

Definition is_alpha (c : ascii) : bool :=
  ((65 <=? code c) && (code c <=? 90)) || ((97 <=? code c) && (code c <=? 122)).

Definition IsValidTableName (name : text) : bool :=
  match name with
  | [] => false
  | front :: _ =>
      if negb (is_alpha front) && negb (Ascii.eqb front "_") then false
      else forallb (fun c => is_alpha c || is_dec_digit c || Ascii.eqb c "_") name
  end.

Definition HistoryTableDdl (table : text) : text :=
  $"CREATE TABLE IF NOT EXISTS " ++ table ++
  $" (version INTEGER PRIMARY KEY, name TEXT NOT NULL, applied_at BIGINT NOT NULL)".

(** [name.ends_with(suffix)]. *)
Definition ends_with (name suffix : text) : bool := is_prefix (rev suffix) (rev name).

(** The files of the directory that are migrations. *)
Definition migration_of (entry : DirEntry) : option Migration :=
  if negb (IsRegularFile entry) then None
  else if negb (ends_with (FileName entry) $".sql") then None
  else match ParseMigrationVersion (FileName entry) with
       | None => None
       | Some version => Some (mkMigration version (FileName entry) (FileText entry))
       end.

Definition version_le (a b : Migration) : Prop := MigrationVersion a <= MigrationVersion b.

#[export] Instance version_le_dec : RelDecision version_le.
Proof. intros a b. unfold version_le. apply _. Defined.
#[export] Instance version_le_total : Total version_le.
Proof. intros a b. unfold version_le. lia. Qed.
#[export] Instance version_le_trans : Transitive version_le.
Proof. intros a b c. unfold version_le. lia. Qed.

(** [std::sort] by version; files of one version may come in any order, here in the directory's. *)
Definition migrations_of (entries : list DirEntry) : list Migration := merge_sort version_le (omap migration_of entries).

(** [static_cast<int>]. *)
Definition cast_i32 (z : Z) : Z := (z + 2147483648) mod 4294967296 - 2147483648.

(** A connection, as far as the run uses it. A call gives whether it returned - [false] is an exception - and the
    connection after it. [conn_transaction] runs its body between sqlpp's [start_transaction] and [commit]. *)
Class Connection (C : Type) := {
  conn_exec : text -> C -> bool * C;
  conn_max_version : text -> C -> option (option Z) * C;
  conn_escape : text -> C -> text;
  conn_transaction : (C -> bool * C) -> C -> bool * C }.

Section Run.
Context {C : Type} `{Connection C} (driver : Driver.t) (options : MigrationOptions) (now : Z).

(** One call after the other, until one throws. *)
Fixpoint exec_all (statements : list text) (c : C) : bool * C :=
  match statements with
  | [] => (true, c)
  | statement :: rest => let '(ok, c') := conn_exec statement c in if ok : bool then exec_all rest c' else (false, c')
  end.

Definition insert_row (m : Migration) (c : C) : text :=
  $"INSERT INTO " ++ HistoryTable options ++ $" (version, name, applied_at) VALUES (" ++ dec (MigrationVersion m) ++ $", '"
  ++ conn_escape (MigrationName m) c ++ $"', " ++ dec now ++ $")".

Definition ApplyMigration (m : Migration) (statements : list text) (c : C) : bool * C :=
  let '(ok, c1) := exec_all statements c in
  if ok then conn_exec (insert_row m c1) c1 else (false, c1).

(** The [try] block: whether the file was applied. *)
Definition apply_in_transaction (m : Migration) (statements : list text) (c : C) : bool * C :=
  match driver with
  | Driver.Sqlite =>
      let '(began, c1) := conn_exec $"BEGIN IMMEDIATE" c in
      if negb began then (false, c1)
      else
        let '(ok, c2) := ApplyMigration m statements c1 in
        let '(committed, c3) := if ok then conn_exec $"COMMIT" c2 else (false, c2) in
        if committed then (true, c3) else (false, (conn_exec $"ROLLBACK" c3).2)
  | _ => conn_transaction (ApplyMigration m statements) c
  end.

Fixpoint migrate (current : Z) (migrations : list Migration) (result : MigrationResult) (c : C)
    : outcome (MigrationResult * C) :=
  match migrations with
  | [] => Returns (result, c)
  | m :: rest =>
      let stop c := Returns (mkMigrated false (Applied result) (CurrentVersion result), c) in
      if MigrationVersion m <=? current then migrate current rest result c
      else match MigrationText m with
           | Err _ => stop c
           | Ok sql =>
               run! resolved := ResolveDialect sql driver in
               match resolved with
               | Err _ => stop c
               | Ok resolved =>
                   let '(ok, c') := apply_in_transaction m (SplitStatements resolved) c in
                   if ok then migrate current rest (mkMigrated (Success result) (Applied result + 1) (MigrationVersion m)) c'
                   else stop c'
               end
           end
  end.

Definition lock_key : text := dec (LockKey options).

Definition lock (c : C) : bool * C :=
  match driver with
  | Driver.Postgres => conn_exec ($"SELECT pg_advisory_lock(" ++ lock_key ++ $")") c
  | Driver.MariaDb => conn_exec ($"DO GET_LOCK('voltmod_migrations_" ++ lock_key ++ $"', 30)") c
  | Driver.Sqlite => (true, c)
  end.

Definition unlock (c : C) : bool * C :=
  match driver with
  | Driver.Postgres => conn_exec ($"SELECT pg_advisory_unlock(" ++ lock_key ++ $")") c
  | Driver.MariaDb => conn_exec ($"DO RELEASE_LOCK('voltmod_migrations_" ++ lock_key ++ $"')") c
  | Driver.Sqlite => (true, c)
  end.

(** The job on the worker: no result when an exception leaves it. *)
Definition migration_job (migrations : list Migration) (c : C) : outcome (option MigrationResult * C) :=
  let '(ok, c1) := conn_exec (HistoryTableDdl (HistoryTable options)) c in
  if negb ok then Returns (None, c1)
  else
    let '(locked, c2) := lock c1 in
    if negb locked then Returns (None, c2)
    else
      match conn_max_version (HistoryTable options) c2 with
      | (None, c3) => Returns (None, c3)
      | (Some max, c3) =>
          let current := cast_i32 (default 0 max) in
          run! (result, c4) := migrate current migrations (mkMigrated true 0 current) c3 in
          let '(unlocked, c5) := unlock c4 in
          Returns (if unlocked then Some result else None, c5)
      end.

(** [entries] is [None] without the directory; [db] is [None] when the database does not run the job. *)
Definition RunMigrations (entries : option (list DirEntry)) (db : option C) : outcome (MigrationResult * option C) :=
  if negb (IsValidTableName (HistoryTable options)) then Returns (MigrationResult_failed, db)
  else match entries with
       | None => Returns (mkMigrated true 0 0, db)
       | Some entries =>
           match db with
           | None => Returns (MigrationResult_failed, None)
           | Some c =>
               run! (result, c') := migration_job (migrations_of entries) c in
               Returns (default MigrationResult_failed result, Some c')
           end
       end.
End Run.

(** ** Placeholders always resolve or fail *)

Lemma resolve_loop_returns fuel dialect sql out :
  (length sql <= fuel)%nat -> exists resolved, resolve_loop fuel dialect sql out = Returns resolved.
Proof.
  revert sql out. induction fuel as [|f IH]; intros sql out Hf; cbn [resolve_loop];
    set (open := count_while _ sql); destruct (Nat.leb_spec (length sql) open); try (by eauto); [cbn in *; lia|].
  set (after := drop (S open) sql).
  assert (length after <= f)%nat as Ha by (unfold after; rewrite length_drop; lia).
  destruct (_ && _); [|by apply IH]. destruct (render_token _ _); [|by eauto]. apply IH. rewrite length_drop. lia.
Qed.

Lemma ResolveDialect_returns sql driver : exists resolved, ResolveDialect sql driver = Returns resolved.
Proof. by apply resolve_loop_returns. Qed.

(** ** The newest version of a history *)

Definition max_of (history : list Z) : option Z :=
  fold_left (fun m v => Some (match m with Some m => Z.max m v | None => v end)) history None.

Definition newest (history : list Z) : Z := default 0 (max_of history).

Lemma newest_app history later :
  StronglySorted Z.le later -> Forall (fun v => newest history <= v) later ->
  newest (history ++ later) = default (newest history) (last later).
Proof.
  unfold newest, max_of. rewrite fold_left_app. generalize (fold_left (fun m v => Some (match m with Some m => Z.max m v | None => v end)) history None).
  intros acc Hs. revert acc. induction Hs as [|v l Hs IH Hv]; intros acc Hle; [done|].
  inversion_clear Hle as [|? ? Hm Hl]. cbn [fold_left]. rewrite IH.
  - destruct acc as [m|]; cbn in *; [rewrite Z.max_r by done|]; rewrite last_cons; by destruct (last l).
  - destruct acc as [m|]; cbn in *; [rewrite Z.max_r by done|]; done.
Qed.

(** ** The run, over a database that keeps its promises *)

Section Laws.
Context {C : Type} `{Connection C} (driver : Driver.t) (options : MigrationOptions).

(** The versions in the history table, and those it held when the open transaction began. *)
Context (history : C -> list Z) (saved : C -> list Z).

(** A statement that touches neither, thrown or not. *)
Definition keeps (statement : text) : Prop :=
  forall c, history (conn_exec statement c).2 = history c /\ saved (conn_exec statement c).2 = saved c.

Record connection_laws : Prop := {
  law_ddl : keeps (HistoryTableDdl (HistoryTable options));
  law_lock : forall c, history (lock driver options c).2 = history c;
  law_unlock : forall c, history (unlock driver options c).2 = history c;
  law_ints : forall c, Forall (fun v => in_i32 v = true) (history c);
  law_max : forall c, history (conn_max_version (HistoryTable options) c).2 = history c /\
    forall max, (conn_max_version (HistoryTable options) c).1 = Some max -> max = max_of (history c);
  law_insert : forall now m c, in_i32 (MigrationVersion m) = true ->
    let '(ok, c') := conn_exec (insert_row options now m c) c in
    history c' = (if ok then history c ++ [MigrationVersion m] else history c) /\ saved c' = saved c;
  law_begin : forall c, let '(ok, c') := conn_exec $"BEGIN IMMEDIATE" c in
    history c' = history c /\ (ok = true -> saved c' = history c);
  law_commit : forall c, let '(ok, c') := conn_exec $"COMMIT" c in
    if ok : bool then history c' = history c else saved c' = saved c;
  law_rollback : forall c, history (conn_exec $"ROLLBACK" c).2 = saved c;
  law_transaction : forall body c, let '(ok, c') := conn_transaction body c in
    if ok : bool then exists c1 c2, history c1 = history c /\ body c1 = (true, c2) /\ history c' = history c2
    else history c' = history c }.

Context (laws : connection_laws) (now : Z).

Definition file_keeps (m : Migration) : Prop :=
  forall sql resolved, MigrationText m = Ok sql -> ResolveDialect sql driver = Returns (Ok resolved) ->
    Forall keeps (SplitStatements resolved).

Lemma exec_all_keeps statements c :
  Forall keeps statements -> history (exec_all statements c).2 = history c /\ saved (exec_all statements c).2 = saved c.
Proof.
  intros Hk. revert c. induction Hk as [|s ss Hs _ IH]; intros c; cbn [exec_all]; [done|]. specialize (Hs c).
  destruct (conn_exec s c) as [[|] c']; cbn in *; [|done]. destruct (IH c') as [-> ->]. done.
Qed.

Lemma ApplyMigration_history m statements c :
  in_i32 (MigrationVersion m) = true -> Forall keeps statements ->
  let '(ok, c') := ApplyMigration options now m statements c in
  history c' = (if ok then history c ++ [MigrationVersion m] else history c) /\ saved c' = saved c.
Proof.
  intros Hi32 Hk. unfold ApplyMigration. pose proof (exec_all_keeps statements c Hk) as [Hh Hs].
  destruct (exec_all statements c) as [[|] c1]; cbn in *; [|done]. pose proof (law_insert laws now m c1 Hi32) as Hi.
  destruct (conn_exec _ c1) as [ok c']. rewrite Hh, Hs in Hi. done.
Qed.

Lemma apply_in_transaction_history m statements c :
  in_i32 (MigrationVersion m) = true -> Forall keeps statements ->
  let '(ok, c') := apply_in_transaction driver options now m statements c in
  history c' = if ok then history c ++ [MigrationVersion m] else history c.
Proof.
  intros Hi Hk. unfold apply_in_transaction.
  assert (let '(ok, c') := conn_transaction (ApplyMigration options now m statements) c in
          history c' = if ok then history c ++ [MigrationVersion m] else history c) as Ht.
  { pose proof (law_transaction laws (ApplyMigration options now m statements) c) as Ht.
    destruct (conn_transaction _ c) as [[|] c']; [|done]. destruct Ht as (c1 & c2 & H1 & Hb & ->).
    pose proof (ApplyMigration_history m statements c1 Hi Hk) as Ha. rewrite Hb in Ha. destruct Ha as [-> _]. by rewrite H1. }
  destruct driver; [done|done|]. pose proof (law_begin laws c) as Hbegin.
  destruct (conn_exec $"BEGIN IMMEDIATE" c) as [[|] c1]; cbn [negb]; [|by destruct Hbegin].
  destruct Hbegin as [Hh1 Hs1]. specialize (Hs1 eq_refl). pose proof (ApplyMigration_history m statements c1 Hi Hk) as Ha.
  destruct (ApplyMigration _ _ _ _ c1) as [[|] c2]; destruct Ha as [Hh2 Hs2].
  - pose proof (law_commit laws c2) as Hc. destruct (conn_exec $"COMMIT" c2) as [[|] c3]; [congruence|].
    rewrite (law_rollback laws). congruence.
  - rewrite (law_rollback laws). congruence.
Qed.

Definition pending (current : Z) (migrations : list Migration) : list Migration :=
  List.filter (fun m => current <? MigrationVersion m) migrations.

Lemma migrate_history current migrations result c :
  Forall (fun m => in_i32 (MigrationVersion m) = true /\ file_keeps m) migrations ->
  exists result' c' k, migrate driver options now current migrations result c = Returns (result', c') /\
    (k <= length (pending current migrations))%nat /\
    history c' = history c ++ map MigrationVersion (take k (pending current migrations)) /\
    Applied result' = Applied result + Z.of_nat k /\
    CurrentVersion result' = default (CurrentVersion result) (last (map MigrationVersion (take k (pending current migrations)))) /\
    (Success result' = true <-> Success result = true /\ k = length (pending current migrations)).
Proof.
  intros Hk. revert result c. induction Hk as [|m ms [Hi Hm] _ IH]; intros result c; cbn [migrate pending List.filter].
  - exists result, c, O. cbn. rewrite app_nil_r. split_and!; [done|lia|done|lia|done|tauto].
  - fold (pending current ms). destruct (Z.leb_spec (MigrationVersion m) current), (Z.ltb_spec current (MigrationVersion m)); try lia.
    { apply IH. }
    assert (forall c', history c' = history c -> exists result' c'' k,
      Returns (mkMigrated false (Applied result) (CurrentVersion result), c') = Returns (result', c'') /\
      (k <= length (m :: pending current ms))%nat /\
      history c'' = history c ++ map MigrationVersion (take k (m :: pending current ms)) /\
      Applied result' = Applied result + Z.of_nat k /\
      CurrentVersion result' = default (CurrentVersion result) (last (map MigrationVersion (take k (m :: pending current ms)))) /\
      (Success result' = true <-> Success result = true /\ k = length (m :: pending current ms))) as Hstop.
    { intros c' Hh. exists (mkMigrated false (Applied result) (CurrentVersion result)), c', O. cbn. rewrite app_nil_r.
      split_and!; [done|lia|done|lia|done|split; [done|by intros []]]. }
    destruct (MigrationText m) as [sql|] eqn:Hsql; [|by apply Hstop].
    destruct (ResolveDialect_returns sql driver) as [[resolved|] Hres]; rewrite Hres; cbn [outcome_bind]; [|by apply Hstop].
    pose proof (apply_in_transaction_history m (SplitStatements resolved) c Hi (Hm _ _ Hsql Hres)) as Ha.
    destruct (apply_in_transaction _ _ _ _ _ c) as [[|] c']; [|by apply Hstop].
    destruct (IH (mkMigrated (Success result) (Applied result + 1) (MigrationVersion m)) c')
      as (result' & c'' & k & -> & Hk & Hh & Happ & Hcur & Hsuc).
    exists result', c'', (S k). cbn [length take map Applied Success CurrentVersion] in *. split_and!; [done|lia| |lia| |].
    + rewrite Hh, Ha, <- app_assoc. done.
    + rewrite Hcur, last_cons. by destruct (last _).
    + rewrite Hsuc. split; intros [-> Hl]; (split; [done|lia]).
Qed.
(** ** One run, and the next *)

Lemma migrations_of_i32 entries m : In m (migrations_of entries) -> in_i32 (MigrationVersion m) = true.
Proof.
  unfold migrations_of. rewrite <- list_elem_of_In, merge_sort_Permutation, list_elem_of_omap. intros (e & _ & He).
  unfold migration_of in He. destruct (negb (IsRegularFile e)); [done|]. destruct (negb _); [done|].
  unfold ParseMigrationVersion, from_chars in He. revert He. destruct (match FileName e with [] => _ | _ :: _ => _ end) as [neg body].
  destruct (span_digits 10 body) as [[|d ds] rest]; cbn [fst]; [done|].
  destruct (_ && _) eqn:E; cbn; [|done]. intros [= <-]. done.
Qed.

Lemma newest_i32 versions : Forall (fun v => in_i32 v = true) versions -> cast_i32 (newest versions) = newest versions.
Proof.
  intros Hv. assert (in_i32 (newest versions) = true) as Hn.
  { unfold newest, max_of. assert (forall acc, in_i32 (default 0 acc) = true -> in_i32 (default 0
      (fold_left (fun m v => Some (match m with Some m => Z.max m v | None => v end)) versions acc)) = true) as Hgo; [|by apply Hgo].
    induction Hv as [|v vs Hi _ IH]; intros acc Ha; cbn [fold_left]; [done|]. apply IH. destruct acc as [m|]; cbn; [|done].
    by destruct (Z.max_spec m v) as [[_ ->]|[_ ->]]. }
  unfold cast_i32. unfold in_i32, int32_min, int32_max in Hn. rewrite Z.mod_small; lia.
Qed.

Lemma pending_sorted current entries :
  StronglySorted Z.le (map MigrationVersion (pending current (migrations_of entries))).
Proof.
  unfold pending. apply ssorted_filter. unfold migrations_of.
  induction (StronglySorted_merge_sort version_le (omap migration_of entries)) as [|m ms _ IH Hm]; constructor; [done|]. apply List.Forall_map. eapply Forall_impl; [exact Hm|]. done.
Qed.

Lemma newest_take current entries k versions :
  newest versions = current ->
  newest (versions ++ map MigrationVersion (take k (pending current (migrations_of entries)))) =
  default current (last (map MigrationVersion (take k (pending current (migrations_of entries))))).
Proof.
  intros <-. rewrite newest_app; [done| |].
  - pose proof (pending_sorted (newest versions) entries) as Hs. rewrite <- (take_drop k (pending _ _)), map_app in Hs.
    by apply ssorted_app in Hs as [? _].
  - apply List.Forall_map, Forall_take, List.Forall_forall. intros m Hm. apply filter_In in Hm as [_ Hm]. apply Z.ltb_lt in Hm. lia.
Qed.

(** Once everything above [versions] is recorded, nothing is pending. *)
Lemma pending_none versions entries :
  pending (newest (versions ++ map MigrationVersion (pending (newest versions) (migrations_of entries)))) (migrations_of entries) = [].
Proof.
  pose proof (newest_take (newest versions) entries (length (pending (newest versions) (migrations_of entries))) versions eq_refl) as Hn.
  rewrite take_ge in Hn by done. rewrite Hn. clear Hn. set (ms := pending (newest versions) (migrations_of entries)).
  apply filter_none. intros m Hm. apply Z.ltb_ge. destruct (Z.ltb_spec (newest versions) (MigrationVersion m)) as [Hlt|Hge].
  - assert (In m ms) as Hin by (apply filter_In; split; [done|by apply Z.ltb_lt]).
    pose proof (pending_sorted (newest versions) entries) as Hs. fold ms in Hs. apply (in_map MigrationVersion) in Hin.
    destruct (last (map MigrationVersion ms)) as [x|] eqn:E; cbn; [|apply last_None in E; by rewrite E in Hin].
    apply last_Some in E as [l El]. rewrite El in Hs, Hin. apply ssorted_app in Hs as (_ & _ & Hle).
    apply in_app_iff in Hin as [Hin|[->|[]]]; [|lia]. apply Hle; [done|by left].
  - destruct (last (map MigrationVersion ms)) as [x|] eqn:E; cbn; [|done].
    assert (In x (map MigrationVersion ms)) as Hx by (rewrite <- list_elem_of_In; by apply last_Some_elem_of).
    apply in_map_iff in Hx as (m' & <- & Hm'). apply filter_In in Hm' as [_ Hm']. apply Z.ltb_lt in Hm'. lia.
Qed.

Definition files_keep (entries : list DirEntry) : Prop := forall m, In m (migrations_of entries) -> file_keeps m.

Lemma migration_job_history entries c :
  files_keep entries ->
  let ms := pending (newest (history c)) (migrations_of entries) in
  exists result c' k, migration_job driver options now (migrations_of entries) c = Returns (result, c') /\
    (k <= length ms)%nat /\ history c' = history c ++ map MigrationVersion (take k ms) /\
    forall r, result = Some r ->
      Applied r = Z.of_nat k /\ CurrentVersion r = newest (history c') /\ (Success r = true <-> k = length ms).
Proof.
  intros Hf ms. unfold migration_job.
  assert (forall c1, history c1 = history c -> exists result c' k, Returns (@None MigrationResult, c1) = Returns (result, c') /\
    (k <= length ms)%nat /\ history c' = history c ++ map MigrationVersion (take k ms) /\
    forall r, result = Some r -> Applied r = Z.of_nat k /\ CurrentVersion r = newest (history c') /\ (Success r = true <-> k = length ms))
    as Hthrown.
  { intros c1 Hc1. exists None, c1, O. cbn. rewrite app_nil_r. split_and!; [done|lia|done|done]. }
  pose proof (law_ddl laws c) as [H1 _]. destruct (conn_exec (HistoryTableDdl _) c) as [[|] c1]; cbn [negb snd] in *; [|by apply Hthrown].
  pose proof (law_lock laws c1) as H2. destruct (lock driver options c1) as [[|] c2]; cbn [negb snd] in *; [|by apply Hthrown; congruence].
  pose proof (law_max laws c2) as [H3 Hmax]. destruct (conn_max_version _ c2) as [[max|] c3]; cbn [fst snd] in *; [|by apply Hthrown; congruence].
  rewrite (Hmax max eq_refl). fold (newest (history c2)). rewrite newest_i32 by apply (law_ints laws).
  assert (history c3 = history c) as Hc3 by congruence. replace (history c2) with (history c) by congruence. clear Hmax.
  destruct (migrate_history (newest (history c)) (migrations_of entries) (mkMigrated true 0 (newest (history c))) c3)
    as (r & c4 & k & -> & Hk & Hh & Ha & Hcur & Hs).
  { apply List.Forall_forall. intros m Hm. split; [by eapply migrations_of_i32|by apply Hf]. }
  fold ms in Hk, Hh, Hcur, Hs. cbn [outcome_bind]. pose proof (law_unlock laws c4) as H5. destruct (unlock driver options c4) as [ok c5].
  cbn [snd Applied CurrentVersion Success] in *. rewrite Hc3 in Hh.
  exists (if ok then Some r else None), c5, k. split_and!; [done|done|congruence|]. destruct ok; [|done]. intros ? [= <-].
  split_and!; [lia| |tauto]. rewrite H5, Hh, Hcur. symmetry. by apply newest_take.
Qed.

End Laws.

(** ** A sample database *)

Lemma span_digits_app base s c rest :
  (span_digits base s).2 = [] -> digit_of base c = None -> span_digits base (s ++ c :: rest) = ((span_digits base s).1, c :: rest).
Proof.
  induction s as [|d s IH]; cbn.
  - intros _ ->. done.
  - destruct (digit_of base d); [|done]. destruct (span_digits base s) as [ds unread]. cbn. intros Hu Hc. by rewrite IH.
Qed.

(** A number followed by something that is not a digit is read whole. *)
Lemma from_chars_app base lo hi s v c rest :
  parse_whole base lo hi s = Some v -> digit_of base c = None -> (from_chars base lo hi (s ++ c :: rest)).1 = Parsed v.
Proof.
  unfold parse_whole, from_chars. intros Hp Hc. destruct s as [|d s]; [done|].
  change ((d :: s) ++ c :: rest) with (d :: (s ++ c :: rest)). cbn iota beta.
  destruct (_ && _).
  - destruct (span_digits base s) as [[|x xs] unread] eqn:E; [done|]. rewrite span_digits_app by (rewrite ?E; cbn; destruct (_ && _), unread; done).
    rewrite E. cbn [fst]. destruct (_ && _); [|done]. destruct unread; congruence.
  - change (d :: s ++ c :: rest) with ((d :: s) ++ c :: rest).
    destruct (span_digits base (d :: s)) as [[|x xs] unread] eqn:E; [done|].
    rewrite span_digits_app by (rewrite ?E; cbn; destruct (_ && _), unread; done). rewrite E. cbn [fst].
    destruct (_ && _); [|done]. destruct unread; congruence.
Qed.

Definition sample_options : MigrationOptions := mkOptions $"schema_migrations" 727274.

Record SampleDb := mkSample { sample_rows : list Z; sample_saved : list Z }.

Definition sample_history (rows : list Z) : list Z := List.filter in_i32 rows.

Definition sample_insert : text := $"INSERT INTO schema_migrations (version, name, applied_at) VALUES (".

(** SQLite, as far as it matters here: [version] is a primary key, a transaction can be rolled back, and [BAD] is
    not a statement. *)
Definition sample_exec (statement : text) (c : SampleDb) : bool * SampleDb :=
  if is_prefix sample_insert statement then
    match (from_chars 10 int32_min int32_max (drop (length sample_insert) statement)).1 with
    | Parsed v => if existsb (Z.eqb v) (sample_rows c) then (false, c) else (true, mkSample (sample_rows c ++ [v]) (sample_saved c))
    | _ => (false, c)
    end
  else if text_eqb statement $"BEGIN IMMEDIATE" then (true, mkSample (sample_rows c) (sample_history (sample_rows c)))
  else if text_eqb statement $"ROLLBACK" then (true, mkSample (sample_saved c) (sample_saved c))
  else if text_eqb statement $"BAD" then (false, c)
  else (true, c).

#[export] Instance SampleDb_connection : Connection SampleDb := {
  conn_exec := sample_exec;
  conn_max_version _ c := (Some (max_of (sample_history (sample_rows c))), c);
  conn_escape s _ := s;
  conn_transaction body c := match body c with (true, c') => (true, c') | (false, _) => (false, c) end }.

Lemma sample_history_twice rows : sample_history (sample_history rows) = sample_history rows.
Proof. unfold sample_history. induction rows as [|v rows IH]; cbn; [done|]. destruct (in_i32 v) eqn:E; cbn; [rewrite E|]; congruence. Qed.

Lemma sample_laws :
  connection_laws Driver.Sqlite sample_options (fun c => sample_history (sample_rows c)) (fun c => sample_history (sample_saved c)).
Proof.
  split; try done.
  - intros c. apply List.Forall_forall. intros v Hv. by apply filter_In in Hv as [_ ?].
  - intros c. cbn. split; [done|]. by intros max [= <-].
  - intros now m c Hi.
    assert (exists rest, insert_row (C := SampleDb) sample_options now m c = sample_insert ++ dec (MigrationVersion m) ++ ","%char :: rest)
      as [rest ->].
    { by exists ($" '" ++ conn_escape (MigrationName m) c ++ $"', " ++ dec now ++ $")"). }
    cbn [conn_exec SampleDb_connection]. unfold sample_exec.
    assert (is_prefix sample_insert (sample_insert ++ dec (MigrationVersion m) ++ ","%char :: rest) = true) as -> by done.
    rewrite drop_app_length, (from_chars_app 10 int32_min int32_max _ (MigrationVersion m)); [| |done].
    2:{ unfold in_i32 in Hi. apply andb_prop in Hi as [H1 H2]. apply parse_whole_dec; [lia|left; done]. }
    destruct (existsb _ _); [done|]. cbn. unfold sample_history. by rewrite List.filter_app; cbn; rewrite Hi.
  - intros c. split; [done|]. intros _. apply sample_history_twice.
  - intros body c. cbn. destruct (body c) as [[|] c'] eqn:E; [|done]. exists c, c'. done.
Qed.

Definition harmless (statement : text) : bool :=
  negb (is_prefix sample_insert statement) && negb (text_eqb statement $"BEGIN IMMEDIATE") && negb (text_eqb statement $"ROLLBACK").

Lemma sample_keeps statements :
  forallb harmless statements = true ->
  Forall (keeps (fun c => sample_history (sample_rows c)) (fun c => sample_history (sample_saved c))) statements.
Proof.
  rewrite forallb_forall, List.Forall_forall. intros Hh s Hs c. specialize (Hh s Hs). unfold harmless in Hh. bools.
  cbn [conn_exec SampleDb_connection]. unfold sample_exec. rewrite H, H1, H0. by destruct (text_eqb s $"BAD").
Qed.

Definition sample_dir : list DirEntry :=
  [mkEntry true $"0002_bans.sql" (Ok $"CREATE TABLE bans (id @ID@); -- see 0001"); mkEntry true $"notes.sql" (Ok []);
   mkEntry true $"0001_init.sql" (Ok $"CREATE TABLE t (id @ID@);"); mkEntry true $"0003_bad.sql" (Ok $"CREATE TABLE u (); BAD")].

