(* ===== verification/Jobs.v ===== *)
(** * The database's job queue: [Database/Client.cpp], [Database/Client.hpp]

    One worker takes jobs off a queue while other threads put them on and one of them may disconnect. Each step below
    is what a thread does under the lock, or alone, so every interleaving of the threads is a sequence of steps. *)
From S2P Require Import Prelude Text Errors.

Module DbState.
Inductive t : Type := Stopped | Running | Stopping.
#[export] Instance t_eq_dec : EqDecision t.
Proof. solve_decision. Defined.
End DbState.
#[export] Existing Instance DbState.t_eq_dec.

(** A job; [JobId] tells the calls that made one apart. *)
Record Job := mkJob { JobId : nat; JobName : text }.

(** What a job hands to [deliver], through [Run] or through [Fail]. *)
Inductive Answer (R : Type) : Type :=
| Delivered (result : R)
| JobFailed (error : Error).
Arguments Delivered {R}.
Arguments JobFailed {R}.

(** Where the worker thread is: not started, between jobs, in [RunJob], or past its loop. *)
Inductive Worker :=
| NoWorker
| AtTakeJob
| InJob (job : Job)
| WorkerExited.

Section Database.
Context {R : Type}.

Record Database := mkDatabase {
  db_state : DbState.t;
  db_queue : list Job;
  stop_deadline : Z;
  on_frame : bool;               (** [_onFrame] holds the frame callback *)
  worker : Worker;
  connection_open : bool;        (** [IsOpen(_connection)] *)
  connected : bool;              (** [_connected] *)
  retry_at : Z;
  enqueued : list nat;           (** every job [Enqueue] was given *)
  accepted : list nat;           (** those it queued *)
  answers : list (nat * Answer R) }. (** what was delivered, in order *)

Implicit Types db : Database.

Definition Database_new : Database :=
  mkDatabase DbState.Stopped [] 0 false NoWorker false false 0 [] [] [].

(** Beyond this, jobs are refused. *)
Definition MaxQueuedJobs : nat := 4096.

(** In milliseconds of the steady clock. *)
Definition ReconnectBackoff : Z := 5000.

Definition set_state (state : DbState.t) db : Database :=
  mkDatabase state (db_queue db) (stop_deadline db) (on_frame db) (worker db) (connection_open db) (connected db) (retry_at db)
    (enqueued db) (accepted db) (answers db).

Definition set_worker (w : Worker) db : Database :=
  mkDatabase (db_state db) (db_queue db) (stop_deadline db) (on_frame db) w (connection_open db) (connected db) (retry_at db)
    (enqueued db) (accepted db) (answers db).

Definition set_queue (queue : list Job) db : Database :=
  mkDatabase (db_state db) queue (stop_deadline db) (on_frame db) (worker db) (connection_open db) (connected db) (retry_at db)
    (enqueued db) (accepted db) (answers db).

Definition set_connection (open now_connected : bool) (retry : Z) db : Database :=
  mkDatabase (db_state db) (db_queue db) (stop_deadline db) (on_frame db) (worker db) open now_connected retry
    (enqueued db) (accepted db) (answers db).

Definition set_on_frame (set_ : bool) db : Database :=
  mkDatabase (db_state db) (db_queue db) (stop_deadline db) set_ (worker db) (connection_open db) (connected db) (retry_at db)
    (enqueued db) (accepted db) (answers db).

Definition answer (job : Job) (a : Answer R) db : Database :=
  mkDatabase (db_state db) (db_queue db) (stop_deadline db) (on_frame db) (worker db) (connection_open db) (connected db) (retry_at db)
    (enqueued db) (accepted db) (answers db ++ [(JobId job, a)]).

(** ** Callers *)

(** The first half of [Connect], the configuration checked; the ping it then runs is a job like any other. *)
Definition Connect_start db : Database :=
  if decide (db_state db = DbState.Stopped) then set_worker AtTakeJob (set_state DbState.Running db) else db.

(** The second, once the ping is answered. *)
Definition Connect_finish db : Database := set_on_frame true db.

Definition refusal db : option Error :=
  if negb (bool_decide (db_state db = DbState.Running)) then Some (Error_NotReady $"database not running")
  else if (MaxQueuedJobs <=? length (db_queue db))%nat then Some (Error_NotReady $"the job queue is full")
  else None.

(** A refused job fails at once. *)
Definition Enqueue (job : Job) db : Database :=
  let noted accepted' queue db :=
    mkDatabase (db_state db) queue (stop_deadline db) (on_frame db) (worker db) (connection_open db) (connected db) (retry_at db)
      (enqueued db ++ [JobId job]) accepted' (answers db) in
  match refusal db with
  | Some e => answer job (JobFailed e) (noted (accepted db) (db_queue db) db)
  | None => noted (accepted db ++ [JobId job]) (db_queue db ++ [job]) db
  end.

(** [Disconnect] up to the join. *)
Definition Disconnect_begin (now stopDeadline : Z) db : Database :=
  if decide (db_state db = DbState.Running) then
    mkDatabase DbState.Stopping (db_queue db) (now + stopDeadline) (on_frame db) (worker db) (connection_open db) (connected db)
      (retry_at db) (enqueued db) (accepted db) (answers db)
  else db.

(** And after it. *)
Definition Disconnect_end db : Database := set_on_frame false (set_worker NoWorker (set_state DbState.Stopped db)).

(** ** The worker *)

Definition DropConnection db : Database := set_connection false false (retry_at db) db.

(** [TakeJob], once it is woken: the jobs dropped past the deadline, then the next one, or the end of the loop. *)
Definition TakeJob (now : Z) db : Database :=
  let pastDeadline := bool_decide (db_state db = DbState.Stopping) && (stop_deadline db <=? now) in
  let db1 := if pastDeadline
             then set_queue [] (fold_left (fun db dropped => answer dropped (JobFailed (Error_NotReady $"shutdown")) db) (db_queue db) db)
             else db in
  match db_queue db1 with
  | [] => set_worker WorkerExited (DropConnection db1)
  | job :: rest => set_worker (InJob job) (set_queue rest db1)
  end.

(** [opens] is whether [OpenConnection] returns. *)
Definition EnsureOpen (now : Z) (opens : bool) db : bool * Database :=
  if connection_open db then (true, db)
  else if now <? retry_at db then (false, db)
  else if opens then (true, set_connection true true (retry_at db) db)
  else (false, set_connection false false (now + ReconnectBackoff) (DropConnection db)).

(** [run] is what the job gives on the connection, or the text of the exception it throws. *)
Definition RunJob (now : Z) (opens : bool) (run : R + text) (job : Job) db : Database :=
  let '(open, db1) := EnsureOpen now opens db in
  let db2 :=
    if negb open then answer job (JobFailed (Error_NotReady $"no database connection")) db1
    else match run with
         | inl result => answer job (Delivered result) db1
         | inr what => answer job (JobFailed (Error_Failed what)) (DropConnection db1)
         end in
  set_worker AtTakeJob db2.

(** ** Interleavings *)

(** The worker's own steps. *)
Inductive worker_step : Database -> Database -> Prop :=
| step_take now db :
    worker db = AtTakeJob -> (db_queue db <> [] \/ db_state db = DbState.Stopping) -> worker_step db (TakeJob now db)
| step_run now opens run job db : worker db = InJob job -> worker_step db (RunJob now opens run job db).

(** The server may go away at any moment: [IsOpen] says no from then on, and the connection held is replaced by the next [EnsureOpen]. *)
Definition Lost db : Database := set_connection false (connected db) (retry_at db) db.

Inductive db_step : Database -> Database -> Prop :=
| step_worker db db' : worker_step db db' -> db_step db db'
| step_lost db : db_step db (Lost db)
| step_connect db : db_step db (Connect_start db)
| step_connected db : db_state db = DbState.Running -> db_step db (Connect_finish db)
| step_enqueue job db : ~ In (JobId job) (enqueued db) -> db_step db (Enqueue job db)
| step_disconnect now deadline db : db_step db (Disconnect_begin now deadline db)
| step_joined db : db_state db = DbState.Stopping -> worker db = WorkerExited -> db_step db (Disconnect_end db).

Inductive db_reachable : Database -> Prop :=
| db_starts : db_reachable Database_new
| db_continues db db' : db_reachable db -> db_step db db' -> db_reachable db'.

(** What the worker holds. *)
Definition in_hand db : list nat := match worker db with InJob job => [JobId job] | _ => [] end.

(** The answers of accepted jobs, in the order they were given. *)
Definition answered_of (ids : list nat) (given : list (nat * Answer R)) : list nat :=
  List.filter (fun id => existsb (Nat.eqb id) ids) (map fst given).

Record db_ok db : Prop := {
  db_ids : NoDup (enqueued db);
  db_accepted : forall id, In id (accepted db) -> In id (enqueued db);
  db_order : accepted db = answered_of (accepted db) (answers db) ++ in_hand db ++ map JobId (db_queue db);
  db_all : enqueued db ≡ₚ map fst (answers db) ++ in_hand db ++ map JobId (db_queue db);
  db_room : (length (db_queue db) <= MaxQueuedJobs)%nat;
  db_worker : match db_state db with
              | DbState.Stopped => worker db = NoWorker /\ db_queue db = []
              | DbState.Running => exists j, worker db = AtTakeJob \/ worker db = InJob j
              | DbState.Stopping => worker db <> NoWorker /\ (worker db = WorkerExited -> db_queue db = [])
              end }.
End Database.
Arguments Database R : clear implicits.
Arguments answered_of {R} ids given : simpl never.
Arguments MaxQueuedJobs : simpl never.

(** ** Each step keeps every job accounted for *)

Section Facts.
Context {R : Type}.
Implicit Types (db : Database R) (given : list (nat * Answer R)).

Lemma answered_of_app ids given later : answered_of ids (given ++ later) = answered_of ids given ++ answered_of ids later.
Proof. unfold answered_of. by rewrite map_app, List.filter_app. Qed.

Lemma answered_of_all ids given : (forall id, In id (map fst given) -> In id ids) -> answered_of ids given = map fst given.
Proof.
  intros Hin. unfold answered_of. apply filter_all, Forall_forall. intros id Hid. apply list_elem_of_In in Hid.
  apply existsb_exists. exists id. split; [by apply Hin|apply Nat.eqb_refl].
Qed.

Lemma answered_of_none ids given : (forall id, In id (map fst given) -> ~ In id ids) -> answered_of ids given = [].
Proof.
  intros Hno. unfold answered_of. induction (map fst given) as [|id l IH]; cbn; [done|].
  destruct (existsb (Nat.eqb id) ids) eqn:E.
  - apply existsb_exists in E as (x & Hx & Ex). apply Nat.eqb_eq in Ex as <-. exfalso. apply (Hno id); [by left|done].
  - apply IH. intros x Hx. apply Hno. by right.
Qed.

Lemma answered_of_grow ids id given : ~ In id (map fst given) -> answered_of (ids ++ [id]) given = answered_of ids given.
Proof.
  intros Hid. unfold answered_of. apply List.filter_ext_in. intros x Hx. rewrite existsb_app. cbn. rewrite orb_false_r.
  destruct (Nat.eqb_spec x id) as [->|]; [done|]. apply orb_false_r.
Qed.

(** What a drop of the whole queue answers. *)
Lemma drop_queue queue db :
  fold_left (fun db dropped => answer dropped (JobFailed (Error_NotReady $"shutdown")) db) queue db =
  mkDatabase (db_state db) (db_queue db) (stop_deadline db) (on_frame db) (worker db) (connection_open db) (connected db)
    (retry_at db) (enqueued db) (accepted db)
    (answers db ++ map (fun j => (JobId j, JobFailed (Error_NotReady $"shutdown"))) queue).
Proof.
  revert db. induction queue as [|j queue IH]; intros db; cbn [fold_left map]; [rewrite app_nil_r; by destruct db|].
  rewrite IH. unfold answer. cbn. by rewrite <- app_assoc.
Qed.

Lemma queued_accepted db id : db_ok db -> In id (in_hand db ++ map JobId (db_queue db)) -> In id (accepted db).
Proof. intros Hok Hin. rewrite (db_order _ Hok), in_app_iff. by right. Qed.

Lemma known_enqueued db id :
  db_ok db -> In id (map fst (answers db) ++ in_hand db ++ map JobId (db_queue db)) -> In id (enqueued db).
Proof. intros Hok Hin. rewrite <- list_elem_of_In in *. by rewrite (db_all _ Hok). Qed.

(** Moving jobs from the head of what waits to the answers keeps the account. *)
Lemma account_step (acc enq front back : list nat) given later :
  acc = answered_of acc given ++ front ++ back -> enq ≡ₚ map fst given ++ front ++ back -> map fst later = front ->
  acc = answered_of acc (given ++ later) ++ back /\ enq ≡ₚ map fst (given ++ later) ++ back.
Proof.
  intros Ha He <-. rewrite answered_of_app, map_app, <- !app_assoc. split; [|done].
  rewrite (answered_of_all acc later); [done|]. intros id Hid. rewrite Ha, !in_app_iff. tauto.
Qed.

Lemma EnsureOpen_keeps now opens db :
  exists open now_connected retry, (EnsureOpen now opens db).2 = set_connection open now_connected retry db.
Proof.
  unfold EnsureOpen. destruct (connection_open db) eqn:E.
  - exists true, (connected db), (retry_at db). cbn. rewrite <- E. by destruct db.
  - destruct (now <? retry_at db).
    + exists false, (connected db), (retry_at db). cbn. rewrite <- E. by destruct db.
    + destruct opens; by do 3 eexists.
Qed.

(** Running a job answers it, whatever the connection and the job do. *)
Lemma RunJob_answers now opens run job db :
  exists a open now_connected retry,
    RunJob now opens run job db = set_worker AtTakeJob (answer job a (set_connection open now_connected retry db)).
Proof.
  unfold RunJob. pose proof (EnsureOpen_keeps now opens db) as (o & c & r & E).
  destruct (EnsureOpen now opens db) as [open db1]. cbn [snd] in E. subst db1. destruct open; cbn [negb].
  - destruct run as [result|what]; [by do 4 eexists|]. by exists (JobFailed (Error_Failed what)), false, false, r.
  - by do 4 eexists.
Qed.

Lemma RunJob_ok now opens run job db : db_ok db -> worker db = InJob job -> db_ok (RunJob now opens run job db).
Proof.
  intros Hok Hw. destruct (RunJob_answers now opens run job db) as (a & o & c & r & ->).
  assert (in_hand db = [JobId job]) as Hh by (unfold in_hand; by rewrite Hw).
  pose proof (db_order _ Hok) as Ho. pose proof (db_all _ Hok) as Ha. rewrite Hh in Ho, Ha.
  destruct (account_step _ _ [JobId job] _ _ [(JobId job, a)] Ho Ha eq_refl) as [Ho' Ha'].
  split; cbn; [apply Hok|apply Hok|done|done|apply Hok|]. pose proof (db_worker _ Hok) as Hworker. rewrite Hw in Hworker.
  destruct (db_state db); [by destruct Hworker|exists job; by left|by split].
Qed.

Lemma TakeJob_ok now db :
  db_ok db -> worker db = AtTakeJob -> (db_queue db <> [] \/ db_state db = DbState.Stopping) -> db_ok (TakeJob now db).
Proof.
  intros Hok Hw Hwake. assert (in_hand db = []) as Hh by (unfold in_hand; by rewrite Hw).
  pose proof (db_order _ Hok) as Ho. pose proof (db_all _ Hok) as Ha. rewrite Hh in Ho, Ha. cbn [app] in Ho, Ha.
  pose proof (db_worker _ Hok) as Hworker. rewrite Hw in Hworker. unfold TakeJob.
  destruct (bool_decide (db_state db = DbState.Stopping)) eqn:Es; [apply bool_decide_eq_true in Es|apply bool_decide_eq_false in Es].
  2:{ cbn [andb]. destruct (db_queue db) as [|job rest] eqn:Eq; [by destruct Hwake|]. cbn in Ho, Ha. pose proof (db_room _ Hok) as Hr.
      rewrite Eq in Hr. cbn in Hr. split; cbn; [apply Hok|apply Hok|done|done|lia|].
      destruct (db_state db); [by destruct Hworker|exists job; by right|done]. }
  destruct (stop_deadline db <=? now); cbn [andb].
  - rewrite drop_queue. cbn. replace (map JobId (db_queue db)) with (map JobId (db_queue db) ++ []) in Ho, Ha by apply app_nil_r.
    destruct (account_step _ _ _ _ _ (map (fun j => (JobId j, JobFailed (Error_NotReady $"shutdown"))) (db_queue db)) Ho Ha) as [Ho' Ha'];
      [by rewrite map_map|].
    split; cbn; [apply Hok|apply Hok|done|done|lia|]. by rewrite Es.
  - destruct (db_queue db) as [|job rest] eqn:Eq; cbn in Ho, Ha; pose proof (db_room _ Hok) as Hr; rewrite Eq in Hr; cbn in Hr;
      (split; cbn; [apply Hok|apply Hok|by rewrite ?Eq|by rewrite ?Eq|rewrite ?Eq; cbn; lia|by rewrite Es]).
Qed.

Lemma Enqueue_ok job db : db_ok db -> ~ In (JobId job) (enqueued db) -> db_ok (Enqueue job db).
Proof.
  intros Hok Hnew. pose proof (db_order _ Hok) as Ho. pose proof (db_all _ Hok) as Ha.
  assert (NoDup (enqueued db ++ [JobId job])) as Hids.
  { apply NoDup_app. split_and!; [apply Hok| |apply NoDup_singleton]. intros id Hid ->%list_elem_of_singleton.
    apply Hnew. by apply list_elem_of_In. }
  assert (~ In (JobId job) (accepted db)) as Hna by (intros H; apply Hnew; by apply (db_accepted _ Hok)).
  assert (~ In (JobId job) (map fst (answers db))) as Hng.
  { intros H. apply Hnew, known_enqueued; [done|]. apply in_app_iff. by left. }
  unfold Enqueue. destruct (refusal db) as [e|] eqn:Er.
  - split; cbn; [done|intros id Hid; apply in_app_iff; left; by apply (db_accepted _ Hok)| | |apply Hok|apply Hok].
    + rewrite answered_of_app, (answered_of_none _ [_]), app_nil_r; [done|]. cbn. by intros id [<-|[]].
    + change (in_hand _) with (in_hand db). rewrite map_app, Ha, <- !app_assoc. apply Permutation_app_head.
      rewrite app_assoc. apply Permutation_app_comm.
  - unfold refusal in Er. destruct (bool_decide (db_state db = DbState.Running)) eqn:Es; cbn [negb] in Er; [|done].
    apply bool_decide_eq_true in Es. destruct (Nat.leb_spec MaxQueuedJobs (length (db_queue db))) as [|Hroom]; [done|].
    split; cbn [enqueued accepted answers db_queue db_state worker]; [done| | | | |].
    + intros id. rewrite !in_app_iff. intros [Hid|[<-|[]]]; [left; by apply (db_accepted _ Hok)|right; by left].
    + change (in_hand _) with (in_hand db). rewrite answered_of_grow by done. rewrite map_app, !app_assoc, <- (app_assoc (answered_of _ _)).
      f_equal. exact Ho.
    + change (in_hand _) with (in_hand db). rewrite map_app, !app_assoc. apply Permutation_app_tail. rewrite <- app_assoc. exact Ha.
    + rewrite length_app. cbn [length]. lia.
    + pose proof (db_worker _ Hok) as Hworker. by rewrite Es in *.
Qed.

Lemma db_step_ok db db' : db_ok db -> db_step db db' -> db_ok db'.
Proof.
  intros Hok. destruct 1 as [db db' [now db1 Hw Hwake|now opens run job db1 Hw]|db|db|db Hs|job db Hnew|now deadline db|db Hs Hw].
  - by apply TakeJob_ok.
  - by apply RunJob_ok.
  - destruct Hok. by split.
  - unfold Connect_start. destruct (decide _) as [Hs|]; [|done].
    pose proof (db_worker _ Hok) as Hworker. rewrite Hs in Hworker. destruct Hworker as [Hworker Hq].
    pose proof (db_order _ Hok) as Ho. pose proof (db_all _ Hok) as Ha. unfold in_hand in Ho, Ha. rewrite Hworker in Ho, Ha.
    split; cbn; try apply Hok; try done. by exists (mkJob 0 []); left.
  - destruct Hok. by split.
  - by apply Enqueue_ok.
  - unfold Disconnect_begin. destruct (decide _) as [Hs|]; [|done]. pose proof (db_worker _ Hok) as Hworker. rewrite Hs in Hworker.
    destruct Hworker as [j Hworker]. destruct Hok. split; try done. cbn. split; destruct Hworker; congruence.
  - pose proof (db_worker _ Hok) as Hworker. rewrite Hs in Hworker. destruct Hworker as [_ Hq]. specialize (Hq Hw).
    pose proof (db_order _ Hok) as Ho. pose proof (db_all _ Hok) as Ha. unfold in_hand in Ho, Ha. rewrite Hw in Ho, Ha.
    destruct Hok. by split.
Qed.

Lemma db_reachable_ok db : db_reachable db -> db_ok db.
Proof.
  induction 1 as [|db db' _ IH Hstep]; [|by eapply db_step_ok]. split; cbn; try done; [constructor|lia].
Qed.
End Facts.

(** ** The properties *)

Section Properties.
Context {R : Type}.
Implicit Types db : Database R.

(** The worker's steps still to come once the queue is closed. *)
Definition work_left db : nat :=
  2 * length (db_queue db) + match worker db with AtTakeJob => 1 | InJob _ => 2 | _ => 0 end.

Lemma TakeJob_work now db :
  db_state db = DbState.Stopping -> worker db = AtTakeJob -> (work_left (TakeJob now db) < work_left db)%nat.
Proof.
  intros Hs Hw. unfold TakeJob. rewrite bool_decide_true by done. destruct (stop_deadline db <=? now); cbn [andb].
  - rewrite drop_queue. unfold work_left. cbn. rewrite Hw. lia.
  - destruct (db_queue db) as [|job rest] eqn:Eq; unfold work_left; cbn; rewrite Hw, Eq; cbn; lia.
Qed.

Lemma worker_step_work db db' :
  db_state db = DbState.Stopping -> worker_step db db' -> (work_left db' < work_left db)%nat /\ db_state db' = DbState.Stopping.
Proof.
  intros Hs Hstep. revert Hs. destruct Hstep as [now db Hw Hwake|now opens run job db Hw]; intros Hs.
  - split; [by apply TakeJob_work|]. unfold TakeJob. rewrite bool_decide_true by done.
    destruct (stop_deadline db <=? now); cbn [andb]; [by rewrite drop_queue|]. by destruct (db_queue db).
  - destruct (RunJob_answers now opens run job db) as (a & o & c & r & ->). unfold work_left. cbn. rewrite Hw. split; [lia|done].
Qed.

(** What others do while a disconnect waits adds no work. *)
Lemma db_step_work db db' : db_state db = DbState.Stopping -> db_step db db' -> (work_left db' <= work_left db)%nat.
Proof.
  intros Hs Hstep. revert Hs. destruct Hstep as [db db' Hstep|db|db|db Hr|job db Hnew|now deadline db|db _ Hx]; intros Hs.
  - apply Nat.lt_le_incl. by apply worker_step_work.
  - done.
  - unfold Connect_start. by rewrite Hs.
  - congruence.
  - unfold Enqueue, refusal. by rewrite bool_decide_false by congruence.
  - unfold Disconnect_begin. by rewrite Hs.
  - unfold work_left, Disconnect_end. cbn. lia.
Qed.

(** C10. However callers, the worker and a disconnecting thread interleave, every job is answered once: it is answered,
    in the worker's hand or queued, never two of these, and the jobs the queue took are answered in the order they
    came. Once the database has stopped, every job ever given to it is answered. And a disconnect comes to its end:
    while it waits, the worker can always move, each move leaves less work, and nobody can add to it. *)
Theorem jobs_answered_once db :
  db_reachable db ->
  NoDup (map fst (answers db)) /\
  enqueued db ≡ₚ map fst (answers db) ++ in_hand db ++ map JobId (db_queue db) /\
  (exists waiting, accepted db = answered_of (accepted db) (answers db) ++ waiting) /\
  (db_state db = DbState.Stopped -> enqueued db ≡ₚ map fst (answers db)) /\
  (db_state db = DbState.Stopping ->
    (worker db <> WorkerExited -> exists db', worker_step db db') /\
    (forall db', worker_step db db' -> (work_left db' < work_left db)%nat /\ db_state db' = DbState.Stopping) /\
    (forall db', db_step db db' -> (work_left db' <= work_left db)%nat)).
Proof.
  intros Hreach. pose proof (db_reachable_ok db Hreach) as Hok. pose proof (db_worker _ Hok) as Hworker.
  assert (NoDup (map fst (answers db) ++ in_hand db ++ map JobId (db_queue db))) as Hnd by (rewrite <- (db_all _ Hok); apply Hok).
  split_and!.
  - by apply NoDup_app in Hnd as [? _].
  - apply Hok.
  - eexists. apply Hok.
  - intros Hs. rewrite Hs in Hworker. destruct Hworker as [Hw Hq]. rewrite (db_all _ Hok). unfold in_hand. by rewrite Hw, Hq, app_nil_r.
  - intros Hs. rewrite Hs in Hworker. destruct Hworker as [Hw Hq]. split_and!.
    + intros Hne. destruct (worker db) as [| |job|] eqn:E; [done| | |done].
      * exists (TakeJob 0 db). apply step_take; [done|by right].
      * exists (RunJob 0 true (inr []) job db). by apply step_run.
    + intros db'. by apply worker_step_work.
    + intros db'. by apply db_step_work.
Qed.
End Properties.

(** Two jobs, one thrown; a disconnect past its deadline drops the third, and a fourth is refused. *)
Definition sample_db : Database nat :=
  let job n := mkJob n $"job" in
  let db := fold_left (fun db n => Enqueue (job n) db) [0; 1; 2]%nat (Connect_start Database_new) in
  let db := RunJob 0 true (inl 7%nat) (job 0%nat) (TakeJob 0 db) in
  let db := RunJob 0 true (inr $"syntax error") (job 1%nat) (TakeJob 0 db) in
  Enqueue (job 3%nat) (TakeJob 9000 (Disconnect_begin 1000 5000 db)).

Lemma sample_db_reachable : db_reachable sample_db.
Proof.
  unfold sample_db. cbn zeta. cbn [fold_left].
  eapply db_continues; [|apply step_enqueue; vm_compute; intuition lia].
  eapply db_continues; [|apply step_worker, step_take; [by vm_compute|right; by vm_compute]].
  eapply db_continues; [|apply step_disconnect].
  eapply db_continues; [|apply step_worker, step_run; by vm_compute].
  eapply db_continues; [|apply step_worker, step_take; [by vm_compute|left; by vm_compute]].
  eapply db_continues; [|apply step_worker, step_run; by vm_compute].
  eapply db_continues; [|apply step_worker, step_take; [by vm_compute|left; by vm_compute]].
  do 3 (eapply db_continues; [|apply step_enqueue; vm_compute; intuition lia]).
  eapply db_continues; [apply db_starts|apply step_connect].
Qed.

Lemma jobs_answered_once_witness :
  db_state sample_db = DbState.Stopping /\ worker sample_db = WorkerExited /\ NoDup (map fst (answers sample_db)) /\
  answers sample_db = [(0%nat, Delivered 7%nat); (1%nat, JobFailed (Error_Failed $"syntax error"));
                       (2%nat, JobFailed (Error_NotReady $"shutdown")); (3%nat, JobFailed (Error_NotReady $"database not running"))].
Proof.
  destruct (jobs_answered_once sample_db sample_db_reachable) as [H _].
  split; [by vm_compute|]. split; [by vm_compute|]. split; [exact H|by vm_compute].
Defined.
