(* ===== verification/MenuCursor.v ===== *)
(** * The menu cursor: [Menu/MenuCursor.cpp], [Menu/MenuModel.hpp]

    Moving over rows that may refuse the cursor, by one row or by a page. C++'s [/] and [%] truncate: they are
    [Z.quot] and [Z.rem]. *)
From S2P Require Import Prelude.

Definition PageCount (items perPage : Z) : Z := if items <=? 0 then 1 else Z.quot (items + perPage - 1) perPage.

Definition WrapIndex (value count : Z) : Z :=
  if count <=? 0 then 0 else Z.rem (Z.rem value count + count) count.

(** [Selectable] is [None] when it is unset. *)
Record CursorRows := mkRows { Count : Z; Selectable : option (Z -> bool) }.

Definition IsSelectable (rows : CursorRows) (index : Z) : bool :=
  if (index <? 0) || (Count rows <=? index) then false
  else match Selectable rows with None => true | Some selectable => selectable index end.

(** The [do] loop, with the [attempts] left before the first turn. *)
Fixpoint step_loop (rows : CursorRows) (step : Z) (attempts : nat) (index : Z) : Z :=
  match attempts with
  | O => index
  | S rest =>
      let index := WrapIndex (index + step) (Count rows) in
      if IsSelectable rows index then index else step_loop rows step rest index
  end.

Definition Cursor_Step (rows : CursorRows) (index step : Z) : Z :=
  if Count rows <=? 0 then index else step_loop rows step (Z.to_nat (Count rows)) index.

Definition Cursor_First (rows : CursorRows) : Z :=
  if (Count rows <=? 0) || IsSelectable rows 0 then 0 else Cursor_Step rows 0 1.

Fixpoint land_loop (rows : CursorRows) (start finish : Z) (attempts : nat) (landed : Z) : Z :=
  match attempts with
  | O => landed
  | S rest =>
      if IsSelectable rows landed then landed
      else land_loop rows start finish rest (if landed + 1 <? finish then landed + 1 else start)
  end.

Definition Cursor_JumpPage (rows : CursorRows) (index rowsPerPage delta : Z) : Z :=
  if (Count rows <=? 0) || (rowsPerPage <=? 0) then index
  else
    let pages := PageCount (Count rows) rowsPerPage in
    let page := WrapIndex (Z.quot index rowsPerPage + delta) pages in
    let start := page * rowsPerPage in
    let finish := Z.min (Count rows) (start + rowsPerPage) in
    land_loop rows start finish (Z.to_nat (finish - start)) (Z.min (start + Z.rem index rowsPerPage) (finish - 1)).

(** ** Wrapping *)

Lemma WrapIndex_mod value count : 0 < count -> WrapIndex value count = value mod count.
Proof.
  intros Hc. unfold WrapIndex. destruct (Z.leb_spec count 0); [lia|].
  pose proof (Z.rem_bound_abs value count ltac:(lia)) as Hb. rewrite (Z.rem_mod_nonneg (Z.rem value count + count)) by lia.
  rewrite Z.add_mod, Z.mod_same, Z.add_0_r, Z.mod_mod by lia.
  rewrite <- (Z.mod_add (Z.rem value count) (Z.quot value count)) by lia. f_equal.
  pose proof (Z.quot_rem value count ltac:(lia)). lia.
Qed.

Lemma mod_shift a b n : 0 < n -> ((a mod n) + b) mod n = (a + b) mod n.
Proof. intros Hn. by rewrite Zplus_mod_idemp_l. Qed.

(** Turn [k] of the search stands on [index + k * step]. *)
Lemma step_loop_spec rows step attempts index :
  0 < Count rows ->
  let at_ k := (index + Z.of_nat k * step) mod Count rows in
  (exists k, (1 <= k <= attempts)%nat /\ step_loop rows step attempts index = at_ k /\ IsSelectable rows (at_ k) = true /\
     forall j, (1 <= j < k)%nat -> IsSelectable rows (at_ j) = false) \/
  ((forall j, (1 <= j <= attempts)%nat -> IsSelectable rows (at_ j) = false) /\
   ((1 <= attempts)%nat -> step_loop rows step attempts index = at_ attempts)).
Proof.
  intros Hc. revert index. induction attempts as [|rest IH]; intros index at_; cbn [step_loop].
  - right. split; lia.
  - rewrite WrapIndex_mod by done.
    assert (forall k, ((index + step) mod Count rows + Z.of_nat k * step) mod Count rows = at_ (S k)) as Hshift.
    { intros k. unfold at_. rewrite mod_shift by done. f_equal. lia. }
    assert ((index + step) mod Count rows = at_ 1%nat) as H1 by (unfold at_; f_equal; lia).
    destruct (IsSelectable rows ((index + step) mod Count rows)) eqn:Es.
    + left. exists 1%nat. rewrite <- H1. split_and!; [lia|lia|done|done|lia].
    + destruct (IH ((index + step) mod Count rows)) as [(k & Hk & E & Hs & Hno)|[Hno E]]; setoid_rewrite Hshift in Hno.
      * left. exists (S k). rewrite E, Hshift in *. split_and!; [lia|lia|done|done|]. intros j Hj.
        destruct j as [|[|j]]; [lia|by rewrite <- H1|]. apply Hno. lia.
      * right. split.
        { intros j Hj. destruct j as [|[|j]]; [lia|by rewrite <- H1|]. apply Hno. lia. }
        intros _. destruct rest as [|rest]; [cbn; done|]. rewrite E by lia. apply Hshift.
Qed.

(** ** Steps of one row *)

(** Moving by one either way visits every row within a round. *)
Lemma visits count index step row :
  step = 1 \/ step = -1 -> 0 <= index < count -> 0 <= row < count ->
  exists j, (1 <= j <= Z.to_nat count)%nat /\ (index + Z.of_nat j * step) mod count = row.
Proof.
  intros Hstep Hi Hr. set (d := (row - index) * step). pose proof (Z.mod_pos_bound d count ltac:(lia)) as Hd.
  assert (forall k, k mod count = d mod count -> (index + k * step) mod count = row) as Hk.
  { intros k Ek. transitivity ((index + d * step) mod count).
    - rewrite (Z.add_mod index (k * step)), (Z.add_mod index (d * step)), (Z.mul_mod k), (Z.mul_mod d), Ek by lia. done.
    - replace (index + d * step) with row by (unfold d; nia). apply Z.mod_small. lia. }
  destruct (Z.eq_dec (d mod count) 0) as [E|E].
  - exists (Z.to_nat count). split; [lia|]. apply Hk. rewrite Z2Nat.id, Z.mod_same by lia. lia.
  - exists (Z.to_nat (d mod count)). split; [lia|]. apply Hk. rewrite Z2Nat.id by lia. apply Z.mod_mod. lia.
Qed.

Lemma IsSelectable_range rows row : IsSelectable rows row = true -> 0 <= row < Count rows.
Proof. unfold IsSelectable. destruct (Z.ltb_spec row 0), (Z.leb_spec (Count rows) row); cbn; lia || done. Qed.

(** The next row that takes the cursor, or [index] when there is none. *)
Lemma Cursor_Step_spec rows index step :
  step = 1 \/ step = -1 -> 0 <= index < Count rows ->
  let at_ k := (index + Z.of_nat k * step) mod Count rows in
  (exists k, (1 <= k <= Z.to_nat (Count rows))%nat /\ Cursor_Step rows index step = at_ k /\ IsSelectable rows (at_ k) = true /\
     forall j, (1 <= j < k)%nat -> IsSelectable rows (at_ j) = false) \/
  ((forall row, IsSelectable rows row = false) /\ Cursor_Step rows index step = index).
Proof.
  intros Hstep Hi at_. unfold Cursor_Step. destruct (Z.leb_spec (Count rows) 0); [lia|].
  destruct (step_loop_spec rows step (Z.to_nat (Count rows)) index ltac:(lia)) as [Hk|[Hno E]]; [by left|right]. split.
  - intros row. apply not_true_iff_false. intros Hs. pose proof (IsSelectable_range _ _ Hs) as Hr.
    destruct (visits (Count rows) index step row Hstep Hi Hr) as (j & Hj & Ej). specialize (Hno j Hj). rewrite Ej in Hno. congruence.
  - rewrite E by lia. rewrite Z2Nat.id, Z.mul_comm, Z.mod_add by lia. apply Z.mod_small. lia.
Qed.

Lemma Cursor_First_range rows : 0 <= Cursor_First rows < Z.max 1 (Count rows).
Proof.
  unfold Cursor_First. destruct (Z.leb_spec (Count rows) 0); cbn [orb]; [lia|]. destruct (IsSelectable rows 0); [lia|].
  destruct (Cursor_Step_spec rows 0 1 ltac:(by left) ltac:(lia)) as [(k & _ & -> & Hs & _)|[_ ->]]; [|lia].
  apply IsSelectable_range in Hs. lia.
Qed.

(** ** Jumps of a page *)

Lemma land_loop_spec rows start finish attempts landed :
  start <= landed < finish ->
  let result := land_loop rows start finish attempts landed in
  let at_ k := start + (landed - start + Z.of_nat k) mod (finish - start) in
  start <= result < finish /\
  ((exists k, (k < attempts)%nat /\ result = at_ k /\ IsSelectable rows (at_ k) = true) \/
   (forall k, (k < attempts)%nat -> IsSelectable rows (at_ k) = false)).
Proof.
  revert landed. induction attempts as [|rest IH]; intros landed Hl result at_; cbn [land_loop] in result.
  { split; [done|]. right. lia. }
  assert (at_ O = landed) as H0 by (unfold at_; rewrite Z.mod_small; lia).
  destruct (IsSelectable rows landed) eqn:Es.
  { split; [done|]. left. exists O. rewrite H0. split_and!; [lia|done|done]. }
  set (next := if landed + 1 <? finish then landed + 1 else start) in *.
  assert (start <= next < finish) as Hn by (unfold next; destruct (Z.ltb_spec (landed + 1) finish); lia).
  assert (forall k, start + (next - start + Z.of_nat k) mod (finish - start) = at_ (S k)) as Hshift.
  { intros k. unfold at_, next. destruct (Z.ltb_spec (landed + 1) finish); [do 2 f_equal; lia|].
    replace (landed - start + Z.of_nat (S k)) with (start - start + Z.of_nat k + 1 * (finish - start)) by lia.
    by rewrite Z.mod_add by lia. }
  destruct (IH next Hn) as [Hr [(k & Hk & E & Hs)|Hno]]; (split; [done|]).
  - left. exists (S k). rewrite Hshift in E, Hs. split_and!; [lia|done|done].
  - right. intros [|k] Hk; [by rewrite H0|]. rewrite <- Hshift. apply Hno. lia.
Qed.

Lemma PageCount_div items perPage : 0 < items -> 0 < perPage -> PageCount items perPage = (items - 1) / perPage + 1.
Proof.
  intros Hi Hp. unfold PageCount. destruct (Z.leb_spec items 0); [lia|]. rewrite Z.quot_div_nonneg by lia.
  replace (items + perPage - 1) with (items - 1 + 1 * perPage) by lia. by rewrite Z.div_add by lia.
Qed.

(** The rows of a page. *)
Definition page_start (rowsPerPage page : Z) : Z := page * rowsPerPage.
Definition page_end (rows : CursorRows) (rowsPerPage page : Z) : Z := Z.min (Count rows) (page * rowsPerPage + rowsPerPage).

(** The cursor lands where it should, and the search for a row ends, whatever rows refuse it. A step goes to the
    next row, either way around, that takes the cursor, and stays when no row does; the first row is the first that
    takes it; a jump lands on the page it names, wrapping over the pages, keeps its offset when that row takes the
    cursor, and finds a row that does when the page has one. *)
Theorem cursor_lands rows index :
  0 <= index < Count rows ->
  (forall step, step = 1 \/ step = -1 ->
     (exists k, (1 <= k <= Z.to_nat (Count rows))%nat /\ let at_ j := (index + Z.of_nat j * step) mod Count rows in
        Cursor_Step rows index step = at_ k /\ IsSelectable rows (at_ k) = true /\
        forall j, (1 <= j < k)%nat -> IsSelectable rows (at_ j) = false) \/
     ((forall row, IsSelectable rows row = false) /\ Cursor_Step rows index step = index)) /\
  ((IsSelectable rows (Cursor_First rows) = true /\ forall row, 0 <= row < Cursor_First rows -> IsSelectable rows row = false) \/
   ((forall row, IsSelectable rows row = false) /\ Cursor_First rows = 0)) /\
  (forall rowsPerPage delta, 0 < rowsPerPage ->
     let page := (index / rowsPerPage + delta) mod PageCount (Count rows) rowsPerPage in
     let landed := Cursor_JumpPage rows index rowsPerPage delta in
     let same := page_start rowsPerPage page + index mod rowsPerPage in
     page_start rowsPerPage page <= landed < page_end rows rowsPerPage page /\
     (IsSelectable rows same = true -> landed = same) /\
     ((exists row, page_start rowsPerPage page <= row < page_end rows rowsPerPage page /\ IsSelectable rows row = true) ->
      IsSelectable rows landed = true)).
Proof.
  intros Hi. split_and!.
  - intros step Hstep. destruct (Cursor_Step_spec rows index step Hstep Hi) as [(k & Hk & H)|H]; [left; by exists k|by right].
  - unfold Cursor_First. destruct (Z.leb_spec (Count rows) 0); [lia|]. cbn [orb]. destruct (IsSelectable rows 0) eqn:E0.
    { left. split; [done|lia]. }
    destruct (Cursor_Step_spec rows 0 1 ltac:(by left) ltac:(lia)) as [(k & Hk & E & Hs & Hno)|[Hno E]]; [left|by right].
    rewrite E. split; [done|]. intros row Hr. destruct (Z.eq_dec row 0) as [->|Hne]; [done|].
    assert (Z.of_nat k < Count rows) as Hkc.
    { destruct (Z.eq_dec (Z.of_nat k) (Count rows)) as [Ek|]; [|lia]. rewrite Ek, Z.mul_1_r, Z.add_0_l, Z.mod_same in Hs by lia. congruence. }
    rewrite Z.mul_1_r, Z.add_0_l, Z.mod_small in Hr by lia.
    specialize (Hno (Z.to_nat row) ltac:(lia)). rewrite Z2Nat.id, Z.mul_1_r, Z.add_0_l, Z.mod_small in Hno by lia. done.
  - intros rpp delta Hrpp page landed same.
    assert (0 < PageCount (Count rows) rpp) as Hpc.
    { rewrite PageCount_div by lia. pose proof (Z.div_pos (Count rows - 1) rpp). lia. }
    assert (0 <= page < PageCount (Count rows) rpp) as Hpage by (apply Z.mod_pos_bound; lia).
    rewrite PageCount_div in Hpage by lia.
    assert (page * rpp <= Count rows - 1) as Hstart.
    { pose proof (Z.mul_div_le (Count rows - 1) rpp ltac:(lia)). nia. }
    pose proof (Z.mod_pos_bound index rpp Hrpp) as Hoff.
    assert (landed = land_loop rows (page * rpp) (page_end rows rpp page) (Z.to_nat (page_end rows rpp page - page * rpp))
              (Z.min same (page_end rows rpp page - 1))) as El.
    { unfold landed, Cursor_JumpPage. destruct (Z.leb_spec (Count rows) 0), (Z.leb_spec rpp 0); cbn [orb]; try lia.
      rewrite WrapIndex_mod, Z.quot_div_nonneg, Z.rem_mod_nonneg by lia. done. }
    clearbody landed. subst same. unfold page_start, page_end in *.
    destruct (land_loop_spec rows (page * rpp) (Z.min (Count rows) (page * rpp + rpp))
      (Z.to_nat (Z.min (Count rows) (page * rpp + rpp) - page * rpp))
      (Z.min (page * rpp + index mod rpp) (Z.min (Count rows) (page * rpp + rpp) - 1)) ltac:(lia)) as [Hr Hsel].
    rewrite <- El in Hr, Hsel. split_and!; [lia|lia| |].
    + intros Hs. pose proof (IsSelectable_range _ _ Hs). rewrite El, (Z.min_l (page * rpp + index mod rpp)) by lia.
      destruct (Z.to_nat _) as [|n] eqn:En; [lia|]. cbn [land_loop]. by rewrite Hs.
    + intros (row & Hrow & Hs). destruct Hsel as [(k & _ & E & Hk)|Hno]; [by rewrite E|]. exfalso.
      set (s := page * rpp) in *. set (e := Z.min (Count rows) (s + rpp)) in *. set (l := Z.min (s + index mod rpp) (e - 1)) in *.
      pose proof (Z.mod_pos_bound (row - l) (e - s) ltac:(lia)) as Hm.
      specialize (Hno (Z.to_nat ((row - l) mod (e - s))) ltac:(lia)). rewrite Z2Nat.id, Zplus_mod_idemp_r in Hno by lia.
      replace (l - s + (row - l)) with (row - s) in Hno by lia. rewrite Z.mod_small in Hno by lia.
      replace (s + (row - s)) with row in Hno by lia. congruence.
Qed.

Lemma cursor_lands_witness :
  let rows := mkRows 7 (Some (fun row => (row =? 1) || (row =? 6))) in
  Cursor_Step rows 1 1 = 6 /\ Cursor_First rows = 1 /\ Cursor_JumpPage rows 1 5 1 = 6 /\ IsSelectable rows (Cursor_JumpPage rows 1 5 1) = true.
Proof.
  intros rows. destruct (cursor_lands rows 1 ltac:(by vm_compute)) as (_ & _ & H).
  split; [by vm_compute|]. split; [by vm_compute|]. split; [by vm_compute|].
  apply (H 5 1 ltac:(lia)). exists 6. by vm_compute.
Defined.
