(* ===== verification/MenuStack.v ===== *)
(** * Menus and the stack every surface shares: [Menu/MenuModel.hpp], [Menu/PendingCommit.cpp], [Menu/MenuStack.cpp]

    A row's callbacks are programs: they read and write a world of their own and call the surface they are handed.
    What a surface does with a call is a parameter here; [MenuSurfaces] closes the loop. Nothing a callback can call
    steps a row, so no program holds a commit. *)
From S2P Require Import Prelude Text Identity.

(** ** The menu model *)

Inductive MenuRowKind := RowText | RowButton | RowSubmenu | RowToggle | RowChoice | RowInput.
#[export] Instance MenuRowKind_eq_dec : EqDecision MenuRowKind.
Proof. solve_decision. Defined.

Record MenuRow := mkRow {
  Label : text;
  Value : text;
  Kind : MenuRowKind;
  Enabled : bool;
  Selectable : bool;
  Steppable : bool;
  Toggled : option bool;        (** [State] *)
  Icon : text;
  Pending : bool;
  Changed : bool }.

(** [MenuRow{.Enabled = false, .Selectable = false}] *)
Definition inert_row : MenuRow := mkRow [] [] RowButton false false false None [] false false.

Record MenuOptions := mkOptions { FreezeMovement : bool; HomePage : bool }.
Definition default_options : MenuOptions := mkOptions true false.

(** Row callbacks; [P] is what running one does. [Describe] only reads. *)
Record MenuItem (W P : Type) := mkItem {
  item_Describe : option (W -> Z -> MenuRow);
  item_Activate : option (Z -> P);
  item_Step : option (Z -> Z -> P);
  item_Commit : option (Z -> P) }.
Arguments mkItem {W P}.
Arguments item_Describe {W P}.
Arguments item_Activate {W P}.
Arguments item_Step {W P}.
Arguments item_Commit {W P}.

(** [MenuId] is the object's address: two menus are one object when their ids are. *)
Record Menu (W P : Type) := mkMenu { MenuId : Z; Title : text; Subtitle : text; Items : list (MenuItem W P) }.
Arguments mkMenu {W P}.
Arguments MenuId {W P}.
Arguments Title {W P}.
Arguments Subtitle {W P}.
Arguments Items {W P}.

(** What a callback may ask of its surface. [CallSlotChanged] is not the surface's: it is the slot feed, which a
    callback raises by kicking a player. *)
Inductive call (W P : Type) :=
| CallOpenSession (slot : Z) (menu : option (Menu W P)) (options : MenuOptions)
| CallOpen (slot : Z) (menu : option (Menu W P))
| CallIsOpen (slot : Z)
| CallClose (slot : Z)
| CallCloseAll (slot : Z)
| CallCloseAllReply (slot : Z) (replyKey : text)
| CallPrompt (slot : Z) (prompt : text) (callback : option (Z -> text -> P))
| CallSlotChanged (slot : Z).
Arguments CallOpenSession {W P}.
Arguments CallOpen {W P}.
Arguments CallIsOpen {W P}.
Arguments CallClose {W P}.
Arguments CallCloseAll {W P}.
Arguments CallCloseAllReply {W P}.
Arguments CallPrompt {W P}.
Arguments CallSlotChanged {W P}.

(** A callback's run. [Done] carries what a callback that returns [bool] returns; [OpenSession] and [IsOpen] answer a
    [bool], the other calls answer [true]. *)
Inductive program (W : Type) :=
| Done (result : bool)
| DoWorld (f : W -> W) (k : W -> program W)
| DoCall (c : call W (program W)) (k : bool -> program W).
Arguments Done {W}.
Arguments DoWorld {W}.
Arguments DoCall {W}.

Abbreviation MenuOf W := (Menu W (program W)).
Abbreviation ItemOf W := (MenuItem W (program W)).

Definition IsRowActionable {W P} (item : MenuItem W P) (w : W) (slot : Z) : bool :=
  match item_Describe item with
  | None => false
  | Some describe => let row := describe w slot in Enabled row && Selectable row
  end.

(** ** The state *)

Record RowMemory := mkMemory { MemoryValue : text; ChangedAt : Z; Drawn : bool }.
Definition RowMemory_new : RowMemory := mkMemory [] 0 false.

(** [Menus] are shared pointers, which may be null. *)
Record State (W : Type) := mkState { Menus : list (option (MenuOf W)); Rows : list RowMemory; Breadcrumb : text }.
Arguments mkState {W}.
Arguments Menus {W}.
Arguments Rows {W}.
Arguments Breadcrumb {W}.
Definition State_new {W} : State W := mkState [] [] [].

(** A held commit. The number names the call that held it, and [Armed] is whether [Timer] holds a subscription. *)
Record Entry (W : Type) := mkEntry { Index : Z; Commit : option (nat * program W); Armed : bool }.
Arguments mkEntry {W}.
Arguments Index {W}.
Arguments Commit {W}.
Arguments Armed {W}.
Definition Entry_new {W} : Entry W := mkEntry (-1) None false.

(** What became of a held commit: it ran, the same row was stepped again, its own row was activated, or the slot
    changed hands. *)
Inductive fate := Applied | Restarted | Dropped | Vacated.
#[export] Instance fate_eq_dec : EqDecision fate.
Proof. solve_decision. Defined.

(** [held] numbers the holds so far and [fates] records their ends: both are history, which no operation reads. *)
Record MenuStack (W : Type) := mkStack {
  states : PerSlot (State W);
  entries : PerSlot (Entry W);
  held : nat;
  fates : list (nat * fate) }.
Arguments mkStack {W}.
Arguments states {W}.
Arguments entries {W}.
Arguments held {W}.
Arguments fates {W}.

Definition MenuStack_new {W} : MenuStack W := mkStack (PerSlot_new State_new) (PerSlot_new Entry_new) 0 [].

Section Stack.
Context {W : Type}.
Implicit Types s : MenuStack W.

(** [_states[slot]] and [_entries[slot]] *)
Definition state_at s (slot : Z) : State W := default State_new (PerSlot_get (states s) slot).
Definition entry_at s (slot : Z) : Entry W := default Entry_new (PerSlot_get (entries s) slot).

Definition set_state (slot : Z) (st : State W) s : MenuStack W :=
  mkStack (PerSlot_set (states s) slot st) (entries s) (held s) (fates s).

(** The entry is replaced by one that holds nothing; what it held, if anything, comes to this end. *)
Definition clear_entry (slot : Z) (end_ : fate) s : MenuStack W :=
  mkStack (states s) (PerSlot_Reset Entry_new (entries s) slot) (held s)
    (fates s ++ match Commit (entry_at s slot) with Some (id, _) => [(id, end_)] | None => [] end).

Definition set_entry (slot index : Z) (commit : program W) (armed : bool) s : MenuStack W :=
  let s := clear_entry slot Restarted s in
  mkStack (states s) (PerSlot_set (entries s) slot (mkEntry index (Some (held s, commit)) armed)) (S (held s)) (fates s).

(** ** Queries *)

Definition Current s (slot : Z) : option (MenuOf W) := if IsValidSlot slot then mjoin (last (Menus (state_at s slot))) else None.
Definition Root s (slot : Z) : option (MenuOf W) := if IsValidSlot slot then mjoin (head (Menus (state_at s slot))) else None.
Definition Depth s (slot : Z) : Z := if IsValidSlot slot then Z.of_nat (length (Menus (state_at s slot))) else 0.
Definition IsOpen s (slot : Z) : bool := 0 <? Depth s slot.
Definition AnyOpen s : bool := existsb (fun st => negb (bool_decide (Menus st = []))) (states s).
Definition BreadcrumbOf s (slot : Z) : text := if IsValidSlot slot then Breadcrumb (state_at s slot) else [].

(** [PendingCommit::Index] and [IsPending] *)
Definition PendingIndex s (slot : Z) : Z := if IsValidSlot slot then Index (entry_at s slot) else -1.
Definition IsPending s (slot index : Z) : bool := (0 <=? index) && (PendingIndex s slot =? index).

Definition item_at s (slot index : Z) : option (MenuOf W * ItemOf W) :=
  match Current s slot with
  | None => None
  | Some menu => if index <? 0 then None else item ← Items menu !! Z.to_nat index; Some (menu, item)
  end.

(** ** What depends on the menu on top *)

Definition kBreadcrumbSeparator : text := $" › ".

(** The loop over the menus below the top; a null one is read through. *)
Fixpoint breadcrumb_loop (menus : list (option (MenuOf W))) (breadcrumb : text) : outcome text :=
  match menus with
  | [] | [_] => Returns breadcrumb
  | None :: _ => Undefined
  | Some menu :: rest =>
      let breadcrumb := if bool_decide (breadcrumb = []) then breadcrumb else breadcrumb ++ kBreadcrumbSeparator in
      breadcrumb_loop rest (breadcrumb ++ Title menu)
  end.

Definition Rebuild (slot : Z) s : outcome (MenuStack W) :=
  let menus := Menus (state_at s slot) in
  run! breadcrumb := breadcrumb_loop menus [] in Returns (set_state slot (mkState menus [] breadcrumb) s).

Definition Push (slot : Z) (menu : option (MenuOf W)) s : outcome (MenuStack W) :=
  if negb (IsValidSlot slot) then Returns s
  else match menu with
  | None => Returns s
  | Some _ =>
      let st := state_at s slot in
      Rebuild slot (set_state slot (mkState (Menus st ++ [menu]) (Rows st) (Breadcrumb st)) s)
  end.

(** What both [PerSlot]s do when a slot changes hands. *)
Definition Stack_SlotChanged (slot : Z) s : MenuStack W :=
  clear_entry slot Vacated (mkStack (PerSlot_Reset State_new (states s) slot) (entries s) (held s) (fates s)).
End Stack.

(** ** Operations that run callbacks

    [X] is everything outside the stack, the world of the callbacks in it. [run] runs a callback, [committed] raises
    [Committed], [getOr] is [Translations::GetOr] and [hasTimer] whether a [Timer] was given. *)
Section MenuStackOps.
Context {W X : Type} (world : X -> W) (getOr : text -> Z -> text -> text) (hasTimer : bool).
Context (run : program W -> MenuStack W * X -> outcome (bool * (MenuStack W * X))).
Context (committed : Z -> MenuStack W * X -> outcome (MenuStack W * X)).
Abbreviation M := (MenuStack W * X)%type.
Implicit Types m : M.

Definition on_stack (f : MenuStack W -> MenuStack W) m : M := (f m.1, m.2).
Definition on_stack_run (f : MenuStack W -> outcome (MenuStack W)) m : outcome M := run! s := f m.1 in Returns (s, m.2).

(** [PendingCommit::Apply], the commit being what [MenuStack::Step] held. *)
Definition ApplyPending (slot : Z) m : outcome M :=
  if negb (IsValidSlot slot) then Returns m
  else
    let taken := entry_at m.1 slot in
    let m := on_stack (clear_entry slot Applied) m in
    match Commit taken with
    | None => Returns m
    | Some (_, commit) => run! bm := run commit m in committed slot bm.2
    end.

Definition Drop (slot : Z) m : M := if IsValidSlot slot then on_stack (clear_entry slot Dropped) m else m.

Definition Hold (slot index : Z) (commit : program W) m : outcome M :=
  if negb (IsValidSlot slot) then Returns m
  else
    run! m := (if Index (entry_at m.1 slot) =? index then Returns m else ApplyPending slot m) in
    Returns (on_stack (set_entry slot index commit hasTimer) m).

(** The scheduler firing the timer of [slot]'s entry; one that was reset is not there to fire. *)
Definition TimerFired (slot : Z) m : outcome M := if Armed (entry_at m.1 slot) then ApplyPending slot m else Returns m.

Definition Pop (slot : Z) m : outcome M :=
  if negb (IsValidSlot slot) || bool_decide (Menus (state_at m.1 slot) = []) then Returns m
  else
    run! m := ApplyPending slot m in
    let st := state_at m.1 slot in
    if bool_decide (Menus st = []) then Undefined
    else
      let menus := removelast (Menus st) in
      if bool_decide (menus = []) then Returns (on_stack (set_state slot State_new) m)
      else on_stack_run (Rebuild slot) (on_stack (set_state slot (mkState menus (Rows st) (Breadcrumb st))) m).

Definition Clear (slot : Z) m : outcome M :=
  if negb (IsValidSlot slot) then Returns m
  else run! m := ApplyPending slot m in Returns (on_stack (set_state slot State_new) m).

(** [vector::resize(1)] *)
Definition resize_one (menus : list (option (MenuOf W))) : list (option (MenuOf W)) :=
  match menus with [] => [None] | menu :: _ => [menu] end.

Definition PopToRoot (slot : Z) m : outcome M :=
  if negb (IsValidSlot slot) || bool_decide (Menus (state_at m.1 slot) = []) then Returns m
  else
    run! m := ApplyPending slot m in
    let st := state_at m.1 slot in
    on_stack_run (Rebuild slot) (on_stack (set_state slot (mkState (resize_one (Menus st)) (Rows st) (Breadcrumb st))) m).

(** ** Rows *)

Definition ChangedMs : Z := 150.

Definition with_value (row : MenuRow) (value : text) : MenuRow :=
  mkRow (Label row) value (Kind row) (Enabled row) (Selectable row) (Steppable row) (Toggled row) (Icon row) (Pending row) (Changed row).

Definition toggle_value (slot : Z) (row : MenuRow) : MenuRow :=
  match Kind row, Value row, Toggled row with
  | RowToggle, [], Some on => with_value row (if on then getOr $"menu.on" slot $"ON" else getOr $"menu.off" slot $"OFF")
  | _, _, _ => row
  end.

Definition remember (now : Z) (row : MenuRow) (memory : RowMemory) : RowMemory :=
  if bool_decide (MemoryValue memory = Value row) then memory
  else mkMemory (Value row) (if Drawn memory then now else ChangedAt memory) true.

(** [Describe], at the monotonic time [now]. *)
Definition Describe (slot index now : Z) m : MenuRow * M :=
  match item_at m.1 slot index with
  | None => (inert_row, m)
  | Some (menu, item) =>
      let row := match item_Describe item with Some describe => describe (world m.2) slot | None => inert_row end in
      let row := toggle_value slot row in
      let st := state_at m.1 slot in
      let rows := if (length (Rows st) =? length (Items menu))%nat then Rows st
                  else replicate (length (Items menu)) RowMemory_new in
      let memory := remember now row (default RowMemory_new (rows !! Z.to_nat index)) in
      let m := on_stack (set_state slot (mkState (Menus st) (<[Z.to_nat index := memory]> rows) (Breadcrumb st))) m in
      (mkRow (Label row) (Value row) (Kind row) (Enabled row) (Selectable row) (Steppable row) (Toggled row) (Icon row)
         (IsPending m.1 slot index) (negb (ChangedAt memory =? 0) && (now - ChangedAt memory <? ChangedMs)), m)
  end.

Definition Activate (slot index : Z) m : outcome M :=
  if negb (IsValidSlot slot) then Returns m
  else
    run! m := (if IsPending m.1 slot index then Returns (Drop slot m) else ApplyPending slot m) in
    match item_at m.1 slot index with
    | None => Returns m
    | Some (_, item) =>
        match item_Activate item with
        | Some activate =>
            if IsRowActionable item (world m.2) slot then run! bm := run (activate slot) m in Returns bm.2 else Returns m
        | None => Returns m
        end
    end.

Definition describes_enabled (item : ItemOf W) (w : W) (slot : Z) : bool :=
  match item_Describe item with Some describe => Enabled (describe w slot) | None => false end.

Definition Step (slot index direction : Z) m : outcome (bool * M) :=
  match item_at m.1 slot index with
  | None => Returns (false, m)
  | Some (menu, item) =>
      match item_Step item with
      | None => Returns (false, m)
      | Some step =>
          if negb (describes_enabled item (world m.2) slot) then Returns (false, m)
          else
            run! bm := run (step slot direction) m in
            let '(consumed, m) := bm in
            if negb consumed then Returns (false, m)
            else
              match item_Commit item, Current m.1 slot with
              | Some commit, Some now => if MenuId now =? MenuId menu then run! m := Hold slot index (commit slot) m in Returns (true, m)
                                         else Returns (true, m)
              | _, _ => Returns (true, m)
              end
      end
  end.
End MenuStackOps.

(** ** Surfaces

    A surface gives a meaning to the calls, and hears of committed values, with nothing but these steps of the stack
    and changes of its own state. *)
Inductive stack_step (W : Type) :=
| StPush (slot : Z) (menu : option (MenuOf W))
| StPop (slot : Z)
| StClear (slot : Z)
| StSlotChanged (slot : Z)
| StDescribe (slot index now : Z).
Arguments StPush {W}.
Arguments StPop {W}.
Arguments StClear {W}.
Arguments StSlotChanged {W}.
Arguments StDescribe {W}.

Section Surface.
Context {W X : Type} (world : X -> W) (set_world : W -> X -> X) (getOr : text -> Z -> text -> text).
Abbreviation M := (MenuStack W * X)%type.
Abbreviation runner := (program W -> M -> outcome (bool * M)).
Abbreviation raiser := (Z -> M -> outcome M).

Definition do_stack_step (run : runner) (committed : raiser) (st : stack_step W) (m : M) : outcome M :=
  match st with
  | StPush slot menu => on_stack_run (Push slot menu) m
  | StPop slot => Pop run committed slot m
  | StClear slot => Clear run committed slot m
  | StSlotChanged slot => Returns (on_stack (Stack_SlotChanged slot) m)
  | StDescribe slot index now => Returns (Describe world getOr slot index now m).2
  end.

Class Surface := {
  surface_call : runner -> raiser -> call W (program W) -> M -> outcome (bool * M);
  surface_committed : runner -> raiser -> Z -> M -> outcome M }.

(** What a relation between states needs for a surface's runs to stay inside it. *)
Record stack_relation (run : runner) (committed : raiser) (F : Prop) (I : M -> M -> Prop) (m : M) : Prop := {
  rel_trans : forall m1 m2 m3, I m1 m2 -> I m2 m3 -> I m1 m3;
  rel_own : forall m1 x, I m1 (m1.1, x);
  rel_step : forall m1 st, I m m1 -> holds F (I m1) (do_stack_step run committed st m1) }.

Class SurfaceLaws `{Surface} := {
  surface_call_law run committed F I m c :
    stack_relation run committed F I m -> holds F (fun bm => I m bm.2) (surface_call run committed c m);
  surface_committed_law run committed F I m slot :
    stack_relation run committed F I m -> holds F (I m) (surface_committed run committed slot m) }.

Context `{Surface}.

(** A callback's run, each call given to the surface. *)
Fixpoint run_program (perform : call W (program W) -> M -> outcome (bool * M)) (p : program W) (m : M) : outcome (bool * M) :=
  match p with
  | Done result => Returns (result, m)
  | DoWorld f k => run_program perform (k (world m.2)) (m.1, set_world (f (world m.2)) m.2)
  | DoCall c k => run! bm := perform c m in run_program perform (k bm.1) bm.2
  end.

(** The two ways code outside the stack runs, [fuel] bounding how deep a callback's calls run other callbacks. *)
Fixpoint exec (fuel : nat) (job : program W + Z) (m : M) : outcome (bool * M) :=
  match fuel with
  | O => OutOfFuel
  | S fuel =>
      let run p := exec fuel (inl p) in
      let committed slot m := run! bm := exec fuel (inr slot) m in Returns bm.2 in
      match job with
      | inl p => run_program (surface_call run committed) p m
      | inr slot => run! m := surface_committed run committed slot m in Returns (true, m)
      end
  end.

Definition exec_run (fuel : nat) : runner := fun p => exec fuel (inl p).
Definition exec_committed (fuel : nat) : raiser := fun slot m => run! bm := exec fuel (inr slot) m in Returns bm.2.
End Surface.
Arguments Surface : clear implicits.
Arguments SurfaceLaws {W X} world getOr {_}.

(** A change of the surface's own state. *)
Definition own {W X} (f : X -> X) (m : MenuStack W * X) : MenuStack W * X := (m.1, f m.2).

(** *** Staying in a relation *)
Existing Class stack_relation.

Section Law.
Context {W X : Type} (world : X -> W) (getOr : text -> Z -> text -> text).
Context (run : program W -> MenuStack W * X -> outcome (bool * (MenuStack W * X))) (committed : Z -> MenuStack W * X -> outcome (MenuStack W * X)).
Context (F : Prop) (I : MenuStack W * X -> MenuStack W * X -> Prop) (m0 : MenuStack W * X).
Context {HI : stack_relation world getOr run committed F I m0}.

Lemma law_refl m : I m m.
Proof using HI. destruct m as [s x]. apply (rel_own _ _ _ _ _ _ _ HI (s, x) x). Qed.

Lemma law_own f m : I m0 m -> I m0 (own f m).
Proof using HI. intros H. eapply (rel_trans _ _ _ _ _ _ _ HI); [exact H|apply (rel_own _ _ _ _ _ _ _ HI)]. Qed.

Lemma law_step st m : I m0 m -> holds F (I m0) (do_stack_step world getOr run committed st m).
Proof using HI.
  intros H. eapply holds_impl; [exact (fun f => f)| |by apply (rel_step _ _ _ _ _ _ _ HI)].
  intros m' H'. exact (rel_trans _ _ _ _ _ _ _ HI _ _ _ H H').
Qed.
End Law.

(** *** What runs keep *)

Section Keeps.
Context {W X : Type} (world : X -> W) (set_world : W -> X -> X) (getOr : text -> Z -> text -> text).
Abbreviation M := (MenuStack W * X)%type.

Record runs_keep (P : M -> Prop) (run : program W -> M -> outcome (bool * M)) (committed : Z -> M -> outcome M) : Prop := {
  keep_run : forall p m, P m -> holds True (fun bm => P bm.2) (run p m);
  keep_committed : forall slot m, P m -> holds True P (committed slot m) }.

(** What the surface's calls keep, given that callbacks do, callbacks keep however deep they run. *)
Lemma exec_keeps `{Surface W X} (P : M -> Prop) n :
  (forall w m, P m -> P (own (set_world w) m)) ->
  (forall run committed, runs_keep P run committed -> forall c m, P m -> holds True (fun bm => P bm.2) (surface_call run committed c m)) ->
  (forall run committed, runs_keep P run committed -> forall slot m, P m -> holds True P (surface_committed run committed slot m)) ->
  runs_keep P (exec_run world set_world n) (exec_committed world set_world n).
Proof.
  intros Hworld Hcall Hcommitted. induction n as [|n IH]; [by split|]. split.
  - intros p. unfold exec_run; cbn [exec]. induction p as [b|f k IHk|c k IHk]; intros m Hm; cbn [run_program]; [done| |].
    + apply IHk. by apply (Hworld (f (world m.2)) m).
    + apply (holds_bind _ (fun bm : bool * M => P bm.2)); [by apply (Hcall _ _ IH)|]. intros bm Hbm. by apply IHk.
  - intros slot m Hm. unfold exec_committed; cbn [exec]. apply (holds_bind _ (fun bm : bool * M => P bm.2)); [|done].
    apply (holds_bind _ P); [|done]. by apply (Hcommitted _ _ IH).
Qed.

(** An invariant of the surface's own state is nothing to the stack. *)
Section Own.
Context (P : X -> Prop) (run : program W -> M -> outcome (bool * M)) (committed : Z -> M -> outcome M).
Context (Hkeep : runs_keep (fun m => P m.2) run committed).
Abbreviation PM := (fun m : M => P m.2).
Abbreviation PB := (fun bm : bool * M => P bm.2.2).

Lemma own_ApplyPending slot m : P m.2 -> holds True PM (ApplyPending run committed slot m).
Proof using Hkeep.
  intros H. unfold ApplyPending. destruct (negb _); [done|]. destruct (Commit _) as [[id commit]|]; [|done].
  apply (holds_bind _ PB); [by apply Hkeep|]. intros bm Hbm. by apply Hkeep.
Qed.

Lemma own_on_stack_run f m : P m.2 -> holds True PM (on_stack_run f m).
Proof. intros H. unfold on_stack_run. by destruct (f m.1). Qed.

Lemma own_stack_step st m : P m.2 -> holds True PM (do_stack_step world getOr run committed st m).
Proof using Hkeep.
  intros H. destruct st; cbn [do_stack_step].
  - by apply own_on_stack_run.
  - unfold Pop. destruct (_ || _); [done|]. apply (holds_bind _ PM); [by apply own_ApplyPending|]. intros m' Hm'.
    destruct (bool_decide _); [done|]. destruct (bool_decide _); [done|by apply own_on_stack_run].
  - unfold Clear. destruct (negb _); [done|]. apply (holds_bind _ PM); [by apply own_ApplyPending|done].
  - done.
  - unfold Describe. by destruct (item_at _ _ _) as [[menu item]|].
Qed.

Lemma own_PopToRoot slot m : P m.2 -> holds True PM (PopToRoot run committed slot m).
Proof using Hkeep.
  intros H. unfold PopToRoot. destruct (_ || _); [done|]. apply (holds_bind _ PM); [by apply own_ApplyPending|].
  intros m' Hm'. by apply own_on_stack_run.
Qed.

Lemma own_Activate slot index m : P m.2 -> holds True PM (Activate world run committed slot index m).
Proof using Hkeep.
  intros H. unfold Activate. destruct (negb _); [done|]. apply (holds_bind _ PM).
  { destruct (IsPending _ _ _); [unfold Drop; by destruct (IsValidSlot slot)|by apply own_ApplyPending]. }
  intros m' Hm'. destruct (item_at _ _ _) as [[menu item]|]; [|done]. destruct (item_Activate item); [|done].
  destruct (IsRowActionable _ _ _); [|done]. apply (holds_bind _ PB); [by apply Hkeep|done].
Qed.

Lemma own_Step hasTimer slot index direction m : P m.2 -> holds True PB (Step world hasTimer run committed slot index direction m).
Proof using Hkeep.
  intros H. unfold Step. destruct (item_at _ _ _) as [[menu item]|]; [|done]. destruct (item_Step item); [|done]. destruct (negb _); [done|].
  apply (holds_bind _ PB); [by apply Hkeep|]. intros [b m'] Hm'. cbn [snd] in Hm'. destruct (negb b); [done|].
  destruct (item_Commit item); [|done]. destruct (Current _ _); [|done]. destruct (_ =? _); [|done].
  apply (holds_bind _ PM); [|done]. unfold Hold. destruct (negb _); [done|].
  apply (holds_bind _ PM); [destruct (_ =? _); [done|by apply own_ApplyPending]|done].
Qed.
End Own.
End Keeps.

(** ** What holds of every stack *)
Section Invariants.
Context {W : Type}.
Implicit Types s : MenuStack W.

(** The path to the menu on top. Titles are joined with the separator, leading empty ones left out. *)
Fixpoint skip_empty (titles : list text) : list text :=
  match titles with [] :: rest => skip_empty rest | _ => titles end.

Definition path (menus : list (option (MenuOf W))) : text :=
  Join (skip_empty (map Title (omap id (removelast menus)))) kBreadcrumbSeparator.

Record state_ok (st : State W) : Prop := {
  state_breadcrumb : Breadcrumb st = path (Menus st);
  state_rows : Rows st = [] \/ exists menu, last (Menus st) = Some (Some menu) /\ length (Rows st) = length (Items menu) }.

Definition entry_ok (e : Entry W) : Prop := match Commit e with None => Index e = -1 | Some _ => 0 <= Index e end.

(** The commits still held. *)
Definition pending s : list nat := omap (fun e => fst <$> Commit e) (entries s).

Record stack_ok s : Prop := {
  ok_states_wf : PerSlot_wf (states s);
  ok_entries_wf : PerSlot_wf (entries s);
  ok_states : Forall state_ok (states s);
  ok_entries : Forall entry_ok (entries s);
  ok_ids : seq 0 (held s) ≡ₚ map fst (fates s) ++ pending s }.

Lemma stack_ok_new : stack_ok (@MenuStack_new W).
Proof.
  split; cbn; try apply PerSlot_new_wf; try apply Forall_replicate; [|done|].
  - split; [done|by left].
  - vm_compute. constructor.
Qed.

Lemma Forall_set {T} (P : T -> Prop) (items : PerSlot T) slot v : Forall P items -> P v -> Forall P (PerSlot_set items slot v).
Proof. unfold PerSlot_set. intros. case_match; [by apply Forall_insert|done]. Qed.

Lemma PerSlot_get_in {T} (items : PerSlot T) slot v : PerSlot_get items slot = Some v -> IsValidSlot slot = true /\ items !! Z.to_nat slot = Some v.
Proof. unfold PerSlot_get. case_match; [done|discriminate]. Qed.

Lemma state_at_ok s slot : stack_ok s -> state_ok (state_at s slot).
Proof.
  intros H. unfold state_at. destruct (PerSlot_get _ _) eqn:E; cbn; [|split; [done|by left]].
  apply PerSlot_get_in in E as [_ E]. eapply Forall_lookup_1; [apply H|done].
Qed.

Lemma get_valid {T} (items : PerSlot T) slot : PerSlot_wf items -> IsValidSlot slot = true -> exists v, PerSlot_get items slot = Some v.
Proof.
  intros Hw Hs. unfold PerSlot_get. rewrite Hs. apply lookup_lt_is_Some_2.
  unfold PerSlot_wf, IsValidSlot in *. bools. lia.
Qed.

(** *** Menus *)

Lemma state_at_set s slot slot' st :
  PerSlot_wf (states s) -> IsValidSlot slot' = true -> state_at (set_state slot st s) slot' = if slot =? slot' then st else state_at s slot'.
Proof. intros Hw Hs. unfold state_at. cbn. rewrite PerSlot_get_set by done. by case_match. Qed.

Lemma set_state_ok slot st s : state_ok st -> stack_ok s -> stack_ok (set_state slot st s).
Proof. intros Hst [H1 H2 H3 H4 H5]. split; cbn; auto using PerSlot_set_wf, Forall_set. Qed.

Definition titles_below (menus : list (option (MenuOf W))) : list text := map Title (omap id (removelast menus)).

Lemma breadcrumb_loop_next menu next rest breadcrumb :
  breadcrumb_loop (Some menu :: next :: rest) breadcrumb =
  breadcrumb_loop (next :: rest)
    ((if bool_decide (breadcrumb = []) then breadcrumb else breadcrumb ++ kBreadcrumbSeparator) ++ Title (menu : MenuOf W)).
Proof. done. Qed.

Lemma breadcrumb_loop_more menus breadcrumb r :
  breadcrumb <> [] -> breadcrumb_loop menus breadcrumb = Returns r -> r = join_rest kBreadcrumbSeparator breadcrumb (titles_below menus).
Proof.
  revert breadcrumb. induction menus as [|[menu|] [|next rest] IH]; intros breadcrumb Hb Hr; try (by simplify_eq/=).
  rewrite breadcrumb_loop_next, bool_decide_eq_false_2, <- app_assoc in Hr by done. apply IH in Hr; [done|].
  by destruct breadcrumb.
Qed.

Lemma breadcrumb_loop_path menus r : breadcrumb_loop menus [] = Returns r -> r = path menus.
Proof.
  induction menus as [|[menu|] [|next rest] IH]; intros Hr; try (by simplify_eq/=).
  rewrite breadcrumb_loop_next in Hr. cbn [bool_decide decide] in Hr. change ([] ++ Title menu) with (Title menu) in Hr.
  unfold path in *. change (removelast (Some menu :: next :: rest)) with (Some menu :: removelast (next :: rest)).
  cbn [omap list_omap id map]. destruct (Title menu) as [|c title] eqn:Et; [by apply IH|].
  apply breadcrumb_loop_more in Hr; done.
Qed.

Lemma set_state_twice slot st st' s : set_state slot st' (set_state slot st s) = set_state slot st' s.
Proof.
  unfold set_state; cbn. f_equal. unfold PerSlot_set. destruct (IsValidSlot slot); [|done].
  by rewrite list_insert_insert_eq.
Qed.

(** *** How a stack may change while callbacks run: it stays well formed, ends already recorded stay recorded, and
    nothing new is held. *)
Record evolves s s' : Prop := {
  evolves_ok : stack_ok s -> stack_ok s';
  evolves_fates : fates s `prefix_of` fates s';
  evolves_pending : (length (pending s') <= length (pending s))%nat }.

Lemma stack_evolves_refl s : evolves s s.
Proof. split; auto. Qed.

Lemma stack_evolves_trans s1 s2 s3 : evolves s1 s2 -> evolves s2 s3 -> evolves s1 s3.
Proof. intros [] []. split; [auto|by etrans|lia]. Qed.

Lemma set_state_evolves slot st s : (stack_ok s -> state_ok st) -> evolves s (set_state slot st s).
Proof. intros Hst. split; [|done|done]. intros Hok. by apply set_state_ok; auto. Qed.

Lemma breadcrumb_loop_holds F (menus : list (option (MenuOf W))) : holds F (fun r => r = path menus) (breadcrumb_loop menus []).
Proof.
  assert (forall breadcrumb, breadcrumb_loop menus breadcrumb <> OutOfFuel) as Hf.
  { induction menus as [|[menu|] [|next rest] IH]; intros breadcrumb; try done. rewrite breadcrumb_loop_next. apply IH. }
  specialize (Hf []). destruct (breadcrumb_loop menus []) eqn:E; cbn; [by apply breadcrumb_loop_path|done..].
Qed.

(** Whatever was put in the slot before, a rebuilt stack is sound. *)
Lemma Rebuild_evolves F slot menus rows breadcrumb s :
  holds F (evolves s) (Rebuild slot (set_state slot (mkState menus rows breadcrumb) s)).
Proof.
  unfold Rebuild. eapply holds_bind; [apply breadcrumb_loop_holds|]. intros r ->. rewrite set_state_twice.
  apply set_state_evolves. split; cbn; [done|by left].
Qed.

Lemma Push_evolves F slot menu s : holds F (evolves s) (Push slot menu s).
Proof.
  unfold Push. destruct (negb _); [apply stack_evolves_refl|]. destruct menu; [apply Rebuild_evolves|apply stack_evolves_refl].
Qed.

(** *** Held commits *)

Lemma clear_entry_none slot end_ s : Commit (entry_at s slot) = None -> map fst (fates (clear_entry slot end_ s)) = map fst (fates s).
Proof. unfold clear_entry; cbn. intros ->. by rewrite app_nil_r. Qed.

Lemma Reset_split {T} (zero : T) (items : PerSlot T) slot v :
  PerSlot_get items slot = Some v ->
  exists before after, items = before ++ v :: after /\ PerSlot_Reset zero items slot = before ++ zero :: after.
Proof.
  intros [Hs Hv]%PerSlot_get_in. exists (take (Z.to_nat slot) items), (drop (S (Z.to_nat slot)) items).
  split; [by rewrite take_drop_middle|]. unfold PerSlot_Reset. rewrite Hs. apply insert_take_drop. by eapply lookup_lt_Some.
Qed.

Lemma Reset_get_none {T} (zero : T) (items : PerSlot T) slot : PerSlot_get items slot = None -> PerSlot_Reset zero items slot = items.
Proof.
  unfold PerSlot_get, PerSlot_Reset. destruct (IsValidSlot slot); [|done]. intros H.
  by apply list_insert_ge, lookup_ge_None_1.
Qed.

(** Clearing an entry moves what it held to its end, and nothing else. *)
Lemma clear_entry_ids slot end_ s :
  map fst (fates (clear_entry slot end_ s)) ++ pending (clear_entry slot end_ s) ≡ₚ map fst (fates s) ++ pending s.
Proof.
  unfold clear_entry, pending, entry_at; cbn. rewrite map_app, <- app_assoc. f_equiv.
  destruct (PerSlot_get (entries s) slot) as [e|] eqn:E; cbn.
  - destruct (Reset_split Entry_new _ _ _ E) as (before & after & -> & ->). rewrite !omap_app. cbn.
    destruct (Commit e) as [[id commit]|]; cbn; [|done]. by rewrite Permutation_middle.
  - by rewrite Reset_get_none.
Qed.

Lemma clear_entry_pending slot end_ s :
  (length (pending (clear_entry slot end_ s)) + match Commit (entry_at s slot) with Some _ => 1 | None => 0 end = length (pending s))%nat.
Proof.
  pose proof (Permutation_length (clear_entry_ids slot end_ s)) as H. rewrite !length_app, !length_map in H.
  change (fates (clear_entry slot end_ s)) with (fates s ++ match Commit (entry_at s slot) with Some (id, _) => [(id, end_)] | None => [] end) in H.
  rewrite length_app in H. destruct (Commit _) as [[]|]; cbn [length] in H; lia.
Qed.

Lemma clear_entry_ok slot end_ s : stack_ok s -> stack_ok (clear_entry slot end_ s).
Proof.
  intros [H1 H2 H3 H4 H5]. split; cbn; auto using PerSlot_Reset_wf.
  - unfold PerSlot_Reset. case_match; [by apply Forall_insert|done].
  - pose proof (clear_entry_ids slot end_ s) as H. unfold clear_entry in H at 1. cbn in H. by rewrite H.
Qed.

Lemma clear_entry_evolves slot end_ s : evolves s (clear_entry slot end_ s).
Proof.
  split; [apply clear_entry_ok|cbn; apply prefix_app_r; done|]. pose proof (clear_entry_pending slot end_ s). lia.
Qed.

Lemma SlotChanged_evolves slot s : evolves s (Stack_SlotChanged slot s).
Proof.
  unfold Stack_SlotChanged. eapply stack_evolves_trans; [|apply clear_entry_evolves]. split; cbn; [|done|done].
  intros [H1 H2 H3 H4 H5]. split; cbn; auto using PerSlot_Reset_wf. unfold PerSlot_Reset. case_match; [|done].
  apply Forall_insert; [done|]. split; [done|by left].
Qed.

Lemma entry_at_clear slot slot' end_ s :
  entry_at (clear_entry slot end_ s) slot' = if slot =? slot' then Entry_new else entry_at s slot'.
Proof.
  unfold entry_at; cbn. unfold PerSlot_get, PerSlot_Reset. destruct (Z.eqb_spec slot slot') as [->|Hne].
  - destruct (IsValidSlot slot') eqn:Hs; [|done]. destruct (entries s !! Z.to_nat slot') eqn:E.
    + by rewrite list_lookup_insert_eq by (by eapply lookup_lt_Some).
    + by rewrite list_insert_ge, E by (by apply lookup_ge_None_1).
  - destruct (IsValidSlot slot') eqn:Hs'; [|done]. destruct (IsValidSlot slot) eqn:Hs; [|done].
    unfold IsValidSlot in *. bools. by rewrite list_lookup_insert_ne by lia.
Qed.

Lemma hold_ok slot index commit armed s :
  IsValidSlot slot = true -> 0 <= index -> entry_at s slot = Entry_new -> stack_ok s ->
  stack_ok (mkStack (states s) (PerSlot_set (entries s) slot (mkEntry index (Some (held s, commit)) armed)) (S (held s)) (fates s)).
Proof.
  intros Hs Hi He [H1 H2 H3 H4 H5]. split; cbn [states entries held fates]; [done|by apply PerSlot_set_wf|done|by apply Forall_set|].
  destruct (get_valid (entries s) slot H2 Hs) as [e Hget]. unfold entry_at in He. rewrite Hget in He. cbn in He. subst e.
  unfold pending; cbn [held fates entries].
  set (e := mkEntry index (Some (held s, commit)) armed). change (PerSlot_set (entries s) slot e) with (PerSlot_Reset e (entries s) slot).
  destruct (Reset_split e _ _ _ Hget) as (before & after & E1 & ->). unfold pending in H5. rewrite E1 in H5.
  rewrite seq_S, H5, !omap_app. cbn. rewrite <- Permutation_middle. rewrite Permutation_app_comm. cbn. rewrite !app_assoc. apply Permutation_middle.
Qed.

Lemma set_entry_ok slot index commit armed s : IsValidSlot slot = true -> 0 <= index -> stack_ok s -> stack_ok (set_entry slot index commit armed s).
Proof.
  intros Hs Hi Hok. apply (hold_ok slot index commit armed (clear_entry slot Restarted s)); [done|done| |by apply clear_entry_ok].
  by rewrite entry_at_clear, Z.eqb_refl.
Qed.
End Invariants.

(** ** Runs *)
Section Runs.
Context {W X : Type} (world : X -> W) (set_world : W -> X -> X) (getOr : text -> Z -> text -> text) (hasTimer : bool).
Abbreviation M := (MenuStack W * X)%type.
Context `{Laws : SurfaceLaws W X world getOr}.

(** Runs that keep the stack well formed, those of callbacks and those of listeners, from a state that holds fewer
    commits than [n]. *)
Definition run_evolves (F : Prop) (n : nat) (run : program W -> M -> outcome (bool * M)) (committed : Z -> M -> outcome M) : Prop :=
  forall m, (length (pending m.1) < n)%nat ->
    (forall p, holds F (fun bm => evolves m.1 bm.2.1) (run p m)) /\ (forall slot, holds F (fun m' => evolves m.1 m'.1) (committed slot m)).

Section Given.
Context (F : Prop) (n : nat) (run : program W -> M -> outcome (bool * M)) (committed : Z -> M -> outcome M).
Context (Hrun : run_evolves F n run committed).
Implicit Types m : M.

(** An applied commit is out of its entry before it runs, so it has one less to go. *)
Lemma ApplyPending_evolves slot m :
  (length (pending m.1) <= n)%nat -> holds F (fun m' => evolves m.1 m'.1) (ApplyPending run committed slot m).
Proof.
  intros Hn. unfold ApplyPending. destruct (negb _); [apply stack_evolves_refl|]. pose proof (clear_entry_evolves slot Applied m.1) as Hc.
  destruct (Commit (entry_at m.1 slot)) as [[id commit]|] eqn:E; [|exact Hc].
  pose proof (clear_entry_pending slot Applied m.1) as Hp. rewrite E in Hp.
  set (m1 := on_stack (clear_entry slot Applied) m). change (clear_entry slot Applied m.1) with m1.1 in Hc, Hp. clearbody m1.
  eapply holds_bind; [apply Hrun; lia|]. intros [b m'] He. cbn [fst snd] in He |- *.
  pose proof (evolves_pending _ _ He). eapply holds_impl; [exact (fun f => f)| |apply Hrun; lia].
  cbn. intros m'' He'. eauto using stack_evolves_trans.
Qed.

(** What follows an application starts from a stack that evolved. *)
Lemma after_apply slot m (k : M -> outcome M) :
  (length (pending m.1) <= n)%nat -> (forall m', holds F (fun m'' => evolves m'.1 m''.1) (k m')) ->
  holds F (fun m' => evolves m.1 m'.1) (outcome_bind (ApplyPending run committed slot m) k).
Proof.
  intros Hn Hk. eapply holds_bind; [by apply ApplyPending_evolves|]. intros m' He.
  eapply holds_impl; [exact (fun f => f)| |apply Hk]. intros m'' He'. exact (stack_evolves_trans _ _ _ He He').
Qed.

Lemma on_stack_run_evolves G (f : MenuStack W -> outcome (MenuStack W)) m s :
  holds G (evolves s) (f m.1) -> holds G (fun m' : M => evolves s m'.1) (on_stack_run f m).
Proof. unfold on_stack_run. by destruct (f m.1). Qed.

Lemma empty_state_evolves slot m : evolves m.1 (set_state slot State_new m.1).
Proof. apply set_state_evolves. split; [done|by left]. Qed.

Lemma Pop_evolves slot m : (length (pending m.1) <= n)%nat -> holds F (fun m' => evolves m.1 m'.1) (Pop run committed slot m).
Proof.
  intros Hn. unfold Pop. destruct (_ || _); [apply stack_evolves_refl|]. apply after_apply; [done|]. intros m'.
  case_bool_decide; [done|]. case_bool_decide; [apply empty_state_evolves|]. apply on_stack_run_evolves, Rebuild_evolves.
Qed.

Lemma Clear_evolves slot m : (length (pending m.1) <= n)%nat -> holds F (fun m' => evolves m.1 m'.1) (Clear run committed slot m).
Proof.
  intros Hn. unfold Clear. destruct (negb _); [apply stack_evolves_refl|]. apply after_apply; [done|]. intros m'. apply empty_state_evolves.
Qed.

Lemma PopToRoot_evolves slot m : (length (pending m.1) <= n)%nat -> holds F (fun m' => evolves m.1 m'.1) (PopToRoot run committed slot m).
Proof.
  intros Hn. unfold PopToRoot. destruct (_ || _); [apply stack_evolves_refl|]. apply after_apply; [done|]. intros m'. apply on_stack_run_evolves, Rebuild_evolves.
Qed.

Lemma Describe_evolves slot index now m : evolves m.1 (Describe world getOr slot index now m).2.1.
Proof.
  unfold Describe. destruct (item_at m.1 slot index) as [[menu item]|] eqn:E; [|apply stack_evolves_refl]. cbn [snd].
  apply set_state_evolves. intros Hok. destruct (state_at_ok m.1 slot Hok) as [Hb _]. split; cbn; [done|right].
  exists menu. unfold item_at, Current in E. destruct (IsValidSlot slot); [|done]. destruct (last _) as [[top|]|]; cbn in E; [|done..].
  destruct (index <? 0); [done|]. destruct (Items top !! _) eqn:Ei; cbn in E; simplify_eq. split; [done|].
  rewrite length_insert. case_match eqn:El; [by apply Nat.eqb_eq|by rewrite length_replicate].
Qed.

Lemma stack_step_evolves st m :
  (length (pending m.1) <= n)%nat -> holds F (fun m' => evolves m.1 m'.1) (do_stack_step world getOr run committed st m).
Proof.
  intros Hn. destruct st; cbn [do_stack_step].
  - apply on_stack_run_evolves, Push_evolves.
  - by apply Pop_evolves.
  - by apply Clear_evolves.
  - apply SlotChanged_evolves.
  - apply Describe_evolves.
Qed.

Lemma stack_steps_evolve m :
  (length (pending m.1) <= n)%nat -> stack_relation world getOr run committed F (fun m1 m2 => evolves m1.1 m2.1) m.
Proof.
  intros Hn. split; eauto using stack_evolves_trans, stack_evolves_refl. intros m1 st He. apply stack_step_evolves.
  pose proof (evolves_pending _ _ He). lia.
Qed.

Lemma Activate_evolves slot index m :
  (length (pending m.1) <= n)%nat -> (forall m p, (length (pending m.1) <= n)%nat -> holds F (fun bm => evolves m.1 bm.2.1) (run p m)) ->
  holds F (fun m' => evolves m.1 m'.1) (Activate world run committed slot index m).
Proof.
  intros Hn Hp. unfold Activate. destruct (negb _); [apply stack_evolves_refl|].
  apply (holds_bind F (fun m' : M => evolves m.1 m'.1)).
  { destruct (IsPending _ _ _); [|by apply ApplyPending_evolves]. unfold Drop. cbn.
    case_match; [apply clear_entry_evolves|apply stack_evolves_refl]. }
  intros m' He. destruct (item_at _ _ _) as [[menu item]|]; [|exact He]. destruct (item_Activate item); [|exact He].
  destruct (IsRowActionable _ _ _); [|exact He]. pose proof (evolves_pending _ _ He). eapply holds_bind; [apply Hp; lia|].
  intros bm He'. exact (stack_evolves_trans _ _ _ He He').
Qed.

Lemma Hold_ok slot index commit m :
  0 <= index -> (length (pending m.1) <= n)%nat -> stack_ok m.1 -> holds F (fun m' => stack_ok m'.1) (Hold hasTimer run committed slot index commit m).
Proof.
  intros Hi Hn Hok. unfold Hold. destruct (IsValidSlot slot) eqn:Hs; [|done]. cbn [negb].
  apply (holds_bind F (fun m' : M => stack_ok m'.1)).
  { destruct (_ =? _); [done|]. eapply holds_impl; [exact (fun f => f)| |by apply ApplyPending_evolves].
    intros m' He. by apply He. }
  intros m' Hok'. by apply set_entry_ok.
Qed.

Lemma Step_ok slot index direction m :
  (length (pending m.1) <= n)%nat -> (forall m p, (length (pending m.1) <= n)%nat -> holds F (fun bm => evolves m.1 bm.2.1) (run p m)) ->
  stack_ok m.1 -> holds F (fun bm => stack_ok bm.2.1) (Step world hasTimer run committed slot index direction m).
Proof.
  intros Hn Hp Hok. unfold Step. destruct (item_at _ _ _) as [[menu item]|] eqn:Ei; [|done]. destruct (item_Step item); [|done].
  destruct (negb _); [done|]. eapply holds_bind; [by apply Hp|]. intros [b m'] He. cbn [fst snd] in He. pose proof (evolves_pending _ _ He).
  assert (stack_ok m'.1) as Hok' by by apply He.
  destruct b; [|done]. cbn [negb]. destruct (item_Commit item); [|done]. destruct (Current m'.1 slot); [|done]. destruct (_ =? _); [|done].
  eapply holds_bind; [apply Hold_ok; [|lia|done]|by intros].
  unfold item_at in Ei. destruct (Current _ _); [|done]. destruct (Z.ltb_spec index 0); [done|lia].
Qed.
End Given.

(** Deep enough for every held commit to run inside another, a callback's run ends and keeps the stack. *)
Lemma exec_evolves n : run_evolves False n (exec_run world set_world n) (exec_committed world set_world n).
Proof.
  induction n as [|n IH]; intros m Hm; [lia|].
  pose proof (fun m (Hm : (length (pending m.1) <= n)%nat) => stack_steps_evolve False n _ _ IH m Hm) as Hrel. split.
  - intros p. assert (length (pending m.1) <= n)%nat as Hn by lia. clear Hm. revert m Hn. unfold exec_run; cbn [exec].
    induction p as [b|f k IHk|c k IHk]; intros m Hn; cbn [run_program].
    + apply stack_evolves_refl.
    + apply (IHk _ (m.1, _)). exact Hn.
    + apply (holds_bind False (fun bm : bool * M => evolves m.1 bm.2.1)).
      { exact (surface_call_law world getOr _ _ False (fun m1 m2 => evolves m1.1 m2.1) m c (Hrel m Hn)). }
      intros [b m'] He. cbn [fst snd] in He |- *.
      pose proof (evolves_pending _ _ He). eapply holds_impl; [exact (fun f => f)| |apply IHk; lia].
      cbn. intros bm He'. eauto using stack_evolves_trans.
  - intros slot. unfold exec_committed; cbn [exec].
    apply (holds_bind False (fun bm : bool * M => evolves m.1 bm.2.1)); [|done].
    apply (holds_bind False (fun m' : M => evolves m.1 m'.1)); [|done].
    exact (surface_committed_law world getOr _ _ False (fun m1 m2 => evolves m1.1 m2.1) m slot (Hrel m ltac:(lia))).
Qed.

(** ** Everything that can happen to a stack *)

Inductive menu_event :=
| OnRun (p : program W)          (** code that calls the surface: a command, a chat prompt's answer *)
| OnOwn (f : X -> X)             (** the surface or the world moving on by itself *)
| OnActivate (slot index : Z)
| OnStep (slot index direction : Z)
| OnApplyPending (slot : Z)
| OnPop (slot : Z)
| OnClear (slot : Z)
| OnPopToRoot (slot : Z)
| OnTimer (slot : Z)
| OnDescribe (slot index now : Z).

(** One more than the slots: at most one commit is held in each. *)
Definition depth : nat := S (Z.to_nat MaxPlayers).

Definition on_event (m : M) (e : menu_event) : outcome M :=
  let run := exec_run world set_world depth in
  let committed := exec_committed world set_world depth in
  match e with
  | OnRun p => run! bm := run p m in Returns bm.2
  | OnOwn f => Returns (m.1, f m.2)
  | OnActivate slot index => Activate world run committed slot index m
  | OnStep slot index direction => run! bm := Step world hasTimer run committed slot index direction m in Returns bm.2
  | OnApplyPending slot => ApplyPending run committed slot m
  | OnPop slot => Pop run committed slot m
  | OnClear slot => Clear run committed slot m
  | OnPopToRoot slot => PopToRoot run committed slot m
  | OnTimer slot => TimerFired run committed slot m
  | OnDescribe slot index now => Returns (Describe world getOr slot index now m).2
  end.

Lemma pending_bound (s : MenuStack W) : stack_ok s -> (length (pending s) < depth)%nat.
Proof.
  intros [_ Hw _ _ _]. unfold PerSlot_wf in Hw. unfold depth. rewrite <- Hw. unfold pending.
  clear Hw. induction (entries s) as [|e l IH]; cbn; [lia|]. destruct (Commit e) as [[]|]; cbn; lia.
Qed.

Abbreviation run := (exec_run world set_world depth).
Abbreviation committed := (exec_committed world set_world depth).

Lemma run_evolves_depth : run_evolves False depth run committed.
Proof. apply exec_evolves. Qed.

Lemma run_ok m p : stack_ok m.1 -> holds False (fun bm => evolves m.1 bm.2.1) (run p m).
Proof. intros Hok. by apply run_evolves_depth, pending_bound. Qed.

Lemma run_relation m : stack_ok m.1 -> stack_relation world getOr run committed False (fun m1 m2 => evolves m1.1 m2.1) m.
Proof. intros Hok. apply (stack_steps_evolve False depth); [apply run_evolves_depth|]. by apply Nat.lt_le_incl, pending_bound. Qed.

Lemma pending_depth (s : MenuStack W) : stack_ok s -> (length (pending s) <= Z.to_nat MaxPlayers)%nat.
Proof. intros Hok%pending_bound. unfold depth in Hok. lia. Qed.

Lemma evolves_keeps (s : MenuStack W) (o : outcome M) : stack_ok s -> holds False (fun m' => evolves s m'.1) o -> holds False (fun m' => stack_ok m'.1) o.
Proof. intros Hok. apply holds_impl; [done|]. intros m' He. by apply He. Qed.

Lemma ApplyPending_keeps slot m : stack_ok m.1 -> holds False (fun m' => evolves m.1 m'.1) (ApplyPending run committed slot m).
Proof. intros Hok. eapply ApplyPending_evolves; [apply run_evolves_depth|]. by apply Nat.lt_le_incl, pending_bound. Qed.

Lemma run_shallow m p : (length (pending m.1) <= Z.to_nat MaxPlayers)%nat -> holds False (fun bm => evolves m.1 bm.2.1) (run p m).
Proof. intros Hm. apply run_evolves_depth. unfold depth. lia. Qed.

Lemma run_evolves_slots : run_evolves False (Z.to_nat MaxPlayers) run committed.
Proof. intros m Hm. apply run_evolves_depth. unfold depth. lia. Qed.

Lemma Step_keeps slot index direction m : stack_ok m.1 -> holds False (fun bm => stack_ok bm.2.1) (Step world hasTimer run committed slot index direction m).
Proof. intros Hok. eapply Step_ok; [apply run_evolves_slots|by apply pending_depth|exact run_shallow|done]. Qed.

Lemma on_event_ok m e : stack_ok m.1 -> holds False (fun m' => stack_ok m'.1) (on_event m e).
Proof.
  intros Hok. pose proof run_evolves_slots as Hrun. pose proof run_shallow as Hp. pose proof (pending_depth _ Hok) as Hd.
  assert ((exists slot index direction, e = OnStep slot index direction) \/ ~ exists slot index direction, e = OnStep slot index direction)
    as [(slot & index & direction & ->)|Hstep] by (destruct e; first [by left; eauto|right; by intros (? & ? & ? & ?)]).
  { cbn [on_event]. eapply holds_bind; [by apply Step_keeps|]. by intros bm. }
  apply (evolves_keeps m.1 _ Hok). destruct e; cbn [on_event]; try (by eauto using Pop_evolves, Clear_evolves, PopToRoot_evolves, ApplyPending_evolves).
  - eapply holds_bind; [by apply run_ok|]. intros bm He. exact He.
  - by eapply Activate_evolves.
  - exfalso. eauto.
  - unfold TimerFired. destruct (Armed _); [by eapply ApplyPending_evolves|apply stack_evolves_refl].
  - apply Describe_evolves.
Qed.


(** ** Leaving a row *)

Lemma ApplyPending_applies slot m id commit :
  stack_ok m.1 -> IsValidSlot slot = true -> Commit (entry_at m.1 slot) = Some (id, commit) ->
  holds False (fun m' => fates m.1 ++ [(id, Applied)] `prefix_of` fates m'.1) (ApplyPending run committed slot m).
Proof.
  intros Hok Hs E. unfold ApplyPending. rewrite Hs, E. cbn [negb]. set (m1 := on_stack (clear_entry slot Applied) m).
  assert (fates m1.1 = fates m.1 ++ [(id, Applied)]) as Ef by (cbn; by rewrite E). rewrite <- Ef.
  assert (stack_ok m1.1) as Hok1 by by apply clear_entry_ok.
  eapply holds_bind; [by apply run_ok|]. intros [b m'] He. cbn [fst snd] in He |- *.
  eapply holds_impl; [exact (fun f => f)| |apply run_evolves_depth, pending_bound, (evolves_ok _ _ He), Hok1].
  cbn. intros m'' He'. etrans; [apply (evolves_fates _ _ He)|apply (evolves_fates _ _ He')].
Qed.

(** The ways out of row [index] of [slot] that are not a step. *)
Definition leaves (m : M) (slot index : Z) (e : menu_event) : bool :=
  match e with
  | OnApplyPending slot' | OnClear slot' => slot' =? slot
  | OnPop slot' | OnPopToRoot slot' => (slot' =? slot) && negb (bool_decide (Menus (state_at m.1 slot) = []))
  | OnActivate slot' index' => (slot' =? slot) && negb (index' =? index)
  | OnTimer slot' => (slot' =? slot) && Armed (entry_at m.1 slot)
  | _ => false
  end.

Lemma leaves_start m slot e :
  IsValidSlot slot = true -> leaves m slot (Index (entry_at m.1 slot)) e = true ->
  exists k, on_event m e = (run! m' := ApplyPending run committed slot m in k m') /\
    forall m', stack_ok m'.1 -> holds False (fun m'' => evolves m'.1 m''.1) (k m').
Proof.
  intros Hs Hl. destruct e; cbn [leaves] in Hl; try discriminate;
    rewrite ?andb_true_iff, ?negb_true_iff, ?Z.eqb_eq, ?Z.eqb_neq, ?bool_decide_eq_false in Hl; destruct_and?; subst; cbn [on_event].
  - unfold Activate, IsPending, PendingIndex. rewrite Hs. cbn [negb].
    destruct (Z.eqb_spec (Index (entry_at m.1 slot)) index) as [E|E]; [congruence|]. rewrite andb_false_r. eexists. split; [done|].
    intros m' Hok. cbn beta. destruct (item_at _ _ _) as [[menu item]|]; [|apply stack_evolves_refl]. destruct (item_Activate item); [|apply stack_evolves_refl].
    destruct (IsRowActionable _ _ _); [|apply stack_evolves_refl]. eapply holds_bind; [by apply run_ok|]. intros bm He. exact He.
  - eexists (fun m => Returns m). split; [by destruct (ApplyPending _ _ _ _)|]. intros m' _. apply stack_evolves_refl.
  - unfold Pop. rewrite Hs, bool_decide_eq_false_2 by done. cbn [negb orb]. eexists. split; [done|]. intros m' _. cbn beta.
    case_bool_decide; [done|]. case_bool_decide; [apply empty_state_evolves|]. apply on_stack_run_evolves, Rebuild_evolves.
  - unfold Clear. rewrite Hs. cbn [negb]. eexists. split; [done|]. intros m' _. apply empty_state_evolves.
  - unfold PopToRoot. rewrite Hs, bool_decide_eq_false_2 by done. cbn [negb orb]. eexists. split; [done|]. intros m' _. apply on_stack_run_evolves, Rebuild_evolves.
  - unfold TimerFired. match goal with E : Armed _ = true |- _ => rewrite E end.
    eexists (fun m => Returns m). split; [by destruct (ApplyPending _ _ _ _)|]. intros m' _. apply stack_evolves_refl.
Qed.

(** A value the player picked and saw is a value they asked for: closing its menu, clearing or unwinding the stack,
    pressing another row, applying it or letting its delay run out runs the held commit, once, before anything else
    the operation does and with the menus still as they were. *)
Theorem row_left_applies m slot id commit e :
  stack_ok m.1 -> IsValidSlot slot = true -> Commit (entry_at m.1 slot) = Some (id, commit) ->
  leaves m slot (Index (entry_at m.1 slot)) e = true ->
  holds False (fun m' => fates m.1 ++ [(id, Applied)] `prefix_of` fates m'.1) (on_event m e) /\
  exists k, on_event m e = (run! bm := run commit (on_stack (clear_entry slot Applied) m) in k bm).
Proof.
  intros Hok Hs E Hl. destruct (leaves_start m slot e Hs Hl) as (k & -> & Hk). split.
  - pose proof (ApplyPending_keeps slot m Hok) as Hev. pose proof (ApplyPending_applies slot m id commit Hok Hs E) as Ha.
    destruct (ApplyPending _ _ _ _) as [m'| |]; cbn [holds outcome_bind] in *; [|done..].
    eapply holds_impl; [exact (fun f => f)| |apply Hk, (evolves_ok _ _ Hev), Hok]. cbn. intros m'' He. etrans; [exact Ha|apply He].
  - unfold ApplyPending. rewrite Hs, E. cbn [negb].
    exists (fun bm => run! m' := committed slot bm.2 in k m'). by destruct (run commit _).
Qed.

(** A step the row consumes, of a row that commits, holds its commit in place of whatever the slot held, and arms
    its delay: a burst on one row only starts the wait again, and what another row held is applied. *)
Theorem step_holds_commit slot index direction m m1 menu item step commit now :
  stack_ok m.1 -> item_at m.1 slot index = Some (menu, item) -> item_Step item = Some step ->
  describes_enabled item (world m.2) slot = true -> run (step slot direction) m = Returns (true, m1) ->
  item_Commit item = Some commit -> Current m1.1 slot = Some now -> MenuId now = MenuId menu ->
  holds False (fun bm =>
    bm.1 = true /\
    (exists id, entry_at bm.2.1 slot = mkEntry index (Some (id, commit slot)) hasTimer /\ S id = held bm.2.1) /\
    forall id c, Commit (entry_at m1.1 slot) = Some (id, c) ->
      In (id, if Index (entry_at m1.1 slot) =? index then Restarted else Applied) (fates bm.2.1))
    (Step world hasTimer run committed slot index direction m).
Proof.
  intros Hok Hitem Hstep Hen Hrun1 Hcommit Hnow Hid. unfold Step. rewrite Hitem, Hstep, Hen. cbn [negb]. rewrite Hrun1. cbn [outcome_bind negb].
  rewrite Hcommit, Hnow, Hid, Z.eqb_refl.
  assert (IsValidSlot slot = true) as Hs by (unfold Current in Hnow; by destruct (IsValidSlot slot)).
  assert (stack_ok m1.1) as Hok1.
  { pose proof (run_ok m (step slot direction) Hok) as He. rewrite Hrun1 in He. by apply He. }
  unfold Hold. rewrite Hs. cbn [negb].
  assert (forall m2 : M, stack_ok m2.1 ->
    exists id, entry_at (set_entry slot index (commit slot) hasTimer m2.1) slot = mkEntry index (Some (id, commit slot)) hasTimer /\
      S id = held (set_entry slot index (commit slot) hasTimer m2.1)) as Hset.
  { intros m2 Hok2. exists (held m2.1). split; [|done]. unfold set_entry, entry_at. cbn [entries].
    destruct (get_valid (entries (clear_entry slot Restarted m2.1)) slot (ok_entries_wf _ (clear_entry_ok slot Restarted _ Hok2)) Hs) as [e He].
    apply PerSlot_get_in in He as [_ He]. unfold PerSlot_set, PerSlot_get. rewrite Hs. by rewrite list_lookup_insert_eq by (by eapply lookup_lt_Some). }
  destruct (Z.eqb_spec (Index (entry_at m1.1 slot)) index) as [Ei|Ei]; cbn [outcome_bind].
  - cbn [holds fst snd on_stack]. split_and!; [done|by apply Hset|]. intros id c Ec. cbn. rewrite Ec. apply in_or_app. right. by left.
  - eapply holds_bind; [|intros m' H'; exact H']. eapply holds_bind.
    { instantiate (1 := fun m2 => stack_ok m2.1 /\ forall id c, Commit (entry_at m1.1 slot) = Some (id, c) -> In (id, Applied) (fates m2.1)).
      pose proof (ApplyPending_keeps slot m1 Hok1) as Hev.
      destruct (Commit (entry_at m1.1 slot)) as [[id c]|] eqn:Ec.
      - pose proof (ApplyPending_applies slot m1 id c Hok1 Hs Ec) as Ha.
        destruct (ApplyPending _ _ _ _) as [m2| |]; cbn [holds] in *; [|done..]. split; [by apply Hev|]. intros ? ? [= <- <-].
        destruct Ha as [rest ->]. apply in_or_app. left. apply in_or_app. right. by left.
      - destruct (ApplyPending _ _ _ _) as [m2| |]; cbn [holds] in *; [|done..]. split; [by apply Hev|done]. }
    intros m2 [Hok2 Hin]. cbn [holds fst snd on_stack]. split_and!; [done|by apply Hset|].
    intros id c Ec. cbn. apply in_or_app. left. by eapply Hin.
Qed.
End Runs.

(** ** A bare surface

    It draws nothing and keeps no session of its own: each call is the stack's operation. The world is a log. *)
Section Bare.
Context {W X : Type} (world : X -> W) (getOr : text -> Z -> text -> text).

Definition bare_call (run : program W -> MenuStack W * X -> outcome (bool * (MenuStack W * X))) (committed : Z -> MenuStack W * X -> outcome (MenuStack W * X))
    (c : call W (program W)) (m : MenuStack W * X) : outcome (bool * (MenuStack W * X)) :=
  let step st := run! m := do_stack_step world getOr run committed st m in Returns (true, m) in
  match c with
  | CallOpenSession slot menu _ =>
      run! m := do_stack_step world getOr run committed (StClear slot) m in
      run! m := do_stack_step world getOr run committed (StPush slot menu) m in Returns (true, m)
  | CallOpen slot menu => step (StPush slot menu)
  | CallIsOpen slot => Returns (IsOpen m.1 slot, m)
  | CallClose slot => step (StPop slot)
  | CallCloseAll slot | CallCloseAllReply slot _ => step (StClear slot)
  | CallPrompt _ _ _ => Returns (true, m)
  | CallSlotChanged slot => step (StSlotChanged slot)
  end.

Definition bare : Surface W X := {|
  surface_call := bare_call;
  surface_committed := fun _ _ _ m => Returns m |}.

Lemma bare_laws : @SurfaceLaws W X world getOr bare.
Proof.
  split; [|by intros run committed F I m slot [Htrans Hown Hstep]; destruct m; apply (Hown (_, _))].
  intros run committed F I m c [Htrans Hown Hstep].
  assert (I m m) as Hrefl by (destruct m as [s x]; apply (Hown (s, x) x)).
  destruct c; cbn [surface_call bare bare_call]; try exact Hrefl;
    try (eapply holds_bind; [by apply Hstep|intros m1 H1; exact H1]).
  eapply holds_bind; [by apply Hstep|]. intros m1 H1. eapply holds_bind; [by apply Hstep|]. intros m2 H2.
  exact (Htrans _ _ _ H1 H2).
Qed.
End Bare.

(** ** Samples *)

Abbreviation log := (list Z).
Abbreviation sample_event := (@menu_event log log).

Definition sample_world (l : log) : log := l.
Definition sample_set (l _ : log) : log := l.
Definition sample_getOr (_ : text) (_ : Z) (fallback : text) : text := fallback.
#[local] Instance sample_surface : Surface log log := bare sample_world sample_getOr.
#[local] Instance sample_laws : SurfaceLaws sample_world sample_getOr := bare_laws sample_world sample_getOr.

Definition note (n : Z) (p : program log) : program log := DoWorld (fun l => l ++ [n]) (fun _ => p).

Definition live_row (name : text) : log -> Z -> MenuRow := fun _ _ => mkRow name [] RowChoice true true true None [] false false.

(** A row that logs each step and logs its commit. *)
Definition choice_row (n : Z) (after : program log) : ItemOf log :=
  mkItem (Some (live_row $"row")) (Some (fun _ => note (n + 2) (Done true))) (Some (fun _ _ => note n (Done true)))
    (Some (fun _ => note (n + 1) after)).

Definition sample_menu (after : program log) : MenuOf log := mkMenu 1 $"Main" [] [choice_row 10 after; choice_row 20 after].
Definition other_menu : MenuOf log := mkMenu 2 $"Other" [] [choice_row 30 (Done true)].

Definition sample_run (evs : list sample_event) : outcome (MenuStack log * log) :=
  outcome_fold (on_event sample_world sample_set sample_getOr true) evs (MenuStack_new, []).

Definition opened (after : program log) : sample_event := OnRun (DoCall (CallOpen 3 (Some (sample_menu after))) Done).

(** Two steps of a row are one commit. *)
Example burst_commits_once :
  (run! m := sample_run [opened (Done true); OnStep 3 0 1; OnStep 3 0 1; OnTimer 3] in Returns (m.2, fates m.1)) =
  Returns ([10; 10; 11], [(O, Restarted); (1%nat, Applied)]).
Proof. by vm_compute. Qed.

(** A commit that closes its menu takes the ground from under the pop that ran it: [pop_back] on an empty vector. *)
Example Pop_after_a_closing_commit :
  sample_run [opened (DoCall (CallCloseAll 3) Done); OnStep 3 0 1; OnPop 3] = Undefined.
Proof. by vm_compute. Qed.

(** And leaves the unwound stack with a null root, which counts as open. *)
Example PopToRoot_after_a_closing_commit :
  (run! m := sample_run [opened (DoCall (CallCloseAll 3) Done); OnStep 3 0 1; OnPopToRoot 3] in
   Returns (IsOpen m.1 3, bool_decide (is_Some (option_map MenuId (Current m.1 3))))) = Returns (true, false).
Proof. by vm_compute. Qed.

(** Pushing a menu leaves what the one below holds under its row's index, where a press on the new menu's row drops it
    unrun. *)
Example pushed_menu_drops_a_commit :
  (run! m := sample_run [opened (Done true); OnStep 3 0 1; OnRun (DoCall (CallOpen 3 (Some other_menu)) Done); OnActivate 3 0] in
   Returns (m.2, fates m.1)) = Returns ([10; 32], [(O, Dropped)]).
Proof. by vm_compute. Qed.

(** A commit that gives the slot away does not stop the step that ran it from holding its own. *)
Example held_for_the_next_occupant :
  (run! m := sample_run [opened (DoCall (CallSlotChanged 3) Done); OnStep 3 0 1; OnStep 3 1 1; OnTimer 3] in Returns (m.2, IsOpen m.1 3)) =
  Returns ([10; 20; 11; 21], false).
Proof. by vm_compute. Qed.

(** A value that is empty when its row first draws is not remembered as drawn, so the first one that shows does not
    flash, though it moved under a row already on screen. *)
Definition value_row : ItemOf log :=
  mkItem (Some (fun l _ => mkRow $"row" (if bool_decide (l = []) then [] else $"typed") RowInput true true false None [] false false)) None None None.

Example first_value_does_not_flash :
  (run! m := sample_run [OnRun (DoCall (CallOpen 3 (Some (mkMenu 1 [] [] [value_row]))) Done); OnDescribe 3 0 1000; OnRun (note 1 (Done true))] in
   let row := (Describe sample_world sample_getOr 3 0 2000 m).1 in Returns (Value row, Changed row)) = Returns ($"typed", false).
Proof. by vm_compute. Qed.


Definition ready (after : program log) : MenuStack log * log :=
  match sample_run [opened after; OnStep 3 0 1] with Returns m => m | _ => (MenuStack_new, []) end.

Lemma ready_ok after : stack_ok (ready after).1.
Proof.
  unfold ready.
  pose proof (holds_fold False (fun m : MenuStack log * log => stack_ok m.1) (on_event sample_world sample_set sample_getOr true)
    [opened after; OnStep 3 0 1] (MenuStack_new, []) stack_ok_new (fun m e Hok => on_event_ok _ _ _ _ m e Hok)) as H.
  unfold sample_run. destruct (outcome_fold _ _ _); [exact H|apply stack_ok_new..].
Qed.

Lemma row_left_applies_witness :
  exists commit, Commit (entry_at (ready (Done true)).1 3) = Some (O, commit) /\
    holds False (fun m' => [(O, Applied)] `prefix_of` fates m'.1)
      (on_event sample_world sample_set sample_getOr true (ready (Done true)) (OnPop 3)).
Proof.
  eexists. split; [by vm_compute|].
  apply (row_left_applies sample_world sample_set sample_getOr true (ready (Done true)) 3 O (note 11 (Done true)) (OnPop 3)).
  - apply ready_ok.
  - reflexivity.
  - by vm_compute.
  - by vm_compute.
Defined.

Lemma step_holds_commit_witness :
  let m := ready (Done true) in
  holds False (fun bm => bm.1 = true /\ exists id commit, entry_at bm.2.1 3 = mkEntry 1 (Some (id, commit)) true)
    (Step sample_world true (exec_run sample_world sample_set depth) (exec_committed sample_world sample_set depth) 3 1 1 m).
Proof.
  intros m. eapply holds_impl; [exact (fun f => f)| |].
  2: { apply (step_holds_commit sample_world sample_set sample_getOr true 3 1 1 m (m.1, sample_world m.2 ++ [20]) (sample_menu (Done true))
         (choice_row 20 (Done true)) (fun _ _ => note 20 (Done true)) (fun _ => note 21 (Done true)) (sample_menu (Done true))).
       - apply ready_ok.
       - by vm_compute.
       - reflexivity.
       - by vm_compute.
       - by vm_compute.
       - reflexivity.
       - by vm_compute.
       - reflexivity. }
  intros bm (Hb & (id & He & _) & _). split; [exact Hb|]. exists id. eexists. exact He.
Defined.
