(* ===== verification/MenuFreeze.v ===== *)
(** * Freezing players in menus: [Menu/MenuFreeze.cpp], [Entities/MovementFreeze.cpp]

    A hold takes a pawn's move type and gives it back to that pawn only. *)
From S2P Require Import Prelude Identity.

Definition MOVETYPE_NONE : Z := 0.
Definition MOVETYPE_WALK : Z := 2.

(** What [Entities.Pawn(slot)] reads of a pawn. [Own] is the move type the engine gave it, which nothing here reads. *)
Record Pawn := mkPawn { Ref : Z; IsAlive : bool; MoveType : Z; Own : Z }.

Definition SetMoveType (t : Z) (p : Pawn) : Pawn := mkPawn (Ref p) (IsAlive p) t (Own p).

(** An unset [EntityRef] is [None]. *)
Record MovementFreeze := mkMovement { pawn : option Z; prev : Z }.
Definition MovementFreeze_new : MovementFreeze := mkMovement None MOVETYPE_WALK.

Definition Movement_Hold (p : option Pawn) (f : MovementFreeze) : option Pawn * MovementFreeze :=
  match pawn f, p with
  | None, Some q => if IsAlive q then (Some (SetMoveType MOVETYPE_NONE q), mkMovement (Some (Ref q)) (MoveType q)) else (p, f)
  | _, _ => (p, f)
  end.

Definition Movement_Release (p : option Pawn) (f : MovementFreeze) : option Pawn * MovementFreeze :=
  match pawn f with
  | None => (p, f)
  | Some held =>
      (match p with Some q => if Ref q =? held then Some (SetMoveType (prev f) q) else p | None => None end, mkMovement None (prev f))
  end.

Definition Movement_Sync (p : option Pawn) (f : MovementFreeze) : option Pawn * MovementFreeze :=
  let stale := match pawn f, p with
    | Some held, Some q => negb (IsAlive q) || negb (Ref q =? held)
    | Some _, None => true
    | None, _ => false
    end in
  Movement_Hold p (if stale then mkMovement None (prev f) else f).

(** ** The menus' freeze *)

Record FreezeState := mkFreezeState { Requested : bool; Movement : MovementFreeze }.
Definition FreezeState_new : FreezeState := mkFreezeState false MovementFreeze_new.

(** The states of the slots, beside the pawn each slot has now. *)
Record MenuFreeze := mkFreeze {
  enabled : bool;
  freeze_states : PerSlot (FreezeState * option Pawn);
  onFrame : bool }.

Definition MenuFreeze_new : MenuFreeze := mkFreeze false (PerSlot_new (FreezeState_new, None)) false.

Definition move (f : option Pawn -> MovementFreeze -> option Pawn * MovementFreeze) (s : FreezeState * option Pawn) : FreezeState * option Pawn :=
  let '(p, m) := f s.2 (Movement s.1) in (mkFreezeState (Requested s.1) m, p).

Definition with_states (f : PerSlot (FreezeState * option Pawn) -> PerSlot (FreezeState * option Pawn)) (z : MenuFreeze) : MenuFreeze :=
  mkFreeze (enabled z) (f (freeze_states z)) (onFrame z).

Definition at_slot (slot : Z) (f : FreezeState * option Pawn -> FreezeState * option Pawn) (z : MenuFreeze) : MenuFreeze :=
  with_states (alter f (Z.to_nat slot)) z.

Definition SyncFrameWork (z : MenuFreeze) : MenuFreeze :=
  let wanted := enabled z && existsb (fun s => Requested s.1) (freeze_states z) in
  mkFreeze (enabled z) (freeze_states z) wanted.

Definition Enable (on : bool) (z : MenuFreeze) : MenuFreeze :=
  let z := mkFreeze on (freeze_states z) (onFrame z) in
  SyncFrameWork (if on then z else with_states (map (move Movement_Release)) z).

Definition request (requested : bool) (s : FreezeState * option Pawn) : FreezeState * option Pawn :=
  (mkFreezeState requested (Movement s.1), s.2).

Definition Freeze_Open (slot : Z) (requested : bool) (z : MenuFreeze) : MenuFreeze :=
  if negb (IsValidSlot slot) then z
  else
    let z := at_slot slot (request requested) z in
    SyncFrameWork (if enabled z && requested then at_slot slot (move Movement_Hold) z else z).

Definition Freeze_Close (slot : Z) (z : MenuFreeze) : MenuFreeze :=
  if negb (IsValidSlot slot) then z else SyncFrameWork (at_slot slot (fun s => move Movement_Release (request false s)) z).

(** The frame callback, which is there only while [_onFrame] is. *)
Definition Freeze_OnGameFrame (z : MenuFreeze) : MenuFreeze :=
  if onFrame z then with_states (map (fun s => if Requested s.1 then move Movement_Sync s else s)) z else z.

(** ** What happens to it *)

(** [Spawns] is the engine putting a live pawn in the slot, [Dies] the death of the one there. A slot that changes
    hands loses its state and its pawn. *)
Inductive freeze_event :=
| Enables (on : bool)
| Opens (slot : Z) (requested : bool)
| Closes (slot : Z)
| Frame
| SlotChanges (slot : Z)
| Spawns (slot ref own : Z)
| Dies (slot : Z).

(** A pawn is seen dead by a frame before it lives again, so a slot never gets the pawn it holds anew. *)
Definition spawn (ref own : Z) (s : FreezeState * option Pawn) : FreezeState * option Pawn :=
  if bool_decide (pawn (Movement s.1) = Some ref) then s else (s.1, Some (mkPawn ref true own own)).

Definition die (s : FreezeState * option Pawn) : FreezeState * option Pawn :=
  (s.1, option_map (fun p => mkPawn (Ref p) false (MoveType p) (Own p)) s.2).

Definition on_freeze_event (z : MenuFreeze) (e : freeze_event) : MenuFreeze :=
  match e with
  | Enables on => Enable on z
  | Opens slot requested => Freeze_Open slot requested z
  | Closes slot => Freeze_Close slot z
  | Frame => Freeze_OnGameFrame z
  | SlotChanges slot => with_states (fun l => PerSlot_Reset (FreezeState_new, None) l slot) z
  | Spawns slot ref own => at_slot slot (spawn ref own) z
  | Dies slot => at_slot slot die z
  end.

(** ** Correctness *)

(** A live pawn is held, frozen and its type remembered, or moves as the engine meant. *)
Definition slot_ok (s : FreezeState * option Pawn) : Prop :=
  match s.2 with
  | Some p => IsAlive p = true ->
      (pawn (Movement s.1) = Some (Ref p) /\ MoveType p = MOVETYPE_NONE /\ prev (Movement s.1) = Own p) \/
      (pawn (Movement s.1) <> Some (Ref p) /\ MoveType p = Own p)
  | None => True
  end.

Definition own_movement (s : FreezeState * option Pawn) : Prop :=
  forall p, s.2 = Some p -> IsAlive p = true -> MoveType p = Own p.

Definition held_still (s : FreezeState * option Pawn) : Prop :=
  forall p, s.2 = Some p -> IsAlive p = true -> MoveType p = MOVETYPE_NONE /\ pawn (Movement s.1) = Some (Ref p).

(** The frame callback is there whenever it is wanted. *)
Definition freeze_ok (z : MenuFreeze) : Prop :=
  PerSlot_wf (freeze_states z) /\ Forall slot_ok (freeze_states z) /\
  (enabled z = true -> Exists (fun s => Requested s.1 = true) (freeze_states z) -> onFrame z = true).

Ltac pawns :=
  cbn; repeat (match goal with |- context [?a =? ?b] => destruct (Z.eqb_spec a b) end; cbn); naive_solver.

Lemma Hold_slot_ok s : slot_ok s -> slot_ok (move Movement_Hold s).
Proof. destruct s as [[r [[held|] prv]] [[ref [] t own]|]]; unfold slot_ok, move, Movement_Hold; pawns. Qed.

Lemma Release_slot_ok s : slot_ok s -> slot_ok (move Movement_Release s) /\ own_movement (move Movement_Release s) /\ pawn (Movement (move Movement_Release s).1) = None.
Proof. destruct s as [[r [[held|] prv]] [[ref [] t own]|]]; unfold slot_ok, own_movement, move, Movement_Release; pawns. Qed.

Lemma Sync_slot_ok s : slot_ok s -> slot_ok (move Movement_Sync s) /\ held_still (move Movement_Sync s).
Proof. destruct s as [[r [[held|] prv]] [[ref [] t own]|]]; unfold slot_ok, held_still, move, Movement_Sync, Movement_Hold; pawns. Qed.

Lemma spawn_slot_ok ref own s : slot_ok s -> slot_ok (spawn ref own s).
Proof. unfold slot_ok, spawn. destruct s as [st p]. case_bool_decide; cbn; naive_solver. Qed.

Lemma die_slot_ok s : slot_ok s -> slot_ok (die s).
Proof. destruct s as [st [p|]]; unfold slot_ok, die; cbn; [discriminate|done]. Qed.

Lemma request_slot_ok b s : slot_ok (request b s) <-> slot_ok s.
Proof. done. Qed.

(** ** Events *)

Lemma SyncFrameWork_ok z :
  PerSlot_wf (freeze_states z) -> Forall slot_ok (freeze_states z) -> freeze_ok (SyncFrameWork z).
Proof.
  intros Hw Hs. split_and!; [done|done|]. cbn. intros -> Hex. cbn. apply existsb_exists. apply Exists_exists in Hex as (s & Hin & Hr).
  exists s. split; [by apply list_elem_of_In|done].
Qed.

Lemma alter_wf {A} (f : A -> A) i (l : PerSlot A) : PerSlot_wf l -> PerSlot_wf (alter f i l).
Proof. unfold PerSlot_wf. by rewrite length_alter. Qed.

Lemma map_wf {A} (f : A -> A) (l : PerSlot A) : PerSlot_wf l -> PerSlot_wf (map f l).
Proof. unfold PerSlot_wf. by rewrite length_map. Qed.

Lemma Forall_alter_id {A} (P : A -> Prop) (f : A -> A) i l : (forall x, P x -> P (f x)) -> Forall P l -> Forall P (alter f i l).
Proof. intros Hf Hl. apply Forall_alter; [done|]. intros x Hx Hp. by apply Hf. Qed.

Lemma Forall_map_id {A} (P Q : A -> Prop) (f : A -> A) l : (forall x, P x -> Q (f x)) -> Forall P l -> Forall Q (map f l).
Proof. intros Hf. induction 1; cbn; auto. Qed.

(** An event that only changes pawns or drops a request leaves the frame callback wanted no more than it was. *)
Lemma keeps_frame z l :
  freeze_ok z -> PerSlot_wf l -> Forall slot_ok l ->
  (Exists (fun s => Requested s.1 = true) l -> Exists (fun s => Requested s.1 = true) (freeze_states z)) ->
  freeze_ok (mkFreeze (enabled z) l (onFrame z)).
Proof. intros (_ & _ & Hf) Hw Hs Hr. split_and!; cbn; auto. Qed.

Lemma Exists_alter {A} (P : A -> Prop) (f : A -> A) i l : (forall x, P (f x) -> P x) -> Exists P (alter f i l) -> Exists P l.
Proof.
  intros Hf. rewrite !Exists_exists. intros (x & (j & Hj)%list_elem_of_lookup & Hp).
  destruct (decide (i = j)) as [->|Hne].
  - rewrite list_lookup_alter_eq in Hj. destruct (l !! j) as [y|] eqn:E; cbn in Hj; [|done]. simplify_eq.
    exists y. split; [by eapply list_elem_of_lookup_2|auto].
  - rewrite list_lookup_alter_ne in Hj by done. exists x. split; [by eapply list_elem_of_lookup_2|done].
Qed.

Lemma on_freeze_event_ok z e : freeze_ok z -> freeze_ok (on_freeze_event z e).
Proof.
  intros Hok. pose proof Hok as (Hw & Hs & Hf). destruct e; cbn [on_freeze_event].
  - unfold Enable. destruct on; apply SyncFrameWork_ok; cbn; auto using map_wf.
    eapply Forall_map_id; [|done]. intros s H. by apply Release_slot_ok.
  - unfold Freeze_Open. destruct (negb _); [done|]. apply SyncFrameWork_ok; destruct (_ && _); cbn; auto using alter_wf.
    + apply Forall_alter_id; [apply Hold_slot_ok|]. by apply Forall_alter_id.
    + by apply Forall_alter_id.
  - unfold Freeze_Close. destruct (negb _); [done|]. apply SyncFrameWork_ok; cbn; [by apply alter_wf|].
    apply Forall_alter_id; [|done]. intros s H. by apply Release_slot_ok.
  - unfold Freeze_OnGameFrame. destruct (onFrame z) eqn:E; [|done]. split_and!; cbn; [by apply map_wf| |by rewrite E].
    eapply Forall_map_id; [|done]. intros s H. destruct (Requested s.1); [by apply Sync_slot_ok|done].
  - apply keeps_frame; [done|by apply PerSlot_Reset_wf| |]; unfold PerSlot_Reset; case_match; auto.
    + by apply Forall_insert.
    + rewrite list_insert_alter. apply Exists_alter. by intros x.
  - apply keeps_frame; [done|by apply alter_wf|apply Forall_alter_id; auto using spawn_slot_ok|].
    apply Exists_alter. intros s. unfold spawn. by case_bool_decide.
  - apply keeps_frame; [done|by apply alter_wf|apply Forall_alter_id; auto using die_slot_ok|]. apply Exists_alter. by intros s.
Qed.

Lemma events_ok evs : freeze_ok (fold_left on_freeze_event evs MenuFreeze_new).
Proof.
  assert (freeze_ok MenuFreeze_new) as H by (split_and!; [apply PerSlot_new_wf|by apply Forall_replicate|done]).
  revert H. generalize MenuFreeze_new. induction evs as [|e evs IH]; intros z H; cbn [fold_left]; [done|]. by apply IH, on_freeze_event_ok.
Qed.

(** [slot]'s state and pawn. *)
Definition freeze_at (z : MenuFreeze) (slot : Z) : FreezeState * option Pawn := default (FreezeState_new, None) ((freeze_states z : list (FreezeState * option Pawn)) !! Z.to_nat slot).

(** Whether [slot]'s session asked to be frozen. *)
Definition requested (z : MenuFreeze) (slot : Z) : bool := Requested (freeze_at z slot).1.

Lemma freeze_at_alter z slot slot' f b w :
  freeze_ok z -> IsValidSlot slot = true -> IsValidSlot slot' = true ->
  freeze_at (mkFreeze b (alter f (Z.to_nat slot) (freeze_states z)) w) slot' = if slot =? slot' then f (freeze_at z slot') else freeze_at z slot'.
Proof.
  intros (Hw & _) Hs Hs'. unfold freeze_at; cbn. unfold PerSlot_wf, IsValidSlot in *. bools. destruct (Z.eqb_spec slot slot') as [->|Hne].
  - rewrite list_lookup_alter_eq. destruct ((freeze_states z : list (FreezeState * option Pawn)) !! Z.to_nat slot') eqn:E; [done|].
    apply lookup_ge_None_1 in E. lia.
  - by rewrite list_lookup_alter_ne by lia.
Qed.

Lemma alter_twice {A} (f g : A -> A) (i : nat) (l : list A) : alter f i (alter g i l) = alter (f ∘ g) i l.
Proof. revert i. induction l as [|x l IH]; intros [|i]; cbn; [done..|]. f_equal. apply IH. Qed.

Lemma requested_Open z slot slot' b :
  freeze_ok z -> IsValidSlot slot = true -> IsValidSlot slot' = true ->
  requested (Freeze_Open slot b z) slot' = if slot =? slot' then b else requested z slot'.
Proof.
  intros Hok Hs Hs'. unfold requested, Freeze_Open, SyncFrameWork, at_slot, with_states. rewrite Hs. cbn [negb].
  destruct (_ && b) eqn:Eb; cbn [freeze_states enabled] in *; unfold freeze_at; cbn [freeze_states].
  - rewrite alter_twice. etransitivity.
    { exact (f_equal (fun s => Requested s.1) (freeze_at_alter z slot slot' (move Movement_Hold ∘ request b) true true Hok Hs Hs')). }
    case_match; [|done]. unfold move, request; cbn. by destruct (Movement_Hold _ _).
  - etransitivity; [exact (f_equal (fun s => Requested s.1) (freeze_at_alter z slot slot' (request b) true true Hok Hs Hs'))|].
    by case_match.
Qed.

Lemma requested_Close z slot slot' :
  freeze_ok z -> IsValidSlot slot = true -> IsValidSlot slot' = true ->
  requested (Freeze_Close slot z) slot' = if slot =? slot' then false else requested z slot'.
Proof.
  intros Hok Hs Hs'. unfold requested, Freeze_Close, SyncFrameWork, at_slot, with_states. rewrite Hs. cbn [negb enabled freeze_states].
  rewrite freeze_at_alter by done. case_match; [|done]. unfold move, request; cbn. by destruct (Movement_Release _ _).
Qed.

(** The events that are not a session's and do not change a slot's hands. *)
Definition outside (e : freeze_event) : bool :=
  match e with Opens _ _ | Closes _ | SlotChanges _ => false | _ => true end.

Lemma requested_map z f b w slot :
  (forall s, Requested (f s).1 = Requested s.1) -> requested (mkFreeze b (map f (freeze_states z)) w) slot = requested z slot.
Proof.
  intros Hf. unfold requested, freeze_at. cbn [freeze_states]. rewrite list_lookup_fmap.
  by destruct ((freeze_states z : list (FreezeState * option Pawn)) !! Z.to_nat slot); cbn.
Qed.

Lemma requested_alter z f b w i slot :
  (forall s, Requested (f s).1 = Requested s.1) -> requested (mkFreeze b (alter f i (freeze_states z)) w) slot = requested z slot.
Proof.
  intros Hf. unfold requested, freeze_at. cbn [freeze_states]. rewrite list_lookup_alter. case_decide as Ei; [|done].
  subst i. by destruct ((freeze_states z : list (FreezeState * option Pawn)) !! Z.to_nat slot); cbn.
Qed.

Lemma Requested_move f s : Requested (move f s).1 = Requested s.1.
Proof. unfold move. by destruct (f _ _). Qed.

Lemma requested_outside z e slot : outside e = true -> requested (on_freeze_event z e) slot = requested z slot.
Proof.
  destruct e; cbn [outside on_freeze_event]; try discriminate; intros _.
  - unfold Enable, SyncFrameWork, with_states. destruct on; [done|]. apply (requested_map z). apply Requested_move.
  - unfold Freeze_OnGameFrame, with_states. destruct (onFrame z); [|done]. apply requested_map. intros s.
    destruct (Requested s.1) eqn:E; [by rewrite Requested_move|done].
  - unfold at_slot, with_states. apply requested_alter. intros s. unfold spawn. by case_bool_decide.
  - unfold at_slot, with_states. by apply requested_alter.
Qed.

Lemma requested_SlotChanges z slot slot' :
  freeze_ok z -> IsValidSlot slot' = true ->
  requested (on_freeze_event z (SlotChanges slot)) slot' = if slot =? slot' then false else requested z slot'.
Proof.
  intros (Hw & _) Hs'. unfold requested, freeze_at; cbn [on_freeze_event with_states freeze_states].
  pose proof (PerSlot_get_Reset (FreezeState_new, None) _ slot slot' Hw Hs') as E. unfold PerSlot_get in E. rewrite Hs' in E.
  etransitivity; [exact (f_equal (fun s => Requested (default (FreezeState_new, None) s).1) E)|]. by case_match.
Qed.

(** Menus leave nobody stuck. Whatever sessions open and close, players die, respawn and leave, and the setting is
    switched, a live pawn is either held, its own move type remembered, or moves as the engine meant. Closing a session
    gives its pawn back, switching off gives every pawn back, and a frame holds every pawn whose session asks for it
    while the setting is on. *)
Theorem nobody_left_frozen evs :
  let z := fold_left on_freeze_event evs MenuFreeze_new in
  Forall slot_ok (freeze_states z) /\
  (forall slot, IsValidSlot slot = true -> own_movement (freeze_at (Freeze_Close slot z) slot)) /\
  Forall own_movement (freeze_states (Enable false z)) /\
  (enabled z = true -> Forall (fun s => Requested s.1 = true -> held_still s) (freeze_states (Freeze_OnGameFrame z))).
Proof.
  intros z. assert (freeze_ok z) as (Hw & Hs & Hf) by apply events_ok. split_and!; [done| | |].
  - intros slot Hv. unfold Freeze_Close, freeze_at. rewrite Hv. cbn.
    destruct (lookup_lt_is_Some_2 (freeze_states z) (Z.to_nat slot)) as [s Es].
    { unfold PerSlot_wf, IsValidSlot in *. bools. lia. }
    rewrite list_lookup_alter_eq, Es. cbn. apply Release_slot_ok. eapply Forall_lookup_1 in Es; [exact Es|done].
  - cbn. eapply Forall_map_id; [|done]. intros s H. by apply Release_slot_ok.
  - intros He. unfold Freeze_OnGameFrame. destruct (onFrame z) eqn:Eo; cbn.
    + eapply Forall_map_id; [|done]. intros s H. destruct (Requested s.1) eqn:Er; [|congruence]. intros _. by apply Sync_slot_ok.
    + apply Forall_forall. intros s Hin Hr. enough (false = true) by discriminate. apply Hf; [done|].
      apply Exists_exists. eauto.
Qed.

(** A player whose menu freezes them dies, comes back as another pawn, and closes the menu. *)
Example respawned_and_released :
  let z := fold_left on_freeze_event [Enables true; Spawns 3 7 2; Opens 3 true; Dies 3; Frame; Spawns 3 8 4; Frame; Closes 3] MenuFreeze_new in
  freeze_at z 3 = (mkFreezeState false (mkMovement None 4), Some (mkPawn 8 true 4 4)).
Proof. by vm_compute. Qed.

Lemma nobody_left_frozen_witness :
  own_movement (freeze_at (Freeze_Close 3 (fold_left on_freeze_event [Enables true; Spawns 3 7 2; Opens 3 true; Frame] MenuFreeze_new)) 3).
Proof.
  destruct (nobody_left_frozen [Enables true; Spawns 3 7 2; Opens 3 true; Frame]) as (_ & H & _). apply (H 3). reflexivity.
Defined.
