(* ===== verification/MenuRender.v ===== *)
(** * Center HTML: [Menu/CenterHtmlRender.cpp]

    What a page of a menu, its footer and a chat prompt are spelled as. [getOr] is [Translations::GetOr], and
    describing a row may change the surface's state [S], as [MenuStack::Describe] does. *)
From S2P Require Import Prelude Text MenuCursor MenuStack.

Definition CenterHtmlRowsPerPage : Z := 5.

Module Theme.
Definition Gold : text := $"#FFD700".
Definition Amber : text := $"#FF8C00".
Definition WarmWhite : text := $"#CCBBAA".
Definition WarmGray : text := $"#887755".
Definition Disabled : text := $"#665544".
Definition NavGold : text := $"#AA8833".
Definition NavClose : text := $"#AA4422".
Definition NavBack : text := $"#AA8833".
End Theme.

Record CenterHtmlHeader := mkHeader { header_Title : text; header_Subtitle : text; header_Breadcrumb : text; header_Page : Z; header_Pages : Z }.

Record CenterHtmlView (S : Type) := mkView {
  view_Describe : option (Z -> S -> MenuRow * S);
  view_Breadcrumb : text;
  view_Slot : Z;
  SelectedIndex : Z;
  IsSubmenu : bool }.
Arguments mkView {S}.
Arguments view_Describe {S}.
Arguments view_Breadcrumb {S}.
Arguments view_Slot {S}.
Arguments SelectedIndex {S}.
Arguments IsSubmenu {S}.

(** The three shapes of a tag the source writes out. *)
Definition font (color : text) : text := $"<font color='" ++ color ++ $"'>".
Definition font_small (color : text) : text := $"<font class='fontSize-s' color='" ++ color ++ $"'>".
Definition end_font : text := $"</font>".

Definition RenderHeader (h : CenterHtmlHeader) : text :=
  (if bool_decide (header_Breadcrumb h = []) then [] else font_small Theme.WarmGray ++ EscapeHtml (header_Breadcrumb h) ++ $" › </font>") ++
  font Theme.Gold ++ $"<b>" ++ EscapeHtml (header_Title h) ++ $"</b></font>" ++
  (if bool_decide (header_Subtitle h = []) then [] else $" " ++ font_small Theme.WarmGray ++ EscapeHtml (header_Subtitle h) ++ end_font) ++
  (if 1 <? header_Pages h
   then $" " ++ font_small Theme.WarmGray ++ $"(" ++ dec (header_Page h + 1) ++ $"/" ++ dec (header_Pages h) ++ $")</font>" else []) ++
  $"<br>".

Definition FooterChunk (keyColor keyText label : text) : text :=
  font keyColor ++ keyText ++ $"</font> " ++ font Theme.WarmGray ++ label ++ end_font.

Section Render.
Context (getOr : text -> Z -> text -> text).

Definition RenderFooter (isSubmenu isPaginated selectedRowSteps : bool) (slot : Z) : text :=
  let label key fallback := getOr key slot fallback in
  let closeColor := if isSubmenu then Theme.NavBack else Theme.NavClose in
  let closeLabel := if isSubmenu then label $"nav.back" $"Back" else label $"nav.close" $"Close" in
  let hasStepHint := selectedRowSteps || isPaginated in
  let row1 :=
    FooterChunk Theme.NavGold $"[W/S]" (label $"nav.navigate" $"Navigate") ++
    (if selectedRowSteps then $" · " ++ FooterChunk Theme.NavGold $"[A/D]" (label $"nav.change" $"Change")
     else if isPaginated then $" · " ++ FooterChunk Theme.NavGold $"[A/D]" (label $"nav.page" $"Page") else []) ++
    $" · " ++ FooterChunk Theme.Gold $"[E]"
      (label (if selectedRowSteps then $"nav.confirm" else $"nav.select") (if selectedRowSteps then $"Confirm" else $"Select")) in
  let closeChunk := FooterChunk closeColor $"[R]" closeLabel in
  $"<font class='fontSize-s'>" ++ row1 ++ (if hasStepHint then $"<br>" ++ closeChunk else $" · " ++ closeChunk) ++ end_font.

Definition RowText (row : MenuRow) : text :=
  let text := EscapeHtml (Label row) in
  match Value row with
  | [] => text
  | _ =>
      let value := EscapeHtml (Value row) ++ (if Pending row then $"…" else []) in
      let value := match Kind row with
        | RowToggle => $"[" ++ value ++ $"]"
        | RowChoice => $"&lt; " ++ value ++ $" &gt;"
        | _ => value
        end in
      text ++ $": " ++ value ++ (if Changed row then $" *" else [])
  end.

Definition RenderItem (row : MenuRow) (isSelected : bool) : text :=
  let title := RowText row in
  if negb (Enabled row) then font Theme.Disabled ++ $"- " ++ title ++ $"</font><br>"
  else if negb (Selectable row) then font Theme.WarmGray ++ title ++ $"</font><br>"
  else if isSelected then font Theme.Amber ++ $"<b>&gt; " ++ title ++ $"</b></font><br>"
  else font Theme.WarmWhite ++ $"  " ++ title ++ $"</font><br>".

Section Describe.
Context {S : Type} (describe : Z -> S -> MenuRow * S) (selectedIndex : Z).

(** The loop over [[i, i + count)], with the row it left in [selected]. *)
Fixpoint RenderItems (count : nat) (i : Z) (selected : MenuRow) (s : S) : text * MenuRow * S :=
  match count with
  | O => ([], selected, s)
  | Datatypes.S count =>
      let '(row, s) := describe i s in
      let isSelected := i =? selectedIndex in
      let '(html, selected, s) := RenderItems count (i + 1) (if isSelected then row else selected) s in
      (RenderItem row isSelected ++ html, selected, s)
  end.
End Describe.

(** [MenuRow{.Enabled = false}] *)
Definition unselected_row : MenuRow := mkRow [] [] RowButton false true false None [] false false.

Definition RenderMenuHtml {W S} (menu : option (MenuOf W)) (view : CenterHtmlView S) (s : S) : text * S :=
  match menu, view_Describe view with
  | Some menu, Some describe =>
      let itemCount := Z.of_nat (length (Items menu)) in
      let totalPages := PageCount itemCount CenterHtmlRowsPerPage in
      let currentPage := if itemCount =? 0 then 0 else Z.quot (SelectedIndex view) CenterHtmlRowsPerPage in
      let pageStart := currentPage * CenterHtmlRowsPerPage in
      let pageEnd := Z.min itemCount (pageStart + CenterHtmlRowsPerPage) in
      let header := RenderHeader (mkHeader (Title menu) (Subtitle menu) (view_Breadcrumb view) currentPage totalPages) in
      let '(items, selected, s) :=
        if itemCount =? 0
        then (font Theme.WarmGray ++ EscapeHtml (getOr $"menu.empty" (view_Slot view) $"Nothing here") ++ $"</font><br>", unselected_row, s)
        else RenderItems describe (SelectedIndex view) (Z.to_nat (pageEnd - pageStart)) pageStart unselected_row s in
      (header ++ items ++
       RenderFooter (IsSubmenu view) (1 <? totalPages) (Enabled selected && Steppable selected) (view_Slot view), s)
  | _, _ => ([], s)
  end.

Definition RenderCaptureOverlay (menuTitle prompt : text) : text :=
  font Theme.Gold ++ $"<b>" ++ EscapeHtml menuTitle ++ $"</b></font><br>" ++
  font Theme.WarmWhite ++ EscapeHtml prompt ++ $"</font><br>" ++
  font_small Theme.WarmGray ++ $"Type your answer in chat</font><br>" ++
  $"<font class='fontSize-s'>" ++ font Theme.NavClose ++ $"[R]</font> " ++ font Theme.WarmGray ++ $"Cancel</font></font>".
End Render.

(** Rendering does to the state what describing rows does. *)
Lemma RenderMenuHtml_keeps {W S} (P : S -> Prop) getOr (menu : option (MenuOf W)) (view : CenterHtmlView S) describe s :
  view_Describe view = Some describe -> (forall i s, P s -> P (describe i s).2) -> P s -> P (RenderMenuHtml getOr menu view s).2.
Proof.
  intros Hd Hp Hs. unfold RenderMenuHtml. destruct menu as [menu|]; [|done]. rewrite Hd. destruct (_ =? 0); [done|].
  assert (forall count i selected s, P s -> P (RenderItems describe (SelectedIndex view) count i selected s).2) as Hi.
  { clear s Hs. induction count as [|count IH]; intros i selected s Hs; cbn [RenderItems]; [done|].
    specialize (Hp i s Hs). destruct (describe i s) as [row s1]. specialize (IH (i + 1) (if i =? SelectedIndex view then row else selected) s1 Hp).
    by destruct (RenderItems _ _ _ _ _ _) as [[? ?] ?]. }
  match goal with |- context [RenderItems ?d ?k ?n ?i ?r s] => pose proof (Hi n i r s Hs); by destruct (RenderItems d k n i r s) as [[? ?] ?] end.
Qed.

(** ** Markup *)

(** The tags of a piece of HTML, in order; [open] is the text of one being read. *)
Fixpoint tags (open : option text) (s : text) : list text :=
  match s with
  | [] => []
  | c :: rest =>
      match open with
      | None => if Ascii.eqb c "<" then tags (Some []) rest else tags None rest
      | Some t => if Ascii.eqb c ">" then t :: tags None rest else tags (Some (t ++ [c])) rest
      end
  end.

(** [s] is markup of its own with these tags: nothing of it is left open for what follows. *)
Definition marked (s : text) (ts : list text) : Prop := forall rest, tags None (s ++ rest) = ts ++ tags None rest.

Lemma marked_app a b ts us : marked a ts -> marked b us -> marked (a ++ b) (ts ++ us).
Proof. intros Ha Hb rest. by rewrite <- app_assoc, Ha, Hb, app_assoc. Qed.

(** The same, the tags of the first piece read off the front. *)
Lemma marked_piece ts a b all us : marked a ts -> all = ts ++ us -> marked b us -> marked (a ++ b) all.
Proof. intros Ha -> Hb. by apply marked_app. Qed.

Lemma marked_plain s : (forall c, In c s -> markup_char c = false) -> marked s [].
Proof.
  intros H rest. induction s as [|c s IH]; [done|]. cbn [app tags]. destruct (Ascii.eqb_spec c "<") as [->|]; [|apply IH; intros; apply H; by right].
  by specialize (H "<"%char (or_introl eq_refl)).
Qed.

Lemma marked_escaped s : marked (EscapeHtml s) [].
Proof. apply marked_plain. apply EscapeHtml_no_markup. Qed.

Lemma marked_dec n : marked (dec n) [].
Proof.
  apply marked_plain. intros c [->|H]%dec_chars; [done|].
  pose proof (all_chars (fun c => negb (is_dec_digit c) || negb (markup_char c)) ltac:(vm_compute; reflexivity) c) as Hc.
  cbn beta in Hc. rewrite H in Hc. by apply negb_true_iff.
Qed.

Lemma marked_known s ts : (forall rest, tags None (s ++ rest) = ts ++ tags None rest) -> marked s ts.
Proof. done. Qed.

(** Tags that open and close, a stack of the names still open; [br] stands alone. *)
Definition tag_name (tag : text) : text := take (count_while (fun c => negb (Ascii.eqb c " ")) tag) tag.

Fixpoint balance (stack : list text) (ts : list text) : option (list text) :=
  match ts with
  | [] => Some stack
  | tag :: rest =>
      match tag with
      | "/"%char :: name =>
          match stack with
          | top :: stack => if bool_decide (top = name) then balance stack rest else None
          | [] => None
          end
      | _ => if bool_decide (tag = $"br") then balance stack rest else balance (tag_name tag :: stack) rest
      end
  end.

Definition balanced (ts : list text) : Prop := forall stack, balance stack ts = Some stack.

Lemma balance_app stack ts us : balance stack (ts ++ us) = (stack' ← balance stack ts; balance stack' us).
Proof.
  revert stack. induction ts as [|tag ts IH]; intros stack; [done|].
  change ((tag :: ts) ++ us) with (tag :: (ts ++ us)). cbn [balance]. repeat case_match; try done; apply IH.
Qed.

Lemma balanced_app ts us : balanced ts -> balanced us -> balanced (ts ++ us).
Proof. intros Ht Hu stack. rewrite balance_app, Ht. apply Hu. Qed.

Lemma balanced_flat_map {A} (f : A -> list text) l : (forall a, balanced (f a)) -> balanced (flat_map f l).
Proof. intros H. induction l; [by intros stack|]. by apply balanced_app. Qed.

(** ** The markup a page may have *)

Definition font_tag (color : text) : text := $"font color='" ++ color ++ $"'".
Definition small_tag (color : text) : text := $"font class='fontSize-s' color='" ++ color ++ $"'".

Definition header_tags (breadcrumb subtitle pages : bool) : list text :=
  (if breadcrumb then [small_tag Theme.WarmGray; $"/font"] else []) ++ [font_tag Theme.Gold; $"b"; $"/b"; $"/font"] ++
  (if subtitle then [small_tag Theme.WarmGray; $"/font"] else []) ++ (if pages then [small_tag Theme.WarmGray; $"/font"] else []) ++ [$"br"].

Definition chunk_tags (keyColor : text) : list text := [font_tag keyColor; $"/font"; font_tag Theme.WarmGray; $"/font"].

Definition footer_tags (isSubmenu isPaginated selectedRowSteps : bool) : list text :=
  [$"font class='fontSize-s'"] ++ chunk_tags Theme.NavGold ++ (if selectedRowSteps || isPaginated then chunk_tags Theme.NavGold else []) ++
  chunk_tags Theme.Gold ++ (if selectedRowSteps || isPaginated then [$"br"] else []) ++
  chunk_tags (if isSubmenu then Theme.NavBack else Theme.NavClose) ++ [$"/font"].

Definition item_tags (row : MenuRow) (isSelected : bool) : list text :=
  if negb (Enabled row) then [font_tag Theme.Disabled; $"/font"; $"br"]
  else if negb (Selectable row) then [font_tag Theme.WarmGray; $"/font"; $"br"]
  else if isSelected then [font_tag Theme.Amber; $"b"; $"/b"; $"/font"; $"br"]
  else [font_tag Theme.WarmWhite; $"/font"; $"br"].

Lemma item_tags_balanced row isSelected : balanced (item_tags row isSelected).
Proof. intros stack. unfold item_tags. repeat case_match; reflexivity. Qed.

Lemma header_tags_balanced a b c : balanced (header_tags a b c).
Proof. intros stack. destruct a, b, c; reflexivity. Qed.

Lemma footer_tags_balanced a b c : balanced (footer_tags a b c).
Proof. intros stack. destruct a, b, c; reflexivity. Qed.

Create HintDb markup.
#[export] Hint Resolve marked_escaped marked_dec : markup.

Ltac written := apply marked_known; intros ?; reflexivity.
#[export] Hint Extern 4 (marked _ _) => written : markup.

(** The next piece has the tags given, or none. *)
Ltac piece ts := eapply (marked_piece ts); [written|reflexivity|].
Ltac plain := eapply (marked_piece []); [solve [eauto 2 with markup]|reflexivity|].

Lemma marked_if (b : bool) s s' : marked s [] -> marked s' [] -> marked (if b then s else s') [].
Proof. by destruct b. Qed.

Lemma RowText_marked row : marked (RowText row) [].
Proof.
  unfold RowText. destruct (Value row) as [|c value]; [apply marked_escaped|]. generalize (c :: value). intros v.
  assert (marked (EscapeHtml v ++ (if Pending row then $"…" else [])) []) as Hv by (plain; apply marked_if; written).
  do 2 plain. eapply (marked_piece []); [|reflexivity|apply marked_if; written].
  destruct (Kind row); try done; plain; (eapply (marked_piece []); [exact Hv|reflexivity|written]).
Qed.
#[export] Hint Resolve RowText_marked : markup.

Lemma RenderItem_marked row isSelected : marked (RenderItem row isSelected) (item_tags row isSelected).
Proof.
  unfold RenderItem, item_tags. destruct (negb (Enabled row)); [|destruct (negb (Selectable row)); [|destruct isSelected]].
  - piece [font_tag Theme.Disabled]. do 2 plain. written.
  - piece [font_tag Theme.WarmGray]. plain. written.
  - piece [font_tag Theme.Amber]. piece [$"b"]. plain. written.
  - piece [font_tag Theme.WarmWhite]. do 2 plain. written.
Qed.

Lemma RenderHeader_marked h :
  marked (RenderHeader h) (header_tags (negb (bool_decide (header_Breadcrumb h = []))) (negb (bool_decide (header_Subtitle h = []))) (1 <? header_Pages h)).
Proof.
  unfold RenderHeader, header_tags. apply marked_app; [|piece [font_tag Theme.Gold]; piece [$"b"]; [plain; piece [$"/b"; $"/font"]]].
  - case_bool_decide; [written|]. piece [small_tag Theme.WarmGray]. plain. written.
  - apply marked_app; [|apply marked_app; [|written]].
    + case_bool_decide; [written|]. plain. piece [small_tag Theme.WarmGray]. plain. written.
    + case_match; [|written]. plain. piece [small_tag Theme.WarmGray]. do 4 plain. written.
Qed.

(** ** Pages *)

Section Pages.
Context (getOr : text -> Z -> text -> text).

(** The words for the keys are the server's, and are written out as they are. *)
Context (labels_plain : forall key slot fallback, marked (getOr key slot fallback) []).

Lemma FooterChunk_marked color keyText key slot fallback :
  marked (font color) [font_tag color] -> marked keyText [] -> marked (FooterChunk color keyText (getOr key slot fallback)) (chunk_tags color).
Proof.
  intros Hc Hk. unfold FooterChunk, chunk_tags. eapply marked_piece; [exact Hc|reflexivity|].
  eapply (marked_piece []); [exact Hk|reflexivity|]. piece [$"/font"]. piece [font_tag Theme.WarmGray].
  eapply (marked_piece []); [apply labels_plain|reflexivity|written].
Qed.

Lemma RenderFooter_marked isSubmenu isPaginated selectedRowSteps slot :
  marked (RenderFooter getOr isSubmenu isPaginated selectedRowSteps slot) (footer_tags isSubmenu isPaginated selectedRowSteps).
Proof.
  unfold RenderFooter, footer_tags. apply marked_app; [written|].
  destruct isSubmenu, selectedRowSteps, isPaginated; cbn [orb]; rewrite <- ?app_assoc;
    repeat first
      [ match goal with |- marked (FooterChunk ?color _ _ ++ _) _ =>
          eapply (marked_piece (chunk_tags color)); [apply FooterChunk_marked; written|reflexivity|] end
      | eapply (marked_piece [$"br"]); [written|reflexivity|] | plain | written ].
Qed.

Section Described.
Context {S : Type} (describe : Z -> S -> MenuRow * S) (selectedIndex : Z).

(** The rows described from [i] on. *)
Fixpoint described (count : nat) (i : Z) (s : S) : list (Z * MenuRow) * S :=
  match count with
  | O => ([], s)
  | Datatypes.S count => let '(row, s) := describe i s in let '(rows, s) := described count (i + 1) s in ((i, row) :: rows, s)
  end.

Definition selected_of (rows : list (Z * MenuRow)) (selected : MenuRow) : MenuRow :=
  fold_left (fun selected r => if r.1 =? selectedIndex then r.2 else selected) rows selected.

Lemma RenderItems_spec count i selected s :
  let '(html, selected', s') := RenderItems describe selectedIndex count i selected s in
  let '(rows, s'') := described count i s in
  s' = s'' /\ selected' = selected_of rows selected /\ map fst rows = map (fun k => i + Z.of_nat k) (seq 0 count) /\
  html = flat_map (fun r => RenderItem r.2 (r.1 =? selectedIndex)) rows /\
  marked html (flat_map (fun r => item_tags r.2 (r.1 =? selectedIndex)) rows).
Proof.
  revert i selected s. induction count as [|count IH]; intros i selected s; cbn [RenderItems described].
  { split_and!; [done..|written]. }
  destruct (describe i s) as [row s1]. specialize (IH (i + 1) (if i =? selectedIndex then row else selected) s1).
  destruct (RenderItems _ _ _ _ _ _) as [[html selected'] s']. destruct (described _ _ _) as [rows s''].
  destruct IH as (-> & -> & Hi & -> & Hm). split_and!; [done|done| |done|].
  - cbn [map seq fst]. f_equal; [lia|]. rewrite Hi, <- seq_shift, map_map. apply map_ext. lia.
  - cbn [flat_map fst snd]. apply marked_app; [apply RenderItem_marked|done].
Qed.
End Described.

(** What a player can put in a menu never reaches the markup. Whatever the titles, labels, values and prompts say,
    a page has the tags of its header, of at most five rows in order, each by its state alone, and of its footer, all of
    them closed in order, and ends outside a tag. *)
Theorem page_markup {W S} (menu : MenuOf W) describe (view : CenterHtmlView S) (s : S) :
  view_Describe view = Some describe -> 0 <= SelectedIndex view ->
  exists header rows footer,
    let html := (RenderMenuHtml getOr (Some menu) view s).1 in
    let ts := header ++ (if (length (Items menu) =? 0)%nat then [font_tag Theme.WarmGray; $"/font"; $"br"]
                         else flat_map (fun r => item_tags r.2 (r.1 =? SelectedIndex view)) rows) ++ footer in
    (exists a b c, header = header_tags a b c) /\ (exists a b c, footer = footer_tags a b c) /\
    (length rows <= 5)%nat /\ Forall (fun r : Z * MenuRow => 0 <= r.1 < Z.of_nat (length (Items menu)) /\ Z.quot r.1 5 = Z.quot (SelectedIndex view) 5) rows /\
    (SelectedIndex view < Z.of_nat (length (Items menu)) -> In (SelectedIndex view) (map fst rows)) /\
    marked html ts /\ balanced ts.
Proof.
  intros Hd Hs. unfold RenderMenuHtml. rewrite Hd. set (n := Z.of_nat (length (Items menu))).
  set (q := Z.quot (SelectedIndex view) 5).
  assert (q * 5 <= SelectedIndex view < q * 5 + 5 /\ 0 <= q) as Hq.
  { unfold q. rewrite Z.quot_div_nonneg by lia. pose proof (Z.div_mod (SelectedIndex view) 5 ltac:(lia)).
    pose proof (Z.mod_pos_bound (SelectedIndex view) 5 ltac:(lia)). pose proof (Z.div_pos (SelectedIndex view) 5). lia. }
  destruct (Z.eqb_spec n 0) as [E|E].
  - assert (length (Items menu) = O) as -> by lia. eexists (header_tags _ _ _), [], (footer_tags _ _ _). cbn [Nat.eqb fst].
    split_and!; [by do 3 eexists|by do 3 eexists|cbn; lia|constructor|lia| |].
    + apply marked_app; [apply RenderHeader_marked|]. apply marked_app; [|apply RenderFooter_marked].
      piece [font_tag Theme.WarmGray]. plain. written.
    + apply balanced_app; [apply header_tags_balanced|]. apply balanced_app; [by intros stack|apply footer_tags_balanced].
  - assert ((length (Items menu) =? 0)%nat = false) as -> by (apply Nat.eqb_neq; lia).
    unfold CenterHtmlRowsPerPage. fold q. set (count := Z.to_nat (Z.min n (q * 5 + 5) - q * 5)).
    pose proof (RenderItems_spec describe (SelectedIndex view) count (q * 5) unselected_row s) as Hr.
    destruct (RenderItems _ _ _ _ _ _) as [[html selected] s']. destruct (described _ _ _ _) as [rows s''].
    destruct Hr as (_ & _ & Hi & _ & Hm). eexists (header_tags _ _ _), rows, (footer_tags _ _ _). cbn [fst].
    split_and!; [by do 3 eexists|by do 3 eexists| | | | |].
    + rewrite <- (length_map fst rows), Hi, length_map, length_seq. lia.
    + apply (Forall_map fst (fun i => 0 <= i < n /\ Z.quot i 5 = q)). rewrite Hi. apply Forall_map, Forall_forall. intros k Hk%elem_of_seq.
      split; [lia|]. rewrite Z.quot_div_nonneg by lia. symmetry. apply (Z.div_unique_pos _ _ q (Z.of_nat k)); lia.
    + intros Hn. rewrite Hi. apply in_map_iff. exists (Z.to_nat (SelectedIndex view - q * 5)). split; [lia|]. apply in_seq. lia.
    + apply marked_app; [apply RenderHeader_marked|]. apply marked_app; [exact Hm|apply RenderFooter_marked].
    + apply balanced_app; [apply header_tags_balanced|]. apply balanced_app; [|apply footer_tags_balanced].
      apply balanced_flat_map. intros r. apply item_tags_balanced.
Qed.

Lemma overlay_marked menuTitle prompt :
  marked (RenderCaptureOverlay menuTitle prompt)
    [font_tag Theme.Gold; $"b"; $"/b"; $"/font"; $"br"; font_tag Theme.WarmWhite; $"/font"; $"br"; small_tag Theme.WarmGray; $"/font"; $"br";
     $"font class='fontSize-s'"; font_tag Theme.NavClose; $"/font"; font_tag Theme.WarmGray; $"/font"; $"/font"].
Proof.
  unfold RenderCaptureOverlay. piece [font_tag Theme.Gold]. piece [$"b"]. plain. piece [$"/b"; $"/font"; $"br"].
  piece [font_tag Theme.WarmWhite]. plain. piece [$"/font"; $"br"]. written.
Qed.
End Pages.

(** A prompt's title and question are text, too. *)
Lemma page_markup_witness :
  let row := mkRow $"<b>Bob</b>" $"x" RowChoice true true true None [] false false in
  let menu : MenuOf unit := mkMenu 1 $"</font>" [] [mkItem (Some (fun _ _ => row)) None None None] in
  let view := mkView (Some (fun _ (s : unit) => (row, s))) $"Main" 3 0 false in
  exists header footer, tags None (RenderMenuHtml (fun _ _ fallback => EscapeHtml fallback) (Some menu) view tt).1 =
    header ++ [font_tag Theme.Amber; $"b"; $"/b"; $"/font"; $"br"] ++ footer.
Proof.
  intros row menu view.
  destruct (page_markup (fun _ _ fallback => EscapeHtml fallback) (fun _ _ fallback => marked_escaped fallback) menu
    (fun _ (s : unit) => (row, s)) view tt eq_refl ltac:(cbn; lia)) as (header & rows & footer & (a & b & c & ->) & (a' & b' & c' & ->) & _).
  exists (header_tags true false false), (footer_tags false false true). by vm_compute.
Defined.
