(* ===== verification/ChatInput.v ===== *)
(** * Chat prompts: [Menu/ChatInput.cpp]

    At most one capture per slot, whose callback gets the next chat line. [C] is a callback and [St] the state its run
    may change, the captures themselves included. *)
From S2P Require Import Prelude Identity.

(** [Armed] is whether a timeout is running. *)
Record Capture (C : Type) := mkCapture { Prompt : text; Callback : C; Timeout : bool }.
Arguments mkCapture {C}.
Arguments Prompt {C}.
Arguments Callback {C}.
Arguments Timeout {C}.

Section ChatInput.
Context {C : Type}.
Abbreviation Captures := (PerSlot (option (Capture C))).

Definition ChatInput_new : Captures := PerSlot_new None.

Definition capture_at (pending : Captures) (slot : Z) : option (Capture C) := mjoin (PerSlot_get pending slot).

Definition CancelCapture (slot : Z) (pending : Captures) : Captures := PerSlot_Reset None pending slot.

Definition BeginCapture (slot : Z) (prompt : text) (callback : option C) (timeoutMs : Z) (pending : Captures) : Captures :=
  match callback with
  | Some callback =>
      if negb (IsValidSlot slot) then pending
      else PerSlot_set (CancelCapture slot pending) slot (Some (mkCapture prompt callback (0 <? timeoutMs)))
  | None => pending
  end.

Definition IsCapturing (pending : Captures) (slot : Z) : bool := bool_decide (is_Some (capture_at pending slot)).
Definition GetPrompt (pending : Captures) (slot : Z) : option text := option_map Prompt (capture_at pending slot).

(** The scheduler's timeout, which is there only while the capture that armed it is. *)
Definition TimedOut (slot : Z) (pending : Captures) : Captures :=
  match capture_at pending slot with
  | Some capture => if Timeout capture then CancelCapture slot pending else pending
  | None => pending
  end.

Section Consume.
Context {St : Type} (captures : St -> Captures) (set_captures : Captures -> St -> St).
Context (call : C -> Z -> text -> St -> outcome (bool * St)).

Definition TryConsume (slot : Z) (line : text) (s : St) : outcome (bool * St) :=
  match capture_at (captures s) slot with
  | None => Returns (false, s)
  | Some pending =>
      let s := set_captures (CancelCapture slot (captures s)) s in
      run! r := call (Callback pending) slot line s in
      let '(accepted, s) := r in
      Returns (true,
        if negb accepted && negb (IsCapturing (captures s) slot)
        then set_captures (PerSlot_set (captures s) slot (Some pending)) s else s)
  end.
End Consume.
End ChatInput.

(** A rejected line restores the capture though the slot changed hands while it was looked at. *)
Example restored_for_the_next_occupant :
  let pending := BeginCapture 3 $"Name?" (Some tt) 60000 ChatInput_new in
  (run! r := TryConsume (fun p => p) (fun p _ => p) (fun _ slot _ p => Returns (false, CancelCapture slot p)) 3 $"x" pending in
   Returns (GetPrompt r.2 3)) = Returns (Some $"Name?").
Proof. by vm_compute. Qed.
