(* ===== verification/CenterHtmlMenu.v ===== *)
(** * The center HTML menu: [Menu/CenterHtmlMenu.cpp]

    One surface over the stack: a cursor per slot, keys read every frame, pages sent while a menu is open. *)
From S2P Require Import Prelude Text Identity MenuCursor MenuStack MenuRender MenuFreeze ChatInput.

Record Page := mkPage { Html : text; RenderedAt : Z; SentAt : Z }.
Record Cursor := mkCursor { Selected : Z; PrevButtons : Z; LastInputTime : Z; LastSent : Page }.
Definition Cursor_new : Cursor := mkCursor 0 0 0 (mkPage [] 0 0).

(** What the services are told: a page, a cleared page, a reply. *)
Inductive output :=
| SentHtml (slot : Z) (html : text)
| ClearedHtml (slot : Z)
| Replied (slot : Z) (reply : text).

(** The surface's own state with the services it changes. [now] is the monotonic clock and [buttons] what each
    controller holds down; [outputs] is what was sent. *)
Record CenterHtml (W : Type) := mkHtml {
  cursors : PerSlot Cursor;
  captures : PerSlot (option (Capture (Z -> text -> program W)));
  freeze : MenuFreeze;
  on_frame : bool;
  now : Z;
  buttons : Z -> Z;
  outputs : list output;
  world : W }.
Arguments mkHtml {W}.
Arguments cursors {W}.
Arguments captures {W}.
Arguments freeze {W}.
Arguments on_frame {W}.
Arguments now {W}.
Arguments buttons {W}.
Arguments outputs {W}.
Arguments world {W}.

Definition PressGapMs : Z := 200.
Definition RenderIntervalMs : Z := 250.
Definition ResendIntervalMs : Z := 100.
Definition PromptTimeoutMs : Z := 60000.

Section Setters.
Context {W : Type}.
Implicit Types x : CenterHtml W.
Definition with_cursors (f : PerSlot Cursor -> PerSlot Cursor) x :=
  mkHtml (f (cursors x)) (captures x) (freeze x) (on_frame x) (now x) (buttons x) (outputs x) (world x).
Definition with_captures (f : PerSlot (option (Capture (Z -> text -> program W))) -> PerSlot (option (Capture (Z -> text -> program W)))) x :=
  mkHtml (cursors x) (f (captures x)) (freeze x) (on_frame x) (now x) (buttons x) (outputs x) (world x).
Definition with_freeze (f : MenuFreeze -> MenuFreeze) x :=
  mkHtml (cursors x) (captures x) (f (freeze x)) (on_frame x) (now x) (buttons x) (outputs x) (world x).
Definition with_on_frame (b : bool) x :=
  mkHtml (cursors x) (captures x) (freeze x) b (now x) (buttons x) (outputs x) (world x).
Definition out (o : output) x :=
  mkHtml (cursors x) (captures x) (freeze x) (on_frame x) (now x) (buttons x) (outputs x ++ [o]) (world x).
Definition set_world (w : W) x :=
  mkHtml (cursors x) (captures x) (freeze x) (on_frame x) (now x) (buttons x) (outputs x) w.
Definition cursor_at x (slot : Z) : Cursor := default Cursor_new (PerSlot_get (cursors x) slot).
Definition CenterHtml_new (w : W) : CenterHtml W :=
  mkHtml (PerSlot_new Cursor_new) ChatInput_new MenuFreeze_new false 0 (fun _ => 0) [] w.
End Setters.

Section CenterHtmlMenu.
Context {W : Type} (getOr : text -> Z -> text -> text) (translate : text -> Z -> text) (hasReply : bool).
Abbreviation M := (MenuStack W * CenterHtml W)%type.
Implicit Types m : M.

Definition CursorRowsFor (menu : option (MenuOf W)) (w : W) (slot : Z) : CursorRows :=
  match menu with
  | None => mkRows 0 None
  | Some menu => mkRows (Z.of_nat (length (Items menu)))
      (Some (fun index => match Items menu !! Z.to_nat index with Some item => IsRowActionable item w slot | None => false end))
  end.

Definition ResetCursor (slot : Z) m : M :=
  own (fun x => with_cursors (fun l => PerSlot_set l slot
    (mkCursor (Cursor_First (CursorRowsFor (MenuStack.Current m.1 slot) (world x) slot)) (PrevButtons (cursor_at x slot)) (now x) (mkPage [] 0 0))) x) m.

Section Calls.
Context (run : program W -> M -> outcome (bool * M)) (committed : Z -> M -> outcome M).
Abbreviation stack_step := (do_stack_step world getOr run committed).

Definition Html_Push (slot : Z) (menu : option (MenuOf W)) m : outcome M :=
  run! m := stack_step (StPush slot menu) m in
  let m := ResetCursor slot m in
  Returns (own (fun x => if on_frame x then x else with_on_frame true x) m).

(** What [Close] and [CloseAll] do once the stack is empty. *)
Definition Html_Closed (slot : Z) m : M :=
  own (fun x => out (ClearedHtml slot) (with_freeze (Freeze_Close slot) (with_cursors (fun l => PerSlot_set l slot Cursor_new) x))) m.

Definition Html_CloseAll (slot : Z) m : outcome M :=
  if negb (IsValidSlot slot) then Returns m
  else
    let m := own (with_captures (CancelCapture slot)) m in
    if negb (IsOpen m.1 slot) then Returns m
    else run! m := stack_step (StClear slot) m in Returns (Html_Closed slot m).

Definition Html_Close (slot : Z) m : outcome M :=
  if negb (IsValidSlot slot) then Returns m
  else
    let m := own (with_captures (CancelCapture slot)) m in
    if negb (IsOpen m.1 slot) then Returns m
    else
      run! m := stack_step (StPop slot) m in
      Returns (if IsOpen m.1 slot then ResetCursor slot m else Html_Closed slot m).

Definition Html_CloseAllReply (slot : Z) (replyKey : text) m : outcome M :=
  Html_CloseAll slot (if hasReply then own (out (Replied slot (translate replyKey slot))) m else m).

Definition Html_OpenSession (slot : Z) (menu : option (MenuOf W)) (options : MenuOptions) m : outcome (bool * M) :=
  if negb (IsValidSlot slot) || negb (bool_decide (is_Some (option_map MenuId menu))) then Returns (false, m)
  else
    run! m := Html_CloseAll slot m in
    let m := own (with_freeze (Freeze_Open slot (FreezeMovement options))) m in
    run! m := Html_Push slot menu m in Returns (true, m).

Definition Html_Open (slot : Z) (menu : option (MenuOf W)) m : outcome M :=
  if negb (IsValidSlot slot) || negb (bool_decide (is_Some (option_map MenuId menu))) then Returns m
  else if negb (IsOpen m.1 slot) then run! bm := Html_OpenSession slot menu default_options m in Returns bm.2
  else Html_Push slot menu m.

(** The cursor is written without a check of the slot. *)
Definition Html_Prompt (slot : Z) (prompt : text) (callback : option (Z -> text -> program W)) m : outcome M :=
  let m := own (with_captures (BeginCapture slot prompt callback PromptTimeoutMs)) m in
  if negb (IsValidSlot slot) then Undefined
  else
    let cursor := cursor_at m.2 slot in
    Returns (own (with_cursors (fun l => PerSlot_set l slot
      (mkCursor (Selected cursor) (PrevButtons cursor) (LastInputTime cursor) (mkPage [] 0 0)))) m).

(** Every [PerSlot] hears of the slot: the stack's, the cursors, the captures, the freeze. *)
Definition Html_SlotChanged (slot : Z) m : outcome M :=
  run! m := stack_step (StSlotChanged slot) m in
  Returns (own (fun x => with_freeze (fun z => on_freeze_event z (SlotChanges slot))
    (with_captures (CancelCapture slot) (with_cursors (fun l => PerSlot_Reset Cursor_new l slot) x))) m).

Definition html_call (c : call W (program W)) m : outcome (bool * M) :=
  let done o := run! m := o in Returns (true, m) in
  match c with
  | CallOpenSession slot menu options => Html_OpenSession slot menu options m
  | CallOpen slot menu => done (Html_Open slot menu m)
  | CallIsOpen slot => Returns (IsOpen m.1 slot, m)
  | CallClose slot => done (Html_Close slot m)
  | CallCloseAll slot => done (Html_CloseAll slot m)
  | CallCloseAllReply slot replyKey => done (Html_CloseAllReply slot replyKey m)
  | CallPrompt slot prompt callback => done (Html_Prompt slot prompt callback m)
  | CallSlotChanged slot => done (Html_SlotChanged slot m)
  end.
End Calls.

(** Nothing listens to its [Committed]: the page is drawn every frame. *)
Definition center_html : Surface W (CenterHtml W) := {|
  surface_call := html_call;
  surface_committed := fun _ _ _ m => Returns m |}.

(** *** The surface keeps to the stack's steps and its own state *)

Section Law.
Context (run : program W -> M -> outcome (bool * M)) (committed : Z -> M -> outcome M) (F : Prop) (I : M -> M -> Prop) (m0 : M).
Context (HI : stack_relation world getOr run committed F I m0).

Abbreviation law_refl := (MenuStack.law_refl world getOr run committed F I m0).
Abbreviation law_own := (MenuStack.law_own world getOr run committed F I m0).
Abbreviation law_step := (MenuStack.law_step world getOr run committed F I m0).

Lemma law_Push slot menu m : I m0 m -> holds F (I m0) (Html_Push run committed slot menu m).
Proof. intros H. eapply holds_bind; [by apply law_step|]. intros m' H'. by apply law_own, law_own. Qed.

Lemma law_CloseAll slot m : I m0 m -> holds F (I m0) (Html_CloseAll run committed slot m).
Proof.
  intros H. unfold Html_CloseAll. destruct (negb _); [exact H|]. destruct (negb _); [by apply law_own|].
  eapply holds_bind; [by apply law_step, law_own|]. intros m' H'. by apply law_own.
Qed.

Lemma law_Close slot m : I m0 m -> holds F (I m0) (Html_Close run committed slot m).
Proof.
  intros H. unfold Html_Close. destruct (negb _); [exact H|]. destruct (negb _); [by apply law_own|].
  eapply holds_bind; [by apply law_step, law_own|]. intros m' H'. cbn. destruct (IsOpen _ _); by apply law_own.
Qed.

Lemma law_OpenSession slot menu options m : I m0 m -> holds F (fun bm => I m0 bm.2) (Html_OpenSession run committed slot menu options m).
Proof.
  intros H. unfold Html_OpenSession. destruct (_ || _); [exact H|]. eapply holds_bind; [by apply law_CloseAll|]. intros m1 H1.
  eapply holds_bind; [by apply law_Push, law_own|]. by intros m2.
Qed.

Lemma law_Open slot menu m : I m0 m -> holds F (I m0) (Html_Open run committed slot menu m).
Proof.
  intros H. unfold Html_Open. destruct (_ || _); [exact H|]. destruct (negb _); [|by apply law_Push].
  eapply holds_bind; [by apply law_OpenSession|]. by intros bm.
Qed.

Lemma law_call c : holds F (fun bm => I m0 bm.2) (html_call run committed c m0).
Proof.
  pose proof (law_refl m0) as H. destruct c; cbn [html_call]; [by apply law_OpenSession|..]; try (eapply holds_bind; [|by intros m1]).
  - by apply law_Open.
  - exact H.
  - by apply law_Close.
  - by apply law_CloseAll.
  - apply law_CloseAll. destruct hasReply; [by apply law_own|done].
  - unfold Html_Prompt. destruct (negb _); [done|]. by apply law_own, law_own.
  - eapply holds_bind; [by apply law_step|]. intros m1 H1. by apply law_own.
Qed.
End Law.

Lemma center_html_laws : @SurfaceLaws W (CenterHtml W) world getOr center_html.
Proof.
  split; [intros run committed F I m c HI; by apply law_call|].
  intros run committed F I m slot HI. cbn. by eapply law_refl.
Qed.

(** ** Frames *)

#[local] Existing Instance center_html.
#[local] Existing Instance center_html_laws.

(** [PlayerButtons], the engine's bits. *)
Context (IN_FORWARD IN_BACK IN_MOVELEFT IN_MOVERIGHT IN_USE IN_RELOAD : Z).

Abbreviation run := (exec_run world set_world depth).
Abbreviation committed := (exec_committed world set_world depth).
Abbreviation rows_at m slot := (CursorRowsFor (MenuStack.Current m.1 slot) (world m.2) slot).

Definition has (buttons bit : Z) : bool := negb (Z.land buttons bit =? 0).

(** [Select] *)
Definition with_selected (slot index : Z) m : M :=
  own (fun x => let c := cursor_at x slot in
    with_cursors (fun l => PerSlot_set l slot (mkCursor index (PrevButtons c) (LastInputTime c) (LastSent c))) x) m.

Definition Select (slot index : Z) m : outcome M :=
  match MenuStack.Current m.1 slot with
  | None => Returns m
  | Some menu =>
      if (index <? 0) || (Z.of_nat (length (Items menu)) <=? index) then Returns m
      else
        run! m := (if IsPending m.1 slot index then Returns m else ApplyPending run committed slot m) in
        Returns (with_selected slot index m)
  end.

Definition MoveCursor (slot step : Z) m : outcome M :=
  Select slot (Cursor_Step (rows_at m slot) (Selected (cursor_at m.2 slot)) step) m.

Definition JumpPage (slot delta : Z) m : outcome M :=
  match MenuStack.Current m.1 slot with
  | None => Returns m
  | Some menu =>
      match Items menu with
      | [] => Returns m
      | _ => Select slot (Cursor_JumpPage (rows_at m slot) (Selected (cursor_at m.2 slot)) CenterHtmlRowsPerPage delta) m
      end
  end.

Definition RunKey (slot pressed : Z) m : outcome (bool * M) :=
  let consumed o := run! m := o in Returns (true, m) in
  if has pressed IN_RELOAD then consumed (Html_Close run committed slot m)
  else
    let itemCount := match MenuStack.Current m.1 slot with Some menu => Z.of_nat (length (Items menu)) | None => 0 end in
    if itemCount =? 0 then Returns (false, m)
    else if has pressed IN_FORWARD then consumed (MoveCursor slot (-1) m)
    else if has pressed IN_BACK then consumed (MoveCursor slot 1 m)
    else if has pressed (Z.lor IN_MOVELEFT IN_MOVERIGHT) then
      let direction := if has pressed IN_MOVELEFT then -1 else 1 in
      run! bm := Step world true run committed slot (Selected (cursor_at m.2 slot)) direction m in
      let '(stepped, m) := bm in
      if stepped then Returns (true, m)
      else if itemCount <=? CenterHtmlRowsPerPage then Returns (false, m)
      else consumed (JumpPage slot direction m)
    else if has pressed IN_USE then consumed (Activate world run committed slot (Selected (cursor_at m.2 slot)) m)
    else Returns (false, m).

Definition with_input_time (slot time : Z) m : M :=
  own (fun x => let c := cursor_at x slot in
    with_cursors (fun l => PerSlot_set l slot (mkCursor (Selected c) (PrevButtons c) time (LastSent c))) x) m.

Definition ReadKeys (slot : Z) m : outcome (bool * M) :=
  match MenuStack.Current m.1 slot with
  | None => Returns (false, m)
  | Some _ =>
      let cursor := cursor_at m.2 slot in
      let held := buttons m.2 slot in
      let pressed := Z.land held (Z.lnot (PrevButtons cursor)) in
      let m := own (with_cursors (fun l => PerSlot_set l slot (mkCursor (Selected cursor) held (LastInputTime cursor) (LastSent cursor)))) m in
      let time := now m.2 in
      if pressed =? 0 then Returns (false, m)
      else if time - LastInputTime cursor <? PressGapMs then Returns (false, m)
      else if IsCapturing (captures m.2) slot then
        if negb (has pressed IN_RELOAD) then Returns (false, m)
        else Returns (true, with_input_time slot time (own (with_captures (CancelCapture slot)) m))
      else
        run! bm := RunKey slot pressed m in
        Returns (if bm.1 then (true, with_input_time slot time bm.2) else (false, bm.2))
  end.

(** [Render]: describing a row changes the stack's memory of it. *)
Definition Render (slot : Z) (menu : MenuOf W) m : text * M :=
  match GetPrompt (captures m.2) slot with
  | Some prompt => (RenderCaptureOverlay (Title menu) prompt, m)
  | None =>
      RenderMenuHtml getOr (Some menu)
        (mkView (Some (fun index m => Describe world getOr slot index (now m.2) m)) (BreadcrumbOf m.1 slot) slot
           (Selected (cursor_at m.2 slot)) (1 <? Depth m.1 slot)) m
  end.

Definition with_page (slot : Z) (page : Page) m : M :=
  own (fun x => let c := cursor_at x slot in
    with_cursors (fun l => PerSlot_set l slot (mkCursor (Selected c) (PrevButtons c) (LastInputTime c) page)) x) m.

Definition Draw (slot : Z) (changed : bool) m : M :=
  match MenuStack.Current m.1 slot with
  | None => m
  | Some menu =>
      let page := LastSent (cursor_at m.2 slot) in
      let time := now m.2 in
      let stale := changed || bool_decide (Html page = []) || (RenderIntervalMs <=? time - RenderedAt page) in
      let '(page, m) :=
        if stale then
          let '(html, m) := Render slot menu m in
          (if bool_decide (html = Html page) then mkPage (Html page) time (SentAt page) else mkPage html time 0, m)
        else (page, m) in
      if ResendIntervalMs <=? time - SentAt page
      then with_page slot (mkPage (Html page) (RenderedAt page) time) (own (out (SentHtml slot (Html page))) m)
      else with_page slot page m
  end.

Definition frame_slot m (slot : Z) : outcome M :=
  if negb (IsOpen m.1 slot) then Returns m
  else
    run! bm := ReadKeys slot m in
    Returns (if IsOpen bm.2.1 slot then Draw slot bm.1 bm.2 else bm.2).

Definition Html_OnGameFrame m : outcome M :=
  run! m := outcome_fold frame_slot all_slots m in
  Returns (if AnyOpen m.1 then m else own (with_on_frame false) m).

(** ** Everything that happens to it *)

Inductive html_event :=
| HtmlRun (p : program W)                    (** code that holds the surface *)
| HtmlFrame (time : Z) (held : Z -> Z)       (** a game frame, at its time and with what is held down *)
| HtmlChat (slot : Z) (line : text)
| HtmlTimer (slot : Z)                       (** a held commit's delay *)
| HtmlPromptTimeout (slot : Z)
| HtmlFreeze (e : freeze_event)              (** the setting, frames and pawns, as [MenuFreeze] sees them; its sessions are this surface's *)
| HtmlWorld (f : W -> W).

Definition on_html_event m (e : html_event) : outcome M :=
  match e with
  | HtmlRun p => run! bm := run p m in Returns bm.2
  | HtmlFrame time held =>
      let m := own (fun x => mkHtml (cursors x) (captures x) (freeze x) (on_frame x) time held (outputs x) (world x)) m in
      if on_frame m.2 then Html_OnGameFrame m else Returns m
  | HtmlChat slot line =>
      run! bm := TryConsume (fun m : M => captures m.2) (fun c m => own (with_captures (fun _ => c)) m)
        (fun callback slot line m => run (callback slot line) m) slot line m in Returns bm.2
  | HtmlTimer slot => TimerFired run committed slot m
  | HtmlPromptTimeout slot => Returns (own (with_captures (TimedOut slot)) m)
  | HtmlFreeze e => Returns (if outside e then own (with_freeze (fun z => on_freeze_event z e)) m else m)
  | HtmlWorld f => Returns (own (fun x => set_world (f (world x)) x) m)
  end.

(** ** Sessions *)

(** While a slot's menu is open the frame work runs, and a session is frozen only while it has a menu. *)
Definition session_ok m (slot : Z) : Prop :=
  (IsOpen m.1 slot = true -> on_frame m.2 = true) /\
  (requested (freeze m.2) slot = true -> IsOpen m.1 slot = true).

Record html_wf m : Prop := {
  wf_states : PerSlot_wf (states m.1);
  wf_cursors : PerSlot_wf (cursors m.2);
  wf_freeze : freeze_ok (freeze m.2) }.

(** Every slot's session, but for [slot] that an operation is in the middle of. *)
Definition html_ok_but (but : Z) m : Prop := html_wf m /\ forall slot, IsValidSlot slot = true -> slot <> but -> session_ok m slot.
Definition html_ok m : Prop := html_wf m /\ forall slot, IsValidSlot slot = true -> session_ok m slot.

Lemma html_ok_weaken slot m : html_ok m -> html_ok_but slot m.
Proof. intros [Hw Hs]. split; auto. Qed.

Lemma html_ok_frame slot m : html_ok m -> IsValidSlot slot = true -> IsOpen m.1 slot = true -> on_frame m.2 = true.
Proof. intros [_ Hs] Hv. by apply Hs. Qed.

Lemma html_ok_restore slot m : html_ok_but slot m -> (IsValidSlot slot = true -> session_ok m slot) -> html_ok m.
Proof. intros [Hw Hs] H. split; [done|]. intros slot' Hv. destruct (decide (slot' = slot)) as [->|Hne]; auto. Qed.

(** A slot's session only depends on its own menus and freeze. *)
Lemma session_ok_same m m' slot :
  state_at m'.1 slot = state_at m.1 slot -> (on_frame m.2 = true -> on_frame m'.2 = true) ->
  requested (freeze m'.2) slot = requested (freeze m.2) slot ->
  session_ok m slot -> session_ok m' slot.
Proof.
  unfold session_ok, IsOpen, Depth. intros -> Hf -> [H1 H2]. split; auto.
Qed.

Lemma set_state_but slot st m : html_ok_but slot m -> html_ok_but slot (on_stack (MenuStack.set_state slot st) m).
Proof.
  intros [[H1 H2 H3] Hs]. split; [split; cbn; auto using PerSlot_set_wf|]. intros slot' Hv Hne.
  apply (session_ok_same m); auto. cbn [on_stack fst]. rewrite state_at_set by done. by destruct (Z.eqb_spec slot slot').
Qed.

Lemma clear_entry_html slot end_ m : html_ok m -> html_ok (on_stack (clear_entry slot end_) m).
Proof. intros [[H1 H2 H3] Hs]. split; [by split|exact Hs]. Qed.

(** Cursors are nothing to it. *)
Lemma own_cursor_but but slot c m : html_ok_but but m -> html_ok_but but (own (with_cursors (fun l => PerSlot_set l slot c)) m).
Proof. intros [[H1 H2 H3] Hs]. split; [split; cbn; auto using PerSlot_set_wf|exact Hs]. Qed.

Lemma own_cursor_ok slot c m : html_ok m -> html_ok (own (with_cursors (fun l => PerSlot_set l slot c)) m).
Proof. intros [[H1 H2 H3] Hs]. split; [split; cbn; auto using PerSlot_set_wf|exact Hs]. Qed.

Lemma own_same_ok f m :
  (forall x : CenterHtml W, cursors (f x) = cursors x /\ freeze (f x) = freeze x /\ (on_frame x = true -> on_frame (f x) = true)) ->
  forall but, html_ok_but but m -> html_ok_but but (own f m).
Proof.
  intros Hf but [[H1 H2 H3] Hs]. destruct (Hf m.2) as (E1 & E2 & E3). split.
  - split; cbn; by rewrite ?E1, ?E2.
  - intros slot Hv Hne. apply (session_ok_same m); auto; cbn; by rewrite ?E2.
Qed.

Lemma html_ok_own f m :
  (forall x : CenterHtml W, cursors (f x) = cursors x /\ freeze (f x) = freeze x /\ (on_frame x = true -> on_frame (f x) = true)) ->
  html_ok m -> html_ok (own f m).
Proof.
  intros Hf Hok. apply (html_ok_restore 0); [by apply own_same_ok, html_ok_weaken|]. intros Hv.
  destruct Hok as [_ Hs]. destruct (Hf m.2) as (E1 & E2 & E3).
  apply (session_ok_same m); auto; cbn; by rewrite ?E2.
Qed.

Lemma IsOpen_menus (s : MenuStack W) slot : IsOpen s slot = IsValidSlot slot && negb (bool_decide (Menus (state_at s slot) = [])).
Proof.
  unfold IsOpen, Depth. destruct (IsValidSlot slot); [|done]. cbn [andb]. destruct (Menus _); [done|]. rewrite bool_decide_eq_false_2 by done.
  apply Z.ltb_lt. cbn [length]. lia.
Qed.

Lemma Rebuild_sets (s : MenuStack W) slot menus rows breadcrumb :
  PerSlot_wf (states s) -> IsValidSlot slot = true ->
  holds True (fun s' => exists path, s' = MenuStack.set_state slot (mkState menus [] path) s)
    (Rebuild slot (MenuStack.set_state slot (mkState menus rows breadcrumb) s)).
Proof.
  intros Hw Hv. unfold Rebuild. rewrite state_at_set, Z.eqb_refl by done. cbn [Menus].
  destruct (breadcrumb_loop menus []) as [path| |]; cbn; [|done..]. rewrite set_state_twice. eauto.
Qed.

Lemma set_menus_open (s : MenuStack W) slot menus path :
  PerSlot_wf (states s) -> IsValidSlot slot = true -> menus <> [] -> IsOpen (MenuStack.set_state slot (mkState menus [] path) s) slot = true.
Proof. intros Hw Hv Hm. rewrite IsOpen_menus, Hv, state_at_set, Z.eqb_refl by done. cbn. by rewrite bool_decide_eq_false_2. Qed.

Section Preserved.
Context (run : program W -> M -> outcome (bool * M)) (committed : Z -> M -> outcome M).
Context (Hrun : forall p m, html_ok m -> holds True (fun bm => html_ok bm.2) (run p m)).
Context (Hcommitted : forall slot m, html_ok m -> holds True html_ok (committed slot m)).

Lemma ApplyPending_html slot m : html_ok m -> holds True html_ok (ApplyPending run committed slot m).
Proof.
  intros Hok. unfold ApplyPending. destruct (negb _); [done|]. pose proof (clear_entry_html slot Applied m Hok) as Hc.
  destruct (Commit _) as [[id commit]|]; [|done]. eapply holds_bind; [by apply Hrun|]. intros bm Hbm. by apply Hcommitted.
Qed.

Lemma Push_html slot menu m :
  html_ok_but slot m -> IsValidSlot slot = true ->
  holds True (fun m' => html_ok_but slot m' /\ IsOpen m'.1 slot = true /\ m'.2 = m.2) (on_stack_run (Push slot (Some menu)) m).
Proof.
  intros Hok Hv. pose proof Hok as [[Hw _ _] _]. unfold on_stack_run, Push. rewrite Hv. cbn [negb].
  eapply holds_bind; [by apply Rebuild_sets|]. intros s [path ->]. split_and!; [by apply (set_state_but slot _ m)| |done].
  apply set_menus_open; [done..|]. by destruct (Menus _).
Qed.

Lemma Clear_html slot m :
  html_ok m -> holds True (fun m' => html_ok_but slot m' /\ IsOpen m'.1 slot = false) (Clear run committed slot m).
Proof.
  intros Hok. unfold Clear. destruct (IsValidSlot slot) eqn:Hv; cbn [negb].
  - eapply holds_bind; [by apply ApplyPending_html|]. intros m' Hok'. split; [by apply set_state_but, html_ok_weaken|].
    destruct Hok' as [[Hw _ _] _]. rewrite IsOpen_menus, Hv. cbn [on_stack fst]. by rewrite state_at_set, Z.eqb_refl by done.
  - split; [by apply html_ok_weaken|]. by rewrite IsOpen_menus, Hv.
Qed.

Lemma Pop_html slot m :
  html_ok m -> holds True (fun m' => html_ok_but slot m' /\ (IsOpen m'.1 slot = true -> on_frame m'.2 = true)) (Pop run committed slot m).
Proof.
  intros Hok. unfold Pop. destruct (IsValidSlot slot) eqn:Hv; cbn [negb orb].
  2: { split; [by apply html_ok_weaken|]. by rewrite IsOpen_menus, Hv. }
  case_bool_decide; [split; [by apply html_ok_weaken|by apply html_ok_frame]|].
  eapply holds_bind; [by apply ApplyPending_html|]. intros m' Hok'. cbn beta. case_bool_decide as Hm; [done|].
  assert (on_frame m'.2 = true) as Hf by (apply (html_ok_frame slot m'); [done..|]; by rewrite IsOpen_menus, Hv, bool_decide_eq_false_2).
  case_bool_decide; [split; [by apply set_state_but, html_ok_weaken|done]|].
  pose proof Hok' as [[Hw _ _] _]. unfold on_stack_run. eapply holds_bind; [by apply (Rebuild_sets m'.1)|].
  intros s [path ->]. split; [by apply (set_state_but slot _ m'), html_ok_weaken|done].
Qed.

Lemma ResetCursor_ok slot m : html_ok_but slot m -> IsOpen m.1 slot = true -> on_frame m.2 = true -> html_ok (ResetCursor slot m).
Proof.
  intros Hok Ho Hf. unfold ResetCursor. apply (html_ok_restore slot); [by apply own_cursor_but|]. by split.
Qed.

Lemma frame_on_but slot m : html_ok_but slot m -> html_ok_but slot (own (fun x => if on_frame x then x else with_on_frame true x) m).
Proof. apply own_same_ok. intros x. by destruct (on_frame x) eqn:E; rewrite ?E. Qed.

Lemma Html_Push_ok slot menu m : html_ok_but slot m -> IsValidSlot slot = true -> holds True html_ok (Html_Push run committed slot (Some menu) m).
Proof.
  intros Hok Hv. unfold Html_Push, do_stack_step. eapply holds_bind; [by apply Push_html|]. intros m' (Hok' & Ho & _).
  assert (forall m, own (fun x => if on_frame x then x else with_on_frame true x) (ResetCursor slot m) =
                    ResetCursor slot (own (fun x => if on_frame x then x else with_on_frame true x) m)) as E.
  { intros [s x]. unfold ResetCursor, own; cbn. by destruct (on_frame x). }
  cbn [holds]. rewrite E. apply ResetCursor_ok; [by apply frame_on_but|done|]. cbn. by destruct (on_frame m'.2) eqn:Ef.
Qed.

Lemma Closed_ok slot m : html_ok_but slot m -> IsValidSlot slot = true -> IsOpen m.1 slot = false -> html_ok (Html_Closed slot m).
Proof.
  intros [[H1 H2 H3] Hs] Hv Ho. apply (html_ok_restore slot).
  - split; [split; cbn; [done|by apply PerSlot_set_wf|by apply (on_freeze_event_ok _ (Closes slot))]|].
    intros slot' Hv' Hne. apply (session_ok_same m); auto; cbn. rewrite requested_Close by done. by destruct (Z.eqb_spec slot slot').
  - intros _. split; cbn; [by rewrite Ho|]. by rewrite requested_Close, Z.eqb_refl by done.
Qed.

Lemma captures_ok f m : html_ok m -> html_ok (own (with_captures f) m).
Proof. by apply html_ok_own. Qed.

Lemma Html_CloseAll_ok slot m :
  html_ok m -> holds True (fun m' => html_ok m' /\ (IsValidSlot slot = true -> IsOpen m'.1 slot = false)) (Html_CloseAll run committed slot m).
Proof.
  intros Hok. unfold Html_CloseAll. destruct (IsValidSlot slot) eqn:Hv; cbn [negb]; [|done].
  pose proof (captures_ok (CancelCapture slot) m Hok) as Hok1. destruct (IsOpen _ _) eqn:Ho; cbn [negb]; [|by split].
  eapply holds_bind; [by apply Clear_html|]. intros m' [Hok' Ho']. split; [by apply Closed_ok|]. intros _. exact Ho'.
Qed.

Lemma Html_Close_ok slot m : html_ok m -> holds True html_ok (Html_Close run committed slot m).
Proof.
  intros Hok. unfold Html_Close. destruct (IsValidSlot slot) eqn:Hv; cbn [negb]; [|done].
  pose proof (captures_ok (CancelCapture slot) m Hok) as Hok1. destruct (IsOpen _ _) eqn:Ho; cbn [negb]; [|done].
  eapply holds_bind; [by apply Pop_html|]. intros m' [Hok' Hf]. cbn beta. cbn [holds]. destruct (IsOpen m'.1 slot) eqn:Ho'; [by apply ResetCursor_ok; auto|by apply Closed_ok].
Qed.

Lemma Freeze_Open_but slot b m : html_ok m -> IsValidSlot slot = true -> html_ok_but slot (own (with_freeze (Freeze_Open slot b)) m).
Proof.
  intros [[H1 H2 H3] Hs] Hv. split; [split; cbn; [done..|by apply (on_freeze_event_ok _ (Opens slot b))]|].
  intros slot' Hv' Hne. apply (session_ok_same m); auto. cbn. rewrite requested_Open by done. by destruct (Z.eqb_spec slot slot').
Qed.

Lemma Html_OpenSession_ok slot menu options m : html_ok m -> holds True (fun bm => html_ok bm.2) (Html_OpenSession run committed slot menu options m).
Proof.
  intros Hok. unfold Html_OpenSession. destruct (IsValidSlot slot) eqn:Hv; cbn [negb orb]; [|done]. destruct menu as [menu|]; [|done].
  cbn [option_map]. case_bool_decide as Hsome; [cbn [negb]|done].
  eapply holds_bind; [by apply Html_CloseAll_ok|]. intros m1 [Hok1 _]. eapply holds_bind; [by apply Html_Push_ok; [apply Freeze_Open_but|]|].
  by intros m2.
Qed.

Lemma Html_Open_ok slot menu m : html_ok m -> holds True html_ok (Html_Open run committed slot menu m).
Proof.
  intros Hok. unfold Html_Open. destruct (IsValidSlot slot) eqn:Hv; cbn [negb orb]; [|done]. destruct menu as [menu|]; [|done].
  cbn [option_map]. case_bool_decide as Hsome; [cbn [negb]|done].
  destruct (negb _); [|by apply Html_Push_ok; [apply html_ok_weaken|]].
  eapply holds_bind; [by apply Html_OpenSession_ok|]. by intros bm.
Qed.

Lemma Html_SlotChanged_ok slot m : html_ok m -> holds True html_ok (Html_SlotChanged run committed slot m).
Proof.
  intros [[H1 H2 H3] Hs]. cbn. apply (html_ok_restore slot).
  - split; [split; cbn; [by apply PerSlot_Reset_wf..|by apply (on_freeze_event_ok _ (SlotChanges slot))]|].
    intros slot' Hv' Hne. apply (session_ok_same m); auto; cbn.
    + unfold state_at. cbn. rewrite PerSlot_get_Reset by done. by destruct (Z.eqb_spec slot slot').
    + change (requested (on_freeze_event (freeze m.2) (SlotChanges slot)) slot' = requested (freeze m.2) slot').
      rewrite requested_SlotChanges by done. by destruct (Z.eqb_spec slot slot').
  - intros Hv. assert (state_at (Stack_SlotChanged slot m.1) slot = State_new) as Hst.
    { unfold state_at. cbn. by rewrite PerSlot_get_Reset, Z.eqb_refl by done. }
    split_and!; cbn [own fst snd on_stack].
    + rewrite IsOpen_menus, Hst. by rewrite andb_comm.
    + intros Hr. exfalso. revert Hr. change (requested (on_freeze_event (freeze m.2) (SlotChanges slot)) slot = true -> False).
      by rewrite requested_SlotChanges, Z.eqb_refl by done.
Qed.

Lemma html_call_ok c m : html_ok m -> holds True (fun bm => html_ok bm.2) (html_call run committed c m).
Proof.
  intros Hok. destruct c; cbn [html_call]; [by apply Html_OpenSession_ok|..]; try (apply (holds_bind _ html_ok); [|by intros m1]).
  - by apply Html_Open_ok.
  - exact Hok.
  - by apply Html_Close_ok.
  - eapply holds_impl; [done| |by apply Html_CloseAll_ok]. by intros m' [].
  - eapply holds_impl; [done| |apply Html_CloseAll_ok]; [by intros m' []|]. destruct hasReply; [by apply html_ok_own|done].
  - unfold Html_Prompt. destruct (negb _); [done|]. by apply own_cursor_ok, captures_ok.
  - by apply Html_SlotChanged_ok.
Qed.
End Preserved.

(** ** Runs and frames keep every session *)

Lemma exec_html n : runs_keep html_ok (exec_run world set_world n) (exec_committed world set_world n).
Proof.
  apply exec_keeps; [|intros r c [Hr Hc]; exact (html_call_ok r c Hr Hc)|done].
  intros w m Hok. exact (html_ok_own (set_world w) m (fun x => conj eq_refl (conj eq_refl (fun h => h))) Hok).
Qed.

Lemma run_html p m : html_ok m -> holds True (fun bm => html_ok bm.2) (run p m).
Proof. apply (keep_run _ _ _ (exec_html depth)). Qed.

Lemma committed_html slot m : html_ok m -> holds True html_ok (committed slot m).
Proof. apply (keep_committed _ _ _ (exec_html depth)). Qed.

Lemma apply_html slot m : html_ok m -> holds True html_ok (ApplyPending run committed slot m).
Proof. apply ApplyPending_html; [apply run_html|apply committed_html]. Qed.

Lemma Select_html slot index m : html_ok m -> holds True html_ok (Select slot index m).
Proof.
  intros Hok. unfold Select. destruct (MenuStack.Current _ _); [|done]. destruct (_ || _); [done|].
  apply (holds_bind _ html_ok); [|intros m' Hok'; by apply (own_cursor_ok slot _ m')].
  destruct (IsPending _ _ _); [done|by apply apply_html].
Qed.

Lemma JumpPage_html slot delta m : html_ok m -> holds True html_ok (JumpPage slot delta m).
Proof. intros Hok. unfold JumpPage. destruct (MenuStack.Current _ _) as [menu|]; [|done]. destruct (Items menu); [done|by apply Select_html]. Qed.

Lemma Activate_html slot index m : html_ok m -> holds True html_ok (Activate world run committed slot index m).
Proof.
  intros Hok. unfold Activate. destruct (negb _); [done|]. apply (holds_bind _ html_ok).
  { destruct (IsPending _ _ _); [|by apply apply_html]. unfold Drop. cbn. destruct (IsValidSlot slot); [by apply clear_entry_html|done]. }
  intros m' Hok'. destruct (item_at _ _ _) as [[menu item]|]; [|done]. destruct (item_Activate item); [|done].
  destruct (IsRowActionable _ _ _); [|done]. eapply holds_bind; [by apply run_html|]. by intros bm.
Qed.

Lemma set_entry_html slot index commit armed m : html_ok m -> html_ok (on_stack (set_entry slot index commit armed) m).
Proof. intros [[H1 H2 H3] Hs]. split; [by split|exact Hs]. Qed.

Lemma Step_html slot index direction m : html_ok m -> holds True (fun bm => html_ok bm.2) (Step world true run committed slot index direction m).
Proof.
  intros Hok. unfold Step. destruct (item_at _ _ _) as [[menu item]|]; [|done]. destruct (item_Step item); [|done]. destruct (negb _); [done|].
  eapply holds_bind; [by apply run_html|]. intros [b m'] Hok'. cbn [snd] in Hok'. destruct (negb b); [done|].
  destruct (item_Commit item); [|done]. destruct (MenuStack.Current _ _); [|done]. destruct (_ =? _); [|done].
  apply (holds_bind _ html_ok); [|by intros m2]. unfold Hold. destruct (negb _); [done|].
  apply (holds_bind _ html_ok); [destruct (_ =? _); [done|by apply apply_html]|]. intros m2 Hok2. by apply set_entry_html.
Qed.

Lemma consumed_html (o : outcome M) : holds True html_ok o -> holds True (fun bm : bool * M => html_ok bm.2) (run! m' := o in Returns (true, m')) .
Proof. intros H. eapply holds_bind; [exact H|]. by intros m'. Qed.

Lemma RunKey_html slot pressed m : html_ok m -> holds True (fun bm => html_ok bm.2) (RunKey slot pressed m).
Proof.
  intros Hok. unfold RunKey. destruct (has pressed IN_RELOAD); [apply consumed_html, Html_Close_ok; [exact run_html|exact committed_html|done]|].
  destruct (_ =? 0); [done|]. destruct (has pressed IN_FORWARD); [by apply consumed_html, Select_html|].
  destruct (has pressed IN_BACK); [by apply consumed_html, Select_html|]. destruct (has pressed (Z.lor _ _)).
  - eapply holds_bind; [by apply Step_html|]. intros [stepped m'] Hok'. cbn [snd] in Hok'. destruct stepped; [done|].
    destruct (_ <=? _); [done|by apply consumed_html, JumpPage_html].
  - destruct (has pressed IN_USE); [by apply consumed_html, Activate_html|done].
Qed.

Lemma ReadKeys_html slot m : html_ok m -> holds True (fun bm => html_ok bm.2) (ReadKeys slot m).
Proof.
  intros Hok. unfold ReadKeys. destruct (MenuStack.Current _ _); [|done].
  pose proof (own_cursor_ok slot (mkCursor (Selected (cursor_at m.2 slot)) (buttons m.2 slot) (LastInputTime (cursor_at m.2 slot)) (LastSent (cursor_at m.2 slot))) m Hok) as Hok1.
  destruct (_ =? 0); [done|]. destruct (_ <? PressGapMs); [done|]. destruct (IsCapturing _ _).
  - destruct (negb _); [done|]. exact (own_cursor_ok slot _ _ (captures_ok (CancelCapture slot) _ Hok1)).
  - eapply holds_bind; [by apply RunKey_html|]. intros [b m'] Hok'. cbn [fst snd] in *. destruct b; [exact (own_cursor_ok slot _ _ Hok')|done].
Qed.

Lemma Describe_html slot index time m : html_ok m -> html_ok (Describe world getOr slot index time m).2.
Proof.
  intros Hok. unfold Describe. destruct (item_at _ _ _) as [[menu item]|]; [|done]. cbn [snd].
  apply (html_ok_restore slot); [by apply set_state_but, html_ok_weaken|]. intros Hv. pose proof Hok as [[Hw _ _] Hs].
  specialize (Hs slot Hv). destruct Hs as [H1 H2]. rewrite IsOpen_menus, Hv in H1, H2.
  split; rewrite IsOpen_menus, Hv; cbn [on_stack fst snd]; by rewrite state_at_set, Z.eqb_refl by done.
Qed.

(** Drawing keeps what describing rows and the surface's own records keep. *)
Lemma Draw_keeps (P : M -> Prop) slot changed m :
  (forall index time m, P m -> P (Describe world getOr slot index time m).2) ->
  (forall page m, P m -> P (with_page slot page m)) -> (forall o m, P m -> P (own (out o) m)) ->
  P m -> P (Draw slot changed m).
Proof.
  intros Hd Hp Ho Hm. unfold Draw. destruct (MenuStack.Current _ _) as [menu|]; [|done].
  assert (P (Render slot menu m).2) as Hr.
  { unfold Render. destruct (GetPrompt _ _); [done|]. eapply RenderMenuHtml_keeps; [reflexivity|intros i m1 H1; by apply Hd|done]. }
  destruct (Render slot menu m) as [html m1]. cbn [snd] in Hr.
  destruct (_ || _); [destruct (bool_decide _)|]; destruct (_ <=? _); auto.
Qed.

Lemma Draw_html slot changed m : html_ok m -> html_ok (Draw slot changed m).
Proof.
  apply Draw_keeps; [apply Describe_html|intros page m1 H; exact (own_cursor_ok slot _ _ H)|intros o m1 H; by apply html_ok_own].
Qed.

Lemma frame_slot_html m slot : html_ok m -> holds True html_ok (frame_slot m slot).
Proof.
  intros Hok. unfold frame_slot. destruct (negb _); [done|]. eapply holds_bind; [by apply ReadKeys_html|].
  intros [b m'] Hok'. cbn. destruct (IsOpen _ _); [by apply Draw_html|done].
Qed.

Lemma nothing_open (s : MenuStack W) slot : AnyOpen s = false -> IsOpen s slot = false.
Proof.
  intros Ha. rewrite IsOpen_menus. destruct (IsValidSlot slot) eqn:Hv; [|done]. cbn [andb]. apply negb_false_iff, bool_decide_eq_true.
  unfold state_at. destruct (PerSlot_get (states s) slot) as [st|] eqn:E; [|done]. apply PerSlot_get_in in E as [_ E]. cbn.
  destruct (Menus st) eqn:Em; [done|]. exfalso. unfold AnyOpen in Ha. apply not_true_iff_false in Ha. apply Ha.
  apply existsb_exists. exists st. split; [by eapply list_elem_of_In, list_elem_of_lookup_2|]. by rewrite Em.
Qed.

Lemma on_html_event_ok m e : html_ok m -> holds True html_ok (on_html_event m e).
Proof.
  intros Hok. destruct e; cbn [on_html_event].
  - eapply holds_bind; [by apply run_html|]. by intros bm.
  - set (m1 := own _ m). assert (html_ok m1) as Hok1 by by apply html_ok_own. destruct (on_frame m1.2); [|done].
    unfold Html_OnGameFrame. apply (holds_bind _ html_ok); [apply holds_fold; [done|]; intros; by apply frame_slot_html|].
    intros m2 [[H1 H2 H3] Hs]. cbn [holds]. destruct (AnyOpen m2.1) eqn:Ea; [by split|]. split; [by split|]. intros slot Hv.
    destruct (Hs slot Hv) as [_ Hr]. split; [|exact Hr]. cbn. by rewrite nothing_open.
  - unfold TryConsume. destruct (capture_at _ _) as [pending|]; cbn [outcome_bind]; [|exact Hok].
    apply (holds_bind _ (fun bm : bool * M => html_ok bm.2)); [|done].
    apply (holds_bind _ (fun bm : bool * M => html_ok bm.2)); [by apply run_html, captures_ok|].
    intros [accepted m'] Hok'. cbn [snd] in Hok'. cbn [holds snd]. destruct (_ && _); [by apply captures_ok|done].
  - unfold TimerFired. destruct (Armed _); [by apply apply_html|done].
  - by apply captures_ok.
  - destruct (outside e) eqn:Eo; [|done]. destruct Hok as [[H1 H2 H3] Hs]. split; [split; cbn; [done..|by apply on_freeze_event_ok]|].
    intros slot Hv. apply (session_ok_same m); auto. cbn. by apply requested_outside.
  - by apply html_ok_own.
Qed.

(** ** And end, the stack well formed *)

Abbreviation stacked := (fun m : M => stack_ok m.1).
Abbreviation stacked_by := (fun bm : bool * M => stack_ok bm.2.1).

Lemma stacked_run p m : stack_ok m.1 -> holds False stacked_by (run p m).
Proof.
  intros Hok. eapply holds_impl; [exact (fun f => f)| |exact (run_ok world set_world getOr m p Hok)]. intros bm He. by apply He.
Qed.

Lemma stacked_Close slot m : stack_ok m.1 -> holds False stacked (Html_Close run committed slot m).
Proof.
  intros Hok. eapply holds_impl; [exact (fun f => f)| |
    exact (law_Close _ _ _ (fun m1 m2 : M => evolves m1.1 m2.1) m (run_relation world set_world getOr m Hok) slot m (stack_evolves_refl _))].
  intros m' He. by apply He.
Qed.

Lemma stacked_apply slot m : stack_ok m.1 -> holds False stacked (ApplyPending run committed slot m).
Proof.
  intros Hok. eapply holds_impl; [exact (fun f => f)| |exact (ApplyPending_keeps world set_world getOr slot m Hok)]. intros m' He. by apply He.
Qed.

Lemma stacked_Select slot index m : stack_ok m.1 -> holds False stacked (Select slot index m).
Proof.
  intros Hok. unfold Select. destruct (MenuStack.Current _ _); [|done]. destruct (_ || _); [done|].
  apply (holds_bind _ stacked); [|by intros m']. destruct (IsPending _ _ _); [done|by apply stacked_apply].
Qed.

Lemma stacked_consumed (o : outcome M) : holds False stacked o -> holds False stacked_by (run! m' := o in Returns (true, m')).
Proof. intros H. eapply holds_bind; [exact H|]. by intros m'. Qed.

Lemma stacked_RunKey slot pressed m : stack_ok m.1 -> holds False stacked_by (RunKey slot pressed m).
Proof.
  intros Hok. unfold RunKey. destruct (has pressed IN_RELOAD); [by apply stacked_consumed, stacked_Close|].
  destruct (_ =? 0); [done|]. destruct (has pressed IN_FORWARD); [by apply stacked_consumed, stacked_Select|].
  destruct (has pressed IN_BACK); [by apply stacked_consumed, stacked_Select|]. destruct (has pressed (Z.lor _ _)).
  - eapply holds_bind; [exact (Step_keeps world set_world getOr true slot _ _ m Hok)|]. intros [stepped m'] Hok'. cbn [snd] in Hok'.
    destruct stepped; [done|]. destruct (_ <=? _); [done|]. apply stacked_consumed. unfold JumpPage.
    destruct (MenuStack.Current _ _) as [menu|]; [|done]. destruct (Items menu); [done|by apply stacked_Select].
  - destruct (has pressed IN_USE); [|done]. apply stacked_consumed.
    exact (on_event_ok world set_world getOr true m (OnActivate slot (Selected (cursor_at m.2 slot))) Hok).
Qed.

Lemma stacked_ReadKeys slot m : stack_ok m.1 -> holds False stacked_by (ReadKeys slot m).
Proof.
  intros Hok. unfold ReadKeys. destruct (MenuStack.Current _ _); [|done]. destruct (_ =? 0); [done|]. destruct (_ <? PressGapMs); [done|].
  destruct (IsCapturing _ _); [by destruct (negb _)|]. eapply holds_bind; [by apply stacked_RunKey|]. intros [b m'] Hok'. by destruct b.
Qed.

Lemma stacked_Describe slot index time m : stack_ok m.1 -> stack_ok (Describe world getOr slot index time m).2.1.
Proof. intros Hok. by apply (evolves_ok _ _ (Describe_evolves world getOr slot index time m)). Qed.

Lemma stacked_Draw slot changed m : stack_ok m.1 -> stack_ok (Draw slot changed m).1.
Proof. apply (Draw_keeps stacked); [apply stacked_Describe|done|done]. Qed.

Lemma stacked_frame m slot : stack_ok m.1 -> holds False stacked (frame_slot m slot).
Proof.
  intros Hok. unfold frame_slot. destruct (negb _); [done|]. eapply holds_bind; [by apply stacked_ReadKeys|].
  intros [b m'] Hok'. cbn. destruct (IsOpen _ _); [by apply stacked_Draw|done].
Qed.

Lemma stacked_event m e : stack_ok m.1 -> holds False stacked (on_html_event m e).
Proof.
  intros Hok. destruct e; cbn [on_html_event]; try done.
  - eapply holds_bind; [by apply stacked_run|]. by intros bm.
  - destruct (on_frame _); [|done]. unfold Html_OnGameFrame. apply (holds_bind _ stacked); [apply holds_fold; [done|]; intros; by apply stacked_frame|].
    intros m2 Hok2. cbn [holds]. by destruct (AnyOpen m2.1).
  - unfold TryConsume. destruct (capture_at _ _) as [pending|]; cbn [outcome_bind]; [|exact Hok].
    apply (holds_bind _ stacked_by); [|done]. apply (holds_bind _ stacked_by); [by apply stacked_run|].
    intros [accepted m'] Hok'. cbn [snd] in Hok'. cbn [holds snd]. by destruct (_ && _).
  - exact (on_event_ok world set_world getOr true m (OnTimer slot) Hok).
  - by destruct (outside e).
Qed.

Lemma stacked_CloseAll slot m : stack_ok m.1 -> holds False stacked (Html_CloseAll run committed slot m).
Proof.
  intros Hok. eapply holds_impl; [exact (fun f => f)| |
    exact (law_CloseAll _ _ _ (fun m1 m2 : M => evolves m1.1 m2.1) m (run_relation world set_world getOr m Hok) slot m (stack_evolves_refl _))].
  intros m' He. by apply He.
Qed.

Lemma idle_frame m : AnyOpen m.1 = false -> Html_OnGameFrame m = Returns (own (with_on_frame false) m).
Proof.
  intros Ha. unfold Html_OnGameFrame. assert (forall l, outcome_fold frame_slot l m = Returns m) as ->; [|by cbn [outcome_bind]; rewrite Ha].
  induction l as [|slot l IH]; [done|]. cbn [outcome_fold]. unfold frame_slot at 1. by rewrite nothing_open by done.
Qed.

Lemma html_new_ok w : html_ok (MenuStack_new, CenterHtml_new w).
Proof.
  split; [split; try apply PerSlot_new_wf; apply (events_ok [])|]. intros slot Hv. split.
  - rewrite IsOpen_menus. unfold state_at. cbn [fst MenuStack_new states]. rewrite PerSlot_get_new. by rewrite andb_comm.
  - unfold requested, freeze_at. cbn [snd freeze CenterHtml_new MenuFreeze_new freeze_states]. unfold PerSlot_new.
    by rewrite (default_replicate (FreezeState_new, None)).
Qed.

(** Sessions on this surface. Whatever rows do when they are pressed, stepped or applied, whatever is typed, and
    whenever slots change hands, every run ends; a menu left on top is drawn by the frames, which stop with the last
    menu; a player is asked to be held still only while a menu of theirs is open; and closing everything, which is the
    way out of any state, leaves the slot with no menu and no request to hold it. *)
Theorem html_sessions evs w :
  holds False (fun m =>
    (forall slot, IsValidSlot slot = true ->
      (IsOpen m.1 slot = true -> on_frame m.2 = true) /\ (requested (freeze m.2) slot = true -> IsOpen m.1 slot = true)) /\
    (AnyOpen m.1 = false -> holds False (fun m' => on_frame m'.2 = false) (Html_OnGameFrame m)) /\
    (forall slot, IsValidSlot slot = true ->
      holds False (fun m' => IsOpen m'.1 slot = false /\ requested (freeze m'.2) slot = false) (Html_CloseAll run committed slot m)))
    (outcome_fold on_html_event evs (MenuStack_new, CenterHtml_new w)).
Proof.
  pose proof (holds_fold False stacked on_html_event evs (MenuStack_new, CenterHtml_new w) stack_ok_new stacked_event) as Hs.
  pose proof (holds_fold True html_ok on_html_event evs (MenuStack_new, CenterHtml_new w)) as Hh.
  destruct (outcome_fold _ _ _) as [m| |]; cbn [holds] in *; [|done..].
  assert (html_ok m) as Hok by (apply Hh; [apply html_new_ok|intros; by apply on_html_event_ok]).
  split_and!.
  - intros slot Hv. apply Hok, Hv.
  - intros Ha. by rewrite idle_frame.
  - intros slot Hv. pose proof (stacked_CloseAll slot m Hs) as Ht.
    pose proof (Html_CloseAll_ok run committed run_html committed_html slot m Hok) as Hc.
    destruct (Html_CloseAll _ _ _ _) as [m'| |]; cbn [holds] in *; [|done..]. destruct Hc as [Hok' Ho]. specialize (Ho Hv).
    split; [done|]. destruct Hok' as [_ Hs']. destruct (Hs' slot Hv) as [_ Hr]. destruct (requested _ _); [|done]. by rewrite Hr in Ho.
Qed.
End CenterHtmlMenu.

(** ** Samples *)

(** The keys are the bits 8, 16, 512, 1024, 32 and 8192. *)
Definition sample_html (evs : list (html_event (W := log))) : outcome (MenuStack log * CenterHtml log) :=
  outcome_fold (on_html_event (fun _ _ fallback => fallback) (fun key _ => key) true 8 16 512 1024 32 8192) evs (MenuStack_new, CenterHtml_new []).

Definition press (time bit : Z) : html_event (W := log) := HtmlFrame time (fun slot => if slot =? 3 then bit else 0).

(** A menu is opened, its second row stepped and left, its first pressed, and closed. *)
Example a_session :
  (run! m := sample_html [HtmlRun (DoCall (CallOpen 3 (Some (sample_menu (Done true)))) Done); press 1000 16; press 1300 0; press 1600 1024;
     press 1900 0; press 2200 8; press 2500 0; press 2800 32; press 3100 0; press 3400 8192] in
   Returns (world m.2, IsOpen m.1 3, on_frame m.2, length (outputs m.2))) = Returns ([20; 21; 12], false, false, 9%nat).
Proof. by vm_compute. Qed.

(** Leaving a row whose commit opens a shorter menu puts the cursor on a row that menu does not have. *)
Example cursor_past_the_rows :
  (run! m := sample_html [HtmlRun (DoCall (CallOpen 3 (Some (sample_menu (DoCall (CallOpen 3 (Some other_menu)) Done)))) Done);
     press 1000 1024; press 1300 0; press 1600 16] in
   Returns (world m.2, option_map (fun menu => length (Items menu)) (MenuStack.Current m.1 3), Selected (cursor_at m.2 3))) =
  Returns ([10; 11], Some 1%nat, 1).
Proof. by vm_compute. Qed.

Lemma html_sessions_witness :
  exists m, sample_html [HtmlFreeze (Enables true); HtmlRun (DoCall (CallOpen 3 (Some (sample_menu (Done true)))) Done)] = Returns m /\
    IsOpen m.1 3 = true /\ requested (freeze m.2) 3 = true /\ on_frame m.2 = true.
Proof.
  pose proof (html_sessions (fun _ _ fallback => fallback) (fun key _ => key) true 8 16 512 1024 32 8192
    [HtmlFreeze (Enables true); HtmlRun (DoCall (CallOpen 3 (Some (sample_menu (Done true)))) Done)] []) as H.
  assert (exists m, sample_html [HtmlFreeze (Enables true); HtmlRun (DoCall (CallOpen 3 (Some (sample_menu (Done true)))) Done)] = Returns m /\
    requested (freeze m.2) 3 = true) as (m & E & Hr) by (eexists; split; by vm_compute).
  exists m. unfold sample_html in *. rewrite E in H. destruct H as (H & _). specialize (H 3 eq_refl) as [Hf Ho].
  split; [exact E|]. split; [exact (Ho Hr)|]. split; [exact Hr|exact (Hf (Ho Hr))].
Defined.
