(* ===== verification/Screens.v ===== *)
(** * Panorama screens: [Ui/WriteCache.cpp], [Ui/ScreenEntity.cpp], [Ui/Screen.cpp], [Ui/LayoutPath.cpp]

    A screen is an entity whose texts and classes clients are told of. A cache skips what a client was told already; the
    engine beneath it may refuse a spawn or a write, lose the entity with the map, and reset a player's state. *)
From S2P Require Import Prelude Text Identity Errors.

(** ** The cache *)

Inductive WriteKind := WriteText_ | WriteClass_.
#[export] Instance WriteKind_eq_dec : EqDecision WriteKind.
Proof. solve_decision. Defined.

Definition kind_code (kind : WriteKind) : Z := match kind with WriteText_ => 0 | WriteClass_ => 1 end.

Definition KeySeparator : ascii := chr 31.

Definition KeyFor (kind : WriteKind) (elementId name : text) : text :=
  chr (kind_code kind) :: KeySeparator :: elementId ++ KeySeparator :: name.

Record Sent := mkSent { Values : gmap text text; SentCursor : option bool; Failed : bool }.
Definition Sent_new : Sent := mkSent ∅ None false.

Record WriteCache := mkCache { cache_slots : PerSlot (option Sent); everyone : Sent }.
Definition WriteCache_new : WriteCache := mkCache (PerSlot_new None) Sent_new.

(** [For]: a slot's record is made on first use. *)
Definition cache_for (c : WriteCache) (slot : Z) : option Sent :=
  if slot =? EveryoneSlot then Some (everyone c)
  else if negb (IsValidSlot slot) then None
  else Some (default Sent_new (mjoin (PerSlot_get (cache_slots c) slot))).

Definition cache_put (slot : Z) (sent : Sent) (c : WriteCache) : WriteCache :=
  if slot =? EveryoneSlot then mkCache (cache_slots c) sent
  else mkCache (PerSlot_set (cache_slots c) slot (Some sent)) (everyone c).

Definition Cache_Changed (slot : Z) (kind : WriteKind) (elementId name value : text) (c : WriteCache) : bool * WriteCache :=
  match cache_for c slot with
  | None => (false, c)
  | Some sent =>
      let key := KeyFor kind elementId name in
      if bool_decide (Values sent !! key = Some value) then (false, cache_put slot sent c)
      else (true, cache_put slot (mkSent (<[key := value]> (Values sent)) (SentCursor sent) (Failed sent)) c)
  end.

Definition Cache_CursorChanged (slot : Z) (shown : bool) (c : WriteCache) : bool * WriteCache :=
  match cache_for c slot with
  | None => (false, c)
  | Some sent =>
      if bool_decide (SentCursor sent = Some shown) then (false, cache_put slot sent c)
      else (true, cache_put slot (mkSent (Values sent) (Some shown) (Failed sent)) c)
  end.

Definition Cache_IsFirstFailure (slot : Z) (c : WriteCache) : bool * WriteCache :=
  match cache_for c slot with
  | None => (false, c)
  | Some sent => if Failed sent then (false, cache_put slot sent c) else (true, cache_put slot (mkSent (Values sent) (SentCursor sent) true) c)
  end.

Definition Cache_Invalidate (slot : Z) (c : WriteCache) : WriteCache :=
  match cache_for c slot with
  | None => c
  | Some sent => cache_put slot (mkSent ∅ None (Failed sent)) c
  end.

Definition Cache_RemoveSlot (slot : Z) (c : WriteCache) : WriteCache := mkCache (PerSlot_Reset None (cache_slots c) slot) (everyone c).
Definition Cache_Clear (c : WriteCache) : WriteCache := mkCache (PerSlot_ResetAll None (cache_slots c)) Sent_new.

(** ** The engine

    [custom_hud_layout] is the engine's: what is modelled is what the writes rely on. A live entity has a reference that
    is never used again, the texts and classes it was given for everyone and per player, who captures input, how many
    players it has state for and how full its three string tables are, which never shrink. *)

Record Hud := mkHud {
  HudRef : Z;
  Shown : gmap (Z * Z * text * text) text;   (** by engine slot, kind, element and name *)
  Captures : gmap Z bool;
  StateCount : Z;
  Tables : list Z }.

(** [spawns] answers the coming spawns: the state count of the entity, or a refusal. *)
Record Engine := mkEngine {
  live : option Hud;
  next_ref : Z;
  spawns : list (option Z);
  entities_available : bool;
  bound : bool;                        (** the five setters *)
  only_to : gmap Z Z }.                (** [Visibility]: who alone receives an entity *)

Definition set_live (h : option Hud) (e : Engine) : Engine := mkEngine h (next_ref e) (spawns e) (entities_available e) (bound e) (only_to e).
Definition set_only_to (f : gmap Z Z -> gmap Z Z) (e : Engine) : Engine :=
  mkEngine (live e) (next_ref e) (spawns e) (entities_available e) (bound e) (f (only_to e)).

(** ** The entity behind a screen *)

Record ScreenEntity := mkScreen {
  screen_owner : Z;
  entity : option Z;
  playersChangedSinceSpawn : bool;
  written : WriteCache;
  engine : Engine }.

Definition StringTableCap : Z := 1024.
Definition StringTableHeadroom : Z := 64.

Definition ScreenEntity_new (owner : Z) (e : Engine) : ScreenEntity := mkScreen owner None true WriteCache_new e.

Section ScreenEntity.
Implicit Types s : ScreenEntity.

Definition with_written (f : WriteCache -> WriteCache) s : ScreenEntity :=
  mkScreen (screen_owner s) (entity s) (playersChangedSinceSpawn s) (f (written s)) (engine s).
Definition with_engine (f : Engine -> Engine) s : ScreenEntity :=
  mkScreen (screen_owner s) (entity s) (playersChangedSinceSpawn s) (written s) (f (engine s)).
Definition with_players_changed (b : bool) s : ScreenEntity :=
  mkScreen (screen_owner s) (entity s) b (written s) (engine s).

Definition IsForPlayer s : bool := negb (screen_owner s =? EveryoneSlot).

(** [_entities.Get(_entity)] *)
Definition hud_of s : option Hud :=
  match entity s, live (engine s) with
  | Some ref, Some hud => if HudRef hud =? ref then Some hud else None
  | _, _ => None
  end.

Definition Exists_ s : bool := bool_decide (is_Some (option_map HudRef (hud_of s))).

Definition CacheSlotFor s (slot : Z) : option Z :=
  if negb (IsForPlayer s) then Some slot
  else if negb (slot =? EveryoneSlot) && negb (slot =? screen_owner s) then None
  else Some (screen_owner s).

Definition ContentSlotFor s (cacheSlot : Z) : Z := if IsForPlayer s then EveryoneSlot else cacheSlot.

Definition Screen_Remove s : ScreenEntity :=
  let e := engine s in
  let e := if IsForPlayer s then match entity s with Some ref => set_only_to (delete ref) e | None => e end else e in
  let e := match hud_of s with Some _ => set_live None e | None => e end in
  mkScreen (screen_owner s) None (playersChangedSinceSpawn s) (Cache_Clear (written s)) e.

Definition Spawn s : bool * ScreenEntity :=
  let s := Screen_Remove (with_players_changed false s) in
  let e := engine s in
  if negb (entities_available e) then (false, s)
  else
    match spawns e with
    | Some count :: rest =>
        let ref := next_ref e in
        let e := mkEngine (Some (mkHud ref ∅ ∅ count [0; 0; 0])) (ref + 1) rest (entities_available e) (bound e) (only_to e) in
        let e := if IsForPlayer s then set_only_to (<[ref := screen_owner s]>) e else e in
        (true, mkScreen (screen_owner s) (Some ref) (playersChangedSinceSpawn s) (written s) e)
    | None :: rest => (false, with_engine (fun e => mkEngine (live e) (next_ref e) rest (entities_available e) (bound e) (only_to e)) s)
    | [] => (false, s)
    end.

Definition PlayerStateCount s : Z := match hud_of s with Some hud => StateCount hud | None => -1 end.
Definition Covers s (slot : Z) : bool := IsValidSlot slot && (slot <? PlayerStateCount s).

Definition EnsureSpawned (slot : Z) s : bool * ScreenEntity :=
  if negb (slot =? EveryoneSlot) && negb (IsValidSlot slot) then (false, s)
  else
    match CacheSlotFor s slot with
    | None => (false, s)
    | Some target =>
        let '(exists_, s) := if Exists_ s then (true, s) else Spawn s in
        if negb exists_ then (false, s)
        else if (target =? EveryoneSlot) || Covers s target then (true, s)
        else if negb (playersChangedSinceSpawn s) then (false, s)
        else let '(spawned, s) := Spawn s in (spawned && Covers s target, s)
    end.

(** [EntityForWrite] *)
Definition writable s (engineSlot : Z) : option Hud :=
  match hud_of s with
  | None => None
  | Some hud =>
      if existsb (fun count => StringTableCap - StringTableHeadroom <=? count) (Tables hud) then None
      else if engineSlot =? EveryoneSlot then Some hud
      else if PlayerStateCount s <=? engineSlot then None
      else Some hud
  end.

(** [SendText] and [SendClass]: the setter, when the entity can be written to and it bound. *)
Definition Send s (engineSlot : Z) (kind : WriteKind) (elementId name value : text) : bool * ScreenEntity :=
  match writable s engineSlot with
  | Some hud =>
      if bound (engine s)
      then (true, with_engine (set_live (Some (mkHud (HudRef hud) (<[(engineSlot, kind_code kind, elementId, name) := value]> (Shown hud)) (Captures hud)
                                                    (StateCount hud) (Tables hud)))) s)
      else (false, s)
  | None => (false, s)
  end.

(** The global capture needs no setter. *)
Definition SendCursor s (engineSlot : Z) (shown : bool) : bool * ScreenEntity :=
  match writable s engineSlot with
  | Some hud =>
      if (engineSlot =? EveryoneSlot) || bound (engine s)
      then (true, with_engine (set_live (Some (mkHud (HudRef hud) (Shown hud) (<[engineSlot := shown]> (Captures hud)) (StateCount hud) (Tables hud)))) s)
      else (false, s)
  | None => (false, s)
  end.

Definition CheckWrite (cacheSlot : Z) (status : bool) s : ScreenEntity :=
  if status || negb (IsValidSlot cacheSlot) then s
  else with_written (fun c => (Cache_IsFirstFailure cacheSlot (Cache_Invalidate cacheSlot c)).2) s.

Definition write (kind : WriteKind) (slot : Z) (elementId name value : text) s : ScreenEntity :=
  match CacheSlotFor s slot with
  | None => s
  | Some target =>
      let '(changed, c) := Cache_Changed target kind elementId name value (written s) in
      let s := with_written (fun _ => c) s in
      if negb changed then s
      else let '(status, s) := Send s (ContentSlotFor s target) kind elementId name value in CheckWrite target status s
  end.

Definition WriteText (slot : Z) (variable value : text) s : ScreenEntity := write WriteText_ slot [] variable value s.

Definition WriteClass (slot : Z) (elementId className : text) (on : bool) s : ScreenEntity :=
  write WriteClass_ slot elementId className (if on then $"1" else $"0") s.

Definition WriteCursor (slot : Z) (shown : bool) s : ScreenEntity :=
  match CacheSlotFor s slot with
  | None => s
  | Some target =>
      let '(changed, c) := Cache_CursorChanged target shown (written s) in
      let s := with_written (fun _ => c) s in
      if negb changed then s else let '(status, s) := SendCursor s target shown in CheckWrite target status s
  end.

(** *** [Screen]'s *)

Definition SetHidden (slot : Z) (elementId : text) (hidden : bool) s : ScreenEntity := WriteClass slot elementId $"hidden" hidden s.

Definition SetModifier (slot : Z) (elementId block : text) (names : list text) (name : text) s : ScreenEntity :=
  fold_left (fun s each => WriteClass slot elementId (block ++ $"--" ++ each) (bool_decide (each = name)) s) names s.

(** *** Handlers *)

(** [slots.Changed]; [Visibility] forgets what only that slot received. *)
Definition Screen_SlotChanged (slot : Z) s : ScreenEntity :=
  let s := with_engine (set_only_to (filter (fun p => p.2 <> slot))) (with_players_changed true s) in
  if slot =? screen_owner s then Screen_Remove s else with_written (Cache_RemoveSlot slot) s.

(** [slots.FullyConnected] *)
Definition Screen_FullyConnected (slot : Z) s : ScreenEntity := with_written (Cache_RemoveSlot slot) (with_players_changed true s).
End ScreenEntity.

(** ** What the cache may skip *)

Definition plain (s : text) : Prop := ~ In KeySeparator s.

Lemma split_at_separator a b c d : plain a -> plain c -> a ++ KeySeparator :: b = c ++ KeySeparator :: d -> a = c /\ b = d.
Proof.
  revert c. induction a as [|x a IH]; intros [|y c] Ha Hc H; simplify_eq/=; [done|by destruct Hc; left|by destruct Ha; left|].
  destruct (IH c) as [-> ->]; [intros Hi; apply Ha; by right|intros Hi; apply Hc; by right|done|done].
Qed.

Lemma KeyFor_inj kind kind' e e' n n' :
  plain e -> plain e' -> KeyFor kind e n = KeyFor kind' e' n' -> kind = kind' /\ e = e' /\ n = n'.
Proof.
  intros He He' H. unfold KeyFor in H. injection H as Hk Hn. apply split_at_separator in Hn as [-> ->]; [|done..].
  by destruct kind, kind'.
Qed.

Definition cached (c : WriteCache) (slot : Z) (key : text) : option text := sent ← cache_for c slot; Values sent !! key.
Definition cached_cursor (c : WriteCache) (slot : Z) : option bool := sent ← cache_for c slot; SentCursor sent.

(** A slot the cache keeps a record for. *)
Definition recorded (slot : Z) : bool := (slot =? EveryoneSlot) || IsValidSlot slot.

Lemma cache_for_recorded c slot : is_Some (cache_for c slot) <-> recorded slot = true.
Proof.
  unfold cache_for, recorded. destruct (slot =? EveryoneSlot); cbn; [by split; eauto|]. destruct (IsValidSlot slot); cbn; [by split; eauto|].
  split; [by intros [? ?]|done].
Qed.

Lemma everyone_invalid slot : IsValidSlot slot = true -> (slot =? EveryoneSlot) = false.
Proof. unfold IsValidSlot, EveryoneSlot. intros. bools. apply Z.eqb_neq. lia. Qed.

Lemma cache_for_put c slot slot' sent :
  PerSlot_wf (cache_slots c) -> recorded slot = true ->
  cache_for (cache_put slot sent c) slot' = if slot =? slot' then Some sent else cache_for c slot'.
Proof.
  unfold recorded. intros Hw Hr. unfold cache_put, cache_for. destruct (Z.eqb_spec slot EveryoneSlot) as [->|Hne].
  - cbn [everyone cache_slots]. rewrite (Z.eqb_sym EveryoneSlot). by destruct (slot' =? EveryoneSlot).
  - cbn in Hr. cbn [everyone cache_slots]. destruct (Z.eqb_spec slot' EveryoneSlot) as [->|Hne'].
    + by destruct (Z.eqb_spec slot EveryoneSlot).
    + destruct (IsValidSlot slot') eqn:Hv'; cbn.
      * rewrite PerSlot_get_set by done. by destruct (slot =? slot').
      * destruct (Z.eqb_spec slot slot'); [by subst; rewrite Hr in Hv'|done].
Qed.

Lemma cache_put_wf slot sent c : PerSlot_wf (cache_slots c) -> PerSlot_wf (cache_slots (cache_put slot sent c)).
Proof. unfold cache_put. destruct (_ =? _); [done|apply PerSlot_set_wf]. Qed.

Lemma ResetAll_wf {T} (zero : T) items : PerSlot_wf items -> PerSlot_wf (PerSlot_ResetAll zero items).
Proof. unfold PerSlot_wf, PerSlot_ResetAll. by rewrite length_map. Qed.

Lemma cache_for_clear c slot : recorded slot = true -> cache_for (Cache_Clear c) slot = Some Sent_new.
Proof.
  unfold recorded, cache_for, Cache_Clear. cbn [everyone cache_slots]. destruct (slot =? EveryoneSlot); [done|]. cbn. intros Hv. rewrite Hv. cbn.
  unfold PerSlot_get, PerSlot_ResetAll. rewrite Hv, list_lookup_fmap. by destruct (_ !! _).
Qed.

Lemma cache_for_remove c slot slot' :
  PerSlot_wf (cache_slots c) -> recorded slot' = true ->
  cache_for (Cache_RemoveSlot slot c) slot' = if (slot =? slot') && IsValidSlot slot then Some Sent_new else cache_for c slot'.
Proof.
  unfold recorded, cache_for, Cache_RemoveSlot. cbn [everyone cache_slots]. intros Hw Hr. destruct (Z.eqb_spec slot' EveryoneSlot) as [->|Hne].
  - destruct (Z.eqb_spec slot EveryoneSlot) as [->|]; done.
  - cbn in Hr. rewrite Hr. cbn. rewrite PerSlot_get_Reset by done. destruct (Z.eqb_spec slot slot') as [->|]; [by rewrite Hr|done].
Qed.

(** ** Coherence *)

Section Coherence.
Implicit Types s : ScreenEntity.

Definition shown_at s (engineSlot : Z) (kind : WriteKind) (elementId name : text) : option text :=
  hud ← hud_of s; Shown hud !! (engineSlot, kind_code kind, elementId, name).

Definition sendable s (engineSlot : Z) : bool := bool_decide (is_Some (option_map HudRef (writable s engineSlot))) && bound (engine s).

(** The cache slots a screen writes under. *)
Definition target s (slot : Z) : bool := if IsForPlayer s then slot =? screen_owner s else recorded slot.

(** What the cache says a live entity was told, it was told; for everyone at once, a write that could not be sent may be
    believed, but then nothing can be sent to that entity any more. *)
Record coherent s : Prop := {
  coherent_wf : PerSlot_wf (cache_slots (written s));
  coherent_owner : IsForPlayer s = true -> IsValidSlot (screen_owner s) = true;
  coherent_refs : forall ref, entity s = Some ref -> ref < next_ref (engine s);
  coherent_live : forall hud, live (engine s) = Some hud -> HudRef hud < next_ref (engine s);
  coherent_private : IsForPlayer s = true -> forall hud, hud_of s = Some hud -> only_to (engine s) !! HudRef hud = Some (screen_owner s);
  coherent_values : forall slot kind e n v, plain e -> target s slot = true -> is_Some (option_map HudRef (hud_of s)) ->
    cached (written s) slot (KeyFor kind e n) = Some v ->
    shown_at s (ContentSlotFor s slot) kind e n = Some v \/ (slot = EveryoneSlot /\ sendable s EveryoneSlot = false) }.

Lemma target_recorded s slot : coherent s -> target s slot = true -> recorded slot = true.
Proof.
  intros Hc. unfold target, recorded. destruct (IsForPlayer s) eqn:E; [|done]. intros ->%Z.eqb_eq.
  rewrite (coherent_owner s Hc E). by rewrite orb_true_r.
Qed.

(** The record of a slot, once it is forgotten. *)
Lemma coherent_forget s f :
  coherent s -> (forall c, PerSlot_wf (cache_slots c) -> PerSlot_wf (cache_slots (f c))) ->
  (forall slot key v, recorded slot = true -> cached (f (written s)) slot key = Some v -> cached (written s) slot key = Some v) ->
  coherent (with_written f s).
Proof.
  intros Hc Hw Hf. pose proof Hc as [H1 H2 H3 H3' H4 H5]. split; cbn; auto.
  intros slot kind e n v He Ht Hl Hv. apply (H5 slot kind e n v He Ht Hl). apply Hf; [by apply (target_recorded s)|done].
Qed.

Lemma CacheSlotFor_target s slot t : coherent s -> CacheSlotFor s slot = Some t -> recorded t = true -> target s t = true.
Proof. intros Hc. unfold CacheSlotFor, target. destruct (IsForPlayer s); cbn; [|by intros [= ->]]. case_match; [done|]. intros [= <-] _. apply Z.eqb_refl. Qed.

Lemma cached_put c slot sent slot' key :
  PerSlot_wf (cache_slots c) -> recorded slot = true ->
  cached (cache_put slot sent c) slot' key = if slot =? slot' then Values sent !! key else cached c slot' key.
Proof. intros Hw Hr. unfold cached. rewrite cache_for_put by done. by case_match. Qed.

Lemma cache_for_wf_put slot sent c : cache_for c slot = Some sent -> recorded slot = true.
Proof. intros H. apply (cache_for_recorded c). by rewrite H. Qed.

Lemma cached_invalidate c slot slot' key :
  PerSlot_wf (cache_slots c) -> recorded slot = true ->
  cached (Cache_Invalidate slot c) slot' key = if slot =? slot' then None else cached c slot' key.
Proof.
  intros Hw Hr. pose proof (proj2 (cache_for_recorded c slot) Hr) as [sent E]. unfold Cache_Invalidate. rewrite E, cached_put by done.
  by case_match.
Qed.

(** Recording a failure or a cursor changes no value. *)
Lemma cached_failure c slot slot' key :
  PerSlot_wf (cache_slots c) -> cached (Cache_IsFirstFailure slot c).2 slot' key = cached c slot' key /\ PerSlot_wf (cache_slots (Cache_IsFirstFailure slot c).2).
Proof.
  intros Hw. unfold Cache_IsFirstFailure. destruct (cache_for c slot) as [sent|] eqn:E; [|done]. pose proof (cache_for_wf_put _ _ _ E) as Hr.
  destruct (Failed sent); cbn [snd]; (split; [|by apply cache_put_wf]); rewrite cached_put by done; destruct (Z.eqb_spec slot slot') as [->|]; try done;
    unfold cached; by rewrite E.
Qed.

Lemma cached_cursor_changed c slot shown slot' key :
  PerSlot_wf (cache_slots c) -> cached (Cache_CursorChanged slot shown c).2 slot' key = cached c slot' key /\ PerSlot_wf (cache_slots (Cache_CursorChanged slot shown c).2).
Proof.
  intros Hw. unfold Cache_CursorChanged. destruct (cache_for c slot) as [sent|] eqn:E; [|done]. pose proof (cache_for_wf_put _ _ _ E) as Hr.
  destruct (bool_decide _); cbn [snd]; (split; [|by apply cache_put_wf]); rewrite cached_put by done; destruct (Z.eqb_spec slot slot') as [->|]; try done;
    unfold cached; by rewrite E.
Qed.

Lemma cached_changed c slot kind e n v slot' key :
  PerSlot_wf (cache_slots c) -> recorded slot = true ->
  cached (Cache_Changed slot kind e n v c).2 slot' key =
    (if (slot =? slot') && bool_decide (KeyFor kind e n = key) then Some v else cached c slot' key) /\
  PerSlot_wf (cache_slots (Cache_Changed slot kind e n v c).2) /\
  ((Cache_Changed slot kind e n v c).1 = false <-> cached c slot (KeyFor kind e n) = Some v).
Proof.
  intros Hw Hr. pose proof (proj2 (cache_for_recorded c slot) Hr) as [sent E]. unfold Cache_Changed. rewrite E.
  assert (cached c slot (KeyFor kind e n) = Values sent !! KeyFor kind e n) as Ec by (unfold cached; by rewrite E).
  destruct (bool_decide _) eqn:Eb; [apply bool_decide_eq_true in Eb|apply bool_decide_eq_false in Eb]; cbn [fst snd]; (split; [|split; [by apply cache_put_wf|rewrite Ec; naive_solver]]);
    rewrite cached_put by done; destruct (Z.eqb_spec slot slot') as [<-|]; cbn [andb Values]; try done.
  - case_bool_decide as Ek; [subst key; done|]. unfold cached. by rewrite E.
  - case_bool_decide as Ek; [subst key; by rewrite lookup_insert_eq|]. rewrite lookup_insert_ne by done. unfold cached. by rewrite E.
Qed.

Lemma CheckWrite_coherent s slot status :
  (forall slot' kind e n v, plain e -> target s slot' = true -> is_Some (option_map HudRef (hud_of s)) ->
     status = false -> slot' = slot -> IsValidSlot slot = false ->
     cached (written s) slot' (KeyFor kind e n) = Some v -> shown_at s (ContentSlotFor s slot') kind e n = Some v \/ (slot' = EveryoneSlot /\ sendable s EveryoneSlot = false)) ->
  (forall slot' kind e n v, plain e -> target s slot' = true -> is_Some (option_map HudRef (hud_of s)) ->
     slot' <> slot \/ status = true ->
     cached (written s) slot' (KeyFor kind e n) = Some v -> shown_at s (ContentSlotFor s slot') kind e n = Some v \/ (slot' = EveryoneSlot /\ sendable s EveryoneSlot = false)) ->
  PerSlot_wf (cache_slots (written s)) -> (IsForPlayer s = true -> IsValidSlot (screen_owner s) = true) ->
  (forall ref, entity s = Some ref -> ref < next_ref (engine s)) -> (forall hud, live (engine s) = Some hud -> HudRef hud < next_ref (engine s)) ->
  (IsForPlayer s = true -> forall hud, hud_of s = Some hud -> only_to (engine s) !! HudRef hud = Some (screen_owner s)) ->
  coherent (CheckWrite slot status s).
Proof.
  intros Hsame Hother H1 H2 H3 H3' H4. unfold CheckWrite. destruct status; cbn [orb].
  { split; try done. intros slot' kind e n v He Ht Hl. apply Hother; auto. }
  destruct (IsValidSlot slot) eqn:Hv; cbn [negb].
  - assert (recorded slot = true) as Hr by (unfold recorded; by rewrite Hv, orb_true_r).
    assert (PerSlot_wf (cache_slots (Cache_Invalidate slot (written s)))) as Hw.
    { unfold Cache_Invalidate. destruct (cache_for _ _); [by apply cache_put_wf|done]. }
    split; cbn [with_written written engine entity screen_owner]; try done.
    + by apply (cached_failure _ slot 0 []).
    + intros slot' kind e n v He Ht Hl. rewrite (proj1 (cached_failure _ slot slot' _ Hw)), cached_invalidate by done.
      destruct (Z.eqb_spec slot slot') as [->|Hne]; [done|]. apply Hother; auto.
  - split; try done. intros slot' kind e n v He Ht Hl. destruct (Z.eq_dec slot' slot) as [->|Hne]; [by apply Hsame|apply Hother; auto].
Qed.

Lemma Send_same s slot kind e n v :
  let s' := (Send s slot kind e n v).2 in
  written s' = written s /\ screen_owner s' = screen_owner s /\ entity s' = entity s /\ next_ref (engine s') = next_ref (engine s) /\
  only_to (engine s') = only_to (engine s) /\ bound (engine s') = bound (engine s) /\ option_map HudRef (live (engine s')) = option_map HudRef (live (engine s)) /\
  option_map HudRef (hud_of s') = option_map HudRef (hud_of s) /\ (forall t, sendable s' t = sendable s t) /\
  (Send s slot kind e n v).1 = sendable s slot /\
  forall slot' kind' e' n', is_Some (option_map HudRef (hud_of s)) -> shown_at s' slot' kind' e' n' =
    if sendable s slot && bool_decide ((slot, kind_code kind, e, n) = (slot', kind_code kind', e', n')) then Some v else shown_at s slot' kind' e' n'.
Proof.
  unfold Send, sendable. destruct (writable s slot) as [hud|] eqn:Ew; cbn [option_map]; [|rewrite bool_decide_eq_false_2 by (by intros [? ?]); cbn; by split_and!].
  rewrite bool_decide_eq_true_2 by eauto. cbn [andb]. destruct (bound (engine s)) eqn:Eb; [|cbn [fst snd]; rewrite ?Eb; by split_and!].
  assert (hud_of s = Some hud) as Eh.
  { unfold writable in Ew. destruct (hud_of s) as [h|]; [|done]. repeat case_match; by simplify_eq. }
  pose proof Eh as El. unfold hud_of in El. destruct (entity s) as [ref|] eqn:Ee; [|done]. destruct (live (engine s)) as [h|] eqn:Ell; [|done].
  destruct (Z.eqb_spec (HudRef h) ref) as [<-|]; [|done]. simplify_eq.
  set (hud' := mkHud _ _ _ _ _). assert (hud_of (with_engine (set_live (Some hud')) s) = Some hud') as Eh'.
  { unfold hud_of. cbn. by rewrite Ee, Z.eqb_refl. }
  split_and!; try done; cbn [snd fst].
  - by rewrite Eh', Eh.
  - intros t. unfold writable, PlayerStateCount. rewrite Eh', Eh. cbn [Tables StateCount hud']. cbn [with_engine engine set_live bound]. rewrite Eb.
    by repeat case_match.
  - intros slot' kind' e' n' _. unfold shown_at. rewrite Eh', Eh. cbn. case_bool_decide as Ek.
    + by rewrite <- Ek, lookup_insert_eq.
    + by rewrite lookup_insert_ne by done.
Qed.

Lemma recorded_split slot : recorded slot = true -> slot = EveryoneSlot \/ IsValidSlot slot = true.
Proof. unfold recorded. intros [?%Z.eqb_eq|?]%orb_true_iff; auto. Qed.

Lemma target_content s slot slot' : target s slot = true -> target s slot' = true -> ContentSlotFor s slot = ContentSlotFor s slot' -> slot = slot'.
Proof.
  unfold target, ContentSlotFor. destruct (IsForPlayer s); [|done]. by intros ->%Z.eqb_eq ->%Z.eqb_eq.
Qed.

Lemma everyone_content s slot : target s slot = true -> slot = EveryoneSlot -> ContentSlotFor s slot = EveryoneSlot.
Proof. intros _ ->. unfold ContentSlotFor. by destruct (IsForPlayer s). Qed.

Lemma write_coherent s kind slot e n v : plain e -> coherent s -> coherent (write kind slot e n v s).
Proof.
  intros He Hc. unfold write. destruct (CacheSlotFor s slot) as [t|] eqn:Et; [|done].
  destruct (recorded t) eqn:Hr; cycle 1.
  { unfold Cache_Changed. destruct (cache_for (written s) t) eqn:E; [|by destruct s].
    pose proof (cache_for_wf_put _ _ _ E). congruence. }
  pose proof (CacheSlotFor_target s slot t Hc Et Hr) as Ht. pose proof Hc as [H1 H2 H3 H3' H4 H5].
  destruct (Cache_Changed t kind e n v (written s)) as [changed c] eqn:Ec.
  pose proof (fun slot' key => proj1 (cached_changed (written s) t kind e n v slot' key H1 Hr)) as Hcached. rewrite Ec in Hcached. cbn [snd] in Hcached.
  pose proof (proj2 (cached_changed (written s) t kind e n v t [] H1 Hr)) as [Hw Hchg]. rewrite Ec in Hw, Hchg. cbn [fst snd] in Hw, Hchg.
  destruct changed; cbn [negb].
  2: { apply coherent_forget; [done|done|]. intros slot' key v' _. rewrite Hcached. destruct (Z.eqb_spec t slot') as [<-|]; cbn [andb]; [|done].
       case_bool_decide as Ek; [|done]. subst key. intros [= <-]. by apply Hchg. }
  set (s1 := with_written (fun _ => c) s).
  pose proof (Send_same s1 (ContentSlotFor s1 t) kind e n v) as Hs. destruct (Send s1 _ kind e n v) as [status s2]. cbn [fst snd] in Hs.
  destruct Hs as (Ew & Eo & Ee & En & Eot & _ & El & Eh & Es & Est & Esh).
  assert (forall slot', target s2 slot' = target s slot') as Etar by (intros; unfold target, IsForPlayer; by rewrite Eo).
  assert (forall slot', ContentSlotFor s2 slot' = ContentSlotFor s slot') as Econ by (intros; unfold ContentSlotFor, IsForPlayer; by rewrite Eo).
  assert (IsForPlayer s2 = IsForPlayer s) as Ep by (unfold IsForPlayer; by rewrite Eo).
  change (ContentSlotFor s1 t) with (ContentSlotFor s t) in *. change (sendable s1) with (sendable s) in *. change (hud_of s1) with (hud_of s) in *.
  apply CheckWrite_coherent.
  - intros slot' kind' e' n' v' He' Ht' Hl -> -> Hinv. rewrite Etar in Ht'. rewrite Es. rewrite Eh in Hl.
    destruct (recorded_split t Hr) as [->|Hv]; [|congruence]. intros _. right. split; [done|].
    rewrite (everyone_content s EveryoneSlot) in Est by done. by rewrite <- Est.
  - intros slot' kind' e' n' v' He' Ht' Hl Hd. rewrite Etar in Ht'. rewrite Eh in Hl. rewrite Ew, Econ, Es. cbn [s1 with_written written].
    rewrite Hcached, Esh by done. change (shown_at s1) with (shown_at s).
    destruct (Z.eqb_spec t slot') as [<-|Hne]; cbn [andb].
    + destruct Hd as [|Hst]; [done|]. rewrite <- Est, Hst. cbn [andb]. case_bool_decide as Ek.
      * apply KeyFor_inj in Ek as (<- & <- & <-); [|done..]. intros [= <-]. left. by rewrite bool_decide_eq_true_2.
      * rewrite bool_decide_eq_false_2; [by apply H5|]. intros [= E1 E2 E3]. apply Ek. subst. f_equal. by destruct kind, kind'.
    + rewrite andb_comm, bool_decide_eq_false_2; cbn [andb]; [by apply H5|]. intros [= E1 _ _ _]. apply Hne. by apply (target_content s).
  - by rewrite Ew.
  - by rewrite Ep, Eo.
  - intros ref. rewrite Ee, En. apply H3.
  - intros hud Hl. rewrite En. rewrite Hl in El. cbn in El. destruct (live (engine s)) as [h|] eqn:E; [|done]. injection El as El.
    rewrite El. by apply H3'.
  - rewrite Ep, Eo, Eot. intros Hp hud Hh. rewrite Hh in Eh. cbn in Eh. destruct (hud_of s) as [h|] eqn:E; [|done]. injection Eh as Eh. rewrite Eh. by apply H4.
Qed.

Definition on_live (f : Hud -> Hud) (e : Engine) : Engine := set_live (option_map f (live e)) e.

Lemma hud_live s hud : hud_of s = Some hud -> live (engine s) = Some hud /\ entity s = Some (HudRef hud).
Proof.
  unfold hud_of. destruct (entity s) as [ref|]; [|done]. destruct (live (engine s)) as [h|]; [|done].
  destruct (Z.eqb_spec (HudRef h) ref) as [<-|]; [|done]. by intros [= ->].
Qed.

(** An event of the engine's on the live entity keeps coherence when it keeps what the cache may believe. *)
Lemma on_live_coherent s f :
  coherent s -> (forall hud, HudRef (f hud) = HudRef hud) ->
  (forall hud slot kind e n v, hud_of s = Some hud -> plain e -> target s slot = true -> cached (written s) slot (KeyFor kind e n) = Some v ->
     (Shown hud !! (ContentSlotFor s slot, kind_code kind, e, n) = Some v -> Shown (f hud) !! (ContentSlotFor s slot, kind_code kind, e, n) = Some v)) ->
  (forall hud, hud_of s = Some hud -> existsb (fun count => StringTableCap - StringTableHeadroom <=? count) (Tables hud) = true ->
     existsb (fun count => StringTableCap - StringTableHeadroom <=? count) (Tables (f hud)) = true) ->
  coherent (with_engine (on_live f) s).
Proof.
  intros [H1 H2 H3 H3' H4 H5] Href Hshown Htab.
  assert (hud_of (with_engine (on_live f) s) = option_map f (hud_of s)) as Eh.
  { unfold hud_of. cbn. destruct (entity s), (live (engine s)); cbn; try done. rewrite Href. by case_match. }
  split; cbn; auto.
  - intros hud. destruct (live (engine s)) as [h|] eqn:E; cbn; [|done]. intros [= <-]. rewrite Href. by apply H3'.
  - intros Hp hud. rewrite Eh. destruct (hud_of s) as [h|] eqn:E; cbn; [|done]. intros [= <-]. rewrite Href. by apply H4.
  - intros slot kind e n v He Ht Hl Hv. rewrite Eh in Hl. destruct (hud_of s) as [h|] eqn:E; [|by destruct Hl].
    destruct (H5 slot kind e n v He Ht) as [Hs|[-> Hs]]; [cbn; eauto|done| |].
    + left. unfold shown_at in *. rewrite Eh. rewrite E in Hs. cbn in *. by eapply Hshown.
    + right. split; [done|]. unfold sendable, writable in *. rewrite Eh. rewrite E in Hs. cbn in *.
      destruct (existsb _ (Tables h)) eqn:Et; [by rewrite (Htab h)|]. rewrite bool_decide_eq_true_2 in Hs by (cbn; eauto). cbn in Hs.
      rewrite Hs. apply andb_false_r.
Qed.

(** What the handlers and the cursor do to the cache only forgets. *)
Lemma cursor_coherent s slot shown : coherent s -> coherent (WriteCursor slot shown s).
Proof.
  intros Hc. unfold WriteCursor. destruct (CacheSlotFor s slot) as [t|]; [|done].
  pose proof (fun slot' key => proj1 (cached_cursor_changed (written s) t shown slot' key (coherent_wf s Hc))) as Hcached.
  pose proof (proj2 (cached_cursor_changed (written s) t shown 0 [] (coherent_wf s Hc))) as Hw.
  destruct (Cache_CursorChanged t shown (written s)) as [changed c]. cbn [snd] in Hcached, Hw.
  assert (coherent (with_written (fun _ => c) s)) as Hc1 by (apply coherent_forget; [done|done|]; intros slot' key v _; by rewrite Hcached).
  destruct (negb changed); [done|]. set (s1 := with_written _ s) in *. clearbody s1. clear Hc s c Hcached Hw.
  pose proof Hc1 as [H1 H2 H3 H3' H4 H5].
  assert (coherent (SendCursor s1 t shown).2) as Hs.
  { unfold SendCursor. destruct (writable s1 t) as [hud|] eqn:Ew; [|done]. destruct (_ || _); [|done]. cbn [snd].
    assert (hud_of s1 = Some hud) as Eh.
    { unfold writable in Ew. destruct (hud_of s1) as [h|]; [|done]. repeat case_match; by simplify_eq. }
    pose proof (on_live_coherent s1 (fun hud => mkHud (HudRef hud) (Shown hud) (<[t:=shown]> (Captures hud)) (StateCount hud) (Tables hud)) Hc1) as Hl.
    unfold on_live, with_engine in Hl |- *. rewrite (proj1 (hud_live s1 hud Eh)) in Hl. by apply Hl. }
  destruct (SendCursor s1 t shown) as [status s2]. cbn [snd] in Hs. unfold CheckWrite. destruct (_ || _) eqn:Eb; [done|].
  apply orb_false_iff in Eb as [_ Hv]. apply negb_false_iff in Hv.
  assert (recorded t = true) as Hr by (unfold recorded; by rewrite Hv, orb_true_r).
  apply coherent_forget; [done| |].
  - intros c Hw. apply (cached_failure _ t 0 []). unfold Cache_Invalidate. destruct (cache_for _ _); [by apply cache_put_wf|done].
  - intros slot' key v _. pose proof (coherent_wf s2 Hs) as Hw.
    assert (PerSlot_wf (cache_slots (Cache_Invalidate t (written s2)))) as Hw' by (unfold Cache_Invalidate; destruct (cache_for _ _); [by apply cache_put_wf|done]).
    rewrite (proj1 (cached_failure _ t slot' key Hw')), cached_invalidate by done. by case_match.
Qed.

(** Removing the entity makes any well-formed screen coherent: there is nothing left to be wrong about. *)
Lemma Remove_makes_coherent s :
  PerSlot_wf (cache_slots (written s)) -> (IsForPlayer s = true -> IsValidSlot (screen_owner s) = true) ->
  (forall hud, live (engine s) = Some hud -> HudRef hud < next_ref (engine s)) -> coherent (Screen_Remove s).
Proof.
  intros H1 H2 H3'. split; [by apply ResetAll_wf|done|done| |done|by intros slot kind e n v _ _ [? ?]].
  intros hud. unfold Screen_Remove. cbn [engine]. destruct (hud_of s); [done|]. destruct (IsForPlayer s), (entity s); cbn; auto.
Qed.

Lemma Remove_coherent s : coherent s -> coherent (Screen_Remove s) /\ hud_of (Screen_Remove s) = None /\ entity (Screen_Remove s) = None.
Proof. intros [H1 H2 H3 H3' H4 H5]. split; [by apply Remove_makes_coherent|done]. Qed.

Lemma players_changed_coherent b s : coherent s -> coherent (with_players_changed b s).
Proof. intros [H1 H2 H3 H3' H4 H5]. split; done. Qed.

(** A new entity has been told nothing, and the cache says nothing of it. *)
Lemma Spawn_coherent s : coherent s -> coherent (Spawn s).2.
Proof.
  intros Hc. unfold Spawn.
  pose proof (Remove_coherent _ (players_changed_coherent false s Hc)) as (Hr & Hn & He). set (s0 := Screen_Remove _) in *.
  assert (forall slot key, recorded slot = true -> cached (written s0) slot key = None) as Hempty.
  { intros slot key Hs. unfold cached, s0. cbn. by rewrite cache_for_clear. }
  clearbody s0. pose proof Hr as [H1 H2 H3 H3' H4 H5].
  destruct (negb _); [done|]. destruct (spawns (engine s0)) as [|[count|] rest]; cbn [snd]; [done| |].
  - set (e := mkEngine _ _ _ _ _ _). assert (next_ref e = next_ref (engine s0) + 1) as En by done.
    assert (live e = Some (mkHud (next_ref (engine s0)) ∅ ∅ count [0; 0; 0])) as El by done. clearbody e.
    split; cbn; try done.
    + intros ref [= <-]. destruct (IsForPlayer s0); cbn; lia.
    + intros hud Hl. assert (live e = Some hud) as Hl' by (destruct (IsForPlayer s0); exact Hl). rewrite El in Hl'. injection Hl' as <-. cbn.
      destruct (IsForPlayer s0); cbn; lia.
    + intros Hp hud Hh. change (IsForPlayer s0 = true) in Hp. rewrite Hp in Hh |- *. cbn in Hh. rewrite El in Hh. cbn in Hh.
      rewrite Z.eqb_refl in Hh. injection Hh as <-. apply lookup_insert_eq.
    + intros slot kind e' n v _ Ht _ Hv. exfalso. rewrite Hempty in Hv; [done|]. unfold target in Ht. change (IsForPlayer _) with (IsForPlayer s0) in Ht.
      unfold recorded. destruct (IsForPlayer s0) eqn:Hp; [|done]. cbn in Ht. apply Z.eqb_eq in Ht as ->. by rewrite H2, orb_true_r.
  - by split.
Qed.

Lemma EnsureSpawned_coherent slot s : coherent s -> coherent (EnsureSpawned slot s).2.
Proof.
  intros Hc. unfold EnsureSpawned. destruct (_ && _); [done|]. destruct (CacheSlotFor s slot) as [t|]; [|done].
  pose proof (Spawn_coherent s Hc) as Hs. assert (coherent (if Exists_ s then (true, s) else Spawn s).2) as Hc1 by by destruct (Exists_ s).
  destruct (if Exists_ s then (true, s) else Spawn s) as [exists_ s1]. cbn [snd] in Hc1. destruct (negb exists_); [done|].
  destruct (_ || _); [done|]. destruct (negb _); [done|]. pose proof (Spawn_coherent s1 Hc1) as Hs1. by destruct (Spawn s1).
Qed.

(** The owner never changes. *)
Lemma Spawn_owner s : screen_owner (Spawn s).2 = screen_owner s.
Proof. unfold Spawn. by repeat case_match. Qed.

Lemma EnsureSpawned_owner slot s : screen_owner (EnsureSpawned slot s).2 = screen_owner s.
Proof.
  unfold EnsureSpawned. destruct (_ && _); [done|]. destruct (CacheSlotFor s slot) as [t|]; [|done].
  pose proof (Spawn_owner s) as Hs. assert (screen_owner (if Exists_ s then (true, s) else Spawn s).2 = screen_owner s) as H1 by by destruct (Exists_ s).
  destruct (if Exists_ s then (true, s) else Spawn s) as [exists_ s1]. cbn [snd] in H1. destruct (negb exists_); [done|].
  destruct (_ || _); [done|]. destruct (negb _); [done|]. pose proof (Spawn_owner s1) as Hs1. destruct (Spawn s1). cbn [snd] in *. congruence.
Qed.

Lemma WriteCursor_owner slot shown s : screen_owner (WriteCursor slot shown s) = screen_owner s.
Proof.
  unfold WriteCursor. destruct (CacheSlotFor s slot) as [t|]; [|done]. destruct (Cache_CursorChanged _ _ _) as [changed c]. destruct (negb changed); [done|].
  unfold SendCursor, CheckWrite. destruct (writable _ _); [destruct (_ || bound _)|]; cbn [orb]; by repeat case_match.
Qed.

Lemma RemoveSlot_coherent slot s : coherent s -> coherent (with_written (Cache_RemoveSlot slot) s).
Proof.
  intros Hc. apply coherent_forget; [done|intros c; apply PerSlot_Reset_wf|]. intros slot' key v Hr. unfold cached.
  rewrite cache_for_remove by (done || apply Hc). by case_match.
Qed.

(** ** Events *)

(** Drawing, the feeds, and what the engine does: the map ends, other entities of the map fill the string tables, and a
    client that has loaded loses its slot's state. *)
Inductive screen_event :=
| Ensure (slot : Z)
| Removes
| Texts (slot : Z) (variable value : text)
| Classes (slot : Z) (elementId className : text) (on : bool)
| Cursors (slot : Z) (shown : bool)
| SlotChanged (slot : Z)
| FullyConnected (slot : Z)
| MapEnds
| TablesGrow (n : Z)
| EntitiesAvailable (b : bool)
| SpawnsAnswer (answers : list (option Z)).

Definition reset_slot (slot : Z) (hud : Hud) : Hud :=
  mkHud (HudRef hud) (filter (fun p => p.1.1.1.1 <> slot) (Shown hud)) (delete slot (Captures hud)) (StateCount hud) (Tables hud).

Definition on_screen_event s (ev : screen_event) : ScreenEntity :=
  match ev with
  | Ensure slot => (EnsureSpawned slot s).2
  | Removes => Screen_Remove s
  | Texts slot variable value => WriteText slot variable value s
  | Classes slot elementId className on => WriteClass slot elementId className on s
  | Cursors slot shown => WriteCursor slot shown s
  | SlotChanged slot => if IsValidSlot slot then Screen_SlotChanged slot s else s
  | FullyConnected slot => if IsValidSlot slot then Screen_FullyConnected slot (with_engine (on_live (reset_slot slot)) s) else s
  | MapEnds => with_engine (set_live None) s
  | TablesGrow n => with_engine (on_live (fun hud => mkHud (HudRef hud) (Shown hud) (Captures hud) (StateCount hud) (map (fun c => c + Z.max 0 n) (Tables hud)))) s
  | EntitiesAvailable b => with_engine (fun e => mkEngine (live e) (next_ref e) (spawns e) b (bound e) (only_to e)) s
  | SpawnsAnswer answers => with_engine (fun e => mkEngine (live e) (next_ref e) answers (entities_available e) (bound e) (only_to e)) s
  end.

(** Element ids have no separator in them. *)
Definition plain_event (ev : screen_event) : Prop := match ev with Classes _ elementId _ _ => plain elementId | _ => True end.

Lemma set_only_to_coherent f s :
  coherent s -> (IsForPlayer s = true -> forall hud, hud_of s = Some hud -> f (only_to (engine s)) !! HudRef hud = Some (screen_owner s)) ->
  coherent (with_engine (set_only_to f) s).
Proof. intros [H1 H2 H3 H3' H4 H5] Hf. split; try done. Qed.

Lemma SlotChanged_coherent slot s : coherent s -> coherent (Screen_SlotChanged slot s).
Proof.
  intros Hc. unfold Screen_SlotChanged. cbn [screen_owner with_engine with_players_changed].
  destruct (Z.eqb_spec slot (screen_owner s)) as [->|Hne].
  - destruct Hc as [H1 H2 H3 H3' H4 H5]. by apply Remove_makes_coherent.
  - apply RemoveSlot_coherent, set_only_to_coherent; [by apply players_changed_coherent|].
    intros Hp hud Hh. apply map_lookup_filter_Some_2; [by apply (coherent_private s Hc)|]. cbn. congruence.
Qed.

Lemma on_screen_event_coherent s ev : plain_event ev -> coherent s -> coherent (on_screen_event s ev).
Proof.
  intros Hp Hc. pose proof Hc as [H1 H2 H3 H3' H4 H5]. destruct ev; cbn [on_screen_event plain_event] in *.
  - by apply EnsureSpawned_coherent.
  - by apply Remove_coherent.
  - apply write_coherent; [by intros []|done].
  - by apply write_coherent.
  - by apply cursor_coherent.
  - destruct (IsValidSlot slot) eqn:Hv; [by apply SlotChanged_coherent|done].
  - destruct (IsValidSlot slot) eqn:Hv; [|done].
    change (coherent (with_engine (on_live (reset_slot slot)) (with_written (Cache_RemoveSlot slot) (with_players_changed true s)))).
    apply on_live_coherent; [by apply RemoveSlot_coherent, players_changed_coherent|done| |done].
    intros hud slot' kind e n v Hh _ Ht Hv' Hs. cbn. apply map_lookup_filter_Some_2; [exact Hs|]. cbn.
    intros Hc'. change (ContentSlotFor (with_written _ _) slot') with (ContentSlotFor s slot') in Hc'.
    change (target (with_written _ _) slot') with (target s slot') in Ht. unfold ContentSlotFor in Hc'.
    destruct (IsForPlayer s) eqn:Hp'; [rewrite <- Hc' in Hv; done|]. subst slot'.
    unfold cached in Hv'. cbn in Hv'. rewrite cache_for_remove, Z.eqb_refl, Hv in Hv'; [done|done|]. unfold recorded. by rewrite Hv, orb_true_r.
  - assert (hud_of (with_engine (set_live None) s) = None) as En by (unfold hud_of; cbn; by destruct (entity s)).
    split; try done; [by intros Hp' hud; rewrite En|]. intros slot kind e n v _ _ [r Hh]. by rewrite En in Hh.
  - apply on_live_coherent; [done|done|done|]. intros hud _. cbn [Tables]. rewrite !existsb_exists. intros (c & Hin & Hle).
    exists (c + Z.max 0 n). split; [by apply (in_map (fun c => c + Z.max 0 n))|]. apply Z.leb_le in Hle. apply Z.leb_le. lia.
  - by split.
  - by split.
Qed.

Lemma new_coherent owner e :
  (owner = EveryoneSlot \/ IsValidSlot owner = true) -> (forall hud, live e = Some hud -> HudRef hud < next_ref e) -> coherent (ScreenEntity_new owner e).
Proof.
  intros Ho Hl. split; [apply PerSlot_new_wf| |done..|by intros slot kind e' n v _ _ [? ?]]. unfold IsForPlayer. cbn. intros Hp%negb_true_iff%Z.eqb_neq. by destruct Ho.
Qed.

(** What a write to a screen does, once: the value is on the entity, or it cannot be sent and the cache has forgotten it. *)
Lemma write_reaches s kind slot elementId name value t :
  coherent s -> plain elementId -> CacheSlotFor s slot = Some t -> recorded t = true ->
  let s' := write kind slot elementId name value s in
  shown_at s' (ContentSlotFor s t) kind elementId name = Some value \/
  (sendable s (ContentSlotFor s t) = false /\ (IsValidSlot t = true -> Exists_ s = true -> cached (written s') t (KeyFor kind elementId name) = None)).
Proof.
  intros Hc Hplain Et Hr s'. pose proof (CacheSlotFor_target s slot t Hc Et Hr) as Ht. subst s'. unfold write. rewrite Et.
  pose proof (cached_changed (written s) t kind elementId name value t (KeyFor kind elementId name) (coherent_wf s Hc) Hr) as (Hk & Hw & Hchg).
  destruct (Cache_Changed _ _ _ _ _ _) as [changed c]. cbn [fst snd] in Hk, Hw, Hchg. rewrite Z.eqb_refl, bool_decide_eq_true_2 in Hk by done. cbn [andb] in Hk.
  destruct changed; cbn [negb].
  - set (s1 := with_written (fun _ => c) s). pose proof (Send_same s1 (ContentSlotFor s1 t) kind elementId name value) as Hs.
    destruct (Send s1 _ kind elementId name value) as [status s2]. cbn [fst snd] in Hs. destruct Hs as (Ew & _ & _ & _ & _ & _ & _ & Eh & _ & Est & Esh).
    change (sendable s1) with (sendable s) in *. change (ContentSlotFor s1 t) with (ContentSlotFor s t) in *. unfold CheckWrite. destruct status; cbn [orb].
    + left. rewrite Esh; [|]. { by rewrite <- Est, bool_decide_eq_true_2. }
      change (hud_of s1) with (hud_of s). unfold sendable, writable in Est. destruct (hud_of s); [cbn; eauto|done].
    + right. split; [by rewrite Est|]. intros Hv _. rewrite Hv. cbn [negb with_written written].
      assert (PerSlot_wf (cache_slots (Cache_Invalidate t (written s2)))) as Hw2.
      { rewrite Ew. unfold Cache_Invalidate. cbn. destruct (cache_for c t); [by apply cache_put_wf|done]. }
      rewrite (proj1 (cached_failure _ t t _ Hw2)), cached_invalidate, Z.eqb_refl by (done || by rewrite Ew). done.
  - change (shown_at (with_written (fun _ => c) s)) with (shown_at s). destruct Hchg as [Hchg _]. specialize (Hchg eq_refl).
    destruct (hud_of s) as [hud|] eqn:Eh.
    + destruct (coherent_values s Hc t kind elementId name value Hplain Ht) as [|[-> Hs]]; [rewrite Eh; cbn; eauto|done|by left|].
      right. split; [by rewrite (everyone_content s)|]. done.
    + right. split; [by unfold sendable, writable; rewrite Eh|]. intros _. unfold Exists_. by rewrite Eh.
Qed.

(** It changes nothing else that was shown, and nothing about whether writes can be sent. *)
Lemma write_frame s kind slot e n v :
  let s' := write kind slot e n v s in
  screen_owner s' = screen_owner s /\ (forall t, sendable s' t = sendable s t) /\
  forall slot' kind' e' n', (kind, e, n) <> (kind', e', n') -> shown_at s' slot' kind' e' n' = shown_at s slot' kind' e' n'.
Proof.
  unfold write. destruct (CacheSlotFor s slot) as [t|]; [|done]. destruct (Cache_Changed _ _ _ _ _ _) as [changed c].
  set (s1 := with_written (fun _ => c) s). destruct changed; cbn [negb]; [|done].
  pose proof (Send_same s1 (ContentSlotFor s1 t) kind e n v) as Hs. destruct (Send s1 _ kind e n v) as [status s2]. cbn [snd fst] in Hs.
  destruct Hs as (_ & Eo & _ & _ & _ & _ & _ & Eh & Es & _ & Esh).
  change (screen_owner s1) with (screen_owner s) in *. change (sendable s1) with (sendable s) in *. change (shown_at s1) with (shown_at s) in *.
  change (hud_of s1) with (hud_of s) in *.
  assert (screen_owner s2 = screen_owner s /\ (forall t', sendable s2 t' = sendable s t') /\
    forall slot' kind' e' n', (kind, e, n) <> (kind', e', n') -> shown_at s2 slot' kind' e' n' = shown_at s slot' kind' e' n') as H.
  { split_and!; [done..|]. intros slot' kind' e' n' Hne. destruct (hud_of s) as [hud|] eqn:E.
    - rewrite Esh by (cbn; eauto). rewrite bool_decide_eq_false_2, andb_comm by (intros [= E1 E2 E3]; apply Hne; subst; f_equal; f_equal; by destruct kind, kind').
      done.
    - unfold shown_at. rewrite E. cbn in Eh. by destruct (hud_of s2). }
  unfold CheckWrite. by destruct (_ || _).
Qed.

Lemma events_coherent owner e evs :
  (owner = EveryoneSlot \/ IsValidSlot owner = true) -> live e = None -> Forall plain_event evs ->
  coherent (fold_left on_screen_event evs (ScreenEntity_new owner e)).
Proof.
  intros Ho Hl Hevs. assert (coherent (ScreenEntity_new owner e)) as H0 by (apply new_coherent; [done|by rewrite Hl]).
  revert H0. generalize (ScreenEntity_new owner e). induction Hevs as [|ev evs Hev _ IH]; intros s0 H0; cbn [fold_left]; [done|].
  by apply IH, on_screen_event_coherent.
Qed.

(** C22. A skipped write would have changed nothing, and a failed one is not forgotten. Whatever was drawn before, however
    spawns and writes failed, maps ended and players came and went: after a write, the entity holds the value for the
    slots the write is for; or it could not be sent, and then the entity is gone, and with it what was written, or, for a
    player's slot, the cache holds nothing for it, so the next write is sent. A player's screen is received by its owner alone. *)
Theorem writes_reach_screen owner e evs slot kind elementId name value t :
  (owner = EveryoneSlot \/ IsValidSlot owner = true) -> live e = None -> Forall plain_event evs -> plain elementId ->
  let s := fold_left on_screen_event evs (ScreenEntity_new owner e) in
  let s' := write kind slot elementId name value s in
  CacheSlotFor s slot = Some t -> recorded t = true ->
  (shown_at s' (ContentSlotFor s t) kind elementId name = Some value \/
   (sendable s (ContentSlotFor s t) = false /\ (IsValidSlot t = true -> Exists_ s = true -> cached (written s') t (KeyFor kind elementId name) = None))) /\
  (IsForPlayer s = true -> forall hud, hud_of s = Some hud -> only_to (engine s) !! HudRef hud = Some (screen_owner s)).
Proof.
  intros Ho Hl Hevs Hplain s s' Et Hr. pose proof (events_coherent owner e evs Ho Hl Hevs) as Hc. fold s in Hc.
  split; [exact (write_reaches s kind slot elementId name value t Hc Hplain Et Hr)|apply Hc].
Qed.
End Coherence.

(** A player's menu: shown, hidden by a failed spawn, told again by the next. *)
Lemma writes_reach_screen_witness :
  let e := mkEngine None 0 [Some 10; None; Some 10] true true ∅ in
  let s := fold_left on_screen_event [Ensure 3; Texts 3 $"title" $"Main"; MapEnds; Ensure 3; Ensure 3] (ScreenEntity_new 3 e) in
  shown_at (write WriteClass_ 3 $"menu_row0" $"hidden" $"1" s) EveryoneSlot WriteClass_ $"menu_row0" $"hidden" = Some $"1" \/ sendable s EveryoneSlot = false.
Proof.
  intros e s.
  destruct (writes_reach_screen 3 e [Ensure 3; Texts 3 $"title" $"Main"; MapEnds; Ensure 3; Ensure 3] 3 WriteClass_ $"menu_row0" $"hidden" $"1" 3)
    as [[H|[H _]] _]; [by right|reflexivity|by repeat constructor| |by vm_compute|by vm_compute|left; exact H|right; exact H].
  intros Hin. vm_compute in Hin. repeat (destruct Hin as [Hin|Hin]; [discriminate|]). done.
Defined.

(** A write to everyone that fails is believed: it is not sent again while the entity lives. *)
Example failed_shared_write_is_believed :
  let e := mkEngine None 0 [Some 10] true false ∅ in
  let s := fold_left on_screen_event [Ensure EveryoneSlot; Texts EveryoneSlot $"title" $"Main"] (ScreenEntity_new EveryoneSlot e) in
  (shown_at s EveryoneSlot WriteText_ [] $"title", (Cache_Changed EveryoneSlot WriteText_ [] $"title" $"Main" (written s)).1) = (None, false).
Proof. by vm_compute. Qed.
