(* ===== verification/Layouts.v ===== *)
(** * Menu layouts: [Ui/LayoutPath.cpp], [Ui/PlayerScreens.cpp], [Ui/ScreenManager.cpp], [Menu/PanoramaMenuLayout.cpp]

    What a menu layout is called, the screen each player gets of it, the ids of its elements and what is written to them. *)
From S2P Require Import Prelude Text Identity Errors MenuStack Screens.

(** ** Layout names *)

Definition Directory : text := $"panorama/layout/custom_game/".
Definition SourceExtension : text := $".xml".

Definition EndsWith (s suffix : text) : bool := is_prefix (rev suffix) (rev s).
Definition contains_char (c : ascii) (s : text) : bool := existsb (fun x => code x =? code c) s.

Definition NotSourceXml (layout : text) : Error :=
  Error_Invalid ($"'" ++ layout ++ $"' must name the layout's source .xml, not the compiled resource").

Definition LayoutPath_Parse (layout : text) : Result text :=
  match layout with
  | [] => Err (Error_Invalid $"a layout name is required")
  | _ =>
      let isSourceXml := EndsWith layout SourceExtension in
      if negb (contains_char "/" layout) then
        if contains_char "." layout && negb isSourceXml then Err (NotSourceXml layout)
        else Ok (Directory ++ layout ++ if isSourceXml then [] else SourceExtension)
      else if negb (StartsWith layout Directory) then
        Err (Error_Invalid ($"'" ++ layout ++ $"' is outside " ++ Directory ++ $", the only directory the addon whitelist allows layouts in"))
      else if negb isSourceXml then Err (NotSourceXml layout)
      else Ok layout
  end.

(** [remove_prefix(rfind('/') + 1)] *)
Fixpoint after_last_slash (s : text) : text :=
  match s with
  | [] => []
  | c :: rest => if contains_char "/" rest then after_last_slash rest else if code c =? code "/" then rest else s
  end.

Definition LayoutPath_Name (resource : text) : text :=
  let name := after_last_slash resource in take (length name - length SourceExtension) name.

(** ** Player screens

    A slot's screen is created the first time something draws for it, and stays empty when it is refused. *)
Definition PlayerScreens : Type := PerSlot (option (option ScreenEntity)).
Definition PlayerScreens_new : PlayerScreens := PerSlot_new None.

Section PlayerScreens.
(** [visible] is [Visibility::Available] and [beneath] the engine a slot's screen starts on. *)
Context (visible : Status) (beneath : Z -> Engine).
Implicit Types screens : PlayerScreens.

Definition Create (layout : text) (owner : Z) : Result ScreenEntity :=
  let! path := LayoutPath_Parse layout in Ok (ScreenEntity_new owner (beneath owner)).

Definition Shared (layout : text) : Result ScreenEntity := Create layout EveryoneSlot.

Definition ForPlayer (layout : text) (slot : Z) : Result ScreenEntity :=
  if negb (IsValidSlot slot) then Err (Error_Invalid ($"slot " ++ dec slot ++ $" is not a player slot"))
  else match visible with
  | Err error => Err (Error_Unsupported ($"a player screen needs the Visibility filter: " ++ Detail error))
  | Ok _ => Create layout slot
  end.

(** [For]: the screen, none for an empty one, and the screens with it created. *)
Definition screens_for (layout : text) (slot : Z) screens : option ScreenEntity * PlayerScreens :=
  if negb (IsValidSlot slot) then (None, screens)
  else match mjoin (PerSlot_get screens slot) with
  | Some screen => (screen, screens)
  | None =>
      let screen := match ForPlayer layout slot with Ok created => Some created | Err _ => None end in
      (screen, PerSlot_set screens slot (Some screen))
  end.

Definition screens_find (slot : Z) screens : option (option ScreenEntity) :=
  if negb (IsValidSlot slot) then None else mjoin (PerSlot_get screens slot).

(** What [Screen] does through the reference; an empty screen does nothing. *)
Definition on_screen (layout : text) (slot : Z) (f : ScreenEntity -> ScreenEntity) screens : PlayerScreens :=
  let '(screen, screens) := screens_for layout slot screens in
  match screen with
  | Some s => PerSlot_set screens slot (Some (Some (f s)))
  | None => screens
  end.
End PlayerScreens.

(** ** The menu's layout *)

Inductive MenuButtonKind := Cancel | Back | CloseButton | PreviousPage | NextPage | TabButton | RowButton_ | StepDown | StepUp.
#[export] Instance MenuButtonKind_eq_dec : EqDecision MenuButtonKind.
Proof. solve_decision. Defined.

Record MenuButton := mkButton { ButtonKind : MenuButtonKind; ButtonIndex : Z }.
Record MenuHeader := mkHeader { Brand : text; BrandSubtitle : text; HeaderBreadcrumb : text; HeaderTitle : text; HeaderSubtitle : text }.
Record MenuTab := mkTab { TabLabel : text; TabIcon : text; TabSelected : bool }.
Record TabIds := mkTabIds { Tab_Id : text; Tab_Icon : text; Tab_LabelVar : text }.
Record RowIds := mkRowIds {
  Row_Id : text; Row_Button : text; Row_Decrease : text; Row_Increase : text;
  Row_LabelVar : text; Row_HintVar : text; Row_ValueVar : text }.

Record PanoramaMenuLayout := mkLayout {
  root_id : text; subtitle_id : text; close_id : text; empty_id : text; prompt_id : text; cancel_id : text; back_id : text;
  page_id : text; page_previous_id : text; page_next_id : text;
  tab_ids : list TabIds; row_ids : list RowIds; iconNames : list text; added_texts : list (text * (Z -> text)) }.

Definition tab_of (screen : text) (index : nat) : TabIds :=
  let i := dec (Z.of_nat index) in
  mkTabIds (screen ++ $"_tab" ++ i) (screen ++ $"_tab" ++ i ++ $"_icon") ($"tab" ++ i).

Definition row_of (screen : text) (index : nat) : RowIds :=
  let i := dec (Z.of_nat index) in
  mkRowIds (screen ++ $"_row" ++ i) (screen ++ $"_row" ++ i ++ $"_button") (screen ++ $"_row" ++ i ++ $"_decrease")
    (screen ++ $"_row" ++ i ++ $"_increase") ($"row" ++ i ++ $"_label") ($"row" ++ i ++ $"_hint") ($"row" ++ i ++ $"_value").

Definition Layout_new (screen : text) (tabs rows : nat) (icons : list text) : PanoramaMenuLayout :=
  mkLayout screen (screen ++ $"_subtitle") (screen ++ $"_close") (screen ++ $"_empty") (screen ++ $"_prompt") (screen ++ $"_cancel")
    (screen ++ $"_back") (screen ++ $"_page") (screen ++ $"_page_previous") (screen ++ $"_page_next")
    (map (tab_of screen) (seq 0 tabs)) (map (row_of screen) (seq 0 rows)) icons [].

Definition RowCount (l : PanoramaMenuLayout) : Z := Z.of_nat (length (row_ids l)).
Definition TabCount (l : PanoramaMenuLayout) : Z := Z.of_nat (length (tab_ids l)).

(** *** What is written, in order *)

Inductive screen_write :=
| TextW (variable value : text)
| ClassW (elementId className : text) (on : bool).

Definition HiddenW (elementId : text) (hidden : bool) : screen_write := ClassW elementId $"hidden" hidden.

Definition apply_write (slot : Z) (s : ScreenEntity) (w : screen_write) : ScreenEntity :=
  match w with
  | TextW variable value => WriteText slot variable value s
  | ClassW elementId className on => WriteClass slot elementId className on s
  end.

(** [SetModifier] *)
Definition ModifierW (elementId block : text) (names : list text) (name : text) : list screen_write :=
  map (fun each => ClassW elementId (block ++ $"--" ++ each) (bool_decide (each = name))) names.

Definition is_empty (s : text) : bool := bool_decide (s = []).

Section Layout.
Implicit Types l : PanoramaMenuLayout.

Definition SetHeader l (slot : Z) (header : MenuHeader) : list screen_write :=
  [TextW $"brand" (Brand header); TextW $"brand_subtitle" (BrandSubtitle header); TextW $"breadcrumb" (HeaderBreadcrumb header);
   TextW $"title" (HeaderTitle header); TextW $"subtitle" (HeaderSubtitle header);
   HiddenW (subtitle_id l) (is_empty (HeaderSubtitle header))] ++
  map (fun t => TextW t.1 (t.2 slot)) (added_texts l).

Definition SetSidebarVisible l (visible : bool) : list screen_write := [ClassW (root_id l) $"screen--no-sidebar" (negb visible)].
Definition SetHomeVisible l (visible : bool) : list screen_write := [ClassW (root_id l) $"screen--home" visible].

(** [_tabs[index]] is in range in every call. *)
Definition SetTab l (index : nat) (tab : option MenuTab) : outcome (list screen_write) :=
  match tab_ids l !! index with
  | None => Undefined
  | Some ids => Returns
      match tab with
      | None => [HiddenW (Tab_Id ids) true]
      | Some tab => [HiddenW (Tab_Id ids) false; TextW (Tab_LabelVar ids) (TabLabel tab); ClassW (Tab_Id ids) $"tab--selected" (TabSelected tab)] ++
          ModifierW (Tab_Icon ids) $"icon-set" (iconNames l) (TabIcon tab)
      end
  end.

Definition row_writes (ids : RowIds) (row : MenuRow) (pendingHint : text) : list screen_write :=
  let toggle := bool_decide (Kind row = RowToggle) in
  [HiddenW (Row_Id ids) false;
   TextW (Row_LabelVar ids) (Label row); TextW (Row_ValueVar ids) (Value row);
   ClassW (Row_Id ids) $"row--value" (negb (is_empty (Value row)));
   ClassW (Row_Id ids) $"row--disabled" (negb (Enabled row));
   ClassW (Row_Id ids) $"row--on" (default false (Toggled row));
   ClassW (Row_Id ids) $"row--toggle" toggle;
   ClassW (Row_Id ids) $"row--chevron" (bool_decide (Kind row = RowSubmenu) || bool_decide (Kind row = RowInput));
   ClassW (Row_Id ids) $"row--static" (negb (Selectable row));
   ClassW (Row_Id ids) $"row--steppers" (Steppable row && Enabled row && negb toggle);
   ClassW (Row_Id ids) $"row--pending" (Pending row)] ++
  if Pending row then [TextW (Row_HintVar ids) pendingHint] else [].

Definition SetRow l (index : nat) (row : option MenuRow) (pendingHint : text) : outcome (list screen_write) :=
  match row_ids l !! index with
  | None => Undefined
  | Some ids => Returns
      match row with
      | None => [HiddenW (Row_Id ids) true]
      | Some row => row_writes ids row pendingHint
      end
  end.

Definition SetEmpty l (shown : text) : list screen_write := [TextW $"empty" shown; HiddenW (empty_id l) (is_empty shown)].
Definition SetPager l (shown : text) : list screen_write := [TextW $"page" shown; HiddenW (page_id l) (is_empty shown)].

Definition SetPrompt l (shown hint : text) : list screen_write :=
  [TextW $"prompt_text" shown; TextW $"prompt_hint" hint; HiddenW (prompt_id l) (is_empty shown);
   ClassW (root_id l) $"screen--prompting" (negb (is_empty shown))].

Definition SetFooter l (back cancel : text) : list screen_write :=
  [TextW $"back" back; HiddenW (back_id l) (is_empty back); TextW $"cancel" cancel].

Definition AddText (variable : text) (shown : Z -> text) l : PanoramaMenuLayout :=
  mkLayout (root_id l) (subtitle_id l) (close_id l) (empty_id l) (prompt_id l) (cancel_id l) (back_id l) (page_id l) (page_previous_id l)
    (page_next_id l) (tab_ids l) (row_ids l) (iconNames l) (added_texts l ++ [(variable, shown)]).

(** *** Buttons *)

Fixpoint find_tab (id : text) (index : Z) (tabs : list TabIds) : option MenuButton :=
  match tabs with
  | [] => None
  | tab :: rest => if text_eqb id (Tab_Id tab) then Some (mkButton TabButton index) else find_tab id (index + 1) rest
  end.

Fixpoint find_row (id : text) (index : Z) (rows : list RowIds) : option MenuButton :=
  match rows with
  | [] => None
  | row :: rest =>
      if text_eqb id (Row_Button row) then Some (mkButton RowButton_ index)
      else if text_eqb id (Row_Decrease row) then Some (mkButton StepDown index)
      else if text_eqb id (Row_Increase row) then Some (mkButton StepUp index)
      else find_row id (index + 1) rest
  end.

Definition ButtonFor l (id : text) : option MenuButton :=
  if text_eqb id (cancel_id l) then Some (mkButton Cancel 0)
  else if text_eqb id (back_id l) then Some (mkButton Back 0)
  else if text_eqb id (close_id l) then Some (mkButton CloseButton 0)
  else if text_eqb id (page_previous_id l) then Some (mkButton PreviousPage 0)
  else if text_eqb id (page_next_id l) then Some (mkButton NextPage 0)
  else match find_tab id 0 (tab_ids l) with
  | Some button => Some button
  | None => find_row id 0 (row_ids l)
  end.
End Layout.

(** *** Showing and drawing *)

Section Draw.
Context (visible : Status) (beneath : Z -> Engine).
Implicit Types screens : PlayerScreens.

Definition Layout_Show (l : PanoramaMenuLayout) (slot : Z) screens : bool * PlayerScreens :=
  let '(screen, screens) := screens_for visible beneath (root_id l) slot screens in
  match screen with
  | None => (false, screens)
  | Some s =>
      let '(spawned, s) := EnsureSpawned slot s in
      if negb spawned then (false, PerSlot_set screens slot (Some (Some s)))
      else
        let s := WriteCursor slot true (SetHidden slot (root_id l) false s) in
        (true, PerSlot_set screens slot (Some (Some s)))
  end.

Definition Layout_Hide (slot : Z) screens : PlayerScreens :=
  match screens_find slot screens with
  | Some (Some s) => if negb (Exists_ s) then screens else PerSlot_set screens slot (Some (Some (Screen_Remove (WriteCursor slot false s))))
  | _ => screens
  end.

(** The calls of one [Set...] are writes to the slot's screen. *)
Definition draw (l : PanoramaMenuLayout) (slot : Z) (ws : list screen_write) screens : PlayerScreens :=
  on_screen visible beneath (root_id l) slot (fun s => fold_left (apply_write slot) ws s) screens.
End Draw.

(** ** Layout names *)

Lemma EndsWith_spec s suffix : EndsWith s suffix = true <-> exists front, s = front ++ suffix.
Proof.
  unfold EndsWith. rewrite is_prefix_spec. split; intros [rest H].
  - exists (rev rest). by rewrite <- (rev_involutive s), H, rev_app_distr, rev_involutive.
  - exists (rev rest). by rewrite H, rev_app_distr.
Qed.

(** A layout name that is accepted becomes a source resource under the one directory the client takes layouts from,
    which names itself; a full path is kept, and a short name put under the directory. *)
Theorem LayoutPath_resource layout resource :
  LayoutPath_Parse layout = Ok resource -> (exists name, resource = Directory ++ name) /\ EndsWith resource SourceExtension = true /\
  (contains_char "/" layout = true -> resource = layout /\ LayoutPath_Parse resource = Ok resource).
Proof.
  unfold LayoutPath_Parse at 1. destruct layout as [|c rest]; [done|]. set (layout := c :: rest).
  destruct (EndsWith layout SourceExtension) eqn:He; destruct (contains_char "/" layout) eqn:Hs; cbn [negb andb]; rewrite ?andb_true_r, ?andb_false_r.
  - destruct (StartsWith layout Directory) eqn:Hp; cbn [negb]; [|done]. intros [= <-]. pose proof Hp as Hp'. apply is_prefix_spec in Hp as [name Hp].
    split; [by exists name|]. split; [done|]. intros _. split; [done|]. unfold LayoutPath_Parse. subst layout. rewrite Hs, He. cbn [negb].
    by rewrite Hp'.
  - intros H. assert (resource = Directory ++ layout) as -> by (rewrite app_nil_r in H; congruence). clear H. clearbody layout.
    split; [by exists layout|]. split; [|done]. apply EndsWith_spec in He as [front ->].
    apply EndsWith_spec. exists (Directory ++ front). by rewrite <- app_assoc.
  - by destruct (StartsWith _ _).
  - destruct (contains_char "." layout); [done|]. intros H. assert (resource = Directory ++ layout ++ SourceExtension) as -> by congruence.
    clear H. clearbody layout. split; [by eexists|]. split; [|done]. apply EndsWith_spec. exists (Directory ++ layout). by rewrite <- app_assoc.
Qed.

(** ** The buttons are the ids, and only they *)

Definition button_id (screen : text) (b : MenuButton) : text :=
  let i := dec (ButtonIndex b) in
  screen ++ match ButtonKind b with
  | Cancel => $"_cancel" | Back => $"_back" | CloseButton => $"_close" | PreviousPage => $"_page_previous" | NextPage => $"_page_next"
  | TabButton => $"_tab" ++ i
  | RowButton_ => $"_row" ++ i ++ $"_button" | StepDown => $"_row" ++ i ++ $"_decrease" | StepUp => $"_row" ++ i ++ $"_increase"
  end.

Definition button_of (tabs rows : nat) (b : MenuButton) : Prop :=
  match ButtonKind b with
  | Cancel | Back | CloseButton | PreviousPage | NextPage => ButtonIndex b = 0
  | TabButton => 0 <= ButtonIndex b < Z.of_nat tabs
  | RowButton_ | StepDown | StepUp => 0 <= ButtonIndex b < Z.of_nat rows
  end.

Definition ends_digits (s : text) : bool := match s with [] => true | c :: _ => negb (is_dec_digit c) end.

Lemma dec_app_inj i j a b :
  0 <= i -> 0 <= j -> ends_digits a = true -> ends_digits b = true -> dec i ++ a = dec j ++ b -> i = j /\ a = b.
Proof.
  intros Hi Hj Ha Hb H. enough (dec i = dec j /\ a = b) as [Hd ->] by (split; [by apply dec_inj|done]).
  pose proof (dec_all_digits i Hi) as Di. pose proof (dec_all_digits j Hj) as Dj. revert H Di Dj. generalize (dec i) (dec j).
  intros l. induction l as [|x l IH]; intros [|y l'] H Di Dj; simplify_eq/=; bools.
  - done.
  - congruence.
  - congruence.
  - destruct (IH l') as [-> ->]; auto.
Qed.

Lemma button_id_inj screen tabs rows b b' :
  button_of tabs rows b -> button_of tabs rows b' -> button_id screen b = button_id screen b' -> b = b'.
Proof.
  destruct b as [k i], b' as [k' i']. unfold button_of, button_id. cbn [ButtonKind ButtonIndex]. intros Hi Hi' H%app_inv_head.
  destruct k, k'; try (cbn in H; discriminate H); subst; try done; cbn in H; injection H as H;
    solve [f_equal; apply dec_inj, H | apply dec_app_inj in H as [-> H]; [try done; discriminate H|lia|lia|done|done]].
Qed.

Lemma find_tab_spec screen id start count :
  find_tab id (Z.of_nat start) (map (tab_of screen) (seq start count)) =
  match List.find (fun i => text_eqb id (Tab_Id (tab_of screen i))) (seq start count) with Some i => Some (mkButton TabButton (Z.of_nat i)) | None => None end.
Proof.
  revert start. induction count as [|count IH]; intros start; [done|]. cbn [seq map find_tab List.find]. destruct (text_eqb _ _); [done|].
  rewrite <- IH. f_equal. lia.
Qed.

Definition row_button (screen id : text) (i : nat) : option MenuButtonKind :=
  let row := row_of screen i in
  if text_eqb id (Row_Button row) then Some RowButton_ else if text_eqb id (Row_Decrease row) then Some StepDown
  else if text_eqb id (Row_Increase row) then Some StepUp else None.

Lemma find_row_step screen id i n rest :
  find_row id n (row_of screen i :: rest) = match row_button screen id i with Some k => Some (mkButton k n) | None => find_row id (n + 1) rest end.
Proof. unfold row_button. cbn [find_row]. repeat (destruct (text_eqb id _); [done|]). done. Qed.

Lemma find_row_sound screen id start count b :
  find_row id (Z.of_nat start) (map (row_of screen) (seq start count)) = Some b ->
  exists i, (start <= i < start + count)%nat /\ ButtonIndex b = Z.of_nat i /\ row_button screen id i = Some (ButtonKind b).
Proof.
  revert start. induction count as [|count IH]; intros start; [done|]. cbn [seq map]. rewrite find_row_step.
  destruct (row_button screen id start) as [k|] eqn:E.
  - intros [= <-]. exists start. split_and!; [lia|lia|done|done].
  - replace (Z.of_nat start + 1) with (Z.of_nat (S start)) by lia. intros (i & Hi & H)%IH. exists i. split; [lia|done].
Qed.

Lemma find_row_complete screen id start count :
  find_row id (Z.of_nat start) (map (row_of screen) (seq start count)) = None ->
  forall i, (start <= i < start + count)%nat -> row_button screen id i = None.
Proof.
  revert start. induction count as [|count IH]; intros start H i Hi; [lia|]. cbn [seq map] in H. rewrite find_row_step in H.
  destruct (row_button screen id start) eqn:E; [done|]. destruct (decide (i = start)) as [->|Hne]; [done|].
  replace (Z.of_nat start + 1) with (Z.of_nat (S start)) in H by lia. apply (IH (S start)); [done|lia].
Qed.

Lemma row_button_id screen id i k : row_button screen id i = Some k -> id = button_id screen (mkButton k (Z.of_nat i)).
Proof.
  unfold row_button. repeat (destruct (text_eqb id _) eqn:E; [apply text_eqb_true in E; by intros [= <-]|clear E]). done.
Qed.

Lemma row_button_own screen i k :
  k = RowButton_ \/ k = StepDown \/ k = StepUp -> row_button screen (button_id screen (mkButton k (Z.of_nat i))) i <> None.
Proof.
  intros Hk. unfold row_button, row_of, button_id. cbn [ButtonKind ButtonIndex Row_Button Row_Decrease Row_Increase].
  destruct Hk as [->|[->| ->]]; rewrite text_eqb_refl; repeat (destruct (text_eqb _ _); [done|]); done.
Qed.

(** A press is decoded to the button whose id it names, and to nothing for any other id: tabs and rows within the
    layout's counts, each with its own index, whatever the screen is called. *)
Theorem ButtonFor_names screen tabs rows icons id b :
  ButtonFor (Layout_new screen tabs rows icons) id = Some b <-> button_of tabs rows b /\ id = button_id screen b.
Proof.
  set (l := Layout_new screen tabs rows icons).
  assert (forall b, ButtonFor l id = Some b -> button_of tabs rows b /\ id = button_id screen b) as Hsound.
  { clear b. intros b. unfold ButtonFor.
    repeat (destruct (text_eqb id _) eqn:E; [apply text_eqb_true in E; by intros [= <-]|clear E]).
    change (tab_ids l) with (map (tab_of screen) (seq 0 tabs)). change (row_ids l) with (map (row_of screen) (seq 0 rows)).
    change 0 with (Z.of_nat 0) at 1. rewrite find_tab_spec. destruct (List.find _ _) as [i|] eqn:Ef.
    - apply List.find_some in Ef as [Hi%in_seq Hid%text_eqb_true]. intros [= <-]. split; [cbn; lia|done].
    - intros H. apply (find_row_sound screen id 0 rows) in H as (i & Hi & Eb & Hk). destruct b as [k j]; cbn in *; subst j.
      split; [|by apply row_button_id in Hk]. unfold row_button in Hk.
      repeat (destruct (text_eqb id _); [injection Hk as <-; cbn; lia|]). done. }
  split; [apply Hsound|]. intros [Hb ->]. destruct (ButtonFor l (button_id screen b)) as [b'|] eqn:E.
  { destruct (Hsound b' eq_refl) as [Hb' Hid]. f_equal. symmetry. by apply (button_id_inj screen tabs rows). }
  exfalso. unfold ButtonFor in E.
  destruct (text_eqb _ (cancel_id l)) eqn:E1 in E; [discriminate E|]. destruct (text_eqb _ (back_id l)) eqn:E2 in E; [discriminate E|].
  destruct (text_eqb _ (close_id l)) eqn:E3 in E; [discriminate E|]. destruct (text_eqb _ (page_previous_id l)) eqn:E4 in E; [discriminate E|].
  destruct (text_eqb _ (page_next_id l)) eqn:E5 in E; [discriminate E|].
  change (tab_ids l) with (map (tab_of screen) (seq 0 tabs)) in E. change (row_ids l) with (map (row_of screen) (seq 0 rows)) in E.
  change 0 with (Z.of_nat 0) in E at 1. rewrite find_tab_spec in E. destruct (List.find _ _) eqn:Ef; [done|].
  pose proof (find_row_complete screen _ 0 rows E (Z.to_nat (ButtonIndex b))) as Hr. clear E.
  destruct b as [k i]. unfold button_of in Hb. cbn [ButtonKind ButtonIndex] in *.
  assert (forall k, k = RowButton_ \/ k = StepDown \/ k = StepUp -> 0 <= i < Z.of_nat rows ->
    row_button screen (button_id screen (mkButton k i)) (Z.to_nat i) <> None) as Hrow.
  { clear. intros k Hk Hi. rewrite <- (Z2Nat.id i) at 1 by lia. by apply row_button_own. }
  destruct k; try (subst i; unfold button_id in *; cbn [ButtonKind] in *; rewrite text_eqb_refl in *; discriminate).
  - pose proof (List.find_none _ _ Ef (Z.to_nat i)) as Hn. rewrite in_seq in Hn. specialize (Hn ltac:(lia)). unfold tab_of, button_id in Hn.
    cbn [Tab_Id ButtonKind ButtonIndex] in Hn. rewrite Z2Nat.id in Hn by lia. by rewrite text_eqb_refl in Hn.
  - apply (Hrow RowButton_); [by left|done|]. apply Hr. lia.
  - apply (Hrow StepDown); [by right; left|done|]. apply Hr. lia.
  - apply (Hrow StepUp); [by right; right|done|]. apply Hr. lia.
Qed.

(** ** What writes leave on the screen *)

Definition write_key (w : screen_write) : WriteKind * text * text :=
  match w with TextW variable _ => (WriteText_, [], variable) | ClassW elementId className _ => (WriteClass_, elementId, className) end.
Definition write_value (w : screen_write) : text := match w with TextW _ value => value | ClassW _ _ on => if on then $"1" else $"0" end.
Definition plain_write (w : screen_write) : Prop := plain (write_key w).1.2.

(** The value [ws] leaves under a key. *)
Definition last_write (ws : list screen_write) (key : WriteKind * text * text) : option text :=
  fold_left (fun found w => if bool_decide (write_key w = key) then Some (write_value w) else found) ws None.

(** The screen of [slot]'s own. *)
Definition own_screen (slot : Z) (s : ScreenEntity) : Prop := IsValidSlot slot = true /\ screen_owner s = slot /\ coherent s.

(** The owner is shown the value, or nothing can be sent to the screen any more. *)
Definition told (s : ScreenEntity) (key : WriteKind * text * text) (value : text) : Prop :=
  shown_at s EveryoneSlot key.1.1 key.1.2 key.2 = Some value \/ sendable s EveryoneSlot = false.

Lemma own_is_for_player slot s : own_screen slot s -> IsForPlayer s = true.
Proof. intros (Hv & Ho & _). unfold IsForPlayer. rewrite Ho, everyone_invalid; done. Qed.

Lemma own_cache_slot slot s : own_screen slot s -> CacheSlotFor s slot = Some slot.
Proof. intros Hs. unfold CacheSlotFor. rewrite (own_is_for_player slot s Hs). destruct Hs as (_ & -> & _). by rewrite Z.eqb_refl, andb_comm. Qed.

Lemma own_content slot s : own_screen slot s -> ContentSlotFor s slot = EveryoneSlot.
Proof. intros Hs. unfold ContentSlotFor. by rewrite (own_is_for_player slot s Hs). Qed.

Lemma apply_write_spec slot s w : apply_write slot s w = write (write_key w).1.1 slot (write_key w).1.2 (write_key w).2 (write_value w) s.
Proof. by destruct w. Qed.

Lemma apply_write_own slot s w : plain_write w -> own_screen slot s -> own_screen slot (apply_write slot s w).
Proof.
  intros Hp (Hv & Ho & Hc). rewrite apply_write_spec. split; [done|]. split; [|by apply write_coherent].
  by rewrite (proj1 (write_frame s _ slot _ _ _)).
Qed.

Lemma apply_write_told slot s w : plain_write w -> own_screen slot s -> told (apply_write slot s w) (write_key w) (write_value w).
Proof.
  intros Hp Hs. pose proof Hs as (Hv & _ & Hc). rewrite apply_write_spec. unfold told.
  assert (recorded slot = true) as Hr by (unfold recorded; by rewrite Hv, orb_true_r).
  destruct (write_reaches s (write_key w).1.1 slot (write_key w).1.2 (write_key w).2 (write_value w) slot Hc Hp (own_cache_slot _ _ Hs) Hr) as [H|[H _]].
  - left. by rewrite (own_content slot s Hs) in H.
  - right. rewrite (own_content slot s Hs) in H. by rewrite (proj1 (proj2 (write_frame s _ slot _ _ _))).
Qed.

Lemma apply_write_keeps slot s w key value : write_key w <> key -> told s key value -> told (apply_write slot s w) key value.
Proof.
  intros Hne. rewrite apply_write_spec. unfold told.
  destruct (write_frame s (write_key w).1.1 slot (write_key w).1.2 (write_key w).2 (write_value w)) as (_ & Hs & Hf). rewrite Hs.
  intros [H|H]; [left|by right]. rewrite Hf; [done|]. intros E. apply Hne. destruct (write_key w) as [[? ?] ?], key as [[? ?] ?]. cbn in E. by simplify_eq.
Qed.

Lemma writes_own slot ws s : Forall plain_write ws -> own_screen slot s -> own_screen slot (fold_left (apply_write slot) ws s).
Proof. intros Hp. revert s. induction Hp as [|w ws Hw _ IH]; intros s Hs; [done|]. by apply IH, apply_write_own. Qed.

Lemma last_write_snoc ws w key : last_write (ws ++ [w]) key = if bool_decide (write_key w = key) then Some (write_value w) else last_write ws key.
Proof. unfold last_write. by rewrite fold_left_app. Qed.

Lemma writes_told slot ws s key value :
  Forall plain_write ws -> own_screen slot s -> last_write ws key = Some value -> told (fold_left (apply_write slot) ws s) key value.
Proof.
  intros Hp Hs. induction ws as [|w ws IH] using rev_ind; [done|]. apply Forall_app in Hp as [Hp Hw%Forall_inv].
  rewrite last_write_snoc, fold_left_app. cbn [fold_left]. case_bool_decide as Hk.
  - intros [= <-]. subst key. by apply apply_write_told, writes_own.
  - intros H. by apply apply_write_keeps, IH.
Qed.

(** *** Among the players' screens *)

Definition screen_at (screens : PlayerScreens) (slot : Z) : option ScreenEntity := mjoin (mjoin (PerSlot_get screens slot)).

Record screens_ok (screens : PlayerScreens) : Prop := {
  screens_wf : PerSlot_wf screens;
  screens_own : forall slot s, IsValidSlot slot = true -> screen_at screens slot = Some s -> own_screen slot s }.

Lemma screen_at_set screens slot slot' s :
  PerSlot_wf screens -> IsValidSlot slot' = true -> screen_at (PerSlot_set screens slot s) slot' = if slot =? slot' then mjoin s else screen_at screens slot'.
Proof.
  intros Hw Hv. unfold screen_at, PerSlot_get, PerSlot_set. rewrite Hv. unfold PerSlot_wf, IsValidSlot in *.
  destruct ((0 <=? slot) && (slot <? MaxPlayers)) eqn:Hs.
  - destruct (Z.eqb_spec slot slot') as [->|Hne].
    + rewrite list_lookup_insert_eq by (rewrite Hw; bools; lia). done.
    + by rewrite list_lookup_insert_ne by (bools; lia).
  - destruct (Z.eqb_spec slot slot') as [->|]; [congruence|done].
Qed.

Lemma screens_set_ok screens slot s :
  screens_ok screens -> (forall s', IsValidSlot slot = true -> mjoin s = Some s' -> own_screen slot s') -> screens_ok (PerSlot_set screens slot s).
Proof.
  intros [Hw Ho] Hs. split; [by apply PerSlot_set_wf|]. intros slot' s' Hv. rewrite screen_at_set by done.
  destruct (Z.eqb_spec slot slot') as [->|]; [by apply Hs|by apply Ho].
Qed.

Lemma screens_new_ok : screens_ok PlayerScreens_new.
Proof.
  split; [apply PerSlot_new_wf|]. intros slot s Hv. unfold screen_at.
  destruct (PerSlot_get PlayerScreens_new slot) as [x|] eqn:E; [|done]. pose proof (PerSlot_get_new (None : option (option ScreenEntity)) slot) as Hn. unfold PlayerScreens_new in E.
  rewrite E in Hn. cbn in Hn. by subst.
Qed.

Section DrawLaws.
Context (visible : Status) (beneath : Z -> Engine) (Hbeneath : forall slot, live (beneath slot) = None).
Implicit Types screens : PlayerScreens.

Lemma screens_for_ok layout slot screens :
  screens_ok screens -> IsValidSlot slot = true ->
  let r := screens_for visible beneath layout slot screens in screens_ok r.2 /\ screen_at r.2 slot = r.1.
Proof.
  intros Hok Hv. unfold screens_for. rewrite Hv. cbn [negb]. destruct (mjoin (PerSlot_get screens slot)) as [screen|] eqn:E; cbn [fst snd].
  - split; [done|]. unfold screen_at. by rewrite E.
  - split; [|rewrite screen_at_set by (done || apply Hok); by rewrite Z.eqb_refl].
    apply screens_set_ok; [done|]. intros s _ Hs. cbn in Hs. unfold ForPlayer, Create in Hs. rewrite Hv in Hs. cbn [negb] in Hs.
    destruct visible; [|done]. destruct (LayoutPath_Parse layout); [|done]. cbn in Hs. injection Hs as <-.
    split; [done|]. split; [done|]. apply new_coherent; [by right|by rewrite Hbeneath].
Qed.

Lemma screens_for_other layout slot slot' screens :
  screens_ok screens -> IsValidSlot slot' = true -> slot <> slot' ->
  screen_at (screens_for visible beneath layout slot screens).2 slot' = screen_at screens slot'.
Proof.
  intros Hok Hv Hne. unfold screens_for. destruct (negb _); [done|]. destruct (mjoin _); [done|]. cbn [snd].
  rewrite screen_at_set by (done || apply Hok). by destruct (Z.eqb_spec slot slot').
Qed.

Lemma draw_ok l slot ws screens : Forall plain_write ws -> screens_ok screens -> screens_ok (draw visible beneath l slot ws screens).
Proof.
  intros Hp Hok. unfold draw, on_screen. destruct (IsValidSlot slot) eqn:Hv.
  - pose proof (screens_for_ok (root_id l) slot screens Hok Hv) as [Hok' Hat]. destruct (screens_for _ _ _ _ _) as [[s|] screens']; cbn [fst snd] in *; [|done].
    apply screens_set_ok; [done|]. intros s' _ [= <-]. apply writes_own; [done|]. by apply (screens_own _ Hok').
  - unfold screens_for. by rewrite Hv.
Qed.

(** Drawing on a screen that is there. *)
Lemma draw_at l slot ws screens s :
  screens_ok screens -> IsValidSlot slot = true -> screen_at screens slot = Some s ->
  draw visible beneath l slot ws screens = PerSlot_set screens slot (Some (Some (fold_left (apply_write slot) ws s))).
Proof.
  intros Hok Hv Hs. unfold draw, on_screen, screens_for. rewrite Hv. cbn [negb]. unfold screen_at in Hs.
  destruct (mjoin (PerSlot_get screens slot)) as [screen|]; [|done]. cbn in Hs. by subst.
Qed.

Lemma PerSlot_set_twice {T} (items : PerSlot T) slot a b : PerSlot_set (PerSlot_set items slot a) slot b = PerSlot_set items slot b.
Proof. unfold PerSlot_set. destruct (IsValidSlot slot); [|done]. by rewrite list_insert_insert_eq. Qed.

Lemma draw_app l slot ws1 ws2 screens s :
  screens_ok screens -> IsValidSlot slot = true -> screen_at screens slot = Some s -> Forall plain_write ws1 ->
  draw visible beneath l slot ws2 (draw visible beneath l slot ws1 screens) = draw visible beneath l slot (ws1 ++ ws2) screens.
Proof.
  intros Hok Hv Hs Hp. rewrite !(draw_at l slot _ screens s) by done.
  rewrite (draw_at l slot ws2 _ (fold_left (apply_write slot) ws1 s)); [by rewrite PerSlot_set_twice, fold_left_app| |done|].
  - apply screens_set_ok; [done|]. intros s' _ [= <-]. apply writes_own; [done|by apply (screens_own _ Hok)].
  - rewrite screen_at_set by (done || apply Hok). by rewrite Z.eqb_refl.
Qed.

Lemma Show_ok l slot screens :
  plain (root_id l) -> screens_ok screens -> IsValidSlot slot = true ->
  let r := Layout_Show visible beneath l slot screens in screens_ok r.2 /\ (r.1 = true -> is_Some (screen_at r.2 slot)).
Proof.
  intros Hplain Hok Hv. unfold Layout_Show. pose proof (screens_for_ok (root_id l) slot screens Hok Hv) as [Hok' Hat].
  destruct (screens_for _ _ _ _ _) as [[s|] screens']; cbn [fst snd] in *; [|done].
  pose proof (screens_own _ Hok' slot s Hv Hat) as (_ & Ho & Hc). pose proof (EnsureSpawned_coherent slot s Hc) as Hc1.
  pose proof (EnsureSpawned_owner slot s) as Ho1. destruct (EnsureSpawned slot s) as [spawned s1]. cbn [snd] in Hc1, Ho1.
  assert (own_screen slot s1) as Hs1 by (split_and!; [done|congruence|done]). destruct spawned; cbn [negb fst snd].
  - assert (own_screen slot (WriteCursor slot true (SetHidden slot (root_id l) false s1))) as Hs2.
    { pose proof (apply_write_own slot s1 (HiddenW (root_id l) false) Hplain Hs1) as (_ & Ho2 & Hc2). cbn [apply_write HiddenW] in Ho2, Hc2.
      split_and!; [done| |by apply cursor_coherent]. by rewrite WriteCursor_owner. }
    split; [by apply screens_set_ok; [|by intros s' _ [= <-]]|]. intros _. rewrite screen_at_set by (done || apply Hok'). rewrite Z.eqb_refl. eauto.
  - split; [|done]. by apply screens_set_ok; [|by intros s' _ [= <-]].
Qed.

Lemma Hide_ok slot screens : screens_ok screens -> screens_ok (Layout_Hide slot screens).
Proof.
  intros Hok. unfold Layout_Hide, screens_find. destruct (IsValidSlot slot) eqn:Hv; cbn [negb]; [|done].
  destruct (mjoin (PerSlot_get screens slot)) as [[s|]|] eqn:E; [|done..]. destruct (negb _); [done|].
  assert (screen_at screens slot = Some s) as Hat by (unfold screen_at; by rewrite E). pose proof (screens_own _ Hok slot s Hv Hat) as (_ & Ho & Hc).
  apply screens_set_ok; [done|]. intros s' _ [= <-]. split_and!; [done| |by apply Remove_coherent, cursor_coherent].
  cbn [Screen_Remove screen_owner]. by rewrite WriteCursor_owner.
Qed.
End DrawLaws.

Lemma PerSlot_get_map {T} (f : T -> T) (items : PerSlot T) slot : PerSlot_get (map f items : PerSlot T) slot = option_map f (PerSlot_get items slot).
Proof. unfold PerSlot_get. destruct (IsValidSlot slot); [|done]. apply list_lookup_fmap. Qed.

(** A slot changing hands reaches every screen. *)
Lemma SlotChanged_screens_ok slot screens : screens_ok screens -> screens_ok (map (option_map (option_map (Screen_SlotChanged slot))) screens).
Proof.
  intros [Hw Ho]. split; [unfold PerSlot_wf in *; by rewrite length_map|]. intros slot' s Hv Hs.
  unfold screen_at in *. rewrite PerSlot_get_map in Hs. specialize (Ho slot'). unfold screen_at in Ho.
  destruct (PerSlot_get screens slot') as [[[s0|]|]|]; try done. cbn in Hs. injection Hs as <-.
  destruct (Ho s0 Hv eq_refl) as (_ & Hs0 & Hc). split_and!; [done| |by apply SlotChanged_coherent].
  unfold Screen_SlotChanged. by destruct (slot =? _).
Qed.

(** ** Rows do not share what they write *)

Lemma last_write_nodup ws w : NoDup (map write_key ws) -> w ∈ ws -> last_write ws (write_key w) = Some (write_value w).
Proof.
  induction ws as [|w0 ws IH] using rev_ind; [by intros _ ?%not_elem_of_nil|]. rewrite map_app, last_write_snoc.
  intros (Hn & Hne & _)%NoDup_app [Hw|Hw]%elem_of_app; [|by apply list_elem_of_singleton in Hw as ->; rewrite bool_decide_eq_true_2].
  rewrite bool_decide_eq_false_2; [by apply IH|]. intros E. apply (Hne (write_key w)).
  - by apply (list_elem_of_fmap_2 write_key).
  - apply list_elem_of_singleton. by rewrite E.
Qed.

Lemma told_writes slot ws s :
  NoDup (map write_key ws) -> Forall plain_write ws -> own_screen slot s ->
  Forall (fun w => told (fold_left (apply_write slot) ws s) (write_key w) (write_value w)) ws.
Proof.
  intros Hn Hp Hs. apply Forall_forall. intros w Hw. apply writes_told; [done..|]. by apply last_write_nodup.
Qed.

Lemma writes_keep slot ws s key value :
  Forall (fun w => write_key w <> key) ws -> told s key value -> told (fold_left (apply_write slot) ws s) key value.
Proof. intros Hne. revert s. induction Hne as [|w ws Hw _ IH]; intros s Hs; [done|]. by apply IH, apply_write_keeps. Qed.

(** The keys a row's writes are under. *)
Definition row_key (screen : text) (r : nat) (key : WriteKind * text * text) : Prop :=
  key.1 = (WriteClass_, screen ++ $"_row" ++ dec (Z.of_nat r)) \/
  exists rest, key = (WriteText_, [], $"row" ++ dec (Z.of_nat r) ++ rest) /\ ends_digits rest = true.

Lemma row_key_inj screen r r' key : row_key screen r key -> row_key screen r' key -> r = r'.
Proof.
  intros [H|(a & -> & Ha)] [H'|(b & H' & Hb)].
  - rewrite H in H'. injection H' as H'%app_inv_head. cbn in H'. injection H' as H'%dec_inj. lia.
  - by subst key.
  - done.
  - injection H' as H'. apply dec_app_inj in H' as [H' _]; [lia..|done|done].
Qed.

(** Everything but what the writes to a row never use. *)
Definition unflashed (row : MenuRow) : MenuRow :=
  mkRow (Label row) (Value row) (Kind row) (Enabled row) (Selectable row) (Steppable row) (Toggled row) (Icon row) (Pending row) false.

Lemma SetRow_unflashed l r row hint : SetRow l r (Some (unflashed row)) hint = SetRow l r (Some row) hint.
Proof. done. Qed.

Definition row_classes : list text :=
  map lit ["hidden"; "row--value"; "row--disabled"; "row--on"; "row--toggle"; "row--chevron"; "row--static"; "row--steppers"; "row--pending"]%string.
Definition row_variables : list text := map lit ["_label"; "_value"; "_hint"]%string.

Lemma row_consts_distinct : NoDup row_classes /\ NoDup row_variables.
Proof. split; apply (bool_decide_eq_true_1 _); by vm_compute. Qed.

(** The keys of a shown row, the hint's last. *)
Definition shown_keys (ids : RowIds) : list (WriteKind * text * text) :=
  [(WriteClass_, Row_Id ids, $"hidden"); (WriteText_, [], Row_LabelVar ids); (WriteText_, [], Row_ValueVar ids)] ++
  map (fun c => (WriteClass_, Row_Id ids, c)) (tail row_classes) ++ [(WriteText_, [], Row_HintVar ids)].

Lemma row_writes_keys ids row hint : map write_key (row_writes ids row hint) `sublist_of` shown_keys ids.
Proof.
  unfold row_writes. rewrite map_app. unfold shown_keys. rewrite app_assoc. apply sublist_app; [by vm_compute|].
  destruct (Pending row); cbn; [done|apply sublist_nil_l].
Qed.

Lemma shown_keys_own screen r : NoDup (shown_keys (row_of screen r)) /\ Forall (row_key screen r) (shown_keys (row_of screen r)).
Proof.
  set (i := dec (Z.of_nat r)). set (id := screen ++ $"_row" ++ i).
  set (classes := map (fun c => (WriteClass_, id, c)) row_classes).
  set (variables := map (fun v => (WriteText_, [] : text, $"row" ++ i ++ v)) row_variables).
  assert (shown_keys (row_of screen r) ≡ₚ classes ++ variables) as ->.
  { assert (forall (h v1 v2 v3 : WriteKind * text * text) rest, [h; v1; v2] ++ rest ++ [v3] ≡ₚ (h :: rest) ++ [v1; v2; v3]) as H by (intros; solve_Permutation).
    exact (H _ _ _ _ _). }
  destruct row_consts_distinct as [H1 H2]. split.
  - apply NoDup_app. split_and!.
    + by apply NoDup_fmap_2; [intros a b [=]|].
    + intros key (c & -> & _)%list_elem_of_fmap (v & [=] & _)%list_elem_of_fmap.
    + apply NoDup_fmap_2; [|done]. intros a b H. injection H as H. by apply app_inv_head in H.
  - apply Forall_app. split; apply Forall_fmap, Forall_forall; intros c Hc; cbn; [by left|]. right. exists c. split; [done|].
    revert c Hc. apply Forall_forall. by repeat constructor.
Qed.

Lemma SetRow_keys screen l r row hint ws :
  row_ids l !! r = Some (row_of screen r) -> SetRow l r row hint = Returns ws ->
  NoDup (map write_key ws) /\ Forall (fun w => row_key screen r (write_key w)) ws.
Proof.
  intros Hr. unfold SetRow. rewrite Hr. destruct (shown_keys_own screen r) as [Hn Hk]. destruct row as [row|]; intros [= <-].
  - pose proof (row_writes_keys (row_of screen r) row hint) as Hs. split; [by eapply sublist_NoDup|].
    apply Forall_forall. intros w Hw. apply (proj1 (Forall_forall _ _) Hk). eapply elem_of_sublist; [|exact Hs]. by apply (list_elem_of_fmap_2 write_key).
  - split; [apply NoDup_singleton|]. constructor; [by left|done].
Qed.

(** ** A layout's ids *)

(** What [Layout_new] gives and [AddText] keeps. *)
Record layout_of (screen : text) (tabs rows : nat) (l : PanoramaMenuLayout) : Prop := {
  layout_root : root_id l = screen;
  layout_ids : [subtitle_id l; empty_id l; prompt_id l; back_id l; page_id l] =
    map (app screen) (map lit ["_subtitle"; "_empty"; "_prompt"; "_back"; "_page"]%string);
  layout_tabs : tab_ids l = map (tab_of screen) (seq 0 tabs);
  layout_rows : row_ids l = map (row_of screen) (seq 0 rows) }.

Lemma layout_new screen tabs rows icons : layout_of screen tabs rows (Layout_new screen tabs rows icons).
Proof. done. Qed.

Lemma layout_add screen tabs rows variable shown l : layout_of screen tabs rows l -> layout_of screen tabs rows (AddText variable shown l).
Proof. by intros []. Qed.

Definition plainb (s : text) : bool := negb (existsb (fun c => code c =? 31) s).

Lemma plainb_plain s : plainb s = true -> plain s.
Proof.
  unfold plainb, plain. intros H%negb_true_iff Hin. apply not_true_iff_false in H. apply H, existsb_exists.
  exists KeySeparator. split; [done|by vm_compute].
Qed.

Lemma plain_app a b : plain a -> plain b -> plain (a ++ b).
Proof. unfold plain. intros Ha Hb [H|H]%in_app_or; auto. Qed.

Lemma plain_dec z : plain (dec z).
Proof. intros [H|H]%dec_chars; [discriminate|by vm_compute in H]. Qed.

Section Plain.
Context (screen : text) (tabs rows : nat) (l : PanoramaMenuLayout) (Hl : layout_of screen tabs rows l) (Hplain : plain screen).

Lemma plain_named (id name : text) : id = screen ++ name -> plainb name = true -> plain id.
Proof using Hplain. intros -> H. apply plain_app; [done|by apply plainb_plain]. Qed.

Lemma plain_indexed (id name rest : text) z : id = screen ++ name ++ dec z ++ rest -> plainb name = true -> plainb rest = true -> plain id.
Proof using Hplain.
  intros -> H H'. repeat apply plain_app; auto using plainb_plain, plain_dec.
Qed.

Lemma plain_text variable value : plain_write (TextW variable value).
Proof. by intros []. Qed.

Lemma header_plain slot header : Forall plain_write (SetHeader l slot header).
Proof using Hl Hplain.
  unfold SetHeader. apply Forall_app. split.
  - repeat constructor; try apply plain_text. pose proof (layout_ids _ _ _ _ Hl) as H. injection H as H _ _ _ _. by eapply plain_named.
  - apply Forall_fmap, Forall_forall. intros t _. apply plain_text.
Qed.

Lemma root_plain className on : plain_write (ClassW (root_id l) className on).
Proof using Hl Hplain. unfold plain_write. cbn. by rewrite (layout_root _ _ _ _ Hl). Qed.

Lemma tab_plain index tab ws : SetTab l index tab = Returns ws -> Forall plain_write ws.
Proof using Hl Hplain.
  unfold SetTab. rewrite (layout_tabs _ _ _ _ Hl). destruct (map _ _ !! index) as [ids|] eqn:E; [|done]. intros [= <-].
  apply list_lookup_fmap_Some in E as (i & -> & _).
  assert (plain (Tab_Id (tab_of screen i))) as H1 by (apply (plain_indexed _ $"_tab" [] (Z.of_nat i)); [by rewrite app_nil_r|done..]).
  assert (plain (Tab_Icon (tab_of screen i))) as H2 by by apply (plain_indexed _ $"_tab" $"_icon" (Z.of_nat i)).
  destruct tab as [tab|]; [|by repeat constructor]. constructor; [exact H1|]. constructor; [apply plain_text|]. constructor; [exact H1|].
  unfold ModifierW. by apply Forall_fmap, Forall_forall.
Qed.

Lemma row_plain index row hint ws : SetRow l index row hint = Returns ws -> Forall plain_write ws.
Proof using Hl Hplain.
  unfold SetRow. rewrite (layout_rows _ _ _ _ Hl). destruct (map _ _ !! index) as [ids|] eqn:E; [|done]. intros [= <-].
  apply list_lookup_fmap_Some in E as (i & -> & _).
  assert (plain (Row_Id (row_of screen i))) as H1 by (apply (plain_indexed _ $"_row" [] (Z.of_nat i)); [by rewrite app_nil_r|done..]).
  destruct row as [row|]; [|by repeat constructor]. unfold row_writes.
  apply (Forall_app plain_write [_; _; _; _; _; _; _; _; _; _; _]). split; [repeat constructor; try exact H1; apply plain_text|]. destruct (Pending row); constructor; [apply plain_text|done].
Qed.

(** What is drawn below the rows. *)
Lemma below_plain shown back cancel hint :
  Forall plain_write (SetEmpty l shown) /\ Forall plain_write (SetPager l shown) /\
  Forall plain_write (SetPrompt l shown hint) /\ Forall plain_write (SetFooter l back cancel).
Proof using Hl Hplain.
  pose proof (layout_ids _ _ _ _ Hl) as H. injection H as _ He Hp Hb Hg.
  split_and!; repeat constructor; try apply plain_text; try apply root_plain; by eapply plain_named.
Qed.

(** And is nobody's row. *)
Lemma below_not_rows shown back cancel hint r key :
  row_key screen r key ->
  let elsewhere := Forall (fun w => write_key w <> key) in
  elsewhere (SetEmpty l shown) /\ elsewhere (SetPager l shown) /\ elsewhere (SetPrompt l shown hint) /\ elsewhere (SetFooter l back cancel).
Proof using Hl.
  pose proof (layout_ids _ _ _ _ Hl) as H. injection H as _ He Hp Hb Hg. pose proof (layout_root _ _ _ _ Hl) as Hroot.
  intros Hk elsewhere. assert (forall name, write_key (TextW name []) = key -> is_prefix $"row" name = true) as Htext.
  { intros name <-. destruct Hk as [Hk|(rest & Hk & _)]; [done|]. injection Hk as ->. exact (is_prefix_app $"row" _). }
  assert (forall name className, write_key (ClassW (screen ++ name) className true) = key -> is_prefix $"_row" name = true) as Hclass.
  { intros name className <-. destruct Hk as [Hk|(rest & Hk & _)]; [|done]. injection Hk as ->%app_inv_head. exact (is_prefix_app $"_row" _). }
  assert (forall className, write_key (ClassW screen className true) <> key) as Hself.
  { intros className E. specialize (Hclass [] className). rewrite app_nil_r in Hclass. by specialize (Hclass E). }
  unfold elsewhere, SetEmpty, SetPager, SetPrompt, SetFooter, HiddenW; split_and!; rewrite ?He, ?Hp, ?Hb, ?Hg, ?Hroot; repeat constructor; intros E;
    first [by apply Hself in E | by specialize (Htext _ E) | by specialize (Hclass _ _ E)].
Qed.
End Plain.
