(* ===== verification/PanoramaMenu.v ===== *)
(** * The Panorama menu: [Menu/PanoramaMenu.cpp]

    The other surface over the stack: a page and tabs per slot, drawn on the player's own screen whenever something
    changes, and driven by the buttons pressed on it. *)
From S2P Require Import Prelude Text Identity Errors MenuCursor MenuStack MenuFreeze ChatInput Screens Layouts.

Record Tab := mkTabOf { RootIndex : Z; SessionLabel : text; SessionIcon : text }.
Record Session := mkSession { Tabs : list Tab; SelectedTab : Z; SessionPage : Z; HomePage_ : bool }.
Definition Session_new : Session := mkSession [] (-1) 0 false.

(** The menu's sessions and the services it changes. [now] is the monotonic clock, [available] what [Screens.Available]
    and [ready] what the add-on manager answer; [replies] is what was replied. *)
Record Panorama (W : Type) := mkPano {
  sessions : PerSlot Session;
  screens : PlayerScreens;
  captures : PerSlot (option (Capture (Z -> text -> program W)));
  freeze : MenuFreeze;
  now : Z;
  available : bool;
  ready : Z -> bool;
  replies : list (Z * text);
  world : W }.
Arguments mkPano {W}.
Arguments sessions {W}.
Arguments screens {W}.
Arguments captures {W}.
Arguments freeze {W}.
Arguments now {W}.
Arguments available {W}.
Arguments ready {W}.
Arguments replies {W}.
Arguments world {W}.

Section Setters.
Context {W : Type}.
Implicit Types x : Panorama W.
Definition with_sessions (f : PerSlot Session -> PerSlot Session) x :=
  mkPano (f (sessions x)) (screens x) (captures x) (freeze x) (now x) (available x) (ready x) (replies x) (world x).
Definition with_screens (f : PlayerScreens -> PlayerScreens) x :=
  mkPano (sessions x) (f (screens x)) (captures x) (freeze x) (now x) (available x) (ready x) (replies x) (world x).
Definition with_captures (f : PerSlot (option (Capture (Z -> text -> program W))) -> PerSlot (option (Capture (Z -> text -> program W)))) x :=
  mkPano (sessions x) (screens x) (f (captures x)) (freeze x) (now x) (available x) (ready x) (replies x) (world x).
Definition with_freeze (f : MenuFreeze -> MenuFreeze) x :=
  mkPano (sessions x) (screens x) (captures x) (f (freeze x)) (now x) (available x) (ready x) (replies x) (world x).
Definition add_reply (slot : Z) (replied : text) x :=
  mkPano (sessions x) (screens x) (captures x) (freeze x) (now x) (available x) (ready x) (replies x ++ [(slot, replied)]) (world x).
Definition set_world (w : W) x :=
  mkPano (sessions x) (screens x) (captures x) (freeze x) (now x) (available x) (ready x) (replies x) w.
Definition session_at x (slot : Z) : Session := default Session_new (PerSlot_get (sessions x) slot).
Definition with_session (slot : Z) (f : Session -> Session) x := with_sessions (fun l => PerSlot_set l slot (f (session_at x slot))) x.
Definition Panorama_new (w : W) : Panorama W :=
  mkPano (PerSlot_new Session_new) PlayerScreens_new ChatInput_new MenuFreeze_new 0 true (fun _ => true) [] w.
End Setters.

Definition set_page (page : Z) (s : Session) : Session := mkSession (Tabs s) (SelectedTab s) page (HomePage_ s).
Definition set_tab (tab : Z) (s : Session) : Session := mkSession (Tabs s) tab (SessionPage s) (HomePage_ s).
Definition set_home (b : bool) (s : Session) : Session := mkSession (Tabs s) (SelectedTab s) (SessionPage s) b.
Definition add_tab (tab : Tab) (s : Session) : Session := mkSession (Tabs s ++ [tab]) (SelectedTab s) (SessionPage s) (HomePage_ s).

Section PanoramaMenu.
Context {W : Type} (getOr : text -> Z -> text -> text) (translate : text -> Z -> text) (hasReply : bool).
Context (l : PanoramaMenuLayout) (visible : Status) (beneath : Z -> Engine).
Abbreviation M := (MenuStack W * Panorama W)%type.
Implicit Types m : M.

Abbreviation Translate slot key fallback := (getOr key slot fallback).

Definition CanShow m (slot : Z) : bool := IsValidSlot slot && available m.2 && ready m.2 slot.
Definition ItemAt m (slot row : Z) : Z := SessionPage (session_at m.2 slot) * RowCount l + row.
Definition page_of m (slot : Z) (page : Z) : M := own (with_session slot (set_page page)) m.

(** Writes to the player's screen. *)
Definition paint (slot : Z) (ws : list screen_write) m : M := own (with_screens (draw visible beneath l slot ws)) m.

Definition Hide (slot : Z) m : M :=
  own (fun x => with_screens (Layout_Hide slot) (with_freeze (Freeze_Close slot) (with_captures (CancelCapture slot)
    (with_sessions (fun items => PerSlot_set items slot Session_new) x)))) m.

(** ** Drawing *)

Definition DrawTabs (slot : Z) m : outcome M :=
  let session := session_at m.2 slot in
  let shown := length (Tabs session) in
  let m := paint slot (SetSidebarVisible l (0 <? shown)%nat) m in
  outcome_fold (fun m index =>
    let tab := option_map (fun tab => mkTab (SessionLabel tab) (SessionIcon tab) (Z.of_nat index =? SelectedTab session)) (Tabs session !! index) in
    run! ws := SetTab l index tab in Returns (paint slot ws m)) (seq 0 (length (tab_ids l))) m.

Definition draw_row (slot count : Z) (hm : text * M) (row : nat) : outcome (text * M) :=
  let '(pendingHint, m) := hm in
  let item := ItemAt m slot (Z.of_nat row) in
  if count <=? item then run! ws := SetRow l row None [] in Returns (pendingHint, paint slot ws m)
  else
    let '(described, m) := Describe world getOr slot item (now m.2) m in
    let pendingHint := if Pending described && is_empty pendingHint then Translate slot $"menu.pending" $"Applying..." else pendingHint in
    run! ws := SetRow l row (Some described) pendingHint in Returns (pendingHint, paint slot ws m).

(** A layout with no row has no page to divide into. *)
Definition DrawRows (slot : Z) (menu : MenuOf W) m : outcome M :=
  let count := Z.of_nat (length (Items menu)) in
  if (0 <? count) && (RowCount l =? 0) then Undefined
  else
    let pages := PageCount count (RowCount l) in
    let m := page_of m slot (Z.max 0 (Z.min (SessionPage (session_at m.2 slot)) (pages - 1))) in
    run! hm := outcome_fold (draw_row slot count) (seq 0 (length (row_ids l))) ([], m) in
    let m := paint slot (SetEmpty l (if count =? 0 then Translate slot $"menu.empty" $"Nothing here" else [])) hm.2 in
    Returns (paint slot (SetPager l (if 1 <? pages then dec (SessionPage (session_at m.2 slot) + 1) ++ $" / " ++ dec pages else [])) m).

Definition DrawPrompt (slot : Z) m : M :=
  match GetPrompt (captures m.2) slot with
  | Some prompt => paint slot (SetPrompt l prompt (Translate slot $"menu.promptHint" $"Type your answer in chat")) m
  | None => paint slot (SetPrompt l [] []) m
  end.

Definition header_of (slot : Z) (root menu : MenuOf W) m : MenuHeader :=
  mkHeader (Title root) (Subtitle root) (BreadcrumbOf m.1 slot) (Title menu) (if MenuId menu =? MenuId root then [] else Subtitle menu).

(** What [Draw] does once the screen is there. [*Root] is read without a check. *)
Definition draw_menu (slot : Z) (menu : MenuOf W) m : outcome M :=
  match Root m.1 slot with
  | None => Undefined
  | Some root =>
      let isRoot := MenuId menu =? MenuId root in
      let m := paint slot (SetHeader l slot (header_of slot root menu m)) m in
      let m := paint slot (SetHomeVisible l (isRoot && HomePage_ (session_at m.2 slot))) m in
      run! m := DrawTabs slot m in
      run! m := DrawRows slot menu m in
      let m := DrawPrompt slot m in
      Returns (paint slot (SetFooter l (if isRoot then [] else Translate slot $"nav.back" $"Back") (Translate slot $"menu.cancel" $"Cancel")) m)
  end.

Definition show (slot : Z) m : bool * M :=
  let '(shown, s) := Layout_Show visible beneath l slot (screens m.2) in (shown, own (with_screens (fun _ => s)) m).

(** ** Calls *)

Section Calls.
Context (run : program W -> M -> outcome (bool * M)) (committed : Z -> M -> outcome M).
Abbreviation stack_step := (do_stack_step world getOr run committed).

Definition Pano_CloseAll (slot : Z) m : outcome M :=
  if negb (IsOpen m.1 slot) then Returns m
  else run! m := stack_step (StClear slot) m in Returns (Hide slot m).

Definition Pano_Draw (slot : Z) m : outcome M :=
  match Current m.1 slot with
  | None => Returns m
  | Some menu =>
      let '(shown, m) := show slot m in
      if negb shown then Pano_CloseAll slot m else draw_menu slot menu m
  end.

(** The loop over the root's items, while there is room for tabs. *)
Definition read_tab (slot : Z) m (index : nat) : M :=
  if Z.of_nat (length (Tabs (session_at m.2 slot))) <? TabCount l then
    let '(described, m) := Describe world getOr slot (Z.of_nat index) (now m.2) m in
    if bool_decide (Kind described = RowSubmenu)
    then own (with_session slot (add_tab (mkTabOf (Z.of_nat index) (Label described) (Icon described)))) m else m
  else m.

Definition ReadTabs (slot : Z) m : outcome M :=
  match Root m.1 slot with
  | None => Undefined
  | Some root => Returns (fold_left (read_tab slot) (seq 0 (length (Items root))) m)
  end.

Definition is_menu (menu : option (MenuOf W)) : bool := bool_decide (is_Some (option_map MenuId menu)).

Definition Pano_OpenSession (slot : Z) (menu : option (MenuOf W)) (options : MenuOptions) m : outcome (bool * M) :=
  if negb (is_menu menu) || negb (CanShow m slot) then Returns (false, m)
  else
    run! m := Pano_CloseAll slot m in
    run! m := stack_step (StPush slot menu) m in
    let m := own (with_session slot (set_home (HomePage options))) m in
    run! m := ReadTabs slot m in
    run! m := Pano_Draw slot m in
    if negb (IsOpen m.1 slot) then Returns (false, m)
    else Returns (true, own (with_freeze (Freeze_Open slot (FreezeMovement options))) m).

Definition Pano_Open (slot : Z) (menu : option (MenuOf W)) m : outcome M :=
  if negb (is_menu menu) then Returns m
  else if negb (IsOpen m.1 slot) then run! bm := Pano_OpenSession slot menu default_options m in Returns bm.2
  else
    run! m := stack_step (StPush slot menu) m in
    Pano_Draw slot (page_of m slot 0).

Definition Pano_Close (slot : Z) m : outcome M :=
  if negb (IsOpen m.1 slot) then Returns m
  else
    let m := own (with_captures (CancelCapture slot)) m in
    run! m := stack_step (StPop slot) m in
    if negb (IsOpen m.1 slot) then Returns (Hide slot m)
    else
      let m := page_of m slot 0 in
      Pano_Draw slot (if Depth m.1 slot =? 1 then own (with_session slot (set_tab (-1))) m else m).

Definition Pano_CloseAllReply (slot : Z) (replyKey : text) m : outcome M :=
  Pano_CloseAll slot (if hasReply then own (add_reply slot (translate replyKey slot)) m else m).

Definition Pano_Prompt (slot : Z) (prompt : text) (callback : option (Z -> text -> program W)) m : M :=
  DrawPrompt slot (own (with_captures (BeginCapture slot prompt callback 60000)) m).

(** Every [PerSlot] hears of the slot, and every screen. *)
Definition Pano_SlotChanged (slot : Z) m : outcome M :=
  run! m := stack_step (StSlotChanged slot) m in
  Returns (own (fun x => with_screens (map (option_map (option_map (Screen_SlotChanged slot))))
    (with_freeze (fun z => on_freeze_event z (SlotChanges slot)) (with_captures (CancelCapture slot)
      (with_sessions (fun items => PerSlot_Reset Session_new items slot) x)))) m).

Definition pano_call (c : call W (program W)) m : outcome (bool * M) :=
  let done o := run! m := o in Returns (true, m) in
  match c with
  | CallOpenSession slot menu options => Pano_OpenSession slot menu options m
  | CallOpen slot menu => done (Pano_Open slot menu m)
  | CallIsOpen slot => Returns (IsOpen m.1 slot, m)
  | CallClose slot => done (Pano_Close slot m)
  | CallCloseAll slot => done (Pano_CloseAll slot m)
  | CallCloseAllReply slot replyKey => done (Pano_CloseAllReply slot replyKey m)
  | CallPrompt slot prompt callback => done (Returns (Pano_Prompt slot prompt callback m))
  | CallSlotChanged slot => done (Pano_SlotChanged slot m)
  end.
End Calls.

(** A committed value is drawn. *)
Definition panorama : Surface W (Panorama W) := {|
  surface_call := pano_call;
  surface_committed := Pano_Draw |}.
#[local] Existing Instance panorama.

(** *** The surface keeps to the stack's steps and its own state *)

(** What every list of writes has to be. *)
Record drawable (ok : list screen_write -> Prop) : Prop := {
  ok_header : forall slot header, ok (SetHeader l slot header);
  ok_sidebar : forall b, ok (SetSidebarVisible l b);
  ok_home : forall b, ok (SetHomeVisible l b);
  ok_tab : forall index tab ws, SetTab l index tab = Returns ws -> ok ws;
  ok_row : forall index row hint ws, SetRow l index row hint = Returns ws -> ok ws;
  ok_empty : forall shown, ok (SetEmpty l shown);
  ok_pager : forall shown, ok (SetPager l shown);
  ok_prompt : forall shown hint, ok (SetPrompt l shown hint);
  ok_footer : forall back cancel, ok (SetFooter l back cancel) }.

(** Drawing keeps what describing rows, changing the session and writing keep. *)
Section Drawing.
Context (ok : list screen_write -> Prop) (Hok : drawable ok) (P : M -> Prop).
Context (Hdescribe : forall slot index time m, P m -> P (Describe world getOr slot index time m).2).
Context (Hsession : forall slot f m, P m -> P (own (with_session slot f) m)).
Context (Hpaint : forall slot ws m, ok ws -> P m -> P (paint slot ws m)).

Lemma DrawTabs_keeps F slot m : P m -> holds F P (DrawTabs slot m).
Proof using Hok Hpaint.
  intros H. unfold DrawTabs. apply holds_fold; [by apply Hpaint; [apply Hok|]|]. intros m' index H'.
  destruct (SetTab _ _ _) as [ws| |] eqn:E; cbn [outcome_bind holds]; [by apply Hpaint; [eapply Hok|]|done|by unfold SetTab in E; case_match].
Qed.

Lemma draw_row_keeps F slot count hm row : P hm.2 -> holds F (fun hm => P hm.2) (draw_row slot count hm row).
Proof using Hok Hpaint Hdescribe.
  destruct hm as [hint m]. cbn [snd]. intros H. unfold draw_row. destruct (_ <=? _).
  - destruct (SetRow _ _ _ _) as [ws| |] eqn:E; cbn [outcome_bind holds snd]; [by apply Hpaint; [by eapply (ok_row _ Hok)|]|done|by unfold SetRow in E; case_match].
  - pose proof (Hdescribe slot (ItemAt m slot (Z.of_nat row)) (now m.2) m H) as Hd. destruct (Describe _ _ _ _ _ _) as [described m']. cbn [snd] in Hd.
    destruct (SetRow _ _ _ _) as [ws| |] eqn:E; cbn [outcome_bind holds snd]; [by apply Hpaint; [by eapply (ok_row _ Hok)|]|done|by unfold SetRow in E; case_match].
Qed.

Lemma DrawRows_keeps F slot menu m : P m -> holds F P (DrawRows slot menu m).
Proof using Hok Hpaint Hsession Hdescribe.
  intros H. unfold DrawRows. destruct (_ && _); [done|].
  apply (holds_bind _ (fun hm => P hm.2)); [|intros hm Hhm; by apply Hpaint; [apply Hok|apply Hpaint; [apply Hok|]]].
  apply holds_fold; [by apply Hsession|]. intros hm row Hhm. by apply draw_row_keeps.
Qed.

Lemma DrawPrompt_keeps slot m : P m -> P (DrawPrompt slot m).
Proof using Hok Hpaint. intros H. unfold DrawPrompt. destruct (GetPrompt _ _); by apply Hpaint; [apply Hok|]. Qed.

Lemma draw_menu_keeps F slot menu m : P m -> holds F P (draw_menu slot menu m).
Proof using Hok Hpaint Hsession Hdescribe.
  intros H. unfold draw_menu. destruct (Root _ _) as [root|]; [|done].
  apply (holds_bind _ P); [by apply DrawTabs_keeps, Hpaint; [apply Hok|apply Hpaint; [apply Hok|]]|]. intros m1 H1.
  apply (holds_bind _ P); [by apply DrawRows_keeps|]. intros m2 H2. by apply Hpaint; [apply Hok|apply DrawPrompt_keeps].
Qed.

Lemma ReadTabs_keeps F slot m : P m -> holds F P (ReadTabs slot m).
Proof using Hsession Hdescribe.
  intros H. unfold ReadTabs. destruct (Root _ _) as [root|]; [|done]. cbn [holds]. generalize (seq 0 (length (Items root))).
  intros indices. revert m H. induction indices as [|index indices IH]; intros m H; cbn [fold_left]; [done|]. apply IH. unfold read_tab.
  destruct (_ <? _); [|done]. pose proof (Hdescribe slot (Z.of_nat index) (now m.2) m H) as Hd. destruct (Describe _ _ _ _ _ _) as [described m'].
  cbn [snd] in Hd. case_bool_decide; [by apply Hsession|done].
Qed.
End Drawing.

Lemma drawable_any : drawable (fun _ => True).
Proof. done. Qed.

Section Law.
Context (run : program W -> M -> outcome (bool * M)) (committed : Z -> M -> outcome M) (F : Prop) (I : M -> M -> Prop) (m0 : M).
Context (HI : stack_relation world getOr run committed F I m0).
Abbreviation law_refl := (MenuStack.law_refl world getOr run committed F I m0).
Abbreviation law_own := (MenuStack.law_own world getOr run committed F I m0).
Abbreviation law_step := (MenuStack.law_step world getOr run committed F I m0).

Lemma law_describe slot index time m : I m0 m -> I m0 (Describe world getOr slot index time m).2.
Proof. intros H. exact (law_step (StDescribe slot index time) m H). Qed.

Lemma law_paint slot ws m : True -> I m0 m -> I m0 (paint slot ws m).
Proof. intros _. apply law_own. Qed.

Lemma pano_law_CloseAll slot m : I m0 m -> holds F (I m0) (Pano_CloseAll run committed slot m).
Proof. intros H. unfold Pano_CloseAll. destruct (negb _); [exact H|]. eapply holds_bind; [by apply law_step|]. intros m' H'. by apply law_own. Qed.

Lemma law_Draw slot m : I m0 m -> holds F (I m0) (Pano_Draw run committed slot m).
Proof.
  intros H. unfold Pano_Draw. destruct (Current _ _) as [menu|]; [|done]. assert (I m0 (show slot m).2) as Hs by (unfold show; destruct (Layout_Show _ _ _ _ _); by apply law_own).
  destruct (show slot m) as [shown m']. destruct (negb shown); [by apply pano_law_CloseAll|].
  by apply (draw_menu_keeps _ drawable_any); [apply law_describe|intros; by apply law_own|apply law_paint|].
Qed.

Lemma pano_law_OpenSession slot menu options m : I m0 m -> holds F (fun bm => I m0 bm.2) (Pano_OpenSession run committed slot menu options m).
Proof.
  intros H. unfold Pano_OpenSession. destruct (_ || _); [exact H|]. eapply holds_bind; [by apply pano_law_CloseAll|]. intros m1 H1.
  eapply holds_bind; [by apply law_step|]. intros m2 H2. apply (holds_bind _ (I m0)).
  { apply ReadTabs_keeps; [apply law_describe|intros; by apply law_own|by apply law_own]. }
  intros m3 H3. apply (holds_bind _ (I m0)); [by apply law_Draw|]. intros m4 H4. destruct (negb _); [done|by apply law_own].
Qed.

Lemma pano_law_Open slot menu m : I m0 m -> holds F (I m0) (Pano_Open run committed slot menu m).
Proof.
  intros H. unfold Pano_Open. destruct (negb _); [done|]. destruct (negb _).
  - eapply holds_bind; [by apply pano_law_OpenSession|]. by intros bm.
  - eapply holds_bind; [by apply law_step|]. intros m' H'. by apply law_Draw, law_own.
Qed.

Lemma pano_law_Close slot m : I m0 m -> holds F (I m0) (Pano_Close run committed slot m).
Proof.
  intros H. unfold Pano_Close. destruct (negb _); [done|]. eapply holds_bind; [by apply law_step, law_own|]. intros m' H'.
  destruct (negb _); [by apply law_own|]. apply law_Draw. destruct (_ =? _); [by apply law_own, law_own|by apply law_own].
Qed.

Lemma pano_law_call c : holds F (fun bm => I m0 bm.2) (pano_call run committed c m0).
Proof.
  pose proof (law_refl m0) as H. destruct c; cbn [pano_call]; [by apply pano_law_OpenSession|..]; try (eapply holds_bind; [|by intros m1]).
  - by apply pano_law_Open.
  - exact H.
  - by apply pano_law_Close.
  - by apply pano_law_CloseAll.
  - apply pano_law_CloseAll. destruct hasReply; [by apply law_own|done].
  - exact (DrawPrompt_keeps _ drawable_any (I m0) law_paint slot _ (law_own _ _ H)).
  - eapply holds_bind; [by apply law_step|]. intros m1 H1. by apply law_own.
Qed.
End Law.

Lemma panorama_laws : SurfaceLaws world getOr.
Proof.
  split; [intros run committed F I m c HI; by apply pano_law_call|].
  intros run committed F I m slot HI. cbn. apply law_Draw; [done|]. by eapply MenuStack.law_refl.
Qed.
#[local] Existing Instance panorama_laws.

(** ** Presses *)

Abbreviation run := (exec_run world set_world depth).
Abbreviation committed := (exec_committed world set_world depth).
Abbreviation Draw := (Pano_Draw run committed).

Fixpoint tab_at (index : Z) (position : Z) (tabs : list Tab) : Z :=
  match tabs with
  | [] => -1
  | tab :: rest => if RootIndex tab =? index then position else tab_at index (position + 1) rest
  end.

Definition Pano_Activate (slot index : Z) m : outcome M :=
  let m := if Depth m.1 slot =? 1 then own (with_session slot (set_tab (tab_at index 0 (Tabs (session_at m.2 slot))))) m else m in
  run! m := Activate world run committed slot index m in Draw slot m.

Definition StepRow (slot row direction : Z) m : outcome M :=
  run! bm := Step world true run committed slot (ItemAt m slot row) direction m in
  if bm.1 then Draw slot bm.2 else Returns bm.2.

(** The tabs are read after the pop, though their number was checked before. *)
Definition OpenTab (slot tab : Z) m : outcome M :=
  if (tab <? 0) || (Z.of_nat (length (Tabs (session_at m.2 slot))) <=? tab) then Returns m
  else
    run! m := PopToRoot run committed slot m in
    let m := page_of m slot 0 in
    match Tabs (session_at m.2 slot) !! Z.to_nat tab with
    | Some opened => Pano_Activate slot (RootIndex opened) m
    | None => Undefined
    end.

(** The menu is read after the commit, which may have freed it. *)
Definition TurnPage (slot delta : Z) m : outcome M :=
  match Current m.1 slot with
  | None => Returns m
  | Some menu =>
      run! m := ApplyPending run committed slot m in
      let count := Z.of_nat (length (Items menu)) in
      if (0 <? count) && (RowCount l =? 0) then Undefined
      else Draw slot (page_of m slot (WrapIndex (SessionPage (session_at m.2 slot) + delta) (PageCount count (RowCount l))))
  end.

Definition OnPress (slot : Z) (buttonId : text) m : outcome M :=
  if negb (IsOpen m.1 slot) then Returns m
  else match ButtonFor l buttonId with
  | None => Returns m
  | Some button =>
      if IsCapturing (captures m.2) slot && negb (bool_decide (ButtonKind button = Cancel)) then Returns m
      else match ButtonKind button with
      | Cancel => Draw slot (own (with_captures (CancelCapture slot)) m)
      | Back => Pano_Close run committed slot m
      | CloseButton => Pano_CloseAll run committed slot m
      | PreviousPage => TurnPage slot (-1) m
      | NextPage => TurnPage slot 1 m
      | TabButton => OpenTab slot (ButtonIndex button) m
      | RowButton_ => Pano_Activate slot (ItemAt m slot (ButtonIndex button)) m
      | StepDown => StepRow slot (ButtonIndex button) (-1) m
      | StepUp => StepRow slot (ButtonIndex button) 1 m
      end
  end.

(** ** Everything that happens to it *)

(** What the engine does beneath a screen, and what a loading client makes of it. *)
Definition engine_event (ev : screen_event) : bool :=
  match ev with FullyConnected _ | MapEnds | TablesGrow _ | EntitiesAvailable _ | SpawnsAnswer _ => true | _ => false end.

Inductive pano_event :=
| PanoRun (p : program W)                        (** code that holds the surface *)
| PanoPress (slot : Z) (buttonId : text)
| PanoChat (slot : Z) (line : text)
| PanoTimer (slot : Z)                           (** a held commit's delay *)
| PanoPromptTimeout (slot : Z)
| PanoScreen (slot : Z) (ev : screen_event)      (** the engine, beneath a slot's screen *)
| PanoFreeze (e : freeze_event)
| PanoServices (time : Z) (screens_available : bool) (addons_ready : Z -> bool)
| PanoWorld (f : W -> W).

Definition on_pano_event m (e : pano_event) : outcome M :=
  match e with
  | PanoRun p => run! bm := run p m in Returns bm.2
  | PanoPress slot buttonId => OnPress slot buttonId m
  | PanoChat slot line =>
      run! bm := TryConsume (fun m : M => captures m.2) (fun c m => own (with_captures (fun _ => c)) m)
        (fun callback slot line m => run (callback slot line) m) slot line m in Returns bm.2
  | PanoTimer slot => TimerFired run committed slot m
  | PanoPromptTimeout slot => Returns (own (with_captures (TimedOut slot)) m)
  | PanoScreen slot ev =>
      Returns (match screen_at (screens m.2) slot with
               | Some s => if engine_event ev then own (with_screens (fun items => PerSlot_set items slot (Some (Some (on_screen_event s ev))))) m else m
               | None => m
               end)
  | PanoFreeze e => Returns (if outside e then own (with_freeze (fun z => on_freeze_event z e)) m else m)
  | PanoServices time screens_available addons_ready => Returns (own (fun x =>
      mkPano (sessions x) (screens x) (captures x) (freeze x) time screens_available addons_ready (replies x) (world x)) m)
  | PanoWorld f => Returns (own (fun x => set_world (f (world x)) x) m)
  end.

(** ** The screens stay sound *)

Section Sound.
Context (screen : text) (tabs rows : nat) (Hl : layout_of screen tabs rows l) (Hplain : plain screen).
Context (Hbeneath : forall slot, live (beneath slot) = None).

Definition own_ok (x : Panorama W) : Prop := screens_ok (screens x) /\ PerSlot_wf (sessions x).
Abbreviation PM := (fun m : M => own_ok m.2).
Abbreviation PB := (fun bm : bool * M => own_ok bm.2.2).

Lemma drawable_plain : drawable (Forall plain_write).
Proof using Hl Hplain.
  split; intros.
  - by eapply header_plain.
  - constructor; [by eapply root_plain|done].
  - constructor; [by eapply root_plain|done].
  - by eapply tab_plain.
  - by eapply row_plain.
  - by apply (below_plain screen tabs rows l Hl Hplain shown [] [] []).
  - by apply (below_plain screen tabs rows l Hl Hplain shown [] [] []).
  - by apply (below_plain screen tabs rows l Hl Hplain shown [] [] hint).
  - by apply (below_plain screen tabs rows l Hl Hplain [] back cancel []).
Qed.

Lemma own_paint slot ws m : Forall plain_write ws -> own_ok m.2 -> own_ok (paint slot ws m).2.
Proof using Hbeneath. intros Hp [Hs Hw]. split; [by apply draw_ok|done]. Qed.

Lemma own_session slot f m : own_ok m.2 -> own_ok (own (with_session slot f) m).2.
Proof. intros [Hs Hw]. split; [done|by apply PerSlot_set_wf]. Qed.

Lemma own_describe slot index time m : own_ok m.2 -> own_ok (Describe world getOr slot index time m).2.2.
Proof. intros H. unfold Describe. by destruct (item_at _ _ _) as [[menu item]|]. Qed.

Lemma own_show slot m : IsValidSlot slot = true -> own_ok m.2 -> own_ok (show slot m).2.2 /\ ((show slot m).1 = true -> is_Some (screen_at (screens (show slot m).2.2) slot)).
Proof using Hl Hplain Hbeneath.
  intros Hv [Hs Hw]. unfold show. pose proof (Show_ok visible beneath Hbeneath l slot (screens m.2)) as H.
  rewrite (layout_root _ _ _ _ Hl) in H. specialize (H Hplain Hs Hv). destruct (Layout_Show _ _ _ _ _) as [shown items]. cbn [fst snd] in *.
  destruct H as [H1 H2]. by split.
Qed.

Lemma own_Hide slot m : own_ok m.2 -> own_ok (Hide slot m).2.
Proof. intros [Hs Hw]. split; [by apply Hide_ok|by apply PerSlot_set_wf]. Qed.

Lemma Current_valid (s : MenuStack W) slot menu : Current s slot = Some menu -> IsValidSlot slot = true.
Proof. unfold Current. by destruct (IsValidSlot slot). Qed.

Section Preserved.
Context (r : program W -> M -> outcome (bool * M)) (c : Z -> M -> outcome M) (Hkeep : runs_keep PM r c).
Abbreviation stack_kept := (own_stack_step world getOr own_ok r c Hkeep).

Lemma CloseAll_own slot m : own_ok m.2 -> holds True PM (Pano_CloseAll r c slot m).
Proof using Hkeep.
  intros H. unfold Pano_CloseAll. destruct (negb _); [done|]. apply (holds_bind _ PM); [by apply stack_kept|]. intros m' H'. by apply own_Hide.
Qed.

Lemma Draw_own slot m : own_ok m.2 -> holds True PM (Pano_Draw r c slot m).
Proof using Hkeep Hl Hplain Hbeneath.
  intros H. unfold Pano_Draw. destruct (Current _ _) as [menu|] eqn:Ec; [|done]. pose proof (own_show slot m (Current_valid _ _ _ Ec) H) as [Hs _].
  destruct (show slot m) as [shown m']. cbn [snd] in Hs. destruct (negb shown); [by apply CloseAll_own|].
  by apply (draw_menu_keeps _ drawable_plain PM); [apply own_describe|apply own_session|apply own_paint|].
Qed.

Lemma OpenSession_own slot menu options m : own_ok m.2 -> holds True PB (Pano_OpenSession r c slot menu options m).
Proof using Hkeep Hl Hplain Hbeneath.
  intros H. unfold Pano_OpenSession. destruct (_ || _); [done|]. apply (holds_bind _ PM); [by apply CloseAll_own|]. intros m1 H1.
  apply (holds_bind _ PM); [by apply stack_kept|]. intros m2 H2. apply (holds_bind _ PM).
  { apply (ReadTabs_keeps PM); [apply own_describe|apply own_session|by apply own_session]. }
  intros m3 H3. apply (holds_bind _ PM); [by apply Draw_own|]. intros m4 H4. by destruct (negb _).
Qed.

Lemma Close_own slot m : own_ok m.2 -> holds True PM (Pano_Close r c slot m).
Proof using Hkeep Hl Hplain Hbeneath.
  intros H. unfold Pano_Close. destruct (negb _); [done|]. apply (holds_bind _ PM); [by apply stack_kept|]. intros m' H'.
  destruct (negb _); [by apply own_Hide|]. apply Draw_own. destruct (_ =? _); [by apply own_session, own_session|by apply own_session].
Qed.

Lemma call_own call m : own_ok m.2 -> holds True PB (pano_call r c call m).
Proof using Hkeep Hl Hplain Hbeneath.
  intros H. destruct call; cbn [pano_call]; [by apply OpenSession_own|..]; try (apply (holds_bind _ PM); [|by intros m1]).
  - unfold Pano_Open. destruct (negb _); [done|]. destruct (negb _).
    + apply (holds_bind _ PB); [by apply OpenSession_own|by intros bm].
    + apply (holds_bind _ PM); [by apply stack_kept|]. intros m' H'. by apply Draw_own, own_session.
  - exact H.
  - by apply Close_own.
  - by apply CloseAll_own.
  - apply CloseAll_own. by destruct hasReply.
  - exact (DrawPrompt_keeps _ drawable_plain PM own_paint slot (own (with_captures (BeginCapture slot prompt callback 60000)) m) H).
  - apply (holds_bind _ PM); [by apply stack_kept|]. intros m1 [H1 H2]. split; [|by apply PerSlot_Reset_wf]. cbn. by apply SlotChanged_screens_ok.
Qed.
End Preserved.

Lemma runs_own n : runs_keep PM (exec_run world set_world n) (exec_committed world set_world n).
Proof using Hl Hplain Hbeneath. apply exec_keeps; [by intros w m|by apply call_own|intros r c Hk slot m; by apply Draw_own]. Qed.

Lemma event_own m e : own_ok m.2 -> holds True PM (on_pano_event m e).
Proof using Hl Hplain Hbeneath.
  intros H. pose proof (runs_own depth) as Hk. destruct e; cbn [on_pano_event]; try done.
  - apply (holds_bind _ PB); [by apply Hk|by intros bm].
  - unfold OnPress. destruct (negb _); [done|]. destruct (ButtonFor _ _) as [[kind index]|]; [|done]. destruct (_ && _); [done|]. cbn [ButtonKind ButtonIndex].
    assert (forall slot index m, own_ok m.2 -> holds True PM (Pano_Activate slot index m)) as Hact.
    { clear slot index m H. intros slot index m H. unfold Pano_Activate. apply (holds_bind _ PM); [|intros m'; by apply Draw_own].
      apply own_Activate; [exact Hk|]. destruct (_ =? 1); [by apply own_session|done]. }
    assert (forall slot delta m, own_ok m.2 -> holds True PM (TurnPage slot delta m)) as Hturn.
    { clear slot index m H. intros slot delta m H. unfold TurnPage. destruct (Current _ _); [|done].
      apply (holds_bind _ PM); [by apply own_ApplyPending|]. intros m' H'. destruct (_ && _); [done|]. by apply Draw_own, own_session. }
    assert (forall slot row direction m, own_ok m.2 -> holds True PM (StepRow slot row direction m)) as Hstep.
    { clear slot index m H. intros slot row direction m H. unfold StepRow. apply (holds_bind _ PB); [by apply own_Step|].
      intros [b m'] H'. cbn [fst snd] in *. destruct b; [by apply Draw_own|done]. }
    destruct kind; auto; try by apply Draw_own.
    + by apply Close_own.
    + by apply CloseAll_own.
    + unfold OpenTab. destruct (_ || _); [done|]. apply (holds_bind _ PM); [by apply own_PopToRoot|]. intros m' H'.
      destruct (_ !! _); [|done]. by apply Hact, own_session.
  - unfold TryConsume. destruct (capture_at _ _) as [pending|]; cbn [outcome_bind]; [|exact H].
    apply (holds_bind _ PB); [|by intros bm]. apply (holds_bind _ PB); [by apply Hk|].
    intros [accepted m'] H'. cbn [snd] in H'. cbn [holds snd]. by destruct (_ && _).
  - unfold TimerFired. destruct (Armed _); [by apply own_ApplyPending|done].
  - cbn [holds]. destruct (screen_at _ _) as [s|] eqn:Es; [|done]. destruct (engine_event ev) eqn:Ev; [|done]. destruct H as [Hs Hw].
    split; [|done]. apply screens_set_ok; [done|]. intros s' Hv [= <-]. destruct (screens_own _ Hs slot s Hv Es) as (_ & Ho & Hc).
    split_and!; [done| |apply on_screen_event_coherent; [by destruct ev|done]].
    destruct ev; try discriminate Ev; cbn [on_screen_event]; try exact Ho. case_match; exact Ho.
  - cbn [holds]. by destruct (outside e).
Qed.
End Sound.

(** ** Every event ends, the stack well formed *)

Abbreviation stacked := (fun m : M => stack_ok m.1).

Lemma stacked_relation m (o : outcome M) : stack_ok m.1 ->
  (stack_relation world getOr run committed False (fun m1 m2 => evolves m1.1 m2.1) m -> holds False (fun m' => evolves m.1 m'.1) o) -> holds False stacked o.
Proof. intros Hok Ho. by apply (evolves_keeps m.1), Ho, (run_relation world set_world getOr). Qed.

Lemma pano_stacked_Draw slot m : stack_ok m.1 -> holds False stacked (Draw slot m).
Proof. intros Hok. apply (stacked_relation m); [done|]. intros HI. by apply (law_Draw run committed False _ m HI slot m), stack_evolves_refl. Qed.

Lemma pano_stacked_run p m : stack_ok m.1 -> holds False (fun bm => stack_ok bm.2.1) (run p m).
Proof. intros Hok. eapply holds_impl; [exact (fun f => f)| |exact (run_ok world set_world getOr m p Hok)]. intros bm He. by apply He. Qed.

Lemma pano_stacked_event (e : menu_event (W := W) (X := Panorama W)) m : stack_ok m.1 -> holds False stacked (on_event world set_world getOr true m e).
Proof. apply (on_event_ok world set_world getOr true m e). Qed.

Lemma stacked_press slot buttonId m : stack_ok m.1 -> holds False stacked (OnPress slot buttonId m).
Proof.
  intros Hok. unfold OnPress. destruct (negb _); [done|]. destruct (ButtonFor _ _) as [[kind index]|]; [|done]. destruct (_ && _); [done|]. cbn [ButtonKind ButtonIndex].
  assert (forall slot index m, stack_ok m.1 -> holds False stacked (Pano_Activate slot index m)) as Hact.
  { clear slot index m Hok. intros slot index m Hok. unfold Pano_Activate. apply (holds_bind _ stacked); [|intros m'; apply pano_stacked_Draw].
    apply (pano_stacked_event (OnActivate slot index)). by destruct (_ =? 1). }
  assert (forall slot delta m, stack_ok m.1 -> holds False stacked (TurnPage slot delta m)) as Hturn.
  { clear slot index m Hok. intros slot delta m Hok. unfold TurnPage. destruct (Current _ _); [|done].
    apply (holds_bind _ stacked); [by apply (pano_stacked_event (OnApplyPending slot))|]. intros m' H'. destruct (_ && _); [done|]. by apply pano_stacked_Draw. }
  assert (forall slot row direction m, stack_ok m.1 -> holds False stacked (StepRow slot row direction m)) as Hstep.
  { clear slot index m Hok. intros slot row direction m Hok. unfold StepRow. apply (holds_bind _ (fun bm : bool * M => stack_ok bm.2.1)).
    - by apply (Step_keeps world set_world getOr true).
    - intros [b m'] H'. cbn [fst snd] in *. destruct b; [by apply pano_stacked_Draw|done]. }
  destruct kind; auto; try by apply pano_stacked_Draw.
  - apply (stacked_relation m); [done|]. intros HI. by apply (pano_law_Close run committed False _ m HI slot m), stack_evolves_refl.
  - apply (stacked_relation m); [done|]. intros HI. by apply (pano_law_CloseAll run committed False _ m HI slot m), stack_evolves_refl.
  - unfold OpenTab. destruct (_ || _); [done|]. apply (holds_bind _ stacked); [by apply (pano_stacked_event (OnPopToRoot slot))|]. intros m' H'.
    destruct (_ !! _); [|done]. by apply Hact.
Qed.

Lemma stacked_pano m e : stack_ok m.1 -> holds False stacked (on_pano_event m e).
Proof.
  intros Hok. destruct e; cbn [on_pano_event]; try done.
  - apply (holds_bind _ (fun bm : bool * M => stack_ok bm.2.1)); [by apply pano_stacked_run|by intros bm].
  - by apply stacked_press.
  - unfold TryConsume. destruct (capture_at _ _) as [pending|]; cbn [outcome_bind]; [|exact Hok].
    apply (holds_bind _ (fun bm : bool * M => stack_ok bm.2.1)); [|by intros bm].
    apply (holds_bind _ (fun bm : bool * M => stack_ok bm.2.1)); [by apply pano_stacked_run|].
    intros [accepted m'] H'. cbn [snd] in H'. cbn [holds snd]. by destruct (_ && _).
  - by apply (pano_stacked_event (OnTimer slot)).
  - cbn [holds]. by repeat case_match.
  - cbn [holds]. by destruct (outside e).
Qed.

(** ** What a drawn page tells *)

Section Page.
Context (screen : text) (tabs rows : nat) (Hl : layout_of screen tabs rows l) (Hplain : plain screen).
Context (Hbeneath : forall slot, live (beneath slot) = None).
Abbreviation own_ok := (own_ok).

(** The row of an item, as it describes itself now. *)
Definition row_now m (slot index : Z) : MenuRow := unflashed (Describe world getOr slot index (now m.2) m).1.

(** What a row of the layout is told when [menu]'s page is drawn. *)
Definition page_row (menu : MenuOf W) m (slot : Z) (r : nat) : list screen_write :=
  let item := ItemAt m slot (Z.of_nat r) in
  if Z.of_nat (length (Items menu)) <=? item then [HiddenW (Row_Id (row_of screen r)) true]
  else row_writes (row_of screen r) (row_now m slot item) (Translate slot $"menu.pending" $"Applying...").

(** What rows and pages depend on. *)
Definition seen m (slot : Z) := (Menus (state_at m.1 slot), entries m.1, world m.2, SessionPage (session_at m.2 slot)).

Lemma page_row_seen menu m m' slot r : seen m slot = seen m' slot -> page_row menu m slot r = page_row menu m' slot r.
Proof.
  intros [= H1 H2 H3 H4]. unfold page_row, row_now, ItemAt. rewrite H4. destruct (_ <=? _); [done|]. f_equal.
  unfold Describe, item_at, Current, IsPending, PendingIndex, entry_at. rewrite H1. destruct (IsValidSlot slot); [|done].
  destruct (mjoin _) as [top|]; [|done]. destruct (_ <? 0); [done|]. destruct (Items top !! _) as [item|]; [|done]. cbn.
  rewrite H3, H2. done.
Qed.

Lemma seen_paint m slot slot' ws : seen (paint slot' ws m) slot = seen m slot.
Proof. done. Qed.

Lemma seen_describe m slot index time : PerSlot_wf (states m.1) -> IsValidSlot slot = true ->
  seen (Describe world getOr slot index time m).2 slot = seen m slot /\ PerSlot_wf (states (Describe world getOr slot index time m).2.1) /\
  (Describe world getOr slot index time m).2.2 = m.2.
Proof.
  intros Hw Hv. unfold Describe. destruct (item_at _ _ _) as [[menu item]|]; [|done]. cbn [snd]. split_and!; [|by apply PerSlot_set_wf|done].
  unfold seen. cbn [on_stack fst snd]. by rewrite state_at_set, Z.eqb_refl by done.
Qed.

Lemma screen_paint m slot ws s :
  screens_ok (screens m.2) -> IsValidSlot slot = true -> screen_at (screens m.2) slot = Some s ->
  screen_at (screens (paint slot ws m).2) slot = Some (fold_left (apply_write slot) ws s).
Proof.
  intros Hok Hv Hs. cbn. rewrite (draw_at visible beneath l slot ws _ s) by done.
  rewrite screen_at_set by (done || apply Hok). by rewrite Z.eqb_refl.
Qed.

(** The loop of [DrawRows], the rows below [k] drawn. *)
Record drawing (menu : MenuOf W) m0 (slot : Z) (k : nat) (hm : text * M) : Prop := {
  drawing_seen : seen hm.2 slot = seen m0 slot;
  drawing_states : PerSlot_wf (states hm.2.1);
  drawing_own : own_ok hm.2.2;
  drawing_hint : hm.1 = [] \/ hm.1 = Translate slot $"menu.pending" $"Applying...";
  drawing_rows : exists s, screen_at (screens hm.2.2) slot = Some s /\
    forall r, (r < k)%nat -> Forall (fun w => told s (write_key w) (write_value w)) (page_row menu m0 slot r) }.

Lemma row_lookup r : (r < rows)%nat -> row_ids l !! r = Some (row_of screen r).
Proof using Hl. intros Hr. by rewrite (layout_rows _ _ _ _ Hl), list_lookup_fmap, lookup_seq_lt by done. Qed.

Lemma page_row_set menu m slot r :
  (r < rows)%nat -> exists row, SetRow l r row (Translate slot $"menu.pending" $"Applying...") = Returns (page_row menu m slot r).
Proof using Hl.
  intros Hr. unfold page_row, SetRow. rewrite row_lookup by done. destruct (_ <=? _); [by exists None|by eexists (Some _)].
Qed.

(** Writes that are nobody's row keep every row told. *)
Lemma drawing_paint menu m0 slot k hint m ws :
  drawing menu m0 slot k (hint, m) -> IsValidSlot slot = true -> (k <= rows)%nat -> Forall plain_write ws ->
  (forall r key, (r < k)%nat -> row_key screen r key -> Forall (fun w => write_key w <> key) ws) ->
  drawing menu m0 slot k (hint, paint slot ws m).
Proof using Hl Hplain Hbeneath.
  intros [H1 H2 H3 H4 (s & Hs & Htold)] Hv Hk Hp Hne. cbn [fst snd] in *.
  split; cbn [fst snd]; [done|done|by apply own_paint|done|]. eexists. split; [apply screen_paint; [apply H3|done|exact Hs]|]. intros r Hr.
  destruct (page_row_set menu m0 slot r ltac:(lia)) as [row Hset]. destruct (SetRow_keys screen l r row _ _ (row_lookup r ltac:(lia)) Hset) as [_ Hkeys].
  apply Forall_forall. intros w Hw. apply writes_keep; [|by apply (proj1 (Forall_forall _ _) (Htold r Hr))].
  apply (Hne r); [done|]. by apply (proj1 (Forall_forall _ _) Hkeys).
Qed.

(** One row: it is told, and the rows above stay told. *)
Lemma drawing_row menu m0 slot k hint m :
  drawing menu m0 slot k (hint, m) -> IsValidSlot slot = true -> (k < rows)%nat ->
  drawing menu m0 slot (S k) (hint, paint slot (page_row menu m0 slot k) m).
Proof using Hl Hplain Hbeneath.
  intros Hd Hv Hk. destruct (page_row_set menu m0 slot k Hk) as [row Hset].
  pose proof (row_plain _ _ _ _ Hl Hplain _ _ _ _ Hset) as Hp. destruct (SetRow_keys screen l k row _ _ (row_lookup k Hk) Hset) as [Hn Hkeys].
  pose proof (drawing_paint menu m0 slot k hint m (page_row menu m0 slot k) Hd Hv ltac:(lia) Hp) as Hd'.
  destruct Hd as [H1 H2 H3 H4 (s & Hs & Htold)]. cbn [fst snd] in *.
  destruct Hd' as [H1' H2' H3' H4' (s' & Hs' & Htold')].
  { intros r key Hr Hkey. eapply Forall_impl; [exact Hkeys|]. intros w Hw E. subst key. pose proof (row_key_inj _ _ _ _ Hkey Hw). lia. }
  split; [done..|]. exists s'. split; [done|]. intros r Hr. destruct (decide (r = k)) as [->|Hne]; [|apply Htold'; lia].
  cbn [snd] in Hs'. rewrite (screen_paint m slot _ s) in Hs' by (done || apply H3). injection Hs' as <-.
  apply told_writes; [done..|]. by apply (screens_own _ (proj1 H3)).
Qed.

Lemma draw_row_drawing F menu m0 slot k hm :
  IsValidSlot slot = true -> (k < rows)%nat -> drawing menu m0 slot k hm ->
  holds F (drawing menu m0 slot (S k)) (draw_row slot (Z.of_nat (length (Items menu))) hm k).
Proof using Hl Hplain Hbeneath.
  destruct hm as [hint m]. intros Hv Hk Hd. pose proof (page_row_seen menu m m0 slot k (drawing_seen _ _ _ _ _ Hd)) as Hrow.
  pose proof (drawing_row menu m0 slot k hint m Hd Hv Hk) as Hd'. rewrite <- Hrow in Hd'. unfold page_row in Hd'. unfold draw_row.
  destruct (_ <=? _).
  - unfold SetRow. rewrite row_lookup by done. exact Hd'.
  - unfold row_now in Hd'. destruct (seen_describe m slot (ItemAt m slot (Z.of_nat k)) (now m.2) (drawing_states _ _ _ _ _ Hd) Hv) as (Hs & Hst & Hx).
    destruct (Describe _ _ _ _ _ _) as [described m']. cbn [fst snd] in Hd', Hs, Hst, Hx. unfold SetRow. rewrite row_lookup by done. cbn [outcome_bind holds].
    set (hint' := if _ && _ then _ else _).
    assert ((hint' = [] \/ hint' = Translate slot $"menu.pending" $"Applying...") /\
      row_writes (row_of screen k) described hint' = row_writes (row_of screen k) (unflashed described) (Translate slot $"menu.pending" $"Applying...")) as [Hh Hw].
    { pose proof (drawing_hint _ _ _ _ _ Hd) as Hh. cbn [fst] in Hh. unfold hint', row_writes. cbn [unflashed Pending Kind Label Value Enabled Toggled Selectable Steppable].
      destruct (Pending described); cbn [andb]; [|done]. unfold is_empty. case_bool_decide as He; [by split; [right|]|]. destruct Hh as [->| ->]; [done|].
      by split; [right|]. }
    rewrite Hw. destruct Hd' as [H1 H2 H3 H4 (s & Hs' & Ht)]. cbn [fst snd] in *. split; cbn [fst snd].
    + by rewrite seen_paint, Hs.
    + exact Hst.
    + unfold paint, own in *. cbn [snd] in *. by rewrite Hx.
    + done.
    + exists s. split; [|done]. unfold paint, own in *. cbn [snd] in *. by rewrite Hx.
Qed.

Definition page_count (menu : MenuOf W) : Z := PageCount (Z.of_nat (length (Items menu))) (RowCount l).

(** What [DrawRows] writes in the pager, drawn or not. *)
Definition pager_text (menu : MenuOf W) (page : Z) : text := if 1 <? page_count menu then dec (page + 1) ++ $" / " ++ dec (page_count menu) else [].

(** The player's own screen tells the page the session is on. *)
Definition page_told (menu : MenuOf W) (slot : Z) m : Prop :=
  exists s, screen_at (screens m.2) slot = Some s /\ own_screen slot s /\
    0 <= SessionPage (session_at m.2 slot) < page_count menu /\
    (forall r, (r < rows)%nat -> Forall (fun w => told s (write_key w) (write_value w)) (page_row menu m slot r)) /\
    told s (WriteText_, [], $"page") (pager_text menu (SessionPage (session_at m.2 slot))).

Lemma session_at_set (x : Panorama W) slot f : PerSlot_wf (sessions x) -> IsValidSlot slot = true -> session_at (with_session slot f x) slot = f (session_at x slot).
Proof. intros Hw Hv. unfold session_at, with_session, with_sessions. cbn [sessions]. by rewrite PerSlot_get_set, Z.eqb_refl by done. Qed.

Lemma page_count_positive menu : (0 <? Z.of_nat (length (Items menu))) && (RowCount l =? 0) = false -> 1 <= page_count menu.
Proof.
  unfold page_count. intros H. destruct (Z.ltb_spec 0 (Z.of_nat (length (Items menu)))).
  - assert (0 < RowCount l) by (unfold RowCount in *; bools; lia). rewrite PageCount_div by done.
    assert (0 <= (Z.of_nat (length (Items menu)) - 1) / RowCount l) by (apply Z.div_pos; lia). lia.
  - unfold PageCount. destruct (Z.leb_spec (Z.of_nat (length (Items menu))) 0); lia.
Qed.

Lemma below_drawing menu m0 slot hint m ws :
  drawing menu m0 slot rows (hint, m) -> IsValidSlot slot = true -> Forall plain_write ws ->
  (forall r key, row_key screen r key -> Forall (fun w => write_key w <> key) ws) -> drawing menu m0 slot rows (hint, paint slot ws m).
Proof using Hl Hplain Hbeneath. intros Hd Hv Hp Hne. apply drawing_paint; [done|done|lia|done|]. intros r key _. apply Hne. Qed.

Lemma DrawRows_told F menu slot m :
  IsValidSlot slot = true -> PerSlot_wf (states m.1) -> own_ok m.2 -> is_Some (screen_at (screens m.2) slot) ->
  holds F (fun m' => exists m0 hint, drawing menu m0 slot rows (hint, m') /\ 0 <= SessionPage (session_at m0.2 slot) < page_count menu /\
    exists s, screen_at (screens m'.2) slot = Some s /\ told s (WriteText_, [], $"page") (pager_text menu (SessionPage (session_at m0.2 slot))))
    (DrawRows slot menu m).
Proof.
  intros Hv Hst Hown [s Hs]. unfold DrawRows. destruct (_ && _) eqn:Hz; [done|]. pose proof (page_count_positive menu Hz) as Hpages.
  set (page := Z.max 0 _). set (m0 := page_of m slot page).
  assert (SessionPage (session_at m0.2 slot) = page) as Hpage by (unfold m0, page_of; cbn; by rewrite session_at_set by (done || apply Hown)).
  assert (drawing menu m0 slot 0 ([], m0)) as H0.
  { split; [done|done|by apply own_session|by left|]. exists s. split; [exact Hs|]. intros r Hr. lia. }
  assert (length (row_ids l) = rows) as -> by (by rewrite (layout_rows _ _ _ _ Hl), length_map, length_seq).
  eapply holds_bind. { apply (holds_fold_seq F (drawing menu m0 slot) _ 0 rows _ H0). intros k hm Hk Hd. apply draw_row_drawing; [done|lia|done]. }
  intros [hint m1] Hd. cbn [snd Nat.add] in *. set (m2 := paint slot (SetEmpty l _) m1).
  assert (drawing menu m0 slot rows (hint, m2)) as Hd2.
  { apply below_drawing; [done..| |]; [by apply (below_plain screen tabs rows l Hl Hplain _ [] [] [])|].
    intros r key Hk. by apply (below_not_rows screen tabs rows l Hl _ [] [] [] r key Hk). }
  assert (SessionPage (session_at m2.2 slot) = page) as Hpage2.
  { pose proof (drawing_seen _ _ _ _ _ Hd2) as E. cbn [snd] in E. unfold seen in E. rewrite <- Hpage. congruence. }
  cbn [holds]. exists m0, hint. rewrite Hpage, Hpage2. change (PageCount (Z.of_nat (length (Items menu))) (RowCount l)) with (page_count menu).
  change (if 1 <? page_count menu then _ else _) with (pager_text menu page).
  assert (Forall plain_write (SetPager l (pager_text menu page))) as Hp by by apply (below_plain screen tabs rows l Hl Hplain _ [] [] []).
  split; [|split; [unfold page; fold (page_count menu); lia|]].
  - apply below_drawing; [done..|]. intros r key Hk. by apply (below_not_rows screen tabs rows l Hl (pager_text menu page) [] [] [] r key Hk).
  - destruct Hd2 as [_ _ Hown2 _ (s2 & Hs2 & _)]. cbn [snd] in *. eexists. split; [apply screen_paint; [apply Hown2|done|exact Hs2]|].
    pose proof (told_writes slot (SetPager l (pager_text menu page)) s2) as Ht.
    assert (NoDup (map write_key (SetPager l (pager_text menu page)))) as Hn by (cbn; repeat constructor; set_solver).
    specialize (Ht Hn Hp (screens_own _ (proj1 Hown2) slot s2 Hv Hs2)). by apply Forall_inv in Ht.
Qed.

(** The rows are drawn last but for the prompt and the footer, which are nobody's row. *)
Lemma draw_menu_told F menu slot m :
  IsValidSlot slot = true -> PerSlot_wf (states m.1) -> own_ok m.2 -> is_Some (screen_at (screens m.2) slot) ->
  holds F (page_told menu slot) (draw_menu slot menu m).
Proof.
  intros Hv Hst Hown Hsome. unfold draw_menu. destruct (Root m.1 slot) as [root|]; [|done].
  set (P := fun m : M => PerSlot_wf (states m.1) /\ own_ok m.2 /\ is_Some (screen_at (screens m.2) slot)).
  assert (forall ws m, Forall plain_write ws -> P m -> P (paint slot ws m)) as Hpaint.
  { intros ws m' Hp (H1 & H2 & [s Hs]). split_and!; [done|by apply own_paint|]. rewrite (screen_paint m' slot ws s) by (done || apply H2). eauto. }
  assert (P m) as HP by done. pose proof (drawable_plain screen tabs rows Hl Hplain) as Hok.
  eapply (holds_bind _ P).
  { apply (holds_fold _ P).
    - apply Hpaint; [apply Hok|]. apply Hpaint; [apply Hok|]. by apply Hpaint; [apply Hok|].
    - intros m' index H'. cbn zeta. destruct (SetTab l _ _) as [ws| |] eqn:E; cbn [outcome_bind holds]; [by apply Hpaint; [eapply Hok|]|done|by unfold SetTab in E; case_match]. }
  intros m1 (H1 & H2 & H3). eapply holds_bind; [by apply DrawRows_told|]. intros m2 (m0 & hint & Hd & Hpage & s & Hs & Htold). cbn [holds].
  assert (exists m3 ws, DrawPrompt slot m2 = m3 /\ m3 = paint slot ws m2 /\ Forall plain_write ws /\
    (forall key, (exists r, row_key screen r key) \/ key = (WriteText_, [], $"page") -> Forall (fun w => write_key w <> key) ws)) as (m3 & ws & -> & Em3 & Hp & Hne).
  { assert (forall shown hint key, (exists r, row_key screen r key) \/ key = (WriteText_, [], $"page") -> Forall (fun w => write_key w <> key) (SetPrompt l shown hint)) as H.
    { intros shown hint' key [[r Hr]| ->]; [by apply (below_not_rows screen tabs rows l Hl shown [] [] hint' r key Hr)|by repeat constructor]. }
    unfold DrawPrompt. destruct (GetPrompt _ _); eexists _, _; (split; [done|]); (split; [done|]); (split; [apply Hok|intros key; apply H]). }
  assert (drawing menu m0 slot rows (hint, m3)) as Hd3 by (subst m3; apply below_drawing; [done..|]; intros r key Hr; apply Hne; eauto).
  set (footer := SetFooter l _ _). assert (Forall plain_write footer) as Hpf by apply Hok.
  assert (forall key, (exists r, row_key screen r key) \/ key = (WriteText_, [], $"page") -> Forall (fun w => write_key w <> key) footer) as Hnf.
  { intros key [[r Hr]| ->]; [by apply (below_not_rows screen tabs rows l Hl [] _ _ [] r key Hr)|by repeat constructor]. }
  assert (drawing menu m0 slot rows (hint, paint slot footer m3)) as Hd4 by (apply below_drawing; [done..|]; intros r key Hr; apply Hnf; eauto).
  destruct Hd4 as [E1 E2 E3 _ (s4 & Hs4 & Hrows)]. cbn [snd] in *.
  assert (SessionPage (session_at (paint slot footer m3).2 slot) = SessionPage (session_at m0.2 slot)) as Epage.
  { unfold seen in E1. congruence. }
  exists s4. rewrite Epage. split_and!; [done|by apply (screens_own _ (proj1 E3))|apply Hpage..| |].
  - intros r Hr. rewrite (page_row_seen menu _ m0 slot r E1). by apply Hrows.
  - pose proof (drawing_own _ _ _ _ _ Hd) as Ho2. cbn [snd] in Ho2.
    pose proof (screen_paint m2 slot ws s (proj1 Ho2) Hv Hs) as Hs3. rewrite <- Em3 in Hs3.
    pose proof (drawing_own _ _ _ _ _ Hd3) as Ho3. cbn [snd] in Ho3.
    rewrite (screen_paint m3 slot footer _ (proj1 Ho3) Hv Hs3) in Hs4.
    assert (s4 = fold_left (apply_write slot) footer (fold_left (apply_write slot) ws s)) as -> by congruence.
    apply writes_keep; [apply Hnf; by right|]. apply writes_keep; [apply Hne; by right|done].
Qed.

Lemma pano_new_ok w : own_ok (Panorama_new w).
Proof. split; [apply screens_new_ok|apply PerSlot_new_wf]. Qed.

End Page.
End PanoramaMenu.

(** ** Samples *)

Definition sample_layout : PanoramaMenuLayout := Layout_new $"menu" 1 2 [].
Definition sample_engine (_ : Z) : Engine := mkEngine None 0 (repeat (Some 10) 4) true true ∅.
Definition sample_pano (evs : list (pano_event (W := log))) : outcome (MenuStack log * Panorama log) :=
  outcome_fold (on_pano_event sample_getOr (fun key _ => key) true sample_layout (Ok tt) sample_engine) evs (MenuStack_new, Panorama_new []).

Definition submenu_row : ItemOf log := mkItem (Some (fun _ _ => mkRow $"More" [] RowSubmenu true true false None [] false false)) None None None.

(** Three rows and a submenu, two rows to a page. *)
Definition long_menu (after : program log) : MenuOf log :=
  mkMenu 1 $"Main" [] [choice_row 10 after; choice_row 20 after; choice_row 30 after; submenu_row].
Definition shown_text (m : MenuStack log * Panorama log) (variable : text) : option text :=
  s ← screen_at (screens m.2) 3; shown_at s EveryoneSlot WriteText_ [] variable.
Definition opens (menu : MenuOf log) : pano_event (W := log) := PanoRun (DoCall (CallOpen 3 (Some menu)) Done).
Definition closes : program log := DoCall (CallCloseAll 3) Done.

(** A session: the second page, its first row stepped, and back to the first, which applies it. *)
Example a_panorama_session :
  (run! m := sample_pano [opens (long_menu (Done true)); PanoPress 3 $"menu_page_next"; PanoPress 3 $"menu_row0_increase";
     PanoPress 3 $"menu_page_previous"] in
   Returns (world m.2, shown_text m $"page", shown_text m $"tab0", SessionPage (session_at m.2 3))) =
  Returns ([30; 31], Some $"1 / 2", Some $"More", 0).
Proof. by vm_compute. Qed.

(** Turning the page away from a row whose commit closes the menu leaves the page turned, and the next session starts on it. *)
Example page_of_a_closed_session :
  (run! m := sample_pano [opens (long_menu closes); PanoPress 3 $"menu_row0_increase"; PanoPress 3 $"menu_page_next"] in
   Returns (IsOpen m.1 3, SessionPage (session_at m.2 3))) = Returns (false, 1) /\
  (run! m := sample_pano [opens (long_menu closes); PanoPress 3 $"menu_row0_increase"; PanoPress 3 $"menu_page_next"; opens (long_menu closes)] in
   Returns (shown_text m $"page")) = Returns (Some $"2 / 2").
Proof. by vm_compute. Qed.

(** Pressing a tab then reads past the closed session's tabs. *)
Example tab_of_a_closed_session :
  sample_pano [opens (long_menu closes); PanoPress 3 $"menu_row0_increase"; PanoPress 3 $"menu_tab0"] = Undefined.
Proof. by vm_compute. Qed.

(** An accepted answer ends the prompt, which stays on the screen. *)
Example answered_prompt_stays :
  (run! m := sample_pano [opens (long_menu closes); PanoRun (DoCall (CallPrompt 3 $"Name?" (Some (fun _ _ => Done true))) Done); PanoChat 3 $"x"] in
   Returns (IsCapturing (captures m.2) 3, shown_text m $"prompt_text")) = Returns (false, Some $"Name?").
Proof. by vm_compute. Qed.

