(* ===== verification/MenuBuilder.v ===== *)
(** * Building menus: [src/Menu/MenuBuilder.cpp], [MenuBuilder.hpp], [MenuPresets.cpp], [PlayerRows.cpp]

    A row's description is a label, a kind and callbacks; building it gives the callbacks a surface runs. A callback reads and
    writes a world [W]; what it asks of its surface is in its program. *)

From S2P Require Import Prelude Text MenuCursor MenuStack.

(** ** Programs *)

Section Programs.
Context {W : Type}.

(** One program after another, which is given what the first returns. *)
Fixpoint prog_bind (p : program W) (k : bool -> program W) : program W :=
  match p with
  | Done b => k b
  | DoWorld f k' => DoWorld f (fun w => prog_bind (k' w) k)
  | DoCall c k' => DoCall c (fun b => prog_bind (k' b) k)
  end.

(** A computation on the world, and what is done with what it gives. *)
Definition with_world {A} (g : W -> A * W) (k : A -> program W) : program W := DoWorld (fun w => (g w).2) (fun w => k (g w).1).

Definition reading {A} (g : W -> A) (k : A -> program W) : program W := DoWorld id (fun w => k (g w)).

Definition nothing : program W := Done true.
Definition do_call (c : call W (program W)) : program W := DoCall c (fun _ => nothing).

(** A program up to its first call: the world then, and the call with what follows, or what it returned. *)
Fixpoint until_call (p : program W) (w : W) : W * (bool + call W (program W) * (bool -> program W)) :=
  match p with
  | Done b => (w, inl b)
  | DoWorld f k => until_call (k w) (f w)
  | DoCall c k => (w, inr (c, k))
  end.
End Programs.

(** ** Rows *)

Section Rows.
Context {W : Type}.

(** A fixed condition ignores the world. *)
Definition EnabledCondition : Type := W -> Z -> bool.

Definition is_text (kind : MenuRowKind) : bool := match kind with RowText => true | _ => false end.

Definition DescribeRow (label : text) (kind : MenuRowKind) (enabled : EnabledCondition) (live : W -> Z -> MenuRow -> MenuRow) (w : W) (slot : Z) : MenuRow :=
  live w slot (mkRow label [] kind (enabled w slot) (negb (is_text kind)) false None [] false false).

Definition no_live (_ : W) (_ : Z) (row : MenuRow) : MenuRow := row.

(** The action, only while the row is enabled. *)
Definition WhenEnabled (enabled : EnabledCondition) (action : option (Z -> program W)) (slot : Z) : program W :=
  match action with
  | None => nothing
  | Some action => reading (fun w => enabled w slot) (fun e => if e : bool then action slot else nothing)
  end.

Record ButtonRow := mkButton { ButtonLabel : text; ButtonActivate : option (Z -> program W); ButtonEnabled : EnabledCondition }.

Definition Button_ToItem (row : ButtonRow) : ItemOf W :=
  mkItem (Some (DescribeRow (ButtonLabel row) RowButton (ButtonEnabled row) no_live))
    (Some (WhenEnabled (ButtonEnabled row) (Some (fun slot => match ButtonActivate row with Some f => f slot | None => nothing end)))) None None.

Record ToggleRow := mkToggle { ToggleLabel : text; ToggleGet : option (W -> Z -> bool); Flip : option (Z -> program W); ToggleEnabled : EnabledCondition }.

Definition Toggle_ToItem (row : ToggleRow) : ItemOf W :=
  mkItem
    (Some (DescribeRow (ToggleLabel row) RowToggle (ToggleEnabled row) (fun w slot r =>
       mkRow (Label r) (Value r) (Kind r) (Enabled r) (Selectable r) true (Some match ToggleGet row with Some get => get w slot | None => false end) (Icon r) (Pending r) (Changed r))))
    (Some (WhenEnabled (ToggleEnabled row) (Some (fun slot => match Flip row with Some f => f slot | None => nothing end))))
    (Some (fun slot _ => match Flip row with
                         | None => Done false
                         | Some f => reading (fun w => ToggleEnabled row w slot) (fun e => if e : bool then prog_bind (f slot) (fun _ => Done true) else Done false)
                         end))
    None.

Record InputRow := mkInput {
  InputLabel : text; InputPrompt : text; InputGet : option (W -> Z -> text); InputSet : option (Z -> text -> program W); MaxLength : Z; InputEnabled : EnabledCondition }.

Definition ellipsis : text := $"…".

(** What the chat line is given to. *)
Definition accept_input (row : InputRow) (slot : Z) (line : text) : program W :=
  if (0 <? MaxLength row) && (MaxLength row <? Z.of_nat (length line)) then Done false
  else match InputSet row with Some set => set slot line | None => Done true end.

Definition Input_ToItem (row : InputRow) : ItemOf W :=
  mkItem
    (Some (DescribeRow (InputLabel row) RowInput (InputEnabled row) (fun w slot r =>
       let value := match InputGet row with Some get => get w slot | None => [] end in
       mkRow (Label r) (match value with [] => ellipsis | _ => value end) (Kind r) (Enabled r) (Selectable r) (Steppable r) (Toggled r) (Icon r) (Pending r) (Changed r))))
    (Some (WhenEnabled (InputEnabled row) (Some (fun slot => do_call (CallPrompt slot (InputPrompt row) (Some (accept_input row)))))))
    None None.

(** [Build] may change the world, and may give no menu. *)
Record SubmenuRow := mkSubmenu { SubmenuLabel : text; SubmenuBuild : option (Z -> W -> option (MenuOf W) * W); SubmenuEnabled : EnabledCondition; SubmenuIcon : text }.

Definition open_built (slot : Z) (menu : option (MenuOf W)) : program W :=
  match menu with Some _ => do_call (CallOpen slot menu) | None => nothing end.

Definition Submenu_ToItem (row : SubmenuRow) : ItemOf W :=
  mkItem
    (Some (DescribeRow (SubmenuLabel row) RowSubmenu (SubmenuEnabled row) (fun _ _ r =>
       mkRow (Label r) (Value r) (Kind r) (Enabled r) (Selectable r) (Steppable r) (Toggled r) (SubmenuIcon row) (Pending r) (Changed r))))
    (Some (WhenEnabled (SubmenuEnabled row) (Some (fun slot =>
       match SubmenuBuild row with None => nothing | Some build => with_world (build slot) (open_built slot) end))))
    None None.

Definition Text_ToItem (label : text) : ItemOf W := mkItem (Some (DescribeRow label RowText (fun _ _ => true) no_live)) None None None.

(** *** Choices *)

(** A place an index is kept: the row's own, which is one for all players, or one bound to it. *)
Record Cell := mkCell { cell_get : W -> Z -> Z; cell_set : Z -> Z -> W -> W }.

Record ChoiceState := mkChoice { Choices : list text; ChoiceCommit : option (Z -> Z -> program W); At_ : Cell }.

Definition choice_count (st : ChoiceState) : Z := Z.of_nat (length (Choices st)).

Definition Selected (st : ChoiceState) (w : W) (slot : Z) : Z :=
  match Choices st with [] => 0 | _ => Z.max 0 (Z.min (choice_count st - 1) (cell_get (At_ st) w slot)) end.

Definition Choice_Apply (st : ChoiceState) (slot : Z) : program W :=
  match ChoiceCommit st, Choices st with
  | Some commit, _ :: _ => reading (fun w => Selected st w slot) (fun i => commit slot i)
  | _, _ => nothing
  end.

Definition stepped (st : ChoiceState) (slot direction : Z) (w : W) : W := cell_set (At_ st) slot (WrapIndex (Selected st w slot + direction) (choice_count st)) w.

Definition Choice_Step (st : ChoiceState) (slot direction : Z) : program W :=
  match Choices st with [] => Done false | _ => DoWorld (stepped st slot direction) (fun _ => Done true) end.

Inductive ChoiceApply := AfterStep | OnActivate.

Definition ChoiceItem (label : text) (st : ChoiceState) (enabled : EnabledCondition) (apply_ : ChoiceApply) : ItemOf W :=
  mkItem
    (Some (DescribeRow label RowChoice enabled (fun w slot r =>
       match Choices st with
       | [] => r
       | _ => mkRow (Label r) (default [] (Choices st !! Z.to_nat (Selected st w slot))) (Kind r) (Enabled r) (Selectable r) true (Toggled r) (Icon r) (Pending r) (Changed r)
       end)))
    (Some (WhenEnabled enabled (Some (fun slot =>
       match ChoiceCommit st with Some _ => Choice_Apply st slot | None => prog_bind (Choice_Step st slot 1) (fun _ => nothing) end))))
    (Some (fun slot direction => reading (fun w => enabled w slot) (fun e => if e : bool then Choice_Step st slot direction else Done false)))
    (match apply_ with
     | AfterStep => Some (fun slot => reading (fun w => enabled w slot) (fun e => if e : bool then Choice_Apply st slot else nothing))
     | OnActivate => None
     end).

(** [ChoiceRow<T>]: the values by their indices. [values\[index\]] is read without a check. *)
Definition Choice_ToItem {T} (label : text) (choices : list (text * T)) (commit : option (Z -> T -> program W)) (at_ : Cell) (enabled : EnabledCondition) (apply_ : ChoiceApply)
    : ItemOf W :=
  let commit_index := option_map (fun (c : Z -> T -> program W) slot i => match choices !! Z.to_nat i with Some (_, v) => c slot v | None => nothing end) commit in
  ChoiceItem label (mkChoice (map fst choices) commit_index at_) enabled apply_.

(** ** [MenuBuilder] *)

Record MenuBuilder := mkBuilder { _title : text; _subtitle : text; _items : list (ItemOf W); _emptyText : text }.

Definition new_builder (title : text) : MenuBuilder := mkBuilder title [] [] [].
Definition with_subtitle (b : MenuBuilder) (subtitle : text) : MenuBuilder := mkBuilder (_title b) subtitle (_items b) (_emptyText b).
Definition Add (b : MenuBuilder) (item : ItemOf W) : MenuBuilder := mkBuilder (_title b) (_subtitle b) (_items b ++ [item]) (_emptyText b).
Definition always (_ : W) (_ : Z) : bool := true.
Definition Button (b : MenuBuilder) (label : text) (activate : option (Z -> program W)) : MenuBuilder := Add b (Button_ToItem (mkButton label activate always)).
Definition Submenu (b : MenuBuilder) (label : text) (build : option (Z -> W -> option (MenuOf W) * W)) : MenuBuilder := Add b (Submenu_ToItem (mkSubmenu label build always [])).
Definition AddText (b : MenuBuilder) (label : text) : MenuBuilder := Add b (Text_ToItem label).
Definition EmptyText (b : MenuBuilder) (label : text) : MenuBuilder := mkBuilder (_title b) (_subtitle b) (_items b) label.

(** [id] is the new menu's address. *)
Definition Build (b : MenuBuilder) (id : Z) : MenuOf W :=
  let b := match _items b, _emptyText b with [], _ :: _ => AddText b (_emptyText b) | _, _ => b end in
  mkMenu id (_title b) (_subtitle b) (_items b).

(** ** Presets *)

Definition SummaryRows : Type := list (text * text).
Definition Summary_Add (rows : SummaryRows) (label value : text) : SummaryRows := rows ++ [(label, value)].
Definition Summary_AddIf (rows : SummaryRows) (condition : bool) (label value : text) : SummaryRows := if condition then Summary_Add rows label value else rows.
Definition Take (rows : SummaryRows) : list text := map (fun '(label, value) => match value with [] => label | _ => label ++ $": " ++ value end) rows.

Record DurationMenu := mkDuration {
  DurationTitle : text; Presets : list (text * Z); Pick : option (Z -> Z -> program W); CustomLabel : text; CustomPrompt : text; MaxInputLength : Z }.

(** What the text typed for a duration does. *)
Definition type_duration (pick : option (Z -> Z -> program W)) (slot : Z) (line : text) : program W :=
  let seconds := ParseDuration line in
  if seconds <? 0 then Done false
  else match pick with Some f => prog_bind (f slot seconds) (fun _ => Done true) | None => Done true end.

Definition BuildDurationMenu (spec : DurationMenu) (id : Z) : MenuOf W :=
  let b := fold_left (fun b '(label, seconds) => Button b label (Some (fun slot => match Pick spec with Some f => f slot seconds | None => nothing end)))
             (Presets spec) (new_builder (DurationTitle spec)) in
  let b := match CustomLabel spec with
           | [] => b
           | _ => Add b (Input_ToItem (mkInput (CustomLabel spec) (CustomPrompt spec) None (Some (type_duration (Pick spec))) (MaxInputLength spec) always))
           end in
  Build b id.

Record ConfirmMenu := mkConfirm {
  ConfirmTitle : text; Lines : list text; ConfirmLabel : text; CancelLabel : text; Confirm : option (Z -> program W); Cancel : option (Z -> program W) }.

(** A [MenuRow] with every other member its default. *)
Definition plain_row (label : text) : MenuRow := mkRow label [] RowButton true true false None [] false false.

Definition BuildConfirmMenu (spec : ConfirmMenu) (id : Z) : MenuOf W :=
  let b := fold_left AddText (Lines spec) (new_builder (ConfirmTitle spec)) in
  let confirmLabel := match ConfirmLabel spec with [] => $"Confirm" | l => l end in
  let cancelLabel := match CancelLabel spec with [] => $"Cancel" | l => l end in
  let b := Button b confirmLabel (Some (fun slot => match Confirm spec with Some f => f slot | None => nothing end)) in
  let b := Add b (mkItem (Some (fun _ _ => plain_row cancelLabel))
                    (Some (fun slot => match Cancel spec with Some f => f slot | None => do_call (CallCloseAll slot) end)) None None) in
  Build b id.

(** *** A list of players; a [Ref] stands for a [PlayerRef] *)

Section Players.
Context {Ref : Type}.

Record PlayerPicker := mkPicker {
  PickerTitle : text; PickPlayer : option (Ref -> program W); OpenPlayer : option (Ref -> W -> option (MenuOf W) * W); EmptyLabel : text;
  PickerEnabled : option (W -> Ref -> bool) }.

Definition player_row (spec : PlayerPicker) (name : text) (target : Ref) : ItemOf W :=
  let enabled := match PickerEnabled spec with Some check => fun w _ => check w target | None => always end in
  match OpenPlayer spec with
  | Some open => Submenu_ToItem (mkSubmenu name (Some (fun _ => open target)) enabled [])
  | None => Button_ToItem (mkButton name (Some (fun _ => match PickPlayer spec with Some pick => pick target | None => nothing end)) enabled)
  end.

(** [connected] are the players, by name and reference. *)
Definition AppendPlayerRows (b : MenuBuilder) (connected : list (text * Ref)) (spec : PlayerPicker) : MenuBuilder :=
  let b := fold_left (fun b '(name, target) => Add b (player_row spec name target)) connected b in
  match connected, EmptyLabel spec with [], _ :: _ => AddText b (EmptyLabel spec) | _, _ => b end.

Definition BuildPlayerPicker (connected : list (text * Ref)) (spec : PlayerPicker) (id : Z) : MenuOf W :=
  Build (AppendPlayerRows (new_builder (PickerTitle spec)) connected spec) id.
End Players.
End Rows.
Arguments EnabledCondition : clear implicits.
Arguments Cell : clear implicits.
Arguments ChoiceState : clear implicits.
Arguments ButtonRow : clear implicits.
Arguments ToggleRow : clear implicits.
Arguments InputRow : clear implicits.
Arguments SubmenuRow : clear implicits.

(** ** A row that is disabled does nothing *)

Section Facts.
Context {W : Type}.

(** The rows the specs build, and the condition of each. *)
Inductive built : ItemOf W -> EnabledCondition W -> Prop :=
| built_button row : built (Button_ToItem row) (ButtonEnabled row)
| built_toggle row : built (Toggle_ToItem row) (ToggleEnabled row)
| built_input row : built (Input_ToItem row) (InputEnabled row)
| built_submenu row : built (Submenu_ToItem row) (SubmenuEnabled row)
| built_choice label st enabled apply_ : built (ChoiceItem label st enabled apply_) enabled.

(** A program that changes nothing, asks nothing of its surface, and says it did nothing where that is asked. *)
Definition idle (p : program W) (w : W) : Prop := exists b, until_call p w = (w, inl b).

Lemma reading_call {A} (g : W -> A) (k : A -> program W) w : until_call (reading g k) w = until_call (k (g w)) w.
Proof using. done. Qed.

Lemma WhenEnabled_idle enabled action w slot : enabled w slot = false -> idle (WhenEnabled enabled action slot) w.
Proof using. intros H. unfold idle, WhenEnabled. destruct action; [|by eexists]. rewrite reading_call, H. by eexists. Qed.

Lemma disabled_idle item enabled w slot :
  built item enabled -> enabled w slot = false ->
  (forall describe, item_Describe item = Some describe -> Enabled (describe w slot) = false) /\
  (forall activate, item_Activate item = Some activate -> idle (activate slot) w) /\
  (forall step direction, item_Step item = Some step -> until_call (step slot direction) w = (w, inl false)) /\
  (forall commit, item_Commit item = Some commit -> idle (commit slot) w).
Proof using.
  intros Hb He. destruct Hb; cbn; (split; [intros ? [= <-]; cbn|split; [intros ? [= <-]; by apply WhenEnabled_idle|split]]); try done.
  - intros ? ? [= <-]. destruct (Flip row); [|done]. by rewrite reading_call, He.
  - by destruct (Choices st).
  - intros ? ? [= <-]. by rewrite reading_call, He.
  - intros commit Hc. destruct apply_; [|done]. injection Hc as <-. unfold idle. rewrite reading_call, He. by eexists.
Qed.

(** *** Choices *)

(** A cell gives back what was put in it. *)
Definition cell_ok (c : Cell W) : Prop := forall slot i w, cell_get c (cell_set c slot i w) slot = i.

Lemma Selected_range (st : ChoiceState W) w slot : Choices st <> [] -> 0 <= Selected st w slot < choice_count st.
Proof using. unfold Selected, choice_count. destruct (Choices st); [done|]. cbn [length]. lia. Qed.

Lemma Selected_stepped (st : ChoiceState W) w slot direction :
  Choices st <> [] -> cell_ok (At_ st) -> Selected st (stepped st slot direction w) slot = (Selected st w slot + direction) mod choice_count st.
Proof using.
  intros Hne Hc. pose proof (Selected_range st w slot Hne) as Hr. unfold stepped. set (i := Selected st w slot + direction). assert (0 < choice_count st) as Hpos by lia.
  rewrite WrapIndex_mod by done. unfold Selected. rewrite Hc. pose proof (Z.mod_pos_bound i _ Hpos). destruct (Choices st); [done|]. lia.
Qed.

Lemma choice_step_back (st : ChoiceState W) w slot direction :
  Choices st <> [] -> cell_ok (At_ st) -> Selected st (stepped st slot (- direction) (stepped st slot direction w)) slot = Selected st w slot.
Proof using.
  intros Hne Hc. rewrite !Selected_stepped by done. pose proof (Selected_range st w slot Hne) as Hr. rewrite Zplus_mod_idemp_l.
  replace (Selected st w slot + direction + - direction) with (Selected st w slot) by lia. apply Z.mod_small. lia.
Qed.
End Facts.

Section Choice.
Context {W T : Type} (label : text) (choices : list (text * T)) (commit : Z -> T -> program W) (at_ : Cell W).

Definition choice_state : ChoiceState W :=
  mkChoice (map fst choices) (Some (fun slot i => match choices !! Z.to_nat i with Some (_, v) => commit slot v | None => nothing end)) at_.

Lemma choice_at w slot : choices <> [] -> exists shown value, choices !! Z.to_nat (Selected choice_state w slot) = Some (shown, value).
Proof using.
  intros Hne. assert (Choices choice_state <> []) as Hne' by (unfold choice_state; cbn [Choices]; by destruct choices). pose proof (Selected_range choice_state w slot Hne') as Hr.
  unfold choice_count in Hr. cbn [Choices choice_state] in Hr. rewrite length_map in Hr.
  destruct (lookup_lt_is_Some_2 choices (Z.to_nat (Selected choice_state w slot))) as [[shown value] E]; [lia|]. eauto.
Qed.

Lemma choice_value enabled apply_ describe w slot shown value :
  item_Describe (Choice_ToItem label choices (Some commit) at_ enabled apply_) = Some describe ->
  choices !! Z.to_nat (Selected choice_state w slot) = Some (shown, value) -> Value (describe w slot) = shown.
Proof using.
  intros [= <-] E. unfold DescribeRow. cbn [Choices]. destruct (map fst choices) as [|c cs] eqn:Em.
  - apply map_eq_nil in Em. rewrite Em in E. by rewrite lookup_nil in E.
  - rewrite <- Em. cbn [Value]. change (mkChoice (map fst choices) _ at_) with choice_state. rewrite list_lookup_fmap, E. done.
Qed.
End Choice.

(** A row of choices commits the value it shows: what its commit is given is, of the values listed, the one whose label the
    row has just then, whatever the index kept for it is. Stepping it moves to the next, around the end, and back to where it
    was; while it is disabled it neither steps, nor acts, nor commits. *)
Theorem choice_commits_what_it_shows {W T} label (choices : list (text * T)) (commit : Z -> T -> program W) at_ enabled apply_ w slot :
  choices <> [] -> cell_ok at_ ->
  let item := Choice_ToItem label choices (Some commit) at_ enabled apply_ in
  let index w := Z.to_nat (Selected (choice_state choices commit at_) w slot) in
  exists describe activate step,
    item_Describe item = Some describe /\ item_Activate item = Some activate /\ item_Step item = Some step /\
    (exists value, choices !! index w = Some (Value (describe w slot), value) /\
       until_call (activate slot) w = (if enabled w slot then until_call (commit slot value) w else (w, inl true)) /\
       forall c, item_Commit item = Some c -> until_call (c slot) w = until_call (activate slot) w) /\
    forall direction, exists w', until_call (step slot direction) w = (w', inl (enabled w slot)) /\
      (enabled w slot = false -> w' = w) /\
      (enabled w slot = true -> Z.of_nat (index w') = (Z.of_nat (index w) + direction) mod Z.of_nat (length choices) /\
         (enabled w' slot = true -> exists w'', until_call (step slot (- direction)) w' = (w'', inl true) /\ index w'' = index w)).
Proof.
  intros Hne Hc item index. set (st := choice_state choices commit at_) in *. assert (Choices st <> []) as Hst by (unfold st, choice_state; cbn [Choices]; by destruct choices).
  eexists _, _, _. split_and!; [reflexivity..| |].
  - destruct (choice_at choices commit at_ w slot Hne) as (shown & value & E). exists value. fold st in E. unfold index. rewrite E. split_and!.
    + do 2 f_equal. symmetry. by eapply (choice_value label choices commit at_ enabled apply_); [reflexivity|].
    + unfold WhenEnabled. rewrite reading_call. destruct (enabled w slot); [|done]. unfold Choice_Apply. cbn [ChoiceCommit option_map]. change (mkChoice (map fst choices) _ at_) with st.
      destruct (Choices st); [done|]. rewrite reading_call, E. done.
    + intros c Hcm. destruct apply_; [|done]. injection Hcm as <-. unfold WhenEnabled. rewrite !reading_call. done.
  - assert (forall d v, enabled v slot = true -> until_call (reading (fun w => enabled w slot) (fun e : bool => if e then Choice_Step st slot d else Done false)) v = (stepped st slot d v, inl true)) as Hstep.
    { intros d v He. rewrite reading_call, He. unfold Choice_Step. by destruct (Choices st). }
    intros direction. change (mkChoice (map fst choices) _ at_) with st. destruct (enabled w slot) eqn:He.
    + exists (stepped st slot direction w). split; [by apply Hstep|]. split; [done|]. intros _. unfold index. rewrite Selected_stepped by done.
      pose proof (Selected_range st w slot Hst) as Hr. assert (choice_count st = Z.of_nat (length choices)) as Hn by (unfold choice_count, st, choice_state; cbn; by rewrite length_map).
      pose proof (Z.mod_pos_bound (Selected st w slot + direction) (choice_count st) ltac:(lia)). split; [rewrite !Z2Nat.id by lia; by rewrite <- Hn|].
      intros He'. exists (stepped st slot (- direction) (stepped st slot direction w)). split; [by apply Hstep|]. by rewrite choice_step_back.
    + exists w. rewrite reading_call, He. done.
Qed.

Module Sample.
(** The world is the index kept, and what was committed. *)
Definition cell : Cell (Z * list Z) := mkCell (fun w _ => w.1) (fun _ i w => (i, w.2)).
Definition commit (_ : Z) (v : Z) : program (Z * list Z) := DoWorld (fun w => (w.1, w.2 ++ [v])) (fun _ => nothing).
Definition choices : list (text * Z) := [($"low", 10); ($"mid", 20); ($"high", 30)].
End Sample.

Lemma choice_commits_what_it_shows_witness :
  exists value, Sample.choices !! 2%nat = Some ($"high", value) /\ value = 30 /\
    cell_ok Sample.cell /\ Sample.choices <> [].
Proof.
  assert (cell_ok Sample.cell) as Hc by (intros slot i w; reflexivity). assert (Sample.choices <> []) as Hne by discriminate.
  destruct (choice_commits_what_it_shows $"Power" Sample.choices Sample.commit Sample.cell always AfterStep (7, []) 3 Hne Hc)
    as (describe & activate & step & Hd & _ & _ & (value & E & _) & _).
  injection Hd as <-. exists value.
  assert (Z.to_nat (Selected (choice_state Sample.choices Sample.commit Sample.cell) (7, []) 3) = 2%nat) as Ei by (vm_compute; reflexivity). rewrite Ei in E.
  split; [rewrite E; reflexivity|]. vm_compute in E. injection E as <-. split; [reflexivity|]. split; [exact Hc|exact Hne].
Defined.
