(* ===== verification/Flow.v ===== *)
(** * Wizards: [include/VoltMod/Menu/Flow.hpp]

    A flow opens one menu per step and carries a state through them. A row of a step's menu holds the flow, and the flow the
    steps, so a callback is kept here as what it asks of the flow: its program writes requests, which [run_program] performs as
    they come. [TState] is the flow's own state together with whatever the program's callbacks read and write outside it. *)

From S2P Require Import Prelude Text MenuCursor MenuStack MenuBuilder.

Section Flow.
Context {TState : Type}.

(** What a row's callback does to its flow: writes the state, or calls one of its functions. *)
Inductive op := Write (f : TState -> TState) | CallAdvance | CallRunFinish.

Abbreviation FlowMenu := (MenuOf (list op)).

Definition request (ops : list op) : program (list op) := DoWorld (fun asked => asked ++ ops) (fun _ => nothing).

(** A custom step's factory is given the flow: it may change the state, and may build nothing. [id] is the new menu's address. *)
Record Step := mkStep { Step_Build : Z -> TState -> option FlowMenu * TState; Step_Applies : option (TState -> bool) }.

Record DurationStep := mkDurationStep {
  D_Title : text; D_Presets : list (text * Z); D_Set : option (Z -> TState -> TState); D_CustomLabel : text; D_CustomPrompt : text;
  D_Applies : option (TState -> bool) }.

Record OptionsStep := mkOptionsStep {
  O_Title : text; O_Options : list (text * text); O_Set : option (text -> text -> TState -> TState); O_CustomLabel : text; O_CustomPrompt : text;
  O_CustomValue : text; O_Applies : option (TState -> bool) }.

Record ConfirmSpec := mkConfirmSpec { C_Title : text; Summary : option (TState -> SummaryRows -> SummaryRows); C_ConfirmLabel : text; C_CancelLabel : text }.

(** The flow as its callers set it up. *)
Record Flow := mkFlow {
  _slot : Z; _steps : list Step; _validate : option (TState -> option text); _confirm : ConfirmSpec; _finish : option (TState -> TState) }.

Definition Create (slot : Z) : Flow := mkFlow slot [] None (mkConfirmSpec [] None [] []) None.

Definition AddStep (fl : Flow) (build : Z -> TState -> option FlowMenu * TState) (applies : option (TState -> bool)) : Flow :=
  mkFlow (_slot fl) (_steps fl ++ [mkStep build applies]) (_validate fl) (_confirm fl) (_finish fl).

Definition Validate (fl : Flow) check : Flow := mkFlow (_slot fl) (_steps fl) check (_confirm fl) (_finish fl).
Definition Confirm (fl : Flow) spec : Flow := mkFlow (_slot fl) (_steps fl) (_validate fl) spec (_finish fl).
Definition Finish (fl : Flow) finish : Flow := mkFlow (_slot fl) (_steps fl) (_validate fl) (_confirm fl) finish.

(** *** The steps' menus *)

Definition write_by (set : option (TState -> TState)) : list op := match set with Some f => [Write f] | None => [] end.

Definition pick_duration (step : DurationStep) (seconds : Z) : list op := write_by (option_map (fun set => set seconds) (D_Set step)) ++ [CallAdvance].

(** The longest chat line the presets' row takes by default, and any row. *)
Definition default_max_input : Z := 32.
Definition default_max_length : Z := 64.

Definition duration_menu (step : DurationStep) : DurationMenu :=
  mkDuration (D_Title step) (D_Presets step) (Some (fun _ seconds => request (pick_duration step seconds))) (D_CustomLabel step) (D_CustomPrompt step) default_max_input.

Definition AddDurationStep (fl : Flow) (step : DurationStep) : Flow :=
  AddStep fl (fun id st => (Some (BuildDurationMenu (duration_menu step) id), st)) (D_Applies step).

Definition pick_option (step : OptionsStep) (label value : text) : list op := write_by (option_map (fun set => set label value) (O_Set step)) ++ [CallAdvance].

(** What the free-text row does with a line. *)
Definition type_option (step : OptionsStep) (line : text) : program (list op) :=
  match Trim line with
  | [] => Done false
  | typed => prog_bind (request (pick_option step typed (match O_CustomValue step with [] => typed | v => v end))) (fun _ => Done true)
  end.

Definition options_builder (step : OptionsStep) : MenuBuilder :=
  let b := fold_left (fun b '(label, value) => Button b label (Some (fun _ => request (pick_option step label value)))) (O_Options step) (new_builder (O_Title step)) in
  match O_CustomLabel step with
  | [] => b
  | _ => Add b (Input_ToItem (mkInput (O_CustomLabel step) (O_CustomPrompt step) None (Some (fun _ => type_option step)) default_max_length always))
  end.

Definition BuildOptionsMenu (step : OptionsStep) (id : Z) : FlowMenu := Build (options_builder step) id.

Definition AddOptionsStep (fl : Flow) (step : OptionsStep) : Flow :=
  AddStep fl (fun id st => (Some (BuildOptionsMenu step id), st)) (O_Applies step).

(** ** A flow that runs *)

(** What the flow did: the step it opened or could not build, the summary it opened, the failure it closed with, what it
    finished with. [OnClosed] is the cancel row's, which closes the menus without the flow. *)
Inductive Act :=
| OnStep (i : nat) (st : TState) (menu : FlowMenu)
| OnSummary (st : TState) (menu : FlowMenu)
| OnStepFailed (i : nat) (st : TState)
| OnAborted (error : text) (st : TState)
| OnFinished (st : TState)
| OnClosed.

(** The flow's changing members; [acts] is history, which no operation reads. *)
Record Running := mkRunning { State : TState; _stepIndex : nat; acts : list Act }.

Definition start (initial : TState) : Running := mkRunning initial 0 [].
Definition set_State (st : TState) (r : Running) : Running := mkRunning st (_stepIndex r) (acts r).
Definition log (a : Act) (r : Running) : Running := mkRunning (State r) (_stepIndex r) (acts r ++ [a]).

Context (Translate : Z -> text -> text -> text) (fl : Flow).

Definition error_of (st : TState) : option text := match _validate fl with None => None | Some check => check st end.

Definition RunFinish (r : Running) : Running :=
  match error_of (State r) with
  | Some error => log (OnAborted error (State r)) r
  | None =>
      let finished := log (OnFinished (State r)) r in
      match _finish fl with Some finish => set_State (finish (State r)) finished | None => finished end
  end.

Definition summary_spec (summary : TState -> SummaryRows -> SummaryRows) (st : TState) : ConfirmMenu :=
  let c := _confirm fl in
  mkConfirm (C_Title c) (Take (summary st []))
    (match C_ConfirmLabel c with [] => Translate (_slot fl) $"menu.confirm" $"Confirm" | l => l end)
    (match C_CancelLabel c with [] => Translate (_slot fl) $"menu.cancel" $"Cancel" | l => l end)
    (Some (fun _ => request [CallRunFinish])) None.

Definition BuildSummary (summary : TState -> SummaryRows -> SummaryRows) (st : TState) (id : Z) : FlowMenu := BuildConfirmMenu (summary_spec summary st) id.

Definition applies (s : Step) (st : TState) : bool := match Step_Applies s with Some check => check st | None => true end.

Definition fresh (r : Running) : Z := Z.of_nat (length (acts r)).

Definition enter (i : nat) (s : Step) (r : Running) : Running :=
  let (menu, st') := Step_Build s (fresh r) (State r) in
  let entered := mkRunning (State r) i (acts r) in
  set_State st' (log (match menu with None => OnStepFailed i (State r) | Some m => OnStep i (State r) m end) entered).

(** The loop over the steps left, the first of which is number [i]. *)
Fixpoint open_first (i : nat) (steps : list Step) (r : Running) : option Running :=
  match steps with
  | [] => None
  | s :: rest => if applies s (State r) then Some (enter i s r) else open_first (S i) rest r
  end.

Definition OpenFrom (from : nat) (r : Running) : Running :=
  match error_of (State r) with
  | Some error => log (OnAborted error (State r)) r
  | None =>
      match open_first from (drop from (_steps fl)) r with
      | Some r => r
      | None =>
          match Summary (_confirm fl) with
          | Some summary => log (OnSummary (State r) (BuildSummary summary (State r) (fresh r))) r
          | None => RunFinish r
          end
      end
  end.

Definition Begin (r : Running) : Running := OpenFrom 0 r.
Definition Advance (r : Running) : Running := OpenFrom (S (_stepIndex r)) r.

Definition perform (o : op) (r : Running) : Running :=
  match o with Write f => set_State (f (State r)) r | CallAdvance => Advance r | CallRunFinish => RunFinish r end.

Definition perform_all (ops : list op) (r : Running) : Running := fold_left (fun r o => perform o r) ops r.

(** A row's callback, to its end; a line of chat it prompts for is [typed], where the player types one. *)
Fixpoint run_program (typed : option text) (p : program (list op)) (r : Running) : Running :=
  match p with
  | Done _ => r
  | DoWorld f k => run_program typed (k []) (perform_all (f []) r)
  | DoCall c k =>
      let r := match c with
               | CallPrompt slot _ (Some accept) => match typed with Some line => run_program None (accept slot line) r | None => r end
               | CallCloseAll _ => log OnClosed r
               | _ => r
               end in
      run_program typed (k true) r
  end.

Definition menus_opened (r : Running) : list FlowMenu := omap (fun a => match a with OnStep _ _ m | OnSummary _ m => Some m | _ => None end) (acts r).

Definition touch_row (menu : option FlowMenu) (row : nat) (typed : option text) (r : Running) : Running :=
  match menu with
  | Some menu => match Items menu !! row with
                 | Some item => match item_Activate item with Some act => run_program typed (act (_slot fl)) r | None => r end
                 | None => r
                 end
  | None => r
  end.

(** What happens to a flow. [Touch k row typed] is a row of the [k]th menu it opened: a surface that goes back shows an
    earlier one. [Changed] is the program around it. *)
Inductive happening := Began | Touch (k row : nat) (typed : option text) | Changed (f : TState -> TState).

Definition on_happening (r : Running) (h : happening) : Running :=
  match h with
  | Began => Begin r
  | Touch k row typed => touch_row (menus_opened r !! k) row typed r
  | Changed f => set_State (f (State r)) r
  end.

Definition run (hs : list happening) (r : Running) : Running := fold_left on_happening hs r.
End Flow.
Arguments op : clear implicits.
Arguments Step : clear implicits.
Arguments DurationStep : clear implicits.
Arguments OptionsStep : clear implicits.
Arguments ConfirmSpec : clear implicits.
Arguments Flow : clear implicits.
Arguments Act : clear implicits.
Arguments Running : clear implicits.
Arguments happening : clear implicits.

(** ** What a flow's run keeps *)

Section Facts.
Context {TState : Type} (Translate : Z -> text -> text -> text) (fl : Flow TState).
Implicit Types r : Running TState.

Abbreviation error_of := (error_of fl).
Abbreviation OpenFrom := (OpenFrom Translate fl).
Abbreviation Advance := (Advance Translate fl).
Abbreviation RunFinish := (RunFinish fl).
Abbreviation run_program := (run_program Translate fl).
Abbreviation run := (run Translate fl).
Abbreviation steps := (_steps fl).

(** Why an act was one the flow may do: the check passed on the state it was done in, and a step opened is one that applies. *)
Definition allowed (a : Act TState) : Prop :=
  match a with
  | OnStep i st menu => error_of st = None /\ exists s, steps !! i = Some s /\ applies s st = true /\ exists id st', Step_Build s id st = (Some menu, st')
  | OnStepFailed i st => error_of st = None /\ exists s, steps !! i = Some s /\ applies s st = true /\ exists id st', Step_Build s id st = (None, st')
  | OnSummary st menu => error_of st = None /\ exists summary id, Summary (_confirm fl) = Some summary /\ menu = BuildSummary Translate fl summary st id
  | OnAborted error st => error_of st = Some error
  | OnFinished st => error_of st = None
  | OnClosed => True
  end.

Lemma open_first_spec l : forall i r,
  match open_first i l r with
  | Some r' => exists j s, l !! j = Some s /\ applies s (State r) = true /\
      (forall k s', (k < j)%nat -> l !! k = Some s' -> applies s' (State r) = false) /\ r' = enter (i + j) s r
  | None => forall k s, l !! k = Some s -> applies s (State r) = false
  end.
Proof using.
  induction l as [|s l IH]; intros i r; cbn [open_first]; [done|]. destruct (applies s (State r)) eqn:Ha.
  - exists O, s. rewrite Nat.add_0_r. split_and!; [done..| |done]. intros k s' Hk. lia.
  - specialize (IH (S i) r). destruct (open_first (S i) l r) as [r'|].
    + destruct IH as (j & s' & E & Ha' & Hb & ->). exists (S j), s'. split_and!; [done..| |by rewrite Nat.add_succ_r].
      intros [|k] s0 Hk E0; [by injection E0 as <-|]. apply (Hb k); [lia|done].
    + intros [|k] s0 E0; [by injection E0 as <-|]. by apply (IH k).
Qed.

(** The four ends of [OpenFrom]. *)
Lemma OpenFrom_spec (P : Running TState -> Prop) from r :
  (forall error, error_of (State r) = Some error -> P (log (OnAborted error (State r)) r)) ->
  (forall j s, error_of (State r) = None -> (from <= j)%nat -> steps !! j = Some s -> applies s (State r) = true ->
     (forall k s', (from <= k < j)%nat -> steps !! k = Some s' -> applies s' (State r) = false) -> P (enter j s r)) ->
  (forall summary, error_of (State r) = None -> (forall k s, (from <= k)%nat -> steps !! k = Some s -> applies s (State r) = false) ->
     Summary (_confirm fl) = Some summary -> P (log (OnSummary (State r) (BuildSummary Translate fl summary (State r) (fresh r))) r)) ->
  (error_of (State r) = None -> (forall k s, (from <= k)%nat -> steps !! k = Some s -> applies s (State r) = false) ->
     Summary (_confirm fl) = None -> P (RunFinish r)) ->
  P (OpenFrom from r).
Proof using.
  intros Ha Hs Hc Hf. unfold Flow.OpenFrom. destruct (error_of (State r)) as [e|] eqn:Ee; [by apply Ha|].
  pose proof (open_first_spec (drop from steps) from r) as H. destruct (open_first from (drop from steps) r) as [r'|].
  - destruct H as (j & s & E & Hap & Hb & ->). rewrite lookup_drop in E. apply Hs; [done|lia|done..|].
    intros k s' Hk E'. apply (Hb (k - from)%nat); [lia|]. rewrite lookup_drop. by replace (from + (k - from))%nat with k by lia.
  - assert (forall k s, (from <= k)%nat -> steps !! k = Some s -> applies s (State r) = false) as Hn.
    { intros k s Hk E. apply (H (k - from)%nat). rewrite lookup_drop. by replace (from + (k - from))%nat with k by lia. }
    destruct (Summary (_confirm fl)) as [summary|] eqn:Es; [by apply Hc|by apply Hf].
Qed.

(** What is kept by each thing a row may ask is kept by a row, whatever the row and the line typed. *)
Record kept (P : Running TState -> Prop) : Prop := mkKept {
  kept_write : forall f r, P r -> P (set_State (f (State r)) r);
  kept_closed : forall r, P r -> P (log OnClosed r);
  kept_advance : forall r, P r -> P (Advance r) }.

(** [asks Q p]: all that [p] asks of the flow is [Q]. *)
Fixpoint asks (Q : op TState -> Prop) (p : program (list (op TState))) : Prop :=
  match p with
  | Done _ => True
  | DoWorld f k => List.Forall Q (f []) /\ asks Q (k [])
  | DoCall c k => match c with CallPrompt _ _ (Some accept) => forall slot line, asks Q (accept slot line) | _ => True end /\ asks Q (k true)
  end.

Lemma run_program_keeps (P : Running TState -> Prop) (Q : op TState -> Prop) :
  kept P -> (forall r, Q CallRunFinish -> P r -> P (RunFinish r)) ->
  forall p typed r, asks Q p -> P r -> P (run_program typed p r).
Proof using.
  intros K Kf. assert (forall ops r, List.Forall Q ops -> P r -> P (perform_all Translate fl ops r)) as Hops.
  { induction ops as [|o ops IH]; intros r H Hr; [done|]. inversion_clear H. apply IH; [done|].
    destruct o; [by apply (kept_write P K)|by apply (kept_advance P K)|by apply Kf]. }
  fix IH 1. intros p typed r Hq Hr. destruct p as [b|f k|c k]; cbn [Flow.run_program]; [done| |].
  - destruct Hq as [Hf Hk]. apply IH; [exact Hk|]. by apply Hops.
  - destruct Hq as [Hc Hk]. apply IH; [exact Hk|]. destruct c as [| | | |slot| |slot prompt [accept|]|]; try exact Hr; [by apply (kept_closed P K)|].
    destruct typed as [line|]; [|exact Hr]. apply IH; [apply Hc|exact Hr].
Qed.

Lemma asks_anything (Q : op TState -> Prop) : (forall o, Q o) -> forall p, asks Q p.
Proof using.
  intros HQ. fix IH 1. intros [b|f k|c k]; cbn; [done| |].
  - split; [apply List.Forall_forall; intros; apply HQ|apply IH].
  - split; [|apply IH]. destruct c as [| | | | | |slot prompt [accept|]|]; try exact I. intros slot' line. apply IH.
Qed.

Lemma run_keeps (P : Running TState -> Prop) hs r :
  kept P -> (forall r, P r -> P (RunFinish r)) -> (In Began hs -> forall r, P r -> P (Begin Translate fl r)) -> P r -> P (run hs r).
Proof using.
  intros K Kf. revert r. induction hs as [|h hs IH]; intros r Kb Hr; [done|]. cbn [Flow.run fold_left].
  apply IH; [intros Hin; apply Kb; by right|]. destruct h as [|k row typed|f]; cbn [on_happening].
  - apply Kb; [by left|done].
  - unfold touch_row. destruct (menus_opened r !! k) as [menu|]; [|done]. destruct (Items menu !! row) as [item|]; [|done].
    destruct (item_Activate item) as [act|]; [|done]. apply (run_program_keeps P (fun _ => True)); [done|by intros; apply Kf|by apply asks_anything|done].
  - by apply (kept_write P K (fun _ => f (State r))).
Qed.

Lemma enter_spec i s r :
  exists id st' a, enter i s r = mkRunning st' i (acts r ++ [a]) /\
    ((exists menu, a = OnStep i (State r) menu /\ Step_Build s id (State r) = (Some menu, st')) \/ (a = OnStepFailed i (State r) /\ Step_Build s id (State r) = (None, st'))).
Proof using. unfold enter. exists (fresh r). destruct (Step_Build s (fresh r) (State r)) as [[menu|] st'] eqn:E; cbn; eexists _, _; split; eauto. Qed.

Abbreviation all_allowed := (fun r => List.Forall allowed (acts r)).

Lemma log_allowed a r : allowed a -> all_allowed r -> all_allowed (log a r).
Proof using. intros Ha Hr. cbn. apply List.Forall_app; auto. Qed.

Lemma RunFinish_allowed r : all_allowed r -> all_allowed (RunFinish r).
Proof using.
  intros H. unfold Flow.RunFinish. destruct (error_of (State r)) eqn:E; [by apply log_allowed|].
  destruct (_finish fl); by apply log_allowed.
Qed.

Lemma OpenFrom_allowed from r : all_allowed r -> all_allowed (OpenFrom from r).
Proof using.
  intros H. apply OpenFrom_spec.
  - intros e E. by apply log_allowed.
  - intros j s Ee _ Es Ha _. destruct (enter_spec j s r) as (id & st' & a & -> & Hb). cbn. apply List.Forall_app. split; [done|]. constructor; [|done].
    destruct Hb as [(menu & -> & Hb)|[-> Hb]]; cbn; eauto 10.
  - intros summary Ee _ Es. apply log_allowed; [|done]. cbn. eauto.
  - intros _ _ _. by apply RunFinish_allowed.
Qed.

Lemma allowed_kept : kept all_allowed.
Proof using. constructor; [done|intros; by apply log_allowed|]. intros r. apply OpenFrom_allowed. Qed.

(** *** Steps go forward *)

Definition opened (r : Running TState) : list nat := omap (fun a => match a with OnStep i _ _ | OnStepFailed i _ => Some i | _ => None end) (acts r).

(** The indices opened go up, and the last is at most the current one. *)
Definition forward (r : Running TState) : Prop :=
  StronglySorted lt (opened r) /\ List.Forall (fun i => i <= _stepIndex r /\ i < length steps)%nat (opened r).

Lemma log_forward a r : (forall i st m, a <> OnStep i st m) -> (forall i st, a <> OnStepFailed i st) -> forward r -> forward (log a r).
Proof using.
  intros H1 H2 Hr. unfold forward, opened. cbn. rewrite omap_app. destruct a as [i st m| |i st| | |]; cbn; rewrite ?app_nil_r; try exact Hr;
    [by destruct (H1 i st m)|by destruct (H2 i st)].
Qed.

Lemma RunFinish_forward r : forward r -> forward (RunFinish r).
Proof using.
  intros H. unfold Flow.RunFinish. destruct (error_of (State r)); [by apply log_forward|]. destruct (_finish fl); by apply (log_forward (OnFinished (State r))).
Qed.

Lemma sorted_snoc (l : list nat) n : StronglySorted lt l -> List.Forall (fun i => i < n)%nat l -> StronglySorted lt (l ++ [n]).
Proof using.
  intros Hs Hl. apply ssorted_app. split_and!; [done|by repeat constructor|]. intros i j Hi [<-|[]]. rewrite List.Forall_forall in Hl. by apply Hl.
Qed.

Lemma OpenFrom_forward from r : (forall i, In i (opened r) -> i < from)%nat -> forward r -> forward (OpenFrom from r).
Proof using.
  intros Hfrom Hr. apply OpenFrom_spec.
  - intros e _. by apply log_forward.
  - intros j s _ Hj Es _ _. destruct (enter_spec j s r) as (id & st' & a & -> & Hb). apply lookup_lt_Some in Es. destruct Hr as [Hs Hl]. unfold forward.
    assert (opened (mkRunning st' j (acts r ++ [a])) = opened r ++ [j]) as ->.
    { unfold opened. cbn. rewrite omap_app. f_equal. by destruct Hb as [(menu & -> & _)|[-> _]]. }
    split.
    + apply sorted_snoc; [done|]. apply List.Forall_forall. intros i Hi. specialize (Hfrom i Hi). lia.
    + apply List.Forall_app. split; [|by repeat constructor]. apply List.Forall_forall. intros i Hi. rewrite List.Forall_forall in Hl. specialize (Hfrom i Hi). specialize (Hl i Hi). cbn. lia.
  - intros summary _ _ _. by apply log_forward.
  - intros _ _ _. by apply RunFinish_forward.
Qed.

Lemma forward_kept : kept forward.
Proof using.
  constructor; [done|intros; by apply log_forward|]. intros r Hr. apply OpenFrom_forward; [|done]. intros i Hi.
  destruct Hr as [_ Hl]. rewrite List.Forall_forall in Hl. specialize (Hl i Hi). lia.
Qed.

Lemma sorted_below (l : list nat) : forall n, StronglySorted lt l -> List.Forall (fun i => i < n)%nat l -> (length l <= n)%nat.
Proof using.
  induction l as [|x l IH] using rev_ind; intros n Hs Hl; [cbn; lia|]. rewrite length_app. cbn. apply List.Forall_app in Hl as [_ Hx]. inversion_clear Hx.
  apply ssorted_app in Hs as (Hs & _ & Hlt). assert (List.Forall (fun i => i < x)%nat l) as Hb.
  { apply List.Forall_forall. intros i Hi. apply Hlt; [done|by left]. }
  specialize (IH x Hs Hb). lia.
Qed.

(** *** A flow that confirms *)

(** [RunFinish] is the flow's own: no row of a step's menu calls it. *)
Definition private : Prop :=
  forall s id st menu st', In s steps -> Step_Build s id st = (Some menu, st') ->
    List.Forall (fun item => forall act, item_Activate item = Some act -> asks (fun o => o <> CallRunFinish) (act (_slot fl))) (Items menu).

Definition summarised (r : Running TState) (k : nat) : Prop := exists j st menu, (j < k)%nat /\ acts r !! j = Some (OnSummary st menu).

Definition confirmed (r : Running TState) : Prop := forall k st, acts r !! k = Some (OnFinished st) -> summarised r k.

Lemma log_confirmed a r : (forall st, a = OnFinished st -> summarised r (length (acts r))) -> confirmed r -> confirmed (log a r).
Proof using.
  intros Ha Hr k st E. apply lookup_app_Some in E. destruct E as [E|[Hk E]].
  - destruct (Hr k st E) as (j & st' & m & Hj & Ej). exists j, st', m. split; [done|]. by apply lookup_app_l_Some.
  - apply list_lookup_singleton_Some in E as [Hz ->]. destruct (Ha st eq_refl) as (j & st' & m & Hj & Ej). exists j, st', m. split; [lia|]. by apply lookup_app_l_Some.
Qed.

Lemma OpenFrom_confirmed summary from r : Summary (_confirm fl) = Some summary -> confirmed r -> confirmed (OpenFrom from r).
Proof using.
  intros Hs Hr. apply OpenFrom_spec; [intros; by apply log_confirmed| |intros; by apply log_confirmed|congruence].
  intros j s _ _ _ _ _. destruct (enter_spec j s r) as (id & st' & a & -> & Hb). apply (log_confirmed a r); [|done].
  by destruct Hb as [(menu & -> & _)|[-> _]].
Qed.

Lemma OpenFrom_appends from r : exists more, acts (OpenFrom from r) = acts r ++ more.
Proof using.
  apply OpenFrom_spec; [by eexists| |by eexists|].
  - intros j s _ _ _ _ _. destruct (enter_spec j s r) as (id & st' & a & -> & _). by eexists.
  - intros _ _ _. unfold Flow.RunFinish. destruct (error_of (State r)); [by eexists|]. destruct (_finish fl); by eexists.
Qed.

Lemma summarised_appends (r r' : Running TState) : (exists more, acts r' = acts r ++ more) -> summarised r (length (acts r)) -> summarised r' (length (acts r')).
Proof using.
  intros [more E] (j & st & m & Hj & Ej). exists j, st, m. rewrite E, length_app. split; [lia|]. by apply lookup_app_l_Some.
Qed.

Lemma RunFinish_confirmed r : summarised r (length (acts r)) -> confirmed r -> confirmed (RunFinish r).
Proof using.
  intros Hs Hr. unfold Flow.RunFinish. destruct (error_of (State r)); [by apply log_confirmed|].
  destruct (_finish fl); by apply (log_confirmed (OnFinished (State r))).
Qed.

Lemma menus_opened_act (r : Running TState) menu : menu ∈ menus_opened r ->
  exists k a, acts r !! k = Some a /\ ((exists i st, a = OnStep i st menu) \/ exists st, a = OnSummary st menu).
Proof using.
  intros H. apply list_elem_of_omap in H as (a & Ha & E). apply list_elem_of_lookup in Ha as [k Hk]. exists k, a. split; [done|].
  destruct a; try done; injection E as ->; eauto.
Qed.

Lemma touch_confirmed summary k row typed r :
  Summary (_confirm fl) = Some summary -> private -> List.Forall allowed (acts r) -> confirmed r ->
  confirmed (touch_row Translate fl (menus_opened r !! k) row typed r).
Proof using.
  intros Hs Hp Hall Hr. unfold touch_row. destruct (menus_opened r !! k) as [menu|] eqn:Em; [|done]. destruct (Items menu !! row) as [item|] eqn:Ei; [|done].
  destruct (item_Activate item) as [act|] eqn:Ea; [|done]. apply list_elem_of_lookup_2, menus_opened_act in Em as (n & a & En & Hc).
  destruct Hc as [(i & st & ->)|(st & ->)].
  - apply (run_program_keeps confirmed (fun o => o <> CallRunFinish)); [constructor; [done|intros; by apply log_confirmed|intros; by eapply OpenFrom_confirmed]|done| |done].
    rewrite Forall_lookup in Hall. destruct (Hall n _ En) as (_ & s & Es & _ & id & st' & Eb).
    specialize (Hp s id st menu st' (proj1 (list_elem_of_In _ _) (list_elem_of_lookup_2 _ _ _ Es)) Eb). rewrite List.Forall_forall in Hp. eapply Hp; [|done].
    by eapply list_elem_of_In, list_elem_of_lookup_2.
  - apply (run_program_keeps (fun r => confirmed r /\ summarised r (length (acts r))) (fun _ => True)).
    + constructor; [done| |].
      * intros r0 [Hc Hd]. split; [by apply log_confirmed|]. eapply summarised_appends; [by eexists|done].
      * intros r0 [Hc Hd]. split; [by eapply OpenFrom_confirmed|]. eapply summarised_appends; [apply OpenFrom_appends|done].
    + intros r0 _ [Hc Hd]. split; [by apply RunFinish_confirmed|]. eapply summarised_appends; [|done]. unfold Flow.RunFinish.
      destruct (error_of (State r0)); [by eexists|]. destruct (_finish fl); by eexists.
    + by apply asks_anything.
    + split; [done|]. exists n, st, menu. split; [by eapply lookup_lt_Some|done].
Qed.

Lemma run_confirmed summary hs : Summary (_confirm fl) = Some summary -> private -> forall r, List.Forall allowed (acts r) -> confirmed r -> confirmed (run hs r).
Proof using.
  intros Hs Hp. induction hs as [|h hs IH]; intros r Hall Hr; [done|]. cbn [Flow.run fold_left]. apply IH.
  - apply (run_keeps all_allowed [h]); [apply allowed_kept|intros; by apply RunFinish_allowed|intros _ r0; apply OpenFrom_allowed|done].
  - destruct h as [|k row typed|f]; cbn [on_happening]; [by eapply OpenFrom_confirmed|by eapply touch_confirmed|done].
Qed.
End Facts.

(** ** The wizard a flow is *)

(** A question asks for a duration or one of some options; a wizard asks those that apply in order, and then confirms. *)
Section Wizard.
Context {TState : Type} (Translate : Z -> text -> text -> text).

Inductive Question := QDuration (step : DurationStep TState) | QOptions (step : OptionsStep TState).

Definition AddQuestion (fl : Flow TState) (q : Question) : Flow TState := match q with QDuration d => AddDurationStep fl d | QOptions o => AddOptionsStep fl o end.

Definition flow_of (slot : Z) (qs : list Question) check spec finish : Flow TState :=
  Finish (Confirm (Validate (fold_left AddQuestion qs (Create slot)) check) spec) finish.

(** The row picked, and the line typed where it asks for one. *)
Definition Answer : Type := nat * option text.

(** What an answer writes, where it is one: a duration the presets list or that is typed, an option or any text. *)
Definition answer_to (q : Question) (a : Answer) : option (TState -> TState) :=
  let write (set : option (TState -> TState)) := Some (match set with Some f => f | None => id end) in
  match q with
  | QDuration d =>
      match D_Presets d !! a.1, a.2 with
      | Some (_, seconds), _ => write (option_map (fun set => set seconds) (D_Set d))
      | None, Some line =>
          if decide (a.1 = length (D_Presets d) /\ D_CustomLabel d <> []) then
            if (Z.of_nat (length line) <=? default_max_input) && (0 <=? ParseDuration line) then write (option_map (fun set => set (ParseDuration line)) (D_Set d)) else None
          else None
      | None, None => None
      end
  | QOptions o =>
      match O_Options o !! a.1, a.2 with
      | Some (label, value), _ => write (option_map (fun set => set label value) (O_Set o))
      | None, Some line =>
          if decide (a.1 = length (O_Options o) /\ O_CustomLabel o <> [] /\ Trim line <> [] /\ Z.of_nat (length line) <= default_max_length) then
            write (option_map (fun set => set (Trim line) (match O_CustomValue o with [] => Trim line | v => v end)) (O_Set o))
          else None
      | None, None => None
      end
  end.

Inductive Ending := Ended (error : option text) | Cancelled.
Inductive Wizard := Asking (q : Question) (rest : list Question) (st : TState) | Confirming (st : TState) | Over (e : Ending) (st : TState).

Definition question_applies (q : Question) (st : TState) : bool :=
  match match q with QDuration d => D_Applies d | QOptions o => O_Applies o end with Some check => check st | None => true end.

Fixpoint first_question (qs : list Question) (st : TState) : option (Question * list Question) :=
  match qs with [] => None | q :: rest => if question_applies q st then Some (q, rest) else first_question rest st end.

Context (check : option (TState -> option text)) (spec : ConfirmSpec TState) (finish : option (TState -> TState)).

Definition check_of (st : TState) : option text := match check with Some c => c st | None => None end.
Definition finish_of (st : TState) : TState := match finish with Some f => f st | None => st end.

Definition wizard_end (st : TState) : Wizard :=
  match check_of st with Some error => Over (Ended (Some error)) st | None => Over (Ended None) (finish_of st) end.

Definition wizard_ask (qs : list Question) (st : TState) : Wizard :=
  match check_of st, first_question qs st, Summary spec with
  | Some error, _, _ => Over (Ended (Some error)) st
  | None, Some (q, rest), _ => Asking q rest st
  | None, None, Some _ => Confirming st
  | None, None, None => wizard_end st
  end.

(** The confirm row is after the summary's lines, the cancel row after it. *)
Definition wizard_answer (w : Wizard) (a : Answer) : Wizard :=
  match w with
  | Asking q rest st => match answer_to q a with Some f => wizard_ask rest (f st) | None => w end
  | Confirming st =>
      let lines := match Summary spec with Some summary => length (summary st []) | None => O end in
      if decide (a.1 = lines) then wizard_end st else if decide (a.1 = S lines) then Over Cancelled st else w
  | Over _ _ => w
  end.
End Wizard.

Section Refinement.
Context {TState : Type} (Translate : Z -> text -> text -> text).

Lemma fold_rows {W A} (add : MenuBuilder (W := W) -> A -> MenuBuilder (W := W)) (row : A -> ItemOf W) (xs : list A) :
  (forall b x, add b x = Add b (row x)) ->
  forall b, fold_left add xs b = mkBuilder (_title b) (_subtitle b) (_items b ++ map row xs) (_emptyText b).
Proof using. intros Ha. induction xs as [|x xs IH]; intros b; cbn; [destruct b; by rewrite app_nil_r|]. rewrite IH, Ha. cbn. by rewrite <- app_assoc. Qed.

Lemma Build_plain {W} (b : MenuBuilder (W := W)) id : _emptyText b = [] -> Items (Build b id) = _items b.
Proof using. destruct b as [t s [|x xs] e]; cbn; by intros ->. Qed.

Definition menu_of (q : Question) (id : Z) : MenuOf (list (op TState)) :=
  match q with QDuration d => BuildDurationMenu (duration_menu d) id | QOptions o => BuildOptionsMenu o id end.

Definition step_of (q : Question) : Step TState :=
  match q with
  | QDuration d => mkStep (fun id st => (Some (menu_of (QDuration d) id), st)) (D_Applies d)
  | QOptions o => mkStep (fun id st => (Some (menu_of (QOptions o) id), st)) (O_Applies o)
  end.

Definition preset_row (d : DurationStep TState) (x : text * Z) : ItemOf (list (op TState)) :=
  Button_ToItem (mkButton x.1 (Some (fun _ => request (pick_duration d x.2))) always).
Definition option_row (o : OptionsStep TState) (x : text * text) : ItemOf (list (op TState)) :=
  Button_ToItem (mkButton x.1 (Some (fun _ => request (pick_option o x.1 x.2))) always).
Definition typed_row (label prompt : text) (set : text -> program (list (op TState))) (max : Z) : list (ItemOf (list (op TState))) :=
  match label with [] => [] | _ => [Input_ToItem (mkInput label prompt None (Some (fun _ => set)) max always)] end.

Lemma duration_items d id :
  Items (menu_of (QDuration d) id) =
  map (preset_row d) (D_Presets d) ++ typed_row (D_CustomLabel d) (D_CustomPrompt d) (type_duration (Pick (duration_menu d)) 0) default_max_input.
Proof using.
  cbn [menu_of]. unfold BuildDurationMenu. rewrite (fold_rows _ (preset_row d)) by (by intros b [label seconds]). cbn [MenuBuilder.CustomLabel duration_menu].
  unfold typed_row. destruct (D_CustomLabel d); rewrite Build_plain by done; cbn; [by rewrite app_nil_r|done].
Qed.

Lemma options_items o id :
  Items (menu_of (QOptions o) id) = map (option_row o) (O_Options o) ++ typed_row (O_CustomLabel o) (O_CustomPrompt o) (type_option o) default_max_length.
Proof using.
  cbn [menu_of]. unfold BuildOptionsMenu, options_builder. rewrite (fold_rows _ (option_row o)) by (intros b0 [label0 value0]; reflexivity).
  unfold typed_row. destruct (O_CustomLabel o); rewrite Build_plain by done; cbn; [by rewrite app_nil_r|done].
Qed.

Context (fl : Flow TState).

(** What touching a row comes to where it asks for a write and to go on. *)
Definition answered (f : option (TState -> TState)) (r : Running TState) : Running TState :=
  match f with Some f => Advance Translate fl (set_State (f (State r)) r) | None => r end.

Lemma perform_answer (set : option (TState -> TState)) r :
  perform_all Translate fl (write_by set ++ [CallAdvance]) r = answered (Some match set with Some f => f | None => id end) r.
Proof using. destruct set; [done|]. by destruct r. Qed.

Lemma touch_question q id (a : Answer) r :
  touch_row Translate fl (Some (menu_of q id)) a.1 a.2 r = answered (answer_to q a) r.
Proof using.
  destruct a as [n typed]. unfold touch_row. destruct q as [d|o]; [rewrite duration_items|rewrite options_items]; cbn [fst snd answer_to].
  - destruct (D_Presets d !! n) as [[label seconds]|] eqn:E.
    + rewrite lookup_app_l by (rewrite length_map; by eapply lookup_lt_Some). rewrite list_lookup_fmap, E. cbn. apply perform_answer.
    + apply lookup_ge_None in E. rewrite lookup_app_r, length_map by (by rewrite length_map). unfold typed_row.
      destruct (D_CustomLabel d) as [|c l] eqn:El; [rewrite lookup_nil; destruct typed; [|done]; by rewrite decide_False by naive_solver|].
      destruct (decide (n = length (D_Presets d))) as [->|Hn].
      * rewrite Nat.sub_diag. cbn. destruct typed as [line|]; [|done]. rewrite decide_True by done. unfold accept_input, default_max_input. cbn [MaxLength].
        rewrite Z.leb_antisym. destruct (32 <? Z.of_nat (length line)); [done|]. cbn. unfold type_duration. rewrite Z.leb_antisym.
        destruct (ParseDuration line <? 0); [done|]. cbn. apply perform_answer.
      * destruct (n - length (D_Presets d))%nat eqn:En; [lia|]. cbn. destruct typed; [|done]. by rewrite decide_False by naive_solver.
  - destruct (O_Options o !! n) as [[label value]|] eqn:E.
    + rewrite lookup_app_l by (rewrite length_map; by eapply lookup_lt_Some). rewrite list_lookup_fmap, E. cbn. apply perform_answer.
    + apply lookup_ge_None in E. rewrite lookup_app_r, length_map by (by rewrite length_map). unfold typed_row.
      destruct (O_CustomLabel o) as [|c l] eqn:El; [rewrite lookup_nil; destruct typed; [|done]; by rewrite decide_False by naive_solver|].
      destruct (decide (n = length (O_Options o))) as [->|Hn].
      * rewrite Nat.sub_diag. cbn. destruct typed as [line|]; [|done]. unfold accept_input, default_max_length. cbn [MaxLength].
        destruct (Z.ltb_spec 64 (Z.of_nat (length line))); [by rewrite decide_False by (intros (_ & _ & _ & H'); lia)|]. cbn. unfold type_option.
        destruct (Trim line) as [|t ts] eqn:Et; [by rewrite decide_False by naive_solver|]. rewrite decide_True by done. cbn. apply perform_answer.
      * destruct (n - length (O_Options o))%nat eqn:En; [lia|]. cbn. destruct typed; [|done]. by rewrite decide_False by naive_solver.
Qed.

Lemma summary_items summary st id :
  exists confirm cancel, let items := Items (BuildSummary Translate fl summary st id) in
    items = map Text_ToItem (Take (summary st [])) ++ [confirm; cancel] /\
    (exists act, item_Activate confirm = Some act /\ forall typed r, run_program Translate fl typed (act (_slot fl)) r = RunFinish fl r) /\
    (exists act, item_Activate cancel = Some act /\ forall typed r, run_program Translate fl typed (act (_slot fl)) r = log OnClosed r).
Proof using.
  unfold BuildSummary, BuildConfirmMenu. rewrite (fold_rows _ Text_ToItem) by done. cbn [Lines summary_spec]. eexists _, _. rewrite Build_plain by done. cbn. split_and!.
  - by rewrite <- app_assoc.
  - eexists. split; [done|]. done.
  - eexists. split; [done|]. done.
Qed.

Lemma touch_summary summary st id (a : Answer) r :
  touch_row Translate fl (Some (BuildSummary Translate fl summary st id)) a.1 a.2 r =
  if decide (a.1 = length (summary st [])) then RunFinish fl r else if decide (a.1 = S (length (summary st []))) then log OnClosed r else r.
Proof using.
  destruct a as [n typed]. cbn [fst snd]. unfold touch_row. destruct (summary_items summary st id) as (confirm & cancel & -> & (act & Ea & Hact) & (act' & Ea' & Hact')).
  assert (length (map (Text_ToItem (W := list (op TState))) (Take (summary st []))) = length (summary st [])) as Hn by (unfold Take; by rewrite !length_map).
  set (lines := map Text_ToItem _) in *. set (m := length (summary st [])) in *. destruct (lookup_lt_is_Some lines n) as [_ Hlt].
  destruct (decide (n < m)%nat) as [Hl|Hl].
  - rewrite decide_False, decide_False by lia. rewrite lookup_app_l by lia. unfold lines. rewrite list_lookup_fmap. by destruct (Take _ !! n).
  - rewrite lookup_app_r by lia. rewrite Hn. case_decide as H1; [subst n; rewrite Nat.sub_diag; cbn [lookup list_lookup]; by rewrite Ea|].
    case_decide as H2; [subst n; replace (S m - m)%nat with 1%nat by lia; cbn; by rewrite Ea'|].
    destruct (n - m)%nat as [|[|k]] eqn:En; [lia..|]. done.
Qed.
End Refinement.

(** *** The machine shows what the wizard asks *)

Section Simulation.
Context {TState : Type} (Translate : Z -> text -> text -> text) (slot : Z) (qs : list (Question (TState := TState))).
Context (check : option (TState -> option text)) (spec : ConfirmSpec TState) (finish : option (TState -> TState)).
Abbreviation fl := (flow_of slot qs check spec finish).

Lemma flow_of_members : _steps fl = map step_of qs /\ _slot fl = slot /\ _validate fl = check /\ _confirm fl = spec /\ _finish fl = finish.
Proof using.
  assert (forall f0 : Flow TState, _steps (fold_left AddQuestion qs f0) = _steps f0 ++ map step_of qs /\ _slot (fold_left AddQuestion qs f0) = _slot f0) as H.
  { induction qs as [|q qs' IH]; intros f0; cbn; [by rewrite app_nil_r|]. destruct (IH (AddQuestion f0 q)) as [-> ->]. destruct q; cbn; by rewrite <- app_assoc. }
  destruct (H (Create slot)) as [Hs Hl]. done.
Qed.

(** The library's own steps keep to the flow's public functions. *)
Lemma write_private (set : option (TState -> TState)) : List.Forall (fun o => o <> CallRunFinish) (write_by set ++ [CallAdvance]).
Proof using. destruct set; by repeat constructor. Qed.

Ltac all_private := cbn; repeat first [exact I | apply write_private | apply List.Forall_nil | match goal with |- _ /\ _ => split end].

Lemma questions_private : private fl.
Proof using.
  intros s id st menu st' Hin Hb. destruct flow_of_members as (Hs & _). rewrite Hs in Hin. apply in_map_iff in Hin as (q & <- & _).
  assert (menu = menu_of q id) as -> by (destruct q; by injection Hb). destruct q as [d|o]; [rewrite duration_items|rewrite options_items]; apply List.Forall_app; (split; [apply List.Forall_forall; intros item Hi; apply in_map_iff in Hi as ([label x] & <- & _)|unfold typed_row]).
  - intros act [= <-]. all_private.
  - destruct (D_CustomLabel d); repeat constructor. intros act [= <-]. all_private. intros ? line. unfold accept_input. cbn [MaxLength InputSet].
    destruct (_ && _); [done|]. unfold type_duration. destruct (_ <? 0); [done|]. all_private.
  - intros act [= <-]. all_private.
  - destruct (O_CustomLabel o); repeat constructor. intros act [= <-]. all_private. intros ? line. unfold accept_input. cbn [MaxLength InputSet].
    destruct (_ && _); [done|]. unfold type_option. destruct (Trim line); [done|]. all_private.
Qed.

(** What is on the player's screen: the last menu opened, unless the flow closed it. *)
Definition current (r : Running TState) : option (MenuOf (list (op TState))) :=
  match last (acts r) with Some (OnStep _ _ m) | Some (OnSummary _ m) => Some m | _ => None end.

Definition answer (r : Running TState) (a : Answer) : Running TState := touch_row Translate fl (current r) a.1 a.2 r.

Inductive shows (r : Running TState) : Wizard (TState := TState) -> Prop :=
| shows_question i q id st : last (acts r) = Some (OnStep i st (menu_of q id)) -> _stepIndex r = i -> qs !! i = Some q ->
    shows r (Asking q (drop (S i) qs) (State r))
| shows_summary summary id : Summary spec = Some summary -> last (acts r) = Some (OnSummary (State r) (BuildSummary Translate fl summary (State r) id)) ->
    shows r (Confirming (State r))
| shows_error error : last (acts r) = Some (OnAborted error (State r)) -> shows r (Over (Ended (Some error)) (State r))
| shows_finish st : last (acts r) = Some (OnFinished st) -> shows r (Over (Ended None) (State r))
| shows_closed : last (acts r) = Some OnClosed -> shows r (Over Cancelled (State r)).

Lemma error_of_check st : error_of fl st = check_of check st.
Proof using. unfold error_of. destruct flow_of_members as (_ & _ & -> & _ & _). done. Qed.

Lemma RunFinish_shows r : shows (RunFinish fl r) (wizard_end check finish (State r)).
Proof using.
  unfold RunFinish, wizard_end. rewrite error_of_check. destruct flow_of_members as (_ & _ & _ & _ & ->). destruct (check_of check (State r)).
  - apply (shows_error (log _ r)). cbn. by rewrite last_snoc.
  - unfold finish_of. destruct finish; [apply (shows_finish (set_State _ (log _ r)) (State r))|apply (shows_finish (log _ r) (State r))]; cbn; by rewrite last_snoc.
Qed.

Lemma first_question_spec l i (r : Running TState) :
  match first_question l (State r) with
  | Some (q, rest) => exists j, l !! j = Some q /\ rest = drop (S j) l /\ open_first i (map step_of l) r = Some (enter (i + j) (step_of q) r)
  | None => open_first i (map step_of l) r = None
  end.
Proof using.
  revert i. induction l as [|q l IH]; intros i; cbn [first_question map open_first]; [done|].
  assert (applies (step_of q) (State r) = question_applies q (State r)) as -> by by destruct q. destruct (question_applies q (State r)).
  - exists O. by rewrite Nat.add_0_r.
  - specialize (IH (S i)). destruct (first_question l (State r)) as [[q' rest]|]; [|done]. destruct IH as (j & E & -> & ->). exists (S j). by rewrite Nat.add_succ_r.
Qed.

Lemma OpenFrom_shows from r : shows (OpenFrom Translate fl from r) (wizard_ask check spec finish (drop from qs) (State r)).
Proof using.
  unfold OpenFrom, wizard_ask. rewrite error_of_check. destruct (check_of check (State r)) as [e|]; [apply (shows_error (log _ r)); cbn; by rewrite last_snoc|].
  pose proof (first_question_spec (drop from qs) from r) as H. destruct flow_of_members as (-> & _ & _ & -> & _). rewrite skipn_map.
  destruct (first_question (drop from qs) (State r)) as [[q rest]|].
  - destruct H as (j & E & -> & ->). rewrite drop_drop. rewrite lookup_drop in E. replace (from + S j)%nat with (S (from + j)) by lia.
    assert (enter (from + j) (step_of q) r = mkRunning (State r) (from + j) (acts r ++ [OnStep (from + j) (State r) (menu_of q (fresh r))])) as -> by by destruct q.
    set (r' := mkRunning _ _ _). change (State r) with (State r'). eapply shows_question; [|done|done]. cbn. by rewrite last_snoc.
  - rewrite H. destruct (Summary spec) as [summary|] eqn:Es.
    + set (r' := log _ r). change (State r) with (State r'). eapply shows_summary; [done|]. cbn. by rewrite last_snoc.
    + apply RunFinish_shows.
Qed.

Lemma answer_shows r w a : shows r w -> shows (answer r a) (wizard_answer check spec finish w a).
Proof using.
  intros H. unfold answer, current. destruct H as [i q id st El Ei Eq|summary id Es El|error El|st El|El]; rewrite El; cbn [wizard_answer]; try by econstructor.
  - rewrite touch_question. unfold answered. destruct (answer_to q a) as [f|]; [|by econstructor].
    unfold Advance. cbn [_stepIndex set_State]. rewrite Ei. apply (OpenFrom_shows (S i) (set_State (f (State r)) r)).
  - rewrite touch_summary, Es. case_decide; [apply RunFinish_shows|]. case_decide; [|by econstructor].
    apply (shows_closed (log OnClosed r)). cbn. by rewrite last_snoc.
Qed.
End Simulation.


(** Whatever the rows of the menus a flow opened are made to do, in whatever order and however the program changes the state
    meanwhile: what the flow did, it did on a state that passes the check. A step opened is one of the flow's that applies to the
    state, its menu the one the step built; the summary is of the state; the flow finishes only with a state that passes, and
    closes with an error only on a state that has it. *)
Theorem flow_guarded {TState} Translate (fl : Flow TState) initial hs :
  List.Forall (allowed Translate fl) (acts (run Translate fl hs (start initial))).
Proof. apply run_keeps; [apply allowed_kept|intros; by apply RunFinish_allowed|intros _ r; apply OpenFrom_allowed|constructor]. Qed.

(** A flow that was begun opens its steps forward: the numbers of the steps opened go up, so none is opened twice and there
    are at most as many menus as steps, whatever rows are touched and in what order. A row of an earlier menu, touched after the
    player went back, does not open the step after that menu's. *)
Theorem steps_open_once {TState} Translate (fl : Flow TState) initial hs :
  ~ In Began hs ->
  let r := run Translate fl (Began :: hs) (start initial) in
  StronglySorted lt (opened r) /\ (length (opened r) <= length (_steps fl))%nat.
Proof.
  intros Hb r. assert (forward fl r) as [Hs Hl].
  { unfold r. cbn [run fold_left]. apply (run_keeps Translate fl (forward fl) hs); [apply forward_kept|intros; by apply RunFinish_forward|done|].
    apply OpenFrom_forward; [done|]. split; constructor. }
  split; [done|]. apply sorted_below; [done|]. eapply List.Forall_impl; [|exact Hl]. by intros i [_ Hi].
Qed.

(** A flow that shows a summary finishes only after it showed one, where the rows of its custom steps keep to the flow's
    public functions. *)
Theorem finish_confirmed {TState} Translate (fl : Flow TState) summary initial hs k st :
  Summary (_confirm fl) = Some summary -> private fl ->
  acts (run Translate fl hs (start initial)) !! k = Some (OnFinished st) ->
  exists j st' menu, (j < k)%nat /\ acts (run Translate fl hs (start initial)) !! j = Some (OnSummary st' menu).
Proof. intros Hs Hp. eapply run_confirmed; [done..|constructor|]. intros k' st' E. by destruct k'. Qed.

(** C31. A flow of duration and options steps is the wizard over the same questions: begun, and answered row by row on whatever
    menu is on the screen, it shows at every moment the question the wizard asks, or its summary, or has ended as it has, with the
    same state. The wizard asks the questions that apply in order, each over the answers before it, asks again where the answer is
    not one, checks before each question and again before finishing, and finishes only from the confirm row where there is one. *)
Theorem flow_is_wizard {TState} Translate slot (qs : list (Question (TState := TState))) check spec finish initial answers :
  shows Translate slot qs check spec finish
    (fold_left (answer Translate slot qs check spec finish) answers (Begin Translate (flow_of slot qs check spec finish) (start initial)))
    (fold_left (wizard_answer check spec finish) answers (wizard_ask check spec finish qs initial)).
Proof.
  enough (forall r w, shows Translate slot qs check spec finish r w ->
    shows Translate slot qs check spec finish (fold_left (answer Translate slot qs check spec finish) answers r) (fold_left (wizard_answer check spec finish) answers w)) as H.
  { apply H. exact (OpenFrom_shows Translate slot qs check spec finish 0 (start initial)). }
  induction answers as [|a answers IH]; intros r w Hr; [done|]. by apply IH, answer_shows.
Qed.

Module Punish.
Definition St : Type := option Z * option text.
Definition duration : DurationStep St :=
  mkDurationStep $"For how long" [($"5 minutes", 300); ($"1 hour", 3600)] (Some (fun seconds st => (Some seconds, st.2))) $"Other" $"Type a time" None.
Definition reason : OptionsStep St :=
  mkOptionsStep $"Why" [($"Spam", $"spam"); ($"Abuse", $"abuse")] (Some (fun _ value st => (st.1, Some value))) [] [] [] None.
Definition spec : ConfirmSpec St := mkConfirmSpec $"Sure?" (Some (fun _ rows => Summary_Add rows $"Reason" $"...")) [] [].
Definition translate (_ : Z) (_ fallback : text) : text := fallback.
Definition flow : Flow St := flow_of 3 [QDuration duration; QOptions reason] None spec None.
Definition unconfirmed : Flow St := flow_of 3 [QDuration duration; QOptions reason] None (mkConfirmSpec [] None [] []) None.
Definition happened (a : Act St) : option nat + St :=
  match a with OnStep i _ _ | OnStepFailed i _ => inl (Some i) | OnFinished st => inr st | _ => inl None end.
End Punish.

(** A player asked why goes back and picks another duration: the flow finishes, and why was not asked. *)
Lemma earlier_menu_skips :
  map Punish.happened (acts (run Punish.translate Punish.unconfirmed [Began; Touch 0 0 None; Touch 0 1 None] (start (None, None)))) =
  [inl (Some 0%nat); inl (Some 1%nat); inr (Some 3600, None)].
Proof. vm_compute. reflexivity. Qed.

Lemma steps_open_once_witness :
  let r := run Punish.translate Punish.unconfirmed [Began; Touch 0 2 (Some $"2h"); Touch 0 1 None] (start (None, None)) in
  StronglySorted lt (opened r) /\ opened r = [0; 1]%nat.
Proof.
  intros r. destruct (steps_open_once Punish.translate Punish.unconfirmed (None, None) [Touch 0 2 (Some $"2h"); Touch 0 1 None]) as [Hs _].
  - intros [H|[H|[]]]; discriminate.
  - split; [exact Hs|]. vm_compute. reflexivity.
Defined.

Lemma finish_confirmed_witness :
  let r := run Punish.translate Punish.flow [Began; Touch 0 0 None; Touch 1 1 None; Touch 2 1 None] (start (None, None)) in
  map Punish.happened (acts r) = [inl (Some 0%nat); inl (Some 1%nat); inl None; inr (Some 300, Some $"abuse")] /\
  exists j st' menu, (j < 3)%nat /\ acts r !! j = Some (OnSummary st' menu).
Proof.
  intros r. split; [vm_compute; reflexivity|].
  apply (finish_confirmed Punish.translate Punish.flow (fun _ rows => Summary_Add rows $"Reason" $"...") (None, None) [Began; Touch 0 0 None; Touch 1 1 None; Touch 2 1 None] 3 (Some 300, Some $"abuse")).
  - reflexivity.
  - apply questions_private.
  - vm_compute. reflexivity.
Defined.
