(* ===== verification/MenuRouter.v ===== *)
(** * Choosing a surface: [src/Menu/MenuRouter.cpp]

    [runtime.Menus] hands each player's session to one of several surfaces. What the router relies on a surface for is
    [SurfaceLaws]; which surface is preferred changes as plugins ask for it. *)

From S2P Require Import Prelude Text MenuStack.

(** ** A surface *)

(** What a surface's functions do to its state [S]; [M] is a menu, [C] what a prompt calls back. *)
Class Surface (S M C : Type) := {
  s_OpenSession : Z -> option M -> MenuOptions -> S -> bool * S;
  s_Open : Z -> option M -> S -> S;
  s_IsOpen : Z -> S -> bool;
  s_Close : Z -> S -> S;
  s_CloseAll : Z -> S -> S;
  s_CloseAllReply : Z -> text -> S -> S;
  s_Prompt : Z -> text -> C -> S -> S;
  s_Translate : Z -> text -> text -> S -> text }.

(** A surface's calls for a player leave the others' sessions; closing all of a session ends it, only opening one begins it, and
    opening answers whether it did. *)
Class SurfaceLaws (S M C : Type) {surface : Surface S M C} := {
  open_session_open : forall slot menu options s, s_IsOpen slot (s_OpenSession slot menu options s).2 = true -> s_IsOpen slot s = true \/ (s_OpenSession slot menu options s).1 = true;
  close_all_closes : forall slot s, s_IsOpen slot (s_CloseAll slot s) = false;
  close_all_reply_closes : forall slot key s, s_IsOpen slot (s_CloseAllReply slot key s) = false;
  close_opens_none : forall slot s, s_IsOpen slot s = false -> s_IsOpen slot (s_Close slot s) = false;
  prompt_opens_none : forall slot text callback s, s_IsOpen slot s = false -> s_IsOpen slot (s_Prompt slot text callback s) = false;
  others_kept : forall slot slot' s, slot <> slot' ->
    (forall menu options, s_IsOpen slot' (s_OpenSession slot menu options s).2 = s_IsOpen slot' s) /\ (forall menu, s_IsOpen slot' (s_Open slot menu s) = s_IsOpen slot' s) /\
    s_IsOpen slot' (s_Close slot s) = s_IsOpen slot' s /\ s_IsOpen slot' (s_CloseAll slot s) = s_IsOpen slot' s /\
    (forall key, s_IsOpen slot' (s_CloseAllReply slot key s) = s_IsOpen slot' s) /\
    (forall prompt callback, s_IsOpen slot' (s_Prompt slot prompt callback s) = s_IsOpen slot' s) }.

Section Router.
Context {S M C : Type} {surface : Surface S M C}.

(** The surfaces there are, by number; the fallback is [0]. *)
Record Router := mkRouter { surfaces : nat -> S; _preferred : option nat }.

Definition fallback : nat := 0%nat.

Definition on_surface (n : nat) (f : S -> S) (r : Router) : Router :=
  mkRouter (fun k => if decide (k = n) then f (surfaces r k) else surfaces r k) (_preferred r).

Definition is_open_on (n : nat) (slot : Z) (r : Router) : bool := s_IsOpen slot (surfaces r n).

Definition Prefer (n : nat) (r : Router) : Router := mkRouter (surfaces r) (Some n).

(** What dropping the subscription of [Prefer n] does. *)
Definition unprefer (n : nat) (r : Router) : Router :=
  if decide (_preferred r = Some n) then mkRouter (surfaces r) None else r.

Definition IsOpen (slot : Z) (r : Router) : bool :=
  match _preferred r with Some p => is_open_on p slot r | None => false end || is_open_on fallback slot r.

Definition SessionOf (slot : Z) (r : Router) : nat :=
  match _preferred r with Some p => if is_open_on p slot r then p else fallback | None => fallback end.

Definition open_session_on (n : nat) (slot : Z) (menu : option M) (options : MenuOptions) (r : Router) : bool * Router :=
  ((s_OpenSession slot menu options (surfaces r n)).1, on_surface n (fun s => (s_OpenSession slot menu options s).2) r).

Definition OpenSession (slot : Z) (menu : option M) (options : MenuOptions) (r : Router) : bool * Router :=
  let r := match _preferred r with Some p => on_surface p (s_CloseAll slot) r | None => r end in
  let r := on_surface fallback (s_CloseAll slot) r in
  match _preferred r with
  | Some p =>
      let (opened, r) := open_session_on p slot menu options r in
      if opened then (true, r) else open_session_on fallback slot menu options r
  | None => open_session_on fallback slot menu options r
  end.

Definition Open (slot : Z) (menu : option M) (r : Router) : Router :=
  if IsOpen slot r then on_surface (SessionOf slot r) (s_Open slot menu) r else (OpenSession slot menu default_options r).2.

Definition Close (slot : Z) (r : Router) : Router := on_surface (SessionOf slot r) (s_Close slot) r.
Definition CloseAll (slot : Z) (r : Router) : Router := on_surface (SessionOf slot r) (s_CloseAll slot) r.
Definition CloseAllReply (slot : Z) (key : text) (r : Router) : Router := on_surface (SessionOf slot r) (s_CloseAllReply slot key) r.
Definition Prompt (slot : Z) (prompt : text) (callback : C) (r : Router) : Router := on_surface (SessionOf slot r) (s_Prompt slot prompt callback) r.
Definition Translate (slot : Z) (key fallback_ : text) (r : Router) : text := s_Translate slot key fallback_ (surfaces r (SessionOf slot r)).

(** What a row, a flow or a plugin asks of the router; [own] is what a surface does by itself, such as a key pressed. *)
Inductive ask :=
| AskOpenSession (slot : Z) (menu : option M) (options : MenuOptions)
| AskOpen (slot : Z) (menu : option M)
| AskClose (slot : Z)
| AskCloseAll (slot : Z)
| AskCloseAllReply (slot : Z) (key : text)
| AskPrompt (slot : Z) (prompt : text) (callback : C).

Definition on_ask (r : Router) (a : ask) : Router :=
  match a with
  | AskOpenSession slot menu options => (OpenSession slot menu options r).2
  | AskOpen slot menu => Open slot menu r
  | AskClose slot => Close slot r
  | AskCloseAll slot => CloseAll slot r
  | AskCloseAllReply slot key => CloseAllReply slot key r
  | AskPrompt slot prompt callback => Prompt slot prompt callback r
  end.

(** ** One session per player *)

Context {laws : SurfaceLaws S M C}.

(** At most one surface has a session of the player's, and it is one the router looks at. *)
Definition one_session (slot : Z) (r : Router) : Prop :=
  forall n, is_open_on n slot r = true -> SessionOf slot r = n.

Lemma is_open_on_surface n f k slot r : is_open_on k slot (on_surface n f r) = if decide (k = n) then s_IsOpen slot (f (surfaces r k)) else is_open_on k slot r.
Proof using. unfold is_open_on, on_surface. cbn. by case_decide. Qed.

(** A change to the session's own surface that begins no session elsewhere. *)
Lemma one_session_change slot r f :
  one_session slot r -> (s_IsOpen slot (surfaces r (SessionOf slot r)) = false -> s_IsOpen slot (f (surfaces r (SessionOf slot r))) = false) ->
  one_session slot (on_surface (SessionOf slot r) f r).
Proof using.
  intros H Hf n. rewrite is_open_on_surface. case_decide as Hn; intros Ho.
  - subst n. destruct (s_IsOpen slot (surfaces r (SessionOf slot r))) eqn:E; [|by rewrite Hf in Ho]. unfold SessionOf at 1. cbn [_preferred on_surface].
    unfold SessionOf in *. destruct (_preferred r) as [p|]; [|done]. rewrite is_open_on_surface. destruct (is_open_on p slot r) eqn:Ep.
    + case_decide; [by rewrite Ho|done].
    + unfold is_open_on in *. case_decide as Hp; [subst p; congruence|done].
  - rewrite (H n Ho) in Hn. done.
Qed.

Lemma one_session_elsewhere (slot' : Z) (r : Router) n f :
  (s_IsOpen slot' (f (surfaces r n)) = s_IsOpen slot' (surfaces r n)) -> one_session slot' r -> one_session slot' (on_surface n f r).
Proof using.
  intros Hf H. assert (forall k, is_open_on k slot' (on_surface n f r) = is_open_on k slot' r) as E.
  { intros k. rewrite is_open_on_surface. case_decide; [by subst|done]. }
  intros k. rewrite E. intros Hk. unfold SessionOf. cbn [_preferred on_surface]. specialize (H k Hk). unfold SessionOf in H.
  destruct (_preferred r); [by rewrite E|done].
Qed.

Definition none_open (slot : Z) (r : Router) : Prop := forall n, is_open_on n slot r = false.

Lemma none_open_one slot (r : Router) : none_open slot r -> one_session slot r.
Proof using. intros H n Hn. by rewrite H in Hn. Qed.

Lemma open_session_on_one n slot menu options r :
  none_open slot r -> _preferred r = Some n \/ n = fallback ->
  one_session slot (open_session_on n slot menu options r).2 /\
  ((open_session_on n slot menu options r).1 = false -> none_open slot (open_session_on n slot menu options r).2).
Proof using laws.
  intros H Hn. unfold open_session_on. cbn [fst snd]. set (r' := on_surface n _ r).
  assert (forall k, k <> n -> is_open_on k slot r' = false) as Hk by (intros k Hk; unfold r'; rewrite is_open_on_surface, decide_False by done; apply H).
  split.
  - intros k Ho. destruct (decide (k = n)) as [->|Hne]; [|by rewrite Hk in Ho]. unfold SessionOf. change (_preferred r') with (_preferred r).
    destruct Hn as [->| ->]; [by rewrite Ho|]. destruct (_preferred r) as [p|]; [|done]. destruct (decide (p = fallback)) as [->|Hp]; [by rewrite Ho|by rewrite Hk].
  - intros E k. destruct (decide (k = n)) as [->|Hne]; [|by apply Hk]. unfold r'. rewrite is_open_on_surface, decide_True by done.
    destruct (s_IsOpen slot _) eqn:Eo; [|done]. apply open_session_open in Eo as [Eo|Eo]; [|congruence]. specialize (H n). unfold is_open_on in H. congruence.
Qed.

Lemma closed_none slot r :
  one_session slot r -> none_open slot (on_surface fallback (s_CloseAll slot) match _preferred r with Some p => on_surface p (s_CloseAll slot) r | None => r end).
Proof using laws.
  intros H n. rewrite is_open_on_surface. case_decide as Hn; [apply close_all_closes|].
  destruct (is_open_on n slot r) eqn:E.
  - apply H in E. unfold SessionOf in E. destruct (_preferred r) as [p|]; [|congruence]. destruct (is_open_on p slot r); [|congruence]. subst p.
    rewrite is_open_on_surface. rewrite decide_True by done. apply close_all_closes.
  - destruct (_preferred r) as [p|]; [|done]. rewrite is_open_on_surface. case_decide; [apply close_all_closes|done].
Qed.

Lemma OpenSession_one slot menu options r : one_session slot r -> one_session slot (OpenSession slot menu options r).2.
Proof using laws.
  intros H. apply closed_none in H. unfold OpenSession. set (r1 := on_surface fallback _ _) in *. assert (_preferred r1 = _preferred r) as Hp by (unfold r1; by destruct (_preferred r) eqn:E).
  rewrite Hp. destruct (_preferred r) as [p|] eqn:Er.
  - destruct (open_session_on_one p slot menu options r1 H (or_introl Hp)) as [H1 H2]. destruct (open_session_on p slot menu options r1) as [[|] r2]; [exact H1|].
    apply open_session_on_one; [by apply H2|by right].
  - apply open_session_on_one; [done|by right].
Qed.

Lemma IsOpen_session slot r : IsOpen slot r = true -> is_open_on (SessionOf slot r) slot r = true.
Proof using. unfold IsOpen, SessionOf. destruct (_preferred r) as [p|]; [|done]. by destruct (is_open_on p slot r) eqn:E. Qed.

(** The slot a call is for. *)
Definition slot_of (a : ask) : Z :=
  match a with
  | AskOpenSession slot _ _ | AskOpen slot _ | AskClose slot | AskCloseAll slot | AskCloseAllReply slot _ | AskPrompt slot _ _ => slot
  end.

Lemma on_ask_own a r : one_session (slot_of a) r -> one_session (slot_of a) (on_ask r a).
Proof using laws.
  intros H. destruct a as [slot menu options|slot menu|slot|slot|slot key|slot prompt callback]; cbn [slot_of on_ask] in *; [by apply OpenSession_one| |apply one_session_change; [done|]..].
  - unfold Open. destruct (IsOpen slot r) eqn:E; [|by apply OpenSession_one]. apply one_session_change; [done|]. apply IsOpen_session in E. unfold is_open_on in E. congruence.
  - apply close_opens_none.
  - intros _. apply close_all_closes.
  - intros _. apply close_all_reply_closes.
  - apply prompt_opens_none.
Qed.

Lemma OpenSession_others slot' slot menu options r : slot <> slot' -> one_session slot' r -> one_session slot' (OpenSession slot menu options r).2.
Proof using laws.
  intros Hne H. assert (forall n r, one_session slot' r -> one_session slot' (on_surface n (s_CloseAll slot) r)) as Hc.
  { intros n r0. apply one_session_elsewhere. by apply (others_kept slot slot' (surfaces r0 n)). }
  assert (forall n r, one_session slot' r -> one_session slot' (open_session_on n slot menu options r).2) as Ho.
  { intros n r0. apply one_session_elsewhere. by apply (others_kept slot slot' (surfaces r0 n)). }
  unfold OpenSession. set (r0 := match _preferred r with Some p => _ | None => r end).
  assert (one_session slot' r0) as H0 by (unfold r0; destruct (_preferred r); [by apply Hc|done]). apply (Hc fallback) in H0.
  destruct (_preferred (on_surface fallback (s_CloseAll slot) r0)) as [p|]; [|by apply Ho]. specialize (Ho p _ H0) as Hp.
  destruct (open_session_on p slot menu options (on_surface fallback (s_CloseAll slot) r0)) as [[|] r2]; [exact Hp|]. by apply Ho.
Qed.

Lemma on_ask_others slot' a r : slot_of a <> slot' -> one_session slot' r -> one_session slot' (on_ask r a).
Proof using laws.
  intros Hne H. pose proof (fun r => others_kept (slot_of a) slot' (surfaces r (SessionOf (slot_of a) r)) Hne) as Hk.
  destruct a; cbn [slot_of on_ask] in *; [by apply OpenSession_others| |apply one_session_elsewhere; [by apply (Hk r)|done]..].
  unfold Open. destruct (IsOpen slot r); [|by apply OpenSession_others]. apply one_session_elsewhere; [by apply (Hk r)|done].
Qed.

(** A change of a surface's own that begins no session. *)
Definition begins_none (f : S -> S) : Prop := forall slot s, s_IsOpen slot s = false -> s_IsOpen slot (f s) = false.

(** The router and its surfaces, while one surface is preferred. *)
Inductive steps_to : Router -> Router -> Prop :=
| asked r a : steps_to r (on_ask r a)
| by_itself r n f : begins_none f -> steps_to r (on_surface n f r).

Lemma by_itself_one slot r n f : begins_none f -> one_session slot r -> one_session slot (on_surface n f r).
Proof using.
  intros Hf H. destruct (decide (n = SessionOf slot r)) as [->|Hn]; [by apply one_session_change; [done|apply Hf]|].
  assert (is_open_on n slot r = false) as E by (destruct (is_open_on n slot r) eqn:E; [apply H in E; congruence|done]).
  apply one_session_elsewhere; [|done]. unfold is_open_on in E. rewrite E. by apply Hf.
Qed.
End Router.
Arguments Router : clear implicits.
Arguments ask : clear implicits.

(** While the preference stays, a player has at most one session across all surfaces, and it is on the surface every later call
    goes to: this holds when no session is open, and whatever is asked of the router for whatever player, and whatever a
    surface does by itself short of beginning a session, it holds after. *)
Theorem one_session_per_player {S M C} {surface : Surface S M C} {laws : SurfaceLaws S M C} (r r' : Router S) :
  (forall slot, none_open slot r) -> rtc steps_to r r' ->
  forall slot n, is_open_on n slot r' = true -> SessionOf slot r' = n.
Proof.
  intros H0 Hr slot. change (one_session slot r'). assert (one_session slot r) as H1 by (by apply none_open_one). clear H0.
  induction Hr as [|r r1 r' Hs _ IH]; [done|]. apply IH. destruct Hs as [r a|r n f Hf]; [|by apply by_itself_one].
  destruct (decide (slot_of a = slot)) as [<-|Hne]; [by apply on_ask_own|by apply on_ask_others].
Qed.

(** *** Surfaces that keep which players have a session *)

Module Sample.
Definition state : Type := list Z.
#[export] Instance surface : Surface state unit unit := {
  s_OpenSession := fun slot menu _ s => match menu with Some _ => (true, slot :: s) | None => (false, s) end;
  s_Open := fun _ _ s => s;
  s_IsOpen := fun slot s => bool_decide (slot ∈ s);
  s_Close := fun slot s => base.filter (fun x => x <> slot) s;
  s_CloseAll := fun slot s => base.filter (fun x => x <> slot) s;
  s_CloseAllReply := fun slot _ s => base.filter (fun x => x <> slot) s;
  s_Prompt := fun _ _ _ s => s;
  s_Translate := fun _ _ fallback _ => fallback }.

Lemma closed_elsewhere slot slot' (s : state) : slot <> slot' -> bool_decide (slot' ∈ base.filter (fun x => x <> slot) s) = bool_decide (slot' ∈ s).
Proof. intros H. apply bool_decide_ext. rewrite list_elem_of_filter. naive_solver. Qed.

#[export] Instance laws : SurfaceLaws state unit unit.
Proof.
  constructor; cbn.
  - intros slot [m|] options s; cbn; auto.
  - intros slot s. apply bool_decide_eq_false. rewrite list_elem_of_filter. naive_solver.
  - intros slot _ s. apply bool_decide_eq_false. rewrite list_elem_of_filter. naive_solver.
  - intros slot s H. apply bool_decide_eq_false in H. apply bool_decide_eq_false. rewrite list_elem_of_filter. naive_solver.
  - done.
  - intros slot slot' s Hne. split_and!; try done; try (by apply closed_elsewhere); try (intros _; by apply closed_elsewhere).
    intros [m|] options; [|done]. cbn. apply bool_decide_ext. set_solver.
Qed.

Definition empty : Router state := mkRouter (fun _ => []) None.
Definition open_on_preferred : Router state := (OpenSession 3 (Some tt) default_options (Prefer 1 empty)).2.
End Sample.
Import Sample.

Lemma one_session_per_player_witness :
  let r := Sample.open_on_preferred in
  is_open_on (M := unit) (C := unit) 1 3 r = true /\ SessionOf (M := unit) (C := unit) 3 r = 1%nat.
Proof.
  intros r. assert (is_open_on (M := unit) (C := unit) 1 3 r = true) as Ho by (vm_compute; reflexivity). split; [exact Ho|].
  apply (one_session_per_player (Prefer 1 Sample.empty) r); [intros slot n; vm_compute; reflexivity| |exact Ho].
  apply (rtc_l steps_to _ r r); [|apply rtc_refl]. exact (asked (Prefer 1 Sample.empty) (AskOpenSession 3 (Some tt) default_options)).
Defined.

(** A session on a surface no longer preferred is not seen: the router says none is open, and opens another beside it. *)
Lemma dropped_preference_orphans :
  let r := unprefer 1 Sample.open_on_preferred in
  IsOpen (C := unit) 3 r = false /\ is_open_on (M := unit) (C := unit) 1 3 (CloseAll (M := unit) (C := unit) 3 r) = true /\
  let r' := Open (C := unit) 3 (Some tt) r in is_open_on (M := unit) (C := unit) 1 3 r' = true /\ is_open_on (M := unit) (C := unit) fallback 3 r' = true.
Proof. by vm_compute. Qed.
