(* ===== verification/Cooldown.v ===== *)
(** * Cooldowns: [include/VoltMod/Core/Time/Cooldown.hpp] *)

From S2P Require Import Prelude.

Section Cooldown.
Context {TKey : Type} `{Countable TKey}.

Record Cooldown := mkCooldown { Seconds : Z; StartedAt : gmap TKey Z }.

Definition Cooldown_new (seconds : Z) : Cooldown := mkCooldown seconds ∅.

(** [int64_t] subtraction; one that does not fit is undefined. *)
Definition minus64 (a b : Z) : outcome Z := if in_i64 (a - b) then Returns (a - b) else Undefined.

Definition SecondsLeft (c : Cooldown) (key : TKey) (nowSec seconds : Z) : outcome Z :=
  if seconds <=? 0 then Returns 0
  else match StartedAt c !! key with
  | None => Returns 0
  | Some started =>
      run! elapsed := minus64 nowSec started in
      Returns (if (elapsed <? 0) || (seconds <=? elapsed) then 0 else seconds - elapsed)
  end.

Definition Cooldown_Start (c : Cooldown) (key : TKey) (nowSec : Z) : Cooldown :=
  mkCooldown (Seconds c) (<[key := nowSec]> (StartedAt c)).

Definition TryStart (c : Cooldown) (key : TKey) (nowSec seconds : Z) : outcome (bool * Cooldown) :=
  run! left_ := SecondsLeft c key nowSec seconds in
  Returns (if 0 <? left_ then (false, c) else (true, Cooldown_Start c key nowSec)).

Definition Cooldown_Reset (c : Cooldown) (key : TKey) : Cooldown := mkCooldown (Seconds c) (delete key (StartedAt c)).

Definition RemoveExpired (c : Cooldown) (nowSec maxAgeSec : Z) : outcome Cooldown :=
  run! kept := outcome_fold (fun kept '(key, started) =>
    run! age := minus64 nowSec started in Returns (if maxAgeSec <? age then delete key kept else kept))
    (map_to_list (StartedAt c)) (StartedAt c) in
  Returns (mkCooldown (Seconds c) kept).

(** ** What a cooldown promises *)

Lemma minus64_small a b : 0 <= a <= int64_max -> 0 <= b <= int64_max -> minus64 a b = Returns (a - b).
Proof. unfold minus64, in_i64, int64_max, int64_min. intros. by rewrite (proj2 (Z.leb_le _ _)), (proj2 (Z.leb_le _ _)) by lia. Qed.

(** Every start it knows of is a time that was told. *)
Definition Cooldown_wf (c : Cooldown) (now : Z) : Prop := forall key started, StartedAt c !! key = Some started -> 0 <= started <= now.

Lemma Cooldown_new_wf seconds now : Cooldown_wf (Cooldown_new seconds) now.
Proof. intros key started. cbn. by rewrite lookup_empty. Qed.

Lemma Cooldown_wf_later c now now' : Cooldown_wf c now -> now <= now' -> Cooldown_wf c now'.
Proof. intros Hc Hn key started E. specialize (Hc _ _ E). lia. Qed.

(** The key may start exactly when it never did, or did long enough ago. *)
Definition free (c : Cooldown) (key : TKey) (now seconds : Z) : bool :=
  match StartedAt c !! key with None => true | Some started => (seconds <=? 0) || (seconds <=? now - started) end.

Lemma TryStart_spec c key now seconds :
  Cooldown_wf c now -> 0 <= now <= int64_max ->
  TryStart c key now seconds = Returns (if free c key now seconds then (true, Cooldown_Start c key now) else (false, c)).
Proof.
  intros Hc Hn. unfold TryStart, SecondsLeft, free. destruct (StartedAt c !! key) as [started|] eqn:E; [|by destruct (seconds <=? 0)].
  destruct (Z.leb_spec seconds 0); [done|]. specialize (Hc _ _ E). rewrite minus64_small by lia. cbn [outcome_bind].
  destruct (Z.ltb_spec (now - started) 0); [lia|]. destruct (Z.leb_spec seconds (now - started)); cbn; [done|].
  by rewrite (proj2 (Z.ltb_lt _ _)) by lia.
Qed.

Lemma Cooldown_Start_wf c key now : Cooldown_wf c now -> 0 <= now -> Cooldown_wf (Cooldown_Start c key now) now.
Proof.
  intros Hc Hn key' started. cbn. destruct (decide (key = key')) as [->|].
  - rewrite lookup_insert_eq. intros [= <-]. lia.
  - rewrite lookup_insert_ne by done. apply Hc.
Qed.
End Cooldown.
Arguments Cooldown TKey {_ _}.

(** ** Starts are spaced *)

Section Starts.
Context {TKey : Type} `{Countable TKey}.
Context (seconds : Z).

(** Two starts, the later second. *)
Definition apart (a b : TKey * Z) : Prop := a.1 = b.1 -> seconds <= b.2 - a.2.

(** [starts], oldest first, are the starts [c] was asked for so far: what it remembers is the last one of each key. *)
Record remembers (c : Cooldown TKey) (starts : list (TKey * Z)) (now : Z) : Prop := {
  remembers_wf : Cooldown_wf c now;
  remembers_spaced : StronglySorted apart starts;
  remembers_old : forall key at_, In (key, at_) starts -> exists started, StartedAt c !! key = Some started /\ at_ <= started;
}.

Lemma remembers_new now : remembers (Cooldown_new seconds) [] now.
Proof. constructor; [apply Cooldown_new_wf|constructor|done]. Qed.

Lemma remembers_later c starts now now' : remembers c starts now -> now <= now' -> remembers c starts now'.
Proof. intros [Hwf Hs Ho] Hn. constructor; [by eapply Cooldown_wf_later|done..]. Qed.

(** A start that is granted is apart from every one before it. *)
Lemma TryStart_remembers c starts key now :
  remembers c starts now -> 0 <= now <= int64_max -> 0 < seconds ->
  exists granted c', TryStart c key now seconds = Returns (granted, c') /\ Seconds c' = Seconds c /\
    remembers c' (if granted then starts ++ [(key, now)] else starts) now /\
    (granted = false -> c' = c /\ exists started, StartedAt c !! key = Some started /\ now - started < seconds).
Proof.
  intros [Hwf Hs Ho] Hn Hp. rewrite TryStart_spec by done. unfold free. destruct (StartedAt c !! key) as [started|] eqn:E.
  - rewrite (proj2 (Z.leb_gt _ _)) by done. cbn. destruct (Z.leb_spec seconds (now - started)) as [Hle|Hgt].
    + eexists true, _. split; [done|]. split; [done|]. split; [|done]. constructor; [by apply Cooldown_Start_wf; [|lia]| |].
      * apply ssorted_app. split_and!; [done|by repeat constructor|]. intros [k a] y Hx [<-|[]]. unfold apart. cbn. intros ->.
        destruct (Ho _ _ Hx) as (st & E' & ?). simplify_eq. lia.
      * intros k a Hin. cbn. destruct (decide (key = k)) as [->|Hne].
        { rewrite lookup_insert_eq. exists now. split; [done|]. apply in_app_or in Hin as [Hin|[[= <-]|[]]]; [|done].
          destruct (Ho _ _ Hin) as (st & E' & ?). specialize (Hwf _ _ E'). lia. }
        rewrite lookup_insert_ne by done. apply in_app_or in Hin as [Hin|[[= <-]|[]]]; [by apply Ho|done].
    + eexists false, c. split; [done|]. split; [done|]. split; [by constructor|]. intros _. split; [done|]. exists started. split; [done|lia].
  - eexists true, _. split; [done|]. split; [done|]. split; [|done].
    assert (forall a, ~ In (key, a) starts) as Hnone by (intros a Ha; destruct (Ho _ _ Ha) as (st & E' & _); congruence).
    constructor; [by apply Cooldown_Start_wf; [|lia]| |].
    + apply ssorted_app. split_and!; [done|by repeat constructor|]. intros [k a] y Hx [<-|[]]. unfold apart. cbn. intros ->.
      by apply Hnone in Hx.
    + intros k a Hin. cbn. apply in_app_or in Hin as [Hin|[[= <- <-]|[]]].
      * rewrite lookup_insert_ne by (intros <-; by apply Hnone in Hin). by apply Ho.
      * rewrite lookup_insert_eq. eauto with lia.
Qed.
End Starts.
