(* ===== verification/ButtonPresses.v ===== *)
(** * Presses of a screen's buttons: [Host/Input/ButtonPressMessage.cpp], [Host/Input/ButtonPresses.cpp], [Core/Time/Cooldown.hpp]

    The bytes a client sends are read by hand, by a cursor that must stay within them; a press waits for the frame, and
    bytes that do not parse are warned of now and then. *)
From S2P Require Import Prelude Text Identity Errors Cooldown.

(** ** The message *)

Definition MaxVarintBytes : nat := 10.

Definition size (bytes : text) : Z := Z.of_nat (length bytes).

(** The loop of [ReadVarint], [budget] bytes before its end; [at_] is the cursor. *)
Fixpoint read_varint (budget : nat) (bytes : text) (byte value at_ : Z) : Result Z * Z :=
  match budget with
  | O => (Err (Error_Invalid $"a varint is longer than ten bytes"), at_)
  | S budget =>
      match bytes !! Z.to_nat at_ with
      | None => (Err (Error_Invalid $"a varint runs past the end of the payload"), at_)
      | Some c =>
          let part := code c in
          let value := Z.lor value (wrap_u64 (Z.shiftl (Z.land part 127) (7 * byte))) in
          if Z.land part 128 =? 0 then (Ok value, at_ + 1) else read_varint budget bytes (byte + 1) value (at_ + 1)
      end
  end.

Definition ReadVarint (bytes : text) (at_ : Z) : Result Z * Z := read_varint MaxVarintBytes bytes 0 0 at_.

Definition WireVarint : Z := 0.
Definition WireFixed64 : Z := 1.
Definition WireLengthDelimited : Z := 2.
Definition WireFixed32 : Z := 5.

Definition past_end : Error := Error_Invalid $"a field runs past the end of the payload".

Definition check_end (bytes : text) (at_ : Z) : Status * Z := (if size bytes <? at_ then Err past_end else Ok tt, at_).

Definition SkipField (bytes : text) (at_ wireType : Z) : Status * Z :=
  if wireType =? WireVarint then
    let '(skipped, at_) := ReadVarint bytes at_ in (match skipped with Ok _ => Ok tt | Err e => Err e end, at_)
  else if wireType =? WireFixed64 then check_end bytes (wrap_u64 (at_ + 8))
  else if wireType =? WireFixed32 then check_end bytes (wrap_u64 (at_ + 4))
  else if wireType =? WireLengthDelimited then
    let '(length_, at_) := ReadVarint bytes at_ in
    match length_ with
    | Err e => (Err e, at_)
    | Ok n => if wrap_u64 (size bytes - at_) <? n then (Err past_end, at_) else check_end bytes (wrap_u64 (at_ + n))
    end
  else (Err (Error_Invalid ($"unknown protobuf wire type " ++ dec wireType)), at_).

Definition slice (bytes : text) (at_ n : Z) : text := take (Z.to_nat n) (drop (Z.to_nat at_) bytes).

(** One turn of the loop of [Parse]; [button] is [out.ButtonId] once [haveButton]. *)
Definition parse_field (bytes : text) (at_ : Z) (button : option text) : Result (option text) * Z :=
  let '(key, at_) := ReadVarint bytes at_ in
  match key with
  | Err e => (Err e, at_)
  | Ok key =>
      let field := wrap_u32 (Z.shiftr key 3) in
      let wireType := wrap_u32 (Z.land key 7) in
      if (field =? 2) && (wireType =? WireLengthDelimited) then
        let '(length_, at_) := ReadVarint bytes at_ in
        match length_ with
        | Err e => (Err e, at_)
        | Ok n =>
            if wrap_u64 (size bytes - at_) <? n then (Err (Error_Invalid $"the button id runs past the end of the payload"), at_)
            else (Ok (Some (slice bytes at_ n)), wrap_u64 (at_ + n))
        end
      else
        let '(skipped, at_) := SkipField bytes at_ wireType in
        match skipped with
        | Err e => (Err e, at_)
        | Ok _ => (Ok button, at_)
        end
  end.

Fixpoint parse_loop (fuel : nat) (bytes : text) (at_ : Z) (button : option text) : outcome (Result text) :=
  if size bytes <=? at_ then
    Returns match button with Some id => Ok id | None => Err (Error_Invalid $"the payload carries no button id") end
  else match fuel with
  | O => OutOfFuel
  | S fuel =>
      match parse_field bytes at_ button with
      | (Err e, _) => Returns (Err e)
      | (Ok button, at_) => parse_loop fuel bytes at_ button
      end
  end.

(** Every turn reads a byte. *)
Definition Parse (bytes : text) : outcome (Result text) := parse_loop (length bytes) bytes 0 None.

(** ** What the bytes say

    The wire format, apart from how it is read: seven bits to a byte, least significant first, every byte but the last
    marked; a field's key is its number and its kind. *)

Definition more (c : ascii) : bool := negb (Z.land (code c) 128 =? 0).

Fixpoint base128 (bytes : text) : Z :=
  match bytes with [] => 0 | c :: rest => Z.land (code c) 127 + 128 * base128 rest end.

Definition is_varint (bytes : text) (v : Z) : Prop :=
  exists front last, bytes = front ++ [last] /\ (length front < MaxVarintBytes)%nat /\ Forall (fun c => more c = true) front /\ more last = false /\
    v = wrap_u64 (base128 bytes).

(** A field, and the id it carries when it is the button's. *)
Inductive wire_field : text -> option text -> Prop :=
| field_varint kb key vb v : is_varint kb key -> Z.land key 7 = 0 -> is_varint vb v -> wire_field (kb ++ vb) None
| field_fixed64 kb key payload : is_varint kb key -> Z.land key 7 = 1 -> length payload = 8%nat -> wire_field (kb ++ payload) None
| field_fixed32 kb key payload : is_varint kb key -> Z.land key 7 = 5 -> length payload = 4%nat -> wire_field (kb ++ payload) None
| field_bytes kb key lb payload : is_varint kb key -> Z.land key 7 = 2 -> is_varint lb (size payload) ->
    wire_field (kb ++ lb ++ payload) (if wrap_u32 (Z.shiftr key 3) =? 2 then Some payload else None).

Inductive wire : text -> list (option text) -> Prop :=
| wire_nil : wire [] []
| wire_cons field rest id ids : wire_field field id -> wire rest ids -> wire (field ++ rest) (id :: ids).

(** *** Varints *)

Lemma low7 c : 0 <= Z.land (code c) 127 < 128.
Proof. pose proof (code_range c). change 127 with (Z.ones 7). rewrite Z.land_ones by lia. apply Z.mod_pos_bound. lia. Qed.

Lemma base128_bound bytes : 0 <= base128 bytes < 128 ^ Z.of_nat (length bytes).
Proof.
  induction bytes as [|c rest IH]; [cbn; lia|]. cbn [base128 length]. rewrite Nat2Z.inj_succ, Z.pow_succ_r by lia. pose proof (low7 c). lia.
Qed.

Lemma base128_snoc bytes c : base128 (bytes ++ [c]) = base128 bytes + Z.land (code c) 127 * 128 ^ Z.of_nat (length bytes).
Proof.
  induction bytes as [|x rest IH]; [cbn; lia|]. cbn [app base128 length]. rewrite IH, Nat2Z.inj_succ, Z.pow_succ_r by lia. lia.
Qed.

Lemma lor_disjoint a b n : 0 <= n -> 0 <= a < 2 ^ n -> Z.lor a (Z.shiftl b n) = a + b * 2 ^ n.
Proof.
  intros Hn Ha. assert (Z.land a (Z.shiftl b n) = 0) as H0.
  { apply Z.bits_inj'. intros i Hi. rewrite Z.land_spec, Z.bits_0, Z.shiftl_spec by done. destruct (Z.ltb_spec i n).
    - rewrite (Z.testbit_neg_r b) by lia. apply andb_false_r.
    - by rewrite <- (Z.mod_small a (2 ^ n)), Z.mod_pow2_bits_high by lia. }
  rewrite <- (Z.shiftl_mul_pow2 b n) by done. by rewrite Z.add_nocarry_lxor, Z.lxor_lor.
Qed.

Lemma pow128 i : 0 <= i -> 128 ^ i = 2 ^ (7 * i).
Proof. intros Hi. change 128 with (2 ^ 7). by rewrite <- Z.pow_mul_r by lia. Qed.

(** The tenth byte has one bit that fits. *)
Lemma varint_step done c :
  (length done < MaxVarintBytes)%nat ->
  Z.lor (base128 done) (wrap_u64 (Z.shiftl (Z.land (code c) 127) (7 * Z.of_nat (length done)))) = wrap_u64 (base128 (done ++ [c])).
Proof.
  unfold MaxVarintBytes. intros Hl. pose proof (base128_bound done) as Hb. pose proof (low7 c) as Hx. set (x := Z.land (code c) 127) in *.
  rewrite base128_snoc. fold x. rewrite pow128 in * by lia. set (n := 7 * Z.of_nat (length done)) in *.
  assert (wrap_u64 (Z.shiftl x n) = Z.shiftl ((x mod 2 ^ (64 - n))) n) as ->.
  { unfold wrap_u64. rewrite !Z.shiftl_mul_pow2 by lia. change 18446744073709551616 with (2 ^ 64). replace 64 with ((64 - n) + n) at 1 by lia.
    rewrite Z.pow_add_r by lia. rewrite Z.mul_mod_distr_r by (apply Z.pow_nonzero; lia). done. }
  rewrite lor_disjoint by lia. unfold wrap_u64. change 18446744073709551616 with (2 ^ 64).
  replace (2 ^ 64) with (2 ^ (64 - n) * 2 ^ n) by (rewrite <- Z.pow_add_r by lia; f_equal; lia).
  assert (0 < 2 ^ (64 - n)) by (apply Z.pow_pos_nonneg; lia). assert (0 < 2 ^ n) by (apply Z.pow_pos_nonneg; lia).
  rewrite (Z.div_mod x (2 ^ (64 - n))) at 2 by lia.
  replace (base128 done + (2 ^ (64 - n) * (x / 2 ^ (64 - n)) + x mod 2 ^ (64 - n)) * 2 ^ n)
    with (base128 done + (x mod 2 ^ (64 - n)) * 2 ^ n + (x / 2 ^ (64 - n)) * (2 ^ (64 - n) * 2 ^ n)) by ring.
  rewrite Z.mod_add by lia. symmetry. apply Z.mod_small. pose proof (Z.mod_pos_bound x (2 ^ (64 - n)) ltac:(lia)). nia.
Qed.

Lemma read_varint_spec budget pre done rest v at' :
  (length done + budget = MaxVarintBytes)%nat -> Forall (fun c => more c = true) done ->
  read_varint budget (pre ++ done ++ rest) (Z.of_nat (length done)) (base128 done) (size (pre ++ done)) = (Ok v, at') <->
  exists bs rest', rest = bs ++ rest' /\ is_varint (done ++ bs) v /\ bs <> [] /\ at' = size (pre ++ done ++ bs).
Proof.
  revert done rest. induction budget as [|budget IH]; intros done rest Hb Hd; cbn [read_varint].
  - split; [done|]. intros (bs & rest' & -> & (front & z & E & Hl & _) & Hne & _). exfalso.
    apply (f_equal length) in E. rewrite !length_app in E. cbn [length] in E. destruct bs; [done|]. cbn [length] in E. lia.
  - assert ((pre ++ done ++ rest) !! Z.to_nat (size (pre ++ done)) = head rest) as ->.
    { unfold size. rewrite Nat2Z.id, app_assoc, lookup_app_r, Nat.sub_diag by lia. by destruct rest. }
    destruct rest as [|c rest]; cbn [head].
    { split; [done|]. intros (bs & rest' & E & _ & Hne & _). symmetry in E. by apply app_eq_nil in E as [-> _]. }
    rewrite varint_step by lia. replace (size (pre ++ done) + 1) with (size (pre ++ done ++ [c])) by (unfold size; rewrite !length_app; cbn; lia).
    destruct (Z.land (code c) 128 =? 0) eqn:Ec.
    + split.
      * intros [= <- <-]. exists [c], rest. split; [done|]. split; [|done]. exists done, c. split_and!; [done|lia|done|unfold more; by rewrite Ec|done].
      * intros (bs & rest' & E & (front & z & E' & Hl & Hf & Hz & ->) & Hne & ->). destruct bs as [|c' bs]; [done|]. injection E as <- E.
        destruct bs as [|c2 bs] using rev_ind; [done|]. exfalso. rewrite app_comm_cons, app_assoc in E'. apply app_inj_tail in E' as [<- _].
        apply Forall_app in Hf as [_ Hf%Forall_inv]. unfold more in Hf. by rewrite Ec in Hf.
    + assert (more c = true) as Hc by (unfold more; by rewrite Ec).
      specialize (IH (done ++ [c]) rest). rewrite !length_app in IH. cbn [length] in IH. replace (Z.of_nat (length done) + 1) with (Z.of_nat (length done + 1)) by lia.
      replace (pre ++ done ++ c :: rest) with (pre ++ (done ++ [c]) ++ rest) by by rewrite <- (app_assoc done).
      assert (forall bytes byte at_, read_varint budget bytes byte (wrap_u64 (base128 (done ++ [c]))) at_ =
        read_varint budget bytes byte (base128 (done ++ [c])) at_) as ->.
      { intros. destruct budget as [|budget]; [done|]. unfold wrap_u64. rewrite Z.mod_small; [done|].
        pose proof (base128_bound (done ++ [c])) as Hbound. rewrite length_app in Hbound. cbn [length] in Hbound. unfold MaxVarintBytes in Hb.
        assert (128 ^ Z.of_nat (length done + 1) <= 128 ^ 9) by (apply Z.pow_le_mono_r; lia). change (128 ^ 9) with 9223372036854775808 in *. lia. }
      rewrite IH; [|lia|apply Forall_app; split; [done|by constructor]].
      split; intros (bs & rest' & E & Hv & Hne & ->).
      * exists (c :: bs), rest'. rewrite <- app_assoc in Hv. split; [by rewrite E|]. split; [done|]. split; [done|]. by rewrite <- (app_assoc done).
      * destruct bs as [|c' bs]; [done|]. injection E as <- E. exists bs, rest'. rewrite <- app_assoc. split; [done|]. split; [done|]. split; [|done].
        intros ->. destruct Hv as (front & z & E' & _ & _ & Hz & _). apply app_inj_tail in E' as [_ <-]. congruence.
Qed.

Lemma ReadVarint_spec pre rest v at' :
  ReadVarint (pre ++ rest) (size pre) = (Ok v, at') <-> exists bs rest', rest = bs ++ rest' /\ is_varint bs v /\ at' = size (pre ++ bs).
Proof.
  unfold ReadVarint. pose proof (read_varint_spec MaxVarintBytes pre [] rest v at' eq_refl (Forall_nil_2 _)) as H.
  cbn [app length base128] in H. rewrite app_nil_r in H. rewrite H. split; [intros (bs & rest' & ? & ? & _ & ?); eauto|].
  intros (bs & rest' & ? & Hv & ?). exists bs, rest'. split_and!; try done. intros ->. destruct Hv as (front & z & E & _). by destruct front.
Qed.

Lemma ReadVarint_app pre vb rest v : is_varint vb v -> ReadVarint (pre ++ vb ++ rest) (size pre) = (Ok v, size (pre ++ vb)).
Proof. intros Hv. apply ReadVarint_spec. by exists vb, rest. Qed.

Lemma varint_u64 bytes v : is_varint bytes v -> 0 <= v <= uint64_max.
Proof. intros (front & z & _ & _ & _ & _ & ->). unfold wrap_u64, uint64_max. pose proof (Z.mod_pos_bound (base128 bytes) 18446744073709551616). lia. Qed.

Lemma varint_nonempty bytes v : is_varint bytes v -> (0 < length bytes)%nat.
Proof. intros (front & z & -> & _). rewrite length_app. cbn. lia. Qed.

(** ** What is read is what they say *)

Section Fields.
Context (bytes : text) (Hsize : size bytes < 2 ^ 63).

Lemma size_app a b : size (a ++ b) = size a + size b.
Proof. unfold size. rewrite length_app. lia. Qed.

Lemma size_nonneg a : 0 <= size a.
Proof. unfold size. lia. Qed.

Lemma small_wrap z : 0 <= z <= uint64_max -> wrap_u64 z = z.
Proof. unfold wrap_u64, uint64_max. intros. apply Z.mod_small. lia. Qed.

Lemma kind_of key : 0 <= key -> wrap_u32 (Z.land key 7) = Z.land key 7 /\ 0 <= Z.land key 7 < 8.
Proof.
  intros Hk. change 7 with (Z.ones 3). rewrite Z.land_ones by lia. pose proof (Z.mod_pos_bound key (2 ^ 3) ltac:(lia)).
  split; [|done]. unfold wrap_u32. apply Z.mod_small. lia.
Qed.

(** What lies [n] bytes ahead is a prefix of what is left. *)
Lemma split_at rest n : 0 <= n <= size rest -> exists front back, rest = front ++ back /\ size front = n.
Proof.
  unfold size. intros Hn. exists (take (Z.to_nat n) rest), (drop (Z.to_nat n) rest). split; [by rewrite take_drop|].
  rewrite length_take. lia.
Qed.

(** Moving the cursor: it must end within the bytes. *)
Lemma check_end_spec pre rest n at' :
  bytes = pre ++ rest -> 0 <= n <= 2 ^ 63 ->
  check_end bytes (wrap_u64 (size pre + n)) = (Ok tt, at') <-> exists payload rest', rest = payload ++ rest' /\ size payload = n /\ at' = size (pre ++ payload).
Proof using Hsize.
  intros E Hn. pose proof (size_nonneg pre). pose proof (size_nonneg rest). rewrite E, size_app in Hsize.
  rewrite small_wrap by (unfold uint64_max; lia). unfold check_end. rewrite E, size_app.
  destruct (Z.ltb_spec (size pre + size rest) (size pre + n)).
  - split; [done|]. intros (payload & rest' & -> & <- & _). rewrite size_app in *. pose proof (size_nonneg rest'). lia.
  - split.
    + intros [= <-]. destruct (split_at rest n) as (payload & rest' & -> & Hp); [lia|]. exists payload, rest'. rewrite size_app. by rewrite Hp.
    + intros (payload & rest' & _ & <- & ->). by rewrite size_app.
Qed.

(** The length read first is compared with what is left, so adding it does not wrap. *)
Lemma length_checked pre rest n :
  bytes = pre ++ rest -> (wrap_u64 (size bytes - size pre) <? n) = (size rest <? n).
Proof using Hsize.
  intros E. pose proof (size_nonneg pre). pose proof (size_nonneg rest). rewrite E, size_app in *. rewrite small_wrap; [|unfold uint64_max; lia].
  f_equal. lia.
Qed.

Definition skipped (kind : Z) (field : text) : Prop :=
  (kind = 0 /\ exists v, is_varint field v) \/ (kind = 1 /\ length field = 8%nat) \/ (kind = 5 /\ length field = 4%nat) \/
  (kind = 2 /\ exists lb payload, field = lb ++ payload /\ is_varint lb (size payload)).

Lemma SkipField_spec pre rest kind at' :
  bytes = pre ++ rest ->
  SkipField bytes (size pre) kind = (Ok tt, at') <-> exists field rest', rest = field ++ rest' /\ skipped kind field /\ at' = size (pre ++ field).
Proof using Hsize.
  intros E. unfold SkipField, WireVarint, WireFixed64, WireFixed32, WireLengthDelimited, skipped.
  destruct (Z.eqb_spec kind 0) as [->|H0]; [|destruct (Z.eqb_spec kind 1) as [->|H1]; [|destruct (Z.eqb_spec kind 5) as [->|H5]; [|destruct (Z.eqb_spec kind 2) as [->|H2]]]].
  - split.
    + destruct (ReadVarint bytes (size pre)) as [[v|e] a] eqn:R; [|done]. intros [= ->]. rewrite E in R.
      apply ReadVarint_spec in R as (bs & rest' & -> & Hv & ->). exists bs, rest'. split_and!; [done|left; eauto|done].
    + intros (field & rest' & -> & [[_ (v & Hv)]|[?|[?|?]]] & ->); try lia. by rewrite E, (ReadVarint_app _ _ _ v).
  - rewrite (check_end_spec pre rest) by (done || lia). split; intros (field & rest' & ? & H & ?); exists field, rest'; (split; [done|]); (split; [|done]).
    + right. left. unfold size in H. lia.
    + unfold size. destruct H as [H|[[_ H]|[H|H]]]; lia.
  - rewrite (check_end_spec pre rest) by (done || lia). split; intros (field & rest' & ? & H & ?); exists field, rest'; (split; [done|]); (split; [|done]).
    + right. right. left. unfold size in H. lia.
    + unfold size. destruct H as [H|[H|[[_ H]|H]]]; lia.
  - split.
    + destruct (ReadVarint bytes (size pre)) as [[n|e] a] eqn:R; [|done]. rewrite E in R.
      apply ReadVarint_spec in R as (lb & rest2 & -> & Hv & ->). rewrite app_assoc in E. rewrite (length_checked _ _ n E).
      pose proof (varint_u64 _ _ Hv). destruct (Z.ltb_spec (size rest2) n); [done|].
      intros C. apply (check_end_spec _ rest2) in C as (payload & rest' & -> & <- & ->); [|done|].
      * exists (lb ++ payload), rest'. rewrite <- !app_assoc. split; [done|]. split; [|done]. right. right. right. eauto.
      * rewrite E, size_app in Hsize. pose proof (size_nonneg (pre ++ lb)). lia.
    + intros (field & rest' & -> & [[? _]|[?|[?|(_ & lb & payload & -> & Hv)]]] & ->); try lia.
      rewrite <- app_assoc in E. rewrite E at 1. rewrite (ReadVarint_app _ _ _ _ Hv). rewrite app_assoc in E. rewrite (length_checked _ _ _ E).
      rewrite (proj2 (Z.ltb_ge _ _)) by (rewrite size_app; pose proof (size_nonneg rest'); lia).
      apply (check_end_spec _ (payload ++ rest')); [done| |exists payload, rest'; by rewrite <- app_assoc].
      rewrite E, !size_app in Hsize. pose proof (size_nonneg (pre ++ lb)). rewrite size_app in *. pose proof (size_nonneg payload). pose proof (size_nonneg rest'). lia.
  - split; [done|]. intros (field & rest' & _ & H & _). unfold skipped in H. lia.
Qed.
Definition last_button (b found : option text) : option text := match found with Some id => Some id | None => b end.

Lemma slice_mid pre payload rest : slice (pre ++ payload ++ rest) (size pre) (size payload) = payload.
Proof. unfold slice, size. rewrite !Nat2Z.id. by rewrite drop_app_length, take_app_length. Qed.

Lemma wire_field_nonempty field found : wire_field field found -> (0 < length field)%nat.
Proof. destruct 1; rewrite !length_app; pose proof (varint_nonempty _ _ H); lia. Qed.

(** One turn reads one field. *)
Lemma parse_field_sound pre rest b b' at' :
  bytes = pre ++ rest -> parse_field bytes (size pre) b = (Ok b', at') ->
  exists field rest' found, rest = field ++ rest' /\ wire_field field found /\ at' = size (pre ++ field) /\ b' = last_button b found.
Proof using Hsize.
  intros E. unfold parse_field. destruct (ReadVarint bytes (size pre)) as [[key|e] a] eqn:R; [|done]. rewrite E in R.
  apply ReadVarint_spec in R as (kb & rest2 & -> & Hk & ->). rewrite app_assoc in E. pose proof (varint_u64 _ _ Hk) as Hkr.
  destruct (kind_of key) as [-> Hkind]; [lia|]. unfold WireLengthDelimited.
  destruct ((wrap_u32 (Z.shiftr key 3) =? 2) && (Z.land key 7 =? 2)) eqn:Ef; bools.
  - destruct (ReadVarint bytes (size (pre ++ kb))) as [[n|e] a] eqn:R; [|done]. rewrite E in R.
    apply ReadVarint_spec in R as (lb & rest3 & -> & Hl & ->). rewrite app_assoc in E. rewrite (length_checked _ _ n E).
    pose proof (varint_u64 _ _ Hl). destruct (Z.ltb_spec (size rest3) n); [done|].
    destruct (split_at rest3 n) as (payload & rest' & -> & <-); [lia|]. intros [= <- <-].
    exists (kb ++ lb ++ payload), rest', (Some payload). rewrite E at 1. rewrite slice_mid. rewrite <- !app_assoc. split_and!; try done.
    + pose proof (field_bytes kb key lb payload Hk ltac:(lia) Hl) as W. by rewrite H in W.
    + rewrite !app_assoc, !size_app. rewrite E, !size_app in Hsize. pose proof (size_nonneg rest'). pose proof (size_nonneg pre). pose proof (size_nonneg kb). pose proof (size_nonneg lb).
      apply small_wrap. unfold uint64_max. lia.
  - destruct (SkipField bytes (size (pre ++ kb)) (Z.land key 7)) as [[[]|e] a] eqn:R; [|done]. intros [= <- <-].
    apply (SkipField_spec _ _ _ _ E) in R as (field & rest' & -> & Hs & ->).
    exists (kb ++ field), rest', None. rewrite <- !app_assoc. split_and!; try done.
    destruct Hs as [[Hz (v & Hv)]|[[Hz Hv]|[[Hz Hv]|(Hz & lb & payload & -> & Hv)]]].
    + by eapply field_varint.
    + by eapply field_fixed64.
    + by eapply field_fixed32.
    + pose proof (field_bytes kb key lb payload Hk Hz Hv) as W. rewrite Hz, andb_true_r in Ef. by rewrite Ef in W.
Qed.

Lemma parse_field_complete pre rest field found b :
  bytes = pre ++ field ++ rest -> wire_field field found ->
  parse_field bytes (size pre) b = (Ok (last_button b found), size (pre ++ field)).
Proof using Hsize.
  intros E W.
  assert (exists kb key body, field = kb ++ body /\ is_varint kb key /\ skipped (Z.land key 7) body /\
    found = (if (wrap_u32 (Z.shiftr key 3) =? 2) && (Z.land key 7 =? 2) then found else None) /\
    ((wrap_u32 (Z.shiftr key 3) =? 2) && (Z.land key 7 =? 2) = true ->
      exists lb payload, body = lb ++ payload /\ is_varint lb (size payload) /\ found = Some payload)) as (kb & key & body & -> & Hk & Hs & Hf & Hb).
  { destruct W as [kb key vb v Hk Hz Hv|kb key payload Hk Hz Hv|kb key payload Hk Hz Hv|kb key lb payload Hk Hz Hv];
      exists kb, key; eexists; rewrite Hz; (split; [done|]); (split; [done|]); unfold skipped; rewrite ?andb_false_r, ?andb_true_r.
    - split; [left; eauto|]. done.
    - split; [right; left; eauto|]. done.
    - split; [right; right; left; eauto|]. done.
    - split; [right; right; right; eauto 6|]. destruct (_ =? 2); split; try done. intros _. eauto 6. }
  rewrite <- app_assoc in E. unfold parse_field. rewrite E at 1. rewrite (ReadVarint_app _ _ _ _ Hk). rewrite app_assoc in E.
  pose proof (varint_u64 _ _ Hk). destruct (kind_of key) as [-> Hkind]; [lia|]. unfold WireLengthDelimited.
  destruct (_ && _) eqn:Ef.
  - destruct Hb as (lb & payload & -> & Hl & ->); [done|]. rewrite <- (app_assoc lb) in E. rewrite E at 1. rewrite (ReadVarint_app _ _ _ _ Hl).
    rewrite app_assoc in E. rewrite (length_checked _ _ _ E). rewrite (proj2 (Z.ltb_ge _ _)) by (rewrite size_app; pose proof (size_nonneg rest); lia).
    cbn [last_button]. rewrite E at 1. rewrite slice_mid. f_equal. rewrite !app_assoc, (size_app _ payload).
    rewrite E, !size_app in Hsize. apply small_wrap. unfold uint64_max. rewrite !size_app.
    pose proof (size_nonneg rest). pose proof (size_nonneg pre). pose proof (size_nonneg kb). pose proof (size_nonneg lb). pose proof (size_nonneg payload). lia.
  - assert (SkipField bytes (size (pre ++ kb)) (Z.land key 7) = (Ok tt, size (pre ++ kb ++ body))) as ->.
    { apply (SkipField_spec _ _ _ _ E). exists body, rest. by rewrite <- app_assoc. }
    by rewrite Hf.
Qed.

(** *** The whole payload *)

Lemma wire_inv payload fields :
  wire payload fields -> (payload = [] /\ fields = []) \/
  exists field rest found fields', payload = field ++ rest /\ fields = found :: fields' /\ wire_field field found /\ wire rest fields'.
Proof using. destruct 1; [by left|right; eauto 8]. Qed.

Lemma wire_empty fields : wire [] fields -> fields = [].
Proof using. intros [[_ ->]|(field & rest & found & fields' & E & _ & W & _)]%wire_inv; [done|]. apply wire_field_nonempty in W. destruct field; [cbn in W; lia|done]. Qed.

Lemma parse_loop_past fuel b : parse_loop fuel bytes (size bytes) b =
  Returns match b with Some id => Ok id | None => Err (Error_Invalid $"the payload carries no button id") end.
Proof using. destruct fuel; cbn [parse_loop]; by rewrite Z.leb_refl. Qed.

Lemma parse_loop_step fuel pre c rest b :
  bytes = pre ++ c :: rest ->
  parse_loop (S fuel) bytes (size pre) b =
    match parse_field bytes (size pre) b with (Err e, _) => Returns (Err e) | (Ok b', at') => parse_loop fuel bytes at' b' end.
Proof using.
  intros E. cbn [parse_loop]. rewrite (proj2 (Z.leb_gt _ _)); [done|]. rewrite E, size_app. unfold size. cbn [length]. lia.
Qed.

(** Every field has a byte, so the payload's length is fuel enough. *)
Lemma parse_loop_ends fuel pre rest b : bytes = pre ++ rest -> (length rest <= fuel)%nat -> exists r, parse_loop fuel bytes (size pre) b = Returns r.
Proof using Hsize.
  revert pre rest b. induction fuel as [|fuel IH]; intros pre rest b E Hf; (destruct rest as [|c rest]; [rewrite app_nil_r in E; rewrite <- E, parse_loop_past; eauto|]).
  - cbn in Hf. lia.
  - rewrite (parse_loop_step _ _ _ _ _ E). destruct (parse_field bytes (size pre) b) as [[b'|e] a] eqn:R; [|eauto].
    apply (parse_field_sound _ _ _ _ _ E) in R as (field & rest' & found & Er & W & -> & ->). apply wire_field_nonempty in W.
    apply (f_equal length) in Er as El. cbn in El. rewrite length_app in El. apply (IH _ rest'); [|cbn in Hf; lia].
    by rewrite <- app_assoc, <- Er.
Qed.

Lemma parse_loop_spec fuel pre rest b id :
  bytes = pre ++ rest -> (length rest <= fuel)%nat ->
  parse_loop fuel bytes (size pre) b = Returns (Ok id) <-> exists fields, wire rest fields /\ fold_left last_button fields b = Some id.
Proof using Hsize.
  revert pre rest b. induction fuel as [|fuel IH]; intros pre rest b E Hf;
    (destruct rest as [|c rest]; [rewrite app_nil_r in E; rewrite <- E, parse_loop_past|]).
  1, 3: (split; [intros H; exists []; split; [constructor|]; by destruct b; simplify_eq|]; intros (fields & ->%wire_empty & Hlast); cbn in Hlast; by subst).
  - cbn in Hf. lia.
  - rewrite (parse_loop_step _ _ _ _ _ E). split.
    + destruct (parse_field bytes (size pre) b) as [[b'|e] a] eqn:R; [|done]. apply (parse_field_sound _ _ _ _ _ E) in R as (field & rest' & found & Er & W & -> & ->).
      apply wire_field_nonempty in W as Hn. apply (f_equal length) in Er as El. cbn in El, Hf. rewrite length_app in El. rewrite Er, app_assoc in E.
      intros H. apply (IH _ _ _ E) in H as (fields & Ws & Hs); [|lia]. exists (found :: fields). rewrite Er. split; [by constructor|done].
    + intros (fields & [[? _]|(field & rest' & found & fields' & Er & -> & Wf & Ws)]%wire_inv & Hlast); [done|]. rewrite Er in E.
      rewrite (parse_field_complete _ _ _ _ _ E Wf). apply wire_field_nonempty in Wf as Hn. apply (f_equal length) in Er. cbn in Er, Hf. rewrite length_app in Er.
      rewrite app_assoc in E. apply (IH _ _ _ E); [lia|]. eauto.
Qed.
End Fields.

(** The bytes of a press whose id is [id]: an entity's number, then the id. *)
Definition press_bytes (entity : ascii) (id : text) : text := [chr 8; entity; chr 18; chr (size id)] ++ id.

(** A payload is read without ever passing its end, and always read to an answer; it gives an id exactly when it is a
    sequence of well-formed fields of which the last button field carries that id, whatever else lies between them. A length
    or a number that would wrap, and a field cut short, is refused. *)
Theorem Parse_spec bytes :
  size bytes < 2 ^ 63 ->
  (exists r, Parse bytes = Returns r) /\
  forall id, Parse bytes = Returns (Ok id) <-> exists fields, wire bytes fields /\ fold_left last_button fields None = Some id.
Proof.
  intros Hs. unfold Parse. split.
  - by apply (parse_loop_ends bytes Hs _ [] bytes).
  - intros id. by apply (parse_loop_spec bytes Hs _ [] bytes).
Qed.

Lemma Parse_spec_witness :
  let bytes := press_bytes (chr 7) $"accept" in
  size bytes < 2 ^ 63 /\ Parse bytes = Returns (Ok $"accept") /\ exists fields, wire bytes fields /\ fold_left last_button fields None = Some $"accept".
Proof.
  intros bytes. split; [by vm_compute|]. destruct (Parse_spec bytes ltac:(by vm_compute)) as [_ H].
  assert (Parse bytes = Returns (Ok $"accept")) as E by by vm_compute. split; [done|]. by apply H.
Defined.

(** A length near 2^64 is refused and not added; so is an eleventh byte of a number, and a group. *)
Example refused_payloads :
  map (fun bytes => match Parse bytes with Returns (Err e) => Detail e | _ => [] end)
    [chr 26 :: replicate 9 (chr 255) ++ [chr 1]; replicate 11 (chr 128); [chr 11]; [chr 18; chr 2; chr 65]; [chr 9; chr 0]; []] =
  [$"a field runs past the end of the payload"; $"a varint is longer than ten bytes"; $"unknown protobuf wire type 3";
   $"the button id runs past the end of the payload"; $"a field runs past the end of the payload"; $"the payload carries no button id"].
Proof. by vm_compute. Qed.

(** ** Presses: [ButtonPresses] *)

Definition CustomHudClickType : Z := 390.
Definition WarningIntervalSeconds : Z := 10.

Record Press := mkPress { Press_Slot : Z; Press_ButtonId : text }.

#[export] Instance Press_eq_dec : EqDecision Press.
Proof. solve_decision. Defined.

(** What the hook is given: the message's id ([None]: no message, or one without info), its [msg_type] and [msg_data]
    ([None]: not a protobuf message), the sender's slot, and the clock. *)
Record Inbound := mkInbound { MessageIdOf : option Z; Fields : option (Z * text); SenderSlot : Z; Now : Z }.

(** What is logged. *)
Inductive warning :=
| NoFields
| DidNotParse (slot now : Z) (detail : text).

(** [_resolved] is [FieldsOf]'s static, once a message has resolved it; [_log], [_raised] and [_arrived] are what the outside
    has seen: the warnings, the presses given to the plugins, and every message so far. *)
Record Presses := mkPresses {
  _messageId : Z;
  _queued : list Press;
  _warnings : Cooldown Z;
  _resolved : option bool;
  _log : list warning;
  _raised : list Press;
  _arrived : list Inbound;
}.

Definition Presses_new (messageId : Z) : Presses := mkPresses messageId [] (Cooldown_new WarningIntervalSeconds) None [] [] [].

Definition set_queued q p := mkPresses (_messageId p) q (_warnings p) (_resolved p) (_log p) (_raised p) (_arrived p).
Definition set_warnings w p := mkPresses (_messageId p) (_queued p) w (_resolved p) (_log p) (_raised p) (_arrived p).
Definition log_warning x p := mkPresses (_messageId p) (_queued p) (_warnings p) (_resolved p) (_log p ++ [x]) (_raised p) (_arrived p).
Definition raised x p := mkPresses (_messageId p) (_queued p) (_warnings p) (_resolved p) (_log p) (_raised p ++ [x]) (_arrived p).
Definition arrived m p := mkPresses (_messageId p) (_queued p) (_warnings p) (_resolved p) (_log p) (_raised p) (_arrived p ++ [m]).

Section Presses.
(** Whether the engine's message has the two fields. *)
Context (has_fields : bool).

Definition FieldsOf (p : Presses) : bool * Presses :=
  match _resolved p with
  | Some known => (known, p)
  | None =>
      let p := mkPresses (_messageId p) (_queued p) (_warnings p) (Some has_fields) (_log p) (_raised p) (_arrived p) in
      (has_fields, if has_fields then p else log_warning NoFields p)
  end.

Definition WarnMalformed (slot now : Z) (detail : text) (p : Presses) : outcome Presses :=
  run! (granted, warnings) := TryStart (_warnings p) slot now (Seconds (_warnings p)) in
  let p := set_warnings warnings p in
  Returns (if granted then log_warning (DidNotParse slot now detail) p else p).

Definition Queue (message : Inbound) (p : Presses) : outcome Presses :=
  if negb (bool_decide (MessageIdOf message = Some (_messageId p))) then Returns p
  else match Fields message with
  | None => Returns p
  | Some (type, data) =>
      let '(fields, p) := FieldsOf p in
      if negb fields then Returns p
      else if negb (type =? CustomHudClickType) then Returns p
      else if negb (IsValidSlot (SenderSlot message)) then Returns p
      else
        run! payload := Parse data in
        match payload with
        | Err e => WarnMalformed (SenderSlot message) (Now message) (Detail e) p
        | Ok id => Returns (if existsb (Ascii.eqb (chr 0)) id then p else set_queued (_queued p ++ [mkPress (SenderSlot message) id]) p)
        end
  end.

(** A message the engine delivers. *)
Definition on_message (message : Inbound) (p : Presses) : outcome Presses := Queue message (arrived message p).

(** [batches] are the messages that arrive while each press is raised. *)
Fixpoint raise_all (presses : list Press) (batches : list (list Inbound)) (p : Presses) : outcome Presses :=
  match presses with
  | [] => Returns p
  | press :: presses =>
      run! p := outcome_fold (fun p message => on_message message p) (hd [] batches) (raised press p) in
      raise_all presses (tl batches) p
  end.

Definition OnFrame (batches : list (list Inbound)) (p : Presses) : outcome Presses := raise_all (_queued p) batches (set_queued [] p).

Inductive presses_event := Arrives (message : Inbound) | Frame (batches : list (list Inbound)).

Definition on_presses_event (p : Presses) (e : presses_event) : outcome Presses :=
  match e with Arrives message => on_message message p | Frame batches => OnFrame batches p end.

(** ** What becomes of a message *)

(** The press a message is. *)
Definition press_of (messageId : Z) (message : Inbound) : option Press :=
  match Fields message with
  | Some (type, data) =>
      if bool_decide (MessageIdOf message = Some messageId) && has_fields && (type =? CustomHudClickType) && IsValidSlot (SenderSlot message) then
        match Parse data with
        | Returns (Ok id) => if existsb (Ascii.eqb (chr 0)) id then None else Some (mkPress (SenderSlot message) id)
        | _ => None
        end
      else None
  | None => None
  end.

Definition warned (x : warning) : option (Z * Z) := match x with DidNotParse slot now _ => Some (slot, now) | NoFields => None end.

(** A message has a length the machine can hold. *)
Definition well_sized (m : Inbound) : Prop := match Fields m with Some (_, data) => size data < 2 ^ 63 | None => True end.

(** The state follows from what arrived; [pending] are presses a frame took and has not raised yet. *)
Record follows (messageId : Z) (pending : list Press) (now : Z) (p : Presses) : Prop := {
  follows_id : _messageId p = messageId;
  follows_fields : _resolved p = None \/ _resolved p = Some has_fields;
  follows_presses : _raised p ++ pending ++ _queued p = omap (press_of messageId) (_arrived p);
  follows_seconds : Seconds (_warnings p) = WarningIntervalSeconds;
  follows_warnings : remembers WarningIntervalSeconds (_warnings p) (omap warned (_log p)) now;
}.

Lemma follows_new messageId now : follows messageId [] now (Presses_new messageId).
Proof. constructor; cbn; auto using remembers_new. Qed.

Definition on_time (now : Z) (m : Inbound) : Prop := now <= Now m <= int64_max.

Lemma FieldsOf_spec p :
  _resolved p = None \/ _resolved p = Some has_fields ->
  exists p', FieldsOf p = (has_fields, p') /\ _messageId p' = _messageId p /\ _resolved p' = Some has_fields /\ _raised p' = _raised p /\
    _queued p' = _queued p /\ _arrived p' = _arrived p /\ _warnings p' = _warnings p /\ omap warned (_log p') = omap warned (_log p).
Proof.
  unfold FieldsOf. intros [E|E]; rewrite E; [|by exists p]. eexists. split; [done|]. destruct has_fields; cbn; split_and!; try done.
  by rewrite omap_app, app_nil_r.
Qed.

Lemma on_message_follows messageId pending now m p :
  follows messageId pending now p -> 0 <= now -> on_time now m -> well_sized m ->
  exists p', on_message m p = Returns p' /\ follows messageId pending (Now m) p' /\ _raised p' = _raised p.
Proof.
  intros [Hid Hf Hp Hs Hw] Hnow Hm Hz. unfold on_message, on_time in *. pose proof (remembers_later _ _ _ _ _ Hw (proj1 Hm)) as Hw'.
  assert (forall q r, press_of messageId m = r -> _messageId q = messageId -> (_resolved q = None \/ _resolved q = Some has_fields) -> _raised q = _raised p ->
    _queued q = _queued p ++ option_list r -> _arrived q = _arrived p ++ [m] ->
    Seconds (_warnings q) = WarningIntervalSeconds -> remembers WarningIntervalSeconds (_warnings q) (omap warned (_log q)) (Now m) ->
    exists p', Returns q = Returns p' /\ follows messageId pending (Now m) p' /\ _raised p' = _raised p) as done_.
  { intros q r Er ? ? Hr Hq Ha ? ?. exists q. split; [done|]. split; [|done]. constructor; try done.
    rewrite Hr, Hq, Ha, omap_app, <- Hp. cbn. rewrite Er, <- !app_assoc. by destruct r. }
  unfold Queue. cbn [_messageId arrived]. rewrite Hid. unfold well_sized in Hz.
  assert (press_of messageId m = press_of messageId m) as Er0 by done. revert Er0. unfold press_of at 1. intros Er0. symmetry in Er0.
  destruct (bool_decide (MessageIdOf m = Some messageId)) eqn:Ei; cbn [negb andb] in *.
  2: { apply (done_ _ None); cbn; rewrite ?app_nil_r; auto. rewrite Er0. by destruct (Fields m) as [[type data]|]. }
  destruct (Fields m) as [[type data]|]; [|apply (done_ _ None); cbn; rewrite ?app_nil_r; auto].
  destruct (FieldsOf_spec (arrived m p) Hf) as (q & -> & Qi & Qf & Qr & Qq & Qa & Qw & Ql). cbn in Qi, Qr, Qq, Qa, Qw, Ql.
  assert (press_of messageId m = None -> exists p', Returns q = Returns p' /\ follows messageId pending (Now m) p' /\ _raised p' = _raised p) as none_.
  { intros E. apply (done_ _ None); cbn; rewrite ?app_nil_r, ?Qw, ?Ql; auto. congruence. }
  destruct has_fields; cbn [negb andb] in *; [|by apply none_].
  destruct (type =? CustomHudClickType); cbn [negb andb] in *; [|by apply none_].
  destruct (IsValidSlot (SenderSlot m)); cbn [negb] in *; [|by apply none_].
  destruct (parse_loop_ends data Hz (length data) [] data None eq_refl ltac:(lia)) as [r Er]. change (Parse data = Returns r) in Er.
  rewrite Er in *. cbn [outcome_bind]. destruct r as [id|e].
  - destruct (existsb _ id); [by apply none_|]. eapply done_; [done|..]; cbn; rewrite ?Qw, ?Ql, ?Qq; auto. congruence.
  - unfold WarnMalformed. rewrite Qw, Hs. unfold WarningIntervalSeconds in *.
    destruct (TryStart_remembers 10 _ _ (SenderSlot m) (Now m) Hw') as (granted & c' & -> & Hc10 & Hc' & _); [lia..|]. cbn [outcome_bind].
    rewrite Hs in Hc10. destruct granted; apply (done_ _ None); cbn; rewrite ?Qq, ?app_nil_r, ?omap_app, ?Ql; auto; congruence.
Qed.

(** Messages in the order of the clock, each of a size the machine holds, none before [now]. *)
Fixpoint clocked (now : Z) (messages : list Inbound) : Prop :=
  match messages with [] => True | m :: rest => on_time now m /\ well_sized m /\ clocked (Now m) rest end.

Definition clock_after (now : Z) (messages : list Inbound) : Z := fold_left (fun _ m => Now m) messages now.

Lemma clocked_app now a b : clocked now (a ++ b) <-> clocked now a /\ clocked (clock_after now a) b.
Proof. revert now. induction a as [|m a IH]; intros now; cbn [app clocked clock_after fold_left]; [tauto|]. rewrite IH. unfold clock_after. tauto. Qed.

Lemma clock_after_app now a b : clock_after now (a ++ b) = clock_after (clock_after now a) b.
Proof. apply fold_left_app. Qed.

Lemma clock_after_le now ms : clocked now ms -> now <= clock_after now ms.
Proof. revert now. induction ms as [|m ms IH]; intros now; cbn; [lia|]. unfold on_time. intros (? & _ & H). specialize (IH _ H). unfold clock_after in IH. lia. Qed.

Lemma follows_later messageId pending now now' p : follows messageId pending now p -> now <= now' -> follows messageId pending now' p.
Proof. intros []. constructor; eauto using remembers_later. Qed.

Lemma batch_follows messageId pending now ms p :
  follows messageId pending now p -> 0 <= now -> clocked now ms ->
  exists p', outcome_fold (fun p message => on_message message p) ms p = Returns p' /\ follows messageId pending (clock_after now ms) p' /\ _raised p' = _raised p.
Proof.
  revert now p. induction ms as [|m ms IH]; intros now p Hp Hn Hc; [by exists p|]. destruct Hc as (Hm & Hz & Hc). cbn [outcome_fold].
  destruct (on_message_follows _ _ _ _ _ Hp Hn Hm Hz) as (p1 & -> & H1 & R1). cbn [outcome_bind]. unfold on_time in Hm.
  destruct (IH (Now m) p1 H1 ltac:(lia) Hc) as (p2 & -> & H2 & R2). exists p2. split; [done|]. split; [done|]. congruence.
Qed.

Lemma raise_all_follows messageId pending batches now p :
  follows messageId pending now p -> 0 <= now -> clocked now (concat batches) ->
  exists p', raise_all pending batches p = Returns p' /\ follows messageId [] (clock_after now (concat batches)) p' /\ _raised p' = _raised p ++ pending.
Proof.
  revert batches now p. induction pending as [|press pending IH]; intros batches now p Hp Hn Hc; cbn [raise_all].
  - exists p. rewrite app_nil_r. split; [done|]. split; [|done]. eapply follows_later; [done|]. by apply clock_after_le.
  - assert (follows messageId pending now (raised press p)) as Hr.
    { destruct Hp. constructor; try done. cbn. by rewrite <- app_assoc. }
    assert (concat batches = hd [] batches ++ concat (tl batches)) as E by by destruct batches.
    rewrite E in *. rewrite clocked_app in Hc. destruct Hc as [Hc1 Hc2].
    destruct (batch_follows _ _ _ _ _ Hr Hn Hc1) as (p1 & -> & H1 & R1). cbn [outcome_bind].
    pose proof (clock_after_le _ _ Hc1). destruct (IH (tl batches) _ p1 H1 ltac:(lia) Hc2) as (p2 & -> & H2 & R2).
    exists p2. split; [done|]. split; [by rewrite clock_after_app|]. rewrite R2, R1. cbn. by rewrite <- app_assoc.
Qed.

Lemma OnFrame_follows messageId batches now p :
  follows messageId [] now p -> 0 <= now -> clocked now (concat batches) ->
  exists p', OnFrame batches p = Returns p' /\ follows messageId [] (clock_after now (concat batches)) p' /\ _raised p' = _raised p ++ _queued p.
Proof.
  intros Hp Hn Hc. unfold OnFrame. apply (raise_all_follows messageId (_queued p) batches now (set_queued [] p)); [|done..].
  destruct Hp. constructor; try done. cbn. by rewrite app_nil_r.
Qed.

Definition messages_of (e : presses_event) : list Inbound := match e with Arrives m => [m] | Frame batches => concat batches end.

Lemma presses_follow messageId events now p :
  follows messageId [] now p -> 0 <= now -> clocked now (flat_map messages_of events) ->
  exists p', outcome_fold on_presses_event events p = Returns p' /\ follows messageId [] (clock_after now (flat_map messages_of events)) p'.
Proof.
  revert now p. induction events as [|e events IH]; intros now p Hp Hn Hc; cbn [outcome_fold flat_map] in *; [by exists p|].
  apply clocked_app in Hc as [Hc1 Hc2]. rewrite clock_after_app.
  assert (exists p1, on_presses_event p e = Returns p1 /\ follows messageId [] (clock_after now (messages_of e)) p1) as (p1 & -> & H1).
  { destruct e as [m|batches]; cbn [on_presses_event messages_of] in *.
    - destruct Hc1 as (Hm & Hz & _). destruct (on_message_follows _ _ _ _ _ Hp Hn Hm Hz) as (p1 & -> & H1 & _). eauto.
    - destruct (OnFrame_follows _ _ _ _ Hp Hn Hc1) as (p1 & -> & H1 & _). eauto. }
  cbn [outcome_bind]. pose proof (clock_after_le _ _ Hc1). apply IH; [done|lia|done].
Qed.
End Presses.

(** C29. Whatever messages arrive, also while presses are raised, and however frames fall between them: the presses raised and
    then those still queued are exactly the well-formed presses of valid slots, each once, in the order they arrived; a frame
    raises every press that was queued when it began and none that came since; and no slot is warned about twice within ten
    seconds. *)
Theorem presses_raised_in_order has_fields messageId events :
  clocked 0 (flat_map messages_of events) ->
  exists p, outcome_fold (on_presses_event has_fields) events (Presses_new messageId) = Returns p /\
    _raised p ++ _queued p = omap (press_of has_fields messageId) (_arrived p) /\
    StronglySorted (apart WarningIntervalSeconds) (omap warned (_log p)) /\
    forall batches, clocked (clock_after 0 (flat_map messages_of events)) (concat batches) ->
      exists p', OnFrame has_fields batches p = Returns p' /\ _raised p' = _raised p ++ _queued p.
Proof.
  intros Hc. destruct (presses_follow has_fields messageId events 0 _ (follows_new has_fields messageId 0) ltac:(lia) Hc) as (p & E & Hp).
  exists p. split; [done|]. destruct Hp as [Hi Hf Hps Hs Hw] eqn:EH. split; [done|]. split; [by apply (remembers_spaced _ _ _ _ Hw)|].
  intros batches Hb. destruct (OnFrame_follows _ _ _ _ _ Hp (clock_after_le _ _ Hc) Hb) as (p' & ? & _ & ?). eauto.
Qed.

(** Two presses and a malformed one in between, a second malformed one too soon, and a press raised by a handler. *)
Definition a_press (slot now : Z) (id : text) : Inbound := mkInbound (Some 5) (Some (390, press_bytes (chr 1) id)) slot now.
Definition a_bad_press (slot now : Z) : Inbound := mkInbound (Some 5) (Some (390, [chr 18])) slot now.
Definition some_presses : list presses_event :=
  [Arrives (a_press 3 1 $"a"); Arrives (a_bad_press 3 2); Arrives (a_bad_press 3 4); Arrives (a_press 70 4 $"x"); Arrives (a_press 4 5 $"b");
   Frame [[a_press 3 6 $"c"]; []]; Arrives (a_bad_press 3 12)].

Lemma presses_raised_in_order_witness :
  exists p, outcome_fold (on_presses_event true) some_presses (Presses_new 5) = Returns p /\
    _raised p = [mkPress 3 $"a"; mkPress 4 $"b"] /\ _queued p = [mkPress 3 $"c"] /\ omap warned (_log p) = [(3, 2); (3, 12)] /\
    _raised p ++ _queued p = omap (press_of true 5) (_arrived p).
Proof.
  destruct (presses_raised_in_order true 5 some_presses) as (p & E & Hp & _).
  { unfold on_time, well_sized, int64_max. repeat split; vm_compute; discriminate. }
  assert (match outcome_fold (on_presses_event true) some_presses (Presses_new 5) with
    Returns p => bool_decide (_raised p = [mkPress 3 $"a"; mkPress 4 $"b"] /\ _queued p = [mkPress 3 $"c"] /\ omap warned (_log p) = [(3, 2); (3, 12)]) | _ => false end = true) as C by by vm_compute.
  rewrite E in C. apply bool_decide_eq_true in C as (? & ? & ?). exists p. by split_and!.
Defined.
