(* ===== verification/ConVarQueries.v ===== *)
(** * Asking clients for their convars: [src/Hooks/PendingConVarQueries.cpp], [src/Hooks/ClientConVars.cpp]

    A query waits under a cookie until its client answers, which the client may never do, do twice, or do wrongly. *)

From Stdlib Require Import SpecFloat.
From S2P Require Import Prelude Text Identity Errors.

(** A [double], and the operations on it that are used here. *)
Definition double : Type := spec_float.
Definition double_sub : double -> double -> double := SFsub 53 1024.
Definition double_ge (a b : double) : bool := SFleb b a.
Definition double_of (z : Z) : double := binary_normalize 53 1024 z 0 false.

(** ** [PendingConVarQueries] *)

Record PendingConVarQuery := mkQuery { Name : text; Callback : Z; SentAtSec : double; Cookie : Z }.

Record PendingConVarQueries := mkQueries { _slots : PerSlot (list PendingConVarQuery); _cookieCounter : Z }.

Definition MaxPendingPerSlot : nat := 11.
Definition TimeoutSec : double := double_of 10.
Definition MaxCookie : Z := 2147483647.

Definition Queries_new : PendingConVarQueries := mkQueries (PerSlot_new []) 0.

Definition queries (q : PendingConVarQueries) (slot : Z) : list PendingConVarQuery := default [] (PerSlot_get (_slots q) slot).
Definition set_queries (slot : Z) (l : list PendingConVarQuery) (q : PendingConVarQueries) : PendingConVarQueries :=
  mkQueries (PerSlot_set (_slots q) slot l) (_cookieCounter q).

Definition expired (now : double) (query : PendingConVarQuery) : bool := double_ge (double_sub now (SentAtSec query)) TimeoutSec.

Definition Prune (slot : Z) (now : double) (q : PendingConVarQueries) : PendingConVarQueries :=
  if IsValidSlot slot then set_queries slot (List.filter (fun query => negb (expired now query)) (queries q slot)) q else q.

Definition is_for (name : text) (query : PendingConVarQuery) : bool := text_eqb (Name query) name.

Definition Find (slot : Z) (name : text) (q : PendingConVarQueries) : option PendingConVarQuery :=
  if IsValidSlot slot then List.find (is_for name) (queries q slot) else None.

Definition Count (slot : Z) (q : PendingConVarQueries) : nat := if IsValidSlot slot then length (queries q slot) else O.

Definition Full (slot : Z) (q : PendingConVarQueries) : bool := (MaxPendingPerSlot <=? Count slot q)%nat.

Definition has_cookie (cookie : Z) (query : PendingConVarQuery) : bool := Cookie query =? cookie.

(** [++_cookieCounter], and back to 1 past the largest. *)
Definition next_cookie (counter : Z) : Z := let counter := wrap_u32 (counter + 1) in if MaxCookie <? counter then 1 else counter.

Fixpoint cookie_loop (attempts : nat) (taken : list PendingConVarQuery) (counter : Z) : Z * Z :=
  match attempts with
  | O => (-1, counter)
  | S attempts =>
      let counter := next_cookie counter in
      if existsb (has_cookie counter) taken then cookie_loop attempts taken counter else (counter, counter)
  end.

Definition NextCookie (slot : Z) (q : PendingConVarQueries) : Z * PendingConVarQueries :=
  if IsValidSlot slot then
    let '(cookie, counter) := cookie_loop (S MaxPendingPerSlot) (queries q slot) (_cookieCounter q) in (cookie, mkQueries (_slots q) counter)
  else (-1, q).

Definition Add (slot cookie : Z) (name : text) (callback : Z) (now : double) (q : PendingConVarQueries) : PendingConVarQueries :=
  if negb (IsValidSlot slot) || (cookie <? 0) then q else set_queries slot (queries q slot ++ [mkQuery name callback now cookie]) q.

(** [erase] of the first that satisfies [p]. *)
Fixpoint erase_first {A} (p : A -> bool) (l : list A) : list A :=
  match l with [] => [] | x :: rest => if p x then rest else x :: erase_first p rest end.

Definition Take (slot cookie : Z) (name : text) (q : PendingConVarQueries) : option PendingConVarQuery * PendingConVarQueries :=
  if IsValidSlot slot then
    match List.find (has_cookie cookie) (queries q slot) with
    | Some query => if is_for name query then (Some query, set_queries slot (erase_first (has_cookie cookie) (queries q slot)) q) else (None, q)
    | None => (None, q)
    end
  else (None, q).

Definition Clear (slot : Z) (q : PendingConVarQueries) : PendingConVarQueries := if IsValidSlot slot then set_queries slot [] q else q.

Definition ClearAll (q : PendingConVarQueries) : PendingConVarQueries := mkQueries (map (fun _ => []) (_slots q)) (_cookieCounter q).

(** ** [ClientConVars] *)

Definition Status_Answered : Z := 0.

(** A call of a callback, for the [Occupant]-th player its slot has had. *)
Record Call := mkCall { Call_Callback : Z; Call_Slot : Z; Call_Name : text; Call_Occupant : nat; Call_Status : Z; Call_Value : text }.

(** A query that was taken on. *)
Record Asked := mkAsked { Asked_Callback : Z; Asked_Slot : Z; Asked_Name : text; Asked_Occupant : nat }.

(** [_hook] is whether the response hook was installed. The rest is what the outside has seen: how many players each slot has
    had, the requests sent, the queries taken on and the callbacks called. *)
Record ClientConVars := mkConVars {
  _pending : PendingConVarQueries;
  _hook : bool;
  _occupants : PerSlot nat;
  _sent : list (Z * text * Z);
  _asked : list Asked;
  _called : list Call;
}.

Definition ConVars_new (hook : bool) : ClientConVars := mkConVars Queries_new hook (PerSlot_new O) [] [] [].

Definition occupant (c : ClientConVars) (slot : Z) : nat := default O (PerSlot_get (_occupants c) slot).

Definition set_pending q c := mkConVars q (_hook c) (_occupants c) (_sent c) (_asked c) (_called c).
Definition sent x c := mkConVars (_pending c) (_hook c) (_occupants c) (_sent c ++ [x]) (_asked c) (_called c).
Definition asked x c := mkConVars (_pending c) (_hook c) (_occupants c) (_sent c) (_asked c ++ [x]) (_called c).
Definition called x c := mkConVars (_pending c) (_hook c) (_occupants c) (_sent c) (_asked c) (_called c ++ [x]).

(** What the engine answers while a request is sent: whether the slot has a network channel, whether a message could be
    allocated, and whether it is the protobuf one. *)
Record Wire := mkWire { HasNetInfo : bool; Allocates : bool; IsProto : bool }.

Definition Send (wire : Wire) (slot : Z) (name : text) (cookie : Z) (c : ClientConVars) : bool * ClientConVars :=
  if HasNetInfo wire && Allocates wire && IsProto wire then (true, sent (slot, name, cookie) c) else (false, c).

(** [inFlight->Callback = std::move(callback)]. *)
Fixpoint retarget (name : text) (callback : Z) (l : list PendingConVarQuery) : list PendingConVarQuery :=
  match l with
  | [] => []
  | query :: rest =>
      if is_for name query then mkQuery (Name query) callback (SentAtSec query) (Cookie query) :: rest else query :: retarget name callback rest
  end.

(** A call of [Query]; [None] is an empty callback. *)
Record Request := mkRequest { Req_Slot : Z; Req_Name : text; Req_Callback : option Z; Req_Now : double; Req_Wire : Wire }.

(** [Query], once what timed out is dropped. *)
Definition ask (slot : Z) (name : text) (callback : Z) (now : double) (wire : Wire) (c : ClientConVars) : bool * ClientConVars :=
  let q := _pending c in
  let accept := asked (mkAsked callback slot name (occupant c slot)) in
  match Find slot name q with
  | Some _ => (true, accept (set_pending (set_queries slot (retarget name callback (queries q slot)) q) c))
  | None =>
      if Full slot q then (false, c)
      else
        let '(cookie, q) := NextCookie slot q in
        let c := set_pending q c in
        if cookie <? 0 then (false, c)
        else
          let '(ok, c) := Send wire slot name cookie c in
          if ok then (true, accept (set_pending (Add slot cookie name callback now q) c)) else (false, c)
  end.

Definition Query (r : Request) (c : ClientConVars) : bool * ClientConVars :=
  match Req_Callback r with
  | None => (false, c)
  | Some callback =>
      if negb (_hook c) || negb (IsValidSlot (Req_Slot r)) || text_eqb (Req_Name r) [] then (false, c)
      else ask (Req_Slot r) (Req_Name r) callback (Req_Now r) (Req_Wire r) (set_pending (Prune (Req_Slot r) (Req_Now r) (_pending c)) c)
  end.

(** [CCLCMsg_RespondCvarValue]; an absent field is [None]. *)
Record Response := mkResponse { Msg_Cookie : option Z; Msg_Status : option Z; Msg_Name : option text; Msg_Value : option text }.

Section Service.
(** [EQueryCvarValueStatus_IsValid]. *)
Context (status_valid : Z -> bool).

(** The value a well-formed answer carries. *)
Definition answer_value (status : Z) (value : option text) : option text :=
  if status =? Status_Answered then
    match value with
    | Some v => if existsb (Ascii.eqb (chr 0)) v then None else Some v
    | None => None
    end
  else Some [].

(** [requests] are the queries the callback makes. *)
Definition OnRespondCvarValue (slot : Z) (msg : Response) (requests : list Request) (c : ClientConVars) : ClientConVars :=
  match Msg_Cookie msg, Msg_Status msg, Msg_Name msg with
  | Some cookie, Some status, Some name =>
      if negb (IsValidSlot slot) || negb (status_valid status) then c
      else match answer_value status (Msg_Value msg) with
      | None => c
      | Some value =>
          let '(query, q) := Take slot cookie name (_pending c) in
          let c := set_pending q c in
          match query with
          | None => c
          | Some query =>
              fold_left (fun c r => (Query r c).2) requests (called (mkCall (Callback query) slot name (occupant c slot) status value) c)
          end
      end
  | _, _, _ => c
  end.

Definition OnServerStartup (c : ClientConVars) : ClientConVars := set_pending (ClearAll (_pending c)) c.

(** [slots.Changed]: the slot has another occupant, or none. *)
Definition ConVars_SlotChanged (slot : Z) (c : ClientConVars) : ClientConVars :=
  mkConVars (Clear slot (_pending c)) (_hook c) (PerSlot_set (_occupants c) slot (S (occupant c slot))) (_sent c) (_asked c) (_called c).

Inductive convars_event :=
| Queried (r : Request)
| Responded (slot : Z) (msg : Response) (requests : list Request)
| Slot_Changed (slot : Z)
| Started.

Definition on_convars_event (c : ClientConVars) (e : convars_event) : ClientConVars :=
  match e with
  | Queried r => (Query r c).2
  | Responded slot msg requests => OnRespondCvarValue slot msg requests c
  | Slot_Changed slot => ConVars_SlotChanged slot c
  | Started => OnServerStartup c
  end.
End Service.

(** ** Cookies *)

Lemma next_cookie_spec c : 0 <= c <= MaxCookie -> next_cookie c = c mod MaxCookie + 1.
Proof.
  unfold next_cookie, wrap_u32, MaxCookie. intros Hc. rewrite Z.mod_small by lia. destruct (Z.ltb_spec 2147483647 (c + 1)).
  - by assert (c = 2147483647) as -> by lia.
  - rewrite Z.mod_small; lia.
Qed.

Lemma next_cookie_range c : 1 <= c mod MaxCookie + 1 <= MaxCookie.
Proof. pose proof (Z.mod_pos_bound c MaxCookie). unfold MaxCookie in *. lia. Qed.

Lemma has_cookie_in cookie l : existsb (has_cookie cookie) l = true <-> In cookie (map Cookie l).
Proof.
  rewrite existsb_exists, in_map_iff. unfold has_cookie. split; intros (x & ? & ?); exists x; [split; [lia|done]|split; [done|lia]].
Qed.

(** The loop gives a free cookie, or every cookie it tried is taken. *)
Lemma cookie_loop_spec k taken c :
  0 <= c <= MaxCookie -> let '(cookie, c') := cookie_loop k taken c in
  0 <= c' <= MaxCookie /\ ((1 <= cookie <= MaxCookie /\ ~ In cookie (map Cookie taken)) \/
    (cookie = -1 /\ forall i, 0 <= i < Z.of_nat k -> In ((c + i) mod MaxCookie + 1) (map Cookie taken))).
Proof.
  revert c. induction k as [|k IH]; intros c Hc; cbn [cookie_loop]; [split; [done|right; split; [done|lia]]|].
  rewrite next_cookie_spec by done. pose proof (next_cookie_range c) as Hr. destruct (existsb _ taken) eqn:E.
  - specialize (IH (c mod MaxCookie + 1) ltac:(lia)). destruct (cookie_loop k taken _) as [cookie c']. destruct IH as [Hc' [H|[-> H]]]; (split; [done|]); [by left|right].
    split; [done|]. intros i Hi. destruct (decide (i = 0)) as [->|]; [rewrite Z.add_0_r; by apply has_cookie_in|].
    specialize (H (i - 1) ltac:(lia)). replace (c mod MaxCookie + 1 + (i - 1)) with (c mod MaxCookie + i) in H by lia.
    by rewrite Zplus_mod_idemp_l in H.
  - split; [lia|]. left. split; [done|]. intros H. apply has_cookie_in in H. congruence.
Qed.

(** Fewer cookies are taken than are tried, so one is free. *)
Lemma cookie_loop_finds k taken c :
  0 <= c <= MaxCookie -> (length taken < k)%nat -> Z.of_nat k <= MaxCookie ->
  exists cookie c', cookie_loop k taken c = (cookie, c') /\ 0 <= c' <= MaxCookie /\ 1 <= cookie <= MaxCookie /\ ~ In cookie (map Cookie taken).
Proof.
  intros Hc Hk Hm. pose proof (cookie_loop_spec k taken c Hc) as H. destruct (cookie_loop k taken c) as [cookie c'].
  destruct H as [Hc' [[H1 H2]|[_ H]]]; [eauto 8|]. exfalso.
  set (tried := map (fun i => (c + i) mod MaxCookie + 1) (map Z.of_nat (seq 0 k))).
  assert (length tried <= length (map Cookie taken))%nat as Hl.
  { apply NoDup_incl_length.
    - apply NoDup_ListNoDup. apply NoDup_fmap_2_strong; [|apply NoDup_fmap_2; [apply _|apply NoDup_seq]].
      intros x y Hx Hy E. apply list_elem_of_fmap in Hx as (i & -> & Hi%elem_of_seq). apply list_elem_of_fmap in Hy as (j & -> & Hj%elem_of_seq).
      assert ((c + Z.of_nat i) mod MaxCookie = (c + Z.of_nat j) mod MaxCookie) as E' by lia. clear E.
      pose proof (Z.div_mod (c + Z.of_nat i) MaxCookie). pose proof (Z.div_mod (c + Z.of_nat j) MaxCookie). unfold MaxCookie in *.
      assert ((c + Z.of_nat i) / 2147483647 = (c + Z.of_nat j) / 2147483647) by lia. lia.
    - intros x (i & <- & Hi)%in_map_iff. apply in_map_iff in Hi as (j & <- & Hj%in_seq). apply H. lia. }
  unfold tried in Hl. rewrite !length_map, length_seq in Hl. lia.
Qed.

(** ** The table *)

Definition slot_ok (l : list PendingConVarQuery) : Prop :=
  (length l <= MaxPendingPerSlot)%nat /\ NoDup (map Cookie l) /\ Forall (fun query => 1 <= Cookie query <= MaxCookie) l /\ NoDup (map Name l).

Record table_ok (q : PendingConVarQueries) : Prop := {
  table_wf : PerSlot_wf (_slots q);
  table_counter : 0 <= _cookieCounter q <= MaxCookie;
  table_slots : forall slot, IsValidSlot slot = true -> slot_ok (queries q slot);
}.

Lemma queries_set q slot slot' l :
  PerSlot_wf (_slots q) -> IsValidSlot slot' = true -> queries (set_queries slot l q) slot' = if slot =? slot' then l else queries q slot'.
Proof. intros Hwf Hs. unfold queries, set_queries. cbn. rewrite PerSlot_get_set by done. by case_match. Qed.

Lemma set_queries_ok q slot l : table_ok q -> slot_ok l -> table_ok (set_queries slot l q).
Proof.
  intros [Hwf Hc Hs] Hl. constructor; [by apply PerSlot_set_wf|done|]. intros slot' Hv. rewrite queries_set by done. case_match; auto.
Qed.

Lemma slot_ok_sublist l' l : l' `sublist_of` l -> slot_ok l -> slot_ok l'.
Proof.
  intros Hsub (Hl & Hc & Hr & Hn). split_and!.
  - apply sublist_length in Hsub. lia.
  - eapply sublist_NoDup; [apply Hc|]. by apply (fmap_sublist Cookie).
  - apply Forall_forall. intros x Hx. rewrite Forall_forall in Hr. apply Hr. by eapply elem_of_submseteq, sublist_submseteq.
  - eapply sublist_NoDup; [apply Hn|]. by apply (fmap_sublist Name).
Qed.

Lemma filter_sublist {A} (p : A -> bool) l : List.filter p l `sublist_of` l.
Proof. induction l as [|x l IH]; cbn; [constructor|]. case_match; by constructor. Qed.

Lemma erase_first_sublist {A} (p : A -> bool) l : erase_first p l `sublist_of` l.
Proof. induction l as [|x l IH]; cbn; [constructor|]. case_match; by constructor. Qed.

Lemma Prune_ok slot now q : table_ok q -> table_ok (Prune slot now q).
Proof.
  intros Hq. unfold Prune. destruct (IsValidSlot slot) eqn:E; [|done]. apply set_queries_ok; [done|].
  eapply slot_ok_sublist; [apply filter_sublist|by apply table_slots].
Qed.

Lemma Queries_Clear_ok slot q : table_ok q -> table_ok (Clear slot q).
Proof.
  intros Hq. unfold Clear. case_match; [|done]. apply set_queries_ok; [done|]. unfold slot_ok, MaxPendingPerSlot. cbn. split_and!; [lia|constructor..].
Qed.

Lemma queries_ClearAll q slot : queries (ClearAll q) slot = [].
Proof.
  unfold queries, ClearAll, PerSlot_get. cbn. case_match; [|done]. rewrite list_lookup_fmap. set (o := _ !! _). by destruct o.
Qed.

Lemma ClearAll_ok q : table_ok q -> table_ok (ClearAll q).
Proof.
  intros [Hwf Hc Hs]. constructor; [|done|].
  - unfold PerSlot_wf in *. cbn. by rewrite length_map.
  - intros slot _. rewrite queries_ClearAll. unfold slot_ok, MaxPendingPerSlot. cbn. split_and!; [lia|constructor..].
Qed.

Lemma Take_ok slot cookie name q query q' : table_ok q -> Take slot cookie name q = (query, q') -> table_ok q'.
Proof.
  unfold Take. intros Hq. destruct (IsValidSlot slot) eqn:E; [|by intros [= <- <-]]. destruct (List.find _ _) as [x|]; [|by intros [= <- <-]].
  destruct (is_for name x); intros [= <- <-]; [|done]. apply set_queries_ok; [done|].
  eapply slot_ok_sublist; [apply erase_first_sublist|by apply table_slots].
Qed.

Lemma retarget_map {B} (f : PendingConVarQuery -> B) name cb l :
  (forall query, f (mkQuery (Name query) cb (SentAtSec query) (Cookie query)) = f query) -> map f (retarget name cb l) = map f l.
Proof. intros Hf. induction l as [|x l IH]; cbn; [done|]. case_match; cbn; [by rewrite Hf|by rewrite IH]. Qed.

Lemma retarget_ok name cb l : slot_ok l -> slot_ok (retarget name cb l).
Proof.
  intros (Hl & Hc & Hr & Hn). unfold slot_ok. rewrite !retarget_map by done. split_and!; try done.
  - by rewrite <- (length_map Name), retarget_map, length_map.
  - apply Forall_forall. rewrite Forall_forall in Hr. intros x Hx%(list_elem_of_fmap_2 Cookie). change (Cookie <$> retarget name cb l) with (map Cookie (retarget name cb l)) in Hx.
    rewrite retarget_map in Hx by done. apply list_elem_of_fmap in Hx as (y & -> & Hy). auto.
Qed.

Lemma NextCookie_finds slot q :
  table_ok q -> IsValidSlot slot = true -> Full slot q = false ->
  exists cookie q', NextCookie slot q = (cookie, q') /\ _slots q' = _slots q /\ table_ok q' /\ 1 <= cookie <= MaxCookie /\ ~ In cookie (map Cookie (queries q slot)).
Proof.
  intros [Hwf Hc Hs] Hv. unfold Full, Count, NextCookie. rewrite Hv. intros Hf%Nat.leb_gt.
  destruct (cookie_loop_finds (S MaxPendingPerSlot) (queries q slot) (_cookieCounter q) Hc) as (cookie & c' & -> & Hc' & Hr & Hn); [lia|done|].
  eexists _, _. split; [done|]. split; [done|]. split; [|done]. by constructor.
Qed.

Lemma Queries_Add_ok slot cookie name cb now q :
  table_ok q -> IsValidSlot slot = true -> Full slot q = false -> Find slot name q = None -> 1 <= cookie <= MaxCookie -> ~ In cookie (map Cookie (queries q slot)) ->
  table_ok (Add slot cookie name cb now q) /\ queries (Add slot cookie name cb now q) slot = queries q slot ++ [mkQuery name cb now cookie].
Proof.
  intros Hq Hv. unfold Full, Count, Find, Add. rewrite Hv. intros Hf%Nat.leb_gt Hn Hr Hc. cbn [negb orb]. rewrite (proj2 (Z.ltb_ge _ _)) by lia.
  split; [|rewrite queries_set; [by rewrite Z.eqb_refl|apply Hq|done]]. apply set_queries_ok; [done|].
  destruct (table_slots _ Hq _ Hv) as (Hl & Hcs & Hrs & Hns). unfold slot_ok. rewrite length_app, !map_app. cbn [length map Cookie Name]. split_and!.
  - lia.
  - apply NoDup_app. split; [done|]. split; [|apply NoDup_singleton]. intros x Hx ->%list_elem_of_singleton. by apply Hc, list_elem_of_In.
  - apply Forall_app. split; [done|]. by constructor.
  - apply NoDup_app. split; [done|]. split; [|apply NoDup_singleton]. intros x Hx ->%list_elem_of_singleton. apply list_elem_of_fmap in Hx as (y & -> & Hy%list_elem_of_In).
    apply (List.find_none _ _ Hn) in Hy. unfold is_for in Hy. by rewrite text_eqb_refl in Hy.
Qed.

(** ** Answers *)

#[export] Instance Asked_eq_dec : EqDecision Asked.
Proof. solve_decision. Defined.

#[export] Instance Call_eq_dec : EqDecision Call.
Proof. solve_decision. Defined.

(** How often [a] is in [l]. *)
Definition times {A} `{EqDecision A} (a : A) (l : list A) : nat := count_occ (fun x y => decide (x = y)) l a.

Arguments times : simpl never.

Lemma times_app {A} `{EqDecision A} (a : A) l1 l2 : times a (l1 ++ l2) = (times a l1 + times a l2)%nat.
Proof. apply count_occ_app. Qed.

Lemma times_cons {A} `{EqDecision A} (a b : A) l : times a (b :: l) = (Nat.b2n (bool_decide (b = a)) + times a l)%nat.
Proof. unfold times. cbn [count_occ]. rewrite (bool_decide_decide (b = a)). by destruct (decide (b = a)). Qed.

Lemma times_sublist {A} `{EqDecision A} (a : A) l1 l2 : l1 `sublist_of` l2 -> (times a l1 <= times a l2)%nat.
Proof. induction 1; rewrite ?times_cons; lia. Qed.

Definition asked_of (call : Call) : Asked := mkAsked (Call_Callback call) (Call_Slot call) (Call_Name call) (Call_Occupant call).
Definition as_asked (slot : Z) (occ : nat) (query : PendingConVarQuery) : Asked := mkAsked (Callback query) slot (Name query) occ.

Definition waiting (c : ClientConVars) (slot : Z) : list Asked := map (as_asked slot (occupant c slot)) (queries (_pending c) slot).

Section Answers.
Context (status_valid : Z -> bool).

Definition call_ok (call : Call) : Prop :=
  IsValidSlot (Call_Slot call) = true /\ status_valid (Call_Status call) = true /\ ~ In (chr 0) (Call_Value call) /\
  (Call_Status call = Status_Answered \/ Call_Value call = []).

Record answers (c : ClientConVars) : Prop := {
  answers_table : table_ok (_pending c);
  answers_occupants : PerSlot_wf (_occupants c);
  answers_counted : forall a, IsValidSlot (Asked_Slot a) = true ->
    (times a (waiting c (Asked_Slot a)) + times a (map asked_of (_called c)) <= times a (_asked c))%nat;
  answers_calls : Forall call_ok (_called c);
  answers_sent : forall slot query, IsValidSlot slot = true -> In query (queries (_pending c) slot) -> In (slot, Name query, Cookie query) (_sent c);
}.

Lemma answers_new hook : answers (ConVars_new hook).
Proof.
  assert (forall slot, queries Queries_new slot = []) as E by (intros slot; apply (PerSlot_get_new [])).
  constructor; cbn; try done; try apply PerSlot_new_wf.
  - constructor; [apply PerSlot_new_wf|by vm_compute|]. intros slot _. rewrite E. unfold slot_ok, MaxPendingPerSlot. cbn. split_and!; [lia|constructor..].
  - intros a _. unfold waiting. cbn. by rewrite E.
  - intros slot query _. by rewrite E.
Qed.

(** A change to what waits on one slot, which may take on queries and call callbacks. *)
Lemma answers_update c c' slot new_asked new_called :
  answers c -> IsValidSlot slot = true -> table_ok (_pending c') ->
  (forall s, IsValidSlot s = true -> s <> slot -> queries (_pending c') s = queries (_pending c) s) ->
  _occupants c' = _occupants c -> _asked c' = _asked c ++ new_asked -> _called c' = _called c ++ new_called ->
  Forall call_ok new_called -> incl (_sent c) (_sent c') ->
  (forall query, In query (queries (_pending c') slot) -> In (slot, Name query, Cookie query) (_sent c')) ->
  (forall a, times a (waiting c' slot) + times a (map asked_of new_called) <= times a (waiting c slot) + times a new_asked)%nat ->
  answers c'.
Proof.
  intros [Ht Ho Hn Hc Hs] Hv Ht' Hq Eo Ea Ec Hcalls Hincl Hs' Hcount. constructor; try done.
  - by rewrite Eo.
  - intros a Ha. specialize (Hn a Ha). specialize (Hcount a). rewrite Ea, Ec, map_app, !times_app.
    destruct (decide (Asked_Slot a = slot)) as [<-|Hne]; [lia|].
    assert (waiting c' (Asked_Slot a) = waiting c (Asked_Slot a)) as -> by (unfold waiting, occupant; by rewrite Eo, Hq).
    destruct (decide (times a (map asked_of new_called) = O)); [lia|].
    assert (times a (waiting c slot) = O) as E0.
    { apply count_occ_not_In. intros (x & <- & _)%in_map_iff. done. }
    lia.
  - rewrite Ec. by apply Forall_app.
  - intros s query Hsv Hin. destruct (decide (s = slot)) as [->|Hne]; [by apply Hs'|]. rewrite Hq in Hin by done. by apply Hincl, Hs.
Qed.

Lemma waiting_update c c' slot f :
  _occupants c' = _occupants c -> queries (_pending c') slot = f (queries (_pending c) slot) ->
  waiting c' slot = map (as_asked slot (occupant c slot)) (f (queries (_pending c) slot)).
Proof. intros Eo Eq. unfold waiting, occupant. by rewrite Eo, Eq. Qed.

(** Forgetting some of what waits. *)
Lemma answers_forget c slot l :
  answers c -> IsValidSlot slot = true -> l `sublist_of` queries (_pending c) slot -> answers (set_pending (set_queries slot l (_pending c)) c).
Proof.
  intros Hc Hv Hl. pose proof (answers_table _ Hc) as Ht. assert (PerSlot_wf (_slots (_pending c))) as Hwf by apply Ht.
  assert (queries (set_queries slot l (_pending c)) slot = l) as El by (rewrite queries_set by done; by rewrite Z.eqb_refl).
  apply (answers_update c _ slot [] []); cbn; rewrite ?app_nil_r; try done; try apply incl_refl.
  - apply set_queries_ok; [done|]. eapply slot_ok_sublist; [done|by apply table_slots].
  - intros s Hs Hne. rewrite queries_set by done. by destruct (Z.eqb_spec slot s).
  - rewrite El. intros query Hin. apply (answers_sent _ Hc); [done|]. apply list_elem_of_In. eapply elem_of_submseteq; [by apply list_elem_of_In|by apply sublist_submseteq].
  - intros a. rewrite !Nat.add_0_r. unfold waiting. cbn. rewrite El. apply times_sublist. by apply (fmap_sublist (as_asked slot _)).
Qed.

Lemma times_retarget name cb slot occ l a :
  (times a (map (as_asked slot occ) (retarget name cb l)) <= times a (map (as_asked slot occ) l) + times a [mkAsked cb slot name occ])%nat.
Proof.
  induction l as [|x l IH]; cbn [retarget map]; [lia|]. destruct (is_for name x) eqn:E; cbn [map]; rewrite !times_cons in *; [|lia].
  unfold is_for in E. apply text_eqb_true in E.
  assert (as_asked slot occ (mkQuery (Name x) cb (SentAtSec x) (Cookie x)) = mkAsked cb slot name occ) as -> by (unfold as_asked; cbn; by rewrite E).
  lia.
Qed.

Lemma retarget_in name cb l query : In query (retarget name cb l) -> exists query', In query' l /\ Name query' = Name query /\ Cookie query' = Cookie query.
Proof.
  induction l as [|x l IH]; cbn; [done|]. destruct (is_for name x) eqn:E; cbn; intros [<-|H]; eauto.
  destruct (IH H) as (q' & ? & ?). eauto.
Qed.

Lemma Prune_answers slot now c : answers c -> IsValidSlot slot = true -> answers (set_pending (Prune slot now (_pending c)) c).
Proof. intros Hc Hv. unfold Prune. rewrite Hv. apply answers_forget; [done|done|apply filter_sublist]. Qed.

Lemma ask_answers slot name cb now wire c1 : answers c1 -> IsValidSlot slot = true -> answers (ask slot name cb now wire c1).2.
Proof.
  intros H1 Hv. unfold ask.
  pose proof (answers_table _ H1) as Ht. destruct (Find slot name (_pending c1)) eqn:Ef.
  - cbn [snd]. pose proof (table_wf _ Ht) as Hwf.
    assert (queries (set_queries slot (retarget name cb (queries (_pending c1) slot)) (_pending c1)) slot = retarget name cb (queries (_pending c1) slot)) as El
      by (rewrite queries_set by done; by rewrite Z.eqb_refl).
    apply (answers_update c1 _ slot [mkAsked cb slot name (occupant c1 slot)] []); cbn; rewrite ?app_nil_r; try done; try apply incl_refl.
    + apply set_queries_ok; [done|]. by apply retarget_ok, table_slots.
    + intros s Hs Hne. rewrite queries_set by done. by destruct (Z.eqb_spec slot s).
    + rewrite El. intros query (q' & Hin & <- & <-)%retarget_in. by apply (answers_sent _ H1).
    + intros a. unfold waiting. cbn. rewrite El, Nat.add_0_r. apply times_retarget.
  - destruct (Full slot (_pending c1)) eqn:Efull; [by destruct c1|].
    destruct (NextCookie_finds slot _ Ht Hv Efull) as (cookie & q' & -> & Es & Ht' & Hr & Hfresh).
    rewrite (proj2 (Z.ltb_ge _ _)) by lia.
    assert (forall s, queries q' s = queries (_pending c1) s) as Eq by (intros s; unfold queries; by rewrite Es).
    assert (answers (set_pending q' c1)) as H2.
    { apply (answers_update c1 _ slot [] []); cbn; rewrite ?app_nil_r; try done; try apply incl_refl.
      - intros query. rewrite Eq. by apply (answers_sent _ H1).
      - intros a. unfold waiting. cbn. by rewrite Eq. }
    unfold Send. destruct (_ && _ && _); [|done]. cbn [snd].
    destruct (Queries_Add_ok slot cookie name cb now q') as [Hadd El]; try done.
    { unfold Full, Count in *. by rewrite Eq. }
    { unfold Find in *. by rewrite Eq. }
    { by rewrite Eq. }
    apply (answers_update c1 _ slot [mkAsked cb slot name (occupant c1 slot)] []); cbn; rewrite ?app_nil_r; try done; try apply incl_refl.
    + intros s Hs Hne. unfold Add. case_match; [apply Eq|]. rewrite queries_set by (done || apply Ht'). rewrite Eq. by destruct (Z.eqb_spec slot s).
    + intros x Hx. apply in_or_app. by left.
    + rewrite El, Eq. intros query [Hin|[<-|[]]]%in_app_or; apply in_or_app; [left; by apply (answers_sent _ H1)|by right; left].
    + intros a. unfold waiting. cbn. rewrite El, Eq, map_app, times_app, Nat.add_0_r. apply Nat.le_refl.
Qed.

Lemma Query_answers r c : answers c -> answers (Query r c).2.
Proof.
  intros Hc. unfold Query. destruct (Req_Callback r) as [cb|]; [|done]. destruct (_ || _ || _) eqn:E; [done|]. bools.
  apply ask_answers; [|done]. by apply Prune_answers.
Qed.

Lemma queries_answer requests c : answers c -> answers (fold_left (fun c r => (Query r c).2) requests c).
Proof. revert c. induction requests as [|r requests IH]; intros c Hc; cbn; [done|]. by apply IH, Query_answers. Qed.

Lemma times_erase cookie slot occ l query a :
  List.find (has_cookie cookie) l = Some query ->
  (times a (map (as_asked slot occ) l) = times a (map (as_asked slot occ) (erase_first (has_cookie cookie) l)) + times a [as_asked slot occ query])%nat.
Proof.
  induction l as [|x l IH]; cbn [List.find erase_first map]; [done|]. destruct (has_cookie cookie x).
  - intros [= ->]. rewrite !times_cons. change (times a []) with O. lia.
  - intros H. cbn [map]. rewrite !times_cons in *. rewrite (IH H). lia.
Qed.

Lemma OnRespond_answers slot msg requests c : answers c -> answers (OnRespondCvarValue status_valid slot msg requests c).
Proof.
  intros Hc. unfold OnRespondCvarValue. repeat (case_match; [|done]). destruct (_ || _) eqn:E; [done|]. bools.
  destruct (answer_value _ _) as [value|] eqn:Ev; [|done]. unfold Take. rewrite H2. pose proof (answers_table _ Hc) as Ht.
  destruct (List.find _ _) as [query|] eqn:Ef; [|by destruct c]. destruct (is_for _ query) eqn:Ename; [|by destruct c].
  apply queries_answer. apply text_eqb_true in Ename.
  pose proof (table_wf _ Ht) as Hwf.
  assert (queries (set_queries slot (erase_first (has_cookie z) (queries (_pending c) slot)) (_pending c)) slot = erase_first (has_cookie z) (queries (_pending c) slot)) as El
      by (rewrite queries_set by done; by rewrite Z.eqb_refl).
  eapply (answers_update c _ slot [] [_]); cbn; rewrite ?app_nil_r; try done; try apply incl_refl.
  - apply set_queries_ok; [done|]. eapply slot_ok_sublist; [apply erase_first_sublist|by apply table_slots].
  - intros s Hs Hne. rewrite queries_set by done. by destruct (Z.eqb_spec slot s).
  - constructor; [|done]. unfold call_ok. cbn. split_and!; try done.
    + unfold answer_value in Ev. repeat case_match; simplify_eq; [|by intros []]. intros Hin.
      assert (existsb (Ascii.eqb (chr 0)) value = true) by (apply existsb_exists; exists (chr 0); by rewrite Ascii.eqb_refl). congruence.
    + unfold answer_value in Ev. destruct (Z.eqb_spec z0 Status_Answered); [by left|right; by simplify_eq].
  - rewrite El. intros q Hin. apply (answers_sent _ Hc); [done|]. apply list_elem_of_In.
    eapply elem_of_submseteq; [by apply list_elem_of_In|apply sublist_submseteq, erase_first_sublist].
  - intros a. unfold waiting. cbn. rewrite El. rewrite (times_erase z slot _ _ query a Ef).
    rewrite Nat.add_0_r, <- Ename. apply Nat.le_refl.
Qed.

Lemma occupant_changed c slot slot' :
  PerSlot_wf (_occupants c) -> IsValidSlot slot' = true -> slot <> slot' -> occupant (ConVars_SlotChanged slot c) slot' = occupant c slot'.
Proof. intros Hwf Hv Hne. unfold occupant. cbn. rewrite PerSlot_get_set by done. by destruct (Z.eqb_spec slot slot'). Qed.

Lemma SlotChanged_answers slot c : answers c -> answers (ConVars_SlotChanged slot c).
Proof.
  intros Hc. pose proof (answers_table _ Hc) as Ht. pose proof (table_wf _ Ht) as Hwf. pose proof (answers_occupants _ Hc) as Ho.
  assert (forall s, IsValidSlot s = true -> queries (Clear slot (_pending c)) s = if slot =? s then [] else queries (_pending c) s) as Eq.
  { intros s Hs. unfold Clear. destruct (IsValidSlot slot) eqn:Hv; [by apply queries_set|]. destruct (Z.eqb_spec slot s); [congruence|done]. }
  constructor; cbn; try apply Hc.
  - by apply Queries_Clear_ok.
  - by apply PerSlot_set_wf.
  - intros a Ha. pose proof (answers_counted _ Hc a Ha) as Hn. unfold waiting. cbn. rewrite Eq by done.
    destruct (Z.eqb_spec slot (Asked_Slot a)) as [|Hne]; [cbn; change (times a []) with O; lia|]. by rewrite occupant_changed.
  - intros s query Hs. rewrite Eq by done. case_match; [done|]. by apply (answers_sent _ Hc).
Qed.

Lemma Startup_answers c : answers c -> answers (OnServerStartup c).
Proof.
  intros Hc. constructor; cbn; try apply Hc; [by apply ClearAll_ok, Hc| |intros s query _; by rewrite queries_ClearAll].
  intros a Ha. pose proof (answers_counted _ Hc a Ha) as Hn. unfold waiting. cbn. rewrite queries_ClearAll. cbn. change (times a []) with O. lia.
Qed.

Lemma convars_answers events c : answers c -> answers (fold_left (on_convars_event status_valid) events c).
Proof.
  revert c. induction events as [|[r|slot msg rs|slot|] events IH]; intros c Hc; cbn; [done|..]; apply IH;
    auto using Query_answers, OnRespond_answers, SlotChanged_answers, Startup_answers.
Qed.

Lemma Query_hook r c : _hook (Query r c).2 = _hook c.
Proof.
  unfold Query, ask. destruct (Req_Callback r); [|done]. destruct (_ || _ || _); [done|]. destruct (Find _ _ _); [done|]. destruct (Full _ _); [done|].
  destruct (NextCookie _ _) as [cookie q]. destruct (cookie <? 0); [done|]. unfold Send. by destruct (_ && _ && _).
Qed.

Lemma convars_hook events c : _hook (fold_left (on_convars_event status_valid) events c) = _hook c.
Proof.
  assert (forall rs c, _hook (fold_left (fun c r => (Query r c).2) rs c) = _hook c) as Hrs.
  { intros rs. induction rs as [|r rs IH]; intros c'; cbn; [done|]. by rewrite IH, Query_hook. }
  revert c. induction events as [|[r|slot msg rs|slot|] events IH]; intros c; cbn; [done|..]; rewrite IH; try done; [by rewrite Query_hook|].
  unfold OnRespondCvarValue. repeat (case_match; [|done]). case_match; [done|]. case_match; [|done]. destruct (Take _ _ _ _) as [[query|] q]; [|done]. by rewrite Hrs.
Qed.

(** ** When a query is taken on *)

Lemma ask_accepts slot name cb now wire c :
  answers c -> IsValidSlot slot = true ->
  (ask slot name cb now wire c).1 =
    match Find slot name (_pending c) with Some _ => true | None => negb (Full slot (_pending c)) && (HasNetInfo wire && Allocates wire && IsProto wire) end.
Proof.
  intros Hc Hv. unfold ask. destruct (Find _ _ _); [done|]. destruct (Full slot (_pending c)) eqn:Ef; [done|].
  destruct (NextCookie_finds slot _ (answers_table _ Hc) Hv Ef) as (cookie & q' & -> & _ & _ & Hr & _). rewrite (proj2 (Z.ltb_ge _ _)) by lia.
  unfold Send. by destruct (_ && _ && _).
Qed.

(** ** An answer to what waits *)

Lemma find_cookie l query : NoDup (map Cookie l) -> In query l -> List.find (has_cookie (Cookie query)) l = Some query.
Proof.
  induction l as [|x l IH]; cbn; [done|]. intros [Hx Hl]%NoDup_cons Hin. unfold has_cookie at 1. destruct (Z.eqb_spec (Cookie x) (Cookie query)) as [E|Hne].
  - destruct Hin as [<-|Hin]; [done|]. exfalso. apply Hx. rewrite E. apply list_elem_of_fmap. exists query. split; [done|]. by apply list_elem_of_In.
  - destruct Hin as [<-|Hin]; [done|]. by apply IH.
Qed.

Lemma find_erased l cookie : NoDup (map Cookie l) -> List.find (has_cookie cookie) (erase_first (has_cookie cookie) l) = None.
Proof.
  induction l as [|x l IH]; cbn; [done|]. intros [Hx Hl]%NoDup_cons. destruct (has_cookie cookie x) eqn:E.
  - destruct (List.find _ l) as [y|] eqn:Ey; [|done]. exfalso. apply List.find_some in Ey as [Hin Hy]. unfold has_cookie in *. apply Hx.
    apply list_elem_of_fmap. exists y. split; [lia|]. by apply list_elem_of_In.
  - cbn. rewrite E. by apply IH.
Qed.

Definition answer_to (query : PendingConVarQuery) (status : Z) (value : option text) : Response :=
  mkResponse (Some (Cookie query)) (Some status) (Some (Name query)) value.

Lemma answer_found c slot query status value v :
  answers c -> IsValidSlot slot = true -> In query (queries (_pending c) slot) -> status_valid status = true -> answer_value status value = Some v ->
  OnRespondCvarValue status_valid slot (answer_to query status value) [] c =
    called (mkCall (Callback query) slot (Name query) (occupant c slot) status v)
      (set_pending (set_queries slot (erase_first (has_cookie (Cookie query)) (queries (_pending c) slot)) (_pending c)) c).
Proof.
  intros Hc Hv Hin Hs Ev. unfold OnRespondCvarValue, answer_to. cbn. rewrite Hv, Hs. cbn [negb orb]. rewrite Ev. unfold Take. rewrite Hv.
  destruct (table_slots _ (answers_table _ Hc) _ Hv) as (_ & Hd & _). rewrite (find_cookie _ _ Hd Hin). unfold is_for. by rewrite text_eqb_refl.
Qed.

(** An answer under a cookie nothing waits under does nothing. *)
Lemma answer_unasked c slot cookie status name value requests :
  List.find (has_cookie cookie) (queries (_pending c) slot) = None ->
  OnRespondCvarValue status_valid slot (mkResponse (Some cookie) status name value) requests c = c.
Proof.
  intros Hn. unfold OnRespondCvarValue. cbn. destruct status as [status|], name as [name|]; try done. destruct (_ || _) eqn:E; [done|]. bools.
  destruct (answer_value _ _); [|done]. unfold Take. rewrite H, Hn. by destruct c.
Qed.
End Answers.

Definition service (status_valid : Z -> bool) (hook : bool) (events : list convars_event) : ClientConVars :=
  fold_left (on_convars_event status_valid) events (ConVars_new hook).

(** C30. Whatever is asked, answered (twice, wrongly, or unasked), and whoever comes and goes: a callback is called at most as
    often as it was taken on, and only for the slot, the name and the very player it was taken on for; it gets a status the
    protocol has and a value without a null byte, empty unless the client answered. On every slot at most eleven queries
    wait, under different cookies the client was sent for those names, no name twice. *)
Theorem callbacks_called_at_most_once status_valid hook events :
  let c := service status_valid hook events in
  (forall a, times a (map asked_of (_called c)) <= times a (_asked c))%nat /\
  Forall (call_ok status_valid) (_called c) /\
  forall slot, IsValidSlot slot = true ->
    slot_ok (queries (_pending c) slot) /\ forall query, In query (queries (_pending c) slot) -> In (slot, Name query, Cookie query) (_sent c).
Proof.
  intros c. assert (answers status_valid c) as Hc by (apply convars_answers, answers_new). split_and!.
  - intros a. destruct (IsValidSlot (Asked_Slot a)) eqn:Ha; [pose proof (answers_counted _ _ Hc a Ha); lia|].
    assert (times a (map asked_of (_called c)) = O) as ->; [|lia]. apply count_occ_not_In. intros (call & <- & Hin)%in_map_iff.
    pose proof (answers_calls _ _ Hc) as Hcalls. rewrite List.Forall_forall in Hcalls. destruct (Hcalls _ Hin) as [Hv _]. cbn in Ha. congruence.
  - apply Hc.
  - intros slot Hv. split; [by apply (table_slots _ (answers_table _ _ Hc))|]. intros query. by apply (answers_sent _ _ Hc).
Qed.

(** A query is taken on exactly when its name is already in flight, or there is room and the client can be sent to - the
    search for a cookie never fails; and a well-formed answer to what waits calls its callback, once: the same answer again
    does nothing. *)
Theorem answer_reaches_callback status_valid hook events slot :
  let c := service status_valid hook events in
  IsValidSlot slot = true ->
  (forall name cb now wire, hook = true -> name <> [] ->
    (Query (mkRequest slot name (Some cb) now wire) c).1 =
      match Find slot name (Prune slot now (_pending c)) with
      | Some _ => true
      | None => negb (Full slot (Prune slot now (_pending c))) && (HasNetInfo wire && Allocates wire && IsProto wire)
      end) /\
  forall query status value v, In query (queries (_pending c) slot) -> status_valid status = true -> answer_value status value = Some v ->
    let c' := OnRespondCvarValue status_valid slot (answer_to query status value) [] c in
    _called c' = _called c ++ [mkCall (Callback query) slot (Name query) (occupant c slot) status v] /\
    _called (OnRespondCvarValue status_valid slot (answer_to query status value) [] c') = _called c'.
Proof.
  intros c Hv. assert (answers status_valid c) as Hc by (apply convars_answers, answers_new). split.
  - intros name cb now wire Hh Hn. unfold Query. cbn.
    assert (_hook c = true) as -> by (subst hook; apply convars_hook).
    rewrite Hv, (proj2 (text_eqb_false _ _) Hn). cbn [negb orb]. rewrite (ask_accepts status_valid); [done|by apply Prune_answers|done].
  - intros query status value v Hin Hs Ev. rewrite (answer_found status_valid _ _ _ _ _ v Hc Hv Hin Hs Ev).
    split; [done|]. pose proof (answers_table _ _ Hc) as Ht. unfold answer_to. rewrite answer_unasked; [done|]. cbn.
    rewrite queries_set by (done || apply Ht). rewrite Z.eqb_refl. apply find_erased. by apply table_slots.
Qed.

(** Two convars asked of a client, one of them twice; the first is answered with the wrong name, then rightly and again, and
    its callback asks anew; the player then leaves before the second answer. *)
Definition a_request (name : string) (cb now : Z) : Request := mkRequest 3 (lit name) (Some cb) (double_of now) (mkWire true true true).
Definition some_queries : list convars_event :=
  [Queried (a_request "rate" 1 0); Queried (a_request "fov" 2 1); Queried (a_request "rate" 3 2);
   Responded 3 (mkResponse (Some 1) (Some 0) (Some $"fov") (Some $"90")) [];
   Responded 3 (mkResponse (Some 1) (Some 0) (Some $"rate") (Some $"1")) [a_request "rate" 4 3];
   Responded 3 (mkResponse (Some 1) (Some 0) (Some $"rate") (Some $"2")) []].

Lemma answer_reaches_callback_witness :
  let c := service (fun status => (0 <=? status) && (status <=? 3)) true some_queries in
  map Call_Callback (_called c) = [3] /\
  _called (OnRespondCvarValue (fun status => (0 <=? status) && (status <=? 3)) 3 (answer_to (mkQuery $"fov" 2 (double_of 1) 2) 1 None) [] c) =
    _called c ++ [mkCall 2 3 $"fov" 0 1 []] /\
  map Call_Callback (_called (on_convars_event (fun _ => true) (ConVars_SlotChanged 3 c) (Responded 3 (mkResponse (Some 2) (Some 1) (Some $"fov") None) []))) = [3].
Proof.
  intros c. split; [by vm_compute|]. split; [|by vm_compute].
  destruct (answer_reaches_callback (fun status => (0 <=? status) && (status <=? 3)) true some_queries 3 eq_refl) as [_ H].
  refine (proj1 (H (mkQuery $"fov" 2 (double_of 1) 2) 1 None [] _ eq_refl eq_refl)). left. by vm_compute.
Defined.

(** The callbacks for one convar do not share its request: the last replaces the others, which are never called; and the
    request keeps the time it was first sent. *)
Example last_callback_replaces :
  let q := _pending (service (fun _ => true) true [Queried (a_request "rate" 1 0); Queried (a_request "rate" 2 9)]) in
  map Callback (queries q 3) = [2] /\ map SentAtSec (queries q 3) = [double_of 0] /\ queries (Prune 3 (double_of 10) q) 3 = [].
Proof. by vm_compute. Qed.
