(* ===== verification/Vote.v ===== *)
(** * The yes/no vote: [src/Hooks/Vote.cpp], [include/VoltMod/Hooks/Vote.hpp], [src/Engine/Net/NetMessage.cpp]

    One vote at a time; its callbacks may vote, end it and start the next. *)

From S2P Require Import Prelude Text Identity.

Inductive VoteEndReason := AllVoted | TimeUp | Cancelled.

#[export] Instance VoteEndReason_eq_dec : EqDecision VoteEndReason.
Proof. solve_decision. Defined.

Record VoteTally := mkTally { Eligible : Z; Yes : Z; No : Z }.
Definition Tally_Cast (t : VoteTally) : Z := Yes t + No t.

(** [Passed] is [None] when the callback is empty; [Finished] is whether there is one. What they do besides is in [_script]. *)
Record VoteRequest := mkVoteRequest {
  Title : text; Detail : text; DurationMs : Z; Caller : Z; Passed : option (VoteTally -> bool); Finished : bool;
}.

(** The engine's vote controller. *)
Record Controller := mkController { PotentialVotes : Z; IsYesNoVote : bool; OnlyTeamToVote : Z; ActiveIssueIndex : Z }.

Definition YesNoIssueIndex : Z := 2.
Definition NoIssue : Z := -1.
Definition AllTeams : Z := -1.
Definition YesOption : Z := 0.
Definition NoOption : Z := 1.

(** [Timeout] and [Close] are the subscriptions held, by number. *)
Record Ballot := mkBallot { Ballot_Request : VoteRequest; Tally : VoteTally; Waiting : PerSlot bool; Timeout : Z; Close : option Z }.

(** What the outside sees: events fired, messages posted and callbacks called. *)
Inductive note :=
| VoteCast (slot option_ : Z)
| VoteChanged (tally : VoteTally)
| VoteStart (recipients : list Z) (caller : Z) (title detail : text)
| VotePass (recipients : list Z) (title detail : text)
| VoteFailed (recipients : list Z)
| AskedPassed (tally : VoteTally)
| ToldFinished (passed : bool) (reason : VoteEndReason).

Inductive vote_event :=
| Starts (request : VoteRequest)
| Ends (reason : VoteEndReason)
| Votes (slot : Z) (option_ : text)
| Joins (slot : Z) (bot : bool)
| Leaving (slot : Z)  (** [Disconnected] is raised, the player still in the roster *)
| Left (slot : Z)
| Fires (timer : Z)  (** the scheduler runs a timer, if it is still subscribed *)
| MapChanges (present : bool).  (** a new map, and whether it has a controller *)

(** [_players] is the roster: slots, and whether each is a bot; [_controller] is the map's controller; [_next] numbers the
    scheduler's subscriptions; [_cached] are the messages resolved. [_script] is what the callbacks do, one list for each
    call of one, in order. [_ended] counts the votes that ended, and [_voters] are the ballots taken in the running one. *)
Record Vote := mkVote {
  _running : option Ballot;
  _cached : list text;
  _players : list (Z * bool);
  _controller : option Controller;
  _next : Z;
  _script : list (list vote_event);
  _notes : list note;
  _started : nat;
  _ended : nat;
  _voters : list (Z * bool);
}.

Definition set_running r v := mkVote r (_cached v) (_players v) (_controller v) (_next v) (_script v) (_notes v) (_started v) (_ended v) (_voters v).
Definition set_cached x v := mkVote (_running v) x (_players v) (_controller v) (_next v) (_script v) (_notes v) (_started v) (_ended v) (_voters v).
Definition set_players x v := mkVote (_running v) (_cached v) x (_controller v) (_next v) (_script v) (_notes v) (_started v) (_ended v) (_voters v).
Definition set_controller x v := mkVote (_running v) (_cached v) (_players v) x (_next v) (_script v) (_notes v) (_started v) (_ended v) (_voters v).
Definition set_next x v := mkVote (_running v) (_cached v) (_players v) (_controller v) x (_script v) (_notes v) (_started v) (_ended v) (_voters v).
Definition set_script x v := mkVote (_running v) (_cached v) (_players v) (_controller v) (_next v) x (_notes v) (_started v) (_ended v) (_voters v).
Definition log x v := mkVote (_running v) (_cached v) (_players v) (_controller v) (_next v) (_script v) (_notes v ++ [x]) (_started v) (_ended v) (_voters v).
Definition count_started v := mkVote (_running v) (_cached v) (_players v) (_controller v) (_next v) (_script v) (_notes v) (S (_started v)) (_ended v) [].
Definition count_ended v := mkVote (_running v) (_cached v) (_players v) (_controller v) (_next v) (_script v) (_notes v) (_started v) (S (_ended v)) (_voters v).
Definition took_ballot x v := mkVote (_running v) (_cached v) (_players v) (_controller v) (_next v) (_script v) (_notes v) (_started v) (_ended v) (_voters v ++ [x]).

Definition Vote_new (script : list (list vote_event)) : Vote := mkVote None [] [] None 0 script [] O O [].

Definition InProgress (v : Vote) : bool := bool_decide (is_Some (_running v)).

Section Vote.
(** What the engine answers: whether it has its message interfaces, which messages it knows, and whether it can make an
    event, or a message that is a protobuf one. *)
Context (has_interfaces : bool) (knows : text -> bool) (creates : note -> bool) (allocates is_proto : note -> bool).

(** [PostUserMessage]; [fill] sets the fields [x] shows. *)
Definition PostUserMessage (name : text) (x : note) (v : Vote) : bool * Vote :=
  if negb has_interfaces then (false, v)
  else
    let cached := bool_decide (name ∈ _cached v) in
    let v := if negb cached && knows name then set_cached (_cached v ++ [name]) v else v in
    if negb (cached || knows name) then (false, v)
    else if negb (allocates x) then (false, v)
    else if is_proto x then (true, log x v) else (false, v).

(** [CreateEvent], the fields, and [FireEvent]. *)
Definition publish (x : note) (v : Vote) : Vote := if creates x then log x v else v.

Definition PublishBallot (slot option_ : Z) (v : Vote) : Vote := publish (VoteCast slot option_) v.
Definition PublishCounts (tally : VoteTally) (v : Vote) : Vote := publish (VoteChanged tally) v.

Definition Recipients (v : Vote) : list Z := map fst (List.filter (fun player => negb player.2) (_players v)).

Definition SendStart (r : VoteRequest) (v : Vote) : Vote :=
  (PostUserMessage $"CCSUsrMsg_VoteStart" (VoteStart (Recipients v) (Caller r) (Title r) (Detail r)) v).2.

Definition SendOutcome (r : VoteRequest) (passed : bool) (v : Vote) : Vote :=
  (if passed then PostUserMessage $"CCSUsrMsg_VotePass" (VotePass (Recipients v) (Title r) (Detail r)) v
   else PostUserMessage $"CCSUsrMsg_VoteFailed" (VoteFailed (Recipients v)) v).2.

Definition with_controller (f : Controller -> Controller) (v : Vote) : Vote :=
  match _controller v with Some c => set_controller (Some (f c)) v | None => v end.

Definition SetActiveIssueIndex (i : Z) (c : Controller) : Controller := mkController (PotentialVotes c) (IsYesNoVote c) (OnlyTeamToVote c) i.

(** The loop over the players. *)
Definition admit_voter (b : PerSlot bool * Z) (player : Z * bool) : PerSlot bool * Z :=
  let '(waiting, eligible) := b in
  let '(slot, bot) := player in
  if negb bot && IsValidSlot slot then (PerSlot_set waiting slot true, eligible + 1) else (waiting, eligible).

(** A subscription of the scheduler's. *)
Definition subscribe (v : Vote) : Z * Vote := (_next v, set_next (_next v + 1) v).

Definition Start (request : VoteRequest) (v : Vote) : bool * Vote :=
  match _running v, Passed request with
  | None, Some _ =>
      let '(waiting, eligible) := fold_left admit_voter (_players v) (PerSlot_new false, 0) in
      if eligible =? 0 then (false, v)
      else
        let v := with_controller (fun _ => mkController eligible true AllTeams YesNoIssueIndex) v in
        let tally := mkTally eligible 0 0 in
        let v := count_started v in
        let v := PublishCounts tally v in
        let v := SendStart request v in
        let '(timeout, v) := subscribe v in
        (true, set_running (Some (mkBallot request tally waiting timeout None)) v)
  | _, _ => (false, v)
  end.

(** Each assignment drops the subscription before it. *)
Definition CloseIfAllVoted (b : Ballot) (v : Vote) : Vote :=
  if Tally_Cast (Tally b) <? Eligible (Tally b) then set_running (Some b) v
  else
    let '(close, v) := subscribe v in
    set_running (Some (mkBallot (Ballot_Request b) (Tally b) (Waiting b) (Timeout b) (Some close))) v.

Definition is_waiting (b : Ballot) (slot : Z) : bool := default false (PerSlot_get (Waiting b) slot).

Definition TryCastBallot (slot : Z) (option_ : text) (v : Vote) : bool * Vote :=
  match _running v with
  | None => (false, v)
  | Some b =>
      if negb (IsValidSlot slot) || negb (is_waiting b slot) then (true, v)
      else
        let t := Tally b in
        let count yes (tally : VoteTally) (v : Vote) :=
          let v := took_ballot (slot, yes) v in
          let v := PublishBallot slot (if yes : bool then YesOption else NoOption) v in
          let v := PublishCounts tally v in
          (true, CloseIfAllVoted (mkBallot (Ballot_Request b) tally (PerSlot_set (Waiting b) slot false) (Timeout b) (Close b)) v) in
        if text_eqb option_ $"option1" then count true (mkTally (Eligible t) (Yes t + 1) (No t)) v
        else if text_eqb option_ $"option2" then count false (mkTally (Eligible t) (Yes t) (No t + 1)) v
        else (true, v)
  end.

Definition DropVoter (slot : Z) (v : Vote) : Vote :=
  match _running v with
  | None => v
  | Some b =>
      if negb (IsValidSlot slot) || negb (is_waiting b slot) then v
      else
        let t := Tally b in
        let tally := mkTally (Eligible t - 1) (Yes t) (No t) in
        let v := PublishCounts tally v in
        CloseIfAllVoted (mkBallot (Ballot_Request b) tally (PerSlot_set (Waiting b) slot false) (Timeout b) (Close b)) v
  end.

(** [runs] performs what a callback does. *)
Definition callback (runs : list vote_event -> Vote -> outcome Vote) (v : Vote) : outcome Vote :=
  runs (hd [] (_script v)) (set_script (tl (_script v)) v).

Definition Finish (runs : list vote_event -> Vote -> outcome Vote) (reason : VoteEndReason) (v : Vote) : outcome Vote :=
  match _running v with
  | None => Undefined
  | Some ballot =>
      let v := count_ended (set_running None v) in
      let request := Ballot_Request ballot in
      run! (passed, v) :=
        if bool_decide (reason = Cancelled) then Returns (false, v)
        else match Passed request with
        | None => Undefined
        | Some decide_ => run! v := callback runs (log (AskedPassed (Tally ballot)) v) in Returns (decide_ (Tally ballot), v)
        end in
      let v := SendOutcome request passed v in
      let v := with_controller (SetActiveIssueIndex NoIssue) v in
      if Finished request then callback runs (log (ToldFinished passed reason) v) else Returns v
  end.

Definition End_ (runs : list vote_event -> Vote -> outcome Vote) (reason : VoteEndReason) (v : Vote) : outcome Vote :=
  match _running v with Some _ => Finish runs reason v | None => Returns v end.

(** A timer runs what it was given, while its subscription is held. *)
Definition fire (runs : list vote_event -> Vote -> outcome Vote) (timer : Z) (v : Vote) : outcome Vote :=
  match _running v with
  | Some b =>
      if Timeout b =? timer then Finish runs TimeUp v
      else if bool_decide (Close b = Some timer) then Finish runs AllVoted v
      else Returns v
  | None => Returns v
  end.

(** The roster keeps one player a slot. *)
Definition others (slot : Z) (players : list (Z * bool)) : list (Z * bool) := List.filter (fun player => negb (player.1 =? slot)) players.

Definition fresh_controller : Controller := mkController 0 false AllTeams NoIssue.

Definition on_vote_event (runs : list vote_event -> Vote -> outcome Vote) (e : vote_event) (v : Vote) : outcome Vote :=
  match e with
  | Starts request => Returns (Start request v).2
  | Ends reason => End_ runs reason v
  | Votes slot option_ => Returns (TryCastBallot slot option_ v).2
  | Joins slot bot => Returns (set_players (others slot (_players v) ++ [(slot, bot)]) v)
  | Leaving slot => Returns (DropVoter slot v)
  | Left slot => Returns (set_players (others slot (_players v)) v)
  | Fires timer => fire runs timer v
  | MapChanges present => Returns (set_controller (if present then Some fresh_controller else None) v)
  end.

Fixpoint run_events (fuel : nat) (events : list vote_event) (v : Vote) : outcome Vote :=
  match events with
  | [] => Returns v
  | e :: events =>
      match fuel with
      | O => OutOfFuel
      | S fuel => run! v := on_vote_event (run_events fuel) e v in run_events fuel events v
      end
  end.
End Vote.

(** ** Counting who waits *)

Definition count_waiting (w : PerSlot bool) : nat := length (List.filter (fun x => x) w).

Arguments count_waiting : simpl never.

Lemma count_insert (w : list bool) i x y :
  w !! i = Some y -> (length (List.filter (fun x => x) (<[i := x]> w)) + Nat.b2n y = length (List.filter (fun x => x) w) + Nat.b2n x)%nat.
Proof.
  revert i. induction w as [|b w IH]; intros [|i]; cbn; try done.
  - intros [= ->]. destruct x, y; cbn; lia.
  - intros H. specialize (IH _ H). destruct b; cbn [length]; [apply (f_equal S), IH|apply IH].
Qed.

Lemma count_set w slot x y :
  PerSlot_get w slot = Some y -> (count_waiting (PerSlot_set w slot x) + Nat.b2n y = count_waiting w + Nat.b2n x)%nat.
Proof. unfold PerSlot_get, PerSlot_set, count_waiting. destruct (IsValidSlot slot); [|done]. apply count_insert. Qed.

Lemma get_default w slot : PerSlot_wf w -> IsValidSlot slot = true -> PerSlot_get w slot = Some (default false (PerSlot_get w slot)).
Proof.
  unfold PerSlot_get, PerSlot_wf, IsValidSlot, MaxPlayers. intros Hl Hv. rewrite Hv. bools.
  destruct (w !! Z.to_nat slot) eqn:E; [done|]. apply lookup_ge_None in E. lia.
Qed.

Lemma count_bound w : PerSlot_wf w -> (count_waiting w <= 64)%nat.
Proof.
  unfold PerSlot_wf, count_waiting, MaxPlayers. intros Hl. change 64%nat with (Z.to_nat 64). rewrite <- Hl. apply filter_length_le.
Qed.

(** Those admitted are counted once each. *)
Lemma admit_counts players w e w' e' :
  fold_left admit_voter players (w, e) = (w', e') -> PerSlot_wf w -> NoDup (map fst players) ->
  (forall slot, In slot (map fst players) -> default false (PerSlot_get w slot) = false) -> e = Z.of_nat (count_waiting w) ->
  PerSlot_wf w' /\ e' = Z.of_nat (count_waiting w').
Proof.
  revert w e. induction players as [|[slot bot] players IH]; cbn [fold_left map admit_voter]; intros w e; [by intros [= <- <-]|].
  intros H Hw [Hn Hd]%NoDup_cons Hfree He. destruct (negb bot && IsValidSlot slot) eqn:E; bools.
  - apply (IH _ _ H); [by apply PerSlot_set_wf|done| |].
    + intros s Hin. destruct (IsValidSlot s) eqn:Hs; [|unfold PerSlot_get; by rewrite Hs]. rewrite PerSlot_get_set by done.
      destruct (Z.eqb_spec slot s) as [->|]; [|apply Hfree; by right]. exfalso. apply Hn. by apply list_elem_of_In.
    + pose proof (count_set w slot true _ (get_default _ _ Hw H1)) as Hc. rewrite (Hfree slot) in Hc by by left. cbn in Hc. lia.
  - apply (IH _ _ H); try done. intros s Hin. apply Hfree. by right.
Qed.

(** ** The running vote adds up *)

Definition ayes (voters : list (Z * bool)) : Z := Z.of_nat (length (List.filter (fun x => x.2) voters)).
Definition noes (voters : list (Z * bool)) : Z := Z.of_nat (length (List.filter (fun x => negb x.2) voters)).

Lemma ayes_noes voters : ayes voters + noes voters = Z.of_nat (length voters).
Proof. unfold ayes, noes. rewrite <- (filter_length (fun x => x.2) voters). lia. Qed.

Definition tally_fine (t : VoteTally) : Prop := 0 <= Yes t /\ 0 <= No t /\ Tally_Cast t <= Eligible t <= MaxPlayers.

(** Whoever is eligible waits or has voted, once; the close is scheduled when nobody waits. *)
Record ballot_ok (voters : list (Z * bool)) (next : Z) (b : Ballot) : Prop := {
  ballot_passed : is_Some (Passed (Ballot_Request b));
  ballot_wf : PerSlot_wf (Waiting b);
  ballot_tally : Tally b = mkTally (Z.of_nat (count_waiting (Waiting b)) + Z.of_nat (length voters)) (ayes voters) (noes voters);
  ballot_eligible : Eligible (Tally b) <= MaxPlayers;
  ballot_voters : NoDup (map fst voters);
  ballot_voted : forall slot, In slot (map fst voters) -> IsValidSlot slot = true /\ is_waiting b slot = false;
  ballot_close : is_Some (Close b) <-> count_waiting (Waiting b) = O;
  ballot_timers : Timeout b < next /\ forall close, Close b = Some close -> close < next /\ close <> Timeout b;
}.

Lemma ballot_fine voters next b : ballot_ok voters next b -> tally_fine (Tally b).
Proof.
  intros Hb. pose proof (ballot_eligible _ _ _ Hb) as He. pose proof (ayes_noes voters) as Hs. rewrite (ballot_tally _ _ _ Hb) in *.
  unfold tally_fine, Tally_Cast, ayes, noes, MaxPlayers in *. cbn in *. lia.
Qed.

Definition note_ok (x : note) : Prop := match x with AskedPassed t => tally_fine t | _ => True end.

Record base (v : Vote) : Prop := {
  base_players : NoDup (map fst (_players v));
  base_count : _started v = (_ended v + Nat.b2n (InProgress v))%nat;
  base_notes : Forall note_ok (_notes v);
}.

Record sound (v : Vote) : Prop := {
  sound_base : base v;
  sound_running : forall b, _running v = Some b -> ballot_ok (_voters v) (_next v) b;
}.

(** Without a vote, the issue is not active. *)
Definition quiet (v : Vote) : Prop := _running v = None -> forall c, _controller v = Some c -> ActiveIssueIndex c = NoIssue.

Lemma InProgress_Some v b : _running v = Some b -> InProgress v = true.
Proof. unfold InProgress. intros ->. by apply bool_decide_eq_true. Qed.

Lemma InProgress_None v : _running v = None -> InProgress v = false.
Proof. unfold InProgress. intros ->. apply bool_decide_eq_false. by intros [? [=]]. Qed.

(** What is published and posted changes nothing else. *)
Definition only_notes (v v' : Vote) : Prop :=
  exists cached more, v' = set_cached cached (mkVote (_running v) (_cached v) (_players v) (_controller v) (_next v) (_script v) (_notes v ++ more) (_started v) (_ended v) (_voters v)) /\
    Forall note_ok more.

Lemma only_notes_refl v : only_notes v v.
Proof. exists (_cached v), []. rewrite app_nil_r. split; [by destruct v|constructor]. Qed.

Lemma only_notes_trans v1 v2 v3 : only_notes v1 v2 -> only_notes v2 v3 -> only_notes v1 v3.
Proof.
  intros (c1 & m1 & -> & H1) (c2 & m2 & -> & H2). exists c2, (m1 ++ m2). cbn. rewrite <- app_assoc. split; [done|]. by apply Forall_app.
Qed.

Lemma only_notes_log x v : note_ok x -> only_notes v (log x v).
Proof. intros Hx. exists (_cached v), [x]. split; [by destruct v|by constructor]. Qed.

Lemma only_notes_base v v' : only_notes v v' -> base v -> base v'.
Proof. intros (c & m & -> & Hm) [Hp Hc Hn]. constructor; cbn; try done. by apply Forall_app. Qed.

Lemma only_notes_sound v v' : only_notes v v' -> sound v -> sound v'.
Proof. intros H [Hb Hr]. constructor; [by eapply only_notes_base|]. by destruct H as (c & m & -> & Hm). Qed.

Lemma only_notes_quiet v v' : only_notes v v' -> quiet v -> quiet v'.
Proof. intros (c & m & -> & Hm). done. Qed.

Section Runs.
Context (has_interfaces : bool) (knows : text -> bool) (creates : note -> bool) (allocates is_proto : note -> bool).

Notation publish := (publish creates).
Notation post := (PostUserMessage has_interfaces knows allocates is_proto).

Lemma publish_notes x v : note_ok x -> only_notes v (publish x v).
Proof. unfold publish. intros Hx. case_match; [by apply only_notes_log|apply only_notes_refl]. Qed.

Lemma post_notes name x v : note_ok x -> only_notes v (post name x v).2.
Proof.
  intros Hx. unfold PostUserMessage. destruct has_interfaces; [|apply only_notes_refl]. cbn [negb].
  set (v1 := if negb (bool_decide (name ∈ _cached v)) && knows name then set_cached (_cached v ++ [name]) v else v).
  assert (only_notes v v1) as H1.
  { unfold v1. case_match; [|apply only_notes_refl]. exists (_cached v ++ [name]), []. rewrite app_nil_r. split; [by destruct v|constructor]. }
  repeat case_match; cbn [snd]; try done; try apply only_notes_refl. eapply only_notes_trans; [done|]. by apply only_notes_log.
Qed.

Lemma SendStart_notes r v : only_notes v (SendStart has_interfaces knows allocates is_proto r v).
Proof. by apply post_notes. Qed.

Lemma SendOutcome_notes r passed v : only_notes v (SendOutcome has_interfaces knows allocates is_proto r passed v).
Proof. unfold SendOutcome. case_match; by apply post_notes. Qed.

(** *** The operations *)

(** A new tally closes the vote or leaves it running. *)
Lemma Close_sound b v :
  (forall close, Close b = Some close -> close < _next v /\ close <> Timeout b) -> Timeout b < _next v ->
  is_Some (Passed (Ballot_Request b)) -> PerSlot_wf (Waiting b) ->
  Tally b = mkTally (Z.of_nat (count_waiting (Waiting b)) + Z.of_nat (length (_voters v))) (ayes (_voters v)) (noes (_voters v)) ->
  Eligible (Tally b) <= MaxPlayers -> NoDup (map fst (_voters v)) -> (forall slot, In slot (map fst (_voters v)) -> IsValidSlot slot = true /\ is_waiting b slot = false) ->
  (is_Some (Close b) -> count_waiting (Waiting b) = O) -> InProgress v = true -> base v ->
  sound (CloseIfAllVoted b v).
Proof.
  intros Hct Ht Hp Hw Htal He Hn Hv Hc Hin [Hpl Hcnt Hno].
  unfold CloseIfAllVoted. pose proof (ayes_noes (_voters v)) as Hsum.
  assert (Tally_Cast (Tally b) = Z.of_nat (length (_voters v)) /\ Eligible (Tally b) = Z.of_nat (count_waiting (Waiting b)) + Z.of_nat (length (_voters v))) as [E1 E2]
    by (rewrite Htal; unfold Tally_Cast; cbn; lia).
  destruct (Z.ltb_spec (Tally_Cast (Tally b)) (Eligible (Tally b))).
  - constructor; [constructor; cbn; try done; by rewrite Hcnt, Hin|]. intros b' [= <-]. constructor; try done. split; [done|]. lia.
  - constructor; [constructor; cbn; try done; by rewrite Hcnt, Hin|]. intros b' [= <-]. constructor; cbn; try done.
    + split; [lia|eauto].
    + split; [lia|]. intros close [= <-]. lia.
Qed.

Lemma is_waiting_set b slot slot' x t c tm :
  PerSlot_wf (Waiting b) -> IsValidSlot slot' = true ->
  is_waiting (mkBallot (Ballot_Request b) t (PerSlot_set (Waiting b) slot x) tm c) slot' = if slot =? slot' then x else is_waiting b slot'.
Proof. intros Hw Hv. unfold is_waiting. cbn. rewrite PerSlot_get_set by done. by case_match. Qed.

(** One who waits is counted once less. *)
Lemma count_served b slot :
  PerSlot_wf (Waiting b) -> IsValidSlot slot = true -> is_waiting b slot = true ->
  S (count_waiting (PerSlot_set (Waiting b) slot false)) = count_waiting (Waiting b).
Proof.
  intros Hw Hv Hs. pose proof (count_set (Waiting b) slot false _ (get_default _ _ Hw Hv)) as Hc. unfold is_waiting in Hs. rewrite Hs in Hc. cbn in Hc. lia.
Qed.

Lemma DropVoter_sound slot v : sound v -> sound (DropVoter creates slot v).
Proof.
  intros Hs. unfold DropVoter. destruct (_running v) as [b|] eqn:Er; [|done]. destruct (_ || _) eqn:E; [done|]. bools.
  pose proof (sound_running _ Hs _ Er) as [Hp Hw Htal He Hn Hv Hc [Ht Hct]]. rename H into Hval, H0 into Hwait.
  pose proof (count_served b slot Hw Hval Hwait) as Hcount.
  set (tally := mkTally (Eligible (Tally b) - 1) (Yes (Tally b)) (No (Tally b))).
  destruct (publish_notes (VoteChanged tally) v I) as (c & m & Ev & Hm). unfold PublishCounts.
  assert (base (publish (VoteChanged tally) v)) as Hs' by (eapply only_notes_base; [by apply publish_notes|apply Hs]).
  rewrite Ev in *. apply Close_sound; cbn; try done.
  - by apply PerSlot_set_wf.
  - unfold tally. rewrite Htal. cbn. f_equal. lia.
  - lia.
  - intros s Hin. destruct (Hv s Hin) as [Hsv Hsw]. split; [done|]. rewrite is_waiting_set by done. by destruct (slot =? s).
  - intros Hcl. apply Hc in Hcl. lia.
  - by apply (InProgress_Some _ b).
Qed.

Lemma count_ballot slot yes voters :
  ayes (voters ++ [(slot, yes)]) = ayes voters + (if yes then 1 else 0) /\ noes (voters ++ [(slot, yes)]) = noes voters + (if yes then 0 else 1).
Proof. unfold ayes, noes. rewrite !List.filter_app, !length_app. destruct yes; cbn; lia. Qed.

Lemma TryCastBallot_sound slot option_ v : sound v -> sound (TryCastBallot creates slot option_ v).2.
Proof.
  intros Hs. unfold TryCastBallot. destruct (_running v) as [b|] eqn:Er; [|done]. destruct (_ || _) eqn:E; [done|]. bools.
  pose proof (sound_running _ Hs _ Er) as [Hp Hw Htal He Hn Hv Hc [Ht Hct]]. rename H into Hval, H0 into Hwait.
  pose proof (count_served b slot Hw Hval Hwait) as Hcount.
  assert (forall yes tally, tally = mkTally (Eligible (Tally b)) (Yes (Tally b) + (if yes : bool then 1 else 0)) (No (Tally b) + (if yes then 0 else 1)) ->
    sound (CloseIfAllVoted (mkBallot (Ballot_Request b) tally (PerSlot_set (Waiting b) slot false) (Timeout b) (Close b))
      (PublishCounts creates tally (PublishBallot creates slot (if yes then YesOption else NoOption) (took_ballot (slot, yes) v))))) as Hcast.
  { intros yes tally ->. set (tally := mkTally _ _ _).
    assert (only_notes (took_ballot (slot, yes) v) (PublishCounts creates tally (PublishBallot creates slot (if yes then YesOption else NoOption) (took_ballot (slot, yes) v)))) as (c & m & -> & Hm).
    { eapply only_notes_trans; by apply publish_notes. }
    destruct (count_ballot slot yes (_voters v)) as [Ey En].
    apply Close_sound; cbn; try done; rewrite ?Ey, ?En.
    - by apply PerSlot_set_wf.
    - unfold tally. rewrite Htal. cbn. rewrite length_app. cbn. f_equal. lia.
    - rewrite map_app. apply NoDup_app. split; [done|]. split; [|apply NoDup_singleton]. cbn. intros x Hx ->%list_elem_of_singleton.
      apply list_elem_of_In, Hv in Hx as [_ Hx]. congruence.
    - intros s. rewrite map_app. intros [Hin|[<-|[]]]%in_app_or.
      + destruct (Hv s Hin) as [Hsv Hsw]. split; [done|]. rewrite is_waiting_set by done. by destruct (slot =? s).
      + split; [done|]. rewrite is_waiting_set by done. by rewrite Z.eqb_refl.
    - intros Hcl. apply Hc in Hcl. lia.
    - by apply (InProgress_Some _ b).
    - destruct Hs as [[Hpl Hcn Hno] _]. constructor; cbn; try done. by apply Forall_app. }
  destruct (text_eqb option_ $"option1"); [cbn [snd]; apply (Hcast true); f_equal; lia|].
  destruct (text_eqb option_ $"option2"); [cbn [snd]; apply (Hcast false); f_equal; lia|done].
Qed.

Lemma with_controller_sound f v : sound v -> sound (with_controller f v).
Proof. intros Hs. unfold with_controller. destruct (_controller v); [|done]. destruct Hs as [[] ?]. by constructor. Qed.

Lemma Start_sound request v : sound v -> sound (Start has_interfaces knows creates allocates is_proto request v).2.
Proof.
  intros Hs. unfold Start. destruct (_running v) eqn:Er; [done|]. destruct (Passed request) as [decide_|] eqn:Ep; [|done].
  destruct (fold_left admit_voter (_players v) (PerSlot_new false, 0)) as [waiting eligible] eqn:Ef.
  destruct (admit_counts _ _ _ _ _ Ef) as [Hw He]; [apply PerSlot_new_wf|apply Hs|intros slot _; apply PerSlot_get_new|by vm_compute|].
  destruct (Z.eqb_spec eligible 0); [done|]. set (v1 := with_controller _ v). assert (sound v1) as H1 by by apply with_controller_sound.
  assert (_running v1 = None) as Er1 by (unfold v1, with_controller; by destruct (_controller v)).
  assert (base (set_running (Some (mkBallot request (mkTally eligible 0 0) waiting 0 None)) (count_started v1))) as Hb.
  { destruct H1 as [[Hp Hc Hn] _]. constructor; cbn; try done. rewrite Hc, (InProgress_None _ Er1). cbn. lia. }
  clearbody v1. set (v2 := SendStart _ _ _ _ _ _).
  assert (only_notes (count_started v1) v2) as (c & m & -> & Hm) by (eapply only_notes_trans; [apply (publish_notes (VoteChanged (mkTally eligible 0 0))); done|apply SendStart_notes]).
  pose proof (count_bound waiting Hw). cbn [snd subscribe]. unfold subscribe. destruct Hb as [Hp Hc Hn]. cbn in Hp, Hc, Hn. constructor; [constructor; cbn; try done; by apply Forall_app|].
  cbn. intros b [= <-]. constructor; cbn; try done.
  - rewrite He. f_equal. lia.
  - unfold MaxPlayers. lia.
  - constructor.
  - split; [by intros [? [=]]|lia].
  - split; [lia|done].
Qed.

(** An operation that is not refused leaves a vote running. *)
Definition settled (v v' : Vote) : Prop := v' = v \/ (is_Some (_running v') /\ _script v' = _script v).

Lemma Close_settled v b v' : only_notes v v' -> is_Some (_running (CloseIfAllVoted b v')) /\ _script (CloseIfAllVoted b v') = _script v.
Proof. intros (c & m & -> & _). unfold CloseIfAllVoted, subscribe. case_match; cbn; eauto. Qed.

Lemma Start_settled request v : settled v (Start has_interfaces knows creates allocates is_proto request v).2.
Proof.
  unfold Start. destruct (_running v); [by left|]. destruct (Passed request); [|by left]. destruct (fold_left _ _ _) as [w e]. case_match; [by left|]. right.
  set (v1 := with_controller _ v). assert (_script v1 = _script v) as <- by (unfold v1, with_controller; by destruct (_controller v)). clearbody v1.
  set (v2 := SendStart _ _ _ _ _ _).
  assert (only_notes (count_started v1) v2) as (c & m & -> & Hm) by (eapply only_notes_trans; [apply (publish_notes (VoteChanged (mkTally e 0 0))); done|apply SendStart_notes]).
  cbn. eauto.
Qed.

Lemma DropVoter_settled slot v : settled v (DropVoter creates slot v).
Proof. unfold DropVoter. destruct (_running v); [|by left]. case_match; [by left|]. right. apply Close_settled. by apply publish_notes. Qed.

Lemma TryCastBallot_settled slot option_ v : settled v (TryCastBallot creates slot option_ v).2.
Proof.
  unfold TryCastBallot. destruct (_running v) as [running|]; [|by left]. case_match; [by left|].
  assert (forall x b tally o, settled v (CloseIfAllVoted b (PublishCounts creates tally (PublishBallot creates slot o (took_ballot x v))))) as Hc.
  { intros x b tally o. right. change (_script v) with (_script (took_ballot x v)). apply Close_settled. eapply only_notes_trans; by apply publish_notes. }
  repeat case_match; cbn [snd]; auto; by left.
Qed.

Lemma others_NoDup slot players : NoDup (map fst players) -> NoDup (map fst (others slot players)).
Proof.
  unfold others. induction players as [|[s bot] players IH]; cbn; [done|]. intros [Hn Hd]%NoDup_cons. specialize (IH Hd). destruct (negb _); cbn; [|done].
  apply NoDup_cons. split; [|done]. intros Hin. apply Hn. apply list_elem_of_In, in_map_iff in Hin as (x & <- & [Hin _]%filter_In). apply list_elem_of_In. by apply in_map.
Qed.

Lemma others_gone slot players : slot ∉ map fst (others slot players).
Proof. intros Hin. apply list_elem_of_In, in_map_iff in Hin as (x & <- & [_ H]%filter_In). by rewrite Z.eqb_refl in H. Qed.

(** *** Runs *)

Definition inv (q : Prop) (v : Vote) : Prop := sound v /\ (q -> quiet v).

Definition script_size (v : Vote) : nat := list_sum (map (fun l => S (length l)) (_script v)).

Notation run := (run_events has_interfaces knows creates allocates is_proto).

Definition runs_ok (n : nat) (runs : list vote_event -> Vote -> outcome Vote) : Prop :=
  forall events v q, inv q v -> (length events + script_size v < n)%nat -> exists v', runs events v = Returns v' /\ inv q v' /\ (script_size v' <= script_size v)%nat.

Lemma callback_keeps n runs v q :
  runs_ok n runs -> inv q v -> (script_size v < n)%nat -> exists v', callback runs v = Returns v' /\ inv q v' /\ (script_size v' <= script_size v)%nat.
Proof.
  intros Hr [[[Hp Hc Hn] Hb] Hq] Hn0. unfold callback. assert (inv q (set_script (tl (_script v)) v)) as H1 by (split; [by constructor|done]).
  assert (length (hd [] (_script v)) + script_size (set_script (tl (_script v)) v) <= script_size v)%nat as Hl.
  { unfold script_size. cbn. destruct (_script v) as [|l rest]; cbn; lia. }
  destruct (Hr (hd [] (_script v)) _ q H1) as (v' & -> & Hv' & Hs'); [lia|]. exists v'. split; [done|]. split; [done|]. lia.
Qed.

Lemma only_notes_size v v' : only_notes v v' -> script_size v' = script_size v.
Proof. by intros (c & m & -> & _). Qed.

Lemma with_controller_fields f v : _script (with_controller f v) = _script v /\ _running (with_controller f v) = _running v.
Proof. unfold with_controller. by destruct (_controller v). Qed.

Lemma no_issue_quiet v : quiet (with_controller (SetActiveIssueIndex NoIssue) v).
Proof. unfold quiet, with_controller. destruct (_controller v) as [c|] eqn:E; [cbn; by intros _ c' [= <-]|by rewrite E]. Qed.

(** Ending the vote, whatever its callbacks do meanwhile. *)
Lemma Finish_keeps n runs reason v b :
  runs_ok n runs -> sound v -> _running v = Some b -> (script_size v < n)%nat ->
  exists v', Finish has_interfaces knows allocates is_proto runs reason v = Returns v' /\ sound v' /\ quiet v' /\ (script_size v' <= script_size v)%nat.
Proof.
  intros Hr Hs Er Hn. unfold Finish. rewrite Er. set (v1 := count_ended (set_running None v)). pose proof (sound_running _ Hs _ Er) as Hb.
  assert (sound v1) as H1.
  { destruct Hs as [[Hp Hc Hno] _]. constructor; [constructor; cbn; try done|done]. rewrite Hc, (InProgress_Some _ _ Er). cbn. lia. }
  assert (exists passed v2, (if bool_decide (reason = Cancelled) then Returns (false, v1)
    else match Passed (Ballot_Request b) with None => Undefined
    | Some decide_ => run! v := callback runs (log (AskedPassed (Tally b)) v1) in Returns (decide_ (Tally b), v) end) = Returns (passed, v2) /\
    sound v2 /\ (script_size v2 <= script_size v)%nat) as (passed & v2 & -> & H2 & Hn2).
  { case_bool_decide; [eauto 6|]. destruct (ballot_passed _ _ _ Hb) as [decide_ ->].
    assert (only_notes v1 (log (AskedPassed (Tally b)) v1)) as Hnotes by (apply only_notes_log; by eapply ballot_fine).
    destruct (callback_keeps n runs (log (AskedPassed (Tally b)) v1) False Hr) as (v2 & -> & [H2 _] & Hn2); [split; [by eapply only_notes_sound|done]|done|]. cbn [outcome_bind]. eauto 6. }
  cbn [outcome_bind]. set (v3 := SendOutcome _ _ _ _ _ _ v2). assert (only_notes v2 v3) as Hn3 by apply SendOutcome_notes.
  set (v4 := with_controller _ v3). assert (inv True v4) as H4.
  { split; [apply with_controller_sound; by eapply only_notes_sound|]. intros _. apply no_issue_quiet. }
  assert (script_size v4 <= script_size v)%nat as Hn4.
  { unfold script_size at 1, v4. rewrite (proj1 (with_controller_fields _ v3)). change (script_size v3 <= script_size v)%nat. by rewrite (only_notes_size _ _ Hn3). }
  destruct (Finished _); [|exists v4; destruct H4; auto].
  destruct (callback_keeps n runs (log (ToldFinished passed reason) v4) True Hr) as (v5 & -> & [H5 Hq5] & Hn5).
  { destruct H4 as [Hs4 Hq4]. split; [by eapply only_notes_sound; [apply only_notes_log|]|]. intros _. by eapply only_notes_quiet; [apply only_notes_log|apply Hq4]. }
  { change (script_size v4 < n)%nat. lia. }
  exists v5. split_and!; auto. change (script_size v5 <= script_size v4)%nat in Hn5. lia.
Qed.

Lemma event_keeps n runs e v q :
  runs_ok n runs -> inv q v -> (script_size v < n)%nat ->
  exists v', on_vote_event has_interfaces knows creates allocates is_proto runs e v = Returns v' /\ inv q v' /\ (script_size v' <= script_size v)%nat.
Proof.
  intros Hr [Hs Hq] Hn.
  assert (forall v', sound v' -> settled v v' -> exists v'', Returns v' = Returns v'' /\ inv q v'' /\ (script_size v'' <= script_size v)%nat) as settles.
  { intros v' H1 [->|[[b Eb] E]]; [exists v|exists v']; split_and!; try done; [split; [done|]; unfold quiet; by rewrite Eb|]. unfold script_size. by rewrite E. }
  assert (forall players, NoDup (map fst players) -> exists v'', Returns (set_players players v) = Returns v'' /\ inv q v'' /\ (script_size v'' <= script_size v)%nat) as seats.
  { intros players Hp. exists (set_players players v). split_and!; [done|split; [|done]|done]. destruct Hs as [[] ?]. by constructor. }
  assert (forall reason b, _running v = Some b -> exists v', Finish has_interfaces knows allocates is_proto runs reason v = Returns v' /\ inv q v' /\ (script_size v' <= script_size v)%nat) as finishes.
  { intros reason b Er. destruct (Finish_keeps n runs reason v b Hr Hs Er Hn) as (v' & -> & ? & ? & ?). exists v'. split; [done|]. by split. }
  assert (exists v'', Returns v = Returns v'' /\ inv q v'' /\ (script_size v'' <= script_size v)%nat) as same by (exists v; split_and!; [done|by split|done]).
  destruct e as [request|reason|slot option_|slot bot|slot|slot|timer|present]; cbn [on_vote_event].
  - apply settles; [by apply Start_sound|apply Start_settled].
  - unfold End_. destruct (_running v) as [b|] eqn:Er; [by eapply finishes|done].
  - apply settles; [by apply TryCastBallot_sound|apply TryCastBallot_settled].
  - apply seats. rewrite map_app. apply NoDup_app. split; [apply others_NoDup, Hs|]. split; [|apply NoDup_singleton].
    intros x Hx ->%list_elem_of_singleton. by apply others_gone in Hx.
  - apply settles; [by apply DropVoter_sound|apply DropVoter_settled].
  - apply seats. apply others_NoDup, Hs.
  - unfold fire. destruct (_running v) as [b|] eqn:Er; [|done].
    destruct (Timeout b =? timer); [by eapply finishes|]. case_bool_decide; [by eapply finishes|done].
  - eexists. split; [done|]. split; [|done]. split; [by destruct Hs as [[] ?]; constructor|]. intros _ _ c. cbn. destruct present; [|done]. by intros [= <-].
Qed.

Lemma vote_run_keeps n : runs_ok n (run n).
Proof.
  induction n as [|n IH]; intros events v q Hi Hn; [lia|]. destruct events as [|e events]; cbn [run_events]; [exists v; auto|]. cbn in Hn.
  destruct (event_keeps n (run n) e v q IH Hi) as (v1 & -> & H1 & Hn1); [lia|]. cbn [outcome_bind].
  destruct (IH events v1 q H1) as (v2 & -> & H2 & Hn2); [lia|]. exists v2. split_and!; [done|done|lia].
Qed.
End Runs.

(** Enough fuel: every event and every call a callback makes is performed once, and every callback called once. *)
Definition vote_fuel (events : list vote_event) (script : list (list vote_event)) : nat :=
  S (length events + list_sum (map (fun l => S (length l)) script)).


(** *** Two votes *)

Definition a_vote (title : string) : VoteRequest :=
  mkVoteRequest (lit title) [] 20000 (-1) (Some (fun tally => No tally <? Yes tally)) true.
Definition run_votes (events : list vote_event) (script : list (list vote_event)) : outcome Vote :=
  run_events true (fun _ => true) (fun _ => true) (fun _ => true) (fun _ => true) (vote_fuel events script) events (Vote_new script).

(** Two humans and a bot; one votes twice, one leaves, and the close runs on its tick: the timeout no longer does. *)
Example a_vote_passes :
  match run_votes [MapChanges true; Joins 1 false; Joins 2 false; Joins 3 true; Starts (a_vote "map"); Votes 1 $"option1"; Votes 1 $"option2";
                   Votes 3 $"option2"; Leaving 2; Left 2; Fires 1; Fires 0] [] with
  | Returns v => _ended v = 1%nat /\ InProgress v = false /\
      _notes v = [VoteChanged (mkTally 2 0 0); VoteStart [1; 2] (-1) $"map" []; VoteCast 1 0; VoteChanged (mkTally 2 1 0); VoteChanged (mkTally 1 1 0);
                  AskedPassed (mkTally 1 1 0); VotePass [1] $"map" []; ToldFinished true AllVoted]
  | _ => False
  end.
Proof. by vm_compute. Qed.

(** A vote that [Passed] starts loses its issue to the end of the vote before: it runs, and no key reaches it. *)
Example vote_started_by_passed :
  match run_votes [MapChanges true; Joins 1 false; Starts (a_vote "first"); Ends TimeUp] [[Starts (a_vote "second")]] with
  | Returns v => InProgress v = true /\ option_map ActiveIssueIndex (_controller v) = Some NoIssue
  | _ => False
  end.
Proof. by vm_compute. Qed.

(** A vote started while a player's leaving is told still waits for that player. *)
Example vote_started_while_leaving :
  match run_votes [Joins 1 false; Joins 2 false; Leaving 1; Starts (a_vote "map"); Left 1; Votes 2 $"option1"] [] with
  | Returns v => _players v = [(2, false)] /\ option_map (fun b => (is_waiting b 1, Close b)) (_running v) = Some (true, None)
  | _ => False
  end.
Proof. by vm_compute. Qed.
