(* ===== verification/Visibility.v ===== *)
(** * Who receives which entities: [src/Hooks/Visibility.cpp], [include/VoltMod/Hooks/Visibility.hpp]

    After the engine has decided what each client receives, hidden players and private entities are taken out again. *)

From S2P Require Import Prelude Text Identity Errors Targeting.

(** [EntityRef]: the bits of a handle. *)
Definition Unset : Z := 4294967295.
Definition ref_set (ref : Z) : bool := negb (ref =? Unset).

Definition IsPlaying (team : Z) : bool := (team =? Team_T) || (team =? Team_CT).

(** ** What the entity system answers *)

(** A pawn: the pointer to it, its index, and what it carries. [None] is a null vector. *)
Record PawnInfo := mkPawn { PawnRaw : Z; PawnIndex : Z; MyWeapons : option (list Z); MyWearables : option (list Z) }.

(** [IndexOf] resolves a handle, as [-1] when its entity is gone; [PawnOf] is the controller's pawn; [Observed] is who the
    recipient's camera follows. *)
Record Entities := mkEntities {
  IndexOf : Z -> Z;
  ControllerOf : Z -> option Z;
  PawnOf : Z -> option PawnInfo;
  Observed : Z -> option Z;
  TeamOf : Z -> Z;
}.

(** ** [Visibility] *)

Record SlotState := mkSlotState { PawnHidden : bool; ControllerHidden : bool }.
Definition SlotState_new : SlotState := mkSlotState false false.
Definition Any (s : SlotState) : bool := PawnHidden s || ControllerHidden s.

Record PrivateEntity := mkPrivate { Entity : Z; Viewer : Z; ShownTo : Z; HiddenFrom : Z; Index : Z }.

Record Visibility := mkVisibility { _state : PerSlot SlotState; _private : list PrivateEntity }.
Definition Visibility_new : Visibility := mkVisibility (PerSlot_new SlotState_new) [].

Definition state_of (v : Visibility) (slot : Z) : SlotState := default SlotState_new (PerSlot_get (_state v) slot).

Definition SetPawnHidden (slot : Z) (hidden : bool) (v : Visibility) : Visibility :=
  if IsValidSlot slot then mkVisibility (PerSlot_set (_state v) slot (mkSlotState hidden (ControllerHidden (state_of v slot)))) (_private v) else v.

Definition SetControllerHidden (slot : Z) (hidden : bool) (v : Visibility) : Visibility :=
  if IsValidSlot slot then mkVisibility (PerSlot_set (_state v) slot (mkSlotState (PawnHidden (state_of v slot)) hidden)) (_private v) else v.

Definition IsPawnHidden (slot : Z) (v : Visibility) : bool := IsValidSlot slot && PawnHidden (state_of v slot).

Definition set_private (l : list PrivateEntity) (v : Visibility) : Visibility := mkVisibility (_state v) l.

(** The entry of the same entity is replaced where it is, or a new one added. *)
Fixpoint put_private (entry : PrivateEntity) (l : list PrivateEntity) : list PrivateEntity :=
  match l with
  | [] => [entry]
  | e :: rest => if Entity e =? Entity entry then entry :: rest else e :: put_private entry rest
  end.

Definition SetPrivate (entry : PrivateEntity) (v : Visibility) : Visibility := set_private (put_private entry (_private v)) v.

Definition ShowOnlyTo (entity slot : Z) (v : Visibility) : Visibility :=
  if negb (ref_set entity) || negb (IsValidSlot slot) then v else SetPrivate (mkPrivate entity slot Team_None Team_None (-1)) v.

Definition ShowOnlyToTeam (entity team : Z) (v : Visibility) : Visibility :=
  if negb (ref_set entity) || negb (IsPlaying team) then v else SetPrivate (mkPrivate entity (-1) team Team_None (-1)) v.

Definition HideFromTeam (entity team : Z) (v : Visibility) : Visibility :=
  if negb (ref_set entity) || negb (IsPlaying team) then v else SetPrivate (mkPrivate entity (-1) Team_None team (-1)) v.

Definition ShowToEveryone (entity : Z) (v : Visibility) : Visibility :=
  set_private (List.filter (fun e => negb (Entity e =? entity)) (_private v)) v.

(** [slots.Changed] *)
Definition Visibility_SlotChanged (slot : Z) (v : Visibility) : Visibility :=
  if IsValidSlot slot then
    mkVisibility (PerSlot_Reset SlotState_new (_state v) slot) (List.filter (fun e => negb (Viewer e =? slot)) (_private v))
  else v.

Definition HiddenFor (recipient recipientTeam : Z) (e : PrivateEntity) : bool :=
  if 0 <=? Viewer e then negb (Viewer e =? recipient)
  else if negb (ShownTo e =? Team_None) then negb (ShownTo e =? recipientTeam)
  else HiddenFrom e =? recipientTeam.

Definition MaxIndicesPerPlayer : nat := 24.

(** [PawnIndices] up to [IndexCount]. *)
Record HiddenPlayer := mkHidden { HiddenSlot : Z; ControllerIndex : Z; HiddenPawn : option Z; PawnIndices : list Z }.

Definition AddIndex (index : Z) (player : HiddenPlayer) : HiddenPlayer :=
  if (0 <? index) && (length (PawnIndices player) <? MaxIndicesPerPlayer)%nat
  then mkHidden (HiddenSlot player) (ControllerIndex player) (HiddenPawn player) (PawnIndices player ++ [index]) else player.

Section Snapshot.
Context (w : Entities).

Definition AddHandleVector (handles : option (list Z)) (player : HiddenPlayer) : HiddenPlayer :=
  match handles with
  | None => player
  | Some handles => fold_left (fun player handle => AddIndex (IndexOf w handle) player) (take MaxIndicesPerPlayer handles) player
  end.

Definition CollectHiddenPlayer (slot : Z) (pawnHidden controllerHidden : bool) : HiddenPlayer :=
  let out := mkHidden slot (-1) None [] in
  match ControllerOf w slot with
  | None => out
  | Some controller =>
      let out := if controllerHidden then mkHidden slot controller None [] else out in
      if negb pawnHidden then out
      else match PawnOf w slot with
      | None => out
      | Some pawn =>
          let out := mkHidden slot (ControllerIndex out) (Some (PawnRaw pawn)) [] in
          let out := AddIndex (PawnIndex pawn) out in
          let out := AddHandleVector (MyWeapons pawn) out in
          AddHandleVector (MyWearables pawn) out
      end
  end.

(** A [CCheckTransmitInfo]: its recipient, and the bits of the entities it sends. *)
Record Info := mkInfo { Recipient : Z; Transmit : option (gset Z) }.

Definition clear_bits (indices : list Z) (bits : gset Z) : gset Z := fold_left (fun bits index => bits ∖ {[index]}) indices bits.

Definition hide_player (recipient : Z) (observed : option Z) (bits : gset Z) (player : HiddenPlayer) : gset Z :=
  if HiddenSlot player =? recipient then bits
  else
    let bits := if bool_decide (observed = HiddenPawn player) then bits else clear_bits (PawnIndices player) bits in
    if 0 <? ControllerIndex player then bits ∖ {[ControllerIndex player]} else bits.

Definition hide_private (recipient recipientTeam : Z) (bits : gset Z) (entry : PrivateEntity) : gset Z :=
  if HiddenFor recipient recipientTeam entry then bits ∖ {[Index entry]} else bits.

(** One turn of the loop over the recipients. *)
Definition filter_info (hidden : list HiddenPlayer) (private : list PrivateEntity) (info : option Info) : option Info :=
  match info with
  | Some (mkInfo recipient (Some bits)) =>
      let observed := match hidden with [] => None | _ => Observed w recipient end in
      let recipientTeam := TeamOf w recipient in
      let bits := fold_left (hide_player recipient observed) hidden bits in
      Some (mkInfo recipient (Some (fold_left (hide_private recipient recipientTeam) private bits)))
  | _ => info
  end.

Definition slots_from_0 : list Z := map Z.of_nat (seq 0 (Z.to_nat MaxPlayers)).

Definition collect_hidden (v : Visibility) : list HiddenPlayer :=
  flat_map (fun slot => let state := state_of v slot in
    if Any state then [CollectHiddenPlayer slot (PawnHidden state) (ControllerHidden state)] else []) slots_from_0.

Definition resolve (e : PrivateEntity) : PrivateEntity := mkPrivate (Entity e) (Viewer e) (ShownTo e) (HiddenFrom e) (IndexOf w (Entity e)).

(** [bound] is whether the recipient's offset is known; a null [infoList] is [None]. *)
Definition OnCheckTransmit (bound : bool) (infoList : option (list (option Info))) (v : Visibility) : option (list (option Info)) * Visibility :=
  let v := set_private (List.filter (fun e => negb (Index e <=? 0)) (map resolve (_private v))) v in
  match infoList with
  | Some infos =>
      if negb bound then (infoList, v)
      else if bool_decide (_private v = []) && negb (existsb (fun slot => Any (state_of v slot)) slots_from_0) then (infoList, v)
      else (Some (map (filter_info (collect_hidden v) (_private v)) infos), v)
  | None => (infoList, v)
  end.

(** ** Who sees what *)

(** The entities a player's pawn takes with it: the first 24 that resolve of itself, its weapons and its wearables. *)
Definition carried (pawn : PawnInfo) : list Z :=
  take MaxIndicesPerPlayer (List.filter (fun index => 0 <? index)
    (PawnIndex pawn :: map (IndexOf w) (take MaxIndicesPerPlayer (default [] (MyWeapons pawn))) ++
      map (IndexOf w) (take MaxIndicesPerPlayer (default [] (MyWearables pawn))))).

(** [index] is kept from [recipient] on account of the player in [slot]. *)
Definition player_hides (v : Visibility) (recipient slot index : Z) : Prop :=
  slot <> recipient /\ exists controller, ControllerOf w slot = Some controller /\
    ((PawnHidden (state_of v slot) = true /\ exists pawn, PawnOf w slot = Some pawn /\ Observed w recipient <> Some (PawnRaw pawn) /\ In index (carried pawn)) \/
     (ControllerHidden (state_of v slot) = true /\ 0 < controller /\ index = controller)).

(** [index] is a private entity not for [recipient]. *)
Definition private_hides (v : Visibility) (recipient index : Z) : Prop :=
  exists e, In e (_private v) /\ 0 < index /\ IndexOf w (Entity e) = index /\ HiddenFor recipient (TeamOf w recipient) e = true.

Definition hidden_from (v : Visibility) (recipient index : Z) : Prop :=
  (exists slot, IsValidSlot slot = true /\ player_hides v recipient slot index) \/ private_hides v recipient index.

(** *** The snapshot *)

Lemma clear_bits_spec l bits index : index ∈ clear_bits l bits <-> index ∈ bits /\ ~ In index l.
Proof.
  unfold clear_bits. revert bits. induction l as [|x l IH]; intros bits; cbn [fold_left In]; [tauto|]. rewrite IH. set_solver.
Qed.

Lemma AddIndex_spec index player :
  PawnIndices (AddIndex index player) = take MaxIndicesPerPlayer (PawnIndices player ++ List.filter (fun index => 0 <? index) [index]) \/
  (MaxIndicesPerPlayer < length (PawnIndices player))%nat.
Proof.
  destruct (Nat.lt_ge_cases MaxIndicesPerPlayer (length (PawnIndices player))) as [Hlt|Hle]; [by right|left]. unfold AddIndex. cbn [List.filter].
  destruct (0 <? index); cbn [andb]; [|by rewrite app_nil_r, take_ge]. destruct (Nat.ltb_spec (length (PawnIndices player)) MaxIndicesPerPlayer).
  - cbn. rewrite take_ge; [done|]. rewrite length_app. cbn [length]. unfold MaxIndicesPerPlayer in *. lia.
  - by rewrite take_app_le, take_ge by lia.
Qed.

Lemma AddIndex_fields index player : HiddenSlot (AddIndex index player) = HiddenSlot player /\ ControllerIndex (AddIndex index player) = ControllerIndex player /\ HiddenPawn (AddIndex index player) = HiddenPawn player.
Proof. unfold AddIndex. by case_match. Qed.

(** Adding stops at 24, wherever it is counted. *)
Lemma add_indices l player :
  (length (PawnIndices player) <= MaxIndicesPerPlayer)%nat ->
  let player' := fold_left (fun player index => AddIndex index player) l player in
  PawnIndices player' = take MaxIndicesPerPlayer (PawnIndices player ++ List.filter (fun index => 0 <? index) l) /\
  HiddenSlot player' = HiddenSlot player /\ ControllerIndex player' = ControllerIndex player /\ HiddenPawn player' = HiddenPawn player.
Proof.
  revert player. induction l as [|x l IH]; intros player Hl; cbn [fold_left].
  - cbn. rewrite app_nil_r, take_ge by done. done.
  - destruct (AddIndex_spec x player) as [E|?]; [|lia]. destruct (AddIndex_fields x player) as (E1 & E2 & E3).
    destruct (IH (AddIndex x player)) as (F & F1 & F2 & F3); [rewrite E, length_take; lia|]. rewrite F, F1, F2, F3, E1, E2, E3. split; [|done].
    rewrite E. change (x :: l) with ([x] ++ l). rewrite List.filter_app, app_assoc. set (a := PawnIndices player ++ _). set (b := List.filter _ l).
    destruct (Nat.le_gt_cases (length a) MaxIndicesPerPlayer); [by rewrite (take_ge a)|].
    rewrite !take_app_le by (rewrite ?length_take; lia). by rewrite take_take, Nat.min_id.
Qed.

Lemma AddHandleVector_spec handles player :
  AddHandleVector handles player = fold_left (fun player index => AddIndex index player) (map (IndexOf w) (take MaxIndicesPerPlayer (default [] handles))) player.
Proof.
  unfold AddHandleVector. destruct handles as [l|]; [|done]. change (default [] (Some l)) with l. generalize (take MaxIndicesPerPlayer l). clear l. intros l. revert player.
  induction l as [|x l IH]; intros player; cbn; [done|]. apply IH.
Qed.

Lemma Collect_carried slot controllerHidden controller pawn :
  ControllerOf w slot = Some controller -> PawnOf w slot = Some pawn ->
  let player := CollectHiddenPlayer slot true controllerHidden in
  PawnIndices player = carried pawn /\ HiddenSlot player = slot /\ ControllerIndex player = (if controllerHidden then controller else -1) /\ HiddenPawn player = Some (PawnRaw pawn).
Proof.
  intros Ec Ep. unfold CollectHiddenPlayer, carried. rewrite Ec, Ep. cbn [negb]. rewrite !AddHandleVector_spec.
  set (start := mkHidden slot _ (Some (PawnRaw pawn)) []).
  change (AddIndex (PawnIndex pawn) start) with (fold_left (fun player index => AddIndex index player) [PawnIndex pawn] start).
  rewrite <- !fold_left_app. destruct (add_indices ([PawnIndex pawn] ++ map (IndexOf w) (take MaxIndicesPerPlayer (default [] (MyWeapons pawn))) ++
      map (IndexOf w) (take MaxIndicesPerPlayer (default [] (MyWearables pawn)))) start) as (E & E1 & E2 & E3); [cbn; lia|].
  rewrite E, E1, E2, E3. split_and!; try done. unfold start. cbn. by destruct controllerHidden.
Qed.

Lemma hide_player_spec recipient observed bits player index :
  index ∈ hide_player recipient observed bits player <->
  index ∈ bits /\ ~ (HiddenSlot player <> recipient /\ ((observed <> HiddenPawn player /\ In index (PawnIndices player)) \/ (0 < ControllerIndex player /\ index = ControllerIndex player))).
Proof.
  unfold hide_player. destruct (Z.eqb_spec (HiddenSlot player) recipient); [tauto|].
  destruct (Z.ltb_spec 0 (ControllerIndex player)); case_bool_decide; rewrite ?elem_of_difference, ?elem_of_singleton, ?clear_bits_spec; intuition lia.
Qed.

Lemma fold_kept {A} (f : gset Z -> A -> gset Z) (hides : A -> Prop) index l bits :
  (forall bits a, index ∈ f bits a <-> index ∈ bits /\ ~ hides a) -> index ∈ fold_left f l bits <-> index ∈ bits /\ ~ exists a, In a l /\ hides a.
Proof.
  intros Hf. revert bits. induction l as [|a l IH]; intros bits; cbn [fold_left In]; [firstorder|]. rewrite IH, Hf. split.
  - intros [[? ?] ?]. split; [done|]. intros (x & [->|?] & ?); eauto.
  - intros [? H]. split; [split; [done|]|]; [intros Ha|intros (x & ? & ?)]; apply H; eauto.
Qed.

Lemma in_slots slot : In slot slots_from_0 <-> IsValidSlot slot = true.
Proof.
  unfold slots_from_0, IsValidSlot, MaxPlayers. rewrite in_map_iff. split.
  - intros (i & <- & Hi%in_seq). lia.
  - intros H. bools. exists (Z.to_nat slot). split; [lia|]. apply in_seq. lia.
Qed.

(** What is collected of a player hides what it should. *)
Lemma Collect_hides v recipient observed slot index :
  Any (state_of v slot) = true -> observed = Observed w recipient ->
  let player := CollectHiddenPlayer slot (PawnHidden (state_of v slot)) (ControllerHidden (state_of v slot)) in
  (HiddenSlot player <> recipient /\ ((observed <> HiddenPawn player /\ In index (PawnIndices player)) \/ (0 < ControllerIndex player /\ index = ControllerIndex player)))
  <-> player_hides v recipient slot index.
Proof.
  intros Ha -> player. unfold player_hides, player. destruct (ControllerOf w slot) as [controller|] eqn:Ec.
  2: { unfold CollectHiddenPlayer. rewrite Ec. cbn. split; [intros (_ & [[_ []]|[? _]]); lia|intros (_ & ? & [=] & _)]. }
  destruct (PawnHidden (state_of v slot)) eqn:Ep; [destruct (PawnOf w slot) as [pawn|] eqn:Epawn|].
  - destruct (Collect_carried slot (ControllerHidden (state_of v slot)) controller pawn Ec Epawn) as (-> & -> & -> & ->). split.
    + intros (? & H). split; [done|]. exists controller. split; [done|]. destruct H as [[? ?]|[? ->]]; [left; eauto 6|right]. destruct (ControllerHidden _); [auto|lia].
    + intros (? & ? & [= <-] & H). split; [done|]. destruct H as [(_ & ? & [= <-] & ? & ?)|(-> & ? & ->)]; [by left|by right].
  - unfold CollectHiddenPlayer. rewrite Ec, Epawn. cbn [negb]. split.
    + intros (? & H). destruct (ControllerHidden (state_of v slot)) eqn:Eh; cbn in *; (split; [done|]); exists controller; (split; [done|]); destruct H as [[_ []]|[? ->]]; [by right|lia].
    + intros (? & ? & [= <-] & H). destruct H as [(_ & ? & [=] & _)|(-> & ? & ->)]. cbn. auto.
  - unfold CollectHiddenPlayer. rewrite Ec. cbn [negb]. split.
    + intros (? & H). destruct (ControllerHidden (state_of v slot)) eqn:Eh; cbn in *; (split; [done|]); exists controller; (split; [done|]); destruct H as [[_ []]|[? ->]]; [by right|lia].
    + intros (? & ? & [= <-] & H). destruct H as [([=] & _)|(-> & ? & ->)]. cbn. auto.
Qed.

Lemma hidden_players_spec v recipient observed index :
  (collect_hidden v <> [] -> observed = Observed w recipient) ->
  (exists player, In player (collect_hidden v) /\ HiddenSlot player <> recipient /\
    ((observed <> HiddenPawn player /\ In index (PawnIndices player)) \/ (0 < ControllerIndex player /\ index = ControllerIndex player)))
  <-> exists slot, IsValidSlot slot = true /\ player_hides v recipient slot index.
Proof.
  intros Ho. split.
  - intros (player & Hin & H). assert (observed = Observed w recipient) as E by (apply Ho; by intros E; rewrite E in Hin). clear Ho.
    apply in_flat_map in Hin as (slot & Hs%in_slots & Hin). cbv zeta in Hin. destruct (Any (state_of v slot)) eqn:Ea; [|done]. destruct Hin as [<-|[]].
    exists slot. split; [done|]. by eapply Collect_hides.
  - intros (slot & Hs & H). assert (Any (state_of v slot) = true) as Ea.
    { unfold Any. destruct H as (_ & c & _ & [[E _]|[E _]]); rewrite E; [done|]. apply orb_true_r. }
    assert (In (CollectHiddenPlayer slot (PawnHidden (state_of v slot)) (ControllerHidden (state_of v slot))) (collect_hidden v)) as Hin.
    { apply in_flat_map. exists slot. split; [by apply in_slots|]. cbv zeta. rewrite Ea. by left. }
    eexists. split; [exact Hin|]. apply Collect_hides; [done| |done]. apply Ho. intros E. by rewrite E in Hin.
Qed.

Lemma private_spec recipient index l :
  (exists e, In e (List.filter (fun e => negb (Index e <=? 0)) (map resolve l)) /\ HiddenFor recipient (TeamOf w recipient) e = true /\ index = Index e)
  <-> exists e, In e l /\ 0 < index /\ IndexOf w (Entity e) = index /\ HiddenFor recipient (TeamOf w recipient) e = true.
Proof.
  split.
  - intros (e & [Hin Hi]%filter_In & Hh & ->). apply in_map_iff in Hin as (e' & <- & Hin). exists e'. cbn in *. apply negb_true_iff, Z.leb_gt in Hi. auto.
  - intros (e & Hin & Hp & <- & Hh). exists (resolve e). split; [|done]. apply filter_In. split; [by apply in_map|]. cbn. apply negb_true_iff. lia.
Qed.

(** What is sent to a recipient after the filter. *)
Definition sees (v : Visibility) (info info' : option Info) : Prop :=
  match info, info' with
  | Some (mkInfo recipient (Some bits)), Some (mkInfo recipient' (Some bits')) =>
      recipient' = recipient /\ forall index, index ∈ bits' <-> index ∈ bits /\ ~ hidden_from v recipient index
  | _, _ => info' = info
  end.

Lemma filter_info_sees v info :
  let private := List.filter (fun e => negb (Index e <=? 0)) (map resolve (_private v)) in
  sees v info (filter_info (collect_hidden v) private info).
Proof.
  intros private. unfold sees, filter_info. destruct info as [[recipient [bits|]]|]; try done. split; [done|]. intros index.
  rewrite (fold_kept _ (fun e => HiddenFor recipient (TeamOf w recipient) e = true /\ index = Index e)).
  2: { intros b e. unfold hide_private. destruct (HiddenFor _ _ _); [|intuition congruence]. set_solver. }
  rewrite (fold_kept _ (fun player => HiddenSlot player <> recipient /\
    ((match collect_hidden v with [] => None | _ :: _ => Observed w recipient end <> HiddenPawn player /\ In index (PawnIndices player)) \/ (0 < ControllerIndex player /\ index = ControllerIndex player)))).
  2: { intros b player. apply hide_player_spec. }
  rewrite hidden_players_spec by by destruct (collect_hidden v). unfold private. rewrite private_spec. unfold hidden_from, private_hides. tauto.
Qed.
End Snapshot.

Lemma nobody_hidden w v recipient index :
  List.filter (fun e => negb (Index e <=? 0)) (map (resolve w) (_private v)) = [] -> existsb (fun slot => Any (state_of v slot)) slots_from_0 = false ->
  ~ hidden_from w v recipient index.
Proof.
  intros Hp Ha [(slot & Hs & _ & c & _ & H)|H].
  - assert (Any (state_of v slot) = true) as Ea by (unfold Any; destruct H as [[-> _]|[-> _]]; [done|apply orb_true_r]).
    assert (existsb (fun slot => Any (state_of v slot)) slots_from_0 = true); [|congruence]. apply existsb_exists. exists slot. split; [by apply in_slots|done].
  - apply private_spec in H as (e & Hin & _). by rewrite Hp in Hin.
Qed.

Lemma NoDup_map_filter {A B} (f : A -> B) p l : List.NoDup (map f l) -> List.NoDup (map f (List.filter p l)).
Proof.
  induction l as [|x l IH]; cbn; [done|]. intros H. inversion_clear H as [|? ? Hx Hl]. case_match; cbn; [|auto]. constructor; [|auto].
  intros Hin. apply Hx. apply in_map_iff in Hin as (y & <- & [Hy _]%filter_In). by apply in_map.
Qed.

(** The entities kept private, each under one entry. *)
Definition private_ok (v : Visibility) : Prop := NoDup (map Entity (_private v)).

(** After the filter, every client is sent exactly what the engine meant to send it, less what is hidden from it: a
    hidden player's pawn with the first 24 entities it carries, for everyone but that player and whoever spectates it; a
    hidden controller, for everyone else; and the private entities not meant for it or its team. Without the recipient's
    offset nothing is filtered, and entries whose entity is gone are dropped either way. *)
Theorem filter_spec w bound infoList v :
  let '(infoList', v') := OnCheckTransmit w bound infoList v in
  match infoList, infoList' with
  | Some infos, Some infos' => if bound then Forall2 (sees w v) infos infos' else infos' = infos
  | None, None => True
  | _, _ => False
  end /\
  _state v' = _state v /\ (forall e, In e (_private v') <-> exists e0, In e0 (_private v) /\ e = resolve w e0 /\ 0 < Index e) /\
  (private_ok v -> private_ok v').
Proof.
  unfold OnCheckTransmit. set (private := List.filter _ (map (resolve w) (_private v))).
  assert ((forall e, In e private <-> exists e0, In e0 (_private v) /\ e = resolve w e0 /\ 0 < Index e) /\ (private_ok v -> NoDup (map Entity private))) as [Hin Hnd].
  { split.
    - intros e. unfold private. rewrite filter_In, in_map_iff. rewrite negb_true_iff, Z.leb_gt. firstorder eauto.
    - intros Hv. unfold private. apply NoDup_ListNoDup. apply (NoDup_map_filter Entity). rewrite map_map. by apply NoDup_ListNoDup. }
  assert (forall infos, Forall2 (sees w v) infos (map (filter_info w (collect_hidden w v) private) infos)) as Hall.
  { intros infos. induction infos as [|info infos IH]; constructor; [apply filter_info_sees|done]. }
  destruct infoList as [infos|]; [|done]. destruct bound; cbn [negb]; [|done]. destruct (_ && _) eqn:E; [|done].
  split; [|done]. bools. apply Forall2_same_length_lookup_2; [done|]. intros i x y Hx Hy. simplify_eq.
  unfold sees. destruct x as [[recipient [bits|]]|]; try done. split; [done|]. intros index. pose proof (nobody_hidden w v recipient index H H0). tauto.
Qed.
