(* ===== verification/GlowVision.v ===== *)
(** * Outlines through walls: [src/Hooks/GlowVision.cpp], [include/VoltMod/Hooks/GlowVision.hpp]

    Two clones per glowing player, kept to one client or one team by the visibility filter. The model runs on [Visibility.v]'s state:
    what the filter is told is what it holds. *)

From S2P Require Import Prelude Text Identity Errors Targeting Visibility.

(** ** The world *)

(** [alive] are the entities there are; [next] counts those the glow spawned; [spawns] says whether each spawn to come succeeds, and
    those past its end do. *)
Record World := mkWorld { alive : gset Z; next : nat; spawns : list bool; vis : Visibility }.

(** A value of an entity's keyvalues. *)
Inductive key_value := KText (s : text) | KInt (z : Z).

Definition set_vis (v : Visibility) (w : World) : World := mkWorld (alive w) (next w) (spawns w) v.
Definition Remove (entity : Z) (w : World) : World := mkWorld (alive w ∖ {[entity]}) (next w) (spawns w) (vis w).

(** A player's pawn when there is one: its model, team, and whether it lives. *)
Record PawnState := mkPawnState { ModelName : text; TeamNum : Z; IsAlive : bool }.

(** ** [GlowVision] *)

Record GlowConfig := mkConfig { TerroristColor : Z; CtColor : Z; Filter : option (Z -> bool) }.

Record GlowPair := mkPair { Relay : Z; Glow : Z; PairTeam : Z; PairModel : text }.
Definition no_pair : GlowPair := mkPair Unset Unset Team_None [].
Definition Active (p : GlowPair) : bool := ref_set (Relay p).

Definition PropSpawnFlags : Z := 256.
Definition GlowRangeUnits : Z := 5000.
Definition GlowTeamAny : Z := -1.
Definition GlowStateAlwaysOn : Z := 3.
Definition GlowRenderAmt : Z := 1.
(** [RenderMode_t::kRenderNone]. *)
Definition kRenderNone : Z := 2.

(** Whom the clones are for: a client, or a team. *)
Inductive viewers := ForSlot (slot : Z) | ForTeam (team : Z).
Definition viewerSlot (for_ : viewers) : Z := match for_ with ForSlot slot => slot | ForTeam _ => -1 end.
Definition viewerTeam (for_ : viewers) : Z := match for_ with ForSlot _ => Team_None | ForTeam team => team end.

Definition Pairs : Type := PerSlot GlowPair.
Definition GlowVision_new : Pairs := PerSlot_new no_pair.
Definition pair_at (pairs : Pairs) (slot : Z) : GlowPair := default no_pair (PerSlot_get pairs slot).

Section GlowVision.
  (** [handle_of k] is the handle the engine gives the [k]th entity the glow spawns. *)
  Context (handle_of : nat -> Z) (for_ : viewers) (config : GlowConfig).

(** [EntitySystem::Spawn]; what it is spawned with does not change whether it succeeds. *)
Definition Spawn (className : text) (values : list (text * key_value)) (w : World) : option Z * World :=
  match spawns w with
  | false :: later => (None, mkWorld (alive w) (next w) later (vis w))
  | _ => (Some (handle_of (next w)), mkWorld (alive w ∪ {[handle_of (next w)]}) (S (next w)) (tail (spawns w)) (vis w))
  end.

Definition ShowToViewers (entity : Z) (w : World) : World :=
  set_vis (if 0 <=? viewerSlot for_ then ShowOnlyTo entity (viewerSlot for_) (vis w) else ShowOnlyToTeam entity (viewerTeam for_) (vis w)) w.

Definition DestroyPair (pair : GlowPair) (w : World) : GlowPair * World :=
  if negb (Active pair) then (pair, w)
  else
    let w := set_vis (ShowToEveryone (Relay pair) (vis w)) w in
    let w := set_vis (ShowToEveryone (Glow pair) (vis w)) w in
    (no_pair, Remove (Relay pair) (Remove (Glow pair) w)).

Definition relay_values (model : text) : list (text * key_value) :=
  [($"model", KText model); ($"spawnflags", KInt PropSpawnFlags); ($"rendermode", KInt kRenderNone)].

Definition glow_values (model : text) (team : Z) : list (text * key_value) :=
  [($"model", KText model); ($"spawnflags", KInt PropSpawnFlags);
   ($"glowcolor", KInt (if team =? Team_T then TerroristColor config else CtColor config)); ($"glowrange", KInt GlowRangeUnits);
   ($"glowteam", KInt GlowTeamAny); ($"glowstate", KInt GlowStateAlwaysOn); ($"renderamt", KInt GlowRenderAmt)].

Definition CreatePair (pawn : option PawnState) (pair : GlowPair) (w : World) : GlowPair * World :=
  match pawn with
  | None => (pair, w)
  | Some (mkPawnState [] _ _) => (pair, w)
  | Some (mkPawnState model team _) =>
      let (relay, w) := Spawn $"prop_dynamic" (relay_values model) w in
      match relay with
      | None => (pair, w)
      | Some relay =>
          let (glow, w) := Spawn $"prop_dynamic" (glow_values model team) w in
          match glow with
          | None => (pair, Remove relay w)
          | Some glow => (mkPair relay glow team model, ShowToViewers glow (ShowToViewers relay w))
          end
      end
  end.

(** A pawn that is not there has no team and no model. *)
Definition team_of (pawn : option PawnState) : Z := match pawn with Some p => TeamNum p | None => Team_None end.
Definition model_of (pawn : option PawnState) : text := match pawn with Some p => ModelName p | None => [] end.

Definition desired (pawn : option PawnState) (slot : Z) (w : World) : bool :=
  negb (slot =? viewerSlot for_) && match pawn with Some p => IsAlive p | None => false end && IsPlaying (team_of pawn) &&
  negb (IsPawnHidden slot (vis w)) && match Filter config with None => true | Some filter => filter slot end.

Definition stale (pawn : option PawnState) (slot : Z) (pair : GlowPair) (w : World) : bool :=
  negb (desired pawn slot w) || negb (team_of pawn =? PairTeam pair) || negb (bool_decide (Relay pair ∈ alive w)) ||
  negb (bool_decide (Glow pair ∈ alive w)) || negb (bool_decide (model_of pawn = PairModel pair)).

(** One turn of [Refresh]'s loop. *)
Definition refresh_pair (pawn : option PawnState) (slot : Z) (pair : GlowPair) (w : World) : GlowPair * World :=
  let wanted := desired pawn slot w in
  let (pair, w) := if Active pair && stale pawn slot pair w then DestroyPair pair w else (pair, w) in
  if negb (Active pair) && wanted then CreatePair pawn pair w else (pair, w).

Definition refresh_slot (pawns : Z -> option PawnState) (st : Pairs * World) (slot : Z) : Pairs * World :=
  let (pair, w) := refresh_pair (pawns slot) slot (pair_at st.1 slot) st.2 in (PerSlot_set st.1 slot pair, w).

Definition Refresh (pawns : Z -> option PawnState) (st : Pairs * World) : Pairs * World := fold_left (refresh_slot pawns) slots_from_0 st.

Definition destroy_slot (st : Pairs * World) (slot : Z) : Pairs * World :=
  let (pair, w) := DestroyPair (pair_at st.1 slot) st.2 in (PerSlot_set st.1 slot pair, w).

Definition Destroy (st : Pairs * World) : Pairs * World := fold_left destroy_slot slots_from_0 st.

(** What happens: the glow's own calls, entities going, players coming and going, others hiding pawns, and the filter running. *)
Inductive glow_op :=
| GRefresh (pawns : Z -> option PawnState)
| GDestroy
| GEntitiesGone (gone : gset Z)
| GSlotChanged (slot : Z)
| GHidePawn (slot : Z) (hidden : bool)
| GTransmit (entities : Entities) (bound : bool) (infos : option (list (option Info))).

Definition exec_glow (st : Pairs * World) (op : glow_op) : Pairs * World :=
  match op with
  | GRefresh pawns => Refresh pawns st
  | GDestroy => Destroy st
  | GEntitiesGone gone => (st.1, mkWorld (alive st.2 ∖ gone) (next st.2) (spawns st.2) (vis st.2))
  | GSlotChanged slot => (st.1, set_vis (Visibility_SlotChanged slot (vis st.2)) st.2)
  | GHidePawn slot hidden => (st.1, set_vis (SetPawnHidden slot hidden (vis st.2)) st.2)
  | GTransmit entities bound infos => (st.1, set_vis (OnCheckTransmit entities bound infos (vis st.2)).2 st.2)
  end.

End GlowVision.

(** * Theorems *)

Definition handles (p : GlowPair) : list Z := if Active p then [Relay p; Glow p] else [].

Lemma elem_of_handles p h : Active p = true -> h ∈ handles p <-> h = Relay p \/ h = Glow p.
Proof. intros Ha. unfold handles. rewrite Ha, !elem_of_cons, elem_of_nil. naive_solver. Qed.

Lemma handles_inactive p h : Active p = false -> h ∉ handles p.
Proof. intros Ha. unfold handles. rewrite Ha. apply not_elem_of_nil. Qed.

(** The pair in [slot] has the clone [h]. *)
Definition owner (pairs : Pairs) (h slot : Z) : Prop := IsValidSlot slot = true /\ h ∈ handles (pair_at pairs slot).

Lemma pair_at_set pairs slot p slot' : PerSlot_wf pairs -> IsValidSlot slot' = true ->
  pair_at (PerSlot_set pairs slot p) slot' = if slot =? slot' then p else pair_at pairs slot'.
Proof. intros Hw Hs. unfold pair_at. rewrite PerSlot_get_set by done. by destruct (slot =? slot'). Qed.

Lemma owner_set pairs slot p h s : PerSlot_wf pairs ->
  owner (PerSlot_set pairs slot p) h s <-> IsValidSlot s = true /\ ((s = slot /\ h ∈ handles p) \/ (s <> slot /\ owner pairs h s)).
Proof.
  intros Hw. unfold owner. split; intros [Hs H]; (split; [done|]); rewrite pair_at_set in * by done; destruct (Z.eqb_spec slot s); naive_solver.
Qed.

Lemma elem_of_put_private e entry l : e ∈ put_private entry l -> e = entry \/ e ∈ l.
Proof.
  induction l as [|x l IH]; cbn; [set_solver|]. destruct (_ =? _); rewrite !elem_of_cons; [naive_solver|]. intros [->|H]; [by auto|]. destruct (IH H); auto.
Qed.

Lemma put_private_keeps e entry l : e ∈ l -> Entity e <> Entity entry -> e ∈ put_private entry l.
Proof.
  induction l as [|x l IH]; cbn; [set_solver|]. destruct (Z.eqb_spec (Entity x) (Entity entry)); rewrite !elem_of_cons; naive_solver.
Qed.

Lemma put_private_puts entry l : entry ∈ put_private entry l.
Proof. induction l as [|x l IH]; cbn; [set_solver|]. destruct (_ =? _); set_solver. Qed.

Section GlowFacts.
  Context (handle_of : nat -> Z) (for_ : viewers) (config : GlowConfig).
  Hypothesis handles_new : forall i j, handle_of i = handle_of j -> i = j.
  Hypothesis handles_set : forall i, ref_set (handle_of i) = true.
  Hypothesis viewers_there : match for_ with ForSlot slot => IsValidSlot slot = true | ForTeam team => IsPlaying team = true end.

(** The filter keeps [h] to the viewers. *)
Definition for_viewers (e : PrivateEntity) : Prop :=
  match for_ with
  | ForSlot slot => Viewer e = slot
  | ForTeam team => Viewer e < 0 /\ ShownTo e = team /\ team <> Team_None
  end.

Definition kept (h : Z) (v : Visibility) : Prop := exists e, e ∈ _private v /\ Entity e = h /\ for_viewers e.

(** Every clone there is belongs to one pair and is kept to the viewers, and the filter knows no other handle of the glow's. *)
Record glow_ok (pairs : Pairs) (w : World) : Prop := {
  g_wf : PerSlot_wf pairs;
  g_mine : forall h s, owner pairs h s -> exists k, (k < next w)%nat /\ h = handle_of k;
  g_apart : forall h s1 s2, owner pairs h s1 -> owner pairs h s2 -> s1 = s2;
  g_owned : forall k, (k < next w)%nat -> handle_of k ∈ alive w -> (exists s, owner pairs (handle_of k) s) /\ kept (handle_of k) (vis w);
  g_entries : forall e k, e ∈ _private (vis w) -> Entity e = handle_of k -> exists s, owner pairs (handle_of k) s }.

Lemma kept_other h entity v : kept h v -> h <> entity -> kept h (ShowToEveryone entity v).
Proof.
  intros (e & He & Hh & Hf) Hn. exists e. split; [|done]. cbn. apply list_elem_of_In, List.filter_In. split; [by apply list_elem_of_In|].
  apply negb_true_iff, Z.eqb_neq. congruence.
Qed.

Lemma ShowToEveryone_entries e entity v : e ∈ _private (ShowToEveryone entity v) -> e ∈ _private v /\ Entity e <> entity.
Proof.
  cbn. intros [H1 H2]%list_elem_of_In%List.filter_In. apply negb_true_iff, Z.eqb_neq in H2. split; [by apply list_elem_of_In|done].
Qed.

Definition viewers_entry (h : Z) : PrivateEntity :=
  match for_ with ForSlot slot => mkPrivate h slot Team_None Team_None (-1) | ForTeam team => mkPrivate h (-1) team Team_None (-1) end.

Lemma ShowToViewers_spec h w : ref_set h = true -> ShowToViewers for_ h w = set_vis (SetPrivate (viewers_entry h) (vis w)) w.
Proof.
  intros Hh. unfold ShowToViewers, viewers_entry, ShowOnlyTo, ShowOnlyToTeam. rewrite Hh. destruct for_ as [slot|team]; cbn [viewerSlot viewerTeam].
  - rewrite viewers_there. unfold IsValidSlot in viewers_there. bools. by rewrite (proj2 (Z.leb_le 0 slot)) by lia.
  - rewrite viewers_there. done.
Qed.

Lemma viewers_entry_for h : for_viewers (viewers_entry h).
Proof.
  unfold for_viewers, viewers_entry. destruct for_ as [slot|team]; [done|]. cbn. split; [lia|]. split; [done|].
  intros ->. by unfold IsPlaying in viewers_there.
Qed.

Lemma Entity_viewers_entry h : Entity (viewers_entry h) = h.
Proof. unfold viewers_entry. by destruct for_. Qed.

Lemma kept_SetPrivate h h' v : kept h v \/ h = h' -> kept h (SetPrivate (viewers_entry h') v).
Proof.
  intros H. destruct (decide (h = h')) as [->|Hn].
  - exists (viewers_entry h'). split; [apply put_private_puts|]. split; [apply Entity_viewers_entry|apply viewers_entry_for].
  - destruct H as [(e & He & Hh & Hf)|]; [|done]. exists e. split; [|done]. cbn. apply put_private_keeps; [done|]. rewrite Entity_viewers_entry. congruence.
Qed.

Lemma DestroyPair_ok pairs w slot : glow_ok pairs w -> IsValidSlot slot = true ->
  let '(p, w') := DestroyPair (pair_at pairs slot) w in glow_ok (PerSlot_set pairs slot p) w' /\ Active p = false.
Proof.
  intros Hok Hs. destruct Hok as [H1 H2 H3 H4 H5]. unfold DestroyPair. destruct (Active (pair_at pairs slot)) eqn:Ha; cbn [negb].
  2: { split; [|done]. assert (forall h s, owner (PerSlot_set pairs slot (pair_at pairs slot)) h s <-> owner pairs h s) as Ho.
       { intros h s. rewrite owner_set by done. unfold owner. destruct (decide (s = slot)); naive_solver. }
       constructor; [by apply PerSlot_set_wf| | | |]; setoid_rewrite Ho; eauto. }
  set (p := pair_at pairs slot) in *. split; [|done].
  assert (forall h s, owner (PerSlot_set pairs slot no_pair) h s <-> s <> slot /\ owner pairs h s) as Ho.
  { intros h s. rewrite owner_set by done. pose proof (handles_inactive no_pair h eq_refl). unfold owner. naive_solver. }
  assert (forall h, h = Relay p \/ h = Glow p -> owner pairs h slot) as Hp.
  { intros h Hh. split; [done|]. by apply elem_of_handles. }
  constructor; cbn [alive next vis set_vis Remove]; [by apply PerSlot_set_wf| | | |]; setoid_rewrite Ho.
  - naive_solver.
  - naive_solver.
  - intros k Hk [[Hal Hg]%elem_of_difference Hr]%elem_of_difference. destruct (H4 k Hk Hal) as [[s Hown] Hkept].
    rewrite not_elem_of_singleton in Hg, Hr. split; [|apply kept_other; [by apply kept_other|done]].
    exists s. split; [|done]. intros ->. destruct Hown as [_ Hin]. apply (elem_of_handles p _ Ha) in Hin as [|]; done.
  - intros e k [[He Hr]%ShowToEveryone_entries Hg]%ShowToEveryone_entries Hk. destruct (H5 e k He Hk) as [s Hown].
    exists s. split; [|done]. intros ->. destruct Hown as [_ Hin]. apply (elem_of_handles p _ Ha) in Hin as [|]; congruence.
Qed.

(** A spawn adds a clone that no pair has yet. *)
Lemma Spawn_cases className values w :
  (exists w', Spawn handle_of className values w = (None, w') /\ alive w' = alive w /\ next w' = next w /\ vis w' = vis w) \/
  (exists w', Spawn handle_of className values w = (Some (handle_of (next w)), w') /\ alive w' = alive w ∪ {[handle_of (next w)]} /\
              next w' = S (next w) /\ vis w' = vis w).
Proof. unfold Spawn. destruct (spawns w) as [|[] later]; [right|right|left]; by eexists. Qed.

(** [w'] has the clones and the filter of [w], after some spawns that came to nothing. *)
Lemma same_clones_ok pairs w w' : glow_ok pairs w -> vis w' = vis w -> (next w <= next w')%nat -> alive w' ∖ alive w = ∅ -> 
  (forall k, (next w <= k < next w')%nat -> handle_of k ∉ alive w') -> glow_ok pairs w'.
Proof.
  intros [H1 H2 H3 H4 H5] Hv Hn Ha Hk. constructor; [done| |done| |by rewrite Hv].
  - intros h s Ho. destruct (H2 h s Ho) as (k & ? & ->). exists k. split; [lia|done].
  - intros k Hlt Hin. rewrite Hv. destruct (decide (k < next w)%nat) as [Hlt'|]; [|by destruct (Hk k); [lia|]].
    apply H4; [done|]. set_solver.
Qed.

Lemma owner_active pairs slot : IsValidSlot slot = true -> Active (pair_at pairs slot) = false -> forall h, ~ owner pairs h slot.
Proof. intros Hs Ha h [_ Hin]. by eapply handles_inactive. Qed.

Lemma new_pair_ok pairs w slot team model w' :
  glow_ok pairs w -> IsValidSlot slot = true -> Active (pair_at pairs slot) = false ->
  let relay := handle_of (next w) in let glow := handle_of (S (next w)) in
  next w' = S (S (next w)) -> alive w' = alive w ∪ {[relay]} ∪ {[glow]} ->
  vis w' = SetPrivate (viewers_entry glow) (SetPrivate (viewers_entry relay) (vis w)) ->
  glow_ok (PerSlot_set pairs slot (mkPair relay glow team model)) w'.
Proof.
  intros [H1 H2 H3 H4 H5] Hs Ha relay glow Hnext Halive Hvis. set (p := mkPair relay glow team model).
  assert (forall h, h ∈ handles p <-> h = relay \/ h = glow) as Hp by (intros h; apply elem_of_handles, handles_set).
  assert (forall h s, owner (PerSlot_set pairs slot p) h s <-> (s = slot /\ (h = relay \/ h = glow)) \/ owner pairs h s) as Ho.
  { intros h s. rewrite owner_set, Hp by done. split; [naive_solver|]. intros [[-> Hh]|Hown]; [naive_solver|].
    split; [apply Hown|]. right. split; [|done]. intros ->. by destruct (owner_active pairs slot Hs Ha h). }
  assert (forall s, ~ owner pairs relay s /\ ~ owner pairs glow s) as Hnew.
  { intros s. split; intros (k & Hk & He%handles_new)%H2; lia. }
  constructor; [by apply PerSlot_set_wf| | | |]; setoid_rewrite Ho.
  - intros h s [[-> [->| ->]]|(k & Hk & ->)%H2]; [exists (next w)|exists (S (next w))|exists k]; (split; [lia|done]).
  - intros h s1 s2 [[-> Hh1]|Ho1] [[-> Hh2]|Ho2]; [done| | |by eapply H3].
    + destruct (Hnew s2), Hh1; by subst.
    + destruct (Hnew s1), Hh2; by subst.
  - intros k Hk Hin. rewrite Hvis. destruct (decide (k = next w \/ k = S (next w))) as [Hd|Hd].
    + split; [exists slot; left; by destruct Hd as [-> | ->]; auto|].
      apply kept_SetPrivate. destruct Hd as [->| ->]; [left; apply kept_SetPrivate; by right|by right].
    + assert (handle_of k ∈ alive w) as Hin'.
      { rewrite Halive in Hin. apply elem_of_union in Hin as [[|He]%elem_of_union|He]; [done| |]; apply elem_of_singleton, handles_new in He; lia. }
      destruct (H4 k) as [[s Hown] Hkept]; [lia|done|]. split; [exists s; by right|]. apply kept_SetPrivate; left. apply kept_SetPrivate; by left.
  - intros e k He Hk. rewrite Hvis in He. cbn in He. apply elem_of_put_private in He as [->|He].
    { rewrite Entity_viewers_entry in Hk. exists slot. left. by rewrite <- Hk; auto. }
    apply elem_of_put_private in He as [->|He]; [|destruct (H5 e k He Hk) as [s ?]; exists s; by right].
    rewrite Entity_viewers_entry in Hk. exists slot. left. by rewrite <- Hk; auto.
Qed.

Lemma set_same_ok pairs w slot : glow_ok pairs w -> glow_ok (PerSlot_set pairs slot (pair_at pairs slot)) w.
Proof.
  intros [H1 H2 H3 H4 H5]. assert (forall h s, owner (PerSlot_set pairs slot (pair_at pairs slot)) h s <-> owner pairs h s) as Ho.
  { intros h s. rewrite owner_set by done. unfold owner. destruct (decide (s = slot)); naive_solver. }
  constructor; [by apply PerSlot_set_wf| | | |]; setoid_rewrite Ho; eauto.
Qed.

Lemma CreatePair_ok pairs w slot pawn : glow_ok pairs w -> IsValidSlot slot = true -> Active (pair_at pairs slot) = false ->
  let '(p, w') := CreatePair handle_of for_ config pawn (pair_at pairs slot) w in glow_ok (PerSlot_set pairs slot p) w'.
Proof.
  intros Hok Hs Ha. destruct pawn as [[[|c model] team ?]|]; [by apply set_same_ok| |by apply set_same_ok]. cbn [CreatePair].
  destruct (Spawn_cases $"prop_dynamic" (relay_values (c :: model)) w) as [(w1 & -> & A1 & N1 & V1)|(w1 & -> & A1 & N1 & V1)].
  { apply set_same_ok. apply (same_clones_ok _ w); [done..|lia|set_solver|lia]. }
  destruct (Spawn_cases $"prop_dynamic" (glow_values config (c :: model) team) w1) as [(w2 & -> & A2 & N2 & V2)|(w2 & -> & A2 & N2 & V2)].
  - apply set_same_ok. apply (same_clones_ok _ w); cbn [vis next alive Remove]; [done|congruence|lia|set_solver|].
    intros k Hk. assert (k = next w) as -> by lia. set_solver.
  - rewrite N1. rewrite !ShowToViewers_spec by done. apply new_pair_ok; [done..| | |]; cbn; congruence.
Qed.

Lemma PerSlot_set_set (pairs : Pairs) slot p q : PerSlot_set (PerSlot_set pairs slot p) slot q = PerSlot_set pairs slot q.
Proof. unfold PerSlot_set. destruct (IsValidSlot slot); [apply list_insert_insert_eq|done]. Qed.

Lemma pair_at_set_same pairs slot p : PerSlot_wf pairs -> IsValidSlot slot = true -> pair_at (PerSlot_set pairs slot p) slot = p.
Proof. intros Hw Hs. rewrite pair_at_set by done. by rewrite Z.eqb_refl. Qed.

Lemma refresh_slot_ok pawns st slot : glow_ok st.1 st.2 -> IsValidSlot slot = true ->
  let st' := refresh_slot handle_of for_ config pawns st slot in glow_ok st'.1 st'.2.
Proof.
  destruct st as [pairs w]; cbn [fst snd]. intros Hok Hs. unfold refresh_slot, refresh_pair; cbn [fst snd].
  set (wanted := desired _ _ _ _ _). pose proof (DestroyPair_ok pairs w slot Hok Hs) as Hd.
  destruct (Active (pair_at pairs slot) && stale _ _ _ _ _ _).
  - destruct (DestroyPair (pair_at pairs slot) w) as [p w1]. destruct Hd as [Hok1 Ha]. rewrite Ha; cbn [negb andb].
    destruct wanted; [|done].
    pose proof (pair_at_set_same pairs slot p (g_wf _ _ Hok) Hs) as Hp.
    pose proof (CreatePair_ok (PerSlot_set pairs slot p) w1 slot (pawns slot) Hok1 Hs) as Hc. rewrite Hp in Hc. specialize (Hc Ha).
    destruct (CreatePair _ _ _ _ p w1) as [q w2]. by rewrite PerSlot_set_set in Hc.
  - destruct (negb (Active (pair_at pairs slot)) && wanted) eqn:Hn; [|by apply set_same_ok].
    apply andb_true_iff in Hn as [Ha%negb_true_iff _]. pose proof (CreatePair_ok pairs w slot (pawns slot) Hok Hs Ha) as Hc.
    by destruct (CreatePair _ _ _ _ _ w) as [q w2].
Qed.

Lemma slots_valid slot : slot ∈ slots_from_0 -> IsValidSlot slot = true.
Proof. intros H. apply in_slots. by apply list_elem_of_In. Qed.

Lemma fold_ok (f : Pairs * World -> Z -> Pairs * World) l st :
  (forall st slot, glow_ok st.1 st.2 -> IsValidSlot slot = true -> glow_ok (f st slot).1 (f st slot).2) ->
  (forall slot, slot ∈ l -> IsValidSlot slot = true) -> glow_ok st.1 st.2 -> glow_ok (fold_left f l st).1 (fold_left f l st).2.
Proof.
  intros Hf. revert st; induction l as [|slot l IH]; intros st Hl Hok; [done|]. apply IH; [intros; apply Hl; by right|]. apply Hf; [done|apply Hl; by left].
Qed.

Lemma Refresh_ok pawns st : glow_ok st.1 st.2 -> let st' := Refresh handle_of for_ config pawns st in glow_ok st'.1 st'.2.
Proof. apply fold_ok; [intros; by apply refresh_slot_ok|apply slots_valid]. Qed.

Lemma destroy_slot_ok st slot : glow_ok st.1 st.2 -> IsValidSlot slot = true ->
  glow_ok (destroy_slot st slot).1 (destroy_slot st slot).2 /\
  forall s, IsValidSlot s = true -> s = slot \/ Active (pair_at st.1 s) = false -> Active (pair_at (destroy_slot st slot).1 s) = false.
Proof.
  intros Hok Hs. unfold destroy_slot. pose proof (DestroyPair_ok st.1 st.2 slot Hok Hs) as Hd.
  destruct (DestroyPair (pair_at st.1 slot) st.2) as [p w]. destruct Hd as [Hok' Ha]. split; [done|]. intros s Hs' H. cbn [fst].
  rewrite pair_at_set by (done || apply Hok). destruct (Z.eqb_spec slot s); [done|]. naive_solver.
Qed.

Lemma destroy_fold l st : glow_ok st.1 st.2 -> (forall slot, slot ∈ l -> IsValidSlot slot = true) ->
  glow_ok (fold_left destroy_slot l st).1 (fold_left destroy_slot l st).2 /\
  forall s, IsValidSlot s = true -> s ∈ l \/ Active (pair_at st.1 s) = false -> Active (pair_at (fold_left destroy_slot l st).1 s) = false.
Proof.
  revert st; induction l as [|slot l IH]; intros st Hok Hl; [split; [done|]; intros s _ [H|]; [by apply elem_of_nil in H|done]|].
  destruct (destroy_slot_ok st slot Hok) as [Hok' Ha]; [apply Hl; by left|].
  destruct (IH (destroy_slot st slot) Hok') as [H1 H2]; [intros; apply Hl; by right|]. split; [done|].
  intros s Hs H. apply H2; [done|]. destruct (decide (s ∈ l)); [by left|right]. apply Ha; [done|]. set_solver.
Qed.

Lemma Destroy_ok st : glow_ok st.1 st.2 -> let st' := Destroy st in glow_ok st'.1 st'.2 /\ forall s, IsValidSlot s = true -> Active (pair_at st'.1 s) = false.
Proof.
  intros Hok. destruct (destroy_fold slots_from_0 st Hok slots_valid) as [H1 H2]. split; [done|]. intros s Hs. apply H2; [done|].
  left. apply list_elem_of_In. by apply in_slots.
Qed.

(** What else happens: the viewer stays, and an entity that is there has an index. *)
Definition op_fine (st : Pairs * World) (op : glow_op) : Prop :=
  match op with
  | GSlotChanged slot => match for_ with ForSlot viewer => slot <> viewer | ForTeam _ => True end
  | GTransmit entities _ _ => forall h, h ∈ alive st.2 -> 0 < IndexOf entities h
  | _ => True
  end.

Lemma vis_change_ok pairs w v :
  glow_ok pairs w -> (forall e, e ∈ _private v -> exists e', e' ∈ _private (vis w) /\ Entity e' = Entity e) ->
  (forall h, h ∈ alive w -> kept h (vis w) -> kept h v) -> glow_ok pairs (set_vis v w).
Proof.
  intros [H1 H2 H3 H4 H5] He Hk. constructor; cbn; [done..| |].
  - intros k Hlt Hin. destruct (H4 k Hlt Hin) as [Ho Hkept]. split; [done|]. by apply Hk.
  - intros e k Hin Hh. destruct (He e Hin) as (e' & Hin' & Heq). eapply H5; [done|congruence].
Qed.

Lemma OnCheckTransmit_private entities bound infos v :
  _private (OnCheckTransmit entities bound infos v).2 = List.filter (fun e => negb (Index e <=? 0)) (map (resolve entities) (_private v)).
Proof. unfold OnCheckTransmit. destruct infos; [|done]. destruct bound; [|done]. cbn. by destruct (_ && _). Qed.

Lemma exec_glow_ok st op : glow_ok st.1 st.2 -> op_fine st op -> glow_ok (exec_glow handle_of for_ config st op).1 (exec_glow handle_of for_ config st op).2.
Proof.
  intros Hok Hf. destruct op as [pawns| |gone|slot|slot hidden|entities bound infos]; cbn [exec_glow fst snd].
  - by apply Refresh_ok.
  - by apply Destroy_ok.
  - destruct Hok as [H1 H2 H3 H4 H5]. constructor; cbn; [done..| |done]. intros k Hk [Hin _]%elem_of_difference. by apply H4.
  - apply vis_change_ok; [done| |].
    + intros e He. unfold Visibility_SlotChanged in He. destruct (IsValidSlot slot); [|by exists e]. cbn in He.
      apply list_elem_of_In, List.filter_In in He as [He _]. exists e. split; [by apply list_elem_of_In|done].
    + intros h _ (e & He & Hh & Hv). exists e. split; [|done]. unfold Visibility_SlotChanged. destruct (IsValidSlot slot) eqn:Hs; [|done]. cbn.
      apply list_elem_of_In, List.filter_In. split; [by apply list_elem_of_In|]. apply negb_true_iff, Z.eqb_neq.
      unfold for_viewers, op_fine, IsValidSlot in *. destruct for_; bools; [congruence|lia].
  - apply vis_change_ok; [done| |]; unfold SetPawnHidden; destruct (IsValidSlot slot); naive_solver.
  - apply vis_change_ok; [done| |].
    + intros e He. rewrite OnCheckTransmit_private in He. apply list_elem_of_In, List.filter_In in He as [(e' & <- & He')%in_map_iff _].
      exists e'. split; [by apply list_elem_of_In|done].
    + intros h Hh (e & He & Hhe & Hv). exists (resolve entities e). rewrite OnCheckTransmit_private. split; [|done].
      apply list_elem_of_In, List.filter_In. split; [apply in_map; by apply list_elem_of_In|]. cbn. rewrite Hhe. specialize (Hf h Hh).
      apply negb_true_iff, Z.leb_gt. lia.
Qed.

(** *** What [Refresh] leaves *)

(** The pair in [slot] is there only for a player who is to glow, is about that player as it is now, and both its clones are there; and
    when spawns succeed every such player with a model has one. *)
Definition matches (sure : Prop) (pawns : Z -> option PawnState) (slot : Z) (st : Pairs * World) : Prop :=
  let p := pair_at st.1 slot in
  (Active p = true -> desired for_ config (pawns slot) slot st.2 = true /\ PairTeam p = team_of (pawns slot) /\
                      PairModel p = model_of (pawns slot) /\ Relay p ∈ alive st.2 /\ Glow p ∈ alive st.2) /\
  (sure -> desired for_ config (pawns slot) slot st.2 = true -> model_of (pawns slot) <> [] -> Active p = true).

Lemma desired_state pawn slot w w' : _state (vis w') = _state (vis w) -> desired for_ config pawn slot w' = desired for_ config pawn slot w.
Proof. intros H. unfold desired, IsPawnHidden, state_of. by rewrite H. Qed.

Lemma DestroyPair_facts pair w :
  let '(p, w') := DestroyPair pair w in
  _state (vis w') = _state (vis w) /\ spawns w' = spawns w /\ next w' = next w /\ Active p = false /\
  forall h, h ∈ alive w -> h ∉ handles pair -> h ∈ alive w'.
Proof.
  unfold DestroyPair. destruct (Active pair) eqn:Ha; cbn; [|done]. repeat split. intros h Hh Hn. rewrite elem_of_handles in Hn by done. set_solver.
Qed.

Lemma CreatePair_facts pawn pair w : Active pair = false ->
  let '(p, w') := CreatePair handle_of for_ config pawn pair w in
  _state (vis w') = _state (vis w) /\ (spawns w = [] -> spawns w' = []) /\
  (Active p = true -> PairTeam p = team_of pawn /\ PairModel p = model_of pawn /\ Relay p ∈ alive w' /\ Glow p ∈ alive w') /\
  (spawns w = [] -> model_of pawn <> [] -> Active p = true) /\
  forall h, h ∈ alive w -> h <> handle_of (next w) -> h ∈ alive w'.
Proof.
  intros Ha. destruct pawn as [[[|c model] team ?]|]; cbn [CreatePair]; [by repeat split; intros; first [done|congruence]| |by repeat split; intros; first [done|congruence]].
  unfold Spawn at 1. destruct (spawns w) as [|[] later] eqn:Hs; cbn [tail].
  - cbn [Spawn spawns alive next vis tail]. rewrite !ShowToViewers_spec by done. cbn. repeat split; try done; [set_solver..|by intros; apply handles_set|set_solver].
  - unfold Spawn. cbn [spawns alive next vis tail]. destruct later as [|[] later].
    + rewrite !ShowToViewers_spec by done. cbn. repeat split; try done; set_solver.
    + rewrite !ShowToViewers_spec by done. cbn. repeat split; try done; set_solver.
    + cbn. rewrite Ha. repeat split; try done. set_solver.
  - cbn. by rewrite Ha.
Qed.

Lemma refresh_pair_facts pawns st slot :
  let '(p, w') := refresh_pair handle_of for_ config (pawns slot) slot (pair_at st.1 slot) st.2 in
  (spawns st.2 = [] -> spawns w' = []) /\ _state (vis w') = _state (vis st.2) /\
  (Active p = true -> desired for_ config (pawns slot) slot st.2 = true /\ PairTeam p = team_of (pawns slot) /\
                      PairModel p = model_of (pawns slot) /\ Relay p ∈ alive w' /\ Glow p ∈ alive w') /\
  (spawns st.2 = [] -> desired for_ config (pawns slot) slot st.2 = true -> model_of (pawns slot) <> [] -> Active p = true) /\
  forall h, h ∈ alive st.2 -> h ∉ handles (pair_at st.1 slot) -> h <> handle_of (next st.2) -> h ∈ alive w'.
Proof.
  destruct st as [pairs w]; cbn [fst snd]. set (p := pair_at pairs slot). unfold refresh_pair.
  set (wanted := desired _ _ _ _ _). destruct (Active p && stale _ _ _ _ _ _) eqn:Hst.
  - pose proof (DestroyPair_facts p w) as Hd. destruct (DestroyPair p w) as [p1 w1]. destruct Hd as (D1 & D2 & D3 & D4 & D5). rewrite D4. cbn [negb andb].
    destruct wanted; [|repeat split; intros; first [congruence|auto]].
    pose proof (CreatePair_facts (pawns slot) p1 w1 D4) as Hc. destruct (CreatePair _ _ _ _ p1 w1) as [q w2]. destruct Hc as (C1 & C2 & C3 & C4 & C5).
    rewrite D2 in *. rewrite D3 in *. split; [done|]. split; [congruence|]. split; [naive_solver|]. split; [naive_solver|]. intros; apply C5; auto.
  - destruct (Active p) eqn:Ha; cbn [negb andb] in *.
    + unfold stale in Hst. fold wanted in Hst. rewrite !orb_false_iff in Hst. destruct Hst as ((((H1 & H2) & H3) & H4) & H5).
      apply negb_false_iff in H1, H2, H3, H4, H5. apply bool_decide_eq_true in H3, H4, H5. apply Z.eqb_eq in H2. naive_solver.
    + destruct wanted eqn:Hw; [|repeat split; intros; first [congruence|auto]].
      pose proof (CreatePair_facts (pawns slot) p w Ha) as Hc. destruct (CreatePair _ _ _ _ p w) as [q w2]. naive_solver.
Qed.

Lemma refresh_slot_matches (sure : Prop) pawns st slot :
  glow_ok st.1 st.2 -> IsValidSlot slot = true -> (sure -> spawns st.2 = []) ->
  let st' := refresh_slot handle_of for_ config pawns st slot in
  matches sure pawns slot st' /\ (sure -> spawns st'.2 = []) /\
  forall s, IsValidSlot s = true -> s <> slot -> matches sure pawns s st -> matches sure pawns s st'.
Proof.
  intros Hok Hs Hsure. unfold refresh_slot. pose proof (refresh_pair_facts pawns st slot) as H.
  destruct (refresh_pair _ _ _ _ _ _ _) as [p w'] eqn:Hr. destruct H as (H1 & H2 & H3 & H4 & H5). cbn [fst snd].
  pose proof (g_wf _ _ Hok) as Hwf. unfold matches; cbn [fst snd]. rewrite pair_at_set_same by done. rewrite (desired_state _ _ st.2 w') by done.
  split; [by split; auto|]. split; [auto|]. intros s Hs' Hne [M1 M2]. rewrite pair_at_set by done.
  destruct (Z.eqb_spec slot s); [congruence|]. rewrite (desired_state _ _ st.2 w') by done.
  assert (forall h, owner st.1 h s -> h ∈ alive st.2 -> h ∈ alive w') as Hkeep.
  { intros h Ho Hh. apply H5; [done| |].
    - intros Hin. apply Hne. by eapply (g_apart _ _ Hok).
    - intros ->. destruct (g_mine _ _ Hok _ _ Ho) as (k & Hk & Hk'%handles_new). lia. }
  split; [|done]. intros Ha. destruct (M1 Ha) as (? & ? & ? & Hr' & Hg').
  assert (forall h, h = Relay (pair_at st.1 s) \/ h = Glow (pair_at st.1 s) -> owner st.1 h s) as Ho
    by (intros h Hh; split; [done|]; by apply elem_of_handles).
  split_and!; [done..| |]; apply Hkeep; auto.
Qed.

Lemma refresh_fold (sure : Prop) pawns l st : NoDup l -> (forall slot, slot ∈ l -> IsValidSlot slot = true) ->
  glow_ok st.1 st.2 -> (sure -> spawns st.2 = []) ->
  let st' := fold_left (refresh_slot handle_of for_ config pawns) l st in
  forall s, IsValidSlot s = true -> s ∈ l \/ matches sure pawns s st -> matches sure pawns s st'.
Proof.
  revert st; induction l as [|slot l IH]; intros st Hnd Hl Hok Hsure st' s Hs H; [destruct H as [H|]; [by apply elem_of_nil in H|done]|].
  apply NoDup_cons in Hnd as [Hn Hnd]. assert (IsValidSlot slot = true) as Hv by (apply Hl; by left).
  destruct (refresh_slot_matches sure pawns st slot Hok Hv Hsure) as (R1 & R2 & R3).
  apply (IH (refresh_slot handle_of for_ config pawns st slot)); [done|intros; apply Hl; by right|by apply refresh_slot_ok|done|done|].
  destruct (decide (s ∈ l)); [by left|right]. destruct (decide (s = slot)) as [->|Hne]; [done|]. apply R3; [done|done|].
  destruct H as [[|]%elem_of_cons|]; done.
Qed.

Lemma Refresh_matches pawns st s : glow_ok st.1 st.2 -> IsValidSlot s = true ->
  matches (spawns st.2 = []) pawns s (Refresh handle_of for_ config pawns st).
Proof.
  intros Hok Hs. apply refresh_fold; [|apply slots_valid|done|done|done|left; by apply list_elem_of_In, in_slots].
  apply (bool_decide_unpack _). by vm_compute.
Qed.

End GlowFacts.

Fixpoint all_fine (handle_of : nat -> Z) (for_ : viewers) (config : GlowConfig) (st : Pairs * World) (ops : list glow_op) {struct ops} : Prop :=
  match ops with [] => True | op :: ops => op_fine for_ st op /\ all_fine handle_of for_ config (exec_glow handle_of for_ config st op) ops end.

Lemma run_glow_ok handle_of for_ config ops st :
  (forall i j, handle_of i = handle_of j -> i = j) -> (forall i, ref_set (handle_of i) = true) ->
  match for_ with ForSlot slot => IsValidSlot slot = true | ForTeam team => IsPlaying team = true end ->
  glow_ok handle_of for_ st.1 st.2 -> all_fine handle_of for_ config st ops ->
  glow_ok handle_of for_ (fold_left (exec_glow handle_of for_ config) ops st).1 (fold_left (exec_glow handle_of for_ config) ops st).2.
Proof.
  intros Hn Hs Hv. revert st; induction ops as [|op ops IH]; intros st Hok; [done|]. intros [Hf Hr]. apply IH; [|done]. by apply exec_glow_ok.
Qed.

(** A client the clones are not for. *)
Definition outsider (for_ : viewers) (recipient team : Z) : Prop :=
  match for_ with ForSlot slot => recipient <> slot | ForTeam viewers => team <> viewers end.

(** C24. Outlines stay private and leave nothing behind. Whatever the glow is asked to do, whichever spawns fail, entities the engine
    takes away, players who come and go, pawns others hide and frames the filter runs on - as long as the viewer stays - every clone
    there is belongs to exactly one player's pair, and the filter hides it from every client it is not for; a refresh leaves a pair
    only for a player who is to glow, as that player is now, with both clones there, and one for each such player unless a spawn
    failed; and destroying leaves no clone and no entry in the filter. *)
Theorem clones_stay_private handle_of for_ config w ops :
  (forall i j, handle_of i = handle_of j -> i = j) -> (forall i, ref_set (handle_of i) = true) ->
  match for_ with ForSlot slot => IsValidSlot slot = true | ForTeam team => IsPlaying team = true end ->
  next w = O -> (forall e k, e ∈ _private (vis w) -> Entity e <> handle_of k) ->
  all_fine handle_of for_ config (GlowVision_new, w) ops ->
  let st := fold_left (exec_glow handle_of for_ config) ops (GlowVision_new, w) in
  (forall k, (k < next st.2)%nat -> handle_of k ∈ alive st.2 ->
     (exists slot, owner st.1 (handle_of k) slot /\ forall slot', owner st.1 (handle_of k) slot' -> slot' = slot) /\
     (forall recipient team, outsider for_ recipient team ->
        exists e, e ∈ _private (vis st.2) /\ Entity e = handle_of k /\ HiddenFor recipient team e = true)) /\
  (forall pawns slot, IsValidSlot slot = true -> matches for_ config (spawns st.2 = []) pawns slot (Refresh handle_of for_ config pawns st)) /\
  (forall k, (k < next (Destroy st).2)%nat -> handle_of k ∉ alive (Destroy st).2) /\
  (forall e k, e ∈ _private (vis (Destroy st).2) -> Entity e <> handle_of k).
Proof.
  intros Hn Hs Hv Hw He Hf st.
  assert (forall h s, ~ owner GlowVision_new h s) as Hnew.
  { intros h s [_ Hin]. revert Hin. apply handles_inactive. unfold pair_at, GlowVision_new. by rewrite PerSlot_get_new. }
  assert (glow_ok handle_of for_ st.1 st.2) as Hok.
  { apply run_glow_ok; [done..| |done]. constructor; cbn; [apply PerSlot_new_wf|by intros h s ?%Hnew|by intros h s1 s2 ?%Hnew|lia|naive_solver]. }
  split; [|split; [intros pawns slot ?; by apply Refresh_matches|]].
  - intros k Hk Hin. destruct (g_owned _ _ _ _ Hok k Hk Hin) as [[slot Ho] (e & He' & Hh & Hfor)]. split.
    + exists slot. split; [done|]. intros slot' Ho'. by eapply (g_apart _ _ _ _ Hok).
    + intros recipient team Hout. exists e. split; [done|]. split; [done|]. unfold for_viewers, outsider, HiddenFor in *.
      destruct for_ as [viewer|viewers].
      * unfold IsValidSlot in Hv. rewrite Hfor. bools. destruct (Z.leb_spec 0 viewer); [|lia]. apply negb_true_iff, Z.eqb_neq. congruence.
      * destruct Hfor as (H1 & H2 & H3). rewrite (proj2 (Z.leb_gt _ _)) by lia. rewrite H2. rewrite (proj2 (Z.eqb_neq viewers Team_None)) by done. cbn.
        apply negb_true_iff, Z.eqb_neq. congruence.
  - assert (glow_ok handle_of for_ (Destroy st).1 (Destroy st).2 /\ forall s, IsValidSlot s = true -> Active (pair_at (Destroy st).1 s) = false) as [Hok' Ha]
      by by apply Destroy_ok.
    assert (forall h s, ~ owner (Destroy st).1 h s) as Hno by (intros h s [Hvs Hin]; revert Hin; by apply handles_inactive, Ha).
    split.
    + intros k Hk Hin. destruct (g_owned _ _ _ _ Hok' k Hk Hin) as [[slot Ho] _]. by apply Hno in Ho.
    + intros e k Hin Hh. destruct (g_entries _ _ _ _ Hok' e k Hin Hh) as [slot Ho]. by apply Hno in Ho.
Qed.

(** Handles as numbers from 1, two players of which one dies, and a frame between. *)
Definition sample_handles (k : nat) : Z := - 1 - Z.of_nat k.
Definition sample_pawns (both : bool) (slot : Z) : option PawnState :=
  if slot =? 3 then Some (mkPawnState $"agents/a.vmdl" Team_T true)
  else if slot =? 5 then Some (mkPawnState $"agents/b.vmdl" Team_CT both) else None.
Definition sample_config : GlowConfig := mkConfig 1 2 None.
Definition sample_entities : Entities := mkEntities (fun h => - h) (fun _ => None) (fun _ => None) (fun _ => None) (fun _ => Team_None).
Definition sample_world : World := mkWorld ∅ 0 [true; true; true; false; true] Visibility_new.
Definition sample_glow_ops : list glow_op :=
  [GRefresh (sample_pawns true); GSlotChanged 5; GRefresh (sample_pawns true); GTransmit sample_entities true None; GRefresh (sample_pawns false)].

Lemma clones_stay_private_witness :
  let st := fold_left (exec_glow sample_handles (ForSlot 1) sample_config) sample_glow_ops (GlowVision_new, sample_world) in
  (forall k, (k < next (Destroy st).2)%nat -> sample_handles k ∉ alive (Destroy st).2) /\ next (Destroy st).2 = 5%nat /\
  elements (alive st.2) = [-2; -1].
Proof.
  split; [|split; by vm_compute].
  eapply (clones_stay_private sample_handles (ForSlot 1) sample_config sample_world sample_glow_ops).
  - unfold sample_handles. lia.
  - intros i. unfold sample_handles, ref_set, Unset. apply negb_true_iff, Z.eqb_neq. lia.
  - done.
  - done.
  - intros e k H. by apply elem_of_nil in H.
  - unfold sample_glow_ops. cbn [all_fine op_fine]. split; [exact I|]. split; [discriminate|]. split; [exact I|]. split; [|split; exact I].
    intros h Hh. apply Z.ltb_lt. apply elem_of_elements in Hh.
    match type of Hh with _ ∈ ?a => assert (forallb (fun h => 0 <? - h) a = true) as Hall by by vm_compute end.
    rewrite forallb_forall in Hall. apply Hall. exact (proj1 (list_elem_of_In _ _) Hh).
Defined.

(** The viewer leaving takes the filter's entries with it, and not the clones: until they are destroyed every client sees them. *)
Lemma viewer_left_shows_all :
  let st := fold_left (exec_glow sample_handles (ForSlot 1) sample_config) [GRefresh (sample_pawns true); GSlotChanged 1]
              (GlowVision_new, mkWorld ∅ 0 [] Visibility_new) in
  size (alive st.2) = 4%nat /\ _private (vis st.2) = [] /\
  (* and a refresh, which finds nothing stale, leaves it so *)
  _private (vis (Refresh sample_handles (ForSlot 1) sample_config (sample_pawns true) st).2) = [].
Proof. repeat split; by vm_compute. Qed.
