(* ===== verification/HttpClient.v ===== *)
(** * HTTP requests: [src/Http/HttpClient.cpp], [include/VoltMod/Http/HttpClient.hpp]

    Worker threads run requests; their completions run on the game thread's frames. A state holds where every thread is, and a
    step is what one thread does while it holds the mutex, or between two such: any interleaving is a sequence of steps. *)

From S2P Require Import Prelude Text.

(** ** Requests *)

Inductive HttpMethod := Get | Post | Put | Patch | Delete.

Definition lower_ascii (c : ascii) : ascii := if (65 <=? code c) && (code c <=? 90) then ascii_of_nat (Z.to_nat (code c + 32)) else c.

(** [HeaderNameLess]: lexicographic, without case. *)
Fixpoint HeaderNameLess (l r : text) : bool :=
  match l, r with
  | _, [] => false
  | [], _ :: _ => true
  | a :: l, b :: r => let a := code (lower_ascii a) in let b := code (lower_ascii b) in (a <? b) || ((a =? b) && HeaderNameLess l r)
  end.

Definition same_header (a b : text) : bool := negb (HeaderNameLess a b) && negb (HeaderNameLess b a).

(** A [std::map] under that order. *)
Definition HttpHeaders : Type := list (text * text).

Fixpoint set_header (name value : text) (headers : HttpHeaders) : HttpHeaders :=
  match headers with
  | [] => [(name, value)]
  | (k, v) :: rest =>
      if HeaderNameLess name k then (name, value) :: headers
      else if HeaderNameLess k name then (k, v) :: set_header name value rest
      else (k, value) :: rest
  end.

Definition find_header (name : text) (headers : HttpHeaders) : option text := option_map snd (List.find (fun h => same_header h.1 name) headers).

Record HttpRequest := mkRequest { Method : HttpMethod; Url : text; Body : text; Headers : HttpHeaders; TimeoutMs : Z }.

Definition AddAuth (request : HttpRequest) (header scheme key : text) : HttpRequest :=
  match key with
  | [] => request
  | _ =>
      let value := match scheme with [] => key | _ => scheme ++ $" " ++ key end in
      mkRequest (Method request) (Url request) (Body request) (set_header header value (Headers request)) (TimeoutMs request)
  end.

Record HttpResult := mkResult { Ok_ : bool; StatusCode : Z; ResultBody : text; Error_ : text }.

(** [cpr]'s response: the error's message, or the status and the text. *)
Definition ToResult (response : text + Z * text) : HttpResult :=
  match response with inl error => mkResult false 0 [] error | inr (status, body) => mkResult true status body [] end.

Definition too_many : HttpResult := mkResult false 0 [] $"too many requests waiting".

(** ** The client *)

Definition MaxWorkers : nat := 4.
Definition MaxWaiting : nat := 64.

(** Where a worker is: about to lock the mutex in [Take], asleep in the wait or woken from it, running a request, about to push
    its result, or returned. *)
Inductive worker := Taking | Asleep | Woken | Performing (id : nat) | Completing (id : nat) (result : HttpResult) | Gone.

(** Where the game thread is: free to run the program, before [notify_one], before [notify_all], joining, or past [Stop]. *)
Inductive game := Free | Notifying | Waking | Joining | Ended.

#[export] Instance result_eq_dec : EqDecision HttpResult.
Proof. solve_decision. Defined.
#[export] Instance worker_eq_dec : EqDecision worker.
Proof. solve_decision. Defined.
#[export] Instance game_eq_dec : EqDecision game.
Proof. solve_decision. Defined.

(** A request is a number. [ready] are the completions of the frame being run; [sent], [called] and [dropped] are history. *)
Record Requests := mkRequests {
  Stopped : bool; Waiting : list nat; Workers : list worker; Completions : list (nat * HttpResult); at_game : game; ready : list (nat * HttpResult);
  sent : list nat; called : list (nat * HttpResult); dropped : list nat }.

Definition HttpClient_new : Requests := mkRequests false [] [] [] Free [] [] [] [].

Definition idle (w : worker) : bool := match w with Asleep | Woken => true | _ => false end.

Definition IdleWorkers (r : Requests) : nat := length (List.filter idle (Workers r)).

(** [Send] under the mutex; the new request is number [length (sent r)]. *)
Definition Send (r : Requests) : Requests :=
  let id := length (sent r) in
  if Stopped r then r
  else if decide (MaxWaiting <= length (Waiting r))%nat then
    mkRequests false (Waiting r) (Workers r) (Completions r ++ [(id, too_many)]) Free (ready r) (sent r ++ [id]) (called r) (dropped r)
  else
    let workers := if decide (IdleWorkers r = 0 /\ length (Workers r) < MaxWorkers)%nat then Workers r ++ [Taking] else Workers r in
    mkRequests false (Waiting r ++ [id]) workers (Completions r) Notifying (ready r) (sent r ++ [id]) (called r) (dropped r).

Definition set_worker (i : nat) (w : worker) (r : Requests) : Requests :=
  mkRequests (Stopped r) (Waiting r) (<[i := w]> (Workers r)) (Completions r) (at_game r) (ready r) (sent r) (called r) (dropped r).

Definition set_game (g : game) (r : Requests) : Requests :=
  mkRequests (Stopped r) (Waiting r) (Workers r) (Completions r) g (ready r) (sent r) (called r) (dropped r).

(** What [Take] does once worker [i] holds the mutex: the wait's condition, and what follows when it holds. *)
Definition Take (i : nat) (r : Requests) : Requests :=
  if Stopped r then set_worker i Gone r
  else match Waiting r with
       | [] => set_worker i Asleep r
       | id :: waiting =>
           mkRequests false waiting (<[i := Performing id]> (Workers r)) (Completions r) (at_game r) (ready r) (sent r) (called r) (dropped r)
       end.

(** [Complete]: the result is pushed, and the worker goes on. *)
Definition Complete (i id : nat) (result : HttpResult) (r : Requests) : Requests :=
  mkRequests (Stopped r) (Waiting r) (<[i := Taking]> (Workers r)) (Completions r ++ [(id, result)]) (at_game r) (ready r) (sent r) (called r) (dropped r).

Definition wake (w : worker) : worker := match w with Asleep => Woken | _ => w end.

Definition Stop_mark (r : Requests) : Requests :=
  mkRequests true (Waiting r) (Workers r) (Completions r) Waking (ready r) (sent r) (called r) (dropped r).

Definition Stop_wake (r : Requests) : Requests :=
  mkRequests (Stopped r) (Waiting r) (map wake (Workers r)) (Completions r) Joining (ready r) (sent r) (called r) (dropped r).

(** Every worker was joined. *)
Definition Stop_end (r : Requests) : Requests :=
  mkRequests (Stopped r) [] [] [] Ended (ready r) (sent r) (called r) (dropped r ++ Waiting r ++ map fst (Completions r)).

(** A frame: what was pushed so far is taken, and then called one by one. *)
Definition RunCompletions (r : Requests) : Requests :=
  mkRequests (Stopped r) (Waiting r) (Workers r) [] (at_game r) (Completions r) (sent r) (called r) (dropped r).

Definition call_next (r : Requests) : Requests :=
  match ready r with
  | [] => r
  | c :: rest => mkRequests (Stopped r) (Waiting r) (Workers r) (Completions r) (at_game r) rest (sent r) (called r ++ [c]) (dropped r)
  end.

(** The program sends between frames and from completions, and stops between frames. *)
Inductive step : Requests -> Requests -> Prop :=
| step_send r : at_game r = Free \/ at_game r = Ended -> step r (Send r)
| step_notify r i : at_game r = Notifying -> Workers r !! i = Some Asleep -> step r (set_game Free (set_worker i Woken r))
| step_notify_none r : at_game r = Notifying -> (forall i, Workers r !! i <> Some Asleep) -> step r (set_game Free r)
| step_frame r : at_game r = Free \/ at_game r = Ended -> ready r = [] -> step r (RunCompletions r)
| step_call r : at_game r = Free -> ready r <> [] -> step r (call_next r)
| step_stop r : at_game r = Free \/ at_game r = Ended -> ready r = [] -> step r (Stop_mark r)
| step_stop_wake r : at_game r = Waking -> step r (Stop_wake r)
| step_stop_end r : at_game r = Joining -> (forall i w, Workers r !! i = Some w -> w = Gone) -> step r (Stop_end r)
| step_take r i : Workers r !! i = Some Taking \/ Workers r !! i = Some Woken -> step r (Take i r)
| step_spurious r i : Workers r !! i = Some Asleep -> step r (set_worker i Woken r)
| step_perform r i id result : Workers r !! i = Some (Performing id) -> step r (set_worker i (Completing id result) r)
| step_complete r i id result : Workers r !! i = Some (Completing id result) -> step r (Complete i id result r).

Definition reachable (r : Requests) : Prop := rtc step HttpClient_new r.

(** ** What holds in every interleaving *)

(** The request a worker holds. *)
Definition holds (w : worker) : list nat := match w with Performing id | Completing id _ => [id] | _ => [] end.

Definition in_workers (r : Requests) : list nat := flat_map holds (Workers r).

(** Where the requests sent are. *)
Definition placed (r : Requests) : list nat :=
  Waiting r ++ in_workers r ++ map fst (Completions r) ++ map fst (ready r) ++ map fst (called r) ++ dropped r.

Definition awake (w : worker) : Prop := match w with Asleep | Gone => False | _ => True end.

Record ok (r : Requests) : Prop := {
  ok_placed : Permutation (placed r) (sent r);
  ok_fresh : sent r = seq 0 (length (sent r));
  ok_workers : (length (Workers r) <= MaxWorkers)%nat;
  ok_waiting : (length (Waiting r) <= MaxWaiting)%nat;
  ok_gone : Gone ∈ Workers r -> Stopped r = true;
  ok_awake : Stopped r = false -> Waiting r <> [] -> (exists w, w ∈ Workers r /\ awake w) \/ (at_game r = Notifying /\ Asleep ∈ Workers r);
  ok_stopped : Stopped r = bool_decide (at_game r = Waking \/ at_game r = Joining \/ at_game r = Ended);
  ok_woken : at_game r = Joining \/ at_game r = Ended -> Asleep ∉ Workers r;
  ok_ended : at_game r = Ended -> Waiting r = [] /\ Workers r = [] /\ Completions r = [];
  ok_between : at_game r = Waking \/ at_game r = Joining \/ at_game r = Ended -> ready r = [] }.

Abbreviation count := (count_occ Nat.eq_dec).
#[local] Arguments Nat.eq_dec : simpl never.

Lemma count_workers ws i w w' id : ws !! i = Some w ->
  (count (flat_map holds (<[i := w']> ws)) id + count (holds w) id = count (flat_map holds ws) id + count (holds w') id)%nat.
Proof.
  revert i. induction ws as [|a ws IH]; intros [|i] H; try done.
  - injection H as ->. cbn. rewrite !count_occ_app. lia.
  - specialize (IH i H). change (<[S i := w']> (a :: ws)) with (a :: <[i := w']> ws). cbn [flat_map]. rewrite !count_occ_app. lia.
Qed.

(** A worker that goes from [w] to [w'] with the rest of the requests moving as they may. *)
Lemma placed_moves r r' i w w' :
  Workers r !! i = Some w -> Workers r' = <[i := w']> (Workers r) -> sent r' = sent r ->
  (forall id, count (placed r') id + count (in_workers r) id + count (holds w') id = count (placed r) id + count (in_workers r') id + count (holds w) id)%nat ->
  Permutation (placed r) (sent r) -> Permutation (placed r') (sent r').
Proof.
  intros Hw Hw' Hs Hc Hp. rewrite Hs, <- Hp. apply (Permutation_count_occ Nat.eq_dec). intros id. specialize (Hc id).
  pose proof (count_workers (Workers r) i w w' id Hw) as H. unfold in_workers in *. rewrite Hw' in Hc. lia.
Qed.

Ltac counts := intros; unfold placed, in_workers; cbn; rewrite ?count_occ_app; cbn; rewrite ?count_occ_app; cbn; try lia.

Lemma elem_of_insert_inv {A} (l : list A) i x y : y ∈ <[i := x]> l -> y = x \/ y ∈ l.
Proof. intros H. apply list_elem_of_lookup in H as [j Hj]. apply list_lookup_insert_Some in Hj as [(_ & <- & _)|[_ Hj]]; [by left|right]. by eapply list_elem_of_lookup_2. Qed.

Lemma insert_elem {A} (l : list A) i x y : l !! i = Some x -> y ∈ <[i := y]> l.
Proof. intros H. eapply (list_elem_of_lookup_2 _ i). apply list_lookup_insert_eq. by eapply lookup_lt_Some. Qed.

Lemma awake_insert (ws : list worker) i w w' : ws !! i = Some w -> awake w' -> exists v, v ∈ <[i := w']> ws /\ awake v.
Proof. intros H Ha. exists w'. split; [by eapply insert_elem|done]. Qed.

(** A worker that moves while the game thread is where it was: to somewhere awake, or to sleep with nothing waiting. *)
Lemma ok_worker r r' i w w' :
  ok r -> Workers r !! i = Some w -> Workers r' = <[i := w']> (Workers r) -> Permutation (placed r') (sent r') ->
  Stopped r' = Stopped r -> at_game r' = at_game r -> ready r' = ready r -> sent r' = sent r -> (length (Waiting r') <= length (Waiting r))%nat ->
  (w' = Gone -> Stopped r = true) -> (w' = Asleep -> Stopped r = false /\ Waiting r' = []) -> ok r'.
Proof.
  intros H Hw Hw' Hp Hst Hg Hr Hs Hlen Hgone Hsleep. destruct H. constructor; rewrite ?Hst, ?Hg, ?Hr, ?Hs, ?Hw'; try done.
  - by rewrite <- Hs.
  - by rewrite length_insert.
  - lia.
  - intros Hin. apply elem_of_insert_inv in Hin as [<-|Hin]; auto.
  - intros Hs' Hne. destruct w'; try (left; by eapply awake_insert).
    + by destruct Hsleep.
    + rewrite Hgone in Hs' by done. done.
  - intros Hj Hin. apply elem_of_insert_inv in Hin as [<-|Hin]; [|by apply ok_woken0]. destruct Hsleep as [Hs' _]; [done|].
    rewrite ok_stopped0 in Hs'. apply bool_decide_eq_false in Hs'. tauto.
  - intros He. destruct (ok_ended0 He) as (_ & Hws & _). rewrite Hws in Hw. by rewrite lookup_nil in Hw.
Qed.

Lemma step_worker_ok r i : ok r ->
  (Workers r !! i = Some Taking \/ Workers r !! i = Some Woken -> ok (Take i r)) /\
  (Workers r !! i = Some Asleep -> ok (set_worker i Woken r)) /\
  (forall id result, Workers r !! i = Some (Performing id) -> ok (set_worker i (Completing id result) r)) /\
  (forall id result, Workers r !! i = Some (Completing id result) -> ok (Complete i id result r)).
Proof.
  intros H. pose proof (ok_placed r H) as Hp. split_and!.
  - intros Hw. assert (exists w, Workers r !! i = Some w /\ holds w = []) as (w & Ew & Hh) by (destruct Hw; eauto). clear Hw. unfold Take.
    destruct (Stopped r) eqn:Es; [|destruct (Waiting r) as [|id waiting] eqn:Ewait].
    + eapply (ok_worker r _ i w Gone); try done. eapply (placed_moves r _ i w Gone); try done. counts. rewrite Hh. cbn. lia.
    + eapply (ok_worker r _ i w Asleep); try done. eapply (placed_moves r _ i w Asleep); try done. counts. rewrite Hh. cbn. lia.
    + eapply (ok_worker r _ i w (Performing id)); try done; [|cbn; rewrite Ewait; cbn; lia].
      eapply (placed_moves r _ i w (Performing id)); try done. counts. rewrite Hh, Ewait. cbn. destruct (Nat.eq_dec id id0); lia.
  - intros Ew. eapply (ok_worker r _ i Asleep Woken); try done. eapply (placed_moves r _ i Asleep Woken); try done. counts.
  - intros id result Ew. eapply (ok_worker r _ i (Performing id)); try done. eapply (placed_moves r _ i (Performing id)); try done. counts.
  - intros id result Ew. eapply (ok_worker r _ i (Completing id result) Taking); try done. eapply (placed_moves r _ i (Completing id result) Taking); try done.
    intros x. unfold placed, in_workers. cbn. rewrite ?map_app, ?count_occ_app. cbn. destruct (Nat.eq_dec id x); lia.
Qed.

Lemma idle_none r : ok r -> Stopped r = false -> IdleWorkers r = O -> forall w, w ∈ Workers r -> awake w.
Proof.
  intros H Hs Hi w Hw. apply length_zero_iff_nil in Hi. destruct w; try done; exfalso.
  - assert (In Asleep (List.filter idle (Workers r))) as Hin by (apply filter_In; split; [by apply list_elem_of_In|done]). by rewrite Hi in Hin.
  - apply (ok_gone r H) in Hw. congruence.
Qed.

Lemma idle_some r : ok r -> (0 < IdleWorkers r)%nat -> exists w, w ∈ Workers r /\ (awake w \/ w = Asleep).
Proof.
  unfold IdleWorkers. intros H Hi. destruct (List.filter idle (Workers r)) as [|w ws] eqn:E; [cbn in Hi; lia|].
  assert (In w (List.filter idle (Workers r))) as Hin by (rewrite E; by left). apply filter_In in Hin as [Hin Hw]. exists w. split; [by apply list_elem_of_In|].
  destruct w; try done; [by right|by left].
Qed.

Lemma seq_snoc (l : list nat) : l = seq 0 (length l) -> l ++ [length l] = seq 0 (length (l ++ [length l])).
Proof. intros H. rewrite length_app. cbn. rewrite Nat.add_1_r, seq_S. by rewrite <- H. Qed.

Lemma Send_ok r : ok r -> at_game r = Free \/ at_game r = Ended -> ok (Send r).
Proof.
  intros H Hg. unfold Send. destruct (Stopped r) eqn:Es; [done|].
  assert (at_game r = Free) as Hf by (destruct Hg as [Hg|Hg]; [done|]; rewrite (ok_stopped r H), bool_decide_eq_true_2 in Es by auto; done).
  destruct (decide (MaxWaiting <= length (Waiting r))%nat) as [Hm|Hm].
  - destruct H. constructor; cbn; try done; try (by intros [Hx|Hx]); try (by intros [Hx|[Hx|Hx]]).
    + unfold placed, in_workers in *. cbn. rewrite map_app. cbn. rewrite <- ok_placed0. apply (Permutation_count_occ Nat.eq_dec). intros x. rewrite !count_occ_app. lia.
    + by apply seq_snoc.
    + intros Hin. specialize (ok_gone0 Hin). congruence.
    + intros _ Hne. destruct (ok_awake0 Es Hne) as [Ha|[Hx _]]; [by left|congruence].
  - set (workers := if decide _ then _ else _). assert (flat_map holds workers = in_workers r) as Hw.
    { unfold workers. case_decide; [|done]. rewrite flat_map_app. cbn. by rewrite app_nil_r. }
    assert (forall w, w ∈ Workers r -> w ∈ workers) as Hsub by (intros w Hin; unfold workers; case_decide; [rewrite elem_of_app; by left|done]).
    assert (Gone ∉ Workers r) as Hgone by (intros Hin; specialize (ok_gone r H Hin); congruence).
    assert ((exists w, w ∈ workers /\ awake w) \/ Asleep ∈ workers) as Haw.
    { destruct (decide (IdleWorkers r = 0)%nat) as [Hi|Hi].
      - left. destruct (decide (length (Workers r) < MaxWorkers)%nat) as [Hl|Hl].
        + exists Taking. unfold workers. rewrite decide_True by done. split; [rewrite elem_of_app; right; by left|done].
        + destruct (Workers r) as [|w ws] eqn:E; [unfold MaxWorkers in Hl; cbn in Hl; lia|]. exists w. split; [apply Hsub; by left|].
          apply (idle_none r H Es Hi). rewrite E. by left.
      - destruct (idle_some r H ltac:(lia)) as (w & Hin & [Ha| ->]); [left; exists w; split; [by apply Hsub|done]|right; by apply Hsub]. }
    destruct H. constructor; cbn; try done; try (by intros [Hx|Hx]); try (by intros [Hx|[Hx|Hx]]).
    + unfold placed, in_workers in *. cbn. rewrite Hw. unfold in_workers. rewrite <- ok_placed0. apply (Permutation_count_occ Nat.eq_dec). intros x. rewrite !count_occ_app. lia.
    + by apply seq_snoc.
    + unfold workers. destruct (decide _) as [Hd|Hd]; [rewrite length_app; cbn; lia|exact ok_workers0].
    + rewrite length_app. cbn. lia.
    + intros Hin. exfalso. apply Hgone. unfold workers in Hin. destruct (decide _) in Hin; [|exact Hin]. apply elem_of_app in Hin as [Hin|Hin]; [done|]. by apply list_elem_of_singleton in Hin.
    + intros _ _. destruct Haw as [Ha|Ha]; [by left|by right].
Qed.

(** Only the game thread's place changes, and a worker wakes. *)
Lemma notify_ok r i : ok r -> at_game r = Notifying -> Workers r !! i = Some Asleep -> ok (set_game Free (set_worker i Woken r)).
Proof.
  intros H Hg Hw. destruct (step_worker_ok r i H) as (_ & Hs & _). specialize (Hs Hw). destruct Hs. cbn in *.
  rewrite Hg in *. constructor; cbn; try done; try (by intros [Hx|Hx]); try (by intros [Hx|[Hx|Hx]]).
  intros _ _. left. by eapply awake_insert.
Qed.

Lemma notify_none_ok r : ok r -> at_game r = Notifying -> (forall i, Workers r !! i <> Some Asleep) -> ok (set_game Free r).
Proof.
  intros H Hg Hn. destruct H. rewrite Hg in *. constructor; cbn; try done; try (by intros [Hx|Hx]); try (by intros [Hx|[Hx|Hx]]).
  intros Hs Hne. destruct (ok_awake0 Hs Hne) as [Ha|[_ Hin]]; [by left|]. apply list_elem_of_lookup in Hin as [i Hi]. by destruct (Hn i).
Qed.

Lemma frame_ok r : ok r -> at_game r = Free \/ at_game r = Ended -> ready r = [] -> ok (RunCompletions r).
Proof.
  intros H Hg Hr. destruct H. constructor; cbn; try done.
  - unfold placed, in_workers in *. cbn. rewrite Hr in ok_placed0. cbn in ok_placed0. exact ok_placed0.
  - intros He. destruct (ok_ended0 He) as (-> & -> & _). done.
  - intros Hb. destruct Hg as [Hg|Hg]; [rewrite Hg in Hb; by destruct Hb as [|[|]]|]. by destruct (ok_ended0 Hg) as (_ & _ & ->).
Qed.

Lemma call_ok r : ok r -> at_game r = Free -> ok (call_next r).
Proof.
  intros H Hg. unfold call_next. destruct (ready r) as [|c rest] eqn:Er; [done|]. destruct H. constructor; cbn; try done.
  - unfold placed, in_workers in *. cbn. rewrite <- ok_placed0, Er, map_app. cbn. apply (Permutation_count_occ Nat.eq_dec). intros x.
    rewrite !count_occ_app. cbn. destruct (Nat.eq_dec _ x); rewrite ?count_occ_app; lia.
  - rewrite Hg. by intros [|[|]].
Qed.

Lemma stop_ok r : ok r ->
  (at_game r = Free \/ at_game r = Ended -> ready r = [] -> ok (Stop_mark r)) /\ (at_game r = Waking -> ok (Stop_wake r)) /\
  (at_game r = Joining -> (forall i w, Workers r !! i = Some w -> w = Gone) -> ok (Stop_end r)).
Proof.
  intros H. pose proof (ok_placed r H) as Hp. destruct H. split_and!.
  - intros Hg Hr. constructor; cbn; try done; by intros [|].
  - intros Hg. rewrite Hg in *. assert (flat_map holds (map wake (Workers r)) = in_workers r) as Hf.
    { unfold in_workers. clear. induction (Workers r) as [|w ws IH]; [done|]. cbn. rewrite IH. by destruct w. }
    assert (Stopped r = true) as Hs by (rewrite ok_stopped0; by apply bool_decide_eq_true_2; left). constructor; cbn; rewrite ?Hs; try done.
    + unfold placed, in_workers. cbn. rewrite Hf. exact Hp.
    + by rewrite length_map.
    + intros _ Hin. apply list_elem_of_fmap in Hin as (w & Hw & _). by destruct w.
    + intros _. by apply ok_between0; left.
  - intros Hg Hgone. assert (in_workers r = []) as Hw.
    { unfold in_workers. clear - Hgone. induction (Workers r) as [|w ws IH]; [done|]. cbn. rewrite (Hgone O w eq_refl). cbn. apply IH. intros i. apply (Hgone (S i)). }
    constructor; cbn; try done; try lia.
    + unfold placed in *. rewrite Hw in Hp. unfold in_workers. cbn. rewrite <- Hp. apply (Permutation_count_occ Nat.eq_dec). intros x. cbn. rewrite !count_occ_app. lia.
    + intros Hin. by apply elem_of_nil in Hin.
    + rewrite ok_stopped0, Hg. done.
    + intros _ Hin. by apply elem_of_nil in Hin.
    + intros _. apply ok_between0. auto.
Qed.

Lemma step_ok r r' : ok r -> step r r' -> ok r'.
Proof.
  intros H Hs. pose proof (fun i => step_worker_ok r i H) as Hw. destruct (stop_ok r H) as (H1 & H2 & H3).
  destruct Hs; [by apply Send_ok|by apply notify_ok|by apply notify_none_ok|by apply frame_ok|by apply call_ok|by apply H1|by apply H2|by apply H3|..];
    by apply (Hw i).
Qed.

Lemma reachable_ok r : reachable r -> ok r.
Proof.
  intros H. assert (ok HttpClient_new) as H0.
  { constructor; cbn; try done; try lia; try (by intros [|[|]]); try (by intros ? Hin%elem_of_nil); try (by intros Hin%elem_of_nil). }
  induction H as [|r1 r2 r3 Hs _ IH]; [done|]. apply IH. by eapply step_ok.
Qed.

(** ** Once stopped *)

Lemma stopped_step r r' : Stopped r = true -> ok r -> step r r' -> Stopped r' = true /\ called r' = called r.
Proof.
  intros Hs H Hst. assert (at_game r <> Free) as Hf by (intros Hf; rewrite (ok_stopped r H), Hf in Hs; done).
  destruct Hst as [r Hg|r i Hg Hw|r Hg Hw|r Hg Hr|r Hg Hr|r Hg Hr|r Hg|r Hg Hw|r i Hw|r i Hw|r i id result Hw|r i id result Hw]; cbn; try done.
  - unfold Send. by rewrite Hs.
  - unfold Take. by rewrite Hs.
Qed.

Lemma stopped_calls_none r r' : reachable r -> Stopped r = true -> rtc step r r' -> called r' = called r.
Proof.
  intros Hr Hs H. apply reachable_ok in Hr. revert Hs Hr. induction H as [|r1 r2 r3 Hst _ IH]; intros Hs Hr; [done|].
  destruct (stopped_step r1 r2 Hs Hr Hst) as [Hs2 Hc]. rewrite <- Hc. apply IH; [done|]. by eapply step_ok.
Qed.

Lemma dropped_stopped r : reachable r -> Stopped r = false -> dropped r = [].
Proof.
  intros H. assert (forall r r', ok r -> (Stopped r = false -> dropped r = []) -> step r r' -> Stopped r' = false -> dropped r' = []) as Hstep.
  { clear r H. intros r r' Hok IH Hst Hs. destruct (Stopped r) eqn:E; [destruct (stopped_step r r' E Hok Hst); congruence|].
    destruct Hst as [r Hg|r i Hg Hw|r Hg Hw|r Hg Hr|r Hg Hr|r Hg Hr|r Hg|r Hg Hw|r i Hw|r i Hw|r i id result Hw|r i id result Hw]; cbn in *; try (by apply IH); try done.
    - unfold Send. rewrite E. destruct (decide _); cbn; by apply IH.
    - unfold call_next. destruct (ready r); cbn; by apply IH.
    - exfalso. rewrite (ok_stopped r Hok), Hg in E. done.
    - unfold Take. rewrite E. destruct (Waiting r); cbn; by apply IH. }
  enough (forall r0, rtc step r0 r -> ok r0 -> (Stopped r0 = false -> dropped r0 = []) -> Stopped r = false -> dropped r = []) as Hall.
  { apply (Hall _ H); [apply reachable_ok, rtc_refl|done]. }
  clear H. intros r0 Hr. induction Hr as [|r1 r2 r3 Hst _ IH]; intros Hok Hd; [done|]. apply IH; [by eapply step_ok|]. by apply (Hstep r1 r2).
Qed.

(** ** The threads go on *)

Definition weight (w : worker) : nat := match w with Performing _ => 5 | Completing _ _ => 4 | _ => 0 end.
Fixpoint total (f : worker -> nat) (ws : list worker) : nat := match ws with [] => O | w :: ws => (f w + total f ws)%nat end.

Definition left_to_do (r : Requests) : nat :=
  (6 * length (Waiting r) + total weight (Workers r) + 2 * length (Completions r) + length (ready r) + match at_game r with Notifying => 1 | _ => 0 end)%nat.

Lemma sum_insert (f : worker -> nat) ws i w w' : ws !! i = Some w -> (total f (<[i := w']> ws) + f w = total f ws + f w')%nat.
Proof.
  revert i. induction ws as [|a ws IH]; intros [|i] H; try done.
  - injection H as ->. cbn. lia.
  - specialize (IH i H). change (<[S i := w']> (a :: ws)) with (a :: <[i := w']> ws). cbn [total]. lia.
Qed.

Lemma insert_id_sum (f : worker -> nat) ws i w : ws !! i = Some w -> (f w <= total f ws)%nat.
Proof.
  revert i. induction ws as [|a ws IH]; intros [|i] H; try done; cbn; [injection H as ->; lia|]. specialize (IH i H). lia.
Qed.

Lemma done_workers ws : total weight ws = O -> flat_map holds ws = [].
Proof. induction ws as [|w ws IH]; [done|]. cbn. intros H. rewrite IH by lia. destruct w; cbn in H; try done; lia. Qed.

Lemma busy_worker (f : worker -> nat) ws : total f ws <> O -> exists i w, ws !! i = Some w /\ f w <> O.
Proof.
  induction ws as [|w ws IH]; [done|]. cbn. intros H. destruct (decide (f w = O)) as [E|E]; [|by exists O, w].
  destruct IH as (i & v & Hi & Hv); [lia|]. by exists (S i), v.
Qed.

Lemma no_busy_worker (f : worker -> nat) ws i w : total f ws = O -> ws !! i = Some w -> f w = O.
Proof. intros H Hi. pose proof (insert_id_sum f ws i w Hi). lia. Qed.

Lemma goes_on r : ok r -> Stopped r = false -> left_to_do r <> O ->
  exists r', step r r' /\ (left_to_do r' < left_to_do r)%nat /\ sent r' = sent r /\ Stopped r' = false.
Proof.
  intros H Hs Hm. assert (at_game r = Free \/ at_game r = Notifying) as Hg.
  { pose proof (ok_stopped r H) as E. rewrite Hs in E. symmetry in E. apply bool_decide_eq_false in E. destruct (at_game r); tauto. }
  unfold left_to_do in *. destruct Hg as [Hg|Hg].
  2: { destruct (decide (Asleep ∈ Workers r)) as [Ha|Ha].
       - apply list_elem_of_lookup in Ha as [i Hi]. eexists. split; [by apply (step_notify r i)|]. cbn. rewrite Hg.
         pose proof (sum_insert weight (Workers r) i Asleep Woken Hi) as E. cbn in E. split_and!; [lia|done..].
       - eexists. split; [apply step_notify_none; [done|]; intros i Hi; apply Ha; by eapply list_elem_of_lookup_2|]. cbn.
         rewrite Hg. split_and!; [lia|done..]. }
  rewrite Hg in Hm |- *. destruct (ready r) as [|c rest] eqn:Er.
  2: { eexists. split; [apply step_call; [done|by rewrite Er]|]. unfold call_next. rewrite Er. cbn. rewrite Hg. split_and!; [lia|done..]. }
  destruct (Completions r) as [|c cs] eqn:Ec.
  2: { eexists. split; [apply step_frame; [by left|done]|]. cbn. rewrite Ec, Hg. cbn. split_and!; [lia|done..]. }
  destruct (decide (total weight (Workers r) = O)) as [Hz|Hz].
  - assert (Waiting r <> []) as Hw by (intros E; rewrite E in Hm; cbn in Hm; lia). destruct (ok_awake r H Hs Hw) as [(w & Hin & Ha)|[Hn _]]; [|congruence].
    apply list_elem_of_lookup in Hin as [i Hi]. assert (weight w = O) as Hww.
    { pose proof (sum_insert weight (Workers r) i w Gone Hi) as E. cbn in E. rewrite Hz in E. lia. }
    assert (Workers r !! i = Some Taking \/ Workers r !! i = Some Woken) as Ht by (destruct w; try done; auto).
    eexists. split; [by apply (step_take r i)|]. unfold Take. rewrite Hs. destruct (Waiting r) as [|id waiting] eqn:Ew; [done|]. cbn.
    rewrite Hg. pose proof (sum_insert weight (Workers r) i w (Performing id) Hi) as E. rewrite Hww, Ec, Er in *. cbn in *. split_and!; [lia|done..].
  - destruct (busy_worker weight _ Hz) as (i & w & Hi & Hw). destruct w as [| | |id|id result|]; try done.
    + pose proof (sum_insert weight (Workers r) i _ (Completing id too_many) Hi) as E. eexists. split; [by apply (step_perform r i id too_many)|]. cbn.
      rewrite Hg. rewrite Ec, Er. cbn in *. split_and!; [lia|done..].
    + pose proof (sum_insert weight (Workers r) i _ Taking Hi) as E. eexists. split; [by apply (step_complete r i id result)|]. cbn.
      rewrite Hg. rewrite Ec, Er. cbn in *. split_and!; [lia|done..].
Qed.

Lemma reaches_done n r : ok r -> Stopped r = false -> (left_to_do r <= n)%nat ->
  exists r', rtc step r r' /\ sent r' = sent r /\ Stopped r' = false /\ left_to_do r' = O /\ ok r'.
Proof.
  revert r. induction n as [|n IH]; intros r H Hs Hn; [exists r; split_and!; [apply rtc_refl|done..|lia|done]|].
  destruct (decide (left_to_do r = O)) as [Hz|Hz]; [exists r; split_and!; [apply rtc_refl|done..]|].
  destruct (goes_on r H Hs Hz) as (r1 & Hst & Hl & Hse & Hs1). destruct (IH r1) as (r2 & Hr & Hse2 & Hs2 & Hz2 & H2); [by eapply step_ok|done|lia|].
  exists r2. split_and!; [by eapply rtc_l|congruence|done..].
Qed.

Definition stop_weight (w : worker) : nat := match w with Performing _ => 3 | Completing _ _ => 2 | Gone => 0 | _ => 1 end.


Lemma joins n r : ok r -> at_game r = Joining -> (total stop_weight (Workers r) <= n)%nat -> exists r', rtc step r r' /\ at_game r' = Ended.
Proof.
  revert r. induction n as [|n IH]; intros r H Hg Hn; destruct (decide (total stop_weight (Workers r) = O)) as [Hz|Hz]; try lia.
  1,2: exists (Stop_end r); split; [apply rtc_once, step_stop_end; [done|]|done]; intros i w Hi; pose proof (no_busy_worker stop_weight _ i w Hz Hi); by destruct w.
  assert (Stopped r = true) as Hs by (rewrite (ok_stopped r H), Hg; done).
  assert (forall i w w' r', Workers r !! i = Some w -> step r r' -> Workers r' = <[i := w']> (Workers r) -> at_game r' = at_game r -> (stop_weight w' < stop_weight w)%nat ->
    exists r'', rtc step r r'' /\ at_game r'' = Ended) as Hgo.
  { intros i w w' r' Hi Hst Hw Hg' Hlt. destruct (IH r') as (r'' & Hr & He); [by eapply step_ok|congruence| |].
    - pose proof (sum_insert stop_weight (Workers r) i w w' Hi). rewrite Hw. lia.
    - exists r''. split; [by eapply rtc_l|done]. }
  destruct (busy_worker stop_weight _ Hz) as (i & w & Hi & Hw). destruct w as [| | |id|id result|]; try done.
  - eapply (Hgo i _ Gone); [done|by apply (step_take r i); left|unfold Take; by rewrite Hs..|cbn; lia].
  - destruct (ok_woken r H (or_introl Hg)). by eapply list_elem_of_lookup_2.
  - eapply (Hgo i _ Gone); [done|by apply (step_take r i); right|unfold Take; by rewrite Hs..|cbn; lia].
  - eapply (Hgo i _ (Completing id too_many)); [done|by apply (step_perform r i id)|done..|cbn; lia].
  - eapply (Hgo i _ Taking); [done|by apply (step_complete r i id result)|done..|cbn; lia].
Qed.

Lemma stop_ends r : reachable r -> Stopped r = true -> exists r', rtc step r r' /\ at_game r' = Ended.
Proof.
  intros Hr Hs. apply reachable_ok in Hr as H. pose proof (ok_stopped r H) as E. rewrite Hs in E. symmetry in E. apply bool_decide_eq_true in E as [Hg|[Hg|Hg]].
  - destruct (joins (total stop_weight (Workers (Stop_wake r))) (Stop_wake r)) as (r' & Hr' & He); [by apply (step_ok r), step_stop_wake|done|lia|].
    exists r'. split; [by eapply rtc_l; [apply step_stop_wake|]|done].
  - by eapply joins.
  - exists r. split; [apply rtc_refl|done].
Qed.


(** No request is left behind: from wherever the threads are, unless the client is being stopped, they can go on, without the
    program sending more, until every request sent has had its completion; and a client being stopped can always finish, so
    [Stop] does not wait for ever. A worker that sleeps while requests wait is never the last one awake. *)
Theorem requests_go_on r :
  reachable r ->
  (Stopped r = false -> exists r', rtc step r r' /\ sent r' = sent r /\ forall id, In id (sent r) -> In id (map fst (called r'))) /\
  (Stopped r = true -> exists r', rtc step r r' /\ at_game r' = Ended).
Proof.
  intros Hr. split; [|by apply stop_ends]. intros Hs. apply reachable_ok in Hr as H.
  destruct (reaches_done _ r H Hs (le_n _)) as (r' & Hr' & Hse & Hs' & Hz & H'). exists r'. split_and!; [done..|]. intros id Hin.
  assert (reachable r') as Hreach by (unfold reachable in *; by transitivity r). rewrite <- Hse in Hin. apply (Permutation_in id (Permutation_sym (ok_placed r' H'))) in Hin.
  unfold left_to_do in Hz. unfold placed, in_workers in Hin. rewrite (done_workers (Workers r')), (dropped_stopped r' Hreach Hs') in Hin by lia.
  destruct (Waiting r'), (Completions r'), (ready r'); cbn in Hz; try lia. cbn in Hin. by rewrite app_nil_r in Hin.
Qed.

(** *** A short run *)

Module Sample.
Definition answer : HttpResult := mkResult true 200 $"ok" [].
Definition taken : Requests := Take 0 (set_game Free (Send HttpClient_new)).
Definition finished : Requests := Complete 0 0 answer (set_worker 0 (Completing 0 answer) taken).
Definition answered : Requests := call_next (RunCompletions finished).
(** One worker sleeps; two requests are sent before it wakes. *)
Definition burst : Requests := Take 0 (set_game Free (Send (set_game Free (set_worker 0 Woken (Send (Take 0 answered)))))).

Ltac forward s := eapply rtc_r; [|solve [eapply s; vm_compute; first [reflexivity | left; reflexivity | right; reflexivity | discriminate | intros [|i]; discriminate]]].

Lemma answered_reachable : reachable answered.
Proof.
  unfold reachable, answered, finished, taken. forward step_call. forward step_frame. forward step_complete. forward step_perform. forward step_take. forward step_notify_none.
  forward step_send. apply rtc_refl.
Qed.

Lemma burst_reachable : reachable burst.
Proof.
  unfold reachable, burst. forward step_take. forward step_notify_none. forward step_send. forward step_notify. forward step_send. forward step_take.
  apply answered_reachable.
Qed.
End Sample.

(** The second of two requests waits for the first, with three more workers allowed: the first's worker still counts as idle when
    the second is sent. *)
Lemma burst_waits : reachable Sample.burst /\ Workers Sample.burst = [Performing 1] /\ Waiting Sample.burst = [2]%nat /\ Stopped Sample.burst = false.
Proof. split; [apply Sample.burst_reachable|]. by vm_compute. Qed.


Lemma requests_go_on_witness : Waiting Sample.burst = [2]%nat /\ exists r', rtc step Sample.burst r' /\ In 2%nat (map fst (called r')).
Proof.
  split; [vm_compute; reflexivity|]. destruct (requests_go_on Sample.burst Sample.burst_reachable) as [H _]. destruct H as (r' & Hr & _ & Hc); [vm_compute; reflexivity|].
  exists r'. split; [exact Hr|]. apply Hc. vm_compute. auto.
Defined.

