(* ===== verification/ConVars.v ===== *)
(** * Console variables: [src/Engine/ConVars/ConVars.cpp], [ConVar.cpp], [ConVarTypes.cpp], [ConVarOverrides.cpp/.hpp]

    A typed handle reads and writes a variable's storage at its declared width; assignments go through the server's console as lines of
    text, which the engine runs later. *)

From S2P Require Import Prelude Text Identity Errors.

(** ** Handles *)

Module ConVarType.
Inductive t : Type :=
| Invalid | Bool | Int16 | UInt16 | Int32 | UInt32 | Int64 | UInt64 | Float32 | Float64 | String | Color | Vector2 | Vector3 | Vector4 | QAngle | VectorWS.
End ConVarType.

(** The C++ type of a handle. *)
Inductive handle_type := Hbool | Hint | Hfloat | Hstring.

Definition ConVarTypeMatches (T : handle_type) (type : ConVarType.t) : bool :=
  match T, type with
  | Hbool, ConVarType.Bool => true
  | Hint, (ConVarType.Int16 | ConVarType.UInt16 | ConVarType.Int32) => true
  | Hfloat, ConVarType.Float32 => true
  | Hstring, ConVarType.String => true
  | _, _ => false
  end.

(** [int(EConVarType)]. *)
Definition type_number (type : ConVarType.t) : Z :=
  match type with
  | ConVarType.Invalid => -1 | ConVarType.Bool => 0 | ConVarType.Int16 => 1 | ConVarType.UInt16 => 2 | ConVarType.Int32 => 3 | ConVarType.UInt32 => 4
  | ConVarType.Int64 => 5 | ConVarType.UInt64 => 6 | ConVarType.Float32 => 7 | ConVarType.Float64 => 8 | ConVarType.String => 9 | ConVarType.Color => 10
  | ConVarType.Vector2 => 11 | ConVarType.Vector3 => 12 | ConVarType.Vector4 => 13 | ConVarType.QAngle => 14 | ConVarType.VectorWS => 15
  end.

(** What the engine has under a name: a type, and storage shared by every slot or only slot 0's. *)
Record engine_convar (V : Type) := mkEngineConVar { engine_type : ConVarType.t; shared_storage : option V; first_storage : option V }.
Arguments engine_type {V}.
Arguments shared_storage {V}.
Arguments first_storage {V}.

(** [ConVars::Find]: the type and the storage of the handle. *)
Definition Find {V} (convars : text -> option (engine_convar V)) (T : handle_type) (name : text) : Result (ConVarType.t * V) :=
  match convars name with
  | None => Err (Error_NotFound ($"no convar '" ++ name ++ $"'"))
  | Some c =>
      if negb (ConVarTypeMatches T (engine_type c)) then
        Err (Error_Invalid ($"convar '" ++ name ++ $"' is engine type " ++ dec (type_number (engine_type c)) ++ $", not the requested one"))
      else
        match shared_storage c, first_storage c with
        | Some storage, _ | None, Some storage => Ok (engine_type c, storage)
        | None, None => Err (Error_Engine ($"convar '" ++ name ++ $"' has no value storage"))
        end
  end.

(** *** Storage *)

(** The bytes of a [CVValue_t], the low one first; a number handle's value is a Z, a float's is its bits. *)
Definition storage : Type := list Z.

Fixpoint read_bytes (n : nat) (s : storage) : Z :=
  match n, s with
  | S n, b :: s => b + 256 * read_bytes n s
  | _, _ => 0
  end.

Fixpoint write_bytes (n : nat) (v : Z) (s : storage) : storage :=
  match n, s with
  | S n, _ :: s => v mod 256 :: write_bytes n (v / 256) s
  | _, _ => s
  end.

(** Two's complement of [n] bytes. *)
Definition signed (n : nat) (v : Z) : Z := if v <? 2 ^ (8 * Z.of_nat n - 1) then v else v - 2 ^ (8 * Z.of_nat n).

(** How many bytes a handle reads and writes. *)
Definition width (type : ConVarType.t) : nat :=
  match type with ConVarType.Bool => 1 | ConVarType.Int16 | ConVarType.UInt16 => 2 | _ => 4 end.

(** [ConVar<T>::Get] of a resolved handle that is not a string's. *)
Definition Get (type : ConVarType.t) (s : storage) : Z :=
  match type with
  | ConVarType.Bool => read_bytes 1 s
  | ConVarType.Int16 => signed 2 (read_bytes 2 s)
  | ConVarType.UInt16 => read_bytes 2 s
  | ConVarType.Float32 => read_bytes 4 s
  | _ => signed 4 (read_bytes 4 s)
  end.

(** [ConVar<T>::SetRaw]. *)
Definition SetRaw (type : ConVarType.t) (value : Z) (s : storage) : storage := write_bytes (width type) value s.

(** [ConVarRawScope]: what it remembers, and the storage while it lives. *)
Definition RawScope (type : ConVarType.t) (value : Z) (s : storage) : Z * storage := (Get type s, SetRaw type value s).
Definition RawScope_end (type : ConVarType.t) (previous : Z) (s : storage) : storage := SetRaw type previous s.

(** ** The console *)

Definition carriage_return : ascii := chr 13.
Definition breaks_line (c : ascii) : bool := bool_decide (c = line_feed) || bool_decide (c = carriage_return).

(** [buffer] is the engine's, which adds nothing between commands; [None] when there is no engine. *)
Definition ExecuteServerCommand (command : text) (buffer : option text) : option text :=
  match buffer with
  | None => None
  | Some buffer => if existsb breaks_line command then Some buffer else Some (buffer ++ c_str (command ++ [line_feed]))
  end.

(** [raw.substr(0, raw.find("//"))]. *)
Definition without_comment (raw : text) : text := match find $"//" raw with Some at_ => take at_ raw | None => raw end.

Definition run_line (raw : text) (buffer : option text) : option text :=
  match Trim (without_comment raw) with [] => buffer | line => ExecuteServerCommand line buffer end.

(** [contents] is what [ReadAllText] gave. *)
Definition ExecuteFile (contents : Result text) (buffer : option text) : Status * option text :=
  match contents with
  | Err e => (Err e, buffer)
  | Ok contents => (Ok tt, fold_left (fun buffer raw => run_line raw buffer) (split_lines [] contents) buffer)
  end.

Definition console_line (name value : text) : text := name ++ $" " ++ QuoteConsoleArg value.

Definition SetByConsole (name value : text) (buffer : option text) : option text := ExecuteServerCommand (console_line name value) buffer.

(** [ConVarText] of a bool and of an int. *)
Definition ConVarText_bool (value : bool) : text := if value then $"1" else $"0".
Definition ConVarText_int (value : Z) : text := dec value.

(** ** One client's view *)

(** What sending does with a network message. *)
Inductive net_act := Allocated | Posted (slot : Z) (name value : text) | Deallocated.

(** The message's type is looked up once; the lookup is tried again while it fails. *)
Record Net := mkNet { has_event_system : bool; has_messages : bool; message_known : bool; cached : bool }.

Definition SetConVarMessage (n : Net) : bool * Net :=
  if cached n then (true, n)
  else if negb (has_messages n) then (false, n)
  else (message_known n, mkNet (has_event_system n) true (message_known n) (message_known n)).

(** [allocates]: the engine had memory for one; [converts]: it is the protobuf it should be. *)
Definition SendToClient (n : Net) (allocates converts : bool) (slot : Z) (name value : text) : bool * list net_act * Net :=
  if negb (has_event_system n) || negb (IsValidSlot slot) || bool_decide (name = []) then (false, [], n)
  else
    let (known, n) := SetConVarMessage n in
    if negb known || negb allocates then (false, [], n)
    else if converts then (true, [Allocated; Posted slot name value; Deallocated], n) else (false, [Allocated; Deallocated], n).

(** ** Changes *)

(** [ICvar]'s callback and the library's [g_changeCallback] exist while the event has subscribers. *)
Record Routing := mkRouting { has_cvar : bool; _routingChanges : bool; installed : bool; g_changeCallback : bool }.

Definition RouteChanges (r : Routing) : bool * Routing :=
  if _routingChanges r then (true, r) else if negb (has_cvar r) then (false, r) else (true, mkRouting true true true true).

Definition StopRoutingChanges (r : Routing) : Routing :=
  if negb (_routingChanges r) then r else mkRouting (has_cvar r) false (if has_cvar r then false else installed r) false.

(** What [Changed] is raised with when the engine reports a change; a null text is empty. *)
Definition GlobalConVarChangeCallback (r : Routing) (change : option (option text * option text * option text)) : option (text * text * text) :=
  match change with
  | Some (name, old, new) => if g_changeCallback r then Some (default [] name, default [] old, default [] new) else None
  | None => None
  end.

(** ** Overrides *)

(** The engine's variables, as the text of each one's value, and the assignments in its console's buffer. *)
Record Server := mkServer { values : gmap text text; queued : list (text * text) }.

Definition accepted (name value : text) : bool := negb (existsb breaks_line (console_line name value)).

Definition assign (values : gmap text text) (line : text * text) : gmap text text := <[line.1 := line.2]> values.

(** The console runs every line it was given, in order. *)
Definition RunConsole (s : Server) : Server := mkServer (fold_left assign (queued s) (values s)) [].

(** [ConVarOverrides::Write]. *)
Definition Write (name value : text) (s : Server) : Server := if accepted name value then mkServer (values s) (queued s ++ [(name, value)]) else s.

(** [_saved]. *)
Definition Overrides : Type := list (text * text).

Definition is_saved (name : text) (saved : Overrides) : bool := existsb (fun entry => bool_decide (entry.1 = name)) saved.

(** A handle resolves when the engine has the variable. *)
Definition Set_ (name value : text) (st : Overrides * Server) : bool * (Overrides * Server) :=
  let (saved, s) := st in
  match values s !! name with
  | None => (false, st)
  | Some current => (true, (if is_saved name saved then saved else saved ++ [(name, current)], Write name value s))
  end.

Fixpoint erase_first (name : text) (saved : Overrides) : Overrides :=
  match saved with [] => [] | entry :: saved => if bool_decide (entry.1 = name) then saved else entry :: erase_first name saved end.

Definition Restore (name : text) (st : Overrides * Server) : Overrides * Server :=
  let (saved, s) := st in
  match List.find (fun entry => bool_decide (entry.1 = name)) saved with
  | None => st
  | Some entry => (erase_first name saved, Write entry.1 entry.2 s)
  end.

Definition write_all (saved : Overrides) (s : Server) : Server := fold_left (fun s entry => Write entry.1 entry.2 s) saved s.

Definition RestoreAll (st : Overrides * Server) : Overrides * Server := let (saved, s) := st in ([], write_all saved s).

(** What the program and the engine do. *)
Inductive override_op := OSet (name value : text) | ORestore (name : text) | ORestoreAll | OFrame.

Definition exec_override (st : Overrides * Server) (op : override_op) : Overrides * Server :=
  match op with
  | OSet name value => (Set_ name value st).2
  | ORestore name => Restore name st
  | ORestoreAll => RestoreAll st
  | OFrame => (st.1, RunConsole st.2)
  end.

(** A variable is taken over only when no assignment of it waits. *)
Definition settled (st : Overrides * Server) (op : override_op) : Prop :=
  match op with
  | OSet name _ => is_saved name st.1 = false -> name ∉ map fst (queued st.2)
  | _ => True
  end.

Fixpoint all_settled (st : Overrides * Server) (ops : list override_op) : Prop :=
  match ops with [] => True | op :: ops => settled st op /\ all_settled (exec_override st op) ops end.

(** * Theorems *)

(** ** Storage *)

Definition bytes_ok (s : storage) : Prop := Forall (fun b => 0 <= b < 256) s.

Lemma write_read n s : bytes_ok s -> write_bytes n (read_bytes n s) s = s.
Proof.
  revert s; induction n as [|n IH]; intros [|b s]; cbn; try done. intros [Hb Hs]%Forall_cons.
  replace ((b + 256 * read_bytes n s) mod 256) with b by (rewrite Z.mul_comm, Z_mod_plus_full, Z.mod_small; lia).
  replace ((b + 256 * read_bytes n s) / 256) with (read_bytes n s) by (rewrite Z.mul_comm, Z.div_add, Z.div_small; lia).
  by rewrite IH.
Qed.

Lemma write_write n u v s : write_bytes n v (write_bytes n u s) = write_bytes n v s.
Proof. revert u v s; induction n as [|n IH]; intros u v [|b s]; cbn; try done. by rewrite IH. Qed.

Lemma read_write n v s : (n <= length s)%nat -> read_bytes n (write_bytes n v s) = v mod 2 ^ (8 * Z.of_nat n).
Proof.
  revert v s; induction n as [|n IH]; intros v s Hn; [cbn; by rewrite Z.mod_1_r|]. destruct s as [|b s]; cbn in *; [lia|].
  rewrite IH by lia. replace (8 * Z.of_nat (S n)) with (8 + 8 * Z.of_nat n) by lia. rewrite Z.pow_add_r by lia.
  change (2 ^ 8) with 256. by rewrite Z.rem_mul_r by lia.
Qed.

Lemma write_beyond n v s : drop n (write_bytes n v s) = drop n s.
Proof. revert v s; induction n as [|n IH]; intros v [|b s]; cbn; [done..|apply IH]. Qed.

(** Writing depends on the value only at the width. *)
Lemma write_mod n v w s : v mod 2 ^ (8 * Z.of_nat n) = w mod 2 ^ (8 * Z.of_nat n) -> write_bytes n v s = write_bytes n w s.
Proof.
  revert v w s; induction n as [|n IH]; intros v w [|b s] H; cbn; [done..|].
  replace (8 * Z.of_nat (S n)) with (8 + 8 * Z.of_nat n) in H by lia. rewrite Z.pow_add_r in H by lia. change (2 ^ 8) with 256 in H.
  rewrite !Z.rem_mul_r in H by lia.
  pose proof (Z.mod_pos_bound v 256). pose proof (Z.mod_pos_bound w 256).
  assert (v mod 256 = w mod 256 /\ (v / 256) mod 2 ^ (8 * Z.of_nat n) = (w / 256) mod 2 ^ (8 * Z.of_nat n)) as [-> Hd] by lia.
  by rewrite (IH _ _ s Hd).
Qed.

Lemma signed_mod n v : signed n v mod 2 ^ (8 * Z.of_nat n) = v mod 2 ^ (8 * Z.of_nat n).
Proof.
  unfold signed. destruct (_ <? _); [done|]. replace (v - 2 ^ (8 * Z.of_nat n)) with (v + (-1) * 2 ^ (8 * Z.of_nat n)) by lia. apply Z_mod_plus_full.
Qed.

(** The types a handle of numbers may have. *)
Definition raw_type (type : ConVarType.t) : bool := ConVarTypeMatches Hbool type || ConVarTypeMatches Hint type || ConVarTypeMatches Hfloat type.

Lemma Get_as_read type s : raw_type type = true ->
  Get type s mod 2 ^ (8 * Z.of_nat (width type)) = read_bytes (width type) s mod 2 ^ (8 * Z.of_nat (width type)).
Proof. destruct type; try done; intros _; unfold Get, width; try done; apply signed_mod. Qed.

(** What a handle may hold. *)
Definition in_range (type : ConVarType.t) (v : Z) : Prop :=
  match type with
  | ConVarType.Bool => 0 <= v <= 1
  | ConVarType.Int16 => -32768 <= v <= 32767
  | ConVarType.UInt16 => 0 <= v <= 65535
  | ConVarType.Float32 => 0 <= v <= uint32_max
  | _ => int32_min <= v <= int32_max
  end.

Lemma signed_of_mod n v : (0 < n)%nat -> - 2 ^ (8 * Z.of_nat n - 1) <= v < 2 ^ (8 * Z.of_nat n - 1) -> signed n (v mod 2 ^ (8 * Z.of_nat n)) = v.
Proof.
  intros Hn Hv. unfold signed. assert (2 ^ (8 * Z.of_nat n) = 2 * 2 ^ (8 * Z.of_nat n - 1)) as Hp.
  { replace (8 * Z.of_nat n) with (Z.succ (8 * Z.of_nat n - 1)) at 1 by lia. apply Z.pow_succ_r; lia. }
  destruct (decide (0 <= v)).
  - rewrite Z.mod_small by lia. destruct (Z.ltb_spec v (2 ^ (8 * Z.of_nat n - 1))); lia.
  - replace (v mod 2 ^ (8 * Z.of_nat n)) with (v + 2 ^ (8 * Z.of_nat n)).
    + destruct (Z.ltb_spec (v + 2 ^ (8 * Z.of_nat n)) (2 ^ (8 * Z.of_nat n - 1))); lia.
    + rewrite <- (Z_mod_plus_full v 1), Z.mul_1_l, Z.mod_small; lia.
Qed.

Lemma Get_SetRaw type v s : raw_type type = true -> (width type <= length s)%nat -> in_range type v -> Get type (SetRaw type v s) = v.
Proof.
  intros Ht Hw Hv. unfold Get, SetRaw, in_range, int32_min, int32_max, uint32_max in *.
  destruct type; try discriminate Ht; cbn [width] in *; rewrite read_write by done;
    first [rewrite Z.mod_small; [done|cbn; lia] | apply signed_of_mod; [lia|cbn; lia]].
Qed.

(** A raw scope leaves no trace. While it lives the handle reads the value it was given, if the variable's type can hold it, and no
    byte past the declared width changed; when it ends the storage is byte for byte what it was. *)
Theorem RawScope_restores type v s :
  bytes_ok s -> raw_type type = true -> (width type <= length s)%nat ->
  let '(previous, inside) := RawScope type v s in
  (in_range type v -> Get type inside = v) /\ drop (width type) inside = drop (width type) s /\ length inside = length s /\
  RawScope_end type previous inside = s.
Proof.
  intros Hs Ht Hw. unfold RawScope, RawScope_end. split; [by apply Get_SetRaw|]. split; [apply write_beyond|]. split.
  - unfold SetRaw. generalize (width type), v, s. clear. intros n; induction n as [|n IH]; intros v [|b s]; cbn; try done. by rewrite IH.
  - unfold SetRaw. rewrite write_write, (write_mod _ (Get type s) (read_bytes (width type) s) _); [by apply write_read|by apply Get_as_read].
Qed.

Lemma RawScope_restores_witness :
  let '(previous, inside) := RawScope ConVarType.Int16 (-2) [7; 1; 9; 9] in
  Get ConVarType.Int16 inside = -2 /\ inside = [254; 255; 9; 9] /\ RawScope_end ConVarType.Int16 previous inside = [7; 1; 9; 9].
Proof.
  pose proof (RawScope_restores ConVarType.Int16 (-2) [7; 1; 9; 9]) as H.
  destruct H as (H1 & _ & _ & H2); [repeat constructor; lia|done|cbn; lia|].
  split; [apply H1; cbn; lia|]. split; [by vm_compute|exact H2].
Defined.

(** A handle's type has storage of at most four bytes, and [Find] refuses the rest. *)
Lemma Find_spec {V} (convars : text -> option (engine_convar V)) T name type v :
  Find convars T name = Ok (type, v) ->
  ConVarTypeMatches T type = true /\ exists c, convars name = Some c /\ engine_type c = type /\
  (shared_storage c = Some v \/ (shared_storage c = None /\ first_storage c = Some v)).
Proof.
  unfold Find. destruct (convars name) as [c|]; [|done]. destruct (ConVarTypeMatches T (engine_type c)) eqn:Hm; [|done]. cbn.
  destruct (shared_storage c) eqn:Hs, (first_storage c) eqn:Hf; intros [= <- <-]; eauto 8.
Qed.

(** ** The console *)

Lemma not_breaks_line s : existsb breaks_line s = false -> line_feed ∉ s.
Proof.
  intros H Hin. assert (existsb breaks_line s = true); [|congruence]. apply existsb_exists. exists line_feed. split; [by apply list_elem_of_In|done].
Qed.

(** The commands that are let through. *)
Definition let_through (commands : list text) : list text := List.filter (fun c => negb (existsb breaks_line c)) commands.

Definition run_commands (commands : list text) (buffer : option text) : option text := fold_left (fun b c => ExecuteServerCommand c b) commands buffer.

Lemma run_commands_buffer commands buffer : Forall (fun c => chr 0 ∉ c) commands ->
  run_commands commands (Some buffer) = Some (buffer ++ flat_map (fun c => c ++ [line_feed]) (let_through commands)).
Proof.
  intros Hn; revert buffer; induction Hn as [|c commands Hc Hn IH]; intros buffer; [by rewrite app_nil_r|].
  cbn [run_commands fold_left let_through List.filter ExecuteServerCommand]. destruct (existsb breaks_line c); cbn [negb].
  - apply IH.
  - fold (run_commands commands). rewrite c_str_id by (rewrite elem_of_app, list_elem_of_singleton; naive_solver).
    etransitivity; [apply IH|]. cbn [flat_map]. by rewrite <- !app_assoc.
Qed.

Lemma split_lines_commands commands : split_lines [] (flat_map (fun c => c ++ [line_feed]) (let_through commands)) = let_through commands.
Proof.
  induction commands as [|c commands IH]; [done|]. cbn [let_through List.filter]. destruct (existsb breaks_line c) eqn:Hb; [apply IH|]. cbn [negb flat_map].
  rewrite <- app_assoc. cbn [app]. rewrite split_lines_line by by apply not_breaks_line.
  fold (let_through commands). by rewrite IH.
Qed.

(** A quoted argument as the console reads it: the value, and what follows the closing quote. *)
Fixpoint read_quoted (s : text) : option (text * text) :=
  match s with
  | [] => None
  | c :: s =>
      if Ascii.eqb c quote_char then Some ([], s)
      else if Ascii.eqb c backslash then match s with [] => None | d :: s => option_map (fun r => (d :: r.1, r.2)) (read_quoted s) end
      else option_map (fun r => (c :: r.1, r.2)) (read_quoted s)
  end.

Lemma read_QuoteConsoleArg value rest : exists q, QuoteConsoleArg value ++ rest = quote_char :: q /\ read_quoted q = Some (value, rest).
Proof.
  exists (flat_map quote_arg_char value ++ quote_char :: rest). split; [unfold QuoteConsoleArg; by rewrite <- app_comm_cons, <- app_assoc|].
  induction value as [|c value IH]; [done|]. cbn [flat_map]. unfold quote_arg_char at 1.
  destruct (Ascii.eqb c quote_char) eqn:Hq; [cbn; by rewrite IH|].
  destruct (Ascii.eqb c backslash) eqn:Hb; [cbn; by rewrite IH|]. cbn [orb app read_quoted]. rewrite Hq, Hb, IH. done.
Qed.

Lemma console_line_plain name value : chr 0 ∉ name -> chr 0 ∉ value -> chr 0 ∉ console_line name value.
Proof.
  intros Hn Hv. unfold console_line, QuoteConsoleArg. rewrite elem_of_app. intros [|H]; [done|].
  change ($" ") with [chr 32] in H. cbn [app] in H.
  apply elem_of_cons in H as [|H]; [done|]. apply elem_of_cons in H as [|H]; [done|]. apply elem_of_app in H as [H|H].
  - apply Hv. revert H. clear. induction value as [|c value IH]; [done|]. cbn [flat_map]. rewrite elem_of_app, elem_of_cons. intros [H|H]; [|auto].
    left. unfold quote_arg_char in H. destruct (_ || _); [apply elem_of_cons in H as [|H]; [done|]|]; by apply list_elem_of_singleton in H.
  - by apply list_elem_of_singleton in H.
Qed.

Lemma accepted_spec name value : accepted name value = negb (existsb breaks_line name || existsb breaks_line value).
Proof.
  assert (existsb breaks_line (flat_map quote_arg_char value) = existsb breaks_line value) as Hq.
  { induction value as [|c value IH]; [done|]. cbn [flat_map existsb]. rewrite existsb_app, IH. f_equal. unfold quote_arg_char.
    destruct (Ascii.eqb c quote_char) eqn:H1; [apply Ascii.eqb_eq in H1 as ->; done|].
    destruct (Ascii.eqb c backslash) eqn:H2; [apply Ascii.eqb_eq in H2 as ->; done|]. cbn. by rewrite orb_false_r. }
  unfold accepted, console_line, QuoteConsoleArg. rewrite !existsb_app. cbn [existsb app]. rewrite existsb_app, Hq. cbn.
  by rewrite orb_false_r.
Qed.

(** Assignments stay apart. Whatever values are assigned through the console, the engine's buffer holds one line for each
    assignment that was let through and no other, in order; each line is the name, a space, and a quoted argument that reads back as
    exactly the value, with nothing after it; and one is refused only for a line break in it. No value holds a NUL, where the engine's
    string would end. *)
Theorem assignments_stay_apart (assignments : list (text * text)) :
  Forall (fun a => chr 0 ∉ a.1 /\ chr 0 ∉ a.2) assignments ->
  exists buffer, fold_left (fun b a => SetByConsole a.1 a.2 b) assignments (Some []) = Some buffer /\
    split_lines [] buffer = map (fun a => console_line a.1 a.2) (List.filter (fun a => accepted a.1 a.2) assignments) /\
    (forall a, a ∈ assignments -> exists q, console_line a.1 a.2 = a.1 ++ $" " ++ quote_char :: q /\ read_quoted q = Some (a.2, [])) /\
    (forall a, a ∈ assignments -> accepted a.1 a.2 = negb (existsb breaks_line a.1 || existsb breaks_line a.2)).
Proof.
  intros Hn. set (commands := map (fun a => console_line a.1 a.2) assignments).
  assert (Forall (fun c => chr 0 ∉ c) commands) as Hc.
  { apply Forall_map. eapply Forall_impl; [done|]. intros [n v] [H1 H2]. by apply console_line_plain. }
  exists (flat_map (fun c => c ++ [line_feed]) (let_through commands)).
  assert (let_through commands = map (fun a => console_line a.1 a.2) (List.filter (fun a => accepted a.1 a.2) assignments)) as Hl.
  { unfold commands, let_through, accepted. clear. induction assignments as [|a l IH]; [done|]. cbn. destruct (existsb _ (console_line a.1 a.2)); cbn; by rewrite IH. }
  split; [|split; [|split]].
  - unfold SetByConsole. transitivity (run_commands commands (Some [])); [|by apply run_commands_buffer].
    unfold commands, run_commands. generalize (Some ([] : text)). clear. induction assignments as [|a l IH]; intros b; [done|]. apply IH.
  - by rewrite split_lines_commands.
  - intros [n v] _. destruct (read_QuoteConsoleArg v []) as (q & Hq & Hr). rewrite app_nil_r in Hq. exists q. cbn [fst snd]. unfold console_line. by rewrite Hq.
  - intros [n v] _. apply accepted_spec.
Qed.

Lemma assignments_stay_apart_witness :
  exists buffer, fold_left (fun b a => SetByConsole a.1 a.2 b) [($"hostname", $"a; quit"); ($"sv_x", [line_feed])] (Some []) = Some buffer /\
    split_lines [] buffer = [console_line $"hostname" $"a; quit"].
Proof.
  destruct (assignments_stay_apart [($"hostname", $"a; quit"); ($"sv_x", [line_feed])]) as (buffer & H1 & H2 & _);
    [repeat constructor; apply (bool_decide_unpack _); by vm_compute|].
  exists buffer. split; [exact H1|]. rewrite H2. by vm_compute.
Defined.

(** An embedded NUL ends the engine's string before its line break: the next command continues the line. *)
Lemma nul_joins_lines :
  run_commands [$"say hi" ++ [chr 0]; $"quit"] (Some []) = Some ($"say hiquit" ++ [line_feed]).
Proof. by vm_compute. Qed.

(** [//] starts a comment inside quotes too. *)
Lemma quoted_url_cut :
  run_line ($"sv_downloadurl " ++ QuoteConsoleArg $"http://a.b/c") (Some []) = Some ($"sv_downloadurl " ++ [quote_char] ++ $"http:" ++ [line_feed]).
Proof. by vm_compute. Qed.

(** Every message that is made is given back, and it is posted at most once, between the two. *)
Lemma SendToClient_balanced n allocates converts slot name value :
  let '(ok, acts, n') := SendToClient n allocates converts slot name value in
  (acts = [] \/ acts = [Allocated; Deallocated] \/ acts = [Allocated; Posted slot name value; Deallocated]) /\
  (ok = true <-> Posted slot name value ∈ acts) /\ (ok = true -> IsValidSlot slot = true /\ name <> []).
Proof.
  unfold SendToClient. destruct (_ || _) eqn:Hg; [split; [by left|split; [set_solver|done]]|].
  apply orb_false_iff in Hg as [[_ Hs]%orb_false_iff Hn]. apply negb_false_iff in Hs. apply bool_decide_eq_false in Hn.
  destruct (SetConVarMessage n) as [known n']. destruct (_ || _); [split; [by left|split; [set_solver|done]]|].
  destruct converts; (split; [by eauto|split; [set_solver|done]]).
Qed.

(** The callbacks are there exactly while changes are routed, as long as [ICvar] stays. *)
Lemma routing_follows r : has_cvar r = true -> installed r = _routingChanges r -> g_changeCallback r = _routingChanges r ->
  let r1 := (RouteChanges r).2 in let r2 := StopRoutingChanges r in
  (RouteChanges r).1 = true /\ installed r1 = true /\ g_changeCallback r1 = true /\ _routingChanges r1 = true /\
  installed r2 = false /\ g_changeCallback r2 = false /\ _routingChanges r2 = false.
Proof. destruct r as [? [] ? ?]; cbn; intros; subst; by repeat split. Qed.

(** ** Overrides *)

Lemma is_saved_true name saved : is_saved name saved = true <-> name ∈ map fst saved.
Proof.
  unfold is_saved. rewrite existsb_exists, list_elem_of_In, in_map_iff. setoid_rewrite bool_decide_eq_true. naive_solver.
Qed.

(** What the variables become once the console has run. *)
Definition drained (s : Server) : gmap text text := values (RunConsole s).

Lemma drained_Write name value s : accepted name value = true -> drained (Write name value s) = <[name := value]> (drained s).
Proof. intros H. unfold drained, RunConsole, Write. rewrite H. cbn. by rewrite fold_left_app. Qed.

Lemma Write_refused name value s : accepted name value = false -> Write name value s = s.
Proof. intros H. unfold Write. by rewrite H. Qed.

Lemma fold_assign_untouched name queue m : name ∉ map fst queue -> fold_left assign queue m !! name = m !! name.
Proof.
  revert m; induction queue as [|[n v] queue IH]; intros m; [done|]. cbn [map fst fold_left]. intros [Hn Hq]%not_elem_of_cons.
  rewrite IH by done. by apply lookup_insert_ne.
Qed.

Lemma values_Write name value s : values (Write name value s) = values s.
Proof. unfold Write. by destruct (accepted _ _). Qed.

Lemma erase_first_spec name saved : NoDup (map fst saved) ->
  NoDup (map fst (erase_first name saved)) /\ (forall x, x ∈ erase_first name saved <-> x ∈ saved /\ x.1 <> name).
Proof.
  induction saved as [|[n v] saved IH]; [set_solver|]. cbn [map fst]. intros [Hn Hd]%NoDup_cons. destruct (IH Hd) as [I1 I2]. cbn [erase_first fst].
  case_bool_decide; [subst n|].
  - split; [done|]. intros [n' v']. rewrite elem_of_cons. cbn. split; [|naive_solver].
    intros Hin. split; [by right|]. intros ->. apply Hn. by apply (list_elem_of_fmap_2 fst _ (name, v')).
  - split; [cbn; apply NoDup_cons; split; [|done]|].
    + intros ([n' v'] & -> & Hin)%list_elem_of_fmap. apply I2 in Hin as [Hin _]. apply Hn. by apply (list_elem_of_fmap_2 fst _ (n', v')).
    + intros x. rewrite !elem_of_cons, I2. naive_solver.
Qed.

Section Overriding.
  (** The variables' values before anything was overridden; each can be written on one line. *)
  Variable original : gmap text text.
  Hypothesis plain : map_Forall (fun name value => accepted name value = true) original.

(** What was saved is the original, and only what is saved differs once the console has run. *)
Record overriding (st : Overrides * Server) : Prop := {
  ov_nodup : NoDup (map fst st.1);
  ov_saved : forall name value, (name, value) ∈ st.1 -> original !! name = Some value;
  ov_rest : forall name, name ∉ map fst st.1 -> drained st.2 !! name = original !! name;
  ov_there : forall name, is_Some (values st.2 !! name) -> is_Some (original !! name);
  ov_queued : forall name, name ∈ map fst (queued st.2) -> is_Some (original !! name) }.

Lemma Write_there name value s :
  is_Some (original !! name) -> (forall n, n ∈ map fst (queued s) -> is_Some (original !! n)) ->
  forall n, n ∈ map fst (queued (Write name value s)) -> is_Some (original !! n).
Proof.
  intros Hn Hq n. unfold Write. destruct (accepted name value); [|apply Hq]. cbn. rewrite map_app, elem_of_app. intros [|H]; [by apply Hq|].
  apply list_elem_of_singleton in H as ->. done.
Qed.

Lemma Set_overriding name value st : overriding st -> settled st (OSet name value) -> overriding (Set_ name value st).2.
Proof.
  destruct st as [saved s]. intros [H1 H2 H3 H4 H5] Hs. unfold Set_; cbn in *.
  destruct (values s !! name) as [current|] eqn:Hv; [|done]. cbn [snd].
  assert (is_Some (original !! name)) as Ho by by apply H4.
  set (saved' := if is_saved name saved then saved else saved ++ [(name, current)]).
  assert (name ∈ map fst saved' /\ (forall n, n ∉ map fst saved' -> n ∉ map fst saved) /\ NoDup (map fst saved') /\
          forall n v, (n, v) ∈ saved' -> original !! n = Some v) as (S1 & S2 & S3 & S4).
  { unfold saved'. destruct (is_saved name saved) eqn:Hi; [by apply is_saved_true in Hi|]. specialize (Hs Hi).
    assert (name ∉ map fst saved) as Hn by (rewrite <- is_saved_true; congruence).
    rewrite map_app. split; [set_solver|]. split; [set_solver|]. split.
    - apply NoDup_app. split; [done|]. split; [set_solver|apply NoDup_singleton].
    - intros n v [|Hin]%elem_of_app; [by apply H2|]. apply list_elem_of_singleton in Hin as [= -> ->].
      rewrite <- H3 by done. unfold drained, RunConsole; cbn. by rewrite fold_assign_untouched. }
  constructor; cbn [fst snd]; [done|done| |by rewrite values_Write|by apply Write_there].
  intros n Hn. destruct (accepted name value) eqn:Ha; [|rewrite Write_refused by done; by apply H3, S2].
  rewrite drained_Write, lookup_insert_ne by (done || by intros ->). by apply H3, S2.
Qed.

Lemma Restore_overriding name st : overriding st -> overriding (Restore name st).
Proof.
  destruct st as [saved s]. intros [H1 H2 H3 H4 H5]. unfold Restore.
  destruct (List.find _ saved) as [[n v]|] eqn:Hf; [|done].
  apply List.find_some in Hf as [Hin Heq]. apply bool_decide_eq_true in Heq; cbn in Heq; subst n. apply list_elem_of_In in Hin.
  destruct (erase_first_spec name saved H1) as [E1 E2]. pose proof (H2 _ _ Hin) as Ho. assert (accepted name v = true) as Ha by by apply (plain name).
  constructor; cbn [fst snd] in *; [done| | |by rewrite values_Write|apply Write_there; eauto].
  - intros n w [Hn _]%E2. by apply H2.
  - intros n Hn. rewrite drained_Write by done. destruct (decide (n = name)) as [->|Hne]; [by rewrite lookup_insert_eq|].
    rewrite lookup_insert_ne by done. apply H3. intros ([n' w] & -> & Hw)%list_elem_of_fmap. apply Hn.
    apply (list_elem_of_fmap_2 fst _ (n', w)). by apply E2.
Qed.

Lemma write_all_overriding saved s : overriding (saved, s) -> overriding ([], write_all saved s).
Proof.
  revert s; induction saved as [|[name v] saved IH]; intros s Ho; [done|].
  apply (IH (Write name v s)). pose proof (Restore_overriding name _ Ho) as H. revert H. unfold Restore; cbn. by rewrite bool_decide_true.
Qed.

Lemma exec_overriding st op : overriding st -> settled st op -> overriding (exec_override st op).
Proof.
  intros Ho Hs. destruct op as [name value|name| |]; cbn [exec_override].
  - by apply Set_overriding.
  - by apply Restore_overriding.
  - destruct st as [saved s]. by apply write_all_overriding.
  - destruct st as [saved s], Ho as [H1 H2 H3 H4 H5]. constructor; cbn in *; try done; [|intros n Hn; by apply elem_of_nil in Hn].
    intros name Hv. destruct (decide (name ∈ map fst (queued s))) as [Hq|Hq]; [by apply H5|]. rewrite fold_assign_untouched in Hv by done. by apply H4.
Qed.

Lemma run_overriding ops st : overriding st -> all_settled st ops -> overriding (fold_left exec_override ops st).
Proof.
  revert st; induction ops as [|op ops IH]; intros st Ho; [done|]. intros [Hs Hr]. apply IH; [|done]. by apply exec_overriding.
Qed.

End Overriding.


Definition sample_values : gmap text text := list_to_map [($"sv_gravity", $"800"); ($"mp_freezetime", $"15")].
Definition sample_overrides : list override_op :=
  [OSet $"sv_gravity" $"250"; OFrame; OSet $"sv_gravity" $"300"; OSet $"mp_freezetime" $"0"; OFrame; ORestore $"mp_freezetime"].


(** Restoring and overriding again before the console ran saves the value of the first override, which is then what is restored. *)
Lemma retaken_override_kept :
  exists st, fold_left exec_override
      [OSet $"sv_gravity" $"250"; OFrame; ORestore $"sv_gravity"; OSet $"sv_gravity" $"300"; OFrame; ORestoreAll; OFrame] ([], mkServer sample_values [])
    = ([], st) /\ values st !! $"sv_gravity" = Some $"250".
Proof. eexists. split; by vm_compute. Qed.

(** A value with a line break is refused by the console, and [Set] still says it succeeded. *)
Lemma refused_set_succeeds :
  Set_ $"hostname" ($"a" ++ [line_feed] ++ $"b") ([], mkServer {[ $"hostname" := $"x" ]} []) =
  (true, ([($"hostname", $"x")], mkServer {[ $"hostname" := $"x" ]} [])).
Proof. by vm_compute. Qed.
