(* ===== verification/PluginModule.v ===== *)
(** * A plugin's module: [src/App/Plugin.cpp], [PluginChat.cpp], [HostCallback.hpp], [ClientLanguage.cpp], [Runtime.cpp]'s checks

    What the host calls of a plugin's library. Attaching builds a plugin's parts one by one; a step may refuse, and any may
    throw, and then everything built so far is taken down. *)

From S2P Require Import Prelude Text Identity Errors.

(** ** Exceptions *)

(** What is thrown: a [std::exception] with what it says, or anything else. *)
Inductive thrown := StdException (what : text) | OtherException.

Inductive attempt (A : Type) := Gives (a : A) | Throws (t : thrown).
Arguments Gives {A}.
Arguments Throws {A}.

(** [HostCallback]: nothing leaves a callback but its result, which is the default one when it threw. *)
Definition HostCallback_Call {A} (default_ : A) (run : attempt A) : A * option text :=
  match run with
  | Gives a => (a, None)
  | Throws (StdException what) => (default_, Some ($"Unhandled exception in a host event: " ++ what))
  | Throws OtherException => (default_, Some $"Unhandled non-standard exception in a host event.")
  end.

(** ** What attaching meets *)

(** One line for the load report: its name, what it gave, and whether it is required. *)
Definition check : Type := text * Status * bool.
Definition record_checks (checks : list check) (report : LoadReport) : LoadReport :=
  fold_left (fun report c => (LoadReport_Record report c.1.1 c.1.2 c.2).2) checks report.

(** What [Available] says of each service, and how gamedata bound. *)
Record Availability := mkAvailability {
  Messages_up : Status; GameData_up : Status; Entities_up : Status; ConVars_up : Status; GameEvents_up : Status; ClientConVars_up : Status;
  Movement_up : Status; Teleport_up : Status; TextMessages_up : Status; Visibility_up : Status; Trace_up : Status; Screens_up : Status;
  Damage_up : Status }.

Definition CheckServices (a : Availability) : LoadReport :=
  record_checks
    [($"Messages", Messages_up a, true); ($"GameData", GameData_up a, false); ($"Entities", Entities_up a, false);
     ($"ConVars", ConVars_up a, false); ($"GameEvents", GameEvents_up a, false); ($"ClientConVars", ClientConVars_up a, false);
     ($"Movement", Movement_up a, false); ($"Teleport", Teleport_up a, false); ($"TextMessages", TextMessages_up a, false);
     ($"Visibility", Visibility_up a, false); ($"Trace", Trace_up a, false); ($"Screens", Screens_up a, false);
     ($"Damage", Damage_up a, false)] [].

(** The host, the engine and the plugin as one load finds them: the schema's stamps, the interfaces asked for in order with whether
    each is there, what binding gamedata gave, what making each part does, and what the plugin's [Load] does. The plugin's members and
    its [Load] may add to the load report; subscribing may throw after some of the tokens. *)
Record Load := mkLoad {
  host_stamp : Z; host_verified : bool; plugin_stamp : Z;
  interfaces : list (text * bool);
  gamedata : option (attempt Status);
  make_languages : attempt unit;
  make_runtime : Status -> attempt Availability;
  make_plugin : LoadReport -> attempt (list check);
  subscribe : list Z * option thrown;
  run_load : LoadReport -> attempt bool * list check }.

(** What is done to the parts, in order. *)
Inductive act :=
| MadeUnsafe | MadeLanguages | MadeRuntime | MadePlugin | Subscribed (token : Z) | RanLoad
| RemovedCommands | DestroyedPlugin | Unsubscribed (token : Z) | DestroyedRuntime | DestroyedLanguages | DestroyedUnsafe.

(** [_runtime] holds its load report; [done] is history. *)
Record PluginModule := mkModule {
  _host : bool; _unsafe : bool; _languages : bool; _runtime : option LoadReport; _hostEvents : list Z; _plugin : bool; did : list act }.

Definition detached (history : list act) : PluginModule := mkModule false false false None [] false history.
Definition PluginModule_new : PluginModule := detached [].

Definition when (b : bool) (a : act) : list act := if b then [a] else [].

(** Subscriptions are dropped in reverse. *)
Definition Shutdown (m : PluginModule) : PluginModule :=
  let runtime := match _runtime m with Some _ => true | None => false end in
  mkModule (_host m) false false None [] false
    (did m ++ when runtime RemovedCommands ++ when (_plugin m) DestroyedPlugin ++ map Unsubscribed (rev (_hostEvents m)) ++
     when runtime DestroyedRuntime ++ when (_languages m) DestroyedLanguages ++ when (_unsafe m) DestroyedUnsafe).

Definition set_host (h : bool) (m : PluginModule) : PluginModule := mkModule h (_unsafe m) (_languages m) (_runtime m) (_hostEvents m) (_plugin m) (did m).

Definition Detach (m : PluginModule) : PluginModule := set_host false (Shutdown m).

(** ** [AttachImpl] *)

Definition hex_digit (d : Z) : ascii := if d <? 10 then chr (48 + d) else chr (55 + d).
(** [{:016X}]. *)
Definition hex16 (z : Z) : text := map (fun i => hex_digit (Z.shiftr z (4 * Z.of_nat (15 - i)) mod 16)) (seq 0 16).

Definition CheckSchema (l : Load) : Status :=
  if negb (host_stamp l =? plugin_stamp l) then
    Err (Error_Invalid ($"this plugin was built against another schema layout (plugin " ++ hex16 (plugin_stamp l) ++ $", host " ++ hex16 (host_stamp l) ++
                        $"); rebuild it against this VoltMod"))
  else if negb (host_verified l) then Err (Error_Invalid $"the host found schema drift; its log names every field")
  else Ok tt.

(** Every interface is asked for; the first that is missing is named. *)
Definition OpenUnsafe (l : Load) : attempt (Result Status) :=
  match List.find (fun i => negb i.2) (interfaces l) with
  | Some (version, _) => Gives (Err (Error_NotReady ($"Could not find interface: " ++ version)))
  | None =>
      match gamedata l with
      | None => Gives (Ok (Err (Error_Engine $"the host has no gamedata")))
      | Some (Gives bound) => Gives (Ok bound)
      | Some (Throws t) => Throws t
      end
  end.

(** Why a load is refused, or what was thrown. *)
Inductive ended := Loaded | Refused (reason : text) | Threw (t : thrown).

Definition with_part (m : PluginModule) (a : act) (f : PluginModule -> PluginModule) : PluginModule :=
  let m := f m in mkModule (_host m) (_unsafe m) (_languages m) (_runtime m) (_hostEvents m) (_plugin m) (did m ++ [a]).

Definition set_unsafe (m : PluginModule) : PluginModule := mkModule (_host m) true (_languages m) (_runtime m) (_hostEvents m) (_plugin m) (did m).
Definition set_languages (m : PluginModule) : PluginModule := mkModule (_host m) (_unsafe m) true (_runtime m) (_hostEvents m) (_plugin m) (did m).
Definition set_runtime (r : LoadReport) (m : PluginModule) : PluginModule := mkModule (_host m) (_unsafe m) (_languages m) (Some r) (_hostEvents m) (_plugin m) (did m).
Definition set_plugin (m : PluginModule) : PluginModule := mkModule (_host m) (_unsafe m) (_languages m) (_runtime m) (_hostEvents m) true (did m).
Definition add_token (t : Z) (m : PluginModule) : PluginModule := mkModule (_host m) (_unsafe m) (_languages m) (_runtime m) (_hostEvents m ++ [t]) (_plugin m) (did m).

Definition SubscribeHostEvents (tokens : list Z) (m : PluginModule) : PluginModule := fold_left (fun m t => with_part m (Subscribed t) (add_token t)) tokens m.

(** From the call of [Load] on. *)
Definition finish_load (l : Load) (report : LoadReport) (m : PluginModule) : ended * PluginModule :=
  let (loaded, checks) := run_load l report in
  let report := record_checks checks report in
  let m := with_part m RanLoad (set_runtime report) in
  match loaded with
  | Throws t => (Threw t, m)
  | Gives true => (Loaded, m)
  | Gives false => (Refused match LoadReport_AbortReason report with [] => $"Load returned false" | reason => reason end, m)
  end.

(** From the factory on, with the runtime made. *)
Definition build_plugin (l : Load) (report : LoadReport) (m : PluginModule) : ended * PluginModule :=
  match make_plugin l report with
  | Throws t => (Threw t, m)
  | Gives checks =>
      let report := record_checks checks report in
      let m := with_part m MadePlugin (fun m => set_plugin (set_runtime report m)) in
      match LoadReport_AbortReason report with
      | (_ :: _) as reason => (Refused reason, m)
      | [] =>
          let m := SubscribeHostEvents (subscribe l).1 m in
          match (subscribe l).2 with Some t => (Threw t, m) | None => finish_load l report m end
      end
  end.

(** [AttachImpl], with each [Refuse] its reason; what a refusal does next is in [Attach]. *)
Definition AttachImpl (l : Load) (m : PluginModule) : ended * PluginModule :=
  let m := set_host true m in
  match CheckSchema l with
  | Err e => (Refused ($"SchemaLayout: " ++ Detail e), m)
  | Ok _ =>
      match OpenUnsafe l with
      | Throws t => (Threw t, m)
      | Gives (Err e) => (Refused (Detail e), m)
      | Gives (Ok bound) =>
          let m := with_part m MadeUnsafe set_unsafe in
          match make_languages l with
          | Throws t => (Threw t, m)
          | Gives _ =>
              let m := with_part m MadeLanguages set_languages in
              match make_runtime l bound with
              | Throws t => (Threw t, m)
              | Gives services =>
                  build_plugin l (CheckServices services) (with_part m MadeRuntime (set_runtime (CheckServices services)))
              end
          end
      end
  end.

Definition thrown_reason (t : thrown) : text :=
  match t with StdException what => what | OtherException => $"plugin threw a non-standard exception during load" end.

(** [error] is what the host's buffer holds, [errorSize] its size. *)
Definition Attach (l : Load) (error : option text) (errorSize : nat) (m : PluginModule) : bool * option text * PluginModule :=
  match AttachImpl l m with
  | (Loaded, m) => (true, error, m)
  | (Refused reason, m) => (false, CopyToBuffer error errorSize reason, set_host false (Shutdown m))
  | (Threw t, m) => (false, CopyToBuffer error errorSize (thrown_reason t), set_host false (Shutdown m))
  end.

(** ** What the host calls *)

(** [HasPermission] until a plugin sets its own: whichever plugin publishes [IPermissions]; without one everything is denied, and the
    first denial is logged. [warned] is the lambda's. *)
Definition HasPermission (published : option (Z -> text -> bool)) (steamId : Z) (permission : text) (warned : bool) : bool * bool :=
  match published with
  | Some permissions => (permissions steamId permission, warned)
  | None => (false, true)
  end.

(** [ServiceExchange]: two plugins may publish one interface under different keys. *)
Definition KeyedName (iface key : text) : text := iface ++ $":" ++ key.

(** [CodeFor]. *)
Definition SteamLanguages : list (text * text) :=
  [($"english", $"en"); ($"russian", $"ru"); ($"ukrainian", $"uk"); ($"german", $"de"); ($"french", $"fr"); ($"spanish", $"es");
   ($"portuguese", $"pt"); ($"polish", $"pl"); ($"turkish", $"tr")].

Definition CodeFor (steamLanguage : text) : text :=
  match List.find (fun language => bool_decide (language.1 = steamLanguage)) SteamLanguages with
  | Some language => language.2
  | None => []
  end.

(** What the answer to [cl_language] makes the player's language, which was [picked] when it came. *)
Definition on_language_answer (answered : bool) (value picked : text) : text :=
  if negb answered then picked
  else match CodeFor value, picked with (_ :: _) as code, [] => code | _, _ => picked end.

(** [Players.Connecting]'s handlers may reject the request. *)
Definition OnClientConnecting (rejection : option text) (reason : option text) (reasonSize : nat) : bool * option text :=
  match rejection with
  | Some why => (true, CopyToBuffer reason reasonSize why)
  | None => (false, reason)
  end.

(** The services a console command meets, as functions of their state. *)
Class ChatServices (S P : Type) := {
  cast_ballot : Z -> text -> S -> bool * S;
  vote_running : S -> bool;
  is_foreign : text -> S -> bool;
  player_at : Z -> S -> option P;
  try_consume : Z -> text -> S -> bool * S;
  handle_chat : P -> text -> S -> bool * S;
  said : P -> text -> bool -> S -> bool * S }.

Section Chat.
  Context {S P : Type} `{ChatServices S P}.

(** Chat comes quoted from the engine. *)
Definition Unquote (arguments : text) : text :=
  match arguments with
  | quote :: rest =>
      match rev rest with
      | last :: middle => if bool_decide (quote = chr 34) && bool_decide (last = chr 34) then rev middle else arguments
      | [] => arguments
      end
  | [] => []
  end.

Definition OnChat (slot : Z) (message : text) (teamChat : bool) (s : S) : bool * S :=
  if bool_decide (message = []) || negb (IsValidSlot slot) then (false, s)
  else if is_foreign message s then (false, s)
  else
    match player_at slot s with
    | None => (false, s)
    | Some player =>
        let (consumed, s) := try_consume slot message s in
        if consumed then (true, s)
        else
          let (handled, s) := handle_chat player message s in
          if handled then (true, s) else said player message teamChat s
    end.

Definition OnConsoleCommand (name arguments : text) (slot : Z) (s : S) : bool * S :=
  if bool_decide (name = $"vote") then cast_ballot slot arguments s
  else if bool_decide (name = $"callvote") then (vote_running s, s)
  else
    let teamChat := bool_decide (name = $"say_team") in
    if negb (bool_decide (name = $"say")) && negb teamChat then (false, s) else OnChat slot (Unquote arguments) teamChat s.

End Chat.

(** * Theorems *)

(** ** Building and taking down *)

(** What is alive after some acts, or [None] when an act used a part that was not there, made one twice, or destroyed one another
    still needs: the runtime keeps references into the engine's services and the languages; the plugin keeps one to the runtime, and
    the runtime's commands capture the plugin's state; host events call into both. *)
Record alive := mkAlive { unsafe_up : bool; languages_up : bool; runtime_up : bool; commands_up : bool; plugin_up : bool; tokens_up : list Z }.
Definition nothing : alive := mkAlive false false false false false [].

Definition guard_act (b : bool) (a : alive) : option alive := if b then Some a else None.

Definition replay_act (a : alive) (x : act) : option alive :=
  match x with
  | MadeUnsafe => guard_act (negb (unsafe_up a)) (mkAlive true (languages_up a) (runtime_up a) (commands_up a) (plugin_up a) (tokens_up a))
  | MadeLanguages => guard_act (negb (languages_up a)) (mkAlive (unsafe_up a) true (runtime_up a) (commands_up a) (plugin_up a) (tokens_up a))
  | MadeRuntime =>
      guard_act (negb (runtime_up a) && unsafe_up a && languages_up a) (mkAlive (unsafe_up a) (languages_up a) true true (plugin_up a) (tokens_up a))
  | MadePlugin =>
      guard_act (negb (plugin_up a) && runtime_up a && commands_up a)
        (mkAlive (unsafe_up a) (languages_up a) (runtime_up a) (commands_up a) true (tokens_up a))
  | Subscribed t =>
      guard_act (plugin_up a && runtime_up a)
        (mkAlive (unsafe_up a) (languages_up a) (runtime_up a) (commands_up a) (plugin_up a) (tokens_up a ++ [t]))
  | RanLoad => guard_act (plugin_up a && runtime_up a) a
  | RemovedCommands => guard_act (runtime_up a) (mkAlive (unsafe_up a) (languages_up a) (runtime_up a) false (plugin_up a) (tokens_up a))
  | DestroyedPlugin =>
      guard_act (plugin_up a && runtime_up a && negb (commands_up a))
        (mkAlive (unsafe_up a) (languages_up a) (runtime_up a) (commands_up a) false (tokens_up a))
  | Unsubscribed t =>
      guard_act (bool_decide (last (tokens_up a) = Some t))
        (mkAlive (unsafe_up a) (languages_up a) (runtime_up a) (commands_up a) (plugin_up a) (removelast (tokens_up a)))
  | DestroyedRuntime =>
      guard_act (runtime_up a && negb (plugin_up a) && negb (commands_up a) && bool_decide (tokens_up a = []))
        (mkAlive (unsafe_up a) (languages_up a) false (commands_up a) (plugin_up a) (tokens_up a))
  | DestroyedLanguages => guard_act (languages_up a && negb (runtime_up a)) (mkAlive (unsafe_up a) false (runtime_up a) (commands_up a) (plugin_up a) (tokens_up a))
  | DestroyedUnsafe => guard_act (unsafe_up a && negb (runtime_up a)) (mkAlive false (languages_up a) (runtime_up a) (commands_up a) (plugin_up a) (tokens_up a))
  end.

Definition replay (a : alive) (acts : list act) : option alive :=
  fold_left (fun a x => match a with Some a => replay_act a x | None => None end) acts (Some a).

Definition has_runtime (m : PluginModule) : bool := bool_decide (is_Some (_runtime m)).

(** The parts a module holds. *)
Definition parts (m : PluginModule) : alive :=
  mkAlive (_unsafe m) (_languages m) (has_runtime m) (has_runtime m) (_plugin m) (_hostEvents m).

(** A part comes after those it needs. *)
Definition nested (m : PluginModule) : Prop :=
  (_plugin m = true -> has_runtime m = true) /\ (has_runtime m = true -> _languages m = true) /\ (_languages m = true -> _unsafe m = true) /\
  (_plugin m = false -> _hostEvents m = []).

(** What was done since [history] accounts for the parts that are there. *)
Definition tracked (history : list act) (m : PluginModule) : Prop :=
  nested m /\ exists acts, did m = history ++ acts /\ replay nothing acts = Some (parts m).

Lemma replay_none acts : fold_left (fun a x => match a with Some a => replay_act a x | None => None end) acts None = None.
Proof. by induction acts. Qed.

Lemma replay_app a x y : replay a (x ++ y) = match replay a x with Some a => replay a y | None => None end.
Proof.
  unfold replay; rewrite fold_left_app. destruct (fold_left _ x _); [done|apply replay_none].
Qed.

Lemma replay_cons a x y : replay a (x :: y) = match replay_act a x with Some a => replay a y | None => None end.
Proof. apply (replay_app a [x] y). Qed.

Lemma replay_snoc a x y : replay a (x ++ [y]) = match replay a x with Some a => replay_act a y | None => None end.
Proof. by rewrite replay_app. Qed.

Lemma replay_unsubscribe ts u l r c p :
  replay (mkAlive u l r c p ts) (map Unsubscribed (rev ts)) = Some (mkAlive u l r c p []).
Proof.
  induction ts as [|t ts IH] using rev_ind; [done|].
  rewrite rev_app_distr. cbn [rev app map].
  rewrite replay_cons. simpl. rewrite last_snoc, bool_decide_true by done. simpl. by rewrite removelast_last.
Qed.

Lemma with_part_tracked history m x f :
  tracked history m -> did (f m) = did m -> nested (f m) -> replay_act (parts m) x = Some (parts (f m)) ->
  tracked history (with_part m x f).
Proof.
  intros [Hn [acts [Hd Hr]]] Hf Hn' Hx; split; [done|].
  exists (acts ++ [x]); simpl; rewrite Hf, Hd, <- app_assoc; split; [done|].
  by rewrite replay_snoc, Hr.
Qed.

Lemma Shutdown_tracked history m :
  tracked history m -> exists acts, Shutdown m = set_host (_host m) (detached (history ++ acts)) /\ replay nothing acts = Some nothing.
Proof.
  intros [Hn [acts [Hd Hr]]].
  exists (acts ++ when (has_runtime m) RemovedCommands ++ when (_plugin m) DestroyedPlugin ++ map Unsubscribed (rev (_hostEvents m)) ++
     when (has_runtime m) DestroyedRuntime ++ when (_languages m) DestroyedLanguages ++ when (_unsafe m) DestroyedUnsafe).
  split.
  { unfold Shutdown, set_host, detached, has_runtime; simpl. rewrite Hd, <- !app_assoc. by destruct (_runtime m). }
  rewrite !replay_app, Hr; unfold parts. destruct Hn as (H1 & H2 & H3 & H4).
  destruct (has_runtime m), (_plugin m), (_languages m), (_unsafe m); simpl in *;
    try (by specialize (H1 eq_refl)); try (by specialize (H2 eq_refl)); try (by specialize (H3 eq_refl));
    try (rewrite H4 by done; done).
  do 2 (rewrite replay_cons; simpl). by rewrite replay_app, replay_unsubscribe.
Qed.

Lemma SubscribeHostEvents_tracked history tokens m :
  tracked history m -> _plugin m = true ->
  tracked history (SubscribeHostEvents tokens m) /\ _hostEvents (SubscribeHostEvents tokens m) = _hostEvents m ++ tokens /\
  _plugin (SubscribeHostEvents tokens m) = true /\ _host (SubscribeHostEvents tokens m) = _host m /\
  _runtime (SubscribeHostEvents tokens m) = _runtime m.
Proof.
  revert m; induction tokens as [|t tokens IH]; intros m Ht Hp; [by rewrite app_nil_r|].
  destruct (IH (with_part m (Subscribed t) (add_token t))) as (H1 & H2 & H3 & H4 & H5); [|done|].
  - pose proof Ht as [(Hn1 & Hn2 & Hn3 & Hn4) _].
    apply with_part_tracked; [done|done| |]; [by repeat split; auto; simpl; rewrite Hp|].
    unfold parts; simpl. rewrite Hp. change (has_runtime (add_token t m)) with (has_runtime m). by rewrite (Hn1 Hp).
  - simpl in *. unfold SubscribeHostEvents in *. by rewrite H2, <- app_assoc.
Qed.

(** Attaching went as far as it could, and what it built is accounted for. *)
Definition attach_post (l : Load) (history : list act) (r : ended * PluginModule) : Prop :=
  tracked history r.2 /\
  (r.1 = Loaded ->
   _host r.2 = true /\ parts r.2 = mkAlive true true true true true (subscribe l).1 /\ (subscribe l).2 = None /\
   exists report checks, LoadReport_AbortReason report = [] /\ run_load l report = (Gives true, checks) /\
                         _runtime r.2 = Some (record_checks checks report)).

Lemma finish_load_post l history report m :
  tracked history m -> _host m = true -> parts m = mkAlive true true true true true (subscribe l).1 -> (subscribe l).2 = None ->
  LoadReport_AbortReason report = [] -> attach_post l history (finish_load l report m).
Proof.
  intros Ht Hh Hp Hs Hr; unfold finish_load. destruct (run_load l report) as [loaded checks] eqn:Hl.
  assert (tracked history (with_part m RanLoad (set_runtime (record_checks checks report)))) as Ht'.
  { pose proof Ht as [Hn _]. unfold parts in Hp; simplify_eq.
    assert (nested (set_runtime (record_checks checks report) m)) as Hn' by (destruct Hn as (? & ? & ? & ?); repeat split; simpl; auto; congruence).
    apply with_part_tracked; [done|done|done|]. unfold parts, has_runtime in *; simpl. by destruct (_runtime m), (_plugin m). }
  destruct loaded as [[]|]; (split; [done|]); try discriminate. intros _; split; [done|].
  unfold parts, has_runtime in *; simpl in *; simplify_eq. repeat split; [congruence|done|by exists report, checks].
Qed.

Lemma build_plugin_post l history report m :
  tracked history m -> _host m = true -> parts m = mkAlive true true true true false [] -> attach_post l history (build_plugin l report m).
Proof.
  intros Ht Hh Hp; unfold build_plugin.
  destruct (make_plugin l report) as [checks|t]; [|by split].
  set (m' := with_part m MadePlugin _).
  assert (tracked history m' /\ _plugin m' = true /\ parts m' = mkAlive true true true true true []) as (Ht' & Hp1 & Hp2).
  { pose proof Hp as Hp0. unfold parts in Hp; injection Hp as U L R _ P T.
    split; [|by unfold parts; simpl; rewrite U, L, T].
    apply with_part_tracked; [done|done|by repeat split; simpl; intros; try done; congruence|].
    rewrite Hp0. unfold parts; simpl. by rewrite U, L, T. }
  destruct (LoadReport_AbortReason (record_checks checks report)) as [|c reason] eqn:Hr; [|by split].
  destruct (SubscribeHostEvents_tracked history (subscribe l).1 m' Ht' Hp1) as (H1 & H2 & H3 & H4 & H5).
  destruct (subscribe l).2 as [t|] eqn:Hs; [by split|].
  apply finish_load_post; [done|by rewrite H4| |done|done].
  clear Ht' Hr H1 H4 Hh Hp. unfold parts in *. rewrite H2, H3. unfold has_runtime in *. rewrite H5. clear H2 H3 H5.
  assert (forall ts m, _unsafe (SubscribeHostEvents ts m) = _unsafe m /\ _languages (SubscribeHostEvents ts m) = _languages m) as Hu.
  { intros ts; induction ts as [|t ts IH]; intros m0; [done|]. by destruct (IH (with_part m0 (Subscribed t) (add_token t))). }
  destruct (Hu (subscribe l).1 m') as [-> ->]. change (_unsafe m') with (_unsafe m) in *. change (_languages m') with (_languages m) in *.
  change (_hostEvents m') with (_hostEvents m) in *. injection Hp2 as U L T. simpl in *. by rewrite U, L, T.
Qed.


(** A host, an engine and a plugin with nothing wrong; [messages] says whether [Messages] works. *)
Definition sample_load (messages : Status) (loads : bool) : Load :=
  mkLoad 7 true 7 [($"ServerGameDLL", true)] (Some (Gives (Ok tt))) (Gives tt)
    (fun bound => Gives (mkAvailability messages bound (Ok tt) (Ok tt) (Ok tt) (Ok tt) (Ok tt) (Ok tt) (Ok tt) (Ok tt) (Ok tt) (Ok tt) (Ok tt)))
    (fun _ => Gives []) ([1; 2], None) (fun _ => (Gives loads, [])).

Definition attach_result (l : Load) : bool * option text * list act :=
  let '(ok, error, m) := Attach l (Some []) 64 PluginModule_new in (ok, error, did m).

Example sample_attached : attach_result (sample_load (Ok tt) true) =
  (true, Some [], [MadeUnsafe; MadeLanguages; MadeRuntime; MadePlugin; Subscribed 1; Subscribed 2; RanLoad]).
Proof. by vm_compute. Qed.

(** The plugin is made and destroyed before it hears that messages do not work. *)
(** The plugin is made and destroyed before it hears that messages do not work. *)
Example sample_refused : attach_result (sample_load (Err (Error_NotReady $"no game event system")) true) =
  (false, CopyToBuffer (Some []) 64 $"Messages: no game event system",
   [MadeUnsafe; MadeLanguages; MadeRuntime; MadePlugin; RemovedCommands; DestroyedPlugin; DestroyedRuntime; DestroyedLanguages; DestroyedUnsafe]).
Proof. by vm_compute. Qed.

(** [LoadReport.hpp] says a required failure refuses the plugin; one recorded by a [Load] that says yes does not. *)
Lemma late_required_failure_loads :
  exists l report, Attach l (Some []) 64 PluginModule_new = (true, Some [], report) /\
    match _runtime report with Some r => LoadReport_AbortReason r = $"Database: it is down" | None => False end.
Proof.
  set (l := sample_load (Ok tt) true).
  exists (mkLoad 7 true 7 [] (gamedata l) (make_languages l) (make_runtime l) (make_plugin l) ([], None)
            (fun _ => (Gives true, [($"Database", Err (Error_Failed $"it is down"), true)]))).
  eexists; split; by vm_compute.
Qed.

(** ** What the host calls *)

(** A callback that threw leaves its result at the default, and only it. *)
Lemma HostCallback_default {A} (default_ : A) run :
  (HostCallback_Call default_ run).1 = match run with Gives a => a | Throws _ => default_ end.
Proof. by destruct run as [|[]]. Qed.

Section ChatFacts.
  Context {S P : Type} `{ChatServices S P}.

Lemma Unquote_quoted s : Unquote (chr 34 :: s ++ [chr 34]) = s.
Proof. unfold Unquote. rewrite rev_app_distr. simpl. apply rev_involutive. Qed.

(** Only [vote], [callvote], [say] and [say_team] are looked at. *)
Lemma OnConsoleCommand_others name arguments slot s :
  name <> $"vote" -> name <> $"callvote" -> name <> $"say" -> name <> $"say_team" ->
  OnConsoleCommand name arguments slot s = (false, s).
Proof. intros. unfold OnConsoleCommand. by rewrite !bool_decide_false by done. Qed.

(** A line another plugin owns reaches it: nothing here sees it. *)
Lemma OnConsoleCommand_foreign arguments slot s (team : bool) :
  is_foreign (Unquote arguments) s = true ->
  OnConsoleCommand (if team then $"say_team" else $"say") arguments slot s = (false, s).
Proof.
  intros Hf. unfold OnConsoleCommand, OnChat. destruct team; simpl; rewrite Hf; by destruct (bool_decide _ || _).
Qed.

End ChatFacts.

Lemma CodeFor_sound value code : CodeFor value = code -> code = [] \/ (value, code) ∈ SteamLanguages.
Proof.
  unfold CodeFor. destruct (List.find _ _) as [[steam c]|] eqn:Hf; intros <-; [right|by left].
  apply List.find_some in Hf as [Hin Heq]. apply bool_decide_eq_true in Heq; simpl in Heq; subst. by apply list_elem_of_In.
Qed.

(** An answer never replaces a language that was picked. *)
Lemma on_language_answer_keeps answered value picked : picked <> [] -> on_language_answer answered value picked = picked.
Proof. unfold on_language_answer. by destruct answered, (CodeFor value), picked. Qed.
