(* ===== verification/SchemaCheck.v ===== *)
(** * Checking the baked schema: [src/Host/Schema/SchemaCheck.cpp], [SchemaDump.cpp], [SchemaFields.hpp]

    The accessors were generated with a field's offset and size baked in. The host compares them with what the live game says, once it
    says something, and a plugin built from the same layout takes its answer. *)

From S2P Require Import Prelude Text Errors.

(** ** The engine's schema *)

(** How a type's values are laid out: its category, with what the dump says of it, and its size when the engine knows it. *)
Inductive atomic_category := AtomicBasic | AtomicT | AtomicCollectionOfT | AtomicTF | AtomicTT | AtomicTTF | AtomicI.
Inductive type_category :=
| Builtin | Pointer (object : text) | Bitfield | FixedArray (element : text) (count : Z) | Atomic (category : atomic_category) (template : text)
| DeclaredClass | DeclaredEnum.

Record SchemaType := mkType { type_name : text; category : type_category; size_of : option Z }.

(** A field may have no name and no type; a class may have several bases, of which the first counts. *)
Record FieldData := mkField { field_name : option text; field_type : option SchemaType; single_inheritance_offset : Z }.

Inductive ClassInfo := mkClass (class_name : option text) (class_size : Z) (fields : list FieldData) (bases : list ClassInfo).
Definition class_name (k : ClassInfo) : option text := match k with mkClass n _ _ _ => n end.
Definition class_size (k : ClassInfo) : Z := match k with mkClass _ s _ _ => s end.
Definition fields (k : ClassInfo) : list FieldData := match k with mkClass _ _ fs _ => fs end.
Definition bases (k : ClassInfo) : list ClassInfo := match k with mkClass _ _ _ bs => bs end.

Record EnumData := mkEnum { enum_name : option text; enum_size : Z; enumerators : list (option text * Z) }.

(** A scope's classes and enumerations, in the order of its hash; each may be missing. *)
Record Scope := mkScope { scope_classes : list (option ClassInfo); scope_enums : list (option EnumData) }.

(** [FindField]: the class's own fields first, then those of its first base. *)
Fixpoint FindField (k : ClassInfo) (field : text) : option FieldData :=
  match k with
  | mkClass _ _ fs bs =>
      match List.find (fun f => bool_decide (field_name f = Some field)) fs with
      | Some f => Some f
      | None => match bs with [] => None | b :: _ => FindField b field end
      end
  end.

(** [FindDeclaredClass]. *)
Definition FindDeclaredClass (s : Scope) (name : text) : option ClassInfo :=
  mjoin (List.find (fun k => bool_decide (k ≫= class_name = Some name)) (scope_classes s)).

(** ** [VerifySchemaLayout] *)

Record FieldLayout := mkLayout { Class : text; Field : text; Offset : Z; Size : Z }.

(** What is wrong with one baked field. *)
Definition field_drift (server : Scope) (global : option Scope) (want : FieldLayout) : option text :=
  let name := Class want ++ $"::" ++ Field want in
  let live := match FindDeclaredClass server (Class want) with Some k => Some k | None => global ≫= fun g => FindDeclaredClass g (Class want) end in
  match live ≫= fun k => FindField k (Field want) with
  | None => Some (name ++ $": gone")
  | Some found =>
      if negb (single_inheritance_offset found =? Offset want) then
        Some (name ++ $": offset " ++ dec (Offset want) ++ $" -> " ++ dec (single_inheritance_offset found))
      else
        match field_type found ≫= size_of with
        | Some size => if negb (size =? Size want) then Some (name ++ $": size " ++ dec (Size want) ++ $" -> " ++ dec size) else None
        | None => None
        end
  end.

(** The scopes are asked for each time; [None] is a server scope that is not there. *)
Definition VerifySchemaLayout (layout : list FieldLayout) (generated_build game_build : text) (scopes : option (Scope * option Scope)) : Status :=
  match scopes with
  | None => Err (Error_NotReady $"the server schema scope is not ready")
  | Some (server, global) =>
      match omap (field_drift server global) layout with
      | [] => Ok tt
      | drift =>
          Err (Error_Invalid
            ($"schema drift (accessors generated from game build " ++ generated_build ++ $", server is " ++ game_build ++ $"); " ++
             $"load a plugin into a running map to write the dump, then regenerate " ++ $"with voltmod framework schemagen:" ++
             flat_map (fun line => [line_feed] ++ $"  " ++ line) drift))
      end
  end.

(** ** The dump *)

Definition build_key : text := [chr 34] ++ $"build" ++ [chr 34] ++ $":".

(** [find(c, pos)] of one character. *)
Definition find_char_from (c : ascii) (s : text) (pos : nat) : option nat := find_from [c] s pos.

(** [DumpedBuild] of what the file holds: its first 256 bytes count. *)
Definition DumpedBuild (contents : option text) : text :=
  match contents with
  | None => []
  | Some contents =>
      let head := take 256 contents in
      match find build_key head with
      | None => []
      | Some at_ =>
          match find_char_from (chr 34) head (at_ + length build_key) with
          | None => []
          | Some open => match find_char_from (chr 34) head (open + 1) with Some close => take (close - open - 1) (drop (open + 1) head) | None => [] end
          end
      end
  end.

(** The document: a class's base, owner link and fields; an enumeration's items. *)
Record DumpedType := mkDumpedType { dt_name : text; dt_category : text; dt_atomic : option text; dt_inner : option text; dt_extent : option Z }.
Record DumpedField := mkDumpedField { df_name : text; df_offset : Z; df_size : Z; df_type : DumpedType; df_networked : bool }.
Record DumpedClass := mkDumpedClass { dc_size : Z; dc_base : text; dc_chain_offset : Z; dc_fields : list DumpedField }.
Record DumpedEnum := mkDumpedEnum { de_size : Z; de_items : list (text * Z) }.
Record SchemaDoc := mkDoc { build : text; classes : gmap text DumpedClass; enums : gmap text DumpedEnum }.

Definition ChainField : text := $"__m_pChainEntity".

Section Dump.
  (** [Name] of the engine's enumerators. *)
  Context (category_name : type_category -> text) (atomic_name : atomic_category -> text).

Definition no_type : DumpedType := mkDumpedType [] [] None None None.

Definition templated (c : atomic_category) : bool := match c with AtomicT | AtomicCollectionOfT | AtomicTT => true | _ => false end.

Definition DescribeType (type : option SchemaType) : DumpedType :=
  match type with
  | None => no_type
  | Some t =>
      let out atomic inner extent := mkDumpedType (type_name t) (category_name (category t)) atomic inner extent in
      match category t with
      | Pointer object => out None (Some object) None
      | FixedArray element count => out None (Some element) (Some count)
      | Atomic c template => out (Some (atomic_name c)) (if templated c then Some template else None) None
      | _ => out None None None
      end
  end.

(** [network] are the names of the fields the engine networks; [None] for a class it does not. *)
Definition DescribeField (network : option (text -> bool)) (f : FieldData) : option DumpedField :=
  match field_name f with
  | None => None
  | Some name =>
      Some (mkDumpedField name (single_inheritance_offset f) (default 0 (field_type f ≫= size_of)) (DescribeType (field_type f))
              (match network with Some find => find name | None => false end))
  end.

Definition DescribeClass (k : ClassInfo) (network : option (text -> bool)) : DumpedClass :=
  mkDumpedClass (class_size k) (match bases k with b :: _ => default [] (class_name b) | [] => [] end)
    (match FindField k ChainField with Some f => single_inheritance_offset f | None => -1 end)
    (omap (DescribeField network) (fields k)).

Definition DescribeEnum (e : EnumData) : DumpedEnum :=
  mkDumpedEnum (enum_size e) (omap (fun item => match item.1 with Some name => Some (name, item.2) | None => None end) (enumerators e)).

Definition merge_class (network : text -> option (text -> bool)) (doc : gmap text DumpedClass) (k : option ClassInfo) : gmap text DumpedClass :=
  match k with
  | Some k => match class_name k with Some name => <[name := DescribeClass k (network name)]> doc | None => doc end
  | None => doc
  end.

Definition merge_enum (doc : gmap text DumpedEnum) (e : option EnumData) : gmap text DumpedEnum :=
  match e with Some e => match enum_name e with Some name => <[name := DescribeEnum e]> doc | None => doc end | None => doc end.

Definition MergeScope (network : text -> option (text -> bool)) (doc : SchemaDoc) (s : Scope) : SchemaDoc :=
  mkDoc (build doc) (fold_left (merge_class network) (scope_classes s) (classes doc)) (fold_left merge_enum (scope_enums s) (enums doc)).

Definition schema_doc (global : option Scope) (server : Scope) (network : text -> option (text -> bool)) (gameBuild : text) : SchemaDoc :=
  let doc := mkDoc gameBuild ∅ ∅ in
  MergeScope network (match global with Some g => MergeScope network doc g | None => doc end) server.

(** [WriteDumpFile]: the text of the document, which is empty when it could not be written as JSON, and what writing it gave. *)
Definition WriteDumpFile (pretty : SchemaDoc -> text) (write : text -> Status) (global : option Scope) (server : Scope)
    (network : text -> option (text -> bool)) (gameBuild : text) : Status * option text :=
  match pretty (schema_doc global server network gameBuild) with
  | [] => (Err (Error_Invalid $"failed to serialize the schema document"), None)
  | out => (write (out ++ [line_feed]), Some (out ++ [line_feed]))
  end.

End Dump.

(** ** [SchemaCheck] *)

(** What the host's registry is told: the layout's stamp and whether it holds. [attempted] is the process's, not the object's. *)
Record SchemaCheck := mkCheck { schemaLoaded : bool; attempted : bool; answer : option bool; checks : nat; dumps : list text }.

Section Checking.
  Context (layout : list FieldLayout) (generated_build game_build : text).

Definition Check_ (scopes : option (Scope * option Scope)) (c : SchemaCheck) : SchemaCheck :=
  let verified := VerifySchemaLayout layout generated_build game_build scopes in
  let loaded := match verified with Ok _ => true | Err e => match Code e with ErrorCode.NotReady => false | _ => true end end in
  mkCheck loaded (attempted c) (Some (has_value verified)) (S (checks c)) (dumps c).

(** [WriteSchemaDump]: [database] is the serializers of a networked class, which a map's entities bring; [file] what the dump's file
    holds now; [dump] what the new one would be. *)
Definition WriteSchemaDump (scopes : option (Scope * option Scope)) (entities database : bool) (file : option text) (dump : text) (c : SchemaCheck) : SchemaCheck :=
  if attempted c || negb entities then c
  else
    match scopes with
    | None => c
    | Some _ =>
        if bool_decide (DumpedBuild file = game_build) then c
        else if negb database then c
        else mkCheck (schemaLoaded c) true (answer c) (checks c) (dumps c ++ [dump])
    end.

Definition OnServerStartup (scopes : option (Scope * option Scope)) (entities database : bool) (file : option text) (dump : text) (c : SchemaCheck) : SchemaCheck :=
  WriteSchemaDump scopes entities database file dump (if schemaLoaded c then c else Check_ scopes c).

End Checking.

(** * Theorems *)

(** ** The comparison *)

(** A baked field is where the live class has it. *)
Definition field_in_place (server : Scope) (global : option Scope) (want : FieldLayout) : Prop :=
  exists k f, (FindDeclaredClass server (Class want) = Some k \/
               (FindDeclaredClass server (Class want) = None /\ exists g, global = Some g /\ FindDeclaredClass g (Class want) = Some k)) /\
              FindField k (Field want) = Some f /\ single_inheritance_offset f = Offset want /\
              (forall t size, field_type f = Some t -> size_of t = Some size -> size = Size want).

Lemma field_drift_none server global want : field_drift server global want = None <-> field_in_place server global want.
Proof.
  unfold field_drift, field_in_place. split.
  - destruct (match FindDeclaredClass server _ with Some k => Some k | None => _ end) as [k|] eqn:Hk; [|done]. cbn.
    destruct (FindField k (Field want)) as [f|] eqn:Hf; [|done]. cbn. destruct (Z.eqb_spec (single_inheritance_offset f) (Offset want)) as [Ho|]; [|done]. cbn.
    intros Hs. exists k, f. split; [|split; [done|split; [done|]]].
    + destruct (FindDeclaredClass server (Class want)); [left; congruence|right]. split; [done|]. destruct global as [g|]; [by exists g|done].
    + intros t size Hft Ht. rewrite Hft in Hs. cbn in Hs. rewrite Ht in Hs. by destruct (Z.eqb_spec size (Size want)).
  - intros (k & f & Hk & Hf & Ho & Hs).
    assert (match FindDeclaredClass server (Class want) with Some k => Some k | None => global ≫= fun g => FindDeclaredClass g (Class want) end = Some k) as ->.
    { destruct Hk as [->|(-> & g & -> & Hk)]; done. }
    cbn. rewrite Hf. cbn. rewrite Ho, Z.eqb_refl. cbn. destruct (field_type f) as [t|] eqn:Ht; [|done]. cbn.
    destruct (size_of t) as [size|] eqn:Hz; [|done]. rewrite (Hs t size) by done. by rewrite Z.eqb_refl.
Qed.

(** The class that has a field first, going up the first bases, and its first field of that name. *)
Inductive first_with : ClassInfo -> text -> FieldData -> Prop :=
| fw_here n s fs bs field before f after : fs = before ++ f :: after -> field_name f = Some field ->
    Forall (fun g => field_name g <> Some field) before -> first_with (mkClass n s fs bs) field f
| fw_base n s fs b bs field f : Forall (fun g => field_name g <> Some field) fs -> first_with b field f -> first_with (mkClass n s fs (b :: bs)) field f.

Lemma find_split {A} (p : A -> bool) l x : List.find p l = Some x <-> exists before after, l = before ++ x :: after /\ p x = true /\ Forall (fun y => p y = false) before.
Proof.
  split.
  - induction l as [|y l IH]; [done|]. cbn. destruct (p y) eqn:Hp; [intros [= ->]; by exists [], l|].
    intros H. destruct (IH H) as (b & a & -> & Hx & Hb). exists (y :: b), a. split; [done|]. split; [done|]. by constructor.
  - intros (b & a & -> & Hx & Hb). induction Hb as [|y b Hy Hb IH]; cbn; [by rewrite Hx|]. by rewrite Hy.
Qed.

Lemma find_nothing {A} (p : A -> bool) l : List.find p l = None <-> Forall (fun y => p y = false) l.
Proof.
  induction l as [|y l IH]; [done|]. cbn. rewrite Forall_cons. destruct (p y); [naive_solver|]. rewrite IH. naive_solver.
Qed.

Lemma FindField_first k field f : FindField k field = Some f <-> first_with k field f.
Proof.
  split.
  - revert k f. fix IH 1. intros [n s fs bs] f. cbn [FindField].
    destruct (List.find _ fs) as [g|] eqn:Hf.
    + intros [= <-]. apply find_split in Hf as (b & a & -> & Hg%bool_decide_eq_true & Hb). eapply fw_here; [done|done|].
      eapply Forall_impl; [exact Hb|]. by intros x Hx%bool_decide_eq_false.
    + apply find_nothing in Hf. destruct bs as [|b bs]; [done|]. intros H. apply fw_base; [|by apply IH].
      eapply Forall_impl; [exact Hf|]. by intros x Hx%bool_decide_eq_false.
  - intros H. induction H as [n s fs bs field b f a -> Hf Hb|n s fs b bs field f Hfs H IH]; cbn [FindField].
    + assert (List.find (fun g => bool_decide (field_name g = Some field)) (b ++ f :: a) = Some f) as ->; [|done].
      apply find_split. exists b, a. split; [done|]. split; [by apply bool_decide_eq_true|]. eapply Forall_impl; [exact Hb|]. intros x. apply bool_decide_eq_false.
    + assert (List.find (fun g => bool_decide (field_name g = Some field)) fs = None) as ->; [|done].
      apply find_nothing. eapply Forall_impl; [exact Hfs|]. intros x. apply bool_decide_eq_false.
Qed.

Lemma VerifySchemaLayout_ok layout generated_build game_build scopes :
  VerifySchemaLayout layout generated_build game_build scopes = Ok tt <->
  exists server global, scopes = Some (server, global) /\ Forall (field_in_place server global) layout.
Proof.
  unfold VerifySchemaLayout. destruct scopes as [[server global]|]; [|split; [done|by intros (? & ? & ? & _)]].
  assert (omap (field_drift server global) layout = [] <-> Forall (field_in_place server global) layout) as He.
  { induction layout as [|want layout IH]; [done|]. cbn. rewrite Forall_cons, <- field_drift_none. destruct (field_drift server global want); naive_solver. }
  split.
  - destruct (omap _ layout); [|done]. intros _. exists server, global. split; [done|]. by apply He.
  - intros (? & ? & [= <- <-] & H%He). by rewrite H.
Qed.

(** ** The dump *)

(** No two of a scope's classes, and no two of a class's own fields, have one name. *)
Definition names_unique (s : Scope) : Prop :=
  NoDup (omap (fun k => k ≫= class_name) (scope_classes s)) /\
  forall k, Some k ∈ scope_classes s -> NoDup (omap field_name (fields k)).

Lemma find_unique {A} (name_of : A -> option text) (l : list A) x name :
  NoDup (omap name_of l) -> x ∈ l -> name_of x = Some name -> List.find (fun y => bool_decide (name_of y = Some name)) l = Some x.
Proof.
  induction l as [|y l IH]; [intros _ H; by apply elem_of_nil in H|]. cbn [omap list_omap List.find]. intros Hn Hx Hname.
  apply elem_of_cons in Hx as [->|Hx].
  - by rewrite bool_decide_true.
  - rewrite bool_decide_false.
    + apply IH; [|done|done]. destruct (name_of y); [by apply NoDup_cons in Hn as [_ Hn]|done].
    + intros Hy. change (NoDup (match name_of y with Some b => b :: omap name_of l | None => omap name_of l end)) in Hn. rewrite Hy in Hn.
      apply NoDup_cons in Hn as [Hn _]. apply Hn. apply list_elem_of_omap. by exists x.
Qed.

Section DumpFacts.
  Context (category_name : type_category -> text) (atomic_name : atomic_category -> text) (network : text -> option (text -> bool)).

Lemma merge_class_lookup cs doc name : NoDup (omap (fun k : option ClassInfo => k ≫= class_name) cs) ->
  fold_left (merge_class category_name atomic_name network) cs doc !! name =
  match mjoin (List.find (fun k => bool_decide (k ≫= class_name = Some name)) cs) with
  | Some k => Some (DescribeClass category_name atomic_name k (network name))
  | None => doc !! name
  end.
Proof.
  revert doc; induction cs as [|k cs IH]; intros doc Hn; [done|]. cbn [fold_left List.find].
  assert (NoDup (omap (fun k : option ClassInfo => k ≫= class_name) cs)) as Hn'.
  { change (NoDup (match k ≫= class_name with Some b => b :: omap (fun k => k ≫= class_name) cs | None => omap (fun k => k ≫= class_name) cs end)) in Hn.
    destruct (k ≫= class_name); [by apply NoDup_cons in Hn as [_ Hn]|done]. }
  rewrite IH by done. case_bool_decide as Hk.
  - destruct k as [k|]; [|done]. cbn in Hk |- *. rewrite Hk, lookup_insert_eq.
    assert (List.find (fun k0 : option ClassInfo => bool_decide (k0 ≫= class_name = Some name)) cs = None) as ->; [|done].
    apply find_nothing, Forall_forall. intros y Hy. apply bool_decide_eq_false. intros Hyn.
    change (NoDup (match class_name k with Some b => b :: omap (fun k => k ≫= class_name) cs | None => omap (fun k => k ≫= class_name) cs end)) in Hn.
    rewrite Hk in Hn. apply NoDup_cons in Hn as [Hn _]. apply Hn. apply list_elem_of_omap. by exists y.
  - destruct (mjoin _); [done|]. destruct k as [k|]; [|done]. cbn in Hk |- *. destruct (class_name k) as [n|]; [|done]. apply lookup_insert_ne. congruence.
Qed.

Lemma MergeScope_classes doc s name : names_unique s ->
  classes (MergeScope category_name atomic_name network doc s) !! name =
  match FindDeclaredClass s name with Some k => Some (DescribeClass category_name atomic_name k (network name)) | None => classes doc !! name end.
Proof. intros [Hn _]. cbn. by rewrite merge_class_lookup. Qed.

Lemma FindDeclaredClass_in s name k : FindDeclaredClass s name = Some k -> Some k ∈ scope_classes s /\ class_name k = Some name.
Proof.
  unfold FindDeclaredClass. destruct (List.find _ _) as [k'|] eqn:Hf; [|done]. cbn. intros ->.
  apply List.find_some in Hf as [Hin Hn%bool_decide_eq_true]. split; [by apply list_elem_of_In|done].
Qed.

(** A class's own field is found as it was dumped. *)
Lemma own_field_in_place server global name k df :
  (FindDeclaredClass server name = Some k \/ (FindDeclaredClass server name = None /\ exists g, global = Some g /\ FindDeclaredClass g name = Some k)) ->
  NoDup (omap field_name (fields k)) -> df ∈ dc_fields (DescribeClass category_name atomic_name k (network name)) ->
  field_in_place server global (mkLayout name (df_name df) (df_offset df) (df_size df)).
Proof.
  intros Hk Hn Hdf. cbn in Hdf. apply list_elem_of_omap in Hdf as (f & Hf & Hd). unfold DescribeField in Hd.
  destruct (field_name f) as [n|] eqn:Hname; [|done]. injection Hd as <-. exists k, f. cbn. split; [done|]. split; [|split; [done|]].
  - destruct k as [cn cs fs bs]. cbn in *. by rewrite (find_unique field_name fs f n).
  - intros t size -> Hs. cbn. by rewrite Hs.
Qed.

End DumpFacts.


Definition an_int : SchemaType := mkType $"int32" Builtin (Some 4).
Definition sample_base : ClassInfo := mkClass (Some $"CBaseEntity") 100 [mkField (Some $"m_iHealth") (Some an_int) 48; mkField None None 0] [].
Definition sample_server : Scope :=
  mkScope [Some sample_base; None; Some (mkClass (Some $"CPawn") 200 [mkField (Some $"m_flags") (Some (mkType $"CFlags" DeclaredClass None)) 104] [sample_base])] [].
Definition sample_global : Scope := mkScope [Some (mkClass (Some $"CBaseEntity") 90 [mkField (Some $"m_iHealth") (Some an_int) 40] [])] [].
Definition sample_layout : list FieldLayout := [mkLayout $"CBaseEntity" $"m_iHealth" 48 4; mkLayout $"CPawn" $"m_flags" 104 0].


(** An inherited field's offset also holds for the class that inherits it. *)
Example inherited : VerifySchemaLayout [mkLayout $"CPawn" $"m_iHealth" 48 4] [] [] (Some (sample_server, None)) = Ok tt.
Proof. by vm_compute. Qed.

(** ** The answer *)

(** What one map's start finds. *)
Record startup := mkStartup { st_scopes : option (Scope * option Scope); st_entities : bool; st_database : bool; st_file : option text; st_dump : text }.

Section Settles.
  Context (layout : list FieldLayout) (generated_build game_build : text).

(** The host's load, then the maps. *)
Definition run_check (was_attempted : bool) (at_load : option (Scope * option Scope)) (maps : list startup) : SchemaCheck :=
  fold_left (fun c m => OnServerStartup layout generated_build game_build (st_scopes m) (st_entities m) (st_database m) (st_file m) (st_dump m) c) maps
    (Check_ layout generated_build game_build at_load (mkCheck false was_attempted None 0 [])).

(** The first scopes there were. *)
Definition first_scopes (l : list (option (Scope * option Scope))) : option (Scope * option Scope) := mjoin (List.find (fun s => bool_decide (is_Some s)) l).

Lemma first_scopes_snoc l s : first_scopes (l ++ [s]) = match first_scopes l with Some x => Some x | None => s end.
Proof.
  unfold first_scopes. induction l as [|y l IH]; [by destruct s|]. cbn. destruct y; [by rewrite !bool_decide_true|].
  rewrite !bool_decide_false by by intros []. exact IH.
Qed.

(** What holds after the scopes [seen] and the maps [ran]. *)
Record settled (was_attempted : bool) (seen : list (option (Scope * option Scope))) (ran : list startup) (c : SchemaCheck) : Prop := mkSettled {
  st_answer : answer c = Some (match first_scopes seen with
                               | Some s => has_value (VerifySchemaLayout layout generated_build game_build (Some s)) | None => false end);
  st_loaded : schemaLoaded c = true <-> is_Some (first_scopes seen);
  st_checks : (checks c <= length seen)%nat;
  st_once : (length (dumps c) <= if attempted c && negb was_attempted then 1 else 0)%nat;
  st_tried : was_attempted = true -> attempted c = true;
  st_dumps : forall d, d ∈ dumps c -> exists m, m ∈ ran /\ d = st_dump m /\ st_entities m = true /\ is_Some (st_scopes m) /\ DumpedBuild (st_file m) <> game_build }.

Lemma Check_loaded scopes c : schemaLoaded (Check_ layout generated_build game_build scopes c) = bool_decide (is_Some scopes).
Proof. destruct scopes as [[s g]|]; cbn; [|done]. by destruct (omap _ layout). Qed.

Lemma settled_check wa seen ran scopes c : settled wa seen ran c -> first_scopes seen = None ->
  settled wa (seen ++ [scopes]) ran (Check_ layout generated_build game_build scopes c).
Proof.
  intros [Ha Hl Hc Ho Ht Hd] Hn. split; try done.
  - rewrite first_scopes_snoc, Hn. cbn [answer Check_]. by destruct scopes.
  - rewrite first_scopes_snoc, Hn, Check_loaded. by rewrite bool_decide_eq_true.
  - cbn [checks Check_]. rewrite length_app. cbn. lia.
Qed.

Lemma settled_skip wa seen ran scopes c : settled wa seen ran c -> is_Some (first_scopes seen) -> settled wa (seen ++ [scopes]) ran c.
Proof.
  intros [Ha Hl Hc Ho Ht Hd] [s Hs]. assert (first_scopes (seen ++ [scopes]) = first_scopes seen) as He by by rewrite first_scopes_snoc, Hs.
  split; rewrite ?He; try done. rewrite length_app. lia.
Qed.

Lemma settled_dump wa seen ran m c : settled wa seen ran c ->
  settled wa seen (ran ++ [m]) (WriteSchemaDump game_build (st_scopes m) (st_entities m) (st_database m) (st_file m) (st_dump m) c).
Proof.
  intros [Ha Hl Hc Ho Ht Hd].
  assert (forall d, d ∈ dumps c -> exists n, n ∈ ran ++ [m] /\ d = st_dump n /\ st_entities n = true /\ is_Some (st_scopes n) /\ DumpedBuild (st_file n) <> game_build) as Hd'.
  { intros d (n & Hn & H)%Hd. exists n. split; [apply elem_of_app; by left|done]. }
  assert (settled wa seen (ran ++ [m]) c) as Hsame by by split.
  unfold WriteSchemaDump. destruct (attempted c) eqn:Hat; [done|]. destruct (st_entities m) eqn:He; [|done]. cbn [orb negb].
  destruct (st_scopes m) as [sc|] eqn:Hsc; [|done]. case_bool_decide as Hb; [done|].
  destruct (st_database m); [|done]. cbn [negb]. cbn in Ho. split; cbn; try done.
  - destruct wa; [by specialize (Ht eq_refl)|]. rewrite length_app. cbn. lia.
  - intros d [Hin|Hin]%elem_of_app; [by apply Hd'|]. apply list_elem_of_singleton in Hin as ->. exists m.
    split; [apply elem_of_app; right; by left|]. by rewrite Hsc.
Qed.

Lemma settled_map wa seen ran m c : settled wa seen ran c ->
  settled wa (seen ++ [st_scopes m]) (ran ++ [m])
    (OnServerStartup layout generated_build game_build (st_scopes m) (st_entities m) (st_database m) (st_file m) (st_dump m) c).
Proof.
  intros Hc. unfold OnServerStartup. apply settled_dump. destruct (schemaLoaded c) eqn:Hl.
  - apply settled_skip; [done|]. by apply (st_loaded _ _ _ _ Hc).
  - apply settled_check; [done|]. apply eq_None_not_Some. intros H. apply (st_loaded _ _ _ _ Hc) in H. congruence.
Qed.

Lemma settled_run wa maps seen ran c : settled wa seen ran c ->
  settled wa (seen ++ map st_scopes maps) (ran ++ maps)
    (fold_left (fun c m => OnServerStartup layout generated_build game_build (st_scopes m) (st_entities m) (st_database m) (st_file m) (st_dump m) c) maps c).
Proof.
  revert seen ran c; induction maps as [|m maps IH]; intros seen ran c Hc; [by rewrite !app_nil_r|]. cbn [fold_left map].
  rewrite cons_middle, (cons_middle m), !(assoc_L (++)). by apply IH, settled_map.
Qed.

(** The answer is given once and stays. It is the comparison with the first schema there was - at the host's load or at the first
    map's start that had one - and "no" while there was none; no later map changes it or asks again; and a process writes at most one
    dump, only when a map's entities are there and the file's dump is not of this build already. *)
Theorem answer_settles was_attempted at_load maps :
  let c := run_check was_attempted at_load maps in
  answer c = Some (match first_scopes (at_load :: map st_scopes maps) with
                   | Some scopes => has_value (VerifySchemaLayout layout generated_build game_build (Some scopes)) | None => false end) /\
  (schemaLoaded c = true <-> is_Some (first_scopes (at_load :: map st_scopes maps))) /\
  (checks c <= S (length maps))%nat /\
  (length (dumps c) <= if was_attempted then 0 else 1)%nat /\
  (forall d, d ∈ dumps c -> exists m, m ∈ maps /\ d = st_dump m /\ st_entities m = true /\ is_Some (st_scopes m) /\ DumpedBuild (st_file m) <> game_build).
Proof.
  cbn zeta. assert (settled was_attempted ([at_load] ++ map st_scopes maps) ([] ++ maps) (run_check was_attempted at_load maps)) as [Ha Hl Hc Ho Ht Hd].
  { apply settled_run. split; try done.
    - cbn [answer Check_]. destruct at_load; [done|]. done.
    - rewrite Check_loaded, bool_decide_eq_true. by destruct at_load.
    - cbn. by destruct was_attempted.
    - by intros d Hd%elem_of_nil. }
  split; [exact Ha|]. split; [exact Hl|]. split; [|split; [|exact Hd]].
  - rewrite length_app, length_map in Hc. cbn in Hc. lia.
  - destruct (attempted (run_check was_attempted at_load maps)), was_attempted; cbn in Ho; lia.
Qed.

End Settles.
