(* ===== verification/Damage.v ===== *)
(** * Damage: [src/Hooks/Damage.cpp], [include/VoltMod/Hooks/Damage.hpp], [src/Hooks/DamageLayout.hpp]

    Every entity's damage on its way to the engine, and hits a plugin deals itself. A hit can kill, a death is an event, an event's
    handler can deal another hit: what happens inside what is a tree, which the code runs through with one pointer. *)

From Stdlib Require Import Floats.SpecFloat.
From S2P Require Import Prelude Text Identity.

(** ** Numbers *)

(** [float]: binary32. *)
Definition float32 : Type := spec_float.
Definition fmul : float32 -> float32 -> float32 := SFmul 24 128.
Definition fdiv : float32 -> float32 -> float32 := SFdiv 24 128.
Definition feqb : float32 -> float32 -> bool := SFeqb.
Definition fzero : float32 := S754_zero false.
Definition is_nan (x : float32) : bool := match x with S754_nan => true | _ => false end.

(** [static_cast<int32_t>(float)]; C++ gives a value that does not fit no meaning. *)
Definition to_int32 (x : float32) : option Z :=
  match x with
  | S754_zero _ => Some 0
  | S754_finite s m e =>
      let size := if 0 <=? e then Zpos m * 2 ^ e else Zpos m / 2 ^ (- e) in
      let v := if s then - size else size in
      if in_i32 v then Some v else None
  | _ => None
  end.

(** [static_cast<int32_t>(uint32_t)]. *)
Definition signed32 (z : Z) : Z := if z <=? int32_max then z else z - 4294967296.

(** ** Hits *)

(** [DamageInfo]: an entity by its handle. *)
Record DamageInfo := mkInfo { Attacker : Z; Inflictor : Z; Amount : float32; Type_ : Z; Weapon : text; VictimWeapon : text }.

(** The fields of [CTakeDamageInfo] the code touches, and what the engine keeps besides. *)
Record EngineDamageInfo := mkEngineInfo
  { e_Inflictor : Z; e_Attacker : Z; e_Damage : float32; TotalledDamage : float32; DamageType : Z; Rest : list Z }.

Record EngineDamageResult := mkResult
  { HealthLost : option Z; DamageDealt : float32; PreModifiedDamage : float32; TotalledHealthLost : option Z; TotalledDamageDealt : float32 }.

Record DamageHit := mkHit { Victim : Z; h_Attacker : Z; h_Inflictor : Z; h_Amount : float32; h_Type : Z; Blocked : bool }.

(** A [Before] handler, by the fields it may edit: the amount, the type and whether the hit is cancelled. *)
Definition handler : Type := DamageHit -> float32 * Z * bool.
Definition run_handler (h : DamageHit) (f : handler) : DamageHit :=
  let '(amount, type, blocked) := f h in mkHit (Victim h) (h_Attacker h) (h_Inflictor h) amount type blocked.

Definition hit_of (victim : Z) (info : EngineDamageInfo) : DamageHit :=
  mkHit victim (wrap_u32 (e_Attacker info)) (wrap_u32 (e_Inflictor info)) (e_Damage info) (wrap_u32 (DamageType info)) false.

(** ** Deaths *)

Record GameEvent := mkEvent { EventName : text; userid : Z; weapon : text }.
Definition PlayerDeath : text := $"player_death".

Definition SetWeapon (e : GameEvent) (name : text) : GameEvent := mkEvent (EventName e) (userid e) (c_str name).

(** [std::string_view::empty]. *)
Definition no_name (s : text) : bool := match s with [] => true | _ => false end.

(** ** What happens, and what is seen of it *)

(** A hit or an event, with what it brings about: what [Before]'s handlers do, what the engine does once it has the hit, and what the
    server's listeners do with the event. *)
Inductive deed :=
| FireEvent (event : option GameEvent) (dontBroadcast : bool) (listeners : list deed)
| TakeDamage (victim : Z) (info : EngineDamageInfo) (handlers engine : list deed)
| Apply (victim : option Z) (info : DamageInfo) (handlers engine : list deed).

Inductive seen :=
| Fired (event : option GameEvent) (dontBroadcast : bool)
| ToClient (slot : Z) (event : GameEvent)
| Dealt (victim : Z) (info : EngineDamageInfo) (result : option EngineDamageResult).

Record Damage := mkDamage { _hit : option DamageInfo; _deathEvents : bool }.

Section Damage.
  (** Subscribed handlers, which bindings there are and whether the event manager is there; who has a listener; what a handle resolves
      to; the engine's constructor of a hit, given the push; the SDK's vectors. *)
  Context (Before : list handler) (TakeDamage_bound BuildDamageInfo_bound manager : bool) (GetClientLegacyListener : Z -> bool)
    (Get : Z -> option Z) {vector : Type} (Origin : option Z -> vector) (minus : vector -> vector -> vector) (normalized : vector -> vector)
    (times : vector -> float32 -> vector)
    (BuildDamageInfo : option Z -> option Z -> vector -> vector -> float32 -> Z -> EngineDamageInfo).

(** [Before.Raise]. *)
Definition Raise_Before (hit : DamageHit) : DamageHit := fold_left run_handler Before hit.

(** [OnTakeDamage]: [None] blocks the hit. *)
Definition OnTakeDamage (victim : Z) (info : EngineDamageInfo) : option EngineDamageInfo :=
  let hit := Raise_Before (hit_of victim info) in
  if Blocked hit then None
  else
    let '(damage, totalled) :=
      if negb (feqb (h_Amount hit) (e_Damage info)) then
        (h_Amount hit,
         if negb (feqb (e_Damage info) fzero) then fmul (TotalledDamage info) (fdiv (h_Amount hit) (e_Damage info)) else TotalledDamage info)
      else (e_Damage info, TotalledDamage info) in
    Some (mkEngineInfo (e_Inflictor info) (e_Attacker info) damage totalled (signed32 (wrap_u32 (h_Type hit))) (Rest info)).

(** [Available]. *)
Definition Available : bool := TakeDamage_bound && BuildDamageInfo_bound.

(** [SendDeath]: the event is written anew for each client. *)
Definition send_client (info : DamageInfo) (victim : Z) (st : list seen * GameEvent) (slot : Z) : list seen * GameEvent :=
  if negb (GetClientLegacyListener slot) then st
  else
    let e := SetWeapon st.2 (if slot =? victim then VictimWeapon info else Weapon info) in
    (st.1 ++ [ToClient slot e], e).

Definition SendDeath (death : GameEvent) (info : DamageInfo) : list seen * GameEvent :=
  let st := fold_left (send_client info (userid death)) all_slots ([], death) in
  (st.1, SetWeapon st.2 (Weapon info)).

(** [OnFireEvent]: what the clients are sent at once, and what the manager's own [FireEvent] then runs with - as the hook's call or,
    when it blocked that one, as its own. *)
Definition OnFireEvent (hit : option DamageInfo) (event : option GameEvent) (dontBroadcast : bool) : list seen * option GameEvent * bool :=
  match hit with
  | None => ([], event, dontBroadcast)
  | Some hit =>
      if no_name (Weapon hit) then ([], event, dontBroadcast)
      else
        match event with
        | None => ([], event, dontBroadcast)
        | Some e =>
            if negb (bool_decide (EventName e = PlayerDeath)) then ([], event, dontBroadcast)
            else if no_name (VictimWeapon hit) || dontBroadcast then ([], Some (SetWeapon e (Weapon hit)), dontBroadcast)
            else let '(copies, e) := SendDeath e hit in (copies, Some e, true)
        end
  end.

(** [HookDeathEvents]. *)
Definition HookDeathEvents (s : Damage) : Damage := if _deathEvents s || negb manager then s else mkDamage (_hit s) true.

(** The hit [Apply] hands the engine. *)
Definition built_hit (victim : Z) (info : DamageInfo) : EngineDamageInfo :=
  let attacker := Get (Attacker info) in
  let inflictor := match Get (Inflictor info) with Some i => Some i | None => attacker end in
  let position := Origin (Some victim) in
  let push := times (normalized (minus position (Origin inflictor))) (Amount info) in
  BuildDamageInfo inflictor attacker push position (Amount info) (signed32 (Type_ info)).

Definition built_result (info : DamageInfo) : EngineDamageResult :=
  mkResult (to_int32 (Amount info)) (Amount info) (Amount info) (to_int32 (Amount info)) (Amount info).

Section Run.
  Context (exec : deed -> Damage -> list seen * Damage).

Fixpoint exec_all (ds : list deed) (s : Damage) : list seen * Damage :=
  match ds with
  | [] => ([], s)
  | d :: ds => let '(o, s) := exec d s in let '(o', s) := exec_all ds s in (o ++ o', s)
  end.

(** A hit on its way through the hook, which is there while [Before] has handlers. *)
Definition deal (victim : Z) (info : EngineDamageInfo) (result : option EngineDamageResult) (handlers engine : list deed) (s : Damage) :
    list seen * Damage :=
  let '(o, s) := match Before with [] => ([], s) | _ => exec_all handlers s end in
  match (match Before with [] => Some info | _ => OnTakeDamage victim info end) with
  | None => (o, s)
  | Some info => let '(o', s) := exec_all engine s in (o ++ Dealt victim info result :: o', s)
  end.

End Run.

Fixpoint exec (d : deed) (s : Damage) {struct d} : list seen * Damage :=
  match d with
  | FireEvent event dontBroadcast listeners =>
      let '(copies, event, dontBroadcast) :=
        if _deathEvents s then OnFireEvent (_hit s) event dontBroadcast else ([], event, dontBroadcast) in
      let '(o, s) := exec_all exec listeners s in
      (copies ++ Fired event dontBroadcast :: o, s)
  | TakeDamage victim info handlers engine => deal exec victim info None handlers engine s
  | Apply victim info handlers engine =>
      match victim with
      | None => ([], s)
      | Some victim =>
          if negb Available then ([], s)
          else
            let s := if no_name (Weapon info) then s else HookDeathEvents s in
            let outer := _hit s in
            let '(o, s) := deal exec victim (built_hit victim info) (Some (built_result info)) handlers engine (mkDamage (Some info) (_deathEvents s)) in
            (o, mkDamage outer (_deathEvents s))
      end
  end.

End Damage.

(** * Theorems *)

(** ** Edits *)

Section Edits.
  Context (Before : list handler).

Lemma raise_const hs hit : let h := fold_left run_handler hs hit in Victim h = Victim hit /\ h_Attacker h = h_Attacker hit /\ h_Inflictor h = h_Inflictor hit.
Proof.
  cbn zeta. revert hit; induction hs as [|f hs IH]; intros hit; [done|]. cbn [fold_left]. unfold run_handler at 2 4 6.
  destruct (f hit) as [[a t] b]. by rewrite !(proj1 (IH _)), !(proj1 (proj2 (IH _))), !(proj2 (proj2 (IH _))).
Qed.

Lemma signed_wrap t : signed32 (wrap_u32 t) mod 4294967296 = t mod 4294967296 /\ (in_i32 t = true -> signed32 (wrap_u32 t) = t).
Proof.
  unfold signed32, wrap_u32, in_i32, int32_min, int32_max. rewrite andb_true_iff, !Z.leb_le. split.
  - destruct (t mod 4294967296 <=? 2147483647); [apply Z.mod_mod; lia|].
    replace (t mod 4294967296 - 4294967296) with (t mod 4294967296 + (-1) * 4294967296) by lia. rewrite Z.mod_add by lia. apply Z.mod_mod. lia.
  - intros Ht. destruct (Z.leb_spec (t mod 4294967296) 2147483647); [rewrite Z.mod_small; [done|]|].
    + pose proof (Z.mod_pos_bound t 4294967296). destruct (decide (t < 0)); [|lia].
      assert (t mod 4294967296 = t + 4294967296) as He by (symmetry; apply (Z.mod_unique_pos _ _ (-1)); lia). lia.
    + destruct (decide (t < 0)).
      * assert (t mod 4294967296 = t + 4294967296) as -> by (symmetry; apply (Z.mod_unique_pos _ _ (-1)); lia). lia.
      * rewrite Z.mod_small in * by lia. lia.
Qed.

End Edits.

(** ** Deaths *)

Section Meaning.
  Context (Before : list handler) (TakeDamage_bound BuildDamageInfo_bound : bool) (GetClientLegacyListener : Z -> bool)
    (Get : Z -> option Z) {vector : Type} (Origin : option Z -> vector) (minus : vector -> vector -> vector) (normalized : vector -> vector)
    (times : vector -> float32 -> vector)
    (BuildDamageInfo : option Z -> option Z -> vector -> vector -> float32 -> Z -> EngineDamageInfo).

(** What becomes of an event fired while the innermost hit being dealt is [hit]. *)
Definition announced (hit : option DamageInfo) (event : option GameEvent) (dontBroadcast : bool) : list seen :=
  match hit, event with
  | Some h, Some e =>
      if bool_decide (Weapon h <> [] /\ EventName e = PlayerDeath) then
        if bool_decide (VictimWeapon h = []) || dontBroadcast then [Fired (Some (SetWeapon e (Weapon h))) dontBroadcast]
        else
          map (fun slot => ToClient slot (SetWeapon e (if slot =? userid e then VictimWeapon h else Weapon h)))
            (List.filter GetClientLegacyListener all_slots) ++
          [Fired (Some (SetWeapon e (Weapon h))) true]
      else [Fired event dontBroadcast]
  | _, _ => [Fired event dontBroadcast]
  end.

(** What is seen of a deed inside the hit [hit]: no pointer, no hook. *)
Fixpoint meant (hit : option DamageInfo) (d : deed) {struct d} : list seen :=
  let struck hit victim info result handlers engine :=
    match Before with
    | [] => Dealt victim info result :: flat_map (meant hit) engine
    | _ =>
        flat_map (meant hit) handlers ++
        match OnTakeDamage Before victim info with None => [] | Some info => Dealt victim info result :: flat_map (meant hit) engine end
    end in
  match d with
  | FireEvent event dontBroadcast listeners => announced hit event dontBroadcast ++ flat_map (meant hit) listeners
  | TakeDamage victim info handlers engine => struck hit victim info None handlers engine
  | Apply (Some victim) info handlers engine =>
      if TakeDamage_bound && BuildDamageInfo_bound then
        struck (Some info) victim (built_hit Get Origin minus normalized times BuildDamageInfo victim info) (Some (built_result info)) handlers engine
      else []
  | Apply None _ _ _ => []
  end.

Section DeedInd.
  Context (P : deed -> Prop)
    (HF : forall event db listeners, Forall P listeners -> P (FireEvent event db listeners))
    (HT : forall victim info handlers engine, Forall P handlers -> Forall P engine -> P (TakeDamage victim info handlers engine))
    (HA : forall victim info handlers engine, Forall P handlers -> Forall P engine -> P (Apply victim info handlers engine)).

Fixpoint deed_rect' (d : deed) : P d :=
  let all := fix all (ds : list deed) : Forall P ds := match ds with [] => Forall_nil_2 P | d :: ds => Forall_cons_2 P d ds (deed_rect' d) (all ds) end in
  match d with
  | FireEvent event db listeners => HF event db listeners (all listeners)
  | TakeDamage victim info handlers engine => HT victim info handlers engine (all handlers) (all engine)
  | Apply victim info handlers engine => HA victim info handlers engine (all handlers) (all engine)
  end.
End DeedInd.

Lemma send_clients info victim slots out e :
  (fold_left (send_client GetClientLegacyListener info victim) slots (out, e)).1 =
    out ++ map (fun slot => ToClient slot (SetWeapon e (if slot =? victim then VictimWeapon info else Weapon info))) (List.filter GetClientLegacyListener slots) /\
  EventName (fold_left (send_client GetClientLegacyListener info victim) slots (out, e)).2 = EventName e /\
  userid (fold_left (send_client GetClientLegacyListener info victim) slots (out, e)).2 = userid e.
Proof.
  revert out e; induction slots as [|slot slots IH]; intros out e; [by rewrite app_nil_r|]. cbn [fold_left List.filter]. unfold send_client at 2 4 6.
  destruct (GetClientLegacyListener slot); cbn [negb fst snd]; [|apply IH]. destruct (IH (out ++ [ToClient slot (SetWeapon e (if slot =? victim then VictimWeapon info else Weapon info))])
    (SetWeapon e (if slot =? victim then VictimWeapon info else Weapon info))) as (-> & -> & ->).
  cbn [map EventName userid SetWeapon]. by rewrite <- app_assoc.
Qed.

Lemma OnFireEvent_announced hit event db :
  let '(copies, event', db') := OnFireEvent GetClientLegacyListener hit event db in copies ++ [Fired event' db'] = announced hit event db.
Proof.
  unfold OnFireEvent, announced. destruct hit as [h|]; [|done]. destruct event as [e|]; [|by destruct (no_name _)].
  destruct (Weapon h) as [|c w] eqn:Hw; cbn [no_name]; [by rewrite bool_decide_false by naive_solver|].
  destruct (decide (EventName e = PlayerDeath)) as [Hd|Hd].
  - rewrite bool_decide_true by done. rewrite bool_decide_true by done. cbn [negb].
    destruct (VictimWeapon h) as [|c' w'] eqn:Hv; cbn [no_name orb]; [by rewrite bool_decide_true|]. rewrite bool_decide_false by done. cbn [orb].
    destruct db; [done|]. unfold SendDeath. destruct (send_clients h (userid e) all_slots [] e) as (H1 & H2 & H3).
    destruct (fold_left _ all_slots ([], e)) as [copies e'] eqn:Hf. cbn [fst snd] in *. rewrite H1, Hv, Hw. unfold SetWeapon at 2. by rewrite H2, H3.
  - rewrite bool_decide_false by done. cbn [negb]. by rewrite bool_decide_false by naive_solver.
Qed.

(** The pointer and the hook are right: a hit that names a weapon is never dealt without the hook. *)
Definition hooked (s : Damage) : Prop := _deathEvents s = true \/ match _hit s with Some h => Weapon h = [] | None => True end.

Lemma announced_unhooked hit event db : match hit with Some h => Weapon h = [] | None => True end -> announced hit event db = [Fired event db].
Proof. destruct hit as [h|]; [|done]. cbn. intros ->. destruct event; [|done]. by rewrite bool_decide_false by naive_solver. Qed.

Definition runs (ex : deed -> Damage -> list seen * Damage) (d : deed) : Prop :=
  forall s, hooked s -> exists b, ex d s = (meant (_hit s) d, mkDamage (_hit s) b) /\ (_deathEvents s = true -> b = true).

Lemma runs_all ex ds : Forall (runs ex) ds ->
  forall s, hooked s -> exists b, exec_all ex ds s = (flat_map (meant (_hit s)) ds, mkDamage (_hit s) b) /\ (_deathEvents s = true -> b = true).
Proof.
  induction 1 as [|d ds Hd Hds IH]; intros s Hs; [by exists (_deathEvents s); destruct s|]. cbn [exec_all flat_map].
  destruct (Hd s Hs) as (b & -> & Hb). destruct (IH (mkDamage (_hit s) b)) as (b' & -> & Hb').
  { destruct Hs as [Hs|Hs]; [left; by apply Hb|by right]. }
  exists b'. cbn in *. split; [done|]. auto.
Qed.

Notation exec := (exec Before TakeDamage_bound BuildDamageInfo_bound true GetClientLegacyListener Get Origin minus normalized times BuildDamageInfo).

Lemma runs_deal victim info result handlers engine s :
  Forall (runs exec) handlers -> Forall (runs exec) engine -> hooked s ->
  exists b, deal Before exec victim info result handlers engine s =
    (match Before with
     | [] => Dealt victim info result :: flat_map (meant (_hit s)) engine
     | _ =>
         flat_map (meant (_hit s)) handlers ++
         match OnTakeDamage Before victim info with None => [] | Some info => Dealt victim info result :: flat_map (meant (_hit s)) engine end
     end, mkDamage (_hit s) b) /\ (_deathEvents s = true -> b = true).
Proof.
  intros Hh He Hs. unfold deal. destruct Before as [|f hs] eqn:HB.
  - rewrite <- HB in *. destruct (runs_all _ _ He s Hs) as (b & -> & Hb). by exists b.
  - rewrite <- HB in *. destruct (runs_all _ _ Hh s Hs) as (b & -> & Hb). destruct (OnTakeDamage _ victim info) as [info'|].
    + destruct (runs_all _ _ He (mkDamage (_hit s) b)) as (b' & -> & Hb'); [destruct Hs; [left; by apply Hb|by right]|].
      exists b'. cbn in *. split; [done|]. auto.
    + exists b. by rewrite app_nil_r.
Qed.

Lemma runs_exec d : runs exec d.
Proof.
  induction d as [event db listeners IH|victim info handlers engine Hh He|victim info handlers engine Hh He] using deed_rect'; intros s Hs.
  - cbn [exec meant]. assert (let '(copies, e, d) := if _deathEvents s then OnFireEvent GetClientLegacyListener (_hit s) event db else ([], event, db) in
      copies ++ [Fired e d] = announced (_hit s) event db) as Ha.
    { destruct (_deathEvents s) eqn:Hd; [apply OnFireEvent_announced|]. destruct Hs as [?|Hs]; [congruence|]. by rewrite announced_unhooked. }
    destruct (if _deathEvents s then _ else _) as [[copies e] d]. destruct (runs_all _ _ IH s Hs) as (b & -> & Hb). exists b. split; [|done].
    by rewrite <- Ha, <- app_assoc.
  - cbn [exec meant]. by apply runs_deal.
  - cbn [exec meant]. destruct victim as [victim|]; [|by exists (_deathEvents s); destruct s]. unfold Available.
    destruct (TakeDamage_bound && BuildDamageInfo_bound); [|by exists (_deathEvents s); destruct s]. cbn [negb].
    set (s1 := if no_name (Weapon info) then s else HookDeathEvents true s).
    assert (_hit s1 = _hit s) as H1 by (unfold s1, HookDeathEvents; destruct (no_name _), (_deathEvents s); done).
    assert (_deathEvents s = true -> _deathEvents s1 = true) as H2 by (intros Hd; unfold s1, HookDeathEvents; rewrite Hd; by destruct (no_name _)).
    destruct (runs_deal victim (built_hit Get Origin minus normalized times BuildDamageInfo victim info) (Some (built_result info)) handlers engine
      (mkDamage (Some info) (_deathEvents s1)) Hh He) as (b & -> & Hb).
    { unfold s1, HookDeathEvents, hooked. cbn. destruct (Weapon info); [by right|left]. cbn. destruct (_deathEvents s) eqn:Hd; by rewrite ?Hd. }
    exists b. cbn in *. rewrite H1. split; [done|]. auto.
Qed.

End Meaning.

(** C16. A death names the weapon of the hit that caused it. Hits can be dealt inside hits to any depth - by [Before]'s handlers, by the
    engine, by what listens to the events they raise - and for every such tree what the clients and the engine see is what the tree
    means: each event belongs to the innermost hit being dealt; the hit's weapon replaces the one of a [player_death]; when the hit
    also names one for the victim, every client that listens gets the death once, in order, with the victim's own name for the victim
    and the other for everyone else, and the server's listeners alone get it from the manager; every other event goes through as it is.
    The hook installed at the first named hit is enough, and the hit being dealt before is the one being dealt after. *)
Theorem deaths_name_their_hit Before bound1 bound2 (GetClientLegacyListener : Z -> bool) (Get : Z -> option Z) {vector : Type}
    (Origin : option Z -> vector) minus normalized times BuildDamageInfo d s :
  hooked s ->
  exists hooks,
    exec Before bound1 bound2 true GetClientLegacyListener Get Origin minus normalized times BuildDamageInfo d s =
    (meant Before bound1 bound2 GetClientLegacyListener Get Origin minus normalized times BuildDamageInfo (_hit s) d, mkDamage (_hit s) hooks).
Proof. intros Hs. destruct (runs_exec Before bound1 bound2 GetClientLegacyListener Get Origin minus normalized times BuildDamageInfo d s Hs) as (b & H & _). by exists b. Qed.

(** A trap kills one player with icons of its own; the trap's owner answers the death with a plain hit on a second, who dies as well. *)
Definition a_trap : DamageInfo := mkInfo 1 2 fzero 0 $"trap" $"your_trap".
Definition a_slap : DamageInfo := mkInfo 1 0 fzero 0 [] [].
Definition death_of (slot : Z) : deed := FireEvent (Some (mkEvent PlayerDeath slot $"world")) false [].
Definition trap_kills : deed :=
  Apply (Some 10) a_trap []
    [FireEvent (Some (mkEvent PlayerDeath 3 $"world")) false [Apply (Some 11) a_slap [] [death_of 4]]; death_of 5].

Lemma deaths_name_their_hit_witness :
  exists hooks, exec [] true true true (fun slot => bool_decide (slot ∈ [3; 5])) (fun z => Some z) (fun _ => tt) (fun _ _ => tt) (fun _ => tt) (fun _ _ => tt)
      (fun _ _ _ _ a t => mkEngineInfo 0 0 a a t []) trap_kills (mkDamage None false) =
    ([Dealt 10 (mkEngineInfo 0 0 fzero fzero 0 []) (Some (built_result a_trap));
      ToClient 3 (mkEvent PlayerDeath 3 $"your_trap"); ToClient 5 (mkEvent PlayerDeath 3 $"trap"); Fired (Some (mkEvent PlayerDeath 3 $"trap")) true;
      Dealt 11 (mkEngineInfo 0 0 fzero fzero 0 []) (Some (built_result a_slap)); Fired (Some (mkEvent PlayerDeath 4 $"world")) false;
      ToClient 3 (mkEvent PlayerDeath 5 $"trap"); ToClient 5 (mkEvent PlayerDeath 5 $"your_trap"); Fired (Some (mkEvent PlayerDeath 5 $"trap")) true],
     mkDamage None hooks).
Proof.
  destruct (deaths_name_their_hit [] true true (fun slot => bool_decide (slot ∈ [3; 5])) (fun z => Some z) (fun _ => tt) (fun _ _ => tt) (fun _ => tt)
    (fun _ _ => tt) (fun _ _ _ _ a t => mkEngineInfo 0 0 a a t []) trap_kills (mkDamage None false)) as [hooks H]; [by right|].
  exists hooks. rewrite H. by vm_compute.
Defined.

(** ** Edits *)

(** Handlers' edits reach the engine, and nothing else of the hit changes. A hit with no edit goes on bit for bit as it came -
    unless its amount is no number - and a blocked one is not dealt and fires nothing; otherwise the engine gets the amount and type
    the last handler left, the totalled damage in proportion when there was damage to compare with, and the rest as it was. *)
Theorem edits_reach_engine Before victim info :
  in_i32 (DamageType info) = true ->
  let hit := Raise_Before Before (hit_of victim info) in
  match OnTakeDamage Before victim info with
  | None => Blocked hit = true
  | Some info' =>
      Blocked hit = false /\ e_Inflictor info' = e_Inflictor info /\ e_Attacker info' = e_Attacker info /\ Rest info' = Rest info /\
      DamageType info' mod 4294967296 = h_Type hit mod 4294967296 /\
      (e_Damage info' = h_Amount hit \/ feqb (h_Amount hit) (e_Damage info') = true) /\
      (TotalledDamage info' = TotalledDamage info \/
       feqb (e_Damage info) fzero = false /\ TotalledDamage info' = fmul (TotalledDamage info) (fdiv (e_Damage info') (e_Damage info))) /\
      (h_Amount hit = e_Damage info -> h_Type hit = wrap_u32 (DamageType info) -> is_nan (e_Damage info) = false -> info' = info)
  end /\
  (forall bound1 bound2 manager listens Get {vector : Type} (Origin : option Z -> vector) minus normalized times build engine s,
     Before <> [] -> Blocked hit = true ->
     exec Before bound1 bound2 manager listens Get Origin minus normalized times build (TakeDamage victim info [] engine) s = ([], s)).
Proof.
  intros Ht hit. split.
  - unfold OnTakeDamage. fold hit. destruct (Blocked hit); [done|]. destruct (signed_wrap (h_Type hit)) as [Hw _].
    assert (h_Type hit = wrap_u32 (DamageType info) -> signed32 (wrap_u32 (h_Type hit)) = DamageType info) as Hsame.
    { intros ->. assert (wrap_u32 (wrap_u32 (DamageType info)) = wrap_u32 (DamageType info)) as -> by (apply Z.mod_mod; lia). by apply signed_wrap. }
    destruct (feqb (h_Amount hit) (e_Damage info)) eqn:He; cbn [negb e_Inflictor e_Attacker Rest DamageType e_Damage TotalledDamage].
    + repeat split; [done|by right|by left|]. intros _ Hty _. rewrite (Hsame Hty). by destruct info.
    + repeat split; [done|by left| |].
      * destruct (feqb (e_Damage info) fzero); [by left|]. by right.
      * intros Ha _ Hn. exfalso. rewrite Ha in He. destruct (e_Damage info) as [[]|[]| |[] m e]; cbn in *; try done.
        all: unfold feqb, SFeqb, SFcompare in He; rewrite Z.compare_refl, Pos.compare_cont_refl in He; done.
  - intros bound1 bound2 manager listens Get vector Origin minus normalized times build engine s Hne Hb.
    assert (OnTakeDamage Before victim info = None) as Hn by (unfold OnTakeDamage; fold hit; by rewrite Hb).
    cbn [exec]. unfold deal. rewrite Hn. by destruct Before.
Qed.

Definition half : float32 := S754_finite false 8388608 (-24).
Definition a_quarter : float32 := S754_finite false 8388608 (-25).
Definition a_hit : EngineDamageInfo := mkEngineInfo 5 6 half half (-1) [7].
Definition halved : handler := fun h => (fmul half (h_Amount h), h_Type h, false).

Lemma edits_reach_engine_witness : OnTakeDamage [halved] 9 a_hit = Some (mkEngineInfo 5 6 a_quarter a_quarter (-1) [7]).
Proof.
  pose proof (edits_reach_engine [halved] 9 a_hit eq_refl) as [H _]. cbn zeta in H. destruct (OnTakeDamage [halved] 9 a_hit) as [i|] eqn:Hi; [|done].
  vm_compute in Hi. by rewrite <- Hi.
Defined.

(** A hit dealt through [Apply] whose amount a handler changed: what the engine is handed beside it still has the first amount. *)
Example edited_result :
  (exec [halved] true true true (fun _ => false) (fun z => Some z) (fun _ => tt) (fun _ _ => tt) (fun _ => tt) (fun _ _ => tt)
     (fun _ _ _ _ a t => mkEngineInfo 0 0 a a t []) (Apply (Some 9) (mkInfo 1 1 half 0 [] []) [] []) (mkDamage None false)).1 =
  [Dealt 9 (mkEngineInfo 0 0 a_quarter a_quarter 0 []) (Some (mkResult (Some 0) half half (Some 0) half))].
Proof. by vm_compute. Qed.
