(* ===== verification/GameEvents.v ===== *)
(** * Game events: [src/Events/GameEvents.cpp], [include/VoltMod/Events/GameEvents.hpp]

    One listener on the engine's event manager, shared by every handler of an event. The engine forgets its listeners at each map and
    has no way to detach one event, so what is attached is kept beside the handlers. *)

From S2P Require Import Prelude Text Identity Errors Signals.

(** ** The event manager *)

(** The calls made to it, with what it answered, and the maps' starts, which reset its listeners. *)
Inductive manager_call := AddListener (name : text) (attached : bool) | RemoveListener | MapReset.

Definition adds (name : text) (c : manager_call) : nat :=
  match c with AddListener n ok => if bool_decide (n = name) && ok then 1 else 0 | _ => 0 end.

(** How often the listener is on an event's list: [AddListener] adds it once more, [RemoveListener] takes it off every list. *)
Definition listening (name : text) (calls : list manager_call) : nat :=
  fold_left (fun k c => match c with AddListener _ _ => (k + adds name c)%nat | RemoveListener | MapReset => 0%nat end) calls 0%nat.

(** ** [GameEvents] *)

Section GameEvents.
  Context {T : Type}.

(** [EventHandlers]. *)
Record EventHandlers := mkHandlers { Handlers : Registry T; Attached : bool }.

(** [manager] says whether the event manager's pointer resolved; the map's entries are never erased. *)
Record GameEvents := mkEvents { manager : bool; _events : gmap text EventHandlers; calls : list manager_call }.
Definition GameEvents_new (manager : bool) : GameEvents := mkEvents manager ∅ [].

(** [accepts] says which events the manager knows when it is asked. *)
Definition Add (accepts : text -> bool) (eventName : text) (callback : T) (g : GameEvents) : option Z * GameEvents :=
  if negb (manager g) then (None, g)
  else
    let entry := default (mkHandlers Registry_new false) (_events g !! eventName) in
    let '(attached, calls) :=
      if Attached entry then (true, calls g)
      else (accepts (c_str eventName), calls g ++ [AddListener (c_str eventName) (accepts (c_str eventName))]) in
    let '(id, handlers) := Registry_Add (Handlers entry) callback in
    (Some id, mkEvents (manager g) (<[eventName := mkHandlers handlers attached]> (_events g)) calls).

Definition with_handlers (f : Registry T -> Registry T) (name : text) (g : GameEvents) : GameEvents :=
  mkEvents (manager g) (alter (fun e => mkHandlers (f (Handlers e)) (Attached e)) name (_events g)) (calls g).

(** A subscription that goes. *)
Definition Drop (name : text) (id : Z) : GameEvents -> GameEvents := with_handlers (fun r => (Registry_Remove r id).2) name.

(** What [OnServerStartup] makes of an entry, and the call it makes for it. *)
Definition reattach (accepts : text -> bool) (name : text) (e : EventHandlers) : EventHandlers :=
  mkHandlers (Handlers e) (if Registry_Empty (Handlers e) then false else accepts (c_str name)).
Definition reattach_call (accepts : text -> bool) (e : text * EventHandlers) : option manager_call :=
  if Registry_Empty (Handlers e.2) then None else Some (AddListener (c_str e.1) (accepts (c_str e.1))).

(** [OnServerStartup]. The map is walked in the order of its names; the manager keeps events apart, so the order does not show. *)
Definition OnServerStartup (accepts : text -> bool) (g : GameEvents) : GameEvents :=
  if negb (manager g) || bool_decide (_events g = ∅) then g
  else mkEvents (manager g) (map_imap (fun name e => Some (reattach accepts name e)) (_events g))
         (calls g ++ RemoveListener :: omap (reattach_call accepts) (map_to_list (_events g))).

Definition RemoveAllListeners (g : GameEvents) : GameEvents :=
  mkEvents (manager g) ((fun e => mkHandlers (Registry_Clear (Handlers e)) false) <$> _events g)
    (if manager g && negb (bool_decide (_events g = ∅)) then calls g ++ [RemoveListener] else calls g).

(** The registry [FireGameEvent] dispatches to: an event without a name and one nobody asked for have none. *)
Definition dispatched (name : option text) (g : GameEvents) : option (Registry T) := name ≫= fun n => Handlers <$> _events g !! n.

(** [FireGameEvent]: [Handlers.Dispatch], whose callbacks may do what [Signals.v]'s may to the event's own registry. *)
Definition FireGameEvent {W A} (fuel : nat) (fn : A -> Z -> T -> program T W A) (name : option text) (event : A) (g : GameEvents) (w : W) :
    option (GameEvents * W) :=
  match dispatched name g, name with
  | Some r, Some n => (fun st => (with_handlers (fun _ => st.1) n g, st.2)) <$> DispatchIf (fun _ _ => true) fn fuel event (r, w)
  | _, _ => Some (g, w)
  end.

(** [On]: what the wrapped handler makes of an event; [slot] is there for a type that has one. *)
Definition On {Engine E : Type} (From : Engine -> E) (slot : option (E -> Z)) (event : option Engine) : option E :=
  match event with
  | None => None
  | Some e => match slot with Some slot => if negb (IsValidSlot (slot (From e))) then None else Some (From e) | None => Some (From e) end
  end.

(** ** The manager's other calls *)

(** [Available]: [bound] says whether the manager's address did bind. *)
Definition Available (bound : bool) (g : GameEvents) : Status :=
  if negb bound then Err (Error_Unsupported $"the GameEventManager address did not bind")
  else if negb (manager g) then Err (Error_Engine $"the game event manager pointer is null")
  else Ok tt.

(** [GetClientLegacyListener]: the engine's function, when its signature bound. *)
Definition GetClientLegacyListener {L} (get : option (Z -> option L)) (slot : Z) : option L :=
  match get with Some get => if IsValidSlot slot then get slot else None | None => None end.

Definition ClientListensTo {L} (get : option (Z -> option L)) (FindListener : L -> text -> bool) (slot : Z) (eventName : text) (g : GameEvents) : bool :=
  match GetClientLegacyListener get slot with
  | Some listener => if negb (manager g) || bool_decide (eventName = []) then false else FindListener listener (c_str eventName)
  | None => false
  end.

Definition CreateEvent {E} (create : text -> option E) (name : text) (g : GameEvents) : option E :=
  if negb (manager g) || bool_decide (name = []) then None else create (c_str name).

End GameEvents.
Arguments EventHandlers : clear implicits.
Arguments GameEvents : clear implicits.

(** ** Everything that happens *)

(** A dispatch is its entry and its exit, with what the callbacks do between them. *)
Inductive step (T : Type) :=
| Adds (accepts : text -> bool) (name : text) (callback : T)
| Drops (name : text) (id : Z)
| Starts (accepts : text -> bool)
| RemovesAll
| Enters (name : text)
| Leaves (name : text)
| Resets.
Arguments Adds {T}.
Arguments Drops {T}.
Arguments Starts {T}.
Arguments RemovesAll {T}.
Arguments Enters {T}.
Arguments Leaves {T}.
Arguments Resets {T}.

Definition run_step {T} (g : GameEvents T) (s : step T) : GameEvents T :=
  match s with
  | Adds accepts name callback => (Add accepts name callback g).2
  | Drops name id => Drop name id g
  | Starts accepts => OnServerStartup accepts g
  | RemovesAll => RemoveAllListeners g
  | Enters name => with_handlers DispatchScope_enter name g
  | Leaves name => with_handlers DispatchScope_leave name g
  | Resets => mkEvents (manager g) (_events g) (calls g ++ [MapReset])
  end.

(** * Theorems *)

(** A map has started and nothing was attached anew: what was attached is flagged and yet is on no list. *)
Definition reset_pending (calls : list manager_call) : bool :=
  fold_left (fun b c => match c with MapReset => true | RemoveListener => false | _ => b end) calls false.

Definition names_ok {T} (steps : list (step T)) : Prop := forall accepts name callback, Adds accepts name callback ∈ steps -> chr 0 ∉ name.

Section Attached.
  Context {T : Type}.
  Implicit Types g : GameEvents T.

(** How often the flag says the listener is on an event's list. *)
Definition flagged g (name : text) : nat := match _events g !! name with Some e => if Attached e then 1 else 0 | None => 0 end.

Record attached_wf g : Prop := {
  awf_at_most name : (listening name (calls g) <= flagged g name)%nat;
  awf_exact name : reset_pending (calls g) = false -> listening name (calls g) = flagged g name;
  awf_names name : is_Some (_events g !! name) -> chr 0 ∉ name;
  awf_manager : manager g = false -> _events g = ∅ }.

Lemma listening_snoc name cs c :
  listening name (cs ++ [c]) = match c with AddListener _ _ => (listening name cs + adds name c)%nat | _ => 0%nat end.
Proof. unfold listening. rewrite fold_left_app. cbn. by destruct c. Qed.

Lemma pending_snoc cs c : reset_pending (cs ++ [c]) = match c with MapReset => true | RemoveListener => false | _ => reset_pending cs end.
Proof. unfold reset_pending. rewrite fold_left_app. cbn. by destruct c. Qed.

Lemma reattach_calls accepts (l : list (text * EventHandlers T)) cs name :
  NoDup l.*1 -> (forall n e, (n, e) ∈ l -> chr 0 ∉ n) -> 
  listening name (cs ++ omap (reattach_call accepts) l) =
    (listening name cs + match list_to_map (M := gmap text (EventHandlers T)) l !! name with
                         | Some e => if Attached (reattach accepts name e) then 1 else 0 | None => 0 end)%nat /\
  reset_pending (cs ++ omap (reattach_call accepts) l) = reset_pending cs.
Proof.
  revert cs; induction l as [|[n e] l IH]; intros cs Hn Hz.
  - cbn. rewrite app_nil_r, lookup_empty. split; [lia|done].
  - cbn [omap list_omap list_to_map foldr]. apply NoDup_cons in Hn as [Hn Hn']. cbn [fst uncurry].
    assert (c_str n = n) as Hc by (apply c_str_id, (Hz n e); by left).
    assert (forall k e, (k, e) ∈ l -> chr 0 ∉ k) as Hz' by (intros k e' Hk; apply (Hz k e'); by right).
    destruct (IH (cs ++ match reattach_call accepts (n, e) with Some c => [c] | None => [] end) Hn' Hz') as [IH1 IH2].
    assert (cs ++ (match reattach_call accepts (n, e) with Some b => b :: omap (reattach_call accepts) l | None => omap (reattach_call accepts) l end) =
      (cs ++ match reattach_call accepts (n, e) with Some c => [c] | None => [] end) ++ omap (reattach_call accepts) l) as ->
      by (destruct (reattach_call accepts (n, e)); by rewrite <- app_assoc).
    rewrite IH1, IH2. unfold reattach_call. cbn [fst snd]. rewrite Hc. unfold reattach. cbn [Attached].
    destruct (decide (n = name)) as [->|Hne].
    + rewrite lookup_insert_eq, (not_elem_of_list_to_map_1 l name) by done. cbn [Attached]. rewrite Hc.
      destruct (Registry_Empty (Handlers e)); [rewrite app_nil_r; split; [lia|done]|]. rewrite listening_snoc, pending_snoc. cbn.
      rewrite bool_decide_true by done. cbn. split; [destruct (accepts name); lia|done].
    + rewrite lookup_insert_ne by done.
      destruct (Registry_Empty (Handlers e)); [rewrite app_nil_r; split; [lia|done]|]. rewrite listening_snoc, pending_snoc. cbn.
      rewrite bool_decide_false by done. cbn. split; [lia|done].
Qed.

(** A change of an entry's handlers alone. *)
Lemma with_handlers_wf f name g : attached_wf g -> attached_wf (with_handlers f name g).
Proof.
  intros [H1 H2 H3 H4].
  assert (forall n, flagged (with_handlers f name g) n = flagged g n) as Hf.
  { intros n. unfold flagged, with_handlers. cbn. destruct (decide (n = name)) as [->|]; [|by rewrite lookup_alter_ne].
    rewrite lookup_alter_eq. by destruct (_events g !! name). }
  split; [intros n; rewrite ?Hf; cbn [calls with_handlers]; auto..| |]; [|intros Hm; cbn; by rewrite (H4 Hm)].
  intros n. cbn. destruct (decide (n = name)) as [->|]; [rewrite lookup_alter_eq|rewrite lookup_alter_ne by done]; [|apply H3]. intros [? Hs].
  apply H3. by destruct (_events g !! name).
Qed.

Lemma Add_wf accepts name callback g : chr 0 ∉ name -> attached_wf g -> attached_wf (Add accepts name callback g).2.
Proof.
  intros Hz [H1 H2 H3 H4]. unfold Add. assert (attached_wf g) as Hg by (by split). destruct (manager g) eqn:Hm; [|exact Hg]. cbn [negb].
  assert (flagged g name = if Attached (default (mkHandlers Registry_new false) (_events g !! name)) then 1%nat else 0%nat) as Hfl
    by (unfold flagged; by destruct (_events g !! name)).
  set (entry := default _ _) in *. rewrite (c_str_id name Hz).
  assert (forall n, is_Some (<[name := mkHandlers (Registry_Add (Handlers entry) callback).2 (if Attached entry then true else accepts name)]> (_events g) !! n) ->
    chr 0 ∉ n) as Hn.
  { intros n. destruct (decide (n = name)) as [->|]; [done|]. rewrite lookup_insert_ne by done. apply H3. }
  destruct (Attached entry) eqn:Ha; destruct (Registry_Add (Handlers entry) callback) as [id r] eqn:Hr; cbn [snd] in *.
  - assert (forall n, flagged (mkEvents true (<[name := mkHandlers r true]> (_events g)) (calls g)) n = flagged g n) as Hf.
    { intros n. unfold flagged. cbn [_events]. destruct (decide (n = name)) as [->|]; [|by rewrite lookup_insert_ne].
      rewrite lookup_insert_eq. symmetry. exact Hfl. }
    split; [intros n; rewrite ?Hf; cbn [calls _events]; auto..|done].
  - assert (forall n, flagged (mkEvents true (<[name := mkHandlers r (accepts name)]> (_events g)) (calls g ++ [AddListener name (accepts name)])) n =
      (flagged g n + adds n (AddListener name (accepts name)))%nat) as Hf.
    { intros n. unfold flagged, adds. cbn [_events]. destruct (decide (n = name)) as [->|].
      - rewrite lookup_insert_eq. cbn [Attached]. rewrite bool_decide_true by done. fold (flagged g name). rewrite Hfl. by destruct (accepts name).
      - rewrite lookup_insert_ne by done. rewrite bool_decide_false by done. cbn. lia. }
    split; [intros n; rewrite ?Hf; cbn [calls _events]..|done]; [| |apply Hn].
    + rewrite listening_snoc. specialize (H1 n). lia.
    + rewrite listening_snoc, pending_snoc. intros Hp. by rewrite H2.
Qed.

Lemma start_wf accepts g : attached_wf g -> manager g = true ->
  attached_wf (OnServerStartup accepts g) /\
  forall name, listening name (calls (OnServerStartup accepts g)) = 
    match _events g !! name with Some e => if Registry_Empty (Handlers e) then 0%nat else if accepts name then 1%nat else 0%nat
    | None => listening name (calls (OnServerStartup accepts g)) end.
Proof.
  intros [H1 H2 H3 H4] Hm. unfold OnServerStartup. rewrite Hm. cbn [negb orb]. case_bool_decide as He.
  { split; [by split|]. intros name. by rewrite He, lookup_empty. }
  assert (forall name, listening name ((calls g ++ [RemoveListener]) ++ omap (reattach_call accepts) (map_to_list (_events g))) =
    match _events g !! name with Some e => if Registry_Empty (Handlers e) then 0%nat else if accepts name then 1%nat else 0%nat | None => 0%nat end /\
    reset_pending ((calls g ++ [RemoveListener]) ++ omap (reattach_call accepts) (map_to_list (_events g))) = false) as Hl.
  { intros name. destruct (reattach_calls accepts (map_to_list (_events g)) (calls g ++ [RemoveListener]) name) as [-> ->].
    - apply NoDup_fst_map_to_list.
    - intros n e Hin%elem_of_map_to_list. apply H3. by exists e.
    - rewrite list_to_map_to_list, listening_snoc, pending_snoc. cbn. split; [|done]. destruct (_events g !! name) as [e|] eqn:Hn; [|done].
      unfold reattach. cbn [Attached]. rewrite c_str_id by (apply H3; by exists e). by destruct (Registry_Empty _), (accepts name). }
  assert (calls g ++ RemoveListener :: omap (reattach_call accepts) (map_to_list (_events g)) =
    (calls g ++ [RemoveListener]) ++ omap (reattach_call accepts) (map_to_list (_events g))) as -> by (by rewrite <- app_assoc).
  assert (forall name, flagged (mkEvents true (map_imap (fun n e => Some (reattach accepts n e)) (_events g))
     ((calls g ++ [RemoveListener]) ++ omap (reattach_call accepts) (map_to_list (_events g)))) name =
    match _events g !! name with Some e => if Registry_Empty (Handlers e) then 0%nat else if accepts name then 1%nat else 0%nat | None => 0%nat end) as Hf.
  { intros name. unfold flagged. cbn [_events]. rewrite map_lookup_imap. destruct (_events g !! name) as [e|] eqn:Hn; [|done]. cbn.
    rewrite c_str_id by (apply H3; by exists e). by destruct (Registry_Empty _). }
  split.
  - split; [intros name; rewrite ?Hf; cbn [calls _events]..|done].
    + by rewrite (proj1 (Hl name)).
    + by rewrite (proj1 (Hl name)).
    + rewrite map_lookup_imap. intros [x Hx]. apply H3. destruct (_events g !! name); [by eexists|done].
  - intros name. cbn [calls]. rewrite (proj1 (Hl name)). by destruct (_events g !! name).
Qed.

Lemma remove_all_wf g : attached_wf g -> attached_wf (RemoveAllListeners g).
Proof.
  intros [H1 H2 H3 H4]. unfold RemoveAllListeners.
  assert (forall m cs name, flagged (mkEvents m ((fun e => mkHandlers (Registry_Clear (Handlers e)) false) <$> _events g) cs) name = 0%nat) as Hf
    by (intros m cs name; unfold flagged; cbn [_events]; rewrite lookup_fmap; by destruct (_events g !! name)).
  assert (forall name, is_Some (((fun e => mkHandlers (Registry_Clear (Handlers e)) false) <$> _events g) !! name) -> chr 0 ∉ name) as Hn
    by (intros name; rewrite lookup_fmap, fmap_is_Some; apply H3).
  destruct (manager g) eqn:Hm; cbn [andb].
  - case_bool_decide as He; cbn [negb].
    + split; [intros name; rewrite ?Hf; cbn [calls _events]..|done]; [| |apply Hn].
      * specialize (H1 name). unfold flagged in H1. by rewrite He, lookup_empty in H1.
      * intros Hp. rewrite (H2 name Hp). unfold flagged. by rewrite He, lookup_empty.
    + split; [intros name; rewrite ?Hf; cbn [calls _events]..|done]; [by rewrite listening_snoc|by rewrite listening_snoc|apply Hn].
  - rewrite (H4 eq_refl), fmap_empty. unfold flagged in *. rewrite (H4 eq_refl) in *. by split.
Qed.

Lemma run_step_manager g (s : step T) : manager (run_step g s) = manager g.
Proof.
  destruct s; cbn; try done.
  - unfold Add. destruct (manager g) eqn:Hm; [|done]. cbn [negb]. destruct (if Attached _ then _ else _) as [a cs]. by destruct (Registry_Add _ _).
  - unfold OnServerStartup. by destruct (_ || _).
Qed.

Lemma run_step_wf g (s : step T) : names_ok [s] -> attached_wf g -> attached_wf (run_step g s).
Proof.
  intros Hs Hg. destruct s; cbn; try by apply with_handlers_wf.
  - apply Add_wf; [|done]. apply (Hs accepts name callback). by left.
  - destruct (manager g) eqn:Hm; [by apply start_wf|]. unfold OnServerStartup. by rewrite Hm.
  - by apply remove_all_wf.
  - destruct Hg as [H1 H2 H3 H4]. split; [intros n; cbn [calls _events]..|exact H4]; [rewrite listening_snoc; lia|by rewrite pending_snoc|apply H3].
Qed.

Lemma run_wf steps g : names_ok steps -> attached_wf g -> attached_wf (fold_left run_step steps g).
Proof.
  revert g; induction steps as [|s steps IH]; intros g Hn Hg; [done|]. apply IH.
  - intros accepts name callback Hin. apply (Hn accepts name callback). by right.
  - apply run_step_wf; [|done]. intros accepts name callback Hin. apply list_elem_of_singleton in Hin. apply (Hn accepts name callback). rewrite Hin. by left.
Qed.

Lemma run_manager steps g : manager (fold_left run_step steps g) = manager g.
Proof. revert g; induction steps as [|s steps IH]; intros g; [done|]. cbn. by rewrite IH, run_step_manager. Qed.

Lemma new_wf m : attached_wf (GameEvents_new m).
Proof. split; cbn; [intros name; lia|done|by intros name [? ?]|done]. Qed.

End Attached.

(** C37. The engine's list of an event holds the listener once or not at all. Handlers are added and dropped, inside dispatches and
    outside; maps start, the engine forgets its listeners, events are refused and asked for again: the listener is never on a list
    twice, so no event is raised twice; a map's start attaches exactly the events that still have a handler and that the manager
    knows; and between a start and the next reset an added handler's event is attached as soon as the manager knows it. *)
Theorem attached_once {T} (steps : list (step T)) :
  names_ok steps ->
  let g := fold_left run_step steps (GameEvents_new true) in
  (forall name, (listening name (calls g) <= 1)%nat) /\
  (forall accepts name e, _events g !! name = Some e ->
     listening name (calls (OnServerStartup accepts g)) = if Registry_Empty (Handlers e) then 0%nat else if accepts name then 1%nat else 0%nat) /\
  (forall accepts name callback, reset_pending (calls g) = false -> chr 0 ∉ name -> accepts name = true ->
     listening name (calls (Add accepts name callback g).2) = 1%nat).
Proof.
  intros Hn g. pose proof (run_wf steps (GameEvents_new true) Hn (new_wf true)) as Hg. fold g in Hg.
  assert (manager g = true) as Hm by (unfold g; by rewrite run_manager).
  split; [|split].
  - intros name. pose proof (awf_at_most _ Hg name). unfold flagged in *. destruct (_events g !! name) as [[? []]|]; cbn in *; lia.
  - intros accepts name e He. destruct (start_wf accepts g Hg Hm) as [_ H]. by rewrite H, He.
  - intros accepts name callback Hp Hz Ha. pose proof (awf_exact _ Hg name Hp) as Hx. unfold flagged in Hx. unfold Add. rewrite Hm. cbn [negb].
    rewrite (c_str_id name Hz), Ha. assert (Attached (default (mkHandlers Registry_new false) (_events g !! name)) =
      match _events g !! name with Some e => Attached e | None => false end) as -> by (by destruct (_events g !! name)).
    destruct (match _events g !! name with Some e => Attached e | None => false end) eqn:He; destruct (Registry_Add _ _) as [id r]; cbn [snd calls].
    + rewrite Hx. destruct (_events g !! name) as [e|]; [by rewrite He|done].
    + rewrite listening_snoc, Hx. cbn. rewrite bool_decide_true by done. destruct (_events g !! name) as [e|]; [by rewrite He|done].
Qed.

(** Two handlers, one dropped inside a dispatch; the map changes, and the event is attached for the other alone. *)
Definition sample_steps : list (step nat) :=
  [Adds (fun _ => true) $"round_end" 1%nat; Adds (fun _ => true) $"round_end" 2%nat; Adds (fun _ => false) $"odd" 3%nat; Enters $"round_end"; Drops $"round_end" 1;
   Leaves $"round_end"; Resets].

Lemma attached_once_witness :
  listening $"round_end" (calls (OnServerStartup (fun _ => true) (fold_left run_step sample_steps (GameEvents_new true)))) = 1%nat.
Proof.
  pose proof (attached_once sample_steps) as (_ & H & _).
  - intros accepts name callback Hin. unfold sample_steps in Hin. rewrite !elem_of_cons in Hin.
    destruct Hin as [[= _ -> _]|[[= _ -> _]|[[= _ -> _]|Hin]]]; [apply (bool_decide_unpack _); by vm_compute..|].
    exfalso. destruct Hin as [?|[?|[?|[?|Hin]]]]; [done..|]. by apply elem_of_nil in Hin.
  - destruct (_events (fold_left run_step sample_steps (GameEvents_new true)) !! ($"round_end" : text)) as [e|] eqn:He; [|by vm_compute in He].
    rewrite (H (fun _ => true) _ e He). vm_compute in He. injection He as <-. by vm_compute.
Defined.

(** Every map's listeners were reset: until the next start nothing is on a list, whatever the flags say, and adding does not help. *)
Example attached_late :
  listening $"round_end" (calls (fold_left run_step (sample_steps ++ [Adds (fun _ => true) $"round_end" 4%nat]) (GameEvents_new true))) = 0%nat.
Proof. by vm_compute. Qed.
