(* ===== verification/Durations.v ===== *)
(** * Durations and expiries: [src/Core/Time/Durations.cpp], [include/VoltMod/Core/Time/Durations.hpp]

    The clock's reading, [now], is an argument. [Time::ParseDuration] is [Text.v]'s; [FormatTimestamp] writes the fields the C library's
    [localtime] gives. *)

From S2P Require Import Prelude Text.

(** ** Formatting *)

Definition SecondsPerMinute : Z := 60.
Definition SecondsPerHour : Z := 3600.
Definition SecondsPerDay : Z := 86400.
Definition SecondsPerWeek : Z := 604800.

(** [std::format("{} week{}", w, w > 1 ? "s" : "")]. *)
Definition counted (n : Z) (unit : text) : text := dec n ++ $" " ++ unit ++ (if 1 <? n then $"s" else []).

(** [seconds % unit == 0 && seconds >= unit]; C++ divides towards zero. *)
Definition whole (seconds unit : Z) : bool := (Z.rem seconds unit =? 0) && (unit <=? seconds).

Definition FormatDuration (seconds : Z) : text :=
  if seconds =? 0 then $"Permanent"
  else if whole seconds SecondsPerWeek then counted (Z.quot seconds SecondsPerWeek) $"week"
  else if whole seconds SecondsPerDay then counted (Z.quot seconds SecondsPerDay) $"day"
  else if whole seconds SecondsPerHour then counted (Z.quot seconds SecondsPerHour) $"hour"
  else if whole seconds SecondsPerMinute then counted (Z.quot seconds SecondsPerMinute) $"minute"
  else counted seconds $"second".

Record DurationUnitLabels := mkLabels { Permanent : text; Days : text; Hours : text; Minutes : text; Seconds : text }.

Definition FormatDurationLabel (seconds : Z) (units : DurationUnitLabels) : text :=
  if seconds <=? 0 then Permanent units
  else
    match List.find (fun unit => Z.rem seconds unit.1 =? 0) [(SecondsPerDay, Days units); (SecondsPerHour, Hours units); (SecondsPerMinute, Minutes units)] with
    | Some unit => dec (Z.quot seconds unit.1) ++ $" " ++ unit.2
    | None => dec seconds ++ $" " ++ Seconds units
    end.

(** A difference or sum that leaves [int64_t] is undefined. *)
Definition int64 (z : Z) : outcome Z := if in_i64 z then Returns z else Undefined.

Definition FormatExpiry (expiresAt nowSec : Z) (permanentText expiresInPrefix : text) : outcome text :=
  if expiresAt <=? 0 then Returns permanentText
  else
    run! remaining := int64 (expiresAt - nowSec) in
    Returns (if remaining <=? 0 then permanentText else expiresInPrefix ++ $" " ++ FormatDuration remaining).

Definition IsExpired (expiresAt now : Z) : bool := if expiresAt =? 0 then false else expiresAt <=? now.

Definition GetExpirationTime (durationSeconds now : Z) : outcome Z := if durationSeconds =? 0 then Returns 0 else int64 (now + durationSeconds).

(** * Theorems *)

(** ** Reading a duration back *)

Definition unit_seconds (unit : text) : option Z :=
  snd <$> List.find (fun u => bool_decide (u.1 = unit))
    [($"week", 604800); ($"weeks", 604800); ($"day", 86400); ($"days", 86400); ($"hour", 3600); ($"hours", 3600); ($"minute", 60); ($"minutes", 60);
     ($"second", 1); ($"seconds", 1)].

Definition read_duration (s : text) : option Z :=
  match span_digits 10 s with
  | ((_ :: _) as ds, _ :: unit) => (fun m => number_of 10 ds * m) <$> unit_seconds unit
  | _ => None
  end.

Lemma dec_digits_app fuel n acc : dec_digits fuel n acc = dec_digits fuel n [] ++ acc.
Proof.
  revert n acc; induction fuel as [|fuel IH]; intros n acc; [done|]. cbn. destruct (n <? 10); [done|].
  rewrite IH. symmetry. rewrite IH. by rewrite <- app_assoc.
Qed.

Lemma span_dec_app n rest : 0 <= n -> span_digits 10 rest = ([], rest) ->
  exists ds, span_digits 10 (dec n ++ rest) = (ds, rest) /\ ds <> [] /\ number_of 10 ds = n.
Proof.
  intros Hn Hr. destruct (span_dec n Hn) as (ds & Hs & Hne & Hv). exists ds. split; [|done]. clear Hv Hne. revert ds Hs.
  induction (dec n) as [|c s IH]; intros ds Hs; cbn in *; [by injection Hs as <-|].
  destruct (digit_of 10 c); [|by injection Hs as <-]. destruct (span_digits 10 s) as [ds' u] eqn:Hsp. injection Hs as <- ->. by rewrite (IH ds').
Qed.

Lemma read_counted n unit m : 1 <= n -> unit_seconds unit = Some m -> unit_seconds (unit ++ $"s") = Some m -> read_duration (counted n unit) = Some (n * m).
Proof.
  intros Hn H1 H2. unfold read_duration, counted.
  destruct (span_dec_app n ($" " ++ unit ++ (if 1 <? n then $"s" else []))) as (ds & -> & Hne & Hv); [lia|done|].
  destruct ds as [|d ds]; [done|]. rewrite Hv.
  change ($" " ++ unit ++ (if 1 <? n then $"s" else [])) with (" "%char :: (unit ++ (if 1 <? n then $"s" else []))). cbn [fmap option_fmap].
  assert (unit_seconds (unit ++ (if 1 <? n then $"s" else [])) = Some m) as ->; [|done]. destruct (1 <? n); [done|]. by rewrite app_nil_r.
Qed.

Lemma whole_exact seconds unit : 0 < unit -> whole seconds unit = true -> 1 <= Z.quot seconds unit /\ Z.quot seconds unit * unit = seconds.
Proof.
  unfold whole. intros Hu [Hr%Z.eqb_eq Hs%Z.leb_le]%andb_true_iff. pose proof (Z.quot_rem' seconds unit) as H. rewrite Hr in H.
  split; [|lia]. assert (0 < Z.quot seconds unit) by (apply Z.quot_str_pos; lia). lia.
Qed.

(** A duration's text says the duration. Whatever the seconds - any number above zero - the text is a count and a unit that, read
    back, make exactly those seconds; the unit is the largest of week, day, hour, minute and second that divides them, in the plural
    just when the count is above one. *)
Theorem FormatDuration_reads_back seconds :
  0 < seconds ->
  read_duration (FormatDuration seconds) = Some seconds /\
  exists n unit m, FormatDuration seconds = counted n unit /\ unit_seconds unit = Some m /\ n * m = seconds /\
    forall m', m' ∈ [SecondsPerWeek; SecondsPerDay; SecondsPerHour; SecondsPerMinute] -> m < m' -> seconds mod m' <> 0.
Proof.
  intros Hs.
  assert (exists n unit m, FormatDuration seconds = counted n unit /\ 1 <= n /\ unit_seconds unit = Some m /\ unit_seconds (unit ++ $"s") = Some m /\
    n * m = seconds /\ forall m', m' ∈ [SecondsPerWeek; SecondsPerDay; SecondsPerHour; SecondsPerMinute] -> m < m' -> whole seconds m' = false)
    as (n & unit & m & He & Hn & H1 & H2 & Hm & Hl).
  { unfold FormatDuration. destruct (Z.eqb_spec seconds 0); [lia|].
    destruct (whole seconds SecondsPerWeek) eqn:Hw; [|destruct (whole seconds SecondsPerDay) eqn:Hd; [|destruct (whole seconds SecondsPerHour) eqn:Hh;
      [|destruct (whole seconds SecondsPerMinute) eqn:Hmi]]].
    1-4: match goal with H : whole _ ?u = true |- _ => destruct (whole_exact seconds u) as [? ?]; [done|done|]; eexists _, _, u end.
    5: exists seconds, $"second", 1.
    all: split; [reflexivity|]; split; [lia|]; split; [done|]; split; [done|]; split; [lia|]; intros m'; rewrite !elem_of_cons, elem_of_nil.
    all: intros [->|[->|[->|[->|[]]]]] Hlt; by unfold SecondsPerWeek, SecondsPerDay, SecondsPerHour, SecondsPerMinute in *. }
  split; [rewrite He, (read_counted _ _ m) by done; by rewrite Hm|]. exists n, unit, m. split; [done|]. split; [done|]. split; [done|].
  intros m' Hin Hlt Hmod. specialize (Hl m' Hin Hlt). unfold whole in Hl. apply andb_false_iff in Hl.
  assert (0 < m') as Hpos by (rewrite !elem_of_cons, elem_of_nil in Hin; destruct Hin as [->|[->|[->|[->|[]]]]]; done).
  rewrite Z.rem_mod_nonneg, Hmod in Hl by lia. destruct Hl as [?|Hle%Z.leb_gt]; [done|]. rewrite Z.mod_small in Hmod by lia. lia.
Qed.

Lemma FormatDuration_reads_back_witness : read_duration $"2 weeks" = Some 1209600.
Proof. exact (proj1 (FormatDuration_reads_back 1209600 eq_refl)). Defined.

(** ** Expiries *)

(** What a player typed ends when it says. For every text the parser takes and any clock below 2^62, the expiry is a time that
    exists; a permanent one never expires, and another expires from exactly that many seconds later on. *)
Theorem parsed_expiry s now :
  0 < now < 2 ^ 62 -> 0 <= ParseDuration s ->
  exists expiresAt, GetExpirationTime (ParseDuration s) now = Returns expiresAt /\
    forall later, IsExpired expiresAt later = negb (ParseDuration s =? 0) && (now + ParseDuration s <=? later).
Proof.
  intros Hnow Hd. destruct (ParseDuration_bounds s) as [_ Hmax]. unfold GetExpirationTime. destruct (Z.eqb_spec (ParseDuration s) 0) as [He|Hne].
  - exists 0. split; [done|]. intros later. done.
  - exists (now + ParseDuration s). unfold int64, in_i64, int64_min, int64_max, int32_max in *. split.
    + destruct (Z.leb_spec (-9223372036854775808) (now + ParseDuration s)); [|lia]. destruct (Z.leb_spec (now + ParseDuration s) 9223372036854775807); [done|lia].
    + intros later. unfold IsExpired. destruct (Z.eqb_spec (now + ParseDuration s) 0); [lia|]. done.
Qed.

Lemma parsed_expiry_witness : exists e, GetExpirationTime 900 1000 = Returns e /\ IsExpired e 1899 = false /\ IsExpired e 1900 = true.
Proof.
  destruct (parsed_expiry $"15m" 1000) as (e & He & Hx); [lia|by vm_compute|]. exists e. split; [exact He|]. rewrite !Hx. split; by vm_compute.
Defined.
