(* ===== verification/Messages.v ===== *)
(** * Messages: [src/Messaging/Messages.cpp], [ChatColors.cpp], [CenterHtml.cpp], [src/Engine/Net/NetMessage.cpp],
    [include/VoltMod/Engine/Net/RecipientFilter.hpp]

    Lines for one client or all of them. Every message and event is the engine's object, made and given back around each send. *)

From S2P Require Import Prelude Text Identity Errors Translations.

(** ** Colors *)

Definition color (b : Z) : text := [chr b].
Definition Default : text := color 1.

Definition kNameTable : list (text * text) := [
  ($"default", color 1); ($"white", color 1); ($"darkred", color 2); ($"lightpurple", color 3);
  ($"green", color 4); ($"olive", color 5); ($"lime", color 6); ($"red", color 7);
  ($"gray", color 8); ($"grey", color 8); ($"yellow", color 9); ($"lightyellow", color 9);
  ($"silver", color 10); ($"bluegrey", color 10); ($"lightblue", color 11); ($"blue", color 11);
  ($"darkblue", color 12); ($"purple", color 14); ($"magenta", color 14); ($"lightred", color 15);
  ($"gold", color 16); ($"orange", color 16)].

Definition Palette : list (text * text) := [
  ($"default", color 1); ($"darkred", color 2); ($"lightpurple", color 3); ($"green", color 4); ($"olive", color 5); ($"lime", color 6);
  ($"red", color 7); ($"gray", color 8); ($"yellow", color 9); ($"silver", color 10); ($"lightblue", color 11); ($"darkblue", color 12);
  ($"purple", color 14); ($"lightred", color 15); ($"gold", color 16)].

Definition ParseNamed (name : text) : text :=
  match name with
  | [] => Default
  | _ => match List.find (fun e => bool_decide (e.1 = ToLower name)) kNameTable with Some e => e.2 | None => Default end
  end.

(** A color escape byte; the code's bound takes in the NUL. *)
Definition is_color (c : ascii) : bool := code c <=? 16.

Definition Strip (s : text) : text := List.filter (fun c => negb (is_color c)) s.

(** [labelFor] may be missing. *)
Definition PaletteChoices (labelFor : option (text -> text)) : list (text * text) :=
  map (fun entry => (match (match labelFor with Some f => f entry.1 | None => [] end) with [] => entry.1 | label => label end, entry.1)) Palette.

(** ** What the engine sees *)

Inductive MessageKind := Chat | Center | CenterHtml | Alert.
#[export] Instance MessageKind_eq_dec : EqDecision MessageKind.
Proof. solve_decision. Defined.

Inductive payload (F : Type) := TextMsg (dest : Z) (param : text) | ShakeMsg (duration frequency amplitude : F) (command : Z).
Arguments TextMsg {F}.
Arguments ShakeMsg {F}.

(** [show_survival_respawn_status], with its three fields. *)
Record HtmlEvent := mkHtml { loc_token : text; userid : Z; duration : Z }.

Inductive act (F : Type) :=
| Allocated | Posted (recipients : list Z) (message : payload F) | Deallocated
| Created | ToListener (slot : Z) (event : HtmlEvent) | Freed | FiredToAll (event : HtmlEvent).
Arguments Allocated {F}.
Arguments Posted {F}.
Arguments Deallocated {F}.
Arguments Created {F}.
Arguments ToListener {F}.
Arguments Freed {F}.
Arguments FiredToAll {F}.

(** ** [Messages] *)

(** Its two caches of a message's type: whether it was found. *)
Record Messages := mkMessages { _textMsgInternal : bool; _shakeInternal : bool }.
Definition Messages_new : Messages := mkMessages false false.

(** [EnsureColorPrefix], [Render]. *)
Definition EnsureColorPrefix (message : text) : text :=
  match message with c :: _ => (if is_color c then $" " else Default) ++ message | [] => Default ++ message end.

Definition Render (message : text) (kind : MessageKind) : text := match kind with Chat => EnsureColorPrefix message | _ => message end.

(** The filters' bits. *)
Definition SingleRecipientFilter (slot : Z) : list Z := if (0 <=? slot) && (slot <? MaxPlayers) then [slot] else [].
Definition AddRecipient (filter : list Z) (slot : Z) : list Z :=
  if (0 <=? slot) && (slot <? MaxPlayers) && negb (bool_decide (slot ∈ filter)) then filter ++ [slot] else filter.

Section Messages.
  Context {F : Type}.
  (** The engine: its interfaces, whether it knows a message's partial name, allocates one and casts it; whether it creates the event;
      each slot's listener; the numbers of its HUD's places. *)
  Context (GameEventSystem NetworkMessages : bool) (FindNetworkMessagePartial : text -> bool) (AllocateMessage ToPB : bool)
    (GameEventManager creates : bool) (GetClientLegacyListener : Z -> bool) (HUD_PRINTTALK HUD_PRINTCENTER HUD_PRINTALERT : Z)
    (languages : LanguageTable) (translations : Translations).

Notation acts := (list (act F)).

Definition HudDestination (kind : MessageKind) : Z :=
  match kind with Center => HUD_PRINTCENTER | Alert => HUD_PRINTALERT | _ => HUD_PRINTTALK end.

Definition Messages_Available : Status :=
  if negb GameEventSystem then Err (Error_NotReady $"IGameEventSystem not available")
  else if negb NetworkMessages then Err (Error_NotReady $"INetworkMessages not available")
  else Ok tt.

(** [PostUserMessage]: whether it was posted, the cache and what was done. [fill] is [None] when the cast fails. *)
Definition PostUserMessage (cached : bool) (partialName : text) (filter : list Z) (fill : option (payload F)) : bool * bool * acts :=
  if negb GameEventSystem || negb NetworkMessages then (false, cached, [])
  else
    let cached := cached || FindNetworkMessagePartial partialName in
    if negb cached then (false, cached, [])
    else if negb AllocateMessage then (false, cached, [])
    else
      match fill with
      | Some message => (true, cached, [Allocated; Posted filter message; Deallocated])
      | None => (false, cached, [Allocated; Deallocated])
      end.

Definition PostTextMsg (filter : list Z) (destination : Z) (message : text) (m : Messages) : acts * Messages :=
  let '(_, cached, done_) := PostUserMessage (_textMsgInternal m) $"TextMsg" filter (if ToPB then Some (TextMsg destination (c_str message)) else None) in
  (done_, mkMessages cached (_shakeInternal m)).

Definition SendTextMsg (slot destination : Z) (message : text) (m : Messages) : acts * Messages :=
  if negb (IsValidSlot slot) then ([], m) else PostTextMsg (SingleRecipientFilter slot) destination message m.

Definition SendCenterHtml (slot : Z) (html : text) : acts :=
  if negb GameEventManager || negb (IsValidSlot slot) then []
  else if negb creates then []
  else
    let event := mkHtml (c_str html) slot 5 in
    if GetClientLegacyListener slot then [Created; ToListener slot event; Freed] else [Created; FiredToAll event].

Definition ClearCenterHtml (slot : Z) : acts := SendCenterHtml slot $" ".

Definition Send (slot : Z) (message : text) (kind : MessageKind) (m : Messages) : acts * Messages :=
  match kind with
  | CenterHtml => (SendCenterHtml slot message, m)
  | _ => SendTextMsg slot (HudDestination kind) (Render message kind) m
  end.

(** A loop over every slot. *)
Fixpoint each_slot (send : Z -> Messages -> acts * Messages) (slots : list Z) (m : Messages) : acts * Messages :=
  match slots with
  | [] => ([], m)
  | slot :: slots =>
      let '(o, m) := if GetClientLegacyListener slot then send slot m else ([], m) in
      let '(o', m) := each_slot send slots m in (o ++ o', m)
  end.

Definition Broadcast (message : text) (kind : MessageKind) (m : Messages) : acts * Messages :=
  let rendered := Render message kind in
  match kind with
  | CenterHtml => each_slot (fun slot m => (SendCenterHtml slot rendered, m)) all_slots m
  | _ => PostTextMsg (fold_left AddRecipient all_slots []) (HudDestination kind) rendered m
  end.

Definition SendKey (slot : Z) (key : text) (tokens : list (text * text)) (kind : MessageKind) (m : Messages) : acts * Messages :=
  Send slot (TranslateWith languages translations key slot tokens) kind m.

Definition BroadcastKey (key : text) (tokens : list (text * text)) (kind : MessageKind) (m : Messages) : acts * Messages :=
  each_slot (fun slot => SendKey slot key tokens kind) all_slots m.

Definition Shake (slot : Z) (durationSec frequency amplitude : F) (m : Messages) : acts * Messages :=
  let '(_, cached, done_) :=
    PostUserMessage (_shakeInternal m) $"Shake" (SingleRecipientFilter slot) (if ToPB then Some (ShakeMsg durationSec frequency amplitude 0) else None) in
  (done_, mkMessages (_textMsgInternal m) cached).

(** ** [CenterHtml]: a panel sent again and again *)

(** Each slot's running timer: its period and what it draws. *)
Definition Panels : Type := PerSlot (option (Z * (Z -> text))).
Definition Panels_new : Panels := PerSlot_new None.

Definition Stop (slot : Z) (p : Panels) : acts * Panels :=
  match mjoin (PerSlot_get p slot) with
  | None => ([], p)
  | Some _ => (ClearCenterHtml slot, PerSlot_Reset None p slot)
  end.

Definition Show (slot refreshMs : Z) (render : option (Z -> text)) (p : Panels) : acts * Panels :=
  match render with
  | Some render =>
      if negb (IsValidSlot slot) || (refreshMs <=? 0) then ([], p)
      else
        let '(o, p) := Stop slot p in
        (o ++ SendCenterHtml slot (render slot), PerSlot_set p slot (Some (refreshMs, render)))
  | None => ([], p)
  end.

Fixpoint stop_each (slots : list Z) (p : Panels) : acts * Panels :=
  match slots with [] => ([], p) | slot :: slots => let '(o, p) := Stop slot p in let '(o', p) := stop_each slots p in (o ++ o', p) end.
Definition StopAll (p : Panels) : acts * Panels := stop_each all_slots p.

(** The scheduler runs a slot's timer; the player leaves. *)
Definition Tick (slot : Z) (p : Panels) : acts :=
  match mjoin (PerSlot_get p slot) with Some (_, render) => SendCenterHtml slot (render slot) | None => [] end.
Definition Leave (slot : Z) (p : Panels) : Panels := PerSlot_Reset None p slot.

(** ** Everything that is called *)

Inductive call :=
| CSend (slot : Z) (message : text) (kind : MessageKind)
| CBroadcast (message : text) (kind : MessageKind)
| CSendKey (slot : Z) (key : text) (tokens : list (text * text)) (kind : MessageKind)
| CBroadcastKey (key : text) (tokens : list (text * text)) (kind : MessageKind)
| CShake (slot : Z) (durationSec frequency amplitude : F)
| CShow (slot refreshMs : Z) (render : option (Z -> text))
| CStop (slot : Z)
| CStopAll
| CTick (slot : Z)
| CLeave (slot : Z).

Definition run_call (c : call) (st : Messages * Panels) : acts * (Messages * Panels) :=
  let on_messages r := (r.1, (r.2, st.2)) in
  let on_panels r := (r.1, (st.1, r.2)) in
  match c with
  | CSend slot message kind => on_messages (Send slot message kind st.1)
  | CBroadcast message kind => on_messages (Broadcast message kind st.1)
  | CSendKey slot key tokens kind => on_messages (SendKey slot key tokens kind st.1)
  | CBroadcastKey key tokens kind => on_messages (BroadcastKey key tokens kind st.1)
  | CShake slot d f a => on_messages (Shake slot d f a st.1)
  | CShow slot ms render => on_panels (Show slot ms render st.2)
  | CStop slot => on_panels (Stop slot st.2)
  | CStopAll => on_panels (StopAll st.2)
  | CTick slot => (Tick slot st.2, st)
  | CLeave slot => ([], (st.1, Leave slot st.2))
  end.

Fixpoint run_calls (cs : list call) (st : Messages * Panels) : acts * (Messages * Panels) :=
  match cs with [] => ([], st) | c :: cs => let '(o, st) := run_call c st in let '(o', st) := run_calls cs st in (o ++ o', st) end.

End Messages.

(** * Theorems *)

(** ** Colors *)

Lemma Strip_app a b : Strip (a ++ b) = Strip a ++ Strip b.
Proof. apply List.filter_app. Qed.

Lemma Strip_clean s : forallb (fun c => negb (is_color c)) (Strip s) = true.
Proof. apply forallb_forall. intros c [_ Hc]%filter_In. exact Hc. Qed.

Lemma Strip_id s : forallb (fun c => negb (is_color c)) s = true -> Strip s = s.
Proof. induction s as [|c s IH]; [done|]. cbn. intros [-> Hs]%andb_true_iff. f_equal. by apply IH. Qed.

Lemma ParseNamed_entry name : name <> [] ->
  ParseNamed name = Default \/ exists e, e ∈ kNameTable /\ e.1 = ToLower name /\ ParseNamed name = e.2.
Proof.
  unfold ParseNamed. destruct name as [|c s]; [done|]. intros _. destruct (List.find _ _) as [e|] eqn:Hf; [right|by left].
  apply List.find_some in Hf as [Hin Hn%bool_decide_eq_true]. exists e. split; [by apply list_elem_of_In|done].
Qed.

(** Every color of the table is a single escape byte that the palette has. *)
Lemma table_in_palette : forall e, e ∈ kNameTable -> (e.2 ∈ map snd Palette) /\ Strip e.2 = [] /\ length e.2 = 1%nat.
Proof.
  assert (Forall (fun e => bool_decide (e.2 ∈ map snd Palette /\ Strip e.2 = [] /\ length e.2 = 1%nat)) kNameTable) as H.
  { apply (bool_decide_unpack _). by vm_compute. }
  rewrite Forall_forall in H. intros e He. by apply (bool_decide_unpack _), H.
Qed.

(** Colors by name and lines without them. Any name gives one escape byte, one of the palette's; each palette name gives its own,
    whatever its case, and no two the same; a chat line starts with a color of its own or with a space before it, so none inherits the
    line before; and stripping takes every color and nothing else, the prefix of a chat line included. *)
Theorem chat_colors :
  (forall name, ParseNamed name ∈ map snd Palette) /\
  (forall name e, e ∈ Palette -> ToLower name = e.1 -> ParseNamed name = e.2) /\
  NoDup (map snd Palette) /\
  (forall name rest, Strip (ParseNamed name ++ rest) = Strip rest) /\
  (forall message, exists c rest, EnsureColorPrefix message = c :: rest /\ (is_color c = true \/ c = " "%char /\ exists d r, rest = d :: r /\ is_color d = true)) /\
  (forall message, Strip (EnsureColorPrefix message) = Strip message \/ Strip (EnsureColorPrefix message) = " "%char :: Strip message) /\
  (forall message, Strip (Strip message) = Strip message).
Proof.
  assert (forall name, ParseNamed name = Default \/ exists e, e ∈ kNameTable /\ ParseNamed name = e.2) as Hp.
  { intros [|c s]; [by left|]. destruct (ParseNamed_entry (c :: s)) as [?|(e & He & _ & ->)]; [done|by left|right; by exists e]. }
  split; [|split; [|split; [|split; [|split; [|split]]]]].
  - intros name. destruct (Hp name) as [->|(e & He & ->)]; [by left|]. by apply table_in_palette.
  - intros name e He Hn. assert (Forall (fun e => bool_decide (e.1 <> [] /\ List.find (fun t => bool_decide (t.1 = e.1)) kNameTable = Some e)) Palette) as H
      by (apply (bool_decide_unpack _); by vm_compute).
    rewrite Forall_forall in H. specialize (H e He). apply (bool_decide_unpack _) in H as [Hne Hf]. unfold ParseNamed.
    destruct name as [|c s]; [by rewrite <- Hn in Hne|]. by rewrite Hn, Hf.
  - apply (bool_decide_unpack _). by vm_compute.
  - intros name rest. rewrite Strip_app. destruct (Hp name) as [->|(e & He & ->)]; [done|]. by rewrite (proj1 (proj2 (table_in_palette e He))).
  - intros [|c s]; [by exists (chr 1), []; split; [|left]|]. cbn. destruct (is_color c) eqn:Hc.
    + exists " "%char, (c :: s). split; [done|]. right. split; [done|]. by exists c, s.
    + exists (chr 1), (c :: s). split; [done|]. by left.
  - intros [|c s]; [by left|]. unfold EnsureColorPrefix. rewrite Strip_app. destruct (is_color c); [by right|by left].
  - intros message. apply Strip_id, Strip_clean.
Qed.

Lemma chat_colors_witness : ParseNamed $"GrEy" = color 8 /\ ParseNamed $"Gray" = color 8 /\ Strip (ParseNamed $"nothing" ++ $"hi") = $"hi".
Proof.
  destruct chat_colors as (_ & H & _ & Hs & _). split; [by vm_compute|]. split; [|by rewrite Hs].
  apply (H $"Gray" ($"gray", color 8)); [|done]. by repeat constructor.
Defined.

(** ** What is sent *)

(** Runs in which each message and each event is given back as soon as it was used. *)
Inductive tidy {F} : list (act F) -> Prop :=
| tidy_nil : tidy []
| tidy_app a b : tidy a -> tidy b -> tidy (a ++ b)
| tidy_post slots message : tidy [Allocated; Posted slots message; Deallocated]
| tidy_abandon : tidy [Allocated; Deallocated]
| tidy_event slot event : IsValidSlot slot = true -> userid event = slot -> tidy [Created; ToListener slot event; Freed]
| tidy_fire event : tidy [Created; FiredToAll event].

Section Sending.
  Context {F : Type} (GameEventSystem NetworkMessages : bool) (FindNetworkMessagePartial : text -> bool) (AllocateMessage ToPB : bool)
    (GameEventManager creates : bool) (GetClientLegacyListener : Z -> bool) (HUD_PRINTTALK HUD_PRINTCENTER HUD_PRINTALERT : Z)
    (languages : LanguageTable) (translations : Translations).

Notation post := (PostUserMessage (F := F) GameEventSystem NetworkMessages FindNetworkMessagePartial AllocateMessage).
Notation send_html := (SendCenterHtml (F := F) GameEventManager creates GetClientLegacyListener).
Notation run := (run_calls (F := F) GameEventSystem NetworkMessages FindNetworkMessagePartial AllocateMessage ToPB GameEventManager creates GetClientLegacyListener
  HUD_PRINTTALK HUD_PRINTCENTER HUD_PRINTALERT languages translations).

Lemma tidy_post_user cached name filter fill : tidy (F := F) (post cached name filter fill).2.
Proof.
  unfold PostUserMessage. destruct (_ || _); [constructor|]. cbn zeta. destruct (negb (cached || _)); [constructor|].
  destruct (negb AllocateMessage); [constructor|]. destruct fill; constructor.
Qed.

Lemma tidy_text filter destination message m : tidy (F := F) (PostTextMsg GameEventSystem NetworkMessages FindNetworkMessagePartial AllocateMessage ToPB filter destination message m).1.
Proof.
  unfold PostTextMsg. pose proof (tidy_post_user (_textMsgInternal m) $"TextMsg" filter (if ToPB then Some (TextMsg destination (c_str message)) else None)) as H.
  by destruct (post _ _ _ _) as [[? ?] ?].
Qed.

Lemma tidy_html slot html : tidy (F := F) (send_html slot html).
Proof.
  unfold SendCenterHtml. destruct (IsValidSlot slot) eqn:Hs; [|rewrite orb_true_r; constructor]. destruct GameEventManager; [|constructor].
  destruct creates; [|constructor]. cbn. destruct (GetClientLegacyListener slot); [by apply tidy_event|constructor].
Qed.

Lemma tidy_send slot message kind m :
  tidy (F := F) (Send (F := F) GameEventSystem NetworkMessages FindNetworkMessagePartial AllocateMessage ToPB GameEventManager creates GetClientLegacyListener
    HUD_PRINTTALK HUD_PRINTCENTER HUD_PRINTALERT slot message kind m).1.
Proof.
  unfold Send, SendTextMsg. destruct kind; try apply tidy_html; destruct (IsValidSlot slot); cbn [negb]; try constructor; apply tidy_text.
Qed.

Lemma tidy_each (send : Z -> Messages -> list (act F) * Messages) slots m :
  (forall slot m, tidy (send slot m).1) -> tidy (each_slot GetClientLegacyListener send slots m).1.
Proof.
  intros Hs. revert m; induction slots as [|slot slots IH]; intros m; [constructor|]. cbn [each_slot].
  assert (tidy (F := F) (if GetClientLegacyListener slot then send slot m else ([], m)).1) as H by (destruct (GetClientLegacyListener slot); [apply Hs|constructor]).
  destruct (if GetClientLegacyListener slot then _ else _) as [o m']. specialize (IH m'). destruct (each_slot _ _ _ _) as [o' m'']. by apply tidy_app.
Qed.

Lemma tidy_stop slot p : tidy (F := F) (Stop (F := F) GameEventManager creates GetClientLegacyListener slot p).1.
Proof. unfold Stop. destruct (mjoin _); [apply tidy_html|constructor]. Qed.

Lemma tidy_call c st : tidy (F := F) (run [c] st).1.
Proof.
  cbn [run_calls]. assert (tidy (F := F) (run_call (F := F) GameEventSystem NetworkMessages FindNetworkMessagePartial AllocateMessage ToPB GameEventManager creates
    GetClientLegacyListener HUD_PRINTTALK HUD_PRINTCENTER HUD_PRINTALERT languages translations c st).1) as H.
  { destruct c; cbn [run_call fst]; try apply tidy_send; try constructor.
    - unfold Broadcast. destruct kind; try apply tidy_text. apply tidy_each. intros. apply tidy_html.
    - apply tidy_each. intros. apply tidy_send.
    - unfold Shake. match goal with |- context [post ?a ?b ?c ?d] => pose proof (tidy_post_user a b c d) as H; by destruct (post a b c d) as [[? ?] ?] end.
    - unfold Show. destruct render; [|constructor]. destruct (_ || _); [constructor|]. pose proof (tidy_stop slot st.2) as H.
      destruct (Stop _ _ _ _ _) as [o p]. apply tidy_app; [exact H|apply tidy_html].
    - apply tidy_stop.
    - unfold StopAll. generalize all_slots, st.2. induction l as [|s l IH]; intros p; [constructor|]. cbn [stop_each]. pose proof (tidy_stop s p) as H.
      destruct (Stop _ _ _ _ _) as [o p']. specialize (IH p'). destruct (stop_each _ _ _ _ _) as [o' p'']. by apply tidy_app.
    - unfold Tick. destruct (mjoin _) as [[? ?]|]; [apply tidy_html|constructor]. }
  destruct (run_call _ _ _ _ _ _ _ _ _ _ _ _ _ c st) as [o st']. cbn in *. by rewrite app_nil_r.
Qed.

Lemma tidy_run cs st : tidy (F := F) (run cs st).1.
Proof.
  revert st; induction cs as [|c cs IH]; intros st; [constructor|]. pose proof (tidy_call c st) as H. cbn [run_calls] in *.
  destruct (run_call _ _ _ _ _ _ _ _ _ _ _ _ _ c st) as [o st']. specialize (IH st'). destruct (run_calls _ _ _ _ _ _ _ _ _ _ _ _ _ cs st') as [o' st''].
  cbn in *. rewrite app_nil_r in H. by apply tidy_app.
Qed.

End Sending.



(** Without the listeners' signature a broadcast line still reaches everyone, and a translated one nobody. *)
Lemma keyed_broadcast_silent FindNetworkMessagePartial key tokens kind m languages translations :
  (BroadcastKey (F := unit) true true FindNetworkMessagePartial true true true true (fun _ => false) 3 4 5 languages translations key tokens kind m).1 = [].
Proof. unfold BroadcastKey. revert m. induction all_slots as [|slot slots IH]; intros m; [done|]. cbn [each_slot]. specialize (IH m). by destruct (each_slot _ _ _ m). Qed.
