(* ===== verification/PlayerCommands.v ===== *)
(** * Player commands: [src/Host/Input/PlayerCommands.cpp], [include/VoltMod/Engine/PlayerInput.hpp], [src/Hooks/Movement.cpp]

    The host decodes each command once, for every plugin that listens; a plugin may rewrite a copy of its own before its handlers see
    it. The engine runs the command between the two calls, and anything may be subscribed or dropped meanwhile. *)

From S2P Require Import Prelude Identity.

(** ** The engine's command *)

Section PlayerInput.
  (** [float] is only passed on; [fzero] is [0.0f]. *)
  Context {F : Type} (fzero : F).

(** The protobuf's messages, a field that may be absent as an option. *)
Record CSubtickMoveStep := mkStep { button : Z; pressed : bool; when : F; pitch_delta : F; yaw_delta : F }.
Record Angles := mkAngles { x : F; y : F; z : F }.
Record CSGOInputHistoryEntryPB := mkEntry { target_ent_index : Z; view_angles : option Angles }.
Record CSGOUserCmdPB := mkUserCmd {
  client_tick : Z; legacy_command_number : Z; viewangles : option Angles; forwardmove : F; leftmove : F; buttons_pb : option (Z * Z);
  mousedx : Z; mousedy : Z; attack1_start_history_index : Z; attack2_start_history_index : Z;
  subtick_moves : list CSubtickMoveStep; input_history : list CSGOInputHistoryEntryPB }.

(** [CUserCmd]: the payload and the wrapper's own number. *)
Record UserCmd := mkCmd { payload : CSGOUserCmdPB; cmdNum : Z }.

(** ** [PlayerInput] *)

Record SubtickMove := mkMove { Button : Z; Pressed : bool; When : F; PitchDelta : F; YawDelta : F }.
Record InputHistorySample := mkSample { s_HasViewAngles : bool; s_ViewPitch : F; s_ViewYaw : F; TargetEntIndex : Z }.
Definition no_move : SubtickMove := mkMove 0 false fzero fzero fzero.
Definition no_sample : InputHistorySample := mkSample false fzero fzero (-1).

Definition MaxSubtickMoves : nat := 12.
Definition MaxInputHistory : nat := 16.

Record PlayerInput := mkInput {
  Valid : bool; ClientTick : Z; CommandNumber : Z; HasViewAngles : bool; ViewPitch : F; ViewYaw : F; ViewRoll : F; ForwardMove : F; LeftMove : F;
  ButtonsHeld : Z; ButtonsChanged : Z; MouseDx : Z; MouseDy : Z; Attack1StartHistoryIndex : Z; Attack2StartHistoryIndex : Z;
  SubtickMoveCount : nat; SubtickMoves : list SubtickMove; InputHistoryCount : nat; InputHistorySent : nat; InputHistorySamples : list InputHistorySample }.

Definition PlayerInput_new : PlayerInput :=
  mkInput false 0 0 false fzero fzero fzero fzero fzero 0 0 0 0 (-1) (-1) 0 (replicate MaxSubtickMoves no_move) 0 0 (replicate MaxInputHistory no_sample).

Definition Subticks (p : PlayerInput) : list SubtickMove := take (SubtickMoveCount p) (SubtickMoves p).
Definition InputHistory (p : PlayerInput) : list InputHistorySample := take (InputHistoryCount p) (InputHistorySamples p).

Definition SampleAt (p : PlayerInput) (index : Z) : option InputHistorySample :=
  if (index <? 0) || (Z.of_nat (InputHistoryCount p) <=? index) then None else InputHistorySamples p !! Z.to_nat index.

(** ** [Decode] *)

Definition move_of (m : CSubtickMoveStep) : SubtickMove := mkMove (button m) (pressed m) (when m) (pitch_delta m) (yaw_delta m).
Definition sample_of (e : CSGOInputHistoryEntryPB) : InputHistorySample :=
  match view_angles e with Some a => mkSample true (x a) (y a) (target_ent_index e) | None => mkSample false fzero fzero (target_ent_index e) end.

(** [for (int i = 0; i < count; ++i) array[i] = f(from(i))]. *)
Definition copy_in {A B} (f : A -> B) (from : list A) (count : nat) (array : list B) : list B :=
  fold_left (fun array i => match from !! i with Some a => <[i := f a]> array | None => array end) (seq 0 count) array.

(** [numbered] says whether the wrapper's number has an offset. *)
Definition Decode (numbered : bool) (userCmd : option UserCmd) : PlayerInput :=
  match userCmd with
  | None => PlayerInput_new
  | Some cmd =>
      let pb := payload cmd in
      let moves := Nat.min (length (subtick_moves pb)) MaxSubtickMoves in
      let sent := length (input_history pb) in
      let samples := Nat.min sent MaxInputHistory in
      mkInput true (client_tick pb) (if numbered then cmdNum cmd else legacy_command_number pb)
        (match viewangles pb with Some _ => true | None => false end)
        (match viewangles pb with Some a => x a | None => fzero end) (match viewangles pb with Some a => y a | None => fzero end)
        (match viewangles pb with Some a => z a | None => fzero end)
        (forwardmove pb) (leftmove pb) (match buttons_pb pb with Some b => b.1 | None => 0 end) (match buttons_pb pb with Some b => b.2 | None => 0 end)
        (mousedx pb) (mousedy pb) (attack1_start_history_index pb) (attack2_start_history_index pb)
        moves (copy_in move_of (subtick_moves pb) moves (replicate MaxSubtickMoves no_move))
        samples sent (copy_in sample_of (input_history pb) samples (replicate MaxInputHistory no_sample))
  end.

(** [OwnerSlot]: the pawn that owns the services and its controller's handle; [entry_index] is the SDK's. *)
Definition OwnerSlot (entry_index : Z -> Z) (controller_of_owner : option Z) : Z :=
  match controller_of_owner with
  | None => -1
  | Some handle => let slot := entry_index handle - 1 in if IsValidSlot slot then slot else -1
  end.

End PlayerInput.
Arguments CSGOUserCmdPB : clear implicits.
Arguments UserCmd : clear implicits.
Arguments PlayerInput : clear implicits.

(** ** Every plugin's [Movement], and the host's hook *)

Section Movement.
  Context {F : Type}.
  Notation PlayerInput := (PlayerInput F).

(** [Rewrite]'s handlers, and whether [Before] and [After] have one; the plugin is connected to the host while any of the three has. *)
Record Movement := mkMovement { Rewrite : list (Z -> PlayerInput -> PlayerInput); has_Before : bool; has_After : bool; _rewritten : option PlayerInput }.
Definition Movement_new : Movement := mkMovement [] false false None.
Definition connected (m : Movement) : bool := negb (bool_decide (length (Rewrite m) = 0%nat)) || has_Before m || has_After m.

(** What a plugin's handlers are given. *)
Inductive seen := SawBefore (plugin : nat) (slot : Z) (input : PlayerInput) | SawAfter (plugin : nat) (slot : Z) (input : PlayerInput).

Definition BeforeCommand (plugin : nat) (slot : Z) (input : PlayerInput) (m : Movement) : list seen * Movement :=
  let saw input := if has_Before m then [SawBefore plugin slot input] else [] in
  match Rewrite m with
  | [] => (saw input, mkMovement (Rewrite m) (has_Before m) (has_After m) None)
  | hs => let input := fold_left (fun i h => h slot i) hs input in (saw input, mkMovement (Rewrite m) (has_Before m) (has_After m) (Some input))
  end.

Definition AfterCommand (plugin : nat) (slot : Z) (input : PlayerInput) (m : Movement) : list seen :=
  if has_After m then [SawAfter plugin slot (default input (_rewritten m))] else [].

(** [PlayerCommands] and the plugins. The host tells them in the order they connected; none sees another's turn, and they are kept in one order. *)
Record Host := mkHost { _input : PlayerInput; _slot : Z; movements : list Movement }.

(** [HasCommandListeners], [RaisePlayerCommand], [RaisePlayerCommandDone]. *)
Definition HasCommandListeners (ms : list Movement) : bool := existsb connected ms.

Fixpoint RaisePlayerCommand (plugin : nat) (slot : Z) (input : PlayerInput) (ms : list Movement) : list seen * list Movement :=
  match ms with
  | [] => ([], [])
  | m :: ms =>
      let '(o, m) := if connected m then BeforeCommand plugin slot input m else ([], m) in
      let '(o', ms) := RaisePlayerCommand (S plugin) slot input ms in
      (o ++ o', m :: ms)
  end.

Fixpoint RaisePlayerCommandDone (plugin : nat) (slot : Z) (input : PlayerInput) (ms : list Movement) : list seen :=
  match ms with
  | [] => []
  | m :: ms => (if connected m then AfterCommand plugin slot input m else []) ++ RaisePlayerCommandDone (S plugin) slot input ms
  end.

(** [Before], given the command's player and its decode; [After]. *)
Definition Before (owner : Z) (decoded : PlayerInput) (h : Host) : list seen * Host :=
  let slot := if HasCommandListeners (movements h) then owner else -1 in
  if slot <? 0 then ([], mkHost (_input h) slot (movements h))
  else let '(o, ms) := RaisePlayerCommand 0 slot decoded (movements h) in (o, mkHost decoded slot ms).

Definition After (h : Host) : list seen := if 0 <=? _slot h then RaisePlayerCommandDone 0 (_slot h) (_input h) (movements h) else [].

(** A plugin's handlers come and go; what it has rewritten stays. *)
Definition subscribe (plugin : nat) (hs : list (Z -> PlayerInput -> PlayerInput)) (before after : bool) (h : Host) : Host :=
  mkHost (_input h) (_slot h) (alter (fun m => mkMovement hs before after (_rewritten m)) plugin (movements h)).

End Movement.
Arguments Movement : clear implicits.
Arguments Host : clear implicits.
Arguments seen : clear implicits.

(** * Theorems *)

(** ** Decoding *)

Lemma copy_in_spec {A B} (f : A -> B) from n array :
  (n <= length from)%nat -> (n <= length array)%nat -> copy_in f from n array = (f <$> take n from) ++ drop n array.
Proof.
  induction n as [|n IH]; intros Hf Ha; [done|]. unfold copy_in in *. rewrite seq_S, fold_left_app, IH by lia. cbn.
  destruct (lookup_lt_is_Some_2 from n) as [a Hn]; [lia|]. rewrite Hn. destruct (lookup_lt_is_Some_2 array n) as [b Hb]; [lia|].
  rewrite (take_S_r from n a Hn), fmap_app, <- app_assoc. rewrite insert_app_r_alt by (rewrite length_fmap, length_take; lia).
  f_equal. rewrite length_fmap, length_take_le by lia. rewrite Nat.sub_diag. rewrite (drop_S array b n Hb). done.
Qed.


(** ** Before and after *)

Section Paired.
  Context {F : Type}.
  Notation PlayerInput := (PlayerInput F).

(** A plugin's own copy of a command. *)
Definition own_copy (m : Movement F) (slot : Z) (input : PlayerInput) : PlayerInput := fold_left (fun i h => h slot i) (Rewrite m) input.

Lemma BeforeCommand_own plugin slot input m :
  (BeforeCommand plugin slot input m).1 = (if has_Before m then [SawBefore plugin slot (own_copy m slot input)] else []) /\
  default input (_rewritten (BeforeCommand plugin slot input m).2) = own_copy m slot input.
Proof. unfold BeforeCommand, own_copy. by destruct (Rewrite m). Qed.

Lemma RaisePlayerCommand_each k slot input ms :
  (RaisePlayerCommand k slot input ms).1 =
    concat (imap (fun i m => if connected m && has_Before m then [SawBefore (k + i) slot (own_copy m slot input)] else []) ms) /\
  forall i m, ms !! i = Some m ->
    (RaisePlayerCommand k slot input ms).2 !! i = Some (if connected m then (BeforeCommand (k + i) slot input m).2 else m).
Proof.
  revert k; induction ms as [|m ms IH]; intros k; [done|]. cbn [RaisePlayerCommand]. destruct (IH (S k)) as [IH1 IH2]. clear IH.
  destruct (if connected m then BeforeCommand k slot input m else ([], m)) as [o m'] eqn:Hb.
  destruct (RaisePlayerCommand (S k) slot input ms) as [o' ms']. cbn [fst snd] in *. split.
  - rewrite imap_cons. cbn [concat]. rewrite Nat.add_0_r. f_equal.
    + pose proof (proj1 (BeforeCommand_own k slot input m)) as H. destruct (connected m); cbn; [by rewrite <- H, Hb|by injection Hb as <- <-].
    + rewrite IH1. f_equal. apply imap_ext. intros i m0 _. cbn. by rewrite Nat.add_succ_r.
  - intros [|i] m0; cbn.
    + intros [= <-]. rewrite Nat.add_0_r. destruct (connected m); [by rewrite Hb|by injection Hb as <- <-].
    + intros Hi. rewrite Nat.add_succ_r. exact (IH2 i m0 Hi).
Qed.

Lemma Done_in k slot input (ms : list (Movement F)) e : e ∈ RaisePlayerCommandDone k slot input ms ->
  exists i m, ms !! i = Some m /\ connected m = true /\ has_After m = true /\ e = SawAfter (k + i) slot (default input (_rewritten m)).
Proof.
  revert k; induction ms as [|m ms IH]; intros k; cbn; [by intros ?%elem_of_nil|]. intros [H|H]%elem_of_app.
  - exists 0%nat, m. rewrite Nat.add_0_r. destruct (connected m); [|by apply elem_of_nil in H]. unfold AfterCommand in H.
    destruct (has_After m); [|by apply elem_of_nil in H]. by apply list_elem_of_singleton in H as ->.
  - destruct (IH _ H) as (i & m' & Hi & Hc & Ha & ->). exists (S i), m'. by rewrite Nat.add_succ_r.
Qed.

(** Changes of subscriptions alone. *)
Definition resubscribed (changes : list (nat * (list (Z -> PlayerInput -> PlayerInput) * bool * bool))) (h : Host F) : Host F :=
  fold_left (fun h c => subscribe c.1 c.2.1.1 c.2.1.2 c.2.2 h) changes h.

Lemma resubscribed_kept changes h :
  _slot (resubscribed changes h) = _slot h /\ _input (resubscribed changes h) = _input h /\
  forall i m, movements (resubscribed changes h) !! i = Some m -> exists m0, movements h !! i = Some m0 /\ _rewritten m = _rewritten m0.
Proof.
  revert h; induction changes as [|c cs IH]; intros h; cbn [resubscribed fold_left]; [by split_and!; eauto|].
  destruct (IH (subscribe c.1 c.2.1.1 c.2.1.2 c.2.2 h)) as (H1 & H2 & H3). split_and!; [exact H1|exact H2|]. intros i m Hi.
  destruct (H3 i m Hi) as (m0 & Hm0 & Hr). unfold subscribe in Hm0. cbn in Hm0. destruct (decide (i = c.1)) as [->|Hne].
  - rewrite list_lookup_alter_eq in Hm0. destruct (movements h !! c.1) as [m1|]; [|done]. injection Hm0 as <-. exists m1. split; [done|]. by rewrite Hr.
  - rewrite list_lookup_alter_ne in Hm0 by done. by exists m0.
Qed.

End Paired.


(** A rewrite of the aim, an observer that watches before and after, and a plugin that joins while the engine runs the command. *)
Definition aim_up : Z -> PlayerInput Z -> PlayerInput Z := fun _ i =>
  mkInput (Valid i) (ClientTick i) (CommandNumber i) (HasViewAngles i) 89 (ViewYaw i) (ViewRoll i) (ForwardMove i) (LeftMove i) (ButtonsHeld i) (ButtonsChanged i)
    (MouseDx i) (MouseDy i) (Attack1StartHistoryIndex i) (Attack2StartHistoryIndex i) (SubtickMoveCount i) (SubtickMoves i) (InputHistoryCount i)
    (InputHistorySent i) (InputHistorySamples i).
Definition sample_host : Host Z := mkHost (PlayerInput_new 0) (-1) [mkMovement [aim_up] true true None; mkMovement [] true true None; Movement_new].
Definition sample_input : PlayerInput Z := PlayerInput_new 0.


(** A plugin that was not connected when a command began, and had rewritten an earlier one, is given the earlier one after it: the
    second plugin keeps the host listening, and the first comes back while the engine runs player 5's command. *)
Definition first_input : PlayerInput Z := aim_up 3 (PlayerInput_new 0).
Definition returning_host : Host Z :=
  let h := (Before 3 sample_input (mkHost (PlayerInput_new 0) (-1) [mkMovement [aim_up] false true None; mkMovement [] true false None])).2 in
  subscribe 0 [] false false h.
Lemma stale_rewrite :
  After (resubscribed [(0%nat, ([], false, true))] (Before 5 sample_input returning_host).2) = [SawAfter 0 5 first_input] /\ first_input <> sample_input.
Proof. split; [by vm_compute|]. intros [= ?]. Qed.
