(* ===== verification/EngineHooks.v ===== *)
(** * The engine's calls: [src/Host/EngineHooks.cpp]

    What the host does in each call of the engine it hooks: its own services first or last, and the plugins told through
    [PluginHost.v]'s registry. *)

From S2P Require Import Prelude Text Identity Translations Services Workshop HostCallbacks PluginHost.

(** The engine's strings may be null. *)
Definition Text_ (s : option text) : text := default [] s.

(** [static_cast<int64_t>(uint64_t)]. *)
Definition to_int64 (z : Z) : Z := if z <=? int64_max then z else z - 18446744073709551616.

(** A call of the engine, with what it passes; [address] of [ClientPutInServer] is what the net channel says, none for a bot. *)
Inductive engine_call :=
| GameFrame
| StartupServer (mapName : option text)
| ClientConnect (slot : Z) (name : option text) (xuid : Z)
| OnClientConnected (slot : Z) (name : option text) (xuid : Z) (address : option text)
| ClientPutInServer (slot : Z) (name : option text) (xuid : Z) (address : option text)
| ClientDisconnect (slot xuid : Z)
| ClientFullyConnect (slot : Z)
| ClientSettingsChanged (slot : Z)
| DispatchConCommand (name args : option text) (slot : Z)
| ClientCommand (slot : Z) (name args : option text)
| CheckTransmit (infoList infoCount : Z)
| BuildGameSessionManifest (manifest : option Z).

(** What the hook says to the engine: go on, keep the command, or refuse the client with a reason. *)
Inductive verdict := Through | Consumed | Refused (reason : text).

Section EngineHooks.
  Context {A : Type} `{AddonHost A}.
  Notation PluginRegistry := (PluginRegistry (A := A)).
  Context (behaviour : nat -> Z -> Raised -> PluginRegistry -> plugin_program) (fuel : nat).

(** The callbacks the host gives its hooks: what its services do, which may be to load a plugin. *)
Record HostServices := mkServices {
  beforeFrame : PluginRegistry -> outcome PluginRegistry; beforeServerStartup : PluginRegistry -> outcome PluginRegistry;
  beforeClientConnected : Z -> PluginRegistry -> outcome PluginRegistry; afterClientDisconnected : Z -> PluginRegistry -> outcome PluginRegistry }.

Context (services : HostServices).

(** The registry, and what was raised. *)
Notation state := (list Raised * PluginRegistry)%type.
Notation raise := (Raise behaviour fuel).

Definition tell (r : Raised) (st : state) : outcome state := run! reg := Raise behaviour (S fuel) r st.2 in Returns (st.1 ++ [r], reg).
Definition serve (f : PluginRegistry -> outcome PluginRegistry) (st : state) : outcome state := run! reg := f st.2 in Returns (st.1, reg).

Definition ConnectClient (slot xuid : Z) (name address : text) (st : state) : outcome state :=
  run! st := serve (beforeClientConnected services (to_int64 xuid)) st in
  tell (RaisedClientConnected slot (to_int64 xuid) name address) st.

Definition disconnect_slot (st : state) (slot : Z) : outcome state := if IsConnected slot st.2 then tell (RaisedClientDisconnected slot) st else Returns st.
Definition DisconnectEveryone (st : state) : outcome state := outcome_fold disconnect_slot all_slots st.

(** [RunCommand]: [ArgS] is the line after the name. *)
Definition RunCommand (name args : text) (slot : Z) (st : state) : outcome (verdict * state) :=
  run! (consumed, reg) := RaiseConsoleCommand behaviour raise name args slot st.2 in
  Returns (if consumed : bool then Consumed else Through, (st.1 ++ [RaisedConsoleCommand name args slot], reg)).

Definition AdmitClient (slot xuid : Z) (name : text) (st : state) : outcome (verdict * state) :=
  run! (reason, reg) := RaiseClientConnecting behaviour raise slot (to_int64 xuid) name st.2 in
  Returns (match reason with [] => Through | _ => Refused reason end, (st.1 ++ [RaisedClientConnecting slot (to_int64 xuid) name], reg)).

Definition through (m : outcome state) : outcome (verdict * state) := run! st := m in Returns (Through, st).

Definition engine_calls (c : engine_call) (st : state) : outcome (verdict * state) :=
  match c with
  | GameFrame => through (run! st := serve (beforeFrame services) st in tell RaisedFrame st)
  | StartupServer mapName =>
      through (run! st := serve (beforeServerStartup services) st in
               run! st := tell (RaisedServerStartup (Text_ mapName)) st in
               DisconnectEveryone st)
  | ClientConnect slot name xuid => AdmitClient slot xuid (Text_ name) st
  | OnClientConnected slot name xuid address => through (ConnectClient slot xuid (Text_ name) (Text_ address) st)
  | ClientPutInServer slot name xuid address =>
      if IsValidSlot slot && negb (IsConnected slot st.2) then through (ConnectClient slot xuid (Text_ name) (Text_ address) st) else Returns (Through, st)
  | ClientDisconnect slot xuid =>
      through (run! st := tell (RaisedClientDisconnected slot) st in serve (afterClientDisconnected services (to_int64 xuid)) st)
  | ClientFullyConnect slot => through (tell (RaisedClientFullyConnected slot) st)
  | ClientSettingsChanged slot => through (tell (RaisedClientSettingsChanged slot) st)
  | DispatchConCommand name args slot => RunCommand (Text_ name) (Text_ args) slot st
  | ClientCommand slot name args => RunCommand (Text_ name) (Text_ args) slot st
  | CheckTransmit infoList infoCount => through (tell (RaisedCheckTransmit infoList infoCount) st)
  | BuildGameSessionManifest manifest =>
      match manifest with Some m => through (tell (RaisedBuildGameSessionManifest m) st) | None => Returns (Through, st) end
  end.

Definition engine_step (st : state) (c : engine_call) : outcome state := run! (_, st) := engine_calls c st in Returns st.
Definition run_engine (cs : list engine_call) (st : state) : outcome state := outcome_fold engine_step cs st.

End EngineHooks.

(** * Theorems *)

(** ** What the plugins are told, from the engine's calls alone *)

(** Who is connected after a call, and what is raised in it, given who was. *)
Definition joined (c : engine_call) (on : gset Z) : gset Z :=
  match c with
  | StartupServer _ => ∅
  | OnClientConnected slot _ _ _ | ClientPutInServer slot _ _ _ => if IsValidSlot slot then {[slot]} ∪ on else on
  | ClientDisconnect slot _ => on ∖ {[slot]}
  | _ => on
  end.

Definition said (c : engine_call) (on : gset Z) : list Raised :=
  match c with
  | GameFrame => [RaisedFrame]
  | StartupServer mapName => RaisedServerStartup (Text_ mapName) :: map RaisedClientDisconnected (List.filter (fun slot => bool_decide (slot ∈ on)) all_slots)
  | ClientConnect slot name xuid => [RaisedClientConnecting slot (to_int64 xuid) (Text_ name)]
  | OnClientConnected slot name xuid address => [RaisedClientConnected slot (to_int64 xuid) (Text_ name) (Text_ address)]
  | ClientPutInServer slot name xuid address =>
      if IsValidSlot slot && negb (bool_decide (slot ∈ on)) then [RaisedClientConnected slot (to_int64 xuid) (Text_ name) (Text_ address)] else []
  | ClientDisconnect slot _ => [RaisedClientDisconnected slot]
  | ClientFullyConnect slot => [RaisedClientFullyConnected slot]
  | ClientSettingsChanged slot => [RaisedClientSettingsChanged slot]
  | DispatchConCommand name args slot | ClientCommand slot name args => [RaisedConsoleCommand (Text_ name) (Text_ args) slot]
  | CheckTransmit infoList infoCount => [RaisedCheckTransmit infoList infoCount]
  | BuildGameSessionManifest manifest => match manifest with Some m => [RaisedBuildGameSessionManifest m] | None => [] end
  end.

Fixpoint all_said (cs : list engine_call) (on : gset Z) : list Raised :=
  match cs with [] => [] | c :: cs => said c on ++ all_said cs (joined c on) end.

(** One slot's connects and disconnects: a connect needs the slot free. *)
Fixpoint alternates (slot : Z) (on : bool) (l : list Raised) : bool :=
  match l with
  | [] => true
  | RaisedClientConnected s _ _ _ :: l => if s =? slot then negb on && alternates slot true l else alternates slot on l
  | RaisedClientDisconnected s :: l => alternates slot (if s =? slot then false else on) l
  | _ :: l => alternates slot on l
  end.

(** A slot's state after a raised event. *)
Definition turn (slot : Z) (on : bool) (r : Raised) : bool :=
  match r with
  | RaisedClientConnected s _ _ _ => if s =? slot then true else on
  | RaisedClientDisconnected s => if s =? slot then false else on
  | _ => on
  end.

(** The engine announces a new client only in a slot it has freed. *)
Fixpoint announced_free (cs : list engine_call) (on : gset Z) : Prop :=
  match cs with
  | [] => True
  | c :: cs => (forall slot name xuid address, c = OnClientConnected slot name xuid address -> slot ∉ on) /\ announced_free cs (joined c on)
  end.

Lemma alternates_app slot on l1 l2 :
  alternates slot on (l1 ++ l2) =
  alternates slot on l1 && alternates slot (fold_left (turn slot) l1 on) l2.
Proof.
  revert on; induction l1 as [|r l1 IH]; intros on; [done|]. destruct r; cbn [app alternates fold_left turn]; try apply IH.
  destruct (slot0 =? slot); [|apply IH]. by rewrite IH, andb_assoc.
Qed.

Lemma alternates_disconnects slot on slots : alternates slot on (map RaisedClientDisconnected slots) = true.
Proof. revert on; induction slots as [|s slots IH]; intros on; [done|]. cbn. apply IH. Qed.

Lemma all_slots_valid slot : slot ∈ all_slots <-> IsValidSlot slot = true.
Proof.
  unfold all_slots, IsValidSlot, MaxPlayers. rewrite list_elem_of_fmap, andb_true_iff, Z.leb_le, Z.ltb_lt. split.
  - intros (n & -> & Hn%elem_of_seq). lia.
  - intros Hs. exists (Z.to_nat slot). rewrite elem_of_seq. lia.
Qed.

Lemma last_disconnect slot on slots :
  fold_left (turn slot) (map RaisedClientDisconnected slots) on =
  if bool_decide (slot ∈ slots) then false else on.
Proof.
  revert on; induction slots as [|s slots IH]; intros on; [done|]. cbn [map fold_left turn]. rewrite IH. destruct (Z.eqb_spec s slot) as [->|Hne].
  - rewrite (bool_decide_true (slot ∈ slot :: slots)) by by left. by destruct (bool_decide _).
  - assert (bool_decide (slot ∈ s :: slots) = bool_decide (slot ∈ slots)) as ->; [|done]. apply bool_decide_ext. rewrite elem_of_cons. naive_solver.
Qed.

(** Everyone of a list who was connected is disconnected. *)
Lemma all_disconnected slot (on : gset Z) slots : slot ∈ slots ->
  let gone := map RaisedClientDisconnected (List.filter (fun slot => bool_decide (slot ∈ on)) slots) in
  alternates slot (bool_decide (slot ∈ on)) gone = true /\ fold_left (turn slot) gone (bool_decide (slot ∈ on)) = false.
Proof.
  intros Hs. cbn zeta. rewrite alternates_disconnects, last_disconnect. split; [done|].
  destruct (decide (slot ∈ on)) as [Hin|Hin]; [|rewrite (bool_decide_false (slot ∈ on)) by done; by destruct (bool_decide _)].
  rewrite bool_decide_true; [done|]. apply list_elem_of_In, filter_In. by rewrite <- list_elem_of_In, bool_decide_eq_true.
Qed.

Lemma alternates_started slot on mapName l : alternates slot on (RaisedServerStartup mapName :: l) = alternates slot on l.
Proof. done. Qed.

Lemma turn_started slot on mapName l : fold_left (turn slot) (RaisedServerStartup mapName :: l) on = fold_left (turn slot) l on.
Proof. done. Qed.

Lemma said_startup slot mapName on : IsValidSlot slot = true ->
  alternates slot (bool_decide (slot ∈ on)) (said (StartupServer mapName) on) = true /\
  fold_left (turn slot) (said (StartupServer mapName) on) (bool_decide (slot ∈ on)) = bool_decide (slot ∈ joined (StartupServer mapName) on).
Proof.
  intros Hs. unfold said, joined. rewrite alternates_started, turn_started, (bool_decide_false (slot ∈ ∅)) by set_solver.
  by apply all_disconnected, all_slots_valid.
Qed.

(** A slot's turn of events in one call. *)
Lemma said_alternates slot c on : IsValidSlot slot = true -> (forall s name xuid address, c = OnClientConnected s name xuid address -> s ∉ on) ->
  alternates slot (bool_decide (slot ∈ on)) (said c on) = true /\
  fold_left (turn slot) (said c on) (bool_decide (slot ∈ on)) =
  bool_decide (slot ∈ joined c on).
Proof.
  intros Hs Hfree. destruct c; [|by apply said_startup|..]; cbn [said joined alternates fold_left turn]; try done.
  - specialize (Hfree _ _ _ _ eq_refl). destruct (Z.eqb_spec slot0 slot) as [->|Hne].
    + rewrite (bool_decide_false (slot ∈ on)) by done. rewrite Hs. rewrite bool_decide_true by set_solver. done.
    + split; [done|]. apply bool_decide_ext. destruct (IsValidSlot slot0); set_solver.
  - destruct (IsValidSlot slot0) eqn:Hs0; cbn [andb].
    + destruct (bool_decide (slot0 ∈ on)) eqn:Hon; [apply bool_decide_eq_true in Hon|apply bool_decide_eq_false in Hon]; cbn [negb alternates fold_left turn].
      * split; [done|]. apply bool_decide_ext. set_solver.
      * destruct (Z.eqb_spec slot0 slot) as [->|Hne].
        -- rewrite (bool_decide_false (slot ∈ on)) by done. rewrite bool_decide_true by set_solver. done.
        -- split; [done|]. apply bool_decide_ext. set_solver.
    + done.
  - split; [done|]. destruct (Z.eqb_spec slot0 slot) as [->|Hne]; [rewrite bool_decide_false by set_solver; done|]. apply bool_decide_ext. set_solver.
  - by destruct manifest.
Qed.

Lemma all_said_alternates slot cs on : IsValidSlot slot = true -> announced_free cs on -> alternates slot (bool_decide (slot ∈ on)) (all_said cs on) = true.
Proof.
  intros Hs. revert on; induction cs as [|c cs IH]; intros on Hf; [done|]. destruct Hf as [Hc Hf]. cbn [all_said].
  destruct (said_alternates slot c on Hs Hc) as [H1 H2]. rewrite alternates_app, H1, H2. cbn. by apply IH.
Qed.

(** ** The host does what was said *)

Section HooksFacts.
  Context {A : Type} `{AddonHost A}.
  Notation PluginRegistry := (PluginRegistry (A := A)).
  Context (behaviour : nat -> Z -> Raised -> PluginRegistry -> plugin_program) (fuel : nat) (services : HostServices (A := A)).

(** The plugins' code calls through the views of loaded plugins, and raises nothing while it is told something. *)
Definition quiet : Prop := forall r fn context reg, acts_within (loaded reg) (fun _ => False) (behaviour fn context r reg).

Definition keeps_clients (m : outcome PluginRegistry) (reg : PluginRegistry) : Prop :=
  exists reg', m = Returns reg' /\ host_ok reg' /\ Clients (shared reg') = Clients (shared reg).

(** What the host's services do, whatever it is, leaves a host that is right and the clients as they are. *)
Record services_ok : Prop := {
  so_frame reg : host_ok reg -> keeps_clients (beforeFrame services reg) reg;
  so_startup reg : host_ok reg -> keeps_clients (beforeServerStartup services reg) reg;
  so_connected steamId reg : host_ok reg -> keeps_clients (beforeClientConnected services steamId reg) reg;
  so_disconnected steamId reg : host_ok reg -> keeps_clients (afterClientDisconnected services steamId reg) reg }.

Lemma exec_act_clients raise owner act (reg reg' : PluginRegistry) z : (forall r, act <> ARaise r) ->
  exec_act raise owner act reg = Returns (z, reg') -> Clients (shared reg') = Clients (shared reg).
Proof.
  intros Hact. destruct act; cbn [exec_act]; unfold Subscribe, Unsubscribe, Publish, Unpublish, Context_RegisterCommand, Addons_Add, Addons_Remove, host_addon_remove.
  all: try (by destruct (Hact r)).
  all: destruct (context_of reg owner) as [p| |] eqn:Hp; cbn [outcome_bind]; try done.
  - destruct callback; intros [= <- <-]; done.
  - destruct (List.find _ _); intros [= <- <-]; done.
  - by intros [= <- <-].
  - by intros [= <- <-].
  - destruct (RegisterCommand _ _) as [ok view]. by intros [= <- <-].
  - destruct (RequiredAddons (shared reg)); [|by intros [= <- <-]]. destruct (addon_add _ _) as [[] host']; by intros [= <- <-].
  - destruct (existsb _ _); [|by intros [= <- <-]]. cbn [shared set_context]. destruct (RequiredAddons (shared reg)); [|done]. by intros [= <- <-].
  - by intros [= <- <-].
Qed.

Lemma run_program_clients raise owners p (reg reg' : PluginRegistry) x : acts_within owners (fun _ => False) p ->
  run_program raise p reg = Returns (x, reg') -> Clients (shared reg') = Clients (shared reg).
Proof.
  intros Hp. revert reg. induction Hp as [answer written|owner act k Hin Hact _ IH]; intros reg; cbn [run_program]; [by intros [= <- <-]|].
  destruct (exec_act raise owner act reg) as [[z reg1]| |] eqn:He; cbn [outcome_bind]; try done. intros Hr. rewrite (IH _ _ Hr).
  eapply exec_act_clients; [|exact He]. intros r ->. by apply (Hact r).
Qed.

Lemma call_plugin_clients raise r fn context (reg reg' : PluginRegistry) b : quiet ->
  call_plugin behaviour raise r fn context reg = Returns (b, reg') -> Clients (shared reg') = Clients (shared reg).
Proof.
  intros Hq. unfold call_plugin. destruct (run_program raise _ reg) as [[[answer written] reg1]| |] eqn:Hr; cbn [outcome_bind]; try done.
  apply (run_program_clients _ _ _ _ _ _ (Hq r fn context reg)) in Hr. destruct r; intros [= <- <-]; exact Hr.
Qed.

Lemma dispatch_clients raise r (reg reg' : PluginRegistry) b : quiet -> dispatch behaviour raise r reg = Returns (b, reg') -> Clients (shared reg') = Clients (shared reg).
Proof.
  intros Hq. unfold dispatch, List_Dispatch, Walk.
  assert (forall left i st st' b, walk_loop (get_list (event_of r)) (fun e => call_plugin behaviour raise r (Call e) (HostCallbacks.Context e)) left i st = Returns (b, st') ->
    Clients (shared st') = Clients (shared st)) as Hloop.
  { induction left as [|left IH]; intros i st st' b'; cbn [walk_loop]; [by intros [= <- <-]|]. destruct (_ !! i) as [e|]; [|done].
    destruct (Removed e); [apply IH|]. destruct (call_plugin _ _ _ _ _ st) as [[stopped st1]| |] eqn:Hc; cbn [outcome_bind]; try done.
    apply call_plugin_clients in Hc; [|done]. destruct stopped; [by intros [= <- <-]|]. intros Hl. by rewrite (IH _ _ _ _ Hl). }
  destruct (walk_loop _ _ _ _ _) as [[stopped st2]| |] eqn:Hw; cbn [outcome_bind]; try done. intros [= <- <-].
  apply Hloop in Hw. exact Hw.
Qed.

(** The registry's table says who is on. *)
Record agrees (reg : PluginRegistry) (on : gset Z) : Prop := {
  ag_ok : host_ok reg;
  ag_wf : PerSlot_wf (Clients (shared reg));
  ag_on slot : IsConnected slot reg = bool_decide (slot ∈ on) }.

Definition after (r : Raised) (on : gset Z) : gset Z :=
  match r with
  | RaisedClientConnected slot _ _ _ => if IsValidSlot slot then {[slot]} ∪ on else on
  | RaisedClientDisconnected slot => on ∖ {[slot]}
  | _ => on
  end.

Lemma agrees_same reg reg' on : host_ok reg' -> Clients (shared reg') = Clients (shared reg) -> agrees reg on -> agrees reg' on.
Proof. intros Hok Hc [_ Hw Ho]. split; [done|by rewrite Hc|]. intros slot. rewrite <- Ho. unfold IsConnected. by rewrite Hc. Qed.

Lemma dispatch_all_clients r (reg reg' : PluginRegistry) : quiet -> dispatch_all behaviour (Raise behaviour fuel) r reg = Returns reg' -> Clients (shared reg') = Clients (shared reg).
Proof.
  intros Hq. unfold dispatch_all. destruct (dispatch _ _ _ _) as [[b reg1]| |] eqn:Hd; cbn [outcome_bind]; try done. intros [= <-]. by apply dispatch_clients in Hd.
Qed.

Lemma on_connected reg on slot client map languages : agrees reg on ->
  PerSlot_wf (PerSlot_set (Clients (shared reg)) slot (Some client)) /\
  forall s, match PerSlot_get (PerSlot_set (Clients (shared reg)) slot (Some client)) s with Some (Some _) => true | _ => false end =
    bool_decide (s ∈ (if IsValidSlot slot then {[slot]} ∪ on else on)) /\
  IsConnected s (with_shared (set_players map (PerSlot_set (Clients (shared reg)) slot (Some client)) languages) reg) =
    bool_decide (s ∈ (if IsValidSlot slot then {[slot]} ∪ on else on)).
Proof.
  intros [_ Hw Ho]. split; [by apply PerSlot_set_wf|]. intros s. unfold IsConnected. cbn [shared with_shared Clients set_players].
  assert (match PerSlot_get (PerSlot_set (Clients (shared reg)) slot (Some client)) s with Some (Some _) => true | _ => false end =
    bool_decide (s ∈ (if IsValidSlot slot then {[slot]} ∪ on else on))) as He; [|by split].
  destruct (IsValidSlot slot) eqn:Hs.
  - destruct (Z.eqb_spec slot s) as [->|Hne].
    + rewrite PerSlot_get_set, Z.eqb_refl by done. by rewrite bool_decide_true by set_solver.
    + assert (PerSlot_get (PerSlot_set (Clients (shared reg)) slot (Some client)) s = PerSlot_get (Clients (shared reg)) s) as ->.
      { unfold PerSlot_get, PerSlot_set. rewrite Hs. destruct (IsValidSlot s) eqn:Hs'; [|done]. apply list_lookup_insert_ne.
        unfold IsValidSlot in *. rewrite andb_true_iff, Z.leb_le in Hs, Hs'. lia. }
      specialize (Ho s). unfold IsConnected in Ho. rewrite Ho. apply bool_decide_ext. set_solver.
  - unfold PerSlot_set. rewrite Hs. apply Ho.
Qed.

Lemma raise_clients r reg on reg' : quiet -> agrees reg on -> host_ok reg' -> Raise behaviour (S fuel) r reg = Returns reg' -> agrees reg' (after r on).
Proof.
  intros Hq Hag Hok Hr. cbn [Raise] in Hr. destruct r; cbn [raise_with after] in *; try (eapply agrees_same; [done| |exact Hag]; by apply dispatch_all_clients in Hr).
  - unfold RaiseClientConnecting in Hr. destruct (dispatch _ _ _ _) as [[b reg1]| |] eqn:Hd; cbn [outcome_bind] in Hr; try done.
    injection Hr as <-. apply dispatch_clients in Hd; [|done]. apply (agrees_same reg); [done|exact Hd|exact Hag].
  - unfold RaiseClientConnected in Hr. apply dispatch_all_clients in Hr; [|done]. cbn in Hr.
    destruct (on_connected reg on slot (mkConnected steamId name address false) (CurrentMap (shared reg)) (ResetLanguage (Languages (shared reg)) slot) Hag) as [H1 H2].
    split; [done|by rewrite Hr|]. intros s. unfold IsConnected. rewrite Hr. apply H2.
  - unfold RaiseClientDisconnected in Hr. destruct (dispatch_all _ _ _ _) as [reg1| |] eqn:Hd; cbn [outcome_bind] in Hr; try done.
    injection Hr as <-. apply dispatch_all_clients in Hd; [|done]. destruct Hag as [_ Hw Ho]. split; [done| |].
    + cbn. rewrite Hd. by apply PerSlot_Reset_wf.
    + intros s. specialize (Ho s). unfold IsConnected in *. cbn. rewrite Hd. destruct (IsValidSlot s) eqn:Hs.
      * rewrite PerSlot_get_Reset by done. destruct (Z.eqb_spec slot s) as [->|Hne]; [by rewrite bool_decide_false by set_solver|].
        rewrite Ho. apply bool_decide_ext. set_solver.
      * unfold PerSlot_get in *. rewrite Hs in *. symmetry in Ho. apply bool_decide_eq_false in Ho. rewrite bool_decide_false; [done|set_solver].
  - unfold RaiseClientFullyConnected in Hr. apply dispatch_all_clients in Hr; [|done]. cbn in Hr.
    destruct (PerSlot_get (Clients (shared reg)) slot) as [[c|]|] eqn:Hc; [|apply (agrees_same reg); [done|exact Hr|exact Hag]..].
    destruct (on_connected reg on slot (mkConnected (ClientSteamId c) (ClientName c) (Address c) true) (CurrentMap (shared reg)) (Languages (shared reg)) Hag) as [H1 H2].
    cbn in Hr. split; [done|by rewrite Hr|]. intros s. unfold IsConnected. rewrite Hr. destruct (H2 s) as [-> _]. apply bool_decide_ext.
    pose proof (ag_on _ _ Hag slot) as Hon. unfold IsConnected in Hon. rewrite Hc in Hon. symmetry in Hon. apply bool_decide_eq_true in Hon.
    destruct (IsValidSlot slot); set_solver.
Qed.

Lemma quiet_good r reg : quiet -> host_ok reg -> good_state reg (Raise behaviour (S fuel) r reg).
Proof.
  intros Hq Hok. cbn [Raise]. apply (raise_with_good behaviour (Raise behaviour fuel) (loaded reg) (fun _ _ => False)); [|by intros ? ? []|done|done].
  intros r' fn context reg' Hl. rewrite <- Hl. apply Hq.
Qed.

Lemma tell_said r tr reg on : quiet -> agrees reg on -> exists reg', tell behaviour fuel r (tr, reg) = Returns (tr ++ [r], reg') /\ agrees reg' (after r on).
Proof.
  intros Hq Hag. destruct (quiet_good r reg Hq (ag_ok _ _ Hag)) as (reg' & Hr & Hok & _). exists reg'. unfold tell. cbn [fst snd]. rewrite Hr. cbn [outcome_bind].
  split; [done|]. by apply (raise_clients r reg).
Qed.

Lemma serve_said f tr reg on : (host_ok reg -> keeps_clients (f reg) reg) -> agrees reg on -> exists reg', serve f (tr, reg) = Returns (tr, reg') /\ agrees reg' on.
Proof.
  intros Hf Hag. destruct (Hf (ag_ok _ _ Hag)) as (reg' & Hr & Hok & Hc). exists reg'. unfold serve. cbn [fst snd]. rewrite Hr. split; [done|]. by eapply agrees_same.
Qed.

Lemma connect_said slot xuid name address tr reg on : quiet -> services_ok -> agrees reg on ->
  exists reg', ConnectClient behaviour fuel services slot xuid name address (tr, reg) = Returns (tr ++ [RaisedClientConnected slot (to_int64 xuid) name address], reg') /\
    agrees reg' (if IsValidSlot slot then {[slot]} ∪ on else on).
Proof.
  intros Hq Hs Hag. unfold ConnectClient. destruct (serve_said (beforeClientConnected services (to_int64 xuid)) tr reg on) as (reg1 & -> & H1);
    [by apply so_connected|done|]. cbn [outcome_bind].
  exact (tell_said (RaisedClientConnected slot (to_int64 xuid) name address) tr reg1 on Hq H1).
Qed.

Lemma disconnect_said slots tr reg on : quiet -> NoDup slots -> agrees reg on ->
  exists reg', outcome_fold (disconnect_slot behaviour fuel) slots (tr, reg) =
      Returns (tr ++ map RaisedClientDisconnected (List.filter (fun slot => bool_decide (slot ∈ on)) slots), reg') /\ agrees reg' (on ∖ list_to_set slots).
Proof.
  intros Hq. revert tr reg on. induction slots as [|slot slots IH]; intros tr reg on Hn Hag.
  - exists reg. cbn. rewrite app_nil_r. split; [done|]. by replace (on ∖ ∅) with on by set_solver.
  - apply NoDup_cons in Hn as [Hni Hn]. cbn [outcome_fold List.filter]. unfold disconnect_slot at 1. cbn [snd]. rewrite (ag_on _ _ Hag).
    destruct (bool_decide (slot ∈ on)) eqn:Hon.
    + destruct (tell_said (RaisedClientDisconnected slot) tr reg on Hq Hag) as (reg1 & -> & H1). cbn [outcome_bind after] in *.
      destruct (IH (tr ++ [RaisedClientDisconnected slot]) reg1 _ Hn H1) as (reg2 & -> & H2). exists reg2. split.
      * f_equal. f_equal. cbn [map]. rewrite <- app_assoc. cbn. do 3 f_equal. apply List.filter_ext_in. intros s Hin%list_elem_of_In.
        apply bool_decide_ext. assert (s <> slot) by (intros ->; done). set_solver.
      * by replace (on ∖ list_to_set (slot :: slots)) with (on ∖ {[slot]} ∖ list_to_set slots) by set_solver.
    + cbn [outcome_bind]. destruct (IH tr reg on Hn Hag) as (reg2 & -> & H2). exists reg2. split; [done|]. apply bool_decide_eq_false in Hon.
      by replace (on ∖ list_to_set (slot :: slots)) with (on ∖ list_to_set slots) by set_solver.
Qed.

Lemma everyone_gone reg on : agrees reg on -> on ∖ list_to_set all_slots = ∅.
Proof.
  intros Hag. apply set_eq. intros slot. rewrite elem_of_difference, elem_of_list_to_set. split; [|set_solver]. intros [Hin Hni]. destruct Hni.
  apply all_slots_valid. pose proof (ag_on _ _ Hag slot) as Ho. rewrite bool_decide_true in Ho by done. unfold IsConnected, PerSlot_get in Ho.
  by destruct (IsValidSlot slot).
Qed.

Lemma all_slots_NoDup : NoDup all_slots.
Proof. unfold all_slots. apply NoDup_fmap; [intros ? ?; lia|apply NoDup_seq]. Qed.

(** One event raised and the engine's call let through. *)
Lemma tell_through r tr reg on : quiet -> agrees reg on ->
  exists reg', through (tell behaviour fuel r (tr, reg)) = Returns (Through, (tr ++ [r], reg')) /\ agrees reg' (after r on).
Proof. intros Hq Hag. destruct (tell_said r tr reg on Hq Hag) as (reg' & E & H'). exists reg'. unfold through. by rewrite E. Qed.

Lemma connect_through slot name xuid address tr reg on : quiet -> services_ok -> agrees reg on ->
  exists v reg', through (ConnectClient behaviour fuel services slot xuid (Text_ name) (Text_ address) (tr, reg)) =
      Returns (v, (tr ++ [RaisedClientConnected slot (to_int64 xuid) (Text_ name) (Text_ address)], reg')) /\
    agrees reg' (if IsValidSlot slot then {[slot]} ∪ on else on).
Proof.
  intros Hq Hs Hag. destruct (connect_said slot xuid (Text_ name) (Text_ address) tr reg on Hq Hs Hag) as (reg' & E & H').
  exists Through, reg'. unfold through. by rewrite E.
Qed.

Lemma command_said name args slot tr reg on : quiet -> agrees reg on ->
  exists v reg', RunCommand behaviour fuel name args slot (tr, reg) = Returns (v, (tr ++ [RaisedConsoleCommand name args slot], reg')) /\ agrees reg' on.
Proof.
  intros Hq Hag. unfold RunCommand, RaiseConsoleCommand. cbn [fst snd].
  destruct (dispatch_good behaviour (Raise behaviour fuel) (loaded reg) (fun _ _ => False)
    ltac:(intros r' fn context reg' Hl; rewrite <- Hl; apply Hq) (RaisedConsoleCommand name args slot) reg ltac:(by intros ? ? []) eq_refl (ag_ok _ _ Hag))
    as (b & reg' & E & Hok & _). rewrite E. cbn [outcome_bind]. exists (if b then Consumed else Through), reg'. split; [by destruct b|].
  apply dispatch_clients in E; [|done]. by apply (agrees_same reg).
Qed.

Lemma admit_said slot xuid name tr reg on : quiet -> agrees reg on ->
  exists v reg', AdmitClient behaviour fuel slot xuid name (tr, reg) = Returns (v, (tr ++ [RaisedClientConnecting slot (to_int64 xuid) name], reg')) /\ agrees reg' on.
Proof.
  intros Hq Hag. unfold AdmitClient. cbn [fst snd]. edestruct (buffer_good (replicate 256 (chr 0)) reg (ag_ok _ _ Hag)) as [Hok1 Hev1].
  destruct (dispatch_good behaviour (Raise behaviour fuel) (loaded reg) (fun _ _ => False)
    ltac:(intros r' fn context reg' Hl; rewrite <- Hl; apply Hq) (RaisedClientConnecting slot (to_int64 xuid) name)
    (with_shared (set_buffer (replicate 256 (chr 0))) reg) ltac:(by intros ? ? []) eq_refl Hok1) as (b & reg' & E & Hok & _).
  unfold RaiseClientConnecting. rewrite E. cbn [outcome_bind]. do 2 eexists. split; [done|].
  apply dispatch_clients in E; [|done]. apply (agrees_same reg); [|exact E|done]. by apply buffer_good.
Qed.

Lemma engine_said c tr reg on : quiet -> services_ok -> agrees reg on ->
  exists v reg', engine_calls behaviour fuel services c (tr, reg) = Returns (v, (tr ++ said c on, reg')) /\ agrees reg' (joined c on).
Proof.
  intros Hq Hs Hag. pose proof (fun r => tell_through r tr reg on Hq Hag) as Htell.
  destruct c; cbn [engine_calls said joined].
  - destruct (serve_said (beforeFrame services) tr reg on) as (reg1 & -> & H1); [by apply so_frame|done|]. cbn [outcome_bind].
    destruct (tell_through RaisedFrame tr reg1 on Hq H1) as (reg' & E & H'). by exists Through, reg'.
  - destruct (serve_said (beforeServerStartup services) tr reg on) as (reg1 & -> & H1); [by apply so_startup|done|]. cbn [outcome_bind].
    destruct (tell_said (RaisedServerStartup (Text_ mapName)) tr reg1 on Hq H1) as (reg2 & -> & H2). cbn [outcome_bind]. unfold DisconnectEveryone.
    destruct (disconnect_said all_slots (tr ++ [RaisedServerStartup (Text_ mapName)]) reg2 on Hq all_slots_NoDup H2) as (reg3 & -> & H3).
    exists Through, reg3. unfold through. cbn [outcome_bind]. rewrite <- app_assoc. split; [done|]. by rewrite <- (everyone_gone reg on Hag).
  - by apply admit_said.
  - by apply connect_through.
  - rewrite (ag_on _ _ Hag). destruct (IsValidSlot slot) eqn:Hv; cbn [andb].
    + destruct (bool_decide (slot ∈ on)) eqn:Hon; cbn [negb].
      * exists Through, reg. rewrite app_nil_r. split; [done|]. apply bool_decide_eq_true in Hon. by replace ({[slot]} ∪ on) with on by set_solver.
      * destruct (connect_through slot name xuid address tr reg on Hq Hs Hag) as (v & reg' & -> & H'). exists v, reg'. split; [done|]. by rewrite Hv in H'.
    + exists Through, reg. by rewrite app_nil_r.
  - destruct (tell_said (RaisedClientDisconnected slot) tr reg on Hq Hag) as (reg1 & -> & H1). cbn [outcome_bind].
    destruct (serve_said (afterClientDisconnected services (to_int64 xuid)) (tr ++ [RaisedClientDisconnected slot]) reg1 (on ∖ {[slot]})) as (reg2 & E & H2);
      [by apply so_disconnected|done|]. exists Through, reg2. unfold through. by rewrite E.
  - destruct (Htell (RaisedClientFullyConnected slot)) as (reg' & E & H'). by exists Through, reg'.
  - destruct (Htell (RaisedClientSettingsChanged slot)) as (reg' & E & H'). by exists Through, reg'.
  - by apply command_said.
  - by apply command_said.
  - destruct (Htell (RaisedCheckTransmit infoList infoCount)) as (reg' & E & H'). by exists Through, reg'.
  - destruct manifest as [m|]; [destruct (Htell (RaisedBuildGameSessionManifest m)) as (reg' & E & H'); by exists Through, reg'|].
    exists Through, reg. by rewrite app_nil_r.
Qed.

Lemma run_said cs tr reg on : quiet -> services_ok -> agrees reg on ->
  exists reg', run_engine behaviour fuel services cs (tr, reg) = Returns (tr ++ all_said cs on, reg') /\ agrees reg' (fold_left (fun on c => joined c on) cs on).
Proof.
  intros Hq Hs. revert tr reg on; induction cs as [|c cs IH]; intros tr reg on Hag; cbn [all_said fold_left].
  - exists reg. by rewrite app_nil_r.
  - unfold run_engine. cbn [outcome_fold]. unfold engine_step at 1. destruct (engine_said c tr reg on Hq Hs Hag) as (v & reg1 & -> & H1). cbn [outcome_bind].
    destruct (IH (tr ++ said c on) reg1 _ H1) as (reg2 & E & H2). unfold run_engine in E. exists reg2. rewrite E. by rewrite <- app_assoc.
Qed.

End HooksFacts.

(** What the plugins are told of the clients follows from the engine's calls, in turn for every slot. For any calls of the engine
    from a host that is right, with services that keep it so and plugins that raise nothing while they are told something: every call
    returns; what is raised is exactly what the calls say given who was connected, and the host's table says who is connected now; a map's
    start disconnects each connected client once and nobody else and leaves nobody connected; a client put in server without having been
    announced, as after a map change, is announced then and once; and when the engine announces only into free slots, no slot is told
    connected twice without a disconnect between. *)
Theorem joins_in_turn {A} `{AddonHost A} behaviour fuel services cs (reg : PluginRegistry (A := A)) on :
  quiet behaviour -> services_ok services -> agrees reg on ->
  exists reg', run_engine behaviour fuel services cs ([], reg) = Returns (all_said cs on, reg') /\
    (forall slot, IsConnected slot reg' = bool_decide (slot ∈ fold_left (fun on c => joined c on) cs on)) /\
    (announced_free cs on -> forall slot, IsValidSlot slot = true -> alternates slot (IsConnected slot reg) (all_said cs on) = true).
Proof.
  intros Hq Hs Hag. destruct (run_said behaviour fuel services cs [] reg on Hq Hs Hag) as (reg' & E & H'). exists reg'. split; [exact E|]. split; [apply H'|].
  intros Hf slot Hv. rewrite (ag_on _ _ Hag). by apply all_said_alternates.
Qed.

(** Two plugins; Ann joins, the map changes, she is put in server again without being announced, and leaves. *)
Definition nothing_served : HostServices (A := WorkshopService) := mkServices (fun reg => Returns reg) (fun reg => Returns reg) (fun _ reg => Returns reg) (fun _ reg => Returns reg).
Definition ann_joins : list engine_call :=
  [OnClientConnected 3 (Some $"Ann") 7 (Some $"1.2.3.4"); StartupServer (Some $"de_dust2"); ClientPutInServer 3 (Some $"Ann") 7 None; ClientDisconnect 3 7].

Lemma joins_in_turn_witness :
  exists reg', run_engine (fun _ _ _ _ => PDone false []) 0 nothing_served ann_joins ([], sample_host) =
    Returns ([RaisedClientConnected 3 7 $"Ann" $"1.2.3.4"; RaisedServerStartup $"de_dust2"; RaisedClientDisconnected 3; RaisedClientConnected 3 7 $"Ann" [];
              RaisedClientDisconnected 3], reg') /\
    IsConnected 3 reg' = false.
Proof.
  destruct (joins_in_turn (fun _ _ _ _ => PDone false []) 0 nothing_served ann_joins sample_host ∅) as (reg' & E & Hon & _).
  - intros r fn context reg. constructor.
  - split; intros; eexists; (split; [done|]; by split).
  - split; [apply sample_host_ok|by vm_compute|]. intros slot. rewrite bool_decide_false by set_solver. unfold IsConnected, PerSlot_get.
    destruct (IsValidSlot slot); [|done]. assert (Clients (shared sample_host) = replicate (Z.to_nat MaxPlayers) None) as -> by by vm_compute.
    destruct (_ !! Z.to_nat slot) as [x|] eqn:Hx; [|done]. by apply lookup_replicate in Hx as [-> _].
  - exists reg'. split; [rewrite E; by vm_compute|]. rewrite Hon. by vm_compute.
Defined.
