(* ===== verification/Settings.v ===== *)
(** * Settings and JSON documents: [Core/Text/Json.hpp], [App/Config/{Options,Validation}.hpp], [Core/Files/{Paths,GameBuild}.cpp]

    A parsed document as a tree, tokens put into it and a leaf read by its path; a plugin's settings, published whole or not at
    all; the checks that drop bad entries. Parsing and printing JSON are glaze's, reading a file is the system's: arguments. *)

From S2P Require Import Prelude Text Errors Logger.

(** ** [glz::generic] *)

Section Document.
  Context {number : Type}.
  #[local] Unset Elimination Schemes.

Inductive json :=
| JNull
| JNumber (n : number)
| JBool (b : bool)
| JString (s : text)
| JArray (elements : list json)
| JObject (members : list (text * json)).

  Section Induction.
    Context (P : json -> Prop) (Hnull : P JNull) (Hnumber : forall n, P (JNumber n)) (Hbool : forall b, P (JBool b)) (Hstring : forall s, P (JString s)).
    Context (Harray : forall l, Forall P l -> P (JArray l)) (Hobject : forall m, Forall (fun kv => P kv.2) m -> P (JObject m)).

Fixpoint json_ind (j : json) : P j :=
  match j with
  | JNull => Hnull
  | JNumber n => Hnumber n
  | JBool b => Hbool b
  | JString s => Hstring s
  | JArray l => Harray l ((fix all l : Forall P l := match l with [] => Forall_nil_2 _ | j :: l => Forall_cons_2 _ _ _ (json_ind j) (all l) end) l)
  | JObject m =>
      Hobject m ((fix all m : Forall (fun kv : text * json => P kv.2) m :=
        match m with [] => Forall_nil_2 _ | kv :: m => Forall_cons_2 (fun kv : text * json => P kv.2) kv m (json_ind kv.2) (all m) end) m)
  end.

  End Induction.

(** [Json::SubstituteTokens]: the strings of the document, not its keys. *)
Fixpoint Json_SubstituteTokens (tokens : list (text * text)) (node : json) : json :=
  match node with
  | JString s => JString (SubstituteTokens s tokens)
  | JObject members => JObject (map (fun kv => (kv.1, Json_SubstituteTokens tokens kv.2)) members)
  | JArray elements => JArray (map (Json_SubstituteTokens tokens) elements)
  | JNull | JNumber _ | JBool _ => node
  end.

(** [contains] and [operator[]] of an object. *)
Fixpoint member (key : text) (members : list (text * json)) : option json :=
  match members with
  | [] => None
  | (k, child) :: members => if text_eqb k key then Some child else member key members
  end.

(** [dump()] of a number or a boolean; an error is none. *)
Context (dump : json -> option text).

(** What [GetString] makes of the node it ends at. *)
Definition leaf_text (node : json) : text :=
  match node with
  | JString s => s
  | JNumber _ | JBool _ => default [] (dump node)
  | JNull | JArray _ | JObject _ => []
  end.

(** The loop of [GetString]: none is its early [return {}]; [fuel] bounds its rounds. *)
Fixpoint descend (fuel : nat) (node : json) (dotPath : text) (start : nat) : outcome (option json) :=
  match fuel with
  | O => OutOfFuel
  | S fuel =>
      if (length dotPath <? start)%nat then Returns (Some node) else
      let dot := find_from $"." dotPath start in
      let key := match dot with Some dot => take (dot - start) (drop start dotPath) | None => drop start dotPath end in
      match node with
      | JObject members =>
          match member key members with
          | None => Returns None
          | Some child => match dot with None => Returns (Some child) | Some dot => descend fuel child dotPath (S dot) end
          end
      | _ => Returns None
      end
  end.

Definition GetString (root : json) (dotPath : text) : outcome text :=
  run! node := descend (S (S (length dotPath))) root dotPath 0 in Returns (match node with Some node => leaf_text node | None => [] end).

(** [GetStringByPath]; [ParseDocument] is glaze's reader. *)
Definition GetStringByPath (ParseDocument : text -> Result json) (jsonText dotPath : text) : outcome text :=
  match ParseDocument jsonText with Err _ => Returns [] | Ok document => GetString document dotPath end.

End Document.
Arguments json : clear implicits.

(** ** [App/Config/Validation.hpp] *)

(** The text of [Log::Warn("settings: ...")]. *)
Definition in_quotes (s : text) : text := [quote_char] ++ s ++ [quote_char].

Definition NormalizeTag (value : text) (maxLen : nat) (fallback what : text) : text * list text :=
  match Trim value with
  | _ :: _ =>
      if (length value <=? maxLen)%nat then (value, [])
      else (fallback, [$"settings: " ++ what ++ $" is empty or longer than " ++ dec (Z.of_nat maxLen) ++ $" chars; using " ++ in_quotes fallback])
  | [] => (fallback, [$"settings: " ++ what ++ $" is empty or longer than " ++ dec (Z.of_nat maxLen) ++ $" chars; using " ++ in_quotes fallback])
  end.

(** The loop of [FilterValid] from item [i]: what is kept, and a warning for each item that is not. *)
Fixpoint filter_from {T} (validate : T -> nat -> option text) (what : text) (i : nat) (items : list T) : list T * list text :=
  match items with
  | [] => ([], [])
  | item :: items =>
      let (kept, warned) := filter_from validate what (S i) items in
      match validate item i with
      | Some reason => (kept, ($"settings: skipping " ++ what ++ $"[" ++ dec (Z.of_nat i) ++ $"]: " ++ reason) :: warned)
      | None => (item :: kept, warned)
      end
  end.

Definition FilterValid {T} (items : list T) (validate : T -> nat -> option text) (what : text) : list T * list text := filter_from validate what 0 items.

Definition fallback_warning (what : text) : text := $"settings: " ++ what ++ $" has no valid entries; using built-in defaults".

(** The answer, the list, the warnings. *)
Definition FallbackIfEmpty {T} (items defaults : list T) (what : text) : bool * list T * list text :=
  match items, defaults with
  | _ :: _, _ | _, [] => (false, items, [])
  | [], _ => (true, defaults, [fallback_warning what])
  end.

(** The overload that makes its defaults; the number is how often it made them. *)
Definition FallbackIfEmpty_made {T} (items : list T) (makeDefaults : unit -> list T) (what : text) : bool * list T * list text * nat :=
  match items with
  | _ :: _ => (false, items, [], O)
  | [] => match makeDefaults tt with [] => (false, items, [], 1%nat) | defaults => (true, defaults, [fallback_warning what], 1%nat) end
  end.

Definition bad_duration (entry : text) (i : nat) : option text :=
  if ParseDuration entry <? 0 then Some ($"bad duration '" ++ entry ++ $"'") else None.

Definition ParseDurations (entries defaults : list text) (what : text) : list Z * list text :=
  let (kept, warned) := FilterValid entries bad_duration what in
  let '(_, kept, warned') := FallbackIfEmpty kept defaults what in
  (map ParseDuration kept, warned ++ warned').

(** ** [App/Config/Options.hpp] *)

Section Options.
  Context {TSettings TSnapshot : Type}.

Record Options := mkOptions { path_ : text; snapshot : TSnapshot }.

Definition Options_new (initial : TSnapshot) : Options := mkOptions [] initial.

(** What a load ends with: a status, or the exception of the builder, which nobody here catches. *)
Inductive loaded := Answers (status : Status) | BuildThrew.

(** [Load]; what the file holds when it is read, and the builder. *)
Definition Load (ReadFile : text -> Result TSettings) (build : TSettings -> option TSnapshot) (path : text) (o : Options) : loaded * Options :=
  let o := mkOptions path (snapshot o) in
  match ReadFile path with
  | Err e => (Answers (Err e), o)
  | Ok settings => match build settings with None => (BuildThrew, o) | Some next => (Answers (Ok tt), mkOptions (path_ o) next) end
  end.

Definition Reload (ReadFile : text -> Result TSettings) (build : TSettings -> option TSnapshot) (o : Options) : loaded * Options :=
  match path_ o with
  | [] => (Answers (Err (Error_NotReady $"no settings file was loaded yet")), o)
  | _ => Load ReadFile build (path_ o) o
  end.

Definition Get (o : Options) : TSnapshot := snapshot o.

(** A load or a reload, with the files as they are then. *)
Inductive settings_call :=
| CallLoad (files : text -> Result TSettings) (path : text)
| CallReload (files : text -> Result TSettings).

Definition settings_step (build : TSettings -> option TSnapshot) (o : Options) (c : settings_call) : Options :=
  match c with CallLoad files path => (Load files build path o).2 | CallReload files => (Reload files build o).2 end.

Definition run_settings (build : TSettings -> option TSnapshot) (cs : list settings_call) (o : Options) : Options := fold_left (settings_step build) cs o.

End Options.
Arguments Options : clear implicits.

(** ** [Core/Files] *)

Definition PluginDir (plugin : text) : text := $"addons/voltmod/plugins/" ++ plugin.
Definition PluginFile (plugin relative : text) : text := PluginDir plugin ++ $"/" ++ relative.

Definition ends_line (c : ascii) : bool := (code c =? 13) || (code c =? 10).

(** [GameBuild]'s initialiser, given what [steam.inf] holds, none when it cannot be read; [substr] to the end when no line ends after it. *)
Definition GameBuild (steam_inf : option text) : text :=
  match steam_inf with
  | None => $"unknown"
  | Some s =>
      match find $"ServerVersion=" s with
      | None => $"unknown"
      | Some at_ => Trim (List.firstn (count_while (fun c => negb (ends_line c)) (drop (at_ + 14) s)) (drop (at_ + 14) s))
      end
  end.

(** * Theorems *)

(** ** Paths and tokens *)

(** The keys of a path, and the node they lead to. *)
Fixpoint split_dots (current rest : text) : list text :=
  match rest with
  | [] => [current]
  | c :: rest => if bool_decide (c = "."%char) then current :: split_dots [] rest else split_dots (current ++ [c]) rest
  end.

Fixpoint lookup_path {number} (node : json number) (keys : list text) : option (json number) :=
  match keys with
  | [] => Some node
  | key :: keys => match node with JObject members => match member key members with Some child => lookup_path child keys | None => None end | _ => None end
  end.

Lemma split_dots_key current a rest : "."%char ∉ a -> split_dots current (a ++ $"." ++ rest) = (current ++ a) :: split_dots [] rest.
Proof.
  revert current; induction a as [|c a IH]; intros current Ha; cbn; [by rewrite app_nil_r|].
  apply not_elem_of_cons in Ha as [Hc Ha]. rewrite bool_decide_false by congruence.
  change (a ++ ("."%char :: rest)) with (a ++ $"." ++ rest). rewrite IH by done. by rewrite <- app_assoc.
Qed.

Lemma split_dots_last current a : "."%char ∉ a -> split_dots current a = [current ++ a].
Proof.
  revert current; induction a as [|c a IH]; intros current Ha; cbn; [by rewrite app_nil_r|].
  apply not_elem_of_cons in Ha as [Hc Ha]. rewrite bool_decide_false by congruence. rewrite IH by done. by rewrite <- app_assoc.
Qed.

Lemma split_dots_Join keys : keys <> [] -> Forall (fun key => "."%char ∉ key) keys -> split_dots [] (Join keys $".") = keys.
Proof.
  intros Hk Hf. induction keys as [|a keys IH]; [done|]. apply Forall_cons in Hf as [Ha Hf]. destruct keys as [|b keys].
  - by apply (split_dots_last [] a).
  - rewrite Join_cons, split_dots_key by done. by rewrite IH.
Qed.

Lemma find_dot s : match find $"." s with
                   | Some p => exists rest, s = take p s ++ $"." ++ rest /\ drop (S p) s = rest /\ "."%char ∉ take p s /\ (p < length s)%nat
                   | None => "."%char ∉ s end.
Proof.
  destruct (find $"." s) as [p|] eqn:E.
  - pose proof (find_some _ _ _ E) as Es. change (length $".") with 1%nat in Es. rewrite Nat.add_1_r in Es.
    assert (p < length s)%nat as Hp. { pose proof (f_equal length Es) as HL. rewrite !length_app, length_take in HL. change (length $".") with 1%nat in HL. lia. }
    exists (drop (S p) s). split; [exact Es|]. split; [done|]. split; [|done]. intros (a & b & Hab)%list_elem_of_split.
    destruct (find_leftmost $"." s a (b ++ drop p s)) as (q & Hq & Hle).
    { rewrite <- (take_drop p s) at 1. rewrite Hab, <- app_assoc. done. }
    rewrite E in Hq. injection Hq as <-. pose proof (f_equal length Hab) as HL. rewrite length_take, length_app in HL. cbn [length] in HL. lia.
  - intros (a & b & Hab)%list_elem_of_split. pose proof (proj1 (find_none $"." s) E a b) as Hn. by apply Hn.
Qed.

Section DocumentFacts.
  Context {number : Type} (dump : json number -> option text).

Lemma descend_spec fuel (node : json number) before rest : (length rest < fuel)%nat ->
  descend fuel node (before ++ rest) (length before) = Returns (lookup_path node (split_dots [] rest)).
Proof.
  revert node before rest; induction fuel as [|fuel IH]; intros node before rest Hf; [lia|]. cbn [descend].
  rewrite length_app. destruct (Nat.ltb_spec (length before + length rest) (length before)); [lia|].
  rewrite find_from_app, drop_app_length. pose proof (find_dot rest) as Hd. destruct (find $"." rest) as [p|] eqn:E; cbn [option_map].
  - destruct Hd as (more & Es & Hm & Hno & Hp). replace (length before + p - length before)%nat with p by lia.
    assert (split_dots [] rest = take p rest :: split_dots [] more) as ->.
    { pose proof (split_dots_key [] _ more Hno) as Hs. by rewrite <- Es in Hs. }
    cbn [lookup_path].
    destruct node as [| | | | |members]; try done. destruct (member _ members) as [child|]; [|done].
    replace (before ++ rest) with ((before ++ take p rest ++ $".") ++ more) by (rewrite <- !app_assoc; f_equal; by rewrite <- Es).
    replace (S (length before + p)) with (length (before ++ take p rest ++ $".")) by (rewrite !length_app, length_take; change (length $".") with 1%nat; lia).
    apply IH. rewrite <- Hm, length_drop. lia.
  - rewrite split_dots_last by done. cbn [lookup_path app]. destruct node as [| | | | |members]; try done. by destruct (member rest members).
Qed.

Lemma GetString_spec (root : json number) dotPath :
  GetString dump root dotPath = Returns (match lookup_path root (split_dots [] dotPath) with Some node => leaf_text dump node | None => [] end).
Proof. unfold GetString. rewrite (descend_spec _ root [] dotPath) by lia. done. Qed.

Lemma member_map (f : json number -> json number) key (members : list (text * json number)) :
  member key (map (fun kv => (kv.1, f kv.2)) members) = option_map f (member key members).
Proof. induction members as [|[k child] members IH]; cbn; [done|]. by destruct (text_eqb k key). Qed.

Lemma lookup_path_substituted tokens (root : json number) keys :
  lookup_path (Json_SubstituteTokens tokens root) keys = option_map (Json_SubstituteTokens tokens) (lookup_path root keys).
Proof.
  revert root; induction keys as [|key keys IH]; intros root; cbn [lookup_path]; [done|]. destruct root as [| | | | |members]; cbn; try done.
  rewrite member_map. destruct (member key members) as [child|]; cbn; [apply IH|done].
Qed.

(** Nothing in the document but its strings has changed. *)
Fixpoint shape (j : json number) : json number :=
  match j with
  | JString _ => JString []
  | JObject members => JObject (map (fun kv => (kv.1, shape kv.2)) members)
  | JArray elements => JArray (map shape elements)
  | _ => j
  end.

Lemma shape_substituted tokens (j : json number) : shape (Json_SubstituteTokens tokens j) = shape j.
Proof.
  induction j as [| | | |l IH|m IH]; cbn; try done.
  - f_equal. rewrite map_map. induction IH as [|j l Hj _ IHl]; cbn; [done|]. by rewrite Hj, IHl.
  - f_equal. rewrite map_map. induction IH as [|kv m Hj _ IHm]; cbn; [done|]. f_equal; [by rewrite Hj|exact IHm].
Qed.

End DocumentFacts.


(** A name that looks like JSON stays one string; the number beside it is read as it was. *)
Definition greeting : json Z := JObject [($"data", JObject [($"player", JString $"Hello {name}"); ($"code", JNumber 42)])].
Definition dump_number (j : json Z) : option text := match j with JNumber n => Some (dec n) | JBool b => Some (if b then $"true" else $"false") | _ => None end.


(** ** Bad entries *)

Lemma filter_from_spec {T} (validate : T -> nat -> option text) what i items :
  filter_from validate what i items =
    (omap (fun ix => match validate ix.2 ix.1 with None => Some ix.2 | Some _ => None end) (zip (seq i (length items)) items),
     omap (fun ix => match validate ix.2 ix.1 with
                     | None => None
                     | Some reason => Some ($"settings: skipping " ++ what ++ $"[" ++ dec (Z.of_nat ix.1) ++ $"]: " ++ reason) end)
       (zip (seq i (length items)) items)).
Proof.
  revert i; induction items as [|item items IH]; intros i; cbn [filter_from length seq zip]; [done|]. rewrite IH. cbn.
  by destruct (validate item i).
Qed.

Lemma kept_durations what i entries : (filter_from bad_duration what i entries).1 = List.filter (fun e => 0 <=? ParseDuration e) entries.
Proof.
  revert i; induction entries as [|e entries IH]; intros i; cbn [filter_from List.filter]; [done|]. specialize (IH (S i)).
  destruct (filter_from bad_duration what (S i) entries) as [kept warned]. cbn in IH. subst kept. unfold bad_duration.
  destruct (Z.ltb_spec (ParseDuration e) 0), (Z.leb_spec 0 (ParseDuration e)); try lia; done.
Qed.

Lemma FallbackIfEmpty_agrees {T} (items : list T) makeDefaults what :
  let '(applied, kept, warned, made) := FallbackIfEmpty_made items makeDefaults what in
  (applied, kept, warned) = FallbackIfEmpty items (makeDefaults tt) what /\ made = match items with [] => 1%nat | _ => O end.
Proof. destruct items; cbn; [by destruct (makeDefaults tt)|done]. Qed.

Lemma ParseDurations_kept entries defaults what :
  (ParseDurations entries defaults what).1 =
    map ParseDuration (match List.filter (fun e => 0 <=? ParseDuration e) entries with [] => defaults | kept => kept end).
Proof.
  unfold ParseDurations, FilterValid. pose proof (kept_durations what 0 entries) as Hk.
  destruct (filter_from bad_duration what 0 entries) as [kept warned]. cbn in Hk. subst kept.
  destruct (List.filter _ entries); [by destruct defaults|done].
Qed.

(** What is kept are durations; only defaults that hold a bad entry give a bad one. *)
Lemma ParseDurations_bounds entries defaults what z :
  Forall (fun e => 0 <= ParseDuration e) defaults -> z ∈ (ParseDurations entries defaults what).1 -> 0 <= z <= int32_max.
Proof.
  intros Hd. rewrite ParseDurations_kept. intros (e & -> & He)%list_elem_of_fmap. split; [|apply ParseDuration_bounds].
  destruct (List.filter _ entries) as [|x l] eqn:Ef; [rewrite Forall_forall in Hd; by apply Hd|].
  assert (In e (List.filter (fun e => 0 <=? ParseDuration e) entries)) as Hin by (rewrite Ef; by apply list_elem_of_In).
  apply filter_In in Hin as [_ Hle]. lia.
Qed.

(** ** Settings are published whole or not at all *)

Section OptionsFacts.
  Context {TSettings TSnapshot : Type} (build : TSettings -> option TSnapshot).

(** What the calls read, in order, from the path they are about. *)
Fixpoint readings (path : text) (cs : list settings_call) : list (Result TSettings) :=
  match cs with
  | [] => []
  | CallLoad files path :: cs => files path :: readings path cs
  | CallReload files :: cs => match path with [] => readings path cs | _ => files path :: readings path cs end
  end.

Definition built (r : Result TSettings) : option TSnapshot := match r with Ok settings => build settings | Err _ => None end.

Lemma Get_last_built cs (o : Options TSnapshot) :
  Get (run_settings build cs o) = fold_left (fun old r => default old (built r)) (readings (path_ o) cs) (Get o).
Proof.
  revert o; induction cs as [|c cs IH]; intros o; [done|]. unfold run_settings in *. cbn [fold_left]. rewrite IH.
  destruct c as [files path|files]; cbn [settings_step readings].
  - unfold Load. cbn [fold_left]. destruct (files path) as [settings|e]; cbn; [|done]. by destruct (build settings).
  - unfold Reload. destruct (path_ o) as [|c0 path0] eqn:Ep; cbn [snd]; [by rewrite Ep|]. unfold Load. cbn [fold_left].
    destruct (files _) as [settings|e]; cbn; [|done]. by destruct (build settings).
Qed.

End OptionsFacts.

(** ** [steam.inf] *)

Lemma GameBuild_reads a v b : find $"ServerVersion=" (a ++ $"ServerVersion=" ++ v ++ b) = Some (length a) ->
  forallb (fun c => negb (ends_line c)) v = true -> match b with [] => True | c :: _ => ends_line c = true end ->
  GameBuild (Some (a ++ $"ServerVersion=" ++ v ++ b)) = Trim v.
Proof.
  intros Hf Hv Hb. unfold GameBuild. rewrite Hf. change 14%nat with (length $"ServerVersion="). rewrite drop_app_add, drop_app_length. f_equal.
  destruct b as [|c b].
  - rewrite app_nil_r. clear Hf. induction v as [|x v IH]; [done|]. cbn in Hv |- *. apply andb_true_iff in Hv as [-> Hv]. cbn. by rewrite IH.
  - rewrite count_while_app by (done || by rewrite Hb). by rewrite List.firstn_app, Nat.sub_diag, firstn_all, app_nil_r.
Qed.
