(* ===== verification/Connections.v ===== *)
(** * Opening a database: [Database/OpenConnection.cpp], [Database/{Driver,Connection,DatabaseConfig}.hpp]

    What a configuration comes to for each driver, what holds the worker's connection when a driver throws halfway, and the portable
    upsert. The drivers are sqlpp23's: whether they connect, run a statement and are still connected are arguments. *)

From S2P Require Import Prelude Text Errors Migrations Jobs.

(** ** Configuration *)

Record DatabaseConfig := mkDatabaseConfig {
  driver_ : text; host_ : text; port_ : Z; database_ : text; username_ : text; password_ : text; sslMode_ : text; connectTimeoutSec_ : Z; file_ : text }.

Definition DatabaseConfig_default : DatabaseConfig :=
  mkDatabaseConfig $"postgres" $"localhost" 0 $"voltmod_server" $"voltmod_plugin" [] $"prefer" 5 [].

Inductive PostgresSslMode := ssl_disable | ssl_allow | ssl_prefer | ssl_require | ssl_verify_ca | ssl_verify_full.
#[export] Instance PostgresSslMode_eq_dec : EqDecision PostgresSslMode.
Proof. solve_decision. Defined.

Definition SslModes : list (text * PostgresSslMode) :=
  [($"disable", ssl_disable); ($"allow", ssl_allow); ($"prefer", ssl_prefer); ($"require", ssl_require); ($"verify-ca", ssl_verify_ca);
   ($"verify-full", ssl_verify_full)].

Definition TlsModes : list PostgresSslMode := [ssl_require; ssl_verify_ca; ssl_verify_full].
Definition InMemory : text := $":memory:".

Definition ParseSslMode (name : text) : option PostgresSslMode := option_map snd (List.find (fun mode => text_eqb mode.1 name) SslModes).

(** [Parse<Driver>] and [Name]: the enumerators' spellings, read without regard to case. *)
Definition drivers : list (text * Driver.t) := [($"Postgres", Driver.Postgres); ($"MariaDb", Driver.MariaDb); ($"Sqlite", Driver.Sqlite)].
Definition ParseDriver (name : text) : option Driver.t := option_map snd (List.find (fun d => text_eqb (ToLower d.1) (ToLower name)) drivers).
Definition DriverName (driver : Driver.t) : text :=
  ToLower (match driver with Driver.Postgres => $"Postgres" | Driver.MariaDb => $"MariaDb" | Driver.Sqlite => $"Sqlite" end).

Definition CheckConfig (config : DatabaseConfig) : Result Driver.t :=
  match ParseDriver (driver_ config) with
  | None => Err (Error_Invalid ($"Unknown database driver '" ++ driver_ config ++ $"'; expected postgres, mariadb or sqlite."))
  | Some driver =>
      match driver, file_ config, ParseSslMode (sslMode_ config) with
      | Driver.Sqlite, [], _ =>
          Err (Error_Invalid ($"Database driver 'sqlite' needs a 'path' (a file, or " ++ [quote_char] ++ InMemory ++ [quote_char] ++ $")."))
      | Driver.Postgres, _, None =>
          Err (Error_Invalid ($"Unknown sslMode '" ++ sslMode_ config ++ $"'; expected disable, allow, prefer, require, verify-ca or verify-full."))
      | _, _, _ => Ok driver
      end
  end.

(** ** The drivers' settings *)

Record Server := mkServer { server_host : text; server_port : Z; server_database : text; server_user : text; server_password : text; server_timeout : Z }.
Record PostgresConfig := mkPostgres { pg_server : Server; pg_sslmode : PostgresSslMode }.
Record MariaDbConfig := mkMariaDb { my_server : Server; my_charset : text; my_ssl : bool; my_client_flag : Z }.
Record SqliteConfig := mkSqlite { lite_path : text; lite_flags : Z }.

(** What [static_cast] makes of the port and the timeout. *)
Definition server_of (config : DatabaseConfig) (default_port : Z) : Server :=
  mkServer (host_ config) (if 0 <? port_ config then wrap_u32 (port_ config) else default_port) (database_ config) (username_ config) (password_ config)
    (wrap_u32 (connectTimeoutSec_ config)).

Definition PostgresSettings (config : DatabaseConfig) : PostgresConfig :=
  mkPostgres (server_of config 5432) (default ssl_prefer (ParseSslMode (sslMode_ config))).

Section Settings.
  (** The clients' flags, and the game's directory joined with a relative path. *)
  Context (CLIENT_FOUND_ROWS SQLITE_OPEN_READWRITE SQLITE_OPEN_CREATE : Z) (ResolvePath : text -> text).

Definition MariaDbSettings (client_flag : Z) (config : DatabaseConfig) : MariaDbConfig :=
  mkMariaDb (server_of config 3306) $"utf8mb4" (bool_decide (default ssl_prefer (ParseSslMode (sslMode_ config)) ∈ TlsModes))
    (Z.lor client_flag CLIENT_FOUND_ROWS).

Definition SqliteSettings (config : DatabaseConfig) : SqliteConfig :=
  mkSqlite (if text_eqb (file_ config) InMemory then file_ config else ResolvePath (file_ config)) (Z.lor SQLITE_OPEN_READWRITE SQLITE_OPEN_CREATE).

(** [AnyConnection]; an [emplace] whose constructor throws leaves the variant valueless. *)
Inductive AnyConnection :=
| Closed
| PostgresConnection (settings : PostgresConfig)
| MariaDbConnection (settings : MariaDbConfig)
| SqliteConnection (settings : SqliteConfig) (executed : list text)
| Valueless.

(** What the drivers do in one call: the constructor returns, and a statement runs. *)
Record Server_side := mkServerSide { connects : bool; executes : text -> bool }.

(** Statements on an open sqlite connection, up to the first that throws. *)
Fixpoint execute_all (side : Server_side) (settings : SqliteConfig) (done_ todo : list text) : bool * AnyConnection :=
  match todo with
  | [] => (true, SqliteConnection settings done_)
  | statement :: todo => if executes side statement then execute_all side settings (done_ ++ [statement]) todo else (false, SqliteConnection settings done_)
  end.

(** Whether it returns, and what the variant holds then; [connectTimeoutSec * 1000] is an [int]. *)
Definition OpenConnection (side : Server_side) (driver : Driver.t) (config : DatabaseConfig) : outcome (bool * AnyConnection) :=
  match driver with
  | Driver.Postgres => Returns (if connects side then (true, PostgresConnection (PostgresSettings config)) else (false, Valueless))
  | Driver.MariaDb => Returns (if connects side then (true, MariaDbConnection (MariaDbSettings 0 config)) else (false, Valueless))
  | Driver.Sqlite =>
      if negb (connects side) then Returns (false, Valueless) else
      let journal := if text_eqb (file_ config) InMemory then [] else [$"PRAGMA journal_mode=WAL"] in
      let timeout := connectTimeoutSec_ config * 1000 in
      let '(opened, conn) := execute_all side (SqliteSettings config) [] journal in
      if negb opened then Returns (false, conn) else
      if in_i32 timeout then Returns (execute_all side (SqliteSettings config) journal [$"PRAGMA busy_timeout=" ++ dec timeout]) else Undefined
  end.

(** [std::visit] throws on a valueless variant, and nobody catches that: the process ends. *)
Definition IsOpen (is_connected : bool) (connection : AnyConnection) : outcome bool :=
  match connection with Closed => Returns false | Valueless => Undefined | _ => Returns is_connected end.

(** ** The worker's connection: [Database::{EnsureOpen,RunJob,DropConnection}] *)

Record Link := mkLink {
  connection : AnyConnection; link_connected : bool; retryAt : Z;
  attempts : list (Z * bool)  (** when [OpenConnection] was called, and whether it returned *) }.

Definition Link_new : Link := mkLink Closed false 0 [].
Definition DropLink (l : Link) : Link := mkLink Closed false (retryAt l) (attempts l).

Definition EnsureLink (side : Server_side) (driver : Driver.t) (config : DatabaseConfig) (now : Z) (is_connected : bool) (l : Link) : outcome (bool * Link) :=
  run! open := IsOpen is_connected (connection l) in
  if open : bool then Returns (true, l) else
  if now <? retryAt l then Returns (false, l) else
  run! (opened, conn) := OpenConnection side driver config in
  let l := mkLink conn (link_connected l) (retryAt l) (attempts l ++ [(now, opened)]) in
  if opened : bool then Returns (true, mkLink conn true (retryAt l) (attempts l))
  else let l := DropLink l in Returns (false, mkLink (connection l) (link_connected l) (now + ReconnectBackoff) (attempts l)).

(** A job's turn: when, what the servers do, and whether the job throws on the connection; the answer is whether the job ran, and on what. *)
Record Turn := mkTurn { turn_now : Z; turn_side : Server_side; turn_connected : bool; turn_throws : bool }.

Definition run_turn (driver : Driver.t) (config : DatabaseConfig) (t : Turn) (l : Link) : outcome (option AnyConnection * Link) :=
  run! (open, l) := EnsureLink (turn_side t) driver config (turn_now t) (turn_connected t) l in
  Returns (if negb open then (None, l) else (Some (connection l), if turn_throws t then DropLink l else l)).

Fixpoint run_turns (driver : Driver.t) (config : DatabaseConfig) (ts : list Turn) (l : Link) : outcome (list (option AnyConnection) * Link) :=
  match ts with
  | [] => Returns ([], l)
  | t :: ts => run! (ran, l) := run_turn driver config t l in run! (rest, l) := run_turns driver config ts l in Returns (ran :: rest, l)
  end.

End Settings.

(** ** [Connection.hpp] *)

Section Upsert.
  Context {Conn Update Statement : Type} (run_update : Update -> Conn -> option (Z * Conn)) (run_insert : Statement -> Conn -> option Conn).

(** None is a statement's exception; [affected_rows] is the driver's answer to the update. *)
Definition Upsert (conn : Conn) (update : Update) (insert : Statement) : option Conn :=
  match run_update update conn with
  | None => None
  | Some (affected_rows, conn) => if affected_rows =? 0 then run_insert insert conn else Some conn
  end.

End Upsert.

Definition Insert {Conn Statement} (driver : Driver.t) (run : Statement -> Conn -> option (Z * Conn)) (last_insert_id : text -> text -> Conn -> option Z)
  (conn : Conn) (insert : Statement) (table key : text) : option (Z * Conn) :=
  match run insert conn with
  | None => None
  | Some (reported, conn) =>
      match driver with
      | Driver.Postgres => option_map (fun id => (id, conn)) (last_insert_id table key conn)
      | Driver.MariaDb | Driver.Sqlite => Some (reported, conn)
      end
  end.

(** * Theorems *)

(** ** Configuration *)

Lemma ParseDriver_DriverName driver : ParseDriver (DriverName driver) = Some driver.
Proof. by destruct driver; vm_compute. Qed.

Lemma ParseSslMode_names name mode : ParseSslMode name = Some mode <-> (name, mode) ∈ SslModes.
Proof.
  unfold ParseSslMode. split.
  - destruct (List.find _ SslModes) as [[n m]|] eqn:E; [|done]. intros [= <-]. apply List.find_some in E as [Hin Hn]. cbn in Hn.
    apply text_eqb_true in Hn as <-. by apply list_elem_of_In.
  - unfold SslModes. rewrite !elem_of_cons, elem_of_nil. by intros [[= -> ->]|[[= -> ->]|[[= -> ->]|[[= -> ->]|[[= -> ->]|[[= -> ->]|[]]]]]]].
Qed.

Section Config.
  Context (CLIENT_FOUND_ROWS SQLITE_OPEN_READWRITE SQLITE_OPEN_CREATE : Z) (ResolvePath : text -> text).

(** What a checked configuration connects with. *)
Lemma CheckConfig_settings config driver : CheckConfig config = Ok driver ->
  ParseDriver (driver_ config) = Some driver /\
  match driver with
  | Driver.Postgres => (sslMode_ config, pg_sslmode (PostgresSettings config)) ∈ SslModes
  | Driver.MariaDb => Z.land (my_client_flag (MariaDbSettings CLIENT_FOUND_ROWS 0 config)) CLIENT_FOUND_ROWS = CLIENT_FOUND_ROWS /\
      my_ssl (MariaDbSettings CLIENT_FOUND_ROWS 0 config) = bool_decide (sslMode_ config ∈ [$"require"; $"verify-ca"; $"verify-full"])
  | Driver.Sqlite => file_ config <> []
  end.
Proof.
  unfold CheckConfig. destruct (ParseDriver (driver_ config)) as [d|]; [|done]. intros Hc.
  assert (d = driver) as ->. { by destruct d, (file_ config), (ParseSslMode (sslMode_ config)); simplify_eq. }
  split; [done|]. destruct driver; [| |by destruct (file_ config)].
  - unfold PostgresSettings. cbn. destruct (ParseSslMode (sslMode_ config)) as [m|] eqn:Em; [by apply ParseSslMode_names|]. by destruct (file_ config).
  - unfold MariaDbSettings. cbn. split.
    { by rewrite Z.lor_0_l, Z.land_diag. }
    destruct (ParseSslMode (sslMode_ config)) as [m|] eqn:Em; cbn [default].
    + apply ParseSslMode_names in Em. unfold SslModes in Em. rewrite !elem_of_cons, elem_of_nil in Em.
      destruct Em as [[= -> ->]|[[= -> ->]|[[= -> ->]|[[= -> ->]|[[= -> ->]|[[= -> ->]|[]]]]]]]; by vm_compute.
    + transitivity false; [by vm_compute|]. symmetry. apply bool_decide_eq_false. rewrite !elem_of_cons, elem_of_nil.
      intros [Hs|[Hs|[Hs|[]]]]; rewrite Hs in Em; by vm_compute in Em.
Qed.

(** A spelling the drivers do not know is refused for Postgres alone: MariaDB connects without TLS. *)
Lemma unknown_mode_connects_in_clear :
  let config := mkDatabaseConfig $"mariadb" $"db" 0 $"d" $"u" $"p" $"required" 5 [] in
  CheckConfig config = Ok Driver.MariaDb /\ my_ssl (MariaDbSettings CLIENT_FOUND_ROWS 0 config) = false.
Proof. split; by vm_compute. Qed.

(** ** The worker's connection *)

(** A connection [OpenConnection] has returned with. *)
Definition opened_with (driver : Driver.t) (config : DatabaseConfig) : AnyConnection :=
  match driver with
  | Driver.Postgres => PostgresConnection (PostgresSettings config)
  | Driver.MariaDb => MariaDbConnection (MariaDbSettings CLIENT_FOUND_ROWS 0 config)
  | Driver.Sqlite =>
      SqliteConnection (SqliteSettings SQLITE_OPEN_READWRITE SQLITE_OPEN_CREATE ResolvePath config)
        ((if text_eqb (file_ config) InMemory then [] else [$"PRAGMA journal_mode=WAL"]) ++ [$"PRAGMA busy_timeout=" ++ dec (connectTimeoutSec_ config * 1000)])
  end.

Lemma execute_all_spec side settings before todo :
  (execute_all side settings before todo).1 = forallb (executes side) todo /\
  (forallb (executes side) todo = true -> (execute_all side settings before todo).2 = SqliteConnection settings (before ++ todo)).
Proof.
  revert before; induction todo as [|s todo IH]; intros before; cbn; [by rewrite app_nil_r|]. destruct (executes side s) eqn:E; cbn; [|done].
  destruct (IH (before ++ [s])) as [H1 H2]. split; [done|]. intros Hall. rewrite H2 by done. by rewrite <- app_assoc.
Qed.

Lemma OpenConnection_spec side driver config : in_i32 (connectTimeoutSec_ config * 1000) = true ->
  exists opened conn, OpenConnection CLIENT_FOUND_ROWS SQLITE_OPEN_READWRITE SQLITE_OPEN_CREATE ResolvePath side driver config = Returns (opened, conn) /\
    (opened = true -> conn = opened_with driver config).
Proof.
  intros Ht. unfold OpenConnection, opened_with. destruct driver.
  - by destruct (connects side); do 2 eexists.
  - by destruct (connects side); do 2 eexists.
  - destruct (connects side); cbn [negb]; [|by do 2 eexists].
    set (journal := if text_eqb (file_ config) InMemory then _ else _).
    destruct (execute_all_spec side (SqliteSettings SQLITE_OPEN_READWRITE SQLITE_OPEN_CREATE ResolvePath config) [] journal) as [H1 _].
    destruct (execute_all side _ [] journal) as [opened conn] eqn:E. destruct opened; cbn [negb]; [|by do 2 eexists]. rewrite Ht.
    destruct (execute_all_spec side (SqliteSettings SQLITE_OPEN_READWRITE SQLITE_OPEN_CREATE ResolvePath config) journal
      [$"PRAGMA busy_timeout=" ++ dec (connectTimeoutSec_ config * 1000)]) as [H3 H4].
    destruct (execute_all side _ journal _) as [opened' conn'] eqn:E'. do 2 eexists. split; [done|]. intros ->. apply H4. by rewrite <- H3.
Qed.

(** After a failed attempt the next waits. *)
Definition spaced (l : list (Z * bool)) : Prop :=
  forall before t opened after t' opened', l = before ++ (t, opened) :: (t', opened') :: after -> opened = false -> t + ReconnectBackoff <= t'.

Record link_ok (driver : Driver.t) (config : DatabaseConfig) (l : Link) : Prop := {
  lo_connection : connection l = Closed \/ connection l = opened_with driver config;
  lo_spaced : spaced (attempts l);
  lo_last before t : attempts l = before ++ [(t, false)] -> t + ReconnectBackoff <= retryAt l }.

Lemma spaced_snoc l t opened : spaced l -> (forall before t', l = before ++ [(t', false)] -> t' + ReconnectBackoff <= t) -> spaced (l ++ [(t, opened)]).
Proof.
  intros Hl Hlast before t1 o1 after t2 o2 E Ho. induction after as [|x front _] using rev_ind.
  - change ((t1, o1) :: [(t2, o2)]) with ([(t1, o1)] ++ [(t2, o2)]) in E. rewrite app_assoc in E. apply app_inj_tail in E as [E [= <- <-]].
    subst o1. by apply (Hlast before).
  - change ((t1, o1) :: (t2, o2) :: front ++ [x]) with (((t1, o1) :: (t2, o2) :: front) ++ [x]) in E. rewrite app_assoc in E.
    apply app_inj_tail in E as [E _]. by apply (Hl _ _ _ _ _ _ E).
Qed.

Lemma EnsureLink_ok side driver config now is_connected l : in_i32 (connectTimeoutSec_ config * 1000) = true -> link_ok driver config l ->
  exists open l', EnsureLink CLIENT_FOUND_ROWS SQLITE_OPEN_READWRITE SQLITE_OPEN_CREATE ResolvePath side driver config now is_connected l = Returns (open, l') /\
    link_ok driver config l' /\ (open = true -> connection l' = opened_with driver config).
Proof.
  intros Ht [Hc Hs Hl]. assert (exists open, IsOpen is_connected (connection l) = Returns open /\ (open = true -> connection l = opened_with driver config)) as
    (open & Ho & Hopen). { destruct Hc as [Hc|Hc]; rewrite Hc; [by exists false|]. exists is_connected. split; [by destruct driver|done]. }
  unfold EnsureLink. rewrite Ho. cbn [outcome_bind]. destruct open; [exists true, l; split; [done|]; split; [by split|auto]|].
  destruct (Z.ltb_spec now (retryAt l)) as [Hlt|Hle]; [exists false, l; split; [done|]; by split|].
  destruct (OpenConnection_spec side driver config Ht) as (opened & conn & -> & Hconn). cbn [outcome_bind].
  assert (spaced (attempts l ++ [(now, opened)])) as Hsp. { apply spaced_snoc; [done|]. intros before t E. specialize (Hl _ _ E). lia. }
  destruct opened; do 2 eexists; (split; [done|]); (split; [split; cbn|done || auto]).
  - right. auto.
  - done.
  - intros before t E. by apply app_inj_tail in E as [_ ?].
  - by left.
  - done.
  - intros before t E. apply app_inj_tail in E as [_ [= ->]]. lia.
Qed.

(** The worker is what [Jobs.v] takes it to be: its [EnsureOpen] is this one, told whether the drivers' call returns. *)
Lemma EnsureLink_refines {R} side driver config now is_connected l open l' (db : Database R) :
  EnsureLink CLIENT_FOUND_ROWS SQLITE_OPEN_READWRITE SQLITE_OPEN_CREATE ResolvePath side driver config now is_connected l = Returns (open, l') ->
  IsOpen is_connected (connection l) = Returns (connection_open db) -> retry_at db = retryAt l -> connected db = link_connected l ->
  exists opens db', EnsureOpen now opens db = (open, db') /\ retry_at db' = retryAt l' /\ connected db' = link_connected l' /\
    (connection_open db' = true -> connection l' <> Closed) /\ (open = false -> connection_open db' = false).
Proof.
  intros He Ho Hr Hc. unfold EnsureLink in He. rewrite Ho in He. cbn [outcome_bind] in He. unfold EnsureOpen. destruct (connection_open db) eqn:Eo.
  - injection He as <- <-. exists true, db. split; [done|]. split; [done|]. split; [done|]. split; [|done]. intros _ E. by rewrite E in Ho.
  - rewrite Hr. destruct (now <? retryAt l); [injection He as <- <-; exists true, db; rewrite Eo; done|].
    destruct (OpenConnection _ _ _ _ side driver config) as [[opened conn]| |] eqn:Eopen; cbn [outcome_bind] in He; try done.
    exists opened. destruct opened; injection He as <- <-; eexists; (split; [done|]); cbn; (split; [done|]); (split; [done|]); (split; [|done]).
    + intros _ ->. unfold OpenConnection in Eopen. destruct driver.
      * destruct (connects side); simplify_eq.
      * destruct (connects side); simplify_eq.
      * destruct (connects side); cbn [negb] in Eopen; [|simplify_eq].
        destruct (execute_all side _ [] _) as [o c] eqn:Ex. destruct o; cbn [negb] in Eopen; [|simplify_eq]. destruct (in_i32 _); [|done].
        injection Eopen as Eopen. cbn in Eopen. destruct (executes side _); simplify_eq.
    + done.
Qed.

Lemma run_turns_ok driver config ts l : in_i32 (connectTimeoutSec_ config * 1000) = true -> link_ok driver config l ->
  exists ran l', run_turns CLIENT_FOUND_ROWS SQLITE_OPEN_READWRITE SQLITE_OPEN_CREATE ResolvePath driver config ts l = Returns (ran, l') /\ link_ok driver config l' /\
    length ran = length ts /\ Forall (fun conn => conn = None \/ conn = Some (opened_with driver config)) ran.
Proof.
  intros Ht. revert l; induction ts as [|t ts IH]; intros l Hl; cbn [run_turns]; [by exists [], l|]. unfold run_turn.
  destruct (EnsureLink_ok (turn_side t) driver config (turn_now t) (turn_connected t) l Ht Hl) as (open & l1 & -> & Hl1 & Hopen). cbn [outcome_bind].
  assert (link_ok driver config (DropLink l1)) as Hdrop by (destruct Hl1; split; cbn; [by left|done|done]).
  destruct open; cbn [negb].
  - destruct (IH (if turn_throws t then DropLink l1 else l1)) as (ran & l2 & -> & Hl2 & Hlen & Hran); [by destruct (turn_throws t)|].
    cbn [outcome_bind]. do 2 eexists. split; [done|]. split; [done|]. split; [cbn; lia|]. constructor; [right; by rewrite Hopen|done].
  - destruct (IH l1 Hl1) as (ran & l2 & -> & Hl2 & Hlen & Hran). cbn [outcome_bind]. do 2 eexists. split; [done|]. split; [done|]. split; [cbn; lia|].
    constructor; [by left|done].
Qed.

End Config.

(** C11. Whatever the drivers do, from a configuration [CheckConfig] accepts whose timeout fits its milliseconds: no turn of the worker ends the process - the
    connection is never left valueless where [IsOpen] would throw - ; a job runs only on a connection fully opened with the configuration's own driver and
    settings, its pragmas included, or is answered without one; and after a failed attempt nobody tries again for [ReconnectBackoff]. *)
Theorem connection_never_lost CLIENT_FOUND_ROWS SQLITE_OPEN_READWRITE SQLITE_OPEN_CREATE ResolvePath driver config ts :
  CheckConfig config = Ok driver -> in_i32 (connectTimeoutSec_ config * 1000) = true ->
  exists ran l, run_turns CLIENT_FOUND_ROWS SQLITE_OPEN_READWRITE SQLITE_OPEN_CREATE ResolvePath driver config ts Link_new = Returns (ran, l) /\
    length ran = length ts /\
    Forall (fun conn => conn = None \/ conn = Some (opened_with CLIENT_FOUND_ROWS SQLITE_OPEN_READWRITE SQLITE_OPEN_CREATE ResolvePath driver config)) ran /\
    spaced (attempts l) /\
    match driver with Driver.Postgres => (sslMode_ config, pg_sslmode (PostgresSettings config)) ∈ SslModes | _ => True end.
Proof.
  intros Hc Ht. destruct (run_turns_ok CLIENT_FOUND_ROWS SQLITE_OPEN_READWRITE SQLITE_OPEN_CREATE ResolvePath driver config ts Link_new Ht) as
    (ran & l & -> & Hl & Hlen & Hran).
  - split; [by left| |]; [intros [|x before] t o after t' o' E; done|intros before t E; by destruct before].
  - exists ran, l. split; [done|]. split; [done|]. split; [done|]. split; [apply Hl|].
    destruct (CheckConfig_settings CLIENT_FOUND_ROWS config driver Hc) as [_ Hd]. by destruct driver.
Qed.

(** A sqlite file: the first connect fails after the journal, one job waits out the backoff, the next connects; its job throws. *)
Definition lite : DatabaseConfig := mkDatabaseConfig $"SQLite" [] 0 [] [] [] [] 5 $"bans.db".
Definition lite_turns : list Turn :=
  [mkTurn 10 (mkServerSide true (fun s => text_eqb s $"PRAGMA journal_mode=WAL")) true false; mkTurn 20 (mkServerSide true (fun _ => true)) true false;
   mkTurn 6000 (mkServerSide true (fun _ => true)) true true].

Lemma connection_never_lost_witness :
  exists ran l, run_turns 2 2 4 (fun p => $"/game/" ++ p) Driver.Sqlite lite lite_turns Link_new = Returns (ran, l) /\
    map (fun r => match r with Some _ => true | None => false end) ran = [false; false; true] /\ attempts l = [(10, false); (6000, true)].
Proof.
  destruct (connection_never_lost 2 2 4 (fun p => $"/game/" ++ p) Driver.Sqlite lite lite_turns) as (ran & l & E & _); [by vm_compute|by vm_compute|].
  exists ran, l. split; [exact E|]. vm_compute in E. injection E as <- <-. split; by vm_compute.
Defined.

(** ** The portable upsert *)

Section UpsertFacts.
  Context {Conn Update Statement : Type} (run_update : Update -> Conn -> option (Z * Conn)) (run_insert : Statement -> Conn -> option Conn).
  (** The rows with the key, for the statements that update and insert it. *)
  Context (rows : Conn -> nat) (update : Update) (insert : Statement).

(** The update reports the rows it matched and leaves as many; the insert adds one. MariaDB's client does so under [CLIENT_FOUND_ROWS]. *)
Record matched_rows : Prop := {
  mr_update c n c' : run_update update c = Some (n, c') -> n = Z.of_nat (rows c) /\ rows c' = rows c;
  mr_insert c c' : run_insert insert c = Some c' -> rows c' = S (rows c) }.

Lemma Upsert_one_row c c' : matched_rows -> (rows c <= 1)%nat -> Upsert run_update run_insert c update insert = Some c' -> rows c' = 1%nat.
Proof.
  intros [Hu Hi] Hc. unfold Upsert. destruct (run_update update c) as [[n c1]|] eqn:E; [|done]. destruct (Hu _ _ _ E) as [-> H1].
  destruct (Z.eqb_spec (Z.of_nat (rows c)) 0); [intros E'; rewrite (Hi _ _ E'); lia|intros [= <-]; lia].
Qed.

End UpsertFacts.

(** A client that reports the rows it changed instead inserts a second row on the second identical upsert. *)
Lemma changed_rows_duplicate :
  let run_update (v : Z) (rows : list Z) := Some (Z.of_nat (length (List.filter (fun r => negb (r =? v)) rows)), map (fun _ => v) rows) in
  let run_insert (v : Z) rows := Some (v :: rows) in
  (Upsert run_update run_insert [] 7 7 ≫= fun rows => Upsert run_update run_insert rows 7 7) = Some [7; 7].
Proof. by vm_compute. Qed.
