(* ===== verification/Entities.v ===== *)
(** * Entities: [Entities/{EntitySystem,EntitySystemSpawn,Entity,KeyValues}.cpp], [Engine/EntityRef.hpp]

    The engine's entity system and when its pointer is read, the wrappers' verbs as the calls they make of the engine, and who owns
    the keyvalues of a spawn. What the engine holds at an address and answers to a call are arguments; a float is binary32. *)

From Stdlib Require Import Floats.SpecFloat.
From S2P Require Import Prelude Text Identity Errors Damage.

(** ** The pointer to the entity system *)

(** A moment of the engine: the service, whether the offset bound, what stands there, and the class's table where it was found. *)
Record Engine := mkEngine {
  GameResourceService : bool; offset_bound : bool; at_offset : option Z; CGameEntitySystem_table : option Z; IsInstanceOf : Z -> Z -> bool }.

(** [Offset<T>::Read]: nothing while unbound. *)
Definition offset_read (e : Engine) : option Z := if offset_bound e then at_offset e else None.

(** [_interfaces.EntitySystem], [g_entitySystem] and [_isRealSystem]. *)
Record EntitySystem := mkEntitySystem { cached : option Z; published : option Z; isRealSystem : option bool }.

Definition SetEntitySystem (system : option Z) (s : EntitySystem) : EntitySystem := mkEntitySystem system system (isRealSystem s).

Definition ReadEntitySystemPointer (e : Engine) (s : EntitySystem) : option Z * EntitySystem :=
  if negb (GameResourceService e) || bool_decide (isRealSystem s = Some false) then (None, s) else
  match offset_read e, isRealSystem s with
  | Some system, None =>
      let real := match CGameEntitySystem_table e with None => true | Some table => IsInstanceOf e system table end in
      (if real then Some system else None, mkEntitySystem (cached s) (published s) (Some real))
  | system, _ => (system, s)
  end.

Definition Raw (e : Engine) (s : EntitySystem) : option Z * EntitySystem :=
  match cached s with
  | Some _ => (cached s, s)
  | None => let (system, s) := ReadEntitySystemPointer e s in let s := SetEntitySystem system s in (cached s, s)
  end.

(** The constructor, the destructor, a map's start. *)
Definition EntitySystem_new (e : Engine) : EntitySystem :=
  let s := mkEntitySystem None None None in if GameResourceService e && offset_bound e then (Raw e s).2 else s.
Definition EntitySystem_drop (s : EntitySystem) : EntitySystem :=
  if bool_decide (published s = cached s) then mkEntitySystem (cached s) None (isRealSystem s) else s.
Definition OnServerStartup (e : Engine) (s : EntitySystem) : EntitySystem := (Raw e (SetEntitySystem None s)).2.

(** ** Finding entities *)

(** [EntityRef]: the engine's handle bits. *)
Definition Unset : Z := 4294967295.
Definition is_set (handle : Z) : bool := negb (handle =? Unset).

Section Find.
  (** What the system at an address answers: an instance for a handle whose serial still matches, an index's class and instance, a class's instances. *)
  Context (GetEntityInstance : Z -> Z -> option Z) (GetEntityIdentity : Z -> Z -> option (text * option Z)) (by_class : Z -> text -> list Z).

Definition Get (e : Engine) (handle : Z) (s : EntitySystem) : option Z * EntitySystem :=
  let (system, s) := Raw e s in
  (match system with Some system => if is_set handle then GetEntityInstance system handle else None | None => None end, s).

Definition ControllerClass : text := $"cs_player_controller".

Definition RawController (e : Engine) (slot : Z) (s : EntitySystem) : option Z * EntitySystem :=
  let (system, s) := Raw e s in
  (match system with
   | None => None
   | Some system =>
       if (slot <? 0) || (MaxPlayers <=? slot) then None else
       match GetEntityIdentity system (slot + 1) with
       | None => None
       | Some (class, instance) => if text_eqb ControllerClass class then instance else None
       end
   end, s).

Definition FindAll (e : Engine) (className : text) (s : EntitySystem) : list Z * EntitySystem :=
  let (system, s) := Raw e s in
  (match system, className with Some system, _ :: _ => by_class system (c_str className) | _, _ => [] end, s).

Definition Find (e : Engine) (className : text) (s : EntitySystem) : option Z * EntitySystem :=
  let (found, s) := FindAll e className s in (head found, s).

(** A lookup, and what it reaches. *)
Inductive lookup_ := LookupRef (handle : Z) | LookupController (slot : Z) | LookupClass (className : text).

Definition run_lookup (e : Engine) (l : lookup_) (s : EntitySystem) : list Z * EntitySystem :=
  match l with
  | LookupRef handle => let (found, s) := Get e handle s in (option_list found, s)
  | LookupController slot => let (found, s) := RawController e slot s in (option_list found, s)
  | LookupClass className => FindAll e className s
  end.

Definition run_lookups (ls : list (Engine * lookup_)) (s : EntitySystem) : list (list Z) * EntitySystem :=
  fold_left (fun acc l => let (found, s) := run_lookup l.1 l.2 acc.2 in (acc.1 ++ [found], s)) ls ([], s).

End Find.

(** ** Values, keyvalues and the calls of the engine *)

Section Calls.
  Context {vector : Type}.

(** What a variant, a key or a field is given. *)
Inductive value :=
| VText (s : text) | VInt (z : Z) | VFloat (x : float32) | VBool (b : bool) | VVector (v : vector) | VAngle (v : vector) | VColor (r g b a : Z) | VRef (handle : Z).

(** A call of the engine; an entity is its instance, keyvalues their object. *)
Inductive call :=
| NewKeyValues (kv : nat) | SetKey (kv : nat) (key : text) (v : value) | ReleaseKeyValues (kv : nat)
| CreateEntityByName (className : text)
| DispatchSpawn (e : Z) (kv : option nat)
| CallTeleport (e : Z) (origin angles velocity : option vector)
| CallAcceptInput (e : Z) (input : text) (v : value) (activator : option Z)
| CallRemove (e : Z)
| AddEntityIOEvent (system e : Z) (input : text) (v : value) (seconds : float32)
| CallSetModel (e : Z) (path : text)
| SetField (e : Z) (field : text) (v : value)
| CallEmitSound (e : Z) (sound : text) (volume : float32)
| CallEmitSoundFilter (e recipients : Z) (sound : text) (volume : float32)
| CallStopSound (e : Z) (sound : text).

(** The object a call is about. *)
Definition target (c : call) : option Z :=
  match c with
  | NewKeyValues _ | SetKey _ _ _ | ReleaseKeyValues _ | CreateEntityByName _ => None
  | DispatchSpawn e _ | CallTeleport e _ _ _ | CallAcceptInput e _ _ _ | CallRemove e | AddEntityIOEvent _ e _ _ _ | CallSetModel e _ | SetField e _ _
  | CallEmitSound e _ _ | CallEmitSoundFilter e _ _ _ | CallStopSound e _ => Some e
  end.

(** Which of the engine's functions bound. *)
Record Bindings := mkBindings {
  b_GameEntitySystem : bool; b_CreateEntityByName : bool; b_DispatchSpawn : bool; b_Teleport : bool; b_AcceptInput : bool; b_AddEntityIOEvent : bool;
  b_SetModel : bool; b_EmitSoundParams : bool; b_EmitSoundFilter : bool; b_StopSound : bool }.

(** ** [Entity] *)

(** [_sys], absent in a default entity, with what it can do; [_e], null in a falsy one. *)
Record Entity := mkEntity { e_bindings : option Bindings; e_raw : option Z }.

Section Verbs.
  (** An entity's schema classes from its own up, none where a link to them is missing; whether its class finds [CBaseEntitySUB_Remove]; the entity
      system now. *)
  Context (class_chain : Z -> option (list text)) (think_remove : Z -> bool) (system : option Z).

Definition bound (en : Entity) (b : Bindings -> bool) : bool := match e_bindings en with Some bs => b bs | None => false end.

(** The verb's calls when the entity is there and its function bound. *)
Definition when (en : Entity) (b : Bindings -> bool) (calls : Z -> list call) : list call :=
  match e_raw en with Some e => if bound en b then calls e else [] | None => [] end.

Definition Teleport (origin angles velocity : option vector) (en : Entity) : list call := when en b_Teleport (fun e => [CallTeleport e origin angles velocity]).

Definition FireInput (input : text) (v : value) (activator : option Z) (en : Entity) : list call :=
  match input with [] => [] | _ => when en b_AcceptInput (fun e => [CallAcceptInput e (c_str input) v activator]) end.

Definition AcceptInput (input val : text) (activator : Entity) (en : Entity) : list call := FireInput input (VText (c_str val)) (e_raw activator) en.

Definition IsModelEntity (e : option Z) : bool :=
  match e with
  | None => false
  | Some e => match class_chain e with None => false | Some chain => existsb (fun class => text_eqb class $"CBaseModelEntity") chain end
  end.

Definition Remove (en : Entity) : list call :=
  match e_raw en with
  | Some e => if think_remove e then [CallRemove e] else []
  | None => []
  end.

Definition RemoveAfter (seconds : float32) (en : Entity) : list call :=
  match system with None => [] | Some system => when en b_AddEntityIOEvent (fun e => [AddEntityIOEvent system e $"Kill" (VText []) seconds]) end.

Definition SetModel (path : text) (en : Entity) : list call :=
  match path with [] => [] | _ => if IsModelEntity (e_raw en) then when en b_SetModel (fun e => [CallSetModel e (c_str path)]) else [] end.

(** 0.05f and 3.0f; [std::clamp] compares twice. *)
Definition MinScale : float32 := S754_finite false 13421773 (-28).
Definition MaxScale : float32 := S754_finite false 12582912 (-22).
Definition clamp (x lo hi : float32) : float32 := if SFltb x lo then lo else if SFltb hi x then hi else x.

Definition SetScale (scale : float32) (en : Entity) : list call := FireInput $"SetScale" (VFloat (clamp scale MinScale MaxScale)) None en.

(** [RenderMode_t]: a number. *)
Definition kRenderNormal : Z := 0.
Definition kRenderTransAlpha : Z := 1.

Definition SetRender (mode : Z) (r g b a : Z) (en : Entity) : list call :=
  if IsModelEntity (e_raw en)
  then match e_raw en with Some e => [SetField e $"m_nRenderMode" (VInt mode); SetField e $"m_clrRender" (VColor r g b a)] | None => [] end
  else [].

Definition SetVisible (visible : bool) (alpha : Z) (en : Entity) : list call :=
  SetRender (if visible then kRenderNormal else kRenderTransAlpha) 255 255 255 (if visible then 255 else alpha) en.

Definition PlayAnimation (animation idle : text) (en : Entity) : list call :=
  (match idle with [] => [] | _ => AcceptInput $"SetIdleAnimationLooping" idle (mkEntity None None) en end) ++
  AcceptInput $"SetAnimationNotLooping" animation (mkEntity None None) en.

Definition SetMoveType (type : Z) (en : Entity) : list call :=
  match e_raw en with Some e => [SetField e $"m_MoveType" (VInt type); SetField e $"m_nActualMoveType" (VInt type)] | None => [] end.

Definition EmitSound (sound : text) (volume : float32) (en : Entity) : list call :=
  match sound with [] => [] | _ => when en b_EmitSoundParams (fun e => [CallEmitSound e (c_str sound) volume]) end.
Definition EmitSoundTo (sound : text) (recipients : Z) (volume : float32) (en : Entity) : list call :=
  match sound with [] => [] | _ => when en b_EmitSoundFilter (fun e => [CallEmitSoundFilter e recipients (c_str sound) volume]) end.
Definition StopSound (sound : text) (en : Entity) : list call :=
  match sound with [] => [] | _ => when en b_StopSound (fun e => [CallStopSound e (c_str sound)]) end.

(** A verb of a live entity. *)
Inductive verb :=
| DoTeleport (origin angles velocity : option vector) | DoAcceptInput (input val : text) (activator : Entity) | DoRemove | DoRemoveAfter (seconds : float32)
| DoSetModel (path : text) | DoSetScale (scale : float32) | DoSetRender (mode r g b a : Z) | DoSetVisible (visible : bool) (alpha : Z)
| DoPlayAnimation (animation idle : text) | DoSetMoveType (type : Z) | DoEmitSound (sound : text) (volume : float32)
| DoEmitSoundTo (sound : text) (recipients : Z) (volume : float32) | DoStopSound (sound : text).

Definition run_verb (v : verb) (en : Entity) : list call :=
  match v with
  | DoTeleport origin angles velocity => Teleport origin angles velocity en
  | DoAcceptInput input val activator => AcceptInput input val activator en
  | DoRemove => Remove en
  | DoRemoveAfter seconds => RemoveAfter seconds en
  | DoSetModel path => SetModel path en
  | DoSetScale scale => SetScale scale en
  | DoSetRender mode r g b a => SetRender mode r g b a en
  | DoSetVisible visible alpha => SetVisible visible alpha en
  | DoPlayAnimation animation idle => PlayAnimation animation idle en
  | DoSetMoveType type => SetMoveType type en
  | DoEmitSound sound volume => EmitSound sound volume en
  | DoEmitSoundTo sound recipients volume => EmitSoundTo sound recipients volume en
  | DoStopSound sound => StopSound sound en
  end.

End Verbs.

(** ** Keyvalues and spawning *)

(** The next keyvalues' object, and the calls so far. *)
Record Heap := mkHeap { next_kv : nat; trace : list call }.
Definition emit (calls : list call) (h : Heap) : Heap := mkHeap (next_kv h) (trace h ++ calls).

(** [KeyValues::_kv]. *)
Definition KeyValues : Type := option nat.

Definition KeyValues_new (h : Heap) : KeyValues * Heap := (Some (next_kv h), mkHeap (S (next_kv h)) (trace h ++ [NewKeyValues (next_kv h)])).
Definition KeyValues_Set (key : text) (v : value) (kv : KeyValues) (h : Heap) : Heap :=
  match kv with Some k => emit [SetKey k (c_str key) (match v with VText s => VText (c_str s) | _ => v end)] h | None => h end.
Definition KeyValues_drop (kv : KeyValues) (h : Heap) : Heap := match kv with Some k => emit [ReleaseKeyValues k] h | None => h end.
Definition Detach (kv : KeyValues) : option nat * KeyValues := (kv, None).

Definition set_keys (keys : list (text * value)) (kv : KeyValues) (h : Heap) : Heap := fold_left (fun h k => KeyValues_Set k.1 k.2 kv h) keys h.

(** [Entity::Spawn]. *)
Definition Entity_Spawn (en : Entity) (kv : KeyValues) (h : Heap) : KeyValues * Heap :=
  match e_raw en with
  | Some e => if bound en b_DispatchSpawn then let (taken, kv) := Detach kv in (kv, emit [DispatchSpawn e taken] h) else (kv, h)
  | None => (kv, h)
  end.

Record PropSpec := mkPropSpec {
  Model : text; Origin : vector; Angles : vector; Solid : bool; Skin : text; Scale : float32; CastsShadow : bool; Owner : Z }.

Definition SolidNone : Z := 0.
Definition SolidVPhysics : Z := 6.
Definition one : float32 := S754_finite false 8388608 (-23).
Definition no_entity : Entity := mkEntity None None.

Section Spawning.
  Context (class_chain : Z -> option (list text)) (resource_service : bool) (bindings : Bindings) (CreateEntity : text -> option Z).

Definition EntitySystem_Available : Status :=
  if negb resource_service then Err (Error_NotReady $"IGameResourceService not available")
  else if negb (b_GameEntitySystem bindings) then Err (Error_Unsupported $"the GameEntitySystem offset did not bind")
  else if negb (b_CreateEntityByName bindings) || negb (b_DispatchSpawn bindings) then Err (Error_Unsupported $"CreateEntityByName or DispatchSpawn did not bind")
  else Ok tt.

Definition Create (className : text) (h : Heap) : Entity * Heap :=
  match EntitySystem_Available, className with
  | Ok _, _ :: _ => (mkEntity (Some bindings) (CreateEntity (c_str className)), emit [CreateEntityByName (c_str className)] h)
  | _, _ => (no_entity, h)
  end.

Definition EntitySystem_Spawn (className : text) (kv : KeyValues) (h : Heap) : Entity * KeyValues * Heap :=
  let (en, h) := Create className h in let (kv, h) := Entity_Spawn en kv h in (en, kv, h).

(** A generated setter: a null entity ignores it. *)
Definition set_field (en : Entity) (field : text) (v : value) : list call := match e_raw en with Some e => [SetField e field v] | None => [] end.

Definition is_there (en : Entity) : bool := match e_raw en with Some _ => true | None => false end.

Definition SpawnProp (prop : PropSpec) (h : Heap) : Entity * Heap :=
  let (values, h) := KeyValues_new h in
  let h := set_keys ([($"model", VText (Model prop)); ($"origin", VVector (Origin prop)); ($"angles", VAngle (Angles prop));
                      ($"solid", VInt (if Solid prop then SolidVPhysics else SolidNone))] ++
                     (match Skin prop with [] => [] | skin => [($"skin", VText skin)] end) ++
                     (if CastsShadow prop then [] else [($"disableshadows", VInt 1)])) values h in
  let (en, h) := Create $"prop_dynamic" h in
  let h := if is_set (Owner prop) then emit (set_field en $"m_hOwnerEntity" (VRef (Owner prop))) h else h in
  let (values, h) := Entity_Spawn en values h in
  let h := if is_there en && negb (Solid prop) then emit (AcceptInput $"DisableCollision" [] no_entity en) h else h in
  let h := if is_there en && negb (feqb (Scale prop) one) then emit (SetScale (Scale prop) en) h else h in
  (en, KeyValues_drop values h).

Definition SpawnParticle (effect : text) (origin angles : vector) (h : Heap) : Entity * Heap :=
  match effect with
  | [] => (no_entity, h)
  | _ =>
      let (values, h) := KeyValues_new h in
      let h := set_keys [($"effect_name", VText effect); ($"start_active", VInt 1); ($"origin", VVector origin); ($"angles", VAngle angles)] values h in
      let '(en, values, h) := EntitySystem_Spawn $"info_particle_system" values h in
      (en, KeyValues_drop values h)
  end.

Definition SpawnLine (effect : text) (from : vector) (end_ : Z) (h : Heap) : Entity * Heap :=
  match effect with
  | [] => (no_entity, h)
  | _ =>
      let (line, h) := Create $"info_particle_system" h in
      if negb (is_there line) then (no_entity, h) else
      let h := emit (set_field line $"m_hControlPointEnts[1]" (VRef end_)) h in
      let (values, h) := KeyValues_new h in
      let h := set_keys [($"effect_name", VText effect); ($"start_active", VInt 1); ($"origin", VVector from)] values h in
      let (values, h) := Entity_Spawn line values h in
      (line, KeyValues_drop values h)
  end.

Definition SpawnBeam (from to : vector) (width : float32) (r g b a : Z) (h : Heap) : Entity * Heap :=
  let (line, h) := Create $"beam" h in
  if negb (is_there line) then (no_entity, h) else
  let h := emit (set_field line $"m_fWidth" (VFloat width) ++ set_field line $"m_fEndWidth" (VFloat width) ++ set_field line $"m_vecEndPos" (VVector to)) h in
  let h := emit (SetRender class_chain kRenderNormal r g b a line) h in
  let (values, h) := KeyValues_new h in
  let h := set_keys [($"origin", VVector from)] values h in
  let (values, h) := Entity_Spawn line values h in
  (line, KeyValues_drop values h).

(** What a plugin spawns; [AskValues] has keyvalues of its own and may spawn with them again. *)
Inductive spawn_call :=
| AskProp (prop : PropSpec)
| AskParticle (effect : text) (origin angles : vector)
| AskLine (effect : text) (from : vector) (end_ : Z)
| AskBeam (from to : vector) (width : float32) (r g b a : Z)
| AskValues (keys : list (text * value)) (classes : list text).

Definition run_spawn (h : Heap) (c : spawn_call) : Heap :=
  match c with
  | AskProp prop => (SpawnProp prop h).2
  | AskParticle effect origin angles => (SpawnParticle effect origin angles h).2
  | AskLine effect from end_ => (SpawnLine effect from end_ h).2
  | AskBeam from to width r g b a => (SpawnBeam from to width r g b a h).2
  | AskValues keys classes =>
      let (values, h) := KeyValues_new h in
      let h := set_keys keys values h in
      let '(values, h) := fold_left (fun acc className => let '(_, kv, h) := EntitySystem_Spawn className acc.1 acc.2 in (kv, h)) classes (values, h) in
      KeyValues_drop values h
  end.

Definition run_spawns (cs : list spawn_call) (h : Heap) : Heap := fold_left run_spawn cs h.

End Spawning.

End Calls.

(** * Theorems *)

(** ** No pointer outlives its map *)

Inductive moment := MapStarts (e : Engine) | Asks (e : Engine).

Definition live_through (ms : list moment) (s : EntitySystem) : EntitySystem :=
  fold_left (fun s m => match m with MapStarts e => OnServerStartup e s | Asks e => (Raw e s).2 end) ms s.

(** The engine's moments since the map last started. *)
Definition this_map (ms : list moment) (first : Engine) : list Engine :=
  fold_left (fun since m => match m with MapStarts e => [e] | Asks e => since ++ [e] end) ms [first].

Definition stood (since : list Engine) (p : Z) : Prop := exists e, e ∈ since /\ GameResourceService e = true /\ offset_read e = Some p.

Record system_ok (s : EntitySystem) (since : list Engine) : Prop := {
  so_published : published s = cached s;
  so_stood p : cached s = Some p -> stood since p;
  so_real : match isRealSystem s with Some true => True | _ => cached s = None end }.

Lemma stood_more since e p : stood since p -> stood (since ++ [e]) p.
Proof. intros (e' & Hin & H). exists e'. split; [|done]. apply elem_of_app. by left. Qed.

Lemma Raw_ok e s since : system_ok s since -> system_ok (Raw e s).2 (since ++ [e]) /\ (Raw e s).1 = cached (Raw e s).2.
Proof.
  intros [Hp Hs Hr]. unfold Raw. destruct (cached s) as [p|] eqn:Ec.
  { split; [|done]. split; cbn; [congruence|intros q Hq; apply stood_more; apply Hs; congruence|by rewrite Ec]. }
  split; [|by destruct (ReadEntitySystemPointer e s)]. unfold ReadEntitySystemPointer.
  destruct (GameResourceService e) eqn:Eg; cbn [negb orb].
  2:{ split; cbn; [done|done|by destruct (isRealSystem s) as [[]|]]. }
  assert (forall p, offset_read e = Some p -> stood (since ++ [e]) p) as Hnow.
  { intros p Ho. exists e. split; [apply elem_of_app; right; by apply list_elem_of_singleton|done]. }
  destruct (isRealSystem s) as [[]|] eqn:Er.
  - rewrite bool_decide_false by done. destruct (offset_read e) as [p|]; split; cbn; rewrite ?Er; try done; intros q [= <-]; by apply Hnow.
  - rewrite bool_decide_true by done. split; cbn; rewrite ?Er; done.
  - rewrite bool_decide_false by done. destruct (offset_read e) as [p|] eqn:Eo; [|split; cbn; by rewrite ?Er].
    destruct (CGameEntitySystem_table e) as [table|]; [destruct (IsInstanceOf e p table)|]; split; cbn; try done; intros q [= <-]; by apply Hnow.
Qed.

Lemma OnServerStartup_ok e s since : system_ok s since -> system_ok (OnServerStartup e s) [e].
Proof.
  intros [Hp Hs Hr]. unfold OnServerStartup. change [e] with ([] ++ [e]). apply Raw_ok. split; cbn; [done|done|].
  by destruct (isRealSystem s) as [[]|].
Qed.

Lemma live_through_ok ms s since : system_ok s since ->
  system_ok (live_through ms s) (fold_left (fun since m => match m with MapStarts e => [e] | Asks e => since ++ [e] end) ms since).
Proof.
  revert s since; induction ms as [|m ms IH]; intros s since Hs; [done|]. unfold live_through in *. cbn [fold_left]. apply IH.
  destruct m; [by eapply OnServerStartup_ok|by apply Raw_ok].
Qed.

Lemma EntitySystem_new_ok e : system_ok (EntitySystem_new e) [e].
Proof.
  unfold EntitySystem_new. assert (forall since, system_ok (mkEntitySystem None None None) since) as H0 by done.
  destruct (_ && _); [|apply H0]. change [e] with ([] ++ [e]). by apply Raw_ok.
Qed.

(** Whatever the engine holds from moment to moment: a lookup reaches the entity system through a pointer that stood at the offset since this map
    started, never an older map's, and once it has one it keeps it until the next map; a system that failed its check is never used, on any later map;
    and the SDK's accessor sees what lookups see. *)
Theorem system_of_this_map first ms e :
  let s := live_through ms (EntitySystem_new first) in
  (forall p, (Raw e s).1 = Some p -> stood (this_map ms first ++ [e]) p) /\
  (forall p later, (Raw e s).1 = Some p -> Forall (fun m => match m with Asks _ => True | MapStarts _ => False end) later ->
     forall e', (Raw e' (live_through later (Raw e s).2)).1 = Some p) /\
  (isRealSystem s = Some false -> forall later e', (Raw e' (live_through later s)).1 = None) /\
  published s = cached s.
Proof.
  intros s. pose proof (live_through_ok ms _ _ (EntitySystem_new_ok first)) as Hok. fold s in Hok. change (system_ok s (this_map ms first)) in Hok.
  split; [|split; [|split; [|apply Hok]]].
  - intros p Hp. destruct (Raw_ok e s _ Hok) as [Hok' Heq]. apply Hok'. by rewrite <- Heq.
  - intros p later Hp Hl e'. destruct (Raw_ok e s _ Hok) as [_ Heq]. rewrite Hp in Heq. symmetry in Heq.
    assert (forall s', cached s' = Some p -> cached (live_through later s') = Some p) as Hkeep.
    { induction later as [|m later IH]; intros s' Hs'; [done|]. apply Forall_cons in Hl as [Hm Hl]. destruct m as [e2|e2]; [done|].
      unfold live_through in *. cbn [fold_left]. apply IH; [done|]. unfold Raw. by rewrite Hs'. }
    unfold Raw at 1. by rewrite (Hkeep _ Heq).
  - intros Hf later e'.
    assert (forall s', isRealSystem s' = Some false -> cached s' = None -> cached (live_through later s') = None /\ isRealSystem (live_through later s') = Some false) as Hnone.
    { induction later as [|m later IH]; intros s' Hr Hc; [done|]. unfold live_through in *. cbn [fold_left].
      assert (forall e2 s2, isRealSystem s2 = Some false -> cached s2 = None -> cached (Raw e2 s2).2 = None /\ isRealSystem (Raw e2 s2).2 = Some false) as Hraw.
      { intros e2 s2 Hr2 Hc2. unfold Raw, ReadEntitySystemPointer. rewrite Hc2, Hr2, bool_decide_true, orb_true_r by done. by cbn. }
      destruct m as [e2|e2]; (apply IH; [apply Hraw|apply Hraw]); done. }
    pose proof (so_real _ _ Hok) as Hr. rewrite Hf in Hr. destruct (Hnone s Hf Hr) as [H1 H2].
    unfold Raw, ReadEntitySystemPointer. by rewrite H1, H2, bool_decide_true, orb_true_r by done.
Qed.

(** ** Verbs *)

Section VerbFacts.
  Context {vector : Type} (class_chain : Z -> option (list text)) (think_remove : Z -> bool) (system : option Z).
  Implicit Types (en : Entity) (c : call (vector := vector)).

Lemma when_targets en b calls : (forall e, Forall (fun c => target c = Some e) (calls e)) -> Forall (fun c => target c = e_raw en) (when (vector := vector) en b calls).
Proof. intros Hc. unfold when. destruct (e_raw en) as [e|] eqn:E; [|done]. destruct (bound en b); [apply Hc|done]. Qed.

Lemma FireInput_targets input v activator en : Forall (fun c => target c = e_raw en) (FireInput (vector := vector) input v activator en).
Proof. unfold FireInput. destruct input; [done|]. apply when_targets. intros e. by repeat constructor. Qed.

Lemma SetRender_targets mode r g b a en : Forall (fun c => target c = e_raw en) (SetRender (vector := vector) class_chain mode r g b a en).
Proof. unfold SetRender. destruct (IsModelEntity _ _); [|done]. destruct (e_raw en) as [e|]; [|done]. by repeat constructor. Qed.

Lemma run_verb_targets (v : verb (vector := vector)) en : Forall (fun c => target c = e_raw en) (run_verb class_chain think_remove system v en).
Proof.
  assert (forall calls b s, (forall e, Forall (fun c => target c = Some e) (calls e)) ->
    Forall (fun c => target c = e_raw en) (match s : text with [] => [] | _ => when en b calls end)) as Hwhen.
  { intros calls b s Hc. destruct s; [done|]. by apply when_targets. }
  destruct v; cbn [run_verb].
  - apply when_targets. intros e. by repeat constructor.
  - apply FireInput_targets.
  - unfold Remove. destruct (e_raw en) as [e|]; [|done]. destruct (think_remove e); by repeat constructor.
  - unfold RemoveAfter. destruct system; [|done]. apply when_targets. intros e. by repeat constructor.
  - unfold SetModel. destruct path; [done|]. destruct (IsModelEntity _ _); [|done]. apply when_targets. intros e. by repeat constructor.
  - apply FireInput_targets.
  - apply SetRender_targets.
  - apply SetRender_targets.
  - unfold PlayAnimation. apply Forall_app. split; [destruct idle; [done|]|]; apply FireInput_targets.
  - unfold SetMoveType. destruct (e_raw en) as [e|]; [|done]. by repeat constructor.
  - apply Hwhen. intros e. by repeat constructor.
  - apply Hwhen. intros e. by repeat constructor.
  - apply Hwhen. intros e. by repeat constructor.
Qed.

(** No call about no entity. *)
Lemma no_target (v : verb (vector := vector)) en : e_raw en = None -> run_verb class_chain think_remove system v en = [].
Proof.
  intros He. unfold run_verb, Teleport, AcceptInput, FireInput, Remove, RemoveAfter, SetModel, SetScale, SetVisible, SetRender, PlayAnimation, AcceptInput,
    FireInput, SetMoveType, EmitSound, EmitSoundTo, StopSound, when, IsModelEntity. rewrite He.
  destruct v; try done; repeat case_match; done.
Qed.

End VerbFacts.

(** ** Scales *)

Lemma clamp_bounds x : is_nan x = false -> SFleb MinScale (clamp x MinScale MaxScale) = true /\ SFleb (clamp x MinScale MaxScale) MaxScale = true.
Proof.
  intros Hx. unfold clamp. destruct (SFltb x MinScale) eqn:Hlo; [by vm_compute|]. destruct (SFltb MaxScale x) eqn:Hhi; [by vm_compute|].
  unfold SFltb, SFleb in *.
  assert (forall a b, is_nan a = false -> is_nan b = false -> SFcompare b a = option_map CompOpp (SFcompare a b)) as Hanti.
  { intros a b Ha Hb. destruct a as [sa|sa| |sa ma ea], b as [sb|sb| |sb mb eb]; try done; destruct sa, sb; cbn; try done.
    all: rewrite (Z.compare_antisym ea eb); destruct (Z.compare ea eb); cbn; try done.
    all: pose proof (Pos.compare_antisym ma mb) as Hp; unfold Pos.compare in Hp; rewrite Hp; by destruct (PosDef.Pos.compare_cont Eq ma mb). }
  split.
  - rewrite (Hanti x MinScale) by done. destruct (SFcompare x MinScale) as [[]|] eqn:E; try done.
    destruct x as [s|s| |s m e]; try done; destruct s; by cbn in E.
  - rewrite (Hanti MaxScale x) by done. destruct (SFcompare MaxScale x) as [[]|] eqn:E; try done.
    destruct x as [s|s| |s m e]; try done; destruct s; by cbn in E.
Qed.

(** The clamp lets a scale through that is not a number. *)
Lemma nan_scale_passes : clamp S754_nan MinScale MaxScale = S754_nan.
Proof. by vm_compute. Qed.

(** A falsy entity makes no call of the engine, whatever is asked of it; a live one's verbs call only about itself; and whatever scale is asked
    for, a number at least, what reaches the engine lies within the bounds that are safe for it. *)
Theorem verbs_stay_on_entity {vector} class_chain think_remove system (v : verb (vector := vector)) en :
  (e_raw en = None -> run_verb class_chain think_remove system v en = []) /\
  Forall (fun c => target c = e_raw en) (run_verb class_chain think_remove system v en) /\
  (forall scale e input x activator, v = DoSetScale scale -> is_nan scale = false ->
     CallAcceptInput e input (VFloat x) activator ∈ run_verb class_chain think_remove system v en -> SFleb MinScale x = true /\ SFleb x MaxScale = true).
Proof.
  split; [apply no_target|]. split; [apply run_verb_targets|]. intros scale e input x activator -> Hn. cbn [run_verb]. unfold SetScale, FireInput, when.
  change (($"SetScale" : text)) with ("S"%char :: tl $"SetScale"). cbn match. destruct (e_raw en) as [e'|]; [|by rewrite elem_of_nil].
  destruct (bound en b_AcceptInput); [|by rewrite elem_of_nil]. rewrite list_elem_of_singleton. intros [= -> -> -> ->]. by apply clamp_bounds.
Qed.

(** ** Every keyvalues object ends once *)

Section Ownership.
  Context {vector : Type}.
  Notation call := (call (vector := vector)).

(** The keyvalues that are held, and those that are gone; none at a use of one that is not held, or a second end. *)
Definition kv_step (st : option (gset nat * gset nat)) (c : call) : option (gset nat * gset nat) :=
  match st with
  | None => None
  | Some (held, gone) =>
      match c with
      | NewKeyValues k => if bool_decide (k ∈ held ∪ gone) then None else Some ({[k]} ∪ held, gone)
      | SetKey k _ _ => if bool_decide (k ∈ held) then Some (held, gone) else None
      | ReleaseKeyValues k | DispatchSpawn _ (Some k) => if bool_decide (k ∈ held) then Some (held ∖ {[k]}, {[k]} ∪ gone) else None
      | _ => Some (held, gone)
      end
  end.

Definition kv_run (t : list call) : option (gset nat * gset nat) := fold_left kv_step t (Some (∅, ∅)).

Definition heap_holds (h : Heap) (held : gset nat) : Prop :=
  exists gone, kv_run (trace h) = Some (held, gone) /\ forall k, k ∈ held ∪ gone -> (k < next_kv h)%nat.

(** A call that is not about keyvalues. *)
Definition neutral (c : call) : Prop := match c with NewKeyValues _ | SetKey _ _ _ | ReleaseKeyValues _ | DispatchSpawn _ (Some _) => False | _ => True end.

Lemma emit_neutral calls h held : Forall neutral calls -> heap_holds h held -> heap_holds (emit calls h) held.
Proof.
  intros Hn (gone & Hr & Hk). exists gone. split; [|done]. unfold kv_run, emit in *. cbn [trace]. rewrite fold_left_app, Hr. clear -Hn.
  induction Hn as [|c calls Hc _ IH]; [done|]. cbn [fold_left]. destruct c as [| | | |e [k|]| | | | | | | | |]; done.
Qed.

Lemma emit_end c k h held : (c = ReleaseKeyValues k \/ exists e, c = DispatchSpawn e (Some k)) -> k ∈ held -> heap_holds h held -> heap_holds (emit [c] h) (held ∖ {[k]}).
Proof.
  intros Hc Hin (gone & Hr & Hk). exists ({[k]} ∪ gone). unfold kv_run, emit in *. cbn [trace next_kv]. rewrite fold_left_app, Hr. split.
  - destruct Hc as [->|[e ->]]; cbn; by rewrite bool_decide_true.
  - intros j Hj. apply Hk. destruct (decide (j = k)) as [->|]; set_solver.
Qed.

(** What a [KeyValues] holds. *)
Definition held_by (kv : KeyValues) : gset nat := match kv with Some k => {[k]} | None => ∅ end.

Lemma new_holds h : heap_holds h ∅ -> heap_holds (KeyValues_new h).2 (held_by (KeyValues_new h).1).
Proof.
  intros (gone & Hr & Hk). exists gone. cbn [KeyValues_new fst snd held_by]. unfold kv_run in *. cbn [trace next_kv]. rewrite fold_left_app, Hr. cbn.
  rewrite bool_decide_false by (intros Hin; specialize (Hk _ Hin); lia). split; [f_equal; f_equal; set_solver|].
  intros k Hin. assert (k = next_kv h \/ k ∈ ∅ ∪ gone) as [->|H'] by set_solver; [lia|]. specialize (Hk _ H'). lia.
Qed.

Lemma set_holds key v kv h : heap_holds h (held_by kv) -> heap_holds (KeyValues_Set key v kv h) (held_by kv).
Proof.
  intros (gone & Hr & Hk). destruct kv as [k|]; [|by exists gone]. exists gone. unfold kv_run in *. cbn. rewrite fold_left_app, Hr. cbn.
  by rewrite bool_decide_true by set_solver.
Qed.

Lemma set_keys_holds keys kv h : heap_holds h (held_by kv) -> heap_holds (set_keys keys kv h) (held_by kv).
Proof. revert h; induction keys as [|k keys IH]; intros h Hh; [done|]. unfold set_keys in *. cbn [fold_left]. apply IH. by apply set_holds. Qed.

Lemma spawn_holds en kv h : heap_holds h (held_by kv) -> heap_holds (Entity_Spawn en kv h).2 (held_by (Entity_Spawn en kv h).1).
Proof.
  intros Hh. unfold Entity_Spawn. destruct (e_raw en) as [e|]; [|done]. destruct (bound en b_DispatchSpawn); [|done]. cbn.
  destruct kv as [k|]; [|apply emit_neutral; [by repeat constructor|done]].
  replace (∅ : gset nat) with (held_by (Some k) ∖ {[k]}) by set_solver. apply emit_end; [right; by eexists|set_solver|done].
Qed.

Lemma drop_holds kv h : heap_holds h (held_by kv) -> heap_holds (KeyValues_drop kv h) ∅.
Proof.
  intros Hh. destruct kv as [k|]; [|done]. cbn. replace (∅ : gset nat) with (held_by (Some k) ∖ {[k]}) by set_solver.
  apply emit_end; [by left|set_solver|done].
Qed.

Context (class_chain : Z -> option (list text)) (resource_service : bool) (bindings : Bindings) (CreateEntity : text -> option Z).

Lemma create_holds className h held : heap_holds h held -> heap_holds (Create resource_service bindings CreateEntity className h).2 held.
Proof.
  intros Hh. unfold Create. destruct (EntitySystem_Available _ _); [|done]. destruct className; [done|]. apply emit_neutral; [by repeat constructor|done].
Qed.

Lemma entity_calls_neutral e calls : Forall (fun c : call => target c = e) calls -> Forall (fun c => match c with DispatchSpawn _ _ => False | _ => True end) calls ->
  e <> None -> Forall neutral calls.
Proof. intros H1 H2 He. induction H1 as [|c calls Hc _ IH]; [done|]. apply Forall_cons in H2 as [Hd H2]. constructor; [destruct c; try done; by destruct He|by apply IH]. Qed.

Lemma FireInput_neutral input v activator en : Forall neutral (FireInput (vector := vector) input v activator en).
Proof. unfold FireInput, when. destruct input; [done|]. destruct (e_raw en); [|done]. destruct (bound en _); by repeat constructor. Qed.

Lemma set_field_neutral en field v : Forall neutral (set_field (vector := vector) en field v).
Proof. unfold set_field. destruct (e_raw en); by repeat constructor. Qed.

Lemma SetRender_neutral mode r g b a en : Forall neutral (SetRender (vector := vector) class_chain mode r g b a en).
Proof. unfold SetRender. destruct (IsModelEntity _ _); [|done]. destruct (e_raw en); by repeat constructor. Qed.

#[local] Hint Resolve FireInput_neutral set_field_neutral SetRender_neutral : volt.

Lemma emit_if (b : bool) calls h held : Forall neutral calls -> heap_holds h held -> heap_holds (if b then emit calls h else h) held.
Proof. intros Hn Hh. destruct b; [by apply emit_neutral|done]. Qed.

Notation run_spawn := (run_spawn class_chain resource_service bindings CreateEntity).

Lemma run_spawn_holds c h : heap_holds h ∅ -> heap_holds (run_spawn h c) ∅.
Proof.
  intros Hh. destruct c as [prop|effect origin angles|effect from end_|from to width r g b a|keys classes]; cbn [Entities.run_spawn].
  - unfold SpawnProp. pose proof (new_holds h Hh) as H1. destruct (KeyValues_new h) as [kv h1]. cbn [fst snd] in H1.
    match goal with |- context [set_keys ?ks kv h1] => pose proof (set_keys_holds ks kv h1 H1) as H2; set (h2 := set_keys ks kv h1) in * end.
    pose proof (create_holds $"prop_dynamic" h2 _ H2) as H3. destruct (Create _ _ _ _ h2) as [en h3]. cbn [snd] in H3.
    assert (heap_holds (if is_set (Owner prop) then emit (set_field en $"m_hOwnerEntity" (VRef (Owner prop))) h3 else h3) (held_by kv)) as H4 by auto using emit_if with volt.
    set (h4 := if is_set (Owner prop) then _ else h3) in *.
    pose proof (spawn_holds en kv h4 H4) as H5. destruct (Entity_Spawn en kv h4) as [kv' h5]. cbn [fst snd] in *. apply drop_holds.
    apply emit_if; [apply FireInput_neutral|]. apply emit_if; [apply FireInput_neutral|done].
  - unfold SpawnParticle. destruct effect as [|c0 effect]; [done|]. pose proof (new_holds h Hh) as H1. destruct (KeyValues_new h) as [kv h1]. cbn [fst snd] in H1.
    match goal with |- context [set_keys ?ks kv h1] => pose proof (set_keys_holds ks kv h1 H1) as H2; set (h2 := set_keys ks kv h1) in * end.
    unfold EntitySystem_Spawn. pose proof (create_holds $"info_particle_system" h2 _ H2) as H3. destruct (Create _ _ _ _ h2) as [en h3]. cbn [snd] in H3.
    pose proof (spawn_holds en kv h3 H3) as H5. destruct (Entity_Spawn en kv h3) as [kv' h5]. cbn [fst snd] in *. by apply drop_holds.
  - unfold SpawnLine. destruct effect as [|c0 effect]; [done|]. pose proof (create_holds $"info_particle_system" h _ Hh) as H1.
    destruct (Create _ _ _ _ h) as [en h1]. cbn [snd] in H1. destruct (is_there en); cbn [negb]; [|done].
    pose proof (emit_neutral _ _ _ (set_field_neutral en $"m_hControlPointEnts[1]" (VRef end_)) H1) as H2. set (h2 := emit _ h1) in *.
    pose proof (new_holds h2 H2) as H3. destruct (KeyValues_new h2) as [kv h3]. cbn [fst snd] in H3.
    match goal with |- context [set_keys ?ks kv h3] => pose proof (set_keys_holds ks kv h3 H3) as H4; set (h4 := set_keys ks kv h3) in * end.
    pose proof (spawn_holds en kv h4 H4) as H5. destruct (Entity_Spawn en kv h4) as [kv' h5]. cbn [fst snd] in *. by apply drop_holds.
  - unfold SpawnBeam. pose proof (create_holds $"beam" h _ Hh) as H1. destruct (Create _ _ _ _ h) as [en h1]. cbn [snd] in H1.
    destruct (is_there en); cbn [negb]; [|done].
    assert (Forall neutral (set_field (vector := vector) en $"m_fWidth" (VFloat width) ++ set_field en $"m_fEndWidth" (VFloat width) ++ set_field en $"m_vecEndPos" (VVector to))) as Hf
      by (rewrite !Forall_app; auto with volt).
    pose proof (emit_neutral _ _ _ (SetRender_neutral kRenderNormal r g b a en) (emit_neutral _ _ _ Hf H1)) as H2. set (h2 := emit _ (emit _ h1)) in *.
    pose proof (new_holds h2 H2) as H3. destruct (KeyValues_new h2) as [kv h3]. cbn [fst snd] in H3.
    match goal with |- context [set_keys ?ks kv h3] => pose proof (set_keys_holds ks kv h3 H3) as H4; set (h4 := set_keys ks kv h3) in * end.
    pose proof (spawn_holds en kv h4 H4) as H5. destruct (Entity_Spawn en kv h4) as [kv' h5]. cbn [fst snd] in *. by apply drop_holds.
  - pose proof (new_holds h Hh) as H1. destruct (KeyValues_new h) as [kv h1]. cbn [fst snd] in H1. pose proof (set_keys_holds keys kv h1 H1) as H2.
    set (h2 := set_keys keys kv h1) in *. clearbody h2. clear H1 h1 Hh. revert kv h2 H2. induction classes as [|class classes IH]; intros kv h2 H2; cbn [fold_left].
    + by apply drop_holds.
    + unfold EntitySystem_Spawn at 2. cbn [fst snd]. pose proof (create_holds class h2 _ H2) as H3. destruct (Create _ _ _ _ h2) as [en h3]. cbn [snd] in H3.
      pose proof (spawn_holds en kv h3 H3) as H5. destruct (Entity_Spawn en kv h3) as [kv' h5]. cbn [fst snd] in H5. by apply IH.
Qed.

End Ownership.

(** C13. Whatever plugins spawn and whatever the engine refuses: every keyvalues object is made once, is set only while it is held, and ends once - taken by
    the engine with the spawn, or released here -, and none is held when the calls are over. *)
Theorem keyvalues_end_once {vector} class_chain resource_service bindings CreateEntity (cs : list (spawn_call (vector := vector))) :
  exists gone, kv_run (trace (run_spawns class_chain resource_service bindings CreateEntity cs (mkHeap 0 []))) = Some (∅, gone).
Proof.
  assert (forall h, heap_holds h ∅ -> heap_holds (run_spawns class_chain resource_service bindings CreateEntity cs h) ∅) as Hrun.
  { induction cs as [|c cs IH]; intros h Hh; [done|]. unfold run_spawns in *. cbn [fold_left]. apply IH. by apply run_spawn_holds. }
  destruct (Hrun (mkHeap 0 [])) as (gone & Hg & _); [|by exists gone]. exists ∅. split; [done|]. set_solver.
Qed.
