(* ===== verification/Pawns.v ===== *)
(** * Pawns and controllers: [Entities/{Pawn,Controller,Rounds}.cpp], [Engine/Team.hpp]

    A player's body and identity as the engine's fields and calls: health, the item given through a team swap, weapons in hand, commands
    run as a player, rounds ended. The engine's functions, its field accessors' storage and its tokenizer are arguments. *)

From S2P Require Import Prelude Text Identity Errors Entities.

(** [Team]; a byte that is none of them is kept as it is. *)
Definition TeamNone : Z := 0.
Definition TeamSpectator : Z := 1.
Definition TeamT : Z := 2.
Definition TeamCT : Z := 3.
Definition IsPlaying (team : Z) : bool := (team =? TeamT) || (team =? TeamCT).
Definition Opposite (team : Z) : Z := if team =? TeamT then TeamCT else if team =? TeamCT then TeamT else TeamNone.

Section Pawns.
  Context {vector : Type} (zero : vector).
  (** The SDK's flags; the engine's functions that bound. *)
  Context (FL_GODMODE FL_ONGROUND : Z).

Record WeaponServices := mkWeapons { ActiveWeapon : Z; LastWeapon : Z; MyWeapons : list Z }.

(** The fields of an instance, as its generated accessors read and write them. *)
Record Fields := mkFields {
  Health : Z; MaxHealth : Z; LifeState : Z; Flags : Z; TeamNum : Z; AbsVelocity : vector; ItemServices : option Z; Weapon_services : option WeaponServices;
  Observer_mode : option Z; ControllerRef : Z }.

(** What reading a null entity gives. *)
Definition no_fields : Fields := mkFields 0 0 0 0 0 zero None None None Unset.

Inductive pawn_call :=
| RemoveAllItems (services : Z) (suit : bool) | SelectItem (e : Z) (weapon : Z) | QueueKill (weapon : Z) | CommitSuicide (e : Z)
| DisconnectClient (slot : Z) (reason : text) | DispatchConCommand (slot : Z) (args : list text) | ClientCommand (slot : Z) (args : list text)
| CallChangeTeam (e team : Z) | CallRespawn (e : Z) | TerminateRound (rules : Z) (delay : Z) (reason : Z) | SetRoundTime (rules : Z) (seconds : Z).

Record World := mkWorld { fields : gmap Z Fields; next_attacks : gmap Z (Z * Z); calls : list pawn_call }.

Definition call_ (c : pawn_call) (w : World) : World := mkWorld (fields w) (next_attacks w) (calls w ++ [c]).
Definition read (e : option Z) (w : World) : Fields := default no_fields (e ≫= fun e => fields w !! e).
Definition write (e : option Z) (f : Fields -> Fields) (w : World) : World :=
  match e with Some e => mkWorld (alter f e (fields w)) (next_attacks w) (calls w) | None => w end.

Definition set_health (h : Z) (x : Fields) : Fields :=
  mkFields h (MaxHealth x) (LifeState x) (Flags x) (TeamNum x) (AbsVelocity x) (ItemServices x) (Weapon_services x) (Observer_mode x) (ControllerRef x).
Definition set_flags (flags : Z) (x : Fields) : Fields :=
  mkFields (Health x) (MaxHealth x) (LifeState x) flags (TeamNum x) (AbsVelocity x) (ItemServices x) (Weapon_services x) (Observer_mode x) (ControllerRef x).
Definition set_team (team : Z) (x : Fields) : Fields :=
  mkFields (Health x) (MaxHealth x) (LifeState x) (Flags x) team (AbsVelocity x) (ItemServices x) (Weapon_services x) (Observer_mode x) (ControllerRef x).
Definition set_velocity (v : vector) (x : Fields) : Fields :=
  mkFields (Health x) (MaxHealth x) (LifeState x) (Flags x) (TeamNum x) v (ItemServices x) (Weapon_services x) (Observer_mode x) (ControllerRef x).
Definition set_observer (mode : Z) (x : Fields) : Fields :=
  mkFields (Health x) (MaxHealth x) (LifeState x) (Flags x) (TeamNum x) (AbsVelocity x) (ItemServices x) (Weapon_services x) (Some mode) (ControllerRef x).

(** A wrapper: whether [_sys] is set, and [_e]. *)
Record Wrapper := mkWrapper { sys : bool; raw : option Z }.
Definition nothing : Wrapper := mkWrapper false None.

Definition IsAlive (p : Wrapper) (w : World) : bool := bool_decide (raw p <> None) && (LifeState (read (raw p) w) =? 0).
Definition IsOnGround (p : Wrapper) (w : World) : bool := negb (Z.land (Flags (read (raw p) w)) FL_ONGROUND =? 0).
Definition Godmode (p : Wrapper) (w : World) : bool := negb (Z.land (Flags (read (raw p) w)) FL_GODMODE =? 0).

(** [flags & ~bit] of a [uint32_t]. *)
Definition without_flag (flags bit : Z) : Z := Z.ldiff flags bit.

Definition SetGodmode (on : bool) (p : Wrapper) (w : World) : World :=
  let flags := Flags (read (raw p) w) in write (raw p) (set_flags (if on then Z.lor flags FL_GODMODE else without_flag flags FL_GODMODE)) w.

Definition SetVelocity (v : vector) (p : Wrapper) (w : World) : World :=
  let w := write (raw p) (set_velocity v) w in write (raw p) (set_flags (without_flag (Flags (read (raw p) w)) FL_ONGROUND)) w.

(** The sum is an [int]'s. *)
Definition Heal (amount : Z) (p : Wrapper) (w : World) : outcome (bool * World) :=
  let health := Health (read (raw p) w) in
  if negb (in_i32 (health + amount)) then Undefined else
  let healed := Z.min (health + amount) (MaxHealth (read (raw p) w)) in
  if negb (IsAlive p w) || (healed <=? health) then Returns (false, w) else Returns (true, write (raw p) (set_health healed) w).

Section Items.
  Context (GiveNamedItem : option (Z -> text -> World -> option Z * World)) (b_RemoveAllItems b_SelectItem b_IOEvent b_CommitSuicide : bool).
  (** [EntitySystem::Get], an instance's own handle, its index and class name. *)
  Context (resolve : Z -> option Z) (handle_of : Z -> Z) (index_of : Z -> Z) (class_name : Z -> text) (is_weapon : Z -> bool).

Definition GiveItem (item : text) (p : Wrapper) (w : World) : Wrapper * World :=
  match ItemServices (read (raw p) w), item, GiveNamedItem with
  | Some services, _ :: _, Some give =>
      if negb (sys p) then (nothing, w) else
      let (given, w) := give services (c_str item) w in
      match given with
      | Some e => (mkWrapper true (Some e), w)
      | None =>
          let team := TeamNum (read (raw p) w) in
          let other := Opposite team in
          if other =? TeamNone then (nothing, w) else
          let w := write (raw p) (set_team other) w in
          let (given, w) := give services (c_str item) w in
          let w := write (raw p) (set_team team) w in
          (mkWrapper true given, w)
      end
  | _, _, _ => (nothing, w)
  end.

Definition StripWeapons (suit : bool) (p : Wrapper) (w : World) : bool * World :=
  match ItemServices (read (raw p) w) with
  | Some services => if sys p && b_RemoveAllItems then (true, call_ (RemoveAllItems services suit) w) else (false, w)
  | None => (false, w)
  end.

Definition Weapons (p : Wrapper) (w : World) : list Z :=
  match Weapon_services (read (raw p) w) with Some services => if sys p then omap resolve (MyWeapons services) else [] | None => [] end.

(** [Entity::Ref] of an entity that may be falsy. *)
Definition Ref (e : option Z) : Z := match e with Some e => handle_of e | None => Unset end.

Definition SelectWeapon (weapon : option Z) (p : Wrapper) (w : World) : World :=
  match weapon, Weapon_services (read (raw p) w), raw p with
  | Some weapon, Some _, Some e =>
      if sys p && b_SelectItem && existsb (fun held => handle_of held =? handle_of weapon) (Weapons p w) then call_ (SelectItem e weapon) w else w
  | _, _, _ => w
  end.

Definition RemoveWeapon (weapon : option Z) (p : Wrapper) (w : World) : World :=
  let services := Weapon_services (read (raw p) w) in
  let inHand := bool_decide (weapon <> None) && sys p && match services with Some s => ActiveWeapon s =? Ref weapon | None => false end in
  let w := if inHand && IsAlive p w then match services with Some s => SelectWeapon (resolve (LastWeapon s)) p w | None => w end else w in
  match weapon with Some weapon => if b_IOEvent then call_ (QueueKill weapon) w else w | None => w end.

(** The attack ticks of the weapon in hand. *)
Definition HoldFire (tick : Z) (p : Wrapper) (w : World) : World :=
  match Weapon_services (read (raw p) w) with
  | Some s =>
      match (if sys p then resolve (ActiveWeapon s) else None) with
      | Some weapon =>
          let (primary, secondary) := default (0, 0) (next_attacks w !! weapon) in
          mkWorld (fields w) (<[weapon := (if primary <? tick then tick else primary, if secondary <? tick then tick else secondary)]> (next_attacks w)) (calls w)
      | None => w
      end
  | None => w
  end.

Definition Slay (p : Wrapper) (w : World) : World :=
  match raw p with Some e => if sys p && b_CommitSuicide then call_ (CommitSuicide e) w else w | None => w end.

Definition AsPawn (en : Wrapper) : Wrapper :=
  if sys en && match raw en with Some e => text_eqb (class_name e) $"player" | None => false end then mkWrapper true (raw en) else nothing.

Definition ObserverMode (p : Wrapper) (w : World) : Z := default 0 (Observer_mode (read (raw p) w)).
Definition SetObserverMode (mode : Z) (p : Wrapper) (w : World) : Status * World :=
  match Observer_mode (read (raw p) w) with
  | None => (Err (Error_NotReady $"observer services unavailable"), w)
  | Some _ => (Ok tt, write (raw p) (set_observer mode) w)
  end.

(** [Pawn::Slot]: an index of -1 where there is no entity. *)
Definition Slot (p : Wrapper) (w : World) : Z :=
  let controller := if sys p then (if is_set (ControllerRef (read (raw p) w)) then resolve (ControllerRef (read (raw p) w)) else None) else None in
  match controller with
  | Some c => let slot := index_of c - 1 in if IsValidSlot slot then slot else -1
  | None => -1
  end.

End Items.

(** ** [Controller] *)

Section Controllers.
  (** The interfaces that are there, the functions that bound, the SDK's tokenizer and the console's commands. *)
  Context (has_engine has_cvar has_clients b_ChangeTeam b_Respawn b_TerminateRound : bool) (Tokenize : text -> option (list text)) (FindConCommand : text -> bool).

Record Controller := mkController { c_sys : bool; c_raw : option Z; c_slot : Z }.

Definition Kick (reason : text) (c : Controller) (w : World) : World :=
  match c_raw c with Some _ => if c_sys c && has_engine then call_ (DisconnectClient (c_slot c) (c_str reason)) w else w | None => w end.

Definition separates (ch : ascii) : bool := (code ch =? 59) || (code ch =? 13) || (code ch =? 10).

Definition TokenizeOneCommand (command : text) : option (list text) :=
  match command with
  | [] => None
  | _ => if existsb separates command then None else match Tokenize (c_str command) with Some (arg :: args) => Some (arg :: args) | _ => None end
  end.

Definition ExecuteCommand (command : text) (c : Controller) (w : World) : World :=
  match c_raw c with
  | None => w
  | Some _ =>
      if negb (c_sys c) || negb (IsValidSlot (c_slot c)) then w else
      if negb has_cvar || negb has_clients then w else
      match TokenizeOneCommand command with
      | None => w
      | Some args => if FindConCommand (hd [] args) then call_ (DispatchConCommand (c_slot c) args) w else call_ (ClientCommand (c_slot c) args) w
      end
  end.

Definition ChangeTeam (team : Z) (c : Controller) (w : World) : World :=
  match c_raw c with
  | Some e => if c_sys c && ((team =? TeamSpectator) || IsPlaying team) && b_ChangeTeam then call_ (CallChangeTeam e team) w else w
  | None => w
  end.

Definition Respawn (c : Controller) (w : World) : Status * World :=
  match c_raw c with
  | Some e =>
      if negb (c_sys c) then (Err (Error_NotReady $"no controller"), w)
      else if negb b_Respawn then (Err (Error_Unsupported $"gamedata has no 'CCSPlayerController::Respawn' vtable index"), w)
      else (Ok tt, call_ (CallRespawn e) w)
  | None => (Err (Error_NotReady $"no controller"), w)
  end.

(** ** [Rounds]: the game rules, none before a map *)

Definition NoGameRules : Status := Err (Error_NotReady $"no game rules: is a map running?").

Definition Rounds_Available : Status :=
  if negb b_TerminateRound then Err (Error_Unsupported $"the CCSGameRules::TerminateRound signature did not bind") else Ok tt.

Definition End_ (rules : option Z) (reason delay : Z) (w : World) : Status * World :=
  match Rounds_Available, rules with
  | Err e, _ => (Err e, w)
  | Ok _, None => (NoGameRules, w)
  | Ok _, Some rules => (Ok tt, call_ (TerminateRound rules delay reason) w)
  end.

Definition SetTime (rules : option Z) (seconds : Z) (w : World) : Status * World :=
  match rules with None => (NoGameRules, w) | Some rules => (Ok tt, call_ (SetRoundTime rules seconds) w) end.

End Controllers.

End Pawns.

(** * Theorems *)

Section PawnFacts.
  Context {vector : Type} (zero : vector) (FL_GODMODE FL_ONGROUND : Z).
  Implicit Types (w : World (vector := vector)) (p : Wrapper).
  Notation read := (read zero).

Lemma fields_read_write e f w : read (Some e) (write (Some e) f w) = match fields w !! e with Some x => f x | None => no_fields zero end.
Proof. unfold Pawns.read. cbn. rewrite lookup_alter_eq. by destruct (fields w !! e). Qed.

Lemma alive_raw p w : IsAlive zero p w = true -> exists e, raw p = Some e.
Proof. unfold IsAlive. destruct (raw p) as [e|]; [by exists e|by rewrite bool_decide_false by (intros []; done)]. Qed.

(** One bit of the flags, and no other. *)
Lemma SetGodmode_bits on p w bit e : FL_GODMODE = Z.shiftl 1 bit -> 0 <= bit -> raw p = Some e -> is_Some (fields w !! e) ->
  Godmode zero FL_GODMODE p (SetGodmode zero FL_GODMODE on p w) = on /\
  (forall n, n <> bit -> Z.testbit (Flags (read (raw p) (SetGodmode zero FL_GODMODE on p w))) n = Z.testbit (Flags (read (raw p) w)) n).
Proof.
  intros Hb Hbit Hr [x Hx]. assert (Flags (read (raw p) (SetGodmode zero FL_GODMODE on p w)) =
    if on then Z.lor (Flags x) FL_GODMODE else Z.ldiff (Flags x) FL_GODMODE) as Hf.
  { unfold SetGodmode. rewrite Hr, fields_read_write, Hx. unfold Pawns.read. cbn. rewrite Hx. destruct on; cbn. all: idtac. done. done. }
  assert (forall n, 0 <= n -> Z.testbit FL_GODMODE n = (n =? bit)) as Hone.
  { intros n Hn. rewrite Hb, Z.shiftl_1_l, Z.pow2_bits_eqb by done. apply Z.eqb_sym. }
  split.
  - unfold Godmode. rewrite Hf. destruct on.
    + apply negb_true_iff, Z.eqb_neq. intros H0. assert (Z.testbit (Z.land (Z.lor (Flags x) FL_GODMODE) FL_GODMODE) bit = false) as Hc by (by rewrite H0, Z.bits_0).
      rewrite Z.land_spec, Z.lor_spec, Hone, Z.eqb_refl, orb_true_r in Hc by done. done.
    + apply negb_false_iff, Z.eqb_eq. apply Z.bits_inj'. intros n Hn. rewrite Z.land_spec, Z.ldiff_spec, Z.bits_0. by destruct (Z.testbit (Flags x) n), (Z.testbit FL_GODMODE n).
  - intros n Hn. rewrite Hf. assert (read (raw p) w = x) as -> by (unfold Pawns.read; rewrite Hr; cbn; by rewrite Hx).
    destruct (Z.ltb_spec n 0) as [Hlt|Hge]; [by rewrite !Z.testbit_neg_r|].
    destruct on; rewrite ?Z.lor_spec, ?Z.ldiff_spec, Hone by done; destruct (Z.eqb_spec n bit); try done; by rewrite ?orb_false_r, ?andb_true_r.
Qed.

(** [Heal]: never past the maximum, never down, never the dead. *)
Lemma Heal_spec amount p w e x : raw p = Some e -> fields w !! e = Some x -> in_i32 (Health x + amount) = true ->
  Heal zero amount p w =
    Returns (if (LifeState x =? 0) && (0 <? amount) && (Health x <? MaxHealth x)
             then (true, write (Some e) (set_health (Z.min (Health x + amount) (MaxHealth x))) w) else (false, w)).
Proof.
  intros Hr Hx Hi. assert (read (raw p) w = x) as Hread by (unfold Pawns.read; rewrite Hr; cbn; by rewrite Hx).
  unfold Heal, IsAlive. rewrite Hread, Hi, Hr, bool_decide_true by done. cbn [negb andb].
  destruct (LifeState x =? 0); cbn [negb orb andb]; [|done].
  destruct (Z.leb_spec (Z.min (Health x + amount) (MaxHealth x)) (Health x)), (Z.ltb_spec 0 amount), (Z.ltb_spec (Health x) (MaxHealth x)); try done; lia.
Qed.

(** The sum is formed before the cap: an amount near the largest int has no meaning. *)
Lemma heal_overflows : exists p w, IsAlive zero p w = true /\ Heal zero int32_max p w = Undefined (A := bool * World).
Proof.
  exists (mkWrapper true (Some 1)), (mkWorld {[1 := mkFields 100 100 0 0 2 zero None None None 0]} ∅ []). by split.
Qed.

(** The swap for an item of the other team is over when [GiveItem] returns. *)
Lemma GiveItem_team give item p w e : (forall services item w, TeamNum (read (raw p) (give services item w).2) = TeamNum (read (raw p) w)) ->
  raw p = Some e -> TeamNum (read (raw p) (GiveItem zero (Some give) item p w).2) = TeamNum (read (raw p) w).
Proof.
  intros Hg Hr. unfold GiveItem. destruct (ItemServices (read (raw p) w)) as [services|]; [|done]. destruct item as [|c item]; [done|].
  destruct (sys p); cbn [negb]; [|done]. pose proof (Hg services (c_str (c :: item)) w) as H1. destruct (give services (c_str (c :: item)) w) as [[given|] w1]; [done|].
  cbn [snd] in H1. destruct (Opposite _ =? TeamNone) eqn:Ho; [done|].
  pose proof (Hg services (c_str (c :: item)) (write (raw p) (set_team (Opposite (TeamNum (read (raw p) w1)))) w1)) as H2.
  destruct (give services _ (write _ _ w1)) as [given w2]. cbn [snd] in *. rewrite Hr in *. rewrite fields_read_write.
  unfold Pawns.read in *. cbn in *. rewrite lookup_alter_eq in H2. destruct (fields w2 !! e) as [x2|]; cbn in *; [done|].
  destruct (fields w1 !! e) as [x1|]; cbn in *; [|done]. unfold Opposite, TeamT, TeamCT, TeamNone in *. rewrite <- H1. unfold Opposite, TeamT, TeamCT, TeamNone in Ho. cases.
Qed.

(** ** Weapons *)

Section WeaponFacts.
  Context (b_SelectItem b_IOEvent : bool) (resolve : Z -> option Z) (handle_of : Z -> Z).

(** Only a carried weapon is drawn. *)
Lemma SelectWeapon_carried weapon p w e x : SelectItem e x ∈ calls (SelectWeapon zero b_SelectItem resolve handle_of weapon p w) -> SelectItem e x ∉ calls w ->
  weapon = Some x /\ raw p = Some e /\ exists held, held ∈ Weapons zero resolve p w /\ handle_of held = handle_of x.
Proof.
  unfold SelectWeapon. intros Hin Hno. destruct weapon as [weapon|]; [|done]. destruct (Weapon_services _) as [s|]; [|done]. destruct (raw p) as [e'|]; [|done].
  destruct (sys p && b_SelectItem && existsb _ _) eqn:Hb; [|done]. cbn in Hin. rewrite elem_of_app, list_elem_of_singleton in Hin.
  destruct Hin as [Hin|[= -> ->]]; [done|]. split; [done|]. split; [done|]. apply andb_true_iff in Hb as [_ Hb].
  apply existsb_exists in Hb as (held & Hheld & Hh). exists held. split; [by apply list_elem_of_In|by apply Z.eqb_eq].
Qed.

(** A weapon removed from a live pawn's hand: the one before it is drawn first, and the removal is queued either way. *)
Lemma RemoveWeapon_calls weapon p w :
  calls (RemoveWeapon zero b_SelectItem b_IOEvent resolve handle_of (Some weapon) p w) =
    calls (match Weapon_services (read (raw p) w) with
           | Some s => if sys p && (ActiveWeapon s =? handle_of weapon) && IsAlive zero p w
                       then SelectWeapon zero b_SelectItem resolve handle_of (resolve (LastWeapon s)) p w else w
           | None => w end) ++ (if b_IOEvent then [QueueKill weapon] else []).
Proof.
  unfold RemoveWeapon. rewrite bool_decide_true by done. cbn [andb Ref]. destruct (Weapon_services _) as [s|].
  - destruct (sys p); cbn [andb]; [destruct (_ =? _), (IsAlive zero p w)|]; cbn [andb]; destruct b_IOEvent; cbn; by rewrite ?app_nil_r.
  - rewrite andb_false_r. cbn. destruct b_IOEvent; cbn; by rewrite ?app_nil_r.
Qed.

End WeaponFacts.

(** ** A pawn's slot is its controller's *)

Lemma Slot_of_controller resolve (index_of : Z -> Z) p w e x c slot : raw p = Some e -> sys p = true -> fields w !! e = Some x -> is_set (ControllerRef x) = true ->
  resolve (ControllerRef x) = Some c -> IsValidSlot slot = true -> index_of c = slot + 1 -> Slot zero resolve index_of p w = slot.
Proof.
  intros Hr Hs Hx Hset Hc Hv Hi. unfold Slot. assert (read (raw p) w = x) as -> by (unfold Pawns.read; rewrite Hr; cbn; by rewrite Hx).
  rewrite Hs, Hset, Hc, Hi. replace (slot + 1 - 1) with slot by lia. by rewrite Hv.
Qed.

Lemma Slot_valid resolve (index_of : Z -> Z) p w : Slot zero resolve index_of p w = -1 \/ IsValidSlot (Slot zero resolve index_of p w) = true.
Proof.
  unfold Slot. destruct (if sys p then _ else None) as [c|]; [|by left]. destruct (IsValidSlot (index_of c - 1)) eqn:E; [by right|by left].
Qed.

(** ** Commands run as a player *)

Definition asked (c : pawn_call) : list (Z * list text) := match c with DispatchConCommand slot args | ClientCommand slot args => [(slot, args)] | _ => [] end.

(** However many texts players' plugins ask for, each runs at most one command, as its own player, and none that holds a separator. *)
Theorem commands_run_once has_cvar has_clients Tokenize FindConCommand (asks : list (Controller * text)) w :
  exists ran : list (option (list text)),
    length ran = length asks /\
    flat_map asked (calls (fold_left (fun w ask => ExecuteCommand has_cvar has_clients Tokenize FindConCommand ask.2 ask.1 w) asks w)) =
      flat_map asked (calls w) ++ omap (fun ra => option_map (fun args => (c_slot ra.2.1, args)) ra.1) (zip ran asks) /\
    Forall2 (fun args ask => match args with
      | Some args => args <> [] /\ Tokenize (c_str ask.2) = Some args /\ IsValidSlot (c_slot ask.1) = true /\ existsb separates ask.2 = false
      | None => True end) ran asks.
Proof.
  revert w; induction asks as [|[c command] asks IH]; intros w; [exists []; split; [done|]; split; [by rewrite app_nil_r|done]|].
  assert (exists r, flat_map asked (calls (ExecuteCommand has_cvar has_clients Tokenize FindConCommand command c w)) =
      flat_map asked (calls w) ++ option_list (option_map (fun args => (c_slot c, args)) r) /\
    match r with Some args => args <> [] /\ Tokenize (c_str command) = Some args /\ IsValidSlot (c_slot c) = true /\ existsb separates command = false | None => True end) as (r & Hr & Hok).
  { unfold ExecuteCommand. destruct (c_raw c); [|exists None; by rewrite app_nil_r]. destruct (c_sys c); cbn [negb orb]; [|exists None; by rewrite app_nil_r].
    destruct (IsValidSlot (c_slot c)) eqn:Hv; cbn [negb]; [|exists None; by rewrite app_nil_r]. destruct (negb has_cvar || negb has_clients); [exists None; by rewrite app_nil_r|].
    unfold TokenizeOneCommand. destruct command as [|ch command]; [exists None; by rewrite app_nil_r|]. destruct (existsb separates (ch :: command)) eqn:Hsep; [exists None; by rewrite app_nil_r|].
    destruct (Tokenize _) as [[|arg args]|] eqn:Ht; [exists None; by rewrite app_nil_r| |exists None; by rewrite app_nil_r]. exists (Some (arg :: args)).
    split; [|done]. destruct (FindConCommand _); cbn; by rewrite flat_map_app. }
  destruct (IH (ExecuteCommand has_cvar has_clients Tokenize FindConCommand command c w)) as (ran & Hlen & Hcalls & Hran).
  exists (r :: ran). split; [cbn; lia|]. split; [|by constructor]. cbn [fold_left fst snd]. rewrite Hcalls, Hr, <- app_assoc. f_equal. by destruct r.
Qed.

End PawnFacts.
