(* ===== verification/VoltCommand.v ===== *)
(** * The host's console command: [Host/Console/VoltCommand.cpp]

    What [volt <verb> <name> <value>] does to the loader of [PluginLoader.v], and what it prints. *)

From S2P Require Import Prelude Text Errors Dependencies Workshop HostCallbacks PluginHost PluginLoader.

Section VoltCommand.
  Context {A : Type} `{AddonHost A}.
  Notation PluginLoader := (PluginLoader (A := A)).
  (** The build's version and stamp; each loaded library's stamp, and its [Status()], which may be null. *)
  Context (VOLTMOD_VERSION VOLTMOD_BUILD_STAMP : text) (BuildStamp : text -> text) (StatusOf : text -> option text).

(** The loader, and the level each plugin's view was given last. *)
Record Console := mkConsole { loader : PluginLoader; minimum_levels : gmap text LogLevel.t }.

Definition log_line : Type := LogLevel.t * text.

Definition CommandUsage : text :=
  $"volt version | list | status [name] | load <name> | unload <name> | reload <name> | log <name> <info|warn|error>".

Definition version_line : log_line := (LogLevel.Info, $"VoltMod " ++ VOLTMOD_VERSION ++ $" (" ++ VOLTMOD_BUILD_STAMP ++ $")").

Definition loaded_line (p : PluginManifest) : log_line :=
  (LogLevel.Info, $"  " ++ Name p ++ $" v" ++ Version p ++ $" (" ++ BuildStamp (Name p) ++ $")" ++
    (match Description p with [] => [] | _ => $" - " end) ++ Description p).

(** The answers of [PrintLoaded]. *)
Definition PrintLoaded (l : PluginLoader) : list log_line :=
  [version_line] ++
  [(LogLevel.Info, match loaded_plugins l with [] => $"No plugins are loaded." | ps => dec (Z.of_nat (length ps)) ++ $" plugin(s), in load order:" end)] ++
  map loaded_line (loaded_plugins l) ++
  (match refused_plugins l with [] => [] | refused => [(LogLevel.Info, dec (Z.of_nat (length refused)) ++ $" refused:")] end) ++
  map (fun r => (LogLevel.Info, $"  " ++ r.1 ++ $" - " ++ r.2)) (refused_plugins l).

Definition RequireLoaded (name : text) (l : PluginLoader) : option PluginManifest * list log_line :=
  match FindLoaded name l with
  | Some p => (Some p, [])
  | None => (None, [(LogLevel.Warn, $"'" ++ name ++ $"' is not loaded.")])
  end.

Definition status_line (p : PluginManifest) : log_line := (LogLevel.Info, Name p ++ $": " ++ default $"{}" (StatusOf (Name p))).

Definition PrintStatus (name : text) (l : PluginLoader) : list log_line :=
  match name with
  | [] => map status_line (loaded_plugins l)
  | _ => match RequireLoaded name l with (Some p, lines) => lines ++ [status_line p] | (None, lines) => lines end
  end.

(** [Name] of a level, in lower case. *)
Definition level_name (level : LogLevel.t) : text :=
  match level with LogLevel.Info => $"info" | LogLevel.Warn => $"warn" | LogLevel.Error => $"error" end.

Definition SetLogLevel (name level : text) (c : Console) : list log_line * Console :=
  match parse_log_level level with
  | None => ([(LogLevel.Warn, $"'" ++ level ++ $"' is not a log level. Use info, warn or error.")], c)
  | Some wanted =>
      match RequireLoaded name (loader c) with
      | (None, lines) => (lines, c)
      | (Some _, lines) =>
          match FindPlugin name (registry (loader c)) with
          | None => (lines, c)
          | Some _ => (lines ++ [(LogLevel.Info, name ++ $" now logs " ++ level_name wanted ++ $" and above.")], mkConsole (loader c) (<[name := wanted]> (minimum_levels c)))
          end
      end
  end.

Definition defer (kind : ActionKind.t) (name : text) (c : Console) : Console := mkConsole (Defer kind name (loader c)) (minimum_levels c).

(** [arguments] is the whole line's words, [volt] among them. *)
Definition Run (arguments : list text) (c : Console) : list log_line * Console :=
  let verb := nth 1 arguments [] in
  let target := nth 2 arguments [] in
  let value := nth 3 arguments [] in
  let given (s : text) := match s with [] => false | _ => true end in
  if text_eqb verb $"version" then ([version_line], c)
  else if text_eqb verb $"list" then (PrintLoaded (loader c), c)
  else if text_eqb verb $"status" then (PrintStatus target (loader c), c)
  else if text_eqb verb $"load" && given target then ([], defer ActionKind.Load target c)
  else if text_eqb verb $"unload" && given target then ([], defer ActionKind.Unload target c)
  else if text_eqb verb $"reload" && given target then ([], defer ActionKind.Reload target c)
  else if text_eqb verb $"log" && given target && given value then SetLogLevel target value c
  else ([(LogLevel.Info, $"Usage: " ++ CommandUsage)], c).

Definition run_commands (lines : list (list text)) (c : Console) : Console := fold_left (fun c arguments => (Run arguments c).2) lines c.

(** * Theorems *)

(** What a line asks for. *)
Definition action_of (arguments : list text) : option PendingAction :=
  match arguments with
  | _ :: verb :: (ch :: name) :: _ =>
      if text_eqb verb $"load" then Some (mkPending ActionKind.Load (ch :: name))
      else if text_eqb verb $"unload" then Some (mkPending ActionKind.Unload (ch :: name))
      else if text_eqb verb $"reload" then Some (mkPending ActionKind.Reload (ch :: name)) else None
  | _ => None
  end.

Definition level_of (arguments : list text) (name : text) : option LogLevel.t :=
  match arguments with
  | _ :: verb :: target :: value :: _ => if text_eqb verb $"log" && text_eqb target name then parse_log_level value else None
  | _ => None
  end.

Lemma verbs_differ verb s t : text_eqb verb s = true -> text_eqb s t = false -> text_eqb verb t = false.
Proof. intros ->%text_eqb_true. done. Qed.

Lemma SetLogLevel_loader name level c : loader (SetLogLevel name level c).2 = loader c.
Proof. unfold SetLogLevel. destruct (parse_log_level level); [|done]. destruct (RequireLoaded name _) as [[]]; [|done]. by destruct (FindPlugin _ _). Qed.

Lemma Run_loader arguments c : loader (Run arguments c).2 =
  mkLoader (registry (loader c)) (loaded_plugins (loader c)) (pending_actions (loader c) ++ option_list (action_of arguments)) (refused_plugins (loader c)).
Proof.
  assert (forall (l : PluginLoader), l = mkLoader (registry l) (loaded_plugins l) (pending_actions l ++ []) (refused_plugins l)) as Hsame.
  { intros []. cbn. by rewrite app_nil_r. }
  unfold Run. destruct arguments as [|a0 [|verb arguments]]; [apply Hsame..|]. cbn [nth].
  destruct (text_eqb verb $"version") eqn:H1.
  { apply text_eqb_true in H1 as ->. destruct arguments as [|[|ch n] ?]; apply Hsame. }
  destruct (text_eqb verb $"list") eqn:H2.
  { apply text_eqb_true in H2 as ->. destruct arguments as [|[|ch n] ?]; apply Hsame. }
  destruct (text_eqb verb $"status") eqn:H3.
  { apply text_eqb_true in H3 as ->. destruct arguments as [|[|ch n] ?]; apply Hsame. }
  destruct arguments as [|[|ch n] rest]; cbn [nth action_of]; rewrite ?andb_false_r, ?andb_true_r; [apply Hsame..|].
  destruct (text_eqb verb $"load"); [done|]. destruct (text_eqb verb $"unload"); [done|]. destruct (text_eqb verb $"reload"); [done|].
  destruct (text_eqb verb $"log" && _); [rewrite SetLogLevel_loader|]; apply Hsame.
Qed.

(** The commands themselves load and unload nothing. *)
Lemma commands_defer lines c :
  loader (run_commands lines c) =
    mkLoader (registry (loader c)) (loaded_plugins (loader c)) (pending_actions (loader c) ++ omap action_of lines) (refused_plugins (loader c)).
Proof.
  revert c; induction lines as [|line lines IH]; intros c; [destruct c as [[]]; cbn; by rewrite app_nil_r|]. unfold run_commands in *. cbn [fold_left].
  rewrite IH, Run_loader. cbn. rewrite <- app_assoc. by destruct (action_of line).
Qed.

(** Only [volt log] changes a level: of the plugin it names, when that is loaded and the level one of the three. *)
Lemma Run_levels arguments c name : name <> [] ->
  minimum_levels (Run arguments c).2 !! name =
    match level_of arguments name, FindLoaded name (loader c), FindPlugin name (registry (loader c)) with
    | Some level, Some _, Some _ => Some level
    | _, _, _ => minimum_levels c !! name
    end.
Proof.
  intros Hn. unfold Run. destruct arguments as [|a0 [|verb arguments]]; [done..|]. cbn [nth].
  assert (forall s, text_eqb verb s = true -> text_eqb s $"log" = false -> level_of (a0 :: verb :: arguments) name = None) as Hother.
  { intros s Hs Hl. destruct arguments as [|target [|value ?]]; [done..|]. cbn. by rewrite (verbs_differ _ _ _ Hs Hl). }
  assert (forall lines : list log_line, level_of (a0 :: verb :: arguments) name = None -> minimum_levels (lines, c).2 !! name =
    match level_of (a0 :: verb :: arguments) name, FindLoaded name (loader c), FindPlugin name (registry (loader c)) with
    | Some level, Some _, Some _ => Some level | _, _, _ => minimum_levels c !! name end) as Hsame by (intros lines ->; done).
  destruct (text_eqb verb $"version") eqn:H1; [by eapply Hsame, Hother|]. destruct (text_eqb verb $"list") eqn:H2; [by eapply Hsame, Hother|].
  destruct (text_eqb verb $"status") eqn:H3; [by eapply Hsame, Hother|].
  destruct (text_eqb verb $"load" && _) eqn:H4; [apply andb_true_iff in H4 as [H4 _]; rewrite (Hother _ H4) by done; done|].
  destruct (text_eqb verb $"unload" && _) eqn:H5; [apply andb_true_iff in H5 as [H5 _]; rewrite (Hother _ H5) by done; done|].
  destruct (text_eqb verb $"reload" && _) eqn:H6; [apply andb_true_iff in H6 as [H6 _]; rewrite (Hother _ H6) by done; done|].
  destruct arguments as [|target [|value rest]]; cbn [nth level_of]; rewrite ?andb_false_r; [done..|].
  destruct (text_eqb verb $"log"); cbn [andb]; [|done].
  destruct target as [|ch target]; cbn [andb]; [by rewrite (proj2 (text_eqb_false [] name)) by congruence|].
  destruct value as [|v value]; [by destruct (text_eqb (ch :: target) name)|].
  unfold SetLogLevel, RequireLoaded. destruct (text_eqb (ch :: target) name) eqn:Ht.
  - apply text_eqb_true in Ht as ->. destruct (parse_log_level (v :: value)) as [level|]; [|done]. destruct (FindLoaded name (loader c)); [|done].
    destruct (FindPlugin name _); [|done]. cbn. by rewrite lookup_insert_eq.
  - apply text_eqb_false in Ht. destruct (parse_log_level (v :: value)) as [level|]; [|done]. destruct (FindLoaded (ch :: target) (loader c)); [|done].
    destruct (FindPlugin (ch :: target) _); [|done]. cbn. by rewrite lookup_insert_ne.
Qed.

(** The next frame runs what the lines asked for, in their order. *)
Lemma next_frame_runs behaviour fuel library entryName hostVersion disks lines c : pending_actions (loader c) = [] ->
  RunPending behaviour fuel library entryName hostVersion disks (loader (run_commands lines c)) =
    run_actions behaviour fuel library entryName hostVersion disks 0 (omap action_of lines) (loader c).
Proof. intros Hp. rewrite commands_defer. unfold RunPending. rewrite Hp. cbn. by destruct (loader c); cbn in *; subst. Qed.

End VoltCommand.
