(* ===== verification/HostLifetime.v ===== *)
(** * The host's start and stop: [Host/Host.cpp], [Host/EngineInterfaces.cpp]

    The engine's interfaces resolved, the host's services built in turn and torn down, and the two functions the loader calls. The
    services are the parts modelled in the other files; here is when each lives. *)

From S2P Require Import Prelude Text Errors.

(** ** The engine's interfaces *)

Section Interfaces.
  (** What the engine's and the server's factories answer, and the versions' names. *)
  Context (EngineFactory ServerFactory : text -> option Z).
  Context (v_ServerGameDll v_ServerGameClients v_NetworkServerService v_GameEntities v_Cvar v_Engine v_Schema v_Resources v_Files v_NetworkMessages : text).

Record EngineInterfaces := mkInterfaces {
  ServerGameDll : Z; ServerGameClients : Z; NetworkServerService : Z; GameEntities : Z; Cvar : Z; Engine : Z;
  Schema : option Z; Resources : option Z; Files : option Z; NetworkMessages : option Z }.

Definition missing (version : text) : Error := Error_Engine ($"could not find interface: " ++ version).

Definition Find (factory : text -> option Z) (version : text) : Result Z :=
  match factory version with Some iface => Ok iface | None => Err (missing version) end.

(** The interface, and what is logged without it. *)
Definition FindOptional (factory : text -> option Z) (version : text) : option Z * list text :=
  match Find factory version with Ok iface => (Some iface, []) | Err e => (None, [Detail e]) end.

Definition ResolveEngineInterfaces : Result (EngineInterfaces * list text) :=
  let! dll := Find ServerFactory v_ServerGameDll in
  let! clients := Find ServerFactory v_ServerGameClients in
  let! service := Find EngineFactory v_NetworkServerService in
  let! entities := Find ServerFactory v_GameEntities in
  let! cvar := Find EngineFactory v_Cvar in
  let! engine := Find EngineFactory v_Engine in
  let (schema, l1) := FindOptional EngineFactory v_Schema in
  let (resources, l2) := FindOptional EngineFactory v_Resources in
  let (files, l3) := FindOptional EngineFactory v_Files in
  let (messages, l4) := FindOptional EngineFactory v_NetworkMessages in
  Ok (mkInterfaces dll clients service entities cvar engine schema resources files messages, l1 ++ l2 ++ l3 ++ l4).

(** What must be there, in the order it is asked for. *)
Definition required : list (option Z * text) :=
  [(ServerFactory v_ServerGameDll, v_ServerGameDll); (ServerFactory v_ServerGameClients, v_ServerGameClients);
   (EngineFactory v_NetworkServerService, v_NetworkServerService); (ServerFactory v_GameEntities, v_GameEntities); (EngineFactory v_Cvar, v_Cvar);
   (EngineFactory v_Engine, v_Engine)].

(** The first of the required interfaces that is missing is named; without the others the host only logs. *)
Lemma Resolve_required :
  match List.find (fun r => negb (bool_decide (is_Some r.1))) required with
  | Some r => ResolveEngineInterfaces = Err (missing r.2)
  | None => exists found logged, ResolveEngineInterfaces = Ok (found, logged) /\ (length logged <= 4)%nat
  end.
Proof.
  unfold ResolveEngineInterfaces, required, Find. cbn [List.find fst].
  repeat (match goal with |- context [bool_decide (is_Some ?o)] => destruct o end; [rewrite bool_decide_true by (by eexists); cbn [negb expected_bind]|
    rewrite bool_decide_false by (by intros []); cbn; done]).
  unfold FindOptional, Find. destruct (EngineFactory v_Schema), (EngineFactory v_Resources), (EngineFactory v_Files), (EngineFactory v_NetworkMessages);
    do 2 eexists; (split; [done|]); cbn; lia.
Qed.

End Interfaces.

(** ** The host *)

Inductive Part := GameData | Downloads | Registry | Commands | Presses | SchemaCheck_ | Assets | Plugins_ | Hooks | Command.
#[export] Instance Part_eq_dec : EqDecision Part.
Proof. solve_decision. Defined.

(** What each part is given when it is made and uses while it lives. *)
Definition uses (p : Part) : list Part :=
  match p with
  | GameData | Assets | Downloads => []
  | Registry => [GameData; Downloads]
  | Commands | Presses | SchemaCheck_ => [Registry]
  | Plugins_ => [Registry; Assets]
  | Hooks => [Registry; Plugins_; Downloads; Presses; SchemaCheck_]
  | Command => [Registry; Plugins_]
  end.

Inductive host_act := Made (p : Part) | Dropped (p : Part) | LoadedAll | UnloadedAll.

Record Host := mkHost { live : list Part; done_acts : list host_act }.
Definition Host_new : Host := mkHost [] [].

(** [std::make_unique] into a pointer that holds one drops the old one after the new is made. *)
Definition make (p : Part) (h : Host) : Host :=
  if bool_decide (p ∈ live h) then mkHost (live h) (done_acts h ++ [Made p; Dropped p]) else mkHost (live h ++ [p]) (done_acts h ++ [Made p]).

Definition reset (h : Host) (p : Part) : Host :=
  if bool_decide (p ∈ live h) then mkHost (List.filter (fun q => negb (bool_decide (q = p))) (live h)) (done_acts h ++ [Dropped p]) else h.

Definition act_ (a : host_act) (h : Host) : Host := mkHost (live h) (done_acts h ++ [a]).

Definition stop_order : list Part := [Hooks; Command; Plugins_; Assets; SchemaCheck_; Presses; Commands; Registry; Downloads; GameData].

Definition Stop (h : Host) : Host :=
  let h := if bool_decide (Plugins_ ∈ live h) then act_ UnloadedAll h else h in fold_left reset stop_order h.

(** [Start], given whether the interfaces resolve. *)
Definition Start {I} (engine : Result I) (h : Host) : Status * Host :=
  let h := make GameData h in
  match engine with
  | Err e => (Err e, Stop h)
  | Ok _ => (Ok tt, act_ LoadedAll (fold_left (fun h p => make p h) [Downloads; Registry; Commands; Presses; SchemaCheck_; Assets; Plugins_; Hooks; Command] h))
  end.

(** The exported functions; the loader's buffer gets the error's text. *)
Definition VoltMod_HostStart {I} (engine : Result I) (error : option text) (errorSize : nat) (h : Host) : bool * option text * Host :=
  match Start engine h with
  | (Ok _, h) => (true, error, h)
  | (Err e, h) => (false, CopyToBuffer error errorSize (Detail e), h)
  end.
Definition VoltMod_HostStop (h : Host) : Host := Stop h.

(** A load and an unload of the host, by the loader: never a second start before a stop. *)
Inductive loader_call := CallStart (resolves : option Error) | CallStop.

Definition run_loader_call (h : Host) (c : loader_call) : Host :=
  match c with
  | CallStart resolves => match live h with [] => (Start (match resolves with None => Ok tt | Some e => Err e end) h).2 | _ => h end
  | CallStop => VoltMod_HostStop h
  end.

(** ** Theorems *)

(** A part is made while all it uses live, and dropped while nothing lives that uses it; plugins load when all is made, and unload first. *)
Fixpoint in_order (alive : list Part) (acts : list host_act) : bool :=
  match acts with
  | [] => true
  | Made p :: acts => forallb (fun q => bool_decide (q ∈ alive)) (uses p) && negb (bool_decide (p ∈ alive)) && in_order (alive ++ [p]) acts
  | Dropped p :: acts => bool_decide (p ∈ alive) && forallb (fun q => negb (bool_decide (p ∈ uses q))) (List.filter (fun q => negb (bool_decide (q = p))) alive) &&
      in_order (List.filter (fun q => negb (bool_decide (q = p))) alive) acts
  | LoadedAll :: acts | UnloadedAll :: acts => bool_decide (length alive = 10%nat) && in_order alive acts
  end.

Fixpoint alive_after (alive : list Part) (acts : list host_act) : list Part :=
  match acts with
  | [] => alive
  | Made p :: acts => alive_after (alive ++ [p]) acts
  | Dropped p :: acts => alive_after (List.filter (fun q => negb (bool_decide (q = p))) alive) acts
  | _ :: acts => alive_after alive acts
  end.

Lemma in_order_app alive a b : in_order alive (a ++ b) = in_order alive a && in_order (alive_after alive a) b.
Proof. revert alive; induction a as [|[p|p| |] a IH]; intros alive; cbn; [done|by rewrite IH, !andb_assoc..]. Qed.

Lemma alive_after_app alive a b : alive_after alive (a ++ b) = alive_after (alive_after alive a) b.
Proof. revert alive; induction a as [|[p|p| |] a IH]; intros alive; cbn; [done|by rewrite IH..]. Qed.

Definition all_parts : list Part := [GameData; Downloads; Registry; Commands; Presses; SchemaCheck_; Assets; Plugins_; Hooks; Command].

(** What was done before does not matter. *)
Definition after_acts (acts : list host_act) (h : Host) : Host := mkHost (live h) (acts ++ done_acts h).

Lemma make_after acts p h : make p (after_acts acts h) = after_acts acts (make p h).
Proof. unfold make, after_acts. cbn [live done_acts]. destruct (bool_decide _); by rewrite <- app_assoc. Qed.

Lemma reset_after acts h p : reset (after_acts acts h) p = after_acts acts (reset h p).
Proof. unfold reset, after_acts. cbn [live done_acts]. destruct (bool_decide _); by rewrite <- ?app_assoc. Qed.

Lemma act_after acts a h : act_ a (after_acts acts h) = after_acts acts (act_ a h).
Proof. unfold act_, after_acts. cbn. by rewrite <- app_assoc. Qed.

Lemma fold_after {B} (f : Host -> B -> Host) acts l h : (forall h b, f (after_acts acts h) b = after_acts acts (f h b)) ->
  fold_left f l (after_acts acts h) = after_acts acts (fold_left f l h).
Proof. intros Hf. revert h; induction l as [|b l IH]; intros h; [done|]. cbn [fold_left]. by rewrite Hf, IH. Qed.

Lemma Stop_after acts h : Stop (after_acts acts h) = after_acts acts (Stop h).
Proof.
  unfold Stop. cbn [live after_acts]. destruct (bool_decide _); [rewrite act_after|]; apply fold_after; intros; apply reset_after.
Qed.

Lemma call_after acts h c : run_loader_call (after_acts acts h) c = after_acts acts (run_loader_call h c).
Proof.
  destruct c as [resolves|]; [|apply Stop_after]. cbn [run_loader_call live after_acts]. destruct (live h); [|done]. unfold Start. rewrite make_after.
  destruct resolves; cbn [snd]; [apply Stop_after|]. rewrite fold_after by (intros; apply make_after). apply act_after.
Qed.

(** The acts of a call from a state, apart from those before. *)
Lemma run_loader_call_acts h c : live h = [] \/ live h = all_parts ->
  exists acts, done_acts (run_loader_call h c) = done_acts h ++ acts /\ in_order (live h) acts = true /\
    alive_after (live h) acts = live (run_loader_call h c) /\ (live (run_loader_call h c) = [] \/ live (run_loader_call h c) = all_parts).
Proof.
  destruct h as [l acts]. cbn [live]. intros Hl.
  replace (mkHost l acts) with (after_acts acts (mkHost l [])) by (unfold after_acts; cbn; by rewrite app_nil_r). rewrite call_after.
  exists (done_acts (run_loader_call (mkHost l []) c)). cbn [done_acts after_acts live]. rewrite app_nil_r. split; [done|].
  destruct Hl as [->| ->]; destruct c as [[e|]|]; (split; [by vm_compute|]; split; [by vm_compute|]; first [left; by vm_compute|right; by vm_compute]).
Qed.

