(* ===== verification/ServerServices.v ===== *)
(** * Small services: [Engine/Server/{Precache,Map,Clock}.cpp], [Host/Files/ServerAssets.cpp], [App/StatusService.cpp], [Hooks/{TextMessages,WeaponDrop}.cpp],
    [Schema/Notify.cpp], [Core/Time/DecayingScore.hpp]

    What a plugin lists for a map's start, the search paths of loaded plugins, the status document, two filters of the engine's calls, who is
    told of a written field, and the score that fades. The engine, the file system, glaze and [std::exp2] are arguments. *)

From Stdlib Require Import Floats.SpecFloat.
From S2P Require Import Prelude Text Identity Errors.

(** ** [Precache] *)

Definition Precache_Add (path : text) (resources : list text) : list text :=
  match path with [] => resources | _ => if existsb (text_eqb path) resources then resources else resources ++ [path] end.

(** The paths the manifest is given, as C strings. *)
Definition Precache_WriteTo (resources : list text) : list text := map c_str resources.

(** ** [Map], [Clock] *)

Section Map.
  (** Whether the engine is there, the maps it can load, the name in its globals. *)
  Context (has_engine : bool) (IsMapValid : text -> bool) (globals_map : option text).

Inductive map_act := EngineChangeLevel (name : text) | ServerCommandLine (command : text).

Definition Map_IsValid (name : text) : bool := match name with [] => false | _ => has_engine && IsMapValid (c_str name) end.
Definition ChangeLevel (name : text) : bool * list map_act := if Map_IsValid name then (true, [EngineChangeLevel (c_str name)]) else (false, []).

(** What [ExecuteServerCommand] does with its line is [ConVars.v]'s. *)
Definition ChangeToWorkshop (workshopId : Z) : bool * list map_act :=
  if workshopId =? 0 then (false, []) else (true, [ServerCommandLine ($"host_workshop_map " ++ dec workshopId)]).

Definition Current (current : text) : text :=
  match current with [] => match (if has_engine then globals_map else None) with Some name => name | None => [] end | _ => current end.

(** [Clock]: the globals' tick, none before a server runs. *)
Definition Tick (globals_tick : option Z) : Z := match (if has_engine then globals_tick else None) with Some tick => tick | None => 0 end.

End Map.

(** ** [ServerAssets] *)

Section Assets.
  (** Whether the file system is there; a plugin's folder, and whether it is one. *)
  Context (has_files : bool) (folder_of : text -> text) (is_directory : text -> bool).

(** [_mounted], and the file system's GAME paths, head first. *)
Record ServerAssets := mkAssets { mounted : gmap text text; game_paths : list text }.

Definition Mount (plugin : text) (a : ServerAssets) : ServerAssets :=
  let path := folder_of plugin in
  if negb has_files || negb (is_directory path) then a else mkAssets (<[plugin := path]> (mounted a)) (c_str path :: game_paths a).

(** [RemoveSearchPath] takes the path out of the list. *)
Definition Unmount (plugin : text) (a : ServerAssets) : ServerAssets :=
  match mounted a !! plugin with
  | None => a
  | Some path => mkAssets (delete plugin (mounted a)) (List.filter (fun p => negb (text_eqb p (c_str path))) (game_paths a))
  end.

End Assets.

(** ** [StatusService] *)

Section Status.
  (** Glaze: whether a text is JSON, and the object of sections already in JSON. *)
  Context (validate_json : text -> bool) (write_object : gmap text text -> text).

Definition sections : Type := list (text * text).

Fixpoint RegisterSection (name provider : text) (s : sections) : sections :=
  match s with
  | [] => [(name, provider)]
  | (existing, p) :: s => if text_eqb existing name then (existing, provider) :: s else (existing, p) :: RegisterSection name provider s
  end.

Definition invalid_payload : text := $"{" ++ [quote_char] ++ $"error" ++ [quote_char] ++ $":" ++ [quote_char] ++ $"provider returned invalid JSON" ++ [quote_char] ++ $"}".

(** What the report holds; a section is what its provider returns now. *)
Definition report (provide : text -> text) (healthy : bool) (s : sections) : gmap text text :=
  <[$"healthy" := if healthy then $"true" else $"false"]>
    (fold_left (fun out np => <[np.1 := if validate_json (provide np.2) then provide np.2 else invalid_payload]> out) s ∅).

Definition BuildJson (provide : text -> text) (healthy : bool) (s : sections) : text := write_object (report provide healthy s).

(** A parsed section as [BuildText] prints it: an object's members with their texts, another value's text, or no JSON at all. *)
Inductive section_text := NotJson | Members (m : list (text * text)) | Scalar (t : text).

Definition newline : text := [chr 10].
Definition section_lines (name : text) (t : section_text) : text :=
  name ++ $":" ++ newline ++
  match t with
  | NotJson => $"  <invalid JSON from provider>" ++ newline
  | Members m => flat_map (fun kv => $"  " ++ kv.1 ++ $": " ++ kv.2 ++ newline) m
  | Scalar t => $"  " ++ t ++ newline
  end.

(** The trailing newline goes. *)
Definition BuildText (parse : text -> section_text) (s : sections) : text :=
  let out := flat_map (fun np => section_lines np.1 (parse np.2)) s in
  match last out with Some c => if bool_decide (c = chr 10) then removelast out else out | None => out end.

End Status.

(** ** The filters *)

(** A text message to be posted: its kind, and its first parameter where it is one and has one. *)
Definition FilterTextMessage (UM_TextMsg : Z) (handler : text -> bool) (kind : option Z) (first_param : option text) : bool :=
  match kind, first_param with
  | Some kind, Some text => if kind =? UM_TextMsg then handler text else false
  | _, _ => false
  end.

(** The pawn's slot, -1 without one; whether the drop is blocked, and what the handlers were shown. *)
Definition OnDrop (handler : Z -> bool -> bool) (slot : Z) (swapping : bool) : bool * list (Z * bool) :=
  if IsValidSlot slot then (handler slot swapping, [(slot, swapping)]) else (false, []).

(** ** [Schema/Notify.cpp] *)

(** [NetworkStateChanged]: the entity, the offset, and a component's path index. *)
Record Notification := mkNotification { notified : Z; field_offset : Z; path_index : option Z }.

Definition NotifyEntity (entity : option Z) (offset : Z) : list Notification :=
  match entity with Some e => [mkNotification e (wrap_u32 offset) None] | None => [] end.

(** The owner link at an offset of a component: the entity it points at and the path index. *)
Definition NotifyComponentOwner (link_at : Z -> Z -> option Z * Z) (component : option Z) (ownerLinkOffset offset : Z) : list Notification :=
  match component with
  | None => []
  | Some c =>
      if ownerLinkOffset <? 0 then [] else
      match link_at c ownerLinkOffset with
      | (Some e, index) => [mkNotification e (wrap_u32 offset) (Some index)]
      | (None, _) => []
      end
  end.

Definition ComponentOwner (link_at : Z -> Z -> option Z * Z) (component : option Z) (ownerLinkOffset : Z) : option Z :=
  match component with None => None | Some c => if ownerLinkOffset <? 0 then None else (link_at c ownerLinkOffset).1 end.

(** ** [DecayingScore]: binary64 *)

Section Score.
  Context (exp2 : spec_float -> spec_float).

Definition dadd : spec_float -> spec_float -> spec_float := SFadd 53 1024.
Definition dsub : spec_float -> spec_float -> spec_float := SFsub 53 1024.
Definition dmul : spec_float -> spec_float -> spec_float := SFmul 53 1024.
Definition ddiv : spec_float -> spec_float -> spec_float := SFdiv 53 1024.
Definition dzero : spec_float := S754_zero false.

Record DecayingScore := mkScore { score_value : spec_float; stamp : spec_float; halfLifeSec : spec_float }.
Definition Score_new (halfLife : spec_float) : DecayingScore := mkScore dzero dzero halfLife.
Definition SetHalfLife (halfLife : spec_float) (s : DecayingScore) : DecayingScore := mkScore (score_value s) (stamp s) halfLife.

Definition Value (now : spec_float) (s : DecayingScore) : spec_float :=
  let elapsed := dsub now (stamp s) in
  if SFleb (halfLifeSec s) dzero || SFleb elapsed dzero then score_value s
  else dmul (score_value s) (exp2 (ddiv (SFopp elapsed) (halfLifeSec s))).

Definition Add (now weight : spec_float) (s : DecayingScore) : spec_float * DecayingScore :=
  let v := dadd (Value now s) weight in (v, mkScore v now (halfLifeSec s)).

Definition Clear (s : DecayingScore) : DecayingScore := mkScore dzero dzero (halfLifeSec s).

End Score.

(** * Theorems *)

(** Each path is listed once, in the order first asked for. *)
Lemma Precache_once paths :
  let resources := fold_left (fun r p => Precache_Add p r) paths [] in
  NoDup resources /\ (forall p, In p resources <-> In p paths /\ p <> []).
Proof.
  induction paths as [|p paths IH] using rev_ind; [split; [constructor|cbn; tauto]|]. cbn zeta in *. rewrite fold_left_app. cbn [fold_left].
  destruct IH as [Hn Hin]. set (r := fold_left _ paths []) in *. unfold Precache_Add. destruct p as [|c p].
  - split; [done|]. intros q. rewrite Hin, in_app_iff. cbn. split; [tauto|]. intros [[H|[<-|[]]] Hq]; [tauto|by destruct Hq].
  - destruct (existsb _ r) eqn:Hex.
    + apply existsb_exists in Hex as (q & Hq & ->%text_eqb_true). split; [done|]. intros q'. rewrite Hin, in_app_iff. cbn.
      split; [tauto|]. intros [[H|[<-|[]]] Hq']; [tauto|]. by apply Hin.
    + assert (~ In (c :: p) r) as Hno.
      { intros Hin'. assert (existsb (text_eqb (c :: p)) r = true) as Ht; [|by rewrite Ht in Hex]. apply existsb_exists. exists (c :: p). split; [done|apply text_eqb_refl]. }
      split; [apply NoDup_app; split_and!; [done| |apply NoDup_singleton]; intros x Hx ->%list_elem_of_singleton; apply Hno; by apply list_elem_of_In|].
      intros q. rewrite !in_app_iff, Hin. cbn. split; [intros [[H1 H2]|[<-|[]]]; [tauto|by split; [tauto|]]|]. intros [[H|[<-|[]]] Hq]; tauto.
Qed.

(** The search paths a plugin adds go with it, and no others. *)
Lemma Unmount_Mount has_files folder_of is_directory plugin a : mounted a !! plugin = None -> c_str (folder_of plugin) ∉ game_paths a ->
  Unmount plugin (Mount has_files folder_of is_directory plugin a) = a.
Proof.
  intros Hm Hp. unfold Mount. destruct (negb has_files || _) eqn:E; [unfold Unmount; by rewrite Hm|]. unfold Unmount. cbn [mounted game_paths].
  rewrite lookup_insert_eq, delete_insert_id by done. cbn [List.filter]. rewrite text_eqb_refl. cbn [negb].
  rewrite filter_all; [by destruct a|]. apply Forall_forall. intros p Hin. apply negb_true_iff, text_eqb_false. intros ->. done.
Qed.

Lemma RegisterSection_names name provider s n : In n (map fst (RegisterSection name provider s)) -> n = name \/ In n (map fst s).
Proof.
  induction s as [|[m q] s IH]; cbn; [intros [<-|[]]; by left|]. destruct (text_eqb m name); cbn; [tauto|]. intros [<-|H]; [tauto|]. apply IH in H. tauto.
Qed.

(** A section's name is there once, with the provider given last. *)
Lemma RegisterSection_spec name provider s : NoDup (map fst s) ->
  NoDup (map fst (RegisterSection name provider s)) /\ forall n p, In (n, p) (RegisterSection name provider s) <-> (n = name /\ p = provider) \/ (n <> name /\ In (n, p) s).
Proof.
  induction s as [|[m q] s IH]; cbn; intros Hn.
  - split; [apply NoDup_singleton|]. intros n p. split; [intros [[= <- <-]|[]]; by left|intros [[-> ->]|[_ []]]; by left].
  - apply NoDup_cons in Hn as [Hm Hn]. rewrite list_elem_of_In in Hm. destruct (text_eqb m name) eqn:E.
    + apply text_eqb_true in E as ->. cbn. split; [apply NoDup_cons; by rewrite list_elem_of_In|]. intros n p. split.
      * intros [[= <- <-]|H]; [by left|]. right. split; [|by right]. intros ->. apply Hm. apply in_map_iff. by exists (name, p).
      * intros [[-> ->]|[Hne [[= <- <-]|H]]]; [by left|done|by right].
    + apply text_eqb_false in E. destruct (IH Hn) as [IH1 IH2]. cbn. split.
      * apply NoDup_cons. split; [|done]. rewrite list_elem_of_In. intros [->|H]%RegisterSection_names; done.
      * intros n p. rewrite IH2. split; [intros [[= <- <-]|[H|[H1 H2]]]; [right; split; [congruence|by left]|by left|right; split; [done|by right]]|].
        intros [[-> ->]|[Hne [[= <- <-]|H]]]; [right; by left|by left|right; by right].
Qed.

(** Whatever the providers return, every section of the report is JSON, given that the replacement is, and the health is there. *)
Lemma report_sections validate_json provide healthy s name payload : validate_json invalid_payload = true ->
  report validate_json provide healthy s !! name = Some payload -> name = $"healthy" \/ validate_json payload = true /\ In name (map fst s).
Proof.
  intros Hv. unfold report. destruct (decide (name = $"healthy")) as [->|Hne]; [by left|]. rewrite lookup_insert_ne by done. intros Hl. right. revert Hl.
  induction s as [|[n p] s IH] using rev_ind; [done|]. rewrite fold_left_app. cbn [fold_left fst snd]. rewrite map_app, in_app_iff. cbn.
  destruct (decide (n = name)) as [->|Hn].
  - rewrite lookup_insert_eq. intros [= <-]. split; [by destruct (validate_json (provide p)) eqn:E|right; by left].
  - rewrite lookup_insert_ne by done. intros Hl. destruct (IH Hl). tauto.
Qed.

(** A score without a half-life latches: it is the sum of its weights; a clock that went back reads as no time passed. *)
Lemma score_latches exp2 (adds : list (spec_float * spec_float)) s : SFleb (halfLifeSec s) dzero = true ->
  score_value (fold_left (fun s a => (Add exp2 a.1 a.2 s).2) adds s) = fold_left (fun v a => dadd v a.2) adds (score_value s).
Proof.
  revert s; induction adds as [|[now weight] adds IH]; intros s Hs; [done|]. cbn [fold_left fst snd]. rewrite IH by done. cbn [Add snd score_value].
  unfold Value. by rewrite Hs.
Qed.

Lemma clock_back_no_gain exp2 now s : SFleb (dsub now (stamp s)) dzero = true -> Value exp2 now s = score_value s.
Proof. intros Hb. unfold Value. by rewrite Hb, orb_true_r. Qed.
