(* ===== verification/Hooking.v ===== *)
(** * Hooks of the engine: [Core/Signals/HookResult.hpp], [Unsafe/Hook.hpp], [Hooks/Teleport.cpp]

    What a handler decides, what KHook is told of it, how a hook is set up and how it goes with its subscription; and the teleport
    service, whose hook [Events.LazyHook] keeps. KHook is followed by the calls made of it: it holds what was added and not removed. *)

From S2P Require Import Prelude Identity Errors Signals Events Pawns.

(** ** [HookResult] *)

Inductive HookAction := Allow | Replace_ | Block_.

Section Handlers.
  (** The world the handlers act on, the call's object and arguments, what the hooked function returns, and the return type's default. *)
  Context {W A Ret : Type} (ret_default : Ret).

Record HookResult := mkHookResult { Action : HookAction; Value : Ret }.

Definition HookResult_new : HookResult := mkHookResult Allow ret_default.
Definition Replace (value : Ret) : HookResult := mkHookResult Replace_ value.
Definition Block (value : Ret) : HookResult := mkHookResult Block_ value.

(** ** [InstalledHook] *)

(** [KHook::Action], its three members the code names; [KHook::Return]. *)
Inductive KAction := Ignore | Override | Supersede.
Record KReturn := mkKReturn { action : KAction; ret : Ret }.

Definition ToKHookAction (a : HookAction) : KAction := match a with Replace_ => Override | Block_ => Supersede | Allow => Ignore end.
Definition ToKHook (r : HookResult) : KReturn := mkKReturn (ToKHookAction (Action r)) (Value r).

(** A handler given: [nullptr], one that returns nothing, one that decides. *)
Inductive BeforeHandler := NoHandler | Observes (f : A -> W -> W) | Decides (f : A -> W -> HookResult * W).

Record InstalledHook := mkInstalled { _before : option (A -> W -> HookResult * W); _after : option (A -> W -> W) }.

Definition WrapBefore (h : BeforeHandler) : option (A -> W -> HookResult * W) :=
  match h with NoHandler => None | Observes f => Some (fun args w => (HookResult_new, f args w)) | Decides f => Some f end.

Definition InstalledHook_new (before : BeforeHandler) (after : option (A -> W -> W)) : InstalledHook := mkInstalled (WrapBefore before) after.

Definition RunBefore (args : A) (h : InstalledHook) (w : W) : KReturn * W :=
  let (r, w) := match _before h with Some f => f args w | None => (HookResult_new, w) end in (ToKHook r, w).
Definition RunAfter (args : A) (h : InstalledHook) (w : W) : KReturn * W :=
  (ToKHook HookResult_new, match _after h with Some f => f args w | None => w end).

(** What KHook is told is what the handler decided; one that only observes, and every after-handler, lets the engine's own call stand. *)
Lemma RunBefore_told before after args w :
  match before with
  | Decides f => let (r, w') := f args w in
      RunBefore args (InstalledHook_new before after) w =
        (mkKReturn (match Action r with Allow => Ignore | Replace_ => Override | Block_ => Supersede end) (Value r), w')
  | Observes f => RunBefore args (InstalledHook_new before after) w = (mkKReturn Ignore ret_default, f args w)
  | NoHandler => RunBefore args (InstalledHook_new before after) w = (mkKReturn Ignore ret_default, w)
  end.
Proof. destruct before as [|f|f]; cbn; [done..|]. unfold RunBefore. cbn. by destruct (f args w) as [[[] v] w']. Qed.

Lemma RunAfter_ignored h args w : (RunAfter args h w).1 = mkKReturn Ignore ret_default.
Proof. done. Qed.

End Handlers.

(** ** Setting hooks up *)

(** What a hook is set on: an interface's method of one instance, a slot of a class's table, code. *)
Inductive hook_target := Method (name : text) | Slot_at (index : Z) | Code_at (address : Z).

(** What is done, by the hook's object: the calls made of KHook, the end of KHook's part and then of the two handlers, lines logged. *)
Inductive hook_act :=
| AddContext (id : nat) | Configure (id : nat) (t : hook_target) | AddInstance (id : nat) (instance : Z) | AddGlobal (id : nat) (table : Z)
| HookGone (id : nat) | AfterGone (id : nat) | BeforeGone (id : nat) | LogLine (line : text).

(** The objects made so far, those a subscription still holds, what was done. *)
Record Hooks := mkHooks { made : nat; held : gset nat; acts : list hook_act }.
Definition Hooks_new : Hooks := mkHooks 0 ∅ [].

Definition act (a : list hook_act) (h : Hooks) : Hooks := mkHooks (made h) (held h) (acts h ++ a).

(** [make_unique<Installed>]: the constructor adds the context. *)
Definition make_hook (h : Hooks) : nat * Hooks := (made h, mkHooks (S (made h)) ({[made h]} ∪ held h) (acts h ++ [AddContext (made h)])).

Definition HookInterface (method : text) (instance : option Z) (h : Hooks) : nat * Hooks :=
  let (id, h) := make_hook h in
  let h := act [Configure id (Method method)] h in
  (id, match instance with Some i => act [AddInstance id i] h | None => h end).

(** [VirtualFn]: bound when its index is not negative and it has a table. *)
Definition VirtualFn_bound (index : Z) (table : option Z) : option Z := if 0 <=? index then table else None.

Definition HookVirtual (name : text) (index : Z) (table : option Z) (h : Hooks) : Result nat * Hooks :=
  match VirtualFn_bound index table with
  | None => (Err (Error_Unsupported ($"the " ++ name ++ $" vtable slot did not bind")), h)
  | Some t =>
      let (id, h) := make_hook h in
      (Ok id, act [Configure id (Slot_at index); AddGlobal id t; LogLine (name ++ $" hook installed (vtable index " ++ dec index ++ $").")] h)
  end.

Definition HookFunction (name : text) (address : option Z) (h : Hooks) : Result nat * Hooks :=
  match address with
  | None => (Err (Error_Unsupported ($"the " ++ name ++ $" signature did not bind")), h)
  | Some p => let (id, h) := make_hook h in (Ok id, act [Configure id (Code_at p); LogLine (name ++ $" hook installed.")] h)
  end.

(** The subscription's cleanup: the object's members go in reverse, KHook's part first. Once released it is empty. *)
Definition Unhook (id : nat) (h : Hooks) : Hooks :=
  if decide (id ∈ held h) then mkHooks (made h) (held h ∖ {[id]}) (acts h ++ [HookGone id; AfterGone id; BeforeGone id]) else h.

Inductive hook_call :=
| CallInterface (method : text) (instance : option Z) | CallVirtual (name : text) (index : Z) (table : option Z) | CallFunction (name : text) (address : option Z)
| CallUnhook (id : nat).

Definition run_hook_call (h : Hooks) (c : hook_call) : Hooks :=
  match c with
  | CallInterface method instance => (HookInterface method instance h).2
  | CallVirtual name index table => (HookVirtual name index table h).2
  | CallFunction name address => (HookFunction name address h).2
  | CallUnhook id => Unhook id h
  end.

(** ** KHook's view *)

(** How far an object's part in KHook is: it has its context, it is configured, it calls; then it is gone, and its handlers after it. *)
Inductive stage := Contexted | Configured (t : hook_target) | Gone | After_gone | Both_gone.

(** Each act where it may come: the context first, then configuring, then adding; a handler goes only once nothing calls it. *)
Definition stage_after (a : hook_act) (m : gmap nat stage) : option (gmap nat stage) :=
  match a with
  | AddContext id => match m !! id with None => Some (<[id := Contexted]> m) | Some _ => None end
  | Configure id t => match m !! id with Some Contexted => Some (<[id := Configured t]> m) | _ => None end
  | AddInstance id _ | AddGlobal id _ => match m !! id with Some (Configured _) => Some m | _ => None end
  | HookGone id => match m !! id with Some (Configured _) => Some (<[id := Gone]> m) | _ => None end
  | AfterGone id => match m !! id with Some Gone => Some (<[id := After_gone]> m) | _ => None end
  | BeforeGone id => match m !! id with Some After_gone => Some (<[id := Both_gone]> m) | _ => None end
  | LogLine _ => Some m
  end.

Fixpoint stages (l : list hook_act) (m : gmap nat stage) : option (gmap nat stage) :=
  match l with [] => Some m | a :: l => match stage_after a m with Some m => stages l m | None => None end end.

Lemma stages_app l l' m : stages (l ++ l') m = match stages l m with Some m => stages l' m | None => None end.
Proof. revert m; induction l as [|a l IH]; intros m; cbn; [done|]. by destruct (stage_after a m). Qed.

(** Every object made is configured, while a subscription holds it, or gone with both handlers. *)
Definition hooks_ok (h : Hooks) : Prop :=
  exists m, stages (acts h) ∅ = Some m /\
    forall id, match m !! id with
               | Some (Configured _) => id ∈ held h /\ (id < made h)%nat
               | Some Both_gone => id ∉ held h /\ (id < made h)%nat
               | Some _ => False
               | None => id ∉ held h /\ (made h <= id)%nat
               end.

Lemma hooks_ok_new : hooks_ok Hooks_new.
Proof. exists ∅. split; [done|]. intros id. rewrite lookup_empty. split; [set_solver|cbn; lia]. Qed.

(** A new object, configured at once, whatever is then added and logged. *)
Lemma made_ok t rest h :
  hooks_ok h -> (forall m, m !! made h = Some (Configured t) -> stages rest m = Some m) ->
  hooks_ok (act (Configure (made h) t :: rest) (make_hook h).2).
Proof.
  intros (m & Hm & Hok) Hrest. assert (m !! made h = None) as Hn.
  { pose proof (Hok (made h)) as H. destruct (m !! made h) as [[]|]; [done|destruct H; lia|done|done|destruct H; lia|done]. }
  exists (<[made h := Configured t]> m). split.
  - cbn. rewrite !stages_app, Hm. cbn. rewrite Hn. cbn. rewrite lookup_insert_eq. cbn. rewrite insert_insert_eq. apply Hrest. by rewrite lookup_insert_eq.
  - intros id. cbn. destruct (decide (id = made h)) as [->|Hne]; [rewrite lookup_insert_eq; split; [set_solver|lia]|].
    rewrite lookup_insert_ne by done. specialize (Hok id). destruct (m !! id) as [[]|]; [done| |done|done| |];
      (destruct Hok as [Hin Hlt]; split; [set_solver|lia]).
Qed.

Lemma Unhook_ok id h : hooks_ok h -> hooks_ok (Unhook id h).
Proof.
  intros (m & Hm & Hok). unfold Unhook. case_decide as Hin; [|by exists m]. pose proof (Hok id) as Hid.
  destruct (m !! id) as [[]|] eqn:E; [done| |done|done|by destruct Hid|by destruct Hid].
  exists (<[id := Both_gone]> m). split.
  - cbn. rewrite stages_app, Hm. cbn. rewrite E. cbn. rewrite lookup_insert_eq. cbn. rewrite lookup_insert_eq. cbn. by rewrite !insert_insert_eq.
  - intros i. cbn. destruct (decide (i = id)) as [->|Hne]; [rewrite lookup_insert_eq; split; [set_solver|apply Hid]|].
    rewrite lookup_insert_ne by done. specialize (Hok i). destruct (m !! i) as [[]|]; [done| |done|done| |];
      (destruct Hok as [Hi Hlt]; split; [set_solver|lia]).
Qed.

Lemma HookInterface_ok method instance h : hooks_ok h -> hooks_ok (HookInterface method instance h).2.
Proof.
  intros H. unfold HookInterface. cbn [make_hook]. destruct instance as [i|]; cbn [snd]; [|by apply (made_ok (Method method) [])].
  replace (act [AddInstance _ _] _) with (act [Configure (made h) (Method method); AddInstance (made h) i] (make_hook h).2)
    by (unfold act; cbn; by rewrite <- !app_assoc).
  apply made_ok; [done|]. intros m E. cbn. by rewrite E.
Qed.

Lemma HookVirtual_ok name index table h : hooks_ok h -> hooks_ok (HookVirtual name index table h).2.
Proof.
  intros H. unfold HookVirtual. destruct (VirtualFn_bound index table) as [t|]; [|done]. apply (made_ok (Slot_at index) [_; _]); [done|]. intros m E. cbn. by rewrite E.
Qed.

Lemma HookFunction_ok name address h : hooks_ok h -> hooks_ok (HookFunction name address h).2.
Proof. intros H. unfold HookFunction. destruct address as [p|]; [|done]. by apply (made_ok (Code_at p) [_]). Qed.

(** Whatever is hooked and unhooked, in any order and whatever did not bind: KHook is called in the order it needs, its part of an
    object goes before the handlers it calls, once, and the hooks it has are those a subscription holds. *)
Theorem hooks_go_with_subscriptions cs :
  let h := fold_left run_hook_call cs Hooks_new in
  exists m, stages (acts h) ∅ = Some m /\ (forall id, id ∈ held h <-> exists t, m !! id = Some (Configured t)) /\
    forall id, is_Some (m !! id) -> id ∉ held h -> m !! id = Some Both_gone.
Proof.
  intros h. assert (hooks_ok h) as (m & Hm & Hok).
  { unfold h. generalize hooks_ok_new. generalize Hooks_new as h0. induction cs as [|c cs IH]; intros h0 H0; [done|]. cbn [fold_left]. apply IH.
    destruct c; cbn [run_hook_call]; auto using HookInterface_ok, HookVirtual_ok, HookFunction_ok, Unhook_ok. }
  exists m. split; [done|]. split.
  - intros id. specialize (Hok id). destruct (m !! id) as [[]|]; [done| |done|done| |]; destruct Hok; split; try (by intros [? ?]); try done. by eauto.
  - intros id [st E] Hn. specialize (Hok id). rewrite E in *. destruct st; try done. by destruct Hok.
Qed.

(** ** [Teleport]: a hook kept while somebody listens *)

Section Teleport.
  (** The slot and table of [CBaseEntity::Teleport]. *)
  Context (index : Z) (table : option Z).

(** The engine's hooks and [_hook], the subscription of the lazy hook. *)
Definition Engine : Type := Hooks * option nat.

Definition install (e : Engine) : bool * Engine :=
  match HookVirtual $"Teleport" index table e.1 with (Ok id, h) => (true, (h, Some id)) | (Err _, h) => (false, (h, e.2)) end.
Definition remove (e : Engine) : Engine := match e.2 with Some id => (Unhook id e.1, None) | None => e end.

(** [onTeleport]: the slot [Before] is raised with, if it is; the slot is the pawn's controller's. *)
Definition onTeleport {vector} (zero : vector) resolve index_of (pawn : Z) (w : World (vector := vector)) : option Z :=
  let slot := Pawns.Slot zero resolve index_of (mkWrapper true (Some pawn)) w in if IsValidSlot slot then Some slot else None.

Definition Available : Status :=
  match VirtualFn_bound index table with Some _ => Ok tt | None => Err (Error_Unsupported $"the CBaseEntity::Teleport vtable slot did not bind") end.
End Teleport.

(** What installing and removing keep of the engine, with whether the hook is installed, every use of the events keeps. *)
Lemma hooked_keeps {G H} (ins : G -> bool * G) (rem : G -> G) (P : bool -> G -> Prop) :
  (forall e, P false e -> P (ins e).1 (ins e).2) -> (forall e, P true e -> P false (rem e)) ->
  forall n e s, P false e -> rtc (hooked_step (H := H) ins rem) (hooked_new n e) s -> hooked_ok s /\ P (hook (lazy s)) (engine (lazy s)).
Proof.
  intros Hi Hr n e s H0 Hs. assert (forall s s', hooked_ok s /\ P (hook (lazy s)) (engine (lazy s)) -> hooked_step (H := H) ins rem s s' ->
    hooked_ok s' /\ P (hook (lazy s')) (engine (lazy s'))) as Hstep.
  { clear s Hs. intros s s' [Hok HP] Hs. split; [by eapply hooked_step_ok|]. destruct Hok as [_ _ Hh].
    assert (P (hook (AddListener ins (lazy s)).2) (engine (AddListener ins (lazy s)).2)) as Hadd.
    { unfold AddListener. destruct (Z.eqb_spec (listening (lazy s)) 0) as [E|]; [|done]. rewrite E in Hh. cbn in Hh. rewrite Hh in *.
      specialize (Hi _ HP). by destruct (ins _) as [[] ?]. }
    assert (P (hook (RemoveListener rem (lazy s))) (engine (RemoveListener rem (lazy s)))) as Hrem.
    { unfold RemoveListener. destruct (Z.ltb_spec 0 (listening (lazy s))); [|done]. destruct (_ =? 0); [|done]. cbn. rewrite Hh in *. auto. }
    destruct Hs as [evs h i ev handler id ev' h' Hev E | evs h i ev id ev' h' Hev E | evs h i ev Hev | evs h i ev Hev Hd]; cbn [lazy] in *; [| |done..].
    - unfold Event_subscribe in E. cbn [ForEvent OnFirst OnLast] in E. repeat case_match; simplify_eq; cbn in *; try done;
        match goal with Ha : AddListener _ _ = _ |- _ => by rewrite Ha in Hadd end.
    - unfold Event_unsubscribe in E. cbn [ForEvent OnFirst OnLast] in E. repeat case_match; simplify_eq; done. }
  remember (hooked_new n e) as s0 eqn:E0. assert (hooked_ok s0 /\ P (hook (lazy s0)) (engine (lazy s0))) as HP by (subst; split; [apply hooked_new_ok|done]).
  clear E0. induction Hs; eauto.
Qed.

(** The engine holds the hook that [_hook] owns, or none. *)
Definition teleport_ok (installed : bool) (e : Engine) : Prop :=
  hooks_ok e.1 /\ if installed then exists id, e.2 = Some id /\ held e.1 = {[id]} else e.2 = None /\ held e.1 = ∅.

Lemma install_ok index table e : teleport_ok false e -> teleport_ok (install index table e).1 (install index table e).2.
Proof.
  intros [Hok [Hn Hh]]. unfold install. pose proof (HookVirtual_ok $"Teleport" index table e.1 Hok) as Hok'. unfold HookVirtual in *.
  destruct (VirtualFn_bound index table); [|done]. split; [done|]. exists (made e.1). split; [done|]. cbn. rewrite Hh. set_solver.
Qed.

Lemma remove_ok e : teleport_ok true e -> teleport_ok false (remove e).
Proof.
  intros [Hok (id & E & Hh)]. unfold remove. rewrite E. split; [by apply Unhook_ok|]. split; [done|]. cbn. unfold Unhook. rewrite Hh.
  case_decide as Hin; [cbn; set_solver|]. exfalso. set_solver.
Qed.

(** Whoever listens for teleports and stops, in whatever order and also while a teleport is told: KHook has the teleport hook exactly while somebody
    listens - one hook, never two -, and each time it went before its handlers. *)
Theorem teleport_hooked_while_heard {H} index table s :
  rtc (hooked_step (H := H) (install index table) remove) (hooked_new 1 (Hooks_new, None)) s ->
  let h := (engine (lazy s)).1 in
  hooks_ok h /\ (held h = ∅ \/ exists id, held h = {[id]}) /\
  (held h <> ∅ <-> exists ev, In ev (events s) /\ Registry_Empty ev = false).
Proof.
  intros Hr. destruct (hooked_keeps (install index table) remove teleport_ok (install_ok index table) remove_ok 1 (Hooks_new, None) s) as [[Hw Hc Hh] [Hok HP]]; [by split; [apply hooks_ok_new|]|exact Hr|].
  split; [done|]. destruct (hook (lazy s)) eqn:Eh.
  - destruct HP as (id & _ & E). split; [eauto|]. split; [intros _|rewrite E; set_solver].
    symmetry in Hh. apply Z.ltb_lt in Hh. rewrite Hc in Hh. unfold listeners in Hh. destruct (List.filter _ _) as [|ev l] eqn:Ef; [done|].
    exists ev. assert (In ev (ev :: l)) as Hin by by left. rewrite <- Ef in Hin. apply filter_In in Hin as [Hin He]. by apply negb_true_iff in He.
  - destruct HP as [_ E]. split; [by left|]. split; [done|]. intros (ev & Hin & He). exfalso. symmetry in Hh. apply Z.ltb_ge in Hh. rewrite Hc in Hh.
    assert (In ev (List.filter (fun ev => negb (Registry_Empty ev)) (events s))) as Hf by (apply filter_In; by rewrite He).
    unfold listeners in Hh. destruct (List.filter _ _); [done|cbn in Hh; lia].
Qed.

Lemma teleport_hooked_while_heard_witness :
  exists s, rtc (hooked_step (H := nat) (install 5 (Some 4096)) remove) (hooked_new 1 (Hooks_new, None)) s /\
    held (engine (lazy s)).1 <> ∅ /\ (exists ev, In ev (events s) /\ Registry_Empty ev = false).
Proof.
  set (r := Event_subscribe (ForEvent (install 5 (Some 4096)) remove) (@Registry_new nat) (mkLazyHook false 0 (Hooks_new, None)) (Some 7%nat)).
  exists (mkHooked [r.1.2] r.2).
  assert (rtc (hooked_step (H := nat) (install 5 (Some 4096)) remove) (hooked_new 1 (Hooks_new, None)) (mkHooked [r.1.2] r.2)) as Hr.
  { apply rtc_once. apply (hooked_subscribe _ _ [Registry_new] _ 0 Registry_new (Some 7%nat) r.1.1); reflexivity. }
  split; [exact Hr|]. destruct (teleport_hooked_while_heard 5 (Some 4096) _ Hr) as (_ & _ & Hiff).
  assert (exists ev, In ev (events (mkHooked [r.1.2] r.2)) /\ Registry_Empty ev = false) as He by (eexists; split; [left; reflexivity|vm_compute; reflexivity]).
  split; [by apply Hiff|exact He].
Defined.
