(* ===== verification/Platform.v ===== *)
(** * The platform under the services: [Host/Plugins/SharedLibrary.cpp], [Core/Files/File.cpp], [App/LoadConfig.hpp], [Core/Random.cpp],
      [Engine/Net/{NetChannel,ServerSideClients}.cpp], [Engine/Server/ConsoleLogger.cpp], [Entities/Trace.cpp]

    Libraries opened and closed by whoever owns them, files read and written, a plugin's settings and translations read before it loads, and what
    the engine answers about a client and about a line through the world. The operating system, the engine and its geometry are arguments. *)

From Stdlib Require Import Floats.SpecFloat.
From S2P Require Import Prelude Text Identity Errors Logger Translations Damage Settings Entities.

(** ** [SharedLibrary] *)

Section Libraries.
  (** What the system answers: a handle for a path, an address for a name a library exports, its last message. *)
  Context (OpenLibrary : text -> option Z) (FindExport : Z -> text -> option Z) (LastError : text).

Inductive os_call := Opened (handle : Z) | LookedUp (handle : Z) (name : text) | Closed (handle : Z).

(** The [SharedLibrary] objects alive, by a name each, with [_handle]; the calls of the system. *)
Record Libraries := mkLibraries { objects : gmap nat (option Z); os : list os_call }.
Definition Libraries_new : Libraries := mkLibraries ∅ [].

Definition handle_of (x : nat) (l : Libraries) : option Z := match objects l !! x with Some o => o | None => None end.

(** [Close] of the object [x]. *)
Definition Library_Close (x : nat) (l : Libraries) : Libraries :=
  match handle_of x l with
  | None => l
  | Some h => mkLibraries (<[x := None]> (objects l)) (os l ++ [Closed h])
  end.

(** The move constructor of [x] from [y]; the move assignment; the destructor. *)
Definition Library_move (x y : nat) (l : Libraries) : Libraries :=
  mkLibraries (<[x := handle_of y l]> (<[y := None]> (objects l))) (os l).
Definition Library_assign (x y : nat) (l : Libraries) : Libraries :=
  if (x =? y)%nat then l else Library_move x y (Library_Close x l).
Definition Library_drop (x : nat) (l : Libraries) : Libraries :=
  let l := Library_Close x l in mkLibraries (delete x (objects l)) (os l).

(** [Open], into the new object [x]. *)
Definition Library_Open (x : nat) (path : text) (l : Libraries) : Status * Libraries :=
  match OpenLibrary path with
  | None => (Err (Error_Failed ($"cannot load " ++ path ++ $": " ++ LastError)), l)
  | Some h => (Ok tt, mkLibraries (<[x := Some h]> (objects l)) (os l ++ [Opened h]))
  end.

Definition Symbol (x : nat) (name : text) (l : Libraries) : Result Z * Libraries :=
  match handle_of x l with
  | None => (Err (Error_NotReady ($"cannot look up " ++ name ++ $": nothing is loaded")), l)
  | Some h =>
      (match FindExport h name with
       | None => Err (Error_NotFound ($"does not export " ++ name ++ $": " ++ LastError))
       | Some a => Ok a
       end, mkLibraries (objects l) (os l ++ [LookedUp h name]))
  end.

(** What a program does with its objects: one is made where none is, and used while it is alive. *)
Inductive library_step : Libraries -> Libraries -> Prop :=
| library_default x l : objects l !! x = None -> library_step l (mkLibraries (<[x := None]> (objects l)) (os l))
| library_open x path l : objects l !! x = None -> library_step l (Library_Open x path l).2
| library_move x y l : objects l !! x = None -> is_Some (objects l !! y) -> library_step l (Library_move x y l)
| library_assign x y l : is_Some (objects l !! x) -> is_Some (objects l !! y) -> library_step l (Library_assign x y l)
| library_symbol x name l : is_Some (objects l !! x) -> library_step l (Symbol x name l).2
| library_drop x l : is_Some (objects l !! x) -> library_step l (Library_drop x l).

(** *** Who holds what is open *)

Definition handles (m : gmap nat (option Z)) : list Z := omap snd (map_to_list m).
Definition opened (calls : list os_call) : list Z := omap (fun c => match c with Opened h => Some h | _ => None end) calls.
Definition closed (calls : list os_call) : list Z := omap (fun c => match c with Closed h => Some h | _ => None end) calls.

Lemma handles_insert m x o : m !! x = None -> handles (<[x := o]> m) ≡ₚ option_list o ++ handles m.
Proof. intros E. unfold handles. rewrite map_to_list_insert by done. cbn. by destruct o. Qed.

Lemma handles_take m x o : m !! x = Some o -> handles m ≡ₚ option_list o ++ handles (delete x m).
Proof. intros E. rewrite <- (insert_delete_id m x o E) at 1. apply handles_insert, lookup_delete_eq. Qed.

Lemma handles_update m x o o' : m !! x = Some o -> option_list o ++ handles (<[x := o']> m) ≡ₚ option_list o' ++ handles m.
Proof.
  intros E. rewrite <- insert_delete_eq, handles_insert by apply lookup_delete_eq. rewrite (handles_take m x o E), !app_assoc. f_equiv. apply Permutation_app_comm.
Qed.

(** Every library opened was closed, or is held by one object: counted by handle, since the system may give one twice. *)
Definition libraries_ok (l : Libraries) : Prop := opened (os l) ≡ₚ closed (os l) ++ handles (objects l).

Lemma opened_app a b : opened (a ++ b) = opened a ++ opened b.
Proof. apply omap_app. Qed.
Lemma closed_app a b : closed (a ++ b) = closed a ++ closed b.
Proof. apply omap_app. Qed.

Lemma Close_ok x l : libraries_ok l -> libraries_ok (Library_Close x l).
Proof.
  unfold Library_Close, handle_of, libraries_ok. intros H. destruct (objects l !! x) as [[h|]|] eqn:E; [|done..]. cbn [os objects].
  rewrite opened_app, closed_app. cbn. rewrite app_nil_r, H. rewrite <- app_assoc. f_equiv. symmetry. apply (handles_update _ x (Some h) None E).
Qed.

Lemma Close_objects x l : is_Some (objects l !! x) -> objects (Library_Close x l) = <[x := None]> (objects l).
Proof.
  intros [o E]. unfold Library_Close, handle_of. rewrite E. cbn. destruct o; [done|]. by rewrite insert_id.
Qed.

(** The handle goes from [y] to an [x] that holds none. *)
Lemma move_ok x y l : x <> y -> handle_of x l = None -> is_Some (objects l !! y) -> libraries_ok l -> libraries_ok (Library_move x y l).
Proof.
  intros Hne Hx [o Ey] H. unfold libraries_ok, Library_move in *. cbn [os objects]. rewrite H. f_equiv.
  assert (handle_of y l = o) as -> by (unfold handle_of; by rewrite Ey).
  assert (handles (objects l) ≡ₚ option_list o ++ handles (<[y := None]> (objects l))) as E1.
  { rewrite <- (handles_update (objects l) y o None Ey). done. }
  rewrite E1. unfold handle_of in Hx. destruct (objects l !! x) as [ox|] eqn:Ex.
  - cbn in Hx. subst ox. symmetry. by rewrite <- (handles_update (<[y := None]> (objects l)) x None o) by (by rewrite lookup_insert_ne).
  - symmetry. apply handles_insert. by rewrite lookup_insert_ne.
Qed.

Lemma library_step_ok l l' : library_step l l' -> libraries_ok l -> libraries_ok l'.
Proof.
  intros Hs H. destruct Hs as [x l E|x path l E|x y l Ex Ey|x y l Ex Ey|x name l Ex|x l Ex].
  - unfold libraries_ok in *. cbn [os objects]. rewrite H. apply Permutation_app_head. symmetry. by apply handles_insert.
  - unfold Library_Open. destruct (OpenLibrary path) as [h|]; [|done]. unfold libraries_ok in *. cbn [os objects snd]. rewrite opened_app, closed_app, H.
    rewrite (handles_insert _ _ _ E). cbn. rewrite app_nil_r, <- app_assoc. apply Permutation_app_head, Permutation_app_comm.
  - apply move_ok; [intros ->; rewrite Ex in Ey; by destruct Ey|unfold handle_of; by rewrite Ex|done|done].
  - unfold Library_assign. destruct (Nat.eqb_spec x y) as [|Hne]; [done|]. apply move_ok; [done| | |by apply Close_ok].
    + unfold handle_of. by rewrite Close_objects, lookup_insert_eq.
    + rewrite Close_objects by done. by rewrite lookup_insert_ne.
  - unfold Symbol. destruct (handle_of x l); [|done]. unfold libraries_ok in *. cbn [os objects snd]. rewrite opened_app, closed_app. cbn. by rewrite !app_nil_r.
  - pose proof (Close_ok x l H) as Hc. unfold Library_drop, libraries_ok in *. cbn [os objects]. rewrite Hc. apply Permutation_app_head.
    apply (handles_take _ x None). by rewrite Close_objects, lookup_insert_eq.
Qed.

(** However libraries are opened, moved, assigned - to themselves too - and dropped, and whatever does not open: each is closed once and only once for
    each time it was opened, when the object that holds it goes; an address is looked up only in a library that is open; and no object, nothing open. *)
Theorem libraries_closed_once l : rtc library_step Libraries_new l ->
  opened (os l) ≡ₚ closed (os l) ++ handles (objects l) /\
  (forall x name l', library_step l l' -> os l' = os l ++ [LookedUp x name] -> x ∈ handles (objects l)) /\
  (objects l = ∅ -> opened (os l) ≡ₚ closed (os l)).
Proof.
  intros Hr. assert (libraries_ok l) as H.
  { remember Libraries_new as l0 eqn:E0. assert (libraries_ok l0) as H0 by (subst; unfold libraries_ok, handles; cbn [objects os Libraries_new]; by rewrite map_to_list_empty). clear E0. induction Hr; eauto using library_step_ok. }
  split; [done|]. split.
  - intros x name l' Hs E. assert (forall a, os l ++ [a] = os l ++ [LookedUp x name] -> a = LookedUp x name) as Hlast by (intros a Ea; by apply app_inj_2 in Ea as [_ [= ->]]).
    assert (forall r, r = os l -> r = os l ++ [LookedUp x name] -> False) as Hno.
    { intros r -> E'. apply (f_equal length) in E'. rewrite length_app in E'. cbn in E'. lia. }
    destruct Hs as [y l Ey|y path l Ey|y z l Ey Ez|y z l Ey Ez|y nm l Ey|y l Ey]; cbn in E.
    + by apply Hno in E.
    + unfold Library_Open in E. destruct (OpenLibrary path); [by apply Hlast in E|by apply Hno in E].
    + by apply Hno in E.
    + unfold Library_assign in E. destruct (_ =? _)%nat; [by apply Hno in E|]. unfold Library_move, Library_Close in E. cbn in E.
      destruct (handle_of y l); [by apply Hlast in E|by apply Hno in E].
    + unfold Symbol in E. destruct (handle_of y l) as [h|] eqn:Eh; [|by apply Hno in E]. apply Hlast in E. injection E as -> _.
      unfold handle_of in Eh. destruct (objects l !! y) as [o|] eqn:Ey'; [|done]. cbn in Eh. subst o.
      rewrite (handles_take _ _ _ Ey'). cbn. set_solver.
    + unfold Library_drop, Library_Close in E. cbn in E. destruct (handle_of y l); [by apply Hlast in E|by apply Hno in E].
  - intros E. unfold libraries_ok in H. rewrite H, E. unfold handles. by rewrite map_to_list_empty, app_nil_r.
Qed.
End Libraries.

Lemma libraries_closed_once_witness :
  let open := fun path : text => match path with [] => None | _ => Some 7 end in
  exists l, rtc (library_step open (fun _ _ => None) []) Libraries_new l /\ os l = [Opened 7; Opened 7; Closed 7; LookedUp 7 $"entry"; Closed 7] /\
    objects l = ∅ /\ opened (os l) ≡ₚ closed (os l).
Proof.
  intros open. set (OK := library_step open (fun _ _ => None) []).
  set (l1 := (Library_Open open [] 1 $"a.so" Libraries_new).2). set (l2 := (Library_Open open [] 2 $"a.so" l1).2). set (l3 := Library_assign 1 2 l2).
  set (l4 := (Symbol (fun _ _ => None) [] 1 $"entry" l3).2). set (l5 := Library_drop 1 l4). set (l6 := Library_drop 2 l5).
  assert (rtc OK Libraries_new l6) as Hr.
  { eapply rtc_l; [apply (library_open open _ _ 1 $"a.so"); reflexivity|]. eapply rtc_l; [apply (library_open open _ _ 2 $"a.so"); reflexivity|].
    eapply rtc_l; [apply (library_assign open _ _ 1 2); by eexists|]. eapply rtc_l; [apply (library_symbol open _ _ 1 $"entry"); by eexists|].
    eapply rtc_l; [apply (library_drop open _ _ 1); by eexists|]. apply rtc_once. apply (library_drop open _ _ 2). by eexists. }
  exists l6. split; [exact Hr|]. assert (objects l6 = ∅) as E by (vm_compute; reflexivity). split; [vm_compute; reflexivity|]. split; [exact E|].
  exact (proj2 (proj2 (libraries_closed_once open (fun _ _ => None) [] l6 Hr)) E).
Defined.

(** ** [File] *)

Section FileSystem.
  (** [ResolvePath]; whether a file opens to be read and to be written; how much of a text's end the stream still buffers when [write] returns,
      and how much of a text the disk takes. *)
  Context (ResolvePath : text -> text) (opens_to_read opens_to_write : text -> bool) (buffered : text -> text -> nat) (taken : text -> text -> nat).

Definition ReadAllText (path : text) (files : gmap text text) : Result text :=
  let resolved := ResolvePath path in
  match (if opens_to_read resolved then files !! resolved else None) with
  | None => Err (Error_NotFound ($"failed to open " ++ resolved))
  | Some content => Ok content
  end.

(** The files are a map from resolved path to content; one is emptied as it opens. [write] fails when the part handed on at once does not fit; the rest goes out as the stream is destroyed,
    after the status is made. *)
Definition WriteAllText (path content : text) (files : gmap text text) : Status * gmap text text :=
  let resolved := ResolvePath path in
  if negb (opens_to_write resolved) then (Err (Error_Invalid ($"failed to open " ++ resolved)), files) else
  let at_once := (length content - buffered resolved content)%nat in
  let files := <[resolved := take (taken resolved content) content]> files in
  (if (taken resolved content <? at_once)%nat then Err (Error_Invalid ($"failed to write " ++ resolved)) else Ok tt, files).

(** A text the disk has room for is read back as it was written. *)
Lemma written_read_back path content files :
  opens_to_write (ResolvePath path) = true -> opens_to_read (ResolvePath path) = true -> (length content <= taken (ResolvePath path) content)%nat ->
  let '(status, files') := WriteAllText path content files in status = Ok tt /\ ReadAllText path files' = Ok content.
Proof.
  intros Hw Hr Ht. unfold WriteAllText, ReadAllText. rewrite Hw, Hr. cbn [negb]. rewrite take_ge by done. rewrite lookup_insert_eq.
  destruct (Nat.ltb_spec (taken (ResolvePath path) content) (length content - buffered (ResolvePath path) content)); [lia|done].
Qed.

(** A write that says it failed left a beginning of the text at most; one that fails to open left the files alone. *)
Lemma write_refused path content files e files' :
  WriteAllText path content files = (Err e, files') ->
  files' = files \/ exists n, (n < length content)%nat /\ files' = <[ResolvePath path := take n content]> files.
Proof.
  unfold WriteAllText. destruct (opens_to_write _); cbn [negb]; [|intros [= _ <-]; by left].
  destruct (Nat.ltb_spec (taken (ResolvePath path) content) (length content - buffered (ResolvePath path) content)) as [Hl|]; intros [= _ <-].
  right. exists (taken (ResolvePath path) content). split; [lia|done].
Qed.

(** On a full disk a text the stream buffers whole is lost, and the status says it was written. *)
Lemma lost_write_says_ok path content files :
  opens_to_write (ResolvePath path) = true -> buffered (ResolvePath path) content = length content -> taken (ResolvePath path) content = 0%nat ->
  WriteAllText path content files = (Ok tt, <[ResolvePath path := []]> files).
Proof. intros Hw Hb Ht. unfold WriteAllText. rewrite Hw, Hb, Ht. cbn. by rewrite Nat.sub_diag. Qed.
End FileSystem.

(** ** [LoadConfig] *)

Section Config.
  Context {TSettings TSnapshot : Type}.
  (** What a settings file reads as, the plugin's builder, the locale where the snapshot has one, and the translation files of a directory. *)
  Context (ReadFile : text -> Result TSettings) (build : TSettings -> option TSnapshot) (locale : option (TSnapshot -> text)).
  Context (files_of : text -> option (list (text * option Translations.json))).

Record LoadConfigOptions := mkLoadConfigOptions { SettingsFile : text; with_translations : bool }.
Definition LoadConfigOptions_default : LoadConfigOptions := mkLoadConfigOptions $"configs/settings.jsonc" true.

(** A parse error already names the file. *)
Definition name_file (path : text) (e : Error) : Error :=
  if StartsWith (Detail e) path then e else mkError (Code e) (path ++ $": " ++ Detail e) (Key e) (Text e).

(** The settings, the report and the translations after it; none when the plugin's builder throws, which the caller of the constructor sees. *)
Definition LoadConfig (plugin : text) (options : LoadConfigOptions) (config : Options TSnapshot) (report : LoadReport) (t : Translations)
    : option (Options TSnapshot * LoadReport * Translations) :=
  let path := PluginFile plugin (SettingsFile options) in
  match Settings.Load ReadFile build path config with
  | (BuildThrew, _) => None
  | (Answers status, config) =>
      let status := match status with Ok _ => status | Err e => Err (name_file path e) end in
      let (ok, report) := LoadReport_Required report $"Configuration" status in
      if negb ok then Some (config, report, t) else
      if with_translations options then
        let t := match locale with Some locale_of => Translations_SetLanguage t (locale_of (Settings.Get config)) | None => t end in
        Some (config, report, (Translations_Load t (files_of (PluginFile plugin $"translations"))).2)
      else Some (config, report, t)
  end.

(** Settings that cannot be read leave the defaults and the translations, and the report refuses the plugin with a reason that names the file. *)
Lemma LoadConfig_refuses plugin options config t e :
  ReadFile (PluginFile plugin (SettingsFile options)) = Err e ->
  exists config' reason, LoadConfig plugin options config [] t = Some (config', [mkFailedCheck $"Configuration" reason true], t) /\
    Settings.Get config' = Settings.Get config /\ StartsWith reason (PluginFile plugin (SettingsFile options)) = true /\
    LoadReport_AbortReason [mkFailedCheck $"Configuration" reason true] = $"Configuration: " ++ reason.
Proof.
  intros E. unfold LoadConfig, Settings.Load. rewrite E. set (path := PluginFile plugin (SettingsFile options)). eexists _, _. split; [reflexivity|]. split; [done|].
  assert (StartsWith (Detail (name_file path e)) path = true) as Hs.
  { unfold name_file. destruct (StartsWith (Detail e) path) eqn:Es; [done|]. cbn. apply is_prefix_spec. by eexists. }
  split; [done|]. unfold LoadReport_AbortReason. cbn. destruct (Detail (name_file path e)) eqn:Ed; [|done]. exfalso.
  apply is_prefix_spec in Hs as [rest Hs]. assert (path <> []) as Hp by done. by destruct path.
Qed.

(** Settings that are read stand whole, the report is as it was, and the translations are the directory's under the locale they name. *)
Lemma LoadConfig_loads plugin options config report t settings snapshot :
  ReadFile (PluginFile plugin (SettingsFile options)) = Ok settings -> build settings = Some snapshot ->
  exists config', LoadConfig plugin options config report t =
      Some (config', report, if with_translations options
                             then (Translations_Load (Translations_SetLanguage t (match locale with Some locale_of => locale_of snapshot | None => activeLang t end))
                                     (files_of (PluginFile plugin $"translations"))).2
                             else t) /\ Settings.Get config' = snapshot.
Proof.
  intros E Eb. unfold LoadConfig, Settings.Load. rewrite E, Eb. cbn. exists (mkOptions (PluginFile plugin (SettingsFile options)) snapshot). split; [|done].
  destruct (with_translations options); [|done]. do 3 f_equal. by destruct locale, t.
Qed.
End Config.

(** ** Clients' channels *)

Section Clients.
  (** Whether the engine is there; a client's channel and its latency, its value for a variable. *)
  Context (has_engine : bool) (GetPlayerNetInfo : Z -> option Z) (GetEngineLatency : Z -> float32) (GetClientConVarValue : Z -> text -> option text).

Definition GetNetInfo (slot : Z) : option Z := if IsValidSlot slot && has_engine then GetPlayerNetInfo slot else None.
Definition EngineLatency (slot : Z) : float32 := match GetNetInfo slot with Some info => GetEngineLatency info | None => fzero end.
Definition GetUserInfoCvar (slot : Z) (name : text) : text :=
  if negb (IsValidSlot slot && has_engine) || bool_decide (name = []) then []
  else match GetClientConVarValue slot (c_str name) with Some value => value | None => [] end.

(** The engine is asked about valid slots only; another slot has no channel, no latency and no variables. *)
Lemma no_client_no_answer slot name :
  IsValidSlot slot = false -> GetNetInfo slot = None /\ EngineLatency slot = fzero /\ GetUserInfoCvar slot name = [].
Proof. intros E. unfold EngineLatency, GetUserInfoCvar, GetNetInfo. by rewrite E. Qed.
End Clients.

(** [ServerSideClients]: a client by the address of the filter within it, and its slot; the gamedata's offsets where they bound, what memory holds. *)
Definition FilterClient (ClientMessageFilter : option Z) (filter : Z) : option Z :=
  match ClientMessageFilter with None => None | Some offset => Some (filter - offset) end.
Definition ClientSlot (ClientSlot_offset : option Z) (memory : Z -> Z) (client : option Z) : Z :=
  match client, ClientSlot_offset with Some c, Some offset => memory (c + offset) | _, _ => -1 end.

(** The client a filter is part of is the one whose slot is read: at its own offset from its start. *)
Lemma ClientSlot_of_filter filter_offset slot_offset memory client :
  ClientSlot (Some slot_offset) memory (FilterClient (Some filter_offset) (client + filter_offset)) = memory (client + slot_offset).
Proof. unfold ClientSlot, FilterClient. f_equal. lia. Qed.

(** ** [RandomIndex] *)

(** The generator's distribution, asked for a number between two. *)
Definition RandomIndex (uniform : Z -> Z -> Z) (count : Z) : Z := if count =? 0 then 0 else uniform 0 (count - 1).

(** With a distribution that keeps its bounds, what is picked is an index, of anything that has one. *)
Lemma RandomIndex_in_range uniform count :
  (forall a b, a <= b -> a <= uniform a b <= b) -> 0 < count -> 0 <= RandomIndex uniform count < count.
Proof. intros Hu Hc. unfold RandomIndex. destruct (Z.eqb_spec count 0); [lia|]. specialize (Hu 0 (count - 1)). lia. Qed.

(** ** [MakeConsoleHandler] *)

(** What is written to the console: a coloured head, and the message. *)
Inductive console_act := ConColorMsg (r g b : Z) (line : text) | Msg (line : text).

Definition ConsoleHandler (prefix : text) (level : Logger.LogLevel) (message : text) : list console_act :=
  let head := $"[" ++ c_str prefix ++ $"] " in
  [match level with
   | Logger.Info => ConColorMsg 0 255 0 head
   | Logger.Warn => ConColorMsg 255 255 0 (head ++ $"WARN: ")
   | Logger.Error_ => ConColorMsg 255 0 0 (head ++ $"ERROR: ")
   end; Msg (c_str message ++ [chr 10])].

(** ** [Trace] *)

Section Trace.
  Context {vector : Type} (add : vector -> vector -> vector) (scale : vector -> float32 -> vector) (AngleToForward : vector -> vector).
  (** The engine's content bits. *)
  Context (CONTENTS_SOLID CONTENTS_BLOCK_LOS CONTENTS_WINDOW CONTENTS_PASS_BULLETS CONTENTS_SKY MASK_PLAYERSOLID : Z).

Inductive TraceLayers := Sight | Solid | Surfaces.

Record TraceOptions := mkTraceOptions { Layers : TraceLayers; Ignore1 : option Z; Ignore2 : option Z; IgnoreOwnedBy : option Z }.
Definition TraceOptions_default : TraceOptions := mkTraceOptions Sight None None None.

Record TraceHit := mkTraceHit { Hit : bool; Fraction : float32; End_ : vector; Normal : vector; HitEntity : Z; HitWorld : bool }.

(** [CGameTrace] after the engine wrote it: an entity with whether it has an identity, its handle and its index. *)
Record CGameTrace := mkGameTrace { DidHit : bool; m_flFraction : float32; m_vEndPos : vector; m_vHitNormal : vector; m_pEnt : option (bool * Z * Z) }.

(** [CTraceFilter], as it is made. *)
Record CTraceFilter := mkFilter { mask : Z; PassEntity1 : option Z; PassEntity2 : option Z; PassEntityOwner1 : option Z; iterates : bool }.

Definition SightMask : Z := Z.lor CONTENTS_SOLID CONTENTS_BLOCK_LOS.
Definition SurfacesMask : Z := Z.lor (Z.lor (Z.lor CONTENTS_SOLID CONTENTS_WINDOW) CONTENTS_PASS_BULLETS) CONTENTS_SKY.
Definition MaskOf (layers : TraceLayers) : Z := match layers with Sight => SightMask | Surfaces => SurfacesMask | Solid => MASK_PLAYERSOLID end.

Definition MakeFilter (options : TraceOptions) : CTraceFilter :=
  mkFilter (MaskOf (Layers options)) (Ignore1 options) (Ignore2 options) (IgnoreOwnedBy options) false.

Definition RefOf (entity : option (bool * Z * Z)) : Z := match entity with Some (true, handle, _) => wrap_u32 handle | _ => Unset end.

Definition ToHit (t : CGameTrace) : TraceHit :=
  mkTraceHit (DidHit t) (m_flFraction t) (m_vEndPos t) (m_vHitNormal t) (RefOf (m_pEnt t))
    (DidHit t && match m_pEnt t with Some (true, _, index) => index =? 0 | _ => false end).

  (** The two functions of the engine's physics, where their slots bound. *)
  Context (NavTraceLine : option (vector -> vector -> CTraceFilter -> CGameTrace)).
  Context (NavTraceShape : option (vector * vector -> vector -> vector -> CTraceFilter -> CGameTrace)).

Definition Trace_Available : Status :=
  match NavTraceLine with None => Err (Error_Unsupported $"the Nav_TraceLine vtable slot did not bind") | Some _ => Ok tt end.

Definition Line (from to : vector) (options : TraceOptions) : Result TraceHit :=
  match Trace_Available, NavTraceLine with
  | Err e, _ => Err e
  | Ok _, Some trace => Ok (ToHit (trace from to (MakeFilter options)))
  | Ok _, None => Err (Error_Unsupported [])
  end.

Definition Box (from to mins maxs : vector) (options : TraceOptions) : Result TraceHit :=
  match NavTraceShape with
  | None => Err (Error_Unsupported $"the Nav_TraceShape vtable slot did not bind")
  | Some trace => Ok (ToHit (trace (mins, maxs) from to (MakeFilter options)))
  end.

(** The pawn by its entity, its eyes and its aim. *)
Definition FromEyes (pawn : option Z) (eyes angles : vector) (distance : float32) (layers : TraceLayers) : Result TraceHit :=
  Line eyes (add eyes (scale (AngleToForward angles) distance)) (mkTraceOptions layers pawn None None).

Definition Clear (from to : vector) (options : TraceOptions) : Result bool :=
  match Line from to options with Err e => Err e | Ok hit => Ok (negb (Hit hit)) end.

(** A line is answered exactly when traces are available, and is clear exactly when it hit nothing; a hit on the world names an entity that is one. *)
Lemma Clear_spec from to options :
  (exists b, Clear from to options = Ok b) <-> Trace_Available = Ok tt.
Proof. unfold Clear, Line, Trace_Available. destruct NavTraceLine; split; try done; [by eexists|by intros []]. Qed.

Lemma HitWorld_hit t : HitWorld (ToHit t) = true -> Hit (ToHit t) = true /\ exists handle, m_pEnt t = Some (true, handle, 0) /\ HitEntity (ToHit t) = wrap_u32 handle.
Proof.
  unfold ToHit. cbn. intros [Hd H]%andb_true_iff. split; [done|]. destruct (m_pEnt t) as [[[[] handle] index]|]; [|done..]. apply Z.eqb_eq in H as ->. by exists handle.
Qed.
End Trace.
