(* ===== verification/PluginRoster.v ===== *)
(** * From the engine to a plugin's roster: [PluginModule]'s client callbacks in [App/Plugin.cpp], over [EngineHooks.v] and [Roster.v]

    What the host raises reaches each plugin's [PlayerManager]; here is who that manager then says is on the server. *)

From S2P Require Import Prelude Text Identity HostCallbacks PluginHost EngineHooks Workshop Roster.

Section Hears.
  Context (handlers : RosterEvent -> Roster -> handler_program) (fuel : nat).

(** [OnClientConnected], [OnClientDisconnected], [OnClientFullyConnected], [OnClientSettingsChanged]. *)
Definition plugin_hears (st : Roster) (r : Raised) : outcome Roster :=
  match r with
  | RaisedClientConnected slot steamId name address => run_op handlers fuel (OpAdd slot steamId name address) st
  | RaisedClientDisconnected slot => run_op handlers fuel (OpRemove slot) st
  | RaisedClientFullyConnected slot => run_op handlers fuel (OpFullyConnected slot) st
  | RaisedClientSettingsChanged slot => run_op handlers fuel (OpSettingsChanged slot) st
  | _ => Returns st
  end.

End Hears.

(** * Theorems *)

Definition player_at (st : Roster) (slot : Z) : option Player := Get st slot ≫= fun p => heap st !! p.

Lemma player_at_Get st slot : roster_ok st -> is_Some (player_at st slot) <-> is_Some (Get st slot).
Proof.
  intros [Hm _]. unfold player_at. split; [destruct (Get st slot); [by eexists|by intros []]|]. intros [p Hp]. rewrite Hp.
  destruct (ok_slots _ Hm _ _ Hp) as (pl & Hpl & _). cbn. rewrite Hpl. by eexists.
Qed.

Lemma other_pointer st slot s p q : roster_ok st -> Get st slot = Some p -> Get st s = Some q -> s <> slot -> q <> p.
Proof.
  intros [Hm _] Hp Hq Hne ->. destruct (ok_slots _ Hm _ _ Hp) as (pl & H1 & H2), (ok_slots _ Hm _ _ Hq) as (pl' & H3 & H4). congruence.
Qed.

(** What an event leaves of the roster. *)
Lemma raised_same st r : roster_ok st -> let st' := mkRoster (heap st) (nextPtr st) (bySlot st) (bySteamId st) (ordered st) r in
  roster_ok st' /\ forall s, player_at st' s = player_at st s.
Proof. intros [[] []] st'. split; [|done]. by split; split. Qed.

Lemma hears_connected fuel slot steamId name ip st : roster_ok st ->
  exists st', run_op passive (S fuel) (OpAdd slot steamId name ip) st = Returns st' /\ roster_ok st' /\
    forall s, player_at st' s = if s =? slot then Some (mkPlayer slot steamId name ip) else player_at st s.
Proof.
  intros Hok. cbn. unfold Add. destruct (passive_Drop_any (run_op passive fuel) slot st Hok) as (st1 & E1 & Hok1 & _ & Eb1 & En1 & Eh1). rewrite E1. cbn.
  destruct (Insert_ok st1 slot steamId name ip (proj1 Hok1)) as (st2 & E2 & Hok2 & Eh2 & Eb2 & _); [rewrite Eb1; apply lookup_delete_eq|].
  rewrite E2. cbn. rewrite passive_raise by (cbn; congruence). cbn [outcome_bind]. rewrite passive_raise by (intros q [= <-]; cbn; rewrite Eh2, lookup_insert_eq; eauto).
  cbn. eexists. split; [done|]. destruct (raised_same st2 ((raised st2 ++ [SlotChanged slot]) ++ [Connected (nextPtr st1)]) Hok2) as [Hok3 Hp3].
  split; [exact Hok3|]. intros s. rewrite Hp3. unfold player_at, Get. rewrite Eb2, Eb1, Eh2. destruct (Z.eqb_spec s slot) as [->|Hne].
  - rewrite lookup_insert_eq. cbn. by rewrite lookup_insert_eq.
  - rewrite lookup_insert_ne, lookup_delete_ne by done. destruct (bySlot st !! s) as [q|] eqn:Eq; [|done]. cbn.
    destruct (ok_slots _ (proj1 Hok) _ _ Eq) as (pl & Hpl & _). pose proof (ok_fresh _ (proj1 Hok) _ _ Hpl).
    rewrite lookup_insert_ne by (rewrite En1; lia). rewrite Eh1. destruct (Get st slot) as [p|] eqn:Ep; [|done].
    rewrite lookup_delete_ne; [done|]. intros ->. by apply (other_pointer st slot s q q Hok Ep Eq Hne).
Qed.

Lemma hears_disconnected fuel slot st : roster_ok st ->
  exists st', run_op passive (S fuel) (OpRemove slot) st = Returns st' /\ roster_ok st' /\
    forall s, player_at st' s = if s =? slot then None else player_at st s.
Proof.
  intros Hok. cbn. unfold Remove. destruct (bySlot st !! slot) as [p|] eqn:Ep.
  - destruct (passive_Drop (run_op passive fuel) slot st p Hok Ep) as (st1 & E1 & Hok1 & _ & Eb1 & _ & Eh1). rewrite E1. cbn [outcome_bind].
    rewrite passive_raise by done. eexists. split; [done|]. destruct (raised_same st1 (raised st1 ++ [SlotChanged slot]) Hok1) as [Hok2 Hp2]. split; [done|].
    intros s. rewrite Hp2. unfold player_at, Get. rewrite Eb1, Eh1. destruct (Z.eqb_spec s slot) as [->|Hne]; [by rewrite lookup_delete_eq|].
    rewrite lookup_delete_ne by done. destruct (bySlot st !! s) as [q|] eqn:Eq; [|done]. cbn. rewrite lookup_delete_ne; [done|].
    intros ->. by apply (other_pointer st slot s q q Hok Ep Eq Hne).
  - exists st. split; [done|]. split; [done|]. intros s. destruct (Z.eqb_spec s slot) as [->|Hne]; [unfold player_at, Get; by rewrite Ep|done].
Qed.

Lemma hears_other fuel op st : roster_ok st -> (exists slot, op = OpFullyConnected slot \/ op = OpSettingsChanged slot) ->
  exists st', run_op passive (S fuel) op st = Returns st' /\ roster_ok st' /\ forall s, player_at st' s = player_at st s.
Proof.
  intros Hok [slot [-> | ->]]; cbn; unfold OnClientFullyConnected, OnClientSettingsChanged; destruct (Get st slot) as [p|] eqn:Ep; try by exists st.
  - destruct (ok_slots _ (proj1 Hok) _ _ Ep) as (pl & Hpl & _). rewrite passive_raise by done. cbn [outcome_bind].
    rewrite passive_raise by (intros q [= <-]; cbn; by eexists). eexists. split; [done|]. cbn. apply (raised_same st _ Hok).
  - destruct (ok_slots _ (proj1 Hok) _ _ Ep) as (pl & Hpl & _). rewrite passive_raise by (intros q [= <-]; by eexists).
    eexists. split; [done|]. apply (raised_same st _ Hok).
Qed.

Lemma hears_nothing fuel m rs st :
  outcome_fold (plugin_hears passive fuel) (RaisedServerStartup m :: rs) st = outcome_fold (plugin_hears passive fuel) rs st.
Proof. done. Qed.

Lemma hears_gone fuel slots st : roster_ok st ->
  exists st', outcome_fold (plugin_hears passive (S fuel)) (map RaisedClientDisconnected slots) st = Returns st' /\ roster_ok st' /\
    forall s, player_at st' s = if bool_decide (s ∈ slots) then None else player_at st s.
Proof.
  revert st; induction slots as [|slot slots IH]; intros st Hok; [by exists st|]. cbn [map outcome_fold plugin_hears].
  destruct (hears_disconnected fuel slot st Hok) as (st1 & -> & Hok1 & H1). cbn [outcome_bind]. destruct (IH st1 Hok1) as (st2 & -> & Hok2 & H2).
  exists st2. split; [done|]. split; [done|]. intros s. rewrite H2, H1. destruct (Z.eqb_spec s slot) as [->|Hne].
  - rewrite (bool_decide_true (slot ∈ slot :: slots)) by set_solver. by destruct (bool_decide _).
  - assert (bool_decide (s ∈ slot :: slots) = bool_decide (s ∈ slots)) as -> by (apply bool_decide_ext; set_solver). done.
Qed.

(** Who is on the server, from the engine's calls alone, and as whom. *)
Definition announced (c : engine_call) (on : gmap Z Player) : gmap Z Player :=
  match c with
  | StartupServer _ => ∅
  | OnClientConnected slot name xuid address => if IsValidSlot slot then <[slot := mkPlayer slot (to_int64 xuid) (Text_ name) (Text_ address)]> on else on
  | ClientPutInServer slot name xuid address =>
      if IsValidSlot slot && bool_decide (on !! slot = None) then <[slot := mkPlayer slot (to_int64 xuid) (Text_ name) (Text_ address)]> on else on
  | ClientDisconnect slot _ => delete slot on
  | _ => on
  end.

Lemma joined_announced c (on : gmap Z Player) : joined c (dom on) = dom (announced c on).
Proof.
  destruct c; cbn; try done; [| |by rewrite dom_delete_L].
  - destruct (IsValidSlot slot); [by rewrite dom_insert_L|done].
  - destruct (IsValidSlot slot); cbn [andb]; [|done]. destruct (on !! slot) as [p|] eqn:E; cbn.
    + assert (slot ∈ dom on) by (apply elem_of_dom; by eexists). set_solver.
    + by rewrite dom_insert_L.
Qed.

(** The roster and the table agree where a player can be. *)
Definition follows (st : Roster) (on : gmap Z Player) : Prop := roster_ok st /\ forall slot, IsValidSlot slot = true -> player_at st slot = on !! slot.

Lemma follows_step fuel c st (on : gmap Z Player) : follows st on ->
  exists st', outcome_fold (plugin_hears passive (S fuel)) (said c (dom on)) st = Returns st' /\ follows st' (announced c on).
Proof.
  intros [Hok Hf].
  assert (forall slot steamId name ip on', (forall s, IsValidSlot s = true -> on' !! s = if s =? slot then Some (mkPlayer slot steamId name ip) else on !! s) ->
    exists st', outcome_fold (plugin_hears passive (S fuel)) [RaisedClientConnected slot steamId name ip] st = Returns st' /\ follows st' on') as Hadd.
  { intros slot steamId name ip on' Hon. cbn [outcome_fold plugin_hears]. destruct (hears_connected fuel slot steamId name ip st Hok) as (st1 & -> & Hok1 & H1).
    exists st1. split; [done|]. split; [done|]. intros s Hs. rewrite H1, Hon by done. destruct (s =? slot); [done|by apply Hf]. }
  destruct c; cbn [said announced]; try by exists st.
  - rewrite hears_nothing. destruct (hears_gone fuel (List.filter (fun slot => bool_decide (slot ∈ dom on)) all_slots) st Hok) as (st1 & -> & Hok1 & H1).
    exists st1. split; [done|]. split; [done|]. intros s Hs. rewrite H1, lookup_empty. destruct (bool_decide _) eqn:Hb; [done|]. rewrite Hf by done.
    apply bool_decide_eq_false in Hb. destruct (on !! s) as [p|] eqn:E; [|done]. destruct Hb. apply list_elem_of_In, filter_In.
    split; [apply list_elem_of_In; by apply all_slots_valid|]. apply bool_decide_true, elem_of_dom. by eexists.
  - apply Hadd. intros s Hs. destruct (Z.eqb_spec s slot) as [->|Hne]; [rewrite Hs; by rewrite lookup_insert_eq|].
    destruct (IsValidSlot slot); [by rewrite lookup_insert_ne|done].
  - destruct (IsValidSlot slot) eqn:Hv; cbn [andb]; [|by exists st]. destruct (on !! slot) as [p|] eqn:E.
    + rewrite (bool_decide_true (slot ∈ dom on)) by (apply elem_of_dom; by eexists). rewrite bool_decide_false by done. by exists st.
    + rewrite (bool_decide_false (slot ∈ dom on)) by (by rewrite elem_of_dom, E; intros []). rewrite bool_decide_true by done. cbn [negb].
      apply Hadd. intros s Hs. destruct (Z.eqb_spec s slot) as [->|Hne]; [by rewrite lookup_insert_eq|by rewrite lookup_insert_ne].
  - cbn [outcome_fold plugin_hears]. destruct (hears_disconnected fuel slot st Hok) as (st1 & -> & Hok1 & H1). exists st1. split; [done|]. split; [done|].
    intros s Hs. rewrite H1. destruct (Z.eqb_spec s slot) as [->|Hne]; [by rewrite lookup_delete_eq|]. rewrite lookup_delete_ne by done. by apply Hf.
  - cbn [outcome_fold plugin_hears]. destruct (hears_other fuel (OpFullyConnected slot) st Hok) as (st1 & -> & Hok1 & H1); [exists slot; by left|].
    exists st1. split; [done|]. split; [done|]. intros s Hs. rewrite H1. by apply Hf.
  - cbn [outcome_fold plugin_hears]. destruct (hears_other fuel (OpSettingsChanged slot) st Hok) as (st1 & -> & Hok1 & H1); [exists slot; by right|].
    exists st1. split; [done|]. split; [done|]. intros s Hs. rewrite H1. by apply Hf.
  - destruct manifest; by exists st.
Qed.

Lemma outcome_fold_app {A S} (f : S -> A -> outcome S) l1 l2 s : outcome_fold f (l1 ++ l2) s = outcome_bind (outcome_fold f l1 s) (outcome_fold f l2).
Proof. revert s; induction l1 as [|a l1 IH]; intros s; [done|]. cbn. destruct (f s a); cbn; [apply IH|done..]. Qed.

Lemma follows_run fuel cs st (on : gmap Z Player) : follows st on ->
  exists st', outcome_fold (plugin_hears passive (S fuel)) (all_said cs (dom on)) st = Returns st' /\
    follows st' (fold_left (fun on c => announced c on) cs on) /\ fold_left (fun on c => joined c on) cs (dom on) = dom (fold_left (fun on c => announced c on) cs on).
Proof.
  revert st on; induction cs as [|c cs IH]; intros st on Hf; [by exists st|]. cbn [all_said fold_left]. rewrite outcome_fold_app.
  destruct (follows_step fuel c st on Hf) as (st1 & -> & H1). cbn [outcome_bind]. rewrite joined_announced. apply (IH st1 _ H1).
Qed.


(** The same two plugins' host: Ann's map change, and Bob, who stays. *)
Definition bob_joins : list engine_call := ann_joins ++ [OnClientConnected 5 (Some $"Bob") 9 (Some $"5.6.7.8"); ClientFullyConnect 5].

