(* ===== verification/MapStart.v ===== *)
(** * A map's start in a plugin: [PluginModule::OnServerStartup] in [App/Plugin.cpp], over [ServerServices.v], [Entities.v], [GameEvents.v]
      and [ConVarQueries.v]; and the presses [Ui/ScreenManager.cpp] listens for, over [Events.v]

    What the plugin's services hold when the handlers of [Map.Started] run, whatever the maps before left behind. *)

From S2P Require Import Prelude Text Identity Errors Signals Events ConVarQueries GameEvents ServerServices Entities.

Section MapStart.
  Context {T : Type} (status_valid : Z -> bool).

(** The services a map's start changes, and the names [Map.Started] was raised with. *)
Record PluginServices := mkServices { current : text; entities : EntitySystem; game_events : GameEvents T; convars : ClientConVars; started : list text }.

Definition PluginServices_new (manager hook : bool) (e : Engine) : PluginServices :=
  mkServices [] (EntitySystem_new e) (GameEvents_new manager) (ConVars_new hook) [].

(** [e] is what the engine holds then, [accepts] the events its new manager knows. *)
Definition PluginModule_OnServerStartup (mapName : text) (e : Engine) (accepts : text -> bool) (s : PluginServices) : PluginServices :=
  let s := mkServices mapName (entities s) (game_events s) (convars s) (started s) in
  let s := mkServices (current s) (Entities.OnServerStartup e (entities s)) (game_events s) (convars s) (started s) in
  let s := mkServices (current s) (entities s) (GameEvents.OnServerStartup accepts (game_events s)) (convars s) (started s) in
  let s := mkServices (current s) (entities s) (game_events s) (ConVarQueries.OnServerStartup (convars s)) (started s) in
  mkServices (current s) (entities s) (game_events s) (convars s) (started s ++ [mapName]).

(** Everything that happens to these services: maps start, entities are looked up, handlers come and go and the engine forgets its
    listeners, clients are asked and answer. *)
Inductive plugin_event :=
| MapBegins (mapName : text) (e : Engine) (accepts : text -> bool)
| LooksUp (e : Engine)
| EventsStep (s : step T)
| ConVarsStep (c : convars_event).

Definition on_plugin_event (s : PluginServices) (ev : plugin_event) : PluginServices :=
  match ev with
  | MapBegins mapName e accepts => PluginModule_OnServerStartup mapName e accepts s
  | LooksUp e => mkServices (current s) (Raw e (entities s)).2 (game_events s) (convars s) (started s)
  | EventsStep st => mkServices (current s) (entities s) (run_step (game_events s) st) (convars s) (started s)
  | ConVarsStep c => mkServices (current s) (entities s) (game_events s) (on_convars_event status_valid (convars s) c) (started s)
  end.

Definition run_plugin_events (evs : list plugin_event) (s : PluginServices) : PluginServices := fold_left on_plugin_event evs s.

Definition maps_of (evs : list plugin_event) : list text := omap (fun ev => match ev with MapBegins name _ _ => Some name | _ => None end) evs.
Definition steps_of (evs : list plugin_event) : list (step T) :=
  omap (fun ev => match ev with MapBegins _ _ accepts => Some (Starts accepts) | EventsStep st => Some st | _ => None end) evs.
Definition moments_of (evs : list plugin_event) : list moment :=
  omap (fun ev => match ev with MapBegins _ e _ => Some (MapStarts e) | LooksUp e => Some (Asks e) | _ => None end) evs.

(** Each service lives through what concerns it, in the order it happens. *)
Lemma services_apart evs s :
  let s' := run_plugin_events evs s in
  entities s' = live_through (moments_of evs) (entities s) /\ game_events s' = fold_left run_step (steps_of evs) (game_events s) /\
  started s' = started s ++ maps_of evs /\ current s' = default (current s) (last (maps_of evs)).
Proof.
  revert s; induction evs as [|ev evs IH]; intros s; [cbn; by rewrite app_nil_r|]. cbn zeta. unfold run_plugin_events in *. cbn [fold_left].
  destruct (IH (on_plugin_event s ev)) as (-> & -> & -> & ->). destruct ev; cbn; split_and!; try done.
  - by rewrite <- app_assoc.
  - change (default mapName (last (maps_of evs)) = default (current s) (last (mapName :: maps_of evs))). rewrite last_cons. by destruct (last (maps_of evs)).
Qed.

End MapStart.
Arguments PluginServices : clear implicits.
Arguments plugin_event : clear implicits.


Definition engine_of (address : Z) : Engine := mkEngine true true (Some address) None (fun _ _ => true).
Definition two_maps : list (plugin_event nat) :=
  [LooksUp (engine_of 100); EventsStep (Adds (fun _ => true) $"round_end" 1%nat); MapBegins $"de_dust2" (engine_of 200) (fun _ => true);
   LooksUp (engine_of 200); EventsStep Resets].


(** ** The presses a plugin listens for *)

(** [ScreenManager]'s bindings, by the names they are missed under. *)
Record ScreenBindings := mkScreenBindings {
  CustomHudSetHasClass : bool; CustomHudSetHasClassForPlayer : bool; CustomHudSetDialogVariable : bool; CustomHudSetDialogVariableForPlayer : bool;
  CustomHudSetInputCapture : bool; FilterMessage : bool; ClientMessageFilter : bool; b_ClientSlot : bool }.

Definition needed (b : ScreenBindings) : list (bool * text) :=
  [(CustomHudSetHasClass b, $"CCSCustomHudLayout::SetHasClass"); (CustomHudSetHasClassForPlayer b, $"CCSCustomHudLayout::SetHasClassForPlayer");
   (CustomHudSetDialogVariable b, $"CCSCustomHudLayout::SetDialogVariableString");
   (CustomHudSetDialogVariableForPlayer b, $"CCSCustomHudLayout::SetDialogVariableStringForPlayer");
   (CustomHudSetInputCapture b, $"CCSCustomHudLayout::SetInputCaptureEnabled"); (FilterMessage b, $"INetworkMessageProcessingPreFilter::FilterMessage");
   (ClientMessageFilter b, $"CServerSideClient::INetworkMessageProcessingPreFilter"); (b_ClientSlot b, $"CServerSideClientBase::m_nClientSlot")].

Definition Screens_Available (b : ScreenBindings) (visibility : Status) : Status :=
  match List.find (fun n => negb n.1) (needed b) with
  | Some (_, key) => Err (Error_Unsupported ($"gamedata '" ++ key ++ $"' did not bind"))
  | None => visibility
  end.

(** [_host]: whether it holds the subscription [_connect] gave; how often that was asked. *)
Record HostPresses := mkHostPresses { _host : bool; connects : nat }.

Definition ListenForPresses (b : ScreenBindings) (p : HostPresses) : bool * HostPresses :=
  if negb (FilterMessage b) || negb (ClientMessageFilter b) then (false, p) else (true, mkHostPresses true (S (connects p))).

(** [Pressed], as the constructor makes it. *)
Definition Pressed (b : ScreenBindings) : EventLifecycle HostPresses :=
  mkLifecycle (Some (ListenForPresses b)) (Some (fun p => mkHostPresses false (connects p))).

Inductive pressed_step {H} (b : ScreenBindings) : Registry H * HostPresses -> Registry H * HostPresses -> Prop :=
| pressed_subscribe ev p handler id ev' p' : Event_subscribe (Pressed b) ev p handler = (id, ev', p') -> pressed_step b (ev, p) (ev', p')
| pressed_unsubscribe ev p id ev' p' : Event_unsubscribe (Pressed b) ev p id = (ev', p') -> pressed_step b (ev, p) (ev', p')
| pressed_begins ev p : pressed_step b (ev, p) (DispatchScope_enter ev, p)
| pressed_ends ev p : 0 < dispatchDepth ev -> pressed_step b (ev, p) (DispatchScope_leave ev, p).

Lemma Available_all b visibility : Screens_Available b visibility = Ok tt <-> visibility = Ok tt /\ Forall (fun n => n.1 = true) (needed b).
Proof.
  unfold Screens_Available. destruct (List.find _ _) as [[bound key]|] eqn:E.
  - apply List.find_some in E as [Hin Hb]. split; [done|]. intros [_ H]. rewrite List.Forall_forall in H. apply H in Hin. cbn in *. by rewrite Hin in Hb.
  - split; [|tauto]. intros H. split; [done|]. apply List.Forall_forall. intros x Hin. by apply (List.find_none _ _ E), negb_false_iff in Hin.
Qed.

(** Whoever listens for presses and stops, also while one is raised, and whatever bound: the plugin is connected to the host's presses exactly while
    somebody listens here, and nobody listens without the bindings a press is read with. *)
Theorem connected_while_heard {H} b (ev : Registry H) p :
  rtc (pressed_step b) (Registry_new, mkHostPresses false 0) (ev, p) ->
  wf ev /\ _host p = negb (Registry_Empty ev) /\ (_host p = true -> FilterMessage b = true /\ ClientMessageFilter b = true).
Proof.
  set (ok := fun s : Registry H * HostPresses => wf s.1 /\ _host s.2 = negb (Registry_Empty s.1) /\ (_host s.2 = true -> FilterMessage b = true /\ ClientMessageFilter b = true)).
  assert (forall s s', pressed_step b s s' -> ok s -> ok s') as Hstep.
  { intros s s' Hs (Hw & Hh & Hb). destruct Hs as [ev0 p0 handler id ev' p' E|ev0 p0 id ev' p' E|ev0 p0|ev0 p0 Hd]; cbn [fst snd] in *.
    - unfold Event_subscribe in E. destruct handler as [h|]; [|by simplify_eq]. destruct (Registry_Add ev0 h) as [nid nev] eqn:EA.
      destruct (Add_nonempty _ _ _ _ Hw EA) as [Hwn Hne]. cbn [Pressed OnFirst] in E. destruct (Registry_Empty ev0) eqn:Ee.
      + unfold ListenForPresses in E. destruct (FilterMessage b) eqn:E1, (ClientMessageFilter b) eqn:E2; cbn in E; simplify_eq; unfold ok; cbn [fst snd _host];
          rewrite ?Hne, ?Ee; done.
      + simplify_eq. unfold ok. cbn. by rewrite Hne.
    - unfold Event_unsubscribe in E. destruct (Registry_Remove ev0 id) as [r nev] eqn:ER. destruct (Remove_nonempty _ _ _ _ Hw ER) as [Hwn Hr].
      destruct r; cbn in E; [|by simplify_eq]. destruct (Registry_Empty nev) eqn:En; simplify_eq; unfold ok; cbn; rewrite ?En; [done|]. by rewrite Hr in Hh.
    - split; [by apply enter_wf|done].
    - destruct (leave_abs ev0 Hw Hd) as (Ha & Hwl & _). split; [done|exact (conj Hh Hb)]. }
  intros Hr. change (ok (ev, p)). remember (Registry_new, mkHostPresses false 0) as s0 eqn:E0. assert (ok s0) as H0 by (subst; split; [apply Registry_new_wf|done]).
  clear E0. induction Hr; eauto.
Qed.
